(* ===== verification/_CoqProject ===== *)
-Q . S2P
Prelude.v
Integer.v
BitVector.v
Node.v
Cardinality.v
BitblastUtils.v
BitblastStrategies.v
BitblastCorrect.v
Circuits.v
CnfStream.v
CnfCorrect.v
Context.v
ContextCorrect.v
ContextSession.v
ContextMM.v
ContextMMCorrect.v
CDO.v
CDList.v
CDQueue.v
CDHashMap.v
CDHashMapCorrect.v
BVRules.v
BVRulesCorrect.v
BVEvalCorrect.v
BVCoreCorrect.v
NaryOps.v
BVSimplify.v
BVSimplifyCorrect.v
BVNormalize.v
BVNormalizeCorrect.v
BVLinearCorrect.v
BVBitwiseCorrect.v
Subterm.v
BVSolveEq.v
BVSolveEqCorrect.v
BVRewriter.v
BVRewriterCorrect.v
BVRewriteTheorems.v
BoolRewriter.v
BoolRewriterCorrect.v
RewriterLoop.v
RewriterLoopCorrect.v
BoolFormulas.v
EagerBitblaster.v
PlainCircuits.v
EagerCorrect.v
EagerSat.v
CircuitPropagator.v
CircuitCorrect.v
Substitutions.v
SubstitutionsCorrect.v
NonClausal.v
NonClausalCorrect.v
CDInsertHashMap.v
CDInsertHashMapCorrect.v
EqualityEngine.v
EqualityClasses.v
EqualityBacktrack.v
EqualityForest.v
EqualityClosure.v
EqualityPropagate.v
EqualityNodes.v
EqualityTerms.v
EqualityAdd.v
EqualityModel.v
EqualityEngineCorrect.v
EqualityExplain.v
EqualityExplainCorrect.v
