(* ===== verification/Prelude.v ===== *)
(** * A verification development for CVC4's bit-vector core, propositional preprocessing and backtrackable state

    CVC4 is an SMT solver: formulas arrive as terms ([src/src/expr]), are rewritten
    and preprocessed ([src/src/smt], [src/src/theory/rewriter.cpp]), abstracted to
    clauses ([src/src/prop]) and decided by a SAT solver with the theories
    ([src/src/theory]).  The state that must follow the SAT solver's backtracking
    lives in context-dependent objects ([src/src/context]).

    This development follows one formula through the eager bit-vector solver, from
    the constants it contains to the answer and the model; the preprocessing of
    propositional problems, from the rewriter to the simplified assertions; and the
    backtrackable state everything else relies on.

    ** Files, and the code they model

    - [Prelude]: the error monad [M] and the state and error monad [SM], loops, the
      weakest-precondition predicate [wp], facts about bits of integers.
    - [Integer]: [util/integer_gmp_imp.{h,cpp}].  GMP is the class [Gmp] with the
      documented laws [GmpSpec]; [gmp_ref] is a concrete instance.
    - [BitVector]: [util/bitvector.h], against the reference semantics [Sem] of the
      SMT-LIB theory of bit-vectors.  32-bit sizes wrap as [unsigned] does.
    - [Node]: terms ([expr/node.h]), the type rules
      ([theory/{bv,booleans,builtin}/*_type_rules.h]) and the semantics [eval] of
      quantifier-free bit-vector terms in an environment.
    - [Cardinality]: [util/cardinality.{h,cpp}] and the cardinalities of types.
    - [BitblastUtils], [BitblastStrategies]: [theory/bv/bitblast_utils.h],
      [theory/bv/bitblast_strategies_template.h] and the strategy tables of
      [bitblaster_template.h], generic in the type of bits ([BitOps]) and in the
      bit-blaster they call back ([TBitblaster]).  [BitblastCorrect] proves every
      strategy correct against these interfaces, [Circuits] states the properties
      of the circuits.
    - [CnfStream], [CnfCorrect]: [prop/cnf_stream.cpp], the Tseitin conversion, and
      its exactness.
    - [EagerBitblaster], [PlainCircuits], [EagerCorrect], [EagerSat]:
      [theory/bv/eager_bitblaster.cpp] and [theory/bv/bv_eager_solver.cpp]: the caches, the
      mutual recursion of bit-blaster, rewriter and CNF stream, the session of the solver, the
      model.  [PlainCircuits] runs the strategies without the caches, which tells which
      circuits the solver hands to the rewriter.
    - [BVRules], [BVSimplify], [BVNormalize], [BVSolveEq], [Subterm], [BVRewriter]: the
      rewriter of bit-vectors, [theory/bv/theory_bv_rewrite_rules*.h] and
      [theory/bv/theory_bv_rewriter.cpp]: rules with [applies] and [apply], the strategies
      that run them, one handler per kind, [preRewrite] and [postRewrite].  [NaryOps]
      (the interface [ACKind] of associative and commutative operators) and the files
      [BVRulesCorrect], [BVEvalCorrect], [BVCoreCorrect], [BVSimplifyCorrect],
      [BVNormalizeCorrect], [BVLinearCorrect], [BVBitwiseCorrect], [BVSolveEqCorrect] and
      [BVRewriterCorrect] prove the rules and the handlers, [BVRewriteTheorems] states the
      results.
    - [Context], [ContextCorrect], [ContextSession]: [context/context.{h,cpp}] at the
      level of pointers (scopes, intrusive lists, saved versions, regions), its
      invariant, and the refinement to a stack of snapshots.
    - [ContextMM], [ContextMMCorrect]: [context/context_mm.{h,cpp}], the region-based
      allocator below contexts, over [malloc] as a parameter ([MallocSpec]; [malloc_ref] is
      a concrete instance).
    - [CDO], [CDList], [CDQueue]: [context/cdo.h], [cdlist.h], [cdqueue.h], instances
      of the interface [ContextDataSpec] between contexts and their objects.
    - [CDHashMap], [CDHashMapCorrect]: [context/cdhashmap.h], elements that are context
      objects in a ring, and the refinement to a stack of association lists.
    - [CDInsertHashMap], [CDInsertHashMapCorrect]: [context/cdinsert_hashmap.h], [cdhashset.h],
      a map that saves only its size.
    - [BoolRewriter], [BoolRewriterCorrect]: [theory/booleans/theory_bool_rewriter.cpp].
    - [RewriterLoop], [RewriterLoopCorrect], [BoolFormulas]: [theory/rewriter.cpp] with its
      caches, over the theory rewriters as an interface ([TheoryRewriters] with the contract
      [RewritersSpec]), and the instance for Boolean formulas.
    - [CircuitPropagator], [CircuitCorrect]: [theory/booleans/circuit_propagator.{h,cpp}].
    - [Substitutions], [SubstitutionsCorrect]: [theory/substitutions.{h,cpp}].
    - [NonClausal], [NonClausalCorrect]: [SmtEnginePrivate::nonClausalSimplify] of
      [smt/smt_engine.cpp], which composes the previous three with the theories' [ppAssert].
    - [EqualityEngine]: [theory/uf/equality_engine.{h,cpp}], congruence closure with
      backtracking, shared by the theories, for an engine without triggers.  [EqualityClasses] (the
      rings of classes), [EqualityBacktrack] (what is undone), [EqualityClosure],
      [EqualityPropagate] and [EqualityNodes] (the invariant, on node ids), [EqualityTerms]
      (congruences of terms, and what a node stands for), [EqualityAdd] (currying),
      [EqualityModel] (a closed state gives every term a value) and [EqualityEngineCorrect]
      (sessions) prove it.  [EqualityExplain] models its explanations (without proofs);
      [EqualityForest] (walks in the equality graph) and [EqualityExplainCorrect] prove them.

    ** What the theorems show

    The constants: [BitVector]'s operations compute the SMT-LIB operations, and the
    corner cases of [Integer] (Euclidean division, powers of two, conversions).
    The circuits: adder, multiplier, divider, comparators and shifters compute
    those operations on vectors of bits.  The conversion: the clauses have exactly
    the models of the formula.  The eager solver, with the rewriter of the program: asserting
    formulas whose atoms are in normal form and whose circuits stay below the limit of node
    builders never throws, the clauses are satisfiable exactly when the formulas are, the
    model [collectModelInfo] reads back satisfies the formulas, and with a correct SAT solver
    [checkSat] answers correctly.  The rewriter: on a term that has a value, stays below
    the limit of node builders ([MAX_CHILDREN], 2^26 - 1 children) and does not divide 0 by
    itself, the handlers answer with a term of the same value, whatever the order of nodes
    and hash maps; only an equation may fail one of the two assertions that close [SolveEq],
    and the theorems say when; each rule is sound on its own, or on what the rules run before it leave; its
    worklist loops end; and where two rules do not do what they are meant to.  The
    context: every sequence of pushes, pops, creations, destructions and changes of
    objects the client may issue behaves as on a stack of snapshots, and a pop restores
    every object; the queue, the list and the two hash maps built on it behave as backtrackable
    queues, lists and association lists.  The memory manager, for requests of at most the
    maximum allocation size: blocks in use never overlap and lie in chunks in
    use, chunks are neither leaked nor freed twice, requests are granted and larger ones refused
    (those near 2^64 wrap, and are granted), a pop restores the cursor.  The preprocessing: the Boolean rewriter
    and the loop of the rewriter keep the value of formulas below the limit of node builders,
    and terminate; the circuit
    propagator assigns only values that hold in every model of the assertions, reports a
    conflict only when there is none, and learns the literal of every assigned atom; a
    substitution map follows its equations to a fixed point over any sequence of operations
    and scopes; and a round of non-clausal simplification, in and
    outside of incremental mode, keeps the models of the assertions.
    The equality engine: over any sequence of additions, assertions and scopes it decides the least
    congruence with the facts in scope, finds a conflict exactly when distinct constants are
    equal in it, and a pop restores the state of its push; operators need a fixed arity,
    and an example shows why.  Its explanations return the reasons of facts in scope that entail what
    they explain, conflicts included.

    ** Conventions

    Exceptions, failed assertions and undefined behaviour (an access outside a
    vector, a dangling pointer) are values [Throw e], so that returning [Ok] includes
    their absence.  Loops and recursion that are not structural take fuel and throw
    [OutOfFuel] without it; every theorem says that the operation returns, so the
    fuel chosen is enough: the size of the heap for the lists of a scope, the width
    for the divider, the number of nodes of a term for the worklists of the rewriter, for the
    bit-blaster twice the weighted size of an atom ([node_size]), for the rewriter in it a
    bound computed from the formula ([eager_fuel], [rewrite_fuel]), and for the propagation of the
    equality engine the candidates and, for each class, one more than all use lists hold.
    An explanation searches each node of a tree once, and recurses to older edges.

    ** What is not modelled

    Hash-consing, reference counts and attributes of nodes other than the caches of the
    rewriter; the SAT solver's search (a parameter, with its correctness as a hypothesis); the
    resource manager, which may interrupt a rewrite; the rewriters of other theories (a
    parameter of the loop, any function); the nested calls of
    [Rewriter::rewrite] in [SolveEq], a parameter ([NestedRewriter]) that may be any function;
    debug assertions of
    [nonClausalSimplify] (every other assertion is modelled); triggers, interpreted kinds
    and proofs of the equality engine; the lazy bit-vector solver, other
    theories, the other passes of the SMT engine, parsers, printers and proofs. *)

From stdpp Require Export base option list numbers gmap.
From Stdlib Require Export ZArith Lia Bool.


Declare Scope cvc_scope.
Delimit Scope cvc_scope with cvc.

(** ** The exceptions of the code

    [CheckArgument] and [Assert] throw, [Unreachable()] and [Unimplemented()]
    throw, the type rules throw, and an access outside a [std::vector] is
    undefined behaviour; each is a value of [exn] here. *)
Inductive exn : Set :=
  | IllegalArgument
  | AssertionFailed
  | OutOfBounds
  | UnreachableCode
  | UnimplementedCode
  | TypeCheckingException
  | BadAlloc
  | LogicException
  | OutOfFuel.  (* not an exception of the code: the model's recursion bound *)

#[global] Instance exn_eq_dec : EqDecision exn.
Proof. solve_decision. Defined.

(** ** The error monad *)
Inductive M (A : Type) : Type :=
  | Ok (a : A)
  | Throw (e : exn).
Arguments Ok {A} _.
Arguments Throw {A} _.

#[global] Instance M_ret : MRet M := @Ok.
#[global] Instance M_bind : MBind M := fun A B f m =>
  match m with Ok a => f a | Throw e => Throw e end.
#[global] Instance M_fmap : FMap M := fun A B f m =>
  match m with Ok a => Ok (f a) | Throw e => Throw e end.

(** [Assert(c)] and [CheckArgument(c, ...)]. *)
Definition check (e : exn) (c : bool) : M unit :=
  if c then Ok tt else Throw e.

Definition isOk {A} (m : M A) : bool := match m with Ok _ => true | Throw _ => false end.

Lemma M_bind_Ok {A B} (a : A) (f : A -> M B) : (Ok a ≫= f) = f a.
Proof. reflexivity. Qed.

Lemma M_bind_inv {A B} (m : M A) (f : A -> M B) b :
  (m ≫= f) = Ok b -> exists a, m = Ok a /\ f a = Ok b.
Proof. destruct m; cbn; [eauto | discriminate]. Qed.

(** Peel the binds of a successful computation. *)
Ltac mbind_inv :=
  repeat match goal with
  | H : (_ ≫= _) = Ok _ |- _ =>
      let a := fresh "a" in let Ha := fresh "Ha" in
      apply M_bind_inv in H as (a & Ha & H)
  | H : Ok _ = Ok _ |- _ => injection H as H
  | H : check _ ?c = Ok _ |- _ =>
      unfold check in H; destruct c eqn:?; [clear H | discriminate H]
  end.

(** ** [std::vector] access *)
Definition vget {A} (v : list A) (i : nat) : M A :=
  match v !! i with Some x => Ok x | None => Throw OutOfBounds end.

Definition vset {A} (v : list A) (i : nat) (x : A) : M (list A) :=
  if decide (i < length v) then Ok (<[i:=x]> v) else Throw OutOfBounds.

Lemma vget_Ok {A} (v : list A) i x : v !! i = Some x -> vget v i = Ok x.
Proof. unfold vget. by intros ->. Qed.

Lemma vset_Ok {A} (v : list A) i x : i < length v -> vset v i x = Ok (<[i:=x]> v).
Proof. unfold vset. intros. by rewrite decide_True. Qed.

(** ** Counting loops

    [for_from n i f s] is [for (k = i; k < i + n; ++k) s = f(k, s);], where the
    body may throw. *)
Fixpoint for_from {S} (n i : nat) (f : nat -> S -> M S) (s : S) : M S :=
  match n with
  | O => Ok s
  | Datatypes.S n' => s' ← f i s; for_from n' (Datatypes.S i) f s'
  end.

(** The loop rule: an invariant that holds at the start and that every
    iteration keeps (without throwing) holds at the end. *)
Lemma for_from_inv {S} (P : nat -> S -> Prop) (f : nat -> S -> M S) n i s :
  P i s ->
  (forall k t, i <= k < i + n -> P k t ->
     exists t', f k t = Ok t' /\ P (Datatypes.S k) t') ->
  exists s', for_from n i f s = Ok s' /\ P (i + n) s'.
Proof.
  revert i s. induction n as [|n IH]; intros i s HP Hstep; cbn.
  - exists s. rewrite Nat.add_0_r. done.
  - destruct (Hstep i s) as (t & -> & Ht); [lia | done |]. rewrite M_bind_Ok.
    destruct (IH (Datatypes.S i) t) as (s' & -> & Hs'); [done | |].
    + intros k u Hk Hu. apply Hstep; [lia | done].
    + exists s'. split; [done |]. by replace (i + Datatypes.S n) with (Datatypes.S i + n) by lia.
Qed.

(** ** State and errors

    [SM S A]: a computation over the mutable state [S] that returns an [A] or
    throws. *)
Definition SM (S A : Type) : Type := S -> M (A * S).
#[global] Instance SM_ret S : MRet (SM S) := fun A a s => Ok (a, s).
#[global] Instance SM_bind S : MBind (SM S) := fun A B f m s =>
  match m s with Ok (a, s') => f a s' | Throw e => Throw e end.
Definition lift {S A} (m : M A) : SM S A := fun s =>
  match m with Ok a => Ok (a, s) | Throw e => Throw e end.
Definition modify {S} (f : S -> S) : SM S unit := fun s => Ok (tt, f s).
Definition gets {S A} (f : S -> A) : SM S A := fun s => Ok (f s, s).

(** One step of a run. *)
Lemma run_bind {S A B} {m : SM S A} {f : A -> SM S B} {s s1 a} : m s = Ok (a, s1) -> (mbind f m) s = f a s1.
Proof. intros E. unfold mbind, SM_bind. by rewrite E. Qed.
Lemma run_gets {S A B} (g : S -> A) (f : A -> SM S B) s : (mbind f (gets g)) s = f (g s) s.
Proof. done. Qed.
Lemma run_modify {S B} (g : S -> S) (f : unit -> SM S B) s : (mbind f (modify g)) s = f tt (g s).
Proof. done. Qed.
Lemma run_check {S B} (b : bool) e (f : unit -> SM S B) s : b = true -> (mbind f (lift (check e b))) s = f tt s.
Proof. by intros ->. Qed.

(** [for (k = i; k < i + n; ++k) a = f(k, a);] over a state. *)
Fixpoint sfor {S A} (n i : nat) (f : nat -> A -> SM S A) (a : A) : SM S A :=
  match n with
  | O => mret a
  | Datatypes.S n' => a' ← f i a; sfor n' (Datatypes.S i) f a'
  end.

(** Total correctness: started in [s], [m] returns, keeps the invariant [Inv],
    only extends the state, and ends with a result and a state in [Q]. *)
Section wp.
Context {S : Type} (Inv : S -> Prop) (ext : S -> S -> Prop).
Context {Hext : PreOrder ext}.

Definition wp {A} (m : SM S A) (Q : S -> A -> Prop) (s : S) : Prop :=
  exists s' a, m s = Ok (a, s') /\ Inv s' /\ ext s s' /\ Q s' a.

Lemma wp_ret {A} (a : A) (Q : S -> A -> Prop) s : Inv s -> Q s a -> wp (mret a) Q s.
Proof. intros. exists s, a. done. Qed.

Lemma wp_bind {A B} (m : SM S A) (f : A -> SM S B) (Q : S -> A -> Prop) (R : S -> B -> Prop) s :
  wp m Q s ->
  (forall s' a, Inv s' -> ext s s' -> Q s' a -> wp (f a) R s') ->
  wp (m ≫= f) R s.
Proof.
  intros (s1 & a & Hm & Hi & He & Hq) Hf. destruct (Hf s1 a Hi He Hq) as (s2 & b & Hb & Hi2 & He2 & Hr).
  exists s2, b. split; [unfold mbind, SM_bind; by rewrite Hm |]. split; [done |]. split; [by etrans | done].
Qed.

Lemma wp_mono {A} (m : SM S A) (Q R : S -> A -> Prop) s :
  wp m Q s -> (forall s' a, Inv s' -> ext s s' -> Q s' a -> R s' a) -> wp m R s.
Proof. intros (s1 & a & ? & ? & ? & ?) HQ. exists s1, a. auto. Qed.

(** A step that only computes. *)
Lemma wp_lift {A B} (m : M A) (a : A) (f : A -> SM S B) (R : S -> B -> Prop) s :
  m = Ok a -> wp (f a) R s -> wp (lift m ≫= f) R s.
Proof. by intros ->. Qed.

Lemma wp_lift_end {A} (m : M A) (a : A) (R : S -> A -> Prop) s :
  Inv s -> m = Ok a -> R s a -> wp (lift m) R s.
Proof. intros ? -> ?. exists s, a. done. Qed.

(** The loop rule. *)
Lemma wp_for {A} (P : nat -> S -> A -> Prop) (f : nat -> A -> SM S A) n i a s :
  Inv s -> P i s a ->
  (forall k t b, i <= k < i + n -> Inv t -> ext s t -> P k t b -> wp (f k b) (P (Datatypes.S k)) t) ->
  wp (sfor n i f a) (P (i + n)) s.
Proof.
  revert i a s. induction n as [|n IH]; intros i a s Hi HP Hstep; cbn.
  - rewrite Nat.add_0_r. by apply wp_ret.
  - eapply wp_bind; [apply Hstep; [lia | done | reflexivity | done] |].
    intros t b Ht He Hb. replace (i + Datatypes.S n) with (Datatypes.S i + n) by lia.
    apply IH; [done | done |]. intros k u c Hk Hu Heu Hc. apply Hstep; [lia | done | by etrans | done].
Qed.
End wp.

(** ** Integers and their bits *)
Section zbits.
Local Open Scope Z_scope.

Lemma pow2_pos n : 0 < 2 ^ n \/ n < 0.
Proof. destruct (Z.neg_nonneg_cases n); [by right | left; by apply Z.pow_pos_nonneg]. Qed.

Lemma pow2_gt0 n : 0 <= n -> 0 < 2 ^ n.
Proof. intros. by apply Z.pow_pos_nonneg. Qed.

Lemma pow2_ge1 n : 0 <= n -> 1 <= 2 ^ n.
Proof. intros H. apply pow2_gt0 in H. lia. Qed.

Lemma pow2_le n m : 0 <= n <= m -> 2 ^ n <= 2 ^ m.
Proof. intros. apply Z.pow_le_mono_r; lia. Qed.

Lemma pow2_lt n m : 0 <= n < m -> 2 ^ n < 2 ^ m.
Proof. intros. apply Z.pow_lt_mono_r; lia. Qed.

Lemma pow2_S n : 0 <= n -> 2 ^ (n + 1) = 2 * 2 ^ n.
Proof. intros. rewrite Z.pow_add_r by lia. lia. Qed.

Lemma pow2_half n : 1 <= n -> 2 ^ n = 2 * 2 ^ (n - 1).
Proof. intros. rewrite <- pow2_S by lia. f_equal. lia. Qed.

(** A value below [2^n] has no bit at or above [n]. *)
Lemma testbit_high z n i : 0 <= z < 2 ^ n -> n <= i -> Z.testbit z i = false.
Proof.
  intros Hz Hi. destruct (decide (0 <= n)).
  - rewrite <- (Z.mod_small z (2 ^ n)) by done. apply Z.mod_pow2_bits_high. lia.
  - rewrite Z.pow_neg_r in Hz by lia. lia.
Qed.

Lemma testbit_mod_pow2 z n i :
  0 <= n -> Z.testbit (z mod 2 ^ n) i = (i <? n) && Z.testbit z i.
Proof.
  intros. destruct (Z.ltb_spec i n); cbn.
  - destruct (Z.neg_nonneg_cases i); [by rewrite !Z.testbit_neg_r |].
    apply Z.mod_pow2_bits_low. lia.
  - apply Z.mod_pow2_bits_high. lia.
Qed.

Lemma mod_pow2_bound z n : 0 <= n -> 0 <= z mod 2 ^ n < 2 ^ n.
Proof. intros. apply Z.mod_pos_bound, pow2_gt0. done. Qed.

(** Two values below [2^n] with the same [n] low bits are equal. *)
Lemma bits_eq_below n x y :
  0 <= x < 2 ^ n -> 0 <= y < 2 ^ n ->
  (forall i, 0 <= i < n -> Z.testbit x i = Z.testbit y i) -> x = y.
Proof.
  intros Hx Hy H. apply Z.bits_inj'. intros i Hi.
  destruct (Z.lt_ge_cases i n); [by apply H |]. by rewrite !(testbit_high _ n).
Qed.

Lemma bit_range z n :
  0 <= n -> 0 <= z -> (forall i, n <= i -> Z.testbit z i = false) -> z < 2 ^ n.
Proof.
  intros Hn Hz H. replace z with (z mod 2 ^ n); [apply mod_pow2_bound; lia |].
  apply Z.bits_inj'. intros i Hi. rewrite testbit_mod_pow2 by lia.
  destruct (Z.ltb_spec i n); [done |]. rewrite H; [done | lia].
Qed.

Lemma div_mod_pow2 x l c :
  0 <= l -> 0 <= c -> x mod 2 ^ (l + c) / 2 ^ l = (x / 2 ^ l) mod 2 ^ c.
Proof.
  intros. apply Z.bits_inj'. intros i Hi.
  rewrite Z.div_pow2_bits, !testbit_mod_pow2, Z.div_pow2_bits by lia.
  destruct (Z.ltb_spec (i + l) (l + c)), (Z.ltb_spec i c); try lia; done.
Qed.

(** Concatenation of a high part and a low part below [2^n]. *)
Lemma testbit_concat h l n i :
  0 <= n -> 0 <= l < 2 ^ n -> 0 <= i ->
  Z.testbit (h * 2 ^ n + l) i = if i <? n then Z.testbit l i else Z.testbit h (i - n).
Proof.
  intros Hn Hl Hi. replace (h * 2 ^ n + l) with (Z.lor (Z.shiftl h n) l).
  - rewrite Z.lor_spec, Z.shiftl_spec by lia.
    destruct (Z.ltb_spec i n).
    + by rewrite (Z.testbit_neg_r _ (i - n)) by lia.
    + rewrite (testbit_high l n) by lia. apply orb_false_r.
  -
    rewrite <- Z.lxor_lor, <- Z.add_nocarry_lxor; [by rewrite Z.shiftl_mul_pow2 by lia | |];
      (apply Z.bits_inj'; intros j Hj; rewrite Z.land_spec, Z.shiftl_spec, Z.bits_0 by lia;
       destruct (Z.lt_ge_cases j n);
       [by rewrite (Z.testbit_neg_r _ (j - n)) by lia
       | by rewrite (testbit_high l n), andb_false_r by lia]).
Qed.

Lemma testbit_half_pow2 z n :
  1 <= n -> 0 <= z < 2 ^ n -> Z.testbit z (n - 1) = (2 ^ (n - 1) <=? z).
Proof.
  intros Hn Hz. destruct (Z.leb_spec (2 ^ (n - 1)) z).
  - apply Z.testbit_true; [lia |]. rewrite <- (Z.div_unique z (2 ^ (n - 1)) 1 (z - 2 ^ (n - 1)));
      [done | | lia]. rewrite (pow2_half n) in Hz by lia. lia.
  - apply (testbit_high z (n - 1)); lia.
Qed.

End zbits.

Create HintDb pow2.
#[export] Hint Resolve pow2_gt0 pow2_ge1 pow2_le pow2_lt mod_pow2_bound : pow2.
