(* ===== verification/Integer.v ===== *)
(** * CVC4::Integer over GMP

    Models [src/util/integer_gmp_imp.h] and [src/util/integer_gmp_imp.cpp]: the
    arbitrary-precision integers every arithmetic component of the solver
    computes with.  An [mpz_class] value is a [Z], its ring operations and
    comparisons are those of [Z]; the [mpz_*] functions of the GMP library are
    the fields of the class [Gmp], what GMP's manual documents of them are the
    laws of [GmpSpec], and [gmp_ref] is a concrete instance.  The lemmas of this
    file give each operation its meaning; they are collected in the rewrite
    database [integer]. *)

From S2P Require Import Prelude.
From Stdlib Require Import Sorted.
Local Open Scope Z_scope.

(** The C types [uint32_t], [unsigned] (32 bits) and [unsigned long] (64 bits):
    conversion wraps around. *)
Definition u32 (z : Z) : Z := z mod 2 ^ 32.
Definition u64 (z : Z) : Z := z mod 2 ^ 64.

(** The positions of the one bits of a nonnegative integer, in increasing
    order: the specification side of [mpz_popcount] and [mpz_scan1]. *)
Definition one_bits (a : Z) : list Z :=
  filter (fun i => Z.testbit a i = true) (seqZ 0 (Z.log2 a + 1)).

Class Gmp : Type := {
  mpz_ior : Z -> Z -> Z;
  mpz_and : Z -> Z -> Z;
  mpz_xor : Z -> Z -> Z;
  mpz_com : Z -> Z;
  mpz_mul_2exp : Z -> Z -> Z;
  mpz_setbit : Z -> Z -> Z;
  mpz_tstbit : Z -> Z -> bool;
  mpz_fdiv_r_2exp : Z -> Z -> Z;
  mpz_fdiv_q_2exp : Z -> Z -> Z;
  mpz_fdiv_q : Z -> Z -> Z;
  mpz_fdiv_r : Z -> Z -> Z;
  mpz_cdiv_q : Z -> Z -> Z;
  mpz_cdiv_r : Z -> Z -> Z;
  mpz_sgn : Z -> Z;
  mpz_pow_ui : Z -> Z -> Z;
  mpz_gcd : Z -> Z -> Z;
  mpz_lcm : Z -> Z -> Z;
  mpz_gcdext : Z -> Z -> Z * Z * Z;
  mpz_divisible_p : Z -> Z -> bool;
  mpz_divexact : Z -> Z -> Z;
  mpz_get_ui : Z -> Z;
  mpz_get_si : Z -> Z;
  mpz_popcount : Z -> Z;
  mpz_scan1 : Z -> Z -> Z;
  mpz_sizeinbase2 : Z -> Z
}.

(** What the GMP manual says of these functions.  Division by zero is undefined
    in GMP, so the division laws require a nonzero divisor; bit counts are
    natural numbers. *)
Class GmpSpec (G : Gmp) : Prop := {
  mpz_ior_ok a b : mpz_ior a b = Z.lor a b;
  mpz_and_ok a b : mpz_and a b = Z.land a b;
  mpz_xor_ok a b : mpz_xor a b = Z.lxor a b;
  mpz_com_ok a : mpz_com a = Z.lnot a;
  mpz_mul_2exp_ok a n : 0 <= n -> mpz_mul_2exp a n = a * 2 ^ n;
  mpz_setbit_ok a n : 0 <= n -> mpz_setbit a n = Z.setbit a n;
  mpz_tstbit_ok a n : 0 <= n -> mpz_tstbit a n = Z.testbit a n;
  mpz_fdiv_r_2exp_ok a n : 0 <= n -> mpz_fdiv_r_2exp a n = a mod 2 ^ n;
  mpz_fdiv_q_2exp_ok a n : 0 <= n -> mpz_fdiv_q_2exp a n = a / 2 ^ n;
  mpz_fdiv_q_ok a b : b <> 0 -> mpz_fdiv_q a b = a / b;
  mpz_fdiv_r_ok a b : b <> 0 -> mpz_fdiv_r a b = a mod b;
  mpz_cdiv_q_ok a b : b <> 0 -> mpz_cdiv_q a b = - (- a / b);
  mpz_cdiv_r_ok a b : b <> 0 -> mpz_cdiv_r a b = - (- a mod b);
  mpz_sgn_ok a : mpz_sgn a = Z.sgn a;
  mpz_pow_ui_ok a n : 0 <= n -> mpz_pow_ui a n = a ^ n;
  mpz_gcd_ok a b : mpz_gcd a b = Z.gcd a b;
  mpz_lcm_ok a b : mpz_lcm a b = Z.lcm a b;
  mpz_gcdext_ok a b :
    let '(g, s, t) := mpz_gcdext a b in g = Z.gcd a b /\ g = s * a + t * b;
  mpz_divisible_p_ok n d : mpz_divisible_p n d = true <-> (d | n);
  mpz_divexact_ok q d : d <> 0 -> mpz_divexact (q * d) d = q;
  mpz_get_ui_ok a : mpz_get_ui a = u64 (Z.abs a);
  mpz_get_si_ok a : - 2 ^ 63 <= a < 2 ^ 63 -> mpz_get_si a = a;
  mpz_popcount_ok a : 0 <= a -> mpz_popcount a = Z.of_nat (length (one_bits a));
  mpz_scan1_ok a : 0 < a ->
    0 <= mpz_scan1 a 0 /\ Z.testbit a (mpz_scan1 a 0) = true /\
    forall i, 0 <= i < mpz_scan1 a 0 -> Z.testbit a i = false;
  mpz_sizeinbase2_ok a : a <> 0 -> mpz_sizeinbase2 a = Z.log2 (Z.abs a) + 1
}.

(** ** The operations of the class *)
Module Integer.
Section ops.
Context `{G : Gmp}.

Definition bitwiseOr (x y : Z) : Z := mpz_ior x y.
Definition bitwiseAnd (x y : Z) : Z := mpz_and x y.
Definition bitwiseXor (x y : Z) : Z := mpz_xor x y.
Definition bitwiseNot (x : Z) : Z := mpz_com x.

Definition multiplyByPow2 (x pow : Z) : Z := mpz_mul_2exp x pow.
Definition setBit (x i : Z) : Z := mpz_setbit x i.

Definition sgn (x : Z) : Z := mpz_sgn x.
Definition strictlyPositive (x : Z) : bool := 0 <? sgn x.
Definition strictlyNegative (x : Z) : bool := sgn x <? 0.
Definition isZero (x : Z) : bool := sgn x =? 0.
Definition isOne (x : Z) : bool := x =? 1.
Definition isNegativeOne (x : Z) : bool := x =? -1.

(** [uint32_t high = low + bitCount - 1] wraps, and so does [high + 1]. *)
Definition extractBitRange (x bitCount low : Z) : Z :=
  let high := u32 (low + bitCount - 1) in
  let rem := mpz_fdiv_r_2exp x (u32 (high + 1)) in
  mpz_fdiv_q_2exp rem low.

Definition isBitSet (x i : Z) : bool := negb (isZero (extractBitRange x 1 i)).

(** The loop [for (i = size; i < size + amount; ++i) mpz_setbit(res, i)]. *)
Definition oneExtend (x size amount : Z) : M Z :=
  _ ← check IllegalArgument (x <? multiplyByPow2 1 size);
  Ok (foldl (fun res i => mpz_setbit res i) x
            (seqZ size (u32 (size + amount) - size))).

Definition toUnsignedInt (x : Z) : Z := u32 (mpz_get_ui x).

Definition floorDivideQuotient (x y : Z) : Z := mpz_fdiv_q x y.
Definition floorDivideRemainder (x y : Z) : Z := mpz_fdiv_r x y.
Definition floorQR (x y : Z) : Z * Z := (mpz_fdiv_q x y, mpz_fdiv_r x y).
Definition ceilingDivideQuotient (x y : Z) : Z := mpz_cdiv_q x y.
Definition ceilingDivideRemainder (x y : Z) : Z := mpz_cdiv_r x y.

(** The fix-up tests the sign of the remainder, as the code does. *)
Definition euclidianQR (x y : Z) : Z * Z :=
  let '(q, r) := floorQR x y in
  if strictlyNegative r then
    if 0 <=? sgn r then (q - 1, r + y) else (q + 1, r - y)
  else (q, r).
Definition euclidianDivideQuotient (x y : Z) : Z := fst (euclidianQR x y).
Definition euclidianDivideRemainder (x y : Z) : Z := snd (euclidianQR x y).

Definition modByPow2 (x exp : Z) : Z := mpz_fdiv_r_2exp x exp.
Definition divByPow2 (x exp : Z) : Z := mpz_fdiv_q_2exp x exp.
Definition pow (x exp : Z) : Z := mpz_pow_ui x exp.
Definition gcd (x y : Z) : Z := mpz_gcd x y.
Definition lcm (x y : Z) : Z := mpz_lcm x y.
Definition divides (x y : Z) : bool := mpz_divisible_p y x.
Definition abs (x : Z) : Z := if 0 <=? x then x else - x.

Definition exactQuotient (x y : Z) : M Z :=
  _ ← check IllegalArgument (divides y x); Ok (mpz_divexact x y).

Definition fitsSignedInt (x : Z) : bool := (- 2 ^ 31 <=? x) && (x <? 2 ^ 31).
Definition fitsUnsignedInt (x : Z) : bool := (0 <=? x) && (x <? 2 ^ 32).
Definition fitsSignedLong (x : Z) : bool := (- 2 ^ 63 <=? x) && (x <? 2 ^ 63).
Definition fitsUnsignedLong (x : Z) : bool := (0 <=? x) && (x <? 2 ^ 64).

Definition getSignedInt (x : Z) : M Z :=
  _ ← check IllegalArgument (x <=? 2 ^ 31 - 1);
  _ ← check IllegalArgument (- 2 ^ 31 <=? x);
  _ ← check IllegalArgument (fitsSignedInt x);
  Ok (mpz_get_si x).

(** The third check is [fitsSignedInt], as in the source. *)
Definition getUnsignedInt (x : Z) : M Z :=
  _ ← check IllegalArgument (x <=? 2 ^ 32 - 1);
  _ ← check IllegalArgument (0 <=? x);
  _ ← check IllegalArgument (fitsSignedInt x);
  Ok (u32 (mpz_get_ui x)).

Definition getLong (x : Z) : M Z :=
  let si := mpz_get_si x in
  _ ← check IllegalArgument (x =? si); Ok si.
Definition getUnsignedLong (x : Z) : M Z :=
  let ui := mpz_get_ui x in
  _ ← check IllegalArgument (x =? ui); Ok ui.

Definition testBit (x n : Z) : bool := mpz_tstbit x n.

Definition isPow2 (x : Z) : Z :=
  if x <=? 0 then 0
  else if mpz_popcount x =? 1 then u32 (mpz_scan1 x 0 + 1) else 0.

Definition length (x : Z) : Z := if sgn x =? 0 then 1 else mpz_sizeinbase2 x.
Definition extendedGcd (a b : Z) : Z * Z * Z := mpz_gcdext a b.
Definition min (a b : Z) : Z := if a <=? b then a else b.
Definition max (a b : Z) : Z := if b <=? a then a else b.

End ops.
End Integer.

(** ** The reference instance: the functions GMP documents, on [Z] *)

(** Extended Euclid on nonnegative arguments; [S (Z.to_nat b)] steps suffice. *)
Fixpoint egcd (fuel : nat) (a b : Z) : Z * Z * Z :=
  match fuel with
  | O => (a, 1, 0)
  | S f => if b =? 0 then (a, 1, 0)
           else let '(g, s, t) := egcd f b (a mod b) in (g, t, s - (a / b) * t)
  end.

Definition gcdext_ref (a b : Z) : Z * Z * Z :=
  let '(g, s, t) := egcd (S (Z.to_nat (Z.abs b))) (Z.abs a) (Z.abs b) in
  (g, s * Z.sgn a, t * Z.sgn b).

#[global] Instance gmp_ref : Gmp := {|
  mpz_ior := Z.lor;
  mpz_and := Z.land;
  mpz_xor := Z.lxor;
  mpz_com := Z.lnot;
  mpz_mul_2exp a n := a * 2 ^ n;
  mpz_setbit := Z.setbit;
  mpz_tstbit := Z.testbit;
  mpz_fdiv_r_2exp a n := a mod 2 ^ n;
  mpz_fdiv_q_2exp a n := a / 2 ^ n;
  mpz_fdiv_q := Z.div;
  mpz_fdiv_r := Z.modulo;
  mpz_cdiv_q a b := - (- a / b);
  mpz_cdiv_r a b := - (- a mod b);
  mpz_sgn := Z.sgn;
  mpz_pow_ui := Z.pow;
  mpz_gcd := Z.gcd;
  mpz_lcm := Z.lcm;
  mpz_gcdext := gcdext_ref;
  mpz_divisible_p n d := if d =? 0 then n =? 0 else n mod d =? 0;
  mpz_divexact := Z.div;
  mpz_get_ui a := u64 (Z.abs a);
  mpz_get_si a := a;
  mpz_popcount a := Z.of_nat (List.length (one_bits a));
  mpz_scan1 a s := List.hd 0 (filter (fun i => s <= i) (one_bits a));
  mpz_sizeinbase2 a := Z.log2 (Z.abs a) + 1
|}.

Lemma egcd_ok fuel a b :
  0 <= a -> 0 <= b < Z.of_nat fuel ->
  let '(g, s, t) := egcd fuel a b in g = Z.gcd a b /\ g = s * a + t * b.
Proof.
  revert a b. induction fuel as [|f IH]; intros a b Ha Hb; [lia |]. cbn [egcd].
  destruct (Z.eqb_spec b 0) as [->|Hb0].
  - rewrite Z.gcd_0_r, Z.abs_eq by lia. lia.
  - pose proof (Z.mod_pos_bound a b ltac:(lia)).
    specialize (IH b (a mod b) ltac:(lia) ltac:(lia)).
    destruct (egcd f b (a mod b)) as [[g s] t]. destruct IH as [Hg Hst]. split.
    + rewrite Hg, Z.gcd_comm, Z.gcd_mod, Z.gcd_comm by lia. done.
    + rewrite Hst. rewrite (Z.mod_eq a b) by lia. ring.
Qed.

Lemma one_bits_In a i : 0 <= a -> i ∈ one_bits a <-> 0 <= i /\ Z.testbit a i = true.
Proof.
  intros Ha. unfold one_bits. rewrite list_elem_of_filter, elem_of_seqZ.
  split; [intros [? ?]; split; [lia | done] |]. intros [Hi Hb]. split; [done |].
  split; [done |]. destruct (Z.lt_ge_cases (Z.log2 a) i); [| lia].
  rewrite Z.bits_above_log2 in Hb by lia. discriminate.
Qed.

Lemma one_bits_sorted a : StronglySorted Z.lt (one_bits a).
Proof.
  unfold one_bits, seqZ. generalize (Z.to_nat (Z.log2 a + 1)) as n.
  generalize 0 at 1 as b. generalize 0%nat as s. intros s b n. revert s.
  induction n as [|n IH]; intros s; [constructor |].
  cbn [seq]. rewrite fmap_cons, filter_cons. case_decide; [| apply IH]. constructor; [apply IH |].
  apply Forall_forall. intros x [_ Hx]%list_elem_of_filter.
  apply list_elem_of_fmap in Hx as (k & -> & Hk%elem_of_seq). lia.
Qed.

Lemma hd_filter_le_0 a :
  0 < a -> exists i l, one_bits a = i :: l /\ 0 <= i.
Proof.
  intros Ha. destruct (one_bits a) as [|i l] eqn:E.
  - assert (Z.log2 a ∈ one_bits a) as Hin.
    { apply one_bits_In; [lia |]. split; [apply Z.log2_nonneg | by apply Z.bit_log2]. }
    rewrite E in Hin. by apply not_elem_of_nil in Hin.
  - exists i, l. split; [done |]. apply (one_bits_In a); [lia |]. rewrite E. left.
Qed.

#[global] Instance gmp_ref_spec : GmpSpec gmp_ref.
Proof.
  split; intros; cbn; try done; try lia.
  - unfold gcdext_ref. pose proof (egcd_ok (S (Z.to_nat (Z.abs b))) (Z.abs a) (Z.abs b)) as H.
    destruct egcd as [[g s] t]. destruct H as [-> H]; [lia | lia |].
    split; [by rewrite Z.gcd_abs_l, Z.gcd_abs_r |]. rewrite H, <- (Z.sgn_abs a), <- (Z.sgn_abs b). ring.
  - destruct (Z.eqb_spec d 0) as [->|Hd].
    + rewrite Z.eqb_eq. split; [intros ->; apply Z.divide_0_r | apply Z.divide_0_l].
    + rewrite Z.eqb_eq. by apply Z.mod_divide.
  - by rewrite Z.div_mul.
  - destruct (hd_filter_le_0 a) as (i & l & E & Hi); [done |].
    rewrite E, filter_cons, decide_True by done. cbn.
    pose proof (one_bits_sorted a) as Hs. rewrite E in Hs.
    apply StronglySorted_inv in Hs as [_ Hs].
    split; [done |]. split.
    { apply (one_bits_In a i); [lia |]. rewrite E. left. }
    intros j Hj. destruct (Z.testbit a j) eqn:Hb; [| done]. exfalso.
    assert (j ∈ i :: l) as Hin. { rewrite <- E. apply one_bits_In; [lia | split; [lia | done]]. }
    apply elem_of_cons in Hin as [-> | Hin]; [lia |].
    rewrite Forall_forall in Hs. apply Hs in Hin. lia.
Qed.

(** ** What the operations compute *)
Section meaning.
Context {G : Gmp} {HG : GmpSpec G}.

Lemma multiplyByPow2_ok x n : 0 <= n -> Integer.multiplyByPow2 x n = x * 2 ^ n.
Proof. apply mpz_mul_2exp_ok. Qed.

Lemma modByPow2_ok x n : 0 <= n -> Integer.modByPow2 x n = x mod 2 ^ n.
Proof. apply mpz_fdiv_r_2exp_ok. Qed.

Lemma divByPow2_ok x n : 0 <= n -> Integer.divByPow2 x n = x / 2 ^ n.
Proof. apply mpz_fdiv_q_2exp_ok. Qed.

Lemma u32_small z : 0 <= z < 2 ^ 32 -> u32 z = z.
Proof. apply Z.mod_small. Qed.

Lemma u32_bound z : 0 <= u32 z < 2 ^ 32.
Proof. by apply mod_pow2_bound. Qed.

Lemma isZero_ok x : Integer.isZero x = (x =? 0).
Proof. unfold Integer.isZero, Integer.sgn. rewrite mpz_sgn_ok. by destruct x. Qed.

Lemma strictlyNegative_ok x : Integer.strictlyNegative x = (x <? 0).
Proof. unfold Integer.strictlyNegative, Integer.sgn. rewrite mpz_sgn_ok. by destruct x. Qed.

(** [extractBitRange(c, l)] is bits [l .. l+c-1], as long as [l + c] does not
    leave [uint32_t]. *)
Lemma extractBitRange_ok x c l :
  0 <= l -> 1 <= c -> l + c < 2 ^ 32 ->
  Integer.extractBitRange x c l = (x / 2 ^ l) mod 2 ^ c.
Proof.
  intros Hl Hc Hlc. unfold Integer.extractBitRange.
  rewrite !u32_small by (rewrite ?u32_small by lia; lia).
  rewrite mpz_fdiv_r_2exp_ok, mpz_fdiv_q_2exp_ok by lia.
  replace (l + c - 1 + 1) with (l + c) by lia. apply div_mod_pow2; lia.
Qed.

Lemma extract_one_bit x i :
  0 <= i < 2 ^ 32 - 1 ->
  Integer.extractBitRange x 1 i = Z.b2z (Z.testbit x i).
Proof.
  intros. rewrite extractBitRange_ok by lia. rewrite Z.testbit_spec' by lia. done.
Qed.

Lemma isBitSet_ok x i : 0 <= i < 2 ^ 32 - 1 -> Integer.isBitSet x i = Z.testbit x i.
Proof.
  intros. unfold Integer.isBitSet. rewrite isZero_ok, extract_one_bit by done.
  by destruct (Z.testbit x i).
Qed.

(** Setting the bits [s .. s+n-1] of a value below [2^s]. *)
Lemma setbits_ok x s n :
  0 <= s -> 0 <= x < 2 ^ s ->
  foldl (fun res i => mpz_setbit res i) x (seqZ s (Z.of_nat n))
  = x + 2 ^ s * (2 ^ Z.of_nat n - 1).
Proof.
  intros Hs Hx. induction n as [|n IH]; [change (Z.of_nat 0) with 0; rewrite Z.pow_0_r, Z.sub_diag, Z.mul_0_r, Z.add_0_r; done |].
  rewrite seqZ_S, foldl_snoc, IH, Nat2Z.inj_succ by lia.
  rewrite mpz_setbit_ok by lia. rewrite Z.pow_succ_r by lia.
  pose proof (pow2_ge1 (Z.of_nat n)). pose proof (pow2_gt0 s Hs).
  replace (x + 2 ^ s * (2 * 2 ^ Z.of_nat n - 1))
    with (1 * 2 ^ (s + Z.of_nat n) + (x + 2 ^ s * (2 ^ Z.of_nat n - 1)))
    by (rewrite Z.pow_add_r by lia; ring).
  assert (0 <= x + 2 ^ s * (2 ^ Z.of_nat n - 1) < 2 ^ (s + Z.of_nat n)) as Hb.
  { rewrite Z.pow_add_r by lia. nia. }
  apply Z.bits_inj'. intros i Hi. rewrite Z.setbit_eqb, testbit_concat by lia.
  destruct (Z.eqb_spec (s + Z.of_nat n) i) as [<-|Hne]; cbn.
  - by rewrite Z.ltb_irrefl, Z.sub_diag.
  - destruct (Z.ltb_spec i (s + Z.of_nat n)); [done |].
    rewrite (testbit_high _ (s + Z.of_nat n)) by lia. symmetry.
    apply (testbit_high 1 1); lia.
Qed.

Lemma oneExtend_ok x s a :
  0 <= s -> 0 <= a -> s + a < 2 ^ 32 -> 0 <= x < 2 ^ s ->
  Integer.oneExtend x s a = Ok (x + 2 ^ s * (2 ^ a - 1)).
Proof.
  intros Hs Ha Hsa Hx. unfold Integer.oneExtend. rewrite multiplyByPow2_ok by lia.
  rewrite Z.mul_1_l. destruct (Z.ltb_spec x (2 ^ s)); [| lia]. cbn.
  rewrite u32_small by lia. replace (s + a - s) with (Z.of_nat (Z.to_nat a)) by lia.
  rewrite setbits_ok by lia. by rewrite Z2Nat.id by lia.
Qed.

Lemma toUnsignedInt_ok x : 0 <= x < 2 ^ 32 -> Integer.toUnsignedInt x = x.
Proof.
  intros. unfold Integer.toUnsignedInt. rewrite mpz_get_ui_ok. unfold u64.
  rewrite Z.abs_eq, (Z.mod_small x) by lia. by apply u32_small.
Qed.

(** C30. Boute's Euclidean division: although the fix-up of [euclidianQR] looks at
    the sign of the remainder where its comment argues about the divisor, the
    result is the Euclidean quotient and remainder for every nonzero divisor. *)
Theorem euclidianQR_correct x y :
  y <> 0 ->
  let '(q, r) := Integer.euclidianQR x y in x = y * q + r /\ 0 <= r < Z.abs y.
Proof.
  intros Hy. unfold Integer.euclidianQR, Integer.floorQR.
  rewrite mpz_fdiv_q_ok, mpz_fdiv_r_ok, strictlyNegative_ok by done.
  pose proof (Z.div_mod x y Hy) as Hdm.
  destruct (Z.ltb_spec (x mod y) 0) as [Hneg|Hpos].
  - unfold Integer.sgn. rewrite mpz_sgn_ok.
    destruct (Z.leb_spec 0 (Z.sgn (x mod y))); [lia |].
    destruct (Z.lt_ge_cases y 0).
    + pose proof (Z.mod_neg_bound x y). lia.
    + pose proof (Z.mod_pos_bound x y). lia.
  - destruct (Z.lt_ge_cases y 0).
    + pose proof (Z.mod_neg_bound x y). lia.
    + pose proof (Z.mod_pos_bound x y). lia.
Qed.

(** The one bits of a power of two, and conversely. *)
Lemma one_bits_singleton a k :
  0 < a -> 0 <= k -> one_bits a = [k] <-> a = 2 ^ k.
Proof.
  intros Ha Hk. split.
  - intros E. apply Z.bits_inj'. intros i Hi. rewrite Z.pow2_bits_eqb by done.
    destruct (Z.testbit a i) eqn:Hb.
    + assert (i ∈ one_bits a) as Hin by (apply one_bits_In; [lia | split; [lia | done]]).
      rewrite E, list_elem_of_singleton in Hin. subst. by rewrite Z.eqb_refl.
    + symmetry. apply Z.eqb_neq. intros <-.
      assert (k ∈ one_bits a) as Hin by (rewrite E; left).
      apply one_bits_In in Hin as [_ ?]; [congruence | lia].
  - intros ->. pose proof (one_bits_sorted (2 ^ k)) as Hs.
    assert (forall i, i ∈ one_bits (2 ^ k) <-> i = k) as Hin.
    { intros i. rewrite one_bits_In by lia. rewrite Z.pow2_bits_eqb by done.
      rewrite Z.eqb_eq. split; [lia |]. intros ->. lia. }
    destruct (one_bits (2 ^ k)) as [|x [|y l]].
    + assert (k ∈ (@nil Z)) as H by (by apply Hin). by apply not_elem_of_nil in H.
    + f_equal. apply Hin. left.
    + apply StronglySorted_inv in Hs as [_ Hs]. inversion_clear Hs as [|? ? Hlt _].
      assert (x = k) by (apply Hin; left). assert (y = k) by (apply Hin; right; left). lia.
Qed.

Lemma isPow2_iff x k : Z.log2 x < 2 ^ 32 - 1 -> 0 <= k -> Integer.isPow2 x = k + 1 <-> x = 2 ^ k.
Proof.
  intros Hx Hk. unfold Integer.isPow2. destruct (Z.leb_spec x 0) as [Hle|Hpos].
  { pose proof (pow2_gt0 k Hk). lia. }
  rewrite mpz_popcount_ok by lia.
  destruct (mpz_scan1_ok x Hpos) as (Hs0 & Hsb & Hlow).
  assert (mpz_scan1 x 0 < 2 ^ 32 - 1) as Hs1.
  { destruct (Z.lt_ge_cases (mpz_scan1 x 0) (2 ^ 32 - 1)) as [|Hge]; [done |].
    rewrite Z.bits_above_log2 in Hsb by lia. discriminate. }
  rewrite u32_small by lia.
  assert (mpz_scan1 x 0 ∈ one_bits x) as Hin by (apply one_bits_In; [lia | split; [lia | done]]).
  destruct (one_bits x) as [|i [|j l]] eqn:E; cbn.
  - by apply not_elem_of_nil in Hin.
  - apply list_elem_of_singleton in Hin. rewrite <- Hin in E.
    change (Z.of_nat 1 =? 1) with true. cbv iota.
    rewrite <- (one_bits_singleton x k), E by done. split; [intros ?; f_equal; lia |].
    intros [=]. lia.
  - rewrite (proj2 (Z.eqb_neq _ _)) by lia. split; [lia |].
    intros Hk2%one_bits_singleton; [congruence | lia | lia].
Qed.

(** [isPow2] returns [k + 1] exactly on [2 ^ k], and 0 on every other
    integer, for values whose bit positions fit in 32 bits. *)
Theorem isPow2_correct x k :
  Z.log2 x < 2 ^ 32 - 1 -> 0 <= k ->
  Integer.isPow2 x = k + 1 <-> x = 2 ^ k.
Proof. apply isPow2_iff. Qed.

(** [getUnsignedInt] rejects every value of the upper half of the [unsigned]
    range, although all of them are representable: its last check is the signed
    one.  Values of the lower half are returned unchanged. *)
Theorem getUnsignedInt_range x :
  0 <= x < 2 ^ 32 ->
  Integer.getUnsignedInt x = if x <? 2 ^ 31 then Ok x else Throw IllegalArgument.
Proof.
  intros Hx. unfold Integer.getUnsignedInt, Integer.fitsSignedInt.
  rewrite (proj2 (Z.leb_le x (2 ^ 32 - 1))), (proj2 (Z.leb_le 0 x)) by lia. cbn -[Z.pow].
  rewrite (proj2 (Z.leb_le (- 2 ^ 31) x)) by lia. cbn [andb].
  destruct (Z.ltb_spec x (2 ^ 31)); cbn; [| done].
  f_equal. apply (toUnsignedInt_ok x). lia.
Qed.

(** [length] is the number of binary digits. *)
Lemma length_ok x :
  x <> 0 -> 2 ^ (Integer.length x - 1) <= Z.abs x < 2 ^ Integer.length x.
Proof.
  intros Hx. unfold Integer.length, Integer.sgn. rewrite mpz_sgn_ok.
  rewrite (proj2 (Z.eqb_neq _ _)) by lia. rewrite mpz_sizeinbase2_ok by done.
  replace (Z.log2 (Z.abs x) + 1 - 1) with (Z.log2 (Z.abs x)) by lia.
  apply Z.log2_spec. lia.
Qed.

Lemma exactQuotient_ok x y q : y <> 0 -> x = q * y -> Integer.exactQuotient x y = Ok q.
Proof.
  intros Hy ->. unfold Integer.exactQuotient, Integer.divides.
  assert (mpz_divisible_p (q * y) y = true) as -> by (apply mpz_divisible_p_ok; by exists q).
  cbn. by rewrite mpz_divexact_ok.
Qed.

End meaning.

(** ** The theorems at the reference arithmetic *)
Lemma euclidianQR_correct_witness :
  let '(q, r) := Integer.euclidianQR (G := gmp_ref) (-7) (-2) in -7 = -2 * q + r /\ 0 <= r < Z.abs (-2).
Proof. apply (euclidianQR_correct (G := gmp_ref) (HG := gmp_ref_spec) (-7) (-2)). lia. Defined.
Lemma isPow2_correct_witness : Integer.isPow2 (G := gmp_ref) 8 = 3 + 1 <-> 8 = 2 ^ 3.
Proof. apply (isPow2_correct (G := gmp_ref) (HG := gmp_ref_spec) 8 3); vm_compute; [reflexivity | discriminate]. Defined.
Lemma getUnsignedInt_range_witness :
  Integer.getUnsignedInt (G := gmp_ref) 3000000000 = Throw IllegalArgument.
Proof. apply (getUnsignedInt_range (G := gmp_ref) (HG := gmp_ref_spec) 3000000000). lia. Defined.

Create Rewrite HintDb integer.
#[export] Hint Rewrite @multiplyByPow2_ok @modByPow2_ok @divByPow2_ok @isZero_ok
  @strictlyNegative_ok using (try typeclasses eauto; lia) : integer.
