(* ===== verification/BitVector.v ===== *)
(** * CVC4::BitVector

    Models [src/util/bitvector.h]: bit-vector constants, a width [d_size] (an
    [unsigned]) and a value [d_value] (an [Integer]).  [CheckArgument] throws;
    arithmetic on widths wraps at 32 bits as [unsigned] does.  The first part
    translates the methods; the second gives each method its meaning on
    well-formed vectors, as the SMT-LIB operation it implements ([Sem]). *)

From S2P Require Import Prelude Integer.
Local Open Scope Z_scope.

Record BitVector : Set := MkBitVector { d_size : Z; d_value : Z }.

#[global] Instance BitVector_eq_dec : EqDecision BitVector.
Proof. solve_decision. Defined.

Module BV.
Section ops.
Context `{G : Gmp}.

(** [BitVector(unsigned size, const Integer& val)]; the [unsigned int] and
    [unsigned long] constructors compute the same. *)
Definition mk (size val : Z) : BitVector :=
  MkBitVector size (Integer.modByPow2 val size).

(** [BitVector(unsigned size, const BitVector& q)]: the value is not reduced. *)
Definition resize (size : Z) (q : BitVector) : BitVector :=
  MkBitVector size (d_value q).

Definition eqb (x y : BitVector) : bool :=
  if negb (d_size x =? d_size y) then false else d_value x =? d_value y.
Definition neqb (x y : BitVector) : bool :=
  if negb (d_size x =? d_size y) then true else negb (d_value x =? d_value y).

Definition concat (x y : BitVector) : BitVector :=
  mk (u32 (d_size x + d_size y))
     (Integer.multiplyByPow2 (d_value x) (d_size y) + d_value y).

Definition extract (x : BitVector) (high low : Z) : BitVector :=
  let size := u32 (high - low + 1) in
  mk size (Integer.extractBitRange (d_value x) size low).

Definition same_size (x y : BitVector) : M unit :=
  check IllegalArgument (d_size x =? d_size y).

Definition xor (x y : BitVector) : M BitVector :=
  _ ← same_size x y; Ok (mk (d_size x) (Integer.bitwiseXor (d_value x) (d_value y))).
Definition or (x y : BitVector) : M BitVector :=
  _ ← same_size x y; Ok (mk (d_size x) (Integer.bitwiseOr (d_value x) (d_value y))).
Definition and (x y : BitVector) : M BitVector :=
  _ ← same_size x y; Ok (mk (d_size x) (Integer.bitwiseAnd (d_value x) (d_value y))).
Definition not (x : BitVector) : BitVector :=
  mk (d_size x) (Integer.bitwiseNot (d_value x)).

Definition ltb (x y : BitVector) : bool := d_value x <? d_value y.
Definition gtb (x y : BitVector) : bool := d_value y <? d_value x.
Definition leb (x y : BitVector) : bool := d_value x <=? d_value y.
Definition geb (x y : BitVector) : bool := d_value y <=? d_value x.

Definition add (x y : BitVector) : M BitVector :=
  _ ← same_size x y; Ok (mk (d_size x) (d_value x + d_value y)).

Definition sub (x y : BitVector) : M BitVector :=
  _ ← same_size x y;
  let one := mk (d_size x) 1 in
  s ← add x (not y); add s one.

Definition neg (x : BitVector) : M BitVector :=
  let one := mk (d_size x) 1 in add (not x) one.

Definition mult (x y : BitVector) : M BitVector :=
  _ ← same_size x y; Ok (mk (d_size x) (d_value x * d_value y)).

Definition setBit (x : BitVector) (i : Z) : M BitVector :=
  _ ← check IllegalArgument (i <? d_size x);
  Ok (mk (d_size x) (Integer.setBit (d_value x) i)).

Definition isBitSet (x : BitVector) (i : Z) : M bool :=
  _ ← check IllegalArgument (i <? d_size x); Ok (Integer.isBitSet (d_value x) i).

Definition unsignedDivTotal (x y : BitVector) : M BitVector :=
  _ ← same_size x y;
  if d_value y =? 0 then
    ones ← Integer.oneExtend 1 1 (u32 (d_size x - 1)); Ok (mk (d_size x) ones)
  else
    _ ← check IllegalArgument (0 <=? d_value x);
    _ ← check IllegalArgument (0 <? d_value y);
    Ok (mk (d_size x) (Integer.floorDivideQuotient (d_value x) (d_value y))).

Definition unsignedRemTotal (x y : BitVector) : M BitVector :=
  _ ← same_size x y;
  if d_value y =? 0 then Ok (mk (d_size x) (d_value x))
  else
    _ ← check IllegalArgument (0 <=? d_value x);
    _ ← check IllegalArgument (0 <? d_value y);
    Ok (mk (d_size x) (Integer.floorDivideRemainder (d_value x) (d_value y))).

Definition toSignedInt (x : BitVector) : Z :=
  let size := d_size x in
  let sign_bit := Integer.extractBitRange (d_value x) 1 (u32 (size - 1)) in
  let val := Integer.extractBitRange (d_value x) (u32 (size - 1)) 0 in
  -1 * Integer.multiplyByPow2 sign_bit (u32 (size - 1)) + val.

(** The three checks the comparisons share. *)
Definition check_cmp (x y : BitVector) : M unit :=
  _ ← same_size x y;
  _ ← check IllegalArgument (0 <=? d_value x);
  check IllegalArgument (0 <=? d_value y).

Definition signedLessThan (x y : BitVector) : M bool :=
  _ ← check_cmp x y; Ok (toSignedInt x <? toSignedInt y).
Definition unsignedLessThan (x y : BitVector) : M bool :=
  _ ← check_cmp x y; Ok (d_value x <? d_value y).
Definition signedLessThanEq (x y : BitVector) : M bool :=
  _ ← check_cmp x y; Ok (toSignedInt x <=? toSignedInt y).
Definition unsignedLessThanEq (x y : BitVector) : M bool :=
  _ ← check_cmp x y; Ok (d_value x <=? d_value y).

Definition zeroExtend (x : BitVector) (amount : Z) : BitVector :=
  mk (u32 (d_size x + amount)) (d_value x).

Definition signExtend (x : BitVector) (amount : Z) : M BitVector :=
  let sign_bit := Integer.extractBitRange (d_value x) 1 (u32 (d_size x - 1)) in
  if sign_bit =? 0 then Ok (mk (u32 (d_size x + amount)) (d_value x))
  else
    val ← Integer.oneExtend (d_value x) (d_size x) amount;
    Ok (mk (u32 (d_size x + amount)) val).

Definition leftShift (x y : BitVector) : M BitVector :=
  if d_size x <? d_value y then Ok (mk (d_size x) 0)
  else if d_value y =? 0 then Ok x
  else
    _ ← check IllegalArgument (d_value y <? Integer.multiplyByPow2 1 32);
    let amount := Integer.toUnsignedInt (d_value y) in
    Ok (mk (d_size x) (Integer.multiplyByPow2 (d_value x) amount)).

Definition logicalRightShift (x y : BitVector) : M BitVector :=
  if d_size x <? d_value y then Ok (mk (d_size x) 0)
  else
    _ ← check IllegalArgument (d_value y <? Integer.multiplyByPow2 1 32);
    let amount := Integer.toUnsignedInt (d_value y) in
    Ok (mk (d_size x) (Integer.divByPow2 (d_value x) amount)).

Definition arithRightShift (x y : BitVector) : M BitVector :=
  let sign_bit := Integer.extractBitRange (d_value x) 1 (u32 (d_size x - 1)) in
  if d_size x <? d_value y then
    if sign_bit =? 0 then Ok (mk (d_size x) 0)
    else Ok (mk (d_size x) (Integer.multiplyByPow2 (d_size x) (d_size x) - 1))
  else if d_value y =? 0 then Ok x
  else
    _ ← check IllegalArgument (d_value y <? Integer.multiplyByPow2 1 32);
    let amount := Integer.toUnsignedInt (d_value y) in
    let rest := Integer.divByPow2 (d_value x) amount in
    if sign_bit =? 0 then Ok (mk (d_size x) rest)
    else
      res ← Integer.oneExtend rest (u32 (d_size x - amount)) amount;
      Ok (mk (d_size x) res).

Definition isPow2 (x : BitVector) : Z := Integer.isPow2 (d_value x).

End ops.
End BV.

(** ** The SMT-LIB operations, on widths and nonnegative integers *)
Module Sem.
Definition wrap (n z : Z) : Z := z mod 2 ^ n.
(** Two's complement reading of an [n]-bit value. *)
Definition signed (n a : Z) : Z := if a <? 2 ^ (n - 1) then a else a - 2 ^ n.
Definition bnot (n a : Z) : Z := 2 ^ n - 1 - a.
Definition neg (n a : Z) : Z := wrap n (- a).
Definition add (n a b : Z) : Z := wrap n (a + b).
Definition sub (n a b : Z) : Z := wrap n (a - b).
Definition mul (n a b : Z) : Z := wrap n (a * b).
Definition udiv (n a b : Z) : Z := if b =? 0 then 2 ^ n - 1 else a / b.
Definition urem (n a b : Z) : Z := if b =? 0 then a else a mod b.
(** Shifts by the width or more push every bit out. *)
Definition shl (n a b : Z) : Z := if n <=? b then 0 else wrap n (a * 2 ^ b).
Definition lshr (n a b : Z) : Z := if n <=? b then 0 else a / 2 ^ b.
Definition ashr (n a b : Z) : Z :=
  if n <=? b then (if signed n a <? 0 then 2 ^ n - 1 else 0)
  else wrap n (signed n a / 2 ^ b).
Definition ult (a b : Z) : bool := a <? b.
Definition ule (a b : Z) : bool := a <=? b.
Definition slt (n a b : Z) : bool := signed n a <? signed n b.
Definition sle (n a b : Z) : bool := signed n a <=? signed n b.
Definition extract (a h l : Z) : Z := (a / 2 ^ l) mod 2 ^ (h - l + 1).
Definition concat (a m b : Z) : Z := a * 2 ^ m + b.
Definition sext (n a k : Z) : Z := wrap (n + k) (signed n a).
End Sem.

(** The class invariant: the value lies in [0, 2^d_size). *)
Definition wf (x : BitVector) : Prop :=
  0 <= d_size x < 2 ^ 32 /\ 0 <= d_value x < 2 ^ d_size x.

#[global] Instance wf_dec x : Decision (wf x).
Proof. unfold wf. apply _. Defined.

(** ** Arithmetic facts on widths *)
Section facts.

Lemma mod_unique_bound a n z : 0 <= z < 2 ^ n -> (exists q, a = q * 2 ^ n + z) -> a mod 2 ^ n = z.
Proof.
  intros Hz [q ->]. rewrite Z.add_comm, Z.mod_add by lia. by apply Z.mod_small.
Qed.

Lemma lnot_mod n a : 0 <= n -> 0 <= a < 2 ^ n -> Z.lnot a mod 2 ^ n = 2 ^ n - 1 - a.
Proof.
  intros Hn Ha. apply mod_unique_bound; [lia |]. exists (-1). unfold Z.lnot. lia.
Qed.

Lemma signed_range n a : 1 <= n -> 0 <= a < 2 ^ n -> - 2 ^ (n - 1) <= Sem.signed n a < 2 ^ (n - 1).
Proof.
  intros Hn Ha. unfold Sem.signed. pose proof (pow2_half n Hn).
  destruct (Z.ltb_spec a (2 ^ (n - 1))); lia.
Qed.

Lemma signed_mod n a : 0 <= n -> 0 <= a < 2 ^ n -> Sem.signed n a mod 2 ^ n = a.
Proof.
  intros Hn Ha. unfold Sem.signed. destruct (_ <? _).
  - by apply Z.mod_small.
  - apply mod_unique_bound; [lia |]. exists (-1). lia.
Qed.

Lemma signed_sign_bit n a :
  1 <= n -> 0 <= a < 2 ^ n -> (Sem.signed n a <? 0) = Z.testbit a (n - 1).
Proof.
  intros Hn Ha. rewrite testbit_half_pow2 by done. unfold Sem.signed.
  destruct (Z.ltb_spec a (2 ^ (n - 1))), (Z.leb_spec (2 ^ (n - 1)) a); lia.
Qed.

Lemma wf_land n a b : 0 <= n -> 0 <= a < 2 ^ n -> 0 <= b < 2 ^ n -> 0 <= Z.land a b < 2 ^ n.
Proof.
  intros Hn Ha Hb. assert (0 <= Z.land a b) by (apply Z.land_nonneg; lia).
  split; [done |]. apply bit_range; [done .. |]. intros i Hi.
  by rewrite Z.land_spec, (testbit_high a n).
Qed.

Lemma wf_lor n a b : 0 <= n -> 0 <= a < 2 ^ n -> 0 <= b < 2 ^ n -> 0 <= Z.lor a b < 2 ^ n.
Proof.
  intros Hn Ha Hb. assert (0 <= Z.lor a b) by (apply Z.lor_nonneg; lia).
  split; [done |]. apply bit_range; [done .. |]. intros i Hi.
  by rewrite Z.lor_spec, (testbit_high a n), (testbit_high b n).
Qed.

Lemma wf_lxor n a b : 0 <= n -> 0 <= a < 2 ^ n -> 0 <= b < 2 ^ n -> 0 <= Z.lxor a b < 2 ^ n.
Proof.
  intros Hn Ha Hb. assert (0 <= Z.lxor a b) by (apply Z.lxor_nonneg; lia).
  split; [done |]. apply bit_range; [done .. |]. intros i Hi.
  by rewrite Z.lxor_spec, (testbit_high a n), (testbit_high b n).
Qed.

End facts.

(** ** Meaning of the methods on well-formed vectors *)
Section meaning.
Context {G : Gmp} {HG : GmpSpec G}.
Implicit Types x y : BitVector.

Lemma mk_ok n v : 0 <= n -> BV.mk n v = MkBitVector n (v mod 2 ^ n).
Proof. intros. unfold BV.mk. by rewrite modByPow2_ok. Qed.

Lemma mk_wf n v : 0 <= n < 2 ^ 32 -> wf (BV.mk n v).
Proof. intros. rewrite mk_ok by lia. split; [done |]. apply mod_pow2_bound. cbn. lia. Qed.

Lemma mk_small n v : 0 <= n -> 0 <= v < 2 ^ n -> BV.mk n v = MkBitVector n v.
Proof. intros. rewrite mk_ok by done. by rewrite Z.mod_small. Qed.

(** Binary operations on vectors of one width [n]. *)
Definition binop (f : BitVector -> BitVector -> M BitVector) (s : Z -> Z -> Z -> Z) : Prop :=
  forall n a b, 0 <= n < 2 ^ 32 -> 0 <= a < 2 ^ n -> 0 <= b < 2 ^ n ->
    f (MkBitVector n a) (MkBitVector n b) = Ok (MkBitVector n (s n a b)).

Ltac binop_start :=
  intros n a b Hn Ha Hb; cbn [d_size d_value];
  unfold BV.xor, BV.or, BV.and, BV.add, BV.mult, BV.same_size; cbn [d_size d_value];
  rewrite Z.eqb_refl; cbn [check]; rewrite ?M_bind_Ok.

Lemma and_ok : binop BV.and (fun _ => Z.land).
Proof.
  binop_start. unfold Integer.bitwiseAnd. rewrite mpz_and_ok, mk_small; [done | lia |].
  apply wf_land; lia.
Qed.
Lemma or_ok : binop BV.or (fun _ => Z.lor).
Proof.
  binop_start. unfold Integer.bitwiseOr. rewrite mpz_ior_ok, mk_small; [done | lia |].
  apply wf_lor; lia.
Qed.
Lemma xor_ok : binop BV.xor (fun _ => Z.lxor).
Proof.
  binop_start. unfold Integer.bitwiseXor. rewrite mpz_xor_ok, mk_small; [done | lia |].
  apply wf_lxor; lia.
Qed.
Lemma add_ok : binop BV.add Sem.add.
Proof. binop_start. by rewrite mk_ok by lia. Qed.
Lemma mult_ok : binop BV.mult Sem.mul.
Proof. binop_start. by rewrite mk_ok by lia. Qed.

Lemma not_ok n a :
  0 <= n -> 0 <= a < 2 ^ n -> BV.not (MkBitVector n a) = MkBitVector n (Sem.bnot n a).
Proof.
  intros. unfold BV.not, Integer.bitwiseNot. cbn. rewrite mpz_com_ok, mk_ok, lnot_mod by lia. done.
Qed.

Lemma bnot_bound n a : 0 <= a < 2 ^ n -> 0 <= Sem.bnot n a < 2 ^ n.
Proof. unfold Sem.bnot. lia. Qed.

Lemma wrap_bound n a : 0 <= n -> 0 <= Sem.wrap n a < 2 ^ n.
Proof. intros. unfold Sem.wrap. by apply mod_pow2_bound. Qed.

(** [x - y] is computed as [x + ~y + 1]; it is subtraction modulo [2^n]. *)
Lemma sub_ok : binop BV.sub Sem.sub.
Proof.
  intros n a b Hn Ha Hb. unfold BV.sub, BV.same_size. cbn [d_size]. rewrite Z.eqb_refl.
  cbn [check]. rewrite M_bind_Ok. cbv zeta.
  rewrite not_ok, add_ok, M_bind_Ok, mk_ok, add_ok; try lia;
    try (by apply bnot_bound); try (apply wrap_bound; lia); try (apply mod_pow2_bound; lia).
  do 2 f_equal. unfold Sem.add, Sem.sub, Sem.bnot, Sem.wrap.
  rewrite <- Zplus_mod. replace (a + (2 ^ n - 1 - b) + 1) with (a - b + 1 * 2 ^ n) by lia.
  apply Z.mod_add. lia.
Qed.

Lemma neg_ok n a :
  0 <= n < 2 ^ 32 -> 0 <= a < 2 ^ n ->
  BV.neg (MkBitVector n a) = Ok (MkBitVector n (Sem.neg n a)).
Proof.
  intros Hn Ha. unfold BV.neg. cbn [d_size]. cbv zeta. rewrite not_ok, mk_ok, add_ok; try lia;
    [| by apply bnot_bound | apply mod_pow2_bound; lia].
  do 2 f_equal. unfold Sem.add, Sem.neg, Sem.bnot, Sem.wrap.
  rewrite Zplus_mod_idemp_r. replace (2 ^ n - 1 - a + 1) with (- a + 1 * 2 ^ n) by lia.
  apply Z.mod_add. lia.
Qed.

Lemma udiv_ok n a b :
  1 <= n < 2 ^ 32 -> 0 <= a < 2 ^ n -> 0 <= b < 2 ^ n ->
  BV.unsignedDivTotal (MkBitVector n a) (MkBitVector n b) = Ok (MkBitVector n (Sem.udiv n a b)).
Proof.
  intros Hn Ha Hb. unfold BV.unsignedDivTotal, BV.same_size, Sem.udiv. cbn [d_size d_value].
  rewrite Z.eqb_refl. cbn [check]. rewrite M_bind_Ok. destruct (Z.eqb_spec b 0) as [->|Hb0].
  - rewrite u32_small, oneExtend_ok, M_bind_Ok by lia.
    rewrite (pow2_half n) by lia. rewrite mk_small; [do 2 f_equal; lia | lia |].
    rewrite (pow2_half n) by lia. lia.
  - rewrite (proj2 (Z.leb_le 0 a)), (proj2 (Z.ltb_lt 0 b)) by lia. cbn [check].
    rewrite !M_bind_Ok. unfold Integer.floorDivideQuotient. rewrite mpz_fdiv_q_ok, mk_small; [done | lia | | lia].
    split; [apply Z.div_pos; lia |]. apply Z.div_lt_upper_bound; nia.
Qed.

Lemma urem_ok : binop BV.unsignedRemTotal Sem.urem.
Proof.
  intros n a b Hn Ha Hb. unfold BV.unsignedRemTotal, BV.same_size, Sem.urem. cbn [d_size d_value].
  rewrite Z.eqb_refl. cbn [check]. rewrite M_bind_Ok. destruct (Z.eqb_spec b 0) as [->|Hb0].
  - by rewrite mk_small by lia.
  - rewrite (proj2 (Z.leb_le 0 a)), (proj2 (Z.ltb_lt 0 b)) by lia. cbn [check].
    rewrite !M_bind_Ok. unfold Integer.floorDivideRemainder. rewrite mpz_fdiv_r_ok, mk_small; [done | lia | | lia].
    pose proof (Z.mod_pos_bound a b). lia.
Qed.

Lemma sign_bit_ok n a :
  1 <= n < 2 ^ 32 -> 0 <= a < 2 ^ n ->
  Integer.extractBitRange a 1 (u32 (n - 1)) = Z.b2z (Z.testbit a (n - 1)).
Proof. intros. rewrite u32_small by lia. apply extract_one_bit. lia. Qed.

Lemma toSignedInt_ok n a :
  1 <= n < 2 ^ 32 -> 0 <= a < 2 ^ n ->
  BV.toSignedInt (MkBitVector n a) = Sem.signed n a.
Proof.
  intros Hn Ha. unfold BV.toSignedInt. cbn [d_size d_value].
  rewrite sign_bit_ok, u32_small, multiplyByPow2_ok by lia.
  rewrite testbit_half_pow2 by lia. unfold Sem.signed. pose proof (pow2_half n).
  destruct (decide (n = 1)) as [->|Hn1].
  { change (2 ^ (1 - 1)) with 1 in *. change (2 ^ 1) with 2 in *.
    assert (a = 0 \/ a = 1) as [-> | ->] by lia.
    - unfold Integer.extractBitRange. rewrite mpz_fdiv_r_2exp_ok, mpz_fdiv_q_2exp_ok; done.
    - unfold Integer.extractBitRange. rewrite mpz_fdiv_r_2exp_ok, mpz_fdiv_q_2exp_ok; done. }
  rewrite extractBitRange_ok by lia. rewrite Z.pow_0_r, Z.div_1_r.
  destruct (Z.leb_spec (2 ^ (n - 1)) a), (Z.ltb_spec a (2 ^ (n - 1))); cbn [Z.b2z]; try lia.
  - rewrite (mod_unique_bound a (n - 1) (a - 2 ^ (n - 1))); [lia | lia |]. exists 1. lia.
  - rewrite Z.mod_small by lia. lia.
Qed.

Lemma cmp_ok n a b :
  0 <= a -> 0 <= b -> BV.check_cmp (MkBitVector n a) (MkBitVector n b) = Ok tt.
Proof.
  intros. unfold BV.check_cmp, BV.same_size. cbn [d_size d_value]. rewrite Z.eqb_refl.
  by rewrite (proj2 (Z.leb_le 0 a)), (proj2 (Z.leb_le 0 b)).
Qed.

Lemma extract_ok n a h l :
  0 <= l <= h -> h < n < 2 ^ 32 -> 0 <= a < 2 ^ n ->
  BV.extract (MkBitVector n a) h l = MkBitVector (h - l + 1) (Sem.extract a h l).
Proof.
  intros. unfold BV.extract. cbn [d_value]. rewrite !u32_small by lia.
  rewrite extractBitRange_ok, mk_ok by lia. f_equal. apply Z.mod_mod. lia.
Qed.

Lemma concat_bound n a m b :
  0 <= n -> 0 <= m -> 0 <= a < 2 ^ n -> 0 <= b < 2 ^ m ->
  0 <= Sem.concat a m b < 2 ^ (n + m).
Proof. intros. unfold Sem.concat. rewrite Z.pow_add_r by lia. nia. Qed.

Lemma concat_ok n a m b :
  0 <= n -> 0 <= m -> n + m < 2 ^ 32 -> 0 <= a < 2 ^ n -> 0 <= b < 2 ^ m ->
  BV.concat (MkBitVector n a) (MkBitVector m b) = MkBitVector (n + m) (Sem.concat a m b).
Proof.
  intros. unfold BV.concat. cbn [d_size d_value]. rewrite u32_small by lia.
  rewrite multiplyByPow2_ok, mk_small by (try lia; by apply concat_bound). done.
Qed.

Lemma zeroExtend_ok n a k :
  0 <= n -> 0 <= k -> n + k < 2 ^ 32 -> 0 <= a < 2 ^ n ->
  BV.zeroExtend (MkBitVector n a) k = MkBitVector (n + k) a.
Proof.
  intros. unfold BV.zeroExtend. cbn [d_size d_value]. rewrite u32_small, mk_small; try lia; [done |].
  pose proof (pow2_le n (n + k)). lia.
Qed.

Lemma sext_value n a k :
  1 <= n -> 0 <= k -> 0 <= a < 2 ^ n ->
  Sem.sext n a k = if Z.testbit a (n - 1) then a + 2 ^ n * (2 ^ k - 1) else a.
Proof.
  intros Hn Hk Ha. rewrite testbit_half_pow2 by lia. unfold Sem.sext, Sem.wrap, Sem.signed.
  pose proof (pow2_half n). pose proof (pow2_ge1 k Hk). pose proof (pow2_gt0 (n - 1)).
  destruct (Z.ltb_spec a (2 ^ (n - 1))), (Z.leb_spec (2 ^ (n - 1)) a); try lia.
  - apply Z.mod_small. rewrite Z.pow_add_r by lia. nia.
  - apply mod_unique_bound; [rewrite Z.pow_add_r by lia; nia |]. exists (-1).
    rewrite Z.pow_add_r by lia. ring.
Qed.

Lemma signExtend_ok n a k :
  1 <= n -> 0 <= k -> n + k < 2 ^ 32 -> 0 <= a < 2 ^ n ->
  BV.signExtend (MkBitVector n a) k = Ok (MkBitVector (n + k) (Sem.sext n a k)).
Proof.
  intros Hn Hk Hnk Ha. unfold BV.signExtend. cbn [d_size d_value]. cbv zeta.
  rewrite sign_bit_ok, sext_value by lia. rewrite (u32_small (n + k)) by lia.
  pose proof (pow2_le n (n + k)). pose proof (pow2_ge1 k Hk). pose proof (pow2_gt0 n).
  destruct (Z.testbit a (n - 1)); cbn.
  - rewrite oneExtend_ok, M_bind_Ok by lia. rewrite mk_small; [done | lia |].
    rewrite Z.pow_add_r by lia. nia.
  - by rewrite mk_small by lia.
Qed.

Lemma shift_in_range n b :
  0 <= n < 2 ^ 32 -> 0 <= b <= n ->
  check IllegalArgument (b <? Integer.multiplyByPow2 1 32) = Ok tt /\ Integer.toUnsignedInt b = b.
Proof.
  intros. rewrite multiplyByPow2_ok by lia. split; [| apply toUnsignedInt_ok; lia].
  rewrite (proj2 (Z.ltb_lt b (1 * 2 ^ 32))) by lia. done.
Qed.

Lemma shl_ok n a b :
  0 <= n < 2 ^ 32 -> 0 <= a < 2 ^ n -> 0 <= b ->
  BV.leftShift (MkBitVector n a) (MkBitVector n b) = Ok (MkBitVector n (Sem.shl n a b)).
Proof.
  intros Hn Ha Hb. unfold BV.leftShift, Sem.shl. cbn [d_size d_value].
  destruct (Z.ltb_spec n b).
  { rewrite (proj2 (Z.leb_le n b)), mk_small by lia. done. }
  destruct (shift_in_range n b) as [-> ->]; [lia .. |]. rewrite M_bind_Ok.
  rewrite multiplyByPow2_ok, mk_ok by lia.
  destruct (Z.eqb_spec b 0) as [->|Hb0].
  - destruct (Z.leb_spec n 0).
    + assert (n = 0) as -> by lia. rewrite Z.pow_0_r in Ha. do 2 f_equal. lia.
    + do 2 f_equal. unfold Sem.wrap. rewrite Z.pow_0_r, Z.mul_1_r. symmetry. by apply Z.mod_small.
  - destruct (Z.leb_spec n b); [| done]. assert (n = b) as -> by lia.
    do 2 f_equal. apply Z.mod_mul. lia.
Qed.

Lemma lshr_ok n a b :
  0 <= n < 2 ^ 32 -> 0 <= a < 2 ^ n -> 0 <= b ->
  BV.logicalRightShift (MkBitVector n a) (MkBitVector n b) = Ok (MkBitVector n (Sem.lshr n a b)).
Proof.
  intros Hn Ha Hb. unfold BV.logicalRightShift, Sem.lshr. cbn [d_size d_value].
  destruct (Z.ltb_spec n b).
  { rewrite (proj2 (Z.leb_le n b)), mk_small by lia. done. }
  destruct (shift_in_range n b) as [-> ->]; [lia .. |]. rewrite M_bind_Ok.
  assert (0 <= a / 2 ^ b < 2 ^ n) as Hdiv.
  { pose proof (pow2_ge1 b Hb). split; [apply Z.div_pos; lia |].
    apply Z.div_lt_upper_bound; nia. }
  rewrite divByPow2_ok, mk_small by lia. destruct (Z.leb_spec n b); [| done].
  do 2 f_equal. apply Z.div_small. pose proof (pow2_le n b). lia.
Qed.

Lemma ashr_value n a b :
  1 <= n -> 0 <= a < 2 ^ n -> 0 <= b <= n ->
  Sem.ashr n a b =
    if Z.testbit a (n - 1) then a / 2 ^ b + 2 ^ (n - b) * (2 ^ b - 1) else a / 2 ^ b.
Proof.
  intros Hn Ha Hb. unfold Sem.ashr. rewrite signed_sign_bit by lia.
  assert (2 ^ n = 2 ^ (n - b) * 2 ^ b) as Hnb by (rewrite <- Z.pow_add_r by lia; f_equal; lia).
  pose proof (pow2_gt0 b). pose proof (pow2_ge1 (n - b)).
  assert (0 <= a / 2 ^ b < 2 ^ (n - b)) as Hd.
  { split; [apply Z.div_pos; lia |]. apply Z.div_lt_upper_bound; nia. }
  rewrite testbit_half_pow2 by lia. unfold Sem.signed, Sem.wrap. pose proof (pow2_half n).
  destruct (Z.leb_spec n b) as [Hle|Hlt].
  - assert (b = n) as -> by lia. rewrite Z.sub_diag, Z.pow_0_r in *.
    rewrite (Z.div_small a (2 ^ n)) by lia.
    destruct (Z.leb_spec (2 ^ (n - 1)) a); lia.
  - destruct (Z.leb_spec (2 ^ (n - 1)) a), (Z.ltb_spec a (2 ^ (n - 1))); try lia.
    + replace (a - 2 ^ n) with (a + (- 2 ^ (n - b)) * 2 ^ b) by (rewrite Hnb; ring).
      rewrite Z.div_add by lia. apply mod_unique_bound; [nia |]. exists (-1). nia.
    + apply Z.mod_small. nia.
Qed.

Lemma ashr_ok n a b :
  1 <= n < 2 ^ 32 -> 0 <= a < 2 ^ n -> 0 <= b ->
  BV.arithRightShift (MkBitVector n a) (MkBitVector n b) = Ok (MkBitVector n (Sem.ashr n a b)).
Proof.
  intros Hn Ha Hb. unfold BV.arithRightShift. cbn [d_size d_value]. cbv zeta.
  rewrite sign_bit_ok by lia. destruct (Z.ltb_spec n b).
  { unfold Sem.ashr. rewrite (proj2 (Z.leb_le n b)), signed_sign_bit, multiplyByPow2_ok by lia.
    destruct (Z.testbit a (n - 1)); cbn [Z.b2z Z.eqb]; rewrite mk_ok by lia; [| done].
    do 2 f_equal. apply mod_unique_bound; [lia |]. exists (n - 1). ring. }
  rewrite ashr_value by lia. destruct (Z.eqb_spec b 0) as [->|Hb0].
  { rewrite Z.pow_0_r, Z.div_1_r, Z.sub_diag, Z.mul_0_r, Z.add_0_r.
    by destruct (Z.testbit a (n - 1)). }
  destruct (shift_in_range n b) as [-> ->]; [lia .. |]. rewrite M_bind_Ok.
  assert (2 ^ n = 2 ^ (n - b) * 2 ^ b) as Hnb by (rewrite <- Z.pow_add_r by lia; f_equal; lia).
  pose proof (pow2_gt0 b). pose proof (pow2_ge1 (n - b)).
  assert (0 <= a / 2 ^ b < 2 ^ (n - b)) as Hd.
  { split; [apply Z.div_pos; lia |]. apply Z.div_lt_upper_bound; nia. }
  rewrite divByPow2_ok by lia. destruct (Z.testbit a (n - 1)); cbn [Z.b2z Z.eqb].
  - rewrite u32_small, oneExtend_ok, M_bind_Ok by lia. rewrite mk_small; [done | lia | nia].
  - rewrite mk_small; [done | lia | nia].
Qed.

(** A vector of width at least one, as the solver's terms have. *)
Definition wf1 x : Prop := wf x /\ 1 <= d_size x.

(** C19. Every operation of the class, applied to well-formed vectors of one
    positive width, returns without throwing and computes the SMT-LIB operation
    of that name: bitwise, modular arithmetic, total division, shifts. *)
Theorem bitvector_ops_correct x y :
  wf1 x -> wf1 y -> d_size x = d_size y ->
  let n := d_size x in let a := d_value x in let b := d_value y in
  BV.and x y = Ok (MkBitVector n (Z.land a b)) /\
  BV.or x y = Ok (MkBitVector n (Z.lor a b)) /\
  BV.xor x y = Ok (MkBitVector n (Z.lxor a b)) /\
  BV.not x = MkBitVector n (2 ^ n - 1 - a) /\
  BV.add x y = Ok (MkBitVector n ((a + b) mod 2 ^ n)) /\
  BV.sub x y = Ok (MkBitVector n ((a - b) mod 2 ^ n)) /\
  BV.neg x = Ok (MkBitVector n ((- a) mod 2 ^ n)) /\
  BV.mult x y = Ok (MkBitVector n ((a * b) mod 2 ^ n)) /\
  BV.unsignedDivTotal x y = Ok (MkBitVector n (Sem.udiv n a b)) /\
  BV.unsignedRemTotal x y = Ok (MkBitVector n (Sem.urem n a b)) /\
  BV.leftShift x y = Ok (MkBitVector n (Sem.shl n a b)) /\
  BV.logicalRightShift x y = Ok (MkBitVector n (Sem.lshr n a b)) /\
  BV.arithRightShift x y = Ok (MkBitVector n (Sem.ashr n a b)).
Proof.
  destruct x as [n a], y as [m b]. unfold wf1, wf. cbn [d_size d_value].
  intros [[Hn Ha] Hn1] [[_ Hb] _] <-. cbv zeta.
  repeat apply conj; [apply and_ok | apply or_ok | apply xor_ok | apply not_ok | apply add_ok
    | apply sub_ok | apply neg_ok | apply mult_ok | apply udiv_ok | apply urem_ok
    | apply shl_ok | apply lshr_ok | apply ashr_ok]; lia.
Qed.

(** C28. The comparisons: unsigned ones compare the values, signed ones the two's
    complement readings, and [toSignedInt] is that reading. *)
Theorem bitvector_comparisons_correct x y :
  wf1 x -> wf1 y -> d_size x = d_size y ->
  let n := d_size x in
  BV.toSignedInt x = Sem.signed n (d_value x) /\
  - 2 ^ (n - 1) <= BV.toSignedInt x < 2 ^ (n - 1) /\
  BV.unsignedLessThan x y = Ok (d_value x <? d_value y) /\
  BV.unsignedLessThanEq x y = Ok (d_value x <=? d_value y) /\
  BV.signedLessThan x y = Ok (Sem.slt n (d_value x) (d_value y)) /\
  BV.signedLessThanEq x y = Ok (Sem.sle n (d_value x) (d_value y)).
Proof.
  destruct x as [n a], y as [m b]. unfold wf1, wf. cbn [d_size d_value].
  intros [[Hn Ha] Hn1] [[_ Hb] _] <-. cbv zeta.
  unfold BV.unsignedLessThan, BV.unsignedLessThanEq, BV.signedLessThan, BV.signedLessThanEq.
  rewrite cmp_ok, !toSignedInt_ok by lia. pose proof (signed_range n a). rewrite !M_bind_Ok.
  cbn [d_value]. unfold Sem.slt, Sem.sle. repeat split; lia.
Qed.

(** C29. Widening and slicing: sign extension keeps the signed value, zero
    extension the unsigned one, and cutting a vector at any inner position and
    concatenating the two slices gives it back. *)
Theorem bitvector_widening_correct x k :
  wf1 x -> 0 <= k -> d_size x + k < 2 ^ 32 ->
  (exists y, BV.signExtend x k = Ok y /\ d_size y = d_size x + k /\
             BV.toSignedInt y = BV.toSignedInt x) /\
  BV.zeroExtend x k = MkBitVector (d_size x + k) (d_value x) /\
  (1 <= k < d_size x ->
   BV.concat (BV.extract x (d_size x - 1) k) (BV.extract x (k - 1) 0) = x).
Proof.
  destruct x as [n a]. unfold wf1, wf. cbn [d_size d_value]. intros [[Hn Ha] Hn1] Hk Hnk.
  assert (0 <= Sem.sext n a k < 2 ^ (n + k)) by (apply wrap_bound; lia).
  split; [| split].
  - exists (MkBitVector (n + k) (Sem.sext n a k)). split; [apply signExtend_ok; lia |].
    split; [done |]. rewrite !toSignedInt_ok by lia. rewrite sext_value by lia.
    rewrite testbit_half_pow2 by lia. unfold Sem.signed.
    pose proof (pow2_half n). pose proof (pow2_le (n - 1) (n + k - 1)).
    assert (2 ^ (n + k - 1) = 2 ^ (n - 1) * 2 ^ k) as -> by (rewrite <- Z.pow_add_r by lia; f_equal; lia).
    pose proof (pow2_ge1 k). rewrite (Z.pow_add_r 2 n k) by lia.
    destruct (Z.leb_spec (2 ^ (n - 1)) a), (Z.ltb_spec a (2 ^ (n - 1))); try lia.
    + destruct (Z.ltb_spec (a + 2 ^ n * (2 ^ k - 1)) (2 ^ (n - 1) * 2 ^ k)); nia.
    + destruct (Z.ltb_spec a (2 ^ (n - 1) * 2 ^ k)); nia.
  - apply zeroExtend_ok; lia.
  - intros Hkn. rewrite !extract_ok by lia. unfold Sem.extract.
    replace (n - 1 - k + 1) with (n - k) by lia. replace (k - 1 - 0 + 1) with k by lia.
    rewrite Z.pow_0_r, Z.div_1_r.
    assert (2 ^ n = 2 ^ (n - k) * 2 ^ k) as Hnb by (rewrite <- Z.pow_add_r by lia; f_equal; lia).
    assert (0 <= a / 2 ^ k < 2 ^ (n - k)) as Hd.
    { pose proof (pow2_gt0 k). split; [apply Z.div_pos; lia |]. apply Z.div_lt_upper_bound; nia. }
    rewrite (Z.mod_small (a / 2 ^ k)) by done.
    rewrite concat_ok; try lia; [| apply mod_pow2_bound; lia]. f_equal; [lia |].
    unfold Sem.concat. pose proof (Z.div_mod a (2 ^ k)). lia.
Qed.

End meaning.

(** ** The theorems at the reference arithmetic *)
Ltac wf1_tac := split; [split |]; vm_compute; [split; [discriminate | reflexivity] .. | discriminate].

Lemma bitvector_ops_correct_witness :
  let x := MkBitVector 4 13 in let y := MkBitVector 4 6 in
  BV.add (G := gmp_ref) x y = Ok (MkBitVector 4 3) /\
  BV.unsignedDivTotal (G := gmp_ref) x y = Ok (MkBitVector 4 2) /\
  BV.arithRightShift (G := gmp_ref) x y = Ok (MkBitVector 4 15).
Proof.
  destruct (bitvector_ops_correct (G := gmp_ref) (HG := gmp_ref_spec) (MkBitVector 4 13) (MkBitVector 4 6))
    as (_ & _ & _ & _ & Ha & _ & _ & _ & Hd & _ & _ & _ & Hs); [wf1_tac | wf1_tac | reflexivity |].
  split; [exact Ha | split; [exact Hd | exact Hs]].
Defined.
Lemma bitvector_comparisons_correct_witness :
  let x := MkBitVector 4 13 in let y := MkBitVector 4 6 in
  BV.toSignedInt (G := gmp_ref) x = -3 /\ BV.unsignedLessThan x y = Ok false /\
  BV.signedLessThan (G := gmp_ref) x y = Ok true.
Proof.
  destruct (bitvector_comparisons_correct (G := gmp_ref) (HG := gmp_ref_spec) (MkBitVector 4 13) (MkBitVector 4 6))
    as (Hs & _ & Hu & _ & Hl & _); [wf1_tac | wf1_tac | reflexivity |].
  split; [exact Hs | split; [exact Hu | exact Hl]].
Defined.
Lemma bitvector_widening_correct_witness :
  let x := MkBitVector 4 13 in
  BV.zeroExtend (G := gmp_ref) x 3 = MkBitVector 7 13 /\
  BV.concat (G := gmp_ref) (BV.extract (G := gmp_ref) x 3 3) (BV.extract (G := gmp_ref) x 2 0) = x.
Proof.
  destruct (bitvector_widening_correct (G := gmp_ref) (HG := gmp_ref_spec) (MkBitVector 4 13) 3) as (_ & Hz & Hc);
    [wf1_tac | lia | cbn; lia |].
  split; [exact Hz | apply Hc; cbn; lia].
Defined.
