(* ===== verification/Node.v ===== *)
(** * Terms, their types and their meaning

    Models the part of [src/expr/node.h] the Boolean and bit-vector layers use: a
    [Node] is a variable, a constant, or a [Kind] applied to children; nodes are
    hash-consed in the code, so [==] on nodes is structural equality here.  The
    operator of a parameterized kind (the indices of an extract, say) is an
    argument of the [Kind].  [computeType] translates the type rules of
    [src/theory/bv/theory_bv_type_rules.h],
    [src/theory/booleans/theory_bool_type_rules.h] and the equality rule of
    [src/theory/builtin/theory_builtin_type_rules.h].

    [eval] is the specification side: the SMT-LIB value of a term in a model
    ([env]); it is [None] on terms that are not well formed.  Later files state
    the correctness of rewriting and bit-blasting as preservation of [eval]. *)

From S2P Require Import Prelude Integer BitVector.
Local Open Scope Z_scope.

Inductive TypeNode : Set :=
  | NullType
  | BOOLEAN_TYPE
  | BITVECTOR_TYPE (size : Z).

#[global] Instance TypeNode_eq_dec : EqDecision TypeNode.
Proof. solve_decision. Defined.

Inductive Kind : Set :=
  | VARIABLE | CONST_BOOLEAN | CONST_BITVECTOR
  | EQUAL | NOT | AND | OR | IMPLIES | XOR | ITE
  | BITVECTOR_CONCAT
  | BITVECTOR_AND | BITVECTOR_OR | BITVECTOR_XOR | BITVECTOR_NOT
  | BITVECTOR_NAND | BITVECTOR_NOR | BITVECTOR_XNOR | BITVECTOR_COMP
  | BITVECTOR_MULT | BITVECTOR_PLUS | BITVECTOR_SUB | BITVECTOR_NEG
  | BITVECTOR_UDIV | BITVECTOR_UREM | BITVECTOR_SDIV | BITVECTOR_SREM | BITVECTOR_SMOD
  | BITVECTOR_UDIV_TOTAL | BITVECTOR_UREM_TOTAL
  | BITVECTOR_SHL | BITVECTOR_LSHR | BITVECTOR_ASHR
  | BITVECTOR_ULT | BITVECTOR_ULE | BITVECTOR_UGT | BITVECTOR_UGE
  | BITVECTOR_SLT | BITVECTOR_SLE | BITVECTOR_SGT | BITVECTOR_SGE
  | BITVECTOR_ULTBV | BITVECTOR_SLTBV | BITVECTOR_ITE
  | BITVECTOR_REDOR | BITVECTOR_REDAND | BITVECTOR_EAGER_ATOM
  | BITVECTOR_BITOF (bitIndex : Z)
  | BITVECTOR_EXTRACT (high low : Z)
  | BITVECTOR_REPEAT (repeatAmount : Z)
  | BITVECTOR_ZERO_EXTEND (zeroExtendAmount : Z)
  | BITVECTOR_SIGN_EXTEND (signExtendAmount : Z)
  | BITVECTOR_ROTATE_LEFT (rotateLeftAmount : Z)
  | BITVECTOR_ROTATE_RIGHT (rotateRightAmount : Z).

#[global] Instance Kind_eq_dec : EqDecision Kind.
Proof. solve_decision. Defined.

Inductive Node : Set :=
  | Var (x : positive) (t : TypeNode)
  | ConstBool (b : bool)
  | ConstBV (v : BitVector)
  | MkNode (k : Kind) (ch : list Node).

(** Induction over nodes, with the hypothesis for every child. *)
Section node_ind.
Variable P : Node -> Prop.
Hypothesis HVar : forall x t, P (Var x t).
Hypothesis HBool : forall b, P (ConstBool b).
Hypothesis HBV : forall v, P (ConstBV v).
Hypothesis HNode : forall k ch, Forall P ch -> P (MkNode k ch).

Fixpoint node_ind' (n : Node) : P n :=
  match n with
  | Var x t => HVar x t
  | ConstBool b => HBool b
  | ConstBV v => HBV v
  | MkNode k ch => HNode k ch
      ((fix go (l : list Node) : Forall P l :=
          match l with
          | [] => List.Forall_nil P
          | c :: l' => List.Forall_cons P c l' (node_ind' c) (go l')
          end) ch)
  end.
End node_ind.

(** Structural equality of nodes. *)
Fixpoint node_eqb (a b : Node) {struct a} : bool :=
  match a, b with
  | Var x t, Var y u => bool_decide (x = y) && bool_decide (t = u)
  | ConstBool b1, ConstBool b2 => Bool.eqb b1 b2
  | ConstBV v, ConstBV w => bool_decide (v = w)
  | MkNode k l, MkNode j m =>
      bool_decide (k = j) &&
      (fix go (l m : list Node) {struct l} : bool :=
         match l, m with
         | [], [] => true
         | x :: l', y :: m' => node_eqb x y && go l' m'
         | _, _ => false
         end) l m
  | _, _ => false
  end.

Lemma node_eqb_eq a b : node_eqb a b = true <-> a = b.
Proof.
  revert b. induction a as [x t|b1|v|k l IH] using node_ind'; intros [y u|b2|w|j m]; cbn;
    try (split; [discriminate | congruence]).
  - rewrite andb_true_iff, !bool_decide_eq_true. split; [intros [-> ->] | intros [= -> ->]]; done.
  - rewrite eqb_true_iff. split; [intros -> | intros [=]]; done.
  - rewrite bool_decide_eq_true. split; [intros -> | intros [=]]; done.
  - rewrite andb_true_iff, bool_decide_eq_true.
    assert (forall m', (fix go (l m : list Node) {struct l} : bool :=
         match l, m with
         | [], [] => true
         | x :: l', y :: m' => node_eqb x y && go l' m'
         | _, _ => false
         end) l m' = true <-> l = m') as Hl.
    { clear m. induction IH as [|x l Hx _ IHl]; intros [|y m]; try (split; [discriminate | congruence]);
        [done |]. rewrite andb_true_iff, Hx, IHl. split; [intros [-> ->] | intros [= -> ->]]; done. }
    rewrite Hl. split; [intros [-> ->] | intros [= -> ->]]; done.
Qed.

#[global] Instance Node_eq_dec : EqDecision Node.
Proof.
  intros a b. refine (match node_eqb a b as r return node_eqb a b = r -> _ with
    | true => fun H => left (proj1 (node_eqb_eq a b) H)
    | false => fun H => right (fun E => _) end eq_refl).
  subst. rewrite (proj2 (node_eqb_eq b b) eq_refl) in H. discriminate.
Defined.

(** ** Access, as [src/expr/node.h] provides it *)
Definition getKind (n : Node) : Kind :=
  match n with
  | Var _ _ => VARIABLE | ConstBool _ => CONST_BOOLEAN | ConstBV _ => CONST_BITVECTOR
  | MkNode k _ => k
  end.
Definition children (n : Node) : list Node := match n with MkNode _ ch => ch | _ => [] end.
Definition getNumChildren (n : Node) : nat := length (children n).
Definition isConst (n : Node) : bool :=
  match n with ConstBool _ | ConstBV _ => true | _ => false end.
(** [n[i]]; the code asserts that [i] is in range. *)
Definition child (n : Node) (i : nat) : M Node :=
  match children n !! i with Some c => Ok c | None => Throw AssertionFailed end.

Definition eqNode (a b : Node) : Node := MkNode EQUAL [a; b].
Definition notNode (a : Node) : Node := MkNode NOT [a].
Definition andNode (a b : Node) : Node := MkNode AND [a; b].
Definition orNode (a b : Node) : Node := MkNode OR [a; b].
Definition iteNode (c t e : Node) : Node := MkNode ITE [c; t; e].
Definition impNode (a b : Node) : Node := MkNode IMPLIES [a; b].
Definition xorNode (a b : Node) : Node := MkNode XOR [a; b].
Definition negate (n : Node) : Node :=
  match n with MkNode NOT [a] => a | _ => notNode n end.

(** The number of children each operator takes (the [kinds] files): [(m, None)]
    for [m] or more. *)
Definition arity (k : Kind) : nat * option nat :=
  match k with
  | VARIABLE | CONST_BOOLEAN | CONST_BITVECTOR => (0, Some 0)
  | NOT | BITVECTOR_NOT | BITVECTOR_NEG | BITVECTOR_REDOR | BITVECTOR_REDAND | BITVECTOR_EAGER_ATOM
  | BITVECTOR_BITOF _ | BITVECTOR_EXTRACT _ _ | BITVECTOR_REPEAT _
  | BITVECTOR_ZERO_EXTEND _ | BITVECTOR_SIGN_EXTEND _
  | BITVECTOR_ROTATE_LEFT _ | BITVECTOR_ROTATE_RIGHT _ => (1, Some 1)
  | ITE | BITVECTOR_ITE => (3, Some 3)
  | AND | OR | BITVECTOR_CONCAT | BITVECTOR_AND | BITVECTOR_OR | BITVECTOR_XOR
  | BITVECTOR_MULT | BITVECTOR_PLUS => (2, None)
  | _ => (2, Some 2)
  end%nat.

Definition arity_ok (k : Kind) (n : nat) : bool :=
  let '(lo, hi) := arity k in
  (lo <=? n)%nat && match hi with None => true | Some h => (n <=? h)%nat end.

(** ** The type rules *)
Definition isBitVector (t : TypeNode) : bool :=
  match t with BITVECTOR_TYPE _ => true | _ => false end.
Definition isBoolean (t : TypeNode) : bool :=
  match t with BOOLEAN_TYPE => true | _ => false end.
Definition getBitVectorSize (t : TypeNode) : M Z :=
  match t with BITVECTOR_TYPE n => Ok n | _ => Throw AssertionFailed end.
(** [TypeNode::leastCommonTypeNode] on these types: no subtyping between them. *)
Definition leastCommonTypeNode (a b : TypeNode) : TypeNode :=
  if bool_decide (a = b) then a else NullType.

Abbreviation tcheck := (check TypeCheckingException).
Abbreviation teq a b := (bool_decide (a = b)).

(** The (lazily computed) type of child [i]. *)
Definition ctype (ts : list (M TypeNode)) (i : nat) : M TypeNode :=
  match ts !! i with Some m => m | None => Throw AssertionFailed end.

Section type_rules.
Variable chk : bool.
(** [if (check) ...] *)
Abbreviation when c := (if chk then c else Ok tt).

Definition BooleanTypeRule (ts : list (M TypeNode)) : M TypeNode :=
  _ ← when (foldl (fun acc m => _ ← acc; t ← m; tcheck (isBoolean t)) (Ok tt) ts);
  Ok BOOLEAN_TYPE.

Definition IteTypeRule (ts : list (M TypeNode)) : M TypeNode :=
  thenType ← ctype ts 1;
  elseType ← ctype ts 2;
  let iteType := leastCommonTypeNode thenType elseType in
  _ ← when (c ← ctype ts 0;
            _ ← tcheck (teq c BOOLEAN_TYPE);
            tcheck (negb (teq iteType NullType)));
  Ok iteType.

Definition EqualityTypeRule (ts : list (M TypeNode)) : M TypeNode :=
  _ ← when (lhsType ← ctype ts 0;
            rhsType ← ctype ts 1;
            tcheck (negb (teq (leastCommonTypeNode lhsType rhsType) NullType)));
  Ok BOOLEAN_TYPE.

Definition BitVectorConstantTypeRule (v : BitVector) : M TypeNode :=
  _ ← when (tcheck (negb (d_size v =? 0))); Ok (BITVECTOR_TYPE (d_size v)).

Definition BitVectorBitOfTypeRule (i : Z) (ts : list (M TypeNode)) : M TypeNode :=
  _ ← when (t ← ctype ts 0;
            _ ← tcheck (isBitVector t);
            n ← getBitVectorSize t; tcheck (negb (n <=? i)));
  Ok BOOLEAN_TYPE.

Definition BitVectorBVPredTypeRule (ts : list (M TypeNode)) : M TypeNode :=
  _ ← when (lhs ← ctype ts 0; rhs ← ctype ts 1;
            tcheck (isBitVector lhs && teq lhs rhs));
  Ok (BITVECTOR_TYPE 1).

Definition BitVectorITETypeRule (ts : list (M TypeNode)) : M TypeNode :=
  _ ← check AssertionFailed (length ts =? 3)%nat;
  thenpart ← ctype ts 1;
  _ ← when (cond ← ctype ts 0;
            _ ← tcheck (teq cond (BITVECTOR_TYPE 1));
            elsepart ← ctype ts 2;
            tcheck (teq thenpart elsepart));
  Ok thenpart.

Definition BitVectorFixedWidthTypeRule (ts : list (M TypeNode)) : M TypeNode :=
  t ← ctype ts 0;
  _ ← when (_ ← tcheck (isBitVector t);
            foldl (fun acc m => _ ← acc; u ← m; tcheck (teq u t)) (Ok tt) (tail ts));
  Ok t.

Definition BitVectorPredicateTypeRule (ts : list (M TypeNode)) : M TypeNode :=
  _ ← when (lhsType ← ctype ts 0;
            _ ← tcheck (isBitVector lhsType);
            rhsType ← ctype ts 1;
            tcheck (teq lhsType rhsType));
  Ok BOOLEAN_TYPE.

Definition BitVectorUnaryPredicateTypeRule (ts : list (M TypeNode)) : M TypeNode :=
  _ ← when (t ← ctype ts 0; tcheck (isBitVector t)); Ok BOOLEAN_TYPE.

Definition BitVectorEagerAtomTypeRule (ts : list (M TypeNode)) : M TypeNode :=
  _ ← when (lhsType ← ctype ts 0; tcheck (isBoolean lhsType)); Ok BOOLEAN_TYPE.

Definition BitVectorExtractTypeRule (high low : Z) (ts : list (M TypeNode)) : M TypeNode :=
  _ ← tcheck (negb (high <? low));
  _ ← when (t ← ctype ts 0;
            _ ← tcheck (isBitVector t);
            n ← getBitVectorSize t; tcheck (negb (n <=? high)));
  Ok (BITVECTOR_TYPE (u32 (high - low + 1))).

(** [unsigned size] accumulates, so it wraps at 32 bits. *)
Definition BitVectorConcatTypeRule (ts : list (M TypeNode)) : M TypeNode :=
  size ← foldl (fun acc m => s ← acc; t ← m;
                  _ ← tcheck (isBitVector t);
                  n ← getBitVectorSize t; Ok (u32 (s + n))) (Ok 0) ts;
  Ok (BITVECTOR_TYPE size).

Definition BitVectorRepeatTypeRule (amount : Z) (ts : list (M TypeNode)) : M TypeNode :=
  t ← ctype ts 0; _ ← tcheck (isBitVector t);
  n ← getBitVectorSize t; Ok (BITVECTOR_TYPE (u32 (amount * n))).

Definition BitVectorExtendTypeRule (amount : Z) (ts : list (M TypeNode)) : M TypeNode :=
  t ← ctype ts 0; _ ← tcheck (isBitVector t);
  n ← getBitVectorSize t; Ok (BITVECTOR_TYPE (u32 (amount + n))).

(** The rule each kind is bound to (the [typerule] lines of the [kinds] files). *)
Definition computeType (k : Kind) (ts : list (M TypeNode)) : M TypeNode :=
  match k with
  | VARIABLE | CONST_BOOLEAN | CONST_BITVECTOR => Throw UnreachableCode
  | EQUAL => EqualityTypeRule ts
  | NOT | AND | OR | IMPLIES | XOR => BooleanTypeRule ts
  | ITE => IteTypeRule ts
  | BITVECTOR_CONCAT => BitVectorConcatTypeRule ts
  | BITVECTOR_AND | BITVECTOR_OR | BITVECTOR_XOR | BITVECTOR_NOT
  | BITVECTOR_NAND | BITVECTOR_NOR | BITVECTOR_XNOR
  | BITVECTOR_MULT | BITVECTOR_PLUS | BITVECTOR_SUB | BITVECTOR_NEG
  | BITVECTOR_UDIV | BITVECTOR_UREM | BITVECTOR_SDIV | BITVECTOR_SREM | BITVECTOR_SMOD
  | BITVECTOR_UDIV_TOTAL | BITVECTOR_UREM_TOTAL
  | BITVECTOR_SHL | BITVECTOR_LSHR | BITVECTOR_ASHR
  | BITVECTOR_ROTATE_LEFT _ | BITVECTOR_ROTATE_RIGHT _ => BitVectorFixedWidthTypeRule ts
  | BITVECTOR_ULT | BITVECTOR_ULE | BITVECTOR_UGT | BITVECTOR_UGE
  | BITVECTOR_SLT | BITVECTOR_SLE | BITVECTOR_SGT | BITVECTOR_SGE => BitVectorPredicateTypeRule ts
  | BITVECTOR_COMP | BITVECTOR_ULTBV | BITVECTOR_SLTBV => BitVectorBVPredTypeRule ts
  | BITVECTOR_ITE => BitVectorITETypeRule ts
  | BITVECTOR_REDOR | BITVECTOR_REDAND => BitVectorUnaryPredicateTypeRule ts
  | BITVECTOR_EAGER_ATOM => BitVectorEagerAtomTypeRule ts
  | BITVECTOR_BITOF i => BitVectorBitOfTypeRule i ts
  | BITVECTOR_EXTRACT h l => BitVectorExtractTypeRule h l ts
  | BITVECTOR_REPEAT a => BitVectorRepeatTypeRule a ts
  | BITVECTOR_ZERO_EXTEND a | BITVECTOR_SIGN_EXTEND a => BitVectorExtendTypeRule a ts
  end.

(** [Node::getType(check)]. *)
Fixpoint getType (n : Node) : M TypeNode :=
  match n with
  | Var _ t => Ok t
  | ConstBool _ => Ok BOOLEAN_TYPE
  | ConstBV v => BitVectorConstantTypeRule v
  | MkNode k ch => computeType k (map getType ch)
  end.

End type_rules.

(** [utils::getSize(node)]; [getType()] is called without checking. *)
Definition getSize (n : Node) : M Z := t ← getType false n; getBitVectorSize t.

(** ** Values and models *)
Inductive value : Set := VBool (b : bool) | VBV (v : BitVector).

#[global] Instance value_eq_dec : EqDecision value.
Proof. solve_decision. Defined.

(** A model: Boolean and bit-vector variables (a variable is identified by its name
    and its type, and the value of one of width [n] is taken modulo [2^n]), and the results of division and remainder by
    zero, which SMT-LIB's partial [bvudiv] and [bvurem] leave open. *)
Record env : Type := {
  e_bool : positive -> bool;
  e_bv : positive -> Z -> Z;
  e_udiv0 : Z -> Z -> Z;
  e_urem0 : Z -> Z -> Z
}.

(** Signed division and remainders, with the divisor 0 read off the unsigned
    ones. *)
Section sem.
Variable e : env.

Definition udiv_e (n a b : Z) : Z := if b =? 0 then Sem.wrap n (e_udiv0 e n a) else a / b.
Definition urem_e (n a b : Z) : Z := if b =? 0 then Sem.wrap n (e_urem0 e n a) else a mod b.

Definition sdiv_e (n a b : Z) : Z :=
  if b =? 0 then
    if Sem.signed n a <? 0 then Sem.neg n (udiv_e n (Sem.neg n a) 0) else udiv_e n a 0
  else Sem.wrap n (Z.quot (Sem.signed n a) (Sem.signed n b)).
Definition srem_e (n a b : Z) : Z :=
  if b =? 0 then
    if Sem.signed n a <? 0 then Sem.neg n (urem_e n (Sem.neg n a) 0) else urem_e n a 0
  else Sem.wrap n (Z.rem (Sem.signed n a) (Sem.signed n b)).
Definition smod_e (n a b : Z) : Z :=
  if b =? 0 then
    if Sem.signed n a <? 0 then Sem.neg n (urem_e n (Sem.neg n a) 0) else urem_e n a 0
  else Sem.wrap n (Sem.signed n a mod Sem.signed n b).

Definition rotl (n a k : Z) : Z :=
  let k := k mod n in Sem.wrap n (a * 2 ^ k) + a / 2 ^ (n - k).

Definition bv (n z : Z) : value := VBV (MkBitVector n z).

(** The Booleans among values; the common width and the values of vectors. *)
Definition as_bool (v : value) : option bool := match v with VBool b => Some b | _ => None end.
Definition as_bv (v : value) : option BitVector := match v with VBV b => Some b | _ => None end.
Definition as_bvs (vs : list value) : option (Z * list Z) :=
  bs ← mapM as_bv vs;
  match bs with
  | [] => None
  | b :: _ => if decide (Forall (fun c => d_size c = d_size b) bs)
              then Some (d_size b, map d_value bs) else None
  end.

Definition sem_fold (f : Z -> Z -> Z) (l : list Z) : option Z :=
  match l with [] => None | a :: l' => Some (foldl f a l') end.

Definition bv_nary (f : Z -> Z -> Z -> Z) (vs : list value) : option value :=
  '(n, l) ← as_bvs vs; z ← sem_fold (f n) l; Some (bv n z).
Definition bv_unary (f : Z -> Z -> Z) (vs : list value) : option value :=
  '(n, l) ← as_bvs vs; match l with [a] => Some (bv n (f n a)) | _ => None end.
Definition bv_binary (f : Z -> Z -> Z -> Z) (vs : list value) : option value :=
  '(n, l) ← as_bvs vs; match l with [a; b] => Some (bv n (f n a b)) | _ => None end.
Definition bv_pred (f : Z -> Z -> Z -> bool) (vs : list value) : option value :=
  '(n, l) ← as_bvs vs; match l with [a; b] => Some (VBool (f n a b)) | _ => None end.
Definition bv_bvpred (f : Z -> Z -> Z -> bool) (vs : list value) : option value :=
  '(n, l) ← as_bvs vs; match l with [a; b] => Some (bv 1 (Z.b2z (f n a b))) | _ => None end.
Definition same_type (v w : value) : bool :=
  match v, w with
  | VBool _, VBool _ => true
  | VBV x, VBV y => d_size x =? d_size y
  | _, _ => false
  end.

Fixpoint concat_vals (bs : list BitVector) : Z * Z :=
  match bs with
  | [] => (0, 0)
  | b :: l => let '(m, z) := concat_vals l in (d_size b + m, Sem.concat (d_value b) m z)
  end.

Definition fit (n z : Z) : option value :=
  if decide (1 <= n < 2 ^ 32) then Some (bv n z) else None.

Definition eval_kind (k : Kind) (vs : list value) : option value :=
  match k with
  | VARIABLE | CONST_BOOLEAN | CONST_BITVECTOR => None
  | EQUAL => match vs with
      | [v; w] => if same_type v w then Some (VBool (bool_decide (v = w))) else None
      | _ => None end
  | NOT => match vs with [VBool b] => Some (VBool (negb b)) | _ => None end
  | AND => bs ← mapM as_bool vs; Some (VBool (forallb id bs))
  | OR => bs ← mapM as_bool vs; Some (VBool (existsb id bs))
  | IMPLIES => match vs with [VBool a; VBool b] => Some (VBool (implb a b)) | _ => None end
  | XOR => match vs with [VBool a; VBool b] => Some (VBool (xorb a b)) | _ => None end
  | ITE => match vs with
      | [VBool c; v; w] => if same_type v w then Some (if c then v else w) else None
      | _ => None end
  | BITVECTOR_CONCAT => bs ← mapM as_bv vs; let '(n, z) := concat_vals bs in fit n z
  | BITVECTOR_AND => bv_nary (fun _ => Z.land) vs
  | BITVECTOR_OR => bv_nary (fun _ => Z.lor) vs
  | BITVECTOR_XOR => bv_nary (fun _ => Z.lxor) vs
  | BITVECTOR_NOT => bv_unary Sem.bnot vs
  | BITVECTOR_NAND => bv_binary (fun n a b => Sem.bnot n (Z.land a b)) vs
  | BITVECTOR_NOR => bv_binary (fun n a b => Sem.bnot n (Z.lor a b)) vs
  | BITVECTOR_XNOR => bv_binary (fun n a b => Sem.bnot n (Z.lxor a b)) vs
  | BITVECTOR_COMP => bv_bvpred (fun _ => Z.eqb) vs
  | BITVECTOR_MULT => bv_nary Sem.mul vs
  | BITVECTOR_PLUS => bv_nary Sem.add vs
  | BITVECTOR_SUB => bv_binary Sem.sub vs
  | BITVECTOR_NEG => bv_unary Sem.neg vs
  | BITVECTOR_UDIV => bv_binary udiv_e vs
  | BITVECTOR_UREM => bv_binary urem_e vs
  | BITVECTOR_SDIV => bv_binary sdiv_e vs
  | BITVECTOR_SREM => bv_binary srem_e vs
  | BITVECTOR_SMOD => bv_binary smod_e vs
  | BITVECTOR_UDIV_TOTAL => bv_binary Sem.udiv vs
  | BITVECTOR_UREM_TOTAL => bv_binary Sem.urem vs
  | BITVECTOR_SHL => bv_binary Sem.shl vs
  | BITVECTOR_LSHR => bv_binary Sem.lshr vs
  | BITVECTOR_ASHR => bv_binary Sem.ashr vs
  | BITVECTOR_ULT => bv_pred (fun _ => Sem.ult) vs
  | BITVECTOR_ULE => bv_pred (fun _ => Sem.ule) vs
  | BITVECTOR_UGT => bv_pred (fun _ a b => Sem.ult b a) vs
  | BITVECTOR_UGE => bv_pred (fun _ a b => Sem.ule b a) vs
  | BITVECTOR_SLT => bv_pred Sem.slt vs
  | BITVECTOR_SLE => bv_pred Sem.sle vs
  | BITVECTOR_SGT => bv_pred (fun n a b => Sem.slt n b a) vs
  | BITVECTOR_SGE => bv_pred (fun n a b => Sem.sle n b a) vs
  | BITVECTOR_ULTBV => bv_bvpred (fun _ => Sem.ult) vs
  | BITVECTOR_SLTBV => bv_bvpred Sem.slt vs
  | BITVECTOR_ITE => match vs with
      | [VBV c; v; w] =>
          if (d_size c =? 1) && same_type v w
          then Some (if d_value c =? 1 then v else w) else None
      | _ => None end
  | BITVECTOR_REDOR => match vs with [VBV x] => Some (VBool (negb (d_value x =? 0))) | _ => None end
  | BITVECTOR_REDAND => match vs with
      | [VBV x] => Some (VBool (d_value x =? 2 ^ d_size x - 1)) | _ => None end
  | BITVECTOR_EAGER_ATOM => match vs with [VBool b] => Some (VBool b) | _ => None end
  | BITVECTOR_BITOF i => match vs with
      | [VBV x] => if decide (0 <= i < d_size x) then Some (VBool (Z.testbit (d_value x) i)) else None
      | _ => None end
  | BITVECTOR_EXTRACT h l => match vs with
      | [VBV x] => if decide (0 <= l <= h /\ h < d_size x)
                   then Some (bv (h - l + 1) (Sem.extract (d_value x) h l)) else None
      | _ => None end
  | BITVECTOR_REPEAT k => match vs with
      | [VBV x] => if decide (1 <= k)
                   then let '(n, z) := concat_vals (replicate (Z.to_nat k) x) in fit n z else None
      | _ => None end
  | BITVECTOR_ZERO_EXTEND k => match vs with
      | [VBV x] => if decide (0 <= k) then fit (d_size x + k) (d_value x) else None
      | _ => None end
  | BITVECTOR_SIGN_EXTEND k => match vs with
      | [VBV x] => if decide (0 <= k)
                   then fit (d_size x + k) (Sem.sext (d_size x) (d_value x) k) else None
      | _ => None end
  | BITVECTOR_ROTATE_LEFT k => match vs with
      | [VBV x] => if decide (0 <= k) then Some (bv (d_size x) (rotl (d_size x) (d_value x) k)) else None
      | _ => None end
  | BITVECTOR_ROTATE_RIGHT k => match vs with
      | [VBV x] => if decide (0 <= k)
                   then Some (bv (d_size x) (rotl (d_size x) (d_value x) (d_size x - k mod d_size x))) else None
      | _ => None end
  end.

Definition eval_var (x : positive) (t : TypeNode) : option value :=
  match t with
  | NullType => None
  | BOOLEAN_TYPE => Some (VBool (e_bool e x))
  | BITVECTOR_TYPE n => fit n (e_bv e x n mod 2 ^ n)
  end.

(** The value of a term; [None] when the term is not well formed. *)
Fixpoint eval (n : Node) : option value :=
  match n with
  | Var x t => eval_var x t
  | ConstBool b => Some (VBool b)
  | ConstBV v => if decide (wf v /\ 1 <= d_size v) then Some (VBV v) else None
  | MkNode k ch =>
      if arity_ok k (length ch) then vs ← mapM eval ch; eval_kind k vs else None
  end.

End sem.

(** ** Inversion of evaluation *)
Definition type_of (v : value) : TypeNode :=
  match v with VBool _ => BOOLEAN_TYPE | VBV x => BITVECTOR_TYPE (d_size x) end.
(** Values are well formed vectors of positive width. *)
Definition vwf (v : value) : Prop := match v with VBool _ => True | VBV x => wf1 x end.

Lemma same_type_spec v w : same_type v w = true <-> type_of v = type_of w.
Proof.
  destruct v, w; cbn; rewrite ?Z.eqb_eq; split; intros H; try done; try congruence.
Qed.

Lemma eval_MkNode e k ch v :
  eval e (MkNode k ch) = Some v <->
  arity_ok k (length ch) = true /\
  exists vs, Forall2 (fun c w => eval e c = Some w) ch vs /\ eval_kind e k vs = Some v.
Proof.
  cbn. destruct (arity_ok k (length ch)).
  - rewrite bind_Some. setoid_rewrite mapM_Some. naive_solver.
  - naive_solver.
Qed.

Lemma as_bvs_Some vs n l :
  as_bvs vs = Some (n, l) <-> l <> [] /\ vs = map (bv n) l.
Proof.
  unfold as_bvs. rewrite bind_Some. split.
  - intros (bs & Hm & H). apply mapM_Some in Hm. destruct bs as [|b bs]; [done |].
    case_decide as Hall; [| done]. injection H as <- <-. split; [done |].
    change (vs = map (bv (d_size b)) (map d_value (b :: bs))).
    rewrite map_map. clear -Hm Hall.
    assert (forall bs', Forall2 (fun x y => as_bv x = Some y) vs bs' ->
              Forall (fun c => d_size c = d_size b) bs' ->
              vs = map (fun x => bv (d_size b) (d_value x)) bs') as H; [| by apply H].
    clear. induction 1 as [|v c vs' bs' Hv _ IH]; [done |]. intros Hall.
    inversion_clear Hall as [|? ? Hc Ht]. rewrite IH by done. cbn. f_equal.
    destruct v as [|w]; [done |]. injection Hv as ->. unfold bv. rewrite <- Hc. by destruct c.
  - intros [Hl ->]. exists (map (MkBitVector n) l). split.
    + apply mapM_Some. rewrite Forall2_fmap_l, Forall2_fmap_r. apply Forall_Forall2_diag.
      by apply Forall_true.
    + destruct l as [|a l]; [done |]. cbn. rewrite decide_True.
      * f_equal. f_equal. f_equal. rewrite map_map. cbn. by rewrite map_id.
      * constructor; [done |]. apply Forall_fmap, Forall_true. done.
Qed.

Lemma bv_unary_Some f vs v :
  bv_unary f vs = Some v <-> exists n a, vs = [bv n a] /\ v = bv n (f n a).
Proof.
  unfold bv_unary. rewrite bind_Some. split.
  - intros ([n l] & [Hl ->]%as_bvs_Some & H). destruct l as [|a [|]]; naive_solver.
  - intros (n & a & -> & ->). exists (n, [a]). by rewrite as_bvs_Some.
Qed.

Lemma bv_binary_Some f vs v :
  bv_binary f vs = Some v <-> exists n a b, vs = [bv n a; bv n b] /\ v = bv n (f n a b).
Proof.
  unfold bv_binary. rewrite bind_Some. split.
  - intros ([n l] & [Hl ->]%as_bvs_Some & H). destruct l as [|a [|b [|]]]; naive_solver.
  - intros (n & a & b & -> & ->). exists (n, [a; b]). by rewrite as_bvs_Some.
Qed.

Lemma bv_pred_Some f vs v :
  bv_pred f vs = Some v <-> exists n a b, vs = [bv n a; bv n b] /\ v = VBool (f n a b).
Proof.
  unfold bv_pred. rewrite bind_Some. split.
  - intros ([n l] & [Hl ->]%as_bvs_Some & H). destruct l as [|a [|b [|]]]; naive_solver.
  - intros (n & a & b & -> & ->). exists (n, [a; b]). by rewrite as_bvs_Some.
Qed.

Lemma bv_bvpred_Some f vs v :
  bv_bvpred f vs = Some v <->
  exists n a b, vs = [bv n a; bv n b] /\ v = bv 1 (Z.b2z (f n a b)).
Proof.
  unfold bv_bvpred. rewrite bind_Some. split.
  - intros ([n l] & [Hl ->]%as_bvs_Some & H). destruct l as [|a [|b [|]]]; naive_solver.
  - intros (n & a & b & -> & ->). exists (n, [a; b]). by rewrite as_bvs_Some.
Qed.

Lemma bv_nary_Some f vs v :
  bv_nary f vs = Some v <->
  exists n a l, vs = map (bv n) (a :: l) /\ v = bv n (foldl (f n) a l).
Proof.
  unfold bv_nary. rewrite bind_Some. split.
  - intros ([n l] & [Hl ->]%as_bvs_Some & H). destruct l as [|a l]; [done |].
    cbn in H. injection H as <-. eauto.
  - intros (n & a & l & -> & ->). exists (n, a :: l). rewrite as_bvs_Some. done.
Qed.

Lemma as_bools_Some vs bs : mapM as_bool vs = Some bs <-> vs = map VBool bs.
Proof.
  rewrite mapM_Some. split.
  - induction 1 as [|v b vs bs Hv _ IH]; [done |]. cbn. rewrite <- IH.
    destruct v; naive_solver.
  - intros ->. rewrite Forall2_fmap_l. apply Forall_Forall2_diag, Forall_true. done.
Qed.

Lemma as_bvlist_Some vs bs : mapM as_bv vs = Some bs <-> vs = map VBV bs.
Proof.
  rewrite mapM_Some. split.
  - induction 1 as [|v b vs bs Hv _ IH]; [done |]. cbn. rewrite <- IH.
    destruct v; naive_solver.
  - intros ->. rewrite Forall2_fmap_l. apply Forall_Forall2_diag, Forall_true. done.
Qed.

Lemma fit_Some n z v : fit n z = Some v <-> 1 <= n < 2 ^ 32 /\ v = bv n z.
Proof. unfold fit. case_decide; naive_solver. Qed.

(** ** Evaluation yields well-formed values *)
Definition rng (n z : Z) : Prop := 0 <= z < 2 ^ n.

Lemma vwf_bv n z : vwf (bv n z) <-> 1 <= n < 2 ^ 32 /\ rng n z.
Proof. unfold vwf, bv, wf1, wf, rng. cbn. naive_solver lia. Qed.

Section ranges.
Variables n a b : Z.
Hypothesis Hn : 1 <= n.
Hypothesis Ha : rng n a.
Hypothesis Hb : rng n b.

Lemma rng_land : rng n (Z.land a b). Proof. apply wf_land; unfold rng in *; lia. Qed.
Lemma rng_lor : rng n (Z.lor a b). Proof. apply wf_lor; unfold rng in *; lia. Qed.
Lemma rng_lxor : rng n (Z.lxor a b). Proof. apply wf_lxor; unfold rng in *; lia. Qed.
Lemma rng_bnot : rng n (Sem.bnot n a). Proof. by apply bnot_bound. Qed.
Lemma rng_wrap z : rng n (Sem.wrap n z). Proof. apply wrap_bound. lia. Qed.
Lemma rng_zero : rng n 0. Proof. unfold rng in *. lia. Qed.
Lemma rng_div c : 0 <= c -> rng n (a / c).
Proof.
  intros Hc. unfold rng in *. destruct (decide (c = 0)) as [->|]; [rewrite Z.div_0_r; lia |].
  split; [apply Z.div_pos; lia |]. apply Z.div_lt_upper_bound; nia.
Qed.
Lemma rng_mod : rng n (if b =? 0 then a else a mod b).
Proof.
  unfold rng in *. destruct (Z.eqb_spec b 0); [done |]. pose proof (Z.mod_pos_bound a b). lia.
Qed.
Lemma rng_udiv : rng n (Sem.udiv n a b).
Proof.
  unfold Sem.udiv. destruct (b =? 0); [unfold rng; pose proof (pow2_ge1 n); lia |].
  apply rng_div. unfold rng in Hb. lia.
Qed.
Lemma rng_shl : rng n (Sem.shl n a b).
Proof. unfold Sem.shl. destruct (_ <=? _); [apply rng_zero | apply rng_wrap]. Qed.
Lemma rng_lshr : rng n (Sem.lshr n a b).
Proof. unfold Sem.lshr. destruct (_ <=? _); [apply rng_zero | apply rng_div; lia]. Qed.
Lemma rng_ashr : rng n (Sem.ashr n a b).
Proof.
  unfold Sem.ashr. destruct (n <=? b); [| apply rng_wrap].
  destruct (_ <? _); [| apply rng_zero]. unfold rng. pose proof (pow2_ge1 n). lia.
Qed.
Lemma rng_udiv_e e : rng n (udiv_e e n a b).
Proof.
  unfold udiv_e. destruct (b =? 0); [apply rng_wrap | apply rng_div; unfold rng in Hb; lia].
Qed.
Lemma rng_urem_e e : rng n (urem_e e n a b).
Proof.
  pose proof rng_mod as H. unfold urem_e. destruct (b =? 0); [apply rng_wrap | done].
Qed.
End ranges.

Lemma rng_sdiv_e e n a b : 1 <= n -> rng n a -> rng n (sdiv_e e n a b).
Proof.
  intros Hn Ha.
  unfold sdiv_e, Sem.neg. repeat case_match; by apply rng_wrap.
Qed.
Lemma rng_srem_e e n a b : 1 <= n -> rng n a -> rng n (srem_e e n a b).
Proof.
  intros Hn Ha.
  unfold srem_e, Sem.neg. repeat case_match; by apply rng_wrap.
Qed.
Lemma rng_smod_e e n a b : 1 <= n -> rng n a -> rng n (smod_e e n a b).
Proof.
  intros Hn Ha.
  unfold smod_e, Sem.neg. repeat case_match; by apply rng_wrap.
Qed.

Lemma rng_b2z b : rng 1 (Z.b2z b).
Proof. unfold rng. destruct b; cbn; lia. Qed.

Lemma rng_foldl (f : Z -> Z -> Z) n a l :
  (forall x y, rng n x -> rng n y -> rng n (f x y)) ->
  rng n a -> Forall (rng n) l -> rng n (foldl f a l).
Proof.
  intros Hf Ha Hl. revert a Ha. induction Hl as [|b l Hb _ IH]; intros a Ha; cbn; auto.
Qed.

Lemma rng_rotl n a k : 1 <= n -> rng n a -> rng n (rotl n a k).
Proof.
  intros Hn Ha. unfold rotl, rng, Sem.wrap in *. pose proof (Z.mod_pos_bound k n).
  set (j := k mod n) in *.
  assert (2 ^ n = 2 ^ (n - j) * 2 ^ j) as Hp by (rewrite <- Z.pow_add_r by lia; f_equal; lia).
  pose proof (pow2_gt0 j). pose proof (pow2_gt0 (n - j)).
  assert ((a * 2 ^ j) mod 2 ^ n = a mod 2 ^ (n - j) * 2 ^ j) as ->
    by (rewrite Hp; apply Z.mul_mod_distr_r; lia).
  pose proof (mod_pow2_bound a (n - j)).
  assert (0 <= a / 2 ^ (n - j) < 2 ^ j).
  { split; [apply Z.div_pos; lia |]. apply Z.div_lt_upper_bound; nia. }
  nia.
Qed.

Lemma concat_vals_rng bs m z :
  Forall wf1 bs -> concat_vals bs = (m, z) -> 0 <= m /\ rng m z.
Proof.
  intros H. revert m z. induction H as [|b l [[Hs Hv] _] _ IH]; intros m z; cbn.
  - intros [= <- <-]. unfold rng. cbn. lia.
  - destruct (concat_vals l) as [m' z']. intros [= <- <-]. destruct (IH m' z' eq_refl) as [Hm Hz].
    split; [lia |]. apply concat_bound; try lia; done.
Qed.

Lemma map_bv_vwf n l : Forall vwf (map (bv n) l) -> l <> [] -> 1 <= n < 2 ^ 32 /\ Forall (rng n) l.
Proof.
  intros H Hl. rewrite Forall_fmap in H. split.
  - destruct l; [done |]. apply Forall_inv, vwf_bv in H. naive_solver.
  - eapply Forall_impl; [exact H |]. intros z Hz. by apply vwf_bv in Hz as [_ ?].
Qed.

Lemma vwf_bvlist bs : Forall vwf (map VBV bs) -> Forall wf1 bs.
Proof. by rewrite Forall_fmap. Qed.

(** What the operators that keep the width need of the function they apply. *)
Lemma bv_unary_vwf f vs v :
  Forall vwf vs -> bv_unary f vs = Some v ->
  (forall n a, 1 <= n -> rng n a -> rng n (f n a)) -> vwf v.
Proof.
  intros Hvs (n & a & -> & ->)%bv_unary_Some Hf. apply (map_bv_vwf n [a]) in Hvs as [Hn Hr]; [| done].
  apply vwf_bv. split; [done |]. apply Forall_inv in Hr. auto with lia.
Qed.

Lemma bv_binary_vwf f vs v :
  Forall vwf vs -> bv_binary f vs = Some v ->
  (forall n a b, 1 <= n -> rng n a -> rng n b -> rng n (f n a b)) -> vwf v.
Proof.
  intros Hvs (n & a & b & -> & ->)%bv_binary_Some Hf.
  apply (map_bv_vwf n [a; b]) in Hvs as [Hn Hr]; [| done].
  apply vwf_bv. split; [done |]. apply Forall_cons in Hr as [? [? _]%Forall_cons]. auto with lia.
Qed.

Lemma bv_nary_vwf f vs v :
  Forall vwf vs -> bv_nary f vs = Some v ->
  (forall n a b, 1 <= n -> rng n a -> rng n b -> rng n (f n a b)) -> vwf v.
Proof.
  intros Hvs (n & a & l & -> & ->)%bv_nary_Some Hf.
  apply map_bv_vwf in Hvs as [Hn Hr]; [| done].
  apply vwf_bv. split; [done |]. apply Forall_cons in Hr as [? ?]. apply rng_foldl; auto with lia.
Qed.

Lemma bv_bvpred_vwf f vs v : bv_bvpred f vs = Some v -> vwf v.
Proof. intros (n & a & b & -> & ->)%bv_bvpred_Some. apply vwf_bv. split; [lia | apply rng_b2z]. Qed.

Lemma bv_pred_vwf f vs v : bv_pred f vs = Some v -> vwf v.
Proof. by intros (n & a & b & -> & ->)%bv_pred_Some. Qed.

Lemma fit_vwf n z v : rng n z -> fit n z = Some v -> vwf v.
Proof. intros Hz [Hn ->]%fit_Some. by apply vwf_bv. Qed.

Lemma rng_extract a h l : 0 <= l <= h -> rng (h - l + 1) (Sem.extract a h l).
Proof. intros. unfold rng, Sem.extract. apply mod_pow2_bound. lia. Qed.

Create HintDb rng.
#[export] Hint Resolve rng_land rng_lor rng_lxor rng_bnot rng_wrap rng_udiv rng_mod rng_shl rng_lshr
  rng_ashr rng_udiv_e rng_urem_e rng_sdiv_e rng_srem_e rng_smod_e rng_rotl rng_extract : rng.

(** Split the matches of a successful [eval_kind]. *)
Ltac ev_split H :=
  repeat (case_match; try discriminate H);
  repeat match goal with E : (_ =? _) = true |- _ => apply Z.eqb_eq in E end.

Lemma eval_kind_vwf e k vs v : Forall vwf vs -> eval_kind e k vs = Some v -> vwf v.
Proof.
  intros Hvs. destruct k; cbn [eval_kind]; try discriminate;
    try (intros Hv; first
      [ by eapply bv_pred_vwf | by eapply bv_bvpred_vwf
      | eapply bv_nary_vwf; [done | done |]; cbv beta; eauto with rng
      | eapply bv_binary_vwf; [done | done |]; cbv beta; eauto with rng
      | eapply bv_unary_vwf; [done | done |]; cbv beta; eauto with rng ]; fail); intros H.
  all: try (ev_split H; injection H as <-; exact I).
  1, 2: by apply bind_Some in H as (bs & _ & [= <-]).
  - destruct vs as [|[c|] [|x [|y [|]]]]; try done. case_match; [| done]. injection H as <-.
    apply Forall_cons in Hvs as [_ [? [? _]%Forall_cons]%Forall_cons]. by destruct c.
  - apply bind_Some in H as (bs & Hm & H). apply as_bvlist_Some in Hm as ->.
    apply vwf_bvlist in Hvs. destruct (concat_vals bs) as [m z] eqn:E.
    eapply fit_vwf; [| done]. by eapply concat_vals_rng.
  - destruct vs as [|[|c] [|x [|y [|]]]]; try done. case_match; [| done]. injection H as <-.
    apply Forall_cons in Hvs as [_ [? [? _]%Forall_cons]%Forall_cons]. by case_match.
  - destruct vs as [|[|[n a]] [|]]; try done. apply Forall_inv, vwf_bv in Hvs. cbn in H.
    case_decide; [| done]. injection H as <-. apply vwf_bv. split; [lia | apply rng_extract; lia].
  - destruct vs as [|[|x] [|]]; try done. apply Forall_inv in Hvs.
    case_decide; [| done]. destruct (concat_vals _) as [m z] eqn:E.
    eapply fit_vwf; [| done]. eapply concat_vals_rng; [| done]. by apply Forall_replicate.
  - destruct vs as [|[|[n a]] [|]]; try done. apply Forall_inv, vwf_bv in Hvs. cbn in H.
    case_decide; [| done]. eapply fit_vwf; [| done]. unfold rng in *.
    pose proof (pow2_le n (n + zeroExtendAmount)). lia.
  - destruct vs as [|[|[n a]] [|]]; try done. apply Forall_inv, vwf_bv in Hvs. cbn in H.
    case_decide; [| done]. eapply fit_vwf; [| done]. apply rng_wrap. lia.
  - destruct vs as [|[|[n a]] [|]]; try done. apply Forall_inv, vwf_bv in Hvs. cbn in H.
    case_decide; [| done]. injection H as <-. apply vwf_bv. split; [lia |]. apply rng_rotl; [lia | by apply Hvs].
  - destruct vs as [|[|[n a]] [|]]; try done. apply Forall_inv, vwf_bv in Hvs. cbn in H.
    case_decide; [| done]. injection H as <-. apply vwf_bv. split; [lia |]. apply rng_rotl; [lia | by apply Hvs].
Qed.

Lemma Forall2_Forall_r_impl {A B} (P : A -> B -> Prop) (Q : B -> Prop) l k :
  Forall2 P l k -> Forall (fun x => forall y, P x y -> Q y) l -> Forall Q k.
Proof. induction 1; intros HQ; inversion_clear HQ; constructor; auto. Qed.

(** Evaluation never leaves the values of the theory: a bit-vector value has
    a width from 1 to [2^32 - 1] and is below [2^width]. *)
Lemma eval_wf e n v : eval e n = Some v -> vwf v.
Proof.
  revert v. induction n as [x t|b|w|k ch IH] using node_ind'; intros v H.
  - destruct t as [| |n]; cbn in H; [done | by injection H as <- |].
    eapply fit_vwf; [| done]. apply mod_pow2_bound. apply fit_Some in H. lia.
  - by injection H as <-.
  - cbn in H. case_decide as Hw; [| done]. injection H as <-. exact Hw.
  - apply eval_MkNode in H as (_ & vs & Hvs & H). eapply eval_kind_vwf; [| done].
    eapply Forall2_Forall_r_impl; [exact Hvs |]. eapply Forall_impl; [exact IH |]. auto.
Qed.

(** ** Evaluation and the type rules agree *)
Abbreviation types_of vs := (map (fun w => Ok (type_of w)) vs).

Lemma type_of_bvs n l : types_of (map (bv n) l) = map (fun _ => Ok (BITVECTOR_TYPE n)) l.
Proof. rewrite map_map. done. Qed.

Lemma foldl_tcheck_Ok (f : TypeNode -> bool) (l : list TypeNode) :
  forallb f l = true ->
  foldl (fun acc m => _ ← acc; t ← m; tcheck (f t)) (Ok tt) (map Ok l) = Ok tt.
Proof.
  induction l as [|t l IH]; [done |]. cbn. rewrite andb_true_iff. intros [Ht Hl].
  rewrite Ht. cbn. by apply IH.
Qed.

Lemma FixedWidth_bvs chk n l :
  l <> [] -> BitVectorFixedWidthTypeRule chk (types_of (map (bv n) l)) = Ok (BITVECTOR_TYPE n).
Proof.
  intros Hl. destruct l as [|a l]; [done |]. rewrite type_of_bvs. cbn. destruct chk; [| done].
  cbn. replace (map _ l) with (map Ok (map (fun _ : Z => BITVECTOR_TYPE n) l))
    by (by rewrite map_map).
  rewrite (foldl_tcheck_Ok (fun u => teq u (BITVECTOR_TYPE n))); [done |].
  apply Is_true_true, forallb_True. rewrite Forall_fmap. apply Forall_true. intros. cbn. by apply bool_decide_pack.
Qed.

Lemma Boolean_bools chk bs : BooleanTypeRule chk (types_of (map VBool bs)) = Ok BOOLEAN_TYPE.
Proof.
  unfold BooleanTypeRule. destruct chk; [| done]. rewrite map_map.
  replace (map _ bs) with (map Ok (map (fun _ : bool => BOOLEAN_TYPE) bs)) by (by rewrite map_map).
  rewrite (foldl_tcheck_Ok isBoolean); [done |]. apply Is_true_true, forallb_True.
  rewrite Forall_fmap. apply Forall_true. done.
Qed.

Lemma Concat_bvs bs s :
  Forall wf1 bs -> s + (concat_vals bs).1 < 2 ^ 32 -> 0 <= s ->
  foldl (fun acc m => s ← acc; t ← m;
           _ ← tcheck (isBitVector t);
           n ← getBitVectorSize t; Ok (u32 (s + n))) (Ok s) (types_of (map VBV bs))
  = Ok (s + (concat_vals bs).1).
Proof.
  intros H. revert s. induction H as [|b l [[Hs Hv] Hp] Hl IH]; intros s; cbn.
  - intros. f_equal. lia.
  - destruct (concat_vals l) as [m z] eqn:E. cbn in *. intros Hlt H0.
    pose proof (concat_vals_rng l m z Hl E) as [Hm _]. rewrite u32_small by lia.
    rewrite IH by lia. f_equal. lia.
Qed.

Lemma concat_vals_replicate k b : (concat_vals (replicate k b)).1 = Z.of_nat k * d_size b.
Proof.
  induction k as [|k IH]; [done |]. cbn. destruct (concat_vals (replicate k b)). cbn in *. lia.
Qed.

Lemma leastCommon_refl t : leastCommonTypeNode t t = t.
Proof. unfold leastCommonTypeNode. by rewrite bool_decide_true. Qed.

Lemma type_of_not_null v : teq (type_of v) NullType = false.
Proof. by destruct v. Qed.

Lemma eval_kind_type chk e k vs v :
  Forall vwf vs -> eval_kind e k vs = Some v ->
  computeType chk k (types_of vs) = Ok (type_of v).
Proof.
  intros Hvs. destruct k; cbn [eval_kind computeType]; try discriminate; intros H.
  all: try (apply bv_pred_Some in H as (n & a & b & -> & ->); destruct chk;
            unfold BitVectorPredicateTypeRule; cbn; rewrite ?bool_decide_true; done).
  all: try (apply bv_bvpred_Some in H as (n & a & b & -> & ->); destruct chk;
            unfold BitVectorBVPredTypeRule; cbn; rewrite ?bool_decide_true; done).
  all: try (apply bv_nary_Some in H as (n & a & l & -> & ->); by rewrite FixedWidth_bvs).
  all: try (apply bv_binary_Some in H as (n & a & b & -> & ->); apply (FixedWidth_bvs chk n [a; b]); done).
  all: try (apply bv_unary_Some in H as (n & a & -> & ->); apply (FixedWidth_bvs chk n [a]); done).
  all: try (apply bind_Some in H as (bs & ->%as_bools_Some & [= <-]); apply Boolean_bools).
  - destruct vs as [|x [|y [|]]]; try done. destruct (same_type x y) eqn:Hxy; [| done].
    injection H as <-. apply same_type_spec in Hxy. unfold EqualityTypeRule. destruct chk; [| done].
    cbn. by rewrite Hxy, leastCommon_refl, type_of_not_null.
  - destruct vs as [|[b|] [|]]; try done. injection H as <-. apply (Boolean_bools chk [b]).
  - destruct vs as [|[a|] [|[b|] [|]]]; try done. injection H as <-. apply (Boolean_bools chk [a; b]).
  - destruct vs as [|[a|] [|[b|] [|]]]; try done. injection H as <-. apply (Boolean_bools chk [a; b]).
  - destruct vs as [|[c|] [|x [|y [|]]]]; try done. destruct (same_type x y) eqn:Hxy; [| done].
    injection H as <-. apply same_type_spec in Hxy. unfold IteTypeRule. cbn.
    rewrite Hxy, leastCommon_refl. replace (type_of (if c then x else y)) with (type_of y) by (by destruct c).
    destruct chk; [| done]. cbn. by rewrite type_of_not_null.
  - apply bind_Some in H as (bs & ->%as_bvlist_Some & H). apply vwf_bvlist in Hvs.
    destruct (concat_vals bs) as [m z] eqn:E. apply fit_Some in H as [Hm ->].
    unfold BitVectorConcatTypeRule. rewrite Concat_bvs, E; rewrite ?E; cbn; [done | done | lia | lia].
  - destruct vs as [|[|c] [|x [|y [|]]]]; try done.
    destruct ((_ =? _) && _) eqn:Hxy; [| done]. injection H as <-.
    apply andb_true_iff in Hxy as [Hc%Z.eqb_eq Hxy%same_type_spec]. unfold BitVectorITETypeRule. cbn.
    rewrite Hc, Hxy. replace (type_of (if _ : bool then x else y)) with (type_of y) by (by case_match).
    destruct chk; [| done]. cbn. by rewrite bool_decide_true.
  - destruct vs as [|[|x] [|]]; try done. injection H as <-. by destruct chk.
  - destruct vs as [|[|x] [|]]; try done. injection H as <-. by destruct chk.
  - destruct vs as [|[b|] [|]]; try done. injection H as <-. by destruct chk.
  - destruct vs as [|[|x] [|]]; try done. case_decide as Hi; [| done]. injection H as <-.
    unfold BitVectorBitOfTypeRule. destruct chk; [| done]. cbn.
    by rewrite (proj2 (Z.leb_gt (d_size x) bitIndex)) by lia.
  - destruct vs as [|[|x] [|]]; try done. case_decide as Hi; [| done]. injection H as <-.
    apply Forall_inv in Hvs as [[? _] _].
    unfold BitVectorExtractTypeRule. rewrite (proj2 (Z.ltb_ge high low)), u32_small by lia.
    destruct chk; [| done]. cbn. by rewrite (proj2 (Z.leb_gt (d_size x) high)) by lia.
  - destruct vs as [|[|x] [|]]; try done. case_decide as Hi; [| done].
    pose proof (concat_vals_replicate (Z.to_nat repeatAmount) x) as Hm.
    destruct (concat_vals _) as [m z]. apply fit_Some in H as [Hf ->]. cbn in Hm |- *.
    rewrite u32_small by lia. do 2 f_equal. lia.
  - destruct vs as [|[|x] [|]]; try done. case_decide; [| done]. apply fit_Some in H as [Hf ->].
    cbn. rewrite u32_small by lia. do 2 f_equal. lia.
  - destruct vs as [|[|x] [|]]; try done. case_decide; [| done]. apply fit_Some in H as [Hf ->].
    cbn. rewrite u32_small by lia. do 2 f_equal. lia.
  - destruct vs as [|[|[n a]] [|]]; try done. case_decide; [| done]. injection H as <-.
    by apply (FixedWidth_bvs chk n [a]).
  - destruct vs as [|[|[n a]] [|]]; try done. case_decide; [| done]. injection H as <-.
    by apply (FixedWidth_bvs chk n [a]).
Qed.

Lemma eval_children_vwf e ch vs :
  Forall2 (fun c w => eval e c = Some w) ch vs -> Forall vwf vs.
Proof.
  intros H. eapply Forall2_Forall_r_impl; [exact H |]. apply Forall_true. intros. by eapply eval_wf.
Qed.

(** A term that denotes a value is well typed, and the type rules (with and
    without [check]) compute the type of that value. *)
Lemma eval_getType chk e n v : eval e n = Some v -> getType chk n = Ok (type_of v).
Proof.
  revert v. induction n as [x t|b|w|k ch IH] using node_ind'; intros v H.
  - destruct t as [| |n]; cbn in H; [done | by injection H as <- |].
    by apply fit_Some in H as [_ ->].
  - by injection H as <-.
  - cbn in *. case_decide as Hw; [| done]. injection H as <-. unfold BitVectorConstantTypeRule.
    destruct chk; [| done]. rewrite (proj2 (Z.eqb_neq (d_size w) 0)) by lia. done.
  - apply eval_MkNode in H as (_ & vs & Hvs & H).
    pose proof (eval_children_vwf e ch vs Hvs) as Hwf. cbn.
    replace (map (getType chk) ch) with (types_of vs); [by eapply eval_kind_type |].
    clear -Hvs IH. induction Hvs as [|c w ch vs Hc _ IHl]; [done |].
    apply Forall_cons in IH as [IHc IH]. cbn. by rewrite (IHc w Hc), IHl.
Qed.

Lemma eval_getSize e n x : eval e n = Some (VBV x) -> getSize n = Ok (d_size x).
Proof. intros H. unfold getSize. by rewrite (eval_getType false e n _ H). Qed.

(** ** Which terms denote does not depend on the model *)
Lemma types_bvs vs' n l :
  map type_of vs' = map type_of (map (bv n) l) -> exists l', length l' = length l /\ vs' = map (bv n) l'.
Proof.
  revert l. induction vs' as [|v vs' IH]; intros [|a l]; try done; cbn; [by exists [] |].
  intros [= Hv Hl]. destruct (IH l Hl) as (l' & Hlen & ->). destruct v as [|[m z]]; [done |].
  injection Hv as ->. exists (z :: l'). cbn. by rewrite Hlen.
Qed.

Lemma types_bools vs' bs : map type_of vs' = map type_of (map VBool bs) -> exists bs', vs' = map VBool bs'.
Proof.
  revert bs. induction vs' as [|v vs' IH]; intros [|a l]; try done; cbn; [by exists [] |].
  intros [= Hv Hl]. destruct (IH l Hl) as (l' & ->). destruct v as [b|]; [| done]. by exists (b :: l').
Qed.

Lemma types_bvlist vs' bs : map type_of vs' = map type_of (map VBV bs) ->
  exists bs', vs' = map VBV bs' /\ (concat_vals bs').1 = (concat_vals bs).1.
Proof.
  revert bs. induction vs' as [|v vs' IH]; intros [|a l]; try done; cbn; [by exists [] |].
  intros [= Hv Hl]. destruct (IH l Hl) as (l' & -> & Hc). destruct v as [|x]; [done |].
  injection Hv as Hx. exists (x :: l'). split; [done |]. cbn.
  destruct (concat_vals l'), (concat_vals l). cbn in *. lia.
Qed.

(** Split a goal about values of the same types as given ones. *)
Ltac same_types :=
  repeat match goal with
  | H : [] = map type_of ?l |- _ => destruct l; [clear H | discriminate H]
  | H : map type_of ?l = [] |- _ => destruct l; [clear H | discriminate H]
  | H : map type_of ?l = _ :: _ |- _ => destruct l as [|? l]; [discriminate H |]; cbn in H; injection H; clear H; intros
  end.

Ltac same_size :=
  match goal with E : type_of (VBV _) = BITVECTOR_TYPE _ |- _ =>
    let Hs := fresh "Hs" in injection E as Hs; try rewrite Hs end.

Lemma eval_kind_defined e e' k vs vs' v :
  map type_of vs' = map type_of vs -> eval_kind e k vs = Some v -> exists v', eval_kind e' k vs' = Some v'.
Proof.
  intros Ht. destruct k; cbn [eval_kind]; try discriminate; intros H.
  all: try (apply bv_pred_Some in H as (n & a & b & -> & ->); apply (types_bvs vs' n [a; b]) in Ht as ([|? [|? [|]]] & ? & ->);
            try done; eexists; apply bv_pred_Some; eauto; fail).
  all: try (apply bv_bvpred_Some in H as (n & a & b & -> & ->); apply (types_bvs vs' n [a; b]) in Ht as ([|? [|? [|]]] & ? & ->);
            try done; eexists; apply bv_bvpred_Some; eauto; fail).
  all: try (apply bv_nary_Some in H as (n & a & l & -> & ->); apply types_bvs in Ht as ([|? ?] & ? & ->);
            [done |]; eexists; apply bv_nary_Some; eauto; fail).
  all: try (apply bv_binary_Some in H as (n & a & b & -> & ->); apply (types_bvs vs' n [a; b]) in Ht as ([|? [|? [|]]] & ? & ->);
            try done; eexists; apply bv_binary_Some; eauto; fail).
  all: try (apply bv_unary_Some in H as (n & a & -> & ->); apply (types_bvs vs' n [a]) in Ht as ([|? [|]] & ? & ->);
            try done; eexists; apply bv_unary_Some; eauto; fail).
  all: try (apply bind_Some in H as (bs & ->%as_bools_Some & [= <-]); apply types_bools in Ht as [bs' ->];
            eexists; apply bind_Some; exists bs'; by rewrite as_bools_Some).
  - destruct vs as [|x [|y [|]]]; try done. destruct (same_type x y) eqn:Hxy; [| done]. apply same_type_spec in Hxy.
    cbn in Ht. same_types. eexists. rewrite (proj2 (same_type_spec _ _)); [done | congruence].
  - destruct vs as [|[|] [|]]; try done. cbn in Ht. same_types. destruct v0; [| done]. by eexists.
  - destruct vs as [|[|] [|[|] [|]]]; try done. cbn in Ht. same_types. destruct v0, v1; try done. by eexists.
  - destruct vs as [|[|] [|[|] [|]]]; try done. cbn in Ht. same_types. destruct v0, v1; try done. by eexists.
  - destruct vs as [|[|] [|x [|y [|]]]]; try done. destruct (same_type x y) eqn:Hxy; [| done]. apply same_type_spec in Hxy.
    cbn in Ht. same_types. destruct v0; [| done]. rewrite (proj2 (same_type_spec _ _)); [by eexists | congruence].
  - apply bind_Some in H as (bs & ->%as_bvlist_Some & H). apply types_bvlist in Ht as (bs' & -> & Hc).
    destruct (concat_vals bs) as [m z] eqn:E. apply fit_Some in H as [Hm ->]. cbn in Hc.
    destruct (concat_vals bs') as [m' z'] eqn:E'. cbn in Hc. subst m'.
    eexists. apply bind_Some. exists bs'. rewrite as_bvlist_Some, E'. split; [done |]. by apply fit_Some.
  - destruct vs as [|[|c] [|x [|y [|]]]]; try done. destruct ((_ =? _) && _) eqn:Hxy; [| done].
    apply andb_true_iff in Hxy as [Hc Hxy%same_type_spec]. cbn in Ht. same_types. destruct v0 as [|c']; [done |].
    same_size. rewrite Hc, (proj2 (same_type_spec _ _)); [by eexists | congruence].
  - destruct vs as [|[|x] [|]]; try done. cbn in Ht. same_types. destruct v0; [done |]. by eexists.
  - destruct vs as [|[|x] [|]]; try done. cbn in Ht. same_types. destruct v0; [done |]. by eexists.
  - destruct vs as [|[b|] [|]]; try done. cbn in Ht. same_types. destruct v0; [| done]. by eexists.
  - destruct vs as [|[|x] [|]]; try done. cbn in Ht. same_types. destruct v0; [done |]. same_size.
    case_decide; [by eexists | done].
  - destruct vs as [|[|x] [|]]; try done. cbn in Ht. same_types. destruct v0; [done |]. same_size.
    case_decide; [by eexists | done].
  - destruct vs as [|[|x] [|]]; try done. cbn in Ht. same_types. destruct v0 as [|w]; [done |]. same_size.
    case_decide; [| done]. pose proof (concat_vals_replicate (Z.to_nat repeatAmount) x) as Hx.
    pose proof (concat_vals_replicate (Z.to_nat repeatAmount) w) as Hw.
    destruct (concat_vals (replicate _ x)) as [m z], (concat_vals (replicate _ w)) as [m' z']. cbn in *.
    apply fit_Some in H as [Hm _]. eexists. apply fit_Some. split; [| done]. rewrite Hs in Hw. lia.
  - destruct vs as [|[|x] [|]]; try done. cbn in Ht. same_types. destruct v0; [done |]. same_size.
    case_decide; [| done]. apply fit_Some in H as [? _]. eexists. by apply fit_Some.
  - destruct vs as [|[|x] [|]]; try done. cbn in Ht. same_types. destruct v0; [done |]. same_size.
    case_decide; [| done]. apply fit_Some in H as [? _]. eexists. by apply fit_Some.
  - destruct vs as [|[|x] [|]]; try done. cbn in Ht. same_types. destruct v0; [done |]. same_size.
    case_decide; [by eexists | done].
  - destruct vs as [|[|x] [|]]; try done. cbn in Ht. same_types. destruct v0; [done |]. same_size.
    case_decide; [by eexists | done].
Qed.

Lemma eval_defined e e' n v :
  eval e n = Some v -> exists v', eval e' n = Some v' /\ type_of v' = type_of v.
Proof.
  intros H. assert (exists v', eval e' n = Some v') as [v' H'].
  { revert v H. induction n as [x t|b|w|k ch IH] using node_ind'; intros v H.
    - destruct t; cbn in *; [done | by eexists |]. apply fit_Some in H as [? _]. eexists. by apply fit_Some.
    - by eexists.
    - by exists v.
    - apply eval_MkNode in H as (Ha & vs & Hvs & Hk).
      assert (exists vs', Forall2 (fun c w => eval e' c = Some w) ch vs' /\ map type_of vs' = map type_of vs)
        as (vs' & Hvs' & Ht).
      { clear -IH Hvs. induction Hvs as [|c w ch vs Hc _ IHl]; [by exists [] |].
        apply Forall_cons in IH as [IHc IH]. destruct (IHl IH) as (vs' & Hvs' & Ht).
        destruct (IHc w Hc) as [w' Hw']. exists (w' :: vs'). split; [by constructor |]. cbn. rewrite Ht.
        pose proof (eval_getType false _ _ _ Hc). pose proof (eval_getType false _ _ _ Hw'). f_equal. congruence. }
      destruct (eval_kind_defined e e' k vs vs' v Ht Hk) as [v' Hv'].
      exists v'. apply eval_MkNode. eauto. }
  exists v'. split; [done |]. pose proof (eval_getType false _ _ _ H). pose proof (eval_getType false _ _ _ H').
  congruence.
Qed.

Lemma eval_defined_bool e e' n b :
  eval e n = Some (VBool b) -> exists b', eval e' n = Some (VBool b').
Proof. intros H. destruct (eval_defined e e' n _ H) as ([b'|] & Hb & Ht); [by exists b' | done]. Qed.

(** C27. A term that denotes a value is well typed: [getType], with or without
    checking, returns the type of that value, and a bit-vector value has a width
    from 1 to [2^32 - 1] and lies below [2^width]. *)
Theorem eval_sound_for_types chk e n v :
  eval e n = Some v -> getType chk n = Ok (type_of v) /\ vwf v.
Proof. eauto using eval_getType, eval_wf. Qed.

Definition env0 : env := {| e_bool _ := false; e_bv _ _ := 0; e_udiv0 _ _ := 0; e_urem0 _ _ := 0 |}.
Lemma eval_sound_for_types_witness :
  let n := MkNode BITVECTOR_CONCAT [ConstBV (MkBitVector 2 1); ConstBV (MkBitVector 3 5)] in
  eval env0 n = Some (bv 5 13) /\ getType true n = Ok (type_of (bv 5 13)) /\ vwf (bv 5 13).
Proof. split; [reflexivity |]. apply (eval_sound_for_types true env0). reflexivity. Defined.
