(* ===== verification/Cardinality.v ===== *)
(** * Cardinalities of types

    Models [src/util/cardinality.{h,cpp}] and [CardinalityComputer] of
    [src/theory/bv/theory_bv_type_rules.h].  A cardinality is one integer: positive for a
    finite one (plus 1), negative for a Beth number, 0 for an unknown one, with a ceiling
    above which finite cardinalities are not told apart.  The specification side is the
    arithmetic of finite and Beth cardinals, [card]; [denotes] says which cardinals a
    representation may stand for. *)

From S2P Require Import Prelude Integer Node.
Local Open Scope Z_scope.

Record Cardinality : Set := MkCard { d_card : Z }.
Inductive CardinalityComparison : Set := LESS | EQUALC | GREATER | UNKNOWN.
#[global] Instance CardinalityComparison_eq_dec : EqDecision CardinalityComparison.
Proof. solve_decision. Defined.

Definition s_unknownCard : Z := 0.
Definition s_intCard : Z := -1.
Definition s_realCard : Z := -2.
Definition s_largeFiniteCard : Z := 18446744073709551617.

Definition CardinalityBeth (beth : Z) : M Z := _ ← check IllegalArgument (0 <=? beth); Ok beth.
(** The four constructors. *)
Definition Cardinality_of (card : Z) : M Cardinality :=
  _ ← check IllegalArgument (0 <=? card); Ok (MkCard (card + 1)).
Definition Cardinality_beth (beth : Z) : Cardinality := MkCard (- beth - 1).
Definition Cardinality_unknown : Cardinality := MkCard 0.
Definition INTEGERS : Cardinality := Cardinality_beth 0.
Definition REALS : Cardinality := Cardinality_beth 1.

Definition isUnknown (c : Cardinality) : bool := d_card c =? 0.
Definition isFinite (c : Cardinality) : bool := 0 <? d_card c.
Definition isOne (c : Cardinality) : bool := d_card c =? 1.
Definition isLargeFinite (c : Cardinality) : bool := s_largeFiniteCard <=? d_card c.
Definition isInfinite (c : Cardinality) : bool := d_card c <? 0.
Definition isCountable (c : Cardinality) : bool := isFinite c || (d_card c =? s_intCard).

Definition getFiniteCardinality (c : Cardinality) : M Z :=
  _ ← check IllegalArgument (isFinite c);
  _ ← check IllegalArgument (negb (isLargeFinite c));
  Ok (d_card c - 1).
Definition getBethNumber (c : Cardinality) : M Z :=
  _ ← check IllegalArgument (negb (isFinite c) && negb (isUnknown c));
  Ok (- d_card c - 1).

Definition compare (a c : Cardinality) : M CardinalityComparison :=
  if isUnknown a || isUnknown c then Ok UNKNOWN
  else if isLargeFinite a then
    if isLargeFinite c then Ok UNKNOWN
    else if isFinite c then Ok GREATER
    else _ ← check AssertionFailed (isInfinite c); Ok LESS
  else if isLargeFinite c then
    if isLargeFinite a then Ok UNKNOWN
    else if isFinite a then Ok LESS
    else _ ← check AssertionFailed (isInfinite a); Ok GREATER
  else if isInfinite a then
    if isFinite c then Ok GREATER
    else Ok (if d_card a <? d_card c then GREATER else if d_card a =? d_card c then EQUALC else LESS)
  else if isInfinite c then
    _ ← check AssertionFailed (isFinite a); Ok LESS
  else
    _ ← check AssertionFailed (isFinite a && negb (isLargeFinite a));
    _ ← check AssertionFailed (isFinite c && negb (isLargeFinite c));
    Ok (if d_card a <? d_card c then LESS else if d_card a =? d_card c then EQUALC else GREATER).
(** [a.compare(n) == r] for an integer [n] *)
Definition compare_is (a : Cardinality) (n : Z) (r : CardinalityComparison) : M bool :=
  c ← Cardinality_of n; x ← compare a c; Ok (bool_decide (x = r)).

Definition knownLessThanOrEqual (a c : Cardinality) : M bool :=
  cmp ← compare a c; Ok (bool_decide (cmp = LESS) || bool_decide (cmp = EQUALC)).

(** [operator+=] *)
Definition add_assign (a c : Cardinality) : M Cardinality :=
  if isUnknown a then Ok a
  else if isUnknown c then Ok (MkCard s_unknownCard)
  else if isFinite c && isLargeFinite a then Ok a
  else if isFinite a && isLargeFinite c then Ok (MkCard s_largeFiniteCard)
  else if isFinite a && isFinite c then Ok (MkCard (d_card a + (d_card c - 1)))
  else r ← compare a c; Ok (if bool_decide (r = LESS) then c else a).

(** [operator*=] *)
Definition mul_assign (a c : Cardinality) : M Cardinality :=
  if isUnknown a then Ok a
  else if isUnknown c then Ok (MkCard s_unknownCard)
  else if isFinite c && isLargeFinite a then Ok a
  else if isFinite a && isLargeFinite c then Ok (MkCard s_largeFiniteCard)
  else
    az ← compare_is a 0 EQUALC;
    zero ← (if az : bool then Ok true else compare_is c 0 EQUALC);
    if zero : bool then Cardinality_of 0
    else if negb (isFinite a) || negb (isFinite c) then
      r ← compare a c; Ok (if bool_decide (r = LESS) then c else a)
    else Ok (MkCard ((d_card a - 1) * (d_card c - 1) + 1)).

Section pow.
Context {G : Gmp}.
(** The [try] block of [operator^=]. *)
Definition pow_finite (a c : Cardinality) : M Cardinality :=
  match (if (2 <=? d_card a - 1) && (64 <=? d_card c - 1) then Ok (MkCard s_largeFiniteCard)
         else e ← Integer.getUnsignedLong (d_card c); Ok (MkCard (Integer.pow (d_card a - 1) (e - 1) + 1))) with
  | Throw IllegalArgument => Ok (MkCard s_largeFiniteCard)
  | r => r
  end.

(** [operator^=] *)
Definition pow_assign (a c : Cardinality) : M Cardinality :=
  if isUnknown a then Ok a
  else if isUnknown c then Ok (MkCard s_unknownCard)
  else if isFinite c && isLargeFinite a then Ok a
  else if isFinite a && isLargeFinite c then Ok (MkCard s_largeFiniteCard)
  else
    c0 ← compare_is c 0 EQUALC;
    if c0 : bool then Ok (MkCard 2) else
    a0 ← compare_is a 0 EQUALC;
    if a0 : bool then Ok a else
    a1 ← compare_is a 1 EQUALC;
    if a1 : bool then Ok a else
    c1 ← compare_is c 1 EQUALC;
    if c1 : bool then Ok a
    else if isFinite a && isFinite c then pow_finite a c
    else if negb (isFinite a) && isFinite c then Ok a
    else
      lt2 ← compare_is a 2 LESS;
      _ ← check AssertionFailed (negb lt2 && negb (isFinite c));
      r ← compare a c;
      Ok (if bool_decide (r = GREATER) then a else MkCard (d_card c - 1)).

(** [TypeNode::getCardinality] on the types of this development. *)
Definition computeCardinality (size : Z) : M Cardinality :=
  if size =? 0 then Cardinality_of 0 else Cardinality_of (Integer.pow 2 size).
Definition getCardinality (t : TypeNode) : M Cardinality :=
  match t with
  | NullType => Throw AssertionFailed
  | BOOLEAN_TYPE => Cardinality_of 2
  | BITVECTOR_TYPE n => computeCardinality n
  end.
End pow.

(** ** Cardinal arithmetic *)
Inductive card : Set := Fin (n : Z) | Beth (k : Z).
Definition card_ok (x : card) : Prop := match x with Fin n => 0 <= n | Beth k => 0 <= k end.
Definition card_lt (x y : card) : Prop :=
  match x, y with
  | Fin m, Fin n => m < n | Fin _, Beth _ => True | Beth _, Fin _ => False | Beth j, Beth k => j < k
  end.
Definition card_add (x y : card) : card :=
  match x, y with
  | Fin m, Fin n => Fin (m + n) | Fin _, Beth k => Beth k | Beth j, Fin _ => Beth j | Beth j, Beth k => Beth (Z.max j k)
  end.
Definition card_mul (x y : card) : card :=
  match x, y with
  | Fin m, Fin n => Fin (m * n)
  | Fin m, Beth k => if m =? 0 then Fin 0 else Beth k
  | Beth j, Fin n => if n =? 0 then Fin 0 else Beth j
  | Beth j, Beth k => Beth (Z.max j k)
  end.
Definition card_pow (x y : card) : card :=
  match x, y with
  | Fin m, Fin n => Fin (m ^ n)
  | Fin m, Beth k => if m <=? 1 then Fin m else Beth (k + 1)
  | Beth j, Fin n => if n =? 0 then Fin 1 else Beth j
  | Beth j, Beth k => Beth (Z.max j (k + 1))
  end.

(** The cardinals a representation may stand for. *)
Definition denotes (c : Cardinality) (x : card) : Prop :=
  card_ok x /\
  (d_card c = 0 \/
   match x with
   | Fin n => if s_largeFiniteCard <=? d_card c then 2 ^ 64 <= n else d_card c = n + 1
   | Beth k => d_card c = - k - 1
   end).
(** Not at the ceiling. *)
Definition small (c : Cardinality) : Prop := d_card c < s_largeFiniteCard.

(** ** Soundness *)
Lemma denotes_cases c x : denotes c x ->
  d_card c = 0 \/ (exists n, x = Fin n /\ s_largeFiniteCard <= d_card c /\ 2 ^ 64 <= n) \/
  (exists n, x = Fin n /\ 0 <= n < 2 ^ 64 /\ d_card c = n + 1) \/ (exists k, x = Beth k /\ 0 <= k /\ d_card c = - k - 1).
Proof.
  unfold denotes, card_ok, s_largeFiniteCard. intros [Hx [H | H]]; [by left | right]. destruct x as [n|k].
  - destruct (Z.leb_spec 18446744073709551617 (d_card c)); [left; by exists n | right; left]. exists n. repeat split; lia.
  - right. right. by exists k.
Qed.

(** Decide every test of the code on the representation. *)
Ltac card_tests :=
  unfold isUnknown, isFinite, isLargeFinite, isInfinite, small, s_largeFiniteCard, s_unknownCard in *; cbn [d_card] in *;
  repeat match goal with
  | |- context [?a =? ?b] => destruct (Z.eqb_spec a b); try lia
  | |- context [?a <? ?b] => destruct (Z.ltb_spec a b); try lia
  | |- context [?a <=? ?b] => destruct (Z.leb_spec a b); try lia
  end; cbn [orb andb negb check mbind M_bind].

Lemma compare_sound a b x y : denotes a x -> denotes b y ->
  exists r, compare a b = Ok r /\
    match r with
    | LESS => card_lt x y | EQUALC => x = y | GREATER => card_lt y x
    | UNKNOWN => d_card a = 0 \/ d_card b = 0 \/ ~ small a /\ ~ small b
    end.
Proof.
  intros Ha%denotes_cases Hb%denotes_cases. destruct a as [a], b as [b].
  destruct Ha as [Ha | [(n & -> & Ha & Hn) | [(n & -> & Hn & Ha) | (j & -> & Hj & Ha)]]];
    destruct Hb as [Hb | [(m & -> & Hb & Hm) | [(m & -> & Hm & Hb) | (k & -> & Hk & Hb)]]];
    unfold compare; card_tests; eexists; (split; [reflexivity |]); cbn; try (f_equal; lia); lia.
Qed.

Lemma compare_is_sound a x n r : denotes a x -> 0 <= n < 2 ^ 64 -> r <> UNKNOWN ->
  exists q, compare_is a n r = Ok q /\
    (d_card a <> 0 -> q = true <-> match r with LESS => card_lt x (Fin n) | EQUALC => x = Fin n | GREATER => card_lt (Fin n) x | UNKNOWN => False end).
Proof.
  intros Ha Hn Hr. unfold compare_is, Cardinality_of. rewrite (proj2 (Z.leb_le _ _)) by lia. cbn [check]. rewrite !M_bind_Ok.
  assert (Hd : denotes (MkCard (n + 1)) (Fin n)).
  { split; [cbn; lia |]. right. cbn. unfold s_largeFiniteCard. destruct (Z.leb_spec 18446744073709551617 (n + 1)); lia. }
  destruct (compare_sound _ _ _ _ Ha Hd) as (q & -> & Hq). cbn [mbind M_bind]. eexists. split; [done |]. intros H0.
  rewrite bool_decide_eq_true. unfold small in Hq. cbn [d_card] in Hq. unfold s_largeFiniteCard in Hq.
  destruct q, r, x; cbn in *; split; intros E; try done; try lia; try (by injection Hq; lia); try congruence;
    try (injection E as E; lia); try (injection Hq as Hq; lia).
Qed.

Lemma denotes_fin c n : 0 <= n -> (d_card c = n + 1 \/ s_largeFiniteCard <= d_card c /\ 2 ^ 64 <= n) -> denotes c (Fin n).
Proof. intros Hn H. split; [done |]. right. unfold s_largeFiniteCard in *. destruct (Z.leb_spec 18446744073709551617 (d_card c)); lia. Qed.
Lemma denotes_beth c k : 0 <= k -> d_card c = - k - 1 -> denotes c (Beth k).
Proof. intros Hk H. split; [done | by right]. Qed.
Lemma denotes_unknown c x : card_ok x -> d_card c = 0 -> denotes c x.
Proof. intros. split; [done | by left]. Qed.

Lemma card_add_ok x y : card_ok x -> card_ok y -> card_ok (card_add x y).
Proof. destruct x, y; cbn; lia. Qed.
Lemma card_mul_ok x y : card_ok x -> card_ok y -> card_ok (card_mul x y).
Proof. destruct x, y; cbn; try case_match; cbn; try lia; nia. Qed.
Lemma card_pow_ok x y : card_ok x -> card_ok y -> card_ok (card_pow x y).
Proof. destruct x, y; cbn; try case_match; cbn; nia. Qed.

(** The four kinds of representations of each operand. *)
Ltac card_cases Ha Hb :=
  apply denotes_cases in Ha, Hb;
  destruct Ha as [Ha | [(n & -> & Ha & Hn) | [(n & -> & Hn & Ha) | (j & -> & Hj & Ha)]]];
  destruct Hb as [Hb | [(m & -> & Hb & Hm) | [(m & -> & Hm & Hb) | (k & -> & Hk & Hb)]]].

Lemma add_sound a b x y : denotes a x -> denotes b y -> exists r, add_assign a b = Ok r /\ denotes r (card_add x y).
Proof.
  intros Ha Hb. pose proof (card_add_ok x y (proj1 Ha) (proj1 Hb)) as Hok. destruct a as [a], b as [b].
  card_cases Ha Hb; unfold add_assign, compare; card_tests; eexists; (split; [reflexivity |]);
    first [apply denotes_unknown; [done | cbn; lia] | idtac]; cbn [card_add];
    first [apply denotes_fin; unfold s_largeFiniteCard; cbn [d_card]; lia
         | try case_bool_decide; try done; apply denotes_beth; cbn [d_card]; lia].
Qed.

Lemma mul_sound a b x y : denotes a x -> denotes b y -> (x = Fin 0 -> small b) -> (y = Fin 0 -> small a) ->
  exists r, mul_assign a b = Ok r /\ denotes r (card_mul x y).
Proof.
  intros Ha Hb H1 H2. pose proof (card_mul_ok x y (proj1 Ha) (proj1 Hb)) as Hok. destruct a as [a], b as [b].
  assert (E : forall i, Fin i = Fin 0 <-> i = 0) by (intros i; split; congruence).
  card_cases Ha Hb; rewrite ?E in H1, H2; unfold mul_assign, compare_is, Cardinality_of, compare; cbn [Z.leb Z.compare check mbind M_bind];
    card_tests; eexists; (split; [reflexivity |]);
    first [apply denotes_unknown; [done | cbn; lia] | idtac]; cbn [card_mul];
    repeat match goal with |- context [?i =? ?l] => destruct (Z.eqb_spec i l); try lia end;
    first [apply denotes_fin; unfold s_largeFiniteCard; cbn [d_card]; nia
         | try case_bool_decide; try done; apply denotes_beth; cbn [d_card]; lia].
Qed.

Section pow_ok.
Context {G : Gmp} {HG : GmpSpec G}.

Lemma pow_finite_ok a b n m : d_card a = n + 1 -> d_card b = m + 1 -> 2 <= n -> 2 <= m < 2 ^ 64 ->
  exists r, pow_finite a b = Ok r /\ denotes r (Fin (n ^ m)).
Proof.
  intros Ha Hb Hn Hm. unfold pow_finite. rewrite Ha, Hb. replace (n + 1 - 1) with n by lia. replace (m + 1 - 1) with m by lia.
  rewrite (proj2 (Z.leb_le 2 n)) by lia. cbn [andb]. destruct (Z.leb_spec 64 m) as [Hl | Hl].
  - eexists. split; [reflexivity |]. apply denotes_fin; [apply Z.pow_nonneg; lia |]. right. cbn. split; [done |].
    transitivity (n ^ 64); [apply (Z.pow_le_mono_l 2 n 64); lia | apply Z.pow_le_mono_r; lia].
  - unfold Integer.getUnsignedLong, Integer.pow. rewrite mpz_get_ui_ok, Z.abs_eq by lia. unfold u64. rewrite Z.mod_small, Z.eqb_refl by lia.
    cbn [check]. rewrite !M_bind_Ok. eexists. split; [reflexivity |].
    rewrite mpz_pow_ui_ok by lia. replace (m + 1 - 1) with m by lia. apply denotes_fin; [apply Z.pow_nonneg; lia |]. by left.
Qed.

Lemma pow_ge2 n m : 2 <= n -> 2 ^ 64 <= m -> 2 ^ 64 <= n ^ m.
Proof. intros. transitivity (n ^ 64); [apply (Z.pow_le_mono_l 2 n 64); lia | apply Z.pow_le_mono_r; lia]. Qed.
Lemma pow_large n m : 2 ^ 64 <= n -> 1 <= m -> 2 ^ 64 <= n ^ m.
Proof. intros. transitivity (n ^ 1); [lia | apply Z.pow_le_mono_r; lia]. Qed.

(** The finite results that need no exponentiation. *)
Lemma pow_cases c n m : 0 <= n -> 0 <= m ->
  (m = 0 /\ d_card c = 2) \/ (1 <= m /\ (n = 0 \/ n = 1 \/ m = 1) /\ d_card c = n + 1) \/
  (s_largeFiniteCard <= d_card c /\ (2 ^ 64 <= n /\ 1 <= m \/ 2 <= n /\ 2 ^ 64 <= m)) ->
  denotes c (Fin (n ^ m)).
Proof.
  intros Hn Hm [[-> Hc] | [(H1 & H & Hc) | (Hc & H)]]; (apply denotes_fin; [by apply Z.pow_nonneg |]).
  - left. by rewrite Hc, Z.pow_0_r.
  - left. rewrite Hc. destruct H as [-> | [-> | ->]]; rewrite ?Z.pow_0_l, ?Z.pow_1_l, ?Z.pow_1_r by lia; lia.
  - right. split; [done |]. destruct H as [[? ?] | [? ?]]; [by apply pow_large | by apply pow_ge2].
Qed.

Lemma pow_sound a b x y : denotes a x -> denotes b y -> (y = Fin 0 -> small a) -> (x = Fin 0 \/ x = Fin 1 -> small b) ->
  exists r, pow_assign a b = Ok r /\ denotes r (card_pow x y).
Proof.
  intros Ha Hb H1 H2. pose proof (card_pow_ok x y (proj1 Ha) (proj1 Hb)) as Hok.
  destruct a as [a], b as [b].
  assert (E : forall i l, Fin i = Fin l <-> i = l) by (intros i l; split; congruence).
  card_cases Ha Hb; try rewrite !E in H1; try rewrite !E in H2; unfold pow_assign, compare_is, Cardinality_of, compare; cbn [Z.leb Z.compare check mbind M_bind];
    card_tests; rewrite ?(bool_decide_eq_true_2 (EQUALC = EQUALC) eq_refl), ?(bool_decide_eq_true_2 (GREATER = GREATER) eq_refl),
      ?(bool_decide_eq_false_2 (GREATER = EQUALC)), ?(bool_decide_eq_false_2 (LESS = EQUALC)), ?(bool_decide_eq_false_2 (LESS = GREATER)),
      ?(bool_decide_eq_false_2 (GREATER = LESS)), ?(bool_decide_eq_false_2 (EQUALC = LESS)), ?(bool_decide_eq_false_2 (EQUALC = GREATER)) by done;
    cbn [negb andb check mbind M_bind];
    first
    [ eexists; (split; [reflexivity |]); apply denotes_unknown; [done | cbn; lia]
    | apply pow_finite_ok; cbn; lia
    | eexists; (split; [reflexivity |]); cbn [card_pow];
      repeat match goal with
      | |- context [?i =? ?l] => destruct (Z.eqb_spec i l); try lia
      | |- context [?i <=? ?l] => destruct (Z.leb_spec i l); try lia
      end;
      first [ apply denotes_beth; cbn [d_card]; lia
            | apply pow_cases; [lia | lia | cbn [d_card]; unfold s_largeFiniteCard; lia]
            | apply denotes_fin; cbn [d_card]; lia ] ].
Qed.
End pow_ok.

(** C39. Cardinalities are computed soundly: if the representations may stand for the cardinals [x] and
    [y], their sum, product and power are computed without exception and may stand for the sum, the
    product and the power, and a comparison other than [UNKNOWN] is that of [x] and [y].  For the product
    a factor 0, for the power the exponent 0 and the bases 0 and 1, must not meet an operand at the ceiling. *)
Theorem cardinality_ops_sound {G : Gmp} {HG : GmpSpec G} (a b : Cardinality) (x y : card) :
  denotes a x -> denotes b y ->
  (exists r, add_assign a b = Ok r /\ denotes r (card_add x y)) /\
  ((x = Fin 0 -> small b) -> (y = Fin 0 -> small a) -> exists r, mul_assign a b = Ok r /\ denotes r (card_mul x y)) /\
  ((y = Fin 0 -> small a) -> (x = Fin 0 \/ x = Fin 1 -> small b) -> exists r, pow_assign a b = Ok r /\ denotes r (card_pow x y)) /\
  (exists r, compare a b = Ok r /\
    match r with
    | LESS => card_lt x y | EQUALC => x = y | GREATER => card_lt y x
    | UNKNOWN => d_card a = 0 \/ d_card b = 0 \/ ~ small a /\ ~ small b
    end) /\
  (exists q, knownLessThanOrEqual a b = Ok q /\ (q = true -> card_lt x y \/ x = y)).
Proof.
  intros Ha Hb. split; [by apply add_sound |]. split; [by apply mul_sound |]. split; [by apply pow_sound |].
  destruct (compare_sound a b x y Ha Hb) as (r & Hr & Hc). split; [by exists r |].
  unfold knownLessThanOrEqual. rewrite Hr. eexists. split; [reflexivity |]. by destruct r; cbn; auto.
Qed.

Lemma cardinality_ops_sound_witness :
  exists r, pow_assign (G := gmp_ref) (MkCard 4) INTEGERS = Ok r /\ denotes r (Beth 1).
Proof.
  destruct (cardinality_ops_sound (HG := gmp_ref_spec) (MkCard 4) INTEGERS (Fin 3) (Beth 0)) as (_ & _ & H & _).
  - split; [cbn; lia | right; reflexivity].
  - split; [cbn; lia | right; reflexivity].
  - apply H; [discriminate | intros [E | E]; discriminate].
Defined.

(** C40. Where cardinalities are not computed as documented: a product of 0 with a cardinality at the ceiling is
    at the ceiling instead of 0, a cardinality at the ceiling to the power 0 is at the ceiling
    instead of 1, and so are 0 and 1 to such a power instead of 0 and 1; [isOne] holds of the cardinality 0 and of no other finite one. *)
Theorem cardinality_ceiling_wrong {G : Gmp} (a : Cardinality) :
  s_largeFiniteCard <= d_card a ->
  mul_assign (MkCard 1) a = Ok (MkCard s_largeFiniteCard) /\ mul_assign a (MkCard 1) = Ok a /\
  pow_assign a (MkCard 1) = Ok a /\ pow_assign (MkCard 1) a = Ok (MkCard s_largeFiniteCard) /\
  pow_assign (MkCard 2) a = Ok (MkCard s_largeFiniteCard) /\
  (forall n c, Cardinality_of n = Ok c -> isOne c = bool_decide (n = 0)).
Proof.
  destruct a as [a]. cbn [d_card]. intros Ha. unfold s_largeFiniteCard in Ha.
  repeat split; [unfold mul_assign; card_tests; done .. | unfold pow_assign; card_tests; done | unfold pow_assign; card_tests; done
    | unfold pow_assign; card_tests; done |].
  intros n c. unfold Cardinality_of, check. destruct (0 <=? n); [| done]. intros [= <-]. unfold isOne; cbn [d_card].
  destruct (Z.eqb_spec (n + 1) 1); case_bool_decide; try done; lia.
Qed.

Lemma cardinality_ceiling_wrong_witness :
  mul_assign (MkCard 1) (MkCard (2 ^ 64 + 1)) = Ok (MkCard s_largeFiniteCard) /\
  pow_assign (G := gmp_ref) (MkCard (2 ^ 64 + 1)) (MkCard 1) = Ok (MkCard (2 ^ 64 + 1)).
Proof.
  destruct (cardinality_ceiling_wrong (G := gmp_ref) (MkCard (2 ^ 64 + 1))) as (H1 & _ & H3 & _); [cbn; discriminate |].
  split; [exact H1 | exact H3].
Defined.
