(* ===== verification/BitblastUtils.v ===== *)
(** * Circuits over an abstract type of bits

    Models [src/theory/bv/bitblast_utils.h].  The code is generic in the type [T]
    of bits (a [Node], or an AIG object); [BitOps] holds the functions [mkTrue],
    [mkAnd], ... every [T] supplies, [BitDen] what they promise: when the
    arguments denote Booleans, the result denotes the Boolean operation.
    [bvden l z] says that the vector of bits [l] (least significant first)
    denotes the number [z].  Vector indices are natural numbers: the [unsigned]
    counters cannot wrap before a vector exceeds memory. *)

From S2P Require Import Prelude Integer BitVector Node.
Local Open Scope nat_scope.

Class BitOps (T : Type) : Type := {
  mkTrue : T;
  mkFalse : T;
  mkNot : T -> T;
  mkAnd : T -> T -> T;
  mkOr : T -> T -> T;
  mkXor : T -> T -> T;
  mkIff : T -> T -> T;
  mkIte : T -> T -> T -> T;
  mkOrV : list T -> M T;
  mkAndV : list T -> M T;
  bit_eqb : T -> T -> bool       (* [==] *)
}.

Class BitDen {T : Type} (O : BitOps T) (den : T -> bool -> Prop) : Prop := {
  den_true : den mkTrue true;
  den_false : den mkFalse false;
  den_not a x : den a x -> den (mkNot a) (negb x);
  den_and a b x y : den a x -> den b y -> den (mkAnd a b) (x && y);
  den_or a b x y : den a x -> den b y -> den (mkOr a b) (x || y);
  den_xor a b x y : den a x -> den b y -> den (mkXor a b) (xorb x y);
  den_iff a b x y : den a x -> den b y -> den (mkIff a b) (Bool.eqb x y);
  den_ite c a b z x y : den c z -> den a x -> den b y -> den (mkIte c a b) (if z then x else y);
  den_andV l bs : l <> [] -> Forall2 den l bs ->
    exists t, mkAndV l = Ok t /\ den t (forallb id bs);
  den_eqb a b x y : bit_eqb a b = true -> den a x -> den b y -> x = y
}.

(** The bits are terms. *)
#[global] Instance NodeBits : BitOps Node := {
  mkTrue := ConstBool true;
  mkFalse := ConstBool false;
  mkNot a := MkNode NOT [a];
  mkAnd a b := MkNode AND [a; b];
  mkOr a b := MkNode OR [a; b];
  mkXor a b := MkNode XOR [a; b];
  mkIff a b := MkNode EQUAL [a; b];
  mkIte c a b := MkNode ITE [c; a; b];
  mkOrV l := match l with
    | [] => Throw AssertionFailed | [a] => Ok a | _ => Ok (MkNode OR l) end;
  mkAndV l := match l with
    | [] => Throw AssertionFailed | [a] => Ok a | _ => Ok (MkNode AND l) end;
  bit_eqb := node_eqb
}.

Section utils.
Context {T : Type} {O : BitOps T}.

Definition extractBits (b dest : list T) (lo hi : nat) : M (list T) :=
  _ ← check AssertionFailed ((lo <? length b) && (hi <? length b) && (lo <=? hi));
  for_from (S hi - lo) lo (fun i dest => x ← vget b i; Ok (dest ++ [x])) dest.

Definition negateBits (bits negated_bits : list T) : M (list T) :=
  for_from (length bits) 0
    (fun i neg => x ← vget bits i; Ok (neg ++ [mkNot x])) negated_bits.

Fixpoint isZero (bits : list T) : bool :=
  match bits with
  | [] => true
  | b :: bits' => if negb (bit_eqb b mkFalse) then false else isZero bits'
  end.

(** With [amount > size] the bound [size - amount] wraps and the first access is
    out of range. *)
Definition rshift (bits : list T) (amount : nat) : M (list T) :=
  _ ← check OutOfBounds (amount <=? length bits);
  bits ← for_from (length bits - amount) 0
           (fun i bits => x ← vget bits (i + amount); vset bits i x) bits;
  for_from amount (length bits - amount) (fun i bits => vset bits i mkFalse) bits.

(** The first loop counts down from [size - 1] to [amount]. *)
Definition lshift (bits : list T) (amount : nat) : M (list T) :=
  bits ← for_from (length bits - amount) 0
           (fun k bits => let i := length bits - 1 - k in
                          x ← vget bits (i - amount); vset bits i x) bits;
  for_from amount 0 (fun i bits => vset bits i mkFalse) bits.

Definition makeZero (bits : list T) (width : nat) : M (list T) :=
  _ ← check AssertionFailed (length bits =? 0);
  for_from width 0 (fun _ bits => Ok (bits ++ [mkFalse])) bits.

(** Returns the sum and the carry-out. *)
Definition rippleCarryAdder (a b res : list T) (carry : T) : M (list T * T) :=
  _ ← check AssertionFailed ((length a =? length b) && (length res =? 0));
  for_from (length a) 0
    (fun i '(res, carry) =>
       ai ← vget a i; bi ← vget b i;
       let sum := mkXor (mkXor ai bi) carry in
       let carry := mkOr (mkAnd ai bi) (mkAnd (mkXor ai bi) carry) in
       Ok (res ++ [sum], carry)) (res, carry).

Definition shiftAddMultiplier (a b res : list T) : M (list T) :=
  res ← for_from (length a) 0
          (fun i res => b0 ← vget b 0; ai ← vget a i; Ok (res ++ [mkAnd b0 ai])) res;
  for_from (length res - 1) 1
    (fun k res =>
       '(res, _) ← for_from (length res - k) 0
         (fun j '(res, carry_in) =>
            bk ← vget b k; aj0 ← vget a j; let aj := mkAnd bk aj0 in
            rjk ← vget res (j + k);
            let carry_out := mkOr (mkAnd rjk aj) (mkAnd (mkXor rjk aj) carry_in) in
            res ← vset res (j + k) (mkXor (mkXor rjk aj) carry_in);
            Ok (res, carry_out)) (res, mkFalse);
       Ok res) res.

Definition uLessThanBB (a b : list T) (orEqual : bool) : M T :=
  _ ← check AssertionFailed (negb (length a =? 0) && negb (length b =? 0));
  a0 ← vget a 0; b0 ← vget b 0;
  let res := mkAnd (mkNot a0) b0 in
  let res := if orEqual then mkOr res (mkIff a0 b0) else res in
  for_from (length a - 1) 1
    (fun i res =>
       ai ← vget a i; bi ← vget b i;
       Ok (mkOr (mkAnd (mkIff ai bi) res) (mkAnd (mkNot ai) bi))) res.

Definition sLessThanBB (a b : list T) (orEqual : bool) : M T :=
  _ ← check AssertionFailed (negb (length a =? 0) && negb (length b =? 0));
  if length a =? 1 then
    a0 ← vget a 0; b0 ← vget b 0;
    if orEqual then Ok (mkOr (mkIff a0 b0) (mkAnd a0 (mkNot b0)))
    else Ok (mkAnd a0 (mkNot b0))
  else
    let n := length a - 1 in
    a1 ← extractBits a [] 0 (n - 1);
    b1 ← extractBits b [] 0 (n - 1);
    ures ← uLessThanBB a1 b1 orEqual;
    an ← vget a n; bn ← vget b n;
    Ok (mkOr (mkAnd (mkIff an bn) ures) (mkAnd an (mkNot bn))).

End utils.

(** ** Binary addition, bit by bit *)
Section carry.
Local Open Scope Z_scope.
Variables (x y : Z) (c : bool).

(** The carry into position [i] of [x + y + c]. *)
Definition carryb (i : Z) : bool := 2 ^ i <=? x mod 2 ^ i + y mod 2 ^ i + Z.b2z c.

Lemma mod_pow2_S z i : 0 <= i -> z mod 2 ^ (i + 1) = z mod 2 ^ i + 2 ^ i * Z.b2z (Z.testbit z i).
Proof.
  intros Hi. rewrite Z.testbit_spec', pow2_S, Z.mul_comm by lia.
  rewrite Z.rem_mul_r by (pose proof (pow2_gt0 i); lia). lia.
Qed.

Lemma carryb_0 : carryb 0 = c.
Proof. unfold carryb. rewrite Z.pow_0_r, !Z.mod_1_r. by destruct c. Qed.

Lemma carryb_S i :
  0 <= i ->
  carryb (i + 1) = (Z.testbit x i && Z.testbit y i) || (xorb (Z.testbit x i) (Z.testbit y i) && carryb i).
Proof.
  intros Hi. unfold carryb. rewrite !mod_pow2_S, pow2_S by lia.
  pose proof (mod_pow2_bound x i Hi). pose proof (mod_pow2_bound y i Hi).
  destruct (Z.testbit x i), (Z.testbit y i), c; cbn [Z.b2z andb orb xorb];
    match goal with
    | |- (?a <=? ?b) = (?d <=? ?e) => destruct (Z.leb_spec a b), (Z.leb_spec d e); lia
    | |- _ => (apply Z.leb_le; lia) || (apply Z.leb_gt; lia)
    end.
Qed.

Lemma adder_bit i :
  0 <= i ->
  Z.testbit (x + y + Z.b2z c) i = xorb (xorb (Z.testbit x i) (Z.testbit y i)) (carryb i).
Proof.
  intros Hi. rewrite !Z.testbit_odd, !Z.shiftr_div_pow2 by lia. pose proof (pow2_gt0 i Hi).
  assert ((x + y + Z.b2z c) / 2 ^ i = x / 2 ^ i + y / 2 ^ i + Z.b2z (carryb i)) as ->.
  { pose proof (Z.div_mod x (2 ^ i)). pose proof (Z.div_mod y (2 ^ i)).
    pose proof (mod_pow2_bound x i Hi). pose proof (mod_pow2_bound y i Hi).
    symmetry. unfold carryb.
    apply (Z.div_unique _ _ _ (x mod 2 ^ i + y mod 2 ^ i + Z.b2z c - 2 ^ i * Z.b2z (carryb i)));
      unfold carryb; destruct (Z.leb_spec (2 ^ i) (x mod 2 ^ i + y mod 2 ^ i + Z.b2z c)), c;
      cbn [Z.b2z] in *; nia. }
  rewrite !Z.odd_add. f_equal. by destruct (carryb i).
Qed.

(** The carry out of [n]-bit operands tells whether the sum overflows. *)
Lemma carryb_out n :
  0 <= x < 2 ^ n -> 0 <= y < 2 ^ n -> carryb n = (2 ^ n <=? x + y + Z.b2z c).
Proof. intros. unfold carryb. by rewrite !Z.mod_small. Qed.
End carry.

(** ** Vectors of bits as numbers *)
Section bvden.
Context {T : Type} {O : BitOps T} {den : T -> bool -> Prop} {D : BitDen O den}.
Local Open Scope Z_scope.

Definition zlen (l : list T) : Z := Z.of_nat (length l).

Definition bvden (l : list T) (z : Z) : Prop :=
  0 <= z < 2 ^ zlen l /\
  forall i t, l !! i = Some t -> den t (Z.testbit z (Z.of_nat i)).

Lemma bvden_range l z : bvden l z -> 0 <= z < 2 ^ zlen l.
Proof. by intros []. Qed.

Lemma bvden_get l z i : bvden l z -> (i < length l)%nat ->
  exists t, vget l i = Ok t /\ den t (Z.testbit z (Z.of_nat i)).
Proof.
  intros [_ H] Hi. destruct (lookup_lt_is_Some_2 l i Hi) as [t Ht].
  exists t. split; [by apply vget_Ok | by apply H].
Qed.

Lemma bvden_nil : bvden [] 0.
Proof. split; [unfold zlen; cbn; lia | done]. Qed.

(** A vector of the right length whose bits are those of [z] denotes [z]. *)
Lemma bvden_intro l z :
  (forall i t, l !! i = Some t -> den t (Z.testbit z (Z.of_nat i))) ->
  bvden l (z mod 2 ^ zlen l).
Proof.
  intros H. split; [apply mod_pow2_bound; unfold zlen; lia |].
  intros i t Hi. rewrite testbit_mod_pow2 by (unfold zlen; lia).
  pose proof (lookup_lt_Some _ _ _ Hi). rewrite (proj2 (Z.ltb_lt _ _)) by (unfold zlen; lia).
  by apply H.
Qed.

Lemma bvden_snoc l z t :
  bvden l (z mod 2 ^ zlen l) -> den t (Z.testbit z (zlen l)) ->
  bvden (l ++ [t]) (z mod 2 ^ zlen (l ++ [t])).
Proof.
  intros [_ H] Ht. apply bvden_intro. intros i u Hi.
  apply lookup_app_Some in Hi as [Hi | [Hle Hi]].
  - specialize (H i u Hi). pose proof (lookup_lt_Some _ _ _ Hi).
    rewrite testbit_mod_pow2, (proj2 (Z.ltb_lt _ _)) in H by (unfold zlen; lia). done.
  - apply list_lookup_singleton_Some in Hi as [Hi <-]. unfold zlen in Ht.
    by replace (Z.of_nat i) with (Z.of_nat (length l)) by lia.
Qed.

(** Loops that push one bit per iteration. *)
Lemma push_loop n body z :
  (forall i l, (i < n)%nat -> length l = i ->
     exists t, body i l = Ok (l ++ [t]) /\ den t (Z.testbit z (Z.of_nat i))) ->
  exists l, for_from n 0 body [] = Ok l /\ length l = n /\ bvden l (z mod 2 ^ Z.of_nat n).
Proof.
  intros Hb.
  destruct (for_from_inv (fun k l => length l = k /\ bvden l (z mod 2 ^ Z.of_nat k)) body n 0 [])
    as (l & Hl & Hlen & Hd).
  - split; [done |]. rewrite Z.pow_0_r, Z.mod_1_r. apply bvden_nil.
  - intros k l Hk [Hlen Hl]. destruct (Hb k l) as (t & -> & Ht); [lia | done |].
    exists (l ++ [t]). rewrite length_app, Hlen. split; [done |]. split; [cbn; lia |].
    replace (Z.of_nat (S k)) with (zlen (l ++ [t])) by (unfold zlen; rewrite length_app; cbn; lia).
    unfold zlen in Hl. rewrite <- Hlen in *. by apply bvden_snoc.
  - exists l. done.
Qed.

(** Loops that replace one bit per iteration, reading the old one. *)
Lemma update_loop n body l0 z0 z :
  length l0 = n -> bvden l0 z0 ->
  (forall i l t, (i < n)%nat -> length l = n -> l !! i = Some t -> den t (Z.testbit z0 (Z.of_nat i)) ->
     exists t', body i l = Ok (<[i:=t']> l) /\ den t' (Z.testbit z (Z.of_nat i))) ->
  exists l, for_from n 0 body l0 = Ok l /\ length l = n /\ bvden l (z mod 2 ^ Z.of_nat n).
Proof.
  intros Hn [_ H0] Hb.
  destruct (for_from_inv (fun k l => length l = n /\ forall i t, l !! i = Some t ->
      den t (if (i <? k)%nat then Z.testbit z (Z.of_nat i) else Z.testbit z0 (Z.of_nat i)))
    body n 0 l0) as (l & Hl & Hlen & Hd).
  - split; [done |]. intros i t Hi. cbn. by apply H0.
  - intros k l Hk [Hlen Hl]. destruct (lookup_lt_is_Some_2 l k) as [t Ht]; [lia |].
    pose proof (Hl k t Ht) as Hd. rewrite (proj2 (Nat.ltb_ge k k)) in Hd by lia.
    destruct (Hb k l t) as (t' & -> & Ht'); [lia | done | done | done |].
    exists (<[k:=t']> l). split; [done |]. rewrite length_insert. split; [done |].
    intros i u Hi. destruct (decide (i = k)) as [->|Hne].
    + rewrite list_lookup_insert_eq in Hi by lia. injection Hi as <-.
      by rewrite (proj2 (Nat.ltb_lt k (S k))) by lia.
    + rewrite list_lookup_insert_ne in Hi by done. specialize (Hl i u Hi).
      destruct (Nat.ltb_spec i k), (Nat.ltb_spec i (S k)); try lia; done.
  - exists l. split; [done |]. split; [done |]. rewrite <- Hlen. apply bvden_intro.
    intros i t Hi. specialize (Hd i t Hi). pose proof (lookup_lt_Some _ _ _ Hi).
    by rewrite (proj2 (Nat.ltb_lt i _)) in Hd by lia.
Qed.

Lemma zlen_app (l k : list T) : zlen (l ++ k) = zlen l + zlen k.
Proof. unfold zlen. rewrite length_app. lia. Qed.

End bvden.
Arguments bvden {T} den l z.

(** ** The circuits compute the operations *)
Section correct.
Context {T : Type} {O : BitOps T} {den : T -> bool -> Prop} {D : BitDen O den}.
Local Open Scope Z_scope.
Abbreviation bvden := (bvden den).

Lemma extractBits_ok a x lo hi :
  bvden a x -> (lo <= hi < length a)%nat ->
  exists l, extractBits a [] lo hi = Ok l /\ length l = (S hi - lo)%nat /\
    bvden l (x / 2 ^ Z.of_nat lo mod 2 ^ Z.of_nat (S hi - lo)).
Proof.
  intros Ha Hlh. unfold extractBits.
  rewrite (proj2 (Nat.ltb_lt lo _)), (proj2 (Nat.ltb_lt hi _)), (proj2 (Nat.leb_le lo hi)) by lia.
  cbn [andb check]. rewrite M_bind_Ok.
  destruct (for_from_inv (fun k l => length l = (k - lo)%nat /\
      bvden l (x / 2 ^ Z.of_nat lo mod 2 ^ Z.of_nat (k - lo)))
    (fun i dest => x ← vget a i; Ok (dest ++ [x])) (S hi - lo) lo []) as (l & Hl & Hlen & Hd).
  - rewrite Nat.sub_diag. split; [done |]. rewrite Z.pow_0_r, Z.mod_1_r. apply bvden_nil.
  - intros k l Hk [Hlen Hl]. destruct (bvden_get a x k Ha) as (t & -> & Ht); [lia |].
    exists (l ++ [t]). rewrite length_app, Hlen. split; [done |]. split; [cbn; lia |].
    replace (S k - lo)%nat with (length (l ++ [t])) by (rewrite length_app; cbn; lia).
    rewrite <- Hlen in Hl. apply bvden_snoc; [done |].
    rewrite Z.div_pow2_bits by (unfold zlen; lia). unfold zlen. rewrite Hlen.
    by replace (Z.of_nat (k - lo) + Z.of_nat lo) with (Z.of_nat k) by lia.
  - exists l. replace (lo + (S hi - lo) - lo)%nat with (S hi - lo)%nat in * by lia. done.
Qed.

Lemma negateBits_ok a x :
  bvden a x ->
  exists l, negateBits a [] = Ok l /\ length l = length a /\ bvden l (Sem.bnot (zlen a) x).
Proof.
  intros Ha. destruct (push_loop (den:=den) (length a)
    (fun i neg => x ← vget a i; Ok (neg ++ [mkNot x])) (Z.lnot x)) as (l & Hl & Hlen & Hd).
  - intros i l Hi _. destruct (bvden_get a x i Ha Hi) as (t & -> & Ht). eexists. split; [done |].
    rewrite Z.lnot_spec by lia. by apply den_not.
  - exists l. split; [done |]. split; [done |]. unfold zlen, Sem.bnot. rewrite <- lnot_mod; [done | lia |].
    apply Ha.
Qed.

Lemma isZeroBits_ok a x : bvden a x -> isZero a = true -> x = 0.
Proof.
  intros [Hr Ha] Hz. apply (bits_eq_below (zlen a)); [done | lia |]. intros i Hi. rewrite Z.bits_0.
  destruct (lookup_lt_is_Some_2 a (Z.to_nat i)) as [t Ht]; [unfold zlen in *; lia |].
  specialize (Ha _ _ Ht). rewrite Z2Nat.id in Ha by lia.
  refine (den_eqb t mkFalse _ _ _ Ha den_false).
  clear -Hz Ht. revert Ht. generalize (Z.to_nat i). induction a as [|b a IH]; [done |].
  intros [|k] Ht; cbn in *; destruct (bit_eqb b mkFalse) eqn:E; try done; [| by eapply IH].
  by injection Ht as <-.
Qed.

Lemma makeZero_ok n : exists l, makeZero [] n = Ok l /\ length l = n /\ bvden l 0.
Proof.
  destruct (push_loop (den:=den) n (fun _ bits => Ok (bits ++ [mkFalse])) 0) as (l & Hl & Hlen & Hd).
  - intros i l Hi _. eexists. split; [done |]. rewrite Z.bits_0. apply den_false.
  - exists l. rewrite Z.mod_0_l in Hd by (pose proof (pow2_gt0 (Z.of_nat n)); lia). done.
Qed.

Lemma rippleCarryAdder_ok a b x y carry c :
  length a = length b -> bvden a x -> bvden b y -> den carry c ->
  exists res co, rippleCarryAdder a b [] carry = Ok (res, co) /\ length res = length a /\
    bvden res ((x + y + Z.b2z c) mod 2 ^ zlen a) /\
    den co (2 ^ zlen a <=? x + y + Z.b2z c).
Proof.
  intros Hab Ha Hb Hc. unfold rippleCarryAdder.
  rewrite (proj2 (Nat.eqb_eq (length a) (length b))) by done. cbn [length Nat.eqb andb check].
  rewrite M_bind_Ok.
  destruct (for_from_inv (fun k '(res, co) => length res = k /\
      bvden res ((x + y + Z.b2z c) mod 2 ^ Z.of_nat k) /\ den co (carryb x y c (Z.of_nat k)))
    (fun i '(res, carry) =>
       ai ← vget a i; bi ← vget b i;
       Ok (res ++ [mkXor (mkXor ai bi) carry], mkOr (mkAnd ai bi) (mkAnd (mkXor ai bi) carry)))
    (length a) 0 ([], carry)) as ([res co] & Hl & Hlen & Hd & Hco).
  - split; [done |]. rewrite Z.pow_0_r, Z.mod_1_r. split; [apply bvden_nil |].
    by rewrite carryb_0.
  - intros k [res co] Hk (Hlen & Hl & Hco).
    destruct (bvden_get a x k Ha) as (ta & -> & Hta); [lia |].
    destruct (bvden_get b y k Hb) as (tb & -> & Htb); [lia |]. eexists. split; [done |]. cbv beta iota.
    rewrite length_app, Hlen. split; [cbn; lia |]. split.
    + match goal with |- BitblastUtils.bvden _ ?l _ =>
        replace (Z.of_nat (S k)) with (zlen l) by (unfold zlen; rewrite length_app; cbn; lia) end.
      rewrite <- Hlen in *. apply bvden_snoc; [done |]. unfold zlen. rewrite adder_bit by lia.
      by repeat apply den_xor.
    + replace (Z.of_nat (S k)) with (Z.of_nat k + 1) by lia. rewrite carryb_S by lia.
      apply den_or; [by apply den_and | apply den_and; [by apply den_xor | done]].
  - exists res, co. split; [done |]. split; [done |]. split; [done |].
    cbn in Hco. rewrite carryb_out in Hco; [done | apply Ha |]. rewrite Hab. apply Hb.
Qed.

Lemma rshift_ok a x :
  bvden a x -> (1 <= length a)%nat ->
  exists l, rshift a 1 = Ok l /\ length l = length a /\ bvden l (x / 2).
Proof.
  intros Ha Hlen. unfold rshift. rewrite (proj2 (Nat.leb_le 1 _)) by lia. cbn [check].
  rewrite M_bind_Ok. set (n := length a) in *.
  destruct (for_from_inv (fun k l => length l = n /\ forall i t, l !! i = Some t ->
      den t (Z.testbit x (Z.of_nat i + if (i <? k)%nat then 1 else 0)))
    (fun i bits => x ← vget bits (i + 1); vset bits i x) (n - 1) 0 a) as (l & -> & Hl & Hd).
  - split; [done |]. intros i t Hi. cbn. rewrite Z.add_0_r. by apply Ha.
  - intros k l Hk [Hl Hd]. destruct (lookup_lt_is_Some_2 l (k + 1)) as [t Ht]; [lia |].
    rewrite (vget_Ok _ _ _ Ht), M_bind_Ok, vset_Ok by lia. eexists. split; [done |].
    rewrite length_insert. split; [done |]. intros i u Hi. destruct (decide (i = k)) as [->|Hne].
    + rewrite list_lookup_insert_eq in Hi by lia. injection Hi as <-. specialize (Hd _ _ Ht).
      rewrite (proj2 (Nat.ltb_ge _ _)) in Hd by lia. rewrite (proj2 (Nat.ltb_lt _ _)) by lia.
      by replace (Z.of_nat k + 1) with (Z.of_nat (k + 1) + 0) by lia.
    + rewrite list_lookup_insert_ne in Hi by done. specialize (Hd i u Hi).
      destruct (Nat.ltb_spec i k), (Nat.ltb_spec i (S k)); try lia; done.
  - rewrite M_bind_Ok. rewrite Hl. cbn. rewrite vset_Ok by lia. eexists. split; [done |].
    rewrite length_insert. split; [done |]. split.
    + unfold zlen. rewrite length_insert, Hl. destruct Ha as [Hr _]. unfold zlen in Hr.
      fold n in Hr. split; [apply Z.div_pos; lia |].
      apply Z.div_lt_upper_bound; lia.
    + intros i u Hi. change 2 with (2 ^ 1). rewrite Z.div_pow2_bits by lia.
      destruct (decide (i = n - 1)%nat) as [->|Hne].
      * rewrite list_lookup_insert_eq in Hi by lia. injection Hi as <-.
        destruct Ha as [Hr _]. rewrite (testbit_high x (zlen a)); [apply den_false | done |].
        unfold zlen. lia.
      * rewrite list_lookup_insert_ne in Hi by done. pose proof (lookup_lt_Some _ _ _ Hi).
        specialize (Hd i u Hi). rewrite (proj2 (Nat.ltb_lt _ _)) in Hd by lia. done.
Qed.

Lemma lshift_ok a x :
  bvden a x -> (1 <= length a)%nat ->
  exists l, lshift a 1 = Ok l /\ length l = length a /\ bvden l ((2 * x) mod 2 ^ zlen a).
Proof.
  intros Ha Hlen. unfold lshift. set (n := length a) in *.
  destruct (for_from_inv (fun k l => length l = n /\ forall i t, l !! i = Some t ->
      den t (Z.testbit x (Z.of_nat i - if (n - k <=? i)%nat then 1 else 0)))
    (fun k bits => x ← vget bits (length bits - 1 - k - 1); vset bits (length bits - 1 - k) x)
    (n - 1) 0 a) as (l & -> & Hl & Hd).
  - split; [done |]. intros i t Hi. pose proof (lookup_lt_Some _ _ _ Hi).
    rewrite (proj2 (Nat.leb_gt _ _)) by lia. rewrite Z.sub_0_r. by apply Ha.
  - intros k l Hk [Hl Hd]. rewrite Hl.
    destruct (lookup_lt_is_Some_2 l (n - 1 - k - 1)) as [t Ht]; [lia |].
    rewrite (vget_Ok _ _ _ Ht), M_bind_Ok, vset_Ok by lia. eexists. split; [done |].
    rewrite length_insert. split; [done |]. intros i u Hi.
    destruct (decide (i = n - 1 - k)%nat) as [->|Hne].
    + rewrite list_lookup_insert_eq in Hi by lia. injection Hi as <-. specialize (Hd _ _ Ht).
      rewrite (proj2 (Nat.leb_gt _ _)) in Hd by lia. rewrite (proj2 (Nat.leb_le _ _)) by lia.
      by replace (Z.of_nat (n - 1 - k) - 1) with (Z.of_nat (n - 1 - k - 1) - 0) by lia.
    + rewrite list_lookup_insert_ne in Hi by done. specialize (Hd i u Hi).
      destruct (Nat.leb_spec (n - k) i), (Nat.leb_spec (n - S k) i); try lia; done.
  - rewrite M_bind_Ok. cbn [for_from]. rewrite vset_Ok, M_bind_Ok by lia. eexists. split; [done |].
    rewrite length_insert. split; [done |].
    replace (zlen a) with (zlen (<[0%nat:=mkFalse]> l)) by (unfold zlen; rewrite length_insert; lia).
    apply bvden_intro. intros i u Hi. rewrite Z.mul_comm. change 2 with (2 ^ 1) at 1.
    rewrite Z.mul_pow2_bits by lia. destruct (decide (i = 0)%nat) as [->|Hne].
    + rewrite list_lookup_insert_eq in Hi by lia. injection Hi as <-.
      rewrite Z.testbit_neg_r by lia. apply den_false.
    + rewrite list_lookup_insert_ne in Hi by done. specialize (Hd i u Hi).
      rewrite (proj2 (Nat.leb_le _ _)) in Hd by lia. done.
Qed.

(** One row of the multiplier adds [s], a multiple of [2^k], into [res]. *)
Lemma add_row_ok n k (body : nat -> list T * T -> M (list T * T)) (aj : nat -> T) res r s :
  (k <= n)%nat -> length res = n -> bvden res (r mod 2 ^ Z.of_nat n) ->
  s mod 2 ^ Z.of_nat k = 0 ->
  (forall j, (j + k < n)%nat -> den (aj j) (Z.testbit s (Z.of_nat (j + k)))) ->
  (forall j l co, (j + k < n)%nat -> length l = n ->
     body j (l, co) =
       (rjk ← vget l (j + k);
        l ← vset l (j + k) (mkXor (mkXor rjk (aj j)) co);
        Ok (l, mkOr (mkAnd rjk (aj j)) (mkAnd (mkXor rjk (aj j)) co)))) ->
  exists res' co, for_from (n - k) 0 body (res, mkFalse) = Ok (res', co) /\ length res' = n /\
    bvden res' ((r + s) mod 2 ^ Z.of_nat n).
Proof.
  intros Hk Hlen [_ Hr] Hs Haj Hbody.
  destruct (for_from_inv (fun j '(l, co) => length l = n /\
      (forall i t, l !! i = Some t ->
         den t (if (i <? j + k)%nat then Z.testbit (r + s) (Z.of_nat i) else Z.testbit r (Z.of_nat i))) /\
      den co (carryb r s false (Z.of_nat (j + k))))
    body (n - k) 0 (res, mkFalse)) as ([l co] & -> & Hl & Hd & _).
  - split; [done |]. cbn [Nat.add]. split.
    + intros i t Hi. pose proof (lookup_lt_Some _ _ _ Hi). specialize (Hr i t Hi).
      rewrite testbit_mod_pow2, (proj2 (Z.ltb_lt _ _)) in Hr by lia. cbn in Hr.
      destruct (Nat.ltb_spec i k) as [Hik|]; [| done].
      assert (Z.testbit (r + s) (Z.of_nat i) = Z.testbit r (Z.of_nat i)) as ->; [| done].
      pose proof (testbit_mod_pow2 (r + s) (Z.of_nat k) (Z.of_nat i)) as E1.
      pose proof (testbit_mod_pow2 r (Z.of_nat k) (Z.of_nat i)) as E2.
      rewrite (proj2 (Z.ltb_lt _ _)) in E1, E2 by lia. cbn in E1, E2. rewrite <- E1, <- E2 by lia.
      by rewrite <- Zplus_mod_idemp_r, Hs, Z.add_0_r.
    + unfold carryb. rewrite Hs. pose proof (mod_pow2_bound r (Z.of_nat k)).
      rewrite (proj2 (Z.leb_gt _ _)) by (cbn [Z.b2z]; lia). apply den_false.
  - intros j [l co] Hj (Hl & Hd & Hco). rewrite Hbody by (done || lia).
    destruct (lookup_lt_is_Some_2 l (j + k)) as [t Ht]; [lia |].
    rewrite (vget_Ok _ _ _ Ht), M_bind_Ok, vset_Ok, M_bind_Ok by lia. eexists. split; [done |].
    cbv beta iota. rewrite length_insert. split; [done |].
    pose proof (Hd _ _ Ht) as Hdt. rewrite (proj2 (Nat.ltb_ge _ _)) in Hdt by lia.
    specialize (Haj j ltac:(lia)). split.
    + intros i u Hi. destruct (decide (i = j + k)%nat) as [->|Hne].
      * rewrite list_lookup_insert_eq in Hi by lia. injection Hi as <-.
        rewrite (proj2 (Nat.ltb_lt _ _)) by lia. pose proof (adder_bit r s false (Z.of_nat (j + k))) as E.
        cbn [Z.b2z] in E. rewrite Z.add_0_r in E. rewrite E by lia. by repeat apply den_xor.
      * rewrite list_lookup_insert_ne in Hi by done. specialize (Hd i u Hi).
        destruct (Nat.ltb_spec i (j + k)), (Nat.ltb_spec i (S j + k)); try lia; done.
    + replace (Z.of_nat (S j + k)) with (Z.of_nat (j + k) + 1) by lia. rewrite carryb_S by lia.
      apply den_or; [by apply den_and | apply den_and; [by apply den_xor | done]].
  - exists l, co. split; [done |]. split; [done |]. rewrite <- Hl. apply bvden_intro.
    intros i t Hi. pose proof (lookup_lt_Some _ _ _ Hi). specialize (Hd i t Hi).
    by rewrite (proj2 (Nat.ltb_lt _ _)) in Hd by lia.
Qed.

Lemma testbit_mul_b2z x b i : Z.testbit (x * Z.b2z b) i = b && Z.testbit x i.
Proof. destruct b; cbn [Z.b2z andb]; [by rewrite Z.mul_1_r | by rewrite Z.mul_0_r, Z.bits_0]. Qed.

Lemma shiftAddMultiplier_ok a b x y :
  length a = length b -> (1 <= length a)%nat -> bvden a x -> bvden b y ->
  exists l, shiftAddMultiplier a b [] = Ok l /\ length l = length a /\
    bvden l ((x * y) mod 2 ^ zlen a).
Proof.
  intros Hab H1 Ha Hb. unfold shiftAddMultiplier. set (n := length a) in *.
  destruct (push_loop (den:=den) n
    (fun i res => b0 ← vget b 0; ai ← vget a i; Ok (res ++ [mkAnd b0 ai]))
    (x * (y mod 2 ^ 1))) as (l0 & -> & Hl0 & Hd0).
  { intros i l Hi _. destruct (bvden_get b y 0 Hb) as (t0 & -> & Ht0); [lia |].
    destruct (bvden_get a x i Ha) as (ti & -> & Hti); [lia |]. eexists. split; [done |].
    change (2 ^ 1) with (2 ^ (0 + 1)). rewrite mod_pow2_S, Z.pow_0_r, Z.mod_1_r, Z.add_0_l, Z.mul_1_l by lia.
    rewrite testbit_mul_b2z. by apply den_and. }
  rewrite M_bind_Ok, Hl0. change (Z.of_nat n) with (zlen a) in Hd0.
  edestruct (for_from_inv (fun k l => length l = n /\
      bvden l ((x * (y mod 2 ^ Z.of_nat k)) mod 2 ^ zlen a))) as (l & Hl & Hlen & Hd);
    [| | exists l; split; [exact Hl |]].
  - done.
  - intros k l Hk [Hl Hd]. rewrite Hl.
    edestruct (add_row_ok n k) with (s := x * Z.b2z (Z.testbit y (Z.of_nat k)) * 2 ^ Z.of_nat k)
      (aj := fun j => match vget b k, vget a j with Ok bk, Ok aj => mkAnd bk aj | _, _ => mkFalse end)
      as (l' & co & -> & Hl' & Hd'); [lia | done | exact Hd | | | |].
    + apply Z.mod_mul. pose proof (pow2_gt0 (Z.of_nat k)). lia.
    + intros j Hj. destruct (bvden_get b y k Hb) as (tk & -> & Htk); [lia |].
      destruct (bvden_get a x j Ha) as (tj & -> & Htj); [lia |].
      rewrite Z.mul_pow2_bits by lia. replace (Z.of_nat (j + k) - Z.of_nat k) with (Z.of_nat j) by lia.
      rewrite testbit_mul_b2z. by apply den_and.
    + intros j l' co Hj Hl'. destruct (bvden_get b y k Hb) as (tk & -> & Htk); [lia |].
      destruct (bvden_get a x j Ha) as (tj & -> & Htj); [lia |]. done.
    + eexists. split; [done |]. split; [done |].
      replace (Z.of_nat (S k)) with (Z.of_nat k + 1) by lia. rewrite mod_pow2_S by lia.
      by replace (x * (y mod 2 ^ Z.of_nat k + 2 ^ Z.of_nat k * Z.b2z (Z.testbit y (Z.of_nat k))))
        with (x * (y mod 2 ^ Z.of_nat k) + x * Z.b2z (Z.testbit y (Z.of_nat k)) * 2 ^ Z.of_nat k) by ring.
  - split; [done |]. replace (1 + (n - 1))%nat with n in Hd by lia.
    destruct Hb as [Hy _]. unfold zlen in Hy. rewrite <- Hab in Hy. fold n in Hy.
    by rewrite (Z.mod_small y) in Hd by done.
Qed.

Definition cmp (orEqual : bool) (x y : Z) : bool := if orEqual then x <=? y else x <? y.

Lemma cmp_step o u v m p q :
  0 <= u < m -> 0 <= v < m ->
  cmp o (u + m * Z.b2z p) (v + m * Z.b2z q) = Bool.eqb p q && cmp o u v || negb p && q.
Proof.
  intros Hu Hv. destruct o, p, q; cbn [cmp Z.b2z Bool.eqb negb andb orb];
    match goal with
    | |- (?a <=? ?b) = _ => destruct (Z.leb_spec a b)
    | |- (?a <? ?b) = _ => destruct (Z.ltb_spec a b)
    end; rewrite ?orb_false_r; symmetry;
    first [lia | apply Z.leb_le; lia | apply Z.leb_gt; lia | apply Z.ltb_lt; lia | apply Z.ltb_ge; lia].
Qed.

Lemma uLessThanBB_ok a b x y o :
  length a = length b -> (1 <= length a)%nat -> bvden a x -> bvden b y ->
  exists t, uLessThanBB a b o = Ok t /\ den t (cmp o x y).
Proof.
  intros Hab H1 Ha Hb. unfold uLessThanBB. rewrite <- Hab.
  rewrite (proj2 (Nat.eqb_neq (length a) 0)) by lia. cbn [negb andb check]. rewrite M_bind_Ok.
  destruct (bvden_get a x 0 Ha) as (a0 & -> & Ha0); [lia |].
  destruct (bvden_get b y 0 Hb) as (b0 & -> & Hb0); [lia |]. rewrite !M_bind_Ok.
  assert (forall i, 0 <= i -> cmp o (x mod 2 ^ (i + 1)) (y mod 2 ^ (i + 1)) =
    Bool.eqb (Z.testbit x i) (Z.testbit y i) && cmp o (x mod 2 ^ i) (y mod 2 ^ i)
    || negb (Z.testbit x i) && Z.testbit y i) as Hstep.
  { intros i Hi. rewrite !mod_pow2_S by lia. apply cmp_step; apply mod_pow2_bound; lia. }
  edestruct (for_from_inv (fun k t => den t (cmp o (x mod 2 ^ Z.of_nat k) (y mod 2 ^ Z.of_nat k))))
    as (t & Ht & Hd); [| | exists t; split; [exact Ht |]].
  - change (Z.of_nat 1) with (0 + 1). rewrite Hstep, Z.pow_0_r, !Z.mod_1_r by lia. change (Z.of_nat 0) with 0 in *.
    destruct o; cbn [cmp Z.leb Z.ltb Z.compare]; rewrite ?andb_true_r, ?andb_false_r.
    + rewrite orb_comm. apply den_or; [apply den_and; [by apply den_not | done] | by apply den_iff].
    + apply den_and; [by apply den_not | done].
  - intros k t Hk Ht. destruct (bvden_get a x k Ha) as (ak & -> & Hak); [lia |].
    destruct (bvden_get b y k Hb) as (bk & -> & Hbk); [lia |]. eexists. split; [done |].
    replace (Z.of_nat (S k)) with (Z.of_nat k + 1) by lia. rewrite Hstep by lia.
    apply den_or; apply den_and; [by apply den_iff | done | by apply den_not | done].
  - replace (1 + (length a - 1))%nat with (length a) in Hd by lia.
    destruct Ha as [Hx _], Hb as [Hy _]. unfold zlen in *. rewrite <- Hab in Hy.
    by rewrite !Z.mod_small in Hd by done.
Qed.

Lemma signed_cmp o n x y :
  1 <= n -> 0 <= x < 2 ^ n -> 0 <= y < 2 ^ n ->
  cmp o (Sem.signed n x) (Sem.signed n y) =
    Bool.eqb (Z.testbit x (n - 1)) (Z.testbit y (n - 1)) && cmp o (x mod 2 ^ (n - 1)) (y mod 2 ^ (n - 1))
    || Z.testbit x (n - 1) && negb (Z.testbit y (n - 1)).
Proof.
  intros Hn Hx Hy. pose proof (pow2_half n Hn).
  pose proof (mod_pow2_S x (n - 1)) as Ex. pose proof (mod_pow2_S y (n - 1)) as Ey.
  replace (n - 1 + 1) with n in * by lia. rewrite Z.mod_small in Ex, Ey by done.
  pose proof (mod_pow2_bound x (n - 1)). pose proof (mod_pow2_bound y (n - 1)).
  assert (forall z b, 0 <= z mod 2 ^ (n - 1) < 2 ^ (n - 1) -> z = z mod 2 ^ (n - 1) + 2 ^ (n - 1) * Z.b2z b ->
    Sem.signed n z = z mod 2 ^ (n - 1) - 2 ^ (n - 1) * Z.b2z b) as Hsig.
  { intros z b Hz Ez. unfold Sem.signed. destruct b; cbn [Z.b2z] in *;
      destruct (Z.ltb_spec z (2 ^ (n - 1))); lia. }
  rewrite (Hsig x (Z.testbit x (n - 1))), (Hsig y (Z.testbit y (n - 1))) by lia.
  set (u := x mod 2 ^ (n - 1)) in *. set (v := y mod 2 ^ (n - 1)) in *.
  set (p := Z.testbit x (n - 1)). set (q := Z.testbit y (n - 1)).
  replace (cmp o (u - 2 ^ (n - 1) * Z.b2z p) (v - 2 ^ (n - 1) * Z.b2z q))
    with (cmp o (u + 2 ^ (n - 1) * Z.b2z (negb p)) (v + 2 ^ (n - 1) * Z.b2z (negb q))).
  - rewrite cmp_step by lia. by destruct p, q.
  - destruct o, p, q; cbn [cmp negb Z.b2z];
      match goal with
      | |- (?a <=? ?b) = (?c <=? ?d) => destruct (Z.leb_spec a b), (Z.leb_spec c d)
      | |- (?a <? ?b) = (?c <? ?d) => destruct (Z.ltb_spec a b), (Z.ltb_spec c d)
      end; lia.
Qed.

Lemma sLessThanBB_ok a b x y o :
  length a = length b -> (1 <= length a)%nat -> bvden a x -> bvden b y ->
  exists t, sLessThanBB a b o = Ok t /\ den t (cmp o (Sem.signed (zlen a) x) (Sem.signed (zlen a) y)).
Proof.
  intros Hab H1 Ha Hb. unfold sLessThanBB. rewrite <- Hab.
  rewrite (proj2 (Nat.eqb_neq (length a) 0)) by lia. cbn [negb andb check]. rewrite M_bind_Ok.
  assert (0 <= y < 2 ^ zlen a) as Hy by (unfold zlen; rewrite Hab; apply Hb).
  rewrite signed_cmp; [| unfold zlen; lia | apply Ha | done].
  destruct (Nat.eqb_spec (length a) 1) as [E1|E1].
  - destruct (bvden_get a x 0 Ha) as (a0 & -> & Ha0); [lia |].
    destruct (bvden_get b y 0 Hb) as (b0 & -> & Hb0); [lia |]. rewrite !M_bind_Ok.
    replace (zlen a - 1) with (Z.of_nat 0) by (unfold zlen; lia).
    rewrite Z.pow_0_r, !Z.mod_1_r. destruct o; eexists; (split; [done |]);
      cbn [cmp Z.leb Z.ltb Z.compare]; rewrite ?andb_true_r, ?andb_false_r.
    + apply den_or; [by apply den_iff | apply den_and; [done | by apply den_not]].
    + apply den_and; [done | by apply den_not].
  - destruct (extractBits_ok a x 0 (length a - 1 - 1) Ha) as (a1 & -> & Hl1 & Hd1); [lia |].
    destruct (extractBits_ok b y 0 (length a - 1 - 1) Hb) as (b1 & -> & Hl2 & Hd2); [lia |].
    rewrite !M_bind_Ok, Z.pow_0_r, Z.div_1_r in *.
    destruct (uLessThanBB_ok a1 b1 _ _ o ltac:(lia) ltac:(lia) Hd1 Hd2) as (t & -> & Ht).
    destruct (bvden_get a x (length a - 1) Ha) as (an & -> & Han); [lia |].
    destruct (bvden_get b y (length a - 1) Hb) as (bn & -> & Hbn); [lia |]. rewrite !M_bind_Ok.
    eexists. split; [done |].
    replace (zlen a - 1) with (Z.of_nat (length a - 1)) by (unfold zlen; lia).
    replace (S (length a - 1 - 1) - 0)%nat with (length a - 1)%nat in Ht by lia.
    apply den_or; [apply den_and; [by apply den_iff | done] | apply den_and; [done | by apply den_not]].
Qed.

End correct.
