(* ===== verification/BitblastStrategies.v ===== *)
(** * The bit-blasting strategies

    Models [src/theory/bv/bitblast_strategies_template.h]: one circuit generator
    per kind of atom and of term.  A strategy calls back into the bit-blaster it
    serves for the bits of subterms; the methods it uses are the record
    [TBitblaster], over a state type [S].  The output vectors of the C++ functions
    are results here (the code asserts that they come in empty). *)

From S2P Require Import Prelude Integer BitVector Node BitblastUtils.
Local Open Scope nat_scope.

(** The virtual methods of [TBitblaster<T>] that strategies call. *)
Record TBitblaster (S T : Type) : Type := {
  bbTerm : Node -> SM S (list T);
  bbAtom : Node -> SM S unit;
  getBBAtom : Node -> SM S T;
  storeBBTerm : Node -> list T -> SM S unit;
  makeVariable : Node -> SM S (list T)
}.
Arguments bbTerm {S T} _ _.
Arguments bbAtom {S T} _ _.
Arguments getBBAtom {S T} _ _.
Arguments storeBBTerm {S T} _ _ _.
Arguments makeVariable {S T} _ _.

Section strategies.
Context {G : Gmp} {S T : Type} {O : BitOps T}.
Variable bb : TBitblaster S T.

Definition sassert (c : bool) : SM S unit := lift (check AssertionFailed c).
Definition assertKind (node : Node) (k : Kind) : SM S unit :=
  sassert (bool_decide (getKind node = k)).
(** [utils::getSize(node)] as a loop bound. *)
Definition getSizeN (node : Node) : M nat := n ← getSize node; Ok (Z.to_nat n).
Definition bbChild (node : Node) (i : nat) : SM S (list T) :=
  c ← lift (child node i); bbTerm bb c.
Definition sizes_eq (a b : list T) : SM S unit := sassert (length a =? length b).

(** ** Atoms *)
Definition UndefinedAtomBBStrategy (node : Node) : SM S T := lift (Throw UnreachableCode).

Definition bits_iff (a b : list T) : M (list T) :=
  for_from (length a) 0
    (fun i l => x ← vget a i; y ← vget b i; Ok (l ++ [mkIff x y])) [].

Definition DefaultEqBB (node : Node) : SM S T :=
  _ ← assertKind node EQUAL;
  lhs ← bbChild node 0;
  rhs ← bbChild node 1;
  _ ← sizes_eq lhs rhs;
  bits_eq ← lift (bits_iff lhs rhs);
  lift (mkAndV bits_eq).

Definition AdderUltBB (node : Node) : SM S T :=
  _ ← assertKind node BITVECTOR_ULT;
  a ← bbChild node 0;
  b ← bbChild node 1;
  _ ← sizes_eq a b;
  not_b ← lift (negateBits b []);
  carry ← lift (for_from (length a) 0
    (fun i carry => ai ← vget a i; nbi ← vget not_b i;
       Ok (mkOr (mkAnd ai nbi) (mkAnd (mkXor ai nbi) carry))) mkTrue);
  mret (mkNot carry).

Definition DefaultUltBB (node : Node) : SM S T :=
  _ ← assertKind node BITVECTOR_ULT;
  a ← bbChild node 0;
  b ← bbChild node 1;
  _ ← sizes_eq a b;
  lift (uLessThanBB a b false).

Definition DefaultUleBB (node : Node) : SM S T :=
  _ ← assertKind node BITVECTOR_ULE;
  a ← bbChild node 0;
  b ← bbChild node 1;
  _ ← sizes_eq a b;
  lift (uLessThanBB a b true).

Definition DefaultUgtBB (node : Node) : SM S T := lift (Throw UnimplementedCode).
Definition DefaultUgeBB (node : Node) : SM S T := lift (Throw UnimplementedCode).

Definition DefaultSltBB (node : Node) : SM S T :=
  a ← bbChild node 0;
  b ← bbChild node 1;
  _ ← sizes_eq a b;
  lift (sLessThanBB a b false).

Definition DefaultSleBB (node : Node) : SM S T :=
  a ← bbChild node 0;
  b ← bbChild node 1;
  _ ← sizes_eq a b;
  lift (sLessThanBB a b true).

Definition DefaultSgtBB (node : Node) : SM S T := lift (Throw UnimplementedCode).
Definition DefaultSgeBB (node : Node) : SM S T := lift (Throw UnimplementedCode).

(** ** Terms *)
Definition UndefinedTermBBStrategy (node : Node) : SM S (list T) := lift (Throw UnreachableCode).

Definition DefaultVarBB (node : Node) : SM S (list T) := makeVariable bb node.

Definition getConstBV (node : Node) : M BitVector :=
  match node with ConstBV v => Ok v | _ => Throw AssertionFailed end.

Definition DefaultConstBB (node : Node) : SM S (list T) :=
  _ ← assertKind node CONST_BITVECTOR;
  lift (n ← getSizeN node;
        c ← getConstBV node;
        for_from n 0
          (fun i bits =>
             let bit := d_value (BV.extract c (Z.of_nat i) (Z.of_nat i)) in
             if (bit =? 0)%Z then Ok (bits ++ [mkFalse])
             else _ ← check AssertionFailed (bit =? 1)%Z; Ok (bits ++ [mkTrue])) []).

Definition DefaultNotBB (node : Node) : SM S (list T) :=
  _ ← assertKind node BITVECTOR_NOT;
  bv ← bbChild node 0;
  lift (negateBits bv []).

(** [for (int i = n - 1; i >= 0; --i)] over the children. *)
Definition DefaultConcatBB (node : Node) : SM S (list T) :=
  _ ← assertKind node BITVECTOR_CONCAT;
  bits ← sfor (getNumChildren node) 0
    (fun k bits =>
       current ← lift (child node (getNumChildren node - 1 - k));
       current_bits ← bbTerm bb current;
       lift (n ← getSizeN current;
             for_from n 0 (fun j bits => x ← vget current_bits j; Ok (bits ++ [x])) bits)) [];
  n ← lift (getSizeN node);
  _ ← sassert (length bits =? n);
  mret bits.

(** The loop of the three bitwise n-ary operators, with [op] the connective. *)
Definition nary_bitwise (op : T -> T -> T) (node : Node) : SM S (list T) :=
  bits ← bbChild node 0;
  bits ← sfor (getNumChildren node - 1) 1
    (fun j bits =>
       current ← bbChild node j;
       lift (n ← getSizeN node;
             for_from n 0
               (fun i bits => x ← vget bits i; y ← vget current i; vset bits i (op x y)) bits)) bits;
  n ← lift (getSizeN node);
  _ ← sassert (length bits =? n);
  mret bits.

Definition DefaultAndBB (node : Node) : SM S (list T) :=
  _ ← assertKind node BITVECTOR_AND; nary_bitwise mkAnd node.
Definition DefaultOrBB (node : Node) : SM S (list T) :=
  _ ← assertKind node BITVECTOR_OR; nary_bitwise mkOr node.
Definition DefaultXorBB (node : Node) : SM S (list T) :=
  _ ← assertKind node BITVECTOR_XOR; nary_bitwise mkXor node.

Definition DefaultXnorBB (node : Node) : SM S (list T) :=
  _ ← sassert (getNumChildren node =? 2);
  _ ← assertKind node BITVECTOR_XNOR;
  lhs ← bbChild node 0;
  rhs ← bbChild node 1;
  _ ← sizes_eq lhs rhs;
  lift (bits_iff lhs rhs).

Definition DefaultNandBB (node : Node) : SM S (list T) := lift (Throw UnimplementedCode).
Definition DefaultNorBB (node : Node) : SM S (list T) := lift (Throw UnimplementedCode).

Definition DefaultCompBB (node : Node) : SM S (list T) :=
  n ← lift (getSizeN node);
  _ ← sassert (n =? 1);
  _ ← assertKind node BITVECTOR_COMP;
  a ← bbChild node 0;
  b ← bbChild node 1;
  bit_eqs ← lift (bits_iff a b);
  a_eq_b ← lift (mkAndV bit_eqs);
  mret [a_eq_b].

Definition DefaultMultBB (node : Node) : SM S (list T) :=
  _ ← assertKind node BITVECTOR_MULT;
  res ← bbChild node 0;
  sfor (getNumChildren node - 1) 1
    (fun i res => current ← bbChild node i; lift (shiftAddMultiplier res current [])) res.

Definition DefaultPlusBB (node : Node) : SM S (list T) :=
  _ ← assertKind node BITVECTOR_PLUS;
  res ← bbChild node 0;
  res ← sfor (getNumChildren node - 1) 1
    (fun i res => current ← bbChild node i;
       lift ('(newres, _) ← rippleCarryAdder res current [] mkFalse; Ok newres)) res;
  n ← lift (getSizeN node);
  _ ← sassert (length res =? n);
  mret res.

Definition DefaultSubBB (node : Node) : SM S (list T) :=
  _ ← assertKind node BITVECTOR_SUB;
  _ ← sassert (getNumChildren node =? 2);
  a ← bbChild node 0;
  b ← bbChild node 1;
  n ← lift (getSizeN node);
  _ ← sassert ((length a =? length b) && (n =? length a));
  lift (not_b ← negateBits b [];
        '(bits, _) ← rippleCarryAdder a not_b [] mkTrue; Ok bits).

Definition DefaultNegBB (node : Node) : SM S (list T) :=
  _ ← assertKind node BITVECTOR_NEG;
  a ← bbChild node 0;
  n ← lift (getSizeN node);
  _ ← sassert (n =? length a);
  lift (not_a ← negateBits a [];
        zero ← makeZero [] n;
        '(bits, _) ← rippleCarryAdder not_a zero [] mkTrue; Ok bits).

(** The recursive divider: quotient and remainder of [a] by [b]. *)
Fixpoint uDivModRec (a b : list T) (rec_width : nat) : M (list T * list T) :=
  match rec_width with
  | 0 => q ← makeZero [] (length a); r ← makeZero [] (length a); Ok (q, r)
  | Datatypes.S w =>
      if isZero a then
        q ← makeZero [] (length a); r ← makeZero [] (length a); Ok (q, r)
      else
        a1 ← rshift a 1;
        '(q1, r1) ← uDivModRec a1 b w;
        q1 ← lshift q1 1;
        r1 ← lshift r1 1;
        a0 ← vget a 0;
        let is_odd := mkIff a0 mkTrue in
        let one_if_odd := mkIte is_odd mkTrue mkFalse in
        zero ← makeZero [] (length b);
        '(r1_shift_add, _) ← rippleCarryAdder r1 zero [] one_if_odd;
        not_b ← negateBits b [];
        '(r_minus_b, co1) ← rippleCarryAdder r1_shift_add not_b [] mkTrue;
        let sign := mkNot co1 in
        q10 ← vget q1 0;
        q1 ← vset q1 0 (mkIte sign q10 mkTrue);
        r1_shift_add ← for_from (length a) 0
          (fun i l => x ← vget l i; y ← vget r_minus_b i; vset l i (mkIte sign x y)) r1_shift_add;
        '(a_minus_b, co2) ← rippleCarryAdder a not_b [] mkTrue;
        let a_lt_b := mkNot co2 in
        for_from (length a) 0
          (fun i '(q, r) =>
             q1i ← vget q1 i; ai ← vget a i; ri ← vget r1_shift_add i;
             let qval := mkIte a_lt_b mkFalse q1i in
             let rval := mkIte a_lt_b ai ri in
             Ok (q ++ [qval], r ++ [rval])) ([], [])
  end.

(** Quotient and remainder with the special case of a zero divisor; the part
    [DefaultUdivBB] and [DefaultUremBB] share. *)
Definition udivrem (node : Node) (a b : list T) : M (list T * list T) :=
  n ← getSizeN node;
  '(q, r) ← uDivModRec a b n;
  iszero ← for_from (length b) 0 (fun i l => bi ← vget b i; Ok (l ++ [mkIff bi mkFalse])) [];
  b_is_0 ← mkAndV iszero;
  for_from (length q) 0
    (fun i '(q, r) =>
       qi ← vget q i; q ← vset q i (mkIte b_is_0 mkTrue qi);
       ai ← vget a i; ri ← vget r i; r ← vset r i (mkIte b_is_0 ai ri);
       Ok (q, r)) (q, r).

Definition DefaultUdivBB (node : Node) : SM S (list T) :=
  _ ← assertKind node BITVECTOR_UDIV_TOTAL;
  a ← bbChild node 0;
  b ← bbChild node 1;
  '(q, r) ← lift (udivrem node a b);
  n0 ← lift (child node 0); n1 ← lift (child node 1);
  _ ← storeBBTerm bb (MkNode BITVECTOR_UREM_TOTAL [n0; n1]) r;
  mret q.

Definition DefaultUremBB (node : Node) : SM S (list T) :=
  _ ← assertKind node BITVECTOR_UREM_TOTAL;
  a ← bbChild node 0;
  b ← bbChild node 1;
  '(q, rem) ← lift (udivrem node a b);
  n0 ← lift (child node 0); n1 ← lift (child node 1);
  _ ← storeBBTerm bb (MkNode BITVECTOR_UDIV_TOTAL [n0; n1]) q;
  mret rem.

Definition DefaultSdivBB (node : Node) : SM S (list T) := lift (Throw UnimplementedCode).
Definition DefaultSremBB (node : Node) : SM S (list T) := lift (Throw UnimplementedCode).
Definition DefaultSmodBB (node : Node) : SM S (list T) := lift (Throw UnimplementedCode).

(** The guard [b < size] of the shifters, bit-blasted as an atom of its own. *)
Definition b_ult_a_size_node (node : Node) : M Node :=
  size ← getSize node;
  b ← child node 1;
  Ok (MkNode BITVECTOR_ULT [b; ConstBV (BV.mk size size)]).

Definition shift_guard (node : Node) : SM S T :=
  n ← lift (b_ult_a_size_node node);
  _ ← bbAtom bb n;
  getBBAtom bb n.

(** [std::ceil(log2((double)size))]: exact for 32-bit sizes. *)
Definition log2_size (node : Node) : M nat :=
  size ← getSize node; Ok (Z.to_nat (Z.log2_up size)).

(** The barrel shifter: [stage prev_res b_s threshold i] is the new bit [i]. *)
Definition barrel (stage : list T -> T -> nat -> nat -> M T) (a b : list T) (log2_size : nat)
    : M (list T) :=
  for_from log2_size 0
    (fun s res =>
       let prev_res := res in
       let threshold := 2 ^ s in
       for_from (length a) 0
         (fun i res => bs ← vget b s; x ← stage prev_res bs threshold i; vset res i x) res) a.

Definition shift_out (b_ult_a_size fill : T) (b res : list T) : M (list T) :=
  let prev_res := res in
  for_from (length b) 0
    (fun i res => x ← vget prev_res i; vset res i (mkIte b_ult_a_size x fill)) res.

(** One stage of a left shift. *)
Definition shl_stage (prev_res : list T) (bs : T) (threshold i : nat) : M T :=
  if i <? threshold then
    x ← vget prev_res i; Ok (mkIte bs mkFalse x)
  else
    _ ← check AssertionFailed (threshold <=? i);
    x ← vget prev_res (i - threshold); y ← vget prev_res i; Ok (mkIte bs x y).

Definition DefaultShlBB (node : Node) : SM S (list T) :=
  _ ← assertKind node BITVECTOR_SHL;
  a ← bbChild node 0;
  b ← bbChild node 1;
  log2_size ← lift (log2_size node);
  b_ult_a_size ← shift_guard node;
  res ← lift (barrel shl_stage a b log2_size);
  lift (shift_out b_ult_a_size mkFalse b res).

(** One stage of a right shift, shifting [fill] in. *)
Definition rshift_stage (fill : T) (size : nat) (prev_res : list T) (bs : T) (threshold i : nat) : M T :=
  if size <=? i + threshold then
    x ← vget prev_res i; Ok (mkIte bs fill x)
  else
    _ ← check AssertionFailed (i + threshold <? size);
    x ← vget prev_res i; y ← vget prev_res (i + threshold); Ok (mkIte (mkNot bs) x y).

Definition DefaultLshrBB (node : Node) : SM S (list T) :=
  _ ← assertKind node BITVECTOR_LSHR;
  a ← bbChild node 0;
  b ← bbChild node 1;
  log2_size ← lift (log2_size node);
  b_ult_a_size ← shift_guard node;
  res ← lift (barrel (rshift_stage mkFalse (length a)) a b log2_size);
  lift (shift_out b_ult_a_size mkFalse b res).

Definition DefaultAshrBB (node : Node) : SM S (list T) :=
  _ ← assertKind node BITVECTOR_ASHR;
  a ← bbChild node 0;
  b ← bbChild node 1;
  log2_size ← lift (log2_size node);
  b_ult_a_size ← shift_guard node;
  sign_bit ← lift (vget a (length a - 1));
  res ← lift (barrel (rshift_stage sign_bit (length a)) a b log2_size);
  lift (shift_out b_ult_a_size sign_bit b res).

Definition DefaultUltbvBB (node : Node) : SM S (list T) :=
  _ ← assertKind node BITVECTOR_ULTBV;
  a ← bbChild node 0;
  b ← bbChild node 1;
  _ ← sizes_eq a b;
  lift (x ← uLessThanBB a b false; Ok [x]).

Definition DefaultSltbvBB (node : Node) : SM S (list T) :=
  _ ← assertKind node BITVECTOR_SLTBV;
  a ← bbChild node 0;
  b ← bbChild node 1;
  _ ← sizes_eq a b;
  lift (x ← sLessThanBB a b false; Ok [x]).

Definition DefaultIteBB (node : Node) : SM S (list T) :=
  _ ← assertKind node BITVECTOR_ITE;
  cond ← bbChild node 0;
  thenpart ← bbChild node 1;
  elsepart ← bbChild node 2;
  _ ← sassert (length cond =? 1);
  _ ← sizes_eq thenpart elsepart;
  lift (for_from (length thenpart) 0
    (fun i res =>
       c ← vget cond 0; t ← vget thenpart i; e ← vget elsepart i;
       Ok (res ++ [mkAnd (mkOr (mkNot c) t) (mkOr c e)])) []).

Definition DefaultExtractBB (node : Node) : SM S (list T) :=
  match getKind node with
  | BITVECTOR_EXTRACT h l =>
      base_bits ← bbChild node 0;
      let high := Z.to_nat h in let low := Z.to_nat l in
      bits ← lift (for_from (Datatypes.S high - low) low
                     (fun i bits => x ← vget base_bits i; Ok (bits ++ [x])) []);
      _ ← sassert (length bits =? high - low + 1);
      mret bits
  | _ => lift (Throw AssertionFailed)
  end.

Definition DefaultRepeatBB (node : Node) : SM S (list T) := lift (Throw UnimplementedCode).
Definition DefaultZeroExtendBB (node : Node) : SM S (list T) := lift (Throw UnimplementedCode).

Definition DefaultSignExtendBB (node : Node) : SM S (list T) :=
  match getKind node with
  | BITVECTOR_SIGN_EXTEND k =>
      bits ← bbChild node 0;
      sign_bit ← lift (vget bits (length bits - 1));
      let amount := Z.to_nat k in
      res_bits ← lift (for_from (length bits) 0 (fun i res => x ← vget bits i; Ok (res ++ [x])) []);
      res_bits ← lift (for_from amount 0 (fun _ res => Ok (res ++ [sign_bit])) res_bits);
      _ ← sassert (length res_bits =? amount + length bits);
      mret res_bits
  | _ => lift (Throw AssertionFailed)
  end.

Definition DefaultRotateRightBB (node : Node) : SM S (list T) := lift (Throw UnimplementedCode).
Definition DefaultRotateLeftBB (node : Node) : SM S (list T) := lift (Throw UnimplementedCode).

(** ** The strategy tables of [bitblaster_template.h] *)
Definition d_atomBBStrategies (k : Kind) : Node -> SM S T :=
  match k with
  | EQUAL => DefaultEqBB
  | BITVECTOR_ULT => DefaultUltBB
  | BITVECTOR_ULE => DefaultUleBB
  | BITVECTOR_UGT => DefaultUgtBB
  | BITVECTOR_UGE => DefaultUgeBB
  | BITVECTOR_SLT => DefaultSltBB
  | BITVECTOR_SLE => DefaultSleBB
  | BITVECTOR_SGT => DefaultSgtBB
  | BITVECTOR_SGE => DefaultSgeBB
  | _ => UndefinedAtomBBStrategy
  end.

Definition d_termBBStrategies (k : Kind) : Node -> SM S (list T) :=
  match k with
  | CONST_BITVECTOR => DefaultConstBB
  | BITVECTOR_NOT => DefaultNotBB
  | BITVECTOR_CONCAT => DefaultConcatBB
  | BITVECTOR_AND => DefaultAndBB
  | BITVECTOR_OR => DefaultOrBB
  | BITVECTOR_XOR => DefaultXorBB
  | BITVECTOR_XNOR => DefaultXnorBB
  | BITVECTOR_NAND => DefaultNandBB
  | BITVECTOR_NOR => DefaultNorBB
  | BITVECTOR_COMP => DefaultCompBB
  | BITVECTOR_MULT => DefaultMultBB
  | BITVECTOR_PLUS => DefaultPlusBB
  | BITVECTOR_SUB => DefaultSubBB
  | BITVECTOR_NEG => DefaultNegBB
  | BITVECTOR_UDIV => UndefinedTermBBStrategy
  | BITVECTOR_UREM => UndefinedTermBBStrategy
  | BITVECTOR_UDIV_TOTAL => DefaultUdivBB
  | BITVECTOR_UREM_TOTAL => DefaultUremBB
  | BITVECTOR_SDIV => UndefinedTermBBStrategy
  | BITVECTOR_SREM => UndefinedTermBBStrategy
  | BITVECTOR_SMOD => UndefinedTermBBStrategy
  | BITVECTOR_SHL => DefaultShlBB
  | BITVECTOR_LSHR => DefaultLshrBB
  | BITVECTOR_ASHR => DefaultAshrBB
  | BITVECTOR_ULTBV => DefaultUltbvBB
  | BITVECTOR_SLTBV => DefaultSltbvBB
  | BITVECTOR_ITE => DefaultIteBB
  | BITVECTOR_EXTRACT _ _ => DefaultExtractBB
  | BITVECTOR_REPEAT _ => DefaultRepeatBB
  | BITVECTOR_ZERO_EXTEND _ => DefaultZeroExtendBB
  | BITVECTOR_SIGN_EXTEND _ => DefaultSignExtendBB
  | BITVECTOR_ROTATE_RIGHT _ => DefaultRotateRightBB
  | BITVECTOR_ROTATE_LEFT _ => DefaultRotateLeftBB
  | _ => DefaultVarBB
  end.

End strategies.
