(* ===== verification/BitblastCorrect.v ===== *)
(** * Correctness of the bit-blasting strategies

    First the circuits of [BitblastStrategies] on their own (equality, the
    recursive divider, the barrel shifters), then every strategy of the two
    tables: started with a bit-blaster whose callbacks are correct, it returns
    bits that denote the value of the term. *)

From S2P Require Import Prelude Integer BitVector Node BitblastUtils BitblastStrategies.
Local Open Scope Z_scope.

Section circuits.
Context {T : Type} {O : BitOps T} {den : T -> bool -> Prop} {D : BitDen O den}.
Abbreviation bvden := (bvden den).

Lemma bvden_eq l z z' : bvden l z -> z = z' -> bvden l z'.
Proof. by intros ? ->. Qed.

Lemma testbit_if (c : bool) p q i :
  Z.testbit (if c then p else q) i = if c then Z.testbit p i else Z.testbit q i.
Proof. by destruct c. Qed.

Lemma den_ite_not c a b z x y :
  den c z -> den a x -> den b y -> den (mkIte (mkNot c) a b) (if z then y else x).
Proof.
  intros Hc Ha Hb. replace (if z then y else x) with (if negb z then x else y) by (by destruct z).
  by apply den_ite; [apply den_not | |].
Qed.

Lemma bits_iff_ok a b x y :
  length a = length b -> bvden a x -> bvden b y ->
  exists l, bits_iff a b = Ok l /\ length l = length a /\ bvden l (Sem.bnot (zlen a) (Z.lxor x y)).
Proof.
  intros Hab Ha Hb. destruct (push_loop (den:=den) (length a)
    (fun i l => x ← vget a i; y ← vget b i; Ok (l ++ [mkIff x y])) (Z.lnot (Z.lxor x y)))
    as (l & Hl & Hlen & Hd).
  - intros i l Hi _. destruct (bvden_get a x i Ha) as (ta & -> & Hta); [lia |].
    destruct (bvden_get b y i Hb) as (tb & -> & Htb); [lia |]. eexists. split; [done |].
    rewrite Z.lnot_spec, Z.lxor_spec by lia.
    replace (negb (xorb _ _)) with (Bool.eqb (Z.testbit x (Z.of_nat i)) (Z.testbit y (Z.of_nat i)))
      by (by repeat destruct (Z.testbit _ _)).
    by apply den_iff.
  - exists l. split; [done |]. split; [done |]. unfold zlen, Sem.bnot. rewrite <- lnot_mod; [done | lia |].
    destruct Ha as [Hx _], Hb as [Hy _]. unfold zlen in *. rewrite <- Hab in Hy. apply wf_lxor; lia.
Qed.

(** The conjunction of the bits tells whether they are all ones. *)
Lemma mkAndV_ok l z :
  bvden l z -> (1 <= length l)%nat ->
  exists t, mkAndV l = Ok t /\ den t (z =? 2 ^ zlen l - 1).
Proof.
  intros [Hr Hd] Hlen.
  assert (Forall2 den l (map (fun i => Z.testbit z (Z.of_nat i)) (seq 0 (length l)))) as HF.
  { apply Forall2_same_length_lookup. split; [by rewrite length_map, length_seq |].
    intros i t b Ht Hb. rewrite list_lookup_fmap in Hb. pose proof (lookup_lt_Some _ _ _ Ht).
    rewrite lookup_seq_lt in Hb by done. injection Hb as <-. by apply Hd. }
  destruct (den_andV l _ ltac:(by destruct l; cbn in *; [lia |]) HF) as (t & Ht & Hden).
  exists t. split; [done |]. replace (z =? _) with
    (forallb id (map (fun i => Z.testbit z (Z.of_nat i)) (seq 0 (length l)))); [done |].
  apply eq_iff_eq_true. rewrite Z.eqb_eq, forallb_forall. split.
  - intros H. apply (bits_eq_below (zlen l)); [done | unfold zlen; pose proof (pow2_ge1 (zlen l)); unfold zlen in *; lia |].
    intros i Hi. change (2 ^ zlen l - 1) with (Z.pred (2 ^ zlen l)). rewrite <- Z.ones_equiv, Z.ones_spec_low by lia. apply (H (Z.testbit z i)). apply in_map_iff. exists (Z.to_nat i).
    rewrite Z2Nat.id by lia. split; [done |]. apply in_seq. unfold zlen in *. lia.
  - intros -> b. rewrite in_map_iff. intros (i & <- & Hi%in_seq).
    change (2 ^ zlen l - 1) with (Z.pred (2 ^ zlen l)). rewrite <- Z.ones_equiv. apply Z.ones_spec_low. unfold zlen. lia.
Qed.

(** A loop that pushes one bit on each of two vectors. *)
Lemma push_loop2 n body z w :
  (forall i l m, (i < n)%nat -> exists t u, body i (l, m) = Ok (l ++ [t], m ++ [u]) /\
     den t (Z.testbit z (Z.of_nat i)) /\ den u (Z.testbit w (Z.of_nat i))) ->
  exists l m, for_from n 0 body ([], []) = Ok (l, m) /\ length l = n /\ length m = n /\
    bvden l (z mod 2 ^ Z.of_nat n) /\ bvden m (w mod 2 ^ Z.of_nat n).
Proof.
  intros Hb.
  destruct (for_from_inv (fun k '(l, m) => length l = k /\ length m = k /\
      bvden l (z mod 2 ^ Z.of_nat k) /\ bvden m (w mod 2 ^ Z.of_nat k)) body n 0 ([], []))
    as ([l m] & Hl & Hinv).
  - do 2 (split; [done |]). rewrite Z.pow_0_r, !Z.mod_1_r. split; apply bvden_nil.
  - intros k [l m] Hk (Hl & Hm & Hdl & Hdm). destruct (Hb k l m) as (t & u & -> & Ht & Hu); [lia |].
    eexists. split; [done |]. cbv beta iota. rewrite !length_app, Hl, Hm. cbn [length].
    replace (k + 1)%nat with (S k) by lia. do 2 (split; [done |]).
    replace (Z.of_nat (S k)) with (zlen (l ++ [t])) at 1 by (rewrite zlen_app; unfold zlen; cbn; lia).
    replace (Z.of_nat (S k)) with (zlen (m ++ [u])) by (rewrite zlen_app; unfold zlen; cbn; lia).
    split; apply bvden_snoc; unfold zlen; rewrite ?Hl, ?Hm; done.
  - exists l, m. done.
Qed.

(** Setting the lowest bit of an even number. *)
Lemma bvden_insert0 l k t c n :
  length l = n -> (1 <= n)%nat -> bvden l ((2 * k) mod 2 ^ Z.of_nat n) -> den t c ->
  bvden (<[0%nat:=t]> l) ((2 * k + Z.b2z c) mod 2 ^ Z.of_nat n).
Proof.
  intros Hl Hn [_ Hd] Ht. replace (Z.of_nat n) with (zlen (<[0%nat:=t]> l))
    by (unfold zlen; rewrite length_insert; lia).
  apply bvden_intro. intros i u Hi. destruct i as [|i].
  - rewrite list_lookup_insert_eq in Hi by lia. injection Hi as <-.
    by rewrite Z.testbit_0_r.
  - rewrite list_lookup_insert_ne in Hi by done. pose proof (lookup_lt_Some _ _ _ Hi).
    specialize (Hd _ _ Hi). rewrite testbit_mod_pow2, (proj2 (Z.ltb_lt _ _)) in Hd by lia. cbn in Hd.
    replace (Z.of_nat (S i)) with (Z.succ (Z.of_nat i)) in * by lia.
    rewrite Z.testbit_succ_r by lia. replace (2 * k) with (2 * k + Z.b2z false) in Hd by (cbn; lia).
    by rewrite Z.testbit_succ_r in Hd by lia.
Qed.

(** One step of long division: from the quotient and remainder of [x / 2]. *)
Lemma div_step x y q1 r1 :
  0 <= x -> 0 < y -> q1 = x / 2 / y -> r1 = (x / 2) mod y ->
  let r2 := 2 * r1 + Z.b2z (Z.testbit x 0) in
  0 <= r2 <= x /\ 0 <= q1 /\
  x / y = 2 * q1 + Z.b2z (y <=? r2) /\ x mod y = (if y <=? r2 then r2 - y else r2).
Proof.
  intros Hx Hy Hq Hr r2.
  assert (x = 2 * (x / 2) + Z.b2z (Z.testbit x 0)) as Ex.
  { rewrite Z.bit0_mod. apply Z.div_mod. lia. }
  pose proof (Z.div_mod (x / 2) y ltac:(lia)) as Ed. pose proof (Z.mod_pos_bound (x / 2) y Hy).
  assert (0 <= x / 2 / y) by (apply Z.div_pos; [apply Z.div_pos; lia | lia]).
  rewrite <- Hq, <- Hr in *. assert (0 <= Z.b2z (Z.testbit x 0) <= 1) by (destruct (Z.testbit x 0); cbn; lia).
  assert (x = y * (2 * q1) + r2) as E2 by (unfold r2; lia).
  split; [unfold r2; nia |]. split; [lia |]. destruct (Z.leb_spec y r2); cbn [Z.b2z].
  - split; [symmetry; apply (Z.div_unique _ _ _ (r2 - y)); [left; unfold r2 in *; lia | lia]
           | symmetry; apply (Z.mod_unique _ _ (2 * q1 + 1)); [left; unfold r2 in *; lia | lia]].
  - split; [symmetry; apply (Z.div_unique _ _ _ r2); [left; unfold r2 in *; lia | lia]
           | symmetry; apply (Z.mod_unique _ _ (2 * q1)); [left; unfold r2 in *; lia | lia]].
Qed.

(** The values the circuit below selects are the quotient and the remainder. *)
Lemma div_result x y n q1 r1 :
  0 <= x < 2 ^ Z.of_nat n -> 0 < y < 2 ^ Z.of_nat n -> q1 = x / 2 / y -> r1 = (x / 2) mod y ->
  let N := 2 ^ Z.of_nat n in
  let r3 := ((2 * r1) mod N + Z.b2z (Z.testbit x 0)) mod N in
  (if y <=? x then (2 * q1 + Z.b2z (y <=? r3)) mod N else 0) mod N = x / y /\
  (if y <=? x then (if y <=? r3 then (r3 - y) mod N else r3) mod N else x) mod N = x mod y.
Proof.
  intros Hx Hy Hq Hr N r3. destruct (div_step x y q1 r1) as (Hr2 & Hq1 & Hdiv & Hmod); [lia | lia | done | done |].
  assert (0 <= r1) by (pose proof (Z.mod_pos_bound (x / 2) y); lia).
  assert (0 <= Z.b2z (Z.testbit x 0) <= 1) by (destruct (Z.testbit x 0); cbn; lia).
  assert (r3 = 2 * r1 + Z.b2z (Z.testbit x 0)) as E3.
  { unfold r3, N. rewrite (Z.mod_small (2 * r1)) by lia. apply Z.mod_small. lia. }
  rewrite <- E3 in *. clearbody r3.
  assert (0 <= x / y <= x) by (split; [apply Z.div_pos; lia | apply Z.div_le_upper_bound; nia]).
  pose proof (Z.mod_pos_bound x y). destruct (Z.leb_spec y x).
  - rewrite <- Hdiv, !(Z.mod_small (x / y)) by (unfold N; lia). split; [done |].
    rewrite Hmod. fold N in Hx, Hy. clearbody N. destruct (Z.leb_spec y r3).
    + rewrite !(Z.mod_small (r3 - y)) by lia. done.
    + rewrite !(Z.mod_small r3) by lia. done.
  - rewrite Z.div_small, !Z.mod_small by (unfold N in *; lia). done.
Qed.

(** Adding the complement of [b] and one subtracts, and the carry-out compares. *)
Lemma subtract_ok n (a b not_b : list T) x y :
  length a = n -> length not_b = n -> 0 <= y < 2 ^ Z.of_nat n ->
  bvden a x -> bvden not_b (Sem.bnot (zlen b) y) -> length b = n ->
  exists l co, rippleCarryAdder a not_b [] mkTrue = Ok (l, co) /\ length l = n /\
    bvden l ((x - y) mod 2 ^ Z.of_nat n) /\ den co (y <=? x).
Proof.
  intros Hla Hlnb Hy Ha Hnb Hlb.
  destruct (rippleCarryAdder_ok a not_b _ _ mkTrue true ltac:(lia) Ha Hnb den_true)
    as (l & co & -> & Hl & Hd & Hco).
  exists l, co. unfold zlen, Sem.bnot in *. rewrite Hla, Hlb in *. cbn [Z.b2z] in *.
  split; [done |]. split; [done |]. split.
  - eapply bvden_eq; [exact Hd |].
    replace (x + (2 ^ Z.of_nat n - 1 - y) + 1) with (x - y + 1 * 2 ^ Z.of_nat n) by lia.
    apply Z.mod_add. lia.
  - replace (y <=? x) with (2 ^ Z.of_nat n <=? x + (2 ^ Z.of_nat n - 1 - y) + 1); [done |].
    destruct (Z.leb_spec (2 ^ Z.of_nat n) (x + (2 ^ Z.of_nat n - 1 - y) + 1)), (Z.leb_spec y x); lia.
Qed.

Lemma uDivModRec_ok b y n w :
  length b = n -> (1 <= n)%nat -> bvden b y ->
  forall a x, length a = n -> bvden a x -> x < 2 ^ Z.of_nat w ->
  exists q r qv rv, uDivModRec a b w = Ok (q, r) /\ length q = n /\ length r = n /\
    bvden q qv /\ bvden r rv /\ (y <> 0 -> qv = x / y /\ rv = x mod y).
Proof.
  intros Hlb Hn Hb. 
  assert (forall a x, length a = n -> bvden a x -> x = 0 ->
    exists q r qv rv, (q ← makeZero [] (length a); r ← makeZero [] (length a); Ok (q, r)) = Ok (q, r) /\
      length q = n /\ length r = n /\ bvden q qv /\ bvden r rv /\ (y <> 0 -> qv = x / y /\ rv = x mod y)) as Hzero.
  { intros a x Hla Ha ->. destruct (makeZero_ok (den:=den) (length a)) as (z & -> & Hz & Hdz).
    exists z, z, 0, 0. rewrite !M_bind_Ok, Hz, Hla. do 5 (split; [done |]).
    intros. by rewrite Z.div_0_l, Z.mod_0_l. }
  induction w as [|w IH]; intros a x Hla Ha Hx.
  { apply Hzero; [done | done |]. destruct Ha. rewrite Z.pow_0_r in Hx. lia. }
  cbn [uDivModRec]. destruct (isZero a) eqn:Ez.
  { apply Hzero; [done | done |]. by eapply isZeroBits_ok. }
  assert (0 <= x < 2 ^ Z.of_nat n) as Hxr by (rewrite <- Hla; apply Ha).
  assert (0 <= y < 2 ^ Z.of_nat n) as Hyr by (rewrite <- Hlb; apply Hb).
  destruct (rshift_ok a x Ha) as (a1 & -> & Hl1 & Hd1); [lia |]. rewrite M_bind_Ok.
  destruct (IH a1 (x / 2)) as (q1 & r1 & q1v & r1v & -> & Hlq1 & Hlr1 & Hdq1 & Hdr1 & Hdiv);
    [lia | done | |].
  { rewrite Nat2Z.inj_succ, Z.pow_succ_r in Hx by lia. apply Z.div_lt_upper_bound; lia. }
  rewrite M_bind_Ok.
  destruct (lshift_ok q1 q1v Hdq1) as (q2 & -> & Hlq2 & Hdq2); [lia |].
  destruct (lshift_ok r1 r1v Hdr1) as (r2 & -> & Hlr2 & Hdr2); [lia |].
  destruct (bvden_get a x 0 Ha) as (a0 & -> & Ha0); [lia |]. rewrite !M_bind_Ok. cbv zeta.
  destruct (makeZero_ok (den:=den) (length b)) as (zero & -> & Hlz & Hdz). rewrite M_bind_Ok.
  destruct (rippleCarryAdder_ok r2 zero ((2 * r1v) mod 2 ^ zlen r1) 0
    (mkIte (mkIff a0 mkTrue) mkTrue mkFalse) (Z.testbit x 0))
    as (r3 & c3 & -> & Hlr3 & Hdr3 & _); [lia | exact Hdr2 | exact Hdz | |].
  { replace (Z.testbit x 0) with (if Bool.eqb (Z.testbit x 0) true then true else false)
      by (by destruct (Z.testbit x 0)).
    apply den_ite; [apply den_iff; [done | apply den_true] | apply den_true | apply den_false]. }
  rewrite M_bind_Ok. destruct (negateBits_ok b y Hb) as (nb & -> & Hlnb & Hdnb). rewrite M_bind_Ok.
  rewrite Z.add_0_r in Hdr3. unfold zlen in Hdq2, Hdr2, Hdr3. rewrite Hlr2, Hlr1 in Hdr3. rewrite Hlq1 in Hdq2.
  set (r3v := ((2 * r1v) mod 2 ^ Z.of_nat n + Z.b2z (Z.testbit x 0)) mod 2 ^ Z.of_nat n) in *.
  destruct (subtract_ok n r3 b nb r3v y) as (rb & co1 & -> & Hlrb & Hdrb & Hco1); [lia | lia | done .. |].
  rewrite M_bind_Ok. destruct (bvden_get q2 _ 0 Hdq2) as (q20 & -> & Hq20); [lia |].
  rewrite M_bind_Ok, vset_Ok, M_bind_Ok by lia.
  assert (den (mkIte (mkNot co1) q20 mkTrue) (y <=? r3v)) as Hq0.
  { replace (y <=? r3v) with (if y <=? r3v then true else Z.testbit ((2 * q1v) mod 2 ^ Z.of_nat n) (Z.of_nat 0)).
    - apply den_ite_not; [done | done | apply den_true].
    - rewrite testbit_mod_pow2 by lia. change (Z.of_nat 0) with 0. rewrite Z.testbit_even_0, andb_false_r.
      by destruct (y <=? r3v). }
  pose proof (bvden_insert0 q2 q1v _ _ n ltac:(lia) Hn Hdq2 Hq0) as Hdq3.
  destruct (update_loop (den:=den) n (fun i l => x ← vget l i; y ← vget rb i; vset l i (mkIte (mkNot co1) x y))
    r3 r3v (if y <=? r3v then (r3v - y) mod 2 ^ Z.of_nat n else r3v)) as (r4 & E4 & Hlr4 & Hdr4);
    [lia | exact Hdr3 | |].
  { intros i l t Hi Hl Ht Hdt. rewrite (vget_Ok _ _ _ Ht).
    destruct (bvden_get rb _ i Hdrb) as (u & -> & Hu); [lia |]. rewrite !M_bind_Ok, vset_Ok by lia.
    eexists. split; [done |]. rewrite testbit_if. by apply den_ite_not. }
  rewrite Hla, E4, M_bind_Ok.
  destruct (subtract_ok n a b nb x y) as (ab & co2 & -> & _ & _ & Hco2); [lia | lia | done .. |].
  rewrite M_bind_Ok.
  destruct (push_loop2 n (fun i '(q, r) =>
             q1i ← vget (<[0%nat:=mkIte (mkNot co1) q20 mkTrue]> q2) i; ai ← vget a i; ri ← vget r4 i;
             Ok (q ++ [mkIte (mkNot co2) mkFalse q1i], r ++ [mkIte (mkNot co2) ai ri]))
    (if y <=? x then (2 * q1v + Z.b2z (y <=? r3v)) mod 2 ^ Z.of_nat n else 0)
    (if y <=? x then (if y <=? r3v then (r3v - y) mod 2 ^ Z.of_nat n else r3v) mod 2 ^ Z.of_nat n else x))
    as (q & r & Eqr & Hlq & Hlr & Hdq & Hdr).
  { intros i l m Hi. destruct (bvden_get _ _ i Hdq3) as (t & -> & Ht); [rewrite length_insert; lia |].
    destruct (bvden_get a x i Ha) as (ta & -> & Hta); [lia |].
    destruct (bvden_get r4 _ i Hdr4) as (tr & -> & Htr); [lia |]. rewrite !M_bind_Ok.
    do 2 eexists. split; [done |]. split.
    - rewrite testbit_if, Z.bits_0. apply den_ite_not; [done | apply den_false | done].
    - rewrite testbit_if. by apply den_ite_not. }
  cbv zeta. rewrite Eqr. do 4 eexists. split; [done |]. do 2 (split; [done |]). split; [exact Hdq |].
  split; [exact Hdr |]. intros Hy0. destruct (Hdiv Hy0) as [Eq1 Er1].
  apply (div_result x y n q1v r1v); [lia | lia | done | done].
Qed.

(** A loop that replaces one bit of each of two vectors. *)
Lemma update_loop2 n body l0 m0 z0 w0 z w :
  length l0 = n -> length m0 = n -> bvden l0 z0 -> bvden m0 w0 ->
  (forall i l m t u, (i < n)%nat -> length l = n -> length m = n ->
     l !! i = Some t -> m !! i = Some u ->
     den t (Z.testbit z0 (Z.of_nat i)) -> den u (Z.testbit w0 (Z.of_nat i)) ->
     exists t' u', body i (l, m) = Ok (<[i:=t']> l, <[i:=u']> m) /\
       den t' (Z.testbit z (Z.of_nat i)) /\ den u' (Z.testbit w (Z.of_nat i))) ->
  exists l m, for_from n 0 body (l0, m0) = Ok (l, m) /\ length l = n /\ length m = n /\
    bvden l (z mod 2 ^ Z.of_nat n) /\ bvden m (w mod 2 ^ Z.of_nat n).
Proof.
  intros Hl0 Hm0 [_ Hz0] [_ Hw0] Hb.
  set (upto := fun (k : nat) (z z0 : Z) (l : list T) => forall i t, l !! i = Some t ->
      den t (if (i <? k)%nat then Z.testbit z (Z.of_nat i) else Z.testbit z0 (Z.of_nat i))).
  assert (forall k z z0 l t', (k < length l)%nat -> upto k z z0 l -> den t' (Z.testbit z (Z.of_nat k)) ->
    upto (S k) z z0 (<[k:=t']> l)) as Hstep.
  { intros k z1 z2 l t' Hk Hu Ht i u Hi. destruct (decide (i = k)) as [->|Hne].
    - rewrite list_lookup_insert_eq in Hi by lia. injection Hi as <-.
      by rewrite (proj2 (Nat.ltb_lt k (S k))) by lia.
    - rewrite list_lookup_insert_ne in Hi by done. specialize (Hu i u Hi).
      destruct (Nat.ltb_spec i k), (Nat.ltb_spec i (S k)); try lia; done. }
  assert (forall z z0 l, upto (length l) z z0 l -> bvden l (z mod 2 ^ zlen l)) as Hend.
  { intros z1 z2 l Hu. apply bvden_intro. intros i t Hi. specialize (Hu i t Hi).
    pose proof (lookup_lt_Some _ _ _ Hi). by rewrite (proj2 (Nat.ltb_lt i _)) in Hu by lia. }
  destruct (for_from_inv (fun k '(l, m) => length l = n /\ length m = n /\ upto k z z0 l /\ upto k w w0 m)
    body n 0 (l0, m0)) as ([l m] & -> & Hl & Hm & Hz & Hw).
  - do 2 (split; [done |]). split; intros i t Hi; cbn; auto.
  - intros k [l m] Hk (Hl & Hm & Hz & Hw).
    destruct (lookup_lt_is_Some_2 l k) as [t Ht]; [lia |]. destruct (lookup_lt_is_Some_2 m k) as [u Hu]; [lia |].
    pose proof (Hz k t Ht) as Hdt. pose proof (Hw k u Hu) as Hdu.
    rewrite (proj2 (Nat.ltb_ge k k)) in Hdt, Hdu by lia.
    destruct (Hb k l m t u) as (t' & u' & -> & Ht' & Hu'); [lia | done .. |]. eexists. split; [done |].
    cbv beta iota. rewrite !length_insert. do 2 (split; [done |]). split; apply Hstep; (done || lia).
  - exists l, m. do 3 (split; [done |]). cbn in Hz, Hw. split.
    + rewrite <- Hl in Hz |- *. by apply Hend in Hz.
    + rewrite <- Hm in Hw |- *. by apply Hend in Hw.
Qed.

Lemma udivrem_ok node a b x y n :
  getSizeN node = Ok n -> length a = n -> length b = n -> (1 <= n)%nat -> bvden a x -> bvden b y ->
  exists q r, udivrem node a b = Ok (q, r) /\ length q = n /\ length r = n /\
    bvden q (Sem.udiv (Z.of_nat n) x y) /\ bvden r (Sem.urem (Z.of_nat n) x y).
Proof.
  intros Hsz Hla Hlb Hn Ha Hb. unfold udivrem. rewrite Hsz, M_bind_Ok.
  assert (0 <= x < 2 ^ Z.of_nat n) as Hx by (rewrite <- Hla; apply Ha).
  assert (0 <= y < 2 ^ Z.of_nat n) as Hy by (rewrite <- Hlb; apply Hb).
  destruct (uDivModRec_ok b y n n Hlb Hn Hb a x Hla Ha) as (q & r & qv & rv & -> & Hlq & Hlr & Hq & Hr & Hdiv); [lia |].
  rewrite M_bind_Ok.
  destruct (push_loop (den:=den) (length b) (fun i l => bi ← vget b i; Ok (l ++ [mkIff bi mkFalse])) (Z.lnot y))
    as (z & -> & Hlz & Hdz).
  { intros i l Hi _. destruct (bvden_get b y i Hb Hi) as (t & -> & Ht). eexists. split; [done |].
    rewrite Z.lnot_spec by lia. replace (negb (Z.testbit y (Z.of_nat i))) with (Bool.eqb (Z.testbit y (Z.of_nat i)) false)
      by (by destruct (Z.testbit y (Z.of_nat i))). apply den_iff; [done | apply den_false]. }
  rewrite M_bind_Ok. destruct (mkAndV_ok z _ Hdz) as (b0 & -> & Hb0); [lia |]. rewrite M_bind_Ok, Hlq.
  unfold zlen in Hb0. rewrite Hlz, Hlb, lnot_mod in Hb0 by lia.
  replace (2 ^ Z.of_nat n - 1 - y =? 2 ^ Z.of_nat n - 1) with (y =? 0) in Hb0
    by (destruct (Z.eqb_spec y 0), (Z.eqb_spec (2 ^ Z.of_nat n - 1 - y) (2 ^ Z.of_nat n - 1)); lia).
  destruct (update_loop2 n (fun i '(q, r) =>
       qi ← vget q i; q ← vset q i (mkIte b0 mkTrue qi);
       ai ← vget a i; ri ← vget r i; r ← vset r i (mkIte b0 ai ri);
       Ok (q, r)) q r qv rv (if y =? 0 then -1 else qv) (if y =? 0 then x else rv))
    as (q' & r' & -> & Hlq' & Hlr' & Hq' & Hr'); [done | done | done | done | |].
  { intros i l m t u Hi Hl Hm Ht Hu Hdt Hdu. rewrite (vget_Ok _ _ _ Ht), M_bind_Ok, vset_Ok, M_bind_Ok by lia.
    destruct (bvden_get a x i Ha) as (ta & -> & Hta); [lia |].
    rewrite (vget_Ok _ _ _ Hu), !M_bind_Ok, vset_Ok, M_bind_Ok by lia. do 2 eexists. split; [done |].
    rewrite !testbit_if, Z.bits_m1 by lia. split; apply den_ite; done || apply den_true. }
  exists q', r'. do 3 (split; [done |]). unfold Sem.udiv, Sem.urem.
  destruct (Z.eqb_spec y 0) as [->|Hy0].
  - split; [eapply bvden_eq; [exact Hq' |] | eapply bvden_eq; [exact Hr' | by apply Z.mod_small]].
    apply mod_unique_bound; [lia |]. exists (-1). lia.
  - destruct (Hdiv Hy0) as [-> ->].
    assert (0 <= x / y < 2 ^ Z.of_nat n) by (split; [apply Z.div_pos; lia | apply Z.div_lt_upper_bound; nia]).
    pose proof (Z.mod_pos_bound x y). assert (x mod y <= x) by (apply Z.mod_le; lia).
    split; [eapply bvden_eq; [exact Hq' |] | eapply bvden_eq; [exact Hr' |]]; apply Z.mod_small; lia.
Qed.

(** The barrel shifter runs through the values [v 0], [v 1], ... *)
Lemma barrel_ok stage a b y n L (v : nat -> Z) :
  length a = n -> length b = n -> (L <= n)%nat -> bvden b y -> bvden a (v 0%nat) ->
  (forall s, 0 <= v s < 2 ^ Z.of_nat n) ->
  (forall s prev bs i, (s < L)%nat -> (i < n)%nat -> length prev = n -> bvden prev (v s) ->
     den bs (Z.testbit y (Z.of_nat s)) ->
     exists t, stage prev bs (2 ^ s)%nat i = Ok t /\ den t (Z.testbit (v (S s)) (Z.of_nat i))) ->
  exists l, barrel stage a b L = Ok l /\ length l = n /\ bvden l (v L).
Proof.
  intros Hla Hlb HL Hb Ha Hv Hst. unfold barrel.
  edestruct (for_from_inv (fun s l => length l = n /\ bvden l (v s))) as (l & Hl & Hlen & Hd);
    [| | exists l; split; [exact Hl |]]; [done | | done].
  intros s l Hs [Hl Hd]. cbv zeta. rewrite Hla.
  destruct (bvden_get b y s Hb) as (bs & Hbs & Hdbs); [lia |].
  destruct (update_loop (den:=den) n (fun i res => bs ← vget b s; x ← stage l bs (2 ^ s)%nat i; vset res i x)
    l (v s) (v (S s))) as (l' & -> & Hl' & Hd'); [done | done | |].
  - intros i m t Hi Hm Ht Hdt. rewrite Hbs, M_bind_Ok.
    destruct (Hst s l bs i) as (u & -> & Hu); [lia | done .. |]. rewrite M_bind_Ok, vset_Ok by lia. eauto.
  - rewrite Z.mod_small in Hd' by apply Hv. eauto.
Qed.

Lemma shift_out_ok g fill b res v gv f n :
  length b = n -> length res = n -> bvden res v -> den g gv -> den fill f ->
  exists l, shift_out g fill b res = Ok l /\ length l = n /\
    bvden l ((if gv then v else if f then -1 else 0) mod 2 ^ Z.of_nat n).
Proof.
  intros Hlb Hlr Hres Hg Hf. unfold shift_out. cbv zeta. rewrite Hlb.
  apply (update_loop (den:=den) n _ res v); [done | done |].
  intros i l t Hi Hl Ht Hdt. destruct (bvden_get res v i Hres) as (u & -> & Hu); [lia |].
  rewrite M_bind_Ok, vset_Ok by lia. eexists. split; [done |]. rewrite !testbit_if, Z.bits_m1, Z.bits_0 by lia.
  replace (if f then true else false) with f by (by destruct f). by apply den_ite.
Qed.

Lemma pow2_nat s : Z.of_nat (2 ^ s) = 2 ^ Z.of_nat s.
Proof. by rewrite Nat2Z.inj_pow. Qed.

Lemma shl_barrel_ok a b x y n L :
  length a = n -> length b = n -> (L <= n)%nat -> bvden a x -> bvden b y ->
  exists l, barrel shl_stage a b L = Ok l /\ length l = n /\
    bvden l ((x * 2 ^ (y mod 2 ^ Z.of_nat L)) mod 2 ^ Z.of_nat n).
Proof.
  intros Hla Hlb HL Ha Hb.
  apply (barrel_ok _ a b y n L (fun s => (x * 2 ^ (y mod 2 ^ Z.of_nat s)) mod 2 ^ Z.of_nat n)); [done .. | | |].
  - rewrite Z.pow_0_r, Z.mod_1_r, Z.pow_0_r, Z.mul_1_r, Z.mod_small; [done |]. rewrite <- Hla. apply Ha.
  - intros s. apply mod_pow2_bound. lia.
  - intros s prev bs i Hs Hi Hlp Hp Hbs.
    replace (Z.of_nat (S s)) with (Z.of_nat s + 1) by lia. rewrite mod_pow2_S by lia.
    pose proof (mod_pow2_bound y (Z.of_nat s)). pose proof (pow2_gt0 (Z.of_nat s)).
    set (m := y mod 2 ^ Z.of_nat s) in *.
    assert (forall j, Z.testbit ((x * 2 ^ (m + 2 ^ Z.of_nat s * Z.b2z (Z.testbit y (Z.of_nat s)))) mod 2 ^ Z.of_nat n) (Z.of_nat j) =
      (Z.of_nat j <? Z.of_nat n) && if Z.testbit y (Z.of_nat s) then Z.testbit x (Z.of_nat j - 2 ^ Z.of_nat s - m)
      else Z.testbit x (Z.of_nat j - m)) as Hbit.
    { intros j. rewrite testbit_mod_pow2, Z.mul_pow2_bits by (destruct (Z.testbit y (Z.of_nat s)); cbn [Z.b2z]; lia).
      f_equal. destruct (Z.testbit y (Z.of_nat s)); cbn [Z.b2z]; f_equal; lia. }
    assert (forall j t, prev !! j = Some t -> den t (Z.testbit x (Z.of_nat j - m))) as Hprev.
    { intros j t Hj. pose proof (lookup_lt_Some _ _ _ Hj). destruct Hp as [_ Hp]. specialize (Hp j t Hj).
      by rewrite testbit_mod_pow2, Z.mul_pow2_bits, (proj2 (Z.ltb_lt _ _)) in Hp by lia. }
    rewrite Hbit, (proj2 (Z.ltb_lt _ _)) by lia. cbn [andb]. unfold shl_stage. pose proof (pow2_nat s).
    destruct (lookup_lt_is_Some_2 prev i) as [t Ht]; [lia |]. rewrite (vget_Ok _ _ _ Ht).
    destruct (Nat.ltb_spec i (2 ^ s)).
    + eexists. split; [done |]. rewrite (Z.testbit_neg_r x (Z.of_nat i - 2 ^ Z.of_nat s - m)) by lia.
      apply den_ite; [done | apply den_false | by apply Hprev].
    + rewrite (proj2 (Nat.leb_le _ _)) by lia. cbn [check].
      destruct (lookup_lt_is_Some_2 prev (i - 2 ^ s)) as [u Hu]; [lia |]. rewrite (vget_Ok _ _ _ Hu), !M_bind_Ok.
      eexists. split; [done |]. apply den_ite; [done | | by apply Hprev]. apply Hprev in Hu.
      by replace (Z.of_nat i - 2 ^ Z.of_nat s) with (Z.of_nat (i - 2 ^ s)) by lia.
Qed.

(** Right shifts: [X] extends [x] with the bit [f] shifted in. *)
Lemma shr_barrel_ok fill f a b X y n L :
  length a = n -> length b = n -> (L <= n)%nat -> bvden a (X mod 2 ^ Z.of_nat n) -> bvden b y ->
  den fill f -> (forall j, Z.of_nat n <= j -> Z.testbit X j = f) ->
  exists l, barrel (rshift_stage fill (length a)) a b L = Ok l /\ length l = n /\
    bvden l ((X / 2 ^ (y mod 2 ^ Z.of_nat L)) mod 2 ^ Z.of_nat n).
Proof.
  intros Hla Hlb HL Ha Hb Hf HX. rewrite Hla.
  apply (barrel_ok _ a b y n L (fun s => (X / 2 ^ (y mod 2 ^ Z.of_nat s)) mod 2 ^ Z.of_nat n)); [done .. | | |].
  - by rewrite Z.pow_0_r, Z.mod_1_r, Z.pow_0_r, Z.div_1_r.
  - intros s. apply mod_pow2_bound. lia.
  - intros s prev bs i Hs Hi Hlp Hp Hbs.
    replace (Z.of_nat (S s)) with (Z.of_nat s + 1) by lia. rewrite mod_pow2_S by lia.
    pose proof (mod_pow2_bound y (Z.of_nat s)). pose proof (pow2_gt0 (Z.of_nat s)).
    set (m := y mod 2 ^ Z.of_nat s) in *.
    assert (forall j, Z.testbit ((X / 2 ^ (m + 2 ^ Z.of_nat s * Z.b2z (Z.testbit y (Z.of_nat s)))) mod 2 ^ Z.of_nat n) (Z.of_nat j) =
      (Z.of_nat j <? Z.of_nat n) && if Z.testbit y (Z.of_nat s) then Z.testbit X (Z.of_nat j + 2 ^ Z.of_nat s + m)
      else Z.testbit X (Z.of_nat j + m)) as Hbit.
    { intros j. rewrite testbit_mod_pow2, Z.div_pow2_bits by (destruct (Z.testbit y (Z.of_nat s)); cbn [Z.b2z]; lia).
      f_equal. destruct (Z.testbit y (Z.of_nat s)); cbn [Z.b2z]; f_equal; lia. }
    assert (forall j t, prev !! j = Some t -> den t (Z.testbit X (Z.of_nat j + m))) as Hprev.
    { intros j t Hj. pose proof (lookup_lt_Some _ _ _ Hj). destruct Hp as [_ Hp]. specialize (Hp j t Hj).
      by rewrite testbit_mod_pow2, Z.div_pow2_bits, (proj2 (Z.ltb_lt _ _)) in Hp by lia. }
    rewrite Hbit, (proj2 (Z.ltb_lt _ _)) by lia. cbn [andb]. unfold rshift_stage. pose proof (pow2_nat s).
    destruct (lookup_lt_is_Some_2 prev i) as [t Ht]; [lia |]. rewrite (vget_Ok _ _ _ Ht).
    destruct (Nat.leb_spec n (i + 2 ^ s)).
    + eexists. split; [done |]. rewrite (HX (Z.of_nat i + 2 ^ Z.of_nat s + m)) by lia.
      apply den_ite; [done | done | by apply Hprev].
    + rewrite (proj2 (Nat.ltb_lt _ _)) by lia. cbn [check].
      destruct (lookup_lt_is_Some_2 prev (i + 2 ^ s)) as [u Hu]; [lia |]. rewrite (vget_Ok _ _ _ Hu), !M_bind_Ok.
      eexists. split; [done |]. apply den_ite_not; [done | by apply Hprev |]. apply Hprev in Hu.
      by replace (Z.of_nat i + 2 ^ Z.of_nat s) with (Z.of_nat (i + 2 ^ s)) by lia.
Qed.

(** Appending vectors concatenates the numbers, low part first. *)
Lemma bvden_app l k z w : bvden l z -> bvden k w -> bvden (l ++ k) (Sem.concat w (zlen l) z).
Proof.
  intros [Hz Hl] [Hw Hk]. split.
  - rewrite zlen_app, Z.add_comm. apply concat_bound; (done || unfold zlen; lia).
  - intros i t Hi. unfold Sem.concat. rewrite testbit_concat by (done || unfold zlen; lia).
    apply lookup_app_Some in Hi as [Hi | [Hle Hi]].
    + pose proof (lookup_lt_Some _ _ _ Hi). rewrite (proj2 (Z.ltb_lt _ _)) by (unfold zlen; lia). auto.
    + rewrite (proj2 (Z.ltb_ge _ _)) by (unfold zlen; lia). apply Hk in Hi. unfold zlen.
      by replace (Z.of_nat i - Z.of_nat (length l)) with (Z.of_nat (i - length l)) by lia.
Qed.

(** A loop that pushes the first [n] bits of [cur]. *)
Lemma append_loop (cur l : list T) n :
  (n <= length cur)%nat ->
  for_from n 0 (fun j bits => x ← vget cur j; Ok (bits ++ [x])) l = Ok (l ++ take n cur).
Proof.
  intros Hn. destruct (for_from_inv (fun k r => r = l ++ take k cur)
    (fun j bits => x ← vget cur j; Ok (bits ++ [x])) n 0 l) as (r & -> & ->); [by rewrite app_nil_r | | done].
  intros k r Hk ->. destruct (lookup_lt_is_Some_2 cur k) as [t Ht]; [lia |].
  rewrite (vget_Ok _ _ _ Ht), M_bind_Ok. eexists. split; [done |].
  by rewrite (take_S_r _ _ t Ht), app_assoc.
Qed.

Lemma push_const_loop (t : T) l n :
  for_from n 0 (fun _ res => Ok (res ++ [t])) l = Ok (l ++ replicate n t).
Proof.
  destruct (for_from_inv (fun k r => r = l ++ replicate k t) (fun _ res => Ok (res ++ [t])) n 0 l)
    as (r & -> & ->); [by rewrite app_nil_r | | done].
  intros k r Hk ->. eexists. split; [done |]. rewrite <- app_assoc. f_equal.
  change [t] with (replicate 1 t). rewrite <- replicate_add. f_equal. lia.
Qed.

Lemma testbit_signed n a j :
  1 <= n -> 0 <= a < 2 ^ n -> 0 <= j ->
  Z.testbit (Sem.signed n a) j = if j <? n then Z.testbit a j else Z.testbit a (n - 1).
Proof.
  intros Hn Ha Hj. destruct (Z.ltb_spec j n).
  - pose proof (testbit_mod_pow2 (Sem.signed n a) n j) as E. rewrite signed_mod, (proj2 (Z.ltb_lt _ _)) in E by lia.
    symmetry. apply E. lia.
  - rewrite testbit_half_pow2 by lia. unfold Sem.signed. pose proof (pow2_half n Hn).
    destruct (Z.ltb_spec a (2 ^ (n - 1))), (Z.leb_spec (2 ^ (n - 1)) a); try lia.
    + apply (testbit_high a n); lia.
    + replace (a - 2 ^ n) with (Z.lnot (2 ^ n - 1 - a)) by (unfold Z.lnot; lia).
      rewrite Z.lnot_spec, (testbit_high _ n) by lia. done.
Qed.

Lemma sign_extend_ok l x k :
  (1 <= length l)%nat -> bvden l x ->
  forall t, den t (Z.testbit x (zlen l - 1)) ->
  bvden (l ++ replicate k t) (Sem.sext (zlen l) x (Z.of_nat k)).
Proof.
  intros Hl [Hr Hd] t Ht. unfold Sem.sext, Sem.wrap.
  replace (zlen l + Z.of_nat k) with (zlen (l ++ replicate k t))
    by (rewrite zlen_app; unfold zlen; rewrite length_replicate; lia).
  apply bvden_intro. intros i u Hi. rewrite testbit_signed by (done || unfold zlen in *; lia).
  apply lookup_app_Some in Hi as [Hi | [Hle Hi]].
  - pose proof (lookup_lt_Some _ _ _ Hi). rewrite (proj2 (Z.ltb_lt _ _)) by (unfold zlen; lia). auto.
  - rewrite (proj2 (Z.ltb_ge _ _)) by (unfold zlen; lia). by apply lookup_replicate in Hi as [-> _].
Qed.

Lemma log2_up_bound n : 1 <= n -> n <= 2 ^ Z.log2_up n /\ 0 <= Z.log2_up n <= n.
Proof.
  intros Hn. split; [| split; [apply Z.log2_up_nonneg | apply Z.log2_up_le_lin; lia]].
  destruct (decide (n = 1)) as [->|]; [done |]. apply Z.log2_up_spec. lia.
Qed.

End circuits.

(** ** The strategies *)
Section strategies_ok.
Context {G : Gmp} {HG : GmpSpec G}.
Context {S T : Type} {O : BitOps T} (bb : TBitblaster S T) (e : env).
Context (Inv : S -> Prop) (ext : S -> S -> Prop) {Hext : PreOrder ext}.
(** [D s t b]: in state [s], bit [t] denotes [b]; extending the state keeps it. *)
Context (D : S -> T -> bool -> Prop) {HD : forall s, BitDen O (D s)}.
Hypothesis Dmono : forall s s' t b, ext s s' -> D s t b -> D s' t b.
(** What else the bit-blaster promises of the bits of a subterm. *)
Context (Circ : Node -> list T -> Prop).
Abbreviation wp := (wp Inv ext).

Definition bvd (s : S) (bits : list T) (x : BitVector) : Prop :=
  zlen bits = d_size x /\ bvden (D s) bits (d_value x).

(** What the bit-blaster promises about a subterm, an atom, and its cache. *)
Definition term_ok (c : Node) : Prop :=
  forall x s, eval e c = Some (VBV x) -> Inv s -> wp (bbTerm bb c) (fun s' bits => bvd s' bits x /\ Circ c bits) s.
Definition atom_ok (n : Node) : Prop :=
  forall b s, eval e n = Some (VBool b) -> Inv s ->
  wp (_ ← bbAtom bb n; getBBAtom bb n) (fun s' t => D s' t b) s.
Definition store_ok (n : Node) (bits : list T) : Prop :=
  forall x s, eval e n = Some (VBV x) -> Inv s -> bvd s bits x ->
  wp (storeBBTerm bb n bits) (fun _ _ => True) s.

Lemma bvd_mono s s' l x : ext s s' -> bvd s l x -> bvd s' l x.
Proof. intros He [Hl [Hr Hd]]. split; [done |]. split; [done |]. intros. eapply Dmono; eauto. Qed.

Lemma wp_assert {A} c (f : unit -> SM S A) R s : c = true -> wp (f tt) R s -> wp (sassert c ≫= f) R s.
Proof. intros -> ?. by eapply wp_lift. Qed.

Lemma wp_assertKind {A} k ch (f : unit -> SM S A) R s :
  wp (f tt) R s -> wp (assertKind (MkNode k ch) k ≫= f) R s.
Proof. apply wp_assert. by apply bool_decide_eq_true. Qed.

Lemma wp_bbCircuit {A} node i c x (f : list T -> SM S A) R s :
  children node !! i = Some c -> eval e c = Some (VBV x) -> term_ok c -> Inv s ->
  (forall s' bits, Inv s' -> ext s s' -> bvd s' bits x -> Circ c bits -> wp (f bits) R s') ->
  wp (bbChild bb node i ≫= f) R s.
Proof.
  intros Hc Hx Hok Hi Hf. eapply (wp_bind Inv ext _ _ (fun s' bits => bvd s' bits x /\ Circ c bits)).
  - unfold bbChild. eapply wp_lift; [unfold child; by rewrite Hc | by apply Hok].
  - intros s' bits Hi' He' [Hb Hcirc]. by apply Hf.
Qed.
Lemma wp_bbChild {A} node i c x (f : list T -> SM S A) R s :
  children node !! i = Some c -> eval e c = Some (VBV x) -> term_ok c -> Inv s ->
  (forall s' bits, Inv s' -> ext s s' -> bvd s' bits x -> wp (f bits) R s') ->
  wp (bbChild bb node i ≫= f) R s.
Proof. intros Hc Hx Hok Hi Hf. eapply wp_bbCircuit; eauto. Qed.

(** The last step of a strategy is a computation on the bits. *)
Lemma wp_circuit (m : M (list T)) x s :
  Inv s ->
  (exists l, m = Ok l /\ zlen l = d_size x /\ bvden (D s) l (d_value x)) ->
  wp (lift m) (fun s' bits => bvd s' bits x) s.
Proof. intros Hi (l & -> & Hl & Hd). by eapply wp_lift_end. Qed.

Lemma wp_bit (m : M T) b s :
  Inv s -> (exists t, m = Ok t /\ D s t b) -> wp (lift m) (fun s' t => D s' t b) s.
Proof. intros Hi (l & -> & Hd). by eapply wp_lift_end. Qed.

Lemma bvd_wf s l x : bvd s l x -> 0 <= d_value x < 2 ^ d_size x.
Proof. intros [<- [Hr _]]. done. Qed.

Lemma bvd_len s l n a : bvd s l (MkBitVector n a) -> 1 <= n -> length l = Z.to_nat n /\ (1 <= length l)%nat.
Proof. intros [Hl _] Hn. cbn in Hl. unfold zlen in Hl. lia. Qed.

Lemma zlen_Z l n : length l = Z.to_nat n -> 1 <= n -> zlen (T:=T) l = n.
Proof. unfold zlen. lia. Qed.

Lemma getSizeN_ok node n z : eval e node = Some (bv n z) -> getSizeN node = Ok (Z.to_nat n).
Proof. intros H. unfold getSizeN. by rewrite (eval_getSize e node _ H). Qed.

(** *** Inversion of the operators by their shape *)
Lemma Forall2_two {A B} (P : A -> B -> Prop) l v w :
  Forall2 P l [v; w] -> exists a b, l = [a; b] /\ P a v /\ P b w.
Proof.
  intros H. inversion H as [|a ? ? ? Ha H']; subst. inversion H' as [|b ? ? ? Hb H'']; subst.
  inversion H''; subst. eauto.
Qed.

Lemma eval_bv_range n z c : eval e c = Some (bv n z) -> 1 <= n < 2 ^ 32 /\ rng n z.
Proof. intros H%eval_wf. by apply vwf_bv. Qed.

Lemma eval_two k n a b ch v :
  (forall vs, eval_kind e k vs = Some v -> vs = [bv n a; bv n b]) ->
  eval e (MkNode k ch) = Some v ->
  exists c0 c1, ch = [c0; c1] /\ eval e c0 = Some (bv n a) /\ eval e c1 = Some (bv n b) /\
    1 <= n < 2 ^ 32 /\ rng n a /\ rng n b.
Proof.
  intros H (_ & vs & Hvs & Hk)%eval_MkNode. rewrite (H vs Hk) in Hvs.
  apply Forall2_two in Hvs as (c0 & c1 & -> & H0 & H1).
  pose proof (eval_bv_range _ _ _ H0). pose proof (eval_bv_range _ _ _ H1). clear Circ. naive_solver.
Qed.

Lemma eval_binary_inv k f ch v :
  (forall vs, eval_kind e k vs = bv_binary f vs) -> eval e (MkNode k ch) = Some v ->
  exists n a b c0 c1, v = bv n (f n a b) /\ ch = [c0; c1] /\
    eval e c0 = Some (bv n a) /\ eval e c1 = Some (bv n b) /\ 1 <= n < 2 ^ 32 /\ rng n a /\ rng n b.
Proof.
  intros Hf H. pose proof H as (_ & vs & Hvs & Hk)%eval_MkNode. rewrite Hf in Hk.
  apply bv_binary_Some in Hk as (n & a & b & -> & ->). apply Forall2_two in Hvs as (c0 & c1 & -> & H0 & H1).
  exists n, a, b, c0, c1. pose proof (eval_bv_range _ _ _ H0). pose proof (eval_bv_range _ _ _ H1). clear Circ. naive_solver.
Qed.

Lemma eval_pred_inv k f ch v :
  (forall vs, eval_kind e k vs = bv_pred f vs) -> eval e (MkNode k ch) = Some v ->
  exists n a b c0 c1, v = VBool (f n a b) /\ ch = [c0; c1] /\
    eval e c0 = Some (bv n a) /\ eval e c1 = Some (bv n b) /\ 1 <= n < 2 ^ 32 /\ rng n a /\ rng n b.
Proof.
  intros Hf H. pose proof H as (_ & vs & Hvs & Hk)%eval_MkNode. rewrite Hf in Hk.
  apply bv_pred_Some in Hk as (n & a & b & -> & ->). apply Forall2_two in Hvs as (c0 & c1 & -> & H0 & H1).
  exists n, a, b, c0, c1. pose proof (eval_bv_range _ _ _ H0). pose proof (eval_bv_range _ _ _ H1). clear Circ. naive_solver.
Qed.

Lemma eval_bvpred_inv k f ch v :
  (forall vs, eval_kind e k vs = bv_bvpred f vs) -> eval e (MkNode k ch) = Some v ->
  exists n a b c0 c1, v = bv 1 (Z.b2z (f n a b)) /\ ch = [c0; c1] /\
    eval e c0 = Some (bv n a) /\ eval e c1 = Some (bv n b) /\ 1 <= n < 2 ^ 32 /\ rng n a /\ rng n b.
Proof.
  intros Hf H. pose proof H as (_ & vs & Hvs & Hk)%eval_MkNode. rewrite Hf in Hk.
  apply bv_bvpred_Some in Hk as (n & a & b & -> & ->). apply Forall2_two in Hvs as (c0 & c1 & -> & H0 & H1).
  exists n, a, b, c0, c1. pose proof (eval_bv_range _ _ _ H0). pose proof (eval_bv_range _ _ _ H1). clear Circ. naive_solver.
Qed.

Lemma eval_unary_inv k f ch v :
  (forall vs, eval_kind e k vs = bv_unary f vs) -> eval e (MkNode k ch) = Some v ->
  exists n a c0, v = bv n (f n a) /\ ch = [c0] /\ eval e c0 = Some (bv n a) /\ 1 <= n < 2 ^ 32 /\ rng n a.
Proof.
  intros Hf (_ & vs & Hvs & Hk)%eval_MkNode. rewrite Hf in Hk.
  apply bv_unary_Some in Hk as (n & a & -> & ->). inversion Hvs as [|c0 ? ? ? H0 Hvs']; subst.
  inversion Hvs'; subst. exists n, a, c0. pose proof (eval_bv_range _ _ _ H0). clear Circ. naive_solver.
Qed.

(** The bits of two operands of one width, in the state after both are blasted. *)
Lemma wp_two_circuits {A} node c0 c1 n a b (f : list T -> list T -> SM S A) R s :
  children node = [c0; c1] -> eval e c0 = Some (bv n a) -> eval e c1 = Some (bv n b) ->
  Forall term_ok [c0; c1] -> Inv s -> 1 <= n ->
  (forall s' la lb, Circ c0 la -> Circ c1 lb -> Inv s' -> ext s s' -> length la = Z.to_nat n -> length lb = Z.to_nat n ->
     bvden (D s') la a -> bvden (D s') lb b -> wp (f la lb) R s') ->
  wp (la ← bbChild bb node 0; lb ← bbChild bb node 1; f la lb) R s.
Proof.
  intros Hch H0 H1 [Hc0 [Hc1 _]%Forall_cons]%Forall_cons Hi Hn Hf.
  eapply wp_bbCircuit; [by rewrite Hch | exact H0 | done | done |]. intros s1 la Hi1 He1 Hla Hca.
  eapply wp_bbCircuit; [by rewrite Hch | exact H1 | done | done |]. intros s2 lb Hi2 He2 Hlb Hcb.
  apply (bvd_mono _ _ _ _ He2) in Hla.
  destruct (bvd_len _ _ _ _ Hla Hn), (bvd_len _ _ _ _ Hlb Hn).
  apply Hf; [done | done | done | by etrans | done | done | apply Hla | apply Hlb].
Qed.
Lemma wp_two {A} node c0 c1 n a b (f : list T -> list T -> SM S A) R s :
  children node = [c0; c1] -> eval e c0 = Some (bv n a) -> eval e c1 = Some (bv n b) ->
  Forall term_ok [c0; c1] -> Inv s -> 1 <= n ->
  (forall s' la lb, Inv s' -> ext s s' -> length la = Z.to_nat n -> length lb = Z.to_nat n ->
     bvden (D s') la a -> bvden (D s') lb b -> wp (f la lb) R s') ->
  wp (la ← bbChild bb node 0; lb ← bbChild bb node 1; f la lb) R s.
Proof. intros Hch H0 H1 Hok Hi Hn Hf. eapply wp_two_circuits; eauto. Qed.

Ltac two_children := eapply wp_two; [reflexivity | eassumption | eassumption | eassumption | assumption | lia |];
  intros s' la lb Hi' He' Hla Hlb Hda Hdb; cbv beta.
Ltac two_circuits := eapply wp_two_circuits; [reflexivity | eassumption | eassumption | eassumption | assumption | lia |];
  intros s' la lb Hca Hcb Hi' He' Hla Hlb Hda Hdb; cbv beta.
Ltac kind_check := apply wp_assertKind; cbv beta.
Ltac same_sizes := apply wp_assert; [apply Nat.eqb_eq; lia |]; cbv beta.

Ltac pred_inv H := eapply eval_pred_inv in H as (n & x & y & c0 & c1 & [= Ev] & -> & H0 & H1 & Hn & Hx & Hy);
  [rewrite Ev in * | intros; reflexivity].
Ltac binary_inv H := eapply eval_binary_inv in H as (n & x & y & c0 & c1 & [= Ev] & -> & H0 & H1 & Hn & Hx & Hy);
  [rewrite Ev in * | intros; reflexivity].
Ltac bvpred_inv H := eapply eval_bvpred_inv in H as (n & x & y & c0 & c1 & [= Ev] & -> & H0 & H1 & Hn & Hx & Hy);
  [rewrite Ev in * | intros; reflexivity].

Lemma bnot_lxor_eq n x y :
  0 <= n -> rng n x -> rng n y -> (Sem.bnot n (Z.lxor x y) =? 2 ^ n - 1) = (x =? y).
Proof.
  intros Hn Hx Hy. unfold Sem.bnot.
  destruct (Z.eqb_spec x y) as [->|Hne]; [rewrite Z.lxor_nilpotent; apply Z.eqb_eq; lia |].
  apply Z.eqb_neq. intros E. apply Hne, Z.lxor_eq. lia.
Qed.

(** Equality of two vectors, as [DefaultEqBB] and [DefaultCompBB] build it. *)
Lemma bits_equal_ok s la lb n x y :
  1 <= n -> length la = Z.to_nat n -> length lb = Z.to_nat n -> bvden (D s) la x -> bvden (D s) lb y ->
  rng n x -> rng n y ->
  exists l t, bits_iff la lb = Ok l /\ mkAndV l = Ok t /\ D s t (x =? y).
Proof.
  intros Hn Hla Hlb Hda Hdb Hx Hy.
  destruct (bits_iff_ok la lb x y ltac:(lia) Hda Hdb) as (l & -> & Hl & Hd).
  destruct (mkAndV_ok l _ Hd ltac:(lia)) as (t & Ht & Hdt). exists l, t.
  unfold zlen in Hdt. rewrite Hl in Hdt. replace (Z.of_nat (length la)) with n in Hdt by lia.
  unfold zlen in Hdt. replace (Z.of_nat (length la)) with n in Hdt by lia.
  by rewrite bnot_lxor_eq in Hdt by (done || lia).
Qed.

Lemma DefaultEqBB_ok c0 c1 n x y s :
  eval e c0 = Some (bv n x) -> eval e c1 = Some (bv n y) -> Forall term_ok [c0; c1] -> Inv s ->
  wp (DefaultEqBB bb (MkNode EQUAL [c0; c1])) (fun s' t => D s' t (x =? y)) s.
Proof.
  intros H0 H1 Hch Hi. pose proof (eval_bv_range _ _ _ H0) as [Hn Hx]. pose proof (eval_bv_range _ _ _ H1) as [_ Hy].
  unfold DefaultEqBB. kind_check. two_children. same_sizes.
  destruct (bits_equal_ok s' la lb n x y) as (l & t & El & Et & Hd); [lia | done .. |].
  eapply wp_lift; [exact El |]. apply wp_bit; eauto.
Qed.

Section atoms.
Variables (ch : list Node) (b : bool) (s : S).
Hypothesis Hch : Forall term_ok ch.
Hypothesis Hi : Inv s.

Lemma AdderUltBB_ok :
  eval e (MkNode BITVECTOR_ULT ch) = Some (VBool b) ->
  wp (AdderUltBB bb (MkNode BITVECTOR_ULT ch)) (fun s' t => D s' t b) s.
Proof.
  intros Hev. pred_inv Hev. unfold AdderUltBB. kind_check. two_children. same_sizes.
  destruct (negateBits_ok lb y Hdb) as (nb & Enb & Hlnb & Hdnb). eapply wp_lift; [exact Enb |]. cbv beta.
  destruct (for_from_inv (fun k t => D s' t (carryb x (Sem.bnot (zlen lb) y) true (Z.of_nat k)))
    (fun i carry => ai ← vget la i; nbi ← vget nb i; Ok (mkOr (mkAnd ai nbi) (mkAnd (mkXor ai nbi) carry)))
    (length la) 0 mkTrue) as (co & Eco & Hco).
  - rewrite carryb_0. apply den_true.
  - intros k t Hk Ht. destruct (bvden_get la x k Hda) as (u & -> & Hu); [lia |].
    destruct (bvden_get nb _ k Hdnb) as (w & -> & Hw); [lia |]. eexists. split; [done |].
    replace (Z.of_nat (Datatypes.S k)) with (Z.of_nat k + 1) by lia. rewrite carryb_S by lia.
    apply den_or; [by apply den_and | apply den_and; [by apply den_xor | done]].
  - eapply wp_lift; [exact Eco |]. apply wp_ret; [apply Hext | done |]. unfold Sem.ult, zlen in *.
    rewrite carryb_out in Hco by (unfold rng, Sem.bnot in *; rewrite Nat.add_0_l, Hla, ?Hlb, Z2Nat.id by lia; lia).
    rewrite Nat.add_0_l, Hla, Hlb, Z2Nat.id in Hco by lia. unfold Sem.bnot, rng in *.
    replace (x <? y) with (negb (2 ^ n <=? x + (2 ^ n - 1 - y) + Z.b2z true)); [by apply den_not |].
    cbn [Z.b2z]. destruct (Z.leb_spec (2 ^ n) (x + (2 ^ n - 1 - y) + 1)), (Z.ltb_spec x y); cbn; lia.
Qed.

Lemma DefaultUltBB_ok :
  eval e (MkNode BITVECTOR_ULT ch) = Some (VBool b) ->
  wp (DefaultUltBB bb (MkNode BITVECTOR_ULT ch)) (fun s' t => D s' t b) s.
Proof.
  intros Hev. pred_inv Hev. unfold DefaultUltBB. kind_check. two_children. same_sizes.
  apply wp_bit; [done |]. apply (uLessThanBB_ok la lb x y false); (done || lia).
Qed.

Lemma DefaultUleBB_ok :
  eval e (MkNode BITVECTOR_ULE ch) = Some (VBool b) ->
  wp (DefaultUleBB bb (MkNode BITVECTOR_ULE ch)) (fun s' t => D s' t b) s.
Proof.
  intros Hev. pred_inv Hev. unfold DefaultUleBB. kind_check. two_children. same_sizes.
  apply wp_bit; [done |]. apply (uLessThanBB_ok la lb x y true); (done || lia).
Qed.

Lemma DefaultSltBB_ok :
  eval e (MkNode BITVECTOR_SLT ch) = Some (VBool b) ->
  wp (DefaultSltBB bb (MkNode BITVECTOR_SLT ch)) (fun s' t => D s' t b) s.
Proof.
  intros Hev. pred_inv Hev. unfold DefaultSltBB. two_children. same_sizes.
  apply wp_bit; [done |]. destruct (sLessThanBB_ok (den:=D s') la lb x y false) as (t & Et & Ht); [lia | lia | done | done |].
  rewrite (zlen_Z la n) in Ht by (done || lia). eauto.
Qed.

Lemma DefaultSleBB_ok :
  eval e (MkNode BITVECTOR_SLE ch) = Some (VBool b) ->
  wp (DefaultSleBB bb (MkNode BITVECTOR_SLE ch)) (fun s' t => D s' t b) s.
Proof.
  intros Hev. pred_inv Hev. unfold DefaultSleBB. two_children. same_sizes.
  apply wp_bit; [done |]. destruct (sLessThanBB_ok (den:=D s') la lb x y true) as (t & Et & Ht); [lia | lia | done | done |].
  rewrite (zlen_Z la n) in Ht by (done || lia). eauto.
Qed.
End atoms.

(** *** n-ary operators *)
Lemma eval_nary_inv k f ch v :
  (forall vs, eval_kind e k vs = bv_nary f vs) -> eval e (MkNode k ch) = Some v ->
  exists n a l c0 cs, v = bv n (foldl (f n) a l) /\ ch = c0 :: cs /\ eval e c0 = Some (bv n a) /\
    Forall2 (fun c z => eval e c = Some (bv n z)) cs l /\ 1 <= n < 2 ^ 32 /\ rng n a /\ Forall (rng n) l.
Proof.
  intros Hf (_ & vs & Hvs & Hk)%eval_MkNode. rewrite Hf in Hk.
  apply bv_nary_Some in Hk as (n & a & l & -> & ->). inversion Hvs as [|c0 ? cs ? H0 Hvs']; subst.
  exists n, a, l, c0, cs. apply Forall2_fmap_r in Hvs'. pose proof (eval_bv_range _ _ _ H0) as [Hn Ha].
  do 6 (split; [done |]). eapply Forall2_Forall_r_impl; [exact Hvs' |]. apply Forall_true.
  intros c z Hz. by apply eval_bv_range in Hz as [_ ?].
Qed.

(** The loop over the remaining operands, [body] combining two vectors. *)
Lemma wp_nary_loop k ch n (f : Z -> Z -> Z) a l c0 cs body bits s :
  ch = c0 :: cs -> Forall2 (fun c z => eval e c = Some (bv n z)) cs l -> 1 <= n ->
  Forall term_ok cs -> Inv s -> bvd s bits (MkBitVector n a) ->
  (forall s' la lb x y, length la = Z.to_nat n -> length lb = Z.to_nat n ->
     bvden (D s') la x -> bvden (D s') lb y ->
     exists r, body la lb = Ok r /\ length r = Z.to_nat n /\ bvden (D s') r (f x y)) ->
  wp (sfor (getNumChildren (MkNode k ch) - 1) 1
        (fun j bits => cur ← bbChild bb (MkNode k ch) j; lift (body bits cur)) bits)
     (fun s' r => bvd s' r (MkBitVector n (foldl f a l))) s.
Proof.
  intros -> Hcs Hn Hch Hi Hb Hbody. unfold getNumChildren. cbn [children length].
  replace (Datatypes.S (length cs) - 1)%nat with (length cs) by lia.
  eapply wp_mono; [eapply (wp_for Inv ext (fun j s' r => bvd s' r (MkBitVector n (foldl f a (take (j - 1) l))))) |].
  - done.
  - cbn. by rewrite firstn_O.
  - intros j t r Hj Ht He Hr.
    destruct (lookup_lt_is_Some_2 cs (j - 1)) as [c Hc]; [lia |].
    destruct (Forall2_lookup_l _ _ _ _ _ Hcs Hc) as (z & Hz & Hev).
    eapply wp_bbChild; [| exact Hev | by eapply Forall_lookup_1 | done |].
    { cbn. destruct j as [|j]; [lia |]. cbn. by replace (Datatypes.S j - 1)%nat with j in Hc by lia. }
    intros u cur Hu Heu Hcur. apply (bvd_mono _ _ _ _ Heu) in Hr.
    destruct (bvd_len _ _ _ _ Hr Hn) as [Hlr _], (bvd_len _ _ _ _ Hcur Hn) as [Hlc _].
    destruct (Hbody u r cur _ _ Hlr Hlc (proj2 Hr) (proj2 Hcur)) as (r' & Er & Hlr' & Hdr).
    apply wp_circuit; [done |]. exists r'. split; [done |]. split; [by apply zlen_Z |].
    replace (Datatypes.S j - 1)%nat with (Datatypes.S (j - 1)) by lia.
    rewrite (take_S_r _ _ z Hz). cbn. by rewrite foldl_app.
  - intros s' r _ _ Hr. cbv beta in Hr. rewrite take_ge in Hr; [done |].
    rewrite <- (Forall2_length _ _ _ Hcs). lia.
Qed.

Lemma wp_check_size k ch n z bits s :
  eval e (MkNode k ch) = Some (bv n z) -> 1 <= n -> Inv s -> bvd s bits (MkBitVector n z) ->
  wp (m ← lift (getSizeN (MkNode k ch)); _ ← sassert (length bits =? m)%nat; mret bits)
     (fun s' r => bvd s' r (MkBitVector n z)) s.
Proof.
  intros Hev Hn Hi Hb. eapply wp_lift; [by eapply getSizeN_ok |].
  apply wp_assert; [apply Nat.eqb_eq; by destruct (bvd_len _ _ _ _ Hb Hn) |].
  apply wp_ret; [apply Hext | done | done].
Qed.

(** Pointwise combination of two vectors. *)
Lemma pointwise_ok s op (g : bool -> bool -> bool) (f : Z -> Z -> Z) n la lb x y :
  (forall a b u v, D s a u -> D s b v -> D s (op a b) (g u v)) ->
  (forall i, 0 <= i -> Z.testbit (f x y) i = g (Z.testbit x i) (Z.testbit y i)) ->
  0 <= f x y < 2 ^ Z.of_nat n ->
  length la = n -> length lb = n -> bvden (D s) la x -> bvden (D s) lb y ->
  exists r, for_from n 0 (fun i bits => u ← vget bits i; v ← vget lb i; vset bits i (op u v)) la = Ok r /\
    length r = n /\ bvden (D s) r (f x y).
Proof.
  intros Hop Hf Hr Hla Hlb Ha Hb.
  destruct (update_loop (den:=D s) n (fun i bits => u ← vget bits i; v ← vget lb i; vset bits i (op u v)) la x (f x y))
    as (r & -> & Hlr & Hd); [done | done | |].
  - intros i l t Hi Hl Ht Hdt. rewrite (vget_Ok _ _ _ Ht), M_bind_Ok.
    destruct (bvden_get lb y i Hb) as (u & -> & Hu); [lia |]. rewrite M_bind_Ok, vset_Ok by lia.
    eexists. split; [done |]. rewrite Hf by lia. by apply Hop.
  - rewrite Z.mod_small in Hd by done. eauto.
Qed.

Lemma nary_bitwise_ok k op (g : bool -> bool -> bool) (f : Z -> Z -> Z) ch v s :
  (forall vs, eval_kind e k vs = bv_nary (fun _ => f) vs) ->
  (forall s a b u v, D s a u -> D s b v -> D s (op a b) (g u v)) ->
  (forall x y i, 0 <= i -> Z.testbit (f x y) i = g (Z.testbit x i) (Z.testbit y i)) ->
  (forall n x y, rng n x -> rng n y -> rng n (f x y)) ->
  eval e (MkNode k ch) = Some (VBV v) -> Forall term_ok ch -> Inv s ->
  wp (nary_bitwise bb op (MkNode k ch)) (fun s' bits => bvd s' bits v) s.
Proof.
  intros Hk Hop Hbit Hrng Hev Hch Hi. pose proof Hev as Hev'.
  eapply eval_nary_inv in Hev as (n & a & l & c0 & cs & [= Ev] & -> & H0 & Hcs & Hn & Ha & Hl); [| exact Hk].
  subst v.
  apply Forall_cons in Hch as [Hc0 Hch]. unfold nary_bitwise.
  eapply wp_bbChild; [reflexivity | exact H0 | done | done |]. intros s1 bits Hi1 He1 Hb.
  eapply wp_bind; [apply Hext | |].
  - eapply (wp_nary_loop k _ n f a l c0 cs (fun bits current => m ← getSizeN (MkNode k (c0 :: cs));
             for_from m 0 (fun i bits => x ← vget bits i; y ← vget current i; vset bits i (op x y)) bits));
      [done | done | lia | done | done | exact Hb |].
    intros s' la lb x y Hla Hlb Hda Hdb. rewrite (getSizeN_ok _ _ _ Hev'), M_bind_Ok.
    apply (pointwise_ok s' op g f); [by apply Hop | by apply Hbit | | done | done | done | done].
    destruct Hda as [Hx _], Hdb as [Hy _]. unfold zlen in *. rewrite Hla in Hx. rewrite Hlb in Hy. by apply Hrng.
  - intros s2 r Hi2 He2 Hr. eapply wp_check_size; [exact Hev' | lia | done | done].
Qed.

(** *** Terms *)
Lemma DefaultConstBB_ok x s :
  eval e (ConstBV x) = Some (VBV x) -> Inv s ->
  wp (DefaultConstBB (ConstBV x)) (fun s' bits => bvd s' bits x) s.
Proof.
  intros Hev Hi. destruct x as [n a]. pose proof (eval_bv_range _ _ _ Hev) as [Hn Ha].
  unfold DefaultConstBB. apply wp_assert; [done |]. apply wp_circuit; [done |].
  rewrite (getSizeN_ok _ _ _ Hev), M_bind_Ok. unfold getConstBV. rewrite M_bind_Ok.
  match goal with |- exists _, for_from _ _ ?body _ = _ /\ _ =>
    destruct (push_loop (den:=D s) (Z.to_nat n) body a) as (l & -> & Hl & Hd) end.
  - intros i l Hil _. rewrite extract_ok by (unfold rng in *; lia). cbn [d_value].
    unfold Sem.extract. replace (Z.of_nat i - Z.of_nat i + 1) with 1 by lia. change (2 ^ 1) with 2.
    rewrite <- Z.testbit_spec' by lia. destruct (Z.testbit a (Z.of_nat i)); cbn; eexists; (split; [done |]).
    + apply den_true.
    + apply den_false.
  - exists l. split; [done |]. split; [apply zlen_Z; [done | cbn; lia] |].
    eapply bvden_eq; [exact Hd |]. rewrite Z2Nat.id by lia. by apply Z.mod_small.
Qed.

Section terms.
Variables (ch : list Node) (v : BitVector) (s : S).
Hypothesis Hch : Forall term_ok ch.
Hypothesis Hi : Inv s.
Abbreviation blasts strat k :=
  (eval e (MkNode k ch) = Some (VBV v) -> wp (strat (MkNode k ch)) (fun s' bits => bvd s' bits v) s).

Lemma DefaultAndBB_ok : blasts (DefaultAndBB bb) BITVECTOR_AND.
Proof.
  intros Hev. unfold DefaultAndBB. kind_check. eapply (nary_bitwise_ok _ mkAnd andb Z.land); try done.
  - intros. by apply den_and.
  - intros. apply Z.land_spec.
  - intros n x y Hx Hy. destruct (decide (0 <= n)); [by apply wf_land |]. unfold rng in *. rewrite Z.pow_neg_r in * by lia. lia.
Qed.

Lemma DefaultOrBB_ok : blasts (DefaultOrBB bb) BITVECTOR_OR.
Proof.
  intros Hev. unfold DefaultOrBB. kind_check. eapply (nary_bitwise_ok _ mkOr orb Z.lor); try done.
  - intros. by apply den_or.
  - intros. apply Z.lor_spec.
  - intros n x y Hx Hy. destruct (decide (0 <= n)); [by apply wf_lor |]. unfold rng in *. rewrite Z.pow_neg_r in * by lia. lia.
Qed.

Lemma DefaultXorBB_ok : blasts (DefaultXorBB bb) BITVECTOR_XOR.
Proof.
  intros Hev. unfold DefaultXorBB. kind_check. eapply (nary_bitwise_ok _ mkXor xorb Z.lxor); try done.
  - intros. by apply den_xor.
  - intros. apply Z.lxor_spec.
  - intros n x y Hx Hy. destruct (decide (0 <= n)); [by apply wf_lxor |]. unfold rng in *. rewrite Z.pow_neg_r in * by lia. lia.
Qed.

Lemma DefaultNotBB_ok : blasts (DefaultNotBB bb) BITVECTOR_NOT.
Proof.
  intros Hev. eapply eval_unary_inv in Hev as (n & x & c0 & [= Ev] & -> & H0 & Hn & Hx); [rewrite Ev in * | done].
  unfold DefaultNotBB. kind_check. eapply wp_bbChild; [done | exact H0 | by eapply Forall_inv | done |].
  intros s1 la Hi1 He1 Hla. apply wp_circuit; [done |]. destruct Hla as [Hl Hd].
  destruct (negateBits_ok la _ Hd) as (l & -> & Hll & Hdl). exists l. split; [done |].
  unfold zlen in *. rewrite Hll. split; [done |]. cbn in *. by rewrite Hl in Hdl.
Qed.

Lemma DefaultXnorBB_ok : blasts (DefaultXnorBB bb) BITVECTOR_XNOR.
Proof.
  intros Hev. binary_inv Hev. unfold DefaultXnorBB. apply wp_assert; [done |]. kind_check.
  two_children. same_sizes. apply wp_circuit; [done |].
  destruct (bits_iff_ok la lb x y ltac:(lia) Hda Hdb) as (l & -> & Hl & Hd).
  exists l. split; [done |]. cbn. unfold zlen in *. rewrite Hl. replace (Z.of_nat (length la)) with n in * by lia. done.
Qed.

Lemma single_bit_bvd s' t b : D s' t b -> bvd s' [t] (MkBitVector 1 (Z.b2z b)).
Proof.
  intros Ht. split; [done |]. split; [by destruct b |]. intros [|i] u Hu; [| done].
  injection Hu as <-. cbn. by destruct b.
Qed.

Lemma DefaultCompBB_ok : blasts (DefaultCompBB bb) BITVECTOR_COMP.
Proof.
  intros Hev. pose proof Hev as Hev'. bvpred_inv Hev. unfold DefaultCompBB.
  eapply wp_lift; [by eapply getSizeN_ok |]. apply wp_assert; [done |]. kind_check. two_children.
  destruct (bits_equal_ok s' la lb n x y) as (l & t & El & Et & Hd); [lia | done .. |].
  eapply wp_lift; [exact El |]. eapply wp_lift; [exact Et |].
  apply wp_ret; [apply Hext | done |]. by apply single_bit_bvd.
Qed.

Lemma DefaultUltbvBB_ok : blasts (DefaultUltbvBB bb) BITVECTOR_ULTBV.
Proof.
  intros Hev. bvpred_inv Hev. unfold DefaultUltbvBB. kind_check. two_children. same_sizes.
  destruct (uLessThanBB_ok (den:=D s') la lb x y false) as (t & Et & Ht); [lia | lia | done | done |].
  rewrite Et. eapply wp_lift_end; [apply Hext | done | done |]. by apply single_bit_bvd.
Qed.

Lemma DefaultSltbvBB_ok : blasts (DefaultSltbvBB bb) BITVECTOR_SLTBV.
Proof.
  intros Hev. bvpred_inv Hev. unfold DefaultSltbvBB. kind_check. two_children. same_sizes.
  destruct (sLessThanBB_ok (den:=D s') la lb x y false) as (t & Et & Ht); [lia | lia | done | done |].
  rewrite Et. rewrite (zlen_Z la n) in Ht by (done || lia).
  eapply wp_lift_end; [apply Hext | done | done |]. by apply single_bit_bvd.
Qed.

Lemma DefaultMultBB_ok : blasts (DefaultMultBB bb) BITVECTOR_MULT.
Proof.
  intros Hev. eapply eval_nary_inv in Hev as (n & a & l & c0 & cs & [= ->] & -> & H0 & Hcs & Hn & Ha & Hl); [| done].
  apply Forall_cons in Hch as [Hc0 Hch']. unfold DefaultMultBB. kind_check.
  eapply wp_bbChild; [done | exact H0 | done | done |]. intros s1 bits Hi1 He1 Hb.
  eapply (wp_nary_loop _ _ n (Sem.mul n) a l c0 cs (fun res cur => shiftAddMultiplier res cur []));
    [done | done | lia | done | done | exact Hb |].
  intros s' la lb x y Hla Hlb Hda Hdb.
  destruct (shiftAddMultiplier_ok (den:=D s') la lb x y) as (r & -> & Hlr & Hd); [lia | lia | done | done |].
  exists r. split; [done |]. split; [lia |]. by rewrite (zlen_Z la n) in Hd by (done || lia).
Qed.

Lemma DefaultPlusBB_ok : blasts (DefaultPlusBB bb) BITVECTOR_PLUS.
Proof.
  intros Hev. pose proof Hev as Hev'.
  eapply eval_nary_inv in Hev as (n & a & l & c0 & cs & [= Ev] & -> & H0 & Hcs & Hn & Ha & Hl); [rewrite Ev in * | done].
  apply Forall_cons in Hch as [Hc0 Hch']. unfold DefaultPlusBB. kind_check.
  eapply wp_bbChild; [done | exact H0 | done | done |]. intros s1 bits Hi1 He1 Hb.
  eapply wp_bind; [apply Hext | |].
  - eapply (wp_nary_loop _ _ n (Sem.add n) a l c0 cs
      (fun res cur => '(newres, _) ← rippleCarryAdder res cur [] mkFalse; Ok newres));
      [done | done | lia | done | done | exact Hb |].
    intros s' la lb x y Hla Hlb Hda Hdb.
    destruct (rippleCarryAdder_ok (den:=D s') la lb x y mkFalse false) as (r & co & -> & Hlr & Hd & _);
      [lia | done | done | apply den_false |].
    exists r. split; [done |]. split; [lia |]. rewrite (zlen_Z la n) in Hd by (done || lia).
    cbn [Z.b2z] in Hd. by rewrite Z.add_0_r in Hd.
  - intros s2 r Hi2 He2 Hr. eapply wp_check_size; [exact Hev' | lia | done | done].
Qed.

Lemma DefaultSubBB_ok : blasts (DefaultSubBB bb) BITVECTOR_SUB.
Proof.
  intros Hev. pose proof Hev as Hev'. binary_inv Hev. unfold DefaultSubBB. kind_check.
  apply wp_assert; [done |]. two_children. eapply wp_lift; [by eapply getSizeN_ok |].
  apply wp_assert; [apply andb_true_iff; split; apply Nat.eqb_eq; lia |]. apply wp_circuit; [done |].
  destruct (negateBits_ok lb y Hdb) as (nb & -> & Hlnb & Hdnb). rewrite M_bind_Ok.
  destruct (subtract_ok (den:=D s') (Z.to_nat n) la lb nb x y) as (r & co & -> & Hlr & Hd & _); try done; try lia.
  { rewrite Z2Nat.id by lia. done. }
  exists r. split; [done |]. split; [apply zlen_Z; [done | cbn; lia] |]. cbn. by rewrite Z2Nat.id in Hd by lia.
Qed.

Lemma DefaultNegBB_ok : blasts (DefaultNegBB bb) BITVECTOR_NEG.
Proof.
  intros Hev. pose proof Hev as Hev'.
  eapply eval_unary_inv in Hev as (n & x & c0 & [= Ev] & -> & H0 & Hn & Hx); [rewrite Ev in * | done].
  unfold DefaultNegBB. kind_check. eapply wp_bbChild; [done | exact H0 | by eapply Forall_inv | done |].
  intros s1 la Hi1 He1 Hla. destruct (bvd_len _ _ _ _ Hla ltac:(lia)) as [Hl Hl1]. destruct Hla as [_ Hda].
  eapply wp_lift; [by eapply getSizeN_ok |]. apply wp_assert; [apply Nat.eqb_eq; lia |].
  apply wp_circuit; [done |].
  destruct (negateBits_ok la _ Hda) as (nb & -> & Hlnb & Hdnb). rewrite M_bind_Ok.
  destruct (makeZero_ok (den:=D s1) (Z.to_nat n)) as (z & -> & Hlz & Hdz). rewrite M_bind_Ok.
  destruct (rippleCarryAdder_ok nb z _ _ mkTrue true ltac:(lia) Hdnb Hdz den_true) as (r & co & -> & Hlr & Hd & _).
  exists r. split; [done |]. split; [apply zlen_Z; cbn; lia |]. cbn [d_value Z.b2z] in *.
  rewrite (zlen_Z nb n), (zlen_Z la n) in Hd by lia. eapply bvden_eq; [exact Hd |].
  unfold Sem.neg, Sem.wrap, Sem.bnot. replace (2 ^ n - 1 - x + 0 + 1) with (- x + 1 * 2 ^ n) by lia.
  apply Z.mod_add. pose proof (pow2_gt0 n). lia.
Qed.

Lemma DefaultUdivBB_ok :
  (forall c0 c1 a b q r, ch = [c0; c1] -> Circ c0 a -> Circ c1 b ->
     udivrem (MkNode BITVECTOR_UDIV_TOTAL ch) a b = Ok (q, r) -> store_ok (MkNode BITVECTOR_UREM_TOTAL [c0; c1]) r) ->
  blasts (DefaultUdivBB bb) BITVECTOR_UDIV_TOTAL.
Proof.
  intros Hst Hev. pose proof Hev as Hev'. binary_inv Hev. unfold DefaultUdivBB. kind_check. two_circuits.
  destruct (udivrem_ok (den:=D s') (MkNode BITVECTOR_UDIV_TOTAL [c0; c1]) la lb x y (Z.to_nat n))
    as (q & r & Eqr & Hlq & Hlr & Hdq & Hdr); [by eapply getSizeN_ok | lia | lia | lia | done | done |].
  rewrite Z2Nat.id in Hdq, Hdr by lia. eapply wp_lift; [exact Eqr |]. cbv beta iota.
  eapply wp_lift; [done |]. eapply wp_lift; [done |].
  eapply wp_bind; [apply Hext | apply (Hst c0 c1 la lb q r eq_refl Hca Hcb Eqr (MkBitVector n (Sem.urem n x y))) |].
  - apply eval_MkNode. split; [done |]. exists [bv n x; bv n y].
    split; [by repeat constructor | by apply bv_binary_Some; eauto 10].
  - done.
  - split; [apply zlen_Z; [done | cbn; lia] | done].
  - intros s2 _ Hi2 He2 _. apply wp_ret; [apply Hext | done |]. eapply bvd_mono; [exact He2 |].
    split; [apply zlen_Z; [done | cbn; lia] | done].
Qed.

Lemma DefaultUremBB_ok :
  (forall c0 c1 a b q r, ch = [c0; c1] -> Circ c0 a -> Circ c1 b ->
     udivrem (MkNode BITVECTOR_UREM_TOTAL ch) a b = Ok (q, r) -> store_ok (MkNode BITVECTOR_UDIV_TOTAL [c0; c1]) q) ->
  blasts (DefaultUremBB bb) BITVECTOR_UREM_TOTAL.
Proof.
  intros Hst Hev. pose proof Hev as Hev'. binary_inv Hev. unfold DefaultUremBB. kind_check. two_circuits.
  destruct (udivrem_ok (den:=D s') (MkNode BITVECTOR_UREM_TOTAL [c0; c1]) la lb x y (Z.to_nat n))
    as (q & r & Eqr & Hlq & Hlr & Hdq & Hdr); [by eapply getSizeN_ok | lia | lia | lia | done | done |].
  rewrite Z2Nat.id in Hdq, Hdr by lia. eapply wp_lift; [exact Eqr |]. cbv beta iota.
  eapply wp_lift; [done |]. eapply wp_lift; [done |].
  eapply wp_bind; [apply Hext | apply (Hst c0 c1 la lb q r eq_refl Hca Hcb Eqr (MkBitVector n (Sem.udiv n x y))) |].
  - apply eval_MkNode. split; [done |]. exists [bv n x; bv n y].
    split; [by repeat constructor | by apply bv_binary_Some; eauto 10].
  - done.
  - split; [apply zlen_Z; [done | cbn; lia] | done].
  - intros s2 _ Hi2 He2 _. apply wp_ret; [apply Hext | done |]. eapply bvd_mono; [exact He2 |].
    split; [apply zlen_Z; [done | cbn; lia] | done].
Qed.

(** The guard of the shifters compares the amount with the width. *)
Lemma wp_shift_guard {A} k c0 c1 n x y z (f : T -> SM S A) R s1 :
  eval e (MkNode k [c0; c1]) = Some (bv n z) -> eval e c0 = Some (bv n x) -> eval e c1 = Some (bv n y) ->
  atom_ok (MkNode BITVECTOR_ULT [c1; ConstBV (BV.mk n n)]) -> Inv s1 ->
  (forall s' t, Inv s' -> ext s1 s' -> D s' t (y <? n) -> wp (f t) R s') ->
  wp (shift_guard bb (MkNode k [c0; c1]) ≫= f) R s1.
Proof.
  intros Hev H0 H1 Hat Hi1 Hf. pose proof (eval_bv_range _ _ _ H1) as [Hn Hy].
  unfold shift_guard. eapply wp_bind; [apply Hext | | exact Hf].
  eapply wp_lift; [unfold b_ult_a_size_node; by rewrite (eval_getSize e _ _ Hev) |]. cbn [d_size].
  apply Hat; [| done]. apply eval_MkNode. split; [done |].
  assert (n < 2 ^ n) by (apply Z.pow_gt_lin_r; lia).
  exists [bv n y; bv n n]. split; [| by apply bv_pred_Some; eauto 10].
  repeat constructor; [done |]. rewrite mk_small by lia. cbn. rewrite decide_True; [done |]. unfold wf. cbn. lia.
Qed.

Definition guard_ok (k : Kind) : Prop :=
  forall c0 c1 n, ch = [c0; c1] -> getSize (MkNode k ch) = Ok n ->
  atom_ok (MkNode BITVECTOR_ULT [c1; ConstBV (BV.mk n n)]).

(** The part the three shifters share: operands, number of stages, guard. *)
Lemma wp_shift {A} k c0 c1 n x y z (f : list T -> list T -> nat -> T -> SM S A) R :
  guard_ok k -> ch = [c0; c1] ->
  eval e (MkNode k ch) = Some (bv n z) -> eval e c0 = Some (bv n x) -> eval e c1 = Some (bv n y) ->
  (forall s' la lb g, Inv s' -> length la = Z.to_nat n -> length lb = Z.to_nat n ->
     bvden (D s') la x -> bvden (D s') lb y -> D s' g (y <? n) ->
     wp (f la lb (Z.to_nat (Z.log2_up n)) g) R s') ->
  wp (la ← bbChild bb (MkNode k ch) 0; lb ← bbChild bb (MkNode k ch) 1;
      L ← lift (log2_size (MkNode k ch)); g ← shift_guard bb (MkNode k ch); f la lb L g) R s.
Proof.
  intros Hg Ech Hev H0 H1 Hf. pose proof (eval_getSize e _ _ Hev) as Hsz.
  specialize (Hg c0 c1 n Ech Hsz). rewrite Ech in *.
  pose proof (eval_bv_range _ _ _ H0) as [Hn Hx]. two_children.
  eapply wp_lift; [unfold log2_size; by rewrite Hsz |].
  eapply wp_shift_guard; [exact Hev | exact H0 | exact H1 | exact Hg | done |].
  intros s1 g Hi1 He1 Hgd.
  assert (bvd s1 la (MkBitVector n x)) as [_ Ha1].
  { eapply bvd_mono; [exact He1 |]. split; [apply zlen_Z; [done | cbn; lia] | done]. }
  assert (bvd s1 lb (MkBitVector n y)) as [_ Hb1].
  { eapply bvd_mono; [exact He1 |]. split; [apply zlen_Z; [done | cbn; lia] | done]. }
  by apply Hf.
Qed.

Lemma DefaultShlBB_ok : guard_ok BITVECTOR_SHL -> blasts (DefaultShlBB bb) BITVECTOR_SHL.
Proof.
  intros Hg0 Hev. pose proof Hev as Hev'. eapply eval_binary_inv in Hev
    as (n & x & y & c0 & c1 & [= Ev] & Ech & H0 & H1 & Hn & Hx & Hy); [rewrite Ev in * | done].
  unfold DefaultShlBB. kind_check. eapply wp_shift; [done | done | exact Hev' | done | done |].
  intros s1 la lb g Hi1 Hla Hlb Hda1 Hdb1 Hg.
  pose proof (log2_up_bound n ltac:(lia)) as [HL1 HL2].
  destruct (shl_barrel_ok (den:=D s1) la lb x y (Z.to_nat n) (Z.to_nat (Z.log2_up n)))
    as (res & Er & Hlr & Hdr); [done | done | lia | done | done |].
  eapply wp_lift; [exact Er |]. cbv beta. apply wp_circuit; [done |].
  destruct (shift_out_ok (den:=D s1) g mkFalse lb res _ (y <? n) false (Z.to_nat n) Hlb Hlr Hdr Hg den_false)
    as (l & -> & Hl & Hd).
  exists l. split; [done |]. split; [apply zlen_Z; [done | cbn; lia] |].
  eapply bvden_eq; [exact Hd |]. cbn [d_value]. unfold Sem.shl, Sem.wrap. rewrite !Z2Nat.id by lia.
  destruct (Z.ltb_spec y n), (Z.leb_spec n y); try lia; [| done]. unfold rng in *.
  rewrite (Z.mod_small y) by lia. apply Z.mod_mod. pose proof (pow2_gt0 n). lia.
Qed.

Lemma DefaultLshrBB_ok : guard_ok BITVECTOR_LSHR -> blasts (DefaultLshrBB bb) BITVECTOR_LSHR.
Proof.
  intros Hg0 Hev. pose proof Hev as Hev'. eapply eval_binary_inv in Hev
    as (n & x & y & c0 & c1 & [= Ev] & Ech & H0 & H1 & Hn & Hx & Hy); [rewrite Ev in * | done].
  unfold DefaultLshrBB. kind_check. eapply wp_shift; [done | done | exact Hev' | done | done |].
  intros s1 la lb g Hi1 Hla Hlb Hda1 Hdb1 Hg.
  pose proof (log2_up_bound n ltac:(lia)) as [HL1 HL2]. unfold rng in *.
  destruct (shr_barrel_ok (den:=D s1) mkFalse false la lb x y (Z.to_nat n) (Z.to_nat (Z.log2_up n)))
    as (res & Er & Hlr & Hdr); [done | done | lia | | done | apply den_false | |].
  { rewrite Z2Nat.id by lia. by rewrite Z.mod_small. }
  { intros j Hj. apply (testbit_high x n); lia. }
  eapply wp_lift; [exact Er |]. cbv beta. apply wp_circuit; [done |].
  destruct (shift_out_ok (den:=D s1) g mkFalse lb res _ (y <? n) false (Z.to_nat n) Hlb Hlr Hdr Hg den_false)
    as (l & -> & Hl & Hd).
  exists l. split; [done |]. split; [apply zlen_Z; [done | cbn; lia] |].
  eapply bvden_eq; [exact Hd |]. cbn [d_value]. unfold Sem.lshr, Sem.wrap. rewrite !Z2Nat.id by lia.
  destruct (Z.ltb_spec y n), (Z.leb_spec n y); try lia; [| done].
  rewrite (Z.mod_small y) by lia. pose proof (pow2_gt0 y).
  assert (0 <= x / 2 ^ y < 2 ^ n) by (split; [apply Z.div_pos; lia | apply Z.div_lt_upper_bound; nia]).
  rewrite (Z.mod_small (x / 2 ^ y)) by done. by apply Z.mod_small.
Qed.

Lemma DefaultAshrBB_ok : guard_ok BITVECTOR_ASHR -> blasts (DefaultAshrBB bb) BITVECTOR_ASHR.
Proof.
  intros Hg0 Hev. pose proof Hev as Hev'. eapply eval_binary_inv in Hev
    as (n & x & y & c0 & c1 & [= Ev] & Ech & H0 & H1 & Hn & Hx & Hy); [rewrite Ev in * | done].
  unfold DefaultAshrBB. kind_check. eapply wp_shift; [done | done | exact Hev' | done | done |].
  intros s1 la lb g Hi1 Hla Hlb Hda1 Hdb1 Hg.
  pose proof (log2_up_bound n ltac:(lia)) as [HL1 HL2]. unfold rng in *.
  destruct (bvden_get la x (length la - 1) Hda1) as (sg & Esg & Hsg); [lia |].
  replace (Z.of_nat (length la - 1)) with (n - 1) in Hsg by lia.
  eapply wp_lift; [exact Esg |]. cbv beta.
  destruct (shr_barrel_ok (den:=D s1) sg (Z.testbit x (n - 1)) la lb (Sem.signed n x) y (Z.to_nat n) (Z.to_nat (Z.log2_up n)))
    as (res & Er & Hlr & Hdr); [done | done | lia | | done | done | |].
  { rewrite Z2Nat.id by lia. by rewrite signed_mod by lia. }
  { intros j Hj. rewrite testbit_signed by lia. by rewrite (proj2 (Z.ltb_ge _ _)) by lia. }
  eapply wp_lift; [exact Er |]. cbv beta. apply wp_circuit; [done |].
  destruct (shift_out_ok (den:=D s1) g sg lb res _ (y <? n) (Z.testbit x (n - 1)) (Z.to_nat n) Hlb Hlr Hdr Hg Hsg)
    as (l & -> & Hl & Hd).
  exists l. split; [done |]. split; [apply zlen_Z; [done | cbn; lia] |].
  eapply bvden_eq; [exact Hd |]. cbn [d_value]. unfold Sem.ashr, Sem.wrap. rewrite !Z2Nat.id by lia.
  pose proof (pow2_gt0 n). rewrite signed_sign_bit by lia.
  destruct (Z.ltb_spec y n), (Z.leb_spec n y); try lia.
  - rewrite (Z.mod_small y) by lia. apply Z.mod_mod. lia.
  - destruct (Z.testbit x (n - 1)); [| done]. apply mod_unique_bound; [lia |]. exists (-1). lia.
Qed.

(** The vector that the last [k] children make up. *)
Definition concat_bv (bs : list BitVector) : BitVector :=
  let '(n, z) := concat_vals bs in MkBitVector n z.

Lemma concat_bv_cons b bs :
  concat_bv (b :: bs) =
  MkBitVector (d_size b + d_size (concat_bv bs))
              (Sem.concat (d_value b) (d_size (concat_bv bs)) (d_value (concat_bv bs))).
Proof. unfold concat_bv. cbn. by destruct (concat_vals bs). Qed.

Lemma DefaultConcatBB_ok : blasts (DefaultConcatBB bb) BITVECTOR_CONCAT.
Proof.
  intros Hev. pose proof (eval_getSize e _ _ Hev) as Hsz.
  apply eval_MkNode in Hev as (_ & vs & Hvs & Hk).
  apply bind_Some in Hk as (bs & ->%as_bvlist_Some & Hk). apply Forall2_fmap_r in Hvs.
  assert (v = concat_bv bs /\ 1 <= d_size v) as [Hv Hn].
  { unfold concat_bv. destruct (concat_vals bs) as [n z]. apply fit_Some in Hk as [? [= ->]]. split; [done | cbn; lia]. }
  unfold DefaultConcatBB. kind_check. unfold getNumChildren. cbn [children].
  eapply wp_bind; [apply Hext | |].
  - eapply (wp_for Inv ext (fun k s' bits => bvd s' bits (concat_bv (drop (length ch - k) bs)))); [done | |].
    + rewrite Nat.sub_0_r, drop_ge by (rewrite (Forall2_length _ _ _ Hvs); lia).
      split; [done |]. apply bvden_nil.
    + intros k t bits Hk' Ht He Hb. set (i := (length ch - 1 - k)%nat).
      destruct (lookup_lt_is_Some_2 ch i) as [c Hc]; [lia |].
      destruct (Forall2_lookup_l _ _ _ _ _ Hvs Hc) as (b & Hbi & Hevc).
      eapply wp_lift; [unfold child; cbn; by rewrite Hc |].
      eapply wp_bind; [apply Hext | apply (Forall_lookup_1 _ _ _ _ Hch Hc); [exact Hevc | done] |].
      intros u cur Hu Heu [Hcur _]. apply (bvd_mono _ _ _ _ Heu) in Hb.
      apply wp_circuit; [done |]. destruct b as [nb zb]. rewrite (getSizeN_ok _ _ _ Hevc), M_bind_Ok.
      pose proof (eval_bv_range _ _ _ Hevc) as [Hnb _].
      destruct (bvd_len _ _ _ _ Hcur ltac:(lia)) as [Hlc _].
      rewrite append_loop, take_ge by lia. exists (bits ++ cur). split; [done |].
      replace (length ch - Datatypes.S k)%nat with i by lia. rewrite (drop_S _ _ _ Hbi), concat_bv_cons.
      replace (Datatypes.S i) with (length ch - k)%nat by lia. destruct Hb as [Hl1 Hd1], Hcur as [Hl2 Hd2].
      cbn [d_size d_value] in *. split; [rewrite zlen_app; lia |].
      rewrite <- Hl1. by apply bvden_app.
  - intros s2 bits Hi2 He2 Hb. cbn in Hb. rewrite Nat.sub_diag, drop_0, <- Hv in Hb.
    eapply wp_lift; [unfold getSizeN; by rewrite Hsz |]. destruct v as [n z].
    apply wp_assert; [apply Nat.eqb_eq; by destruct (bvd_len _ _ _ _ Hb Hn) |].
    apply wp_ret; [apply Hext | done | done].
Qed.

Lemma DefaultIteBB_ok : blasts (DefaultIteBB bb) BITVECTOR_ITE.
Proof.
  intros (_ & vs & Hvs & Hk)%eval_MkNode. cbn in Hk.
  destruct vs as [|[|[m c]] [|x [|y [|]]]]; try done. cbn [d_size d_value] in Hk.
  destruct (Z.eqb_spec m 1) as [->|]; [| done]. cbn [andb] in Hk. destruct (same_type x y) eqn:Hxy; [| done].
  apply same_type_spec in Hxy.
  assert (exists n a b, x = bv n a /\ y = bv n b /\ v = MkBitVector n (if c =? 1 then a else b))
    as (n & a & b & -> & -> & Ev).
  { destruct x as [|[n a]], y as [|[n' zb]]; try done; destruct (c =? 1); try done; cbn in Hxy;
      injection Hxy as <-; injection Hk as <-; eauto 10. }
  rewrite Ev in *. inversion Hvs as [|c0 ? ? ? H0 Hvs']; subst.
  apply Forall2_two in Hvs' as (c1 & c2 & -> & H1 & H2).
  apply Forall_cons in Hch as [Hc0 [Hc1 [Hc2 _]%Forall_cons]%Forall_cons].
  pose proof (eval_bv_range _ _ _ H0) as [_ Hc]. pose proof (eval_bv_range _ _ _ H1) as [Hn Ha].
  pose proof (eval_bv_range _ _ _ H2) as [_ Hb].
  unfold DefaultIteBB. kind_check.
  eapply wp_bbChild; [done | exact H0 | done | done |]. intros s1 lc Hi1 He1 Hlc.
  eapply wp_bbChild; [done | exact H1 | done | done |]. intros s2 la Hi2 He2 Hla.
  eapply wp_bbChild; [done | exact H2 | done | done |]. intros s3 lb Hi3 He3 Hlb.
  apply (bvd_mono _ s3) in Hla; [| done]. apply (bvd_mono _ s3) in Hlc; [| by etrans].
  destruct (bvd_len _ _ _ _ Hla ltac:(lia)) as [Hl1 _], (bvd_len _ _ _ _ Hlb ltac:(lia)) as [Hl2 _],
    (bvd_len _ _ _ _ Hlc ltac:(lia)) as [Hl3 _].
  apply wp_assert; [apply Nat.eqb_eq; lia |]. same_sizes. apply wp_circuit; [done |]. rewrite Hl1.
  match goal with |- exists _, for_from _ _ ?body _ = _ /\ _ =>
    destruct (push_loop (den:=D s3) (Z.to_nat n) body (if c =? 1 then a else b)) as (l & -> & Hl & Hd) end.
  - intros i l Hil _. destruct (bvden_get lc c 0 (proj2 Hlc)) as (tc & -> & Htc); [lia |].
    destruct (bvden_get la a i (proj2 Hla)) as (ta & -> & Hta); [lia |].
    destruct (bvden_get lb b i (proj2 Hlb)) as (tb & -> & Htb); [lia |]. rewrite !M_bind_Ok.
    eexists. split; [done |]. change (Z.of_nat 0) with 0 in Htc.
    replace (Z.testbit c 0) with (c =? 1) in Htc.
    2: { unfold rng in Hc. change (2 ^ 1) with 2 in Hc. assert (c = 0 \/ c = 1) as [-> | ->] by lia; done. }
    rewrite testbit_if. replace (if c =? 1 then _ else _)
      with ((negb (c =? 1) || Z.testbit a (Z.of_nat i)) && ((c =? 1) || Z.testbit b (Z.of_nat i)))
      by (destruct (c =? 1); cbn; by rewrite ?andb_true_r).
    apply den_and; apply den_or; (done || by apply den_not).
  - exists l. split; [done |]. split; [apply zlen_Z; [done | cbn; lia] |]. eapply bvden_eq; [exact Hd |].
    rewrite Z2Nat.id by lia. cbn. apply Z.mod_small. by destruct (c =? 1).
Qed.

Lemma DefaultExtractBB_ok h l : blasts (DefaultExtractBB bb) (BITVECTOR_EXTRACT h l).
Proof.
  intros (_ & vs & Hvs & Hk)%eval_MkNode. cbn in Hk. destruct vs as [|[|[n a]] [|]]; try done.
  cbn in Hk. case_decide as Hd; [| done]. injection Hk as Ev. rewrite <- Ev in *.
  inversion Hvs as [|c0 ? ? ? H0 Hvs']; subst. inversion Hvs'; subst.
  unfold DefaultExtractBB. cbn [getKind].
  eapply wp_bbChild; [done | exact H0 | by eapply Forall_inv | done |]. intros s1 la Hi1 He1 Hla.
  pose proof (eval_bv_range _ _ _ H0) as [Hn Ha]. destruct (bvd_len _ _ _ _ Hla ltac:(lia)) as [Hl1 _].
  destruct (extractBits_ok la a (Z.to_nat l) (Z.to_nat h) (proj2 Hla)) as (r & Er & Hlr & Hdr); [lia |].
  cbv zeta. unfold extractBits in Er.
  rewrite (proj2 (Nat.ltb_lt _ _)), (proj2 (Nat.ltb_lt _ _)), (proj2 (Nat.leb_le _ _)) in Er by lia.
  eapply wp_lift; [exact Er |]. apply wp_assert; [apply Nat.eqb_eq; lia |].
  apply wp_ret; [apply Hext | done |]. split; [unfold zlen; cbn; lia |]. eapply bvden_eq; [exact Hdr |].
  cbn. unfold Sem.extract. rewrite Z2Nat.id by lia. f_equal. f_equal. lia.
Qed.

Lemma DefaultSignExtendBB_ok k : blasts (DefaultSignExtendBB bb) (BITVECTOR_SIGN_EXTEND k).
Proof.
  intros (_ & vs & Hvs & Hk)%eval_MkNode. cbn in Hk. destruct vs as [|[|[n a]] [|]]; try done.
  cbn in Hk. case_decide as Hd; [| done]. apply fit_Some in Hk as [Hf [= Ev]]. rewrite Ev in *.
  inversion Hvs as [|c0 ? ? ? H0 Hvs']; subst. inversion Hvs'; subst.
  unfold DefaultSignExtendBB. cbn [getKind].
  eapply wp_bbChild; [done | exact H0 | by eapply Forall_inv | done |]. intros s1 la Hi1 He1 Hla.
  pose proof (eval_bv_range _ _ _ H0) as [Hn Ha]. destruct (bvd_len _ _ _ _ Hla ltac:(lia)) as [Hl1 Hl2].
  destruct (bvden_get la a (length la - 1) (proj2 Hla)) as (sg & Esg & Hsg); [lia |].
  eapply wp_lift; [exact Esg |]. eapply wp_lift; [by rewrite append_loop, take_ge by lia |].
  eapply wp_lift; [apply push_const_loop |]. cbn [app].
  apply wp_assert; [apply Nat.eqb_eq; rewrite length_app, length_replicate; lia |].
  apply wp_ret; [apply Hext | done |]. pose proof (zlen_Z la n Hl1 ltac:(lia)) as Ez. split.
  - rewrite zlen_app, Ez. unfold zlen. rewrite length_replicate. cbn. lia.
  - cbn [d_value]. replace (Z.of_nat (length la - 1)) with (zlen la - 1) in Hsg by (unfold zlen; lia).
    eapply bvden_eq; [by apply sign_extend_ok; [| apply Hla |] |]. rewrite Ez. f_equal. lia.
Qed.

End terms.

(** *** The tables *)
Definition shift_kind (k : Kind) : bool :=
  match k with BITVECTOR_SHL | BITVECTOR_LSHR | BITVECTOR_ASHR => true | _ => false end.
(** The kinds whose strategy builds a circuit from the circuits of the children. *)
Definition term_kind (k : Kind) : bool :=
  match k with
  | BITVECTOR_NOT | BITVECTOR_CONCAT | BITVECTOR_AND | BITVECTOR_OR | BITVECTOR_XOR | BITVECTOR_XNOR
  | BITVECTOR_COMP | BITVECTOR_MULT | BITVECTOR_PLUS | BITVECTOR_SUB | BITVECTOR_NEG
  | BITVECTOR_UDIV_TOTAL | BITVECTOR_UREM_TOTAL | BITVECTOR_SHL | BITVECTOR_LSHR | BITVECTOR_ASHR
  | BITVECTOR_ULTBV | BITVECTOR_SLTBV | BITVECTOR_ITE | BITVECTOR_EXTRACT _ _ | BITVECTOR_SIGN_EXTEND _ => true
  | _ => false
  end.
Definition atom_kind (k : Kind) : bool :=
  match k with
  | EQUAL | BITVECTOR_ULT | BITVECTOR_ULE | BITVECTOR_SLT | BITVECTOR_SLE => true
  | _ => false
  end.

Lemma term_strategy_ok k ch v s :
  term_kind k = true -> Forall term_ok ch -> Inv s ->
  (forall c0 c1 a b q r, k = BITVECTOR_UDIV_TOTAL -> ch = [c0; c1] -> Circ c0 a -> Circ c1 b ->
     udivrem (MkNode k ch) a b = Ok (q, r) -> store_ok (MkNode BITVECTOR_UREM_TOTAL [c0; c1]) r) ->
  (forall c0 c1 a b q r, k = BITVECTOR_UREM_TOTAL -> ch = [c0; c1] -> Circ c0 a -> Circ c1 b ->
     udivrem (MkNode k ch) a b = Ok (q, r) -> store_ok (MkNode BITVECTOR_UDIV_TOTAL [c0; c1]) q) ->
  (shift_kind k = true -> guard_ok ch k) ->
  eval e (MkNode k ch) = Some (VBV v) ->
  wp (d_termBBStrategies bb k (MkNode k ch)) (fun s' bits => bvd s' bits v) s.
Proof.
  intros Hk Hch Hi Hs1 Hs2 Hg Hev.
  destruct k; try discriminate Hk; cbn [d_termBBStrategies];
    [by apply DefaultConcatBB_ok | by apply DefaultAndBB_ok | by apply DefaultOrBB_ok | by apply DefaultXorBB_ok
    | by apply DefaultNotBB_ok | by apply DefaultXnorBB_ok | by apply DefaultCompBB_ok | by apply DefaultMultBB_ok
    | by apply DefaultPlusBB_ok | by apply DefaultSubBB_ok | by apply DefaultNegBB_ok
    | apply DefaultUdivBB_ok; eauto | apply DefaultUremBB_ok; eauto
    | apply DefaultShlBB_ok; auto | apply DefaultLshrBB_ok; auto | apply DefaultAshrBB_ok; auto
    | by apply DefaultUltbvBB_ok | by apply DefaultSltbvBB_ok | by apply DefaultIteBB_ok
    | by apply DefaultExtractBB_ok | by apply DefaultSignExtendBB_ok].
Qed.

Lemma atom_strategy_ok k ch b s :
  atom_kind k = true -> Forall term_ok ch -> Inv s ->
  (k = EQUAL -> Forall (fun c => exists x, eval e c = Some (VBV x)) ch) ->
  eval e (MkNode k ch) = Some (VBool b) ->
  wp (d_atomBBStrategies bb k (MkNode k ch)) (fun s' t => D s' t b) s.
Proof.
  intros Hk Hch Hi Heq Hev. destruct k; try discriminate Hk; cbn [d_atomBBStrategies];
    [| by apply DefaultUltBB_ok | by apply DefaultUleBB_ok | by apply DefaultSltBB_ok | by apply DefaultSleBB_ok].
  specialize (Heq eq_refl). apply eval_MkNode in Hev as (_ & vs & Hvs & Hev). cbn in Hev.
  destruct vs as [|v [|w [|]]]; try done. apply Forall2_two in Hvs as (c0 & c1 & -> & H0 & H1).
  apply Forall_cons in Heq as [[x Hx] [[y Hy] _]%Forall_cons].
  rewrite Hx in H0. rewrite Hy in H1. injection H0 as <-. injection H1 as <-.
  destruct (same_type _ _) eqn:Est; [| done]. injection Hev as <-.
  destruct x as [n x], y as [m y]. cbn in Est. apply Z.eqb_eq in Est as ->.
  eapply wp_mono; [by eapply DefaultEqBB_ok |]. intros s' t _ _ Ht.
  replace (bool_decide _) with (x =? y); [done |].
  destruct (Z.eqb_spec x y) as [->|Hne]; [by rewrite bool_decide_true | rewrite bool_decide_false; congruence].
Qed.

End strategies_ok.
