(* ===== verification/Circuits.v ===== *)
(** * The arithmetic circuits are correct

    The properties of the circuit builders of [bitblast_utils.h] and of the
    divider and barrel shifters of [bitblast_strategies_template.h], for every
    type of bits that meets [BitDen]; the bits [bool] are the simplest. *)

From S2P Require Import Prelude Integer BitVector Node BitblastUtils BitblastStrategies BitblastCorrect.
Local Open Scope Z_scope.

Section circuits.
Context {T : Type} {O : BitOps T} {den : T -> bool -> Prop} {D : BitDen O den}.
Abbreviation bvden := (bvden den).

(** C23. The ripple-carry adder: on vectors of one width that denote [x] and [y],
    and a carry-in that denotes [c], it returns a vector of that width that
    denotes [x + y + c] modulo [2^n], and a carry-out that denotes whether the
    sum overflows. *)
Theorem ripple_carry_adder_correct a b x y carry c :
  length a = length b -> bvden a x -> bvden b y -> den carry c ->
  exists res co, rippleCarryAdder a b [] carry = Ok (res, co) /\ length res = length a /\
    bvden res ((x + y + Z.b2z c) mod 2 ^ zlen a) /\ den co (2 ^ zlen a <=? x + y + Z.b2z c).
Proof. apply rippleCarryAdder_ok. Qed.

(** C21. The shift-and-add multiplier computes the product modulo [2^n]. *)
Theorem shift_add_multiplier_correct a b x y :
  length a = length b -> (1 <= length a)%nat -> bvden a x -> bvden b y ->
  exists l, shiftAddMultiplier a b [] = Ok l /\ length l = length a /\ bvden l ((x * y) mod 2 ^ zlen a).
Proof. apply shiftAddMultiplier_ok. Qed.

(** C20. The recursive restoring divider, with the correction for a zero divisor:
    quotient and remainder are those of SMT-LIB, all ones and the dividend when
    the divisor is zero; the recursion on the width terminates. *)
Theorem divider_correct node a b x y n :
  getSizeN node = Ok n -> length a = n -> length b = n -> (1 <= n)%nat -> bvden a x -> bvden b y ->
  exists q r, udivrem node a b = Ok (q, r) /\ length q = n /\ length r = n /\
    bvden q (if y =? 0 then 2 ^ Z.of_nat n - 1 else x / y) /\ bvden r (if y =? 0 then x else x mod y).
Proof.
  intros Hs Ha Hb Hn Hx Hy. destruct (udivrem_ok node a b x y n Hs Ha Hb Hn Hx Hy) as (q & r & E & Hq & Hr & Hdq & Hdr).
  exists q, r. unfold Sem.udiv, Sem.urem in *. destruct (Z.eqb_spec y 0); done.
Qed.

(** C24. The comparators: unsigned ones compare the numbers, signed ones the two's
    complement readings, strictly or not. *)
Theorem comparators_correct a b x y orEqual :
  length a = length b -> (1 <= length a)%nat -> bvden a x -> bvden b y ->
  (exists t, uLessThanBB a b orEqual = Ok t /\ den t (if orEqual then x <=? y else x <? y)) /\
  (exists t, sLessThanBB a b orEqual = Ok t /\
     den t (if orEqual then Sem.sle (zlen a) x y else Sem.slt (zlen a) x y)).
Proof.
  intros Hl H1 Ha Hb. destruct (uLessThanBB_ok a b x y orEqual Hl H1 Ha Hb) as (t & Et & Ht).
  destruct (sLessThanBB_ok a b x y orEqual Hl H1 Ha Hb) as (u & Eu & Hu).
  split; [exists t | exists u]; (split; [done |]); by destruct orEqual.
Qed.

(** The stages of a barrel shifter, as many as the shift amounts below the width need. *)
Lemma shl_full a b x y n : length a = n -> length b = n -> (1 <= n)%nat -> bvden a x -> bvden b y -> y < Z.of_nat n ->
  exists l, barrel shl_stage a b (Z.to_nat (Z.log2_up (Z.of_nat n))) = Ok l /\ length l = n /\
    bvden l ((x * 2 ^ y) mod 2 ^ Z.of_nat n).
Proof.
  intros Hla Hlb Hn Ha Hb Hy. destruct (log2_up_bound (Z.of_nat n)) as [Hp Hlog]; [lia |].
  destruct (shl_barrel_ok a b x y n (Z.to_nat (Z.log2_up (Z.of_nat n))) Hla Hlb ltac:(lia) Ha Hb) as (l & E & Hl & Hd).
  exists l. split; [done |]. split; [done |]. rewrite Z2Nat.id, (Z.mod_small y) in Hd; [done | | lia].
  destruct Hb as [[? _] _]. lia.
Qed.

(** C22. The logarithmic barrel shifters: with the number of stages the code uses,
    [log2(n)] rounded up, and a shift amount below the width, the left shifter
    multiplies and the logical right shifter divides by the power of two. *)
Theorem barrel_shifters_correct a b x y n :
  length a = n -> length b = n -> (1 <= n)%nat -> bvden a x -> bvden b y -> y < Z.of_nat n ->
  let stages := Z.to_nat (Z.log2_up (Z.of_nat n)) in
  (exists l, barrel shl_stage a b stages = Ok l /\ length l = n /\ bvden l ((x * 2 ^ y) mod 2 ^ Z.of_nat n)) /\
  (exists l, barrel (rshift_stage mkFalse (length a)) a b stages = Ok l /\ length l = n /\ bvden l (x / 2 ^ y)).
Proof.
  intros Hla Hlb Hn Ha Hb Hy stages. split; [by apply shl_full |].
  destruct (log2_up_bound (Z.of_nat n)) as [Hp Hlog]; [lia |]. pose proof Ha as [Hx _]. unfold zlen in Hx. rewrite Hla in Hx.
  pose proof Hb as [Hy0 _].
  destruct (shr_barrel_ok mkFalse false a b x y n stages Hla Hlb ltac:(lia)) as (l & E & Hl & Hd).
  - by rewrite Z.mod_small.
  - done.
  - apply den_false.
  - intros j Hj. by apply (testbit_high x (Z.of_nat n)).
  - exists l. split; [done |]. split; [done |]. unfold stages in Hd. rewrite Z2Nat.id, (Z.mod_small y) in Hd by lia.
    rewrite Z.mod_small in Hd; [done |]. split; [apply Z.div_pos; lia |].
    eapply Z.le_lt_trans; [apply Z.div_le_upper_bound with (q := x) | lia]; [lia |].
    pose proof (Z.pow_pos_nonneg 2 y). nia.
Qed.
End circuits.

(** ** Boolean bits *)
Module BoolBits.
#[local] Instance bool_bits : BitOps bool := {
  mkTrue := true; mkFalse := false; mkNot := negb; mkAnd := andb; mkOr := orb; mkXor := xorb;
  mkIff := Bool.eqb; mkIte c a b := if c then a else b;
  mkOrV l := match l with [] => Throw AssertionFailed | _ => Ok (existsb id l) end;
  mkAndV l := match l with [] => Throw AssertionFailed | _ => Ok (forallb id l) end;
  bit_eqb := Bool.eqb
}.
#[local] Instance bool_den : BitDen bool_bits eq.
Proof.
  split; cbn; try (intros; by subst).
  - intros l bs Hl HF. apply list_eq_Forall2 in HF as <-. exists (forallb id l). by destruct l.
  - intros a b x y H -> ->. by apply Bool.eqb_prop.
Qed.

(** The bits of a number. *)
Definition bits (n : nat) (z : Z) : list bool := map (fun i => Z.testbit z (Z.of_nat i)) (seq 0 n).
Lemma bits_den n z : 0 <= z < 2 ^ Z.of_nat n -> bvden eq (bits n z) z.
Proof.
  intros Hz. unfold bits. split; [unfold zlen; by rewrite length_map, length_seq |].
  intros i t Hi. apply list_lookup_fmap_Some in Hi as (j & -> & Hj). by apply lookup_seq in Hj as [-> _].
Qed.
Ltac bits_den := apply bits_den; vm_compute; split; [discriminate | reflexivity].

Lemma ripple_carry_adder_correct_witness :
  exists res co, rippleCarryAdder (bits 4 11) (bits 4 7) [] true = Ok (res, co) /\ length res = 4%nat /\
    bvden eq res 3 /\ co = true.
Proof.
  apply (ripple_carry_adder_correct (bits 4 11) (bits 4 7) 11 7 true true); [reflexivity | bits_den | bits_den | reflexivity].
Defined.

Lemma shift_add_multiplier_correct_witness :
  exists l, shiftAddMultiplier (bits 4 5) (bits 4 7) [] = Ok l /\ length l = 4%nat /\ bvden eq l 3.
Proof.
  apply (shift_add_multiplier_correct (bits 4 5) (bits 4 7) 5 7); [reflexivity | cbn; lia | bits_den | bits_den].
Defined.

Lemma divider_correct_witness : 
  exists q r, udivrem (Var 1 (BITVECTOR_TYPE 4)) (bits 4 13) (bits 4 5) = Ok (q, r) /\ length q = 4%nat /\ length r = 4%nat /\
    bvden eq q 2 /\ bvden eq r 3.
Proof.
  apply (divider_correct (Var 1 (BITVECTOR_TYPE 4)) (bits 4 13) (bits 4 5) 13 5 4);
    [reflexivity | reflexivity | reflexivity | lia | bits_den | bits_den].
Defined.

Lemma comparators_correct_witness :
  (exists t, uLessThanBB (bits 4 5) (bits 4 9) false = Ok t /\ t = true) /\
  (exists t, sLessThanBB (bits 4 5) (bits 4 9) false = Ok t /\ t = false).
Proof.
  destruct (comparators_correct (bits 4 5) (bits 4 9) 5 9 false) as [(t & Et & Ht) (u & Eu & Hu)];
    [reflexivity | cbn; lia | bits_den | bits_den |].
  split; [exists t | exists u]; (split; [assumption |]); [exact Ht | exact Hu].
Defined.

Lemma barrel_shifters_correct_witness :
  let stages := Z.to_nat (Z.log2_up (Z.of_nat 5)) in
  (exists l, barrel shl_stage (bits 5 13) (bits 5 3) stages = Ok l /\ length l = 5%nat /\
     bvden eq l ((13 * 2 ^ 3) mod 2 ^ Z.of_nat 5)) /\
  (exists l, barrel (rshift_stage mkFalse (length (bits 5 13))) (bits 5 13) (bits 5 3) stages = Ok l /\ length l = 5%nat /\
     bvden eq l (13 / 2 ^ 3)).
Proof.
  apply (barrel_shifters_correct (bits 5 13) (bits 5 3) 13 3 5); [reflexivity | reflexivity | lia | bits_den | bits_den | lia].
Defined.
End BoolBits.
