(* ===== verification/CnfStream.v ===== *)
(** * Conversion to clauses

    Models [src/prop/cnf_stream.{h,cpp}] (Tseitin conversion of Boolean terms into
    clauses of a SAT solver) and the literals of [src/prop/sat_solver_types.h].
    The stream's registrar is a callback, [preRegister], that may re-enter the
    stream; the state is therefore a pair of the stream's own state and the
    state [C] of the registrar's owner.  The SAT solver is the list of clauses
    it was given and the number of its variables; as the Minisat wrappers do, it
    starts with the two variables [trueVar] and [falseVar], fixed by unit
    clauses.  Proof production, dumping and resource accounting are off. *)

From S2P Require Import Prelude Integer BitVector Node.
Local Open Scope nat_scope.

(** ** Literals *)
Abbreviation SatVariable := Z.
Record SatLiteral : Set := MkSatLiteral { d_value : Z }.

#[global] Instance SatLiteral_eq_dec : EqDecision SatLiteral.
Proof. solve_decision. Defined.

Definition mkSatLiteral (var : SatVariable) (negated : bool) : SatLiteral :=
  MkSatLiteral (var + var + Z.b2z negated).
Definition getSatVariable (l : SatLiteral) : SatVariable := Z.shiftr (d_value l) 1.
Definition isNegated (l : SatLiteral) : bool := negb (Z.land (d_value l) 1 =? 0)%Z.
Definition negLit (l : SatLiteral) : SatLiteral :=
  mkSatLiteral (getSatVariable l) (negb (isNegated l)).

Abbreviation SatClause := (list SatLiteral).

(** ** The SAT solver, as the stream uses it *)
Record SatSolver : Type := MkSatSolver { nVars : Z; clauses : list SatClause }.
Definition trueVar : SatVariable := 0%Z.
Definition falseVar : SatVariable := 1%Z.
Definition newVar (sat : SatSolver) : SatVariable * SatSolver :=
  (nVars sat, MkSatSolver (nVars sat + 1) (clauses sat)).
Definition addClause (c : SatClause) (sat : SatSolver) : SatSolver :=
  MkSatSolver (nVars sat) (clauses sat ++ [c]).
Definition SatSolver_init : SatSolver :=
  MkSatSolver 2 [[mkSatLiteral trueVar false]; [mkSatLiteral falseVar true]].

(** ** The stream *)
Record CnfStream : Type := MkCnfStream {
  d_satSolver : SatSolver;
  d_booleanVariables : list Node;
  d_nodeToLiteralMap : list (Node * SatLiteral);
  d_literalToNodeMap : list (SatLiteral * Node);
  d_removable : bool
}.

Definition CnfStream_init : CnfStream := MkCnfStream SatSolver_init [] [] [] false.

(** Association lists for the insert-only hash maps. *)
Fixpoint assoc {A B} `{EqDecision A} (k : A) (m : list (A * B)) : option B :=
  match m with
  | [] => None
  | (k', v) :: m' => if decide (k = k') then Some v else assoc k m'
  end.

Definition isVar (n : Node) : bool := match n with Var _ _ => true | _ => false end.

Section stream.
Context {C : Type}.
Abbreviation St := (CnfStream * C)%type.
Context (preRegister : Node -> SM St unit).
(** The constructor's [fullLitToNodeMap]. *)
Context (d_fullLitToNodeMap : bool).

Definition cnf {A} (f : CnfStream -> A * CnfStream) : SM St A :=
  fun '(s, c) => let '(a, s') := f s in Ok (a, (s', c)).
Definition cnf_gets {A} (f : CnfStream -> A) : SM St A := fun st => Ok (f st.1, st).
Definition sassert (b : bool) : SM St unit := lift (check AssertionFailed b).
Definition sthrow {A} (e : exn) : SM St A := lift (Throw e).

Definition assertClause (c : SatClause) : SM St unit :=
  cnf (fun s => (tt, MkCnfStream (addClause c (d_satSolver s)) (d_booleanVariables s)
                      (d_nodeToLiteralMap s) (d_literalToNodeMap s) (d_removable s))).

Definition lookupLiteral (s : CnfStream) (n : Node) : option SatLiteral :=
  assoc n (d_nodeToLiteralMap s).
Definition hasLiteral (n : Node) : SM St bool :=
  cnf_gets (fun s => match lookupLiteral s n with Some _ => true | None => false end).
Definition getLiteral (n : Node) : SM St SatLiteral :=
  l ← cnf_gets (fun s => lookupLiteral s n);
  match l with Some l => mret l | None => sthrow AssertionFailed end.

(** [CDInsertHashMap::insert] asserts that the key is new, [insert_safe] skips
    a key that is not. *)
Definition insertNode (n : Node) (l : SatLiteral) : SM St unit :=
  has ← hasLiteral n;
  _ ← sassert (negb has);
  cnf (fun s => (tt, MkCnfStream (d_satSolver s) (d_booleanVariables s)
                      (d_nodeToLiteralMap s ++ [(n, l)]) (d_literalToNodeMap s) (d_removable s))).
Definition insert_safe (l : SatLiteral) (n : Node) : SM St unit :=
  cnf (fun s => (tt, MkCnfStream (d_satSolver s) (d_booleanVariables s) (d_nodeToLiteralMap s)
    (match assoc l (d_literalToNodeMap s) with
     | Some _ => d_literalToNodeMap s
     | None => d_literalToNodeMap s ++ [(l, n)]
     end) (d_removable s))).
Definition insertLit (l : SatLiteral) (n : Node) : SM St unit :=
  known ← cnf_gets (fun s => match assoc l (d_literalToNodeMap s) with Some _ => true | None => false end);
  _ ← sassert (negb known);
  insert_safe l n.
Definition set_removable (b : bool) : SM St unit :=
  cnf (fun s => (tt, MkCnfStream (d_satSolver s) (d_booleanVariables s)
                      (d_nodeToLiteralMap s) (d_literalToNodeMap s) b)).
Definition new_var : SM St SatVariable :=
  cnf (fun s => let '(v, sat) := newVar (d_satSolver s) in
         (v, MkCnfStream sat (d_booleanVariables s) (d_nodeToLiteralMap s)
               (d_literalToNodeMap s) (d_removable s))).

Definition newLiteral (node : Node) (isTheoryAtom doPreRegister : bool) : SM St SatLiteral :=
  _ ← sassert (negb (bool_decide (getKind node = NOT)));
  has ← hasLiteral node;
  lit ← (if negb has then
           lit ← match node with
                 | ConstBool b => mret (mkSatLiteral (if b then trueVar else falseVar) false)
                 | _ => v ← new_var; mret (mkSatLiteral v false)
                 end;
           _ ← insertNode node lit;
           _ ← insertNode (notNode node) (negLit lit);
           mret lit
         else getLiteral node);
  _ ← (if isTheoryAtom || d_fullLitToNodeMap then
         _ ← insert_safe lit node; insert_safe (negLit lit) (notNode node)
       else mret tt);
  _ ← (if doPreRegister then
         backupRemovable ← cnf_gets d_removable;
         _ ← preRegister node;
         set_removable backupRemovable
       else mret tt);
  mret lit.

Definition getNode (literal : SatLiteral) : SM St Node :=
  n ← cnf_gets (fun s => assoc literal (d_literalToNodeMap s));
  match n with Some n => mret n | None => sthrow AssertionFailed end.

Definition convertAtom (node : Node) (noPreregistration : bool) : SM St SatLiteral :=
  has ← hasLiteral node;
  _ ← sassert (negb has);
  if isVar node then
    _ ← cnf (fun s => (tt, MkCnfStream (d_satSolver s) (d_booleanVariables s ++ [node])
                 (d_nodeToLiteralMap s) (d_literalToNodeMap s) (d_removable s)));
    newLiteral node false false
  else newLiteral node true (negb noPreregistration).

(** The preconditions every [handleX] asserts. *)
Definition handle_pre (node : Node) (k : Kind) (arity_ok : bool) : SM St unit :=
  has ← hasLiteral node;
  _ ← sassert (negb has);
  _ ← sassert (bool_decide (getKind node = k));
  sassert arity_ok.
Definition not_removable : SM St unit := r ← cnf_gets d_removable; sassert (negb r).

(** The translations of the children, as computations still to be run. *)
Abbreviation Kids := (list (SM St SatLiteral)).
Definition kid (cs : Kids) (i : nat) : SM St SatLiteral :=
  match cs !! i with Some m => m | None => sthrow AssertionFailed end.
Fixpoint run_all (cs : Kids) : SM St (list SatLiteral) :=
  match cs with
  | [] => mret []
  | m :: cs' => l ← m; ls ← run_all cs'; mret (l :: ls)
  end.
(** A sequence of [assertClause] calls. *)
Fixpoint assertClauses (cs : list SatClause) : SM St unit :=
  match cs with
  | [] => mret tt
  | c :: cs' => _ ← assertClause c; assertClauses cs'
  end.

Definition handleXor (xorNode : Node) (cs : Kids) : SM St SatLiteral :=
  _ ← handle_pre xorNode XOR (getNumChildren xorNode =? 2);
  _ ← not_removable;
  a ← kid cs 0;
  b ← kid cs 1;
  xorLit ← newLiteral xorNode false false;
  _ ← assertClauses
    [[a; b; negLit xorLit];
     [negLit a; negLit b; negLit xorLit];
     [a; negLit b; xorLit];
     [negLit a; b; xorLit]];
  mret xorLit.

Definition handleOr (orNode : Node) (cs : Kids) : SM St SatLiteral :=
  _ ← handle_pre orNode OR (1 <? getNumChildren orNode);
  _ ← not_removable;
  clause ← run_all cs;
  orLit ← newLiteral orNode false false;
  _ ← assertClauses (map (fun l => [orLit; negLit l]) clause ++ [clause ++ [negLit orLit]]);
  mret orLit.

Definition handleAnd (andNode : Node) (cs : Kids) : SM St SatLiteral :=
  _ ← handle_pre andNode AND (1 <? getNumChildren andNode);
  _ ← not_removable;
  lits ← run_all cs;
  let clause := map negLit lits in
  andLit ← newLiteral andNode false false;
  _ ← assertClauses (map (fun l => [negLit andLit; negLit l]) clause ++ [clause ++ [andLit]]);
  mret andLit.

Definition handleImplies (impliesNode : Node) (cs : Kids) : SM St SatLiteral :=
  _ ← handle_pre impliesNode IMPLIES (getNumChildren impliesNode =? 2);
  _ ← not_removable;
  a ← kid cs 0;
  b ← kid cs 1;
  impliesLit ← newLiteral impliesNode false false;
  _ ← assertClauses
    [[negLit impliesLit; negLit a; b];
     [a; impliesLit];
     [negLit b; impliesLit]];
  mret impliesLit.

Definition handleIff (iffNode : Node) (cs : Kids) : SM St SatLiteral :=
  _ ← handle_pre iffNode EQUAL (getNumChildren iffNode =? 2);
  a ← kid cs 0;
  b ← kid cs 1;
  iffLit ← newLiteral iffNode false false;
  _ ← assertClauses
    [[negLit a; b; negLit iffLit];
     [a; negLit b; negLit iffLit];
     [negLit a; negLit b; iffLit];
     [a; b; iffLit]];
  mret iffLit.

Definition handleNot (notNode : Node) (cs : Kids) : SM St SatLiteral :=
  _ ← handle_pre notNode NOT (getNumChildren notNode =? 1);
  l ← kid cs 0;
  mret (negLit l).

Definition handleIte (iteNode : Node) (cs : Kids) : SM St SatLiteral :=
  _ ← sassert (bool_decide (getKind iteNode = ITE));
  _ ← sassert (getNumChildren iteNode =? 3);
  _ ← not_removable;
  condLit ← kid cs 0;
  thenLit ← kid cs 1;
  elseLit ← kid cs 2;
  iteLit ← newLiteral iteNode false false;
  _ ← assertClauses
    [[negLit iteLit; thenLit; elseLit];
     [negLit iteLit; negLit condLit; thenLit];
     [negLit iteLit; condLit; elseLit];
     [iteLit; negLit thenLit; negLit elseLit];
     [iteLit; negLit condLit; negLit thenLit];
     [iteLit; condLit; negLit elseLit]];
  mret iteLit.

(** Does [node[0]] have Boolean type? *)
Definition child0_boolean (ch : list Node) : M bool :=
  c ← child (MkNode EQUAL ch) 0; t ← getType false c; Ok (isBoolean t).

Fixpoint toCNF (node : Node) (negated : bool) {struct node} : SM St SatLiteral :=
  has ← hasLiteral node;
  nodeLit ← (if has : bool then getLiteral node
    else match node with
         | MkNode k ch =>
             let cs := map (fun c => toCNF c false) ch in
             match k with
             | NOT => handleNot node cs
             | XOR => handleXor node cs
             | ITE => handleIte node cs
             | IMPLIES => handleImplies node cs
             | OR => handleOr node cs
             | AND => handleAnd node cs
             | EQUAL =>
                 isBool ← lift (child0_boolean ch);
                 if isBool : bool then handleIff node cs else convertAtom node false
             | _ => convertAtom node false
             end
         | _ => convertAtom node false
         end);
  mret (if negated then negLit nodeLit else nodeLit).

(** Top level: assert a formula (or its negation) as clauses.  [lits neg] and
    [sub neg] are the calls [toCNF(child, neg)] and [convertAndAssert(child, neg)]
    on the children, still to be run. *)
Section assert_cases.
Variables (lits : bool -> Kids) (sub : bool -> list (SM St unit)).

Fixpoint run_units (cs : list (SM St unit)) : SM St unit :=
  match cs with [] => mret tt | m :: cs' => _ ← m; run_units cs' end.
Definition sub_at (negated : bool) (i : nat) : SM St unit :=
  match sub negated !! i with Some m => m | None => sthrow AssertionFailed end.

Definition convertAndAssertAnd (negated : bool) : SM St unit :=
  if negb negated then run_units (sub false)
  else clause ← run_all (lits true); assertClause clause.

Definition convertAndAssertOr (negated : bool) : SM St unit :=
  if negb negated then clause ← run_all (lits false); assertClause clause
  else run_units (sub true).

Definition convertAndAssertXor (negated : bool) : SM St unit :=
  p ← kid (lits false) 0;
  q ← kid (lits false) 1;
  if negb negated then
    assertClauses [[negLit p; negLit q]; [p; q]]
  else
    assertClauses [[negLit p; q]; [p; negLit q]].

Definition convertAndAssertIff (negated : bool) : SM St unit :=
  p ← kid (lits false) 0;
  q ← kid (lits false) 1;
  if negb negated then
    assertClauses [[negLit p; q]; [p; negLit q]]
  else
    assertClauses [[negLit p; negLit q]; [p; q]].

Definition convertAndAssertImplies (negated : bool) : SM St unit :=
  if negb negated then
    p ← kid (lits false) 0; q ← kid (lits false) 1; assertClause [negLit p; q]
  else
    _ ← sub_at false 0; sub_at true 1.

Definition convertAndAssertIte (negated : bool) : SM St unit :=
  p ← kid (lits false) 0;
  q ← kid (lits negated) 1;
  r ← kid (lits negated) 2;
  assertClauses [[negLit p; q]; [p; r]].
End assert_cases.

Definition assertAtom (node : Node) (negated : bool) : SM St unit :=
  l ← toCNF node negated; assertClause [l].

Fixpoint convertAndAssert (node : Node) (negated : bool) {struct node} : SM St unit :=
  match node with
  | MkNode k ch =>
      let lits neg := map (fun c => toCNF c neg) ch in
      let sub neg := map (fun c => convertAndAssert c neg) ch in
      match k with
      | AND => convertAndAssertAnd lits sub negated
      | OR => convertAndAssertOr lits sub negated
      | XOR => convertAndAssertXor lits negated
      | IMPLIES => convertAndAssertImplies lits sub negated
      | ITE => convertAndAssertIte lits negated
      | NOT => sub_at sub (negb negated) 0
      | EQUAL =>
          isBool ← lift (child0_boolean ch);
          if isBool : bool then convertAndAssertIff lits negated else assertAtom node negated
      | _ => assertAtom node negated
      end
  | _ => assertAtom node negated
  end.

(** The public entry point, [convertAndAssert(node, removable, negated, ...)]. *)
Definition convertAndAssertTop (node : Node) (removable negated : bool) : SM St unit :=
  _ ← set_removable removable;
  convertAndAssert node negated.

(** [Theory::theoryOf(n) == THEORY_BOOL]. *)
Definition theoryOfBool (n : Node) : M bool :=
  match n with
  | Var _ _ => t ← getType false n; Ok (isBoolean t)
  | ConstBool _ => Ok true
  | ConstBV _ => Ok false
  | MkNode k ch =>
      match k with
      | NOT | AND | OR | IMPLIES | XOR | ITE => Ok true
      | EQUAL => child0_boolean ch
      | _ => Ok false
      end
  end.

Definition ensureLiteral (n : Node) (noPreregistration : bool) : SM St unit :=
  _ ← set_removable false;
  has ← hasLiteral n;
  if has : bool then
    lit ← getLiteral n;
    known ← cnf_gets (fun s => match assoc lit (d_literalToNodeMap s) with Some _ => true | None => false end);
    if known : bool then mret tt
    else _ ← insertLit lit n; insertLit (negLit lit) (notNode n)
  else
    t ← lift (getType false n);
    _ ← lift (check IllegalArgument (isBoolean t));
    n ← (match n with MkNode NOT ch => lift (child n 0) | _ => mret n end);
    isBool ← lift (theoryOfBool n);
    lit ← (if isBool && negb (isVar n) then
             lit ← toCNF n false;
             _ ← insert_safe lit n;
             _ ← insert_safe (negLit lit) (notNode n);
             mret lit
           else convertAtom n noPreregistration);
    has ← hasLiteral n;
    back ← getNode lit;
    sassert (has && bool_decide (back = n)).

End stream.
