(* ===== verification/CnfCorrect.v ===== *)
(** * Correctness of the conversion to clauses

    [peval mu n] is the value of the Boolean structure of [n] when its leaves (theory
    atoms and Boolean variables) have the values [mu].  For an assignment [al] of
    SAT variables:
    - soundness: if [al] satisfies the clauses and gives each leaf's literal the
      leaf's value, then every translated node's literal has the node's value,
      and every asserted formula is true;
    - conservativity: if [al] gives every translated node's literal the node's
      value, it satisfies every clause added for true formulas.
    Both are proved for a registrar that may re-enter the stream, against the
    contract [preRegister_ok]. *)

From S2P Require Import Prelude Integer BitVector Node CnfStream.
Local Open Scope nat_scope.

(** ** Literals and clauses under an assignment *)
Lemma getSatVariable_mk v b : getSatVariable (mkSatLiteral v b) = v.
Proof.
  unfold getSatVariable, mkSatLiteral. cbn. rewrite Z.shiftr_div_pow2 by lia.
  change (2 ^ 1)%Z with 2%Z. replace (v + v + Z.b2z b)%Z with (Z.b2z b + v * 2)%Z by lia.
  rewrite Z.div_add by lia. by destruct b.
Qed.

Lemma isNegated_mk v b : isNegated (mkSatLiteral v b) = b.
Proof.
  unfold isNegated, mkSatLiteral. cbn. change 1%Z with (Z.ones 1). rewrite Z.land_ones by lia.
  change (2 ^ 1)%Z with 2%Z. replace (v + v + Z.b2z b)%Z with (Z.b2z b + v * 2)%Z by lia.
  rewrite Z.mod_add by lia. by destruct b.
Qed.

Lemma getSatVariable_neg l : getSatVariable (negLit l) = getSatVariable l.
Proof. apply getSatVariable_mk. Qed.

Definition lval (al : Z -> bool) (l : SatLiteral) : bool := xorb (al (getSatVariable l)) (isNegated l).

Lemma lval_neg al l : lval al (negLit l) = negb (lval al l).
Proof.
  unfold lval, negLit. rewrite getSatVariable_mk, isNegated_mk.
  by destruct (al _), (isNegated l).
Qed.

Lemma lval_mk al v b : lval al (mkSatLiteral v b) = xorb (al v) b.
Proof. unfold lval. by rewrite getSatVariable_mk, isNegated_mk. Qed.

Definition sat_clause (al : Z -> bool) (c : SatClause) : bool := existsb (lval al) c.
Definition sat (al : Z -> bool) (s : CnfStream) : Prop :=
  forall c, In c (clauses (d_satSolver s)) -> sat_clause al c = true.

(** ** The Boolean structure of a term *)
Section peval.
Variable mu : Node -> bool.
Fixpoint peval (n : Node) : bool :=
  match n with
  | ConstBool b => b
  | MkNode k ch =>
      let vs := map peval ch in
      match k with
      | NOT => match vs with [a] => negb a | _ => false end
      | AND => forallb id vs
      | OR => existsb id vs
      | IMPLIES => match vs with [a; b] => implb a b | _ => false end
      | XOR => match vs with [a; b] => xorb a b | _ => false end
      | ITE => match vs with [c; a; b] => if c then a else b | _ => false end
      | EQUAL => match child0_boolean ch with
                 | Ok true => match vs with [a; b] => Bool.eqb a b | _ => false end
                 | _ => mu n
                 end
      | _ => mu n
      end
  | _ => mu n
  end.
End peval.

(** Is [n] built with a Boolean connective? *)
Definition structured (n : Node) : bool :=
  match n with
  | MkNode k ch =>
      match k with
      | NOT | AND | OR | IMPLIES | XOR | ITE => true
      | EQUAL => match child0_boolean ch with Ok b => b | Throw _ => false end
      | _ => false
      end
  | _ => false
  end.

Fixpoint leaves (n : Node) : list Node :=
  match n with
  | MkNode _ ch => if structured n then concat (map leaves ch) else [n]
  | _ => [n]
  end.

(** Boolean connectives have the right number of arguments, down to the leaves. *)
Fixpoint bform (n : Node) : bool :=
  match n with
  | MkNode k ch =>
      if structured n then arity_ok k (length ch) && forallb bform ch
      else match k with EQUAL => isOk (child0_boolean ch) | _ => true end
  | _ => true
  end.

Definition theoryLeaf (n : Node) : bool := negb (structured n) && negb (isVar n).

Lemma leaves_structured k ch :
  structured (MkNode k ch) = true -> leaves (MkNode k ch) = concat (map leaves ch).
Proof. intros H. change (leaves (MkNode k ch)) with
  (if structured (MkNode k ch) then concat (map leaves ch) else [MkNode k ch]). by rewrite H. Qed.

Lemma leaves_leaf n : structured n = false -> leaves n = [n].
Proof. destruct n as [| | |k ch]; try done. intros H. change (leaves (MkNode k ch)) with
  (if structured (MkNode k ch) then concat (map leaves ch) else [MkNode k ch]). by rewrite H. Qed.

Lemma peval_leaf mu n : structured n = false ->
  peval mu n = match n with ConstBool b => b | _ => mu n end.
Proof.
  destruct n as [| | |k ch]; try done. cbn. destruct k; try done. by destruct (child0_boolean ch) as [[]|].
Qed.

Lemma bform_structured k ch :
  structured (MkNode k ch) = true -> bform (MkNode k ch) = true ->
  arity_ok k (length ch) = true /\ Forall (fun c => bform c = true) ch.
Proof.
  intros Hs H. change (bform (MkNode k ch)) with
    (if structured (MkNode k ch) then arity_ok k (length ch) && forallb bform ch
     else match k with EQUAL => isOk (child0_boolean ch) | _ => true end) in H.
  rewrite Hs in H. apply andb_true_iff in H as [Ha Hc]. split; [done |].
  apply Forall_forall. intros c Hin. rewrite forallb_forall in Hc. apply Hc. by apply list_elem_of_In.
Qed.

(** ** Lookup in the maps *)
Lemma assoc_app {A B} `{EqDecision A} (k : A) (m1 m2 : list (A * B)) :
  assoc k (m1 ++ m2) = match assoc k m1 with Some v => Some v | None => assoc k m2 end.
Proof. induction m1 as [|[k' v] m1 IH]; [done |]. cbn. by case_decide. Qed.

Lemma notNode_inj a b : notNode a = notNode b -> a = b.
Proof. by intros [= ->]. Qed.
Lemma notNode_ne n : notNode n <> n.
Proof.
  induction n as [| | |k ch IH] using node_ind'; try done. unfold notNode in *. intros [= <- E].
  destruct ch as [|c [|]]; try done. injection E as E. apply Forall_inv in IH. by rewrite E in IH.
Qed.

(** ** Invariants of the stream *)
Record WF (s : CnfStream) : Prop := {
  wf_vars : (2 <= nVars (d_satSolver s))%Z;
  wf_true : In [mkSatLiteral trueVar false] (clauses (d_satSolver s));
  wf_false : In [mkSatLiteral falseVar true] (clauses (d_satSolver s));
  wf_removable : d_removable s = false;
  (* a negation is mapped with, and opposite to, its argument *)
  wf_not n l : lookupLiteral s (notNode n) = Some l -> lookupLiteral s n = Some (negLit l);
  wf_not_arity ch l : lookupLiteral s (MkNode NOT ch) = Some l -> length ch = 1;
  (* other nodes have positive literals; constants the fixed variables *)
  wf_pos n l : getKind n <> NOT -> lookupLiteral s n = Some l ->
    l = mkSatLiteral (getSatVariable l) false /\
    match n with
    | ConstBool b => getSatVariable l = if b then trueVar else falseVar
    | _ => (2 <= getSatVariable l < nVars (d_satSolver s))%Z
    end;
  (* and no two share a variable *)
  wf_inj n m l : getKind n <> NOT -> getKind m <> NOT ->
    lookupLiteral s n = Some l -> lookupLiteral s m = Some l -> n = m;
  (* the leaves of a translated node are translated *)
  wf_leaves n l a : lookupLiteral s n = Some l -> In a (leaves n) -> lookupLiteral s a <> None
}.

Definition isConstBool (n : Node) : bool := match n with ConstBool _ => true | _ => false end.

Section valuation.
Variables (al : Z -> bool) (mu : Node -> bool).
(** Leaves' literals have the leaves' values / all literals the nodes' values. *)
Definition Agree (s : CnfStream) : Prop :=
  forall n l, structured n = false -> isConstBool n = false ->
  lookupLiteral s n = Some l -> lval al l = mu n.
Definition Faithful (s : CnfStream) : Prop :=
  forall n l, lookupLiteral s n = Some l -> lval al l = peval mu n.
Definition Sound (s : CnfStream) : Prop := sat al s -> Agree s -> Faithful s.
End valuation.

Definition grow (s s' : CnfStream) : Prop :=
  (forall n l, lookupLiteral s n = Some l -> lookupLiteral s' n = Some l) /\
  (forall c, In c (clauses (d_satSolver s)) -> In c (clauses (d_satSolver s'))).

Lemma grow_sat al s s' : grow s s' -> sat al s' -> sat al s.
Proof. intros [_ H] Hs c Hc. auto. Qed.
Lemma grow_Agree al mu s s' : grow s s' -> Agree al mu s' -> Agree al mu s.
Proof. intros [H _] Hs n l Hn Hc Hl. eauto. Qed.
Lemma grow_Faithful al mu s s' : grow s s' -> Faithful al mu s' -> Faithful al mu s.
Proof. intros [H _] Hs n l Hl. eauto. Qed.
#[global] Instance grow_preorder : PreOrder grow.
Proof. split; [by intros s | intros a b c [] []; split; eauto]. Qed.

(** ** One new literal *)
Definition newVariable (s : CnfStream) (n : Node) : Z :=
  match n with ConstBool b => if b then trueVar else falseVar | _ => nVars (d_satSolver s) end.

(** [s'] is [s] with the fresh literal of [n] (and of its negation) recorded. *)
Record inserted (n : Node) (l : SatLiteral) (s s' : CnfStream) : Prop := {
  ins_lit : l = mkSatLiteral (newVariable s n) false;
  ins_map : d_nodeToLiteralMap s' = d_nodeToLiteralMap s ++ [(n, l); (notNode n, negLit l)];
  ins_clauses : clauses (d_satSolver s') = clauses (d_satSolver s);
  ins_vars : nVars (d_satSolver s') =
    match n with ConstBool _ => nVars (d_satSolver s) | _ => nVars (d_satSolver s) + 1 end%Z;
  ins_removable : d_removable s' = d_removable s
}.

Section inserted.
Variables (n : Node) (l : SatLiteral) (s s' : CnfStream).
Hypothesis Hwf : WF s.
Hypothesis Hnew : lookupLiteral s n = None.
Hypothesis Hk : getKind n <> NOT.
Hypothesis Hin : inserted n l s s'.

Lemma lookup_not_new : lookupLiteral s (notNode n) = None.
Proof.
  destruct (lookupLiteral s (notNode n)) as [m|] eqn:E; [| done].
  apply (wf_not s Hwf) in E. congruence.
Qed.

Lemma lookup_inserted m :
  lookupLiteral s' m = if decide (m = n) then Some l
                       else if decide (m = notNode n) then Some (negLit l) else lookupLiteral s m.
Proof.
  unfold lookupLiteral in *. rewrite (ins_map _ _ _ _ Hin), assoc_app. cbn.
  pose proof lookup_not_new as Hn'. unfold lookupLiteral in Hn'.
  repeat case_decide; subst; rewrite ?Hnew, ?Hn'; try done; by destruct (assoc m _).
Qed.

Lemma inserted_lookup : lookupLiteral s' n = Some l.
Proof. rewrite lookup_inserted. by rewrite decide_True. Qed.

Lemma inserted_grow : grow s s'.
Proof.
  split.
  - intros m k Hm. rewrite lookup_inserted. pose proof lookup_not_new. repeat case_decide; subst; congruence.
  - rewrite (ins_clauses _ _ _ _ Hin). auto.
Qed.

(** Only [n] and its negation are new. *)
Lemma inserted_only m : lookupLiteral s' m <> None -> m = n \/ m = notNode n \/ lookupLiteral s m <> None.
Proof. rewrite lookup_inserted. repeat case_decide; auto. Qed.

Lemma inserted_WF :
  (forall a, In a (leaves n) -> a = n \/ lookupLiteral s a <> None) -> WF s'.
Proof.
  intros Hlv. pose proof inserted_grow as [Hgr _]. pose proof (wf_vars s Hwf) as Hv2.
  assert (forall m, getKind m <> NOT -> m <> notNode n) as Hnn by (intros m Hm ->; by apply Hm).
  assert (nVars (d_satSolver s) <= nVars (d_satSolver s'))%Z as Hle.
  { rewrite (ins_vars _ _ _ _ Hin). destruct n; lia. }
  split.
  - lia.
  - rewrite (ins_clauses _ _ _ _ Hin). apply Hwf.
  - rewrite (ins_clauses _ _ _ _ Hin). apply Hwf.
  - rewrite (ins_removable _ _ _ _ Hin). apply Hwf.
  - intros m k. rewrite !lookup_inserted. intros Hm. destruct (decide (notNode m = n)) as [E|].
    { subst n. by destruct Hk. }
    destruct (decide (notNode m = notNode n)) as [E%notNode_inj|].
    { subst m. rewrite decide_True by done. injection Hm as <-. f_equal.
      unfold negLit. rewrite getSatVariable_mk, isNegated_mk, negb_involutive.
      rewrite (ins_lit _ _ _ _ Hin). by rewrite getSatVariable_mk, isNegated_mk. }
    pose proof (wf_not s Hwf m k Hm) as Hm'. repeat case_decide; subst; try congruence.
    by rewrite lookup_not_new in Hm'.
  - intros ch k. rewrite lookup_inserted. case_decide; [subst n; by destruct Hk |].
    case_decide as E; [by injection E as -> |]. apply (wf_not_arity s Hwf).
  - intros m k Hm. rewrite lookup_inserted. rewrite (decide_False (P := m = notNode n)) by auto.
    case_decide as E.
    + subst m. intros [= <-]. rewrite (ins_lit _ _ _ _ Hin), getSatVariable_mk. split; [done |].
      rewrite (ins_vars _ _ _ _ Hin). unfold newVariable. destruct n; try lia; done.
    + intros Hl. pose proof (wf_pos s Hwf m k Hm Hl) as [? Hc]. split; [done |]. destruct m; try done; lia.
  - intros m1 m2 k H1 H2. rewrite !lookup_inserted.
    rewrite (decide_False (P := m1 = notNode n)), (decide_False (P := m2 = notNode n)) by auto.
    assert (forall m, getKind m <> NOT -> lookupLiteral s m = Some l -> m = n) as Hfresh.
    { intros m Hm Hl. destruct (wf_pos s Hwf m l Hm Hl) as [_ Hr].
      rewrite (ins_lit _ _ _ _ Hin), getSatVariable_mk in Hr. unfold newVariable in Hr.
      unfold trueVar, falseVar in *. destruct m as [|[]| |], n as [|[]| |]; try lia; done. }
    repeat case_decide; subst; try done.
    + intros [= <-] Hl. symmetry. by apply Hfresh.
    + intros Hl [= <-]. by apply Hfresh.
    + apply (wf_inj s Hwf); done.
  - intros m k a. rewrite !lookup_inserted. intros Hm Ha.
    assert (In a (leaves n) -> (if decide (a = n) then Some l
       else if decide (a = notNode n) then Some (negLit l) else lookupLiteral s a) <> None) as Hn.
    { intros Ha'. destruct (Hlv a Ha') as [->|Ha2]; [by rewrite decide_True |]. repeat case_decide; done. }
    repeat case_decide; subst; try done; try (by apply Hn).
    + apply Hn. unfold notNode in Ha. rewrite leaves_structured in Ha by done. cbn in Ha. by rewrite app_nil_r in Ha.
    + by eapply (wf_leaves s Hwf).
Qed.
End inserted.

(** Fields the invariants do not look at may change. *)
Definition same (s s' : CnfStream) : Prop :=
  d_nodeToLiteralMap s' = d_nodeToLiteralMap s /\ d_satSolver s' = d_satSolver s /\
  d_removable s' = d_removable s.

Lemma same_lookup s s' n : same s s' -> lookupLiteral s' n = lookupLiteral s n.
Proof. intros [E _]. unfold lookupLiteral. by rewrite E. Qed.

Lemma same_trans a b c : same a b -> same b c -> same a c.
Proof. unfold same. intros (-> & -> & ->) (-> & -> & ->). done. Qed.

Lemma inserted_same n l a b c : inserted n l a b -> same b c -> inserted n l a c.
Proof. intros [? ? ? ? ?] (E1 & E2 & E3). split; congruence. Qed.

Section run.
Context {C : Type} (preRegister : Node -> SM (CnfStream * C) unit) (full : bool).

Lemma insert_safe_run l n (s : CnfStream) (c : C) :
  exists s', insert_safe l n (s, c) = Ok (tt, (s', c)) /\ same s s'.
Proof. eexists. split; [reflexivity | done]. Qed.

(** The optional recording of the literal's node. *)
Lemma record_run (b : bool) l n (s : CnfStream) (c : C) :
  exists s', (if b then _ ← insert_safe l n; insert_safe (negLit l) (notNode n) else mret tt) (s, c)
             = Ok (tt, (s', c)) /\ same s s'.
Proof.
  destruct b; [| by exists s].
  destruct (insert_safe_run l n s c) as (s1 & E1 & H1).
  destruct (insert_safe_run (negLit l) (notNode n) s1 c) as (s2 & E2 & H2).
  exists s2. split; [| by eapply same_trans]. unfold mbind, SM_bind. by rewrite E1, E2.
Qed.

(** Making the literal of a node that has none. *)
Lemma make_literal_run n (s : CnfStream) (c : C) :
  WF s -> getKind n <> NOT -> lookupLiteral s n = None ->
  exists l s', (lit ← match n with
                 | ConstBool b => mret (mkSatLiteral (if b then trueVar else falseVar) false)
                 | _ => v ← new_var; mret (mkSatLiteral v false)
                 end;
           _ ← insertNode n lit; _ ← insertNode (notNode n) (negLit lit); mret lit) (s, c)
    = Ok (l, (s', c)) /\ inserted n l s s'.
Proof.
  intros Hwf Hk Hn. pose proof (lookup_not_new n s Hwf Hn) as Hn'.
  set (l := mkSatLiteral (newVariable s n) false).
  set (sat' := MkSatSolver (match n with ConstBool _ => nVars (d_satSolver s) | _ => nVars (d_satSolver s) + 1 end)%Z
                 (clauses (d_satSolver s))).
  set (s1 := MkCnfStream sat' (d_booleanVariables s) (d_nodeToLiteralMap s) (d_literalToNodeMap s) (d_removable s)).
  set (m := match n with
                 | ConstBool b => mret (mkSatLiteral (if b then trueVar else falseVar) false)
                 | _ => v ← new_var; mret (mkSatLiteral v false)
                 end : SM (CnfStream * C) SatLiteral).
  assert (m (s, c) = Ok (l, (s1, c))) as E.
  { unfold m, l, s1, sat'. destruct n; try reflexivity. destruct s as [[] ? ? ? ?]; reflexivity. }
  assert (forall k y (t : CnfStream), lookupLiteral t k = None ->
    insertNode k y (t, c) = Ok (tt, (MkCnfStream (d_satSolver t) (d_booleanVariables t)
      (d_nodeToLiteralMap t ++ [(k, y)]) (d_literalToNodeMap t) (d_removable t), c))) as Hi.
  { intros k y t Hk'. unfold insertNode, hasLiteral, cnf_gets, mbind, SM_bind. cbn. by rewrite Hk'. }
  eexists l, _. split.
  - unfold mbind, SM_bind. rewrite E. cbv beta iota. rewrite Hi by done. cbv beta iota. rewrite Hi; [reflexivity |].
    unfold lookupLiteral in *. cbn. rewrite assoc_app, Hn'. cbn. by rewrite decide_False by apply notNode_ne.
  - split; cbn; [done | by rewrite <- app_assoc | done | done | done].
Qed.

Lemma newLiteral_run n th (s : CnfStream) (c : C) :
  WF s -> getKind n <> NOT ->
  exists l s', newLiteral preRegister full n th false (s, c) = Ok (l, (s', c)) /\
    (lookupLiteral s n = None /\ inserted n l s s' \/ lookupLiteral s n = Some l /\ same s s').
Proof.
  intros Hwf Hk. unfold newLiteral.
  assert (sassert (C:=C) (negb (bool_decide (getKind n = NOT))) (s, c) = Ok (tt, (s, c))) as E0.
  { unfold sassert, lift. by rewrite (bool_decide_false _ Hk). }
  unfold mbind at 1, SM_bind at 1. rewrite E0. cbv beta iota.
  unfold hasLiteral, cnf_gets at 1. unfold mbind at 1, SM_bind at 1. cbv beta iota. cbn [fst].
  destruct (lookupLiteral s n) as [l|] eqn:El; cbn [negb].
  - destruct (record_run (th || full) l n s c) as (s1 & E1 & H1). exists l, s1.
    unfold getLiteral, cnf_gets, mbind, SM_bind in *. cbn [fst]. rewrite El. cbv beta iota.
    unfold mret at 1, SM_ret at 1. cbv beta iota. rewrite E1. split; [done | by right].
  - destruct (make_literal_run n s c Hwf Hk El) as (l & s0 & E0' & H0).
    destruct (record_run (th || full) l n s0 c) as (s1 & E1 & H1). exists l, s1.
    unfold mbind, SM_bind in *. rewrite E0'. cbv beta iota. rewrite E1. cbn. split; [done |].
    left. split; [done | by eapply inserted_same].
Qed.

Definition with_clauses (s : CnfStream) (cs : list SatClause) : CnfStream :=
  MkCnfStream (MkSatSolver (nVars (d_satSolver s)) (clauses (d_satSolver s) ++ cs)) (d_booleanVariables s)
    (d_nodeToLiteralMap s) (d_literalToNodeMap s) (d_removable s).

Lemma assertClauses_run cs (s : CnfStream) (c : C) :
  assertClauses cs (s, c) = Ok (tt, (with_clauses s cs, c)).
Proof.
  revert s. induction cs as [|d cs IH]; intros s; cbn.
  - unfold with_clauses, mret, SM_ret. rewrite app_nil_r. by destruct s as [[] ? ? ? ?].
  - unfold mbind, SM_bind. cbn. rewrite IH. unfold with_clauses. cbn. by rewrite <- app_assoc.
Qed.
End run.

(** ** The conversion, against the registrar's contract *)
Section cnf_ok.
Context {C : Type} (preRegister : Node -> SM (CnfStream * C) unit) (full : bool).
Abbreviation St := (CnfStream * C)%type.
Context (al : Z -> bool) (mu : Node -> bool).
(** [Cond]: what the registrar needs to keep [al] a model (see [ext]). *)
Context (Cond : Prop).
(** The client: its registered atoms, its invariant, and what it needs of an atom
    handed to [preRegister]. *)
Context (reg : C -> Node -> Prop) (CI : St -> Prop) (Pre : Node -> St -> Prop).
Context (cext : St -> St -> Prop) {Hcext : PreOrder cext}.

Definition Inv (st : St) : Prop := WF st.1 /\ Sound al mu st.1 /\ CI st.

Record ext (st st' : St) : Prop := {
  ext_grow : grow st.1 st'.1;
  ext_delta : Cond -> Faithful al mu st'.1 -> sat al st.1 -> sat al st'.1;
  ext_new a : theoryLeaf a = true -> lookupLiteral st'.1 a <> None ->
              lookupLiteral st.1 a = None -> reg st'.2 a;
  ext_c : cext st st'
}.

Hypothesis cext_grow : forall s s' c, grow s s' -> cext (s, c) (s', c).
Hypothesis reg_mono : forall st st' a, cext st st' -> reg st.2 a -> reg st'.2 a.
Hypothesis CI_grow : forall s s' c, grow s s' -> CI (s, c) -> CI (s', c).
Hypothesis Pre_ext : forall a st st', ext st st' -> Pre a st -> Pre a st'.
Hypothesis Pre_insert : forall a s s' c,
  grow s s' ->
  (forall n, theoryLeaf n = true -> n <> a -> lookupLiteral s' n <> None -> lookupLiteral s n <> None) ->
  Pre a (s, c) -> Pre a (s', c).

#[local] Instance ext_preorder : PreOrder ext.
Proof.
  split.
  - intros [s c]. split; cbn; [reflexivity | done | congruence | reflexivity].
  - intros a b c [g1 d1 n1 c1] [g2 d2 n2 c2]. split.
    + by etrans.
    + intros HC HF Hs. apply d2; [done | done |]. apply d1; [done | | done]. by eapply grow_Faithful.
    + intros x Hx H1 H2. destruct (lookupLiteral b.1 x) eqn:E; [| by apply n2].
      eapply reg_mono; [exact c2 |]. apply n1; [done | congruence | done].
    + by etrans.
Qed.

Abbreviation wp := (wp Inv ext).

Hypothesis preRegister_ok : forall a st,
  theoryLeaf a = true -> lookupLiteral st.1 a <> None -> Pre a st -> Inv st ->
  wp (preRegister a) (fun st' _ => reg st'.2 a) st.

(** A step that changes only the stream. *)
Lemma ext_stream s s' c :
  grow s s' -> (Cond -> Faithful al mu s' -> sat al s -> sat al s') ->
  (forall a, theoryLeaf a = true -> lookupLiteral s' a <> None -> lookupLiteral s a <> None) ->
  ext (s, c) (s', c).
Proof.
  intros Hg Hd Hn. split; cbn; [done | done | | by apply cext_grow].
  intros a Ha H1 H2. by destruct (Hn a Ha H1).
Qed.

Lemma Faithful_not s n l : Faithful al mu s -> lookupLiteral s n = Some l -> lval al l = peval mu n.
Proof. auto. Qed.

(** A new leaf keeps the translation sound. *)
Lemma inserted_leaf_Sound n l s s' :
  WF s -> lookupLiteral s n = None -> structured n = false -> getKind n <> NOT ->
  inserted n l s s' -> Sound al mu s -> Sound al mu s'.
Proof.
  intros Hwf Hn Hs Hk Hin Hsd Hsat Hag m k.
  pose proof (inserted_grow n l s s' Hwf Hn Hin) as Hg.
  pose proof (Hsd (grow_sat _ _ _ Hg Hsat) (grow_Agree _ _ _ _ Hg Hag)) as HF.
  assert (lval al l = peval mu n) as Hl.
  { rewrite peval_leaf by done. pose proof (inserted_lookup n l s s' Hwf Hn Hin) as Hln.
    destruct n as [|b| |]; try (by apply Hag). rewrite (ins_lit _ _ _ _ Hin). rewrite lval_mk. cbn.
    pose proof (Hsat _ (eq_ind_r (fun cs => In _ cs) (wf_true s Hwf) (ins_clauses _ _ _ _ Hin))) as Ht.
    pose proof (Hsat _ (eq_ind_r (fun cs => In _ cs) (wf_false s Hwf) (ins_clauses _ _ _ _ Hin))) as Hf.
    cbn in Ht, Hf. rewrite lval_mk, orb_false_r in Ht, Hf. destruct b, (al trueVar), (al falseVar); done. }
  rewrite (lookup_inserted n l s s' Hwf Hn Hin). repeat case_decide; subst.
  - by intros [= <-].
  - intros [= <-]. rewrite lval_neg, Hl. done.
  - apply HF.
Qed.

(** The node's literal and the clauses that define it. *)
Lemma define_ok n th (cls : SatLiteral -> list SatClause) st :
  Inv st -> getKind n <> NOT -> structured n = true ->
  (forall a, In a (leaves n) -> lookupLiteral st.1 a <> None) ->
  (forall l, Faithful al mu st.1 -> lval al l = peval mu n -> forall c, In c (cls l) -> sat_clause al c = true) ->
  (forall l, Faithful al mu st.1 -> (forall c, In c (cls l) -> sat_clause al c = true) -> lval al l = peval mu n) ->
  wp (lit ← newLiteral preRegister full n th false; _ ← assertClauses (cls lit); mret lit)
     (fun st' l => lookupLiteral st'.1 n = Some l) st.
Proof.
  destruct st as [s c]. intros (Hwf & Hsd & HCI) Hk Hs Hlv H1 H2. cbn [fst] in *.
  destruct (newLiteral_run preRegister full n th s c Hwf Hk) as (l & s1 & E & Hcase).
  set (s2 := with_clauses s1 (cls l)).
  assert (forall m, lookupLiteral s2 m = lookupLiteral s1 m) as Hl2 by done.
  assert (clauses (d_satSolver s1) = clauses (d_satSolver s)) as Hc1.
  { destruct Hcase as [[_ Hin] | [_ (_ & -> & _)]]; [by apply Hin | done]. }
  assert (grow s s1) as Hg1.
  { destruct Hcase as [[Hn Hin] | [_ Hsm]]; [by eapply inserted_grow |].
    split; [intros m k; by rewrite (same_lookup _ _ _ Hsm) | by rewrite Hc1]. }
  assert (grow s s2) as Hg2.
  { etrans; [exact Hg1 |]. split; [auto |]. intros d Hd. cbn. apply in_or_app. by left. }
  assert (lookupLiteral s1 n = Some l) as Hln.
  { destruct Hcase as [[Hn Hin] | [Hn Hsm]]; [by eapply inserted_lookup | by rewrite (same_lookup _ _ _ Hsm)]. }
  exists (s2, c), l. split; [| split; [| split]].
  - unfold mbind, SM_bind. rewrite E. cbv beta iota. by rewrite assertClauses_run.
  - split; [| split; cbn [fst]].
    + assert (WF s1) as Hwf1.
      { destruct Hcase as [[Hn Hin] | [Hn Hsm]].
        - apply (inserted_WF n l s s1 Hwf Hn Hk Hin). intros a Ha. right. by apply Hlv.
        - destruct Hsm as (Em & Es & Er). split; intros; unfold lookupLiteral in *; rewrite ?Em, ?Es, ?Er in *;
            eauto using wf_vars, wf_true, wf_false, wf_removable, wf_not, wf_not_arity, wf_pos, wf_inj, wf_leaves. }
      destruct Hwf1. split; cbn in *; eauto; apply in_or_app; by left.
    + intros Hsat Hag. pose proof (Hsd (grow_sat _ _ _ Hg2 Hsat) (grow_Agree _ _ _ _ Hg2 Hag)) as HF.
      assert (lval al l = peval mu n) as Hv.
      { apply H2; [done |]. intros d Hd. apply Hsat. cbn. apply in_or_app. by right. }
      intros m k. rewrite Hl2. destruct Hcase as [[Hn Hin] | [Hn Hsm]].
      * rewrite (lookup_inserted n l s s1 Hwf Hn Hin). repeat case_decide; subst; [by intros [= <-] | | apply HF].
        intros [= <-]. by rewrite lval_neg, Hv.
      * rewrite (same_lookup _ _ _ Hsm). apply HF.
    + by eapply CI_grow.
  - apply ext_stream; [done | |].
    + intros _ HF Hsat d Hd. cbn in Hd. apply in_app_or in Hd as [Hd|Hd]; [apply Hsat; by rewrite <- Hc1 |].
      apply (H1 l); [by eapply grow_Faithful | by apply HF | done].
    + intros a Ha. rewrite Hl2. destruct Hcase as [[Hn Hin] | [Hn Hsm]].
      * intros Ha1. destruct (inserted_only n l s s1 Hwf Hn Hin a Ha1) as [->|[->|]]; [| done | done].
        unfold theoryLeaf in Ha. by rewrite Hs in Ha.
      * by rewrite (same_lookup _ _ _ Hsm).
  - done.
Qed.

(** With [preRegister] requested, the literal is made first. *)
Lemma newLiteral_prereg_run n th st l st1 :
  newLiteral preRegister full n th false st = Ok (l, st1) ->
  newLiteral preRegister full n th true st =
    (backup ← cnf_gets d_removable; _ ← preRegister n; _ ← set_removable backup; mret l) st1.
Proof.
  unfold newLiteral, mbind, SM_bind. intros H.
  destruct (sassert _ st) as [[[] st2]|]; [| done]. destruct (hasLiteral n st2) as [[has st3]|]; [| done].
  match goal with |- match ?m st3 with _ => _ end = _ => destruct (m st3) as [[l' st4]|] end; [| done].
  match goal with |- match ?m st4 with _ => _ end = _ => destruct (m st4) as [[[] st5]|] end; [| done].
  cbn in H. injection H as -> ->.
  destruct (cnf_gets d_removable st1) as [[r st6]|]; [| done].
  destruct (preRegister n st6) as [[[] st7]|]; [| done].
  by destruct (set_removable r st7) as [[[] st8]|].
Qed.

Lemma set_removable_id (st : St) : d_removable st.1 = false -> set_removable false st = Ok (tt, st).
Proof. destruct st as [[] c]. cbn. by intros ->. Qed.

Lemma WF_same s s' : same s s' -> WF s -> WF s'.
Proof.
  intros (Em & Es & Er) Hwf. split; intros; unfold lookupLiteral in *; rewrite ?Em, ?Es, ?Er in *;
    eauto using wf_vars, wf_true, wf_false, wf_removable, wf_not, wf_not_arity, wf_pos, wf_inj, wf_leaves.
Qed.

Lemma inserted_before n l s0 s s' : same s s0 -> inserted n l s0 s' -> inserted n l s s'.
Proof.
  intros (E1 & E2 & E3) [Hl Hm Hc Hv Hr]. unfold newVariable in *. rewrite E1, E2, E3 in *. by split.
Qed.

Lemma convertAtom_ok n st :
  Inv st -> structured n = false -> lookupLiteral st.1 n = None ->
  (theoryLeaf n = true -> Pre n st) ->
  wp (convertAtom preRegister full n false) (fun st' l => lookupLiteral st'.1 n = Some l) st.
Proof.
  destruct st as [s c]. intros (Hwf & Hsd & HCI) Hs Hn HP. cbn [fst] in *.
  assert (getKind n <> NOT) as Hk by (intros E; destruct n; try done; by cbn in E; subst).
  assert (forall l s1, inserted n l s s1 -> Inv (s1, c) /\ grow s s1 /\ lookupLiteral s1 n = Some l) as Hins.
  { intros l s1 Hin. pose proof (inserted_grow n l s s1 Hwf Hn Hin) as Hg. split; [| split; [done |]].
    - split; [| split; cbn [fst]; [by eapply inserted_leaf_Sound | by eapply CI_grow]].
      apply (inserted_WF n l s s1 Hwf Hn Hk Hin). intros a. rewrite leaves_leaf by done.
      intros [->|[]]. by left.
    - by eapply inserted_lookup. }
  unfold convertAtom, hasLiteral, cnf_gets. unfold Prelude.wp, mbind, SM_bind. cbn [fst]. rewrite Hn.
  cbn [negb sassert lift check]. destruct (isVar n) eqn:Hv.
  - cbn [cnf]. set (s0 := MkCnfStream _ _ _ _ _). assert (same s s0) as Hsame by done.
    destruct (newLiteral_run preRegister full n false s0 c (WF_same _ _ Hsame Hwf) Hk) as (l & s1 & E & [[_ Hin] | [Hl _]]).
    2: { rewrite (same_lookup _ _ _ Hsame) in Hl. congruence. }
    apply (inserted_before _ _ _ s) in Hin; [| done]. destruct (Hins l s1 Hin) as (Hi & Hg & Hl).
    exists (s1, c), l. split; [exact E |]. split; [done |]. split; [| done].
    apply ext_stream; [done | |].
    + intros _ _ Hsat d Hd. apply Hsat. by rewrite (ins_clauses _ _ _ _ Hin) in Hd.
    + intros a Ha Hla. destruct (inserted_only n l s s1 Hwf Hn Hin a Hla) as [->|[->|]]; [| done | done].
      unfold theoryLeaf in Ha. by rewrite Hv, andb_false_r in Ha.
  - destruct (newLiteral_run preRegister full n true s c Hwf Hk) as (l & s1 & E & [[_ Hin] | [Hl _]]);
      [| congruence].
    rewrite (newLiteral_prereg_run _ _ _ _ _ E). destruct (Hins l s1 Hin) as (Hi & Hg & Hl).
    assert (theoryLeaf n = true) as Ht by (unfold theoryLeaf; by rewrite Hs, Hv).
    assert (forall m, theoryLeaf m = true -> m <> n -> lookupLiteral s1 m <> None -> lookupLiteral s m <> None) as Hold.
    { intros m Hm Hne Hlm. destruct (inserted_only n l s s1 Hwf Hn Hin m Hlm) as [->|[->|]]; done. }
    destruct (preRegister_ok n (s1, c)) as (st2 & [] & E2 & Hi2 & He2 & Hr); [done | cbn; congruence | | done |].
    { apply (Pre_insert n s s1 c Hg); [| auto]. intros m Hm Hne. by apply Hold. }
    exists st2, l. split; [| split; [done |]].
    + unfold cnf_gets, mbind, SM_bind. cbn [fst]. rewrite E2.
      destruct Hi as [Hwf1 _], Hi2 as [Hwf2 _]. cbn [fst] in Hwf1.
      by rewrite (wf_removable _ Hwf1), (set_removable_id _ (wf_removable _ Hwf2)).
    + destruct He2 as [g d nw ce]. cbn [fst] in *. split; [| by apply g].
      split; cbn; [by etrans | | | etrans; [by apply (cext_grow s s1) | done]].
      * intros HC HF Hsat. apply d; [done | done |]. intros x Hx. apply Hsat. by rewrite (ins_clauses _ _ _ _ Hin) in Hx.
      * intros a Ha H1 H2. destruct (decide (a = n)) as [->|Hne]; [done |].
        apply nw; [done | done |]. destruct (lookupLiteral s1 a) eqn:Ea; [| done].
        destruct (Hold a Ha Hne); [congruence | done].
Qed.

(** *** [toCNF] *)
Definition node_pre (n : Node) (st : St) : Prop :=
  forall a, In a (leaves n) -> theoryLeaf a = true -> Pre a st.
Definition lits_known (n : Node) (st : St) : Prop :=
  forall a, In a (leaves n) -> lookupLiteral st.1 a <> None.
(** The literal [l] stands for [n] (negated if [neg]). *)
Definition stands (n : Node) (neg : bool) (st : St) (l : SatLiteral) : Prop :=
  (Faithful al mu st.1 -> lval al l = xorb neg (peval mu n)) /\ lits_known n st.
Definition good (n : Node) : Prop :=
  forall neg st, Inv st -> node_pre n st -> wp (toCNF preRegister full n neg) (stands n neg) st.

Lemma node_pre_ext n st st' : ext st st' -> node_pre n st -> node_pre n st'.
Proof. intros He H a Ha Ht. eapply Pre_ext; eauto. Qed.

Lemma stands_ext n neg st st' l : ext st st' -> stands n neg st l -> stands n neg st' l.
Proof.
  intros He [H1 H2]. pose proof (ext_grow _ _ He) as Hg. split.
  - intros HF. apply H1. by eapply grow_Faithful.
  - intros a Ha Hn. specialize (H2 a Ha). destruct (lookupLiteral st.1 a) eqn:E; [| done].
    apply (proj1 Hg) in E. congruence.
Qed.

Lemma stands_lookup n st l : Inv st -> lookupLiteral st.1 n = Some l -> stands n false st l.
Proof.
  intros (Hwf & _) Hl. split; [intros HF; rewrite (HF _ _ Hl); by destruct (peval mu n) |].
  intros a Ha. by eapply (wf_leaves _ Hwf).
Qed.

Lemma node_pre_child k ch st :
  structured (MkNode k ch) = true -> node_pre (MkNode k ch) st -> Forall (fun c => node_pre c st) ch.
Proof.
  intros Hs H. apply Forall_forall. intros c Hc a Ha. apply H. rewrite leaves_structured by done.
  apply in_concat. exists (leaves c). split; [| done]. apply in_map. by apply list_elem_of_In.
Qed.

Lemma wp_run_all neg ch st :
  Forall good ch -> Inv st -> Forall (fun c => node_pre c st) ch ->
  wp (run_all (map (fun c => toCNF preRegister full c neg) ch))
     (fun st' ls => Forall2 (fun c l => stands c neg st' l) ch ls) st.
Proof.
  intros Hg. revert st. induction Hg as [|c ch Hc _ IH]; intros st Hi Hp; cbn [map run_all].
  - apply wp_ret; [apply _ | done |]. constructor.
  - apply Forall_cons in Hp as [Hpc Hp].
    eapply wp_bind; [apply _ | by apply Hc |]. intros st1 l Hi1 He1 Hl.
    eapply wp_bind; [apply _ | apply IH; [done |] |].
    { eapply Forall_impl; [exact Hp |]. intros d. by apply node_pre_ext. }
    intros st2 ls Hi2 He2 Hls. apply wp_ret; [apply _ | done |]. constructor; [by eapply stands_ext | done].
Qed.

Lemma wp_kid {A} neg ch i c (f : SatLiteral -> SM St A) R st :
  ch !! i = Some c -> good c -> Inv st -> node_pre c st ->
  (forall st' l, Inv st' -> ext st st' -> stands c neg st' l -> wp (f l) R st') ->
  wp (kid (map (fun c => toCNF preRegister full c neg) ch) i ≫= f) R st.
Proof.
  intros Hc Hg Hi Hp Hf. unfold kid. rewrite list_lookup_fmap, Hc. cbn.
  eapply wp_bind; [apply _ | by apply Hg | exact Hf].
Qed.

Lemma wp_gets {A B} (g : CnfStream -> A) (f : A -> SM St B) R st :
  wp (f (g st.1)) R st -> wp (cnf_gets g ≫= f) R st.
Proof. done. Qed.

Lemma wp_sassert {A} b (f : unit -> SM St A) R st : b = true -> wp (f tt) R st -> wp (sassert b ≫= f) R st.
Proof. intros -> ?. by eapply wp_lift. Qed.

Lemma wp_assoc {A B D} (m : SM St A) (f : A -> SM St B) (g : B -> SM St D) R st :
  wp (x ← m; y ← f x; g y) R st -> wp (y ← (x ← m; f x); g y) R st.
Proof.
  intros (s' & a & H & ?). exists s', a. split; [| done]. rewrite <- H. unfold mbind, SM_bind.
  by destruct (m st) as [[? ?]|].
Qed.

Lemma wp_handle_pre {A} k ch ok (f : unit -> SM St A) R st :
  lookupLiteral st.1 (MkNode k ch) = None -> ok = true -> wp (f tt) R st ->
  wp (handle_pre (MkNode k ch) k ok ≫= f) R st.
Proof.
  intros Hn -> Hf. unfold handle_pre. apply wp_assoc. unfold hasLiteral. apply wp_gets. rewrite Hn.
  repeat (apply wp_assoc; apply wp_sassert; [by rewrite ?bool_decide_true |]).
  by apply wp_sassert.
Qed.

Lemma wp_not_removable {A} (f : unit -> SM St A) R st :
  Inv st -> wp (f tt) R st -> wp (not_removable ≫= f) R st.
Proof.
  intros (Hwf & _) Hf. unfold not_removable. apply wp_assoc. apply wp_gets.
  apply wp_sassert; [by rewrite (wf_removable _ Hwf) | done].
Qed.

(** The end of a handler: define the literal of [n] by [cls]. *)
Lemma wp_define n cls st :
  Inv st -> getKind n <> NOT -> structured n = true -> lits_known n st ->
  (forall l, Faithful al mu st.1 ->
     (lval al l = peval mu n <-> forallb (sat_clause al) (cls l) = true)) ->
  wp (lit ← newLiteral preRegister full n false false; _ ← assertClauses (cls lit); mret lit)
     (stands n false) st.
Proof.
  intros Hi Hk Hs Hlv Heq.
  eapply wp_mono; [apply (define_ok n false cls st Hi Hk Hs Hlv) |].
  - intros l HF Hl c Hc. apply Heq in Hl; [| done]. rewrite forallb_forall in Hl. by apply Hl.
  - intros l HF Hc. apply Heq; [done |]. by apply forallb_forall.
  - intros st' l Hi' _ Hl. by apply stands_lookup.
Qed.

(** Two children, in order. *)
Lemma wp_two_kids {A} neg c0 c1 (f : SatLiteral -> SatLiteral -> SM St A) R st :
  Forall good [c0; c1] -> Inv st -> Forall (fun c => node_pre c st) [c0; c1] ->
  (forall st' a b, Inv st' -> ext st st' -> stands c0 neg st' a -> stands c1 neg st' b -> wp (f a b) R st') ->
  wp (a ← kid (map (fun c => toCNF preRegister full c neg) [c0; c1]) 0;
      b ← kid (map (fun c => toCNF preRegister full c neg) [c0; c1]) 1; f a b) R st.
Proof.
  intros [Hg0 [Hg1 _]%Forall_cons]%Forall_cons Hi [Hp0 [Hp1 _]%Forall_cons]%Forall_cons Hf.
  eapply wp_kid; [done | done | done | done |]. intros st1 a Hi1 He1 Ha.
  eapply wp_kid; [done | done | done | by eapply node_pre_ext |]. intros st2 b Hi2 He2 Hb.
  apply Hf; [done | by etrans | by eapply stands_ext | done].
Qed.

Lemma lits_known_node k ch st :
  structured (MkNode k ch) = true -> Forall (fun c => lits_known c st) ch -> lits_known (MkNode k ch) st.
Proof.
  intros Hs H a. rewrite leaves_structured by done. intros (l & Hl & Ha)%in_concat.
  apply in_map_iff in Hl as (c & <- & Hc). rewrite Forall_forall in H.
  by apply (H c); [apply list_elem_of_In |].
Qed.

Lemma lits_known_all k ch neg st ls :
  structured (MkNode k ch) = true -> Forall2 (fun c l => stands c neg st l) ch ls ->
  lits_known (MkNode k ch) st.
Proof.
  intros Hs H. apply lits_known_node; [done |]. clear Hs.
  induction H as [|c l ch ls [_ Hc] _ IH]; constructor; done.
Qed.

Lemma stands_values neg st ch ls :
  Faithful al mu st.1 -> Forall2 (fun c l => stands c neg st l) ch ls ->
  map (lval al) ls = map (fun c => xorb neg (peval mu c)) ch.
Proof.
  intros HF H. induction H as [|c l ch ls [Hc _] _ IH]; [done |]. cbn. by rewrite IH, Hc.
Qed.

Lemma existsb_map {A} (f : A -> bool) l : existsb f l = existsb id (map f l).
Proof. induction l as [|a l IH]; [done |]. cbn. by rewrite IH. Qed.

Lemma forallb_map {A} (f : A -> bool) l : forallb f l = forallb id (map f l).
Proof. induction l as [|a l IH]; [done |]. cbn. by rewrite IH. Qed.

(** The clauses of a disjunction and of a conjunction define their literal. *)
Lemma or_clauses ls o :
  forallb (sat_clause al) (map (fun l => [o; negLit l]) ls ++ [ls ++ [negLit o]]) = true <->
  lval al o = existsb (lval al) ls.
Proof.
  rewrite forallb_app, andb_true_iff. cbn. unfold sat_clause. rewrite existsb_app, andb_true_r. cbn.
  rewrite lval_neg, orb_false_r. rewrite forallb_map, map_map.
  assert (forallb id (map (fun l => existsb (lval al) [o; negLit l]) ls) = lval al o || negb (existsb (lval al) ls)) as ->.
  { induction ls as [|l ls IH]; cbn in *; [by rewrite orb_true_r |]. rewrite IH, lval_neg. unfold id.
    by destruct (lval al o), (lval al l), (existsb (lval al) ls). }
  destruct (lval al o), (existsb (lval al) ls); cbn; naive_solver.
Qed.

Lemma and_clauses ls o :
  forallb (sat_clause al) (map (fun l => [negLit o; negLit l]) (map negLit ls) ++ [map negLit ls ++ [o]]) = true <->
  lval al o = forallb (lval al) ls.
Proof.
  rewrite forallb_app, andb_true_iff. cbn. unfold sat_clause. rewrite existsb_app, andb_true_r. cbn.
  rewrite orb_false_r, map_map, (existsb_map (lval al)), forallb_map, !map_map.
  assert (forallb id (map (fun l => existsb (lval al) [negLit o; negLit (negLit l)]) ls)
          = negb (lval al o) || forallb (lval al) ls) as ->.
  { induction ls as [|l ls IH]; cbn in *; [by rewrite orb_true_r |]. rewrite IH, !lval_neg. unfold id.
    by destruct (lval al o), (lval al l), (forallb (lval al) ls). }
  assert (existsb id (map (fun l => lval al (negLit l)) ls) = negb (forallb (lval al) ls)) as ->.
  { induction ls as [|l ls IH]; cbn in *; [done |]. rewrite IH, lval_neg. unfold id.
    by destruct (lval al l), (forallb (lval al) ls). }
  destruct (lval al o), (forallb (lval al) ls); cbn; naive_solver.
Qed.

Ltac solve_define :=
  intros o HF; cbn [peval map forallb sat_clause existsb]; unfold sat_clause; cbn [existsb];
  rewrite ?lval_neg;
  repeat match goal with H : stands ?c _ _ ?l |- _ => rewrite (proj1 H HF); clear H end;
  repeat match goal with |- context [peval mu ?c] => destruct (peval mu c) end;
  destruct (lval al o); cbn; naive_solver.

Section handlers.
Variables (ch : list Node) (st : St).
Hypothesis Hg : Forall good ch.
Hypothesis Hi : Inv st.
Abbreviation kids := (map (fun c => toCNF preRegister full c false) ch).
Abbreviation handles h k :=
  (lookupLiteral st.1 (MkNode k ch) = None -> arity_ok k (length ch) = true ->
   structured (MkNode k ch) = true -> node_pre (MkNode k ch) st ->
   wp (h (MkNode k ch) kids) (stands (MkNode k ch) false) st).

Lemma handleXor_ok : handles (handleXor preRegister full) XOR.
Proof.
  intros Hn Ha Hs Hp. apply node_pre_child in Hp; [| done].
  destruct ch as [|c0 [|c1 [|]]]; try done. unfold handleXor.
  apply wp_handle_pre; [done | done |]. apply wp_not_removable; [done |].
  eapply wp_two_kids; [done | done | done |]. intros st1 a b Hi1 He1 H0 H1.
  apply (wp_define _ (fun xorLit => [[a; b; negLit xorLit]; [negLit a; negLit b; negLit xorLit];
     [a; negLit b; xorLit]; [negLit a; b; xorLit]])); [done | done | done | |].
  - apply lits_known_node; [done |]. repeat constructor; [apply H0 | apply H1].
  - solve_define.
Qed.

Lemma handleImplies_ok : handles (handleImplies preRegister full) IMPLIES.
Proof.
  intros Hn Ha Hs Hp. apply node_pre_child in Hp; [| done].
  destruct ch as [|c0 [|c1 [|]]]; try done. unfold handleImplies.
  apply wp_handle_pre; [done | done |]. apply wp_not_removable; [done |].
  eapply wp_two_kids; [done | done | done |]. intros st1 a b Hi1 He1 H0 H1.
  apply (wp_define _ (fun impliesLit => [[negLit impliesLit; negLit a; b]; [a; impliesLit];
     [negLit b; impliesLit]])); [done | done | done | |].
  - apply lits_known_node; [done |]. repeat constructor; [apply H0 | apply H1].
  - solve_define.
Qed.

Lemma handleIff_ok : child0_boolean ch = Ok true -> handles (handleIff preRegister full) EQUAL.
Proof.
  intros Hb Hn Ha Hs Hp. apply node_pre_child in Hp; [| done].
  destruct ch as [|c0 [|c1 [|]]]; try done. unfold handleIff.
  apply wp_handle_pre; [done | done |].
  eapply wp_two_kids; [done | done | done |]. intros st1 a b Hi1 He1 H0 H1.
  apply (wp_define _ (fun iffLit => [[negLit a; b; negLit iffLit]; [a; negLit b; negLit iffLit];
     [negLit a; negLit b; iffLit]; [a; b; iffLit]])); [done | done | done | |].
  - apply lits_known_node; [done |]. repeat constructor; [apply H0 | apply H1].
  - intros o HF. cbn [peval]. rewrite Hb. revert o HF. solve_define.
Qed.

Lemma handleIte_ok : handles (handleIte preRegister full) ITE.
Proof.
  intros Hn Ha Hs Hp. apply node_pre_child in Hp; [| done].
  destruct ch as [|c0 [|c1 [|c2 [|]]]]; try done. unfold handleIte.
  do 2 (apply wp_sassert; [done |]). apply wp_not_removable; [done |].
  apply Forall_cons in Hg as [Hg0 [Hg1 [Hg2 _]%Forall_cons]%Forall_cons].
  apply Forall_cons in Hp as [Hp0 [Hp1 [Hp2 _]%Forall_cons]%Forall_cons].
  eapply wp_kid; [done | done | done | done |]. intros st1 c Hi1 He1 H0.
  eapply wp_kid; [done | done | done | by eapply node_pre_ext |]. intros st2 t Hi2 He2 H1.
  eapply wp_kid; [done | done | done | eapply node_pre_ext; [| done]; by etrans |]. intros st3 e Hi3 He3 H2.
  apply (stands_ext _ _ _ _ _ He3) in H1. apply (stands_ext _ _ _ st3) in H0; [| by etrans].
  apply (wp_define _ (fun iteLit => [[negLit iteLit; t; e]; [negLit iteLit; negLit c; t]; [negLit iteLit; c; e];
     [iteLit; negLit t; negLit e]; [iteLit; negLit c; negLit t]; [iteLit; c; negLit e]])); [done | done | done | |].
  - apply lits_known_node; [done |]. repeat constructor; [apply H0 | apply H1 | apply H2].
  - solve_define.
Qed.

Lemma handleOr_ok : handles (handleOr preRegister full) OR.
Proof.
  intros Hn Ha Hs Hp. apply node_pre_child in Hp; [| done]. unfold handleOr.
  apply wp_handle_pre; [done | |].
  { unfold getNumChildren. cbn [children]. unfold arity_ok in Ha. cbn in Ha. apply Nat.ltb_lt.
    destruct (length ch) as [|[|]]; try done; lia. }
  apply wp_not_removable; [done |].
  eapply wp_bind; [apply _ | by apply wp_run_all |]. intros st1 ls Hi1 He1 Hls. cbv beta in Hls.
  apply (wp_define _ (fun o => map (fun l => [o; negLit l]) ls ++ [ls ++ [negLit o]])); [done | done | done | |].
  - by eapply lits_known_all.
  - intros o HF. rewrite or_clauses, existsb_map, (stands_values _ _ _ _ HF Hls). cbn [xorb peval].
    replace (map (fun c => xorb false (peval mu c)) ch) with (map (peval mu) ch); [done |].
    apply map_ext. by intros c; destruct (peval mu c).
Qed.

Lemma handleAnd_ok : handles (handleAnd preRegister full) AND.
Proof.
  intros Hn Ha Hs Hp. apply node_pre_child in Hp; [| done]. unfold handleAnd.
  apply wp_handle_pre; [done | |].
  { unfold getNumChildren. cbn [children]. unfold arity_ok in Ha. cbn in Ha. apply Nat.ltb_lt.
    destruct (length ch) as [|[|]]; try done; lia. }
  apply wp_not_removable; [done |].
  eapply wp_bind; [apply _ | by apply wp_run_all |]. intros st1 ls Hi1 He1 Hls. cbv beta zeta in Hls |- *.
  apply (wp_define _ (fun o => map (fun l => [negLit o; negLit l]) (map negLit ls) ++ [map negLit ls ++ [o]]));
    [done | done | done | |].
  - by eapply lits_known_all.
  - intros o HF. rewrite and_clauses, forallb_map, (stands_values _ _ _ _ HF Hls). cbn [xorb peval].
    replace (map (fun c => xorb false (peval mu c)) ch) with (map (peval mu) ch); [done |].
    apply map_ext. by intros c; destruct (peval mu c).
Qed.

Lemma handleNot_ok : handles handleNot NOT.
Proof.
  intros Hn Ha Hs Hp. apply node_pre_child in Hp; [| done].
  destruct ch as [|c0 [|]]; try done. unfold handleNot.
  apply wp_handle_pre; [done | done |]. apply Forall_inv in Hg as Hg0. apply Forall_inv in Hp as Hp0.
  eapply wp_kid; [done | done | done | done |]. intros st1 l Hi1 He1 [Hl Hlv].
  apply wp_ret; [apply _ | done |]. split.
  - intros HF. rewrite lval_neg, (Hl HF). cbn. by destruct (peval mu c0).
  - apply lits_known_node; [done |]. by constructor.
Qed.
End handlers.

(** What [toCNF] does with a node that has no literal yet. *)
Definition toCNF_new (node : Node) : SM St SatLiteral :=
  match node with
  | MkNode k ch =>
      let cs := map (fun c => toCNF preRegister full c false) ch in
      match k with
      | NOT => handleNot node cs
      | XOR => handleXor preRegister full node cs
      | ITE => handleIte preRegister full node cs
      | IMPLIES => handleImplies preRegister full node cs
      | OR => handleOr preRegister full node cs
      | AND => handleAnd preRegister full node cs
      | EQUAL =>
          isBool ← lift (child0_boolean ch);
          if isBool : bool then handleIff preRegister full node cs
          else convertAtom preRegister full node false
      | _ => convertAtom preRegister full node false
      end
  | _ => convertAtom preRegister full node false
  end.

Lemma toCNF_eq node negated :
  toCNF preRegister full node negated =
    (has ← hasLiteral node;
     nodeLit ← (if has : bool then getLiteral node else toCNF_new node);
     mret (if negated then negLit nodeLit else nodeLit)).
Proof. by destruct node. Qed.

Lemma toCNF_new_ok n st :
  (structured n = true -> Forall good (children n)) ->
  bform n = true -> Inv st -> node_pre n st -> lookupLiteral st.1 n = None ->
  wp (toCNF_new n) (stands n false) st.
Proof.
  intros Hg Hb Hi Hp Hn.
  assert (structured n = false -> wp (convertAtom preRegister full n false) (stands n false) st) as Hleaf.
  { intros Hs. eapply wp_mono; [apply convertAtom_ok; [done | done | done |] |].
    - intros Ht. apply Hp; [| done]. rewrite leaves_leaf by done. by left.
    - intros st' l Hi' _ Hl. by apply stands_lookup. }
  destruct n as [x t|b|v|k ch]; try (by apply Hleaf).
  destruct (structured (MkNode k ch)) eqn:Hs.
  - pose proof (bform_structured k ch Hs Hb) as [Ha _]. specialize (Hg eq_refl). cbn [children] in Hg.
    destruct k; try discriminate Hs; cbn [toCNF_new].
    + cbn in Hs. destruct (child0_boolean ch) as [[]|] eqn:E; try done.
      eapply wp_lift; [done |]. apply handleIff_ok; [done | done | done | done | done | cbn; by rewrite E | done].
    + by apply handleNot_ok.
    + by apply handleAnd_ok.
    + by apply handleOr_ok.
    + by apply handleImplies_ok.
    + by apply handleXor_ok.
    + by apply handleIte_ok.
  - specialize (Hleaf eq_refl). destruct k; try discriminate Hs; try exact Hleaf.
    cbn in Hs, Hb |- *. destruct (child0_boolean ch) as [[]|] eqn:E; done.
Qed.

Lemma toCNF_step n neg st :
  Inv st -> (lookupLiteral st.1 n = None -> wp (toCNF_new n) (stands n false) st) ->
  wp (toCNF preRegister full n neg) (stands n neg) st.
Proof.
  intros Hi Hnew. rewrite toCNF_eq. unfold hasLiteral. apply wp_gets.
  eapply (wp_bind Inv ext _ _ (stands n false)).
  - destruct (lookupLiteral st.1 n) as [l|] eqn:El; [| by apply Hnew].
    unfold getLiteral. apply wp_gets. rewrite El. apply wp_ret; [apply _ | done |]. by apply stands_lookup.
  - intros st1 l1 Hi1 He1 [Hl1 Hk1]. apply wp_ret; [apply _ | done |]. split; [| done].
    intros HF. specialize (Hl1 HF). destruct neg; rewrite ?lval_neg, Hl1; by destruct (peval mu n).
Qed.

Lemma toCNF_good n : bform n = true -> good n.
Proof.
  induction n as [x t|b|v|k ch IH] using node_ind'; intros Hb neg st Hi Hp; apply toCNF_step; try done;
    intros Hn; apply toCNF_new_ok; try done.
  intros Hs. pose proof (bform_structured k ch Hs Hb) as [_ Hc]. cbn. clear -IH Hc.
  induction IH as [|c ch Hgc _ IHl]; constructor; apply Forall_cons in Hc as [? ?]; auto.
Qed.

(** *** [convertAndAssert] *)
(** Asserting [n] (or its negation) makes it true in every model of the
    clauses, and costs nothing where it is true. *)
Definition asserted (n : Node) (neg : bool) (st : St) : Prop :=
  (sat al st.1 -> Faithful al mu st.1 -> peval mu n = negb neg) /\ lits_known n st.
Definition good_assert (n : Node) : Prop :=
  forall neg st, Inv st -> node_pre n st -> (Cond -> peval mu n = negb neg) ->
  wp (convertAndAssert preRegister full n neg) (fun st' _ => asserted n neg st') st.

Lemma asserted_ext n neg st st' : ext st st' -> asserted n neg st -> asserted n neg st'.
Proof.
  intros He [H1 H2]. pose proof (ext_grow _ _ He) as Hg. split.
  - intros Hs HF. apply H1; [by eapply grow_sat | by eapply grow_Faithful].
  - intros a Ha Hn. specialize (H2 a Ha). destruct (lookupLiteral st.1 a) eqn:E; [| done].
    apply (proj1 Hg) in E. congruence.
Qed.

(** Adding clauses that hold where [Cond] does. *)
Lemma wp_assertClauses cls (P : Prop) st :
  Inv st -> (Cond -> Faithful al mu st.1 -> forallb (sat_clause al) cls = true) ->
  (Faithful al mu st.1 -> forallb (sat_clause al) cls = true -> P) ->
  wp (assertClauses cls) (fun st' _ => (sat al st'.1 -> Faithful al mu st'.1 -> P) /\
        forall a, lookupLiteral st.1 a <> None -> lookupLiteral st'.1 a <> None) st.
Proof.
  destruct st as [s c]. intros (Hwf & Hsd & HCI) H1 H2. cbn [fst] in *.
  exists (with_clauses s cls, c), tt. split; [apply assertClauses_run |].
  assert (grow s (with_clauses s cls)) as Hg.
  { split; [done |]. intros d Hd. cbn. apply in_or_app. by left. }
  split; [split; [| split]; cbn [fst] |].
  - destruct Hwf. split; cbn; eauto; apply in_or_app; by left.
  - intros Hs Ha. apply Hsd; [by eapply grow_sat | done].
  - by eapply CI_grow.
  - split.
    + apply ext_stream; [done | | done]. intros HC HF Hs d Hd. cbn in Hd.
      apply in_app_or in Hd as [Hd|Hd]; [by apply Hs |].
      specialize (H1 HC HF). rewrite forallb_forall in H1. by apply H1.
    + split; [| done]. intros Hs HF. apply H2; [done |]. apply forallb_forall. intros d Hd.
      apply Hs. cbn. apply in_or_app. by right.
Qed.

Lemma wp_assert_final cls n neg st :
  Inv st -> lits_known n st ->
  (Faithful al mu st.1 -> (forallb (sat_clause al) cls = true <-> peval mu n = negb neg)) ->
  (Cond -> peval mu n = negb neg) ->
  wp (assertClauses cls) (fun st' _ => asserted n neg st') st.
Proof.
  intros Hi Hk Heq HC. eapply wp_mono; [apply (wp_assertClauses cls (peval mu n = negb neg)); [done | |] |].
  - intros Hc HF. apply Heq; auto.
  - intros HF Hs. by apply Heq.
  - intros st' [] Hi' _ [H1 H2]. split; [done |]. intros a Ha. by apply H2, Hk.
Qed.

Lemma wp_assertClause c Q st : wp (assertClauses [c]) Q st -> wp (assertClause c) Q st.
Proof. intros (st' & [] & E & H). exists st', tt. by destruct st as [s d]. Qed.

Lemma assertAtom_ok n neg st :
  bform n = true -> Inv st -> node_pre n st -> (Cond -> peval mu n = negb neg) ->
  wp (assertAtom preRegister full n neg) (fun st' _ => asserted n neg st') st.
Proof.
  intros Hb Hi Hp HC. unfold assertAtom.
  eapply wp_bind; [apply _ | by apply toCNF_good |]. intros st1 l Hi1 He1 [Hl Hk].
  apply wp_assertClause, wp_assert_final; [done | done | | done].
  intros HF. cbn. unfold sat_clause. cbn. rewrite (Hl HF). destruct neg, (peval mu n); cbn; naive_solver.
Qed.

Lemma wp_run_units neg ch st :
  Forall good_assert ch -> Inv st -> Forall (fun c => node_pre c st) ch ->
  (Cond -> Forall (fun c => peval mu c = negb neg) ch) ->
  wp (run_units (map (fun c => convertAndAssert preRegister full c neg) ch))
     (fun st' _ => Forall (fun c => asserted c neg st') ch) st.
Proof.
  intros Hg. revert st. induction Hg as [|c ch Hc _ IH]; intros st Hi Hp HC; cbn [map run_units].
  - apply wp_ret; [apply _ | done |]. constructor.
  - apply Forall_cons in Hp as [Hpc Hp].
    eapply wp_bind; [apply _ | apply Hc; [done | done |] |].
    { intros Hc'. by apply HC, Forall_inv in Hc'. }
    intros st1 [] Hi1 He1 Hl. eapply wp_mono; [apply IH; [done | |] |].
    { eapply Forall_impl; [exact Hp |]. intros d. by apply node_pre_ext. }
    { intros Hc'. by apply HC, Forall_inv_tail in Hc'. }
    intros st2 [] Hi2 He2 Hls. constructor; [by eapply asserted_ext | done].
Qed.

Lemma asserted_all k ch neg (b : bool) st :
  structured (MkNode k ch) = true -> Forall (fun c => asserted c neg st) ch ->
  (Forall (fun c => peval mu c = negb neg) ch -> peval mu (MkNode k ch) = negb b) ->
  asserted (MkNode k ch) b st.
Proof.
  intros Hs H Hv. split.
  - intros Hsat HF. apply Hv. eapply Forall_impl; [exact H |]. intros c [Hc _]. auto.
  - apply lits_known_node; [done |]. eapply Forall_impl; [exact H |]. by intros c [_ Hk].
Qed.

Lemma forallb_peval ch : forallb id (map (peval mu) ch) = true <-> Forall (fun c => peval mu c = true) ch.
Proof.
  rewrite forallb_forall, Forall_forall. setoid_rewrite list_elem_of_In. split.
  - intros H c Hc. apply H. by apply in_map.
  - intros H b (c & <- & Hc)%in_map_iff. by apply H.
Qed.

Lemma existsb_peval ch : existsb id (map (peval mu) ch) = false <-> Forall (fun c => peval mu c = false) ch.
Proof.
  induction ch as [|c ch IH]; [done |]. cbn. rewrite orb_false_iff, IH, Forall_cons. done.
Qed.

(** Asserting a disjunction of children (negated if [cneg]) as one clause. *)
Lemma clause_of_kids_ok k ch neg cneg st :
  structured (MkNode k ch) = true -> Forall good ch -> Inv st -> Forall (fun c => node_pre c st) ch ->
  (existsb id (map (fun c => xorb cneg (peval mu c)) ch) = true <-> peval mu (MkNode k ch) = negb neg) ->
  (Cond -> peval mu (MkNode k ch) = negb neg) ->
  wp (clause ← run_all (map (fun c => toCNF preRegister full c cneg) ch); assertClause clause)
     (fun st' _ => asserted (MkNode k ch) neg st') st.
Proof.
  intros Hs Hg Hi Hp Heq HC. eapply wp_bind; [apply _ | by apply wp_run_all |].
  intros st1 ls Hi1 He1 Hls. cbv beta in Hls.
  apply wp_assertClause, wp_assert_final; [done | by eapply lits_known_all | | done].
  intros HF. rewrite <- Heq. cbn. unfold sat_clause. by rewrite andb_true_r, existsb_map, (stands_values _ _ _ _ HF Hls).
Qed.

Ltac solve_final :=
  intros HF; cbn [peval map forallb sat_clause existsb]; unfold sat_clause; cbn [existsb];
  rewrite ?lval_neg;
  repeat match goal with H : stands ?c _ _ ?l |- _ => rewrite (proj1 H HF); clear H end;
  repeat match goal with |- context [peval mu ?c] => destruct (peval mu c) end; cbn; naive_solver.

Section assert_handlers.
Variables (ch : list Node) (st : St) (neg : bool).
Hypothesis Hg : Forall good ch.
Hypothesis Hga : Forall good_assert ch.
Hypothesis Hi : Inv st.
Abbreviation lits := (fun neg => map (fun c => toCNF preRegister full c neg) ch).
Abbreviation sub := (fun neg => map (fun c => convertAndAssert preRegister full c neg) ch).
Abbreviation asserts h k :=
  (arity_ok k (length ch) = true -> structured (MkNode k ch) = true -> node_pre (MkNode k ch) st ->
   (Cond -> peval mu (MkNode k ch) = negb neg) ->
   wp h (fun st' _ => asserted (MkNode k ch) neg st') st).

Lemma convertAndAssertAnd_ok : asserts (convertAndAssertAnd lits sub neg) AND.
Proof.
  intros Ha Hs Hp HC. apply node_pre_child in Hp; [| done]. unfold convertAndAssertAnd.
  destruct neg; cbn [negb].
  - apply clause_of_kids_ok; [done | done | done | done | | done]. cbn. clear.
    induction ch as [|c l IH]; [done |]. cbn. destruct (peval mu c); cbn; [apply IH | done].
  - eapply wp_mono; [apply wp_run_units; [done | done | done |] |].
    + intros Hc. by apply forallb_peval, HC.
    + intros st' [] _ _ H. eapply asserted_all; [done | exact H |]. apply forallb_peval.
Qed.

Lemma convertAndAssertOr_ok : asserts (convertAndAssertOr lits sub neg) OR.
Proof.
  intros Ha Hs Hp HC. apply node_pre_child in Hp; [| done]. unfold convertAndAssertOr.
  destruct neg; cbn [negb].
  - eapply wp_mono; [apply wp_run_units; [done | done | done |] |].
    + intros Hc. by apply existsb_peval, HC.
    + intros st' [] _ _ H. eapply asserted_all; [done | exact H |]. apply existsb_peval.
  - apply clause_of_kids_ok; [done | done | done | done | | done]. cbn.
    replace (map (fun c => xorb false (peval mu c)) ch) with (map (peval mu) ch); [done |].
    apply map_ext. by intros c; destruct (peval mu c).
Qed.

Lemma convertAndAssertXor_ok : asserts (convertAndAssertXor lits neg) XOR.
Proof.
  intros Ha Hs Hp HC. apply node_pre_child in Hp; [| done]. unfold convertAndAssertXor.
  destruct ch as [|c0 [|c1 [|]]]; try done.
  eapply wp_two_kids; [done | done | done |]. intros st1 p q Hi1 He1 H0 H1.
  assert (lits_known (MkNode XOR [c0; c1]) st1).
  { apply lits_known_node; [done |]. repeat constructor; [apply H0 | apply H1]. }
  destruct neg; cbn [negb]; (apply wp_assert_final; [done | done | | done]); solve_final.
Qed.

Lemma convertAndAssertIff_ok : child0_boolean ch = Ok true -> asserts (convertAndAssertIff lits neg) EQUAL.
Proof.
  intros Hb Ha Hs Hp HC. apply node_pre_child in Hp; [| done]. unfold convertAndAssertIff.
  destruct ch as [|c0 [|c1 [|]]]; try done.
  eapply wp_two_kids; [done | done | done |]. intros st1 p q Hi1 He1 H0 H1.
  assert (lits_known (MkNode EQUAL [c0; c1]) st1).
  { apply lits_known_node; [done |]. repeat constructor; [apply H0 | apply H1]. }
  destruct neg; cbn [negb]; (apply wp_assert_final; [done | done | | done]);
    intros HF; cbn [peval]; rewrite Hb; revert HF; solve_final.
Qed.

Lemma convertAndAssertIte_ok : asserts (convertAndAssertIte lits neg) ITE.
Proof.
  intros Ha Hs Hp HC. apply node_pre_child in Hp; [| done]. unfold convertAndAssertIte.
  destruct ch as [|c0 [|c1 [|c2 [|]]]]; try done.
  apply Forall_cons in Hg as [Hg0 [Hg1 [Hg2 _]%Forall_cons]%Forall_cons].
  apply Forall_cons in Hp as [Hp0 [Hp1 [Hp2 _]%Forall_cons]%Forall_cons].
  eapply wp_kid; [done | done | done | done |]. intros st1 p Hi1 He1 H0.
  eapply wp_kid; [done | done | done | by eapply node_pre_ext |]. intros st2 q Hi2 He2 H1.
  eapply wp_kid; [done | done | done | eapply node_pre_ext; [| done]; by etrans |]. intros st3 r Hi3 He3 H2.
  apply (stands_ext _ _ _ _ _ He3) in H1. apply (stands_ext _ _ _ st3) in H0; [| by etrans].
  apply wp_assert_final; [done | | | done].
  - apply lits_known_node; [done |]. repeat constructor; [apply H0 | apply H1 | apply H2].
  - destruct neg; solve_final.
Qed.

Lemma convertAndAssertImplies_ok : asserts (convertAndAssertImplies lits sub neg) IMPLIES.
Proof.
  intros Ha Hs Hp HC. apply node_pre_child in Hp; [| done]. unfold convertAndAssertImplies.
  destruct ch as [|c0 [|c1 [|]]]; try done. destruct neg; cbn [negb].
  - apply Forall_cons in Hga as [Hg0 [Hg1 _]%Forall_cons]. apply Forall_cons in Hp as [Hp0 [Hp1 _]%Forall_cons].
    unfold sub_at. cbn. eapply wp_bind; [apply _ | apply Hg0; [done | done |] |].
    { intros Hc. specialize (HC Hc). cbn in HC. by destruct (peval mu c0). }
    intros st1 [] Hi1 He1 H0. eapply wp_mono; [apply Hg1; [done | by eapply node_pre_ext |] |].
    { intros Hc. specialize (HC Hc). cbn in HC. by destruct (peval mu c0), (peval mu c1). }
    intros st2 [] Hi2 He2 H1. apply (asserted_ext _ _ _ _ He2) in H0. split.
    + intros Hsat HF. cbn. by rewrite (proj1 H0 Hsat HF), (proj1 H1 Hsat HF).
    + apply lits_known_node; [done |]. repeat constructor; [apply H0 | apply H1].
  - eapply wp_two_kids; [done | done | done |]. intros st1 p q Hi1 He1 H0 H1.
    apply wp_assertClause, wp_assert_final; [done | | | done].
    + apply lits_known_node; [done |]. repeat constructor; [apply H0 | apply H1].
    + solve_final.
Qed.

Lemma convertAndAssertNot_ok : asserts (sub_at sub (negb neg) 0) NOT.
Proof.
  intros Ha Hs Hp HC. apply node_pre_child in Hp; [| done]. destruct ch as [|c0 [|]]; try done.
  unfold sub_at. cbn. apply Forall_inv in Hga as Hg0. apply Forall_inv in Hp as Hp0.
  eapply wp_mono; [apply Hg0; [done | done |] |].
  - intros Hc. specialize (HC Hc). cbn in HC. by destruct (peval mu c0), neg.
  - intros st' [] _ _ [H1 H2]. split; [intros Hsat HF; cbn; by rewrite (H1 Hsat HF); destruct neg |].
    apply lits_known_node; [done |]. by constructor.
Qed.
End assert_handlers.

Lemma convertAndAssert_good n : bform n = true -> good_assert n.
Proof.
  induction n as [x t|b|v|k ch IH] using node_ind'; intros Hb neg st Hi Hp HC; try (by apply assertAtom_ok).
  pose proof (assertAtom_ok (MkNode k ch) neg st Hb Hi Hp HC) as Hatom.
  destruct (structured (MkNode k ch)) eqn:Hs.
  - pose proof (bform_structured k ch Hs Hb) as [Ha Hc].
    assert (Forall good ch) as Hg by (eapply Forall_impl; [exact Hc |]; apply toCNF_good).
    assert (Forall good_assert ch) as Hga.
    { clear -IH Hc. induction IH as [|c ch Hgc _ IHl]; constructor; apply Forall_cons in Hc as [? ?]; auto. }
    destruct k; try discriminate Hs; cbn [convertAndAssert].
    + cbn in Hs. destruct (child0_boolean ch) as [[]|] eqn:E; try done. eapply wp_lift; [done |].
      apply convertAndAssertIff_ok; try done. cbn. by rewrite E.
    + by apply convertAndAssertNot_ok.
    + by apply convertAndAssertAnd_ok.
    + by apply convertAndAssertOr_ok.
    + by apply convertAndAssertImplies_ok.
    + by apply convertAndAssertXor_ok.
    + by apply convertAndAssertIte_ok.
  - destruct k; try discriminate Hs; try exact Hatom.
    cbn in Hs, Hb. cbn [convertAndAssert].
    destruct (child0_boolean ch) as [[]|] eqn:E; [done | | done]. by eapply wp_lift.
Qed.

(** The public entry point with [removable = false]. *)
Lemma convertAndAssertTop_good n neg st :
  bform n = true -> Inv st -> node_pre n st -> (Cond -> peval mu n = negb neg) ->
  wp (convertAndAssertTop preRegister full n false neg) (fun st' _ => asserted n neg st') st.
Proof.
  intros Hb Hi Hp HC. destruct (convertAndAssert_good n Hb neg st Hi Hp HC) as (st' & a & E & H).
  exists st', a. split; [| done]. unfold convertAndAssertTop, mbind, SM_bind.
  by rewrite (set_removable_id _ (wf_removable _ (proj1 Hi))).
Qed.

End cnf_ok.

(** ** The assignment that values of the leaves stand for *)
Definition positive_entry (s : CnfStream) (v : Z) (p : Node * SatLiteral) : bool :=
  bool_decide (lookupLiteral s p.1 = Some p.2) && negb (bool_decide (getKind p.1 = NOT)) && (getSatVariable p.2 =? v)%Z.

Definition assignment_of (mu : Node -> bool) (s : CnfStream) (v : Z) : bool :=
  if (v =? trueVar)%Z then true else if (v =? falseVar)%Z then false
  else match List.find (positive_entry s v) (d_nodeToLiteralMap s) with
       | Some (n, _) => peval mu n
       | None => false
       end.

Lemma assoc_In {A B} `{EqDecision A} (k : A) (v : B) m : assoc k m = Some v -> In (k, v) m.
Proof.
  induction m as [|[k' v'] m IH]; [done |]. cbn. case_decide; [intros [= ->]; subst; by left | intros; right; auto].
Qed.

Lemma find_entry s n l :
  WF s -> getKind n <> NOT -> lookupLiteral s n = Some l ->
  exists l', List.find (positive_entry s (getSatVariable l)) (d_nodeToLiteralMap s) = Some (n, l').
Proof.
  intros Hwf Hk Hl. destruct (wf_pos s Hwf n l Hk Hl) as [El _].
  destruct (List.find _ _) as [[n' l']|] eqn:E.
  - apply List.find_some in E as [_ E]. apply andb_true_iff in E as [[E1 E2]%andb_true_iff E3].
    apply bool_decide_eq_true in E1. apply negb_true_iff, bool_decide_eq_false in E2. apply Z.eqb_eq in E3. cbn [fst snd] in *.
    destruct (wf_pos s Hwf n' l' E2 E1) as [El' _]. rewrite E3, <- El in El'. subst l'.
    exists l. by rewrite (wf_inj s Hwf _ _ _ E2 Hk E1 Hl).
  - exfalso. apply assoc_In in Hl as Hin. apply (List.find_none _ _ E) in Hin. unfold positive_entry in Hin.
    cbn [fst snd] in Hin. by rewrite bool_decide_true, (bool_decide_false _ Hk), Z.eqb_refl in Hin.
Qed.

Lemma assignment_pos mu s n l :
  WF s -> getKind n <> NOT -> lookupLiteral s n = Some l -> lval (assignment_of mu s) l = peval mu n.
Proof.
  intros Hwf Hk Hl. destruct (wf_pos s Hwf n l Hk Hl) as [El Hr]. rewrite El, lval_mk, xorb_false_r.
  destruct (find_entry s n l Hwf Hk Hl) as [l' E]. unfold assignment_of. rewrite E.
  destruct n as [x t|b|v|k ch]; [| rewrite Hr; by destruct b | |];
    unfold trueVar, falseVar; by rewrite (proj2 (Z.eqb_neq _ _)), (proj2 (Z.eqb_neq _ _)) by lia.
Qed.

Lemma assignment_Faithful mu s : WF s -> Faithful (assignment_of mu s) mu s.
Proof.
  intros Hwf n. induction n as [x t|b|v|k ch IH] using node_ind'; intros l Hl;
    try (apply (assignment_pos mu s _ l Hwf); done).
  destruct (decide (k = NOT)) as [->|Hk]; [| by apply (assignment_pos mu s _ l Hwf)].
  pose proof (wf_not_arity s Hwf ch l Hl) as Ha. destruct ch as [|c [|]]; try done.
  apply (wf_not s Hwf c l) in Hl. apply Forall_inv in IH. apply IH in Hl. rewrite lval_neg in Hl.
  cbn. rewrite <- Hl. by rewrite negb_involutive.
Qed.

(** ** The stream on its own *)
Section alone.
Context (full : bool).
(** A registrar that does nothing. *)
Definition noRegistrar (_ : Node) : SM (CnfStream * unit) unit := mret tt.

Lemma alone_ok al mu Cond n st :
  bform n = true -> Inv al mu (fun _ => True) st -> (Cond -> peval mu n = true) ->
  Prelude.wp (Inv al mu (fun _ => True)) (ext al mu Cond (fun _ _ => True) (fun _ _ => True))
    (convertAndAssertTop noRegistrar full n false false) (fun st' _ => asserted al mu n false st') st.
Proof.
  intros Hb Hi HC.
  assert (PreOrder (fun _ _ : CnfStream * unit => True)) by done.
  apply (convertAndAssertTop_good noRegistrar full al mu Cond (fun _ _ => True) (fun _ => True) (fun _ _ => True));
    try done.
  intros a st1 _ _ _ Hi1. exists st1, tt. split; [done |]. split; [done |]. split; [| done].
  split; [reflexivity | done | done | done].
Qed.

Lemma CnfStream_init_ok al mu : Inv al mu (fun _ => True) (CnfStream_init, tt).
Proof.
  split; [| split; [| done]].
  - split; try done; cbn; [by left | by right; left].
  - intros _ _ n l Hl. done.
Qed.

(** C18. Tseitin conversion is exact.  From an empty stream, asserting a formula
    returns without an exception; and values [mu] of its atoms make the formula
    true exactly if some assignment of the SAT variables satisfies all clauses and
    gives the atoms' literals the values [mu]. *)
Theorem convertAndAssert_exact n : bform n = true ->
  exists st, convertAndAssertTop noRegistrar full n false false (CnfStream_init, tt) = Ok (tt, st) /\
    forall mu, peval mu n = true <-> exists al, sat al st.1 /\ Agree al mu st.1.
Proof.
  intros Hb.
  destruct (alone_ok (fun _ => false) (fun _ => false) False n _ Hb (CnfStream_init_ok _ _)) as (st & [] & E & _); [done |].
  exists st. split; [done |]. intros mu. split.
  - intros Hm. set (al := assignment_of mu st.1). exists al.
    destruct (alone_ok al mu True n _ Hb (CnfStream_init_ok al mu)) as (st' & [] & E' & (Hwf & _) & Hx & _); [done |].
    rewrite E in E'. injection E' as <-. pose proof (assignment_Faithful mu st.1 Hwf) as HF. split.
    + apply Hx; [done | done |]. intros c [<-|[<-|[]]]; done.
    + intros a l Hs Hc Hl. unfold al. rewrite (HF a l Hl), peval_leaf by done. by destruct a.
  - intros (al & Hs & Ha).
    destruct (alone_ok al mu False n _ Hb (CnfStream_init_ok al mu)) as (st' & [] & E' & (_ & Hsd & _) & _ & H & _); [done |].
    rewrite E in E'. injection E' as <-. apply H; [done | by apply Hsd].
Qed.
End alone.

Lemma convertAndAssert_exact_witness :
  let n := MkNode AND [Var 1 BOOLEAN_TYPE; MkNode NOT [MkNode XOR [Var 2 BOOLEAN_TYPE; Var 1 BOOLEAN_TYPE]]] in
  bform n = true /\
  exists st, convertAndAssertTop noRegistrar true n false false (CnfStream_init, tt) = Ok (tt, st) /\
    forall mu, peval mu n = true <-> exists al, sat al st.1 /\ Agree al mu st.1.
Proof. split; [reflexivity |]. apply (convertAndAssert_exact true). reflexivity. Defined.
