(* ===== verification/Context.v ===== *)
(** * Backtrackable state: contexts, scopes and context-dependent objects

    Models [src/context/context.{h,cpp}].  The heap of context objects is explicit:
    an object has its scope, the pointer to its saved version, and the links of
    the (intrusive, doubly linked) list of objects its scope restores when it is
    popped.  [d_ppContextObjPrev] points to the cell that points to the object:
    the head of a scope's list or another object's [d_pContextObjNext].

    Saved versions live in the memory region of the scope in which they were made
    ([ContextMemoryManager]); popping the scope frees the region.  An access
    through a dangling or null pointer throws [OutOfBounds], so that returning
    normally includes memory safety.

    The subclass data ([CDO], [CDList], [CDQueue]) is a parameter [D] with its
    [save] and [restore] ([ContextData]).  Notification objects are names; their
    calls are recorded in a log. *)

From S2P Require Import Prelude.
Local Open Scope nat_scope.

Abbreviation addr := positive.

(** What [ContextObj**] points to. *)
Inductive cell : Set :=
  | ScopeCell (level : nat)   (* [&scope->d_pContextObjList] *)
  | NextCell (a : addr).      (* [&obj->d_pContextObjNext] *)

#[global] Instance cell_eq_dec : EqDecision cell.
Proof. solve_decision. Defined.

(** The virtual methods of a subclass: [save] yields the copy and the object as
    the call leaves it; [restore] gets the copy. *)
Class ContextData (D : Type) : Type := {
  cd_save : D -> D * D;
  cd_restore : D -> D -> M D
}.

Record ContextObj (D : Type) : Type := MkObj {
  d_pScope : nat;
  d_pContextObjRestore : option addr;
  d_pContextObjNext : option addr;
  d_ppContextObjPrev : cell;
  d_region : option nat;   (* [Some l]: in the region pushed with scope [l] *)
  d_object : D
}.
Arguments MkObj {D}.
Arguments d_pScope {D}. Arguments d_pContextObjRestore {D}. Arguments d_pContextObjNext {D}.
Arguments d_ppContextObjPrev {D}. Arguments d_region {D}. Arguments d_object {D}.

Inductive event : Set := PreNotify (n : nat) | PostNotify (n : nat).

(** [d_heads] are the scopes that exist (by level), [d_scopes] the size of
    [d_scopeList]; a scope being deleted exists and is no longer listed. *)
Record Context (D : Type) : Type := MkContext {
  d_heap : gmap addr (ContextObj D);
  d_heads : list (option addr);
  d_scopes : nat;
  d_pCNOpre : list nat;
  d_pCNOpost : list nat;
  d_log : list event
}.
Arguments MkContext {D}.
Arguments d_heap {D}. Arguments d_heads {D}. Arguments d_scopes {D}.
Arguments d_pCNOpre {D}. Arguments d_pCNOpost {D}. Arguments d_log {D}.

Definition Context_init {D} : Context D := MkContext ∅ [None] 1 [] [] [].

Section context.
Context {D : Type} {CD : ContextData D}.
Abbreviation St := (Context D).

(** ** Memory *)
Definition with_heap (h : gmap addr (ContextObj D)) (c : St) : St :=
  MkContext h (d_heads c) (d_scopes c) (d_pCNOpre c) (d_pCNOpost c) (d_log c).
Definition with_heads (hs : list (option addr)) (c : St) : St :=
  MkContext (d_heap c) hs (d_scopes c) (d_pCNOpre c) (d_pCNOpost c) (d_log c).
Definition with_log (l : list event) (c : St) : St :=
  MkContext (d_heap c) (d_heads c) (d_scopes c) (d_pCNOpre c) (d_pCNOpost c) l.

Definition deref (a : addr) : SM St (ContextObj D) := fun c =>
  match d_heap c !! a with Some o => Ok (o, c) | None => Throw OutOfBounds end.
Definition store (a : addr) (o : ContextObj D) : SM St unit := fun c =>
  match d_heap c !! a with Some _ => Ok (tt, with_heap (<[a:=o]> (d_heap c)) c) | None => Throw OutOfBounds end.
Definition alloc (o : ContextObj D) : SM St addr := fun c =>
  let a := fresh (dom (d_heap c)) in Ok (a, with_heap (<[a:=o]> (d_heap c)) c).
Definition getHead (i : nat) : SM St (option addr) := fun c =>
  match d_heads c !! i with Some p => Ok (p, c) | None => Throw OutOfBounds end.
Definition setHead (i : nat) (p : option addr) : SM St unit := fun c =>
  match d_heads c !! i with Some _ => Ok (tt, with_heads (<[i:=p]> (d_heads c)) c) | None => Throw OutOfBounds end.

Definition set_links (next : option addr) (prev : cell) (o : ContextObj D) : ContextObj D :=
  MkObj (d_pScope o) (d_pContextObjRestore o) next prev (d_region o) (d_object o).
Definition set_next (next : option addr) (o : ContextObj D) : ContextObj D :=
  set_links next (d_ppContextObjPrev o) o.
Definition set_prev (prev : cell) (o : ContextObj D) : ContextObj D :=
  set_links (d_pContextObjNext o) prev o.
Definition set_data (d : D) (o : ContextObj D) : ContextObj D :=
  MkObj (d_pScope o) (d_pContextObjRestore o) (d_pContextObjNext o) (d_ppContextObjPrev o) (d_region o) d.

Definition update_obj (a : addr) (f : ContextObj D -> ContextObj D) : SM St unit :=
  o ← deref a; store a (f o).
(** [*prev = v] *)
Definition writeCell (p : cell) (v : option addr) : SM St unit :=
  match p with ScopeCell i => setHead i v | NextCell a => update_obj a (set_next v) end.
(** [if(next != NULL) { next->prev() = p; }] *)
Definition fixPrev (next : option addr) (p : cell) : SM St unit :=
  match next with Some b => update_obj b (set_prev p) | None => mret tt end.

(** ** Scopes *)
Definition getLevel : SM St nat := gets (fun c => d_scopes c - 1).

Definition addToChain (level : nat) (a : addr) : SM St unit :=
  head ← getHead level;
  _ ← fixPrev head (NextCell a);
  _ ← update_obj a (set_links head (ScopeCell level));
  setHead level (Some a).

(** ** Objects *)
Definition update (a : addr) : SM St unit :=
  o ← deref a;
  level ← getLevel;
  let '(saved, this) := cd_save (d_object o) in
  s ← alloc (MkObj (d_pScope o) (d_pContextObjRestore o) (d_pContextObjNext o) (d_ppContextObjPrev o)
               (Some level) saved);
  _ ← update_obj a (set_data this);
  _ ← fixPrev (d_pContextObjNext o) (NextCell s);
  _ ← writeCell (d_ppContextObjPrev o) (Some s);
  _ ← update_obj a (fun o => MkObj level (Some s) (d_pContextObjNext o) (d_ppContextObjPrev o) (d_region o) (d_object o));
  addToChain level a.

Definition makeCurrent (a : addr) : SM St unit :=
  o ← deref a;
  level ← getLevel;
  if negb (d_pScope o =? level) then update a else mret tt.

Definition makeSaveRestorePoint (a : addr) : SM St unit := update a.

Definition restoreAndContinue (a : addr) : SM St (option addr) :=
  o ← deref a;
  match d_pContextObjRestore o with
  | None => mret (d_pContextObjNext o)
  | Some s =>
      r ← deref s;
      d ← lift (cd_restore (d_object r) (d_object o));
      _ ← update_obj a (fun o =>
            MkObj (d_pScope r) (d_pContextObjRestore r) (d_pContextObjNext r) (d_ppContextObjPrev r) (d_region o) d);
      _ ← fixPrev (d_pContextObjNext r) (NextCell a);
      _ ← writeCell (d_ppContextObjPrev r) (Some a);
      mret (d_pContextObjNext o)
  end.

(** [~Scope]: the loop over the objects to restore. *)
Fixpoint restore_all (fuel : nat) (level : nat) : SM St unit :=
  match fuel with
  | 0 => lift (Throw OutOfFuel)
  | S fuel' =>
      head ← getHead level;
      match head with
      | None => mret tt
      | Some a =>
          next ← restoreAndContinue a;
          _ ← setHead level next;
          restore_all fuel' level
      end
  end.

(** [destroy()]: unlink, and restore the version below until none is left. *)
Fixpoint destroy_loop (fuel : nat) (a : addr) : SM St unit :=
  match fuel with
  | 0 => lift (Throw OutOfFuel)
  | S fuel' =>
      o ← deref a;
      _ ← fixPrev (d_pContextObjNext o) (d_ppContextObjPrev o);
      _ ← writeCell (d_ppContextObjPrev o) (d_pContextObjNext o);
      match d_pContextObjRestore o with
      | None => mret tt
      | Some _ => _ ← restoreAndContinue a; destroy_loop fuel' a
      end
  end.
(** [destroy()] and the end of the object's life. *)
Definition destroy (a : addr) : SM St unit := fun c =>
  (_ ← destroy_loop (S (size (d_heap c))) a; modify (fun c => with_heap (delete a (d_heap c)) c)) c.

(** The constructors: on the bottom scope, or on the top one for objects in context memory. *)
Definition newContextObj (allocatedInCMM : bool) (d : D) : SM St addr :=
  level ← getLevel;
  let scope := if allocatedInCMM then level else 0 in
  a ← alloc (MkObj scope None None (ScopeCell scope) (if allocatedInCMM then Some level else None) d);
  _ ← addToChain scope a;
  mret a.

(** ** The context *)
Definition push : SM St unit :=
  modify (fun c => MkContext (d_heap c) (d_heads c ++ [None]) (S (d_scopes c)) (d_pCNOpre c) (d_pCNOpost c) (d_log c)).

(** [d_pCMM->pop()]: the objects of the region are gone, and so is the scope. *)
Definition popRegion (level : nat) : SM St unit :=
  modify (fun c => MkContext (filter (fun p => d_region p.2 <> Some level) (d_heap c)) (take level (d_heads c))
                     (d_scopes c) (d_pCNOpre c) (d_pCNOpost c) (d_log c)).

Definition pop : SM St unit := fun c =>
  (level ← getLevel;
   _ ← lift (check AssertionFailed (0 <? level));
   _ ← modify (fun c => with_log (d_log c ++ map PreNotify (d_pCNOpre c)) c);
   _ ← modify (fun c => MkContext (d_heap c) (d_heads c) (d_scopes c - 1) (d_pCNOpre c) (d_pCNOpost c) (d_log c));
   _ ← restore_all (S (size (d_heap c))) level;
   _ ← popRegion level;
   modify (fun c => with_log (d_log c ++ map PostNotify (d_pCNOpost c)) c)) c.

(** [while(toLevel < getLevel()) pop();], at most [fuel] times. *)
Fixpoint popto_loop (fuel : nat) (toLevel : nat) : SM St unit :=
  level ← getLevel;
  if toLevel <? level then
    match fuel with 0 => lift (Throw OutOfFuel) | S fuel' => _ ← pop; popto_loop fuel' toLevel end
  else mret tt.
Definition popto (toLevel : Z) : SM St unit := fun c =>
  popto_loop (d_scopes c) (Z.to_nat (if (toLevel <? 0)%Z then 0 else toLevel)%Z) c.

(** [addNotifyObjPre], [addNotifyObjPost]: at the front. *)
Definition addNotifyObjPre (n : nat) : SM St unit :=
  modify (fun c => MkContext (d_heap c) (d_heads c) (d_scopes c) (n :: d_pCNOpre c) (d_pCNOpost c) (d_log c)).
Definition addNotifyObjPost (n : nat) : SM St unit :=
  modify (fun c => MkContext (d_heap c) (d_heads c) (d_scopes c) (d_pCNOpre c) (n :: d_pCNOpost c) (d_log c)).

(** ** What subclasses do with their data *)
Definition getData (a : addr) : SM St D := o ← deref a; mret (d_object o).
(** A mutator: [makeCurrent()], then the change. *)
Definition mutate (f : D -> M D) (a : addr) : SM St unit :=
  _ ← makeCurrent a;
  o ← deref a;
  d ← lift (f (d_object o));
  store a (set_data d o).

End context.
