(* ===== verification/ContextCorrect.v ===== *)
(** * Contexts implement a stack of snapshots

    The abstract state is the list of snapshots, one per scope: which objects exist
    and the value of each.  [push] copies the top snapshot, [pop] drops it, a
    mutator changes the top one only, and a new object has its initial value in
    every snapshot.  The refinement relation [Refines] is kept by every operation
    of [Context], which also shows that none of them throws or follows a dangling
    pointer.

    What a subclass promises about [save] and [restore] is the interface
    [ContextDataSpec]: a logical state [K] of which clients see [cd_vis]. *)

From stdpp Require Import fin_sets.
From S2P Require Import Prelude Context.
Local Open Scope nat_scope.

Class ContextDataSpec (D : Type) {CD : ContextData D} (K O : Type) : Type := {
  cd_rep : D -> K -> Prop;     (* the data stands for [k] *)
  cd_saved : D -> K -> Prop;   (* the saved copy remembers [k] *)
  cd_mark : K -> K;            (* what [save] does to the object itself *)
  cd_ev : K -> K -> Prop;      (* saved in the first, the object may be in the second *)
  cd_vis : K -> O;
  save_rep d k : cd_rep d k -> cd_saved (cd_save d).1 k /\ cd_rep (cd_save d).2 (cd_mark k);
  ev_mark k : cd_ev k (cd_mark k);
  vis_mark k : cd_vis (cd_mark k) = cd_vis k;
  restore_rep s d k k' : cd_saved s k -> cd_rep d k' -> cd_ev k k' ->
    exists d', cd_restore s d = Ok d' /\ cd_rep d' k
}.

Section linkage.
Context {D : Type}.
Abbreviation heap := (gmap addr (ContextObj D)).

(** ** What the pointer operations compute *)
Definition fix_heap (n : option addr) (p : cell) (h : heap) : heap :=
  match n with Some y => alter (set_prev p) y h | None => h end.
Definition write_heap (p : cell) (v : option addr) (h : heap) : heap :=
  match p with NextCell x => alter (set_next v) x h | ScopeCell _ => h end.
Definition write_heads (p : cell) (v : option addr) (hs : list (option addr)) : list (option addr) :=
  match p with ScopeCell i => <[i:=v]> hs | NextCell _ => hs end.

Lemma update_obj_run a f (c : Context D) o :
  d_heap c !! a = Some o -> update_obj a f c = Ok (tt, with_heap (alter f a (d_heap c)) c).
Proof.
  intros H. unfold update_obj, deref, store, mbind, SM_bind. rewrite H. cbn. rewrite H.
  do 3 f_equal. apply map_eq. intros x. destruct (decide (x = a)) as [->|].
  - by rewrite lookup_insert_eq, lookup_alter_eq, H.
  - by rewrite lookup_insert_ne, lookup_alter_ne by done.
Qed.

Lemma fixPrev_run n p (c : Context D) :
  (forall y, n = Some y -> is_Some (d_heap c !! y)) ->
  fixPrev n p c = Ok (tt, with_heap (fix_heap n p (d_heap c)) c).
Proof.
  intros H. destruct n as [y|]; cbn.
  - destruct (H y eq_refl) as [o Ho]. by eapply update_obj_run.
  - by destruct c.
Qed.

Lemma writeCell_run p v (c : Context D) :
  match p with ScopeCell i => i < length (d_heads c) | NextCell x => is_Some (d_heap c !! x) end ->
  writeCell p v c = Ok (tt, with_heads (write_heads p v (d_heads c)) (with_heap (write_heap p v (d_heap c)) c)).
Proof.
  destruct p as [i|x]; cbn.
  - intros Hi. unfold setHead. destruct (lookup_lt_is_Some_2 (d_heads c) i Hi) as [q ->]. by destruct c.
  - intros [o Ho]. rewrite (update_obj_run x _ c o Ho). by destruct c.
Qed.

(** Links do not matter to the rest of an object. *)
Definition core (o : ContextObj D) : nat * option addr * option nat * D :=
  (d_pScope o, d_pContextObjRestore o, d_region o, d_object o).
Definition same_core (h h' : heap) : Prop := forall x, core <$> h !! x = core <$> h' !! x.

Lemma same_core_alter f x (h : heap) : (forall o, core (f o) = core o) -> same_core h (alter f x h).
Proof.
  intros Hf y. destruct (decide (y = x)) as [->|]; [| by rewrite lookup_alter_ne].
  rewrite lookup_alter_eq. destruct (h !! x) as [o|]; cbn; [by rewrite Hf | done].
Qed.
Lemma same_core_trans h1 h2 h3 : same_core h1 h2 -> same_core h2 h3 -> same_core h1 h3.
Proof. intros H1 H2 x. by rewrite H1. Qed.
Lemma same_core_fix n p (h : heap) : same_core h (fix_heap n p h).
Proof. destruct n; [by apply same_core_alter | done]. Qed.
Lemma same_core_write p v (h : heap) : same_core h (write_heap p v h).
Proof. destruct p; [done | by apply same_core_alter]. Qed.
Lemma same_core_lookup h h' x o :
  same_core h h' -> h !! x = Some o -> exists o', h' !! x = Some o' /\ core o' = core o.
Proof.
  intros H Hx. specialize (H x). rewrite Hx in H. destruct (h' !! x) as [o'|]; [| discriminate H].
  exists o'. split; [done |]. symmetry. by apply (inj Some) in H.
Qed.
Lemma same_core_sym h h' : same_core h h' -> same_core h' h.
Proof. intros H x. by rewrite H. Qed.

(** ** The lists of the scopes

    The objects of [act] with a scope below [lim] are exactly those linked in the
    lists of the scopes below [lim]; [ord] decreases along the lists. *)
Record Linked (h : heap) (hs : list (option addr)) (act : gset addr) (ord : addr -> Z) (lim : nat) : Prop := {
  ll_in x : x ∈ act -> exists o, h !! x = Some o /\ d_pScope o < lim;
  ll_next x o y : x ∈ act -> h !! x = Some o -> d_pContextObjNext o = Some y ->
    y ∈ act /\ (ord y < ord x)%Z /\
    exists oy, h !! y = Some oy /\ d_ppContextObjPrev oy = NextCell x /\ d_pScope oy = d_pScope o;
  ll_prev y oy x : y ∈ act -> h !! y = Some oy -> d_ppContextObjPrev oy = NextCell x ->
    x ∈ act /\ exists o, h !! x = Some o /\ d_pContextObjNext o = Some y;
  ll_first x o i : x ∈ act -> h !! x = Some o -> d_ppContextObjPrev o = ScopeCell i ->
    hs !! i = Some (Some x) /\ d_pScope o = i;
  ll_head i x : i < lim -> hs !! i = Some (Some x) ->
    x ∈ act /\ exists o, h !! x = Some o /\ d_ppContextObjPrev o = ScopeCell i
}.

(** Objects outside the lists may change. *)
Lemma Linked_frame h h' hs hs' act ord lim :
  Linked h hs act ord lim -> (forall x, x ∈ act -> h' !! x = h !! x) ->
  (forall i, i < lim -> hs' !! i = hs !! i) -> Linked h' hs' act ord lim.
Proof.
  intros [L1 L2 L3 L4 L5] Hh Hs. split.
  - intros x Hx. rewrite Hh by done. by apply L1.
  - intros x o y Hx. rewrite Hh by done. intros Ho Hy. destruct (L2 x o y Hx Ho Hy) as (Hya & Hord & oy & Hoy & ?).
    split; [done |]. split; [done |]. exists oy. by rewrite Hh.
  - intros y oy x Hy. rewrite Hh by done. intros Ho Hp. destruct (L3 y oy x Hy Ho Hp) as (Hx & o & Hox & ?).
    split; [done |]. exists o. by rewrite Hh.
  - intros x o i Hx. rewrite Hh by done. intros Ho Hp. destruct (L4 x o i Hx Ho Hp) as [? Hi].
    destruct (L1 x Hx) as (o' & Ho' & Hlt). rewrite Ho in Ho'. injection Ho' as <-. rewrite Hs by lia. done.
  - intros i x Hi. rewrite Hs by done. intros Hx. destruct (L5 i x Hi Hx) as (? & o & ? & ?). split; [done |].
    exists o. by rewrite Hh.
Qed.

Lemma lookup_fix n p (h : heap) x :
  fix_heap n p h !! x = (if decide (n = Some x) then set_prev p else id) <$> h !! x.
Proof.
  destruct n as [y|]; cbn.
  - destruct (decide (y = x)) as [->|]; [by rewrite lookup_alter_eq, decide_True |].
    rewrite lookup_alter_ne, decide_False by congruence. by destruct (h !! x).
  - by destruct (h !! x).
Qed.
Lemma lookup_write p v (h : heap) x :
  write_heap p v h !! x = (if decide (p = NextCell x) then set_next v else id) <$> h !! x.
Proof.
  destruct p as [i|y]; cbn.
  - by destruct (h !! x).
  - destruct (decide (y = x)) as [->|]; [by rewrite lookup_alter_eq, decide_True |].
    rewrite lookup_alter_ne, decide_False by congruence. by destruct (h !! x).
Qed.

(** The object [b] takes the place of [a]. *)
Section replace.
Context (h h0 : heap) (hs : list (option addr)) (act : gset addr) (ord : addr -> Z) (lim : nat).
Context (a b : addr) (oa ob : ContextObj D).
Hypothesis HL : Linked h hs act ord lim.
Hypothesis Ha : a ∈ act.
Hypothesis Hoa : h !! a = Some oa.
Hypothesis Hb : b ∉ act.
Hypothesis Hob : h0 !! b = Some ob.
Hypothesis Hn : d_pContextObjNext ob = d_pContextObjNext oa.
Hypothesis Hp : d_ppContextObjPrev ob = d_ppContextObjPrev oa.
Hypothesis Hsc : d_pScope ob = d_pScope oa.
Hypothesis Hh : forall x, x ∈ act -> x <> a -> h0 !! x = h !! x.

Let h' := write_heap (d_ppContextObjPrev oa) (Some b) (fix_heap (d_pContextObjNext oa) (NextCell b) h0).
Let act' := act ∖ {[a]} ∪ {[b]}.

Lemma replace_cases x : x ∈ act' -> x = b \/ (x ∈ act /\ x <> a /\ x <> b).
Proof. unfold act'. intros H. destruct (decide (x = b)); [by left | right]. set_solver. Qed.
Lemma replace_in x : x ∈ act -> x <> a -> x ∈ act'.
Proof. unfold act'. set_solver. Qed.
Lemma replace_in_b : b ∈ act'.
Proof. unfold act'. set_solver. Qed.

Lemma replace_b : h' !! b = Some ob.
Proof.
  unfold h'. rewrite lookup_write, lookup_fix, Hob, !decide_False; [done | |].
  - intros E. by destruct (ll_next _ _ _ _ _ HL a oa b Ha Hoa E).
  - intros E. by destruct (ll_prev _ _ _ _ _ HL a oa b Ha Hoa E).
Qed.

Lemma replace_other x o : x ∈ act -> x <> a -> h !! x = Some o ->
  exists o', h' !! x = Some o' /\ d_pScope o' = d_pScope o /\
    d_pContextObjNext o' = (if decide (d_ppContextObjPrev oa = NextCell x) then Some b else d_pContextObjNext o) /\
    d_ppContextObjPrev o' = (if decide (d_pContextObjNext oa = Some x) then NextCell b else d_ppContextObjPrev o).
Proof.
  intros Hx Hxa Ho. unfold h'. rewrite lookup_write, lookup_fix, Hh, Ho by done. eexists. split; [done |].
  by repeat case_decide.
Qed.

(** The successor and the predecessor of [a]. *)
Lemma replace_succ y : d_pContextObjNext oa = Some y ->
  y ∈ act /\ y <> a /\ y <> b /\ (ord y < ord a)%Z /\
  exists oy, h !! y = Some oy /\ d_ppContextObjPrev oy = NextCell a /\ d_pScope oy = d_pScope oa.
Proof.
  intros E. destruct (ll_next _ _ _ _ _ HL a oa y Ha Hoa E) as (Hy & Hlt & H).
  split; [done |]. split; [intros ->; lia |]. split; [by intros -> | done].
Qed.
Lemma replace_pred x : d_ppContextObjPrev oa = NextCell x ->
  x ∈ act /\ x <> a /\ x <> b /\ (ord a < ord x)%Z /\
  exists ox, h !! x = Some ox /\ d_pContextObjNext ox = Some a /\ d_pScope oa = d_pScope ox.
Proof.
  intros E. destruct (ll_prev _ _ _ _ _ HL a oa x Ha Hoa E) as (Hx & ox & Hox & Hnx).
  destruct (ll_next _ _ _ _ _ HL x ox a Hx Hox Hnx) as (_ & Hlt & oa' & Ho' & _ & Hs).
  rewrite Hoa in Ho'. injection Ho' as <-.
  split; [done |]. split; [intros ->; lia |]. split; [by intros -> |]. split; [done |]. by exists ox.
Qed.

Lemma Linked_replace :
  Linked h' (write_heads (d_ppContextObjPrev oa) (Some b) hs) act' (fun x => if decide (x = b) then ord a else ord x) lim.
Proof.
  pose proof replace_b as Hb'. split.
  - intros x [->|(Hx & Hxa & _)]%replace_cases.
    + exists ob. split; [done |]. destruct (ll_in _ _ _ _ _ HL a Ha) as (o & Ho & ?). rewrite Hsc. congruence.
    + destruct (ll_in _ _ _ _ _ HL x Hx) as (o & Ho & ?).
      destruct (replace_other x o Hx Hxa Ho) as (o' & ? & Hs & _). exists o'. split; [done | lia].
  - intros x o y [->|(Hx & Hxa & Hxb)]%replace_cases Ho Hy.
    + rewrite Hb' in Ho. injection Ho as <-. rewrite Hn in Hy.
      destruct (replace_succ y Hy) as (Hya & Hne & Hnb & Hlt & oy & Hoy & Hpy & Hsy).
      destruct (replace_other y oy Hya Hne Hoy) as (oy' & Hoy' & Hs' & _ & Hp').
      split; [by apply replace_in |]. split; [rewrite decide_False, decide_True by done; lia |].
      exists oy'. rewrite Hp', decide_True by done. split; [done |]. split; [done | congruence].
    + destruct (ll_in _ _ _ _ _ HL x Hx) as (ox & Hox & _).
      destruct (replace_other x ox Hx Hxa Hox) as (ox' & Hox' & Hs' & Hn' & _).
      rewrite Ho in Hox'. injection Hox' as <-. rewrite Hn' in Hy. case_decide as E.
      * injection Hy as <-. destruct (replace_pred x E) as (_ & _ & _ & Hlt & ox2 & Hox2 & _ & Hs2).
        rewrite Hox in Hox2. injection Hox2 as <-. split; [apply replace_in_b |].
        split; [rewrite decide_True, decide_False by done; lia |]. exists ob. split; [done |]. split; congruence.
      * destruct (ll_next _ _ _ _ _ HL x ox y Hx Hox Hy) as (Hya & Hlt & oy & Hoy & Hpy & Hsy).
        assert (y <> a) as Hne by (intros ->; congruence). assert (y <> b) as Hnb by (by intros ->).
        destruct (replace_other y oy Hya Hne Hoy) as (oy' & Hoy' & Hsy' & _ & Hp').
        split; [by apply replace_in |]. split; [by rewrite !decide_False by done |].
        exists oy'. split; [done |]. split; [| congruence]. rewrite Hp', decide_False; [done |].
        intros E2. destruct (replace_succ y E2) as (_ & _ & _ & _ & oy2 & Hoy2 & Hpy2 & _). congruence.
  - intros y oy x [->|(Hy & Hya & Hyb)]%replace_cases Ho Hx.
    + rewrite Hb' in Ho. injection Ho as <-. rewrite Hp in Hx.
      destruct (replace_pred x Hx) as (Hxa & Hne & Hnb & _ & ox & Hox & _ & _).
      destruct (replace_other x ox Hxa Hne Hox) as (ox' & Hox' & _ & Hn' & _).
      split; [by apply replace_in |]. exists ox'. by rewrite Hn', decide_True.
    + destruct (ll_in _ _ _ _ _ HL y Hy) as (oy0 & Hoy0 & _).
      destruct (replace_other y oy0 Hy Hya Hoy0) as (oy' & Hoy' & _ & _ & Hp').
      rewrite Ho in Hoy'. injection Hoy' as <-. rewrite Hp' in Hx. case_decide as E.
      * injection Hx as <-. split; [apply replace_in_b |]. exists ob. by rewrite Hn.
      * destruct (ll_prev _ _ _ _ _ HL y oy0 x Hy Hoy0 Hx) as (Hxa & ox & Hox & Hnx).
        assert (x <> a) as Hne by (intros ->; congruence).
        destruct (replace_other x ox Hxa Hne Hox) as (ox' & Hox' & _ & Hn' & _).
        split; [by apply replace_in |]. exists ox'. split; [done |]. rewrite Hn', decide_False; [done |].
        intros E2. destruct (replace_pred x E2) as (_ & _ & _ & _ & ox2 & Hox2 & Hnx2 & _). congruence.
  - intros x o i [->|(Hx & Hxa & Hxb)]%replace_cases Ho Hi.
    + rewrite Hb' in Ho. injection Ho as <-. rewrite Hp in Hi. rewrite Hi. cbn.
      destruct (ll_first _ _ _ _ _ HL a oa i Ha Hoa Hi) as [Hhd Hs]. split; [| congruence].
      apply list_lookup_insert_eq. by eapply lookup_lt_Some.
    + destruct (ll_in _ _ _ _ _ HL x Hx) as (ox & Hox & _).
      destruct (replace_other x ox Hx Hxa Hox) as (ox' & Hox' & Hs' & _ & Hp').
      rewrite Ho in Hox'. injection Hox' as <-. rewrite Hp' in Hi. case_decide; [done |].
      destruct (ll_first _ _ _ _ _ HL x ox i Hx Hox Hi) as [Hhd Hs]. split; [| congruence].
      destruct (d_ppContextObjPrev oa) as [j|] eqn:Ej; [| done]. cbn. rewrite list_lookup_insert_ne; [done |].
      intros ->. destruct (ll_first _ _ _ _ _ HL a oa i Ha Hoa Ej) as [Hhd2 _]. congruence.
  - intros i x Hi Hx.
    assert ((d_ppContextObjPrev oa = ScopeCell i /\ x = b) \/ (d_ppContextObjPrev oa <> ScopeCell i /\ hs !! i = Some (Some x)))
      as [[E ->]|[E Hx0]].
    { destruct (d_ppContextObjPrev oa) as [j|]; cbn in Hx; [| by right]. destruct (decide (i = j)) as [->|].
      - left. apply list_lookup_insert_Some in Hx as [(_ & [= ->] & _)|[? _]]; done.
      - right. rewrite list_lookup_insert_ne in Hx by done. split; [congruence | done]. }
    + split; [apply replace_in_b |]. exists ob. split; [done | congruence].
    + destruct (ll_head _ _ _ _ _ HL i x Hi Hx0) as (Hxa & ox & Hox & Hpx).
      assert (x <> a) as Hne by (intros ->; congruence).
      destruct (replace_other x ox Hxa Hne Hox) as (ox' & Hox' & _ & _ & Hp').
      split; [by apply replace_in |]. exists ox'. split; [done |]. rewrite Hp', decide_False; [done |].
      intros E2. destruct (replace_succ x E2) as (_ & _ & _ & _ & oy2 & Hoy2 & Hpy2 & _). congruence.
Qed.
End replace.

(** The object [a] becomes the first of the list of scope [i]. *)
Lemma Linked_cons (h : heap) hs act ord lim a oa i hd :
  Linked h hs act ord lim -> a ∉ act -> h !! a = Some oa -> d_pScope oa = i -> i < lim -> hs !! i = Some hd ->
  let h1 := alter (set_links hd (ScopeCell i)) a (fix_heap hd (NextCell a) h) in
  Linked h1 (<[i:=Some a]> hs) (act ∪ {[a]})
    (fun x => if decide (x = a) then match hd with Some y => ord y + 1 | None => 0 end else ord x)%Z lim.
Proof.
  intros HL Ha Hoa Hsc Hi Hhd h1.
  assert (h1 !! a = Some (set_links hd (ScopeCell i) oa)) as Ha1.
  { unfold h1. rewrite lookup_alter_eq, lookup_fix, Hoa, decide_False; [done |]. intros ->.
    by destruct (ll_head _ _ _ _ _ HL i a Hi Hhd). }
  assert (forall x o, x ∈ act -> h !! x = Some o -> exists o', h1 !! x = Some o' /\ d_pScope o' = d_pScope o /\
    d_pContextObjNext o' = d_pContextObjNext o /\
    d_ppContextObjPrev o' = if decide (hd = Some x) then NextCell a else d_ppContextObjPrev o) as Hother.
  { intros x o Hx Ho. unfold h1. rewrite lookup_alter_ne by (by intros ->). rewrite lookup_fix, Ho. eexists.
    split; [done |]. by case_decide. }
  assert (forall x, x ∈ act ∪ {[a]} -> x = a \/ (x ∈ act /\ x <> a)) as Hcases.
  { intros x Hx. destruct (decide (x = a)); [by left | right]. set_solver. }
  split.
  - intros x [->|[Hx _]]%Hcases; [eexists; split; [exact Ha1 | by rewrite Hsc || (cbn; lia)] |].
    destruct (ll_in _ _ _ _ _ HL x Hx) as (o & Ho & ?). destruct (Hother x o Hx Ho) as (o' & ? & ? & _).
    exists o'. split; [done | lia].
  - intros x o y [->|[Hx Hxa]]%Hcases Ho Hy.
    + rewrite Ha1 in Ho. injection Ho as <-. cbn in Hy. subst hd.
      destruct (ll_head _ _ _ _ _ HL i y Hi Hhd) as (Hya & oy & Hoy & Hpy).
      destruct (ll_first _ _ _ _ _ HL y oy i Hya Hoy Hpy) as [_ Hsy].
      assert (y <> a) by (by intros ->). destruct (Hother y oy Hya Hoy) as (oy' & Hoy' & Hs' & _ & Hp').
      split; [set_solver |]. split; [rewrite decide_False, decide_True by done; lia |]. exists oy'. split; [done |].
      split; [by rewrite Hp', decide_True | cbn; congruence].
    + destruct (ll_in _ _ _ _ _ HL x Hx) as (ox & Hox & _). destruct (Hother x ox Hx Hox) as (ox' & Hox' & Hs' & Hn' & _).
      rewrite Ho in Hox'. injection Hox' as <-. rewrite Hn' in Hy.
      destruct (ll_next _ _ _ _ _ HL x ox y Hx Hox Hy) as (Hya & Hlt & oy & Hoy & Hpy & Hsy).
      assert (y <> a) by (by intros ->). destruct (Hother y oy Hya Hoy) as (oy' & Hoy' & Hsy' & _ & Hp').
      split; [set_solver |]. split; [by rewrite !decide_False by done |]. exists oy'. split; [done |].
      split; [| congruence]. rewrite Hp', decide_False; [done |]. intros ->.
      destruct (ll_head _ _ _ _ _ HL i y Hi Hhd) as (_ & oy2 & Hoy2 & Hpy2). congruence.
  - intros y oy x [->|[Hy Hya]]%Hcases Ho Hx; [rewrite Ha1 in Ho; by injection Ho as <- |].
    destruct (ll_in _ _ _ _ _ HL y Hy) as (oy0 & Hoy0 & _). destruct (Hother y oy0 Hy Hoy0) as (oy' & Hoy' & _ & _ & Hp').
    rewrite Ho in Hoy'. injection Hoy' as <-. rewrite Hp' in Hx. case_decide as E.
    + injection Hx as <-. split; [set_solver |]. eexists. split; [exact Ha1 |]. by subst hd.
    + destruct (ll_prev _ _ _ _ _ HL y oy0 x Hy Hoy0 Hx) as (Hxa & ox & Hox & Hnx).
      destruct (Hother x ox Hxa Hox) as (ox' & Hox' & _ & Hn' & _). split; [set_solver |].
      exists ox'. split; [done | congruence].
  - intros x o j [->|[Hx Hxa]]%Hcases Ho Hj.
    + rewrite Ha1 in Ho. injection Ho as <-. injection Hj as <-. split; [| done].
      apply list_lookup_insert_eq. by eapply lookup_lt_Some.
    + destruct (ll_in _ _ _ _ _ HL x Hx) as (ox & Hox & _). destruct (Hother x ox Hx Hox) as (ox' & Hox' & Hs' & _ & Hp').
      rewrite Ho in Hox'. injection Hox' as <-. rewrite Hp' in Hj. case_decide as E; [done |].
      destruct (ll_first _ _ _ _ _ HL x ox j Hx Hox Hj) as [Hhx Hsx]. split; [| congruence].
      rewrite list_lookup_insert_ne; [done |]. intros ->. congruence.
  - intros j x Hj Hx. apply list_lookup_insert_Some in Hx as [(-> & [= ->] & _)|[Hne Hx]].
    + split; [set_solver |]. eexists. by split; [exact Ha1 |].
    + destruct (ll_head _ _ _ _ _ HL j x Hj Hx) as (Hxa & ox & Hox & Hpx).
      destruct (Hother x ox Hxa Hox) as (ox' & Hox' & _ & _ & Hp'). split; [set_solver |]. exists ox'. split; [done |].
      rewrite Hp', decide_False; [done |]. intros ->.
      destruct (ll_head _ _ _ _ _ HL i x Hi Hhd) as (_ & oy2 & Hoy2 & Hpy2). congruence.
Qed.

(** The object [a] leaves its list. *)
Lemma Linked_unlink (h : heap) hs act ord lim a oa :
  Linked h hs act ord lim -> a ∈ act -> h !! a = Some oa ->
  Linked (write_heap (d_ppContextObjPrev oa) (d_pContextObjNext oa)
           (fix_heap (d_pContextObjNext oa) (d_ppContextObjPrev oa) h))
    (write_heads (d_ppContextObjPrev oa) (d_pContextObjNext oa) hs) (act ∖ {[a]}) ord lim.
Proof.
  intros HL Ha Hoa. set (h1 := write_heap _ _ _).
  assert (forall x o, h !! x = Some o -> exists o', h1 !! x = Some o' /\ d_pScope o' = d_pScope o /\
    d_pContextObjNext o' = (if decide (d_ppContextObjPrev oa = NextCell x) then d_pContextObjNext oa else d_pContextObjNext o) /\
    d_ppContextObjPrev o' = if decide (d_pContextObjNext oa = Some x) then d_ppContextObjPrev oa else d_ppContextObjPrev o) as Hother.
  { intros x o Ho. unfold h1. rewrite lookup_write, lookup_fix, Ho. eexists. split; [done |]. by repeat case_decide. }
  assert (forall x o', x ∈ act -> h1 !! x = Some o' -> exists o, h !! x = Some o /\ d_pScope o' = d_pScope o /\
    d_pContextObjNext o' = (if decide (d_ppContextObjPrev oa = NextCell x) then d_pContextObjNext oa else d_pContextObjNext o) /\
    d_ppContextObjPrev o' = if decide (d_pContextObjNext oa = Some x) then d_ppContextObjPrev oa else d_ppContextObjPrev o) as Hback.
  { intros x o' Hx Ho'. destruct (ll_in _ _ _ _ _ HL x Hx) as (o & Ho & _). exists o. split; [done |].
    destruct (Hother x o Ho) as (o2 & Ho2 & H). rewrite Ho' in Ho2. by injection Ho2 as <-. }
  split.
  - intros x [Hx _]%elem_of_difference. destruct (ll_in _ _ _ _ _ HL x Hx) as (o & Ho & ?).
    destruct (Hother x o Ho) as (o' & ? & ? & _). exists o'. split; [done | lia].
  - intros x o' y [Hx Hxa]%elem_of_difference Ho' Hy. destruct (Hback x o' Hx Ho') as (o & Ho & Hs & Hn & _).
    assert (x <> a) as Hne by set_solver. rewrite Hn in Hy. case_decide as E.
    + destruct (ll_next _ _ _ _ _ HL a oa y Ha Hoa Hy) as (Hya & Hlt & oy & Hoy & Hpy & Hsy).
      destruct (ll_prev _ _ _ _ _ HL a oa x Ha Hoa E) as (_ & ox & Hox & Hnx). rewrite Ho in Hox. injection Hox as <-.
      destruct (ll_next _ _ _ _ _ HL x o a Hx Ho Hnx) as (_ & Hlt2 & oa2 & Hoa2 & _ & Hs2).
      rewrite Hoa in Hoa2. injection Hoa2 as <-. destruct (Hother y oy Hoy) as (oy' & Hoy' & Hsy' & _ & Hp').
      split; [apply elem_of_difference; split; [done |]; intros ->%elem_of_singleton; lia |]. split; [lia |].
      exists oy'. split; [done |]. rewrite Hp', decide_True by done. split; [done | congruence].
    + destruct (ll_next _ _ _ _ _ HL x o y Hx Ho Hy) as (Hya & Hlt & oy & Hoy & Hpy & Hsy).
      assert (y <> a) as Hya2 by (intros ->; congruence).
      destruct (Hother y oy Hoy) as (oy' & Hoy' & Hsy' & _ & Hp'). split; [set_solver |]. split; [done |].
      exists oy'. split; [done |]. split; [| congruence]. rewrite Hp', decide_False; [done |]. intros E2.
      destruct (ll_next _ _ _ _ _ HL a oa y Ha Hoa E2) as (_ & _ & oy2 & Hoy2 & Hpy2 & _). congruence.
  - intros y oy' x [Hy Hya]%elem_of_difference Ho' Hx. destruct (Hback y oy' Hy Ho') as (oy & Hoy & _ & _ & Hp).
    assert (y <> a) as Hne by set_solver. rewrite Hp in Hx. case_decide as E.
    + destruct (ll_prev _ _ _ _ _ HL a oa x Ha Hoa Hx) as (Hxa & ox & Hox & Hnx).
      destruct (ll_next _ _ _ _ _ HL x ox a Hxa Hox Hnx) as (_ & Hlt & _).
      destruct (Hother x ox Hox) as (ox' & Hox' & _ & Hn' & _).
      split; [apply elem_of_difference; split; [done |]; intros ->%elem_of_singleton; lia |].
      exists ox'. by rewrite Hn', decide_True.
    + destruct (ll_prev _ _ _ _ _ HL y oy x Hy Hoy Hx) as (Hxa & ox & Hox & Hnx).
      assert (x <> a) by (intros ->; congruence). destruct (Hother x ox Hox) as (ox' & Hox' & _ & Hn' & _).
      split; [set_solver |]. exists ox'. split; [done |]. rewrite Hn', decide_False; [done |]. intros E2.
      destruct (ll_prev _ _ _ _ _ HL a oa x Ha Hoa E2) as (_ & ox2 & Hox2 & Hnx2). congruence.
  - intros x o' i [Hx Hxa]%elem_of_difference Ho' Hi. destruct (Hback x o' Hx Ho') as (o & Ho & Hs & _ & Hp).
    assert (x <> a) as Hne by set_solver. rewrite Hp in Hi. case_decide as E.
    + destruct (ll_first _ _ _ _ _ HL a oa i Ha Hoa Hi) as [Hhd Hsa]. rewrite Hi. cbn.
      destruct (ll_next _ _ _ _ _ HL a oa x Ha Hoa E) as (_ & _ & ox & Hox & _ & Hsx).
      split; [| congruence]. rewrite E. apply list_lookup_insert_eq. by eapply lookup_lt_Some.
    + destruct (ll_first _ _ _ _ _ HL x o i Hx Ho Hi) as [Hhd Hsx]. split; [| congruence].
      destruct (d_ppContextObjPrev oa) as [j|] eqn:Ej; [| done]. cbn. rewrite list_lookup_insert_ne; [done |].
      intros ->. destruct (ll_first _ _ _ _ _ HL a oa i Ha Hoa Ej) as [Hhd2 _]. congruence.
  - intros i x Hi Hx.
    assert ((d_ppContextObjPrev oa = ScopeCell i /\ d_pContextObjNext oa = Some x) \/
            (d_ppContextObjPrev oa <> ScopeCell i /\ hs !! i = Some (Some x))) as [[E1 E2]|[E Hx0]].
    { destruct (d_ppContextObjPrev oa) as [j|]; cbn in Hx; [| by right]. destruct (decide (i = j)) as [->|].
      - left. apply list_lookup_insert_Some in Hx as [(_ & E & _)|[? _]]; [by split | done].
      - right. rewrite list_lookup_insert_ne in Hx by done. split; [congruence | done]. }
    + destruct (ll_next _ _ _ _ _ HL a oa x Ha Hoa E2) as (Hxa & Hlt & ox & Hox & _ & _).
      destruct (Hother x ox Hox) as (ox' & Hox' & _ & _ & Hp').
      split; [apply elem_of_difference; split; [done |]; intros ->%elem_of_singleton; lia |].
      exists ox'. by rewrite Hp', decide_True.
    + destruct (ll_head _ _ _ _ _ HL i x Hi Hx0) as (Hxa & ox & Hox & Hpx).
      assert (x <> a) by (intros ->; congruence). destruct (Hother x ox Hox) as (ox' & Hox' & _ & _ & Hp').
      split; [set_solver |]. exists ox'. split; [done |]. rewrite Hp', decide_False; [done |]. intros E2.
      destruct (ll_next _ _ _ _ _ HL a oa x Ha Hoa E2) as (_ & _ & oy2 & Hoy2 & Hpy2 & _). congruence.
Qed.
End linkage.

(** ** Versions

    The saved versions of an object form a chain of strictly decreasing scopes;
    [ver] is the logical state each version stands for. *)
Section versions.
Context {D : Type} {CD : ContextData D} {K O : Type} {CS : ContextDataSpec D K O}.
Abbreviation heap := (gmap addr (ContextObj D)).

Record Versions (h : heap) (act : gset addr) (ver : addr -> K) : Prop := {
  v_in x : x ∈ act -> is_Some (h !! x);
  v_restore x o s : x ∈ act -> h !! x = Some o -> d_pContextObjRestore o = Some s ->
    s ∈ act /\ cd_ev (ver s) (ver x) /\
    exists os, h !! s = Some os /\ d_region os = Some (d_pScope o) /\ d_pScope os < d_pScope o /\
      cd_saved (d_object os) (ver s);
  v_none x o : x ∈ act -> h !! x = Some o -> d_pContextObjRestore o = None -> d_pScope o = 0;
  v_inj x y ox oy s : x ∈ act -> y ∈ act -> h !! x = Some ox -> h !! y = Some oy ->
    d_pContextObjRestore ox = Some s -> d_pContextObjRestore oy = Some s -> x = y;
  v_live x o : x ∈ act -> h !! x = Some o -> d_region o = None -> cd_rep (d_object o) (ver x);
  v_owned x o r : x ∈ act -> h !! x = Some o -> d_region o = Some r ->
    exists y oy, y ∈ act /\ h !! y = Some oy /\ d_pContextObjRestore oy = Some x;
  v_dead x o : h !! x = Some o -> x ∉ act -> d_region o <> None
}.

(** The state of [x] in scope [i]. *)
Inductive view (h : heap) (ver : addr -> K) : addr -> nat -> K -> Prop :=
  | view_here x o i : h !! x = Some o -> d_pScope o <= i -> view h ver x i (ver x)
  | view_back x o s i k : h !! x = Some o -> i < d_pScope o -> d_pContextObjRestore o = Some s ->
      view h ver s i k -> view h ver x i k.

Ltac core_inv H := injection H; clear H; intros.

Lemma Versions_core h h' act ver : same_core h h' -> Versions h act ver -> Versions h' act ver.
Proof.
  intros Hc [V1 V2 V3 V4 V5 V6 V7]. pose proof (same_core_sym _ _ Hc) as Hc'.
  assert (forall x o', h' !! x = Some o' -> exists o, h !! x = Some o /\ core o = core o') as Hb.
  { intros x o' Ho'. by apply (same_core_lookup h' h). }
  split.
  - intros x Hx. destruct (V1 x Hx) as [o Ho]. destruct (same_core_lookup _ _ _ _ Hc Ho) as (o' & -> & _). by eexists.
  - intros x o' s Hx Ho' Hs. destruct (Hb x o' Ho') as (o & Ho & E). injection E as E1 E2 E3 E4.
    destruct (V2 x o s Hx Ho) as (Hsa & Hev & os & Hos & Hr & Hlt & Hsv); [congruence |].
    destruct (same_core_lookup _ _ _ _ Hc Hos) as (os' & Hos' & F). injection F as F1 F2 F3 F4.
    split; [done |]. split; [done |]. exists os'. rewrite F4. split; [done |]. split; [congruence |].
    split; [congruence | done].
  - intros x o' Hx Ho' Hs. destruct (Hb x o' Ho') as (o & Ho & E). injection E as E1 E2 E3 E4.
    rewrite <- E1. apply (V3 x o Hx Ho). congruence.
  - intros x y ox' oy' s Hx Hy Hox' Hoy' Hsx Hsy.
    destruct (Hb x ox' Hox') as (ox & Hox & E). injection E as E1 E2 E3 E4.
    destruct (Hb y oy' Hoy') as (oy & Hoy & F). injection F as F1 F2 F3 F4.
    apply (V4 x y ox oy s); done || congruence.
  - intros x o' Hx Ho' Hr. destruct (Hb x o' Ho') as (o & Ho & E). injection E as E1 E2 E3 E4.
    rewrite <- E4. apply (V5 x o Hx Ho). congruence.
  - intros x o' r Hx Ho' Hr. destruct (Hb x o' Ho') as (o & Ho & E). injection E as E1 E2 E3 E4.
    destruct (V6 x o r Hx Ho) as (y & oy & Hy & Hoy & Hry); [congruence |].
    destruct (same_core_lookup _ _ _ _ Hc Hoy) as (oy' & Hoy' & F). injection F as F1 F2 F3 F4.
    exists y, oy'. split; [done |]. split; [done | congruence].
  - intros x o' Ho' Hx. destruct (Hb x o' Ho') as (o & Ho & E). injection E as E1 E2 E3 E4.
    rewrite <- E3. by apply (V7 x o).
Qed.

Lemma view_core h h' ver x i k : same_core h h' -> view h ver x i k -> view h' ver x i k.
Proof.
  intros Hc. induction 1 as [x o i Ho Hs | x o s i k Ho Hs Hr _ IH];
    destruct (same_core_lookup _ _ _ _ Hc Ho) as (o' & Ho' & E); injection E as E1 E2 E3 E4.
  - apply (view_here _ _ _ o'); [done | lia].
  - apply (view_back _ _ _ o' s); [done | lia | congruence | done].
Qed.

(** Only active objects matter. *)
Lemma view_sub h h' act ver x i k :
  Versions h act ver -> (forall x, x ∈ act -> h' !! x = h !! x) -> x ∈ act -> view h ver x i k -> view h' ver x i k.
Proof.
  intros HV Hh Hx Hv. induction Hv as [x o i Ho Hs | x o s i k Ho Hs Hr _ IH].
  - eapply view_here; [| exact Hs]. by rewrite Hh.
  - eapply view_back; [rewrite Hh by done; exact Ho | done | exact Hr |]. apply IH.
    by destruct (v_restore _ _ _ HV x o s Hx Ho Hr).
Qed.

Definition set_ver (ver : addr -> K) (x : addr) (k : K) : addr -> K := fun y => if decide (y = x) then k else ver y.
Lemma set_ver_eq ver x k : set_ver ver x k x = k.
Proof. unfold set_ver. by rewrite decide_True. Qed.
Lemma set_ver_ne ver x y k : y <> x -> set_ver ver x k y = ver y.
Proof. intros. unfold set_ver. by rewrite decide_False. Qed.

(** A live object is nobody's saved version. *)
Lemma live_not_saved h act ver x ox y oy :
  Versions h act ver -> h !! x = Some ox -> d_region ox = None ->
  y ∈ act -> h !! y = Some oy -> d_pContextObjRestore oy <> Some x.
Proof.
  intros HV Hox Hr Hy Hoy E. destruct (v_restore _ _ _ HV y oy x Hy Hoy E) as (_ & _ & os & Hos & Hreg & _). congruence.
Qed.

(** *** Changing the data of a live object *)
Section change.
Context (h : heap) (act : gset addr) (ver : addr -> K) (x : addr) (o o' : ContextObj D) (k : K).
Hypothesis HV : Versions h act ver.
Hypothesis Hx : x ∈ act.
Hypothesis Ho : h !! x = Some o.
Hypothesis Hlive : d_region o = None.
Hypothesis Hcore : core o' = (d_pScope o, d_pContextObjRestore o, d_region o, d_object o').
Hypothesis Hrep : cd_rep (d_object o') k.
Hypothesis Hev : forall k0, cd_ev k0 (ver x) -> cd_ev k0 k.

Lemma Versions_change : Versions (<[x:=o']> h) act (set_ver ver x k).
Proof.
  injection Hcore as C1 C2 C3.
  assert (forall y oy', <[x:=o']> h !! y = Some oy' -> exists oy, h !! y = Some oy /\ d_pScope oy' = d_pScope oy /\
    d_pContextObjRestore oy' = d_pContextObjRestore oy /\ d_region oy' = d_region oy /\ (y <> x -> oy' = oy)) as Hb.
  { intros y oy'. destruct (decide (y = x)) as [->|]; [rewrite lookup_insert_eq; intros [= <-]; by exists o |].
    rewrite lookup_insert_ne by done. intros E. by exists oy'. }
  destruct HV as [V1 V2 V3 V4 V5 V6 V7]. split.
  - intros y Hy. destruct (decide (y = x)) as [->|]; [rewrite lookup_insert_eq; by eexists |].
    rewrite lookup_insert_ne by done. auto.
  - intros y oy' s Hy Hoy' Hs. destruct (Hb y oy' Hoy') as (oy & Hoy & E1 & E2 & E3 & _).
    destruct (V2 y oy s Hy Hoy) as (Hsa & Hev' & os & Hos & Hr & Hlt & Hsv); [congruence |].
    assert (s <> x) as Hne by (intros ->; congruence). split; [done |]. rewrite (set_ver_ne _ _ s) by done. split.
    { unfold set_ver. case_decide; [subst y; by apply Hev | done]. }
    exists os. rewrite lookup_insert_ne by done. rewrite E1. done.
  - intros y oy' Hy Hoy' Hs. destruct (Hb y oy' Hoy') as (oy & Hoy & E1 & E2 & _). rewrite E1. apply (V3 y oy Hy Hoy). congruence.
  - intros y z oy' oz' s Hy Hz Hoy' Hoz' Hsy Hsz. destruct (Hb y oy' Hoy') as (oy & Hoy & _ & E2 & _).
    destruct (Hb z oz' Hoz') as (oz & Hoz & _ & F2 & _). apply (V4 y z oy oz s); done || congruence.
  - intros y oy' Hy Hoy' Hr. destruct (decide (y = x)) as [->|].
    + rewrite lookup_insert_eq in Hoy'. injection Hoy' as <-. by rewrite set_ver_eq.
    + rewrite lookup_insert_ne in Hoy' by done. rewrite set_ver_ne by done. by apply V5.
  - intros y oy' r Hy Hoy' Hr. destruct (Hb y oy' Hoy') as (oy & Hoy & E1 & E2 & E3 & _).
    destruct (V6 y oy r Hy Hoy) as (z & oz & Hz & Hoz & Hrz); [congruence |].
    exists z. destruct (decide (z = x)) as [->|].
    + exists o'. rewrite lookup_insert_eq. split; [done |]. split; [done | congruence].
    + exists oz. by rewrite lookup_insert_ne.
  - intros y oy' Hoy' Hy. destruct (Hb y oy' Hoy') as (oy & Hoy & _ & _ & -> & _). by apply (V7 y oy).
Qed.

(** Other objects, and [x] below its scope, keep their states. *)
Lemma view_change y i k0 : y ∈ act -> (y = x -> i < d_pScope o) -> view h ver y i k0 ->
  view (<[x:=o']> h) (set_ver ver x k) y i k0.
Proof.
  injection Hcore as C1 C2 C3. intros Hy Hyx Hv.
  induction Hv as [y oy i Hoy Hs | y oy s i k1 Hoy Hs Hr Hv IH].
  - destruct (decide (y = x)) as [->|]; [specialize (Hyx eq_refl); rewrite Ho in Hoy; injection Hoy as <-; lia |].
    rewrite <- (set_ver_ne ver x y k) by done. eapply view_here; [rewrite lookup_insert_ne by done |]; done.
  - destruct (v_restore _ _ _ HV y oy s Hy Hoy Hr) as (Hsa & _).
    assert (s <> x) as Hne by (intros ->; by eapply (live_not_saved h act ver x o y oy)).
    specialize (IH Hsa ltac:(done)). destruct (decide (y = x)) as [->|].
    + rewrite Ho in Hoy. injection Hoy as <-. apply (view_back _ _ _ o' s); [by rewrite lookup_insert_eq | lia | congruence | done].
    + eapply view_back; [by rewrite lookup_insert_ne | done | done | done].
Qed.
End change.

(** *** Saving a version *)
Section save.
Context (h : heap) (act : gset addr) (ver : addr -> K) (x s : addr) (o o' os : ContextObj D) (L : nat).
Hypothesis HV : Versions h act ver.
Hypothesis Hx : x ∈ act.
Hypothesis Ho : h !! x = Some o.
Hypothesis Hlive : d_region o = None.
Hypothesis HL : d_pScope o < L.
Hypothesis Hs : h !! s = None.
Hypothesis Hos : core os = (d_pScope o, d_pContextObjRestore o, Some L, (cd_save (d_object o)).1).
Hypothesis Ho' : core o' = (L, Some s, None, (cd_save (d_object o)).2).

Let h' := <[x:=o']> (<[s:=os]> h).
Let ver' := set_ver (set_ver ver s (ver x)) x (cd_mark (ver x)).

Lemma save_fresh : s ∉ act /\ s <> x.
Proof.
  split; [| congruence]. intros Hin. destruct (v_in _ _ _ HV s Hin) as [? E]. congruence.
Qed.
Lemma save_x : h' !! x = Some o'.
Proof. unfold h'. by rewrite lookup_insert_eq. Qed.
Lemma save_s : h' !! s = Some os.
Proof. unfold h'. rewrite lookup_insert_ne by (apply not_eq_sym, save_fresh). by rewrite lookup_insert_eq. Qed.
Lemma save_other y : y <> x -> y <> s -> h' !! y = h !! y.
Proof. intros. unfold h'. by rewrite !lookup_insert_ne by done. Qed.
Lemma save_ver_x : ver' x = cd_mark (ver x).
Proof. unfold ver'. by rewrite set_ver_eq. Qed.
Lemma save_ver_s : ver' s = ver x.
Proof. unfold ver'. rewrite set_ver_ne, set_ver_eq; [done | apply save_fresh]. Qed.
Lemma save_ver_other y : y <> x -> y <> s -> ver' y = ver y.
Proof. intros. unfold ver'. by rewrite !set_ver_ne by done. Qed.
Lemma save_cases y : y ∈ act ∪ {[s]} -> y = s \/ y = x \/ (y ∈ act /\ y <> x /\ y <> s).
Proof. destruct (decide (y = s)), (decide (y = x)); set_solver. Qed.

(** What [x] pointed to is now below [s]. *)
Lemma save_restore t : d_pContextObjRestore o = Some t ->
  t ∈ act /\ t <> x /\ t <> s /\ cd_ev (ver t) (ver x) /\
  exists ot, h !! t = Some ot /\ d_region ot = Some (d_pScope o) /\ d_pScope ot < d_pScope o /\ cd_saved (d_object ot) (ver t).
Proof.
  intros E. destruct (v_restore _ _ _ HV x o t Hx Ho E) as (Ht & Hev & ot & Hot & Hr & ?).
  split; [done |]. split; [congruence |]. split; [congruence |]. split; [done |]. by exists ot.
Qed.

Lemma Versions_save : Versions h' (act ∪ {[s]}) ver'.
Proof.
  pose proof Hos as C. pose proof Ho' as E. injection C as C1 C2 C3 C4. injection E as E1 E2 E3 E4.
  destruct (save_rep (d_object o) (ver x) (v_live _ _ _ HV x o Hx Ho Hlive)) as [Hsv Hrep].
  destruct save_fresh as [Hsa Hsx]. split.
  - intros y [->|[->|(Hy & Hyx & Hys)]]%save_cases; [rewrite save_s; by eexists | rewrite save_x; by eexists |].
    rewrite save_other by done. by apply (v_in _ _ _ HV).
  - intros y oy t [->|[->|(Hy & Hyx & Hys)]]%save_cases Hoy Ht.
    + rewrite save_s in Hoy. injection Hoy as <-. rewrite C2 in Ht.
      destruct (save_restore t Ht) as (Hta & Htx & Hts & Hev & ot & Hot & Hr & Hlt & Hst).
      split; [set_solver |]. rewrite save_ver_s, save_ver_other by done. split; [done |].
      exists ot. rewrite save_other by done. rewrite C1. done.
    + rewrite save_x in Hoy. injection Hoy as <-. rewrite E2 in Ht. injection Ht as <-.
      split; [set_solver |]. rewrite save_ver_s, save_ver_x. split; [apply ev_mark |].
      exists os. rewrite save_s, C3, C4, C1, E1. done.
    + rewrite save_other in Hoy by done.
      destruct (v_restore _ _ _ HV y oy t Hy Hoy Ht) as (Hta & Hev & ot & Hot & Hr & Hlt & Hst).
      assert (t <> x) as Htx by (intros ->; congruence). assert (t <> s) as Hts by (intros ->; congruence).
      split; [set_solver |]. rewrite !save_ver_other by done. split; [done |].
      exists ot. by rewrite save_other.
  - intros y oy [->|[->|(Hy & Hyx & Hys)]]%save_cases Hoy Hr.
    + rewrite save_s in Hoy. injection Hoy as <-. rewrite C1. apply (v_none _ _ _ HV x o Hx Ho). congruence.
    + rewrite save_x in Hoy. injection Hoy as <-. congruence.
    + rewrite save_other in Hoy by done. by apply (v_none _ _ _ HV y oy).
  - intros y z oy oz t Hy Hz Hoy Hoz Hty Htz.
    assert (forall w ow, w ∈ act ∪ {[s]} -> h' !! w = Some ow -> d_pContextObjRestore ow = Some t ->
      (w = x /\ t = s) \/ (t <> s /\ exists w0 ow0, w0 ∈ act /\ h !! w0 = Some ow0 /\ d_pContextObjRestore ow0 = Some t /\
        w = if decide (w0 = x) then s else w0)) as Hw.
    { intros w ow [->|[->|(Hw & Hwx & Hws)]]%save_cases How Hr.
      - rewrite save_s in How. injection How as <-. rewrite C2 in Hr. right.
        destruct (save_restore t Hr) as (_ & _ & ? & _). split; [done |]. exists x, o. by rewrite decide_True.
      - rewrite save_x in How. injection How as <-. left. split; [done | congruence].
      - rewrite save_other in How by done. right.
        destruct (v_restore _ _ _ HV w ow t Hw How Hr) as (_ & _ & ot & Hot & _).
        split; [congruence |]. exists w, ow. by rewrite decide_False. }
    destruct (Hw y oy Hy Hoy Hty) as [[-> Ey]|(Ny & y0 & oy0 & Hy0 & Hoy0 & Hry & ->)],
             (Hw z oz Hz Hoz Htz) as [[-> Ez]|(Nz & z0 & oz0 & Hz0 & Hoz0 & Hrz & ->)]; try done.
    by rewrite (v_inj _ _ _ HV y0 z0 oy0 oz0 t Hy0 Hz0 Hoy0 Hoz0 Hry Hrz).
  - intros y oy [->|[->|(Hy & Hyx & Hys)]]%save_cases Hoy Hr.
    + rewrite save_s in Hoy. injection Hoy as <-. congruence.
    + rewrite save_x in Hoy. injection Hoy as <-. by rewrite save_ver_x, E4.
    + rewrite save_other in Hoy by done. rewrite save_ver_other by done. by apply (v_live _ _ _ HV).
  - intros y oy r [->|[->|(Hy & Hyx & Hys)]]%save_cases Hoy Hr.
    + exists x, o'. split; [set_solver |]. by rewrite save_x.
    + rewrite save_x in Hoy. injection Hoy as <-. congruence.
    + rewrite save_other in Hoy by done. destruct (v_owned _ _ _ HV y oy r Hy Hoy Hr) as (z & oz & Hz & Hoz & Hrz).
      destruct (decide (z = x)) as [->|].
      * exists s, os. split; [set_solver |]. rewrite save_s. split; [done | congruence].
      * exists z, oz. split; [set_solver |]. rewrite save_other; [done | done | congruence].
  - intros y oy Hoy Hy. assert (y <> x) by set_solver. assert (y <> s) by set_solver.
    rewrite save_other in Hoy by done. apply (v_dead _ _ _ HV y oy Hoy). set_solver.
Qed.

Lemma view_save y i k : y ∈ act -> (y = x -> i < L) -> view h ver y i k -> view h' ver' y i k.
Proof.
  pose proof Hos as C. pose proof Ho' as E. injection C as C1 C2 C3 C4. injection E as E1 E2 E3 E4. destruct save_fresh as [Hsa Hsx].
  intros Hy Hi Hv. induction Hv as [y oy i Hoy Hsc | y oy t i k Hoy Hsc Hr Hv IH].
  - destruct (decide (y = x)) as [->|Hne].
    + rewrite Ho in Hoy. injection Hoy as <-. apply (view_back _ _ _ o' s); [apply save_x | rewrite E1; auto | done |].
      rewrite <- save_ver_s. apply (view_here _ _ _ os); [apply save_s | lia].
    + assert (y <> s) by (by intros ->). rewrite <- save_ver_other by done.
      apply (view_here _ _ _ oy); [by rewrite save_other | done].
  - destruct (v_restore _ _ _ HV y oy t Hy Hoy Hr) as (Hta & _ & ot & Hot & Hreg & _).
    assert (t <> x) as Htx by (intros ->; congruence). specialize (IH Hta ltac:(done)).
    destruct (decide (y = x)) as [->|Hne].
    + rewrite Ho in Hoy. injection Hoy as <-. apply (view_back _ _ _ o' s); [apply save_x | rewrite E1; auto | done |].
      apply (view_back _ _ _ os t); [apply save_s | lia | congruence | done].
    + apply (view_back _ _ _ oy t); [rewrite save_other; [done | done | by intros ->] | done | done | done].
Qed.
End save.

(** *** Restoring a version *)
Section restore.
Context (h : heap) (act : gset addr) (ver : addr -> K) (x s : addr) (o o' os : ContextObj D).
Hypothesis HV : Versions h act ver.
Hypothesis Hx : x ∈ act.
Hypothesis Ho : h !! x = Some o.
Hypothesis Hlive : d_region o = None.
Hypothesis Hr : d_pContextObjRestore o = Some s.
Hypothesis Hos : h !! s = Some os.
Hypothesis Ho' : core o' = (d_pScope os, d_pContextObjRestore os, None, d_object o').
Hypothesis Hrep : cd_rep (d_object o') (ver s).

Let h' := <[x:=o']> h.
Let ver' := set_ver ver x (ver s).

Lemma restore_facts : s ∈ act /\ s <> x /\ d_region os <> None /\ d_pScope os < d_pScope o.
Proof.
  destruct (v_restore _ _ _ HV x o s Hx Ho Hr) as (Hs & _ & os' & Hos' & Hreg & Hlt & _).
  rewrite Hos in Hos'. injection Hos' as <-. split; [done |]. split; [congruence |]. split; [congruence | done].
Qed.
Lemma restore_other y : y <> x -> h' !! y = h !! y.
Proof. intros. unfold h'. by rewrite lookup_insert_ne. Qed.

Lemma Versions_restore : Versions h' (act ∖ {[s]}) ver'.
Proof.
  pose proof Ho' as E. injection E as E1 E2 E3. destruct restore_facts as (Hsa & Hsx & Hreg & Hlt).
  assert (h' !! x = Some o') as Hx' by (unfold h'; by rewrite lookup_insert_eq).
  assert (forall t, d_pContextObjRestore os = Some t -> t <> s /\ t <> x) as Ht.
  { intros t E. destruct (v_restore _ _ _ HV s os t Hsa Hos E) as (_ & _ & ot & Hot & Hrt & Hl & _).
    split; intros ->; [rewrite Hos in Hot; injection Hot as <-; lia | congruence]. }
  split.
  - intros y [Hy _]%elem_of_difference. destruct (decide (y = x)) as [->|]; [by eexists |].
    rewrite restore_other by done. by apply (v_in _ _ _ HV).
  - intros y oy t [Hy Hys]%elem_of_difference Hoy Hty. destruct (decide (y = x)) as [->|Hyx].
    + rewrite Hx' in Hoy. injection Hoy as <-. rewrite E2 in Hty. destruct (Ht t Hty) as [Hts Htx].
      destruct (v_restore _ _ _ HV s os t Hsa Hos Hty) as (Hta & Hev & ot & Hot & Hrt & Hl & Hsv).
      split; [set_solver |]. unfold ver'. rewrite set_ver_eq, set_ver_ne by done. split; [done |].
      exists ot. rewrite restore_other by done. rewrite E1. done.
    + rewrite restore_other in Hoy by done.
      destruct (v_restore _ _ _ HV y oy t Hy Hoy Hty) as (Hta & Hev & ot & Hot & Hrt & Hl & Hsv).
      assert (t <> s) by (intros ->; apply Hyx; by apply (v_inj _ _ _ HV y x oy o s)).
      assert (t <> x) by (intros ->; congruence).
      split; [set_solver |]. unfold ver'. rewrite !set_ver_ne by done. split; [done |].
      exists ot. by rewrite restore_other.
  - intros y oy [Hy Hys]%elem_of_difference Hoy Hn. destruct (decide (y = x)) as [->|Hyx].
    + rewrite Hx' in Hoy. injection Hoy as <-. rewrite E1. apply (v_none _ _ _ HV s os Hsa Hos). congruence.
    + rewrite restore_other in Hoy by done. by apply (v_none _ _ _ HV y oy).
  - intros y z oy oz t [Hy Hys]%elem_of_difference [Hz Hzs]%elem_of_difference Hoy Hoz Hty Htz.
    assert (forall w ow, w ∈ act -> w ∉ ({[s]} : gset addr) -> h' !! w = Some ow -> d_pContextObjRestore ow = Some t ->
      exists w0 ow0, w0 ∈ act /\ h !! w0 = Some ow0 /\ d_pContextObjRestore ow0 = Some t /\
        w = if decide (w0 = s) then x else w0) as Hw.
    { intros w ow Hw Hws How Hrw. destruct (decide (w = x)) as [->|].
      - rewrite Hx' in How. injection How as <-. exists s, os. rewrite decide_True by done.
        split; [done |]. split; [done |]. split; [congruence | done].
      - rewrite restore_other in How by done. exists w, ow. rewrite decide_False by set_solver. done. }
    destruct (Hw y oy Hy Hys Hoy Hty) as (y0 & oy0 & Hy0 & Hoy0 & Hry & ->).
    destruct (Hw z oz Hz Hzs Hoz Htz) as (z0 & oz0 & Hz0 & Hoz0 & Hrz & ->).
    by rewrite (v_inj _ _ _ HV y0 z0 oy0 oz0 t Hy0 Hz0 Hoy0 Hoz0 Hry Hrz).
  - intros y oy [Hy Hys]%elem_of_difference Hoy Hry. unfold ver'. destruct (decide (y = x)) as [->|Hyx].
    + rewrite Hx' in Hoy. injection Hoy as <-. by rewrite set_ver_eq.
    + rewrite restore_other in Hoy by done. rewrite set_ver_ne by done. by apply (v_live _ _ _ HV).
  - intros y oy r [Hy Hys]%elem_of_difference Hoy Hry. destruct (decide (y = x)) as [->|Hyx].
    { rewrite Hx' in Hoy. injection Hoy as <-. congruence. }
    rewrite restore_other in Hoy by done. destruct (v_owned _ _ _ HV y oy r Hy Hoy Hry) as (z & oz & Hz & Hoz & Hrz).
    destruct (decide (z = s)) as [->|Hzs].
    + exists x, o'. split; [set_solver |]. split; [done |]. congruence.
    + exists z, oz. split; [set_solver |]. split; [| done]. rewrite restore_other; [done |]. intros ->.
      rewrite Ho in Hoz. injection Hoz as <-. rewrite Hr in Hrz. injection Hrz as ->. set_solver.
  - intros y oy Hoy Hy. destruct (decide (y = x)) as [->|]; [set_solver |]. rewrite restore_other in Hoy by done.
    destruct (decide (y = s)) as [->|]; [congruence |]. apply (v_dead _ _ _ HV y oy Hoy). set_solver.
Qed.

Lemma view_restore y i k : y ∈ act -> i < d_pScope o -> view h ver y i k -> view h' ver' y i k.
Proof.
  pose proof Ho' as E. injection E as E1 E2 E3. destruct restore_facts as (Hsa & Hsx & _).
  assert (h' !! x = Some o') as Hx' by (unfold h'; by rewrite lookup_insert_eq).
  assert (ver' s = ver s) as Hvs by (unfold ver'; by rewrite set_ver_ne).
  assert (ver' x = ver s) as Hvx by (unfold ver'; by rewrite set_ver_eq).
  intros Hy Hi Hv. induction Hv as [y oy i Hoy Hsc | y oy t i k Hoy Hsc Hry Hv IH].
  - destruct (decide (y = x)) as [->|Hne]; [rewrite Ho in Hoy; injection Hoy as <-; lia |].
    replace (ver y) with (ver' y) by (unfold ver'; by rewrite set_ver_ne).
    apply (view_here _ _ _ oy); [by rewrite restore_other | done].
  - destruct (v_restore _ _ _ HV y oy t Hy Hoy Hry) as (Hta & _). specialize (IH Hta Hi).
    destruct (decide (y = x)) as [->|Hne].
    + rewrite Ho in Hoy. injection Hoy as <-. rewrite Hr in Hry. injection Hry as <-.
      inversion IH as [? os' ? Hos' Hle E | ? os' u ? ? Hos' Hlt Hru Hvu]; subst;
        rewrite restore_other in Hos' by done; rewrite Hos in Hos'; injection Hos' as <-.
      * rewrite Hvs, <- Hvx. apply (view_here _ _ _ o'); [done | lia].
      * apply (view_back _ _ _ o' u); [done | lia | congruence | done].
    + apply (view_back _ _ _ oy t); [by rewrite restore_other | done | done | done].
Qed.
End restore.
End versions.

(** ** The operations *)
Section ops.
Context {D : Type} {CD : ContextData D} {K O : Type} {CS : ContextDataSpec D K O}.
Abbreviation heap := (gmap addr (ContextObj D)).
Abbreviation St := (Context D).

Record Sim (c : St) (act : gset addr) (ver : addr -> K) (ord : addr -> Z) : Prop := {
  sim_heads : length (d_heads c) = d_scopes c;
  sim_pos : 1 <= d_scopes c;
  sim_linked : Linked (d_heap c) (d_heads c) act ord (d_scopes c);
  sim_versions : Versions (d_heap c) act ver
}.

(** Client-visible objects. *)
Definition live (h : heap) (act : gset addr) (x : addr) : Prop :=
  x ∈ act /\ exists o, h !! x = Some o /\ d_region o = None.

(** [S] holds the states of the live objects in scope [i]. *)
Record snap_ok (h : heap) (act : gset addr) (ver : addr -> K) (i : nat) (S : gmap addr O) : Prop := {
  snap_live x : live h act x -> exists k, view h ver x i k /\ S !! x = Some (cd_vis k);
  snap_only x : is_Some (S !! x) -> live h act x
}.

Definition snaps_ok (c : St) (act : gset addr) (ver : addr -> K) (Σ : list (gmap addr O)) : Prop :=
  length Σ = d_scopes c /\ forall i S, Σ !! i = Some S -> snap_ok (d_heap c) act ver i S.

Definition Refines (c : St) (Σ : list (gmap addr O)) : Prop :=
  exists act ver ord, Sim c act ver ord /\ snaps_ok c act ver Σ.

Lemma live_core h h' act x : same_core h h' -> live h act x -> live h' act x.
Proof.
  intros Hc (Hx & o & Ho & Hr). destruct (same_core_lookup _ _ _ _ Hc Ho) as (o' & Ho' & E).
  injection E as E1 E2 E3 E4. split; [done |]. exists o'. split; [done | congruence].
Qed.

Lemma snap_ok_core h h' act ver i S : same_core h h' -> snap_ok h act ver i S -> snap_ok h' act ver i S.
Proof.
  intros Hc [H1 H2]. pose proof (same_core_sym _ _ Hc) as Hc'. split.
  - intros x Hx. destruct (H1 x) as (k & Hv & HS); [by eapply live_core |]. exists k. split; [| done]. by eapply view_core.
  - intros x Hx. eapply live_core; [exact Hc | auto].
Qed.

(** At or above its scope, a live object is in its current state. *)
Lemma view_top (h : heap) (ver : addr -> K) x o i k : h !! x = Some o -> d_pScope o <= i -> view h ver x i k -> k = ver x.
Proof.
  intros Ho Hi Hv. inversion Hv as [|? o' ? ? ? Ho' Hlt]; [done |]. rewrite Ho in Ho'. injection Ho' as <-. lia.
Qed.

Lemma sim_scope c act ver ord x o : Sim c act ver ord -> x ∈ act -> d_heap c !! x = Some o -> d_pScope o < d_scopes c.
Proof.
  intros HS Hx Ho. destruct (ll_in _ _ _ _ _ (sim_linked _ _ _ _ HS) x Hx) as (o' & Ho' & ?). congruence.
Qed.

(** *** [addToChain] *)
Lemma addToChain_run (c : St) act ord lim a oa i :
  Linked (d_heap c) (d_heads c) act ord lim -> a ∉ act -> d_heap c !! a = Some oa -> d_pScope oa = i -> i < lim ->
  lim <= length (d_heads c) ->
  exists c' ord', addToChain i a c = Ok (tt, c') /\
    Linked (d_heap c') (d_heads c') (act ∪ {[a]}) ord' lim /\ same_core (d_heap c) (d_heap c') /\
    length (d_heads c') = length (d_heads c) /\
    c' = with_heads (d_heads c') (with_heap (d_heap c') c).
Proof.
  intros HL Ha Hoa Hs Hi Hlen. destruct (lookup_lt_is_Some_2 (d_heads c) i) as [hd Hhd]; [lia |].
  pose proof (Linked_cons _ _ _ _ _ a oa i hd HL Ha Hoa Hs Hi Hhd) as HL'. cbn zeta in HL'.
  unfold addToChain, getHead, mbind, SM_bind. rewrite Hhd.
  rewrite fixPrev_run.
  2: { intros y ->. destruct (ll_head _ _ _ _ _ HL i y Hi Hhd) as (_ & o & Ho & _). by eexists. }
  destruct (fix_heap hd (NextCell a) (d_heap c) !! a) as [oa1|] eqn:E.
  2: { rewrite lookup_fix, Hoa in E. done. }
  rewrite (update_obj_run a _ _ oa1) by done. unfold setHead. cbn [d_heads with_heap]. rewrite Hhd.
  eexists _, _. split; [done |]. cbn [d_heap d_heads with_heads with_heap]. split; [exact HL' |]. split; [| split].
  - eapply same_core_trans; [apply same_core_fix | by apply same_core_alter].
  - by rewrite length_insert.
  - done.
Qed.

(** *** [update] on an object that is not current *)
Lemma update_run (c : St) act ver ord x o :
  Sim c act ver ord -> x ∈ act -> d_heap c !! x = Some o -> d_region o = None -> d_pScope o < d_scopes c - 1 ->
  exists c' ord' s os o', update x c = Ok (tt, c') /\
    d_heap c !! s = None /\
    core os = (d_pScope o, d_pContextObjRestore o, Some (d_scopes c - 1), (cd_save (d_object o)).1) /\
    core o' = (d_scopes c - 1, Some s, None, (cd_save (d_object o)).2) /\
    same_core (<[x:=o']> (<[s:=os]> (d_heap c))) (d_heap c') /\
    Linked (d_heap c') (d_heads c') (act ∪ {[s]}) ord' (d_scopes c) /\
    length (d_heads c') = length (d_heads c) /\ c' = with_heads (d_heads c') (with_heap (d_heap c') c).
Proof.
  intros [Hlen Hpos HL HV] Hx Ho Hlive Hlt. set (L := d_scopes c - 1) in *.
  unfold update, deref, getLevel, gets. unfold mbind at 1, SM_bind at 1. rewrite Ho. unfold mbind at 1, SM_bind at 1.
  fold L. destruct (cd_save (d_object o)) as [saved this] eqn:Esave.
  set (os := MkObj (d_pScope o) (d_pContextObjRestore o) (d_pContextObjNext o) (d_ppContextObjPrev o) (Some L) saved).
  unfold alloc. unfold mbind at 1, SM_bind at 1. set (s := fresh (dom (d_heap c))). cbv zeta.
  assert (d_heap c !! s = None) as Hs by (apply not_elem_of_dom, is_fresh).
  assert (s ∉ act) as Hsa. { intros Hin. destruct (v_in _ _ _ HV s Hin) as [? E]. congruence. }
  assert (s <> x) as Hsx by congruence.
  unfold mbind at 1, SM_bind at 1. rewrite (update_obj_run x _ _ o) by (cbn; by rewrite lookup_insert_ne by done).
  cbn [d_heap with_heap]. set (h2 := alter (set_data this) x (<[s:=os]> (d_heap c))).
  assert (forall y, y <> x -> y <> s -> h2 !! y = d_heap c !! y) as Hh2.
  { intros y Hyx Hys. unfold h2. by rewrite lookup_alter_ne, lookup_insert_ne by done. }
  assert (h2 !! s = Some os) as Hh2s. { unfold h2. by rewrite lookup_alter_ne, lookup_insert_eq by done. }
  assert (h2 !! x = Some (set_data this o)) as Hh2x.
  { unfold h2. by rewrite lookup_alter_eq, lookup_insert_ne, Ho by done. }
  assert (forall y, y ∈ act -> is_Some (h2 !! y)) as Hin2.
  { intros y Hy. destruct (decide (y = x)) as [->|]; [by eexists |]. rewrite Hh2; [| done | by intros ->].
    by apply (v_in _ _ _ HV). }
  unfold mbind at 1, SM_bind at 1. rewrite fixPrev_run.
  2: { intros y Hy. cbn. apply Hin2. by destruct (ll_next _ _ _ _ _ HL x o y Hx Ho Hy). }
  unfold mbind at 1, SM_bind at 1. rewrite writeCell_run.
  2: { cbn [d_heap d_heads with_heap]. destruct (d_ppContextObjPrev o) as [i|y] eqn:Ep.
    - destruct (ll_first _ _ _ _ _ HL x o i Hx Ho Ep) as [Hhd _]. by eapply lookup_lt_Some.
    - destruct (ll_prev _ _ _ _ _ HL x o y Hx Ho Ep) as [Hy _]. rewrite lookup_fix.
      destruct (Hin2 y Hy) as [oy ->]. by eexists. }
  cbn [d_heap d_heads with_heap].
  pose proof (Linked_replace (d_heap c) h2 (d_heads c) act ord (d_scopes c) x s o os HL Hx Ho Hsa Hh2s
    eq_refl eq_refl eq_refl) as HL4.
  specialize (HL4 ltac:(intros y Hy Hyx; apply Hh2; [done | by intros ->])).
  set (h4 := write_heap _ _ _) in *. set (hs4 := write_heads _ _ _) in *.
  assert (same_core h2 h4) as Hc4 by (eapply same_core_trans; [apply same_core_fix | apply same_core_write]).
  destruct (same_core_lookup _ _ _ _ Hc4 Hh2x) as (o4 & Ho4 & E4). injection E4 as F1 F2 F3 F4.
  unfold mbind at 1, SM_bind at 1. rewrite (update_obj_run x _ _ o4) by exact Ho4. cbn [d_heap with_heap with_heads].
  set (f := fun o => MkObj L (Some s) (d_pContextObjNext o) (d_ppContextObjPrev o) (d_region o) (d_object o)).
  assert (length hs4 = length (d_heads c)) as Hlen4.
  { unfold hs4. destruct (d_ppContextObjPrev o); [apply length_insert | done]. }
  edestruct (addToChain_run (with_heap (alter f x h4) (with_heads hs4 c)))
    with (act := act ∖ {[x]} ∪ {[s]}) (lim := d_scopes c) (a := x) (oa := f o4) (i := L)
    as (c' & ord' & E' & HL' & Hc' & Hlen' & Eq').
  - cbn. eapply Linked_frame; [exact HL4 | | done]. intros y Hy. rewrite lookup_alter_ne; [done |]. set_solver.
  - set_solver.
  - cbn. by rewrite lookup_alter_eq, Ho4.
  - done.
  - lia.
  - cbn. lia.
  - exists c', ord', s, os, (f o4). split; [exact E' |]. split; [done |]. split; [done |].
    split; [unfold f, core; cbn; congruence |]. split; [| split; [| split]].
    + eapply same_core_trans; [| exact Hc']. cbn. intros y. destruct (decide (y = x)) as [->|Hyx].
      { by rewrite lookup_insert_eq, lookup_alter_eq, Ho4. }
      rewrite lookup_insert_ne, lookup_alter_ne by done. rewrite <- Hc4. unfold h2. by rewrite lookup_alter_ne.
    + replace (act ∪ {[s]}) with (act ∖ {[x]} ∪ {[s]} ∪ {[x]} : gset addr); [done |].
      apply set_eq. intros y. destruct (decide (y = x)); set_solver.
    + rewrite Hlen'. done.
    + rewrite Eq'. done.
Qed.

(** *** [makeCurrent]: no snapshot changes *)
Lemma makeCurrent_ok (c : St) act ver ord Σ x :
  Sim c act ver ord -> snaps_ok c act ver Σ -> live (d_heap c) act x ->
  exists c' act' ver' ord' o, makeCurrent x c = Ok (tt, c') /\
    Sim c' act' ver' ord' /\ snaps_ok c' act' ver' Σ /\ d_scopes c' = d_scopes c /\
    x ∈ act' /\ d_heap c' !! x = Some o /\ d_region o = None /\ d_pScope o = d_scopes c - 1.
Proof.
  intros HS [Hlen HΣ] (Hx & o & Ho & Hlive). pose proof (sim_scope _ _ _ _ _ _ HS Hx Ho) as Hsc.
  unfold makeCurrent, deref, getLevel, gets, mbind, SM_bind. rewrite Ho.
  destruct (Nat.eqb_spec (d_pScope o) (d_scopes c - 1)) as [E|Hne]; cbn [negb].
  { exists c, act, ver, ord, o. split; [done |]. split; [done |]. split; [done |]. done. }
  destruct (update_run c act ver ord x o HS Hx Ho Hlive) as (c' & ord' & s & os & o' & E & Hs & Hos & Ho' & Hc & HL & Hl & Eq);
    [lia |].
  destruct HS as [Hhl Hpos HLk HV]. assert (d_pScope o < d_scopes c - 1) as Hlt by lia.
  pose proof (Versions_save _ _ _ x s o o' os _ HV Hx Ho Hlive Hlt Hs Hos Ho') as HV'.
  assert (d_scopes c' = d_scopes c) as Esc by (rewrite Eq; done).
  assert (forall y, live (d_heap c) act y <-> live (<[x:=o']> (<[s:=os]> (d_heap c))) (act ∪ {[s]}) y) as Hlv.
  { intros y. injection Hos as C1 C2 C3 C4. pose proof Ho' as Eo. injection Eo as E1 E2 E3 E4. split.
    - intros (Hy & oy & Hoy & Hry). split; [set_solver |]. destruct (decide (y = x)) as [->|].
      + exists o'. by rewrite lookup_insert_eq.
      + exists oy. rewrite !lookup_insert_ne; [done | congruence | done].
    - intros (Hy & oy & Hoy & Hry). destruct (decide (y = x)) as [->|]; [split; [done |]; by exists o |].
      rewrite lookup_insert_ne in Hoy by done. destruct (decide (y = s)) as [->|].
      + rewrite lookup_insert_eq in Hoy. injection Hoy as <-. congruence.
      + rewrite lookup_insert_ne in Hoy by done. split; [set_solver | by exists oy]. }
  destruct (same_core_lookup _ _ x o' Hc) as (ox & Hox & Ecx); [by rewrite lookup_insert_eq |].
  pose proof Ho' as Eo. injection Eo as E1 E2 E3 E4. pose proof Ecx as Ecx'. injection Ecx' as G1 G2 G3 G4.
  eexists c', (act ∪ {[s]}), _, ord', ox. split; [exact E |]. split.
  { split; [by rewrite Hl, Esc | by rewrite Esc | by rewrite Esc | by eapply Versions_core]. }
  split; [| split; [done |]; split; [set_solver |]; split; [done |]; split; congruence].
  split; [by rewrite Esc |]. intros i S HSi. eapply snap_ok_core; [exact Hc |].
  destruct (HΣ i S HSi) as [H1 H2]. split; [| intros y Hy; apply Hlv; auto].
  intros y Hy. apply Hlv in Hy. destruct (H1 y Hy) as (k & Hv & HSy).
  destruct (decide (y = x /\ d_scopes c - 1 <= i)) as [[-> Hi]|Hi].
  - exists (cd_mark (ver x)). rewrite vis_mark. split.
    + set (ver' := set_ver _ _ _). replace (cd_mark (ver x)) with (ver' x) by (unfold ver'; by rewrite set_ver_eq).
      apply (view_here _ _ _ o'); [by rewrite lookup_insert_eq | lia].
    + rewrite HSy. do 2 f_equal. eapply (view_top _ _ x o i); [done | lia | done].
  - exists k. split; [| done]. apply (view_save _ act _ x s o o' os (d_scopes c - 1)); try done; [apply Hy |].
    intros ->. destruct (decide (i < d_scopes c - 1)); [done |]. exfalso. apply Hi. split; [done | lia].
Qed.

(** The data of an object does not matter to the lists. *)
Lemma Linked_same_links (h : heap) x o o' hs act ord lim :
  Linked h hs act ord lim -> h !! x = Some o -> d_pScope o' = d_pScope o ->
  d_pContextObjNext o' = d_pContextObjNext o -> d_ppContextObjPrev o' = d_ppContextObjPrev o ->
  Linked (<[x:=o']> h) hs act ord lim.
Proof.
  intros [L1 L2 L3 L4 L5] Ho Es En Ep.
  assert (forall y oy', <[x:=o']> (h) !! y = Some oy' -> exists oy, h !! y = Some oy /\
    d_pScope oy' = d_pScope oy /\ d_pContextObjNext oy' = d_pContextObjNext oy /\
    d_ppContextObjPrev oy' = d_ppContextObjPrev oy) as Hb.
  { intros y oy'. destruct (decide (y = x)) as [->|]; [rewrite lookup_insert_eq; intros [= <-]; by exists o |].
    rewrite lookup_insert_ne by done. intros Hy. by exists oy'. }
  assert (forall y oy, h !! y = Some oy -> exists oy', <[x:=o']> (h) !! y = Some oy' /\
    d_pScope oy' = d_pScope oy /\ d_pContextObjNext oy' = d_pContextObjNext oy /\
    d_ppContextObjPrev oy' = d_ppContextObjPrev oy) as Hf'.
  { intros y oy Hy. destruct (decide (y = x)) as [->|].
    - exists o'. rewrite lookup_insert_eq, Ho in *. by injection Hy as <-.
    - exists oy. by rewrite lookup_insert_ne. }
  split.
  - intros y Hy. destruct (L1 y Hy) as (oy & Hoy & ?). destruct (Hf' y oy Hoy) as (oy' & ? & ? & _).
    exists oy'. split; [done | lia].
  - intros y oy' z Hy Hoy' Hz. destruct (Hb y oy' Hoy') as (oy & Hoy & B1 & B2 & B3).
    destruct (L2 y oy z Hy Hoy) as (Hza & Hlt & oz & Hoz & ? & ?); [congruence |].
    destruct (Hf' z oz Hoz) as (oz' & ? & ? & ? & ?). split; [done |]. split; [done |]. exists oz'.
    split; [done |]. split; congruence.
  - intros y oy' z Hy Hoy' Hz. destruct (Hb y oy' Hoy') as (oy & Hoy & B1 & B2 & B3).
    destruct (L3 y oy z Hy Hoy) as (Hza & oz & Hoz & ?); [congruence |].
    destruct (Hf' z oz Hoz) as (oz' & ? & ? & ? & ?). split; [done |]. exists oz'. split; [done | congruence].
  - intros y oy' i Hy Hoy' Hi. destruct (Hb y oy' Hoy') as (oy & Hoy & B1 & B2 & B3).
    destruct (L4 y oy i Hy Hoy) as [? ?]; [congruence |]. split; [done | congruence].
  - intros i y Hi Hy. destruct (L5 i y Hi Hy) as (? & oy & Hoy & ?). destruct (Hf' y oy Hoy) as (oy' & ? & ? & ? & ?).
    split; [done |]. exists oy'. split; [done | congruence].
Qed.

(** *** Mutators change the top snapshot *)
(** [f] implements [g] on the visible state where [pre] holds, and keeps what was saved. *)
Definition op_ok (f : D -> M D) (pre : O -> Prop) (g : O -> O) : Prop :=
  forall d k, cd_rep d k -> pre (cd_vis k) ->
  exists d' k', f d = Ok d' /\ cd_rep d' k' /\ cd_vis k' = g (cd_vis k) /\ forall k0, cd_ev k0 k -> cd_ev k0 k'.

Definition top (Σ : list (gmap addr O)) : gmap addr O := default ∅ (last Σ).
Definition set_top (Σ : list (gmap addr O)) (x : addr) (v : O) : list (gmap addr O) :=
  <[length Σ - 1 := <[x:=v]> (top Σ)]> Σ.

Lemma top_lookup (Σ : list (gmap addr O)) : Σ <> [] -> Σ !! (length Σ - 1) = Some (top Σ).
Proof.
  intros HΣ. unfold top. rewrite last_lookup. replace (length Σ - 1) with (pred (length Σ)) by lia.
  destruct (lookup_lt_is_Some_2 Σ (pred (length Σ))) as [S ->]; [| done]. destruct Σ; [done | cbn; lia].
Qed.

Lemma snaps_nonempty c act ver ord Σ : Sim c act ver ord -> snaps_ok c act ver Σ -> Σ <> [].
Proof. intros HS [Hlen _] ->. pose proof (sim_pos _ _ _ _ HS). cbn in Hlen. lia. Qed.

Lemma live_of_top c act ver ord Σ x : Sim c act ver ord -> snaps_ok c act ver Σ -> is_Some (top Σ !! x) ->
  live (d_heap c) act x.
Proof.
  intros HS HΣ Hx. pose proof (top_lookup Σ (snaps_nonempty _ _ _ _ _ HS HΣ)) as Ht.
  by apply (snap_only _ _ _ _ _ (proj2 HΣ _ _ Ht)).
Qed.

Lemma mutate_refines (c : St) Σ x v f pre g :
  Refines c Σ -> top Σ !! x = Some v -> op_ok f pre g -> pre v ->
  exists c', mutate f x c = Ok (tt, c') /\ Refines c' (set_top Σ x (g v)).
Proof.
  intros (act0 & ver0 & ord0 & HS0 & HΣ0) Hv Hop Hpre.
  pose proof (live_of_top _ _ _ _ _ x HS0 HΣ0 ltac:(by eexists)) as Hl0.
  destruct (makeCurrent_ok c act0 ver0 ord0 Σ x HS0 HΣ0 Hl0)
    as (c1 & act & ver & ord & o & E1 & HS & HΣ & Esc & Hx & Ho & Hlive & Hsc).
  pose proof (top_lookup Σ (snaps_nonempty _ _ _ _ _ HS HΣ)) as Ht. destruct HΣ as [Hlen HΣ].
  pose proof (v_live _ _ _ (sim_versions _ _ _ _ HS) x o Hx Ho Hlive) as Hrep.
  destruct (snap_live _ _ _ _ _ (HΣ _ _ Ht) x) as (k & Hk & HSk); [split; [done | by exists o] |].
  rewrite Hv in HSk. injection HSk as ->. apply (view_top _ _ x o) in Hk as ->; [| done | lia].
  destruct (Hop _ _ Hrep Hpre) as (d' & k' & Hf & Hrep' & Hvis & Hev).
  set (o' := set_data d' o).
  assert (core o' = (d_pScope o, d_pContextObjRestore o, d_region o, d_object o')) as Hcore by done.
  assert (Versions (<[x:=o']> (d_heap c1)) act (set_ver ver x k')) as HV'.
  { eapply Versions_change; [apply HS | done ..]. }
  exists (with_heap (<[x:=o']> (d_heap c1)) c1). split.
  { unfold mutate, mbind, SM_bind. rewrite E1. unfold deref. rewrite Ho. unfold lift. rewrite Hf.
    unfold store. by rewrite Ho. }
  assert (forall y, live (d_heap c1) act y <-> live (<[x:=o']> (d_heap c1)) act y) as Hlv.
  { intros y. split; intros (Hy & oy & Hoy & Hry); (split; [done |]); destruct (decide (y = x)) as [->|].
    - exists o'. by rewrite lookup_insert_eq.
    - exists oy. by rewrite lookup_insert_ne.
    - by exists o.
    - rewrite lookup_insert_ne in Hoy by done. by exists oy. }
  exists act, (set_ver ver x k'), ord. split; [split |].
  - apply HS.
  - apply HS.
  - apply (Linked_same_links _ x o); [apply HS | done ..].
  - done.
  - split; [unfold set_top; by rewrite length_insert |]. cbn. intros i S HSi.
    assert (i < length Σ) as Hi by (apply lookup_lt_Some in HSi; unfold set_top in HSi; by rewrite length_insert in HSi).
    destruct (decide (i = length Σ - 1)) as [->|Hne].
    + unfold set_top in HSi. rewrite list_lookup_insert_eq in HSi by lia. injection HSi as <-.
      destruct (HΣ _ _ Ht) as [H1 H2]. split.
      * intros y Hy. destruct (decide (y = x)) as [->|Hyx].
        -- exists k'. rewrite lookup_insert_eq, Hvis. split; [| done].
           replace k' with (set_ver ver x k' x) at 2 by (by rewrite set_ver_eq).
           apply (view_here _ _ _ o'); [by rewrite lookup_insert_eq |]. cbn. lia.
        -- rewrite lookup_insert_ne by done. destruct (H1 y) as (k & Hk & ?); [by apply Hlv |]. exists k. split; [| done].
           apply (view_change _ act _ x o o'); try done; [apply HS | apply Hy].
      * intros y Hy. apply Hlv. destruct (decide (y = x)) as [->|Hyx]; [split; [done | by exists o] |].
        rewrite lookup_insert_ne in Hy by done. auto.
    + unfold set_top in HSi. rewrite list_lookup_insert_ne in HSi by done. destruct (HΣ _ _ HSi) as [H1 H2]. split.
      * intros y Hy. apply Hlv in Hy as Hy'. destruct (H1 y Hy') as (k & Hk & ?). exists k. split; [| done].
        apply (view_change _ act _ x o o'); try done; [apply HS | apply Hy |]. intros _. lia.
      * intros y Hy. apply Hlv. auto.
Qed.

(** *** [push] *)
Lemma push_refines (c : St) Σ : Refines c Σ ->
  exists c', push c = Ok (tt, c') /\ Refines c' (Σ ++ [top Σ]).
Proof.
  intros (act & ver & ord & HS & HΣ). pose proof (top_lookup Σ (snaps_nonempty _ _ _ _ _ HS HΣ)) as Ht.
  destruct HS as [Hhl Hpos HL HV], HΣ as [Hlen HΣ]. eexists. split; [reflexivity |]. exists act, ver, ord. split; [split; cbn |].
  - rewrite length_app. cbn. lia.
  - lia.
  - destruct HL as [L1 L2 L3 L4 L5]. split.
    + intros x Hx. destruct (L1 x Hx) as (o & ? & ?). exists o. split; [done | lia].
    + done.
    + done.
    + intros x o i Hx Ho Hi. destruct (L4 x o i Hx Ho Hi). split; [by apply lookup_app_l_Some | done].
    + intros i x Hi Hx. apply lookup_app_Some in Hx as [Hx|[_ Hx]].
      * apply L5; [| done]. apply lookup_lt_Some in Hx. lia.
      * apply list_lookup_singleton_Some in Hx as [_ ?]. done.
  - done.
  - split; [rewrite length_app; cbn; lia |]. cbn. intros i S HSi. apply lookup_app_Some in HSi as [HSi|[Hi HSi]]; [by apply HΣ |].
    apply list_lookup_singleton_Some in HSi as [Hi0 <-]. destruct (HΣ _ _ Ht) as [H1 H2]. split; [| done].
    intros x Hx. destruct (H1 x Hx) as (k & Hk & ?). exists k. split; [| done].
    destruct Hx as (Hx & o & Ho & _). destruct (ll_in _ _ _ _ _ HL x Hx) as (o' & Ho' & Hlt).
    rewrite Ho in Ho'. injection Ho' as <-. apply (view_top _ _ x o) in Hk as ->; [| done | lia].
    apply (view_here _ _ _ o); [done | lia].
Qed.

(** *** New objects have their initial state in every scope *)
Lemma new_refines (c : St) Σ d k : Refines c Σ -> cd_rep d k ->
  exists x c', newContextObj false d c = Ok (x, c') /\ top Σ !! x = None /\
    Refines c' (map (<[x:=cd_vis k]>) Σ).
Proof.
  intros (act & ver & ord & HS & HΣ) Hrep. pose proof (top_lookup Σ (snaps_nonempty _ _ _ _ _ HS HΣ)) as Ht.
  destruct HS as [Hhl Hpos HL HV], HΣ as [Hlen HΣ].
  set (x := fresh (dom (d_heap c))). assert (d_heap c !! x = None) as Hx by (apply not_elem_of_dom, is_fresh).
  assert (x ∉ act) as Hxa. { intros Hin. destruct (v_in _ _ _ HV x Hin) as [? E]. congruence. }
  set (o := MkObj 0 None None (ScopeCell 0) None d). set (h1 := <[x:=o]> (d_heap c)).
  assert (forall y, y ∈ act -> y <> x) as Hne by (by intros y Hy ->).
  destruct (addToChain_run (with_heap h1 c) act ord (d_scopes c) x o 0) as (c' & ord' & E & HL' & Hc & Hl' & Eq); cbn.
  - eapply Linked_frame; [exact HL | | done]. intros y Hy. unfold h1. rewrite lookup_insert_ne; [done |]. symmetry. auto.
  - done.
  - unfold h1. by rewrite lookup_insert_eq.
  - done.
  - lia.
  - lia.
  - exists x, c'. split; [unfold newContextObj, getLevel, gets, alloc, mbind, SM_bind; cbn; fold x; fold o; fold h1; by rewrite E |].
    cbn in Hc. split.
    { destruct (top Σ !! x) eqn:Ex; [| done]. destruct (snap_only _ _ _ _ _ (HΣ _ _ Ht) x) as [? _]; [by eexists | done]. }
    assert (d_scopes c' = d_scopes c) as Esc by (by rewrite Eq).
    assert (forall y oy, h1 !! y = Some oy -> y <> x -> d_heap c !! y = Some oy) as Hb.
    { intros y oy Hy Hyx. unfold h1 in Hy. by rewrite lookup_insert_ne in Hy by done. }
    assert (forall y oy, y ∈ act -> d_heap c !! y = Some oy -> h1 !! y = Some oy) as Hf.
    { intros y oy Hy Hoy. unfold h1. rewrite lookup_insert_ne; [done |]. symmetry. auto. }
    assert (Versions h1 (act ∪ {[x]}) (set_ver ver x k)) as HV1.
    { assert (h1 !! x = Some o) as Hx1 by (unfold h1; by rewrite lookup_insert_eq).
      assert (forall y, y ∈ act ∪ {[x]} -> y = x \/ (y ∈ act /\ y <> x)) as Hcs.
      { intros y Hy. destruct (decide (y = x)); set_solver. }
      split.
      - intros y [->|[Hy _]]%Hcs; [by eexists |]. destruct (v_in _ _ _ HV y Hy) as [oy Hoy]. rewrite (Hf y oy) by done. by eexists.
      - intros y oy s [->|[Hy Hyx]]%Hcs Hoy Hs; [rewrite Hx1 in Hoy; by injection Hoy as <- |].
        destruct (v_restore _ _ _ HV y oy s Hy (Hb _ _ Hoy Hyx) Hs) as (Hsa & Hev & os & Hos & ?).
        split; [set_solver |]. rewrite !set_ver_ne by auto. split; [done |]. exists os. split; [by apply Hf | done].
      - intros y oy [->|[Hy Hyx]]%Hcs Hoy Hs; [rewrite Hx1 in Hoy; by injection Hoy as <- |].
        apply (v_none _ _ _ HV y oy Hy); auto.
      - intros y z oy oz s [->|[Hy Hyx]]%Hcs [->|[Hz Hzx]]%Hcs Hoy Hoz Hsy Hsz; try done;
          try (rewrite Hx1 in Hoy; by injection Hoy as <-); try (rewrite Hx1 in Hoz; by injection Hoz as <-).
        apply (v_inj _ _ _ HV y z oy oz s); auto.
      - intros y oy [->|[Hy Hyx]]%Hcs Hoy Hr; [rewrite Hx1 in Hoy; injection Hoy as <-; by rewrite set_ver_eq |].
        rewrite set_ver_ne by done. apply (v_live _ _ _ HV y oy); auto.
      - intros y oy r [->|[Hy Hyx]]%Hcs Hoy Hr; [rewrite Hx1 in Hoy; by injection Hoy as <- |].
        destruct (v_owned _ _ _ HV y oy r Hy (Hb _ _ Hoy Hyx) Hr) as (z & oz & Hz & Hoz & ?).
        exists z, oz. split; [set_solver |]. split; [by apply Hf | done].
      - intros y oy Hoy Hy. apply (v_dead _ _ _ HV y oy); [apply Hb; [done |]; set_solver | set_solver]. }
    exists (act ∪ {[x]}), (set_ver ver x k), ord'. split; [split |].
    + rewrite Hl', Esc. done.
    + lia.
    + by rewrite Esc.
    + by eapply Versions_core.
    + split; [by rewrite length_map, Esc |]. intros i S HSi. apply list_lookup_fmap_Some in HSi as (S0 & -> & HSi).
      eapply snap_ok_core; [exact Hc |]. destruct (HΣ i S0 HSi) as [H1 H2]. split.
      * intros y (Hy & oy & Hoy & Hr). destruct (decide (y = x)) as [->|Hyx].
        -- exists k. rewrite lookup_insert_eq. split; [| done].
           replace k with (set_ver ver x k x) at 2 by (by rewrite set_ver_eq).
           apply (view_here _ _ _ o); [unfold h1; by rewrite lookup_insert_eq | cbn; lia].
        -- assert (y ∈ act) as Hya by set_solver. rewrite lookup_insert_ne by done.
           destruct (H1 y) as (k0 & Hk0 & ?); [split; [done |]; exists oy; auto |]. exists k0. split; [| done].
           clear -Hk0 HV Hya Hne Hf. induction Hk0 as [y o0 i Ho0 Hs | y o0 s i k1 Ho0 Hs Hr _ IH].
           ++ rewrite <- (set_ver_ne ver x y k) by auto. apply (view_here _ _ _ o0); auto.
           ++ apply (view_back _ _ _ o0 s); auto. apply IH. by destruct (v_restore _ _ _ HV y o0 s Hya Ho0 Hr).
      * intros y Hy. destruct (decide (y = x)) as [->|Hyx].
        -- split; [set_solver |]. exists o. unfold h1. by rewrite lookup_insert_eq.
        -- rewrite lookup_insert_ne in Hy by done. destruct (H2 y Hy) as (Hya & oy & Hoy & Hr).
           split; [set_solver |]. exists oy. auto.
Qed.

(** *** [pop]

    While scope [L] is deleted, [W] are its objects still to be restored; only
    their [next] links matter. *)
Record Popping (h : heap) (hs : list (option addr)) (low W : gset addr) (ver : addr -> K) (ord : addr -> Z) (L : nat) : Prop := {
  p_versions : Versions h (low ∪ W) ver;
  p_low : Linked h hs low ord L;
  p_len : L < length hs;
  p_scope x : x ∈ W -> exists o, h !! x = Some o /\ d_pScope o = L;
  p_head x : hs !! L = Some (Some x) -> x ∈ W;
  p_next x o y : x ∈ W -> h !! x = Some o -> d_pContextObjNext o = Some y -> y ∈ W /\ (ord y < ord x)%Z;
  p_pred y : y ∈ W -> hs !! L = Some (Some y) \/
    exists x o, x ∈ W /\ h !! x = Some o /\ d_pContextObjNext o = Some y;
  p_first x y o : hs !! L = Some (Some x) -> y ∈ W -> h !! y = Some o -> d_pContextObjNext o <> Some x;
  p_inj x y ox oy z : x ∈ W -> y ∈ W -> h !! x = Some ox -> h !! y = Some oy ->
    d_pContextObjNext ox = Some z -> d_pContextObjNext oy = Some z -> x = y
}.

(** When the list is empty, nothing is left to restore. *)
Lemma Popping_done h hs low W ver ord L : Popping h hs low W ver ord L -> hs !! L = Some None -> W = ∅.
Proof.
  intros [_ _ _ _ _ Hn Hp _ _] Hhd. destruct (decide (W = ∅)) as [|Hne]; [done | exfalso].
  assert (Transitive (fun x y => ord y < ord x)%Z) by (intros x y z ? ?; lia).
  assert (forall x y, Decision (ord y < ord x)%Z) as Hdec by (intros x y; apply _).
  destruct (minimal_exists_elem_of_L (fun x y => ord y < ord x)%Z W Hne) as (x & Hx & Hmin).
  destruct (Hp x Hx) as [E|(y & o & Hy & Ho & E)]; [congruence |].
  destruct (Hn y o x Hy Ho E) as [_ Hlt]. specialize (Hmin y Hy Hlt). cbn in Hmin. lia.
Qed.

(** The objects of the scope are live. *)
Lemma Popping_live h hs low W ver ord L x o :
  Popping h hs low W ver ord L -> x ∈ W -> h !! x = Some o -> d_region o = None.
Proof.
  intros [HV HL _ Hsc _ _ _ _ _] Hx Ho. destruct (Hsc x Hx) as (o' & Ho' & Hs). rewrite Ho in Ho'. injection Ho' as <-.
  destruct (d_region o) as [r|] eqn:Er; [| done].
  destruct (v_owned _ _ _ HV x o r ltac:(set_solver) Ho Er) as (y & oy & Hy & Hoy & Hry).
  destruct (v_restore _ _ _ HV y oy x Hy Hoy Hry) as (_ & _ & ox & Hox & _ & Hlt & _). rewrite Ho in Hox. injection Hox as <-.
  apply elem_of_union in Hy as [Hy|Hy].
  - destruct (ll_in _ _ _ _ _ HL y Hy) as (oy' & Hoy' & ?). rewrite Hoy in Hoy'. injection Hoy' as <-. lia.
  - destruct (Hsc y Hy) as (oy' & Hoy' & ?). rewrite Hoy in Hoy'. injection Hoy' as <-. lia.
Qed.

(** The object [x], in no list, takes the place of its saved version [s]. *)
Lemma restoreAndContinue_run (c : St) low ord lim x o s os d' :
  Linked (d_heap c) (d_heads c) low ord lim -> d_heap c !! x = Some o -> x ∉ low ->
  d_pContextObjRestore o = Some s -> s ∈ low -> d_heap c !! s = Some os ->
  cd_restore (d_object os) (d_object o) = Ok d' ->
  let o' := MkObj (d_pScope os) (d_pContextObjRestore os) (d_pContextObjNext os) (d_ppContextObjPrev os) (d_region o) d' in
  exists c' ord', restoreAndContinue x c = Ok (d_pContextObjNext o, c') /\
    c' = with_heads (d_heads c') (with_heap (d_heap c') c) /\
    Linked (d_heap c') (d_heads c') (low ∖ {[s]} ∪ {[x]}) ord' lim /\ (forall y, y <> x -> ord' y = ord y) /\
    same_core (<[x:=o']> (d_heap c)) (d_heap c') /\ length (d_heads c') = length (d_heads c) /\
    (forall j, lim <= j -> d_heads c' !! j = d_heads c !! j) /\
    (forall y, y ∉ low -> y <> x -> d_heap c' !! y = d_heap c !! y).
Proof.
  intros HL Ho Hxlow Er Hslow Hos Hd' o'. set (h1 := <[x:=o']> (d_heap c)).
  assert (forall y, y <> x -> h1 !! y = d_heap c !! y) as Hh1 by (intros; unfold h1; by rewrite lookup_insert_ne).
  assert (h1 !! x = Some o') as Hh1x by (unfold h1; by rewrite lookup_insert_eq).
  assert (forall y, y ∈ low -> is_Some (h1 !! y)) as Hin1.
  { intros y Hy. destruct (ll_in _ _ _ _ _ HL y Hy) as (oy & Hoy & _). rewrite Hh1; [by eexists | by intros ->]. }
  pose proof (Linked_replace (d_heap c) h1 (d_heads c) low ord lim s x os o' HL Hslow Hos Hxlow Hh1x eq_refl eq_refl eq_refl) as HL3.
  specialize (HL3 ltac:(intros y Hy _; apply Hh1; by intros ->)).
  set (h3 := write_heap _ _ _) in *. set (hs3 := write_heads _ _ _) in *.
  exists (with_heads hs3 (with_heap h3 c)), (fun y => if decide (y = x) then ord s else ord y).
  split; [| split; [done |]; split; [exact HL3 |]; split; [intros y Hy; by rewrite decide_False |]; split; [| split; [| split]]].
  - unfold restoreAndContinue, deref. unfold mbind at 1, SM_bind at 1. rewrite Ho, Er. unfold mbind at 1, SM_bind at 1.
    rewrite Hos. unfold mbind at 1, SM_bind at 1. unfold lift. rewrite Hd'. unfold mbind at 1, SM_bind at 1.
    rewrite (update_obj_run x _ _ o) by done.
    replace (alter _ x (d_heap c)) with h1.
    2: { apply map_eq. intros y. destruct (decide (y = x)) as [->|]; [by rewrite lookup_alter_eq, Ho, Hh1x |].
         by rewrite lookup_alter_ne, Hh1. }
    unfold mbind at 1, SM_bind at 1. rewrite fixPrev_run.
    2: { intros y Hy. cbn. apply Hin1. by destruct (ll_next _ _ _ _ _ HL s os y Hslow Hos Hy). }
    unfold mbind at 1, SM_bind at 1. rewrite writeCell_run; [done |].
    cbn [d_heap d_heads with_heap]. destruct (d_ppContextObjPrev os) as [i|y] eqn:Ep.
    + destruct (ll_first _ _ _ _ _ HL s os i Hslow Hos Ep) as [Hi _]. by eapply lookup_lt_Some.
    + destruct (ll_prev _ _ _ _ _ HL s os y Hslow Hos Ep) as [Hy _]. rewrite lookup_fix.
      destruct (Hin1 y Hy) as [oy ->]. by eexists.
  - eapply same_core_trans; [apply same_core_fix | apply same_core_write].
  - cbn. unfold hs3. destruct (d_ppContextObjPrev os); [apply length_insert | done].
  - intros j Hj. cbn. unfold hs3. destruct (d_ppContextObjPrev os) as [i|] eqn:Ep; [| done]. cbn.
    rewrite list_lookup_insert_ne; [done |]. destruct (ll_first _ _ _ _ _ HL s os i Hslow Hos Ep) as [_ <-].
    destruct (ll_in _ _ _ _ _ HL s Hslow) as (os' & Hos' & ?). rewrite Hos in Hos'. injection Hos' as <-. lia.
  - intros y Hyl Hyx. cbn. unfold h3. rewrite lookup_write, lookup_fix, Hh1 by done.
    rewrite !decide_False; [by destruct (d_heap c !! y) | |].
    + intros E. by destruct (ll_next _ _ _ _ _ HL s os y Hslow Hos E).
    + intros E. by destruct (ll_prev _ _ _ _ _ HL s os y Hslow Hos E).
Qed.

Lemma restore_step (c : St) low W ver ord L x :
  Popping (d_heap c) (d_heads c) low W ver ord L -> 0 < L -> d_heads c !! L = Some (Some x) ->
  exists c' next s ver' ord', restoreAndContinue x c = Ok (next, c') /\ c' = with_heads (d_heads c') (with_heap (d_heap c') c) /\
    length (d_heads c') = length (d_heads c) /\ x ∈ W /\
    Popping (d_heap c') (<[L:=next]> (d_heads c')) (low ∖ {[s]} ∪ {[x]}) (W ∖ {[x]}) ver' ord' L /\
    forall i S, i < L -> snap_ok (d_heap c) (low ∪ W) ver i S ->
      snap_ok (d_heap c') (low ∖ {[s]} ∪ {[x]} ∪ (W ∖ {[x]})) ver' i S.
Proof.
  intros HP HL0 Hhd. pose proof HP as [HV HL Hlen Hsc Hph Hpn Hpp Hpf Hpi]. pose proof (Hph x Hhd) as Hx.
  destruct (Hsc x Hx) as (o & Ho & Hs). pose proof (Popping_live _ _ _ _ _ _ _ x o HP Hx Ho) as Hlive.
  assert (x ∈ low ∪ W) as Hxa by set_solver.
  destruct (d_pContextObjRestore o) as [s|] eqn:Er; [| apply (v_none _ _ _ HV x o Hxa Ho) in Er; lia].
  destruct (v_restore _ _ _ HV x o s Hxa Ho Er) as (Hsa & Hev & os & Hos & Hreg & Hlt & Hsv).
  assert (forall y, y ∈ W -> y ∉ low) as Hdisj.
  { intros y Hy Hin. destruct (ll_in _ _ _ _ _ HL y Hin) as (oy & Hoy & ?). destruct (Hsc y Hy) as (oy' & Hoy' & ?).
    rewrite Hoy in Hoy'. injection Hoy' as <-. lia. }
  assert (s ∈ low) as Hslow.
  { apply elem_of_union in Hsa as [|Hin]; [done |]. destruct (Hsc s Hin) as (os' & Hos' & ?).
    rewrite Hos in Hos'. injection Hos' as <-. lia. }
  destruct (restore_rep _ _ _ _ Hsv (v_live _ _ _ HV x o Hxa Ho Hlive) Hev) as (d' & Hd' & Hrep).
  destruct (restoreAndContinue_run c low ord L x o s os d' HL Ho (Hdisj x Hx) Er Hslow Hos Hd')
    as (c' & ord' & E & Eq & HL' & Hord & Hc & Hlen' & Hhs & Hh). set (o' := MkObj _ _ _ _ _ _) in Hc.
  assert (low ∖ {[s]} ∪ {[x]} ∪ W ∖ {[x]} = (low ∪ W) ∖ {[s]}) as Eset.
  { specialize (Hdisj s). apply set_eq. intros y. destruct (decide (y = x)) as [->|]; [| set_solver].
    assert (x <> s) by congruence. set_solver. }
  assert (core o' = (d_pScope os, d_pContextObjRestore os, None, d_object o')) as Hcore by (unfold core; cbn; by rewrite Hlive).
  exists c', (d_pContextObjNext o), s, (set_ver ver x (ver s)), ord'.
  split; [done |]. split; [done |]. split; [done |]. split; [done |]. split; [split |].
  - rewrite Eset. eapply Versions_core; [exact Hc |]. by eapply (Versions_restore _ _ _ x s o o' os).
  - eapply Linked_frame; [exact HL' | done |]. intros i Hi. rewrite list_lookup_insert_ne by lia. done.
  - rewrite length_insert. lia.
  - intros y [Hy Hyx]%elem_of_difference. rewrite Hh; [by apply Hsc | by apply Hdisj | set_solver].
  - intros y Hy. rewrite list_lookup_insert_eq in Hy by lia. injection Hy as Hy.
    destruct (Hpn x o y Hx Ho Hy) as [HyW Hlt']. apply elem_of_difference. split; [done |]. intros ->%elem_of_singleton. lia.
  - intros y oy z [Hy Hyx]%elem_of_difference Hoy Hz. assert (y <> x) as Hyx' by set_solver. rewrite Hh in Hoy by auto.
    destruct (Hpn y oy z Hy Hoy Hz) as [HzW Hlt']. assert (z <> x) as Hzx by (intros ->; by apply (Hpf x y oy)).
    split; [set_solver |]. by rewrite !Hord.
  - intros y [Hy Hyx]%elem_of_difference. destruct (Hpp y Hy) as [E0|(z & oz & Hz & Hoz & E0)].
    + rewrite Hhd in E0. injection E0 as ->. set_solver.
    + destruct (decide (z = x)) as [->|Hzx].
      * left. rewrite Ho in Hoz. injection Hoz as <-. rewrite list_lookup_insert_eq by lia. by rewrite E0.
      * right. exists z, oz. split; [set_solver |]. split; [rewrite Hh by auto |]; done.
  - intros y z oz Hy [Hz Hzx]%elem_of_difference Hoz E0. assert (z <> x) as Hzx' by set_solver. rewrite Hh in Hoz by auto.
    rewrite list_lookup_insert_eq in Hy by lia. injection Hy as Hy. by destruct Hzx'; apply (Hpi z x oz o y).
  - intros y z oy oz w [Hy Hyx]%elem_of_difference [Hz Hzx]%elem_of_difference Hoy Hoz.
    rewrite Hh in Hoy by (auto; set_solver). rewrite Hh in Hoz by (auto; set_solver). by apply Hpi.
  - intros i S Hi [H1 H2]. rewrite Eset. eapply snap_ok_core; [exact Hc |].
    assert (forall y, y <> x -> <[x:=o']> (d_heap c) !! y = d_heap c !! y) as Hh1 by (intros; by rewrite lookup_insert_ne). split.
    + intros y (Hy & oy & Hoy & Hry). destruct (H1 y) as (k & Hk & ?).
      { split; [set_solver |]. destruct (decide (y = x)) as [->|]; [by exists o |]. rewrite Hh1 in Hoy by done. by exists oy. }
      exists k. split; [| done]. eapply (view_restore _ (low ∪ W) _ x s o o' os); try done; [set_solver | lia].
    + intros y Hy. destruct (H2 y Hy) as (Hya & oy & Hoy & Hry). split.
      * apply elem_of_difference. split; [done |]. intros ->%elem_of_singleton. congruence.
      * destruct (decide (y = x)) as [->|]; [exists o'; by rewrite lookup_insert_eq |]. exists oy. by rewrite Hh1.
Qed.

Lemma restore_all_ok fuel L : forall (c : St) low W ver ord,
  Popping (d_heap c) (d_heads c) low W ver ord L -> 0 < L -> size W < fuel ->
  exists c' low' ver' ord', restore_all fuel L c = Ok (tt, c') /\
    c' = with_heads (d_heads c') (with_heap (d_heap c') c) /\ length (d_heads c') = length (d_heads c) /\
    Popping (d_heap c') (d_heads c') low' ∅ ver' ord' L /\
    forall i S, i < L -> snap_ok (d_heap c) (low ∪ W) ver i S -> snap_ok (d_heap c') low' ver' i S.
Proof.
  induction fuel as [|fuel IH]; intros c low W ver ord HP HL0 Hfu; [lia |]. cbn [restore_all].
  destruct (lookup_lt_is_Some_2 (d_heads c) L (p_len _ _ _ _ _ _ _ HP)) as [hd Hhd].
  unfold getHead. unfold mbind at 1, SM_bind at 1. rewrite Hhd. destruct hd as [x|].
  - destruct (restore_step c low W ver ord L x HP HL0 Hhd) as (c1 & next & s & ver1 & ord1 & E1 & Eq1 & Hl1 & Hx & HP1 & Hsn1).
    pose proof (p_len _ _ _ _ _ _ _ HP1) as HlL. rewrite length_insert in HlL.
    set (c2 := with_heads (<[L:=next]> (d_heads c1)) c1).
    destruct (IH c2 (low ∖ {[s]} ∪ {[x]}) (W ∖ {[x]}) ver1 ord1 HP1 HL0) as (c' & low' & ver' & ord' & E & Eq & Hl & HP' & Hsn).
    { rewrite size_difference by set_solver. rewrite size_singleton. assert (size W <> 0); [| lia].
      intros E0%size_empty_inv. set_solver. }
    exists c', low', ver', ord'. split; [| split; [| split]].
    + unfold mbind, SM_bind. rewrite E1. unfold setHead.
      destruct (lookup_lt_is_Some_2 (d_heads c1) L HlL) as [? ->]. exact E.
    + rewrite Eq. unfold c2. rewrite Eq1. done.
    + rewrite Hl. cbn. by rewrite length_insert.
    + split; [done |]. intros i S Hi HS. apply Hsn; [done |]. by apply Hsn1.
  - pose proof (Popping_done _ _ _ _ _ _ _ HP Hhd) as ->. exists c, low, ver, ord. split; [done |].
    split; [by destruct c |]. split; [done |]. split; [done |]. intros i S Hi HS. by rewrite union_empty_r_L in HS.
Qed.

Definition scope_of (h : heap) (x : addr) : nat := match h !! x with Some o => d_pScope o | None => 0 end.

(** Before the first restore. *)
Lemma Popping_start h hs act ver ord L :
  Linked h hs act ord (S L) -> Versions h act ver -> L < length hs ->
  Popping h hs (filter (fun x => scope_of h x < L) act) (filter (fun x => scope_of h x = L) act) ver ord L.
Proof.
  intros HL HV Hlen. pose proof HL as [L1 L2 L3 L4 L5].
  assert (forall x o, h !! x = Some o -> scope_of h x = d_pScope o) as Hso by (intros x o Ho; unfold scope_of; by rewrite Ho).
  assert (filter (fun x => scope_of h x < L) act ∪ filter (fun x => scope_of h x = L) act = act) as Eset.
  { apply set_eq. intros x. rewrite elem_of_union, !elem_of_filter. split; [naive_solver |]. intros Hx.
    destruct (L1 x Hx) as (o & Ho & Hlt). rewrite (Hso x o Ho). destruct (decide (d_pScope o < L)); [by left | right]. split; [lia | done]. }
  split; [by rewrite Eset | split | done | ..].
  - intros x [Hs Hx]%elem_of_filter. destruct (L1 x Hx) as (o & Ho & _). rewrite (Hso x o Ho) in Hs. by exists o.
  - intros x o y [Hs Hx]%elem_of_filter Ho Hy. destruct (L2 x o y Hx Ho Hy) as (Hya & Hlt & oy & Hoy & ? & Hsy).
    split; [apply elem_of_filter; rewrite (Hso y oy Hoy), Hsy, <- (Hso x o Ho); done |]. split; [done |]. by exists oy.
  - intros y oy x [Hs Hy]%elem_of_filter Hoy Hp. destruct (L3 y oy x Hy Hoy Hp) as (Hx & o & Ho & Hn).
    destruct (L2 x o y Hx Ho Hn) as (_ & _ & oy' & Hoy' & _ & Hsy). rewrite Hoy in Hoy'. injection Hoy' as <-.
    split; [apply elem_of_filter; rewrite (Hso x o Ho), <- Hsy, <- (Hso y oy Hoy); done |]. by exists o.
  - intros x o i [Hs Hx]%elem_of_filter. by apply L4.
  - intros i x Hi Hx. destruct (L5 i x) as (Hxa & o & Ho & Hp); [lia | done |]. destruct (L4 x o i Hxa Ho Hp) as [_ Hs].
    split; [apply elem_of_filter; rewrite (Hso x o Ho), Hs; done |]. by exists o.
  - intros x [Hs Hx]%elem_of_filter. destruct (L1 x Hx) as (o & Ho & _). exists o. by rewrite <- (Hso x o Ho).
  - intros x Hx. destruct (L5 L x) as (Hxa & o & Ho & Hp); [lia | done |]. destruct (L4 x o L Hxa Ho Hp) as [_ Hs].
    apply elem_of_filter. by rewrite (Hso x o Ho).
  - intros x o y [Hs Hx]%elem_of_filter Ho Hy. destruct (L2 x o y Hx Ho Hy) as (Hya & Hlt & oy & Hoy & _ & Hsy).
    split; [| done]. apply elem_of_filter. by rewrite (Hso y oy Hoy), Hsy, <- (Hso x o Ho).
  - intros y [Hs Hy]%elem_of_filter. destruct (L1 y Hy) as (oy & Hoy & _). rewrite (Hso y oy Hoy) in Hs.
    destruct (d_ppContextObjPrev oy) as [i|x] eqn:Ep.
    + left. destruct (L4 y oy i Hy Hoy Ep) as [Hi Hsi]. by replace L with i by lia.
    + right. destruct (L3 y oy x Hy Hoy Ep) as (Hx & o & Ho & Hn). exists x, o. split; [| done].
      destruct (L2 x o y Hx Ho Hn) as (_ & _ & oy' & Hoy' & _ & Hsy). rewrite Hoy in Hoy'. injection Hoy' as <-.
      apply elem_of_filter. rewrite (Hso x o Ho). split; [lia | done].
  - intros x y o Hhd [Hs Hy]%elem_of_filter Ho E. destruct (L5 L x) as (Hxa & ox & Hox & Hp); [lia | done |].
    destruct (L2 y o x Hy Ho E) as (_ & _ & ox' & Hox' & Hp' & _). congruence.
  - intros x y ox oy z [_ Hx]%elem_of_filter [_ Hy]%elem_of_filter Hox Hoy Ex Ey.
    destruct (L2 x ox z Hx Hox Ex) as (_ & _ & oz & Hoz & Hp & _). destruct (L2 y oy z Hy Hoy Ey) as (_ & _ & oz' & Hoz' & Hp' & _).
    congruence.
Qed.

(** Dropping dead objects. *)
Lemma Versions_drop h h' act ver :
  Versions h act ver -> (forall x, x ∈ act -> h' !! x = h !! x) -> (forall x o, h' !! x = Some o -> h !! x = Some o) ->
  Versions h' act ver.
Proof.
  intros [V1 V2 V3 V4 V5 V6 V7] Hin Hsub. split.
  - intros x Hx. rewrite Hin by done. auto.
  - intros x o s Hx Ho Hs. destruct (V2 x o s Hx (Hsub _ _ Ho) Hs) as (? & ? & os & ? & ?). split; [done |]. split; [done |].
    exists os. by rewrite Hin.
  - intros x o Hx Ho. apply (V3 x o); auto.
  - intros x y ox oy s Hx Hy Hox Hoy. apply (V4 x y ox oy s); auto.
  - intros x o Hx Ho. apply (V5 x o); auto.
  - intros x o r Hx Ho Hr. destruct (V6 x o r Hx (Hsub _ _ Ho) Hr) as (y & oy & ? & ? & ?). exists y, oy. by rewrite Hin.
  - intros x o Ho. apply (V7 x o). auto.
Qed.

Lemma snap_ok_drop h h' act ver i S :
  Versions h act ver -> (forall x, x ∈ act -> h' !! x = h !! x) -> snap_ok h act ver i S -> snap_ok h' act ver i S.
Proof.
  intros HV Hin [H1 H2]. split.
  - intros x (Hx & o & Ho & Hr). rewrite Hin in Ho by done. destruct (H1 x) as (k & Hk & ?); [split; eauto |].
    exists k. split; [| done]. by eapply view_sub.
  - intros x Hx. destruct (H2 x Hx) as (Hxa & o & Ho & Hr). split; [done |]. exists o. by rewrite Hin.
Qed.

Lemma pop_refines (c : St) Σ : Refines c Σ -> 2 <= length Σ ->
  exists c', pop c = Ok (tt, c') /\ Refines c' (take (length Σ - 1) Σ).
Proof.
  intros (act & ver & ord & [Hhl Hpos HL HV] & [Hlen HΣ]) H2. set (L := d_scopes c - 1).
  assert (S L = d_scopes c) as HSL by lia. rewrite <- HSL in HL.
  pose proof (Popping_start _ _ _ _ _ L HL HV ltac:(lia)) as HP. set (low := filter _ act) in HP. set (W := filter _ act) in HP.
  assert (low ∪ W = act) as Eset.
  { apply set_eq. intros x. unfold low, W. rewrite elem_of_union, !elem_of_filter. split; [naive_solver |]. intros Hx.
    destruct (ll_in _ _ _ _ _ HL x Hx) as (o & Ho & Hlt). unfold scope_of. rewrite Ho.
    destruct (decide (d_pScope o < L)); [by left | right]. split; [lia | done]. }
  set (c1 := MkContext (d_heap c) (d_heads c) (d_scopes c - 1) (d_pCNOpre c) (d_pCNOpost c) (d_log c ++ map PreNotify (d_pCNOpre c))).
  destruct (restore_all_ok (S (size (d_heap c))) L c1 low W ver ord HP) as (c2 & low' & ver' & ord' & E & Eq & Hl2 & HP2 & Hsn); [lia | |].
  { assert (size W <= size (d_heap c)); [| lia]. rewrite <- size_dom. apply subseteq_size. intros x [_ Hx]%elem_of_filter.
    apply elem_of_dom. by apply (v_in _ _ _ HV). }
  destruct HP2 as [HV2 HL2 Hlen2 _ _ _ _ _ _]. rewrite union_empty_r_L in HV2.
  set (h3 := filter (fun p : addr * ContextObj D => d_region p.2 <> Some L) (d_heap c2)).
  assert (forall x, x ∈ low' -> h3 !! x = d_heap c2 !! x) as Hin.
  { intros x Hx. destruct (ll_in _ _ _ _ _ HL2 x Hx) as (o & Ho & Hs). unfold h3. rewrite Ho. apply map_lookup_filter_Some.
    split; [done |]. cbn. intros Hr. destruct (v_owned _ _ _ HV2 x o L Hx Ho Hr) as (y & oy & Hy & Hoy & Hry).
    destruct (v_restore _ _ _ HV2 y oy x Hy Hoy Hry) as (_ & _ & ox & Hox & Hreg & _).
    destruct (ll_in _ _ _ _ _ HL2 y Hy) as (oy' & Hoy' & ?). rewrite Hoy in Hoy'. injection Hoy' as <-.
    rewrite Ho in Hox. injection Hox as <-. rewrite Hr in Hreg. injection Hreg as ->. lia. }
  assert (d_scopes c2 = L) as Esc by (rewrite Eq; done).
  eexists. split.
  { unfold pop, getLevel, gets, modify, popRegion. unfold mbind, SM_bind. cbn [d_scopes d_heap]. fold L. unfold lift, check.
    rewrite (proj2 (Nat.ltb_lt 0 L)) by lia. unfold with_log. cbn [d_heap d_heads d_scopes d_pCNOpre d_pCNOpost d_log].
    fold c1. unfold modify. rewrite E. reflexivity. }
  exists low', ver', ord'. cbn [d_heap d_heads d_scopes with_log]. unfold modify. split; [split; cbn [d_heap d_heads d_scopes] |].
  - rewrite length_take, Esc. lia.
  - lia.
  - rewrite Esc. eapply Linked_frame; [exact HL2 | exact Hin |]. intros i Hi. by rewrite lookup_take_lt.
  - eapply Versions_drop; [exact HV2 | exact Hin |]. intros x o Ho. by apply map_lookup_filter_Some in Ho as [? _].
  - split; cbn [d_heap d_scopes]; [rewrite length_take, Esc; lia |]. intros i S HSi.
    apply lookup_take_Some in HSi as [HSi Hi]. eapply snap_ok_drop; [exact HV2 | exact Hin |].
    apply Hsn; [lia |]. cbn [d_heap c1]. rewrite Eset. by apply HΣ.
Qed.

(** *** [destroy] *)
(** The snapshot is right except perhaps about [x]. *)
Record snap_but (x : addr) (h : heap) (act : gset addr) (ver : addr -> K) (i : nat) (S : gmap addr O) : Prop := {
  but_live y : y <> x -> live h act y -> exists k, view h ver y i k /\ S !! y = Some (cd_vis k);
  but_only y : y <> x -> is_Some (S !! y) -> live h act y
}.

Lemma snap_but_core x h h' act ver i S : same_core h h' -> snap_but x h act ver i S -> snap_but x h' act ver i S.
Proof.
  intros Hc [H1 H2]. pose proof (same_core_sym _ _ Hc) as Hc'. split.
  - intros y Hy Hl. destruct (H1 y Hy) as (k & Hv & HS); [by eapply live_core |]. exists k. split; [| done]. by eapply view_core.
  - intros y Hy Hs. eapply live_core; [exact Hc | auto].
Qed.

(** Objects do not see changes to a live object. *)
Lemma view_other h h' act (ver ver' : addr -> K) x o y i k :
  Versions h act ver -> h !! x = Some o -> d_region o = None ->
  (forall z, z <> x -> h' !! z = h !! z) -> (forall z, z <> x -> ver' z = ver z) ->
  y ∈ act -> y <> x -> view h ver y i k -> view h' ver' y i k.
Proof.
  intros HV Ho Hr Hh Hver Hy Hne Hv. induction Hv as [y oy i Hoy Hs | y oy s i k Hoy Hs Hry _ IH].
  - rewrite <- Hver by done. apply (view_here _ _ _ oy); [by rewrite Hh | done].
  - apply (view_back _ _ _ oy s); [by rewrite Hh | done | done |].
    apply IH; [by destruct (v_restore _ _ _ HV y oy s Hy Hoy Hry) |]. intros ->.
    by eapply (live_not_saved h act ver x o y oy).
Qed.

Lemma unlink_idem (n : option addr) p (h : heap) : write_heap p n (fix_heap n p (write_heap p n (fix_heap n p h))) = write_heap p n (fix_heap n p h).
Proof.
  apply map_eq. intros y. rewrite !lookup_write, !lookup_fix, !lookup_write, !lookup_fix. destruct (h !! y) as [[]|]; cbn; [| done]. by repeat case_decide.
Qed.
Lemma unlink_run (c : St) act ord x o :
  Linked (d_heap c) (d_heads c) act ord (d_scopes c) -> x ∈ act -> d_heap c !! x = Some o ->
  exists c', (_ ← fixPrev (d_pContextObjNext o) (d_ppContextObjPrev o);
              writeCell (d_ppContextObjPrev o) (d_pContextObjNext o)) c = Ok (tt, c') /\
    c' = with_heads (d_heads c') (with_heap (d_heap c') c) /\ same_core (d_heap c) (d_heap c') /\
    length (d_heads c') = length (d_heads c) /\ Linked (d_heap c') (d_heads c') (act ∖ {[x]}) ord (d_scopes c) /\
    d_heap c' !! x = Some o /\ (* and once more: nothing changes *)
    (_ ← fixPrev (d_pContextObjNext o) (d_ppContextObjPrev o);
     writeCell (d_ppContextObjPrev o) (d_pContextObjNext o)) c' = Ok (tt, c').
Proof.
  intros HL Hx Ho.
  assert (Hnx : forall y, d_pContextObjNext o = Some y -> y <> x /\ is_Some (d_heap c !! y)).
  { intros y Hy. destruct (ll_next _ _ _ _ _ HL x o y Hx Ho Hy) as (_ & Hlt & oy & -> & _). split; [intros ->; lia | by eexists]. }
  assert (Hpv : match d_ppContextObjPrev o with ScopeCell i => i < length (d_heads c) | NextCell y => y <> x /\ is_Some (d_heap c !! y) end).
  { destruct (d_ppContextObjPrev o) as [i|y] eqn:Ep.
    - destruct (ll_first _ _ _ _ _ HL x o i Hx Ho Ep) as [Hi _]. by eapply lookup_lt_Some.
    - destruct (ll_prev _ _ _ _ _ HL x o y Hx Ho Ep) as (Hy & oy & Hoy & Hyn). destruct (ll_next _ _ _ _ _ HL y oy x Hy Hoy Hyn) as (_ & Hlt & _). split; [intros ->; lia | by eexists]. }
  assert (Hrun : forall c0 : St, (forall y, is_Some (d_heap c !! y) -> is_Some (d_heap c0 !! y)) -> length (d_heads c0) = length (d_heads c) ->
    (_ ← fixPrev (d_pContextObjNext o) (d_ppContextObjPrev o); writeCell (d_ppContextObjPrev o) (d_pContextObjNext o)) c0 =
    Ok (tt, with_heads (write_heads (d_ppContextObjPrev o) (d_pContextObjNext o) (d_heads c0))
      (with_heap (write_heap (d_ppContextObjPrev o) (d_pContextObjNext o) (fix_heap (d_pContextObjNext o) (d_ppContextObjPrev o) (d_heap c0))) c0))).
  { intros c0 Hh Hl. unfold mbind, SM_bind. rewrite fixPrev_run by (intros y Hy; by apply Hh, Hnx). rewrite writeCell_run; [reflexivity |].
    cbn [d_heap d_heads with_heap]. destruct (d_ppContextObjPrev o) as [i|y]; [lia |]. rewrite lookup_fix. destruct (Hh y (proj2 Hpv)) as [oy ->]. by eexists. }
  exists (with_heads (write_heads (d_ppContextObjPrev o) (d_pContextObjNext o) (d_heads c))
    (with_heap (write_heap (d_ppContextObjPrev o) (d_pContextObjNext o)
      (fix_heap (d_pContextObjNext o) (d_ppContextObjPrev o) (d_heap c))) c)).
  split; [by apply Hrun |]. split; [done |]. split; [eapply same_core_trans; [apply same_core_fix | apply same_core_write] |].
  split; [cbn; destruct (d_ppContextObjPrev o); [apply length_insert | done] |]. split; [exact (Linked_unlink _ _ _ _ _ x o HL Hx Ho) |].
  cbn [d_heap with_heads with_heap]. split.
  - rewrite lookup_write, lookup_fix, Ho. cbn. rewrite !decide_False; [done | |].
    + intros Hy. by destruct (Hnx x Hy).
    + intros Hy. rewrite Hy in Hpv. by destruct Hpv.
  - rewrite Hrun; cbn [d_heap d_heads with_heads with_heap].
    + rewrite unlink_idem. do 2 f_equal. unfold with_heads, with_heap. cbn. f_equal. destruct (d_ppContextObjPrev o); [apply list_insert_insert_eq | done].
    + intros y Hy. rewrite lookup_write, lookup_fix. destruct Hy as [oy ->]. by eexists.
    + destruct (d_ppContextObjPrev o); [apply length_insert | done].
Qed.

Lemma view_bottom (h : heap) (ver : addr -> K) x o i k : h !! x = Some o -> d_pContextObjRestore o = None -> view h ver x i k -> k = ver x.
Proof. intros Ho Hr Hv. inversion Hv as [|? o' ? ? ? Ho' _ Hr']; [done |]. rewrite Ho in Ho'. injection Ho' as <-. congruence. Qed.
Lemma destroy_loop_ok x fuel : forall (c : St) act ver ord o,
  Linked (d_heap c) (d_heads c) act ord (d_scopes c) -> Versions (d_heap c) act ver ->
  x ∈ act -> d_heap c !! x = Some o -> d_region o = None -> size act <= fuel ->
  exists c' act' ver' ord', destroy_loop fuel x c = Ok (tt, c') /\
    c' = with_heads (d_heads c') (with_heap (d_heap c') c) /\ length (d_heads c') = length (d_heads c) /\
    Linked (delete x (d_heap c')) (d_heads c') act' ord' (d_scopes c) /\ Versions (delete x (d_heap c')) act' ver' /\
    (forall i S, snap_but x (d_heap c) act ver i S -> snap_but x (delete x (d_heap c')) act' ver' i S) /\
    (* the object is in its state of the bottom scope, and once more changes nothing *)
    (forall k, view (d_heap c) ver x 0 k -> exists o', d_heap c' !! x = Some o' /\ cd_rep (d_object o') k) /\
    (forall n, destroy_loop (S n) x c' = Ok (tt, c')).
Proof.
  induction fuel as [|fuel IH]; intros c act ver ord o HL HV Hx Ho Hlive Hfu.
  { exfalso. assert (act ≡ ∅) as E by (apply size_empty_inv; lia). set_solver. }
  cbn [destroy_loop]. unfold deref. unfold mbind at 1, SM_bind at 1. rewrite Ho.
  destruct (unlink_run c act ord x o HL Hx Ho) as (c1 & E1 & Eq1 & Hc1 & Hl1 & HL1 & Hx1 & Eagain).
  destruct (same_core_lookup _ _ _ _ Hc1 Ho) as (o1 & Ho1 & Ec). pose proof Ec as Ec'. injection Ec' as G1 G2 G3 G4.
  assert (d_scopes c1 = d_scopes c) as Esc1 by (rewrite Eq1; done).
  pose proof (Versions_core _ _ _ _ Hc1 HV) as HV1.
  assert (forall (k : SM St unit), (_ ← fixPrev (d_pContextObjNext o) (d_ppContextObjPrev o);
      _ ← writeCell (d_ppContextObjPrev o) (d_pContextObjNext o); k) c = k c1) as Ek.
  { intros k. unfold mbind, SM_bind in *. destruct (fixPrev _ _ c) as [[[] c0]|]; [| done]. by rewrite E1. }
  rewrite Ek. destruct (d_pContextObjRestore o) as [s|] eqn:Er.
  - assert (d_pContextObjRestore o1 = Some s) as Er1 by congruence. assert (d_region o1 = None) as Hlive1 by congruence.
    destruct (v_restore _ _ _ HV1 x o1 s Hx Ho1 Er1) as (Hsa & Hev & os & Hos & Hreg & Hlt & Hsv).
    assert (s <> x) as Hsx by congruence.
    destruct (restore_rep _ _ _ _ Hsv (v_live _ _ _ HV1 x o1 Hx Ho1 Hlive1) Hev) as (d' & Hd' & Hrep).
    destruct (restoreAndContinue_run c1 (act ∖ {[x]}) ord (d_scopes c) x o1 s os d' HL1 Ho1 ltac:(set_solver) Er1
      ltac:(set_solver) Hos Hd') as (c2 & ord2 & E2 & Eq2 & HL2 & _ & Hc2 & Hl2 & _).
    set (o' := MkObj _ _ _ _ _ _) in Hc2.
    assert (core o' = (d_pScope os, d_pContextObjRestore os, None, d_object o')) as Hcore by (unfold core; cbn; by rewrite Hlive1).
    assert (act ∖ {[x]} ∖ {[s]} ∪ {[x]} = act ∖ {[s]}) as Eset.
    { apply set_eq. intros y. destruct (decide (y = x)) as [->|]; set_solver. }
    rewrite Eset in HL2.
    assert (Versions (d_heap c2) (act ∖ {[s]}) (set_ver ver x (ver s))) as HV2.
    { eapply Versions_core; [exact Hc2 |]. by eapply (Versions_restore _ _ _ x s o1 o' os). }
    destruct (same_core_lookup _ _ x o' Hc2) as (o2 & Ho2 & Eo2); [by rewrite lookup_insert_eq |]. rewrite Hcore in Eo2.
    injection Eo2 as M1 M2 M3 M4.
    assert (d_scopes c2 = d_scopes c) as Esc2 by (rewrite Eq2; done).
    destruct (IH c2 (act ∖ {[s]}) (set_ver ver x (ver s)) ord2 o2) as (c' & act' & ver' & ord' & E & Eq & Hl & HL' & HV' & Hsn & Hbot & Hagain).
    + by rewrite Esc2.
    + done.
    + set_solver.
    + done.
    + done.
    + rewrite size_difference by set_solver. rewrite size_singleton. lia.
    + exists c', act', ver', ord'. split; [unfold mbind, SM_bind; by rewrite E2 |]. split; [rewrite Eq, Eq2, Eq1; done |].
      split; [congruence |]. rewrite Esc2 in HL'. split; [done |]. split; [done |]. split; [| split; [| done]].
      2: { intros k Hk. apply Hbot. eapply view_core; [exact Hc2 |]. apply (view_restore _ act _ x s o1 o' os); try done; [lia |]. by eapply view_core. }
      intros i S HS. apply Hsn. eapply snap_but_core; [exact Hc2 |]. apply (snap_but_core _ _ _ _ _ _ _ Hc1) in HS as [H1 H2].
      assert (forall z, z <> x -> <[x:=o']> (d_heap c1) !! z = d_heap c1 !! z) as Hh by (intros; by rewrite lookup_insert_ne). split.
      * intros y Hyx (Hy & oy & Hoy & Hry). rewrite Hh in Hoy by done. destruct (H1 y Hyx) as (k & Hk & ?).
        { split; [set_solver | by exists oy]. }
        exists k. split; [| done]. eapply (view_other (d_heap c1) _ act ver _ x o1); try done; [| set_solver].
        intros z Hz. by rewrite set_ver_ne.
      * intros y Hyx Hy. destruct (H2 y Hyx Hy) as (Hya & oy & Hoy & Hry). split.
        -- apply elem_of_difference. split; [done |]. intros ->%elem_of_singleton. congruence.
        -- exists oy. by rewrite Hh.
  - exists c1, (act ∖ {[x]}), ver, ord. split; [done |]. split; [done |]. split; [done |].
    assert (forall z, z <> x -> delete x (d_heap c1) !! z = d_heap c1 !! z) as Hh by (intros; by rewrite lookup_delete_ne).
    split; [eapply Linked_frame; [exact HL1 | | done]; intros y Hy; apply Hh; set_solver |]. split; [| split; [| split]].
    3: { intros k Hk. exists o. split; [done |]. rewrite (view_bottom _ _ _ _ _ _ Ho Er Hk). by apply (v_live _ _ _ HV x o). }
    3: { intros n. cbn [destroy_loop]. unfold deref. unfold mbind at 1, SM_bind at 1. rewrite Hx1, Er. clear - Eagain.
         unfold mbind, SM_bind in *. destruct (fixPrev _ _ c1) as [[[] c0]|]; [| done]. by rewrite Eagain. }
    + pose proof HV1 as [V1 V2 V3 V4 V5 V6 V7].
      assert (forall y oy, delete x (d_heap c1) !! y = Some oy -> y <> x /\ d_heap c1 !! y = Some oy) as Hb.
      { intros y oy Hy. apply lookup_delete_Some in Hy as [? ?]. done. }
      split.
      * intros y [Hy Hyx]%elem_of_difference. rewrite Hh by set_solver. auto.
      * intros y oy t [Hy _]%elem_of_difference [Hyx Hoy]%Hb Ht.
        destruct (V2 y oy t Hy Hoy Ht) as (Hta & ? & ot & Hot & Hrt & ?). assert (t <> x) as Htx by congruence.
        split; [set_solver |]. split; [done |]. exists ot. by rewrite Hh.
      * intros y oy [Hy _]%elem_of_difference [Hyx Hoy]%Hb. by apply (V3 y oy).
      * intros y z oy oz t [Hy _]%elem_of_difference [Hz _]%elem_of_difference [_ Hoy]%Hb [_ Hoz]%Hb. by apply (V4 y z oy oz t).
      * intros y oy [Hy _]%elem_of_difference [Hyx Hoy]%Hb. by apply (V5 y oy).
      * intros y oy r [Hy _]%elem_of_difference [Hyx Hoy]%Hb Hr. destruct (V6 y oy r Hy Hoy Hr) as (z & oz & Hz & Hoz & Hrz).
        assert (z <> x) as Hzx by (intros ->; congruence). exists z, oz. split; [set_solver |]. by rewrite Hh.
      * intros y oy [Hyx Hoy]%Hb Hy. apply (V7 y oy Hoy). set_solver.
    + intros i S HS. apply (snap_but_core _ _ _ _ _ _ _ Hc1) in HS as [H1 H2]. split.
      * intros y Hyx (Hy & oy & Hoy & Hry). rewrite Hh in Hoy by done. destruct (H1 y Hyx) as (k & Hk & ?).
        { split; [set_solver | by exists oy]. }
        exists k. split; [| done]. eapply (view_other (d_heap c1) _ act ver _ x o1); try done; [congruence | set_solver].
      * intros y Hyx Hy. destruct (H2 y Hyx Hy) as (Hya & oy & Hoy & Hry). split; [set_solver |]. exists oy. by rewrite Hh.
Qed.

Lemma destroy_refines (c : St) Σ x : Refines c Σ -> is_Some (top Σ !! x) ->
  exists c', destroy x c = Ok (tt, c') /\ Refines c' (map (delete x) Σ).
Proof.
  intros (act & ver & ord & HS & HΣ) Hx. destruct (live_of_top _ _ _ _ _ x HS HΣ Hx) as (Hxa & o & Ho & Hlive).
  destruct HS as [Hhl Hpos HL HV], HΣ as [Hlen HΣ].
  destruct (destroy_loop_ok x (S (size (d_heap c))) c act ver ord o HL HV Hxa Ho Hlive)
    as (c1 & act' & ver' & ord' & E & Eq & Hl & HL' & HV' & Hsn & _).
  { assert (size act <= size (d_heap c)); [| lia]. rewrite <- size_dom. apply subseteq_size. intros y Hy.
    apply elem_of_dom. by apply (v_in _ _ _ HV). }
  assert (d_scopes c1 = d_scopes c) as Esc by (rewrite Eq; done).
  eexists. split; [unfold destroy, mbind, SM_bind; rewrite E; reflexivity |].
  exists act', ver', ord'. split; [split; cbn [d_heap d_heads d_scopes with_heap] |].
  - congruence.
  - lia.
  - by rewrite Esc.
  - done.
  - split; cbn [d_heap d_scopes with_heap]; [by rewrite length_map, Esc |]. intros i S HSi.
    apply list_lookup_fmap_Some in HSi as (S0 & -> & HSi). destruct (HΣ i S0 HSi) as [H1 H2].
    destruct (Hsn i S0) as [B1 B2]; [split; auto |]. split.
    + intros y (Hy & oy & Hoy & Hr). apply lookup_delete_Some in Hoy as Hd. destruct Hd as [Hne _].
      destruct (B1 y) as (k & Hk & HSk); [done | split; eauto |]. exists k. split; [done |]. by rewrite lookup_delete_ne.
    + intros y [v Hv]. apply lookup_delete_Some in Hv as [Hne Hv]. apply B2; [done | by eexists].
Qed.

(** [destroy()] by hand leaves the object in its state of the bottom scope, and the destructor that follows at once does
    no harm. *)
Lemma destroy_twice (c : St) Σ x S v : Refines c Σ -> Σ !! 0 = Some S -> S !! x = Some v ->
  exists c1, destroy_loop (Datatypes.S (size (d_heap c))) x c = Ok (tt, c1) /\
    (exists d k, getData x c1 = Ok (d, c1) /\ cd_rep d k /\ cd_vis k = v) /\
    exists c2, destroy x c1 = Ok (tt, c2) /\ Refines c2 (map (delete x) Σ).
Proof.
  intros HR H0 Hv. pose proof HR as (act & ver & ord & [Hhl Hpos HL HV] & [Hlen HΣ]). destruct (HΣ 0 S H0) as [Hl Ho].
  destruct (Ho x) as (Hxa & o & Hxo & Hlive); [by eexists |]. destruct (Hl x) as (k & Hk & Hvk); [split; eauto |]. rewrite Hv in Hvk. injection Hvk as ->.
  destruct (destroy_loop_ok x (Datatypes.S (size (d_heap c))) c act ver ord o HL HV Hxa Hxo Hlive)
    as (c1 & _ & _ & _ & E & _ & _ & _ & _ & _ & Hbot & Hagain).
  { assert (size act <= size (d_heap c)); [| lia]. rewrite <- size_dom. apply subseteq_size. intros y Hy. apply elem_of_dom. by apply (v_in _ _ _ HV). }
  destruct (Hbot k Hk) as (o' & Ho' & Hrep). exists c1. split; [done |]. split.
  { exists (d_object o'), k. split; [| done]. unfold getData, deref, mbind, SM_bind. by rewrite Ho'. }
  destruct (destroy_refines c Σ x HR) as (c2 & E2 & HR2).
  { pose proof (top_lookup Σ) as Ht. assert (Hne : Σ <> []) by (by intros ->). specialize (Ht Hne). destruct (HΣ _ _ Ht) as [Hl' _].
    destruct (Hl' x) as (k' & _ & ->); [split; eauto | by eexists]. }
  exists c2. split; [| done]. revert E2. unfold destroy, mbind, SM_bind. by rewrite E, Hagain.
Qed.
End ops.
