(* ===== verification/ContextSession.v ===== *)
(** * Sessions with a context

    A client of a context (the theory engine, a theory, the SAT solver) issues a
    sequence of commands: it pushes and pops scopes, makes and destroys objects,
    changes them through mutators and registers for notifications.  Objects are
    named by the order in which the client made them; [cl_env] holds their
    addresses.  The abstract machine, a stack of snapshots, is the function
    [spec_command]; [session_ok] is the forward simulation and [scope_restores]
    what clients rely on: whatever happens between a push and the matching pop,
    the pop restores every object. *)

From S2P Require Import Prelude Context ContextCorrect.
Local Open Scope nat_scope.

Section session.
Context {D : Type} {CD : ContextData D} {K O : Type} {CS : ContextDataSpec D K O} {KI : Inhabited K}.
Abbreviation St := (Context D).
Abbreviation Snaps := (list (gmap addr O)).

(** ** The context alone *)
Lemma lookup_map_Some {A B} (f : A -> B) (l : list A) i a : l !! i = Some a -> map f l !! i = Some (f a).
Proof. intros H. change (map f l) with (f <$> l). by rewrite list_lookup_fmap, H. Qed.

Lemma init_refines : Refines (Context_init : St) [∅ : gmap addr O].
Proof.
  exists ∅, (fun _ => inhabitant), (fun _ => 0%Z). split; [split; [done | cbn; lia | |] |].
  - split; cbn; try set_solver. intros i x Hi Hx. destruct i; [done | lia].
  - split; cbn; try set_solver.
  - split; [done |]. intros i S HS. apply list_lookup_singleton_Some in HS as [-> <-]. split.
    + intros x [Hx _]. set_solver.
    + intros x [v Hv]. by rewrite lookup_empty in Hv.
Qed.

Lemma refines_length (c : St) (Σ : Snaps) : Refines c Σ -> length Σ = d_scopes c /\ 1 <= d_scopes c.
Proof. intros (act & ver & ord & HS & Hl & _). split; [done | apply HS]. Qed.

Lemma popto_loop_refines fuel : forall (c : St) (Σ : Snaps) n,
  Refines c Σ -> d_scopes c <= fuel + S n ->
  exists c', popto_loop fuel n c = Ok (tt, c') /\ Refines c' (take (S n) Σ).
Proof.
  induction fuel as [|fuel IH]; intros c Σ n HR Hf; destruct (refines_length c Σ HR) as [Hl Hp];
    cbn [popto_loop]; unfold getLevel, gets, mbind, SM_bind.
  - rewrite (proj2 (Nat.ltb_ge n (d_scopes c - 1))) by lia. exists c. rewrite take_ge by lia. done.
  - destruct (Nat.ltb_spec n (d_scopes c - 1)).
    + destruct (pop_refines c Σ HR) as (c1 & -> & HR1); [lia |].
      destruct (refines_length _ _ HR1) as [Hl1 _]. rewrite length_take in Hl1.
      destruct (IH c1 _ n HR1) as (c2 & -> & HR2); [lia |]. exists c2. split; [done |].
      by rewrite take_take, Nat.min_l in HR2 by lia.
    + exists c. rewrite take_ge by lia. done.
Qed.

Lemma popto_refines (c : St) (Σ : Snaps) l : Refines c Σ ->
  exists c', popto l c = Ok (tt, c') /\ Refines c' (take (S (Z.to_nat l)) Σ).
Proof.
  intros HR. unfold popto. replace (Z.to_nat (if (l <? 0)%Z then 0%Z else l)) with (Z.to_nat l).
  - apply popto_loop_refines; [done | lia].
  - destruct (Z.ltb_spec l 0); lia.
Qed.

(** Only the heap, the lists and the number of scopes matter. *)
Lemma refines_same (c c' : St) (Σ : Snaps) :
  d_heap c' = d_heap c -> d_heads c' = d_heads c -> d_scopes c' = d_scopes c -> Refines c Σ -> Refines c' Σ.
Proof.
  intros E1 E2 E3 (act & ver & ord & [H1 H2 H3 H4] & H5 & H6). exists act, ver, ord.
  split; [split | split]; rewrite ?E1, ?E2, ?E3; done.
Qed.

(** The snapshots are about the same objects. *)
Lemma refines_dom (c : St) (Σ : Snaps) S x : Refines c Σ -> S ∈ Σ -> is_Some (S !! x) -> is_Some (top Σ !! x).
Proof.
  intros (act & ver & ord & HS & HΣ) HSin Hx. apply list_elem_of_lookup in HSin as [i Hi].
  pose proof (snap_only _ _ _ _ _ (proj2 HΣ _ _ Hi) x Hx) as Hl.
  pose proof (top_lookup Σ (snaps_nonempty _ _ _ _ _ HS HΣ)) as Ht.
  destruct (snap_live _ _ _ _ _ (proj2 HΣ _ _ Ht) x Hl) as (k & _ & E). by eexists.
Qed.

(** What a client reads. *)
Definition observes (c : St) (x : addr) (v : O) : Prop :=
  exists d k, getData x c = Ok (d, c) /\ cd_rep d k /\ cd_vis k = v.

Lemma refines_observes (c : St) Σ x v : Refines c Σ -> top Σ !! x = Some v -> observes c x v.
Proof.
  intros (act & ver & ord & HS & HΣ) Hx.
  pose proof (top_lookup Σ (snaps_nonempty _ _ _ _ _ HS HΣ)) as Ht.
  destruct (live_of_top _ _ _ _ _ x HS HΣ) as (Hxa & o & Ho & Hlive); [by eexists |].
  destruct (snap_live _ _ _ _ _ (proj2 HΣ _ _ Ht) x) as (k & Hk & HSk); [split; eauto |].
  rewrite Hx in HSk. injection HSk as ->. pose proof (sim_scope _ _ _ _ _ _ HS Hxa Ho).
  apply (view_top _ _ x o) in Hk as ->; [| done | destruct HΣ; lia].
  exists (d_object o), (ver x). split; [unfold getData, deref, mbind, SM_bind; by rewrite Ho |].
  split; [| done]. by apply (v_live _ _ _ (sim_versions _ _ _ _ HS) x o).
Qed.


(** ** Commands *)
(** An operation of the subclass, and what it does to the visible state. *)
Record mutator : Type := MkMutator {
  m_run : D -> M D;
  m_pre : O -> bool;
  m_spec : O -> O;
  m_ok : op_ok m_run (fun o => m_pre o = true) m_spec
}.
Record initial : Type := MkInitial { i_data : D; i_state : K; i_ok : cd_rep i_data i_state }.

Inductive command : Type :=
  | Push
  | Pop
  | PopTo (toLevel : Z)
  | New (i : initial)
  | Mutate (m : mutator) (n : nat)
  | Destroy (n : nat)
  | AddNotify (pre : bool) (k : nat).

Record client : Type := MkClient { cl_ctx : St; cl_next : nat; cl_env : gmap nat addr }.
Definition client_init : client := MkClient Context_init 0 ∅.

Definition onContext {A} (m : SM St A) : SM client A := fun cl =>
  match m (cl_ctx cl) with
  | Ok (a, c) => Ok (a, MkClient c (cl_next cl) (cl_env cl))
  | Throw e => Throw e
  end.
Definition object (n : nat) : SM client addr := fun cl =>
  match cl_env cl !! n with Some x => Ok (x, cl) | None => Throw OutOfBounds end.

Definition run_command (cmd : command) : SM client unit :=
  match cmd with
  | Push => onContext push
  | Pop => onContext pop
  | PopTo l => onContext (popto l)
  | New i =>
      x ← onContext (newContextObj false (i_data i));
      modify (fun cl => MkClient (cl_ctx cl) (S (cl_next cl)) (<[cl_next cl:=x]> (cl_env cl)))
  | Mutate m n => x ← object n; onContext (mutate (m_run m) x)
  | Destroy n =>
      x ← object n;
      _ ← onContext (destroy x);
      modify (fun cl => MkClient (cl_ctx cl) (cl_next cl) (delete n (cl_env cl)))
  | AddNotify pre k => onContext (if pre then addNotifyObjPre k else addNotifyObjPost k)
  end.
Fixpoint run_commands (cmds : list command) : SM client unit :=
  match cmds with
  | [] => mret tt
  | cmd :: rest => _ ← run_command cmd; run_commands rest
  end.
(** What the client reads of object [n]. *)
Definition read (n : nat) : SM client D := x ← object n; onContext (getData x).

(** ** The abstract machine *)
Record astate : Type := MkA { a_next : nat; a_snaps : list (gmap nat O) }.
Definition a_init : astate := MkA 0 [∅].
Definition a_top (a : astate) : gmap nat O := default ∅ (last (a_snaps a)).
Definition a_level (a : astate) : nat := length (a_snaps a) - 1.

(** [None]: the client may not do this (pop the bottom scope, use an object that
    does not exist, violate the precondition of a mutator). *)
Definition spec_command (cmd : command) (a : astate) : option astate :=
  let Σ := a_snaps a in
  match cmd with
  | Push => Some (MkA (a_next a) (Σ ++ [a_top a]))
  | Pop => if 0 <? a_level a then Some (MkA (a_next a) (take (a_level a) Σ)) else None
  | PopTo l => Some (MkA (a_next a) (take (S (Z.to_nat l)) Σ))
  | New i => Some (MkA (S (a_next a)) (map (<[a_next a:=cd_vis (i_state i)]>) Σ))
  | Mutate m n =>
      v ← a_top a !! n;
      if m_pre m v then Some (MkA (a_next a) (<[a_level a:=<[n:=m_spec m v]> (a_top a)]> Σ)) else None
  | Destroy n =>
      _ ← a_top a !! n;
      Some (MkA (a_next a) (map (delete n) Σ))
  | AddNotify _ _ => Some a
  end.
Fixpoint spec_commands (cmds : list command) (a : astate) : option astate :=
  match cmds with
  | [] => Some a
  | cmd :: rest => a' ← spec_command cmd a; spec_commands rest a'
  end.

(** ** The simulation *)
Record Match (env : gmap nat addr) (S : gmap addr O) (A : gmap nat O) : Prop := {
  match_some n x : env !! n = Some x -> is_Some (S !! x) /\ S !! x = A !! n;
  match_none n : env !! n = None -> A !! n = None
}.
Record ClientOk (cl : client) (a : astate) : Prop := {
  co_refines : exists Σ, Refines (cl_ctx cl) Σ /\ Forall2 (Match (cl_env cl)) Σ (a_snaps a);
  co_inj n m x : cl_env cl !! n = Some x -> cl_env cl !! m = Some x -> n = m;
  co_next : cl_next cl = a_next a;
  co_bound n x : cl_env cl !! n = Some x -> n < cl_next cl
}.

Lemma client_init_ok : ClientOk client_init a_init.
Proof.
  split; try done.
  exists [∅]. split; [apply init_refines |]. repeat constructor; done.
Qed.

Lemma Forall2_top env (Σ : Snaps) A : Forall2 (Match env) Σ A -> Σ <> [] -> Match env (top Σ) (default ∅ (last A)).
Proof.
  intros HF Hne. pose proof (Forall2_length _ _ _ HF) as Hl. pose proof (top_lookup Σ Hne) as Ht.
  destruct (Forall2_lookup_l _ _ _ _ _ HF Ht) as (S & HS & HM). rewrite last_lookup, <- Hl.
  replace (pred (length Σ)) with (length Σ - 1) by lia. by rewrite HS.
Qed.

Lemma refines_nonempty (c : St) (Σ : Snaps) : Refines c Σ -> Σ <> [].
Proof. intros HR ->. destruct (refines_length c _ HR) as [Hl ?]. cbn in Hl. lia. Qed.

(** A new object, at a fresh address. *)
Lemma Match_new env S A n x v : Match env S A -> env !! n = None -> (forall m, env !! m <> Some x) ->
  Match (<[n:=x]> env) (<[x:=v]> S) (<[n:=v]> A).
Proof.
  intros [M1 M2] Hn Hx. split.
  - intros m y. destruct (decide (m = n)) as [->|].
    + rewrite lookup_insert_eq. intros [= <-]. rewrite !lookup_insert_eq. by split.
    + rewrite lookup_insert_ne by done. intros Hm. rewrite !lookup_insert_ne by congruence. by apply M1.
  - intros m. destruct (decide (m = n)) as [->|]; [by rewrite lookup_insert_eq |]. rewrite !lookup_insert_ne by done. apply M2.
Qed.
Lemma Match_set env S A n x v : Match env S A -> (forall m, env !! m = Some x -> m = n) -> env !! n = Some x ->
  Match env (<[x:=v]> S) (<[n:=v]> A).
Proof.
  intros [M1 M2] Hinj Hn. split.
  - intros m y Hm. destruct (decide (y = x)) as [->|].
    + rewrite (Hinj m Hm), !lookup_insert_eq. by split.
    + rewrite !lookup_insert_ne by congruence. by apply M1.
  - intros m Hm. rewrite lookup_insert_ne by congruence. by apply M2.
Qed.
Lemma Match_destroy env S A n x : Match env S A -> (forall m, env !! m = Some x -> m = n) -> env !! n = Some x ->
  Match (delete n env) (delete x S) (delete n A).
Proof.
  intros [M1 M2] Hinj Hn. split.
  - intros m y [Hne Hm]%lookup_delete_Some. rewrite !lookup_delete_ne; [by apply M1 | done |]. intros ->. by apply Hne, eq_sym, Hinj.
  - intros m. destruct (decide (m = n)) as [->|]; [by rewrite !lookup_delete_eq |]. rewrite !lookup_delete_ne by done. apply M2.
Qed.

(** The context changes, the objects the client knows do not. *)
Lemma client_same cl a c' Σ' A' : ClientOk cl a -> Refines c' Σ' -> Forall2 (Match (cl_env cl)) Σ' A' ->
  ClientOk (MkClient c' (cl_next cl) (cl_env cl)) (MkA (a_next a) A').
Proof. intros [_ H2 H3 H4] HR HF. split; try done. by exists Σ'. Qed.

Lemma client_object cl a n v : ClientOk cl a -> a_top a !! n = Some v ->
  exists x Σ, cl_env cl !! n = Some x /\ object n cl = Ok (x, cl) /\ Refines (cl_ctx cl) Σ /\
    Forall2 (Match (cl_env cl)) Σ (a_snaps a) /\ top Σ !! x = Some v /\ (forall m, cl_env cl !! m = Some x -> m = n).
Proof.
  intros [(Σ & HR & HF) Hinj _ _] Hv. destruct (Forall2_top _ _ _ HF (refines_nonempty _ _ HR)) as [M1 M2].
  destruct (cl_env cl !! n) as [x|] eqn:E; [| unfold a_top in Hv; by rewrite (M2 n E) in Hv].
  destruct (M1 n x E) as [_ Hx]. exists x, Σ. split; [done |]. split; [unfold object; by rewrite E |]. split; [done |].
  split; [done |]. split; [unfold a_top in Hv; congruence |]. intros m Hm. by eapply Hinj.
Qed.

Lemma command_ok cmd cl a a' : ClientOk cl a -> spec_command cmd a = Some a' ->
  exists cl', run_command cmd cl = Ok (tt, cl') /\ ClientOk cl' a'.
Proof.
  intros HC Hs. pose proof (co_refines _ _ HC) as (Σ & HR & HF). pose proof (Forall2_length _ _ _ HF) as Hl.
  pose proof (refines_nonempty _ _ HR) as Hne. pose proof (Forall2_top _ _ _ HF Hne) as HT.
  destruct cmd as [| |l|i|m n|n|pre k]; cbn [spec_command run_command] in *; unfold onContext.
  - injection Hs as <-. destruct (push_refines _ Σ HR) as (c' & -> & HR'). eexists. split; [done |].
    apply (client_same cl a _ _ _ HC HR'). apply Forall2_app; [done |]. by apply Forall2_cons_2.
  - destruct (Nat.ltb_spec 0 (a_level a)); [| done]. injection Hs as <-. unfold a_level in *.
    destruct (pop_refines _ Σ HR) as (c' & -> & HR'); [lia |]. eexists. split; [done |].
    apply (client_same cl a _ _ _ HC HR'). rewrite Hl. by apply Forall2_take.
  - injection Hs as <-. destruct (popto_refines _ Σ l HR) as (c' & -> & HR'). eexists. split; [done |].
    apply (client_same cl a _ _ _ HC HR'). by apply Forall2_take.
  - injection Hs as <-. destruct (new_refines _ Σ _ _ HR (i_ok i)) as (x & c' & E & Hx & HR').
    unfold mbind, SM_bind. rewrite E. eexists. split; [done |]. destruct HC as [_ Hinj Hnx Hb]. cbn.
    assert (forall m, cl_env cl !! m <> Some x) as Hfr. { intros m Hm. destruct (match_some _ _ _ HT m x Hm) as [[] _]. congruence. }
    assert (cl_env cl !! cl_next cl = None) as Hn. { destruct (cl_env cl !! cl_next cl) eqn:En; [apply Hb in En; lia | done]. }
    split; cbn; [| | congruence |].
    + eexists. split; [exact HR' |]. rewrite <- Hnx. apply Forall2_fmap. eapply Forall2_impl; [exact HF |].
      intros S A HM. by apply Match_new.
    + intros n m y Hny Hmy.
      apply lookup_insert_Some in Hny as [[<- <-]|[? Hny]]; apply lookup_insert_Some in Hmy as [[<- Ey]|[? Hmy]];
        [done | by apply Hfr in Hmy | subst; by apply Hfr in Hny | by eapply Hinj].
    + intros n y [[<- _]|[_ Hny]]%lookup_insert_Some; [lia |]. apply Hb in Hny. lia.
  - destruct (a_top a !! n) as [v|] eqn:Ev; [| done]. cbn in Hs. destruct (m_pre m v) eqn:Ep; [| done]. injection Hs as <-.
    destruct (client_object cl a n v HC Ev) as (x & Σ1 & Ex & Eo & HR1 & HF1 & Hx & Hinj).
    destruct (mutate_refines _ Σ1 x v _ _ _ HR1 Hx (m_ok m) Ep) as (c' & E & HR').
    unfold mbind, SM_bind. rewrite Eo, E. eexists. split; [done |]. apply (client_same cl a _ _ _ HC HR').
    unfold set_top, a_level. rewrite (Forall2_length _ _ _ HF1). apply Forall2_insert; [done |].
    apply Match_set; [| done | done]. apply Forall2_top; [done | by eapply refines_nonempty].
  - destruct (a_top a !! n) as [v|] eqn:Ev; [| done]. cbn in Hs. injection Hs as <-.
    destruct (client_object cl a n v HC Ev) as (x & Σ1 & Ex & Eo & HR1 & HF1 & Hx & Hinj1).
    destruct (destroy_refines _ Σ1 x HR1) as (c' & E & HR'); [by eexists |].
    unfold mbind, SM_bind. rewrite Eo, E. eexists. split; [done |]. destruct HC as [_ Hinj Hnx Hb]. split; cbn.
    + eexists. split; [exact HR' |]. apply Forall2_fmap. eapply Forall2_impl; [exact HF1 |]. intros S A HM. by apply Match_destroy.
    + intros p q y [_ Hp]%lookup_delete_Some [_ Hq]%lookup_delete_Some. by eapply Hinj.
    + done.
    + intros p y [_ Hp]%lookup_delete_Some. by eapply Hb.
  - injection Hs as <-. destruct a as [nx A]. destruct pre; cbn; (eexists; split; [reflexivity |]);
      (apply (client_same cl (MkA nx A) _ Σ _ HC); [| done]; by apply (refines_same (cl_ctx cl))).
Qed.

Lemma commands_ok cmds : forall cl a a', ClientOk cl a -> spec_commands cmds a = Some a' ->
  exists cl', run_commands cmds cl = Ok (tt, cl') /\ ClientOk cl' a'.
Proof.
  induction cmds as [|cmd rest IH]; intros cl a a' HC Hs; cbn in *.
  - injection Hs as <-. by exists cl.
  - destruct (spec_command cmd a) as [a1|] eqn:E1; [| done]. cbn in Hs.
    destruct (command_ok cmd cl a a1 HC E1) as (cl1 & E & HC1). destruct (IH cl1 a1 a' HC1 Hs) as (cl2 & E2 & HC2).
    exists cl2. split; [| done]. unfold mbind, SM_bind. by rewrite E.
Qed.

(** A client reads the top snapshot. *)
Definition reads (cl : client) (n : nat) (v : O) : Prop :=
  exists d k, read n cl = Ok (d, cl) /\ cd_rep d k /\ cd_vis k = v.
Lemma client_reads cl a n v : ClientOk cl a -> a_top a !! n = Some v -> reads cl n v.
Proof.
  intros HC Hv. destruct (client_object cl a n v HC Hv) as (x & Σ & Ex & Eo & HR & _ & Hx & _).
  destruct (refines_observes _ Σ x v HR Hx) as (d & k & Ed & Hr & Hvis). exists d, k. split; [| done].
  unfold read, mbind, SM_bind. rewrite Eo. unfold onContext. rewrite Ed. by destruct cl.
Qed.
(** Its level is the number of scopes above the bottom one. *)
Lemma client_level cl a : ClientOk cl a -> getLevel (cl_ctx cl) = Ok (a_level a, cl_ctx cl).
Proof.
  intros [(Σ & HR & HF) _ _ _]. destruct (refines_length _ _ HR) as [Hl _].
  unfold getLevel, gets, a_level. by rewrite <- (Forall2_length _ _ _ HF), Hl.
Qed.

(** ** Restoration *)
(** The commands stay at or above the depth at which they start, end there, and
    do not destroy object [n]. *)
Fixpoint balanced (n d : nat) (cmds : list command) : bool :=
  match cmds with
  | [] => d =? 0
  | Push :: rest => balanced n (S d) rest
  | Pop :: rest => match d with 0 => false | S d' => balanced n d' rest end
  | PopTo _ :: _ => false
  | Destroy m :: rest => negb (m =? n) && balanced n d rest
  | _ :: rest => balanced n d rest
  end.

(** One command above depth [l]: the depth it leads to, and what snapshot [i < l] says of [n]. *)
Lemma balanced_step cmd rest n d l a a' : spec_command cmd a = Some a' -> balanced n d (cmd :: rest) = true ->
  length (a_snaps a) = S l + d -> n < a_next a ->
  exists d', balanced n d' rest = true /\ length (a_snaps a') = S l + d' /\ n < a_next a' /\
    forall i S v, i < l -> a_snaps a !! i = Some S -> S !! n = Some v ->
    exists S', a_snaps a' !! i = Some S' /\ S' !! n = Some v.
Proof.
  intros Hs Hb Hl Hn. destruct cmd as [| |p|j|m q|q|pre k]; cbn [spec_command balanced] in *.
  - injection Hs as <-. cbn. exists (S d). rewrite length_app. cbn. repeat split; [done | lia | done |].
    intros i S v Hi HS Hv. exists S. by rewrite lookup_app_l by lia.
  - destruct (Nat.ltb_spec 0 (a_level a)); [| done]. injection Hs as <-. destruct d as [|d']; [done |]. unfold a_level in *. cbn.
    exists d'. rewrite length_take. repeat split; [done | lia | done |]. intros i S v Hi HS Hv. exists S.
    by rewrite lookup_take_lt by lia.
  - done.
  - injection Hs as <-. cbn. exists d. rewrite length_map. repeat split; [done | done | lia |]. intros i S v Hi HS Hv.
    eexists. split; [by apply lookup_map_Some |]. rewrite lookup_insert_ne by lia. done.
  - destruct (a_top a !! q) as [w|]; [| done]. cbn in Hs. destruct (m_pre m w); [| done]. injection Hs as <-. cbn. exists d.
    rewrite length_insert. repeat split; [done | done | done |]. intros i S v Hi HS Hv. exists S. unfold a_level.
    by rewrite list_lookup_insert_ne by lia.
  - destruct (a_top a !! q) as [w|]; [| done]. cbn in Hs. injection Hs as <-. cbn. exists d. rewrite length_map.
    apply andb_true_iff in Hb as [Hq Hb]. apply negb_true_iff, Nat.eqb_neq in Hq. repeat split; [done | done | done |].
    intros i S v Hi HS Hv. eexists. split; [by apply lookup_map_Some |]. by rewrite lookup_delete_ne.
  - injection Hs as <-. exists d. repeat split; [done | done | done |]. intros i S v Hi HS Hv. by exists S.
Qed.

Lemma balanced_run cmds n l : forall d a a', spec_commands cmds a = Some a' -> balanced n d cmds = true ->
  length (a_snaps a) = S l + d -> n < a_next a ->
  length (a_snaps a') = S l /\ n < a_next a' /\
  forall i S v, i < l -> a_snaps a !! i = Some S -> S !! n = Some v -> exists S', a_snaps a' !! i = Some S' /\ S' !! n = Some v.
Proof.
  induction cmds as [|cmd rest IH]; intros d a a' Hs Hb Hl Hn.
  - injection Hs as <-. apply Nat.eqb_eq in Hb as ->. repeat split; [lia | done |]. intros i S v _ HS Hv. by exists S.
  - cbn in Hs. destruct (spec_command cmd a) as [a1|] eqn:E1; [| done]. cbn in Hs.
    destruct (balanced_step cmd rest n d l a a1 E1 Hb Hl Hn) as (d' & Hb' & Hl' & Hn' & H1).
    destruct (IH d' a1 a' Hs Hb' Hl' Hn') as (Hl2 & Hn2 & H2). repeat split; [done | done |].
    intros i S v Hi HS Hv. destruct (H1 i S v Hi HS Hv) as (S1 & HS1 & Hv1). by apply (H2 i S1).
Qed.

Lemma spec_commands_app cmds1 cmds2 a : spec_commands (cmds1 ++ cmds2) a = a1 ← spec_commands cmds1 a; spec_commands cmds2 a1.
Proof. revert a. induction cmds1 as [|cmd rest IH]; intros a; cbn; [done |]. destruct (spec_command cmd a); cbn; [apply IH | done]. Qed.

Lemma scope_restores cmds n a a' v : spec_commands (Push :: cmds ++ [Pop]) a = Some a' -> balanced n 0 cmds = true ->
  n < a_next a -> a_top a !! n = Some v -> a_level a' = a_level a /\ a_top a' !! n = Some v.
Proof.
  intros Hs Hb Hn Hv. cbn in Hs. set (a1 := MkA (a_next a) (a_snaps a ++ [a_top a])) in Hs.
  rewrite spec_commands_app in Hs. destruct (spec_commands cmds a1) as [a2|] eqn:E2; [| done]. cbn in Hs.
  destruct (a_level a2) as [|l2] eqn:Hlev; [done |]. cbn in Hs. injection Hs as <-. unfold a_level in Hlev.
  destruct (last (a_snaps a)) as [S|] eqn:ES; [| unfold a_top in Hv; by rewrite ES in Hv].
  assert (a_top a = S) as Et by (unfold a_top; by rewrite ES). rewrite last_lookup in ES.
  assert (0 < length (a_snaps a)) as Hpos. { apply lookup_lt_Some in ES. lia. }
  destruct (balanced_run cmds n (length (a_snaps a)) 0 a1 a2 E2 Hb) as (Hl2 & _ & H2); [cbn; rewrite length_app; cbn; lia | done |].
  assert (Datatypes.S l2 = length (a_snaps a)) as El by lia. rewrite El.
  unfold a_level, a_top. cbn. rewrite last_lookup, length_take, Hl2. split; [lia |].
  destruct (H2 (pred (length (a_snaps a))) S v) as (S' & HS' & Hv');
    [lia | cbn; by rewrite lookup_app_l by lia | by rewrite <- Et |].
  rewrite Nat.min_l by lia. rewrite lookup_take_lt by lia. by rewrite HS'.
Qed.

(** The abstract machine numbers objects in the order of their creation. *)
Lemma client_bound cl a n v : ClientOk cl a -> a_top a !! n = Some v -> n < a_next a.
Proof.
  intros HC Hv. destruct (client_object cl a n v HC Hv) as (x & _ & Ex & _). rewrite <- (co_next _ _ HC). by eapply co_bound.
Qed.

(** C9. Contexts implement a stack of snapshots: whenever the abstract machine
    allows a sequence of commands, the implementation runs it from the initial
    state without throwing or following a dangling pointer, ends at the level of
    the abstract machine, and every object reads as in the top snapshot. *)
Theorem context_refines_snapshots (cmds : list command) (a : astate) :
  spec_commands cmds a_init = Some a ->
  exists cl, run_commands cmds client_init = Ok (tt, cl) /\
    getLevel (cl_ctx cl) = Ok (a_level a, cl_ctx cl) /\
    forall n v, a_top a !! n = Some v -> reads cl n v.
Proof.
  intros Hs. destruct (commands_ok cmds client_init a_init a client_init_ok Hs) as (cl & E & HC).
  exists cl. split; [done |]. split; [by apply client_level |]. intros n v. by apply client_reads.
Qed.

(** C4. Backtracking: in any reachable state, whatever the client does between a
    push and the matching pop (nested scopes, changes, new objects, destroying
    others), every object it has not destroyed reads after the pop as before the
    push, and the level is the same. *)
Theorem pop_restores_objects (pre cmds : list command) (a a' : astate) (n : nat) (v : O) :
  spec_commands pre a_init = Some a -> a_top a !! n = Some v ->
  spec_commands (Push :: cmds ++ [Pop]) a = Some a' -> balanced n 0 cmds = true ->
  exists cl cl', run_commands pre client_init = Ok (tt, cl) /\ reads cl n v /\
    run_commands (Push :: cmds ++ [Pop]) cl = Ok (tt, cl') /\ reads cl' n v /\
    getLevel (cl_ctx cl') = Ok (a_level a, cl_ctx cl').
Proof.
  intros Hp Hv Hs Hb. destruct (commands_ok pre client_init a_init a client_init_ok Hp) as (cl & E & HC).
  destruct (commands_ok _ cl a a' HC Hs) as (cl' & E' & HC'). pose proof (client_bound cl a n v HC Hv) as Hn.
  destruct (scope_restores cmds n a a' v Hs Hb Hn Hv) as [Hl Ht]. exists cl, cl'. split; [done |].
  split; [by apply (client_reads cl a) |]. split; [done |]. split; [by apply (client_reads cl' a') |].
  rewrite <- Hl. by apply client_level.
Qed.
End session.
