(* ===== verification/ContextMM.v ===== *)
(** * The region-based memory manager of contexts

    Models [src/context/context_mm.{h,cpp}].  Pointers are 64-bit addresses; the chunks
    obtained from [malloc] and not yet given back to [free] are part of the state, so that
    a double [free] is an error and a leak is visible.  [malloc] is a parameter with its
    documented behaviour: a fresh chunk in the lower half of the address space (where user
    memory is on 64-bit platforms) that overlaps no chunk in use, or [NULL]. *)

From S2P Require Import Prelude Integer.
Local Open Scope Z_scope.

Definition chunkSizeBytes : Z := 16384.
Definition maxFreeChunks : nat := 100.

(** [malloc(chunkSizeBytes)] where the chunks in use are known. *)
Class Malloc : Type := malloc : list Z -> option Z.
(** Two chunks do not overlap. *)
Definition apart (p q : Z) : Prop := p + chunkSizeBytes <= q \/ q + chunkSizeBytes <= p.
Class MallocSpec (A : Malloc) : Prop := malloc_spec live p :
  malloc live = Some p -> 0 < p /\ p + chunkSizeBytes < 2 ^ 63 /\ Forall (apart p) live.

(** The members of [ContextMemoryManager].  The last element of [d_chunkList] is its back; the
    front of the deque is the head of [d_freeChunks]; the backs of the three stacks are
    their heads. *)
Record ContextMemoryManager : Type := MkCMM {
  d_chunkList : list Z;
  d_freeChunks : list Z;
  d_nextFree : Z;
  d_endChunk : Z;
  d_indexChunkList : Z;
  d_nextFreeStack : list Z;
  d_endChunkStack : list Z;
  d_indexChunkListStack : list Z;
  d_live : list Z   (* the chunks from [malloc] *)
}.

(** Addition to a pointer. *)
Definition ptr_add (p n : Z) : Z := (p + n) mod 2 ^ 64.

Section operations.
Context {A : Malloc}.

(** [free(p)] of a chunk that is not in use is undefined. *)
Fixpoint remove_chunk (p : Z) (live : list Z) : M (list Z) :=
  match live with
  | [] => Throw OutOfBounds
  | q :: live => if p =? q then Ok live else live' ← remove_chunk p live; Ok (q :: live')
  end.
Definition back (l : list Z) : M Z := match last l with Some x => Ok x | None => Throw OutOfBounds end.

Definition new_ContextMemoryManager (live : list Z) : M ContextMemoryManager :=
  match malloc live with
  | None => Throw BadAlloc
  | Some p => Ok (MkCMM [p] [] p (ptr_add p chunkSizeBytes) 0 [] [] [] (p :: live))
  end.

Definition newChunk (m : ContextMemoryManager) : M ContextMemoryManager :=
  let index := u32 (d_indexChunkList m + 1) in
  _ ← check AssertionFailed (Z.of_nat (length (d_chunkList m)) =? index);
  '(chunk, freeChunks, live) ←
    match d_freeChunks m with
    | [] => match malloc (d_live m) with None => Throw BadAlloc | Some p => Ok (p, [], p :: d_live m) end
    | _ => p ← back (d_freeChunks m); Ok (p, removelast (d_freeChunks m), d_live m)
    end;
  Ok (MkCMM (d_chunkList m ++ [chunk]) freeChunks chunk (ptr_add chunk chunkSizeBytes) index
        (d_nextFreeStack m) (d_endChunkStack m) (d_indexChunkListStack m) live).

Definition set_nextFree (p : Z) (m : ContextMemoryManager) : ContextMemoryManager :=
  MkCMM (d_chunkList m) (d_freeChunks m) p (d_endChunk m) (d_indexChunkList m)
    (d_nextFreeStack m) (d_endChunkStack m) (d_indexChunkListStack m) (d_live m).

Definition newData (size : Z) (m : ContextMemoryManager) : M (Z * ContextMemoryManager) :=
  let res := d_nextFree m in
  let m := set_nextFree (ptr_add (d_nextFree m) size) m in
  if d_endChunk m <? d_nextFree m then
    m ← newChunk m;
    let res := d_nextFree m in
    let m := set_nextFree (ptr_add (d_nextFree m) size) m in
    _ ← check AssertionFailed (d_nextFree m <=? d_endChunk m);
    Ok (res, m)
  else Ok (res, m).

Definition push (m : ContextMemoryManager) : ContextMemoryManager :=
  MkCMM (d_chunkList m) (d_freeChunks m) (d_nextFree m) (d_endChunk m) (d_indexChunkList m)
    (d_nextFree m :: d_nextFreeStack m) (d_endChunk m :: d_endChunkStack m) (d_indexChunkList m :: d_indexChunkListStack m) (d_live m).

(** [while(d_indexChunkList > d_indexChunkListStack.back())] *)
Fixpoint release_chunks (fuel : nat) (index saved : Z) (chunks free_ : list Z) : M (Z * list Z * list Z) :=
  if saved <? index then
    match fuel with
    | O => Throw OutOfFuel
    | S fuel' => p ← back chunks; release_chunks fuel' (u32 (index - 1)) saved (removelast chunks) (free_ ++ [p])
    end
  else Ok (index, chunks, free_).
(** [while(d_freeChunks.size() > maxFreeChunks)] *)
Fixpoint free_excess (fuel : nat) (free_ live : list Z) : M (list Z * list Z) :=
  if (maxFreeChunks <? length free_)%nat then
    match fuel, free_ with
    | S fuel', p :: free' => live ← remove_chunk p live; free_excess fuel' free' live
    | _, _ => Throw OutOfFuel
    end
  else Ok (free_, live).

Definition pop (m : ContextMemoryManager) : M ContextMemoryManager :=
  match d_nextFreeStack m, d_endChunkStack m with
  | nextFree :: nextFreeStack, endChunk :: endChunkStack =>
      match d_indexChunkListStack m with
      | saved :: indexStack =>
          '(index, chunks, free_) ← release_chunks (length (d_chunkList m)) (d_indexChunkList m) saved (d_chunkList m) (d_freeChunks m);
          '(free_, live) ← free_excess (length free_) free_ (d_live m);
          Ok (MkCMM chunks free_ nextFree endChunk index nextFreeStack endChunkStack indexStack live)
      | [] => Throw OutOfBounds
      end
  | _, _ => Throw AssertionFailed
  end.

(** The destructor: the chunks still in use afterwards. *)
Definition free_all (chunks live : list Z) : M (list Z) := foldr (fun p acc => live ← acc; remove_chunk p live) (Ok live) chunks.
Definition delete_ContextMemoryManager (m : ContextMemoryManager) : M (list Z) :=
  live ← free_all (d_chunkList m) (d_live m);
  free_all (d_freeChunks m) live.

(** ** The allocator over it

    [ContextMemoryAllocator<T>]; [sizeofT] is [sizeof(T)]. *)
Definition getMaxAllocationSize : Z := chunkSizeBytes.
Definition max_size (sizeofT : Z) : Z := getMaxAllocationSize / sizeofT.
Definition allocate (sizeofT n : Z) (m : ContextMemoryManager) : M (Z * ContextMemoryManager) :=
  newData (u64 (n * sizeofT)) m.
End operations.
