(* ===== verification/ContextMMCorrect.v ===== *)
(** * Correctness of the region-based memory manager

    A client owns a stack of regions, each the blocks [(address, size)] that [newData]
    returned in it.  [cmm_inv] relates the manager to the regions; every operation preserves
    it, and it gives what clients rely on: no two blocks in use overlap, every block lies in
    a chunk that is in use, chunks are neither leaked nor freed twice. *)

From S2P Require Import Prelude Integer ContextMM.
Local Open Scope Z_scope.

Create HintDb cmm.

(** ** Blocks and cursors *)
Definition block : Type := Z * Z.
Definition disjoint_blocks (x y : block) : Prop := x.1 + x.2 <= y.1 \/ y.1 + y.2 <= x.1.
Definition in_chunk (c : Z) (x : block) : Prop := c <= x.1 /\ 0 <= x.2 /\ x.1 + x.2 <= c + chunkSizeBytes.

(** The block lies before the position [p] in chunk [j]. *)
Definition below (CL : list Z) (j : nat) (p : Z) (x : block) : Prop :=
  exists i c, CL !! i = Some c /\ in_chunk c x /\ ((i < j)%nat \/ i = j /\ x.1 + x.2 <= p).
Definition le_pos (j : nat) (p : Z) (j' : nat) (p' : Z) : Prop := (j < j')%nat \/ j = j' /\ p <= p'.

(** The regions against the stacks of saved cursors. *)
Inductive levels (CL : list Z) : nat -> Z -> list Z -> list Z -> list Z -> list (list block) -> Prop :=
  | levels_bottom j p cur : Forall (below CL j p) cur -> levels CL j p [] [] [] [cur]
  | levels_saved j p j' p' c' cur ps es ixs rs :
      Forall (below CL j p) cur -> CL !! j' = Some c' -> c' <= p' <= c' + chunkSizeBytes ->
      le_pos j' p' j p -> levels CL j' p' ps es ixs rs ->
      levels CL j p (p' :: ps) (c' + chunkSizeBytes :: es) (Z.of_nat j' :: ixs) (cur :: rs).

Definition chunks_ok (live : list Z) : Prop :=
  NoDup live /\ Forall (fun p => 0 < p /\ p + chunkSizeBytes < 2 ^ 63) live /\
  forall p q, p ∈ live -> q ∈ live -> p <> q -> apart p q.

(** [other]: the chunks that belong to somebody else. *)
Record cmm_inv (other : list Z) (m : ContextMemoryManager) (rs : list (list block)) : Prop := {
  inv_cur : exists j c, length (d_chunkList m) = S j /\ d_chunkList m !! j = Some c /\
      d_indexChunkList m = Z.of_nat j /\ Z.of_nat j < 2 ^ 32 /\
      d_endChunk m = c + chunkSizeBytes /\ c <= d_nextFree m <= c + chunkSizeBytes /\
      levels (d_chunkList m) j (d_nextFree m) (d_nextFreeStack m) (d_endChunkStack m) (d_indexChunkListStack m) rs;
  inv_live : d_live m ≡ₚ d_chunkList m ++ d_freeChunks m ++ other;
  inv_chunks : chunks_ok (d_live m);
  inv_free : (length (d_freeChunks m) <= maxFreeChunks)%nat;
  inv_disjoint : ForallOrdPairs disjoint_blocks (concat rs) }.

(** ** Positions *)
Lemma le_pos_refl j p : le_pos j p j p.
Proof. right. lia. Qed.
Lemma le_pos_trans j p j' p' j'' p'' : le_pos j p j' p' -> le_pos j' p' j'' p'' -> le_pos j p j'' p''.
Proof. unfold le_pos. lia. Qed.
#[export] Hint Resolve le_pos_refl le_pos_trans : cmm.

Lemma below_mono CL CL' j p j' p' x :
  (forall i c, (i <= j)%nat -> CL !! i = Some c -> CL' !! i = Some c) -> le_pos j p j' p' ->
  below CL j p x -> below CL' j' p' x.
Proof.
  intros HC Hp (i & c & Hi & Hc & Hb). exists i, c. split; [apply HC; [lia | done] |]. split; [done |].
  unfold le_pos in Hp. lia.
Qed.

Lemma levels_mono CL CL' j p j' p' ps es ixs rs :
  levels CL j p ps es ixs rs ->
  (forall i c, (i <= j)%nat -> CL !! i = Some c -> CL' !! i = Some c) -> le_pos j p j' p' ->
  levels CL' j' p' ps es ixs rs.
Proof.
  intros HL. revert j' p'. induction HL as [j p cur Hc | j p j1 p1 c1 cur ps es ixs rs Hc H1 Hp1 Hle HL IH]; intros j' p' HC Hp.
  - constructor. eapply Forall_impl; [exact Hc |]. intros x. by apply below_mono.
  - econstructor; [| | done | by eapply le_pos_trans |].
    + eapply Forall_impl; [exact Hc |]. intros x. by apply below_mono.
    + apply HC; [unfold le_pos in Hle; lia | done].
    + apply IH; [| apply le_pos_refl]. intros i c Hi. apply HC. unfold le_pos in Hle. lia.
Qed.

Lemma levels_below CL j p ps es ixs rs : levels CL j p ps es ixs rs -> Forall (below CL j p) (concat rs).
Proof.
  induction 1 as [j p cur Hc | j p j1 p1 c1 cur ps es ixs rs Hc H1 Hp1 Hle HL IH]; cbn [concat].
  - by rewrite app_nil_r.
  - apply Forall_app. split; [done |]. eapply Forall_impl; [exact IH |]. intros x. by apply below_mono.
Qed.

Lemma ForallOrdPairs_app_r {X} (R : X -> X -> Prop) l k : ForallOrdPairs R (l ++ k) -> ForallOrdPairs R k.
Proof. induction l as [|x l IH]; cbn; [done |]. intros H. inversion H; auto. Qed.

(** ** Chunks *)
Lemma chunks_ok_perm l k : l ≡ₚ k -> chunks_ok l -> chunks_ok k.
Proof.
  intros HP (Hn & Hv & Ha). repeat split.
  - by rewrite <- HP.
  - by rewrite <- HP.
  - intros p q Hp Hq. apply Ha; by rewrite HP.
Qed.
Lemma chunks_ok_cons p l :
  0 < p -> p + chunkSizeBytes < 2 ^ 63 -> Forall (apart p) l -> chunks_ok l -> chunks_ok (p :: l).
Proof.
  intros Hp Hp' Ha (Hn & Hv & Hl). rewrite Forall_forall in Ha. repeat split.
  - constructor; [| done]. intros Hin. specialize (Ha p Hin). unfold apart, chunkSizeBytes in Ha. lia.
  - by constructor.
  - intros q r Hq Hr Hne. apply elem_of_cons in Hq as [-> | Hq]; apply elem_of_cons in Hr as [-> | Hr]; auto; [done |].
    specialize (Ha q Hq). unfold apart in *. lia.
Qed.
Lemma chunks_ok_tail p l : chunks_ok (p :: l) -> chunks_ok l.
Proof.
  intros (Hn & Hv & Ha). apply NoDup_cons in Hn as [_ Hn]. apply Forall_cons in Hv as [_ Hv].
  repeat split; [done | done |]. intros q r Hq Hr. apply Ha; by right.
Qed.
Lemma chunks_ok_valid p l : chunks_ok l -> p ∈ l -> 0 < p /\ p + chunkSizeBytes < 2 ^ 63.
Proof. intros (_ & Hv & _) Hp. rewrite Forall_forall in Hv. by apply Hv. Qed.

Lemma remove_chunk_perm p l k : l ≡ₚ p :: k -> exists l', remove_chunk p l = Ok l' /\ l' ≡ₚ k.
Proof.
  revert k. induction l as [|q l IH]; intros k HP.
  - by apply Permutation_nil_cons in HP.
  - cbn. destruct (Z.eqb_spec p q) as [-> | Hne].
    + exists l. split; [done |]. by apply Permutation_cons_inv in HP.
    + assert (p ∈ q :: l) as Hp by (rewrite HP; left). apply elem_of_cons in Hp as [? | Hp]; [done |].
      apply elem_of_Permutation in Hp as [k' Hk']. destruct (IH k' Hk') as (l' & -> & Hl').
      exists (q :: l'). split; [done |]. rewrite Hl'. rewrite Hk' in HP.
      rewrite Permutation_swap in HP. by apply Permutation_cons_inv in HP.
Qed.

Lemma free_all_perm chunks live rest : live ≡ₚ chunks ++ rest ->
  exists live', free_all chunks live = Ok live' /\ live' ≡ₚ rest.
Proof.
  revert rest. induction chunks as [|p chunks IH]; intros rest HP; cbn.
  - exists live. done.
  - destruct (IH (p :: rest)) as (l1 & H1 & HP1); [by rewrite HP, <- Permutation_middle |].
    unfold free_all in H1. rewrite H1. cbn. by apply remove_chunk_perm.
Qed.

(** ** The operations *)
Section operations_ok.
Context {A : Malloc} {HA : MallocSpec A} (other : list Z).

Lemma ptr_add_small p n : 0 <= p + n < 2 ^ 64 -> ptr_add p n = p + n.
Proof. apply Z.mod_small. Qed.

Lemma chunkSizeBytes_pos : 0 < chunkSizeBytes.
Proof. reflexivity. Qed.

Lemma cmm_new_ok : chunks_ok other ->
  match new_ContextMemoryManager other with
  | Ok m => cmm_inv other m [[]]
  | Throw e => e = BadAlloc /\ malloc other = None
  end.
Proof.
  intros Ho. unfold new_ContextMemoryManager. destruct (malloc other) as [p|] eqn:Hm; [| done].
  destruct (malloc_spec _ _ Hm) as (H0 & Hp & Ha). assert (Hc := chunkSizeBytes_pos).
  split; cbn.
  - exists 0%nat, p. rewrite ptr_add_small by lia. repeat split; try lia. by constructor.
  - done.
  - by apply chunks_ok_cons.
  - lia.
  - constructor.
Qed.

(** The chunk [newChunk] takes, from the free list or from [malloc]. *)
Lemma newChunk_ok m rs nf :
  cmm_inv other m rs -> Z.of_nat (length (d_chunkList m)) < 2 ^ 32 ->
  match newChunk (set_nextFree nf m) with
  | Ok m' => cmm_inv other m' rs /\ d_endChunk m' = d_nextFree m' + chunkSizeBytes
  | Throw e => e = BadAlloc /\ d_freeChunks m = [] /\ malloc (d_live m) = None
  end.
Proof.
  intros [(j & c & Hl & Hj & Hix & Hj32 & He & Hn & HL) Hlive Hck Hfree Hdis] Hlen.
  unfold newChunk. cbn [set_nextFree d_indexChunkList d_chunkList d_freeChunks d_live d_nextFreeStack d_endChunkStack d_indexChunkListStack].
  rewrite Hix, u32_small, Hl by lia. replace (Z.of_nat j + 1) with (Z.of_nat (S j)) by lia.
  rewrite Z.eqb_refl. cbn [check]. rewrite M_bind_Ok.
  assert (Hpos := chunkSizeBytes_pos).
  assert (Hgoal : forall p fc live, live ≡ₚ (d_chunkList m ++ [p]) ++ fc ++ other -> chunks_ok live ->
    (length fc <= maxFreeChunks)%nat ->
    cmm_inv other (MkCMM (d_chunkList m ++ [p]) fc p (ptr_add p chunkSizeBytes) (Z.of_nat (S j))
      (d_nextFreeStack m) (d_endChunkStack m) (d_indexChunkListStack m) live) rs /\ ptr_add p chunkSizeBytes = p + chunkSizeBytes).
  { intros p fc live HP Hok Hfc. assert (Hp : p ∈ live) by (rewrite HP; set_solver).
    destruct (chunks_ok_valid p live Hok Hp) as [Hp0 Hp1]. rewrite ptr_add_small by lia.
    split; [| done]. split; cbn; try done.
    exists (S j), p. rewrite length_app, Hl. cbn. repeat split; try lia.
    - apply lookup_app_Some. right. rewrite Hl. split; [lia |]. by replace (S j - S j)%nat with 0%nat by lia.
    - eapply levels_mono; [exact HL | | left; lia]. intros i x _. apply lookup_app_l_Some. }
  destruct (d_freeChunks m) as [|f fs] eqn:Hf.
  - destruct (malloc (d_live m)) as [p|] eqn:Hm; [| done]. rewrite M_bind_Ok.
    destruct (malloc_spec _ _ Hm) as (H0 & Hp & Ha). apply (Hgoal p [] (p :: d_live m)).
    + rewrite Hlive. cbn. rewrite <- app_assoc. cbn. by rewrite Permutation_middle.
    + by apply chunks_ok_cons.
    + cbn; lia.
  - unfold back. destruct (last (f :: fs)) as [p|] eqn:Hlast; [| by apply last_None in Hlast].
    cbn [mbind M_bind]. assert (Hsplit : f :: fs = removelast (f :: fs) ++ [p]).
    { apply last_Some in Hlast as [l Hl']. rewrite Hl', removelast_last. done. }
    apply (Hgoal p _ (d_live m)); [| done |].
    + rewrite Hlive, Hsplit, removelast_last, <- !app_assoc. cbn. apply Permutation_app_head.
      rewrite <- Permutation_middle. done.
    + rewrite Hsplit, length_app in Hfree. cbn [length] in Hfree. lia.
Qed.

(** A block handed out at the cursor. *)
Lemma alloc_inv m rs cur size :
  cmm_inv other m (cur :: rs) -> 0 <= size -> d_nextFree m + size <= d_endChunk m ->
  cmm_inv other (set_nextFree (ptr_add (d_nextFree m) size) m) (((d_nextFree m, size) :: cur) :: rs).
Proof.
  intros [(j & c & Hl & Hj & Hix & Hj32 & He & Hn & HL) Hlive Hck Hfree Hdis] Hs Hfit.
  assert (Hc : c ∈ d_live m). { rewrite Hlive. apply elem_of_app. left. by eapply list_elem_of_lookup_2. }
  destruct (chunks_ok_valid c _ Hck Hc) as [Hc0 Hc1]. rewrite ptr_add_small by lia.
  set (p := d_nextFree m) in *.
  assert (HL' : levels (d_chunkList m) j (p + size) (d_nextFreeStack m) (d_endChunkStack m) (d_indexChunkListStack m) (((p, size) :: cur) :: rs)).
  { assert (Hb : below (d_chunkList m) j (p + size) (p, size)).
    { exists j, c. split; [done |]. split; [unfold in_chunk; cbn; lia | right; cbn; lia]. }
    assert (Hle : le_pos j p j (p + size)) by (right; lia).
    assert (HL1 := levels_mono _ (d_chunkList m) _ _ _ _ _ _ _ _ HL (fun _ _ _ H => H) Hle).
    inversion HL1; subst; econstructor; eauto. }
  split; cbn; try done; [by exists j, c; repeat split; try lia |].
  constructor; [| exact Hdis].
  apply levels_below in HL. eapply Forall_impl; [exact HL |]. intros x (i & ci & Hi & (Hx1 & Hx2 & Hx3) & Hpos).
  unfold disjoint_blocks; cbn. destruct Hpos as [Hlt | [-> Hle]]; [| lia].
  assert (Hci : ci ∈ d_live m). { rewrite Hlive. apply elem_of_app. left. by eapply list_elem_of_lookup_2. }
  destruct (decide (ci = c)) as [-> |Hne].
  - destruct Hck as (Hnd & _). rewrite Hlive in Hnd. apply NoDup_app in Hnd as (Hnd & _).
    assert (i = j) by by eapply NoDup_lookup. lia.
  - destruct Hck as (_ & _ & Hap). specialize (Hap _ _ Hci Hc Hne). unfold apart in Hap. lia.
Qed.

(** The cursor lies in a chunk in use. *)
Lemma cursor_room m rs : cmm_inv other m rs ->
  0 < d_nextFree m /\ d_nextFree m <= d_endChunk m /\ d_endChunk m < 2 ^ 63.
Proof.
  intros [(j & c & Hl & Hj & Hix & Hj32 & He & Hn & HL) Hlive Hck _ _].
  assert (Hc : c ∈ d_live m). { rewrite Hlive. apply elem_of_app. left. by eapply list_elem_of_lookup_2. }
  destruct (chunks_ok_valid c _ Hck Hc). lia.
Qed.

Lemma newData_ok m rs cur size :
  cmm_inv other m (cur :: rs) -> 0 <= size <= chunkSizeBytes -> Z.of_nat (length (d_chunkList m)) < 2 ^ 32 ->
  match newData size m with
  | Ok (res, m') => cmm_inv other m' (((res, size) :: cur) :: rs)
  | Throw e => e = BadAlloc /\ d_freeChunks m = [] /\ malloc (d_live m) = None
  end.
Proof.
  intros HI Hs Hlen. pose proof (cursor_room m _ HI) as (Hn0 & Hn1 & Hn2).
  unfold newData. cbn [set_nextFree d_endChunk d_nextFree].
  rewrite ptr_add_small by (unfold chunkSizeBytes in *; lia).
  destruct (Z.ltb_spec (d_endChunk m) (d_nextFree m + size)) as [Hlt | Hge].
  - pose proof (newChunk_ok m (cur :: rs) (d_nextFree m + size) HI Hlen) as HN.
    unfold set_nextFree at 1 in HN.
    destruct (newChunk _) as [m1 | e]; cbn [mbind M_bind]; [| done].
    destruct HN as [HI1 He1]. pose proof (cursor_room m1 _ HI1) as (Hm0 & Hm1 & Hm2).
    rewrite ptr_add_small by (unfold chunkSizeBytes in *; lia). 
    rewrite (proj2 (Z.leb_le _ _)) by lia. cbn [check].
    rewrite M_bind_Ok. rewrite <- ptr_add_small by (unfold chunkSizeBytes in *; lia). apply alloc_inv; [done | lia | lia].
  - rewrite <- ptr_add_small by (unfold chunkSizeBytes in *; lia). apply alloc_inv; [done | lia | lia].
Qed.

Lemma cmm_push_ok m rs : cmm_inv other m rs -> cmm_inv other (push m) ([] :: rs).
Proof.
  intros [(j & c & Hl & Hj & Hix & Hj32 & He & Hn & HL) Hlive Hck Hfree Hdis]. split; try done.
  exists j, c. cbn. repeat split; try done; try lia. rewrite He, Hix.
  econstructor; [constructor | done | done | apply le_pos_refl | done].
Qed.

(** The two loops of [pop]. *)
Lemma release_chunks_ok fuel : forall i j chunks fc,
  length chunks = S i -> (j <= i)%nat -> (i - j <= fuel)%nat -> Z.of_nat i < 2 ^ 32 ->
  release_chunks fuel (Z.of_nat i) (Z.of_nat j) chunks fc =
    Ok (Z.of_nat j, take (S j) chunks, fc ++ reverse (drop (S j) chunks)).
Proof.
  induction fuel as [|fuel IH]; intros i j chunks fc Hl Hj Hf Hi; cbn [release_chunks].
  - rewrite (proj2 (Z.ltb_ge _ _)), take_ge, drop_ge by lia. replace i with j by lia. by rewrite reverse_nil, app_nil_r.
  - destruct (Z.ltb_spec (Z.of_nat j) (Z.of_nat i)) as [Hlt | Hge].
    + destruct chunks as [|x l _] using rev_ind; [done |]. rewrite length_app in Hl. cbn in Hl.
      unfold back. rewrite last_snoc. rewrite M_bind_Ok, removelast_last, u32_small by lia.
      replace (Z.of_nat i - 1) with (Z.of_nat (i - 1)) by lia. rewrite IH by lia.
      rewrite take_app_le, drop_app_le by lia. rewrite reverse_snoc, <- app_assoc. done.
    + rewrite take_ge, drop_ge by lia. replace i with j by lia. by rewrite reverse_nil, app_nil_r.
Qed.

Lemma free_excess_ok fuel : forall fc live rest,
  (length fc <= fuel)%nat -> live ≡ₚ fc ++ rest -> chunks_ok live ->
  exists fc' live', free_excess fuel fc live = Ok (fc', live') /\ (length fc' <= maxFreeChunks)%nat /\
    live' ≡ₚ fc' ++ rest /\ chunks_ok live' /\ fc' = drop (length fc - maxFreeChunks) fc.
Proof.
  induction fuel as [|fuel IH]; intros fc live rest Hf HP Hok; cbn [free_excess].
  - rewrite (proj2 (Nat.ltb_ge _ _)) by lia. exists fc, live. repeat split; try done; try apply Hok; [lia |].
    by replace (length fc - maxFreeChunks)%nat with 0%nat by lia.
  - destruct (Nat.ltb_spec maxFreeChunks (length fc)) as [Hlt | Hge].
    + destruct fc as [|p fc]; [cbn in Hlt; lia |]. cbn [app] in HP.
      destruct (remove_chunk_perm p live _ HP) as (l1 & -> & HP1). rewrite M_bind_Ok.
      destruct (IH fc l1 rest) as (fc' & live' & -> & H1 & H2 & H3 & H4); [cbn in Hf; lia | done | |].
      * apply (chunks_ok_perm (fc ++ rest)); [by symmetry |]. by apply (chunks_ok_tail p), (chunks_ok_perm live).
      * exists fc', live'. cbn [length] in *. repeat split; try done; try apply H3.
        by replace (S (length fc) - maxFreeChunks)%nat with (S (length fc - maxFreeChunks)) by lia.
    + exists fc, live. repeat split; try done; try apply Hok.
      by replace (length fc - maxFreeChunks)%nat with 0%nat by lia.
Qed.

(** [pop] releases exactly the chunks taken since the matching [push]. *)
Lemma pop_spec m cur rs ps es ixs p e i :
  cmm_inv other m (cur :: rs) ->
  d_nextFreeStack m = p :: ps -> d_endChunkStack m = e :: es -> d_indexChunkListStack m = i :: ixs ->
  exists j m', i = Z.of_nat j /\ (j < length (d_chunkList m))%nat /\ pop m = Ok m' /\ cmm_inv other m' rs /\
    d_chunkList m' = take (S j) (d_chunkList m) /\ d_nextFree m' = p /\ d_endChunk m' = e /\ d_indexChunkList m' = i /\
    d_nextFreeStack m' = ps /\ d_endChunkStack m' = es /\ d_indexChunkListStack m' = ixs.
Proof.
  intros [(j & c & Hl & Hj & Hix & Hj32 & He & Hn & HL) Hlive Hck Hfree Hdis] Hps Hes His.
  rewrite Hps, Hes, His in HL.
  inversion HL as [|? ? j' ? c' ? ? ? ? ? Hcur Hj' Hp' Hle HL']; subst. exists j'.
  assert (j' <= j)%nat by (unfold le_pos in Hle; lia).
  unfold pop. rewrite Hps, Hes, His, Hix, (release_chunks_ok _ j) by lia. rewrite M_bind_Ok.
  set (CL := d_chunkList m) in *.
  destruct (free_excess_ok (length (d_freeChunks m ++ reverse (drop (S j') CL))) (d_freeChunks m ++ reverse (drop (S j') CL))
    (d_live m) (take (S j') CL ++ other)) as (fc & live & -> & Hfc & HP & Hok & _); [done | | done |].
  { rewrite Hlive. rewrite <- (take_drop (S j') CL) at 1. rewrite (Permutation_app_comm (take _ _ ) (drop _ _)).
    rewrite (reverse_Permutation (drop _ _)), (Permutation_app_comm (d_freeChunks m) (drop _ _)), <- !app_assoc.
    apply Permutation_app_head. rewrite !app_assoc. apply Permutation_app_tail, Permutation_app_comm. }
  rewrite M_bind_Ok. eexists. repeat (split; [first [done | lia] |]). split; [| done].
  assert (Hj1 : take (S j') CL !! j' = Some c') by (rewrite lookup_take_lt; [done | lia]).
  split; cbn; try done.
  - exists j', c'. rewrite length_take, Hl. repeat split; try done; try lia.
    eapply levels_mono; [exact HL' | | apply le_pos_refl]. intros i x Hi Hx. rewrite lookup_take_lt; [done | lia].
  - rewrite HP. rewrite !app_assoc. apply Permutation_app_tail, Permutation_app_comm.
  - by apply ForallOrdPairs_app_r in Hdis.
Qed.

Lemma levels_stacks CL j p ps es ixs rs : levels CL j p ps es ixs rs ->
  length rs = S (length ps) /\ length es = length ps /\ length ixs = length ps.
Proof. induction 1; cbn; lia. Qed.

(** With a saved region [pop] returns, without one it fails its assertion. *)
Lemma cmm_pop_ok m cur r rs : cmm_inv other m (cur :: r :: rs) -> exists m', pop m = Ok m' /\ cmm_inv other m' (r :: rs).
Proof.
  intros HI. pose proof HI as [(j & c & _ & _ & _ & _ & _ & _ & HL) _ _ _ _]. inversion HL; subst.
  edestruct pop_spec as (j1 & m' & _ & _ & Hp & HI' & _); eauto.
Qed.
Lemma pop_bottom m cur : cmm_inv other m [cur] -> pop m = Throw AssertionFailed.
Proof.
  intros [(j & c & _ & _ & _ & _ & _ & _ & HL) _ _ _ _]. apply levels_stacks in HL as (Hl & _).
  unfold pop. by destruct (d_nextFreeStack m).
Qed.

Lemma delete_ok m rs : cmm_inv other m rs -> exists live, delete_ContextMemoryManager m = Ok live /\ live ≡ₚ other.
Proof.
  intros [_ Hlive _ _ _]. unfold delete_ContextMemoryManager.
  destruct (free_all_perm _ _ _ Hlive) as (l1 & -> & H1). rewrite M_bind_Ok. by apply free_all_perm.
Qed.

(** ** Sessions *)
Inductive step : ContextMemoryManager * list (list block) -> ContextMemoryManager * list (list block) -> Prop :=
  | step_newData m m' cur rs size res :
      0 <= size <= getMaxAllocationSize -> Z.of_nat (length (d_chunkList m)) < 2 ^ 32 ->
      newData size m = Ok (res, m') -> step (m, cur :: rs) (m', ((res, size) :: cur) :: rs)
  | step_push m rs : step (m, rs) (push m, [] :: rs)
  | step_pop m m' cur rs : pop m = Ok m' -> step (m, cur :: rs) (m', rs).
Definition reachable (m : ContextMemoryManager) (rs : list (list block)) : Prop :=
  exists m0, new_ContextMemoryManager other = Ok m0 /\ rtc step (m0, [[]]) (m, rs).

Lemma cmm_step_inv m rs m' rs' : step (m, rs) (m', rs') -> cmm_inv other m rs -> cmm_inv other m' rs'.
Proof.
  intros Hs HI. inversion Hs as [? ? ? ? ? ? Hsz Hlen Hnew | | ? ? cur ? Hpop]; subst.
  - pose proof (newData_ok _ _ _ _ HI Hsz Hlen) as H. by rewrite Hnew in H.
  - by apply cmm_push_ok.
  - destruct rs' as [|r rs'].
    + rewrite (pop_bottom _ _ HI) in Hpop. done.
    + destruct (cmm_pop_ok _ _ _ _ HI) as (m1 & Hp & HI'). congruence.
Qed.

Lemma reachable_inv m rs : chunks_ok other -> reachable m rs -> cmm_inv other m rs.
Proof.
  intros Ho (m0 & H0 & Hr). pose proof (cmm_new_ok Ho) as HI. rewrite H0 in HI.
  remember (m0, [[]]) as s0 eqn:Hs. remember (m, rs) as s eqn:Hs1.
  assert (HI0 : cmm_inv other s0.1 s0.2) by by subst. clear Hs HI.
  assert (cmm_inv other s.1 s.2); [| by subst]. clear Hs1.
  induction Hr as [|[m1 rs1] [m2 rs2] s3 Hs Hr IH]; [done |]. apply IH. by eapply cmm_step_inv.
Qed.

(** ** Scopes

    [balanced m m']: from [m] to [m'] by allocations and by scopes that are opened and
    closed again. *)
Inductive balanced : ContextMemoryManager -> ContextMemoryManager -> Prop :=
  | balanced_nil m : balanced m m
  | balanced_newData m m1 m2 size res :
      balanced m m1 -> 0 <= size <= getMaxAllocationSize -> Z.of_nat (length (d_chunkList m1)) < 2 ^ 32 ->
      newData size m1 = Ok (res, m2) -> balanced m m2
  | balanced_scope m m1 m2 m3 :
      balanced m m1 -> balanced (push m1) m2 -> pop m2 = Ok m3 -> balanced m m3.

Definition same_stacks (m m' : ContextMemoryManager) : Prop :=
  d_nextFreeStack m' = d_nextFreeStack m /\ d_endChunkStack m' = d_endChunkStack m /\
  d_indexChunkListStack m' = d_indexChunkListStack m.

Lemma newData_frame size m res m' : newData size m = Ok (res, m') ->
  same_stacks m m' /\ exists extra, d_chunkList m' = d_chunkList m ++ extra.
Proof.
  unfold newData. cbn [set_nextFree d_endChunk d_nextFree]. destruct (Z.ltb _ _).
  - unfold newChunk. cbn [set_nextFree d_freeChunks]. intros H. mbind_inv.
    destruct a2 as [[p fc] live]. injection Ha as <-. subst. unfold same_stacks; cbn. split; [done |]. by eexists.
  - intros [= <- <-]. unfold same_stacks; cbn. split; [done |]. exists []. by rewrite app_nil_r.
Qed.

(** Closing a scope returns to the cursor at which it was opened. *)
Lemma pop_restores m rs m2 cur2 extra m3 :
  cmm_inv other m rs -> cmm_inv other m2 (cur2 :: rs) -> same_stacks (push m) m2 -> d_chunkList m2 = d_chunkList m ++ extra ->
  pop m2 = Ok m3 ->
  cmm_inv other m3 rs /\ same_stacks m m3 /\ d_chunkList m3 = d_chunkList m /\ d_nextFree m3 = d_nextFree m /\
  d_endChunk m3 = d_endChunk m /\ d_indexChunkList m3 = d_indexChunkList m.
Proof.
  intros HI HI2 (S1 & S2 & S3) HC Hpop. cbn in S1, S2, S3.
  destruct (pop_spec _ _ _ _ _ _ _ _ _ HI2 S1 S2 S3) as (j & m' & Hj & Hlt & Hp & HI' & HC' & ? & ? & ? & ? & ? & ?).
  assert (m' = m3) as -> by congruence. destruct (inv_cur _ _ _ HI) as (j1 & c & Hl & _ & Hix & _).
  assert (j1 = j) as -> by lia. split; [done |]. split; [by repeat split |].
  rewrite HC', HC, take_app_le, take_ge by lia. done.
Qed.

Lemma balanced_inv m m' : balanced m m' -> forall cur rs, cmm_inv other m (cur :: rs) ->
  same_stacks m m' /\ (exists extra, d_chunkList m' = d_chunkList m ++ extra) /\ exists new, cmm_inv other m' ((new ++ cur) :: rs).
Proof.
  induction 1 as [m | m m1 m2 size res Hb IH Hsz Hlen Hnew | m m1 m2 m3 Hb1 IH1 Hb2 IH2 Hp]; intros cur rs HI.
  - split; [done |]. split; [exists []; by rewrite app_nil_r | by exists []].
  - destruct (IH _ _ HI) as ((S1 & S2 & S3) & [ex Hex] & new & HI1).
    destruct (newData_frame _ _ _ _ Hnew) as ((T1 & T2 & T3) & [ex2 Hex2]).
    pose proof (newData_ok _ _ _ _ HI1 Hsz Hlen) as HN. rewrite Hnew in HN.
    split; [split; [congruence | split; congruence] |]. split; [| by exists ((res, size) :: new)].
    exists (ex ++ ex2). by rewrite Hex2, Hex, app_assoc.
  - destruct (IH1 _ _ HI) as ((S1 & S2 & S3) & [ex Hex] & new & HI1).
    destruct (IH2 _ _ (cmm_push_ok _ _ HI1)) as (T & [ex2 Hex2] & new2 & HI2).
    destruct (pop_restores _ _ _ _ ex2 _ HI1 HI2 T Hex2 Hp) as (HI3 & (U1 & U2 & U3) & HC & _).
    split; [split; [congruence | split; congruence] |]. split; [exists ex; congruence | by exists new].
Qed.
End operations_ok.

(** A concrete [malloc]: the chunk above all chunks in use. *)
Definition malloc_ref : Malloc := fun live =>
  let p := foldr Z.max 0 live + chunkSizeBytes in
  if p + chunkSizeBytes <? 2 ^ 63 then Some p else None.

Lemma malloc_ref_spec : MallocSpec malloc_ref.
Proof.
  intros live p Hm. unfold malloc, malloc_ref in Hm. case_match eqn:Hlt; [| done]. injection Hm as <-.
  assert (Hc := chunkSizeBytes_pos).
  assert (Hmax : 0 <= foldr Z.max 0 live /\ Forall (fun q => q <= foldr Z.max 0 live) live).
  { clear Hlt. induction live as [|q live [H0 H1]]; [done |]. cbn. split; [lia |].
    constructor; [lia |]. eapply Forall_impl; [exact H1 |]. cbn. lia. }
  destruct Hmax as [H0 H1]. split; [lia |]. split; [lia |].
  eapply Forall_impl; [exact H1 |]. intros q Hq. right. cbn in Hq. lia.
Qed.

(** A session with it: a block, a scope, a block that needs a second chunk. *)
Definition sample_mm : ContextMemoryManager :=
  MkCMM [16384; 32768] [] 49148 49152 1 [16484] [32768] [0] [32768; 16384].
Definition sample_regions : list (list block) := [[(32768, 16380)]; [(16384, 100)]].

Lemma sample_reachable : reachable (A := malloc_ref) [] sample_mm sample_regions.
Proof.
  eexists. split; [reflexivity |].
  eapply rtc_l; [eapply (step_newData _ _ [] [] 100); [split; discriminate | reflexivity | reflexivity] |].
  eapply rtc_l; [apply step_push |].
  eapply rtc_l; [eapply (step_newData _ _ [] _ 16380); [split; discriminate | reflexivity | reflexivity] |].
  apply rtc_refl.
Defined.

Lemma no_chunks_ok : chunks_ok [].
Proof. split; [constructor |]. split; [constructor |]. intros p q Hp. by apply not_elem_of_nil in Hp. Qed.

(** C17. Memory safety of the context memory manager: in every state that a sequence of [newData], [push] and
    [pop] leads to, with requests of at most [getMaxAllocationSize] bytes and fewer than 2^32 chunks
    ([step]; [cmm_refusals] is about larger requests), no two blocks of the regions in use overlap, and every such block lies
    inside one chunk that is in use, belongs to the manager and is not on the free list. *)
Theorem cmm_blocks_safe {A : Malloc} {HA : MallocSpec A} (other : list Z) (m : ContextMemoryManager) (rs : list (list block)) :
  chunks_ok other -> reachable other m rs ->
  ForallOrdPairs disjoint_blocks (concat rs) /\
  Forall (fun x => exists c, c ∈ d_chunkList m /\ c ∈ d_live m /\ c ∉ d_freeChunks m /\ c ∉ other /\ in_chunk c x) (concat rs).
Proof.
  intros Ho HR. apply reachable_inv in HR; [| done]. split; [apply HR |].
  destruct HR as [(j & c & _ & _ & _ & _ & _ & _ & HL) Hlive (Hnd & _) _ _].
  apply levels_below in HL. eapply Forall_impl; [exact HL |]. intros x (i & c' & Hi & Hx & _).
  assert (Hc : c' ∈ d_chunkList m) by by eapply list_elem_of_lookup_2.
  rewrite Hlive in Hnd. apply NoDup_app in Hnd as (_ & Hnd & _). specialize (Hnd c' Hc).
  exists c'. rewrite Hlive. set_solver.
Qed.

Lemma cmm_blocks_safe_witness :
  disjoint_blocks (32768, 16380) (16384, 100) /\
  exists c, c ∈ d_chunkList sample_mm /\ in_chunk c (16384, 100).
Proof.
  destruct (cmm_blocks_safe (HA := malloc_ref_spec) [] sample_mm sample_regions no_chunks_ok sample_reachable) as [H1 H2].
  split.
  - inversion H1 as [|x l Hx Hl]; subst. by inversion Hx.
  - inversion H2 as [|x l Hx Hl]; subst. inversion Hl as [|y l' (c & Hc & _ & _ & _ & Hy) _]; subst. by exists c.
Defined.

(** C34. Bounds of the manager's state, in every state reached with requests of at most [getMaxAllocationSize] bytes and fewer
    than 2^32 chunks ([step]; [cmm_refusals] is about larger requests): the free list never holds more than [maxFreeChunks] chunks,
    the chunks in use are exactly those of the chunk list, of the free list and of others, each
    once (no leak, no double use), the index is that of the last chunk and the cursor stays
    within that chunk. *)
Theorem cmm_bounds {A : Malloc} {HA : MallocSpec A} (other : list Z) (m : ContextMemoryManager) (rs : list (list block)) :
  chunks_ok other -> reachable other m rs ->
  (length (d_freeChunks m) <= maxFreeChunks)%nat /\
  d_live m ≡ₚ d_chunkList m ++ d_freeChunks m ++ other /\ NoDup (d_live m) /\
  Z.of_nat (length (d_chunkList m)) = d_indexChunkList m + 1 /\ 0 <= d_indexChunkList m < 2 ^ 32 /\
  exists c, last (d_chunkList m) = Some c /\ c <= d_nextFree m <= d_endChunk m /\ d_endChunk m = c + chunkSizeBytes.
Proof.
  intros Ho HR. apply reachable_inv in HR; [| done].
  destruct HR as [(j & c & Hl & Hj & Hix & Hj32 & He & Hn & HL) Hlive (Hnd & _) Hfree _].
  repeat (split; [first [done | lia] |]). exists c. rewrite last_lookup, Hl. cbn. split; [done | lia].
Qed.

Lemma cmm_bounds_witness : (length (d_freeChunks sample_mm) <= 100)%nat /\ NoDup (d_live sample_mm).
Proof.
  destruct (cmm_bounds (HA := malloc_ref_spec) [] sample_mm sample_regions no_chunks_ok sample_reachable) as (H1 & _ & H3 & _).
  by split.
Defined.

(** C35. Progress of the manager: in every reachable state a request of at most [max_size] objects
    is granted as long as the chunk index fits in its 32 bits and a chunk is free or
    [malloc] has one; a scope that was pushed can be popped; and the destructor runs to the end
    and leaves in use just the chunks of others. *)
Theorem cmm_progress {A : Malloc} {HA : MallocSpec A} (other : list Z) (m : ContextMemoryManager) (cur : list block) (rs : list (list block)) :
  chunks_ok other -> reachable other m (cur :: rs) ->
  (forall sizeofT n, 0 < sizeofT -> 0 <= n <= max_size sizeofT -> Z.of_nat (length (d_chunkList m)) < 2 ^ 32 ->
     d_freeChunks m <> [] \/ malloc (d_live m) <> None ->
     exists res m', allocate sizeofT n m = Ok (res, m') /\ reachable other m' (((res, n * sizeofT) :: cur) :: rs)) /\
  (rs <> [] -> exists m', pop m = Ok m' /\ reachable other m' rs) /\
  (exists live, delete_ContextMemoryManager m = Ok live /\ live ≡ₚ other).
Proof.
  intros Ho HR. pose proof (reachable_inv other _ _ Ho HR) as HI. destruct HR as (m0 & H0 & Hr).
  split; [| split; [| by eapply delete_ok]].
  - intros s n Hs Hn Hlen Hmem.
    assert (Hsz : 0 <= n * s <= chunkSizeBytes).
    { pose proof (Z.mul_div_le chunkSizeBytes s Hs). unfold max_size, getMaxAllocationSize in Hn. nia. }
    unfold allocate, u64. rewrite Z.mod_small by (unfold chunkSizeBytes in *; lia).
    pose proof (newData_ok other _ _ _ _ HI Hsz Hlen) as HN.
    destruct (newData (n * s) m) as [[res m'] | e] eqn:Hnew; [| by destruct HN as (_ & ? & ?), Hmem].
    exists res, m'. split; [done |]. exists m0. split; [done |]. eapply rtc_r; [exact Hr |]. by constructor.
  - intros Hne. destruct rs as [|r rs]; [done |]. destruct (cmm_pop_ok other _ _ _ _ HI) as (m' & Hp & _).
    exists m'. split; [done |]. exists m0. split; [done |]. eapply rtc_r; [exact Hr |]. by constructor.
Qed.

Lemma cmm_progress_witness :
  (exists res m', allocate (A := malloc_ref) 8 2048 sample_mm = Ok (res, m')) /\ (exists m', pop sample_mm = Ok m').
Proof.
  destruct (cmm_progress (HA := malloc_ref_spec) [] sample_mm _ _ no_chunks_ok sample_reachable) as (H1 & H2 & _). split.
  - destruct (H1 8 2048) as (res & m' & H & _); [lia | split; [discriminate | vm_compute; discriminate] | reflexivity | right; discriminate |].
    by exists res, m'.
  - destruct H2 as (m' & H & _); [discriminate |]. by exists m'.
Defined.

(** C36. Scopes release exactly their memory: after a [push], any allocations and properly nested
    scopes, the matching [pop] restores the chunk list, the cursor, the chunk index and the
    stacks of the state before the [push]. *)
Theorem cmm_scope_restores {A : Malloc} {HA : MallocSpec A} (other : list Z) (m m2 m3 : ContextMemoryManager) (rs : list (list block)) :
  chunks_ok other -> reachable other m rs -> balanced (push m) m2 -> pop m2 = Ok m3 ->
  d_chunkList m3 = d_chunkList m /\ d_nextFree m3 = d_nextFree m /\ d_endChunk m3 = d_endChunk m /\
  d_indexChunkList m3 = d_indexChunkList m /\ same_stacks m m3.
Proof.
  intros Ho HR Hb Hp. pose proof (reachable_inv other _ _ Ho HR) as HI.
  destruct (balanced_inv other _ _ Hb _ _ (cmm_push_ok other _ _ HI)) as (HS & [ex Hex] & new & HI2).
  destruct (pop_restores other m rs m2 _ ex m3 HI HI2 HS Hex Hp) as (_ & HS' & ? & ? & ? & ?). done.
Qed.

(** Two blocks of 16000 bytes in a new scope need two more chunks. *)
Definition sample_scope : ContextMemoryManager :=
  MkCMM [16384; 32768; 49152; 65536] [] 81536 81920 3 [49148; 16484] [49152; 32768] [1; 0] [65536; 49152; 32768; 16384].
Definition sample_after : ContextMemoryManager :=
  MkCMM [16384; 32768] [65536; 49152] 49148 49152 1 [16484] [32768] [0] [65536; 49152; 32768; 16384].

Lemma cmm_scope_restores_witness : d_nextFree sample_after = 49148 /\ d_chunkList sample_after = [16384; 32768].
Proof.
  destruct (cmm_scope_restores (HA := malloc_ref_spec) [] sample_mm sample_scope sample_after sample_regions no_chunks_ok sample_reachable)
    as (H1 & H2 & _).
  - eapply (balanced_newData _ _ _ 16000); [eapply (balanced_newData _ _ _ 16000); [apply balanced_nil | | |] | | |];
      [split; discriminate | reflexivity | reflexivity | split; discriminate | reflexivity | reflexivity].
  - reflexivity.
  - by split.
Defined.

(** C37. Requests the manager refuses, and one it does not: more than a chunk and less than [2^63]
    bytes fails the assertion of [newData] (or [malloc] fails first), [pop] without a [push] fails
    its assertion; but a size close to [2^64] makes the pointer sum wrap around, the request is
    granted and the cursor moves backwards. *)
Theorem cmm_refusals {A : Malloc} {HA : MallocSpec A} (other : list Z) (m : ContextMemoryManager) (cur : list block) (rs : list (list block)) :
  chunks_ok other -> reachable other m (cur :: rs) -> Z.of_nat (length (d_chunkList m)) < 2 ^ 32 ->
  (forall size, chunkSizeBytes < size < 2 ^ 63 ->
     newData size m = Throw AssertionFailed \/ newData size m = Throw BadAlloc) /\
  (rs = [] -> pop m = Throw AssertionFailed) /\
  (forall k, 0 < k <= d_nextFree m ->
     newData (2 ^ 64 - k) m = Ok (d_nextFree m, set_nextFree (d_nextFree m - k) m)).
Proof.
  intros Ho HR Hlen. pose proof (reachable_inv other _ _ Ho HR) as HI.
  pose proof (cursor_room other m _ HI) as (Hn0 & Hn1 & Hn2). split; [| split].
  - intros size Hs. unfold newData. cbn [set_nextFree d_endChunk d_nextFree].
    destruct (inv_cur _ _ _ HI) as (j & c & _ & _ & _ & _ & He & Hn & _).
    rewrite ptr_add_small, (proj2 (Z.ltb_lt _ _)) by lia.
    pose proof (newChunk_ok other m _ (d_nextFree m + size) HI Hlen) as HN. unfold set_nextFree at 1 in HN.
    destruct (newChunk _) as [m1 | e]; cbn [mbind M_bind]; [left | right; by destruct HN as [-> _]].
    destruct HN as [HI1 He1]. pose proof (cursor_room other m1 _ HI1) as (Hm0 & Hm1 & Hm2).
    rewrite ptr_add_small, (proj2 (Z.leb_gt _ _)) by lia. done.
  - intros ->. by eapply pop_bottom.
  - intros k Hk. unfold newData. cbn [set_nextFree d_endChunk d_nextFree].
    assert (Hw : ptr_add (d_nextFree m) (2 ^ 64 - k) = d_nextFree m - k).
    { unfold ptr_add. replace (d_nextFree m + (2 ^ 64 - k)) with (d_nextFree m - k + 1 * 2 ^ 64) by lia.
      rewrite Z.mod_add by lia. apply Z.mod_small. lia. }
    rewrite Hw, (proj2 (Z.ltb_ge _ _)) by lia. done.
Qed.

Lemma cmm_refusals_witness :
  (newData (A := malloc_ref) 16385 sample_mm = Throw AssertionFailed \/ newData (A := malloc_ref) 16385 sample_mm = Throw BadAlloc) /\
  newData (A := malloc_ref) (2 ^ 64 - 8) sample_mm = Ok (49148, set_nextFree 49140 sample_mm).
Proof.
  destruct (cmm_refusals (HA := malloc_ref_spec) [] sample_mm _ _ no_chunks_ok sample_reachable eq_refl) as (H1 & _ & H3).
  split; [apply H1; split; reflexivity | apply (H3 8); split; [reflexivity | discriminate]].
Defined.
