(* ===== verification/CDO.v ===== *)
(** * [CDO<T>]: one context-dependent value

    Models [src/context/cdo.h]: [save] copies the data, [restore] copies it back.
    Also here: a context holds objects of several classes, so the disjoint union
    of two classes of objects is a class of objects. *)

From S2P Require Import Prelude Context ContextCorrect ContextSession.
Local Open Scope nat_scope.

Module CDO.
Section cdo.
Context {T : Type}.

(** [d_data], in a type of its own so that classes of objects are told apart. *)
Record CDO : Type := MkCDO { d_data : T }.

Definition save (this : CDO) : CDO * CDO := (MkCDO (d_data this), this).
Definition restore (saved this : CDO) : M CDO := Ok (MkCDO (d_data saved)).

#[export] Instance CDO_data : ContextData CDO := { cd_save := save; cd_restore := restore }.

#[export] Program Instance CDO_spec : ContextDataSpec CDO T T := {
  cd_rep d k := d_data d = k;
  cd_saved d k := d_data d = k;
  cd_mark k := k;
  cd_ev _ _ := True;
  cd_vis k := k
}.
Next Obligation. cbn. by intros [d] k <-. Qed.
Next Obligation. done. Qed.
Next Obligation. done. Qed.
Next Obligation. cbn. intros s d k k' <- _ _. by eexists. Qed.

Definition set_data_to (data : T) (this : CDO) : M CDO := Ok (MkCDO data).

(** The members, on the object at [x] of a context of [CDO]s. *)
Definition set (x : addr) (data : T) : SM (Context CDO) unit := mutate (set_data_to data) x.
Definition get (x : addr) : SM (Context CDO) T := d ← getData x; mret (d_data d).
(** [CDO(context, data)]; [T()] is a parameter. *)
Definition new (default : T) (data : T) : SM (Context CDO) addr :=
  x ← newContextObj false (MkCDO default);
  _ ← set x data;
  mret x.

Lemma set_ok data : op_ok (set_data_to data) (fun _ => True) (fun _ => data).
Proof. intros d k _ _. by exists (MkCDO data), data. Qed.

Lemma cdo_get_ok (c : Context CDO) Σ x v : Refines c Σ -> top Σ !! x = Some v -> get x c = Ok (v, c).
Proof.
  intros HR Hx. destruct (refines_observes c Σ x v HR Hx) as (d & k & E & Hd & Hv).
  unfold get, mbind, SM_bind. rewrite E. cbn in *. by subst.
Qed.

Lemma set_refines (c : Context CDO) Σ x v data : Refines c Σ -> top Σ !! x = Some v ->
  exists c', set x data c = Ok (tt, c') /\ Refines c' (set_top Σ x data).
Proof. intros HR Hx. apply (mutate_refines c Σ x v _ _ _ HR Hx (set_ok data)). done. Qed.

Lemma top_map_insert (Σ : list (gmap addr T)) x (v : T) : Σ <> [] -> top (map (<[x:=v]>) Σ) !! x = Some v.
Proof.
  intros Hne. unfold top. rewrite last_lookup, length_map.
  destruct (lookup_lt_is_Some_2 Σ (pred (length Σ))) as [S HS]; [destruct Σ; [done | cbn; lia] |].
  rewrite (lookup_map_Some _ _ _ S) by done. cbn. by rewrite lookup_insert_eq.
Qed.

Lemma new_data_refines (c : Context CDO) Σ default data : Refines c Σ ->
  exists x c', new default data c = Ok (x, c') /\ top Σ !! x = None /\
    Refines c' (set_top (map (<[x:=default]>) Σ) x data).
Proof.
  intros HR. destruct (new_refines c Σ (MkCDO default) default HR eq_refl) as (x & c1 & E1 & Hx & HR1).
  assert (Σ <> []) as Hne. { intros ->. destruct (refines_length c _ HR) as [Hl ?]. cbn in Hl. lia. }
  destruct (set_refines c1 _ x default data HR1) as (c2 & E2 & HR2); [by apply top_map_insert |].
  exists x, c2. split; [unfold new, mbind, SM_bind; by rewrite E1, E2 |]. done.
Qed.
End cdo.
Arguments CDO : clear implicits.
Arguments MkCDO {T}.
End CDO.

(** ** Contexts with objects of two classes *)
Module Either.
Section either.
Context {D1 D2 : Type} {CD1 : ContextData D1} {CD2 : ContextData D2}.
Context {K1 O1 K2 O2 : Type} {CS1 : ContextDataSpec D1 K1 O1} {CS2 : ContextDataSpec D2 K2 O2}.

(** The virtual call goes to the object's own class; the saved copy has the same class. *)
#[export] Instance either_data : ContextData (D1 + D2) := {
  cd_save d := match d with
    | inl d => let '(s, t) := cd_save d in (inl s, inl t)
    | inr d => let '(s, t) := cd_save d in (inr s, inr t)
    end;
  cd_restore s d := match s, d with
    | inl s, inl d => d' ← cd_restore s d; Ok (inl d')
    | inr s, inr d => d' ← cd_restore s d; Ok (inr d')
    | _, _ => Throw OutOfBounds
    end
}.

Definition both {A1 A2 B1 B2} (R1 : A1 -> B1 -> Prop) (R2 : A2 -> B2 -> Prop) (a : A1 + A2) (b : B1 + B2) : Prop :=
  match a, b with inl a, inl b => R1 a b | inr a, inr b => R2 a b | _, _ => False end.
Definition each {A1 A2 B1 B2} (f1 : A1 -> B1) (f2 : A2 -> B2) (a : A1 + A2) : B1 + B2 :=
  match a with inl a => inl (f1 a) | inr a => inr (f2 a) end.

#[export] Program Instance either_spec : ContextDataSpec (D1 + D2) (K1 + K2) (O1 + O2) := {
  cd_rep := both cd_rep cd_rep;
  cd_saved := both cd_saved cd_saved;
  cd_mark := each cd_mark cd_mark;
  cd_ev := both cd_ev cd_ev;
  cd_vis := each cd_vis cd_vis
}.
Next Obligation.
  intros [d|d] [k|k]; cbn; try done; intros H; destruct (save_rep d k H) as [Hs Hr]; by destruct (cd_save d).
Qed.
Next Obligation. intros [k|k]; apply ev_mark. Qed.
Next Obligation. intros [k|k]; cbn; by rewrite vis_mark. Qed.
Next Obligation.
  intros [s|s] [d|d] [k|k] [k'|k']; cbn; try done; intros Hs Hd He;
    destruct (restore_rep s d k k' Hs Hd He) as (d' & -> & Hd'); [by exists (inl d') | by exists (inr d')].
Qed.

Lemma left_ok f (pre : O1 -> Prop) g : op_ok f pre g ->
  op_ok (D := D1 + D2) (fun d => match d with inl d => d' ← f d; Ok (inl d') | inr _ => Throw OutOfBounds end)
    (fun o => match o with inl o => pre o | inr _ => False end)
    (fun o => match o with inl o => inl (g o) | inr o => inr o end).
Proof.
  intros Hop [d|d] [k|k]; cbn; try done. intros Hr Hp. destruct (Hop d k Hr Hp) as (d' & k' & -> & Hr' & Hv & He).
  exists (inl d'), (inl k'). cbn. split; [done |]. split; [done |]. split; [congruence |]. intros [k0|k0]; cbn; auto.
Qed.
Lemma right_ok f (pre : O2 -> Prop) g : op_ok f pre g ->
  op_ok (D := D1 + D2) (fun d => match d with inr d => d' ← f d; Ok (inr d') | inl _ => Throw OutOfBounds end)
    (fun o => match o with inr o => pre o | inl _ => False end)
    (fun o => match o with inr o => inr (g o) | inl o => inl o end).
Proof.
  intros Hop [d|d] [k|k]; cbn; try done. intros Hr Hp. destruct (Hop d k Hr Hp) as (d' & k' & -> & Hr' & Hv & He).
  exists (inr d'), (inr k'). cbn. split; [done |]. split; [done |]. split; [congruence |]. intros [k0|k0]; cbn; auto.
Qed.
End either.
End Either.

(** ** A session with two objects *)
Module CDOExample.
Import CDO.
Abbreviation obj := (CDO nat).
Definition zero : initial (D := obj) := MkInitial (D := obj) (MkCDO 0) 0 eq_refl.
Definition set_to (v : nat) : mutator (D := obj) :=
  MkMutator (D := obj) (set_data_to v) (fun _ => true) (fun _ => v) (fun d k Hr _ => set_ok v d k Hr I).
Definition setup : list (command (D := obj)) := [New zero; Mutate (set_to 3) 0; Push; Mutate (set_to 4) 0].
Definition scope : list (command (D := obj)) :=
  [Mutate (set_to 5) 0; New zero; Push; Mutate (set_to 6) 0; Mutate (set_to 7) 1; AddNotify true 9; Pop; Destroy 1].

Lemma context_refines_snapshots_witness :
  exists cl, run_commands (setup ++ Push :: scope) client_init = Ok (tt, cl) /\
    getLevel (cl_ctx cl) = Ok (2, cl_ctx cl) /\ reads cl 0 5.
Proof.
  destruct (context_refines_snapshots (setup ++ Push :: scope) (MkA 2 [{[0:=3]}; {[0:=4]}; {[0:=5]}]))
    as (cl & E & El & Hr); [vm_compute; reflexivity |].
  exists cl. split; [exact E |]. split; [exact El |]. apply Hr. reflexivity.
Defined.

Lemma pop_restores_objects_witness :
  exists cl cl', run_commands setup client_init = Ok (tt, cl) /\ reads cl 0 4 /\
    run_commands (Push :: scope ++ [Pop]) cl = Ok (tt, cl') /\ reads cl' 0 4 /\
    getLevel (cl_ctx cl') = Ok (1, cl_ctx cl').
Proof.
  apply (pop_restores_objects setup scope (MkA 1 [{[0:=3]}; {[0:=4]}]) (MkA 2 [{[0:=3]}; {[0:=4]}]) 0 4);
    vm_compute; reflexivity.
Defined.
End CDOExample.
