(* ===== verification/CDList.v ===== *)
(** * [CDList<T>]: an append-only backtrackable array

    Models [src/context/cdlist.h].  Only the size is saved: [restore] truncates the
    array, whose storage stays.  [d_list] is [None] for NULL and otherwise the
    allocated array, in which [None] is a slot without a constructed element.
    Sizes are [size_t] values, the allocator's [max_size()] is a parameter, and
    the calls of [d_cleanUp] are logged in [d_cleaned]. *)

From S2P Require Import Prelude Context ContextCorrect ContextSession.
Local Open Scope Z_scope.

Module CDList.
Section cdlist.
Context {T : Type} (max_size : Z).

Definition INITIAL_SIZE : Z := 10.
Definition GROWTH_FACTOR : Z := 2.
Definition size_t (z : Z) : Z := z mod 2 ^ 64.

Record CDList : Type := MkCDList {
  d_list : option (list (option T));
  d_size : Z;
  d_callDestructor : bool;
  d_sizeAlloc : Z;
  d_cleaned : list T
}.

Definition CDList_init (callDestructor : bool) : CDList := MkCDList None 0 callDestructor 0 [].

(** The private copy constructor. *)
Definition copy (l : CDList) : CDList := MkCDList None (d_size l) false 0 [].
Definition save (this : CDList) : CDList * CDList := (copy this, this).

(** [d_list[i]]: throws outside the allocation and on a slot without an element. *)
Definition array_get (l : CDList) (i : Z) : M T :=
  match d_list l with
  | None => Throw OutOfBounds
  | Some arr =>
      if (0 <=? i) && (i <? d_sizeAlloc l) then
        match arr !! Z.to_nat i with Some (Some x) => Ok x | _ => Throw OutOfBounds end
      else Throw OutOfBounds
  end.
Definition array_set (l : CDList) (i : Z) (x : option T) : M CDList :=
  match d_list l with
  | None => Throw OutOfBounds
  | Some arr =>
      if (0 <=? i) && (i <? d_sizeAlloc l) then
        Ok (MkCDList (Some (<[Z.to_nat i:=x]> arr)) (d_size l) (d_callDestructor l) (d_sizeAlloc l) (d_cleaned l))
      else Throw OutOfBounds
  end.
Definition set_size (n : Z) (l : CDList) : CDList :=
  MkCDList (d_list l) n (d_callDestructor l) (d_sizeAlloc l) (d_cleaned l).
Definition log_clean (x : T) (l : CDList) : CDList :=
  MkCDList (d_list l) (d_size l) (d_callDestructor l) (d_sizeAlloc l) (d_cleaned l ++ [x]).

(** Uninitialised storage. *)
Definition allocate (n : Z) : list (option T) := replicate (Z.to_nat n) None.

Definition grow (this : CDList) : M CDList :=
  match d_list this with
  | None =>
      let n := if max_size <? INITIAL_SIZE then max_size else INITIAL_SIZE in
      Ok (MkCDList (Some (allocate n)) (d_size this) (d_callDestructor this) n (d_cleaned this))
  | Some arr =>
      let newSize0 := size_t (GROWTH_FACTOR * d_sizeAlloc this) in
      newSize ← (if max_size <? newSize0 then
                   _ ← check AssertionFailed (d_sizeAlloc this <? max_size); Ok max_size
                 else Ok newSize0);
      (* memcpy of [d_sizeAlloc] elements *)
      Ok (MkCDList (Some (take (Z.to_nat (d_sizeAlloc this)) arr ++ drop (Z.to_nat (d_sizeAlloc this)) (allocate newSize)))
            (d_size this) (d_callDestructor this) newSize (d_cleaned this))
  end.

(** [while(d_size != size) { --d_size; d_cleanUp(&d_list[d_size]); d_allocator.destroy(&d_list[d_size]); }] *)
Fixpoint truncate_loop (fuel : nat) (size : Z) (this : CDList) : M CDList :=
  if d_size this =? size then Ok this else
  match fuel with
  | O => Throw OutOfFuel
  | S fuel' =>
      let this := set_size (size_t (d_size this - 1)) this in
      x ← array_get this (d_size this);
      this ← array_set (log_clean x this) (d_size this) None;
      truncate_loop fuel' size this
  end.
Definition truncateList (size : Z) (this : CDList) : M CDList :=
  _ ← check AssertionFailed (size <=? d_size this);
  if d_callDestructor this then truncate_loop (Z.to_nat (d_size this)) size this
  else Ok (set_size size this).

Definition restore (data this : CDList) : M CDList := truncateList (d_size data) this.

Definition size (this : CDList) : Z := d_size this.
Definition empty (this : CDList) : bool := d_size this =? 0.

(** [push_back] after [makeCurrent()]. *)
Definition push_back (data : T) (this : CDList) : M CDList :=
  this ← (if d_size this =? d_sizeAlloc this then grow this else Ok this);
  _ ← check AssertionFailed (d_size this <? d_sizeAlloc this);
  this ← array_set this (d_size this) (Some data);
  Ok (set_size (size_t (d_size this + 1)) this).

Definition get (this : CDList) (i : Z) : M T :=
  _ ← check AssertionFailed (i <? d_size this);
  array_get this i.
Definition back (this : CDList) : M T :=
  _ ← check AssertionFailed (0 <? d_size this);
  array_get this (size_t (d_size this - 1)).

(** [begin()] to [end()]. *)
Definition elements (this : CDList) : M (list T) :=
  mapM (fun i => array_get this (Z.of_nat i)) (seq 0 (Z.to_nat (d_size this))).

(** ** The array holds the list *)
Record rep (this : CDList) (l : list T) : Prop := {
  rep_size : d_size this = Z.of_nat (length l);
  rep_bound : Z.of_nat (length l) <= d_sizeAlloc this <= max_size;
  rep_null : d_list this = None -> l = [] /\ d_sizeAlloc this = 0;
  rep_array arr : d_list this = Some arr ->
    0 < d_sizeAlloc this /\ Z.of_nat (length arr) = d_sizeAlloc this /\ forall i, (i < length l)%nat -> arr !! i = Some (l !! i)
}.
Hypothesis max_pos : 0 < max_size.
(** [std::allocator<T>::max_size()] is [2^64 / sizeof(T)], with elements of two bytes or more. *)
Hypothesis max_bound : max_size <= 2 ^ 63.

Lemma size_t_small z : 0 <= z < 2 ^ 64 -> size_t z = z.
Proof. unfold size_t. intros. by rewrite Z.mod_small. Qed.

Lemma init_rep b : rep (CDList_init b) [].
Proof. split; cbn; [done | lia | done | done]. Qed.

Lemma array_get_ok this l i : rep this l -> 0 <= i < Z.of_nat (length l) ->
  exists x, l !! Z.to_nat i = Some x /\ array_get this i = Ok x.
Proof.
  intros [R1 R2 R3 R4] Hi. destruct (lookup_lt_is_Some_2 l (Z.to_nat i)) as [x Hx]; [lia |]. exists x. split; [done |].
  unfold array_get. destruct (d_list this) as [arr|] eqn:E; [| destruct (R3 eq_refl) as [-> _]; cbn in Hi; lia].
  destruct (R4 arr eq_refl) as (_ & _ & Hnth). rewrite (proj2 (Z.leb_le 0 i)), (proj2 (Z.ltb_lt i _)) by lia.
  rewrite Hnth by lia. by rewrite Hx.
Qed.

Lemma grow_ok this l : rep this l -> d_size this = d_sizeAlloc this -> Z.of_nat (length l) < max_size ->
  exists this', grow this = Ok this' /\ rep this' l /\ d_size this' < d_sizeAlloc this'.
Proof.
  intros HR Hfull Hmax. pose proof HR as [R1 R2 R3 R4]. unfold grow. destruct (d_list this) as [arr|] eqn:E.
  - destruct (R4 arr eq_refl) as (Hpos & Hlen & Hnth). unfold GROWTH_FACTOR. rewrite size_t_small by lia.
    set (n := d_sizeAlloc this) in *.
    assert (exists newSize, (if max_size <? 2 * n then _ ← check AssertionFailed (n <? max_size); Ok max_size else Ok (2 * n)) = Ok newSize
      /\ n < newSize <= max_size) as (newSize & -> & Hnew).
    { destruct (Z.ltb_spec max_size (2 * n)).
      - rewrite (proj2 (Z.ltb_lt n max_size)) by lia. exists max_size. split; [done | lia].
      - exists (2 * n). split; [done | lia]. }
    cbn. eexists. split; [reflexivity |]. split; [| cbn; lia]. split; cbn; [done | lia | done |].
    intros arr' [= <-]. split; [lia |]. unfold allocate. rewrite length_app, length_take, length_drop, length_replicate.
    split; [lia |]. intros i Hi. rewrite lookup_app_l by (rewrite length_take; lia). rewrite lookup_take_lt by lia. auto.
  - destruct (R3 eq_refl) as [-> H0]. eexists. split; [reflexivity |].
    set (n := if max_size <? INITIAL_SIZE then max_size else INITIAL_SIZE).
    assert (0 < n <= max_size) by (unfold n, INITIAL_SIZE; destruct (Z.ltb_spec max_size 10); lia).
    split; [| cbn in *; lia]. split; cbn; [done | lia | done |]. intros arr [= <-]. unfold allocate.
    rewrite length_replicate. split; [lia |]. split; [lia |]. intros i Hi. lia.
Qed.

Lemma push_back_rep data this l : rep this l -> Z.of_nat (length l) < max_size ->
  exists this', push_back data this = Ok this' /\ rep this' (l ++ [data]).
Proof.
  intros HR Hmax. unfold push_back.
  assert (exists t1, (if d_size this =? d_sizeAlloc this then grow this else Ok this) = Ok t1 /\ rep t1 l /\ d_size t1 < d_sizeAlloc t1)
    as (t1 & -> & HR1 & Hlt).
  { destruct (Z.eqb_spec (d_size this) (d_sizeAlloc this)); [by apply grow_ok |]. exists this.
    destruct HR. split; [done |]. split; [done | lia]. }
  rewrite M_bind_Ok. unfold check. rewrite (proj2 (Z.ltb_lt _ _)) by lia. rewrite M_bind_Ok. pose proof HR1 as [R1 R2 R3 R4].
  unfold array_set. destruct (d_list t1) as [arr|] eqn:E; [| destruct (R3 eq_refl); lia].
  destruct (R4 arr eq_refl) as (Hpos & Hlen & Hnth).
  rewrite (proj2 (Z.leb_le 0 _)), (proj2 (Z.ltb_lt _ _)) by lia. cbn [andb]. rewrite M_bind_Ok. eexists. split; [reflexivity |].
  cbn. rewrite size_t_small by lia. split; cbn; rewrite ?length_app; cbn; [lia | lia | done |].
  intros arr' [= <-]. rewrite length_insert. split; [done |]. split; [done |]. rewrite R1, Nat2Z.id. intros i Hi.
  destruct (decide (i = length l)) as [->|].
  - rewrite list_lookup_insert_eq by lia. rewrite lookup_app_r by lia. by rewrite Nat.sub_diag.
  - rewrite list_lookup_insert_ne by lia. rewrite lookup_app_l by lia. apply Hnth. lia.
Qed.

(** Elements are destroyed from the back, and each is cleaned up. *)
Lemma truncate_loop_ok fuel : forall this l (n : nat), rep this l -> (n <= length l)%nat -> (length l <= n + fuel)%nat ->
  exists this', truncate_loop fuel (Z.of_nat n) this = Ok this' /\ rep this' (take n l) /\
    d_callDestructor this' = d_callDestructor this /\ d_cleaned this' = d_cleaned this ++ rev (drop n l).
Proof.
  induction fuel as [|fuel IH]; intros this l n HR Hn Hf; cbn [truncate_loop]; pose proof HR as [R1 R2 R3 R4]; rewrite R1.
  - rewrite (proj2 (Z.eqb_eq _ _)) by lia. exists this. rewrite take_ge, drop_ge by lia. cbn. by rewrite app_nil_r.
  - destruct (Z.eqb_spec (Z.of_nat (length l)) (Z.of_nat n)).
    { exists this. rewrite take_ge, drop_ge by lia. cbn. by rewrite app_nil_r. }
    destruct l as [|x l _] using rev_ind; [cbn in *; lia |]. rewrite length_app in *. cbn [length] in *.
    rewrite size_t_small by lia. replace (Z.of_nat (length l + 1) - 1) with (Z.of_nat (length l)) by lia.
    destruct (array_get_ok this (l ++ [x]) (Z.of_nat (length l)) HR) as (y & Hy & Eg); [rewrite length_app; cbn; lia |].
    rewrite Nat2Z.id, lookup_app_r, Nat.sub_diag in Hy by lia. injection Hy as <-.
    unfold array_get in Eg |- *. cbn [d_size d_list d_sizeAlloc set_size]. rewrite Eg, M_bind_Ok.
    destruct (d_list this) as [arr|] eqn:E; [| destruct (R3 eq_refl) as [H0 _]; by destruct l].
    destruct (R4 arr eq_refl) as (Hpos & Hlen & Hnth). unfold array_set. cbn [d_size d_list d_sizeAlloc set_size log_clean]. rewrite E.
    rewrite (proj2 (Z.leb_le 0 _)), (proj2 (Z.ltb_lt _ _)) by lia. cbn [andb]. rewrite M_bind_Ok. rewrite Nat2Z.id.
    set (t1 := MkCDList _ _ _ _ _). assert (rep t1 l) as HR1.
    { split; cbn; [done | lia | done |]. intros arr' [= <-]. rewrite length_insert. split; [done |]. split; [done |].
      intros i Hi. rewrite list_lookup_insert_ne by lia. rewrite Hnth by lia. by rewrite lookup_app_l by lia. }
    destruct (IH t1 l n HR1) as (t2 & E2 & HR2 & Hc2 & Hl2); [lia | lia |]. exists t2. split; [done |].
    rewrite take_app_le, drop_app_le by lia. split; [done |]. split; [done |]. rewrite Hl2. cbn.
    rewrite rev_app_distr. cbn. by rewrite <- app_assoc.
Qed.

Lemma truncateList_ok this l (n : nat) : rep this l -> (n <= length l)%nat ->
  exists this', truncateList (Z.of_nat n) this = Ok this' /\ rep this' (take n l) /\
    d_cleaned this' = d_cleaned this ++ (if d_callDestructor this then rev (drop n l) else []).
Proof.
  intros HR Hn. pose proof HR as [R1 R2 R3 R4]. unfold truncateList, check. rewrite (proj2 (Z.leb_le _ _)) by lia.
  rewrite M_bind_Ok. destruct (d_callDestructor this) eqn:Ed.
  - destruct (truncate_loop_ok (Z.to_nat (d_size this)) this l n HR) as (t & E & HR' & _ & Hc); [lia | lia |]. by exists t.
  - eexists. split; [reflexivity |]. rewrite app_nil_r. split; [| done]. split; cbn; rewrite ?length_take; [lia | lia | |].
    + intros E. destruct (R3 E) as [-> ?]. by rewrite take_nil.
    + intros arr E. destruct (R4 arr E) as (? & ? & Hnth). split; [done |]. split; [done |]. intros i Hi.
      rewrite Hnth by lia. by rewrite lookup_take_lt by lia.
Qed.

#[export] Instance CDList_data : ContextData CDList := { cd_save := save; cd_restore := restore }.

Definition saved_rep (d : CDList) (l : list T) : Prop := d_size d = Z.of_nat (length l).

Lemma restore_ok s d l l' : saved_rep s l -> rep d l' -> l `prefix_of` l' -> exists d', restore s d = Ok d' /\ rep d' l.
Proof.
  intros Hs HR [t ->]. unfold restore. rewrite Hs.
  destruct (truncateList_ok d (l ++ t) (length l) HR) as (d' & E & HR' & _); [rewrite length_app; lia |].
  exists d'. split; [done |]. by rewrite take_app_length in HR'.
Qed.

Definition CDList_spec : ContextDataSpec CDList (list T) (list T) := {|
  cd_rep := rep;
  cd_saved := saved_rep;
  cd_mark l := l;
  cd_ev l l' := l `prefix_of` l';
  cd_vis l := l;
  save_rep d l HR := conj (rep_size d l HR) HR;
  ev_mark l := reflexivity l;
  vis_mark l := eq_refl;
  restore_rep := restore_ok
|}.

(** [push_back] is a mutator. *)
Lemma push_back_ok data :
  op_ok (CS := CDList_spec) (push_back data) (fun l => (Z.of_nat (length l) <? max_size) = true) (fun l => l ++ [data]).
Proof.
  intros d l HR Hm. apply Z.ltb_lt in Hm. destruct (push_back_rep data d l HR Hm) as (d' & E & HR').
  exists d', (l ++ [data]). split; [done |]. split; [done |]. split; [done |].
  intros l0 Hl. by apply prefix_app_r.
Qed.

(** Reading. *)
Lemma elements_ok this l : rep this l -> elements this = Ok l.
Proof.
  intros HR. pose proof HR as [R1 _ _ _]. unfold elements. rewrite R1, Nat2Z.id.
  assert (forall k n, (k + n = length l)%nat -> mapM (fun i => array_get this (Z.of_nat i)) (seq k n) = Ok (drop k l)) as H.
  { intros k n. revert k. induction n as [|n IH]; intros k Hk; cbn.
    - by rewrite drop_ge by lia.
    - destruct (array_get_ok this l (Z.of_nat k) HR) as (x & Hx & ->); [lia |]. rewrite Nat2Z.id in Hx.
      rewrite M_bind_Ok, IH by lia. rewrite M_bind_Ok. by rewrite (drop_S l x k) by done. }
  by rewrite (H 0%nat (length l)) by lia.
Qed.

Lemma empty_ok this l : rep this l -> empty this = (length l =? 0)%nat.
Proof. intros [R1 _ _ _]. unfold empty. rewrite R1. destruct l; [done |]. cbn. by apply Z.eqb_neq. Qed.

Lemma get_ok this l i : rep this l -> 0 <= i ->
  get this i = match l !! Z.to_nat i with Some x => Ok x | None => Throw AssertionFailed end.
Proof.
  intros HR Hi. unfold get, check. rewrite (rep_size _ _ HR). destruct (Z.ltb_spec i (Z.of_nat (length l))).
  - rewrite M_bind_Ok. destruct (array_get_ok this l i HR) as (x & -> & ->); [lia | done].
  - rewrite lookup_ge_None_2 by lia. done.
Qed.

Lemma back_ok this l : rep this l -> back this = match last l with Some x => Ok x | None => Throw AssertionFailed end.
Proof.
  intros HR. pose proof HR as [R1 R2 _ _]. unfold back, check. rewrite R1, last_lookup.
  destruct (Z.ltb_spec 0 (Z.of_nat (length l))).
  - rewrite M_bind_Ok, size_t_small by lia. destruct (array_get_ok this l (Z.of_nat (length l) - 1) HR) as (x & Hx & ->); [lia |].
    replace (Z.to_nat (Z.of_nat (length l) - 1)) with (pred (length l)) in Hx by lia. by rewrite Hx.
  - by rewrite lookup_ge_None_2 by lia.
Qed.

(** C26. [CDList] implements backtrackable lists: a new list is empty; appending
    (within the allocator's limit, growing the array when it is full) appends; the
    iterators, [operator[]], [back] and [size] read the list, and [operator[]] and
    [back] throw out of range; and restoring from a copy saved earlier gives the
    list of that time, cleaning up exactly the elements added since, last first,
    when destructors are called. *)
Theorem cdlist_implements_lists (this : CDList) (l : list T) (data : T) : rep this l ->
  rep (CDList_init (d_callDestructor this)) [] /\
  (Z.of_nat (length l) < max_size -> exists this', push_back data this = Ok this' /\ rep this' (l ++ [data])) /\
  elements this = Ok l /\ size this = Z.of_nat (length l) /\ empty this = (length l =? 0)%nat /\
  (forall i, 0 <= i -> get this i = match l !! Z.to_nat i with Some x => Ok x | None => Throw AssertionFailed end) /\
  back this = match last l with Some x => Ok x | None => Throw AssertionFailed end /\
  (forall old l0, rep old l0 -> l0 `prefix_of` l ->
     exists this', restore (save old).1 this = Ok this' /\ rep this' l0 /\
       d_cleaned this' = d_cleaned this ++ (if d_callDestructor this then rev (drop (length l0) l) else [])).
Proof.
  intros HR. split; [apply init_rep |]. split; [apply push_back_rep, HR |]. split; [by apply elements_ok |].
  split; [by apply rep_size |]. split; [by apply empty_ok |]. split; [intros i; by apply get_ok |]. split; [by apply back_ok |].
  intros old l0 Hold [t ->]. unfold restore. cbn [save fst copy d_size]. rewrite (rep_size _ _ Hold).
  destruct (truncateList_ok this (l0 ++ t) (length l0) HR) as (t' & E & HR' & Hc); [rewrite length_app; lia |].
  exists t'. by rewrite take_app_length in HR'.
Qed.
End cdlist.
Arguments CDList : clear implicits.
End CDList.

Module CDListExample.
Import CDList.
(** A full array of two elements, saved when it had one. *)
Definition two : CDList nat := MkCDList (Some [Some 7; Some 8])%nat 2 true 2 [].
Lemma two_rep : rep 1000 two [7; 8]%nat.
Proof.
  split; cbn; [done | lia | done |]. intros arr [= <-]. split; [lia |]. split; [done |].
  intros [|[|i]] Hi; [done | done | lia].
Qed.
Definition one : CDList nat := MkCDList (Some [Some 7; None])%nat 1 true 2 [].
Lemma one_rep : rep 1000 one [7]%nat.
Proof.
  split; cbn; [done | lia | done |]. intros arr [= <-]. split; [lia |]. split; [done |].
  intros [|i] Hi; [done | lia].
Qed.

Lemma cdlist_implements_lists_witness :
  (exists t, push_back 1000 9%nat two = Ok t /\ rep 1000 t [7; 8; 9]%nat) /\ elements two = Ok [7; 8]%nat /\
  exists t, restore (save one).1 two = Ok t /\ rep 1000 t [7]%nat /\ d_cleaned t = [8]%nat.
Proof.
  destruct (cdlist_implements_lists 1000 ltac:(lia) ltac:(lia) two [7; 8]%nat 9%nat two_rep)
    as (_ & Hpush & Hel & _ & _ & _ & _ & Hrest).
  split; [apply Hpush; cbn; lia |]. split; [exact Hel |].
  destruct (Hrest one [7]%nat one_rep) as (t & E & HR & Hc); [by exists [8]%nat |].
  exists t. split; [exact E |]. split; [exact HR | exact Hc].
Defined.
End CDListExample.
