(* ===== verification/CDQueue.v ===== *)
(** * [CDQueue<T>]: a backtrackable FIFO queue

    Models [src/context/cdqueue.h]: a [CDList] with the index of the next element
    to dequeue.  [pop] destroys elements early when the queue becomes empty, but
    never below [d_lastsave], the size at the last save. *)

From S2P Require Import Prelude Context ContextCorrect ContextSession CDList.
Local Open Scope Z_scope.

Module CDQueue.
Import CDList.
Section cdqueue.
Context {T : Type} (max_size : Z).

Record CDQueue : Type := MkCDQueue { q_list : CDList T; d_iter : Z; d_lastsave : Z }.

Definition CDQueue_init (callDestructor : bool) : CDQueue := MkCDQueue (CDList_init callDestructor) 0 0.

Definition save (this : CDQueue) : CDQueue * CDQueue :=
  (MkCDQueue (copy (q_list this)) (d_iter this) (d_lastsave this),
   MkCDQueue (q_list this) (d_iter this) (d_size (q_list this))).
Definition restore (qdata this : CDQueue) : M CDQueue :=
  l ← CDList.restore (q_list qdata) (q_list this);
  Ok (MkCDQueue l (d_iter qdata) (d_lastsave qdata)).

Definition empty (this : CDQueue) : M bool :=
  _ ← check AssertionFailed (d_iter this <=? d_size (q_list this));
  Ok (d_iter this =? d_size (q_list this)).
Definition size (this : CDQueue) : Z := size_t (d_size (q_list this) - d_iter this).

(** [push] and [pop] after [makeCurrent()]. *)
Definition push_current (data : T) (this : CDQueue) : M CDQueue :=
  l ← push_back max_size data (q_list this);
  Ok (MkCDQueue l (d_iter this) (d_lastsave this)).
Definition pop_current (this : CDQueue) : M CDQueue :=
  let this := MkCDQueue (q_list this) (size_t (d_iter this + 1)) (d_lastsave this) in
  e ← empty this;
  if e && negb (d_lastsave this =? d_size (q_list this)) then
    l ← truncateList (d_lastsave this) (q_list this);
    _ ← check AssertionFailed (d_size l =? d_lastsave this);
    Ok (MkCDQueue l (d_lastsave this) (d_lastsave this))
  else Ok this.
Definition pop_assert (this : CDQueue) : M unit := e ← empty this; check AssertionFailed (negb e).

Definition front (this : CDQueue) : M T :=
  e ← empty this;
  _ ← check AssertionFailed (negb e);
  array_get (q_list this) (d_iter this).
Definition back (this : CDQueue) : M T :=
  e ← empty this;
  _ ← check AssertionFailed (negb e);
  array_get (q_list this) (size_t (d_size (q_list this) - 1)).

#[export] Instance CDQueue_data : ContextData CDQueue := { cd_save := save; cd_restore := restore }.

(** The members, on the queue at [x]. *)
Definition push (x : addr) (data : T) : SM (Context CDQueue) unit := mutate (push_current data) x.
Definition pop (x : addr) : SM (Context CDQueue) unit :=
  d ← getData x;
  _ ← lift (pop_assert d);
  mutate pop_current x.

(** ** The queue *)
Record qstate : Type := MkQ { q_all : list T; q_iter : nat; q_last : nat }.
Definition waiting (k : qstate) : list T := drop (q_iter k) (q_all k).

Record qrep (this : CDQueue) (k : qstate) : Prop := {
  qrep_list : CDList.rep max_size (q_list this) (q_all k);
  qrep_iter : d_iter this = Z.of_nat (q_iter k) /\ (q_iter k <= length (q_all k))%nat;
  qrep_last : d_lastsave this = Z.of_nat (q_last k) /\ (q_last k <= length (q_all k))%nat
}.
Record qsaved (s : CDQueue) (k : qstate) : Prop := {
  qsaved_list : CDList.saved_rep (q_list s) (q_all k);
  qsaved_iter : d_iter s = Z.of_nat (q_iter k) /\ (q_iter k <= length (q_all k))%nat;
  qsaved_last : d_lastsave s = Z.of_nat (q_last k) /\ (q_last k <= length (q_all k))%nat
}.
(** What was in the array at the time of the copy is still there, and protected. *)
Definition qev (k k' : qstate) : Prop := q_all k `prefix_of` q_all k' /\ (length (q_all k) <= q_last k')%nat.
Definition qmark (k : qstate) : qstate := MkQ (q_all k) (q_iter k) (length (q_all k)).

Hypothesis max_pos : 0 < max_size.
Hypothesis max_bound : max_size <= 2 ^ 63.

Lemma q_init b : qrep (CDQueue_init b) (MkQ [] 0 0).
Proof. split; cbn; [by apply init_rep | done | done]. Qed.

Lemma q_save d k : qrep d k -> qsaved (save d).1 k /\ qrep (save d).2 (qmark k).
Proof.
  intros [R1 R2 R3]. split; split; try done; cbn.
  - apply (CDList.rep_size _ _ _ R1).
  - split; [by apply (CDList.rep_size _ _ _ R1) | lia].
Qed.

Lemma q_restore s d k k' : qsaved s k -> qrep d k' -> qev k k' -> exists d', restore s d = Ok d' /\ qrep d' k.
Proof.
  intros [S1 S2 S3] [R1 R2 R3] [Hp _]. destruct (CDList.restore_ok max_size max_bound _ _ _ _ S1 R1 Hp) as (l & E & HR).
  unfold restore. rewrite E. eexists. split; [reflexivity |]. by split.
Qed.

Definition CDQueue_spec : ContextDataSpec CDQueue qstate (list T) := {|
  cd_rep := qrep;
  cd_saved := qsaved;
  cd_mark := qmark;
  cd_ev := qev;
  cd_vis := waiting;
  save_rep := q_save;
  ev_mark k := conj (reflexivity (q_all k)) (Nat.le_refl (length (q_all k)));
  vis_mark k := eq_refl;
  restore_rep := q_restore
|}.

Lemma q_empty d k : qrep d k -> empty d = Ok (match waiting k with [] => true | _ => false end).
Proof.
  intros [R1 [R2 B2] R3]. pose proof (CDList.rep_size _ _ _ R1) as Hs. unfold empty, check. rewrite Hs, R2.
  rewrite (proj2 (Z.leb_le _ _)) by lia. rewrite M_bind_Ok. f_equal. unfold waiting.
  destruct (Z.eqb_spec (Z.of_nat (q_iter k)) (Z.of_nat (length (q_all k)))).
  - by rewrite drop_ge by lia.
  - destruct (drop (q_iter k) (q_all k)) eqn:E; [| done]. apply (f_equal length) in E. rewrite length_drop in E. cbn in E. lia.
Qed.

(** Enqueueing: only the room in the array matters. *)
Definition has_room (k : qstate) : bool := Z.of_nat (length (q_all k)) <? max_size.
Lemma q_push data d k : qrep d k -> has_room k = true ->
  exists d' k', push_current data d = Ok d' /\ qrep d' k' /\ waiting k' = waiting k ++ [data] /\
    forall k0, qev k0 k -> qev k0 k'.
Proof.
  intros [R1 [R2 B2] [R3 B3]] Hm. apply Z.ltb_lt in Hm.
  destruct (push_back_rep max_size max_pos max_bound data _ _ R1 Hm) as (l & E & HR).
  unfold push_current. rewrite E. eexists _, (MkQ (q_all k ++ [data]) (q_iter k) (q_last k)). split; [reflexivity |].
  split; [split; cbn; [done | rewrite length_app; cbn; split; [done | lia] ..] |]. split.
  - unfold waiting. cbn. by rewrite drop_app_le.
  - intros k0 [Hp Hl]. split; [by apply prefix_app_r | done].
Qed.

(** Dequeueing: either the index moves, or the elements above the last save go. *)
Lemma q_pop d k x w : qrep d k -> waiting k = x :: w ->
  exists d' k', pop_current d = Ok d' /\ qrep d' k' /\ waiting k' = w /\ forall k0, qev k0 k -> qev k0 k'.
Proof.
  intros [R1 [R2 B2] [R3 B3]] Hw. pose proof (CDList.rep_size _ _ _ R1) as Hs. pose proof (CDList.rep_bound _ _ _ R1) as Hb.
  unfold waiting in Hw. pose proof (f_equal length Hw) as Hlen. rewrite length_drop in Hlen. cbn in Hlen.
  set (k1 := MkQ (q_all k) (S (q_iter k)) (q_last k)).
  assert (waiting k1 = w) as Hw1. { unfold waiting. cbn. rewrite <- Nat.add_1_r, <- drop_drop, Hw. done. }
  set (d1 := MkCDQueue (q_list d) (size_t (d_iter d + 1)) (d_lastsave d)).
  assert (qrep d1 k1) as HR1. { split; cbn; [done | rewrite size_t_small by lia; split; lia | done]. }
  unfold pop_current. fold d1. rewrite (q_empty d1 k1 HR1), M_bind_Ok, Hw1. cbn [d_lastsave q_list d1]. rewrite Hs, R3.
  destruct w as [|y w]; cbn [andb negb].
  - destruct (Z.eqb_spec (Z.of_nat (q_last k)) (Z.of_nat (length (q_all k)))); cbn [negb].
    + exists d1, k1. done.
    + destruct (CDList.truncateList_ok max_size max_bound _ _ (q_last k) R1 B3) as (l & -> & HR & _). rewrite M_bind_Ok.
      rewrite (CDList.rep_size _ _ _ HR), length_take, Nat.min_l by lia. rewrite Z.eqb_refl. cbn.
      eexists _, (MkQ (take (q_last k) (q_all k)) (q_last k) (q_last k)). split; [reflexivity |].
      split; [split; cbn; [done | rewrite length_take; split; [done | lia] ..] |]. split.
      * unfold waiting. cbn. rewrite drop_ge by (rewrite length_take; lia). done.
      * intros k0 [[t Hp] Hl]. split; [| done]. cbn. rewrite Hp, take_app_ge by lia. by apply prefix_app_r.
  - exists d1, k1. done.
Qed.

Lemma pop_ok : op_ok (CS := CDQueue_spec) pop_current (fun w => match w with [] => false | _ => true end = true) tail.
Proof.
  intros d k HR Hp. cbn in Hp |- *. destruct (waiting k) as [|x w] eqn:Ew; [done |].
  destruct (q_pop d k x w HR Ew) as (d' & k' & E & HR' & Hw & Hev). by exists d', k'.
Qed.

Lemma q_front d k : qrep d k ->
  front d = match waiting k with [] => Throw AssertionFailed | x :: _ => Ok x end.
Proof.
  intros HR. pose proof HR as [R1 [R2 B2] R3]. unfold front. rewrite (q_empty d k HR), M_bind_Ok.
  destruct (waiting k) as [|x w] eqn:Ew; [done |]. cbn [negb check]. rewrite M_bind_Ok, R2.
  unfold waiting in Ew. pose proof (f_equal length Ew) as Hl. rewrite length_drop in Hl. cbn in Hl.
  destruct (array_get_ok max_size (q_list d) _ (Z.of_nat (q_iter k)) R1) as (y & Hy & ->); [lia |].
  rewrite Nat2Z.id in Hy. by rewrite (drop_S _ y _ Hy) in Ew; injection Ew as <-.
Qed.

Lemma q_back d k : qrep d k ->
  back d = match waiting k with [] => Throw AssertionFailed | x :: w => Ok (List.last w x) end.
Proof.
  intros HR. pose proof HR as [R1 [R2 B2] R3]. unfold back. rewrite (q_empty d k HR), M_bind_Ok.
  destruct (waiting k) as [|x w] eqn:Ew; [done |]. cbn [negb check]. rewrite M_bind_Ok.
  pose proof (CDList.rep_size _ _ _ R1) as Hs. pose proof (CDList.rep_bound _ _ _ R1) as Hb.
  unfold waiting in Ew. pose proof (f_equal length Ew) as Hl. rewrite length_drop in Hl. cbn in Hl.
  rewrite Hs, size_t_small by lia.
  destruct (array_get_ok max_size (q_list d) _ (Z.of_nat (length (q_all k)) - 1) R1) as (y & Hy & ->); [lia |]. f_equal.
  replace (Z.to_nat _) with (q_iter k + length w)%nat in Hy by lia. rewrite <- lookup_drop, Ew in Hy.
  destruct w as [|z w] using rev_ind; cbn in Hy |- *; [congruence |].
  rewrite List.last_last. rewrite length_app, app_comm_cons, lookup_app_r in Hy by (cbn; lia). cbn in Hy.
  replace (length w + 1 - S (length w))%nat with 0%nat in Hy by lia. by injection Hy.
Qed.

Lemma q_size d k : qrep d k -> size d = Z.of_nat (length (waiting k)).
Proof.
  intros [R1 [R2 B2] _]. pose proof (CDList.rep_size _ _ _ R1) as Hs. pose proof (CDList.rep_bound _ _ _ R1).
  unfold size, waiting. rewrite Hs, R2, size_t_small, length_drop by lia. lia.
Qed.

(** C25. [CDQueue] implements backtrackable FIFO queues: [push] appends to the
    waiting elements (within the allocator's limit), [pop] removes the first,
    [front] and [back] are the ends, all three throw on the empty queue, and a
    state saved before any number of pushes and pops, each of which may destroy
    elements early, is restored exactly. *)
Theorem cdqueue_implements_queues (this : CDQueue) (k : qstate) (data : T) : qrep this k ->
  (has_room k = true -> exists t' k', push_current data this = Ok t' /\ qrep t' k' /\ waiting k' = waiting k ++ [data] /\
     forall k0, qev k0 k -> qev k0 k') /\
  match waiting k with
  | [] => empty this = Ok true /\ pop_assert this = Throw AssertionFailed /\ front this = Throw AssertionFailed /\
          back this = Throw AssertionFailed
  | x :: w => empty this = Ok false /\ pop_assert this = Ok tt /\ front this = Ok x /\
          back this = Ok (List.last w x) /\
          exists t' k', pop_current this = Ok t' /\ qrep t' k' /\ waiting k' = w /\ forall k0, qev k0 k -> qev k0 k'
  end /\
  size this = Z.of_nat (length (waiting k)) /\
  qev k (qmark k) /\ qrep (save this).2 (qmark k) /\
  (forall t' k', qrep t' k' -> qev k k' -> exists t'', restore (save this).1 t' = Ok t'' /\ qrep t'' k).
Proof.
  intros HR. destruct (q_save this k HR) as [Hs Hm]. split; [by apply q_push |]. split.
  - pose proof (q_front this k HR) as Ef. pose proof (q_back this k HR) as Eb. pose proof (q_empty this k HR) as Ee.
    unfold pop_assert. rewrite Ee, M_bind_Ok. destruct (waiting k) as [|x w] eqn:Ew; [done |].
    do 4 (split; [done |]). by eapply q_pop.
  - split; [by apply q_size |]. split; [by split |]. split; [done |]. intros t' k' HR' Hev. by eapply q_restore.
Qed.
End cdqueue.
End CDQueue.

Module CDQueueExample.
Import CDList CDQueue CDListExample.
(** Two elements, the first dequeued; one was there at the last save. *)
Definition q : CDQueue (T := nat) := MkCDQueue two 1 1.
Lemma q_rep : qrep 1000 q (MkQ [7; 8]%nat 1 1).
Proof. split; cbn; [apply two_rep | lia | lia]. Qed.

Lemma cdqueue_implements_queues_witness :
  front q = Ok 8%nat /\ size q = 1 /\
  (exists t k, push_current 1000 9%nat q = Ok t /\ qrep 1000 t k /\ waiting k = [8; 9]%nat) /\
  (exists t k, pop_current q = Ok t /\ qrep 1000 t k /\ waiting k = []).
Proof.
  destruct (cdqueue_implements_queues 1000 ltac:(lia) ltac:(lia) q (MkQ [7; 8]%nat 1 1) 9%nat q_rep)
    as (Hpush & (_ & _ & Hf & _ & t2 & k2 & E2 & HR2 & Hw2 & _) & Hs & _).
  destruct (Hpush eq_refl) as (t1 & k1 & E1 & HR1 & Hw1 & _).
  split; [exact Hf |]. split; [exact Hs |]. split; [by exists t1, k1 | by exists t2, k2].
Defined.
End CDQueueExample.
