(* ===== verification/CDHashMap.v ===== *)
(** * [CDHashMap<Key, Data>]: a backtrackable map

    Models [src/context/cdhashmap.h].  Each element is a context object of its own with the key,
    the data and the pointer to its map, which is null in the version saved when the element is
    made; a pop that restores that version takes the element out of the map and puts it on the
    trash.  The elements are linked in a ring in the order of their insertion.

    [restore] leaves [d_map] set in an element that it takes out of the map; nothing reads it
    afterwards, and the model clears it instead to say that the element is out.  The effects of
    [restore] on the map follow the pop of the context, in the order of the calls: the last
    element saved first.  Elements are never allocated in context memory ([d_noTrash] is false). *)

From S2P Require Import Prelude Context.
Local Open Scope nat_scope.

Section element.
Context {Key Data : Type} (default_key : Key).
(** [CDOhash_map]; [d_inMap] stands for [d_map != NULL]. *)
Record Element : Type := MkElement { d_key : Key; d_data : Data; d_inMap : bool }.
Definition save (this : Element) : Element * Element := (MkElement default_key (d_data this) (d_inMap this), this).
Definition restore (p this : Element) : M Element :=
  if d_inMap this then
    (if d_inMap p then Ok (MkElement (d_key this) (d_data p) true) else Ok (MkElement (d_key this) (d_data this) false))
  else Ok this.
Definition set_to (data : Data) (this : Element) : M Element := Ok (MkElement (d_key this) data (d_inMap this)).
(** [set(data); d_map = map;] of the constructor *)
Definition enter (data : Data) (this : Element) : M Element := Ok (MkElement (d_key this) data true).
End element.
Arguments Element : clear implicits.

Section cdhashmap.
Context {Key Data : Type} `{Countable Key} (default_key : Key) (default_data : Data).
#[local] Instance Element_data : ContextData (Element Key Data) := { cd_save := save default_key; cd_restore := restore }.

(** The map and its context. *)
Record CDHashMap : Type := MkCDHashMap {
  d_context : Context (Element Key Data);
  d_map : gmap Key addr;
  d_first : option addr;
  d_next : gmap addr addr;
  d_prev : gmap addr addr;
  d_trash : list addr
}.
Definition new_CDHashMap (c : Context (Element Key Data)) : CDHashMap := MkCDHashMap c ∅ None ∅ ∅ [].
Abbreviation HM := (SM CDHashMap).
Definition on_context {A} (m : SM (Context (Element Key Data)) A) : HM A := fun s =>
  match m (d_context s) with Ok (a, c) => Ok (a, MkCDHashMap c (d_map s) (d_first s) (d_next s) (d_prev s) (d_trash s)) | Throw e => Throw e end.
Definition set_map (m : gmap Key addr) : HM unit := modify (fun s => MkCDHashMap (d_context s) m (d_first s) (d_next s) (d_prev s) (d_trash s)).
Definition set_first (a : option addr) : HM unit := modify (fun s => MkCDHashMap (d_context s) (d_map s) a (d_next s) (d_prev s) (d_trash s)).
Definition write_next (a b : addr) : HM unit := modify (fun s => MkCDHashMap (d_context s) (d_map s) (d_first s) (<[a:=b]> (d_next s)) (d_prev s) (d_trash s)).
Definition write_prev (a b : addr) : HM unit := modify (fun s => MkCDHashMap (d_context s) (d_map s) (d_first s) (d_next s) (<[a:=b]> (d_prev s)) (d_trash s)).
Definition set_trash (l : list addr) : HM unit := modify (fun s => MkCDHashMap (d_context s) (d_map s) (d_first s) (d_next s) (d_prev s) l).
Definition read_next (a : addr) : HM addr := fun s => match d_next s !! a with Some b => Ok (b, s) | None => Throw OutOfBounds end.
Definition read_prev (a : addr) : HM addr := fun s => match d_prev s !! a with Some b => Ok (b, s) | None => Throw OutOfBounds end.

(** ** The ring *)
(** The end of the constructor of an element. *)
Definition link_last (a : addr) : HM unit :=
  first ← gets d_first;
  match first with
  | None => _ ← write_prev a a; _ ← write_next a a; set_first (Some a)
  | Some f =>
      p ← read_prev f;
      _ ← write_prev a p; _ ← write_next a f;
      _ ← write_next p a; write_prev f a
  end.
Definition unlink_first (a : addr) : HM unit :=
  first ← gets d_first;
  if bool_decide (first = Some a) then
    n ← read_next a;
    if bool_decide (n = a) then p ← read_prev a; _ ← lift (check AssertionFailed (bool_decide (p = a))); set_first None
    else set_first (Some n)
  else mret tt.
Definition unlink_neighbours (a : addr) : HM unit :=
  n ← read_next a; p ← read_prev a;
  _ ← write_prev n p; write_next p n.
(** What [restore] does to the map of an element that leaves it. *)
Definition remove_element (a : addr) : HM unit :=
  e ← on_context (getData a);
  m ← gets d_map;
  _ ← lift (check AssertionFailed (bool_decide (m !! d_key e = Some a)));
  _ ← set_map (delete (d_key e) m);
  _ ← unlink_first a;
  _ ← unlink_neighbours a;
  trash ← gets d_trash;
  set_trash (trash ++ [a]).
(** From an element to the end of the ring: [next()] until it is null. *)
Fixpoint walk (fuel : nat) (a : addr) : HM (list addr) :=
  match fuel with
  | O => lift (Throw OutOfFuel)
  | S fuel' =>
      n ← read_next a; first ← gets d_first;
      if bool_decide (first = Some n) then mret [a] else rest ← walk fuel' n; mret (a :: rest)
  end.
(** [begin()] to [end()]. *)
Definition elements : HM (list addr) :=
  first ← gets d_first; n ← gets (fun s => size (d_map s));
  match first with None => mret [] | Some a => walk n a end.

(** ** Operations *)
Fixpoint delete_all (l : list addr) : HM unit :=
  match l with [] => mret tt | a :: l => _ ← on_context (destroy a); delete_all l end.
Definition emptyTrash : HM unit := trash ← gets d_trash; _ ← delete_all trash; set_trash [].
(** [new(true) Element(d_context, this, k, d, atLevelZero)] *)
Definition new_element (k : Key) (d : Data) (atLevelZero : bool) : HM addr :=
  a ← (if atLevelZero then on_context (newContextObj false (MkElement k d true))
       else a ← on_context (newContextObj false (MkElement k default_data false)); _ ← on_context (mutate (enter d) a); mret a);
  _ ← link_last a;
  m ← gets d_map;
  _ ← set_map (<[k:=a]> m);
  mret a.
Definition index (k : Key) : HM addr :=
  _ ← emptyTrash;
  m ← gets d_map;
  match m !! k with Some a => mret a | None => new_element k default_data false end.
(** [map[k] = d] *)
Definition assign (k : Key) (d : Data) : HM unit := a ← index k; on_context (mutate (set_to d) a).
Definition insert (k : Key) (d : Data) : HM bool :=
  _ ← emptyTrash;
  m ← gets d_map;
  match m !! k with
  | None => _ ← new_element k d false; mret true
  | Some a => _ ← on_context (mutate (set_to d) a); mret false
  end.
Definition insertAtContextLevelZero (k : Key) (d : Data) : HM unit :=
  _ ← emptyTrash;
  m ← gets d_map;
  _ ← lift (check AssertionFailed (bool_decide (m !! k = None)));
  _ ← new_element k d true; mret tt.
(** [find(k)], and the data found. *)
Definition find (k : Key) : HM (option Data) :=
  _ ← emptyTrash;
  m ← gets d_map;
  match m !! k with None => mret None | Some a => e ← on_context (getData a); mret (Some (d_data e)) end.
Definition count (s : CDHashMap) (k : Key) : nat := match d_map s !! k with Some _ => 1 | None => 0 end.
Definition map_size (s : CDHashMap) : nat := size (d_map s).
(** The pairs that an iteration visits. *)
Fixpoint read_all (l : list addr) : HM (list (Key * Data)) :=
  match l with [] => mret [] | a :: l => e ← on_context (getData a); rest ← read_all l; mret ((d_key e, d_data e) :: rest) end.
Definition iterate : HM (list (Key * Data)) := l ← elements; read_all l.
(** [obliterate]: [destroy()] without the end of the element's life, then what is left to do at level 0. *)
Definition destroy_element (a : addr) : HM unit := fun s => on_context (destroy_loop (S (size (d_heap (d_context s)))) a) s.
Definition obliterate (k : Key) : HM unit :=
  m ← gets d_map;
  match m !! k with
  | None => mret tt
  | Some a =>
      _ ← destroy_element a;
      e ← on_context (getData a);
      _ ← (if d_inMap e then mret tt else remove_element a);
      m ← gets d_map;
      match m !! k with
      | None => mret tt
      | Some elt =>
          _ ← unlink_first elt;
          n ← read_next elt; p ← read_prev elt; _ ← write_next p n; _ ← write_prev n p;
          m ← gets d_map; _ ← set_map (delete k m);
          on_context (destroy elt)
      end
  end.
(** [clear()]; the mark [d_map = NULL] on the elements keeps [restore] from changing the map, which it does not do here. *)
Definition clear : HM unit :=
  _ ← emptyTrash;
  m ← gets d_map;
  _ ← delete_all (map snd (map_to_list m));
  _ ← modify (fun s => MkCDHashMap (d_context s) ∅ None ∅ ∅ (d_trash s));
  trash ← gets d_trash;
  lift (check AssertionFailed (match trash with [] => true | _ => false end)).

(** ** Scopes *)
Definition push_context : HM unit := on_context push.
Fixpoint remove_all (l : list addr) : HM unit :=
  match l with
  | [] => mret tt
  | a :: l => e ← on_context (getData a); _ ← (if d_inMap e then mret tt else remove_element a); remove_all l
  end.
Definition pop_context : HM unit :=
  l ← elements;
  _ ← on_context pop;
  remove_all (rev l).
End cdhashmap.
Arguments CDHashMap : clear implicits.
Arguments CDHashMap Key Data {_ _}.
