(* ===== verification/CDHashMapCorrect.v ===== *)
(** * Correctness of [CDHashMap]

    The ring of the elements, and the refinement of the map to a stack of association lists in
    the order of insertion, over the refinement of its context to a stack of snapshots. *)

From S2P Require Import Prelude Context ContextCorrect ContextSession CDHashMap.
Local Open Scope nat_scope.

(** ** Doubly linked rings *)
Section ring.
Abbreviation links := (gmap addr addr).
(** Consecutive elements are linked in both directions. *)
Fixpoint path (nx pv : links) (l : list addr) : Prop :=
  match l with
  | x :: (y :: _) as t => (nx !! x = Some y /\ pv !! y = Some x) /\ path nx pv t
  | _ => True
  end.
Definition ring (nx pv : links) (l : list addr) : Prop := match l with [] => True | x :: _ => path nx pv (l ++ [x]) end.

Lemma path_app nx pv l1 x l2 : path nx pv (l1 ++ x :: l2) <-> path nx pv (l1 ++ [x]) /\ path nx pv (x :: l2).
Proof.
  induction l1 as [|y l1 IH]; cbn [app]; [cbn; tauto |]. destruct l1 as [|z l1]; cbn [app] in *; [cbn; tauto |].
  change (path nx pv (y :: z :: l1 ++ x :: l2)) with ((nx !! y = Some z /\ pv !! z = Some y) /\ path nx pv (z :: l1 ++ x :: l2)).
  change (path nx pv (y :: z :: l1 ++ [x])) with ((nx !! y = Some z /\ pv !! z = Some y) /\ path nx pv (z :: l1 ++ [x])).
  rewrite IH. tauto.
Qed.
(** A path depends on the forward links of all but its last, and the backward links of all but its first element. *)
Lemma path_frame nx pv nx' pv' l : path nx pv l -> (forall x, x ∈ removelast l -> nx' !! x = nx !! x) -> (forall x, x ∈ tl l -> pv' !! x = pv !! x) -> path nx' pv' l.
Proof.
  induction l as [|x l IH]; [done |]. destruct l as [|y l]; [done |]. intros [[H1 H2] H3] Hn Hp. split.
  - rewrite Hn, Hp; [done | by left | by left].
  - apply IH; [done | |].
    + intros z Hz. apply Hn. by right.
    + intros z Hz. apply Hp. by right.
Qed.
Lemma ring_rotate nx pv l1 l2 : ring nx pv (l1 ++ l2) -> ring nx pv (l2 ++ l1).
Proof.
  destruct l1 as [|a l1], l2 as [|b l2]; rewrite ?app_nil_r; try done. unfold ring. cbn [app].
  rewrite <- !app_assoc. change (a :: l1 ++ (b :: l2) ++ [a]) with ((a :: l1) ++ b :: (l2 ++ [a])). change (b :: l2 ++ (a :: l1) ++ [b]) with ((b :: l2) ++ a :: (l1 ++ [b])).
  intros [H1 H2]%path_app. apply path_app. split; assumption.
Qed.
(** A new element at the end. *)
Lemma ring_snoc nx pv l f p y : ring nx pv (f :: l) -> NoDup (f :: l) -> pv !! f = Some p -> y ∉ f :: l ->
  ring (<[p:=y]> (<[y:=f]> nx)) (<[f:=y]> (<[y:=p]> pv)) (f :: l ++ [y]).
Proof.
  intros Hr Hnd Hp Hy. destruct (exists_last (l := f :: l)) as (l0 & q & El); [done |].
  assert (p = q) as <-.
  { unfold ring in Hr. rewrite El in Hr. rewrite <- app_assoc in Hr. cbn [app] in Hr. apply path_app in Hr as [_ [[_ H] _]]. congruence. }
  unfold ring in *. change (f :: l ++ [y]) with ((f :: l) ++ [y]). rewrite El in *. rewrite <- !app_assoc in *. cbn [app] in *.
  apply path_app in Hr as [Hr _]. apply path_app. split.
  - apply (path_frame nx pv); [done | |].
    + intros x Hx. rewrite removelast_last in Hx. assert (x <> p /\ x <> y) as [? ?].
      { split; intros ->; [| apply Hy, elem_of_app; by left]. apply NoDup_app in Hnd as (_ & Hd & _). apply (Hd p Hx). by left. }
      by rewrite !lookup_insert_ne by done.
    + intros x Hx. assert (x ∈ l) as Hxl.
      { destruct l0 as [|z l0]; cbn in El, Hx; [by apply not_elem_of_nil in Hx |]. injection El as -> ->. exact Hx. }
      assert (x <> f /\ x <> y) as [? ?].
      { split; intros ->; [| apply Hy; rewrite <- El; by right]. rewrite <- El in Hnd. by apply NoDup_cons in Hnd as [? _]. }
      by rewrite !lookup_insert_ne by done.
  - assert (Hyp : y <> p) by (intros ->; apply Hy, elem_of_app; right; by left).
    assert (Hyf : y <> f) by (intros ->; apply Hy; rewrite <- El; by left).
    split; [split; [by rewrite lookup_insert_eq | rewrite lookup_insert_ne by done; by rewrite lookup_insert_eq] |].
    split; [| done]. split; [rewrite lookup_insert_ne by done; by rewrite lookup_insert_eq | by rewrite lookup_insert_eq].
Qed.
Lemma ring_single nx pv y : ring (<[y:=y]> nx) (<[y:=y]> pv) [y].
Proof. split; [| done]. by rewrite !lookup_insert_eq. Qed.
(** The neighbours of an element. *)
Lemma ring_next nx pv l1 a l2 : ring nx pv (l1 ++ a :: l2) -> nx !! a = head (l2 ++ l1 ++ [a]) .
Proof.
  intros Hr%ring_rotate. unfold ring in Hr. cbn [app] in Hr. rewrite app_assoc. destruct (l2 ++ l1) as [|b l]; by destruct Hr as [[? _] _].
Qed.
Lemma ring_prev nx pv l1 a l2 : ring nx pv (l1 ++ a :: l2) -> pv !! a = last (a :: l2 ++ l1).
Proof.
  intros Hr%ring_rotate. unfold ring in Hr. cbn [app] in Hr. destruct (exists_last (l := a :: l2 ++ l1)) as (l0 & q & El); [done |].
  rewrite El. change (a :: (l2 ++ l1) ++ [a]) with ((a :: l2 ++ l1) ++ [a]) in Hr. rewrite El, <- app_assoc in Hr. cbn [app] in Hr.
  apply path_app in Hr as [_ [[_ Hp] _]]. by rewrite last_snoc.
Qed.
(** An element is taken out. *)
Lemma ring_unlink nx pv l1 a l2 n p : ring nx pv (l1 ++ a :: l2) -> NoDup (l1 ++ a :: l2) -> nx !! a = Some n -> pv !! a = Some p ->
  ring (<[p:=n]> nx) (<[n:=p]> pv) (l1 ++ l2).
Proof.
  intros Hr Hnd Hn Hp. pose proof (ring_next _ _ _ _ _ Hr) as En. pose proof (ring_prev _ _ _ _ _ Hr) as Ep. rewrite Hn in En. rewrite Hp in Ep.
  rewrite app_assoc in En. apply ring_rotate in Hr. apply ring_rotate. rewrite Permutation_app_comm in Hnd. cbn [app] in *.
  apply NoDup_cons in Hnd as [Ha Hnd]. destruct (l2 ++ l1) as [|b l]; [done |]. cbn in En. injection En as ->.
  destruct (exists_last (l := b :: l)) as (l0 & q & El); [done |].
  assert (p = q) as -> by (change (a :: b :: l) with ([a] ++ (b :: l)) in Ep; rewrite El, app_assoc, last_snoc in Ep; congruence).
  unfold ring in *. cbn [app] in Hr. destruct Hr as [_ Hr]. change (b :: l ++ [a]) with ((b :: l) ++ [a]) in Hr.
  change (path (<[q:=b]> nx) (<[b:=q]> pv) ((b :: l) ++ [b])). rewrite El in *. rewrite <- app_assoc in *. cbn [app] in *.
  apply path_app in Hr as [Hr _]. apply path_app. split; [apply (path_frame nx pv); [done | |] |].
  - intros x Hx. rewrite removelast_last in Hx. rewrite lookup_insert_ne; [done |]. intros ->. apply NoDup_app in Hnd as (_ & Hd & _). apply (Hd x Hx). by left.
  - intros x Hx. rewrite lookup_insert_ne; [done |]. intros ->. rewrite <- El in Hx, Hnd. cbn in Hx. by apply NoDup_cons in Hnd as [? _].
  - split; [| done]. by rewrite !lookup_insert_eq.
Qed.
End ring.

(** ** The elements as context objects *)
Section elements.
Context {Key Data : Type} `{Countable Key} (default_key : Key) (default_data : Data).
#[local] Hint Extern 0 (ContextData (Element _ _)) => exact (Element_data default_key) : typeclass_instances.
(** The key and, while the element is in the map, its data. *)
Abbreviation entry := (Key * option Data)%type.
Definition stands (e : Element Key Data) (v : entry) : Prop := d_key e = v.1 /\ v.2 = if d_inMap e then Some (d_data e) else None.
Definition remembers (e : Element Key Data) (v : entry) : Prop := v.2 = if d_inMap e then Some (d_data e) else None.
(** An element that has entered the map stays in it, until a pop. *)
Definition grows (v v' : entry) : Prop := v.1 = v'.1 /\ (is_Some v.2 -> is_Some v'.2).

Lemma grows_refl v : grows v v.
Proof. by split. Qed.
Lemma grows_trans v1 v2 v3 : grows v1 v2 -> grows v2 v3 -> grows v1 v3.
Proof. intros [E1 H1] [E2 H2]. split; [congruence | auto]. Qed.
Lemma element_restore s d v v' : remembers s v -> stands d v' -> grows v v' -> exists d', restore s d = Ok d' /\ stands d' v.
Proof.
  destruct s as [ks ds ms], d as [kd dd md], v as [k v], v' as [k' v']. unfold remembers, stands, grows, restore. cbn.
  intros -> [-> ->] [-> Hg]. destruct md.
  - destruct ms; eexists; split; try reflexivity; done.
  - destruct ms; [by destruct (Hg (mk_is_Some _ _ eq_refl)) |]. eexists. split; [reflexivity | done].
Qed.
#[local] Program Instance Element_spec : ContextDataSpec (Element Key Data) entry entry := {
  cd_rep := stands; cd_saved := remembers; cd_mark v := v; cd_ev := grows; cd_vis v := v
}.
Next Obligation. intros d v [H1 H2]. by split. Qed.
Next Obligation. apply grows_refl. Qed.
Next Obligation. done. Qed.
Next Obligation. intros s d v v'. apply element_restore. Qed.

Lemma enter_ok d : op_ok (enter d) (fun _ => True) (fun v => (v.1, Some d)).
Proof. intros e v [H1 H2] _. exists (MkElement (d_key e) d true), (v.1, Some d). split; [done |]. split; [done |]. split; [done |]. intros v0 [E _]. split; [done |]. by intros _. Qed.
Lemma set_to_ok d : op_ok (set_to d) (fun v => is_Some v.2) (fun v => (v.1, Some d)).
Proof.
  intros [k d0 m] v [H1 H2] [d1 Hd]. cbn in *. rewrite Hd in H2. destruct m; [| done]. exists (MkElement k d true), (v.1, Some d).
  split; [done |]. split; [done |]. split; [done |]. intros v0 [E _]. split; [done |]. by intros _.
Qed.

(** ** Snapshots that only grow with the level *)
Abbreviation Snaps := (list (gmap addr entry)).
Definition coherent (Σ : Snaps) : Prop := forall i j Si Sj, i <= j -> Σ !! i = Some Si -> Σ !! j = Some Sj -> forall a, option_Forall2 grows (Si !! a) (Sj !! a).
Lemma grows_option_refl o : option_Forall2 grows o o.
Proof. destruct o; constructor. apply grows_refl. Qed.
Lemma grows_option_trans o1 o2 o3 : option_Forall2 grows o1 o2 -> option_Forall2 grows o2 o3 -> option_Forall2 grows o1 o3.
Proof. intros H1 H2. inversion H1; subst; inversion H2; subst; constructor. by eapply grows_trans. Qed.
Lemma coherent_map f Σ : coherent Σ -> (forall a S S', option_Forall2 grows (S !! a) (S' !! a) -> option_Forall2 grows (f S !! a) (f S' !! a)) -> coherent (map f Σ).
Proof.
  intros HC Hf i j Si Sj Hij Hi Hj a. apply list_lookup_fmap_Some in Hi as (Ti & -> & Hi), Hj as (Tj & -> & Hj). apply Hf. by eapply HC.
Qed.
Lemma coherent_insert Σ x v : coherent Σ -> coherent (map (<[x:=v]>) Σ).
Proof.
  intros HC. apply coherent_map; [done |]. intros a S S' HS. destruct (decide (a = x)) as [-> |].
  - rewrite !lookup_insert_eq. apply grows_option_refl.
  - by rewrite !lookup_insert_ne by done.
Qed.
Lemma coherent_delete Σ x : coherent Σ -> coherent (map (delete x) Σ).
Proof.
  intros HC. apply coherent_map; [done |]. intros a S S' HS. destruct (decide (a = x)) as [-> |].
  - rewrite !lookup_delete_eq. constructor.
  - by rewrite !lookup_delete_ne by done.
Qed.
Lemma coherent_take Σ n : coherent Σ -> coherent (take n Σ).
Proof. intros HC i j Si Sj Hij [Hi _]%lookup_take_Some [Hj _]%lookup_take_Some. by eapply HC. Qed.
Lemma top_app (Σ : Snaps) S : top (Σ ++ [S]) = S.
Proof. unfold top. by rewrite last_snoc. Qed.
Lemma coherent_push Σ : Σ <> [] -> coherent Σ -> coherent (Σ ++ [top Σ]).
Proof.
  intros Hne HC i j Si Sj Hij Hi [Hj | [Hj HS]]%lookup_app_Some a.
  - apply lookup_lt_Some in Hj as Hlt. rewrite lookup_app_l in Hi by lia. by apply (HC i j).
  - apply list_lookup_singleton_Some in HS as [Ej <-]. apply lookup_app_Some in Hi as [Hi | [Hi HS]].
    + apply lookup_lt_Some in Hi as Hlt. apply (HC i (length Σ - 1)); [lia | done | by apply top_lookup].
    + apply list_lookup_singleton_Some in HS as [_ <-]. apply grows_option_refl.
Qed.
Lemma coherent_set_top Σ x v w : Σ <> [] -> coherent Σ -> top Σ !! x = Some v -> grows v w -> coherent (set_top Σ x w).
Proof.
  intros Hne HC Hx Hg. pose proof (top_lookup Σ Hne) as Ht. unfold set_top. intros i j Si Sj Hij Hi Hj a.
  pose proof (lookup_lt_Some _ _ _ Hj) as Hlt. rewrite length_insert in Hlt.
  destruct (decide (j = length Σ - 1)) as [-> |].
  - rewrite list_lookup_insert_eq in Hj by lia. injection Hj as <-.
    destruct (decide (i = length Σ - 1)) as [-> |]; [rewrite list_lookup_insert_eq in Hi by lia; injection Hi as <-; apply grows_option_refl |].
    rewrite list_lookup_insert_ne in Hi by done. eapply grows_option_trans; [by eapply (HC i (length Σ - 1)) |].
    destruct (decide (a = x)) as [-> |]; [rewrite Hx, lookup_insert_eq; by apply Some_Forall2 |]. rewrite lookup_insert_ne by done. apply grows_option_refl.
  - rewrite list_lookup_insert_ne in Hi, Hj by lia. by apply (HC i j).
Qed.

(** ** Association lists in the order of insertion *)
Definition pair_of (v : entry) : option (Key * Data) := d ← v.2; Some (v.1, d).
(** What a snapshot of the elements says of the map. *)
Definition view (S : gmap addr entry) (l : list addr) : list (Key * Data) := omap (fun a => v ← S !! a; pair_of v) l.
Fixpoint alookup (k : Key) (al : list (Key * Data)) : option Data :=
  match al with [] => None | (k', d) :: al => if bool_decide (k' = k) then Some d else alookup k al end.
Fixpoint aset (k : Key) (d : Data) (al : list (Key * Data)) : list (Key * Data) :=
  match al with [] => [] | (k', d') :: al => if bool_decide (k' = k) then (k', d) :: al else (k', d') :: aset k d al end.

Lemma view_app S l1 l2 : view S (l1 ++ l2) = view S l1 ++ view S l2.
Proof. apply omap_app. Qed.
Lemma view_ext S S' l : (forall a, a ∈ l -> S !! a = S' !! a) -> view S l = view S' l.
Proof.
  unfold view. induction l as [|a l IH]; intros HS; [done |]. cbn. rewrite (HS a) by (by left). rewrite IH; [done |]. intros b Hb. apply HS. by right.
Qed.
Lemma view_insert S x v l : x ∉ l -> view (<[x:=v]> S) l = view S l.
Proof. intros Hx. apply view_ext. intros a Ha. rewrite lookup_insert_ne; [done |]. by intros ->. Qed.
Lemma view_cons S a l k v : S !! a = Some (k, v) -> view S (a :: l) = match v with Some d => (k, d) :: view S l | None => view S l end.
Proof. intros HS. unfold view. cbn. rewrite HS. by destruct v. Qed.

(** Elements of different keys. *)
Definition unique_key (S : gmap addr entry) (l : list addr) (k : Key) (a : addr) : Prop := forall b v, b ∈ l -> S !! b = Some (k, v) -> b = a.
Lemma unique_key_cons S b l k a : unique_key S (b :: l) k a -> unique_key S l k a.
Proof. intros HU c v Hc. apply HU. by right. Qed.
Lemma alookup_view S l k a d : a ∈ l -> S !! a = Some (k, Some d) -> unique_key S l k a -> alookup k (view S l) = Some d.
Proof.
  induction l as [|b l IH]; intros Ha HS HU; [by apply not_elem_of_nil in Ha |].
  destruct (decide (b = a)) as [-> | Hne].
  - rewrite (view_cons _ _ _ _ _ HS). cbn. by rewrite bool_decide_true.
  - apply elem_of_cons in Ha as [-> | Ha]; [done |]. specialize (IH Ha HS (unique_key_cons _ _ _ _ _ HU)).
    destruct (S !! b) as [[k' v]|] eqn:Eb; [| unfold view; cbn; by rewrite Eb]. rewrite (view_cons _ _ _ _ _ Eb). destruct v as [d' |]; [| done].
    cbn. rewrite bool_decide_false; [done |]. intros ->. by apply Hne, (HU b (Some d')); [left |].
Qed.
Lemma alookup_view_none S l k : (forall a v, a ∈ l -> S !! a <> Some (k, v)) -> alookup k (view S l) = None.
Proof.
  induction l as [|b l IH]; intros HS; [done |]. assert (IHl : alookup k (view S l) = None) by (apply IH; intros a v Ha; apply HS; by right).
  destruct (S !! b) as [[k' v]|] eqn:Eb; [| unfold view; cbn; by rewrite Eb]. rewrite (view_cons _ _ _ _ _ Eb). destruct v as [d' |]; [| done].
  cbn. rewrite bool_decide_false; [done |]. intros ->. by apply (HS b (Some d')); [left |].
Qed.
Lemma aset_other k d al : alookup k al = None -> aset k d al = al.
Proof. induction al as [|[k' d'] al IH]; cbn; [done |]. case_bool_decide; [done |]. intros E. by rewrite IH. Qed.
Lemma view_set S l k a d d' : NoDup l -> a ∈ l -> S !! a = Some (k, Some d') -> unique_key S l k a -> view (<[a:=(k, Some d)]> S) l = aset k d (view S l).
Proof.
  induction l as [|b l IH]; intros Hnd Ha HS HU; [by apply not_elem_of_nil in Ha |]. apply NoDup_cons in Hnd as [Hb Hnd].
  destruct (decide (b = a)) as [-> | Hne].
  - rewrite (view_cons _ _ _ _ _ HS). erewrite view_cons by apply lookup_insert_eq. cbn. rewrite bool_decide_true by done. by rewrite view_insert.
  - apply elem_of_cons in Ha as [-> | Ha]; [done |]. specialize (IH Hnd Ha HS (unique_key_cons _ _ _ _ _ HU)).
    destruct (S !! b) as [[k' v]|] eqn:Eb.
    + rewrite (view_cons _ _ _ _ _ Eb). erewrite view_cons by (rewrite lookup_insert_ne; [exact Eb | done]). rewrite IH. destruct v as [d0 |]; [| done].
      cbn. rewrite bool_decide_false; [done |]. intros ->. by apply Hne, (HU b (Some d0)); [left |].
    + unfold view in *. cbn. rewrite lookup_insert_ne by done. by rewrite Eb.
Qed.

(** ** The ring of the map *)
Abbreviation CM := (CDHashMap Key Data).
Abbreviation St := (Context (Element Key Data)).
Lemma run_on_context {A} {m : SM St A} {s : CM} {a c} : m (d_context s) = Ok (a, c) ->
  on_context m s = Ok (a, MkCDHashMap c (d_map s) (d_first s) (d_next s) (d_prev s) (d_trash s)).
Proof. intros E. unfold on_context. by rewrite E. Qed.
Definition with_links (f : option addr) (nx pv : gmap addr addr) (s : CM) : CM := MkCDHashMap (d_context s) (d_map s) f nx pv (d_trash s).
Record linked (s : CM) (l : list addr) : Prop := {
  linked_first : d_first s = head l;
  linked_ring : ring (d_next s) (d_prev s) l;
  linked_nodup : NoDup l
}.
Lemma run_read_next (s : CM) a b : d_next s !! a = Some b -> read_next a s = Ok (b, s).
Proof. unfold read_next. by intros ->. Qed.
Lemma run_read_prev (s : CM) a b : d_prev s !! a = Some b -> read_prev a s = Ok (b, s).
Proof. unfold read_prev. by intros ->. Qed.

Lemma link_last_ok (s : CM) l a : linked s l -> a ∉ l ->
  exists f nx pv, link_last a s = Ok (tt, with_links f nx pv s) /\ linked (with_links f nx pv s) (l ++ [a]).
Proof.
  intros [Hf Hr Hnd] Ha. unfold link_last. rewrite run_gets. destruct l as [|f l]; cbn [head] in Hf; rewrite Hf.
  - eexists _, _, _. split; [reflexivity |]. split; cbn; [done | apply ring_single | apply NoDup_singleton].
  - pose proof (ring_prev _ _ [] _ _ Hr) as Hp. destruct (last (f :: l ++ [])) as [p|] eqn:El; [| by apply last_None in El].
    rewrite (run_bind (run_read_prev _ _ _ Hp)). eexists _, _, _. split; [reflexivity |]. split; cbn [with_links d_first d_next d_prev].
    + done.
    + by apply ring_snoc.
    + apply NoDup_app. split; [done |]. split; [| apply NoDup_singleton]. intros x Hx ->%list_elem_of_singleton. done.
Qed.

Lemma nodup_remove {A} (l1 : list A) a l2 : NoDup (l1 ++ a :: l2) -> NoDup (l1 ++ l2) /\ a ∉ l1 ++ l2.
Proof. intros Hnd. rewrite <- Permutation_middle in Hnd. by apply NoDup_cons in Hnd as [? ?]. Qed.
Lemma unlink_first_ok (s : CM) l1 a l2 : linked s (l1 ++ a :: l2) -> unlink_first a s = Ok (tt, with_links (head (l1 ++ l2)) (d_next s) (d_prev s) s).
Proof.
  intros [Hf Hr Hnd]. pose proof (ring_next _ _ _ _ _ Hr) as Hn. pose proof (ring_prev _ _ _ _ _ Hr) as Hp.
  apply nodup_remove in Hnd as [Hnd Ha]. unfold unlink_first. rewrite run_gets, Hf. destruct l1 as [|b l1]; cbn [app head] in *.
  - rewrite bool_decide_true by done. destruct l2 as [|b l2]; cbn [app head] in *.
    + rewrite (run_bind (run_read_next _ _ _ Hn)), bool_decide_true by done. rewrite (run_bind (run_read_prev _ _ _ Hp)). by rewrite bool_decide_true.
    + rewrite (run_bind (run_read_next _ _ _ Hn)), bool_decide_false; [done |]. intros ->. apply Ha. by left.
  - rewrite bool_decide_false; [by destruct s; cbn in *; subst |]. intros [= ->]. apply Ha. by left.
Qed.
(** The element out of the ring; the two assignments in either order. *)
Lemma unlink_ok (s : CM) l1 a l2 : linked s (l1 ++ a :: l2) -> exists n p,
  d_next s !! a = Some n /\ d_prev s !! a = Some p /\
  linked (with_links (head (l1 ++ l2)) (<[p:=n]> (d_next s)) (<[n:=p]> (d_prev s)) s) (l1 ++ l2).
Proof.
  intros [Hf Hr Hnd]. pose proof (ring_next _ _ _ _ _ Hr) as Hn. pose proof (ring_prev _ _ _ _ _ Hr) as Hp.
  destruct (head (l2 ++ l1 ++ [a])) as [n|] eqn:En; [| apply head_None in En; by destruct l2, l1]. destruct (last (a :: l2 ++ l1)) as [p|] eqn:Ep; [| by apply last_None in Ep].
  exists n, p. split; [done |]. split; [done |]. split; cbn; [done | by apply (ring_unlink _ _ l1 a l2) | by apply nodup_remove in Hnd as [? _]].
Qed.

Lemma walk_ok (s : CM) fuel : forall l1 a l2, linked s (l1 ++ a :: l2) -> length (a :: l2) <= fuel -> walk fuel a s = Ok (a :: l2, s).
Proof.
  induction fuel as [|fuel IH]; intros l1 a l2 HL Hfuel; cbn in Hfuel; [lia |]. cbn [walk].
  pose proof (ring_next _ _ _ _ _ (linked_ring _ _ HL)) as Hn. pose proof (linked_first _ _ HL) as Hf. pose proof (linked_nodup _ _ HL) as Hnd.
  destruct l2 as [|b l2]; cbn [app head] in Hn.
  - destruct (head (l1 ++ [a])) as [n|] eqn:En; [| apply head_None in En; by destruct l1]. rewrite (run_bind (run_read_next _ _ _ Hn)), run_gets, Hf.
    by rewrite bool_decide_true.
  - rewrite (run_bind (run_read_next _ _ _ Hn)), run_gets, Hf. rewrite bool_decide_false.
    + erewrite run_bind; [reflexivity |]. apply (IH (l1 ++ [a])); [by rewrite <- app_assoc | cbn in Hfuel |- *; lia].
    + intros Hh. rewrite Permutation_app_comm in Hnd. cbn [app] in Hnd. apply NoDup_cons in Hnd as [Ha Hnd]. apply NoDup_cons in Hnd as [Hb _].
      destruct l1 as [|c l1]; cbn in Hh; injection Hh as ->; [apply Ha; by left | apply Hb, elem_of_app; right; by left].
Qed.
Lemma ring_elements_ok (s : CM) l : linked s l -> length l <= size (d_map s) -> elements s = Ok (l, s).
Proof.
  intros HL Hsz. unfold elements. rewrite !run_gets, (linked_first _ _ HL). destruct l as [|a l]; [done |]. cbn [head]. by apply (walk_ok s _ [] a l).
Qed.

(** ** The invariant *)
Definition with_ctx (c : St) (s : CM) : CM := MkCDHashMap c (d_map s) (d_first s) (d_next s) (d_prev s) (d_trash s).
(** Between the pop of the context and the end of the calls of [restore], the elements of [todo] may have left the map. *)
Record Inv (todo : list addr) (s : CM) (Σ : Snaps) (l : list addr) : Prop := {
  inv_ctx : Refines (d_context s) Σ;
  inv_coherent : coherent Σ;
  inv_linked : linked s l;
  inv_in a : a ∈ l -> exists k v, top Σ !! a = Some (k, v) /\ d_map s !! k = Some a /\ (a ∈ todo \/ is_Some v);
  inv_map k a : d_map s !! k = Some a -> a ∈ l /\ exists v, top Σ !! a = Some (k, v);
  inv_size : size (d_map s) = length l;
  inv_trash a : a ∈ d_trash s -> a ∉ l /\ exists k, top Σ !! a = Some (k, None);
  inv_trash_nodup : NoDup (d_trash s)
}.
Definition views (Σ : Snaps) (l : list addr) : list (list (Key * Data)) := map (fun S => view S l) Σ.
(** The state stands for a stack of association lists. *)
Definition Stands (s : CM) (A : list (list (Key * Data))) : Prop := exists Σ l, Inv [] s Σ l /\ A = views Σ l.

Lemma top_map (f : gmap addr entry -> gmap addr entry) (Σ : Snaps) : Σ <> [] -> top (map f Σ) = f (top Σ).
Proof. intros Hne. unfold top. change (map f Σ) with (f <$> Σ). rewrite fmap_last. destruct (last Σ) as [S|] eqn:E; [done |]. by apply last_None in E. Qed.
Lemma top_set_top (Σ : Snaps) x v : Σ <> [] -> top (set_top Σ x v) = <[x:=v]> (top Σ).
Proof.
  intros Hne. unfold top at 1, set_top. rewrite last_lookup, length_insert. replace (pred (length Σ)) with (length Σ - 1) by lia.
  rewrite list_lookup_insert_eq; [done |]. destruct Σ; [done | cbn; lia].
Qed.
Lemma map_nonempty {A B} (f : A -> B) l : l <> [] -> map f l <> [].
Proof. by destruct l. Qed.
Lemma inv_nonempty todo s Σ l : Inv todo s Σ l -> Σ <> [].
Proof. intros HI. apply (refines_nonempty _ _ (inv_ctx _ _ _ _ HI)). Qed.

(** Reading an element. *)
Lemma getData_ok (s : CM) Σ a k v : Refines (d_context s) Σ -> top Σ !! a = Some (k, v) ->
  exists e, on_context (getData a) s = Ok (e, s) /\ d_key e = k /\ v = if d_inMap e then Some (d_data e) else None.
Proof.
  intros HR Ha. destruct (refines_observes _ _ _ _ HR Ha) as (e & v' & E & [Hk Hv] & Ev). cbn in Ev. subst v'. exists e. split; [| done].
  unfold on_context. rewrite E. by destruct s.
Qed.
Lemma inv_unique s Σ l k a : Inv [] s Σ l -> d_map s !! k = Some a -> unique_key (top Σ) l k a.
Proof.
  intros HI Hm b v Hb HS. destruct (inv_in _ _ _ _ HI b Hb) as (k' & v' & Hb' & Hm' & _). rewrite HS in Hb'. injection Hb' as <- <-. congruence.
Qed.
(** The table finds what the top of the stack has. *)
Lemma table_lookup s Σ l k : Inv [] s Σ l ->
  match d_map s !! k with
  | Some a => exists d, a ∈ l /\ top Σ !! a = Some (k, Some d) /\ alookup k (view (top Σ) l) = Some d
  | None => alookup k (view (top Σ) l) = None
  end.
Proof.
  intros HI. destruct (d_map s !! k) as [a|] eqn:Em.
  - destruct (inv_map _ _ _ _ HI k a Em) as [Ha [v Hv]]. destruct (inv_in _ _ _ _ HI a Ha) as (k' & v' & Hv' & _ & [Hn | [d Hd]]); [by apply not_elem_of_nil in Hn |].
    rewrite Hv in Hv'. injection Hv' as <- <-. subst v. exists d. split; [done |]. split; [done |]. apply (alookup_view _ _ _ a); [done | done |]. by apply (inv_unique s).
  - apply alookup_view_none. intros a v Ha HS. destruct (inv_in _ _ _ _ HI a Ha) as (k' & v' & Hv' & Hm & _). rewrite HS in Hv'. injection Hv' as <- <-. congruence.
Qed.

(** ** The trash *)
Fixpoint delete_from (l : list addr) (S : gmap addr entry) : gmap addr entry := match l with [] => S | a :: l => delete_from l (delete a S) end.
Lemma delete_from_other l : forall S a, a ∉ l -> delete_from l S !! a = S !! a.
Proof.
  induction l as [|b l IH]; intros S a Ha; [done |]. apply not_elem_of_cons in Ha as [Hne Ha]. cbn. rewrite IH by done. by rewrite lookup_delete_ne.
Qed.
Lemma coherent_delete_from l : forall Σ, coherent Σ -> coherent (map (delete_from l) Σ).
Proof.
  induction l as [|a l IH]; intros Σ HC; cbn [delete_from]; [by rewrite map_id |]. rewrite <- (map_map (delete a) (delete_from l)). by apply IH, coherent_delete.
Qed.
Lemma delete_all_ok l : forall (s : CM) Σ, Refines (d_context s) Σ -> NoDup l -> (forall a, a ∈ l -> is_Some (top Σ !! a)) ->
  exists c, delete_all default_key l s = Ok (tt, with_ctx c s) /\ Refines c (map (delete_from l) Σ).
Proof.
  induction l as [|a l IH]; intros s Σ HR Hnd Hl; cbn [delete_all delete_from].
  - exists (d_context s). split; [by destruct s |]. by rewrite map_id.
  - apply NoDup_cons in Hnd as [Ha Hnd]. destruct (destroy_refines _ _ a HR (Hl a ltac:(by left))) as (c1 & E1 & HR1). rewrite (run_bind (run_on_context E1)).
    destruct (IH (with_ctx c1 s) _ HR1 Hnd) as (c2 & E2 & HR2).
    + intros b Hb. rewrite top_map by apply (refines_nonempty _ _ HR). rewrite lookup_delete_ne by congruence. apply Hl. by right.
    + exists c2. split; [exact E2 |]. by rewrite map_map in HR2.
Qed.
Lemma views_ext (f : gmap addr entry -> gmap addr entry) Σ l l' : (forall S, S ∈ Σ -> view (f S) l' = view S l) -> views (map f Σ) l' = views Σ l.
Proof. intros Hf. unfold views. rewrite map_map. apply map_ext_in. intros S HS. apply Hf. by apply list_elem_of_In. Qed.
Lemma emptyTrash_inv s Σ l : Inv [] s Σ l -> exists s' Σ', emptyTrash default_key s = Ok (tt, s') /\ Inv [] s' Σ' l /\ views Σ' l = views Σ l /\ d_trash s' = [] /\ d_map s' = d_map s.
Proof.
  intros HI. pose proof (inv_nonempty _ _ _ _ HI) as Hne. pose proof HI as [HR HC HL Hin Hmap Hsz Htr Hnd]. unfold emptyTrash. rewrite run_gets.
  destruct (delete_all_ok (d_trash s) s Σ HR Hnd) as (c & E & HR').
  { intros a Ha. destruct (Htr a Ha) as [_ [k ->]]. by eexists. }
  rewrite (run_bind E). eexists _, _. split; [reflexivity |].
  assert (Hkeep : forall a, a ∈ l -> forall S, delete_from (d_trash s) S !! a = S !! a).
  { intros a Ha S. apply delete_from_other. intros Ht. by destruct (Htr a Ht). }
  split; [| split; [apply views_ext; intros S _; apply view_ext; by intros; apply Hkeep | done]].
  split; cbn; try done.
  - by apply coherent_delete_from.
  - destruct HL. by split.
  - intros a Ha. rewrite top_map, Hkeep by done. by apply Hin.
  - intros k a Hk. destruct (Hmap k a Hk) as [Ha Hv]. split; [done |]. by rewrite top_map, Hkeep.
  - intros a Ha. by apply not_elem_of_nil in Ha.
  - constructor.
Qed.

(** ** Insertions *)
Definition atop (A : list (list (Key * Data))) : list (Key * Data) := default [] (last A).
Definition set_atop (A : list (list (Key * Data))) (al : list (Key * Data)) : list (list (Key * Data)) := <[length A - 1 := al]> A.
Lemma atop_views Σ l : Σ <> [] -> atop (views Σ l) = view (top Σ) l.
Proof. intros Hne. unfold atop, top, views. change (map ?f Σ) with (f <$> Σ). rewrite fmap_last. destruct (last Σ) as [S|] eqn:E; [done |]. by apply last_None in E. Qed.
Lemma views_set_top Σ x v l : views (set_top Σ x v) l = set_atop (views Σ l) (view (<[x:=v]> (top Σ)) l).
Proof. unfold views, set_atop, set_top. rewrite length_map. change (map ?f ?m) with (f <$> m). by rewrite list_fmap_insert. Qed.

(** The rest of the constructor, and the entry in the table. *)
Definition enter_table (k : Key) (a : addr) : SM CM addr := _ ← link_last a; m ← gets d_map; _ ← set_map (<[k:=a]> m); mret a.
Lemma enter_table_ok s Σ l k d c Σ' x : Inv [] s Σ l -> d_map s !! k = None -> top Σ !! x = None ->
  Refines c Σ' -> coherent Σ' -> top Σ' = <[x:=(k, Some d)]> (top Σ) ->
  exists s', enter_table k x (with_ctx c s) = Ok (x, s') /\ Inv [] s' Σ' (l ++ [x]) /\ x ∉ l.
Proof.
  intros HI Hk Hx HR' HC' Ht. pose proof HI as [HR HC HL Hin Hmap Hsz Htr Hnd].
  assert (Hxl : x ∉ l) by (intros Hxl; destruct (Hin x Hxl) as (? & ? & ? & _); congruence).
  destruct (link_last_ok (with_ctx c s) l x) as (f & nx & pv & E & HL'); [destruct HL; by split | done |].
  unfold enter_table. rewrite (run_bind E). eexists. split; [reflexivity |]. split; [| done]. split; cbn; try done.
  - destruct HL'. by split.
  - intros a Ha. rewrite Ht. apply elem_of_app in Ha as [Ha | ->%list_elem_of_singleton].
    + rewrite lookup_insert_ne by (by intros ->). destruct (Hin a Ha) as (k' & v & H1 & H2 & H3). exists k', v. split; [done |]. split; [| done].
      rewrite lookup_insert_ne; [done |]. intros ->. congruence.
    + exists k, (Some d). rewrite !lookup_insert_eq. split; [done |]. split; [done |]. right. by eexists.
  - intros k' a Hm. rewrite Ht. destruct (decide (k' = k)) as [-> | Hne].
    + rewrite lookup_insert_eq in Hm. injection Hm as ->. split; [apply elem_of_app; right; by left |]. rewrite lookup_insert_eq. by eexists.
    + rewrite lookup_insert_ne in Hm by done. destruct (Hmap k' a Hm) as [Ha Hv]. split; [apply elem_of_app; by left |]. rewrite lookup_insert_ne; [done |]. by intros ->.
  - rewrite map_size_insert_None by done. rewrite length_app, Hsz. cbn. lia.
  - intros a Ha. destruct (Htr a Ha) as [Hal [k' Hk']]. assert (a <> x) by congruence. split.
    + intros [? | ?%list_elem_of_singleton]%elem_of_app; done.
    + exists k'. by rewrite Ht, lookup_insert_ne by done.
Qed.

Lemma new_element_ok s A k d : Stands s A -> d_map s !! k = None ->
  exists a s', new_element default_key default_data k d false s = Ok (a, s') /\ Stands s' (set_atop A (atop A ++ [(k, d)])) /\ d_map s' !! k = Some a.
Proof.
  intros (Σ & l & HI & ->) Hk. pose proof (inv_nonempty _ _ _ _ HI) as Hne. pose proof (inv_ctx _ _ _ _ HI) as HR.
  destruct (new_refines (d_context s) Σ (MkElement k default_data false) (k, None) HR) as (x & c1 & E1 & Hx & HR1); [by split |]. cbn [cd_vis Element_spec] in HR1.
  pose proof (map_nonempty (<[x:=(k, None)]>) _ Hne) as Hne1.
  assert (Ht1 : top (map (<[x:=(k, None)]>) Σ) !! x = Some (k, None)) by (rewrite top_map by done; apply lookup_insert_eq).
  destruct (mutate_refines c1 _ x (k, None) _ _ _ HR1 Ht1 (enter_ok d) I) as (c2 & E2 & HR2). cbn [fst] in HR2.
  set (Σ' := set_top (map (<[x:=(k, None)]>) Σ) x (k, Some d)) in *.
  destruct (enter_table_ok s Σ l k d c2 Σ' x HI Hk Hx HR2) as (s' & E & HI' & Hxl).
  { by eapply coherent_set_top; [| apply coherent_insert, HI | exact Ht1 | split]. }
  { unfold Σ'. rewrite top_set_top, top_map by done. apply insert_insert_eq. }
  exists x, s'. split; [| split].
  - unfold new_element. erewrite run_bind; [exact E |]. rewrite (run_bind (run_on_context E1)). exact (run_bind (run_on_context (s := with_ctx c1 s) E2)).
  - exists Σ', (l ++ [x]). split; [done |]. unfold Σ'. rewrite views_set_top, atop_views, top_map, insert_insert_eq by done.
    rewrite view_app, view_insert by done. erewrite (view_cons _ x []) by apply lookup_insert_eq. f_equal. symmetry. apply views_ext.
    intros S _. rewrite view_app, view_insert by done. erewrite (view_cons _ x []) by apply lookup_insert_eq. apply app_nil_r.
  - unfold enter_table in E. revert E. unfold mbind, SM_bind. destruct (link_last x (with_ctx c2 s)) as [[[] s1]|]; [| done]. cbn. intros [= <-]. apply lookup_insert_eq.
Qed.

Lemma stands_nonempty s A : Stands s A -> A <> [].
Proof. intros (Σ & l & HI & ->). apply map_nonempty, (inv_nonempty _ _ _ _ HI). Qed.
Lemma atop_set_atop A al : A <> [] -> atop (set_atop A al) = al.
Proof.
  intros Hne. unfold atop, set_atop. rewrite last_lookup, length_insert. replace (pred (length A)) with (length A - 1) by lia.
  rewrite list_lookup_insert_eq; [done |]. destruct A; [done | cbn; lia].
Qed.
Lemma set_atop_twice A al al' : set_atop (set_atop A al) al' = set_atop A al'.
Proof. unfold set_atop. by rewrite length_insert, list_insert_insert_eq. Qed.
Lemma table_stands s A k : Stands s A -> match d_map s !! k with Some _ => is_Some (alookup k (atop A)) | None => alookup k (atop A) = None end.
Proof.
  intros (Σ & l & HI & ->). rewrite atop_views by apply (inv_nonempty _ _ _ _ HI). pose proof (table_lookup s Σ l k HI) as Ht.
  destruct (d_map s !! k); [| done]. destruct Ht as (d & _ & _ & ->). by eexists.
Qed.
Lemma set_element_ok s A k a d : Stands s A -> d_map s !! k = Some a ->
  exists s', on_context (mutate (set_to d) a) s = Ok (tt, s') /\ Stands s' (set_atop A (aset k d (atop A))).
Proof.
  intros (Σ & l & HI & ->) Hk. pose proof (inv_nonempty _ _ _ _ HI) as Hne. pose proof (table_lookup s Σ l k HI) as Ht. rewrite Hk in Ht. destruct Ht as (d0 & Ha & HS & _).
  pose proof (inv_unique _ _ _ _ _ HI Hk) as HU. destruct (mutate_refines (d_context s) Σ a _ _ _ _ (inv_ctx _ _ _ _ HI) HS (set_to_ok d)) as (c & E & HR'); [by eexists |]. cbn [fst] in HR'.
  eexists. split; [apply (run_on_context E) |]. exists (set_top Σ a (k, Some d)), l. destruct HI as [HR HC HL Hin Hmap Hsz Htr Hnd]. split.
  - split; cbn; try done; rewrite ?top_set_top by done.
    + eapply coherent_set_top; [done | done | exact HS |]. split; [done |]. by intros _.
    + destruct HL. by split.
    + intros b Hb. destruct (Hin b Hb) as (k' & v & H1 & H2 & H3). destruct (decide (b = a)) as [-> | Hba].
      * rewrite HS in H1. injection H1 as <- <-. exists k, (Some d). rewrite lookup_insert_eq. split; [done |]. split; [done |]. right. by eexists.
      * exists k', v. by rewrite lookup_insert_ne by done.
    + intros k' b Hb. destruct (Hmap k' b Hb) as [Hbl [v Hv]]. split; [done |]. destruct (decide (b = a)) as [-> | Hba].
      * rewrite HS in Hv. injection Hv as <- <-. rewrite lookup_insert_eq. by eexists.
      * rewrite lookup_insert_ne by done. by eexists.
    + intros b Hb. destruct (Htr b Hb) as [Hbl Hv]. split; [done |]. rewrite lookup_insert_ne; [done |]. by intros ->.
  - rewrite views_set_top, atop_views by done. f_equal. symmetry. by apply (view_set _ _ _ _ _ d0); [apply HL | | |].
Qed.

Definition ainsert (k : Key) (d : Data) (al : list (Key * Data)) : list (Key * Data) :=
  match alookup k al with Some _ => aset k d al | None => al ++ [(k, d)] end.
Lemma emptyTrash_ok s A : Stands s A -> exists s', emptyTrash default_key s = Ok (tt, s') /\ Stands s' A.
Proof. intros (Σ & l & HI & ->). destruct (emptyTrash_inv s Σ l HI) as (s' & Σ' & E & HI' & Hv & _). exists s'. split; [done |]. by exists Σ', l. Qed.
Lemma insert_ok s A k d : Stands s A ->
  exists s', insert default_key default_data k d s = Ok (bool_decide (alookup k (atop A) = None), s') /\ Stands s' (set_atop A (ainsert k d (atop A))).
Proof.
  intros HS. destruct (emptyTrash_ok s A HS) as (s1 & E1 & HS1). unfold insert. rewrite (run_bind E1), run_gets. pose proof (table_stands s1 A k HS1) as Hl. unfold ainsert.
  destruct (d_map s1 !! k) as [a|] eqn:Em.
  - destruct Hl as [d0 ->]. rewrite bool_decide_false by done. destruct (set_element_ok s1 A k a d HS1 Em) as (s2 & E2 & HS2). rewrite (run_bind E2). by exists s2.
  - rewrite Hl, bool_decide_true by done. destruct (new_element_ok s1 A k d HS1 Em) as (a & s2 & E2 & HS2 & _). rewrite (run_bind E2). by exists s2.
Qed.
Lemma aset_snoc k d d' al : alookup k al = None -> aset k d (al ++ [(k, d')]) = al ++ [(k, d)].
Proof.
  induction al as [|[k' d0] al IH]; cbn; [intros _; by rewrite bool_decide_true |]. case_bool_decide; [done |]. intros E. by rewrite IH.
Qed.
Lemma assign_ok s A k d : Stands s A -> exists s', assign default_key default_data k d s = Ok (tt, s') /\ Stands s' (set_atop A (ainsert k d (atop A))).
Proof.
  intros HS. destruct (emptyTrash_ok s A HS) as (s1 & E1 & HS1). unfold assign. pose proof (table_stands s1 A k HS1) as Hl. unfold ainsert.
  assert (Hi : index default_key default_data k s = match d_map s1 !! k with Some a => Ok (a, s1) | None => new_element default_key default_data k default_data false s1 end).
  { unfold index. rewrite (run_bind E1), run_gets. by destruct (d_map s1 !! k). }
  destruct (d_map s1 !! k) as [a|] eqn:Em.
  - destruct Hl as [d0 ->]. rewrite (run_bind Hi). by apply set_element_ok.
  - rewrite Hl. destruct (new_element_ok s1 A k default_data HS1 Em) as (a & s2 & E2 & HS2 & Ha). rewrite E2 in Hi. rewrite (run_bind Hi).
    destruct (set_element_ok s2 _ k a d HS2 Ha) as (s3 & E3 & HS3). exists s3. split; [done |].
    rewrite set_atop_twice, atop_set_atop, aset_snoc in HS3 by (done || by eapply stands_nonempty). done.
Qed.
Lemma insertAtContextLevelZero_ok s A k d : Stands s A -> alookup k (atop A) = None ->
  exists s', insertAtContextLevelZero default_key default_data k d s = Ok (tt, s') /\ Stands s' (map (fun al => al ++ [(k, d)]) A).
Proof.
  intros HS Hno. destruct (emptyTrash_ok s A HS) as (s1 & E1 & HS1). unfold insertAtContextLevelZero. rewrite (run_bind E1), run_gets. pose proof (table_stands s1 A k HS1) as Hl.
  destruct (d_map s1 !! k) as [a|] eqn:Em; [destruct Hl; congruence |]. rewrite bool_decide_true by done. cbn [check]. rewrite (run_bind (a := tt) (s1 := s1)) by done.
  destruct HS1 as (Σ & l & HI & ->). pose proof (inv_nonempty _ _ _ _ HI) as Hne.
  destruct (new_refines (d_context s1) Σ (MkElement k d true) (k, Some d) (inv_ctx _ _ _ _ HI)) as (x & c1 & E & Hx & HR1); [by split |]. cbn [cd_vis Element_spec] in HR1.
  destruct (enter_table_ok s1 Σ l k d c1 _ x HI Em Hx HR1) as (s2 & E2 & HI2 & Hxl); [by apply coherent_insert, HI | by apply top_map |].
  exists s2. split; [by rewrite (run_bind (a := x) (s1 := s2)); [| unfold new_element; rewrite (run_bind (run_on_context E))] |].
  exists (map <[x:=(k, Some d)]> Σ), (l ++ [x]). split; [done |]. unfold views. rewrite !map_map. apply map_ext. intros S.
  rewrite view_app, view_insert by done. by erewrite (view_cons _ x []) by apply lookup_insert_eq.
Qed.
Lemma insertAtContextLevelZero_fails s A k d : Stands s A -> is_Some (alookup k (atop A)) -> insertAtContextLevelZero default_key default_data k d s = Throw AssertionFailed.
Proof.
  intros HS [d0 Hd]. destruct (emptyTrash_ok s A HS) as (s1 & E1 & HS1). unfold insertAtContextLevelZero. rewrite (run_bind E1), run_gets. pose proof (table_stands s1 A k HS1) as Hl.
  destruct (d_map s1 !! k) as [a|] eqn:Em; [| congruence]. by rewrite bool_decide_false.
Qed.

(** ** Lookups and iteration *)
Lemma find_ok s A k : Stands s A -> exists s', find default_key k s = Ok (alookup k (atop A), s') /\ Stands s' A.
Proof.
  intros HS. destruct (emptyTrash_ok s A HS) as (s1 & E1 & HS1). unfold find. rewrite (run_bind E1), run_gets. exists s1. split; [| done].
  destruct HS1 as (Σ & l & HI & ->). rewrite atop_views by apply (inv_nonempty _ _ _ _ HI). pose proof (table_lookup s1 Σ l k HI) as Hl.
  destruct (d_map s1 !! k) as [a|]; [| by rewrite Hl]. destruct Hl as (d & _ & Ha & ->).
  destruct (getData_ok s1 Σ a k (Some d) (inv_ctx _ _ _ _ HI) Ha) as (e & E & _ & Hd). rewrite (run_bind E). destruct (d_inMap e); [| done]. by injection Hd as ->.
Qed.
Lemma count_ok s A k : Stands s A -> count s k = if bool_decide (alookup k (atop A) = None) then 0 else 1.
Proof. intros HS. unfold count. pose proof (table_stands s A k HS) as Hl. destruct (d_map s !! k); [destruct Hl as [d ->]; by rewrite bool_decide_false | by rewrite Hl, bool_decide_true]. Qed.
Lemma view_all (S : gmap addr entry) l : (forall a, a ∈ l -> exists k d, S !! a = Some (k, Some d)) -> length (view S l) = length l.
Proof.
  induction l as [|a l IH]; intros HS; [done |]. destruct (HS a) as (k & d & E); [by left |]. rewrite (view_cons _ _ _ _ _ E). cbn. f_equal. apply IH. intros b Hb. apply HS. by right.
Qed.
Lemma inv_all s Σ l a : Inv [] s Σ l -> a ∈ l -> exists k d, top Σ !! a = Some (k, Some d).
Proof. intros HI Ha. destruct (inv_in _ _ _ _ HI a Ha) as (k & v & Hv & _ & [Hn | [d ->]]); [by apply not_elem_of_nil in Hn |]. by exists k, d. Qed.
Lemma size_ok s A : Stands s A -> map_size s = length (atop A).
Proof.
  intros (Σ & l & HI & ->). rewrite atop_views by apply (inv_nonempty _ _ _ _ HI). rewrite view_all by (intros a; by apply inv_all with s). apply HI.
Qed.
Lemma read_all_ok s Σ l : Refines (d_context s) Σ -> (forall a, a ∈ l -> exists k d, top Σ !! a = Some (k, Some d)) -> read_all l s = Ok (view (top Σ) l, s).
Proof.
  intros HR. induction l as [|a l IH]; intros HS; [done |]. destruct (HS a) as (k & d & Ha); [by left |]. rewrite (view_cons _ _ _ _ _ Ha). cbn [read_all].
  destruct (getData_ok s Σ a k (Some d) HR Ha) as (e & E & Hk & Hd). rewrite (run_bind E). rewrite (run_bind (a := view (top Σ) l) (s1 := s)).
  - destruct (d_inMap e); [| done]. injection Hd as ->. by rewrite Hk.
  - apply IH. intros b Hb. apply HS. by right.
Qed.
Lemma iterate_ok s A : Stands s A -> iterate s = Ok (atop A, s).
Proof.
  intros (Σ & l & HI & ->). rewrite atop_views by apply (inv_nonempty _ _ _ _ HI). unfold iterate.
  rewrite (run_bind (ring_elements_ok s l (inv_linked _ _ _ _ HI) ltac:(by rewrite (inv_size _ _ _ _ HI)))). apply read_all_ok; [apply HI |]. intros a. by apply inv_all with s.
Qed.

(** ** Scopes *)
Lemma map_push_ok s A : Stands s A -> exists s', push_context s = Ok (tt, s') /\ Stands s' (A ++ [atop A]).
Proof.
  intros (Σ & l & HI & ->). pose proof (inv_nonempty _ _ _ _ HI) as Hne. destruct (push_refines _ _ (inv_ctx _ _ _ _ HI)) as (c & E & HR).
  eexists. split; [apply (run_on_context E) |]. exists (Σ ++ [top Σ]), l. destruct HI as [_ HC HL Hin Hmap Hsz Htr Hnd]. split.
  - split; cbn; rewrite ?top_app; try done; [by apply coherent_push | destruct HL; by split].
  - rewrite atop_views by done. unfold views. by rewrite map_app.
Qed.
(** An element that has left the map is in no association list. *)
Lemma views_drop Σ l1 a l2 k : Σ <> [] -> coherent Σ -> top Σ !! a = Some (k, None) -> views Σ (l1 ++ a :: l2) = views Σ (l1 ++ l2).
Proof.
  intros Hne HC Ha. unfold views. apply map_ext_in. intros S [i Hi]%list_elem_of_In%list_elem_of_lookup. pose proof (lookup_lt_Some _ _ _ Hi) as Hlt.
  rewrite !view_app. f_equal. assert (Hg : option_Forall2 grows (S !! a) (top Σ !! a)) by (apply (HC i (length Σ - 1)); [lia | done | by apply top_lookup]).
  rewrite Ha in Hg. inversion Hg as [[k' v] ? [_ Hv] E |]. rewrite (view_cons S a l2 k' v) by done. destruct v; [| done]. cbn in Hv. destruct Hv; [by eexists | done].
Qed.
Lemma remove_element_ok todo s Σ l1 a l2 k : Inv (a :: todo) s Σ (l1 ++ a :: l2) -> a ∉ todo -> top Σ !! a = Some (k, None) ->
  exists s', remove_element a s = Ok (tt, s') /\ Inv todo s' Σ (l1 ++ l2).
Proof.
  intros HI Hat Ha. pose proof HI as [HR HC HL Hin Hmap Hsz Htr Hnd]. destruct (Hin a) as (k' & v & Hv & Hm & _); [apply elem_of_app; right; by left |].
  rewrite Ha in Hv. injection Hv as <- <-. destruct (getData_ok s Σ a k None HR Ha) as (e & E & Hk & _). unfold remove_element. rewrite (run_bind E), run_gets, Hk.
  rewrite bool_decide_true by done. cbn [check]. rewrite (run_bind (a := tt) (s1 := s)) by done. rewrite (run_bind (a := tt) eq_refl).
  set (s1 := MkCDHashMap _ _ _ _ _ _). assert (HL1 : linked s1 (l1 ++ a :: l2)) by (destruct HL; by split).
  rewrite (run_bind (unlink_first_ok s1 l1 a l2 HL1)). destruct (unlink_ok s1 l1 a l2 HL1) as (n & p & Hn & Hp & HL2).
  set (s2 := with_links (head (l1 ++ l2)) (d_next s1) (d_prev s1) s1). unfold unlink_neighbours. erewrite run_bind; [| rewrite (run_bind (run_read_next s2 a n Hn)), (run_bind (run_read_prev s2 a p Hp)); reflexivity].
  eexists. split; [reflexivity |]. destruct (nodup_remove _ _ _ (linked_nodup _ _ HL)) as [Hnd2 Hal]. assert (Hsub : forall b, b ∈ l1 ++ l2 -> b ∈ l1 ++ a :: l2 /\ b <> a).
  { intros b Hb. split; [| by intros ->]. apply elem_of_app in Hb as [?|?]; apply elem_of_app; [by left | right; by right]. }
  split; cbn; try done.
  - destruct HL2. by split.
  - intros b Hb. destruct (Hsub b Hb) as [Hb' Hne]. destruct (Hin b Hb') as (k' & v & H1 & H2 & H3). exists k', v. split; [done |]. split.
    + rewrite lookup_delete_ne; [done |]. intros ->. congruence.
    + destruct H3 as [H3 | H3]; [| by right]. apply elem_of_cons in H3 as [-> | H3]; [done | by left].
  - intros k' b [Hne Hb]%lookup_delete_Some. destruct (Hmap k' b Hb) as [Hbl Hv]. split; [| done].
    apply elem_of_app in Hbl as [? | [-> | ?]%elem_of_cons]; apply elem_of_app; [by left | | by right]. destruct Hv as [v Hv]. rewrite Ha in Hv. congruence.
  - rewrite map_size_delete_Some by (by eexists). rewrite Hsz, !length_app. cbn. lia.
  - intros b [Hb | ->%list_elem_of_singleton]%elem_of_app; [| split; [done | by exists k]]. destruct (Htr b Hb) as [Hbl Hv]. split; [| done]. intros Hb'. by apply Hbl, Hsub.
  - apply NoDup_app. split; [done |]. split; [| apply NoDup_singleton]. intros b Hb ->%list_elem_of_singleton. destruct (Htr a Hb) as [Hc _]. apply Hc, elem_of_app. right. by left.
Qed.
Lemma remove_all_ok todo : forall s Σ l, Inv todo s Σ l -> NoDup todo -> (forall a, a ∈ todo -> a ∈ l) ->
  exists s' l', remove_all todo s = Ok (tt, s') /\ Inv [] s' Σ l' /\ views Σ l' = views Σ l.
Proof.
  induction todo as [|a todo IH]; intros s Σ l HI Hnd Hsub; [by exists s, l |]. apply NoDup_cons in Hnd as [Ha Hnd]. cbn [remove_all].
  destruct (inv_in _ _ _ _ HI a) as (k & v & Hv & Hm & _); [apply Hsub; by left |]. destruct (getData_ok s Σ a k v (inv_ctx _ _ _ _ HI) Hv) as (e & E & _ & Ev).
  rewrite (run_bind E). destruct (d_inMap e); subst v.
  - apply IH; [| done | intros b Hb; apply Hsub; by right]. destruct HI as [HR HC HL Hin Hmap Hsz Htr Htn]. split; try done.
    intros b Hb. destruct (Hin b Hb) as (k' & v & H1 & H2 & H3). exists k', v. split; [done |]. split; [done |].
    destruct H3 as [[-> | H3]%elem_of_cons | H3]; [right | by left | by right]. rewrite Hv in H1. injection H1 as <- <-. by eexists.
  - destruct (list_elem_of_split l a) as (l1 & l2 & ->); [apply Hsub; by left |].
    destruct (remove_element_ok todo s Σ l1 a l2 k HI Ha Hv) as (s1 & E1 & HI1). rewrite (run_bind E1).
    destruct (IH s1 Σ _ HI1 Hnd) as (s2 & l' & E2 & HI2 & Hvw).
    + intros b Hb. specialize (Hsub b ltac:(by right)). apply elem_of_app in Hsub as [? | [-> | ?]%elem_of_cons]; [apply elem_of_app; by left | done | apply elem_of_app; by right].
    + exists s2, l'. split; [done |]. split; [done |]. rewrite Hvw. symmetry. by eapply views_drop; [apply (inv_nonempty _ _ _ _ HI) | apply HI |].
Qed.
Lemma map_pop_ok s A : Stands s A -> 2 <= length A -> exists s', pop_context default_key s = Ok (tt, s') /\ Stands s' (take (length A - 1) A).
Proof.
  intros (Σ & l & HI & ->) Hlen. unfold views in Hlen. rewrite length_map in Hlen. pose proof HI as [HR HC HL Hin Hmap Hsz Htr Hnd].
  unfold pop_context. rewrite (run_bind (ring_elements_ok s l HL ltac:(lia))). destruct (pop_refines _ _ HR Hlen) as (c & E & HR'). rewrite (run_bind (run_on_context E)).
  pose proof (top_lookup Σ (inv_nonempty _ _ _ _ HI)) as Ht. set (Σ' := take (length Σ - 1) Σ) in *. pose proof (refines_nonempty _ _ HR') as Hne'.
  pose proof (top_lookup Σ' Hne') as Ht'. assert (Hg : forall a, option_Forall2 grows (top Σ' !! a) (top Σ !! a)).
  { intros a. apply lookup_take_Some in Ht' as [Ht' Hlt]. by apply (HC (length Σ' - 1) (length Σ - 1)); [lia | |]. }
  assert (HI' : Inv (rev l) (with_ctx c s) Σ' l).
  { split; cbn; try done.
    - by apply coherent_take.
    - destruct HL. by split.
    - intros a Ha. destruct (Hin a Ha) as (k & v & Hv & Hm & _). specialize (Hg a). rewrite Hv in Hg. inversion Hg as [[k' v'] ? [Hk _] E' |]. cbn in Hk. subst k'.
      exists k, v'. split; [done |]. split; [done |]. left. rewrite rev_alt; by apply elem_of_reverse.
    - intros k a Hm. destruct (Hmap k a Hm) as [Ha [v Hv]]. split; [done |]. specialize (Hg a). rewrite Hv in Hg. inversion Hg as [[k' v'] ? [Hk _] E' |]. cbn in Hk. subst k'. by exists v'.
    - intros a Ha. destruct (Htr a Ha) as [Hal [k Hk]]. split; [done |]. exists k. specialize (Hg a). rewrite Hk in Hg. inversion Hg as [[k' v'] ? [Hk' Hv'] E' |]. cbn in Hk', Hv'. subst k'.
      destruct v'; [| done]. by destruct (Hv' (mk_is_Some _ _ eq_refl)). }
  destruct (remove_all_ok (rev l) _ _ _ HI') as (s' & l' & E2 & HI2 & Hvw).
  - rewrite rev_alt. change (NoDup (reverse l)). rewrite reverse_Permutation. apply HL.
  - intros a. rewrite rev_alt; by apply elem_of_reverse.
  - exists s'. split; [exact E2 |]. exists Σ', l'. split; [done |]. rewrite Hvw. unfold views, Σ'. rewrite length_map. apply firstn_map.
Qed.

(** ** [clear] *)
Lemma table_addresses s Σ l : Inv [] s Σ l -> NoDup (map snd (map_to_list (d_map s))) /\ forall a, a ∈ map snd (map_to_list (d_map s)) <-> a ∈ l.
Proof.
  intros HI. assert (Hinj : forall k k' a, d_map s !! k = Some a -> d_map s !! k' = Some a -> k = k').
  { intros k k' a H1 H2. destruct (inv_map _ _ _ _ HI k a H1) as [_ [v Hv]], (inv_map _ _ _ _ HI k' a H2) as [_ [v' Hv']]. congruence. }
  split.
  - apply NoDup_fmap_2_strong; [| apply NoDup_map_to_list]. intros [k a] [k' b] Ha%elem_of_map_to_list Hb%elem_of_map_to_list. cbn. intros <-. f_equal. by eapply Hinj.
  - intros a. change (map snd ?m) with (snd <$> m). rewrite list_elem_of_fmap. split.
    + intros ([k b] & -> & Hb%elem_of_map_to_list). by destruct (inv_map _ _ _ _ HI k b Hb).
    + intros Ha. destruct (inv_in _ _ _ _ HI a Ha) as (k & v & _ & Hm & _). exists (k, a). split; [done |]. by apply elem_of_map_to_list.
Qed.
Lemma delete_from_in l : forall S a, a ∈ l -> delete_from l S !! a = None.
Proof.
  induction l as [|b l IH]; intros S a Ha; [by apply not_elem_of_nil in Ha |]. cbn. destruct (decide (a ∈ l)) as [Hin | Hin]; [by apply IH |].
  rewrite delete_from_other by done. apply elem_of_cons in Ha as [-> | Ha]; [apply lookup_delete_eq | done].
Qed.
Lemma clear_ok s A : Stands s A -> exists s', clear default_key s = Ok (tt, s') /\ Stands s' (map (fun _ => []) A).
Proof.
  intros (Σ0 & l & HI0 & ->). destruct (emptyTrash_inv s Σ0 l HI0) as (s1 & Σ & E1 & HI & Hvw & Htr & _). unfold clear. rewrite (run_bind E1), run_gets.
  destruct (table_addresses s1 Σ l HI) as [Hnd Hiff]. destruct (delete_all_ok (map snd (map_to_list (d_map s1))) s1 Σ (inv_ctx _ _ _ _ HI) Hnd) as (c & E & HR).
  { intros a Ha%Hiff. destruct (inv_in _ _ _ _ HI a Ha) as (k & v & -> & _). by eexists. }
  rewrite (run_bind E). rewrite (run_bind (a := tt) eq_refl), run_gets. cbn [d_trash with_ctx]. rewrite Htr. eexists. split; [reflexivity |].
  exists (map (delete_from (map snd (map_to_list (d_map s1)))) Σ), []. split.
  - split; cbn; rewrite ?Htr.
    + done.
    + apply coherent_delete_from, HI.
    + split; cbn; [done | done | constructor].
    + intros a Ha. by apply not_elem_of_nil in Ha.
    + intros k a Hk. by rewrite lookup_empty in Hk.
    + by rewrite map_size_empty.
    + intros a Ha. by apply not_elem_of_nil in Ha.
    + constructor.
  - rewrite <- Hvw. unfold views. by rewrite !map_map.
Qed.

(** ** [obliterate] *)
Definition adelete (k : Key) (al : list (Key * Data)) : list (Key * Data) := List.filter (fun p => negb (bool_decide (p.1 = k))) al.
Lemma adelete_cons k k' d al : adelete k ((k', d) :: al) = if bool_decide (k' = k) then adelete k al else (k', d) :: adelete k al.
Proof. unfold adelete. cbn. by case_bool_decide. Qed.
Lemma adelete_app k al al' : adelete k (al ++ al') = adelete k al ++ adelete k al'.
Proof. apply List.filter_app. Qed.
Lemma adelete_other k (S : gmap addr entry) l : (forall b v, b ∈ l -> S !! b <> Some (k, v)) -> adelete k (view S l) = view S l.
Proof.
  induction l as [|b l IH]; intros HS; [done |]. assert (IHl : adelete k (view S l) = view S l) by (apply IH; intros a v Ha; apply HS; by right).
  destruct (S !! b) as [[k' v]|] eqn:Eb; [| unfold view; cbn; by rewrite Eb]. rewrite (view_cons _ _ _ _ _ Eb). destruct v as [d' |]; [| done].
  rewrite adelete_cons, bool_decide_false; [by rewrite IHl |]. intros ->. by apply (HS b (Some d')); [left |].
Qed.
Lemma adelete_view k S l1 a l2 v : NoDup (l1 ++ a :: l2) -> S !! a = Some (k, v) -> unique_key S (l1 ++ a :: l2) k a ->
  view (delete a S) (l1 ++ l2) = adelete k (view S (l1 ++ a :: l2)).
Proof.
  intros [_ Ha]%nodup_remove HS HU. rewrite (view_ext (delete a S) S) by (intros b Hb; rewrite lookup_delete_ne; [done | by intros ->]).
  assert (Ho : forall b w, b ∈ l1 ++ l2 -> S !! b <> Some (k, w)).
  { intros b w Hb HSb. assert (b = a) as ->; [| done]. apply (HU b w); [| done]. apply elem_of_app in Hb as [?|?]; apply elem_of_app; [by left | right; by right]. }
  rewrite !view_app, (view_cons S a l2 k v HS). rewrite adelete_app, (adelete_other k S l1) by (intros b w Hb; apply Ho, elem_of_app; by left).
  f_equal. transitivity (adelete k (view S l2)); [symmetry; apply adelete_other; intros b w Hb; apply Ho, elem_of_app; by right |].
  destruct v; [| done]. by rewrite adelete_cons, bool_decide_true.
Qed.
Lemma alookup_view_inv S l k d : alookup k (view S l) = Some d -> exists a, a ∈ l /\ S !! a = Some (k, Some d).
Proof.
  induction l as [|b l IH]; [done |]. intros HS. destruct (S !! b) as [[k' v]|] eqn:Eb.
  - rewrite (view_cons _ _ _ _ _ Eb) in HS. destruct v as [d' |].
    + cbn in HS. case_bool_decide as Ek; [injection HS as ->; subst k'; exists b; split; [by left | done] |]. destruct (IH HS) as (a & Ha & HSa). exists a. split; [by right | done].
    + destruct (IH HS) as (a & Ha & HSa). exists a. split; [by right | done].
  - unfold view in HS. cbn in HS. rewrite Eb in HS. destruct (IH HS) as (a & Ha & HSa). exists a. split; [by right | done].
Qed.
(** The element of a key of the bottom scope. *)
Lemma bottom_element s Σ l al k d : Inv [] s Σ l -> views Σ l !! 0 = Some al -> alookup k al = Some d ->
  exists a S l1 l2, l = l1 ++ a :: l2 /\ Σ !! 0 = Some S /\ S !! a = Some (k, Some d) /\ d_map s !! k = Some a.
Proof.
  intros HI H0 Hk. unfold views in H0. apply list_lookup_fmap_Some in H0 as (S & -> & H0). destruct (alookup_view_inv _ _ _ _ Hk) as (a & Ha & HS).
  destruct (list_elem_of_split l a Ha) as (l1 & l2 & ->). exists a, S, l1, l2. split; [done |]. split; [done |]. split; [done |].
  destruct (inv_in _ _ _ _ HI a Ha) as (k' & v & Hv & Hm & _). pose proof (inv_coherent _ _ _ _ HI 0 (length Σ - 1) S (top Σ) ltac:(lia) H0 (top_lookup Σ (inv_nonempty _ _ _ _ HI)) a) as Hg.
  rewrite HS, Hv in Hg. inversion Hg as [? ? [Ek _] |]. cbn in Ek. by subst k'.
Qed.
(** The keys are the same in every snapshot. *)
Lemma snapshot_unique s Σ l S k a : Inv [] s Σ l -> S ∈ Σ -> d_map s !! k = Some a -> unique_key S l k a /\ (a ∈ l -> exists v, S !! a = Some (k, v)).
Proof.
  intros HI [i Hi]%list_elem_of_lookup Hm. pose proof (lookup_lt_Some _ _ _ Hi) as Hlt. pose proof (inv_unique _ _ _ _ _ HI Hm) as HU.
  assert (Hg : forall b, option_Forall2 grows (S !! b) (top Σ !! b)).
  { intros b. apply (inv_coherent _ _ _ _ HI i (length Σ - 1)); [lia | done | apply top_lookup, (inv_nonempty _ _ _ _ HI)]. }
  split.
  - intros b v Hb HSb. specialize (Hg b). rewrite HSb in Hg. inversion Hg as [? [k' v'] [Ek _] E E' |]. cbn in Ek. subst k'. by apply (HU b v').
  - intros Ha. destruct (inv_map _ _ _ _ HI k a Hm) as [_ [v Hv]]. specialize (Hg a). rewrite Hv in Hg. inversion Hg as [[k' v'] ? [Ek _] E E' |]. cbn in Ek. subst k'. by exists v'.
Qed.
Lemma obliterate_ok s A al k d : Stands s A -> A !! 0 = Some al -> alookup k al = Some d ->
  exists s', obliterate default_key k s = Ok (tt, s') /\ Stands s' (map (adelete k) A).
Proof.
  intros (Σ & l & HI & ->) H0 Hk. destruct (bottom_element s Σ l al k d HI H0 Hk) as (a & S & l1 & l2 & -> & HS0 & HSa & Hm).
  pose proof (inv_nonempty _ _ _ _ HI) as Hne. pose proof HI as [HR HC HL Hin Hmap Hsz Htr Hnd].
  destruct (destroy_twice (d_context s) Σ a S (k, Some d) HR HS0 HSa) as (c1 & E1 & (e & v & Eg & [Hek Hev] & Ev) & c2 & E2 & HR2). cbn in Ev. subst v. cbn in Hev.
  destruct (d_inMap e) eqn:Ein; [| done]. unfold obliterate. rewrite run_gets, Hm. unfold destroy_element.
  erewrite run_bind by exact (run_on_context E1). set (s1 := MkCDHashMap c1 _ _ _ _ _). rewrite (run_bind (run_on_context (s := s1) Eg)). cbn [d_map d_first d_next d_prev d_trash s1]. rewrite Ein.
  rewrite (run_bind (a := tt) eq_refl), run_gets. cbn [d_map]. rewrite Hm. fold s1. assert (HL1 : linked s1 (l1 ++ a :: l2)) by (destruct HL; by split).
  rewrite (run_bind (unlink_first_ok s1 l1 a l2 HL1)). destruct (unlink_ok s1 l1 a l2 HL1) as (n & p & Hn & Hp & HL2). set (s2 := with_links (head (l1 ++ l2)) (d_next s1) (d_prev s1) s1).
  rewrite (run_bind (run_read_next s2 a n Hn)), (run_bind (run_read_prev s2 a p Hp)). do 2 rewrite (run_bind (a := tt) eq_refl). rewrite run_gets, (run_bind (a := tt) eq_refl).
  erewrite (run_on_context (c := c2)) by exact E2. eexists. split; [reflexivity |]. destruct (nodup_remove _ _ _ (linked_nodup _ _ HL)) as [_ Hal].
  exists (map (delete a) Σ), (l1 ++ l2). split.
  - assert (Hsub : forall b, b ∈ l1 ++ l2 -> b ∈ l1 ++ a :: l2 /\ b <> a).
    { intros b Hb. split; [| by intros ->]. apply elem_of_app in Hb as [?|?]; apply elem_of_app; [by left | right; by right]. }
    split; cbn; rewrite ?top_map by done.
    + done.
    + by apply coherent_delete.
    + destruct HL2. by split.
    + intros b Hb. destruct (Hsub b Hb) as [Hb' Hba]. destruct (Hin b Hb') as (k' & v & H1 & H2 & H3). exists k', v. rewrite lookup_delete_ne by done. split; [done |]. split; [| done].
      rewrite lookup_delete_ne; [done |]. intros ->. congruence.
    + intros k' b [Hkk Hb]%lookup_delete_Some. destruct (Hmap k' b Hb) as [Hbl [v Hv]]. assert (b <> a). { intros ->. destruct (Hmap k a Hm) as [_ [v' Hv']]. congruence. }
      split; [| exists v; by rewrite lookup_delete_ne]. apply elem_of_app in Hbl as [? | [-> | ?]%elem_of_cons]; apply elem_of_app; [by left | done | by right].
    + rewrite map_size_delete_Some by (by eexists). rewrite Hsz, !length_app. cbn. lia.
    + intros b Hb. destruct (Htr b Hb) as [Hbl Hv]. split; [intros Hb'; by apply Hbl, Hsub |]. rewrite lookup_delete_ne; [done |]. intros ->. apply Hbl, elem_of_app. right. by left.
    + done.
  - unfold views. rewrite !map_map. apply map_ext_in. intros T HT%list_elem_of_In. destruct (snapshot_unique s Σ _ T k a HI HT Hm) as [HU Hv].
    destruct Hv as [v Hv]; [apply elem_of_app; right; by left |]. symmetry. apply (adelete_view k T l1 a l2 v); [apply HL | done | done].
Qed.
Lemma obliterate_absent s A k : Stands s A -> alookup k (atop A) = None -> obliterate default_key k s = Ok (tt, s).
Proof. intros HS Hk. pose proof (table_stands s A k HS) as Hl. unfold obliterate. rewrite run_gets. destruct (d_map s !! k); [| done]. rewrite Hk in Hl. by destruct Hl. Qed.

(** ** Sessions *)
Inductive map_command : Type :=
  | Insert (k : Key) (d : Data)
  | Assign (k : Key) (d : Data)
  | InsertAtContextLevelZero (k : Key) (d : Data)
  | Find (k : Key)
  | Count (k : Key)
  | Size
  | Iterate
  | Obliterate (k : Key)
  | Clear
  | PushScope
  | PopScope.
Inductive answer : Type := Done | WasNew (b : bool) | Found (d : option Data) | Number (n : nat) | Pairs (al : list (Key * Data)).
Definition run_map_command (cmd : map_command) : SM CM answer :=
  match cmd with
  | Insert k d => b ← insert default_key default_data k d; mret (WasNew b)
  | Assign k d => _ ← assign default_key default_data k d; mret Done
  | InsertAtContextLevelZero k d => _ ← insertAtContextLevelZero default_key default_data k d; mret Done
  | Find k => d ← find default_key k; mret (Found d)
  | Count k => n ← gets (fun s => count s k); mret (Number n)
  | Size => n ← gets map_size; mret (Number n)
  | Iterate => al ← iterate; mret (Pairs al)
  | Obliterate k => _ ← obliterate default_key k; mret Done
  | Clear => _ ← clear default_key; mret Done
  | PushScope => _ ← push_context; mret Done
  | PopScope => _ ← pop_context default_key; mret Done
  end.
Fixpoint run_map_commands (cmds : list map_command) : SM CM (list answer) :=
  match cmds with [] => mret [] | cmd :: cmds => x ← run_map_command cmd; xs ← run_map_commands cmds; mret (x :: xs) end.

(** The abstract machine: a stack of association lists. [None]: the client may not do this (a key inserted twice at level
    zero, the bottom scope popped, a key obliterated that is in the map and was inserted above level zero). *)
Definition spec_map_command (cmd : map_command) (A : list (list (Key * Data))) : option (answer * list (list (Key * Data))) :=
  let al := atop A in
  match cmd with
  | Insert k d => Some (WasNew (bool_decide (alookup k al = None)), set_atop A (ainsert k d al))
  | Assign k d => Some (Done, set_atop A (ainsert k d al))
  | InsertAtContextLevelZero k d => if bool_decide (alookup k al = None) then Some (Done, map (fun al => al ++ [(k, d)]) A) else None
  | Find k => Some (Found (alookup k al), A)
  | Count k => Some (Number (if bool_decide (alookup k al = None) then 0 else 1), A)
  | Size => Some (Number (length al), A)
  | Iterate => Some (Pairs al, A)
  | Obliterate k =>
      if bool_decide (alookup k al = None) then Some (Done, A)
      else al0 ← A !! 0; _ ← alookup k al0; Some (Done, map (adelete k) A)
  | Clear => Some (Done, map (fun _ => []) A)
  | PushScope => Some (Done, A ++ [al])
  | PopScope => if 2 <=? length A then Some (Done, take (length A - 1) A) else None
  end.
Fixpoint spec_map_commands (cmds : list map_command) (A : list (list (Key * Data))) : option (list answer * list (list (Key * Data))) :=
  match cmds with
  | [] => Some ([], A)
  | cmd :: cmds => '(x, A') ← spec_map_command cmd A; '(xs, A'') ← spec_map_commands cmds A'; Some (x :: xs, A'')
  end.

Lemma init_stands : Stands (new_CDHashMap Context_init) [[]].
Proof.
  exists [∅], []. split; [| done]. split; cbn.
  - apply (init_refines (KI := populate (default_key, None))).
  - intros i j Si Sj _ [-> <-]%list_lookup_singleton_Some [-> <-]%list_lookup_singleton_Some a. apply grows_option_refl.
  - split; cbn; [done | done | constructor].
  - intros a Ha. by apply not_elem_of_nil in Ha.
  - intros k a Hk. by rewrite lookup_empty in Hk.
  - by rewrite map_size_empty.
  - intros a Ha. by apply not_elem_of_nil in Ha.
  - constructor.
Qed.
Lemma run_then {A B} (m : SM CM A) (f : A -> B) s x (P : CM -> Prop) : (exists s', m s = Ok (x, s') /\ P s') -> exists s', (y ← m; mret (f y)) s = Ok (f x, s') /\ P s'.
Proof. intros (s' & E & HP). exists s'. split; [by rewrite (run_bind E) | done]. Qed.
Lemma map_command_ok cmd s A x A' : Stands s A -> spec_map_command cmd A = Some (x, A') -> exists s', run_map_command cmd s = Ok (x, s') /\ Stands s' A'.
Proof.
  intros HS. destruct cmd; cbn [spec_map_command run_map_command].
  - intros [= <- <-]. by apply (run_then _ WasNew), insert_ok.
  - intros [= <- <-]. by apply (run_then _ (fun _ => Done) _ tt), assign_ok.
  - case_bool_decide; intros [= <- <-]. by apply (run_then _ (fun _ => Done) _ tt), insertAtContextLevelZero_ok.
  - intros [= <- <-]. by apply (run_then _ Found), find_ok.
  - intros [= <- <-]. rewrite <- (count_ok s A k HS). by exists s.
  - intros [= <- <-]. rewrite <- (size_ok s A HS). by exists s.
  - intros [= <- <-]. apply (run_then _ Pairs). exists s. split; [by apply iterate_ok | done].
  - case_bool_decide as Ek; [intros [= <- <-]; apply (run_then _ (fun _ => Done) _ tt); exists s; split; [by apply (obliterate_absent s A) | done] |].
    destruct (A !! 0) as [al0|] eqn:E0; [| done]. cbn. destruct (alookup k al0) as [d|] eqn:Ed; [| done]. cbn. intros [= <- <-].
    by apply (run_then _ (fun _ => Done) _ tt), (obliterate_ok s A al0 k d).
  - intros [= <- <-]. by apply (run_then _ (fun _ => Done) _ tt), clear_ok.
  - intros [= <- <-]. by apply (run_then _ (fun _ => Done) _ tt), map_push_ok.
  - destruct (Nat.leb_spec 2 (length A)); intros [= <- <-]. by apply (run_then _ (fun _ => Done) _ tt), map_pop_ok.
Qed.
Lemma map_commands_ok cmds : forall s A xs A', Stands s A -> spec_map_commands cmds A = Some (xs, A') -> exists s', run_map_commands cmds s = Ok (xs, s') /\ Stands s' A'.
Proof.
  induction cmds as [|cmd cmds IH]; intros s A xs A' HS E; cbn [spec_map_commands run_map_commands] in *; [injection E as <- <-; by exists s |].
  destruct (spec_map_command cmd A) as [[x A1]|] eqn:E1; [| done]. cbn in E. destruct (spec_map_commands cmds A1) as [[xs' A2]|] eqn:E2; [| done]. cbn in E. injection E as <- <-.
  destruct (map_command_ok cmd s A x A1 HS E1) as (s1 & R1 & HS1). destruct (IH s1 A1 xs' A2 HS1 E2) as (s2 & R2 & HS2). exists s2. split; [| done].
  by rewrite (run_bind R1), (run_bind R2).
Qed.

(** C15. [CDHashMap] implements backtrackable maps: a session of insertions, assignments, insertions at level zero, lookups,
    iterations, obliterations of keys of level zero, clears, pushes and pops on a new map runs without failing and answers as a
    stack of association lists in the order of insertion does, one list for each scope; what it leaves behind stands for
    the stack, and an iteration visits its top.  All this whatever the elements that pops have put on the trash. *)
Theorem cdhashmap_session (cmds : list map_command) (xs : list answer) (A : list (list (Key * Data))) :
  spec_map_commands cmds [[]] = Some (xs, A) ->
  exists s, run_map_commands cmds (new_CDHashMap Context_init) = Ok (xs, s) /\ Stands s A /\ iterate s = Ok (atop A, s).
Proof. intros E. destruct (map_commands_ok cmds _ _ xs A init_stands E) as (s & R & HS). exists s. split; [done |]. split; [done | by apply iterate_ok]. Qed.

(** An insertion at level zero of a key that is in the map is refused. *)
Lemma insertAtContextLevelZero_refused cmds xs A k d s : spec_map_commands cmds [[]] = Some (xs, A) -> is_Some (alookup k (atop A)) ->
  run_map_commands cmds (new_CDHashMap Context_init) = Ok (xs, s) -> insertAtContextLevelZero default_key default_data k d s = Throw AssertionFailed.
Proof.
  intros E Hk R. destruct (map_commands_ok cmds _ _ xs A init_stands E) as (s' & R' & HS). rewrite R in R'. injection R' as <-. by apply (insertAtContextLevelZero_fails s A).
Qed.
End elements.

Module CDHashMapExample.
Definition session : list (map_command (Key := nat) (Data := nat)) :=
  [Insert 1 10; PushScope; Insert 2 20; Assign 1 11; Assign 3 30; InsertAtContextLevelZero 4 40; PushScope; Insert 2 21; Iterate; PopScope; Find 2; PopScope; Iterate; Size; Find 2;
   Insert 2 22; Obliterate 1; Iterate].
Definition answers : list (answer (Key := nat) (Data := nat)) :=
  [WasNew true; Done; WasNew true; Done; Done; Done; Done; WasNew false; Pairs [(1, 11); (2, 21); (3, 30); (4, 40)]; Done; Found (Some 20); Done; Pairs [(1, 10); (4, 40)]; Number 2; Found None;
   WasNew true; Done; Pairs [(4, 40); (2, 22)]].
Lemma cdhashmap_session_witness : exists s,
  run_map_commands 0 0 session (new_CDHashMap Context_init) = Ok (answers, s) /\ iterate s = Ok ([(4, 40); (2, 22)], s).
Proof.
  assert (E : spec_map_commands session [[]] = Some (answers, [[(4, 40); (2, 22)]])) by (vm_compute; reflexivity).
  destruct (cdhashmap_session 0 0 session answers _ E) as (s & R & _ & Ei).
  exists s. split; [exact R | exact Ei].
Defined.

(** A key inserted above level zero and obliterated: the element is on the trash, and its destructor, run at the first
    operation after the pop, unlinks it a second time, from lists of a scope that is gone. *)
Lemma obliterate_above_zero :
  run_map_commands 0 0 [PushScope; Insert 1 10; Insert 2 20; Obliterate 1; PopScope; Insert 3 30] (new_CDHashMap Context_init) = Throw OutOfBounds /\
  spec_map_commands [PushScope; Insert 1 10; Insert 2 20; Obliterate 1] [[]] = None (A := _ * list (list (nat * nat))).
Proof. split; vm_compute; reflexivity. Qed.
End CDHashMapExample.
