(* ===== verification/BVRules.v ===== *)
(** * Rewrite rules of the theory of bit-vectors

    Models the rules of [src/theory/bv/theory_bv_rewrite_rules_operator_elimination.h],
    [theory_bv_rewrite_rules_constant_evaluation.h] and
    [theory_bv_rewrite_rules_core.h], the term constructors of [theory_bv_utils.h]
    they use, and the combinators of [theory_bv_rewrite_rules.h].  A rule is its
    [applies] and its [apply]; both can throw (a failed assertion, a child that
    does not exist).  The two rules between bit-vectors and integers need
    arithmetic terms and are left out, as are [EvalAnd], [EvalOr] and [EvalXor],
    which the code declares unreachable.

    The option [bitvectorDivByZeroConst] and the order [<] of nodes (by creation)
    are parameters.  The limit of [NodeBuilder] on the number of children is modelled
    where a rule copies a term as often as a number in it says; elsewhere a rule builds no
    node with more children than the given term has nodes or bits, and the theorems ask that
    both stay below the limit. *)

From S2P Require Import Prelude Integer BitVector Node.
Local Open Scope Z_scope.

(** ** [theory_bv_utils.h] *)
Section utils.
Context {G : Gmp}.

Definition getConstBV (n : Node) : M BitVector :=
  match n with ConstBV v => Ok v | _ => Throw IllegalArgument end.

Definition getExtractHigh (n : Node) : M Z :=
  match getKind n with BITVECTOR_EXTRACT h _ => Ok h | _ => Throw IllegalArgument end.
Definition getExtractLow (n : Node) : M Z :=
  match getKind n with BITVECTOR_EXTRACT _ l => Ok l | _ => Throw IllegalArgument end.

Definition mkExtract (n : Node) (high low : Z) : Node := MkNode (BITVECTOR_EXTRACT high low) [n].

(** [(1u << __CVC4__EXPR__NODE_VALUE__NBITS__NCHILDREN) - 1], the limit [NodeBuilder] asserts. *)
Definition MAX_CHILDREN : Z := 2 ^ 26 - 1.
(** [NodeBuilder<> result(k)] and a loop that appends the same child [count] times; [realloc]
    asserts the limit. *)
Definition build_copies (k : Kind) (count : Z) (n : Node) : M Node :=
  _ ← check AssertionFailed (count <=? MAX_CHILDREN);
  Ok (MkNode k (replicate (Z.to_nat count) n)).

(** [mkConcat(node, repeat)], [mkConcat(children)], [mkConcat(t1, t2)]. *)
Definition mkConcatRepeat (n : Node) (repeat : Z) : M Node :=
  _ ← check AssertionFailed (negb (repeat =? 0));
  if repeat =? 1 then Ok n
  else build_copies BITVECTOR_CONCAT repeat n.
Definition mkConcatV (children : list Node) : M Node :=
  if (1 <? length children)%nat then Ok (MkNode BITVECTOR_CONCAT children) else vget children 0.
Definition mkConcat (t1 t2 : Node) : Node := MkNode BITVECTOR_CONCAT [t1; t2].

Definition mkBitVectorOnes (size : Z) : M BitVector :=
  _ ← check AssertionFailed (0 <? size);
  BV.signExtend (BV.mk 1 1) (u32 (size - 1)).
Definition mkOnes (size : Z) : M Node := v ← mkBitVectorOnes size; Ok (ConstBV v).
Definition mkConst (size value : Z) : Node := ConstBV (BV.mk size value).

Definition isBVGroundTerm (n : Node) : bool :=
  match children n with
  | [] => isConst n
  | ch => forallb isConst ch
  end.
End utils.

(** ** [theory_bv_rewrite_rules.h] *)
Record RewriteRule : Type := MkRule { applies : Node -> M bool; apply : Node -> M Node }.

(** [run<true>] and [run<false>]. *)
Definition run (checkApplies : bool) (R : RewriteRule) (node : Node) : M Node :=
  if checkApplies then
    a ← applies R node;
    if a : bool then apply R node else Ok node
  else
    a ← applies R node;
    _ ← check AssertionFailed a;
    apply R node.

Definition LinearRewriteStrategy (rules : list RewriteRule) (node : Node) : M Node :=
  foldl (fun acc R =>
    current ← acc;
    a ← applies R current;
    if a : bool then run false R current else Ok current) (Ok node) rules.

(** [ApplyRuleToChildren<kind, rule>] *)
Definition ApplyRuleToChildren (k : Kind) (R : RewriteRule) : RewriteRule := MkRule
  (fun node => if bool_decide (getKind node = k) then Ok true else applies R node)
  (fun node =>
    if negb (bool_decide (getKind node = k)) then run true R node
    else ch ← mapM (run true R) (children node); Ok (MkNode k ch)).

Definition isKind (k : Kind) (n : Node) : bool := bool_decide (getKind n = k).

(** ** [theory_bv_rewrite_rules_operator_elimination.h] *)
Section elimination.
Context {G : Gmp} (bitvectorDivByZeroConst : bool).

Definition UgtEliminate : RewriteRule := MkRule
  (fun node => Ok (isKind BITVECTOR_UGT node))
  (fun node => a ← child node 0; b ← child node 1; Ok (MkNode BITVECTOR_ULT [b; a])).

Definition UgeEliminate : RewriteRule := MkRule
  (fun node => Ok (isKind BITVECTOR_UGE node))
  (fun node => a ← child node 0; b ← child node 1; Ok (MkNode BITVECTOR_ULE [b; a])).

Definition SgtEliminate : RewriteRule := MkRule
  (fun node => Ok (isKind BITVECTOR_SGT node))
  (fun node => a ← child node 0; b ← child node 1; Ok (MkNode BITVECTOR_SLT [b; a])).

Definition SgeEliminate : RewriteRule := MkRule
  (fun node => Ok (isKind BITVECTOR_SGE node))
  (fun node => a ← child node 0; b ← child node 1; Ok (MkNode BITVECTOR_SLE [b; a])).

Definition SltEliminate : RewriteRule := MkRule
  (fun node => Ok (isKind BITVECTOR_SLT node))
  (fun node =>
    n0 ← child node 0; n1 ← child node 1;
    size ← getSize n0;
    let pow_two := ConstBV (BV.mk size (Integer.multiplyByPow2 1 (u32 (size - 1)))) in
    let a := MkNode BITVECTOR_PLUS [n0; pow_two] in
    let b := MkNode BITVECTOR_PLUS [n1; pow_two] in
    Ok (MkNode BITVECTOR_ULT [a; b])).

Definition SleEliminate : RewriteRule := MkRule
  (fun node => Ok (isKind BITVECTOR_SLE node))
  (fun node => a ← child node 0; b ← child node 1; Ok (MkNode NOT [MkNode BITVECTOR_SLT [b; a]])).

Definition UleEliminate : RewriteRule := MkRule
  (fun node => Ok (isKind BITVECTOR_ULE node))
  (fun node => a ← child node 0; b ← child node 1; Ok (MkNode NOT [MkNode BITVECTOR_ULT [b; a]])).

Definition CompEliminate : RewriteRule := MkRule
  (fun node => Ok (isKind BITVECTOR_COMP node))
  (fun node =>
    n0 ← child node 0; n1 ← child node 1;
    let comp := MkNode EQUAL [n0; n1] in
    Ok (MkNode ITE [comp; mkConst 1 1; mkConst 1 0])).

Definition SubEliminate : RewriteRule := MkRule
  (fun node => Ok (isKind BITVECTOR_SUB node))
  (fun node =>
    n1 ← child node 1;
    let negb := MkNode BITVECTOR_NEG [n1] in
    a ← child node 0;
    Ok (MkNode BITVECTOR_PLUS [a; negb])).

Definition RepeatEliminate : RewriteRule := MkRule
  (fun node => Ok match getKind node with BITVECTOR_REPEAT _ => true | _ => false end)
  (fun node =>
    a ← child node 0;
    match getKind node with
    | BITVECTOR_REPEAT amount =>
        _ ← check AssertionFailed (1 <=? amount);
        if amount =? 1 then Ok a
        else build_copies BITVECTOR_CONCAT amount a
    | _ => Throw IllegalArgument
    end).

Definition RotateLeftEliminate : RewriteRule := MkRule
  (fun node => Ok match getKind node with BITVECTOR_ROTATE_LEFT _ => true | _ => false end)
  (fun node =>
    a ← child node 0;
    match getKind node with
    | BITVECTOR_ROTATE_LEFT amount =>
        size ← getSize a;
        let amount := amount mod size in
        if amount =? 0 then Ok a
        else
          let left := mkExtract a (u32 (u32 (size - 1) - amount)) 0 in
          let right := mkExtract a (u32 (size - 1)) (u32 (size - amount)) in
          Ok (mkConcat left right)
    | _ => Throw IllegalArgument
    end).

Definition RotateRightEliminate : RewriteRule := MkRule
  (fun node => Ok match getKind node with BITVECTOR_ROTATE_RIGHT _ => true | _ => false end)
  (fun node =>
    a ← child node 0;
    match getKind node with
    | BITVECTOR_ROTATE_RIGHT amount =>
        size ← getSize a;
        let amount := amount mod size in
        if amount =? 0 then Ok a
        else
          let left := mkExtract a (u32 (amount - 1)) 0 in
          let right := mkExtract a (u32 (size - 1)) amount in
          Ok (mkConcat left right)
    | _ => Throw IllegalArgument
    end).

Definition NandEliminate : RewriteRule := MkRule
  (fun node => Ok (isKind BITVECTOR_NAND node && (getNumChildren node =? 2)%nat))
  (fun node => a ← child node 0; b ← child node 1; Ok (MkNode BITVECTOR_NOT [MkNode BITVECTOR_AND [a; b]])).

Definition NorEliminate : RewriteRule := MkRule
  (fun node => Ok (isKind BITVECTOR_NOR node && (getNumChildren node =? 2)%nat))
  (fun node => a ← child node 0; b ← child node 1; Ok (MkNode BITVECTOR_NOT [MkNode BITVECTOR_OR [a; b]])).

Definition XnorEliminate : RewriteRule := MkRule
  (fun node => Ok (isKind BITVECTOR_XNOR node && (getNumChildren node =? 2)%nat))
  (fun node => a ← child node 0; b ← child node 1; Ok (MkNode BITVECTOR_NOT [MkNode BITVECTOR_XOR [a; b]])).

Definition SdivEliminate : RewriteRule := MkRule
  (fun node => Ok (isKind BITVECTOR_SDIV node))
  (fun node =>
    a ← child node 0; b ← child node 1;
    size ← getSize a;
    let one := mkConst 1 1 in
    let a_lt_0 := MkNode EQUAL [mkExtract a (u32 (size - 1)) (u32 (size - 1)); one] in
    let b_lt_0 := MkNode EQUAL [mkExtract b (u32 (size - 1)) (u32 (size - 1)); one] in
    let abs_a := MkNode ITE [a_lt_0; MkNode BITVECTOR_NEG [a]; a] in
    let abs_b := MkNode ITE [b_lt_0; MkNode BITVECTOR_NEG [b]; b] in
    let a_udiv_b := MkNode (if bitvectorDivByZeroConst then BITVECTOR_UDIV_TOTAL else BITVECTOR_UDIV) [abs_a; abs_b] in
    let neg_result := MkNode BITVECTOR_NEG [a_udiv_b] in
    let condition := MkNode XOR [a_lt_0; b_lt_0] in
    Ok (MkNode ITE [condition; neg_result; a_udiv_b])).

Definition SremEliminate : RewriteRule := MkRule
  (fun node => Ok (isKind BITVECTOR_SREM node))
  (fun node =>
    a ← child node 0; b ← child node 1;
    size ← getSize a;
    let one := mkConst 1 1 in
    let a_lt_0 := MkNode EQUAL [mkExtract a (u32 (size - 1)) (u32 (size - 1)); one] in
    let b_lt_0 := MkNode EQUAL [mkExtract b (u32 (size - 1)) (u32 (size - 1)); one] in
    let abs_a := MkNode ITE [a_lt_0; MkNode BITVECTOR_NEG [a]; a] in
    let abs_b := MkNode ITE [b_lt_0; MkNode BITVECTOR_NEG [b]; b] in
    let a_urem_b := MkNode (if bitvectorDivByZeroConst then BITVECTOR_UREM_TOTAL else BITVECTOR_UREM) [abs_a; abs_b] in
    let neg_result := MkNode BITVECTOR_NEG [a_urem_b] in
    Ok (MkNode ITE [a_lt_0; neg_result; a_urem_b])).

Definition SmodEliminate : RewriteRule := MkRule
  (fun node => Ok (isKind BITVECTOR_SMOD node))
  (fun node =>
    s ← child node 0; t ← child node 1;
    size ← getSize s;
    let msb_s := mkExtract s (u32 (size - 1)) (u32 (size - 1)) in
    let msb_t := mkExtract t (u32 (size - 1)) (u32 (size - 1)) in
    let bit1 := mkConst 1 1 in
    let bit0 := mkConst 1 0 in
    let abs_s := iteNode (eqNode msb_s bit0) s (MkNode BITVECTOR_NEG [s]) in
    let abs_t := iteNode (eqNode msb_t bit0) t (MkNode BITVECTOR_NEG [t]) in
    let u := MkNode BITVECTOR_UREM [abs_s; abs_t] in
    let neg_u := MkNode BITVECTOR_NEG [u] in
    let cond0 := eqNode u (mkConst size 0) in
    let cond1 := andNode (eqNode msb_s bit0) (eqNode msb_t bit0) in
    let cond2 := andNode (eqNode msb_s bit1) (eqNode msb_t bit0) in
    let cond3 := andNode (eqNode msb_s bit0) (eqNode msb_t bit1) in
    Ok (iteNode cond0 u
         (iteNode cond1 u
           (iteNode cond2 (MkNode BITVECTOR_PLUS [neg_u; t])
             (iteNode cond3 (MkNode BITVECTOR_PLUS [u; t]) neg_u))))).

Definition ZeroExtendEliminate : RewriteRule := MkRule
  (fun node => Ok match getKind node with BITVECTOR_ZERO_EXTEND _ => true | _ => false end)
  (fun node =>
    bv ← child node 0;
    match getKind node with
    | BITVECTOR_ZERO_EXTEND amount =>
        if amount =? 0 then Ok bv else Ok (mkConcat (mkConst amount 0) bv)
    | _ => Throw IllegalArgument
    end).

Definition SignExtendEliminate : RewriteRule := MkRule
  (fun node => Ok match getKind node with BITVECTOR_SIGN_EXTEND _ => true | _ => false end)
  (fun node =>
    match getKind node with
    | BITVECTOR_SIGN_EXTEND amount =>
        n0 ← child node 0;
        if amount =? 0 then Ok n0
        else
          size ← getSize n0;
          let sign_bit := mkExtract n0 (u32 (size - 1)) (u32 (size - 1)) in
          extension ← mkConcatRepeat sign_bit amount;
          Ok (mkConcat extension n0)
    | _ => Throw IllegalArgument
    end).

Definition RedorEliminate : RewriteRule := MkRule
  (fun node => Ok (isKind BITVECTOR_REDOR node))
  (fun node =>
    a ← child node 0;
    size ← getSize a;
    let result := MkNode EQUAL [a; mkConst size 0] in
    Ok (negate result)).

Definition RedandEliminate : RewriteRule := MkRule
  (fun node => Ok (isKind BITVECTOR_REDAND node))
  (fun node =>
    a ← child node 0;
    size ← getSize a;
    ones ← mkOnes size;
    Ok (MkNode EQUAL [a; ones])).
End elimination.

(** ** [theory_bv_rewrite_rules_constant_evaluation.h] *)
Section evaluation.
Context {G : Gmp}.

(** [node[i].getConst<BitVector>()] *)
Definition constChild (node : Node) (i : nat) : M BitVector := c ← child node i; getConstBV c.
Definition ground (k : Kind) (node : Node) : M bool := Ok (isKind k node && isBVGroundTerm node).
Definition mkBool (b : bool) : Node := if b then ConstBool true else ConstBool false.
Definition mkBit (b : bool) : Node := if b then mkConst 1 1 else mkConst 1 0.

Definition EvalNot : RewriteRule := MkRule (ground BITVECTOR_NOT)
  (fun node => a ← constChild node 0; Ok (ConstBV (BV.not a))).

(** [res = child[0]; for (i = 1; ...) res = res op child[i];] *)
Definition fold_consts (op : BitVector -> BitVector -> M BitVector) (node : Node) : M BitVector :=
  match children node with
  | [] => Throw AssertionFailed
  | c :: rest =>
      v ← getConstBV c;
      foldl (fun acc c => res ← acc; w ← getConstBV c; op res w) (Ok v) rest
  end.

Definition EvalMult : RewriteRule := MkRule (ground BITVECTOR_MULT)
  (fun node => res ← fold_consts BV.mult node; Ok (ConstBV res)).
Definition EvalPlus : RewriteRule := MkRule (ground BITVECTOR_PLUS)
  (fun node => res ← fold_consts BV.add node; Ok (ConstBV res)).
Definition EvalNeg : RewriteRule := MkRule (ground BITVECTOR_NEG)
  (fun node => a ← constChild node 0; res ← BV.neg a; Ok (ConstBV res)).

Definition EvalUdiv : RewriteRule := MkRule
  (fun node =>
    if isBVGroundTerm node then
      if isKind BITVECTOR_UDIV_TOTAL node then Ok true
      else if isKind BITVECTOR_UDIV node then n1 ← child node 1; Ok (isConst n1) else Ok false
    else Ok false)
  (fun node =>
    a ← constChild node 0; b ← constChild node 1;
    res ← BV.unsignedDivTotal a b; Ok (ConstBV res)).
Definition EvalUrem : RewriteRule := MkRule
  (fun node =>
    if isBVGroundTerm node then
      if isKind BITVECTOR_UREM_TOTAL node then Ok true
      else if isKind BITVECTOR_UREM node then n1 ← child node 1; Ok (isConst n1) else Ok false
    else Ok false)
  (fun node =>
    a ← constChild node 0; b ← constChild node 1;
    res ← BV.unsignedRemTotal a b; Ok (ConstBV res)).

Definition EvalShl : RewriteRule := MkRule (ground BITVECTOR_SHL)
  (fun node => a ← constChild node 0; b ← constChild node 1; res ← BV.leftShift a b; Ok (ConstBV res)).
Definition EvalLshr : RewriteRule := MkRule (ground BITVECTOR_LSHR)
  (fun node => a ← constChild node 0; b ← constChild node 1; res ← BV.logicalRightShift a b; Ok (ConstBV res)).
Definition EvalAshr : RewriteRule := MkRule (ground BITVECTOR_ASHR)
  (fun node => a ← constChild node 0; b ← constChild node 1; res ← BV.arithRightShift a b; Ok (ConstBV res)).

Definition EvalUlt : RewriteRule := MkRule (ground BITVECTOR_ULT)
  (fun node => a ← constChild node 0; b ← constChild node 1; r ← BV.unsignedLessThan a b; Ok (mkBool r)).
Definition EvalUltBv : RewriteRule := MkRule (ground BITVECTOR_ULTBV)
  (fun node => a ← constChild node 0; b ← constChild node 1; r ← BV.unsignedLessThan a b; Ok (mkBit r)).
Definition EvalSlt : RewriteRule := MkRule (ground BITVECTOR_SLT)
  (fun node => a ← constChild node 0; b ← constChild node 1; r ← BV.signedLessThan a b; Ok (mkBool r)).
Definition EvalSltBv : RewriteRule := MkRule (ground BITVECTOR_SLTBV)
  (fun node => a ← constChild node 0; b ← constChild node 1; r ← BV.signedLessThan a b; Ok (mkBit r)).
Definition EvalUle : RewriteRule := MkRule (ground BITVECTOR_ULE)
  (fun node => a ← constChild node 0; b ← constChild node 1; r ← BV.unsignedLessThanEq a b; Ok (mkBool r)).
Definition EvalSle : RewriteRule := MkRule (ground BITVECTOR_SLE)
  (fun node => a ← constChild node 0; b ← constChild node 1; r ← BV.signedLessThanEq a b; Ok (mkBool r)).

Definition EvalITEBv : RewriteRule := MkRule (ground BITVECTOR_ITE)
  (fun node =>
    cond ← constChild node 0;
    n0 ← child node 0;
    if node_eqb n0 (mkConst 1 1) then child node 1
    else _ ← check AssertionFailed (node_eqb n0 (mkConst 1 0)); child node 2).

Definition isExtract (node : Node) : bool := match getKind node with BITVECTOR_EXTRACT _ _ => true | _ => false end.

Definition EvalExtract : RewriteRule := MkRule
  (fun node => Ok (isExtract node && isBVGroundTerm node))
  (fun node =>
    a ← constChild node 0;
    lo ← getExtractLow node; hi ← getExtractHigh node;
    Ok (ConstBV (BV.extract a hi lo))).

Definition EvalConcat : RewriteRule := MkRule (ground BITVECTOR_CONCAT)
  (fun node => res ← fold_consts (fun x y => Ok (BV.concat x y)) node; Ok (ConstBV res)).

Definition EvalSignExtend : RewriteRule := MkRule
  (fun node => Ok (match getKind node with BITVECTOR_SIGN_EXTEND _ => true | _ => false end && isBVGroundTerm node))
  (fun node =>
    a ← constChild node 0;
    match getKind node with
    | BITVECTOR_SIGN_EXTEND amount => res ← BV.signExtend a amount; Ok (ConstBV res)
    | _ => Throw IllegalArgument
    end).

Definition EvalEquals : RewriteRule := MkRule (ground EQUAL)
  (fun node => a ← constChild node 0; b ← constChild node 1; Ok (mkBool (BV.eqb a b))).
Definition EvalComp : RewriteRule := MkRule (ground BITVECTOR_COMP)
  (fun node => a ← constChild node 0; b ← constChild node 1; Ok (mkBit (BV.eqb a b))).
End evaluation.

(** ** [theory_bv_rewrite_rules_core.h] *)
Section core.
Context {G : Gmp} (node_lt : Node -> Node -> bool).

(** [processing_stack], its top first. *)
Fixpoint flatten_loop (fuel : nat) (stack result : list Node) : M (list Node) :=
  match stack with
  | [] => Ok result
  | current :: stack =>
      match fuel with
      | O => Throw OutOfFuel
      | S fuel' =>
          if isKind BITVECTOR_CONCAT current then flatten_loop fuel' (children current ++ stack) result
          else flatten_loop fuel' stack (result ++ [current])
      end
  end.
(** The loop removes a node of the term at each iteration. *)
Fixpoint num_nodes (n : Node) : nat :=
  match n with MkNode _ ch => S (sum_list_with num_nodes ch) | _ => 1%nat end.

Definition ConcatFlatten : RewriteRule := MkRule
  (fun node => Ok (isKind BITVECTOR_CONCAT node))
  (fun node => result ← flatten_loop (num_nodes node) [node] []; Ok (MkNode BITVECTOR_CONCAT result)).

(** [current], [mergeStarted], [currentHigh], [currentLow], [mergedExtracts]. *)
Record merge_state : Type := MkMerge {
  ms_current : Node; ms_started : bool; ms_high : Z; ms_low : Z; ms_merged : list Node
}.
Definition merge_push (s : merge_state) : M (list Node) :=
  if negb (ms_started s) then Ok (ms_merged s ++ [ms_current s])
  else c ← child (ms_current s) 0; Ok (ms_merged s ++ [mkExtract c (ms_high s) (ms_low s)]).
Definition merge_step (s : merge_state) (next : Node) : M merge_state :=
  if negb (isExtract (ms_current s)) then
    Ok (MkMerge next (ms_started s) (ms_high s) (ms_low s) (ms_merged s ++ [ms_current s]))
  else
    '(high, low) ← (if negb (ms_started s) then
                      h ← getExtractHigh (ms_current s); l ← getExtractLow (ms_current s); Ok (h, l)
                    else Ok (ms_high s, ms_low s));
    candidate ← (if isExtract next then
                   c0 ← child (ms_current s) 0; n0 ← child next 0; Ok (node_eqb c0 n0)
                 else Ok false);
    merged ← (if candidate : bool then h ← getExtractHigh next; Ok (u32 (h + 1) =? low) else Ok false);
    if merged : bool then
      l ← getExtractLow next;
      Ok (MkMerge (ms_current s) true high l (ms_merged s))
    else
      m ← merge_push (MkMerge (ms_current s) (ms_started s) high low (ms_merged s));
      Ok (MkMerge next false high low m).

Definition ConcatExtractMerge : RewriteRule := MkRule
  (fun node => Ok (isKind BITVECTOR_CONCAT node))
  (fun node =>
    current ← child node 0;
    s ← foldl (fun acc next => s ← acc; merge_step s next)
          (Ok (MkMerge current false 0 0 [])) (tail (children node));
    m ← merge_push s;
    mkConcatV m).

(** The constants at the front of a list, and the rest. *)
Fixpoint const_run (l : list Node) : list BitVector * list Node :=
  match l with
  | ConstBV v :: l' => let '(vs, rest) := const_run l' in (v :: vs, rest)
  | _ => ([], l)
  end.
Fixpoint constant_merge (fuel : nat) (l : list Node) : list Node :=
  match fuel with
  | O => []
  | S fuel' =>
      match l with
      | [] => []
      | ConstBV v :: rest =>
          let '(vs, rest') := const_run rest in
          ConstBV (foldl BV.concat v vs) :: constant_merge fuel' rest'
      | n :: rest => n :: constant_merge fuel' rest
      end
  end.
Definition ConcatConstantMerge : RewriteRule := MkRule
  (fun node => Ok (isKind BITVECTOR_CONCAT node))
  (fun node => mkConcatV (constant_merge (length (children node)) (children node))).

Definition ExtractWhole : RewriteRule := MkRule
  (fun node =>
    if negb (isExtract node) then Ok false else
    n0 ← child node 0;
    length ← getSize n0;
    extractHigh ← getExtractHigh node;
    if negb (extractHigh =? u32 (length - 1)) then Ok false else
    extractLow ← getExtractLow node;
    Ok (extractLow =? 0))
  (fun node => child node 0).

Definition ExtractConstant : RewriteRule := MkRule
  (fun node =>
    if negb (isExtract node) then Ok false else
    n0 ← child node 0;
    Ok (isKind CONST_BITVECTOR n0))
  (fun node =>
    n ← child node 0;
    childValue ← getConstBV n;
    h ← getExtractHigh node; l ← getExtractLow node;
    Ok (ConstBV (BV.extract childValue h l))).

(** Conversion of [unsigned] to [int]. *)
Definition i32 (z : Z) : Z := (z + 2 ^ 31) mod 2 ^ 32 - 2 ^ 31.

(** The loop over the children, last first; the result in the order of the pushes. *)
Fixpoint extract_concat_loop (cs : list Node) (extract_high extract_low : Z) : M (list Node) :=
  match cs with
  | [] => Ok []
  | concatChild :: cs' =>
      if extract_high <? 0 then Ok []
      else
        size ← getSize concatChild;
        let concatChildSize := i32 size in
        let pushed :=
          if extract_low <? concatChildSize then
            let extract_start := if extract_low <? 0 then 0 else extract_low in
            let extract_end := if extract_high <? concatChildSize then extract_high else concatChildSize - 1 in
            [mkExtract concatChild (u32 extract_end) (u32 extract_start)]
          else [] in
        rest ← extract_concat_loop cs' (extract_high - concatChildSize) (extract_low - concatChildSize);
        Ok (pushed ++ rest)
  end.
Definition ExtractConcat : RewriteRule := MkRule
  (fun node =>
    if negb (isExtract node) then Ok false else
    n0 ← child node 0;
    Ok (isKind BITVECTOR_CONCAT n0))
  (fun node =>
    h ← getExtractHigh node; l ← getExtractLow node;
    concat ← child node 0;
    resultChildren ← extract_concat_loop (rev (children concat)) (i32 h) (i32 l);
    mkConcatV (rev resultChildren)).

Definition ExtractExtract : RewriteRule := MkRule
  (fun node =>
    if negb (isExtract node) then Ok false else
    n0 ← child node 0;
    Ok (isExtract n0))
  (fun node =>
    c ← child node 0;
    k ← getExtractHigh node; l ← getExtractLow node;
    j ← getExtractLow c;
    c0 ← child c 0;
    Ok (mkExtract c0 (u32 (k + j)) (u32 (l + j)))).

Definition FailEq : RewriteRule := MkRule
  (fun node =>
    if negb (isKind EQUAL node) then Ok false else
    n0 ← child node 0;
    if negb (isKind CONST_BITVECTOR n0) then Ok false else
    n1 ← child node 1;
    if negb (isKind CONST_BITVECTOR n1) then Ok false else
    Ok (negb (node_eqb n0 n1)))
  (fun node => Ok (ConstBool false)).

Definition SimplifyEq : RewriteRule := MkRule
  (fun node =>
    if negb (isKind EQUAL node) then Ok false else
    n0 ← child node 0; n1 ← child node 1;
    Ok (node_eqb n0 n1))
  (fun node => Ok (ConstBool true)).

Definition ReflexivityEq : RewriteRule := MkRule
  (fun node =>
    if isKind EQUAL node then n0 ← child node 0; n1 ← child node 1; Ok (node_lt n0 n1) else Ok false)
  (fun node => n0 ← child node 0; n1 ← child node 1; Ok (eqNode n1 n0)).
End core.
