(* ===== verification/BVRulesCorrect.v ===== *)
(** * The rewrite rules preserve meaning

    A rule is [Sound] in a model when, on every well-formed term, [applies] does not
    throw and, where it holds, [apply] returns a term of the same value (so of the
    same type).  Strategies made of sound rules are sound. *)

From S2P Require Import Prelude Integer BitVector Node BitblastUtils BitblastStrategies BitblastCorrect BVRules.
Local Open Scope Z_scope.

(** ** Evaluating the terms the rules build *)
Section forward.
Variable e : env.

Lemma ev_intro k ch vs v : arity_ok k (length ch) = true -> Forall2 (fun c w => eval e c = Some w) ch vs ->
  eval_kind e k vs = Some v -> eval e (MkNode k ch) = Some v.
Proof. intros. apply eval_MkNode. eauto. Qed.

Lemma ev1 k a x v : arity_ok k 1 = true -> eval e a = Some x -> eval_kind e k [x] = Some v ->
  eval e (MkNode k [a]) = Some v.
Proof. intros. eapply ev_intro; [done | | done]. by repeat constructor. Qed.
Lemma ev2 k a b x y v : arity_ok k 2 = true -> eval e a = Some x -> eval e b = Some y ->
  eval_kind e k [x; y] = Some v -> eval e (MkNode k [a; b]) = Some v.
Proof. intros. eapply ev_intro; [done | | done]. by repeat constructor. Qed.
Lemma ev3 k a b c x y z v : arity_ok k 3 = true -> eval e a = Some x -> eval e b = Some y -> eval e c = Some z ->
  eval_kind e k [x; y; z] = Some v -> eval e (MkNode k [a; b; c]) = Some v.
Proof. intros. eapply ev_intro; [done | | done]. by repeat constructor. Qed.

Lemma k_binary f n a b : bv_binary f [bv n a; bv n b] = Some (bv n (f n a b)).
Proof. apply bv_binary_Some. eauto. Qed.
Lemma k_unary f n a : bv_unary f [bv n a] = Some (bv n (f n a)).
Proof. apply bv_unary_Some. eauto. Qed.
Lemma k_nary2 f n a b : bv_nary f [bv n a; bv n b] = Some (bv n (f n a b)).
Proof. apply bv_nary_Some. by exists n, a, [b]. Qed.
Lemma k_pred f n a b : bv_pred f [bv n a; bv n b] = Some (VBool (f n a b)).
Proof. apply bv_pred_Some. eauto. Qed.

Lemma e_unary k f a n x : (forall vs, eval_kind e k vs = bv_unary f vs) -> arity_ok k 1 = true ->
  eval e a = Some (bv n x) -> eval e (MkNode k [a]) = Some (bv n (f n x)).
Proof. intros Hk Ha Hx. eapply ev1; [done | done |]. rewrite Hk. apply k_unary. Qed.
Lemma e_binary k f a b n x y : (forall vs, eval_kind e k vs = bv_binary f vs) -> arity_ok k 2 = true ->
  eval e a = Some (bv n x) -> eval e b = Some (bv n y) -> eval e (MkNode k [a; b]) = Some (bv n (f n x y)).
Proof. intros Hk Ha Hx Hy. eapply ev2; [done | done | done |]. rewrite Hk. apply k_binary. Qed.
Lemma e_nary2 k f a b n x y : (forall vs, eval_kind e k vs = bv_nary f vs) -> arity_ok k 2 = true ->
  eval e a = Some (bv n x) -> eval e b = Some (bv n y) -> eval e (MkNode k [a; b]) = Some (bv n (f n x y)).
Proof. intros Hk Ha Hx Hy. eapply ev2; [done | done | done |]. rewrite Hk. apply k_nary2. Qed.
Lemma e_pred k f a b n x y : (forall vs, eval_kind e k vs = bv_pred f vs) -> arity_ok k 2 = true ->
  eval e a = Some (bv n x) -> eval e b = Some (bv n y) -> eval e (MkNode k [a; b]) = Some (VBool (f n x y)).
Proof. intros Hk Ha Hx Hy. eapply ev2; [done | done | done |]. rewrite Hk. apply k_pred. Qed.

Lemma e_ult a b n x y : eval e a = Some (bv n x) -> eval e b = Some (bv n y) ->
  eval e (MkNode BITVECTOR_ULT [a; b]) = Some (VBool (Sem.ult x y)).
Proof. by apply (e_pred BITVECTOR_ULT (fun _ => Sem.ult)). Qed.
Lemma e_ule a b n x y : eval e a = Some (bv n x) -> eval e b = Some (bv n y) ->
  eval e (MkNode BITVECTOR_ULE [a; b]) = Some (VBool (Sem.ule x y)).
Proof. by apply (e_pred BITVECTOR_ULE (fun _ => Sem.ule)). Qed.
Lemma e_slt a b n x y : eval e a = Some (bv n x) -> eval e b = Some (bv n y) ->
  eval e (MkNode BITVECTOR_SLT [a; b]) = Some (VBool (Sem.slt n x y)).
Proof. by apply (e_pred BITVECTOR_SLT Sem.slt). Qed.
Lemma e_sle a b n x y : eval e a = Some (bv n x) -> eval e b = Some (bv n y) ->
  eval e (MkNode BITVECTOR_SLE [a; b]) = Some (VBool (Sem.sle n x y)).
Proof. by apply (e_pred BITVECTOR_SLE Sem.sle). Qed.
Lemma e_neg a n x : eval e a = Some (bv n x) -> eval e (MkNode BITVECTOR_NEG [a]) = Some (bv n (Sem.neg n x)).
Proof. by apply (e_unary BITVECTOR_NEG). Qed.
Lemma e_bnot a n x : eval e a = Some (bv n x) -> eval e (MkNode BITVECTOR_NOT [a]) = Some (bv n (Sem.bnot n x)).
Proof. by apply (e_unary BITVECTOR_NOT). Qed.
Lemma e_plus a b n x y : eval e a = Some (bv n x) -> eval e b = Some (bv n y) ->
  eval e (MkNode BITVECTOR_PLUS [a; b]) = Some (bv n (Sem.add n x y)).
Proof. by apply (e_nary2 BITVECTOR_PLUS). Qed.

Lemma e_not a b : eval e a = Some (VBool b) -> eval e (MkNode NOT [a]) = Some (VBool (negb b)).
Proof. intros. by eapply ev1. Qed.
Lemma e_and a b x y : eval e a = Some (VBool x) -> eval e b = Some (VBool y) ->
  eval e (MkNode AND [a; b]) = Some (VBool (x && y)).
Proof. intros. eapply ev2; [done .. |]. cbn. unfold id. by rewrite andb_true_r. Qed.
Lemma e_xor a b x y : eval e a = Some (VBool x) -> eval e b = Some (VBool y) ->
  eval e (MkNode XOR [a; b]) = Some (VBool (xorb x y)).
Proof. intros. by eapply ev2. Qed.
Lemma e_equal a b n x y : eval e a = Some (bv n x) -> eval e b = Some (bv n y) ->
  eval e (MkNode EQUAL [a; b]) = Some (VBool (x =? y)).
Proof.
  intros. eapply ev2; [done .. |]. cbn. rewrite Z.eqb_refl. do 2 f_equal.
  destruct (Z.eqb_spec x y) as [->|]; [by rewrite bool_decide_true |].
  rewrite bool_decide_false; [done | unfold bv; congruence].
Qed.
Lemma e_ite c a b z n x y : eval e c = Some (VBool z) -> eval e a = Some (bv n x) -> eval e b = Some (bv n y) ->
  eval e (MkNode ITE [c; a; b]) = Some (bv n (if z then x else y)).
Proof. intros. eapply ev3; [done .. |]. cbn. rewrite Z.eqb_refl. by destruct z. Qed.
Lemma e_extract a h l n x : eval e a = Some (bv n x) -> 0 <= l <= h -> h < n ->
  eval e (mkExtract a h l) = Some (bv (h - l + 1) (Sem.extract x h l)).
Proof. intros. eapply ev1; [done .. |]. cbn. by rewrite decide_True. Qed.
Lemma e_concat2 a b n x m y : eval e a = Some (bv n x) -> eval e b = Some (bv m y) -> n + m < 2 ^ 32 ->
  eval e (mkConcat a b) = Some (bv (n + m) (Sem.concat x m y)).
Proof.
  intros Ha Hb Hnm. pose proof (eval_bv_range e n x a Ha). pose proof (eval_bv_range e m y b Hb).
  eapply ev2; [done .. |]. cbn. unfold fit. rewrite decide_True by lia. unfold Sem.concat.
  rewrite Z.pow_0_r, !Z.add_0_r, Z.mul_1_r. done.
Qed.
Lemma e_const v : wf1 v -> eval e (ConstBV v) = Some (VBV v).
Proof. intros [? ?]. cbn. by rewrite decide_True. Qed.
End forward.

Create HintDb bveval.
#[export] Hint Resolve e_ult e_ule e_slt e_sle e_neg e_bnot e_plus e_not e_and e_xor e_equal e_ite e_concat2 : bveval.

(** ** Soundness *)
Section sound.
Context {G : Gmp} {HG : GmpSpec G}.
Variable e : env.

Record Sound (R : RewriteRule) : Prop := {
  sound_applies n v : eval e n = Some v -> exists b, applies R n = Ok b;
  sound_apply n v : eval e n = Some v -> applies R n = Ok true -> exists r, apply R n = Ok r /\ eval e r = Some v
}.

(** Soundness on one term, for the rules that rely on the ones run before. *)
Definition sound_at (R : RewriteRule) (n : Node) (v : value) : Prop :=
  exists b, applies R n = Ok b /\ (b = true -> exists r, apply R n = Ok r /\ eval e r = Some v).
Lemma Sound_iff R : Sound R <-> forall n v, eval e n = Some v -> sound_at R n v.
Proof.
  split.
  - intros [H1 H2] n v Hv. destruct (H1 n v Hv) as [b Hb]. exists b. split; [done |]. intros ->. by apply H2.
  - intros H. split; intros n v Hv; destruct (H n v Hv) as (b & Hb & Hr); [by exists b |].
    intros E. rewrite E in Hb. injection Hb as <-. auto.
Qed.

Lemma run_sound b R n v : Sound R -> eval e n = Some v -> (b = false -> applies R n = Ok true) ->
  exists r, run b R n = Ok r /\ eval e r = Some v.
Proof.
  intros [H1 H2] Hv Hb. destruct (H1 n v Hv) as [a Ha]. unfold run. rewrite Ha. destruct b; cbn.
  - destruct a; [by apply H2 | by exists n].
  - rewrite Hb in Ha by done. injection Ha as <-. cbn. apply H2; auto.
Qed.

Lemma linear_sound rules n v : Forall Sound rules -> eval e n = Some v ->
  exists r, LinearRewriteStrategy rules n = Ok r /\ eval e r = Some v.
Proof.
  intros HS. unfold LinearRewriteStrategy. revert n. induction HS as [|R rules HR _ IH]; intros n Hv; cbn [foldl]; [by exists n |].
  destruct (sound_applies R HR n v Hv) as [a Ha]. rewrite M_bind_Ok, Ha, M_bind_Ok. destruct a; [| by apply IH].
  destruct (run_sound false R n v HR Hv ltac:(done)) as (r & -> & Hr). by apply IH.
Qed.

(** A rule recognised by the kind of the term. *)
Lemma sound_of_kind (rule : RewriteRule) (p : Node -> bool) :
  (forall n, applies rule n = Ok (p n)) ->
  (forall n v, p n = true -> eval e n = Some v -> exists r, apply rule n = Ok r /\ eval e r = Some v) -> Sound rule.
Proof.
  intros Ha Hb. split.
  - intros n v _. eauto.
  - intros n v Hv Hn. rewrite Ha in Hn. injection Hn as Hn. by apply Hb.
Qed.

(** A rule for one kind: [p] may ask more than the kind. *)
Lemma sound_kind k rule p : (forall n, applies rule n = Ok (p n)) -> (forall n, p n = true -> getKind n = k) ->
  k <> VARIABLE -> k <> CONST_BOOLEAN -> k <> CONST_BITVECTOR ->
  (forall ch v, p (MkNode k ch) = true -> eval e (MkNode k ch) = Some v -> exists r, apply rule (MkNode k ch) = Ok r /\ eval e r = Some v) ->
  Sound rule.
Proof.
  intros Ha Hp K1 K2 K3 Hr. apply (sound_of_kind rule p); [done |]. intros n v Hn Hv. pose proof (Hp n Hn) as Hk.
  destruct n as [| | |k' ch]; cbn in Hk; try congruence. subst k'. by apply Hr.
Qed.
Lemma isKind_kind k n : isKind k n = true -> getKind n = k.
Proof. by intros ?%bool_decide_eq_true. Qed.

(** The operators on two vectors of one width: bind the children, then compute. *)
Lemma sound_binary k f rule p :
  (forall vs, eval_kind e k vs = bv_binary f vs) -> (forall n, applies rule n = Ok (p n)) -> (forall n, p n = true -> getKind n = k) ->
  k <> VARIABLE -> k <> CONST_BOOLEAN -> k <> CONST_BITVECTOR ->
  (forall c0 c1 n a b, p (MkNode k [c0; c1]) = true -> eval e c0 = Some (bv n a) -> eval e c1 = Some (bv n b) ->
     1 <= n < 2 ^ 32 -> rng n a -> rng n b ->
     exists r, apply rule (MkNode k [c0; c1]) = Ok r /\ eval e r = Some (bv n (f n a b))) -> Sound rule.
Proof.
  intros Hk Ha Hp K1 K2 K3 Hr. apply (sound_kind k rule p); [done .. |]. intros ch v Hc Hv.
  destruct (eval_binary_inv e k f ch v Hk Hv) as (w & a & b & c0 & c1 & -> & -> & H0 & H1 & Hw & Hra & Hrb). eauto.
Qed.
Lemma sound_pred k f rule p :
  (forall vs, eval_kind e k vs = bv_pred f vs) -> (forall n, applies rule n = Ok (p n)) -> (forall n, p n = true -> getKind n = k) ->
  k <> VARIABLE -> k <> CONST_BOOLEAN -> k <> CONST_BITVECTOR ->
  (forall c0 c1 n a b, p (MkNode k [c0; c1]) = true -> eval e c0 = Some (bv n a) -> eval e c1 = Some (bv n b) ->
     1 <= n < 2 ^ 32 -> rng n a -> rng n b ->
     exists r, apply rule (MkNode k [c0; c1]) = Ok r /\ eval e r = Some (VBool (f n a b))) -> Sound rule.
Proof.
  intros Hk Ha Hp K1 K2 K3 Hr. apply (sound_kind k rule p); [done .. |]. intros ch v Hc Hv.
  destruct (eval_pred_inv e k f ch v Hk Hv) as (w & a & b & c0 & c1 & -> & -> & H0 & H1 & Hw & Hra & Hrb). eauto.
Qed.
Lemma sound_bvpred k f rule p :
  (forall vs, eval_kind e k vs = bv_bvpred f vs) -> (forall n, applies rule n = Ok (p n)) -> (forall n, p n = true -> getKind n = k) ->
  k <> VARIABLE -> k <> CONST_BOOLEAN -> k <> CONST_BITVECTOR ->
  (forall c0 c1 n a b, p (MkNode k [c0; c1]) = true -> eval e c0 = Some (bv n a) -> eval e c1 = Some (bv n b) ->
     1 <= n < 2 ^ 32 -> rng n a -> rng n b ->
     exists r, apply rule (MkNode k [c0; c1]) = Ok r /\ eval e r = Some (bv 1 (Z.b2z (f n a b)))) -> Sound rule.
Proof.
  intros Hk Ha Hp K1 K2 K3 Hr. apply (sound_kind k rule p); [done .. |]. intros ch v Hc Hv.
  destruct (eval_bvpred_inv e k f ch v Hk Hv) as (w & a & b & c0 & c1 & -> & -> & H0 & H1 & Hw & Hra & Hrb). eauto.
Qed.
Lemma sound_unary k f rule p :
  (forall vs, eval_kind e k vs = bv_unary f vs) -> (forall n, applies rule n = Ok (p n)) -> (forall n, p n = true -> getKind n = k) ->
  k <> VARIABLE -> k <> CONST_BOOLEAN -> k <> CONST_BITVECTOR ->
  (forall c0 n a, p (MkNode k [c0]) = true -> eval e c0 = Some (bv n a) -> 1 <= n < 2 ^ 32 -> rng n a ->
     exists r, apply rule (MkNode k [c0]) = Ok r /\ eval e r = Some (bv n (f n a))) -> Sound rule.
Proof.
  intros Hk Ha Hp K1 K2 K3 Hr. apply (sound_kind k rule p); [done .. |]. intros ch v Hc Hv.
  destruct (eval_unary_inv e k f ch v Hk Hv) as (w & a & c0 & -> & -> & H0 & Hw & Hra). eauto.
Qed.

(** Opening a rule on a term whose children are known. *)
Lemma child0 k c l : child (MkNode k (c :: l)) 0 = Ok c. Proof. done. Qed.
Lemma child1 k c d l : child (MkNode k (c :: d :: l)) 1 = Ok d. Proof. done. Qed.
Lemma child2 k c d f l : child (MkNode k (c :: d :: f :: l)) 2 = Ok f. Proof. done. Qed.
Lemma getSize_bv c n a : eval e c = Some (bv n a) -> getSize c = Ok n.
Proof. apply eval_getSize. Qed.

Ltac steps := cbn [apply applies getKind];
  repeat (rewrite child0 || rewrite child1 || rewrite child2 || rewrite M_bind_Ok ||
    match goal with H : eval _ ?c = Some (bv ?n ?a) |- context [getSize ?c] => rewrite (getSize_bv c n a H) end).
Tactic Notation "open" reference(R) := unfold R; steps.
Ltac by_kind := first [apply isKind_kind | by intros ? [?%isKind_kind _]%andb_true_iff].
Ltac built := eexists; split; [reflexivity |].
Tactic Notation "pred_rule" constr(K) reference(R) := eapply (sound_pred K);
  [intros; reflexivity | intros; reflexivity | by_kind | done | done | done |]; intros c0 c1 n a b Hp H0 H1 Hn Ha Hb; unfold R; steps.
Tactic Notation "bvpred_rule" constr(K) reference(R) := eapply (sound_bvpred K);
  [intros; reflexivity | intros; reflexivity | by_kind | done | done | done |]; intros c0 c1 n a b Hp H0 H1 Hn Ha Hb; unfold R; steps.
Tactic Notation "binary_rule" constr(K) reference(R) := eapply (sound_binary K);
  [intros; reflexivity | intros; reflexivity | by_kind | done | done | done |]; intros c0 c1 n a b Hp H0 H1 Hn Ha Hb; unfold R; steps.
Tactic Notation "unary_rule" constr(K) reference(R) := eapply (sound_unary K);
  [intros; reflexivity | intros; reflexivity | by_kind | done | done | done |]; intros c0 n a Hp H0 Hn Ha; unfold R; steps.

Lemma e_mk n z : 1 <= n < 2 ^ 32 -> eval e (mkConst n z) = Some (bv n (z mod 2 ^ n)).
Proof. intros. unfold mkConst. rewrite mk_ok by lia. apply e_const. repeat split; cbn; try lia; apply Z.mod_pos_bound; lia. Qed.
Lemma e_mk_small n z : 1 <= n < 2 ^ 32 -> rng n z -> eval e (mkConst n z) = Some (bv n z).
Proof. intros ? Hz. rewrite e_mk by done. by rewrite Z.mod_small. Qed.
Lemma e_bit1 : eval e (mkConst 1 1) = Some (bv 1 1). Proof. by apply e_mk_small. Qed.
Lemma e_bit0 : eval e (mkConst 1 0) = Some (bv 1 0). Proof. by apply e_mk_small. Qed.

(** *** Elimination *)
Lemma UgtEliminate_sound : Sound UgtEliminate.
Proof. pred_rule BITVECTOR_UGT UgtEliminate. built. by eapply e_ult. Qed.
Lemma UgeEliminate_sound : Sound UgeEliminate.
Proof. pred_rule BITVECTOR_UGE UgeEliminate. built. by eapply e_ule. Qed.
Lemma SgtEliminate_sound : Sound SgtEliminate.
Proof. pred_rule BITVECTOR_SGT SgtEliminate. built. by eapply e_slt. Qed.
Lemma SgeEliminate_sound : Sound SgeEliminate.
Proof. pred_rule BITVECTOR_SGE SgeEliminate. built. by eapply e_sle. Qed.

Lemma SleEliminate_sound : Sound SleEliminate.
Proof.
  pred_rule BITVECTOR_SLE SleEliminate. built. rewrite (e_not e _ (Sem.slt n b a)); [| by eapply e_slt].
  unfold Sem.slt, Sem.sle. by rewrite <- Z.leb_antisym.
Qed.
Lemma UleEliminate_sound : Sound UleEliminate.
Proof.
  pred_rule BITVECTOR_ULE UleEliminate. built. rewrite (e_not e _ (Sem.ult b a)); [| by eapply e_ult].
  unfold Sem.ult, Sem.ule. by rewrite <- Z.leb_antisym.
Qed.

(** Adding [2^(n-1)] turns the signed order into the unsigned one. *)
Lemma bias n a : 1 <= n -> rng n a -> Sem.add n a (2 ^ (n - 1)) = Sem.signed n a + 2 ^ (n - 1).
Proof.
  unfold rng, Sem.add, Sem.wrap, Sem.signed. intros Hn Ha. pose proof (pow2_half n Hn).
  destruct (Z.ltb_spec a (2 ^ (n - 1))).
  - rewrite Z.mod_small; lia.
  - symmetry. apply Z.mod_unique with 1; lia.
Qed.

Lemma SltEliminate_sound : Sound SltEliminate.
Proof.
  pred_rule BITVECTOR_SLT SltEliminate. built.
  rewrite u32_small, multiplyByPow2_ok, Z.mul_1_l by lia. pose proof (pow2_half n ltac:(lia)). pose proof (pow2_gt0 (n - 1) ltac:(lia)).
  pose proof (e_mk_small n (2 ^ (n - 1)) ltac:(lia) ltac:(split; lia)) as Hc.
  rewrite (e_ult e _ _ n (Sem.add n a (2 ^ (n - 1))) (Sem.add n b (2 ^ (n - 1)))); [| by apply e_plus ..].
  rewrite !bias by (lia || done). unfold Sem.ult, Sem.slt. do 2 f_equal.
  destruct (Z.ltb_spec (Sem.signed n a) (Sem.signed n b)); [apply Z.ltb_lt | apply Z.ltb_ge]; lia.
Qed.

Lemma CompEliminate_sound : Sound CompEliminate.
Proof.
  bvpred_rule BITVECTOR_COMP CompEliminate. built. rewrite (e_ite e _ _ _ (a =? b) 1 1 0);
    [by destruct (a =? b) | by eapply e_equal | apply e_bit1 | apply e_bit0].
Qed.

Lemma SubEliminate_sound : Sound SubEliminate.
Proof.
  binary_rule BITVECTOR_SUB SubEliminate. built. rewrite (e_plus e _ _ n a (Sem.neg n b)); [| done | by apply e_neg].
  unfold Sem.add, Sem.neg, Sem.sub, Sem.wrap. rewrite Zplus_mod_idemp_r. do 3 f_equal.
Qed.

Lemma NandEliminate_sound : Sound NandEliminate.
Proof.
  binary_rule BITVECTOR_NAND NandEliminate. built. apply e_bnot. by apply (e_nary2 e BITVECTOR_AND (fun _ => Z.land)).
Qed.
Lemma NorEliminate_sound : Sound NorEliminate.
Proof.
  binary_rule BITVECTOR_NOR NorEliminate. built. apply e_bnot. by apply (e_nary2 e BITVECTOR_OR (fun _ => Z.lor)).
Qed.
Lemma XnorEliminate_sound : Sound XnorEliminate.
Proof.
  binary_rule BITVECTOR_XNOR XnorEliminate. built. apply e_bnot. by apply (e_nary2 e BITVECTOR_XOR (fun _ => Z.lxor)).
Qed.

(** *** Operators with indices *)
Lemma eval_one_inv k ch v : arity k = (1%nat, Some 1%nat) -> eval e (MkNode k ch) = Some v ->
  exists c w, ch = [c] /\ eval e c = Some w /\ eval_kind e k [w] = Some v.
Proof.
  intros Ha (Hl & vs & Hvs & Hk)%eval_MkNode. unfold arity_ok in Hl. rewrite Ha in Hl.
  apply andb_true_iff in Hl as [H1%Nat.leb_le H2%Nat.leb_le].
  destruct ch as [|c [|]]; cbn in H1, H2; try lia. inversion Hvs as [|? w ? ? Hc Ht]; subst. inversion Ht; subst. eauto.
Qed.

(** A rule for the kinds [K i]: [p] recognises them. *)
Lemma indexed_at {I} (K : I -> Kind) rule p n v :
  (forall n, applies rule n = Ok (p n)) -> (forall n, p n = true -> exists i ch, n = MkNode (K i) ch) ->
  (forall i, arity (K i) = (1%nat, Some 1%nat)) ->
  (forall i c w, p (MkNode (K i) [c]) = true -> eval e c = Some w -> eval_kind e (K i) [w] = Some v ->
     exists r, apply rule (MkNode (K i) [c]) = Ok r /\ eval e r = Some v) -> eval e n = Some v -> sound_at rule n v.
Proof.
  intros Ha Hp Hk Hr Hv. exists (p n). split; [done |]. intros Hn. destruct (Hp n Hn) as (i & ch & ->).
  destruct (eval_one_inv (K i) ch v (Hk i) Hv) as (c & w & -> & Hc & Hv'). eauto.
Qed.
Lemma sound_indexed {I} (K : I -> Kind) rule p :
  (forall n, applies rule n = Ok (p n)) -> (forall n, p n = true -> exists i ch, n = MkNode (K i) ch) ->
  (forall i, arity (K i) = (1%nat, Some 1%nat)) ->
  (forall i c w v, p (MkNode (K i) [c]) = true -> eval e c = Some w -> eval_kind e (K i) [w] = Some v ->
     exists r, apply rule (MkNode (K i) [c]) = Ok r /\ eval e r = Some v) -> Sound rule.
Proof.
  intros Ha Hp Hk Hr. apply Sound_iff. intros n v. apply (indexed_at K rule p); eauto.
Qed.

Ltac find_kind := intros [| | |k ch] Hk; try discriminate Hk; destruct k; try discriminate Hk; by eexists _, _.
Ltac indexed_cases w Hc Hv := steps; destruct w as [|[n a]]; [discriminate Hv |];
  match type of Hc with eval e ?c = _ =>
    change (eval e c = Some (bv n a)) in Hc; pose proof (eval_bv_range e n a c Hc) as [Hn Ha]; cbn in Hv; steps end.
Tactic Notation "indexed_rule" constr(K) reference(R) := eapply (sound_indexed K);
  [intros; reflexivity | find_kind | done |]; intros i c w v Hp Hc Hv; unfold R; indexed_cases w Hc Hv.
(** A rule that is sound on values of at most [MAX_CHILDREN] bits. *)
Definition narrow (v : value) : Prop := forall w a, v = bv w a -> w <= MAX_CHILDREN.
Tactic Notation "narrow_rule" constr(K) reference(R) := intros t v Ht Hnarrow; revert t Ht; intros t; eapply (indexed_at K);
  [intros; reflexivity | find_kind | done |]; intros i c w Hp Hc Hv; unfold R; indexed_cases w Hc Hv.
Lemma build_copies_ok k count n : count <= MAX_CHILDREN -> build_copies k count n = Ok (MkNode k (replicate (Z.to_nat count) n)).
Proof. intros H. unfold build_copies. by rewrite (proj2 (Z.leb_le _ _) H). Qed.
Lemma MAX_CHILDREN_lt : MAX_CHILDREN < 2 ^ 32.
Proof. reflexivity. Qed.

Lemma bvs_wf ch bs : Forall2 (fun c b => eval e c = Some (VBV b)) ch bs -> Forall wf1 bs.
Proof. intros H. eapply Forall2_Forall_r_impl; [exact H |]. apply Forall_true. intros c b Hc. exact (eval_wf e c _ Hc). Qed.
Lemma eval_concat_list ch bs : Forall2 (fun c b => eval e c = Some (VBV b)) ch bs -> (2 <= length ch)%nat ->
  (concat_vals bs).1 < 2 ^ 32 -> eval e (MkNode BITVECTOR_CONCAT ch) = Some (bv (concat_vals bs).1 (concat_vals bs).2).
Proof.
  intros Hch Hl Hw. apply ev_intro with (map VBV bs).
  - unfold arity_ok. cbn [arity]. apply andb_true_iff. split; [by apply Nat.leb_le | done].
  - by apply Forall2_fmap_r.
  - cbn. rewrite (proj2 (as_bvlist_Some _ bs) eq_refl). cbn. destruct (concat_vals bs) as [m z] eqn:E.
    apply fit_Some. split; [| done]. split; [| done].
    pose proof (bvs_wf ch bs Hch) as Hwf. destruct ch as [|c ch]; [cbn in Hl; lia |].
    inversion Hch as [|? b ? bs' Hc Ht]; subst. inversion Hwf as [|? ? [_ Hb] Hwf']; subst.
    cbn in E. destruct (concat_vals bs') as [m' z'] eqn:E'. injection E as <- _.
    destruct (concat_vals_rng bs' m' z' Hwf' E'). lia.
Qed.
Lemma eval_repeat c b k : eval e c = Some (VBV b) -> (2 <= k)%nat -> (concat_vals (replicate k b)).1 < 2 ^ 32 ->
  eval e (MkNode BITVECTOR_CONCAT (replicate k c)) = Some (bv (concat_vals (replicate k b)).1 (concat_vals (replicate k b)).2).
Proof.
  intros Hc Hk Hw. apply eval_concat_list; [| by rewrite length_replicate | done].
  clear -Hc. induction k; cbn; by constructor.
Qed.

Lemma repeat_width k n a : 1 <= n -> (concat_vals (replicate k (MkBitVector n a))).1 = Z.of_nat k * n.
Proof.
  intros Hn. induction k as [|k IH]; [done |]. cbn [replicate concat_vals]. destruct (concat_vals (replicate k _)) as [m z].
  cbn [fst d_size] in *. lia.
Qed.
Lemma RepeatEliminate_at : forall t v, eval e t = Some v -> narrow v -> sound_at RepeatEliminate t v.
Proof.
  narrow_rule BITVECTOR_REPEAT RepeatEliminate. case_decide as Hi; [| done].
  rewrite (proj2 (Z.leb_le 1 i) Hi). cbn [check]. rewrite M_bind_Ok.
  destruct (concat_vals (replicate (Z.to_nat i) (MkBitVector n a))) as [m z] eqn:E. apply fit_Some in Hv as [Hm ->].
  destruct (Z.eqb_spec i 1) as [->|Hi1].
  - built. rewrite Hc. cbn in E. injection E as <- <-. unfold Sem.concat. by rewrite !Z.add_0_r, Z.mul_1_r.
  - pose proof (repeat_width (Z.to_nat i) n a ltac:(lia)) as Hw. rewrite E in Hw. cbn [fst] in Hw.
    specialize (Hnarrow m z eq_refl). assert (i <= m) by nia. rewrite build_copies_ok by lia. built.
    rewrite (eval_repeat c (MkBitVector n a)); rewrite ?E; cbn; done || lia.
Qed.

Lemma rotl_value n a j : 0 < j < n -> rng n a ->
  Sem.wrap n (a * 2 ^ j) + a / 2 ^ (n - j) = Sem.concat (Sem.extract a (n - 1 - j) 0) j (Sem.extract a (n - 1) (n - j)).
Proof.
  intros Hj Ha. unfold Sem.wrap, Sem.concat, Sem.extract, rng in *. pose proof (pow2_gt0 j ltac:(lia)).
  pose proof (pow2_gt0 (n - j) ltac:(lia)).
  assert (2 ^ n = 2 ^ (n - j) * 2 ^ j) as Hp by (rewrite <- Z.pow_add_r by lia; f_equal; lia).
  rewrite Z.pow_0_r, Z.div_1_r. replace (n - 1 - j - 0 + 1) with (n - j) by lia. replace (n - 1 - (n - j) + 1) with j by lia.
  f_equal; [rewrite Hp; apply Z.mul_mod_distr_r; lia |]. symmetry. apply Z.mod_small.
  split; [apply Z.div_pos; lia |]. apply Z.div_lt_upper_bound; nia.
Qed.
Lemma rotl_0 n a : 1 <= n -> rng n a -> Sem.wrap n (a * 2 ^ 0) + a / 2 ^ (n - 0) = a.
Proof. unfold rng, Sem.wrap. intros Hn Ha. rewrite Z.pow_0_r, Z.mul_1_r, Z.mod_small, Z.sub_0_r, Z.div_small by lia. lia. Qed.

Lemma RotateLeftEliminate_sound : Sound RotateLeftEliminate.
Proof.
  indexed_rule BITVECTOR_ROTATE_LEFT RotateLeftEliminate. case_decide as Hi; [| done]. injection Hv as <-.
  pose proof (Z.mod_pos_bound i n ltac:(lia)). unfold rotl. destruct (Z.eqb_spec (i mod n) 0) as [->|Hj].
  - built. by rewrite rotl_0 by (lia || done).
  - built. rewrite (u32_small (n - 1)) by lia. rewrite !u32_small by lia. rewrite rotl_value by (lia || done).
    rewrite (e_concat2 e _ _ (n - 1 - i mod n - 0 + 1) (Sem.extract a (n - 1 - i mod n) 0)
                             (n - 1 - (n - i mod n) + 1) (Sem.extract a (n - 1) (n - i mod n)));
      [| eapply e_extract; [done | lia | lia] .. | lia].
    do 3 f_equal; [lia |]. f_equal. lia.
Qed.
Lemma RotateRightEliminate_sound : Sound RotateRightEliminate.
Proof.
  indexed_rule BITVECTOR_ROTATE_RIGHT RotateRightEliminate. case_decide as Hi; [| done]. injection Hv as <-.
  pose proof (Z.mod_pos_bound i n ltac:(lia)). unfold rotl. destruct (Z.eqb_spec (i mod n) 0) as [->|Hj].
  - built. rewrite Z.sub_0_r, Z.mod_same by lia. by rewrite rotl_0 by (lia || done).
  - built. rewrite !u32_small by lia. rewrite (Z.mod_small (n - i mod n)) by lia. rewrite rotl_value by (lia || done).
    rewrite (e_concat2 e _ _ (i mod n - 1 - 0 + 1) (Sem.extract a (i mod n - 1) 0)
                             (n - 1 - i mod n + 1) (Sem.extract a (n - 1) (i mod n)));
      [| eapply e_extract; [done | lia | lia] .. | lia].
    replace (n - 1 - (n - i mod n)) with (i mod n - 1) by lia. replace (n - (n - i mod n)) with (i mod n) by lia.
    do 3 f_equal; [lia |]. f_equal. lia.
Qed.

Lemma ZeroExtendEliminate_sound : Sound ZeroExtendEliminate.
Proof.
  indexed_rule BITVECTOR_ZERO_EXTEND ZeroExtendEliminate. case_decide as Hi; [| done]. apply fit_Some in Hv as [Hm ->].
  destruct (Z.eqb_spec i 0) as [->|Hi0].
  - built. by rewrite Z.add_0_r.
  - built. rewrite (e_concat2 e _ _ i 0 n a); [| apply e_mk_small; [lia |] | done | lia].
    + by rewrite Z.add_comm.
    + split; [done | apply pow2_gt0; lia].
Qed.

(** The sign bit of a vector, as the rules extract it. *)
Lemma e_sign c n a : eval e c = Some (bv n a) ->
  eval e (mkExtract c (u32 (n - 1)) (u32 (n - 1))) = Some (bv 1 (Z.b2z (Z.testbit a (n - 1)))).
Proof.
  intros Hc. pose proof (eval_bv_range e n a c Hc) as [Hn Ha]. rewrite u32_small by lia.
  erewrite e_extract; [| done | lia | lia]. replace (n - 1 - (n - 1) + 1) with 1 by lia. do 2 f_equal.
  unfold Sem.extract. replace (n - 1 - (n - 1) + 1) with 1 by lia. by rewrite Z.testbit_spec' by lia.
Qed.

Lemma concat_replicate_bit k (b : bool) : concat_vals (replicate k (MkBitVector 1 (Z.b2z b))) = (Z.of_nat k, Z.b2z b * (2 ^ Z.of_nat k - 1)).
Proof.
  induction k as [|k IH]; [by destruct b |]. cbn [replicate concat_vals]. rewrite IH. cbn [d_size d_value].
  f_equal; [lia |]. unfold Sem.concat. rewrite Nat2Z.inj_succ, Z.pow_succ_r by lia. destruct b; cbn [Z.b2z]; lia.
Qed.

(** The sign bit, repeated. *)
Lemma sign_repeat_ok c n a k : eval e c = Some (bv n a) -> 1 <= k <= MAX_CHILDREN ->
  exists r, mkConcatRepeat (mkExtract c (u32 (n - 1)) (u32 (n - 1))) k = Ok r /\
    eval e r = Some (bv k (Z.b2z (Z.testbit a (n - 1)) * (2 ^ k - 1))).
Proof.
  intros Hc Hk. pose proof MAX_CHILDREN_lt. pose proof (e_sign c n a Hc) as Hs. unfold mkConcatRepeat. rewrite (proj2 (Z.eqb_neq k 0)) by lia.
  cbn [negb check]. rewrite M_bind_Ok. destruct (Z.eqb_spec k 1) as [->|Hk1]; [| rewrite build_copies_ok by lia]; built.
  - rewrite Hs. do 2 f_equal. lia.
  - rewrite (eval_repeat _ (MkBitVector 1 (Z.b2z (Z.testbit a (n - 1))))); rewrite ?concat_replicate_bit; cbn [fst snd];
      rewrite ?Z2Nat.id by lia; done || lia.
Qed.
Lemma SignExtendEliminate_at : forall t v, eval e t = Some v -> narrow v -> sound_at SignExtendEliminate t v.
Proof.
  narrow_rule BITVECTOR_SIGN_EXTEND SignExtendEliminate. case_decide as Hi; [| done]. apply fit_Some in Hv as [Hm ->].
  rewrite sext_value by (lia || done). destruct (Z.eqb_spec i 0) as [->|Hi0].
  - built. rewrite Hc, Z.add_0_r, Z.sub_diag, Z.mul_0_r, Z.add_0_r. by destruct (Z.testbit a (n - 1)).
  - steps. specialize (Hnarrow _ _ eq_refl). destruct (sign_repeat_ok c n a i Hc ltac:(lia)) as (r & -> & Hr).
    steps. built. rewrite (e_concat2 e _ _ i _ n a Hr Hc ltac:(lia)), Z.add_comm. do 2 f_equal. unfold Sem.concat.
    destruct (Z.testbit a (n - 1)); cbn [Z.b2z]; lia.
Qed.

Lemma RedorEliminate_sound : Sound RedorEliminate.
Proof.
  eapply (sound_indexed (fun _ : unit => BITVECTOR_REDOR)); [intros; reflexivity | | done |].
  { intros n Hn%isKind_kind. destruct n; try discriminate. cbn in Hn. subst. by exists tt, ch. }
  intros _ c w v Hp Hc Hv. destruct w as [|[n a]]; [done |]. injection Hv as <-. change (eval e c = Some (bv n a)) in Hc. unfold RedorEliminate; steps.
  pose proof (eval_bv_range e n a c Hc) as [Hn Ha]. built. apply e_not.
  eapply e_equal; [done |]. apply e_mk_small; [done | unfold rng in *; lia].
Qed.

Lemma mkBitVectorOnes_ok n : 1 <= n < 2 ^ 32 -> mkBitVectorOnes n = Ok (MkBitVector n (2 ^ n - 1)).
Proof.
  intros Hn. unfold mkBitVectorOnes. rewrite (proj2 (Z.ltb_lt 0 n)) by lia. cbn [check]. steps.
  rewrite u32_small, mk_small, signExtend_ok by (cbn; lia).
  assert (Sem.sext 1 1 (n - 1) = 2 ^ n - 1) as ->.
  { rewrite sext_value by (cbn; lia). change (Z.testbit 1 (1 - 1)) with true. change (2 ^ 1) with 2.
    pose proof (pow2_half n ltac:(lia)). cbv iota. lia. }
  do 2 f_equal. lia.
Qed.
Lemma mkOnes_ok n : 1 <= n < 2 ^ 32 -> exists c, mkOnes n = Ok c /\ eval e c = Some (bv n (2 ^ n - 1)).
Proof.
  intros Hn. unfold mkOnes. rewrite mkBitVectorOnes_ok by done. steps. built.
  pose proof (pow2_gt0 n ltac:(lia)). apply e_const. repeat split; cbn; lia.
Qed.
Lemma RedandEliminate_sound : Sound RedandEliminate.
Proof.
  eapply (sound_indexed (fun _ : unit => BITVECTOR_REDAND)); [intros; reflexivity | | done |].
  { intros n Hn%isKind_kind. destruct n; try discriminate. cbn in Hn. subst. by exists tt, ch. }
  intros _ c w v Hp Hc Hv. destruct w as [|[n a]]; [done |]. injection Hv as <-. change (eval e c = Some (bv n a)) in Hc. unfold RedandEliminate; steps.
  pose proof (eval_bv_range e n a c Hc) as [Hn Ha]. destruct (mkOnes_ok n Hn) as (o & -> & Ho). steps. built. by eapply e_equal.
Qed.

(** *** Signed division *)
Lemma e_sign_is c n a (b : bool) : eval e c = Some (bv n a) ->
  eval e (MkNode EQUAL [mkExtract c (u32 (n - 1)) (u32 (n - 1)); mkConst 1 (Z.b2z b)]) = Some (VBool (Bool.eqb (Sem.signed n a <? 0) b)).
Proof.
  intros Hc. pose proof (eval_bv_range e n a c Hc) as [Hn Ha]. rewrite (e_equal e _ _ 1 (Z.b2z (Z.testbit a (n - 1))) (Z.b2z b)).
  - rewrite signed_sign_bit by (lia || done). by destruct (Z.testbit a (n - 1)), b.
  - by apply e_sign.
  - apply e_mk_small; [lia | apply rng_b2z].
Qed.
Lemma e_neg_sign c n a : eval e c = Some (bv n a) ->
  eval e (MkNode EQUAL [mkExtract c (u32 (n - 1)) (u32 (n - 1)); mkConst 1 1]) = Some (VBool (Sem.signed n a <? 0)).
Proof. intros Hc. etrans; [exact (e_sign_is c n a true Hc) |]. by destruct (_ <? _). Qed.
Lemma e_pos_sign c n a : eval e c = Some (bv n a) ->
  eval e (MkNode EQUAL [mkExtract c (u32 (n - 1)) (u32 (n - 1)); mkConst 1 0]) = Some (VBool (negb (Sem.signed n a <? 0))).
Proof. intros Hc. etrans; [exact (e_sign_is c n a false Hc) |]. by destruct (_ <? _). Qed.

Lemma neg_signed n a : 1 <= n -> rng n a -> Sem.signed n a < 0 -> Sem.neg n a = - Sem.signed n a.
Proof.
  unfold rng, Sem.signed, Sem.neg, Sem.wrap. intros Hn Ha. pose proof (pow2_half n Hn).
  destruct (Z.ltb_spec a (2 ^ (n - 1))); intros; [lia |].
  apply mod_unique_bound; [lia |]. exists (-1). lia.
Qed.
(** The magnitude, as the rules compute it. *)
Lemma magnitude n a : 1 <= n -> rng n a ->
  (if Sem.signed n a <? 0 then Sem.neg n a else a) = Z.abs (Sem.signed n a).
Proof.
  intros Hn Ha. destruct (Z.ltb_spec (Sem.signed n a) 0) as [H|H]; [rewrite neg_signed by done; lia |].
  revert H. unfold rng, Sem.signed in *. destruct (Z.ltb_spec a (2 ^ (n - 1))); lia.
Qed.
Lemma signed_0 n a : 1 <= n -> rng n a -> (Sem.signed n a = 0 <-> a = 0).
Proof.
  intros Hn Ha. unfold rng, Sem.signed in *. pose proof (pow2_half n Hn). pose proof (pow2_gt0 (n - 1) ltac:(lia)).
  destruct (Z.ltb_spec a (2 ^ (n - 1))); lia.
Qed.
Lemma e_magnitude c n a : eval e c = Some (bv n a) ->
  eval e (MkNode ITE [MkNode EQUAL [mkExtract c (u32 (n - 1)) (u32 (n - 1)); mkConst 1 1]; MkNode BITVECTOR_NEG [c]; c]) =
  Some (bv n (Z.abs (Sem.signed n a))).
Proof.
  intros Hc. pose proof (eval_bv_range e n a c Hc) as [Hn Ha]. rewrite <- magnitude by (lia || done).
  apply e_ite; [by apply e_neg_sign | by apply e_neg | done].
Qed.
Lemma neg_wrap n z : 0 <= n -> Sem.neg n (Sem.wrap n z) = Sem.wrap n (- z).
Proof.
  intros. unfold Sem.neg, Sem.wrap. rewrite <- (Z.sub_0_l (z mod _)), Zminus_mod_idemp_r. done.
Qed.
Lemma wrap_small n z : rng n z -> Sem.wrap n z = z.
Proof. apply Z.mod_small. Qed.

(** A model in which partial division agrees with the total one. *)
Definition env_total : Prop := forall n a, Sem.wrap n (e_udiv0 e n a) = 2 ^ n - 1 /\ Sem.wrap n (e_urem0 e n a) = Sem.wrap n a.

Lemma magnitude_rng n a : 1 <= n -> rng n a -> rng n (Z.abs (Sem.signed n a)).
Proof.
  intros Hn Ha. pose proof (signed_range n a Hn Ha). pose proof (pow2_half n Hn). unfold rng. lia.
Qed.
Lemma udiv_total n a b : env_total -> rng n a -> Sem.udiv n a b = udiv_e e n a b.
Proof. intros He Ha. unfold Sem.udiv, udiv_e. by rewrite (proj1 (He n a)). Qed.
Lemma urem_total n a b : env_total -> rng n a -> Sem.urem n a b = urem_e e n a b.
Proof. intros He Ha. unfold Sem.urem, urem_e. by rewrite (proj2 (He n a)), wrap_small. Qed.

(** Signed division through the magnitudes. *)
Lemma sdiv_by_magnitude n a b : 1 <= n -> rng n a -> rng n b ->
  let q := udiv_e e n (Z.abs (Sem.signed n a)) (Z.abs (Sem.signed n b)) in
  (if xorb (Sem.signed n a <? 0) (Sem.signed n b <? 0) then Sem.neg n q else q) = sdiv_e e n a b.
Proof.
  intros Hn Ha Hb. cbv zeta. pose proof (signed_0 n b Hn Hb) as H0. unfold sdiv_e. destruct (Z.eqb_spec b 0) as [Hb0|Hb0].
  - rewrite (proj2 H0 Hb0). change (0 <? 0) with false. rewrite xorb_false_r. change (Z.abs 0) with 0.
    rewrite <- magnitude by done. by destruct (_ <? _).
  - assert (Sem.signed n b <> 0) by tauto. unfold udiv_e. rewrite (proj2 (Z.eqb_neq (Z.abs _) 0)) by lia.
    rewrite Z.quot_div by done. set (A := Sem.signed n a) in *. set (B := Sem.signed n b) in *.
    assert (rng n (Z.abs A / Z.abs B)) as Hq by (apply (rng_div n _ 0); [done | apply magnitude_rng; done | unfold rng in *; lia | lia]).
    clearbody A B. destruct (Z.ltb_spec A 0), (Z.ltb_spec B 0); cbn [xorb]; unfold Sem.neg.
    all: rewrite ?(Z.sgn_neg A), ?(Z.sgn_neg B), ?(Z.sgn_pos B) by lia.
    + replace (-1 * -1 * (Z.abs A / Z.abs B)) with (Z.abs A / Z.abs B) by lia. by rewrite wrap_small.
    + apply f_equal. lia.
    + destruct (Z.eq_dec A 0) as [->|]; [by rewrite Z.div_0_l by lia |]. rewrite Z.sgn_pos by lia. apply f_equal. lia.
    + destruct (Z.eq_dec A 0) as [->|]; [rewrite Z.div_0_l in * by (cbn; lia); by rewrite wrap_small by (unfold rng in *; lia) |].
      rewrite Z.sgn_pos by lia. rewrite !Z.mul_1_l. by rewrite wrap_small.
Qed.
Lemma srem_by_magnitude n a b : 1 <= n -> rng n a -> rng n b ->
  let r := urem_e e n (Z.abs (Sem.signed n a)) (Z.abs (Sem.signed n b)) in
  (if Sem.signed n a <? 0 then Sem.neg n r else r) = srem_e e n a b.
Proof.
  intros Hn Ha Hb. cbv zeta. pose proof (signed_0 n b Hn Hb) as H0. unfold srem_e. destruct (Z.eqb_spec b 0) as [Hb0|Hb0].
  - rewrite (proj2 H0 Hb0). change (Z.abs 0) with 0. rewrite <- magnitude by done. by destruct (_ <? _).
  - assert (Sem.signed n b <> 0) by tauto. unfold urem_e. rewrite (proj2 (Z.eqb_neq (Z.abs _) 0)) by lia.
    rewrite Z.rem_mod by done. pose proof (magnitude_rng n a Hn Ha). pose proof (magnitude_rng n b Hn Hb).
    set (A := Sem.signed n a) in *. set (B := Sem.signed n b) in *. pose proof (Z.mod_pos_bound (Z.abs A) (Z.abs B) ltac:(lia)).
    clearbody A B. destruct (Z.ltb_spec A 0); unfold Sem.neg.
    + rewrite Z.sgn_neg by lia. apply f_equal. lia.
    + destruct (Z.eq_dec A 0) as [->|]; [rewrite Z.mod_0_l by lia; by rewrite wrap_small by (unfold rng in *; lia) |].
      rewrite Z.sgn_pos, Z.mul_1_l by lia. by rewrite wrap_small by (unfold rng in *; lia).
Qed.

Section partial_division.
Variable byZeroConst : bool.
Hypothesis HZ : byZeroConst = true -> env_total.

Lemma e_udiv_opt a b n x y : eval e a = Some (bv n x) -> eval e b = Some (bv n y) ->
  eval e (MkNode (if byZeroConst then BITVECTOR_UDIV_TOTAL else BITVECTOR_UDIV) [a; b]) = Some (bv n (udiv_e e n x y)).
Proof.
  intros H0 H1. pose proof (eval_bv_range e n x a H0) as [_ Hx]. destruct byZeroConst.
  - rewrite <- udiv_total by auto. by apply (e_binary e BITVECTOR_UDIV_TOTAL Sem.udiv).
  - by apply (e_binary e BITVECTOR_UDIV (udiv_e e)).
Qed.
Lemma e_urem_opt a b n x y : eval e a = Some (bv n x) -> eval e b = Some (bv n y) ->
  eval e (MkNode (if byZeroConst then BITVECTOR_UREM_TOTAL else BITVECTOR_UREM) [a; b]) = Some (bv n (urem_e e n x y)).
Proof.
  intros H0 H1. pose proof (eval_bv_range e n x a H0) as [_ Hx]. destruct byZeroConst.
  - rewrite <- urem_total by auto. by apply (e_binary e BITVECTOR_UREM_TOTAL Sem.urem).
  - by apply (e_binary e BITVECTOR_UREM (urem_e e)).
Qed.

Lemma SdivEliminate_sound : Sound (SdivEliminate byZeroConst).
Proof.
  binary_rule BITVECTOR_SDIV SdivEliminate. built. rewrite <- sdiv_by_magnitude by (lia || done).
  pose proof (e_udiv_opt _ _ n _ _ (e_magnitude c0 n a H0) (e_magnitude c1 n b H1)).
  apply e_ite; [apply e_xor; by apply e_neg_sign | by apply e_neg | done].
Qed.
Lemma SremEliminate_sound : Sound (SremEliminate byZeroConst).
Proof.
  binary_rule BITVECTOR_SREM SremEliminate. built. rewrite <- srem_by_magnitude by (lia || done).
  pose proof (e_urem_opt _ _ n _ _ (e_magnitude c0 n a H0) (e_magnitude c1 n b H1)).
  apply e_ite; [by apply e_neg_sign | by apply e_neg | done].
Qed.
End partial_division.

(** The other form of the magnitude, in [SmodEliminate]. *)
Lemma e_magnitude_pos c n a : eval e c = Some (bv n a) ->
  eval e (iteNode (eqNode (mkExtract c (u32 (n - 1)) (u32 (n - 1))) (mkConst 1 0)) c (MkNode BITVECTOR_NEG [c])) =
  Some (bv n (Z.abs (Sem.signed n a))).
Proof.
  intros Hc. pose proof (eval_bv_range e n a c Hc) as [Hn Ha]. rewrite <- magnitude by (lia || done).
  replace (if Sem.signed n a <? 0 then Sem.neg n a else a) with (if negb (Sem.signed n a <? 0) then a else Sem.neg n a)
    by (by destruct (_ <? _)).
  apply e_ite; [by apply e_pos_sign | done | by apply e_neg].
Qed.

(** Remainder with the sign of the divisor, by cases on the signs. *)
Lemma smod_by_magnitude n a b : 1 <= n -> rng n a -> rng n b ->
  let A := Sem.signed n a in let B := Sem.signed n b in
  let u := urem_e e n (Z.abs A) (Z.abs B) in
  (if u =? 0 then u
   else if negb (A <? 0) && negb (B <? 0) then u
   else if (A <? 0) && negb (B <? 0) then Sem.add n (Sem.neg n u) b
   else if negb (A <? 0) && (B <? 0) then Sem.add n u b
   else Sem.neg n u) = smod_e e n a b.
Proof.
  intros Hn Ha Hb. cbv zeta. pose proof (signed_0 n b Hn Hb) as H0. unfold smod_e.
  pose proof (magnitude n a Hn Ha) as HA. pose proof (magnitude_rng n a Hn Ha) as Ra. pose proof (magnitude_rng n b Hn Hb) as Rb.
  destruct (Z.eqb_spec b 0) as [Hb0|Hb0].
  - rewrite (proj2 H0 Hb0). change (Z.abs 0) with 0. change (0 <? 0) with false. cbn [negb]. rewrite !andb_true_r, andb_false_r.
    rewrite <- HA.
    destruct (Sem.signed n a <? 0); cbn [negb].
    + rewrite Hb0. unfold Sem.add. rewrite Z.add_0_r.
      destruct (Z.eqb_spec (urem_e e n (Sem.neg n a) 0) 0) as [E|E]; [rewrite E; unfold Sem.neg, Sem.wrap; by rewrite Z.mod_0_l by lia |].
      unfold Sem.neg at 1. unfold Sem.wrap. rewrite Z.mod_mod by lia. done.
    + by destruct (_ =? 0).
  - assert (Sem.signed n b <> 0) as HB by tauto. clear HA. unfold urem_e. rewrite (proj2 (Z.eqb_neq (Z.abs _) 0)) by lia.
    assert (Sem.wrap n b = Sem.wrap n (Sem.signed n b)) as Wb
      by (unfold Sem.wrap; rewrite signed_mod by (lia || done); by apply Z.mod_small).
    assert (forall z, Sem.add n z b = Sem.wrap n (z + Sem.signed n b)) as Hadd.
    { intros z. unfold Sem.add, Sem.wrap in *. rewrite <- Zplus_mod_idemp_r, Wb. by rewrite Zplus_mod_idemp_r. }
    rewrite !Hadd. clear Hadd Wb H0 Hb0. set (A := Sem.signed n a) in *. set (B := Sem.signed n b) in *. clearbody A B.
    pose proof (Z.mod_pos_bound (Z.abs A) (Z.abs B) ltac:(lia)) as Hu. pose proof (Z.div_mod (Z.abs A) (Z.abs B) ltac:(lia)) as Hd.
    set (u := Z.abs A mod Z.abs B) in *. set (q := Z.abs A / Z.abs B) in *. clearbody u q. unfold rng in *.
    assert (forall z t, A = B * z + t -> (0 <= t < B \/ B < t <= 0) -> A mod B = t) as Hmod.
    { intros z t E Ht. symmetry. apply Z.mod_unique with z; [lia | done]. }
    destruct (Z.eqb_spec u 0) as [->|Hu0].
    { rewrite (Hmod (if (A <? 0) then if B <? 0 then q else - q else if B <? 0 then - q else q) 0);
        [unfold Sem.wrap; by rewrite Z.mod_0_l by lia | destruct (Z.ltb_spec A 0), (Z.ltb_spec B 0); nia | lia]. }
    unfold Sem.neg.
    destruct (Z.ltb_spec A 0), (Z.ltb_spec B 0); cbn [negb andb].
    + by rewrite (Hmod q (- u)) by nia.
    + rewrite (Hmod (- q - 1) (- u + B)) by nia. unfold Sem.wrap. by rewrite Zplus_mod_idemp_l.
    + by rewrite (Hmod (- q - 1) (u + B)) by nia.
    + rewrite (Hmod q u) by nia. symmetry. apply wrap_small. unfold rng. lia.
Qed.

Lemma SmodEliminate_sound : Sound SmodEliminate.
Proof.
  binary_rule BITVECTOR_SMOD SmodEliminate. built. rewrite <- smod_by_magnitude by (lia || done). cbv zeta.
  pose proof (e_binary e BITVECTOR_UREM (urem_e e) _ _ n _ _ ltac:(done) ltac:(done) (e_magnitude_pos c0 n a H0) (e_magnitude_pos c1 n b H1)) as Hu.
  apply e_ite; [eapply e_equal; [done |]; apply e_mk_small; [done | unfold rng in *; lia] | done |].
  apply e_ite; [apply e_and; by apply e_pos_sign | done |].
  apply e_ite; [apply e_and; [by apply e_neg_sign | by apply e_pos_sign] | by apply e_plus; [apply e_neg |] |].
  apply e_ite; [apply e_and; [by apply e_pos_sign | by apply e_neg_sign] | by apply e_plus | by apply e_neg].
Qed.
End sound.
