(* ===== verification/BVEvalCorrect.v ===== *)
(** * The constant-evaluation rules preserve meaning

    The rules of [theory_bv_rewrite_rules_constant_evaluation.h] apply to terms
    whose children are all constants and compute with [BitVector]; [BVRulesCorrect]
    gives [Sound] and the lemmas on the terms rules build. *)

From S2P Require Import Prelude Integer BitVector Node BitblastUtils BitblastStrategies BitblastCorrect BVRules BVRulesCorrect.
Local Open Scope Z_scope.

Section sound.
Context {G : Gmp} {HG : GmpSpec G}.
Variable e : env.
Abbreviation Sound := (BVRulesCorrect.Sound e).

(** ** Constant children *)
Lemma const_value c n a : isConst c = true -> eval e c = Some (bv n a) -> c = ConstBV (MkBitVector n a).
Proof. destruct c as [| |v|]; try done. cbn. case_decide; [| done]. intros _ H1. unfold bv in H1. congruence. Qed.

Lemma forallb_Forall (p : Node -> bool) l : forallb p l = true -> Forall (fun c => p c = true) l.
Proof. induction l; cbn; [by constructor |]. intros [? ?]%andb_true_iff. constructor; auto. Qed.
Lemma ground_kind k n : (isKind k n && isBVGroundTerm n) = true -> getKind n = k.
Proof. intros [H _]%andb_true_iff. by apply isKind_kind. Qed.
Lemma ground_children k ch p : (p && isBVGroundTerm (MkNode k ch)) = true -> ch <> [] -> Forall (fun c => isConst c = true) ch.
Proof. intros [_ H]%andb_true_iff Hc. destruct ch; [done |]. by apply forallb_Forall. Qed.

Lemma const_eval n a : 1 <= n < 2 ^ 32 -> rng n a -> eval e (ConstBV (MkBitVector n a)) = Some (bv n a).
Proof. intros. apply e_const. split; [split; cbn; lia || done | cbn; lia]. Qed.

(** The rules that apply one operation to the constants. *)
Lemma sound_eval_unary k f rule op :
  (forall vs, eval_kind e k vs = bv_unary f vs) -> k <> VARIABLE -> k <> CONST_BOOLEAN -> k <> CONST_BITVECTOR ->
  applies rule = ground k -> apply rule = (fun node => a ← constChild node 0; res ← op a; Ok (ConstBV res)) ->
  (forall n a, 1 <= n < 2 ^ 32 -> rng n a -> op (MkBitVector n a) = Ok (MkBitVector n (f n a)) /\ rng n (f n a)) -> Sound rule.
Proof.
  intros Hk K1 K2 K3 Ha Hr Hop. apply (sound_unary e k f rule (fun n => isKind k n && isBVGroundTerm n)); [done | by rewrite Ha | apply ground_kind | done .. |].
  intros c0 n a Hp H0 Hn Hra. rewrite Hr. apply ground_children in Hp; [| done]. inversion_clear Hp as [|? ? Hc _].
  rewrite (const_value c0 n a Hc H0). destruct (Hop n a Hn Hra) as [E Hv]. unfold constChild, child. cbn [children lookup list_lookup].
  rewrite !M_bind_Ok. cbn [getConstBV]. rewrite M_bind_Ok, E, M_bind_Ok. eexists; split; [reflexivity |]. by apply const_eval.
Qed.

Lemma constChild_01 k n a b : let m := MkNode k [ConstBV (MkBitVector n a); ConstBV (MkBitVector n b)] in
  constChild m 0 = Ok (MkBitVector n a) /\ constChild m 1 = Ok (MkBitVector n b).
Proof. done. Qed.
Lemma ground2 k p c0 c1 n a b : (p && isBVGroundTerm (MkNode k [c0; c1])) = true ->
  eval e c0 = Some (bv n a) -> eval e c1 = Some (bv n b) -> c0 = ConstBV (MkBitVector n a) /\ c1 = ConstBV (MkBitVector n b).
Proof.
  intros Hp H0 H1. apply ground_children in Hp; [| done]. inversion_clear Hp as [|? ? Hc Hp']. inversion_clear Hp' as [|? ? Hd _].
  split; by apply const_value.
Qed.

Lemma sound_eval_binary k f rule op :
  (forall vs, eval_kind e k vs = bv_binary f vs) -> k <> VARIABLE -> k <> CONST_BOOLEAN -> k <> CONST_BITVECTOR ->
  applies rule = ground k -> apply rule = (fun node => a ← constChild node 0; b ← constChild node 1; res ← op a b; Ok (ConstBV res)) ->
  (forall n a b, 1 <= n < 2 ^ 32 -> rng n a -> rng n b ->
     op (MkBitVector n a) (MkBitVector n b) = Ok (MkBitVector n (f n a b)) /\ rng n (f n a b)) -> Sound rule.
Proof.
  intros Hk K1 K2 K3 Ha Hr Hop. apply (sound_binary e k f rule (fun n => isKind k n && isBVGroundTerm n)); [done | by rewrite Ha | apply ground_kind | done .. |].
  intros c0 c1 n a b Hp H0 H1 Hn Hra Hrb. rewrite Hr. destruct (ground2 k _ c0 c1 n a b Hp H0 H1) as [-> ->].
  destruct (constChild_01 k n a b) as [-> ->]. destruct (Hop n a b Hn Hra Hrb) as [E Hv].
  rewrite !M_bind_Ok, E, M_bind_Ok. eexists; split; [reflexivity |]. by apply const_eval.
Qed.

Lemma sound_eval_pred k f rule op :
  (forall vs, eval_kind e k vs = bv_pred f vs) -> k <> VARIABLE -> k <> CONST_BOOLEAN -> k <> CONST_BITVECTOR ->
  applies rule = ground k -> apply rule = (fun node => a ← constChild node 0; b ← constChild node 1; r ← op a b; Ok (mkBool r)) ->
  (forall n a b, 1 <= n < 2 ^ 32 -> rng n a -> rng n b -> op (MkBitVector n a) (MkBitVector n b) = Ok (f n a b)) -> Sound rule.
Proof.
  intros Hk K1 K2 K3 Ha Hr Hop. apply (sound_pred e k f rule (fun n => isKind k n && isBVGroundTerm n)); [done | by rewrite Ha | apply ground_kind | done .. |].
  intros c0 c1 n a b Hp H0 H1 Hn Hra Hrb. rewrite Hr. destruct (ground2 k _ c0 c1 n a b Hp H0 H1) as [-> ->].
  destruct (constChild_01 k n a b) as [-> ->]. rewrite !M_bind_Ok, Hop, M_bind_Ok by done.
  eexists; split; [reflexivity |]. by destruct (f n a b).
Qed.

Lemma mkBit_eval b : eval e (mkBit b) = Some (bv 1 (Z.b2z b)).
Proof. destruct b; [apply e_bit1 | apply e_bit0]. Qed.

Lemma sound_eval_bvpred k f rule op :
  (forall vs, eval_kind e k vs = bv_bvpred f vs) -> k <> VARIABLE -> k <> CONST_BOOLEAN -> k <> CONST_BITVECTOR ->
  applies rule = ground k -> apply rule = (fun node => a ← constChild node 0; b ← constChild node 1; r ← op a b; Ok (mkBit r)) ->
  (forall n a b, 1 <= n < 2 ^ 32 -> rng n a -> rng n b -> op (MkBitVector n a) (MkBitVector n b) = Ok (f n a b)) -> Sound rule.
Proof.
  intros Hk K1 K2 K3 Ha Hr Hop. apply (sound_bvpred e k f rule (fun n => isKind k n && isBVGroundTerm n)); [done | by rewrite Ha | apply ground_kind | done .. |].
  intros c0 c1 n a b Hp H0 H1 Hn Hra Hrb. rewrite Hr. destruct (ground2 k _ c0 c1 n a b Hp H0 H1) as [-> ->].
  destruct (constChild_01 k n a b) as [-> ->]. rewrite !M_bind_Ok, Hop, M_bind_Ok by done.
  eexists; split; [reflexivity |]. apply mkBit_eval.
Qed.

Tactic Notation "discharge" := [> intros; reflexivity | done | done | done | reflexivity | reflexivity |].
Ltac fixed_width K := first
  [eapply (sound_eval_unary K); discharge | eapply (sound_eval_binary K); discharge
  | eapply (sound_eval_pred K); discharge | eapply (sound_eval_bvpred K); discharge].
Ltac ranges := unfold rng in *; intuition lia.

Lemma EvalNeg_sound : Sound EvalNeg.
Proof. fixed_width BITVECTOR_NEG. intros n a Hn Ha. rewrite neg_ok by ranges. split; [done | apply wrap_bound; lia]. Qed.
Lemma EvalShl_sound : Sound EvalShl.
Proof. fixed_width BITVECTOR_SHL. intros n a b Hn Ha Hb. rewrite shl_ok by ranges. split; [done | apply rng_shl; ranges]. Qed.
Lemma EvalLshr_sound : Sound EvalLshr.
Proof. fixed_width BITVECTOR_LSHR. intros n a b Hn Ha Hb. rewrite lshr_ok by ranges. split; [done | apply rng_lshr; ranges]. Qed.
Lemma EvalAshr_sound : Sound EvalAshr.
Proof. fixed_width BITVECTOR_ASHR. intros n a b Hn Ha Hb. rewrite ashr_ok by ranges. split; [done | apply rng_ashr; ranges]. Qed.

Lemma EvalNot_sound : Sound EvalNot.
Proof.
  eapply (sound_eval_unary BITVECTOR_NOT _ _ (fun a => Ok (BV.not a))); [intros; reflexivity | done | done | done | done | done |].
  intros n a Hn Ha. rewrite not_ok by ranges. split; [done | by apply bnot_bound].
Qed.

Lemma cmp_rules n a b : 1 <= n < 2 ^ 32 -> rng n a -> rng n b ->
  BV.unsignedLessThan (MkBitVector n a) (MkBitVector n b) = Ok (Sem.ult a b) /\
  BV.unsignedLessThanEq (MkBitVector n a) (MkBitVector n b) = Ok (Sem.ule a b) /\
  BV.signedLessThan (MkBitVector n a) (MkBitVector n b) = Ok (Sem.slt n a b) /\
  BV.signedLessThanEq (MkBitVector n a) (MkBitVector n b) = Ok (Sem.sle n a b).
Proof.
  intros Hn Ha Hb. unfold BV.unsignedLessThan, BV.unsignedLessThanEq, BV.signedLessThan, BV.signedLessThanEq.
  rewrite cmp_ok, !toSignedInt_ok by ranges. done.
Qed.
Lemma EvalUlt_sound : Sound EvalUlt.
Proof. fixed_width BITVECTOR_ULT. intros. by apply cmp_rules. Qed.
Lemma EvalUltBv_sound : Sound EvalUltBv.
Proof. fixed_width BITVECTOR_ULTBV. intros. by apply cmp_rules. Qed.
Lemma EvalSlt_sound : Sound EvalSlt.
Proof. fixed_width BITVECTOR_SLT. intros. by apply cmp_rules. Qed.
Lemma EvalSltBv_sound : Sound EvalSltBv.
Proof. fixed_width BITVECTOR_SLTBV. intros. by apply cmp_rules. Qed.
Lemma EvalUle_sound : Sound EvalUle.
Proof. fixed_width BITVECTOR_ULE. intros. by apply cmp_rules. Qed.
Lemma EvalSle_sound : Sound EvalSle.
Proof. fixed_width BITVECTOR_SLE. intros. by apply cmp_rules. Qed.

Lemma eqb_same n a b : BV.eqb (MkBitVector n a) (MkBitVector n b) = (a =? b).
Proof. unfold BV.eqb. cbn. by rewrite Z.eqb_refl. Qed.
Lemma EvalComp_sound : Sound EvalComp.
Proof.
  eapply (sound_eval_bvpred BITVECTOR_COMP _ _ (fun a b => Ok (BV.eqb a b))); [intros; reflexivity | done | done | done | done | done |].
  intros. by rewrite eqb_same.
Qed.

(** ** Folds over constants *)
Lemma consts_of n cs l : Forall (fun c => isConst c = true) cs -> Forall2 (fun c z => eval e c = Some (bv n z)) cs l ->
  cs = map (fun z => ConstBV (MkBitVector n z)) l.
Proof.
  intros H1 H2. induction H2 as [|c z cs l Hc _ IH]; [done |]. inversion_clear H1. cbn. rewrite IH by done.
  f_equal. by apply const_value.
Qed.
Lemma fold_consts_ok f op n k a l : 1 <= n < 2 ^ 32 -> rng n a -> Forall (rng n) l ->
  (forall x y, rng n x -> rng n y -> op (MkBitVector n x) (MkBitVector n y) = Ok (MkBitVector n (f x y)) /\ rng n (f x y)) ->
  fold_consts op (MkNode k (map (fun z => ConstBV (MkBitVector n z)) (a :: l))) = Ok (MkBitVector n (foldl f a l)) /\
  rng n (foldl f a l).
Proof.
  intros Hn Ha Hl Hop. unfold fold_consts. cbn [children map getConstBV]. rewrite M_bind_Ok. revert a Ha.
  induction Hl as [|b l Hb _ IH]; intros a Ha; [done |]. cbn [map foldl getConstBV]. rewrite !M_bind_Ok.
  destruct (Hop a b Ha Hb) as [-> Hr]. by apply IH.
Qed.
Lemma sound_eval_nary k f rule op :
  (forall vs, eval_kind e k vs = bv_nary f vs) -> k <> VARIABLE -> k <> CONST_BOOLEAN -> k <> CONST_BITVECTOR ->
  applies rule = ground k -> apply rule = (fun node => res ← fold_consts op node; Ok (ConstBV res)) ->
  (forall n a b, 1 <= n < 2 ^ 32 -> rng n a -> rng n b ->
     op (MkBitVector n a) (MkBitVector n b) = Ok (MkBitVector n (f n a b)) /\ rng n (f n a b)) -> Sound rule.
Proof.
  intros Hk K1 K2 K3 Ha Hr Hop. apply (sound_kind e k rule (fun n => isKind k n && isBVGroundTerm n)); [by rewrite Ha | apply ground_kind | done .. |].
  intros ch v Hp Hv. destruct (eval_nary_inv e k f ch v Hk Hv) as (n & a & l & c0 & cs & -> & -> & H0 & Hl & Hn & Hra & Hrl).
  apply ground_children in Hp; [| done]. rewrite Hr, (consts_of n (c0 :: cs) (a :: l)) by (done || by constructor).
  destruct (fold_consts_ok (f n) op n k a l Hn Hra Hrl ltac:(intros; by apply Hop)) as [-> Hres].
  rewrite M_bind_Ok. eexists; split; [reflexivity |]. by apply const_eval.
Qed.
Lemma EvalMult_sound : Sound EvalMult.
Proof.
  eapply (sound_eval_nary BITVECTOR_MULT); [intros; reflexivity | done | done | done | done | done |].
  intros n a b Hn Ha Hb. rewrite mult_ok by ranges. split; [done | apply wrap_bound; lia].
Qed.
Lemma EvalPlus_sound : Sound EvalPlus.
Proof.
  eapply (sound_eval_nary BITVECTOR_PLUS); [intros; reflexivity | done | done | done | done | done |].
  intros n a b Hn Ha Hb. rewrite add_ok by ranges. split; [done | apply wrap_bound; lia].
Qed.

(** ** Concatenation: the code folds from the left, the semantics from the right *)
Lemma concat_vals_assoc n a m b bs : 0 <= n -> 0 <= m -> Forall wf1 bs ->
  concat_vals (MkBitVector (n + m) (Sem.concat a m b) :: bs) = concat_vals (MkBitVector n a :: MkBitVector m b :: bs).
Proof.
  intros Hn Hm Hbs. cbn. destruct (concat_vals bs) as [k z] eqn:E. destruct (concat_vals_rng bs k z Hbs E) as [Hk _].
  f_equal; [lia |]. unfold Sem.concat. rewrite Z.pow_add_r by lia. lia.
Qed.
Lemma concat_fold v vs : wf1 v -> Forall wf1 vs -> (concat_vals (v :: vs)).1 < 2 ^ 32 ->
  foldl BV.concat v vs = MkBitVector (concat_vals (v :: vs)).1 (concat_vals (v :: vs)).2.
Proof.
  intros Hv Hvs. revert v Hv. induction Hvs as [|w vs Hw Hvs IH]; intros [n a] Hv Hlt.
  - cbn. unfold Sem.concat. f_equal; lia.
  - destruct w as [m b], Hv as [[Hn Ha] Hn1], Hw as [[Hm Hb] Hm1]. cbn [d_size d_value] in *.
    rewrite <- concat_vals_assoc in * by (done || lia).
    assert (n + m < 2 ^ 32).
    { cbn in Hlt. destruct (concat_vals vs) as [k z] eqn:E. destruct (concat_vals_rng vs k z Hvs E). cbn in Hlt. lia. }
    cbn [foldl]. rewrite concat_ok by lia. apply IH; [| done].
    split; [split |]; cbn [d_size d_value]; [lia | apply concat_bound; lia | lia].
Qed.

Lemma eval_concat_inv ch v : eval e (MkNode BITVECTOR_CONCAT ch) = Some v ->
  exists bs, Forall2 (fun c b => eval e c = Some (VBV b)) ch bs /\ (2 <= length ch)%nat /\ Forall wf1 bs /\
    1 <= (concat_vals bs).1 < 2 ^ 32 /\ v = bv (concat_vals bs).1 (concat_vals bs).2.
Proof.
  intros (Ha & vs & Hvs & Hk)%eval_MkNode. cbn in Hk. apply bind_Some in Hk as (bs & Hbs%as_bvlist_Some & Hf). subst vs.
  apply Forall2_fmap_r in Hvs. exists bs. split; [done |]. split.
  { unfold arity_ok in Ha. cbn [arity] in Ha. by apply andb_true_iff in Ha as [?%Nat.leb_le _]. }
  split; [by eapply bvs_wf |]. destruct (concat_vals bs) as [m z]. by apply fit_Some in Hf as [? ->].
Qed.
Lemma consts_of_bvs ch bs : Forall (fun c => isConst c = true) ch -> Forall2 (fun c b => eval e c = Some (VBV b)) ch bs -> ch = map ConstBV bs.
Proof.
  intros H1 H2. induction H2 as [|c [n a] cs l Hc _ IH]; [done |]. inversion_clear H1. cbn. rewrite IH by done.
  f_equal. by apply const_value.
Qed.
Lemma fold_concat_consts v vs :
  foldl (fun acc c => res ← acc; w ← getConstBV c; Ok (BV.concat res w)) (Ok v) (map ConstBV vs) = Ok (foldl BV.concat v vs).
Proof. revert v. induction vs as [|w vs IH]; intros v; [done |]. cbn [map foldl getConstBV]. rewrite !M_bind_Ok. apply IH. Qed.

Lemma EvalConcat_sound : Sound EvalConcat.
Proof.
  apply (sound_kind e BITVECTOR_CONCAT _ (fun n => isKind BITVECTOR_CONCAT n && isBVGroundTerm n)); [done | apply ground_kind | done .. |].
  intros ch v Hp Hv. destruct (eval_concat_inv ch v Hv) as (bs & Hbs & Hl & Hwf & Hw & ->).
  destruct bs as [|b bs]; [inversion Hbs; subst; cbn in Hl; lia |].
  apply ground_children in Hp; [| by intros ->; inversion Hbs]. rewrite (consts_of_bvs ch (b :: bs) Hp Hbs).
  inversion Hwf as [|? ? Hb Hbs']; subst. unfold EvalConcat, fold_consts. cbn [apply children map getConstBV]. rewrite !M_bind_Ok.
  rewrite fold_concat_consts, M_bind_Ok, concat_fold by (done || lia). eexists; split; [reflexivity |].
  apply const_eval; [done |]. destruct (concat_vals (b :: bs)) as [m z] eqn:E. by apply (concat_vals_rng (b :: bs)).
Qed.

(** ** The others *)
Lemma sound_eval_indexed {I} (K : I -> Kind) rule p :
  (forall n, applies rule n = Ok (p n && isBVGroundTerm n)) -> (forall n, p n = true -> exists i ch, n = MkNode (K i) ch) ->
  (forall i, arity (K i) = (1%nat, Some 1%nat)) -> (forall i b, eval_kind e (K i) [VBool b] = None) ->
  (forall i n a v, 1 <= n < 2 ^ 32 -> rng n a -> eval_kind e (K i) [bv n a] = Some v ->
     exists r, apply rule (MkNode (K i) [ConstBV (MkBitVector n a)]) = Ok r /\ eval e r = Some v) -> Sound rule.
Proof.
  intros Ha Hp Hk Hb Hr. apply (sound_indexed e K rule (fun n => p n && isBVGroundTerm n)); [done | | done |].
  { intros n [Hn _]%andb_true_iff. by apply Hp. }
  intros i c w v Hpc Hc Hv. destruct w as [b|[n a]]; [by rewrite Hb in Hv |]. apply ground_children in Hpc; [| done].
  inversion_clear Hpc as [|? ? Hc' _]. rewrite (const_value c n a Hc' Hc). apply eval_bv_range in Hc as [Hn Hra]. by apply Hr.
Qed.
Ltac find_kind := intros [| | |k ch] Hk; try discriminate Hk; destruct k; try discriminate Hk; by eexists _, _.

Lemma EvalExtract_sound : Sound EvalExtract.
Proof.
  apply (sound_eval_indexed (fun hl : Z * Z => BITVECTOR_EXTRACT hl.1 hl.2) _ isExtract); [done | | done | done |].
  { intros [| | |k ch] Hk; try discriminate Hk. destruct k; try discriminate Hk. by exists (high, low), ch. }
  intros [h l] n a v Hn Ha Hv. cbn in Hv. case_decide as Hhl; [| done]. injection Hv as <-. eexists; split; [reflexivity |].
  cbn [fst snd]. rewrite (extract_ok n) by (lia || done). apply const_eval; [lia | apply rng_extract; lia].
Qed.
Lemma EvalSignExtend_sound : Sound EvalSignExtend.
Proof.
  eapply (sound_eval_indexed BITVECTOR_SIGN_EXTEND); [done | find_kind | done | done |].
  intros i n a v Hn Ha Hv. cbn in Hv. case_decide as Hi; [| done]. apply fit_Some in Hv as [Hm ->].
  unfold EvalSignExtend. cbn [apply getKind]. unfold constChild. rewrite child0, M_bind_Ok. cbn [getConstBV]. rewrite M_bind_Ok.
  rewrite signExtend_ok, M_bind_Ok by (lia || done). eexists; split; [reflexivity |]. apply const_eval; [done | apply wrap_bound; lia].
Qed.

Lemma EvalITEBv_sound : Sound EvalITEBv.
Proof.
  apply (sound_kind e BITVECTOR_ITE _ (fun n => isKind BITVECTOR_ITE n && isBVGroundTerm n)); [done | apply ground_kind | done .. |].
  intros ch v Hp Hv. apply eval_MkNode in Hv as (Har & vs & Hvs & Hk). cbn in Hk.
  destruct vs as [|[|[n a]] [|w1 [|w2 [|]]]]; try discriminate Hk.
  destruct ((_ =? 1) && same_type w1 w2) eqn:Hs; [| done]. apply andb_true_iff in Hs as [Hn%Z.eqb_eq _]. cbn in Hn. subst n.
  inversion Hvs as [|c0 ? ch' ? H0 Hvs']; subst. inversion Hvs' as [|c1 ? ch2 ? H1 Hvs2]; subst.
  inversion Hvs2 as [|c2 ? ch3 ? H2 Hvs3]; subst. inversion Hvs3; subst. injection Hk as <-.
  apply ground_children in Hp; [| done]. inversion_clear Hp as [|? ? Hc _]. rewrite (const_value c0 1 a Hc H0).
  destruct (eval_bv_range e 1 a c0 H0) as [_ Ha]. assert (a = 0 \/ a = 1) as Ha' by (unfold rng in Ha; lia).
  assert (forall z, 0 <= z < 2 ^ 1 -> mkConst 1 z = ConstBV (MkBitVector 1 z)) as Hc1 by (intros; unfold mkConst; by rewrite mk_small by lia).
  unfold EvalITEBv. cbn [apply]. unfold constChild. rewrite !child0, M_bind_Ok. cbn [getConstBV]. rewrite !M_bind_Ok, !Hc1 by lia.
  destruct Ha' as [-> | ->]; cbn; eauto.
Qed.

(** Division by constants. *)
Lemma EvalUdiv_const k n a b : 1 <= n < 2 ^ 32 -> rng n a -> rng n b ->
  exists r, apply EvalUdiv (MkNode k [ConstBV (MkBitVector n a); ConstBV (MkBitVector n b)]) = Ok r /\
    eval e r = Some (bv n (Sem.udiv n a b)).
Proof.
  intros Hn Ha Hb. unfold EvalUdiv. cbn [apply]. destruct (constChild_01 k n a b) as [-> ->]. rewrite !M_bind_Ok.
  rewrite udiv_ok, M_bind_Ok by ranges. eexists; split; [reflexivity |]. apply const_eval; [done | apply rng_udiv; ranges].
Qed.
Lemma EvalUrem_const k n a b : 1 <= n < 2 ^ 32 -> rng n a -> rng n b ->
  exists r, apply EvalUrem (MkNode k [ConstBV (MkBitVector n a); ConstBV (MkBitVector n b)]) = Ok r /\
    eval e r = Some (bv n (Sem.urem n a b)).
Proof.
  intros Hn Ha Hb. unfold EvalUrem. cbn [apply]. destruct (constChild_01 k n a b) as [-> ->]. rewrite !M_bind_Ok.
  rewrite urem_ok, M_bind_Ok by ranges. eexists; split; [reflexivity |]. apply const_eval; [done | apply rng_mod; ranges].
Qed.

(** The rule is sound on a division whose partial value agrees with the total one. *)
Lemma eval_div_sound rule KT KP fT fP n v :
  applies rule = (fun node =>
    if isBVGroundTerm node then
      if isKind KT node then Ok true
      else if isKind KP node then n1 ← child node 1; Ok (isConst n1) else Ok false
    else Ok false) ->
  (forall k n a b, 1 <= n < 2 ^ 32 -> rng n a -> rng n b ->
     exists r, apply rule (MkNode k [ConstBV (MkBitVector n a); ConstBV (MkBitVector n b)]) = Ok r /\ eval e r = Some (bv n (fT n a b))) ->
  (forall vs, eval_kind e KT vs = bv_binary fT vs) -> (forall vs, eval_kind e KP vs = bv_binary fP vs) ->
  KT <> VARIABLE -> KT <> CONST_BOOLEAN -> KT <> CONST_BITVECTOR -> KP <> VARIABLE -> KP <> CONST_BOOLEAN -> KP <> CONST_BITVECTOR ->
  eval e n = Some v ->
  (forall c0 c1 w a b, n = MkNode KP [c0; c1] -> eval e c0 = Some (bv w a) -> eval e c1 = Some (bv w b) -> fP w a b = fT w a b) ->
  sound_at e rule n v.
Proof.
  unfold sound_at. intros Ha Hr HT HP K1 K2 K3 K4 K5 K6 Hv Heq. rewrite Ha. destruct (isBVGroundTerm n) eqn:Hg; [| by exists false].
  assert (forall k f, (k = KT \/ k = KP) -> (forall vs, eval_kind e k vs = bv_binary f vs) -> getKind n = k ->
    (forall c0 c1 w a b, n = MkNode k [c0; c1] -> eval e c0 = Some (bv w a) -> eval e c1 = Some (bv w b) -> f w a b = fT w a b) ->
    (exists c0 c1, n = MkNode k [c0; c1] /\ isConst c1 = true) /\ exists r, apply rule n = Ok r /\ eval e r = Some v) as Hdiv.
  { intros k f Hk Hf Hn Hfe. destruct n as [| | |k' ch]; cbn in Hn; try (intuition congruence). subst k'.
    destruct (eval_binary_inv e k f ch v Hf Hv) as (w & a & b & c0 & c1 & -> & -> & H0 & H1 & Hw & Hra & Hrb).
    apply (ground_children k _ true) in Hg as Hc; [| done]. inversion_clear Hc as [|? ? C0 Hc']. inversion_clear Hc' as [|? ? C1 _].
    split; [by exists c0, c1 |]. rewrite (Hfe c0 c1 w a b) by done. rewrite (const_value c0 w a), (const_value c1 w b) by done. by apply Hr. }
  destruct (isKind KT n) eqn:E1.
  { exists true. split; [done |]. intros _. destruct (Hdiv KT fT ltac:(by left) HT (isKind_kind _ _ E1) ltac:(done)) as [_ ?]. done. }
  destruct (isKind KP n) eqn:E2; [| by exists false].
  destruct (Hdiv KP fP ltac:(by right) HP (isKind_kind _ _ E2) Heq) as [(c0 & c1 & -> & C1) Hres].
  exists true. rewrite child1, M_bind_Ok, C1. done.
Qed.
Lemma EvalUdiv_sound : env_total e -> Sound EvalUdiv.
Proof.
  intros He. apply Sound_iff. intros n v Hv.
  eapply (eval_div_sound EvalUdiv BITVECTOR_UDIV_TOTAL BITVECTOR_UDIV); try done; [apply EvalUdiv_const |].
  intros c0 c1 w a b _ H0 _. apply eval_bv_range in H0 as [_ Ha]. by rewrite (udiv_total e).
Qed.
Lemma EvalUrem_sound : env_total e -> Sound EvalUrem.
Proof.
  intros He. apply Sound_iff. intros n v Hv.
  eapply (eval_div_sound EvalUrem BITVECTOR_UREM_TOTAL BITVECTOR_UREM); try done; [apply EvalUrem_const |].
  intros c0 c1 w a b _ H0 _. apply eval_bv_range in H0 as [_ Ha]. by rewrite (urem_total e).
Qed.

(** [EvalEquals] reads its children as bit-vectors. *)
Lemma EvalEquals_at c0 c1 n a b : eval e c0 = Some (bv n a) -> eval e c1 = Some (bv n b) ->
  sound_at e EvalEquals (MkNode EQUAL [c0; c1]) (VBool (a =? b)).
Proof.
  intros H0 H1. exists (isKind EQUAL (MkNode EQUAL [c0; c1]) && isBVGroundTerm (MkNode EQUAL [c0; c1])). split; [done |].
  intros Hg. destruct (ground2 EQUAL _ c0 c1 n a b Hg H0 H1) as [-> ->]. unfold EvalEquals. cbn [apply].
  destruct (constChild_01 EQUAL n a b) as [-> ->]. rewrite !M_bind_Ok, eqb_same. eexists; split; [reflexivity |]. by destruct (a =? b).
Qed.
End sound.
