(* ===== verification/BVCoreCorrect.v ===== *)
(** * The core rules preserve meaning

    The rules of [theory_bv_rewrite_rules_core.h] on concatenations, slices and
    equalities.  A list of terms concatenates to a value ([catv]); the loops of the
    rules keep that value. *)

From S2P Require Import Prelude Integer BitVector Node BitblastUtils BitblastStrategies BitblastCorrect BVRules BVRulesCorrect BVEvalCorrect.
Local Open Scope Z_scope.

Section sound.
Context {G : Gmp} {HG : GmpSpec G}.
Variable e : env.
Abbreviation Sound := (BVRulesCorrect.Sound e).

(** ** Concatenations *)
Lemma concat_vals_app l k : Forall wf1 l -> Forall wf1 k ->
  concat_vals (l ++ k) =
    ((concat_vals l).1 + (concat_vals k).1, Sem.concat (concat_vals l).2 (concat_vals k).1 (concat_vals k).2).
Proof.
  intros Hl Hk. destruct (concat_vals k) as [m z] eqn:Ek. destruct (concat_vals_rng k m z Hk Ek) as [Hm Hz]. cbn [fst snd].
  induction Hl as [|b l Hb Hl IH]; [rewrite app_nil_l, Ek; unfold Sem.concat; cbn; f_equal; lia |].
  cbn [app concat_vals]. rewrite IH. destruct (concat_vals l) as [m' z'] eqn:El. destruct (concat_vals_rng l m' z' Hl El) as [Hm' _].
  cbn [fst snd]. f_equal; [lia |]. unfold Sem.concat. rewrite Z.pow_add_r by lia. lia.
Qed.

(** The terms of [ch] concatenate to the [n]-bit value [z]. *)
Definition catv (ch : list Node) (n z : Z) : Prop :=
  exists bs, Forall2 (fun c b => eval e c = Some (VBV b)) ch bs /\ concat_vals bs = (n, z).

Lemma catv_nil n z : catv [] n z <-> n = 0 /\ z = 0.
Proof.
  split; [intros (bs & H & E); inversion H; subst; cbn in E; by injection E as <- <- |].
  intros [-> ->]. exists []. split; [constructor | done].
Qed.
Lemma catv_one c n z : eval e c = Some (bv n z) <-> catv [c] n z.
Proof.
  split.
  - intros H. exists [MkBitVector n z]. split; [by repeat constructor |]. cbn. unfold Sem.concat. f_equal; lia.
  - intros (bs & H & E). inversion H as [|? [m y] ? ? Hc Ht]; subst. inversion Ht; subst. cbn in E. injection E as <- <-.
    rewrite Hc. unfold bv, Sem.concat. do 2 f_equal. f_equal; lia.
Qed.
Lemma catv_rng ch n z : catv ch n z -> 0 <= n /\ rng n z.
Proof. intros (bs & H & E). eapply concat_vals_rng; [by eapply bvs_wf | done]. Qed.
Lemma catv_app l k n z : catv (l ++ k) n z <->
  exists n1 z1 n2 z2, catv l n1 z1 /\ catv k n2 z2 /\ n = n1 + n2 /\ z = Sem.concat z1 n2 z2.
Proof.
  split.
  - intros (bs & H & E). apply Forall2_app_inv_l in H as (b1 & b2 & H1 & H2 & ->).
    rewrite concat_vals_app in E by (by eapply bvs_wf). injection E as <- <-.
    do 4 eexists. split; [eexists; split; [exact H1 | apply surjective_pairing] |].
    split; [eexists; split; [exact H2 | apply surjective_pairing] |]. done.
  - intros (n1 & z1 & n2 & z2 & (b1 & H1 & E1) & (b2 & H2 & E2) & -> & ->). exists (b1 ++ b2). split; [by apply Forall2_app |].
    rewrite concat_vals_app by (by eapply bvs_wf). by rewrite E1, E2.
Qed.
Lemma catv_app_intro l k n1 z1 n2 z2 : catv l n1 z1 -> catv k n2 z2 -> catv (l ++ k) (n1 + n2) (Sem.concat z1 n2 z2).
Proof. intros. apply catv_app. by exists n1, z1, n2, z2. Qed.
Lemma catv_pos ch n z : catv ch n z -> ch <> [] -> 1 <= n.
Proof.
  intros H Hne. destruct ch as [|c ch]; [done |]. apply (catv_app [c]) in H as (n1 & z1 & n2 & z2 & H1 & H2 & -> & _).
  apply catv_one, eval_bv_range in H1. apply catv_rng in H2. lia.
Qed.

Lemma eval_concat_iff ch v : eval e (MkNode BITVECTOR_CONCAT ch) = Some v <->
  (2 <= length ch)%nat /\ exists n z, catv ch n z /\ 1 <= n < 2 ^ 32 /\ v = bv n z.
Proof.
  split.
  - intros H. destruct (eval_concat_inv e ch v H) as (bs & Hbs & Hl & _ & Hn & ->). split; [done |].
    eexists _, _. split; [exists bs; split; [done | apply surjective_pairing] | done].
  - intros (Hl & n & z & (bs & Hbs & E) & Hn & ->). rewrite (eval_concat_list e ch bs Hbs Hl); rewrite E; done || (cbn; lia).
Qed.
Lemma mkConcatV_ok ch n z : catv ch n z -> ch <> [] -> n < 2 ^ 32 -> exists r, mkConcatV ch = Ok r /\ eval e r = Some (bv n z).
Proof.
  intros H Hne Hn. pose proof (catv_pos ch n z H Hne). unfold mkConcatV. destruct (Nat.ltb_spec 1 (length ch)) as [Hl|Hl].
  - eexists; split; [done |]. apply eval_concat_iff. split; [lia |]. exists n, z. done.
  - destruct ch as [|c [|]]; cbn in Hl; try lia; [done |]. exists c. split; [done | by apply catv_one].
Qed.

(** The rules on concatenations. *)
Lemma sound_concat rule : (forall n, applies rule n = Ok (isKind BITVECTOR_CONCAT n)) ->
  (forall ch n z, (2 <= length ch)%nat -> catv ch n z -> 1 <= n < 2 ^ 32 ->
     exists r, apply rule (MkNode BITVECTOR_CONCAT ch) = Ok r /\ eval e r = Some (bv n z)) -> Sound rule.
Proof.
  intros Ha Hr. apply (sound_kind e BITVECTOR_CONCAT rule (isKind BITVECTOR_CONCAT)); [done | apply isKind_kind | done .. |].
  intros ch v _ (Hl & n & z & Hc & Hn & ->)%eval_concat_iff. by apply Hr.
Qed.

(** *** [ConcatFlatten]: the stack and the result keep their value, and the fuel,
    the number of nodes left, is enough *)
Definition nodes (l : list Node) : nat := sum_list_with num_nodes l.
Lemma num_nodes_pos n : (1 <= num_nodes n)%nat.
Proof. destruct n; cbn; lia. Qed.
Lemma flatten_loop_ok fuel stack result n z : (nodes stack <= fuel)%nat -> catv (result ++ stack) n z ->
  exists r, flatten_loop fuel stack result = Ok r /\ catv r n z /\ (length result + length stack <= length r)%nat.
Proof.
  revert stack result. induction fuel as [|fuel IH]; intros [|c stack] result Hf Hc; cbn [flatten_loop].
  1, 3: exists result; rewrite app_nil_r in Hc; split; [done | split; [done | cbn; lia]].
  { cbn in Hf. pose proof (num_nodes_pos c). lia. }
  cbn in Hf. pose proof (num_nodes_pos c). destruct (isKind BITVECTOR_CONCAT c) eqn:E.
  - apply isKind_kind in E. destruct c as [| | |k ch]; try discriminate. cbn in E. subst k. cbn [children].
    apply catv_app in Hc as (n1 & z1 & n2 & z2 & H1 & H2 & -> & ->).
    apply (catv_app [_]) in H2 as (m1 & y1 & m2 & y2 & H3%catv_one & H4 & -> & ->).
    apply eval_concat_iff in H3 as (Hl & ? & ? & H3 & _ & [= <- <-]).
    destruct (IH (ch ++ stack) result) as (r & Hr & Hcr & Hlr).
    + unfold nodes in *. rewrite sum_list_with_app. cbn in Hf. lia.
    + apply catv_app_intro; [done |]. by apply catv_app_intro.
    + exists r. split; [done |]. split; [done |]. rewrite length_app in Hlr. cbn [length]. lia.
  - destruct (IH stack (result ++ [c])) as (r & Hr & Hcr & Hlr).
    + unfold nodes in *. lia.
    + by rewrite <- app_assoc.
    + exists r. split; [done |]. split; [done |]. rewrite length_app in Hlr. cbn [length] in *. lia.
Qed.
Lemma ConcatFlatten_sound : Sound ConcatFlatten.
Proof.
  apply sound_concat; [done |]. intros ch n z Hl Hc Hn. unfold ConcatFlatten. cbn [apply].
  change (flatten_loop (num_nodes (MkNode BITVECTOR_CONCAT ch)) [MkNode BITVECTOR_CONCAT ch] [])
    with (flatten_loop (nodes ch) (ch ++ []) []). rewrite app_nil_r.
  destruct (flatten_loop_ok (nodes ch) ch [] n z ltac:(lia) Hc) as (r & -> & Hr & Hlr).
  rewrite M_bind_Ok. eexists; split; [reflexivity |]. apply eval_concat_iff. split; [cbn in Hlr; lia | eauto].
Qed.

(** *** [ConcatExtractMerge] *)
Lemma eval_extract_inv h l ch v : eval e (MkNode (BITVECTOR_EXTRACT h l) ch) = Some v ->
  exists c n a, ch = [c] /\ eval e c = Some (bv n a) /\ 1 <= n < 2 ^ 32 /\ rng n a /\ 0 <= l <= h /\ h < n /\
    v = bv (h - l + 1) (Sem.extract a h l).
Proof.
  intros H. destruct (eval_one_inv e (BITVECTOR_EXTRACT h l) ch v eq_refl H) as (c & w & -> & Hc & Hk). cbn in Hk.
  destruct w as [|[n a]]; [done |]. cbn in Hk. case_decide; [| done]. injection Hk as <-.
  exists c, n, a. pose proof (eval_bv_range e n a c Hc). naive_solver.
Qed.
Lemma isExtract_inv c : isExtract c = true -> exists h l ch, c = MkNode (BITVECTOR_EXTRACT h l) ch.
Proof. destruct c as [| | |k ch]; try done. destruct k; try done. eauto. Qed.

(** Adjacent slices join. *)
Lemma extract_join a h m l : 0 <= l <= m -> m < h ->
  Sem.concat (Sem.extract a h (m + 1)) (m - l + 1) (Sem.extract a m l) = Sem.extract a h l.
Proof.
  intros H1 H2. unfold Sem.concat, Sem.extract. pose proof (pow2_gt0 (m - l + 1) ltac:(lia)). pose proof (pow2_gt0 l ltac:(lia)).
  replace (2 ^ (m + 1)) with (2 ^ l * 2 ^ (m - l + 1)) by (rewrite <- Z.pow_add_r by lia; f_equal; lia).
  rewrite <- Z.div_div by lia. replace (h - l + 1) with ((m - l + 1) + (h - (m + 1) + 1)) by lia.
  rewrite (Z.pow_add_r 2 (m - l + 1)), Z.rem_mul_r by (try lia; apply Z.pow_pos_nonneg; lia). lia.
Qed.

(** The term the state stands for at its end. *)
Definition pending (s : merge_state) (p : Node) : Prop :=
  if ms_started s then
    isExtract (ms_current s) = true /\ exists c, children (ms_current s) = [c] /\ p = mkExtract c (ms_high s) (ms_low s)
  else p = ms_current s.
Lemma merge_push_ok s p : pending s p -> merge_push s = Ok (ms_merged s ++ [p]).
Proof.
  unfold pending, merge_push. destruct (ms_started s); cbn [negb]; [| by intros ->].
  intros (_ & c & Hc & ->). unfold child. by rewrite Hc.
Qed.

Lemma merge_step_ok s p n z next m y : pending s p -> catv (ms_merged s ++ [p]) n z -> eval e next = Some (bv m y) ->
  exists s' p', merge_step s next = Ok s' /\ pending s' p' /\ catv (ms_merged s' ++ [p']) (n + m) (Sem.concat z m y).
Proof.
  intros Hp Hc Hnext. assert (catv (ms_merged s ++ [p] ++ [next]) (n + m) (Sem.concat z m y)) as Hall
    by (rewrite app_assoc; apply catv_app_intro; [done | by apply catv_one]).
  unfold merge_step. destruct (isExtract (ms_current s)) eqn:Ec; cbn [negb].
  2:{ unfold pending in Hp. destruct (ms_started s) eqn:Es; [destruct Hp as [Hp _]; congruence |]. subst p.
      eexists _, next. split; [reflexivity |]. unfold pending. cbn. split; [done |]. by rewrite <- app_assoc. }
  destruct (isExtract_inv _ Ec) as (h & l & ch & Ecur).
  apply catv_app in Hc as (n1 & z1 & n2 & z2 & Hm & H2%catv_one & -> & ->).
  assert (exists high low c, (if negb (ms_started s) then h ← getExtractHigh (ms_current s); l ← getExtractLow (ms_current s); Ok (h, l)
     else Ok (ms_high s, ms_low s)) = Ok (high, low) /\ ch = [c] /\ p = mkExtract c high low) as (high & low & c & -> & -> & ->).
  { unfold pending in Hp. destruct (ms_started s); cbn [negb].
    - destruct Hp as (_ & c & Hch & ->). rewrite Ecur in Hch. cbn in Hch. eauto 10.
    - subst p. rewrite Ecur in *. apply eval_extract_inv in H2 as (c & ? & ? & -> & _). eexists h, l, c. done. }
  rewrite M_bind_Ok. cbn [getExtractHigh]. set (s1 := MkMerge (ms_current s) (ms_started s) high low (ms_merged s)).
  assert (pending s1 (mkExtract c high low)) as Hp1.
  { unfold pending in *. subst s1. cbn. destruct (ms_started s); [| exact Hp].
    rewrite Ecur. cbn. eauto. }
  assert (exists b, (if isExtract next then c0 ← child (ms_current s) 0; n0 ← child next 0; Ok (node_eqb c0 n0) else Ok false) = Ok b /\
    (b = true -> exists h2 l2, next = mkExtract c h2 l2)) as (cand & -> & Hcand).
  { destruct (isExtract next) eqn:En; [| by exists false]. destruct (isExtract_inv _ En) as (h2 & l2 & ch2 & ->).
    apply eval_extract_inv in Hnext as (d & ? & ? & -> & _). rewrite Ecur, !child0, !M_bind_Ok. eexists. split; [done |].
    intros <-%node_eqb_eq. by exists h2, l2. }
  rewrite M_bind_Ok.
  assert (exists b, (if cand then h ← getExtractHigh next; Ok (u32 (h + 1) =? low) else Ok false) = Ok b /\
    (b = true -> exists h2 l2, next = mkExtract c h2 l2 /\ u32 (h2 + 1) = low)) as (mrg & -> & Hmrg).
  { destruct cand; [| by exists false]. destruct (Hcand eq_refl) as (h2 & l2 & ->). eexists. split; [done |].
    intros E%Z.eqb_eq. eauto. }
  rewrite M_bind_Ok. destruct mrg.
  - destruct (Hmrg eq_refl) as (h2 & l2 & -> & Hlow). cbn [getExtractLow getKind mkExtract]. unfold getExtractLow. cbn [getKind]. rewrite M_bind_Ok.
    apply eval_extract_inv in H2 as (? & w & a & [= <-] & Hcv & Hw & Ha & Hlh & Hh & [= -> ->]).
    apply eval_extract_inv in Hnext as (? & w' & a' & [= <-] & Hcv' & _ & _ & Hlh2 & Hh2 & [= -> ->]).
    rewrite Hcv in Hcv'. injection Hcv' as <- <-. rewrite u32_small in Hlow by lia. subst low.
    eexists _, (mkExtract c high l2). split; [reflexivity |]. split.
    + unfold pending. cbn. rewrite Ecur. cbn. eauto.
    + cbn [ms_merged]. replace (Sem.concat _ _ _) with (Sem.concat z1 (high - l2 + 1) (Sem.extract a high l2)).
      * replace (n1 + (high - (h2 + 1) + 1) + (h2 - l2 + 1)) with (n1 + (high - l2 + 1)) by lia. apply catv_app_intro; [done |].
        apply catv_one. erewrite e_extract; [done | done | lia | lia].
      * rewrite <- (extract_join a high h2 l2) by lia. unfold Sem.concat.
        replace (high - l2 + 1) with ((high - (h2 + 1) + 1) + (h2 - l2 + 1)) by lia. rewrite Z.pow_add_r by lia. lia.
  - rewrite (merge_push_ok s1 (mkExtract c high low) Hp1), M_bind_Ok. eexists _, next. split; [reflexivity |].
    unfold pending. cbn. split; [done |]. by rewrite <- app_assoc.
Qed.
Lemma merge_loop_ok l s p n z m y : pending s p -> catv (ms_merged s ++ [p]) n z -> catv l m y ->
  exists s' p', foldl (fun acc next => s ← acc; merge_step s next) (Ok s) l = Ok s' /\ pending s' p' /\
    catv (ms_merged s' ++ [p']) (n + m) (Sem.concat z m y).
Proof.
  revert s p n z m y. induction l as [|c l IH]; intros s p n z m y Hp Hc Hl; cbn [foldl].
  - apply catv_nil in Hl as [-> ->]. exists s, p. unfold Sem.concat. by rewrite Z.pow_0_r, Z.mul_1_r, !Z.add_0_r.
  - apply (catv_app [c]) in Hl as (n1 & z1 & n2 & z2 & Hc1%catv_one & Hl & -> & ->). rewrite M_bind_Ok.
    destruct (merge_step_ok s p n z c n1 z1 Hp Hc Hc1) as (s1 & p1 & -> & Hp1 & Hs1).
    destruct (IH s1 p1 _ _ n2 z2 Hp1 Hs1 Hl) as (s2 & p2 & -> & Hp2 & Hs2). exists s2, p2. split; [done |]. split; [done |].
    rewrite Z.add_assoc. apply catv_rng in Hl as [Hn2 _]. apply eval_bv_range in Hc1 as [Hn1 _].
    replace (Sem.concat z (n1 + n2) (Sem.concat z1 n2 z2)) with (Sem.concat (Sem.concat z n1 z1) n2 z2); [done |].
    unfold Sem.concat. rewrite Z.pow_add_r by lia. lia.
Qed.
Lemma ConcatExtractMerge_sound : Sound ConcatExtractMerge.
Proof.
  apply sound_concat; [done |]. intros ch n z Hl Hc Hn. destruct ch as [|c ch]; [cbn in Hl; lia |].
  unfold ConcatExtractMerge. cbn [apply children tail]. rewrite child0, M_bind_Ok.
  apply (catv_app [c]) in Hc as (n1 & z1 & n2 & z2 & Hc1 & Hl2 & -> & ->).
  destruct (merge_loop_ok ch (MkMerge c false 0 0 []) c n1 z1 n2 z2 eq_refl Hc1 Hl2) as (s & p & -> & Hp & Hs).
  rewrite M_bind_Ok, (merge_push_ok s p Hp), M_bind_Ok. apply mkConcatV_ok; [done | by destruct (ms_merged s) | lia].
Qed.

(** *** [ConcatConstantMerge] *)
Lemma const_run_split l : let '(vs, rest) := const_run l in l = map ConstBV vs ++ rest.
Proof.
  induction l as [|c l IH]; [done |]. cbn. destruct c; try done. destruct (const_run l) as [vs rest]. cbn. by rewrite IH.
Qed.
Lemma catv_consts vs n z : catv (map ConstBV vs) n z -> Forall wf1 vs /\ concat_vals vs = (n, z).
Proof.
  intros (bs & H & E). assert (bs = vs) as ->.
  { clear E. revert bs H. induction vs as [|v vs IH]; intros bs H; inversion H as [|? b ? ? Hc Ht]; subst; [done |].
    cbn in Hc. case_decide; [| done]. injection Hc as <-. f_equal. by eapply IH. }
  split; [by eapply bvs_wf | done].
Qed.
Lemma constant_merge_ok fuel l n z : (length l <= fuel)%nat -> catv l n z -> n < 2 ^ 32 ->
  catv (constant_merge fuel l) n z /\ (l <> [] -> constant_merge fuel l <> []).
Proof.
  revert l n z. induction fuel as [|fuel IH]; intros l n z Hf Hc Hn; [destruct l; [done | cbn in Hf; lia] |].
  cbn [constant_merge]. destruct l as [|c l]; [done |]. cbn in Hf.
  assert (forall l1 l2 c', c :: l = l1 ++ l2 -> (length l2 <= fuel)%nat ->
     (forall n1 z1, catv l1 n1 z1 -> n1 <= n -> eval e c' = Some (bv n1 z1)) -> catv (c' :: constant_merge fuel l2) n z) as Hstep.
  { intros l1 l2 c' Hl Hlen Hc'. rewrite Hl in Hc. apply catv_app in Hc as (n1 & z1 & n2 & z2 & H1 & H2 & -> & ->).
    pose proof (catv_rng _ _ _ H1). pose proof (catv_rng _ _ _ H2). apply (catv_app_intro [c']).
    - apply catv_one, Hc'; [done | lia].
    - apply IH; [done | done | lia]. }
  assert (forall n1 z1, catv [c] n1 z1 -> n1 <= n -> eval e c = Some (bv n1 z1)) as Hsame by (intros; by apply catv_one).
  destruct c as [x t|b|v|k ch];
    [split; [eapply (Hstep [_] l); [done | lia | exact Hsame] | done] .. | | split; [eapply (Hstep [_] l); [done | lia | exact Hsame] | done]].
  pose proof (const_run_split l) as Hrun. destruct (const_run l) as [vs rest]. split; [| done].
  apply (Hstep (ConstBV v :: map ConstBV vs) rest); [by rewrite Hrun | |].
  - rewrite Hrun, length_app in Hf. lia.
  - intros n1 z1 H1 Hn1. destruct (catv_consts (v :: vs) n1 z1 H1) as [Hwf E]. inversion Hwf; subst.
    rewrite concat_fold by (done || (rewrite E; cbn; lia)). rewrite E. cbn [fst snd].
    apply const_eval; [| by apply (catv_rng _ _ _ H1)]. pose proof (catv_pos _ _ _ H1 ltac:(done)). lia.
Qed.
Lemma ConcatConstantMerge_sound : Sound ConcatConstantMerge.
Proof.
  apply sound_concat; [done |]. intros ch n z Hl Hc Hn. unfold ConcatConstantMerge. cbn [apply children].
  destruct (constant_merge_ok (length ch) ch n z ltac:(lia) Hc ltac:(lia)) as [Hm Hne].
  apply mkConcatV_ok; [done | apply Hne; intros ->; cbn in Hl; lia | lia].
Qed.

(** *** Slices *)
Lemma sound_extract rule :
  (forall n, isExtract n = false -> applies rule n = Ok false) ->
  (forall c n a h l, eval e c = Some (bv n a) -> 1 <= n < 2 ^ 32 -> rng n a -> 0 <= l <= h -> h < n ->
     sound_at e rule (mkExtract c h l) (bv (h - l + 1) (Sem.extract a h l))) -> Sound rule.
Proof.
  intros Ha Hr. apply Sound_iff. intros n v Hv. destruct (isExtract n) eqn:E; [| by exists false; rewrite Ha by done].
  destruct (isExtract_inv n E) as (h & l & ch & ->). apply eval_extract_inv in Hv as (c & w & a & -> & Hc & Hw & Hra & Hl & Hh & ->).
  by apply (Hr c w a).
Qed.
Tactic Notation "not_extract" reference(R) := let n := fresh in let E := fresh in intros n E; unfold R; cbn [applies]; by rewrite E.

Lemma extract_whole n a : 1 <= n -> rng n a -> Sem.extract a (n - 1) 0 = a.
Proof. intros Hn Ha. unfold Sem.extract. rewrite Z.pow_0_r, Z.div_1_r. apply Z.mod_small. by replace (n - 1 - 0 + 1) with n by lia. Qed.
Lemma ExtractWhole_sound : Sound ExtractWhole.
Proof.
  apply sound_extract; [not_extract ExtractWhole |]. intros c n a h l Hc Hn Ha Hl Hh. unfold sound_at, ExtractWhole, mkExtract. cbn [applies apply isExtract getKind negb].
  rewrite child0, M_bind_Ok, (getSize_bv e c n a Hc), M_bind_Ok. unfold getExtractHigh, getExtractLow. cbn [getKind]. rewrite !M_bind_Ok.
  rewrite u32_small by lia. destruct (Z.eqb_spec h (n - 1)) as [->|]; cbn [negb]; [| by exists false].
  eexists; split; [reflexivity |]. intros ->%Z.eqb_eq. exists c. split; [done |].
  rewrite extract_whole by (done || lia). rewrite Hc. do 2 f_equal. lia.
Qed.
Lemma ExtractConstant_sound : Sound ExtractConstant.
Proof.
  apply sound_extract; [not_extract ExtractConstant |]. intros c n a h l Hc Hn Ha Hl Hh. unfold sound_at, ExtractConstant, mkExtract. cbn [applies apply isExtract getKind negb].
  rewrite !child0, !M_bind_Ok. eexists; split; [reflexivity |]. intros Hk%isKind_kind.
  assert (c = ConstBV (MkBitVector n a)) as ->.
  { destruct c as [| |v|k ch]; try done; [by apply (const_value e (ConstBV v)) |]. cbn in Hk. subst. apply eval_MkNode in Hc as (_ & ? & _ & ?). done. }
  cbn [getConstBV]. unfold getExtractHigh, getExtractLow. cbn [getKind]. rewrite !M_bind_Ok. eexists; split; [reflexivity |].
  rewrite extract_ok by (lia || done). apply const_eval; [lia | apply rng_extract; lia].
Qed.

Lemma extract_extract a h l k j : 0 <= l <= h -> 0 <= j <= k -> k <= h - l ->
  Sem.extract (Sem.extract a h l) k j = Sem.extract a (k + l) (j + l).
Proof.
  intros. unfold Sem.extract. replace (k + l - (j + l) + 1) with (k - j + 1) by lia.
  rewrite (Z.pow_add_r 2 j l), (Z.mul_comm (2 ^ j)), <- Z.div_div by (try lia; apply Z.pow_pos_nonneg; lia).
  set (b := a / 2 ^ l). replace (h - l + 1) with (j + (h - l + 1 - j)) by lia. rewrite div_mod_pow2 by lia.
  apply Z.bits_inj'. intros i Hi. rewrite !testbit_mod_pow2 by lia.
  destruct (Z.ltb_spec i (k - j + 1)), (Z.ltb_spec i (h - l + 1 - j)); cbn [andb]; try done; lia.
Qed.
Lemma ExtractExtract_sound : Sound ExtractExtract.
Proof.
  apply sound_extract; [not_extract ExtractExtract |]. intros c n a k j Hc Hn Ha Hj Hk. unfold sound_at, ExtractExtract, mkExtract. cbn [applies apply isExtract getKind negb].
  rewrite !child0, !M_bind_Ok. eexists; split; [reflexivity |]. intros Hx.
  destruct (isExtract_inv c Hx) as (h & l & ch & ->). apply eval_extract_inv in Hc as (d & w & b & -> & Hd & Hw & Hb & Hl & Hh & [= -> ->]).
  unfold getExtractHigh, getExtractLow. cbn [getKind]. rewrite !M_bind_Ok, child0, M_bind_Ok. eexists; split; [reflexivity |].
  rewrite !u32_small by lia. etrans; [eapply e_extract; [exact Hd | lia | lia] |]. rewrite extract_extract by lia. do 2 f_equal. lia.
Qed.

(** *** [ExtractConcat]: the slices of the children, lowest first.  The code counts
    in [int], so the concatenation must be narrower than [2^31] bits. *)
Lemma extract_low y m z h l : 0 <= m -> rng m y -> 0 <= l <= h -> h < m -> Sem.extract (Sem.concat z m y) h l = Sem.extract y h l.
Proof.
  intros Hm Hy Hl Hh. unfold Sem.extract, rng in *. apply Z.bits_inj'. intros i Hi. rewrite !testbit_mod_pow2, !Z.div_pow2_bits by lia.
  destruct (Z.ltb_spec i (h - l + 1)); [| done]. cbn [andb]. unfold Sem.concat. rewrite testbit_concat by lia.
  by rewrite (proj2 (Z.ltb_lt (i + l) m)) by lia.
Qed.
Lemma extract_high y m z h l : 0 <= m -> rng m y -> 0 <= l <= h -> m <= l -> Sem.extract (Sem.concat z m y) h l = Sem.extract z (h - m) (l - m).
Proof.
  intros Hm Hy Hl Hh. unfold Sem.extract, rng in *. apply Z.bits_inj'. intros i Hi. rewrite !testbit_mod_pow2, !Z.div_pow2_bits by lia.
  replace (h - m - (l - m) + 1) with (h - l + 1) by lia.
  destruct (Z.ltb_spec i (h - l + 1)); [| done]. cbn [andb]. unfold Sem.concat. rewrite testbit_concat by lia.
  rewrite (proj2 (Z.ltb_ge (i + l) m)) by lia. f_equal. lia.
Qed.
Lemma i32_small z : - 2 ^ 31 <= z < 2 ^ 31 -> i32 z = z.
Proof. intros. unfold i32. rewrite Z.mod_small; lia. Qed.

Lemma extract_concat_loop_ok cs n z hi lo : catv (rev cs) n z -> n < 2 ^ 31 -> lo <= hi < n ->
  exists r, extract_concat_loop cs hi lo = Ok r /\
    (hi < 0 -> r = []) /\ (0 <= hi -> r <> [] /\ catv (rev r) (hi - Z.max 0 lo + 1) (Sem.extract z hi (Z.max 0 lo))).
Proof.
  revert n z hi lo. induction cs as [|c cs IH]; intros n z hi lo Hc Hn Hhi; cbn [extract_concat_loop].
  - apply catv_nil in Hc as [-> ->]. exists []. split; [done |]. split; [done | lia].
  - destruct (Z.ltb_spec hi 0) as [Hneg|Hpos]; [exists []; split; [done |]; split; [done | lia] |].
    cbn [rev] in Hc. apply catv_app in Hc as (n1 & z1 & m & y & H1 & H2%catv_one & -> & ->).
    pose proof (eval_bv_range e m y c H2) as [Hm Hy]. pose proof (catv_rng _ _ _ H1) as [Hn1 Hz1].
    rewrite (getSize_bv e c m y H2), M_bind_Ok, i32_small by lia.
    destruct (IH n1 z1 (hi - m) (lo - m) H1 ltac:(lia) ltac:(lia)) as (r & -> & Hr1 & Hr2). rewrite M_bind_Ok.
    destruct (Z.ltb_spec lo m) as [Hlo|Hlo].
    + assert ((if lo <? 0 then 0 else lo) = Z.max 0 lo) as -> by (destruct (Z.ltb_spec lo 0); lia).
      assert ((if hi <? m then hi else m - 1) = Z.min hi (m - 1)) as -> by (destruct (Z.ltb_spec hi m); lia).
      rewrite !u32_small by lia. eexists; split; [reflexivity |]. split; [lia |]. intros _. split; [done |].
      cbn [app rev]. destruct (Z.lt_ge_cases hi m) as [Hlt|Hge].
      * rewrite Hr1 by lia. rewrite Z.min_l by lia. cbn [rev app]. apply catv_one. rewrite extract_low by (lia || done).
        by eapply e_extract; [exact H2 | lia | lia].
      * destruct (Hr2 ltac:(lia)) as [_ Hr]. rewrite Z.min_r by lia. rewrite (Z.max_l 0 (lo - m)) in Hr by lia.
        rewrite <- (extract_join _ hi (m - 1)) by lia. rewrite (extract_low y m z1 (m - 1)) by (lia || done).
        replace (m - 1 + 1) with m by lia. rewrite extract_high by (lia || done). rewrite Z.sub_diag.
        replace (hi - Z.max 0 lo + 1) with ((hi - m - 0 + 1) + (m - 1 - Z.max 0 lo + 1)) by lia.
        apply catv_app_intro; [done |]. apply catv_one. by eapply e_extract; [exact H2 | lia | lia].
    + eexists; split; [reflexivity |]. split; [lia |]. intros _. rewrite app_nil_l. destruct (Hr2 ltac:(lia)) as [Hne Hr].
      split; [done |]. rewrite extract_high by (lia || done). rewrite !Z.max_r in * by lia.
      by replace (hi - lo + 1) with (hi - m - (lo - m) + 1) by lia.
Qed.
Lemma ExtractConcat_at c n a h l : eval e c = Some (bv n a) -> 0 <= l <= h -> h < n -> n < 2 ^ 31 ->
  sound_at e ExtractConcat (mkExtract c h l) (bv (h - l + 1) (Sem.extract a h l)).
Proof.
  intros Hc Hl Hh Hn. unfold sound_at, ExtractConcat, mkExtract. cbn [applies apply isExtract getKind negb].
  rewrite !child0, !M_bind_Ok. eexists; split; [reflexivity |]. intros Hk%isKind_kind.
  destruct c as [| | |k ch]; try discriminate Hk. cbn in Hk. subst k.
  apply eval_concat_iff in Hc as (Hlen & ? & ? & Hcat & _ & [= <- <-]).
  unfold getExtractHigh, getExtractLow. cbn [getKind]. rewrite !M_bind_Ok, !i32_small by lia. cbn [children].
  destruct (extract_concat_loop_ok (rev ch) n a h l) as (r & -> & _ & Hr); [by rewrite rev_involutive | lia | lia |].
  rewrite M_bind_Ok. destruct (Hr ltac:(lia)) as [Hne Hcr]. rewrite Z.max_r in Hcr by lia.
  apply mkConcatV_ok; [done | | lia]. intros E. apply Hne. apply (f_equal (@rev Node)) in E. by rewrite rev_involutive in E.
Qed.

(** *** Equalities *)
Lemma eval_equal_inv ch v : eval e (MkNode EQUAL ch) = Some v -> exists c0 c1 w0 w1, ch = [c0; c1] /\
  eval e c0 = Some w0 /\ eval e c1 = Some w1 /\ same_type w0 w1 = true /\ v = VBool (bool_decide (w0 = w1)).
Proof.
  intros (_ & vs & Hvs & Hk)%eval_MkNode. cbn in Hk. destruct vs as [|w0 [|w1 [|]]]; try done.
  destruct (same_type w0 w1) eqn:E; [| done]. injection Hk as <-. apply Forall2_two in Hvs as (c0 & c1 & -> & H0 & H1).
  by exists c0, c1, w0, w1.
Qed.
Lemma sound_equal rule : (forall n, isKind EQUAL n = false -> applies rule n = Ok false) ->
  (forall c0 c1 w0 w1, eval e c0 = Some w0 -> eval e c1 = Some w1 -> same_type w0 w1 = true ->
     sound_at e rule (MkNode EQUAL [c0; c1]) (VBool (bool_decide (w0 = w1)))) -> Sound rule.
Proof.
  intros Ha Hr. apply Sound_iff. intros n v Hv. destruct (isKind EQUAL n) eqn:E; [| by exists false; rewrite Ha by done].
  apply isKind_kind in E. destruct n as [| | |k ch]; try discriminate E. cbn in E. subst k.
  apply eval_equal_inv in Hv as (c0 & c1 & w0 & w1 & -> & H0 & H1 & Hs & ->). by apply Hr.
Qed.
Tactic Notation "not_equal" reference(R) := let n := fresh in let E := fresh in intros n E; unfold R; cbn [applies]; by rewrite E.
Ltac open_equal := cbn [applies apply]; change (isKind EQUAL (MkNode EQUAL _)) with true; cbn [negb]; rewrite ?child0, ?child1, ?M_bind_Ok;
  rewrite ?child0, ?child1, ?M_bind_Ok.

Lemma const_kind c : isKind CONST_BITVECTOR c = true -> eval e c <> None -> exists v, c = ConstBV v.
Proof.
  intros Hk%isKind_kind Hc. destruct c as [| |v|k ch]; try done; [by exists v |]. cbn in Hk. subst. exfalso. apply Hc.
  destruct (eval e (MkNode CONST_BITVECTOR ch)) eqn:E; [| done]. apply eval_MkNode in E as (_ & ? & _ & ?). done.
Qed.
Lemma FailEq_sound : Sound FailEq.
Proof.
  apply sound_equal; [not_equal FailEq |]. intros c0 c1 w0 w1 H0 H1 _. unfold sound_at, FailEq. open_equal.
  destruct (isKind CONST_BITVECTOR c0) eqn:K0; cbn [negb]; [| by exists false].
  destruct (isKind CONST_BITVECTOR c1) eqn:K1; cbn [negb]; [| by exists false].
  eexists; split; [reflexivity |]. intros Hne. eexists; split; [reflexivity |].
  destruct (const_kind c0 K0 ltac:(congruence)) as [v0 ->]. destruct (const_kind c1 K1 ltac:(congruence)) as [v1 ->].
  rewrite bool_decide_false; [done |]. intros <-. cbn in H0, H1. repeat case_decide; try done. injection H0 as <-. injection H1 as <-.
  by rewrite (proj2 (node_eqb_eq _ _) eq_refl) in Hne.
Qed.
Lemma SimplifyEq_sound : Sound SimplifyEq.
Proof.
  apply sound_equal; [not_equal SimplifyEq |]. intros c0 c1 w0 w1 H0 H1 _. unfold sound_at, SimplifyEq. open_equal.
  eexists; split; [reflexivity |]. intros <-%node_eqb_eq. eexists; split; [reflexivity |].
  rewrite H0 in H1. injection H1 as <-. by rewrite bool_decide_true.
Qed.
Lemma ReflexivityEq_sound node_lt : Sound (ReflexivityEq node_lt).
Proof.
  apply sound_equal; [not_equal ReflexivityEq |]. intros c0 c1 w0 w1 H0 H1 Hs. unfold sound_at, ReflexivityEq. open_equal.
  eexists; split; [reflexivity |]. intros _. eexists; split; [reflexivity |]. eapply ev2; [done | done | done |].
  cbn. rewrite (proj2 (same_type_spec w1 w0)) by (symmetry; by apply same_type_spec). do 2 f_equal. apply bool_decide_ext. by split.
Qed.

(** *** [ApplyRuleToChildren] *)
Lemma mapM_run_sound R ch vs : Sound R -> Forall2 (fun c w => eval e c = Some w) ch vs ->
  exists ch', mapM (run true R) ch = Ok ch' /\ Forall2 (fun c w => eval e c = Some w) ch' vs.
Proof.
  intros HR H. induction H as [|c w ch vs Hc _ IH]; [by exists [] |]. destruct IH as (ch' & E & Hch').
  destruct (run_sound e true R c w HR Hc ltac:(done)) as (r & Er & Hr). exists (r :: ch').
  change (mapM (run true R) (c :: ch)) with (y ← run true R c; k ← mapM (run true R) ch; mret (y :: k)).
  rewrite Er, M_bind_Ok, E, M_bind_Ok. by split; [| constructor].
Qed.
Lemma ApplyRuleToChildren_sound k R : k <> VARIABLE -> k <> CONST_BOOLEAN -> k <> CONST_BITVECTOR ->
  Sound R -> Sound (ApplyRuleToChildren k R).
Proof.
  intros K1 K2 K3 HR. apply Sound_iff. intros n v Hv. unfold sound_at, ApplyRuleToChildren. cbn [applies apply].
  destruct (bool_decide (getKind n = k)) eqn:E; cbn [negb].
  - exists true. split; [done |]. intros _. apply bool_decide_eq_true in E. destruct n as [x t|b|w|k' ch]; cbn in E; try congruence.
    subst k'. cbn [children]. apply eval_MkNode in Hv as (Ha & vs & Hvs & Hk).
    destruct (mapM_run_sound R ch vs HR Hvs) as (ch' & -> & Hch'). rewrite M_bind_Ok.
    eexists; split; [reflexivity |]. apply eval_MkNode. split; [| by exists vs].
    by rewrite (Forall2_length _ _ _ Hch'), <- (Forall2_length _ _ _ Hvs).
  - destruct (sound_applies e R HR n v Hv) as [b Hb]. exists b. split; [done |]. intros _. by apply run_sound.
Qed.
End sound.
