(* ===== verification/NaryOps.v ===== *)
(** * The associative and commutative operators

    [BITVECTOR_PLUS], [MULT], [AND], [OR] and [XOR] take any number of children.
    The class [ACKind] says what the rules on them rely on: on the values of a width
    the operation is a commutative monoid.  A list of terms then has a value
    ([opv]) that does not depend on its order, and the value of a node is the one of
    its children. *)

From S2P Require Import Prelude Integer BitVector Node BitblastUtils BitblastStrategies BitblastCorrect BVRules BVRulesCorrect BVEvalCorrect.
Local Open Scope Z_scope.

Class ACKind (k : Kind) (f : Z -> Z -> Z -> Z) (u : Z -> Z) : Prop := {
  ac_kind e vs : eval_kind e k vs = bv_nary f vs;
  ac_arity : arity k = (2%nat, None);
  ac_rng n a b : 1 <= n -> rng n a -> rng n b -> rng n (f n a b);
  ac_unit_rng n : 1 <= n -> rng n (u n);
  ac_assoc n a b c : 1 <= n -> rng n a -> rng n b -> rng n c -> f n a (f n b c) = f n (f n a b) c;
  ac_comm n a b : f n a b = f n b a;
  ac_unit n a : 1 <= n -> rng n a -> f n (u n) a = a
}.

Lemma ones_rng n : 1 <= n -> rng n (2 ^ n - 1).
Proof. intros. pose proof (pow2_gt0 n ltac:(lia)). unfold rng. lia. Qed.
Lemma zero_rng n : 0 <= n -> rng n 0.
Proof. intros. pose proof (pow2_gt0 n ltac:(lia)). unfold rng. lia. Qed.
Lemma land_ones_l n a : 0 <= n -> rng n a -> Z.land (2 ^ n - 1) a = a.
Proof.
  intros Hn Ha. rewrite Z.land_comm. replace (2 ^ n - 1) with (Z.ones n) by (rewrite Z.ones_equiv; lia).
  rewrite Z.land_ones by done. by apply Z.mod_small.
Qed.

Lemma bnot_lxor_ones n a : 0 <= n -> rng n a -> Sem.bnot n a = Z.lxor a (2 ^ n - 1).
Proof.
  intros Hn Ha. apply (bits_eq_below n).
  - by apply bnot_bound.
  - destruct (Z.eq_dec n 0) as [->|]; [unfold rng in Ha; replace a with 0 by lia; done |]. apply rng_lxor; [lia | done | apply ones_rng; lia].
  - intros i Hi. replace (2 ^ n - 1) with (Z.ones n) by (rewrite Z.ones_equiv; lia).
    rewrite Z.lxor_spec, Z.ones_spec_low, xorb_true_r by lia.
    unfold Sem.bnot. rewrite <- (lnot_mod n a) by done. rewrite testbit_mod_pow2, (proj2 (Z.ltb_lt i n)), Z.lnot_spec by lia. done.
Qed.

#[global] Instance PLUS_AC : ACKind BITVECTOR_PLUS Sem.add (fun _ => 0).
Proof.
  split; intros; try done; unfold Sem.add, Sem.wrap in *.
  - apply mod_pow2_bound. lia.
  - apply zero_rng. lia.
  - rewrite Zplus_mod_idemp_l, Zplus_mod_idemp_r. f_equal. lia.
  - f_equal. lia.
  - by apply Z.mod_small.
Qed.
#[global] Instance MULT_AC : ACKind BITVECTOR_MULT Sem.mul (fun _ => 1).
Proof.
  split; intros; try done; unfold Sem.mul, Sem.wrap in *.
  - apply mod_pow2_bound. lia.
  - pose proof (pow2_half n ltac:(lia)). pose proof (pow2_gt0 (n - 1) ltac:(lia)). unfold rng. lia.
  - rewrite Zmult_mod_idemp_l, Zmult_mod_idemp_r. f_equal. lia.
  - f_equal. lia.
  - rewrite Z.mul_1_l. by apply Z.mod_small.
Qed.
#[global] Instance AND_AC : ACKind BITVECTOR_AND (fun _ => Z.land) (fun n => 2 ^ n - 1).
Proof.
  split; intros; try done.
  - by apply rng_land.
  - by apply ones_rng.
  - by rewrite Z.land_assoc.
  - apply Z.land_comm.
  - by apply land_ones_l; [lia |].
Qed.
#[global] Instance OR_AC : ACKind BITVECTOR_OR (fun _ => Z.lor) (fun _ => 0).
Proof.
  split; intros; try done.
  - by apply rng_lor.
  - apply zero_rng. lia.
  - by rewrite Z.lor_assoc.
  - apply Z.lor_comm.
Qed.
#[global] Instance XOR_AC : ACKind BITVECTOR_XOR (fun _ => Z.lxor) (fun _ => 0).
Proof.
  split; intros; try done.
  - by apply rng_lxor.
  - apply zero_rng. lia.
  - by rewrite Z.lxor_assoc.
  - apply Z.lxor_comm.
Qed.

Section opv.
Context (k : Kind) (f : Z -> Z -> Z -> Z) (u : Z -> Z) {AC : ACKind k f u}.

(** The value of a list of values. *)
Definition opval (n : Z) (zs : list Z) : Z := foldr (f n) (u n) zs.

Lemma opval_rng n zs : 1 <= n -> Forall (rng n) zs -> rng n (opval n zs).
Proof. intros Hn H. induction H; cbn; [by apply ac_unit_rng | by apply ac_rng]. Qed.
Lemma ac_unit_r n a : 1 <= n -> rng n a -> f n a (u n) = a.
Proof. intros. rewrite ac_comm. by apply ac_unit. Qed.
Lemma opval_app n xs ys : 1 <= n -> Forall (rng n) xs -> Forall (rng n) ys ->
  opval n (xs ++ ys) = f n (opval n xs) (opval n ys).
Proof.
  intros Hn Hx Hy. induction Hx as [|x xs Hx Hxs IH]; cbn.
  - symmetry. apply ac_unit; [done | by apply opval_rng].
  - fold (opval n (xs ++ ys)) (opval n xs). rewrite IH. apply ac_assoc; [done | done | by apply opval_rng ..].
Qed.
(** The node folds from its first child. *)
Lemma opval_foldl n a zs : 1 <= n -> rng n a -> Forall (rng n) zs -> foldl (f n) a zs = opval n (a :: zs).
Proof.
  intros Hn Ha Hz. revert a Ha. induction Hz as [|z zs Hz Hzs IH]; intros a Ha; cbn [foldl].
  - cbn. symmetry. by apply ac_unit_r.
  - rewrite IH by (by apply ac_rng). cbn. fold (opval n zs). symmetry. apply ac_assoc; [done .. |]. by apply opval_rng.
Qed.

Variable e : env.

(** The terms [ch] are vectors of width [n] and combine to [z]. *)
Definition opv (ch : list Node) (n z : Z) : Prop :=
  exists zs, Forall2 (fun c z => eval e c = Some (bv n z)) ch zs /\ z = opval n zs.

Lemma vals_rng ch n zs : Forall2 (fun c z => eval e c = Some (bv n z)) ch zs -> Forall (rng n) zs.
Proof. intros H. eapply Forall2_Forall_r_impl; [exact H |]. apply Forall_true. intros c z Hz. by apply eval_bv_range in Hz as [_ ?]. Qed.

Lemma opv_nil n : opv [] n (u n).
Proof. exists []. by split. Qed.
Lemma opv_nil_inv n z : opv [] n z -> z = u n.
Proof. intros (zs & H & ->). by inversion H. Qed.
Lemma opv_one c n z : eval e c = Some (bv n z) <-> opv [c] n z /\ 1 <= n.
Proof.
  split.
  - intros H. destruct (eval_bv_range e n z c H) as [Hn Hz]. split; [| lia]. exists [z]. split; [by repeat constructor |].
    cbn. symmetry. apply ac_unit_r; [lia | done].
  - intros [(zs & H & ->) Hn]. inversion H as [|? x ? ? Hc Ht]; subst. inversion Ht; subst. cbn. rewrite ac_unit_r; [done | done |].
    by apply eval_bv_range in Hc as [_ ?].
Qed.
Lemma opv_one_intro c n z : eval e c = Some (bv n z) -> opv [c] n z.
Proof. intros H. by destruct (proj1 (opv_one c n z) H). Qed.
Lemma opv_rng ch n z : 1 <= n -> opv ch n z -> rng n z.
Proof. intros Hn (zs & H & ->). apply opval_rng; [done | by eapply vals_rng]. Qed.
Lemma opv_app l l' n x y : 1 <= n -> opv l n x -> opv l' n y -> opv (l ++ l') n (f n x y).
Proof.
  intros Hn (xs & Hx & ->) (ys & Hy & ->). exists (xs ++ ys). split; [by apply Forall2_app |].
  symmetry. apply opval_app; [done | by eapply vals_rng ..].
Qed.
Lemma opv_app_inv l l' n z : 1 <= n -> opv (l ++ l') n z -> exists x y, opv l n x /\ opv l' n y /\ z = f n x y.
Proof.
  intros Hn (zs & H & ->). apply Forall2_app_inv_l in H as (xs & ys & Hx & Hy & ->).
  exists (opval n xs), (opval n ys). split; [by exists xs |]. split; [by exists ys |]. apply opval_app; [done | by eapply vals_rng ..].
Qed.
Lemma opv_cons c l n x y : 1 <= n -> eval e c = Some (bv n x) -> opv l n y -> opv (c :: l) n (f n x y).
Proof. intros Hn Hc Hl. apply (opv_app [c]); [done | by apply opv_one_intro | done]. Qed.
Lemma opv_cons_inv c l n z : 1 <= n -> opv (c :: l) n z -> exists x y, eval e c = Some (bv n x) /\ opv l n y /\ z = f n x y.
Proof.
  intros Hn H. apply (opv_app_inv [c]) in H as (x & y & Hx & Hy & ->); [| done]. exists x, y. split; [by apply opv_one | done].
Qed.
Lemma opv_snoc l c n x y : 1 <= n -> opv l n x -> eval e c = Some (bv n y) -> opv (l ++ [c]) n (f n x y).
Proof. intros. apply opv_app; [done | done | by apply opv_one_intro]. Qed.

Lemma opv_perm l l' n z : 1 <= n -> l ≡ₚ l' -> opv l n z -> opv l' n z.
Proof.
  intros Hn HP. revert z. induction HP as [|c l l' HP IH|c d l|l l1 l2 HP1 IH1 HP2 IH2]; intros z H; [done | | | auto].
  - apply opv_cons_inv in H as (x & y & Hc & Hl & ->); [| done]. apply opv_cons; [done | done | by apply IH].
  - apply opv_cons_inv in H as (y & w & Hd & H & ->); [| done]. apply opv_cons_inv in H as (x & w' & Hc & Hl & ->); [| done].
    pose proof (opv_rng l n w' Hn Hl). pose proof (eval_bv_range e n y d Hd) as [_ ?]. pose proof (eval_bv_range e n x c Hc) as [_ ?].
    rewrite ac_assoc, (ac_comm n y x), <- ac_assoc by done. apply opv_cons; [done | done |]. by apply opv_cons.
Qed.

Lemma eval_nary_iff ch v : eval e (MkNode k ch) = Some v <->
  (2 <= length ch)%nat /\ exists n z, 1 <= n < 2 ^ 32 /\ opv ch n z /\ v = bv n z.
Proof.
  split.
  - intros Hv. assert (arity_ok k (length ch) = true) as Ha by (by apply eval_MkNode in Hv as [? _]).
    unfold arity_ok in Ha. rewrite ac_arity, andb_true_r in Ha. apply Nat.leb_le in Ha. split; [done |].
    destruct (eval_nary_inv e k f ch v (ac_kind e) Hv) as (n & a & l & c0 & cs & -> & -> & H0 & Hl & Hn & Hra & Hrl).
    exists n, (foldl (f n) a l). split; [done |]. split; [| done]. rewrite opval_foldl by (done || lia).
    exists (a :: l). split; [by constructor | done].
  - intros (Hl & n & z & Hn & (zs & Hzs & ->) & ->). destruct ch as [|c ch]; [cbn in Hl; lia |].
    pose proof (vals_rng _ _ _ Hzs) as Hr. inversion Hzs as [|? a ? l Hc Hch]; subst. inversion_clear Hr.
    apply ev_intro with (map (bv n) (a :: l)).
    + unfold arity_ok. rewrite ac_arity, andb_true_r. by apply Nat.leb_le.
    + by apply Forall2_fmap_r.
    + rewrite ac_kind. apply bv_nary_Some. exists n, a, l. split; [done |]. by rewrite opval_foldl by (done || lia).
Qed.
End opv.
