(* ===== verification/BVSimplify.v ===== *)
(** * Simplification rules of the theory of bit-vectors

    Models [src/theory/bv/theory_bv_rewrite_rules_simplification.h].  The rules whose
    body is [Unreachable()] are left out, and so is [IsPowerOfTwo], which introduces
    a fresh variable and calls the whole rewriter. *)

From S2P Require Import Prelude Integer BitVector Node BVRules.
Local Open Scope Z_scope.

Section simplification.
Context {G : Gmp} (node_lt : Node -> Node -> bool).

(** ** [theory_bv_utils.h], continued *)
Definition mkTrue : Node := ConstBool true.
Definition mkFalse : Node := ConstBool false.

(** [mkNode(kind, children)] on a vector. *)
Definition mkNodeV (k : Kind) (children : list Node) : M Node :=
  match children with
  | [] => Throw AssertionFailed
  | [c] => Ok c
  | _ => Ok (MkNode k children)
  end.

(** [std::sort] with the order of nodes. *)
Fixpoint insert_node (n : Node) (l : list Node) : list Node :=
  match l with
  | [] => [n]
  | m :: l' => if node_lt m n then m :: insert_node n l' else n :: l
  end.
Fixpoint sort_nodes (l : list Node) : list Node :=
  match l with [] => [] | n :: l' => insert_node n (sort_nodes l') end.

Definition mkSortedNode (k : Kind) (children : list Node) : M Node :=
  _ ← check AssertionFailed (bool_decide (k = BITVECTOR_AND) || bool_decide (k = BITVECTOR_OR) || bool_decide (k = BITVECTOR_XOR));
  match children with
  | [] => Throw AssertionFailed
  | [c] => Ok c
  | _ => Ok (MkNode k (sort_nodes children))
  end.

Definition mkSignExtend (n : Node) (amount : Z) : Node := MkNode (BITVECTOR_SIGN_EXTEND amount) [n].

Definition isPow2Const (n : Node) : M Z :=
  if negb (isKind CONST_BITVECTOR n) then Ok 0 else bv ← getConstBV n; Ok (BV.isPow2 bv).

(** ** Shifts by a constant *)
(** [Assert(amount < Integer(1).multiplyByPow2(32)); amount.toUnsignedInt()] *)
Definition shift_amount (amount : Z) : M Z :=
  _ ← check AssertionFailed (amount <? Integer.multiplyByPow2 1 32); Ok (Integer.toUnsignedInt amount).
Definition shiftsByConst (k : Kind) (node : Node) : M bool :=
  if negb (isKind k node) then Ok false else n1 ← child node 1; Ok (isKind CONST_BITVECTOR n1).

Definition ShlByConst : RewriteRule := MkRule (shiftsByConst BITVECTOR_SHL)
  (fun node =>
    v ← constChild node 1;
    let amount := d_value v in
    if amount =? 0 then child node 0 else
    a ← child node 0;
    size ← getSize a;
    if size <=? amount then Ok (mkConst size 0) else
    uint32_amount ← shift_amount amount;
    let left := mkExtract a (u32 (size - 1 - uint32_amount)) 0 in
    let right := mkConst uint32_amount 0 in
    Ok (mkConcat left right)).

Definition LshrByConst : RewriteRule := MkRule (shiftsByConst BITVECTOR_LSHR)
  (fun node =>
    v ← constChild node 1;
    let amount := d_value v in
    if amount =? 0 then child node 0 else
    a ← child node 0;
    size ← getSize a;
    if size <=? amount then Ok (mkConst size 0) else
    uint32_amount ← shift_amount amount;
    let right := mkExtract a (u32 (size - 1)) uint32_amount in
    let left := mkConst uint32_amount 0 in
    Ok (mkConcat left right)).

Definition AshrByConst : RewriteRule := MkRule (shiftsByConst BITVECTOR_ASHR)
  (fun node =>
    v ← constChild node 1;
    let amount := d_value v in
    if amount =? 0 then child node 0 else
    a ← child node 0;
    size ← getSize a;
    let sign_bit := mkExtract a (u32 (size - 1)) (u32 (size - 1)) in
    if size <=? amount then mkConcatRepeat sign_bit size else
    uint32_amount ← shift_amount amount;
    if uint32_amount =? 0 then Ok a else
    left ← mkConcatRepeat sign_bit uint32_amount;
    let right := mkExtract a (u32 (size - 1)) uint32_amount in
    Ok (mkConcat left right)).

(** ** Exclusive or with a constant *)
Definition XorOne : RewriteRule := MkRule
  (fun node =>
    if negb (isKind BITVECTOR_XOR node) then Ok false else
    size ← getSize node; ones ← mkOnes size;
    Ok (existsb (fun c => node_eqb c ones) (children node)))
  (fun node =>
    size ← getSize node; ones ← mkOnes size;
    let '(kept, found_ones) := foldl (fun '(kept, found) c =>
        if node_eqb c ones then (kept, negb found) else (kept ++ [c], found)) ([], false) (children node) in
    result ← mkNodeV BITVECTOR_XOR kept;
    if found_ones : bool then Ok (MkNode BITVECTOR_NOT [result]) else Ok result).

Definition XorZero : RewriteRule := MkRule
  (fun node =>
    if negb (isKind BITVECTOR_XOR node) then Ok false else
    size ← getSize node;
    Ok (existsb (fun c => node_eqb c (mkConst size 0)) (children node)))
  (fun node =>
    size ← getSize node;
    mkNodeV BITVECTOR_XOR (List.filter (fun c => negb (node_eqb c (mkConst size 0))) (children node))).

(** ** Negations *)
(** The kind of the first child. *)
Definition kind0 (p : Node -> bool) (node : Node) : M bool := n0 ← child node 0; Ok (p n0).

Definition NotXor : RewriteRule := MkRule
  (fun node => if negb (isKind BITVECTOR_NOT node) then Ok false else kind0 (isKind BITVECTOR_XOR) node)
  (fun node =>
    n0 ← child node 0;
    c ← child n0 0;
    mkSortedNode BITVECTOR_XOR (MkNode BITVECTOR_NOT [c] :: tail (children n0))).

Definition NotIdemp : RewriteRule := MkRule
  (fun node => if negb (isKind BITVECTOR_NOT node) then Ok false else kind0 (isKind BITVECTOR_NOT) node)
  (fun node => n0 ← child node 0; child n0 0).

Definition NegIdemp : RewriteRule := MkRule
  (fun node => if negb (isKind BITVECTOR_NEG node) then Ok false else kind0 (isKind BITVECTOR_NEG) node)
  (fun node => n0 ← child node 0; child n0 0).

(** ** Comparisons *)
(** [node[0] == node[1]] *)
Definition same_children (node : Node) : M bool :=
  n0 ← child node 0; n1 ← child node 1; Ok (node_eqb n0 n1).
(** [node[i] == mkConst(BitVector(getSize(node[0]), c))] *)
Definition child_is (node : Node) (i : nat) (c : Z) : M bool :=
  ni ← child node i; n0 ← child node 0; size ← getSize n0; Ok (node_eqb ni (mkConst size c)).

Definition LtSelf : RewriteRule := MkRule
  (fun node => if isKind BITVECTOR_ULT node || isKind BITVECTOR_SLT node then same_children node else Ok false)
  (fun node => Ok mkFalse).
Definition LteSelf : RewriteRule := MkRule
  (fun node => if isKind BITVECTOR_ULE node || isKind BITVECTOR_SLE node then same_children node else Ok false)
  (fun node => Ok mkTrue).
Definition ZeroUlt : RewriteRule := MkRule
  (fun node => if isKind BITVECTOR_ULT node then child_is node 0 0 else Ok false)
  (fun node => n0 ← child node 0; n1 ← child node 1; Ok (MkNode NOT [MkNode EQUAL [n0; n1]])).
Definition UltZero : RewriteRule := MkRule
  (fun node => if isKind BITVECTOR_ULT node then child_is node 1 0 else Ok false)
  (fun node => Ok mkFalse).
Definition UltOne : RewriteRule := MkRule
  (fun node => if isKind BITVECTOR_ULT node then child_is node 1 1 else Ok false)
  (fun node => n0 ← child node 0; size ← getSize n0; Ok (MkNode EQUAL [n0; mkConst size 0])).
Definition SltZero : RewriteRule := MkRule
  (fun node => if isKind BITVECTOR_SLT node then child_is node 1 0 else Ok false)
  (fun node =>
    n0 ← child node 0; size ← getSize n0;
    let most_significant_bit := mkExtract n0 (u32 (size - 1)) (u32 (size - 1)) in
    Ok (MkNode EQUAL [most_significant_bit; mkConst 1 1])).
Definition UltSelf : RewriteRule := MkRule
  (fun node => if isKind BITVECTOR_ULT node then same_children node else Ok false)
  (fun node => Ok mkFalse).
Definition UleZero : RewriteRule := MkRule
  (fun node => if isKind BITVECTOR_ULE node then child_is node 1 0 else Ok false)
  (fun node => n0 ← child node 0; n1 ← child node 1; Ok (MkNode EQUAL [n0; n1])).
Definition UleSelf : RewriteRule := MkRule
  (fun node => if isKind BITVECTOR_ULE node then same_children node else Ok false)
  (fun node => Ok mkTrue).
Definition ZeroUle : RewriteRule := MkRule
  (fun node => if isKind BITVECTOR_ULE node then child_is node 0 0 else Ok false)
  (fun node => Ok mkTrue).
Definition UleMax : RewriteRule := MkRule
  (fun node =>
    if negb (isKind BITVECTOR_ULE node) then Ok false else
    n0 ← child node 0; size ← getSize n0;
    let ones := Integer.multiplyByPow2 1 size - 1 in
    n1 ← child node 1; Ok (node_eqb n1 (mkConst size ones)))
  (fun node => Ok mkTrue).
Definition NotUlt : RewriteRule := MkRule
  (fun node => if negb (isKind NOT node) then Ok false else kind0 (isKind BITVECTOR_ULT) node)
  (fun node => ult ← child node 0; a ← child ult 0; b ← child ult 1; Ok (MkNode BITVECTOR_ULE [b; a])).
Definition NotUle : RewriteRule := MkRule
  (fun node => if negb (isKind NOT node) then Ok false else kind0 (isKind BITVECTOR_ULE) node)
  (fun node => ult ← child node 0; a ← child ult 0; b ← child ult 1; Ok (MkNode BITVECTOR_ULT [b; a])).

(** ** Multiplication and division *)
Definition MultPow2 : RewriteRule := MkRule
  (fun node =>
    if negb (isKind BITVECTOR_MULT node) then Ok false else
    foldr (fun c rest => p ← isPow2Const c; if negb (p =? 0) then Ok true else rest) (Ok false) (children node))
  (fun node =>
    '(kept, exponent) ← foldl (fun acc c =>
        '(kept, exponent) ← acc;
        exp ← isPow2Const c;
        if negb (exp =? 0) then Ok (kept, u32 (exponent + u32 (exp - 1))) else Ok (kept ++ [c], exponent))
      (Ok ([], 0)) (children node);
    a ← mkNodeV BITVECTOR_MULT kept;
    size ← getSize node;
    let extract := mkExtract a (u32 (size - exponent - 1)) 0 in
    let zeros := mkConst exponent 0 in
    Ok (mkConcat extract zeros)).

(** [int.isZero() ? size : size - int.length()] *)
Definition leading_zeros (c : Node) : M Z :=
  v ← getConstBV c;
  size ← getSize c;
  let int := d_value v in
  Ok (u32 (if Integer.isZero int then size else size - Integer.length int)).
Definition ExtractMultLeadingBit : RewriteRule := MkRule
  (fun node =>
    if negb (isExtract node) then Ok false else
    low ← getExtractLow node;
    node ← child node 0;
    if negb (isKind BITVECTOR_MULT node) || negb (getNumChildren node =? 2)%nat then Ok false else
    n ← getSize node;
    if n <=? 64 then Ok false else
    n0 ← child node 0; n1 ← child node 1;
    if negb (isKind BITVECTOR_CONCAT n0) || negb (isKind BITVECTOR_CONCAT n1) then Ok false else
    c0 ← child n0 0; c1 ← child n1 0;
    if negb (isConst c0) || negb (isConst c1) then Ok false else
    zeroes1 ← leading_zeros c0;
    zeroes2 ← leading_zeros c1;
    let k := u32 (u32 (2 * n) - u32 (zeroes1 + zeroes2)) in
    if low <? k then Ok false else Ok true)
  (fun node => bitwidth ← getSize node; Ok (mkConst bitwidth 0)).

Definition UdivPow2 : RewriteRule := MkRule
  (fun node =>
    if negb (isKind BITVECTOR_UDIV_TOTAL node) then Ok false else
    n1 ← child node 1; p ← isPow2Const n1; Ok (negb (p =? 0)))
  (fun node =>
    a ← child node 0;
    n1 ← child node 1; p ← isPow2Const n1;
    let power := u32 (p - 1) in
    if power =? 0 then Ok a else
    size ← getSize node;
    let extract := mkExtract a (u32 (size - 1)) power in
    let zeros := mkConst power 0 in
    Ok (mkConcat zeros extract)).

(** [node[1] == mkConst(getSize(node), 1)] *)
Definition divisor_is_one (node : Node) : M bool :=
  n1 ← child node 1; size ← getSize node; Ok (node_eqb n1 (mkConst size 1)).
Definition UdivOne : RewriteRule := MkRule
  (fun node => if isKind BITVECTOR_UDIV_TOTAL node then divisor_is_one node else Ok false)
  (fun node => child node 0).
Definition UdivSelf : RewriteRule := MkRule
  (fun node => if isKind BITVECTOR_UDIV_TOTAL node then same_children node else Ok false)
  (fun node => size ← getSize node; Ok (mkConst size 1)).

Definition UremPow2 : RewriteRule := MkRule
  (fun node =>
    if negb (isKind BITVECTOR_UREM_TOTAL node) then Ok false else
    n1 ← child node 1; p ← isPow2Const n1; Ok (negb (p =? 0)))
  (fun node =>
    a ← child node 0;
    n1 ← child node 1; p ← isPow2Const n1;
    let power := u32 (p - 1) in
    size ← getSize node;
    if power =? 0 then Ok (mkConst size 0) else
    let extract := mkExtract a (u32 (power - 1)) 0 in
    let zeros := mkConst (u32 (size - power)) 0 in
    Ok (mkConcat zeros extract)).
Definition UremOne : RewriteRule := MkRule
  (fun node => if isKind BITVECTOR_UREM_TOTAL node then divisor_is_one node else Ok false)
  (fun node => size ← getSize node; Ok (mkConst size 0)).
Definition UremSelf : RewriteRule := MkRule
  (fun node => if isKind BITVECTOR_UREM_TOTAL node then same_children node else Ok false)
  (fun node => size ← getSize node; Ok (mkConst size 0)).

Definition ShiftZero : RewriteRule := MkRule
  (fun node =>
    if isKind BITVECTOR_SHL node || isKind BITVECTOR_LSHR node || isKind BITVECTOR_ASHR node then
      n0 ← child node 0; size ← getSize node; Ok (node_eqb n0 (mkConst size 0))
    else Ok false)
  (fun node => child node 0).

(** ** Sums, extensions *)
Definition isNeg (c : Node) : bool := isKind BITVECTOR_NEG c.
Definition BBPlusNeg : RewriteRule := MkRule
  (fun node =>
    if negb (isKind BITVECTOR_PLUS node) then Ok false else
    Ok (1 <? length (List.filter isNeg (children node)))%nat)
  (fun node =>
    ch ← mapM (fun c => if isNeg c then c0 ← child c 0; Ok (MkNode BITVECTOR_NOT [c0]) else Ok c) (children node);
    let neg_count := u32 (Z.of_nat (length (List.filter isNeg (children node)))) in
    _ ← check AssertionFailed (negb (neg_count =? 0));
    size ← getSize node;
    mkNodeV BITVECTOR_PLUS (ch ++ [mkConst size neg_count])).

Definition MergeSignExtend : RewriteRule := MkRule
  (fun node =>
    match getKind node with
    | BITVECTOR_SIGN_EXTEND _ =>
        n0 ← child node 0;
        Ok match getKind n0 with BITVECTOR_SIGN_EXTEND _ | BITVECTOR_ZERO_EXTEND _ => true | _ => false end
    | _ => Ok false
    end)
  (fun node =>
    match getKind node with
    | BITVECTOR_SIGN_EXTEND ammount1 =>
        n0 ← child node 0;
        match getKind n0 with
        | BITVECTOR_ZERO_EXTEND ammount2 =>
            c ← child n0 0;
            if ammount2 =? 0 then Ok (MkNode (BITVECTOR_SIGN_EXTEND ammount1) [c])
            else Ok (MkNode (BITVECTOR_ZERO_EXTEND (u32 (ammount1 + ammount2))) [c])
        | BITVECTOR_SIGN_EXTEND ammount2 =>
            c ← child n0 0; Ok (MkNode (BITVECTOR_SIGN_EXTEND (u32 (ammount1 + ammount2))) [c])
        | _ => Throw AssertionFailed
        end
    | _ => Throw IllegalArgument
    end).

Definition MultSlice : RewriteRule := MkRule
  (fun node =>
    if negb (isKind BITVECTOR_MULT node) || negb (getNumChildren node =? 2)%nat then Ok false else
    n0 ← child node 0; size ← getSize n0; Ok (size mod 2 =? 0))
  (fun node =>
    a ← child node 0;
    bitwidth ← getSize a;
    let zeros := mkConst (bitwidth / 2) 0 in
    let bottom_a := mkExtract a (u32 (bitwidth / 2 - 1)) 0 in
    let top_a := mkExtract a (u32 (bitwidth - 1)) (bitwidth / 2) in
    b ← child node 1;
    let bottom_b := mkExtract b (u32 (bitwidth / 2 - 1)) 0 in
    let top_b := mkExtract b (u32 (bitwidth - 1)) (bitwidth / 2) in
    let term1 := MkNode BITVECTOR_MULT [mkConcat zeros bottom_a; mkConcat zeros bottom_b] in
    let term2 := mkConcat (MkNode BITVECTOR_MULT [top_b; bottom_a]) zeros in
    let term3 := mkConcat (MkNode BITVECTOR_MULT [top_a; bottom_b]) zeros in
    Ok (MkNode BITVECTOR_PLUS [term1; term2; term3])).

Definition isConstBV (n : Node) : bool := isKind CONST_BITVECTOR n.
Definition UltPlusOne : RewriteRule := MkRule
  (fun node =>
    if negb (isKind BITVECTOR_ULT node) then Ok false else
    x ← child node 0; y1 ← child node 1;
    if negb (isKind BITVECTOR_PLUS y1) then Ok false else
    a ← child y1 0; b ← child y1 1;
    if negb (isConstBV a) && negb (isConstBV b) then Ok false else
    if isConstBV a && isConstBV b then Ok false else
    if negb (getNumChildren y1 =? 2)%nat then Ok false else
    let one := if isConstBV a then a else b in
    size ← getSize one;
    Ok (node_eqb one (mkConst size 1)))
  (fun node =>
    x ← child node 0; y1 ← child node 1;
    a ← child y1 0; b ← child y1 1;
    let y := if negb (isConstBV a) then a else b in
    size ← getSize x;
    ones ← mkOnes size;
    let not_y_eq_1 := MkNode NOT [MkNode EQUAL [y; ones]] in
    let not_y_lt_x := MkNode NOT [MkNode BITVECTOR_ULT [y; x]] in
    Ok (MkNode AND [not_y_eq_1; not_y_lt_x])).
End simplification.
