(* ===== verification/BVSimplifyCorrect.v ===== *)
(** * The simplification rules preserve meaning

    The rules of [BVSimplify], one lemma each.  Two rules rely on the ones run before
    them ([XorOne], [MultPow2]: the constants are already merged); their lemmas say
    on which terms they are sound.  [UdivSelf] is not sound: [UdivSelf_at_zero]. *)

From S2P Require Import Prelude Integer BitVector Node BitblastUtils BitblastStrategies BitblastCorrect BVRules BVRulesCorrect BVEvalCorrect BVCoreCorrect NaryOps BVSimplify.
Local Open Scope Z_scope.

Section sound.
Context {G : Gmp} {HG : GmpSpec G}.
Variable e : env.
Abbreviation Sound := (BVRulesCorrect.Sound e).
Abbreviation sound_at := (BVRulesCorrect.sound_at e).

(** ** Terms a rule recognises by its kind, then looks into *)
Definition sound_on (k : Kind) (rule : RewriteRule) : Prop :=
  forall ch v, eval e (MkNode k ch) = Some v -> sound_at rule (MkNode k ch) v.
Definition operator (k : Kind) : Prop := k <> VARIABLE /\ k <> CONST_BOOLEAN /\ k <> CONST_BITVECTOR.
Ltac each := repeat first [apply List.Forall_nil | apply List.Forall_cons].
Lemma sound_kinds ks rule : Forall operator ks ->
  (forall n, Forall (fun k => isKind k n = false) ks -> applies rule n = Ok false) -> Forall (fun k => sound_on k rule) ks -> Sound rule.
Proof.
  intros Hop Ha Hr. apply Sound_iff. intros n v Hv.
  destruct (decide (Forall (fun k => isKind k n = false) ks)) as [Hno|Hyes]; [exists false; by rewrite Ha by done |].
  apply not_Forall_Exists in Hyes; [| apply _]. apply Exists_exists in Hyes as (k & Hk & E). cbn in E.
  apply not_false_iff_true, isKind_kind in E. pose proof (proj1 (Forall_forall _ _) Hop k Hk) as (K1 & K2 & K3).
  destruct n as [| | |k' ch]; cbn in E; try congruence. subst k'. exact (proj1 (Forall_forall _ _) Hr k Hk ch v Hv).
Qed.
Lemma sound_on_two k rule (P : Z -> Z -> Z -> value) :
  (forall vs v, eval_kind e k vs = Some v -> exists n a b, vs = [bv n a; bv n b] /\ v = P n a b) ->
  (forall c0 c1 n a b, eval e c0 = Some (bv n a) -> eval e c1 = Some (bv n b) -> 1 <= n < 2 ^ 32 -> rng n a -> rng n b ->
     eval e (MkNode k [c0; c1]) = Some (P n a b) -> sound_at rule (MkNode k [c0; c1]) (P n a b)) -> sound_on k rule.
Proof.
  intros Hk Hr ch v Hv. pose proof Hv as (_ & vs & Hvs & Hkv)%eval_MkNode. destruct (Hk vs v Hkv) as (n & a & b & -> & ->).
  apply Forall2_two in Hvs as (c0 & c1 & -> & H0 & H1). pose proof (eval_bv_range e n a c0 H0) as [Hn Hra].
  pose proof (eval_bv_range e n b c1 H1) as [_ Hrb]. by apply Hr.
Qed.
Lemma sound_two k rule (P : Z -> Z -> Z -> value) :
  (forall vs v, eval_kind e k vs = Some v -> exists n a b, vs = [bv n a; bv n b] /\ v = P n a b) -> operator k ->
  (forall n, isKind k n = false -> applies rule n = Ok false) ->
  (forall c0 c1 n a b, eval e c0 = Some (bv n a) -> eval e c1 = Some (bv n b) -> 1 <= n < 2 ^ 32 -> rng n a -> rng n b ->
     eval e (MkNode k [c0; c1]) = Some (P n a b) -> sound_at rule (MkNode k [c0; c1]) (P n a b)) -> Sound rule.
Proof.
  intros Hk Hop Ha Hr. apply (sound_kinds [k]); [each; done | | each; by apply (sound_on_two k rule P)].
  intros n Hn. inversion_clear Hn. by apply Ha.
Qed.
Lemma at_two k rule (P : Z -> Z -> Z -> value) t v :
  (forall vs v, eval_kind e k vs = Some v -> exists n a b, vs = [bv n a; bv n b] /\ v = P n a b) -> operator k ->
  (forall n, isKind k n = false -> applies rule n = Ok false) ->
  (forall c0 c1 n a b, v = P n a b -> eval e c0 = Some (bv n a) -> eval e c1 = Some (bv n b) -> 1 <= n < 2 ^ 32 -> rng n a -> rng n b ->
     eval e (MkNode k [c0; c1]) = Some (P n a b) -> sound_at rule (MkNode k [c0; c1]) (P n a b)) -> eval e t = Some v -> sound_at rule t v.
Proof.
  intros Hk (K1 & K2 & K3) Ha Hr Hv. destruct (isKind k t) eqn:E; [| exists false; by rewrite Ha].
  apply isKind_kind in E. destruct t as [| | |k' ch]; cbn in E; try congruence. subst k'.
  pose proof Hv as (_ & vs & Hvs & Hkv)%eval_MkNode. destruct (Hk vs v Hkv) as (n & a & b & -> & ->).
  apply Forall2_two in Hvs as (c0 & c1 & -> & H0 & H1). pose proof (eval_bv_range e n a c0 H0) as [Hn Hra].
  pose proof (eval_bv_range e n b c1 H1) as [_ Hrb]. by apply Hr.
Qed.
Lemma pred_kind k f : (forall vs, eval_kind e k vs = bv_pred f vs) ->
  forall vs v, eval_kind e k vs = Some v -> exists n a b, vs = [bv n a; bv n b] /\ v = VBool (f n a b).
Proof. intros Hk vs v. rewrite Hk. apply bv_pred_Some. Qed.
Lemma binary_kind k f : (forall vs, eval_kind e k vs = bv_binary f vs) ->
  forall vs v, eval_kind e k vs = Some v -> exists n a b, vs = [bv n a; bv n b] /\ v = bv n (f n a b).
Proof. intros Hk vs v. rewrite Hk. apply bv_binary_Some. Qed.

Lemma isKind_refl k ch : isKind k (MkNode k ch) = true.
Proof. by apply bool_decide_eq_true. Qed.

Ltac steps :=
  repeat first [rewrite child0 | rewrite child1 | rewrite child2 | rewrite M_bind_Ok | rewrite isKind_refl | progress (cbn [negb])
    | match goal with H : eval _ ?c = Some (bv ?n ?a) |- context [getSize ?c] => rewrite (getSize_bv e c n a H) end].
Tactic Notation "pred_at" constr(K) constr(f) reference(R) :=
  eapply (sound_two K _ (fun n a b => VBool (f n a b))); [apply pred_kind; intros; reflexivity | done | let n := fresh in let E := fresh in intros n E; unfold R; cbn [applies]; try unfold shiftsByConst; by rewrite E |];
  intros c0 c1 n a b H0 H1 Hn Ha Hb Hv; unfold BVRulesCorrect.sound_at, R; cbn [applies apply].
Tactic Notation "binary_at" constr(K) constr(f) reference(R) :=
  eapply (sound_two K _ (fun n a b => bv n (f n a b))); [apply binary_kind; intros; reflexivity | done | let n := fresh in let E := fresh in intros n E; unfold R; cbn [applies]; try unfold shiftsByConst; by rewrite E |];
  intros c0 c1 n a b H0 H1 Hn Ha Hb Hv; unfold BVRulesCorrect.sound_at, R; cbn [applies apply].

Ltac ranges := unfold rng in *; intuition lia.
Ltac answer := eexists; split; [reflexivity |].

(** A child equal to a constant has its value. *)
Lemma eq_const c n a z : eval e c = Some (bv n a) -> node_eqb c (mkConst n z) = true -> a = z mod 2 ^ n.
Proof.
  intros Hc ->%node_eqb_eq. pose proof (eval_bv_range e n a _ Hc) as [Hn _]. rewrite e_mk in Hc by done. by injection Hc.
Qed.
Lemma eq_zero c n a : eval e c = Some (bv n a) -> node_eqb c (mkConst n 0) = true -> a = 0.
Proof. intros Hc E. by rewrite (eq_const c n a 0 Hc E), Z.mod_0_l by (apply Z.pow_nonzero; [lia | apply eval_bv_range in Hc; lia]). Qed.
Lemma eq_one c n a : eval e c = Some (bv n a) -> node_eqb c (mkConst n 1) = true -> a = 1.
Proof.
  intros Hc E. pose proof (eval_bv_range e n a _ Hc) as [Hn _]. rewrite (eq_const c n a 1 Hc E).
  pose proof (pow2_half n ltac:(lia)). pose proof (pow2_gt0 (n - 1) ltac:(lia)). apply Z.mod_small. lia.
Qed.

(** ** Comparisons *)
Lemma UltZero_sound : Sound UltZero.
Proof.
  pred_at BITVECTOR_ULT (fun _ : Z => Sem.ult) UltZero. unfold child_is. steps. answer. intros E. answer.
  rewrite (eq_zero c1 n b H1 E). cbn. do 2 f_equal. symmetry. apply Z.ltb_ge. ranges.
Qed.
Lemma ZeroUlt_sound : Sound ZeroUlt.
Proof.
  pred_at BITVECTOR_ULT (fun _ : Z => Sem.ult) ZeroUlt. unfold child_is. steps. answer. intros E. answer.
  rewrite (e_not e _ (a =? b)) by (by eapply e_equal). rewrite (eq_zero c0 n a H0 E). do 2 f_equal. unfold Sem.ult.
  destruct (Z.eqb_spec 0 b), (Z.ltb_spec 0 b); ranges.
Qed.
Lemma UltOne_sound : Sound UltOne.
Proof.
  pred_at BITVECTOR_ULT (fun _ : Z => Sem.ult) UltOne. unfold child_is. steps. answer. intros E. answer.
  rewrite (e_equal e _ _ n a 0); [| done | apply e_mk_small; [done | apply zero_rng; lia]].
  rewrite (eq_one c1 n b H1 E). do 2 f_equal. unfold Sem.ult. destruct (Z.eqb_spec a 0), (Z.ltb_spec a 1); ranges.
Qed.
Lemma SltZero_sound : Sound SltZero.
Proof.
  pred_at BITVECTOR_SLT Sem.slt SltZero. unfold child_is. steps. answer. intros E. answer.
  rewrite e_neg_sign with (n := n) (a := a) by done. rewrite (eq_zero c1 n b H1 E). unfold Sem.slt.
  replace (Sem.signed n 0) with 0; [done |]. symmetry. apply signed_0; [lia | apply zero_rng; lia | done].
Qed.
Lemma UleZero_sound : Sound UleZero.
Proof.
  pred_at BITVECTOR_ULE (fun _ : Z => Sem.ule) UleZero. unfold child_is. steps. answer. intros E. answer.
  rewrite (e_equal e _ _ n a b) by done. rewrite (eq_zero c1 n b H1 E). do 2 f_equal. unfold Sem.ule.
  destruct (Z.eqb_spec a 0), (Z.leb_spec a 0); ranges.
Qed.
Lemma ZeroUle_sound : Sound ZeroUle.
Proof.
  pred_at BITVECTOR_ULE (fun _ : Z => Sem.ule) ZeroUle. unfold child_is. steps. answer. intros E. answer.
  rewrite (eq_zero c0 n a H0 E). cbn. do 2 f_equal. symmetry. apply Z.leb_le. ranges.
Qed.
Lemma UleMax_sound : Sound UleMax.
Proof.
  pred_at BITVECTOR_ULE (fun _ : Z => Sem.ule) UleMax. steps. answer. intros E. answer.
  rewrite multiplyByPow2_ok, Z.mul_1_l in E by lia. rewrite (eq_const c1 n b _ H1 E), Z.mod_small by ranges. cbn.
  do 2 f_equal. symmetry. apply Z.leb_le. ranges.
Qed.

Lemma same_value c n a b : eval e c = Some (bv n a) -> eval e c = Some (bv n b) -> a = b.
Proof. intros -> [=]. done. Qed.
Lemma UltSelf_sound : Sound UltSelf.
Proof.
  pred_at BITVECTOR_ULT (fun _ : Z => Sem.ult) UltSelf. unfold same_children. steps. answer. intros <-%node_eqb_eq. answer.
  rewrite (same_value c0 n a b H0 H1). cbn. unfold Sem.ult. by rewrite Z.ltb_irrefl.
Qed.
Lemma UleSelf_sound : Sound UleSelf.
Proof.
  pred_at BITVECTOR_ULE (fun _ : Z => Sem.ule) UleSelf. unfold same_children. steps. answer. intros <-%node_eqb_eq. answer.
  rewrite (same_value c0 n a b H0 H1). cbn. unfold Sem.ule. by rewrite Z.leb_refl.
Qed.

Tactic Notation "no_kind" reference(R) := let n := fresh in let E := fresh in intros n E; decompose_Forall_hyps; unfold R; cbn [applies];
  repeat match goal with H : isKind _ _ = false |- _ => rewrite H; clear H end; done.
Ltac two_at := intros c0 c1 n a b H0 H1 Hn Ha Hb Hv; unfold BVRulesCorrect.sound_at.

Lemma LtSelf_sound : Sound LtSelf.
Proof.
  apply (sound_kinds [BITVECTOR_ULT; BITVECTOR_SLT]); [each; done | no_kind LtSelf |].
  each; (eapply sound_on_two; [apply pred_kind; intros; reflexivity |]); two_at; unfold LtSelf, same_children; cbn [applies apply];
    steps; rewrite ?orb_true_r; steps; answer; intros <-%node_eqb_eq; answer; rewrite (same_value c0 n a b H0 H1); cbn;
    unfold Sem.ult, Sem.slt; by rewrite Z.ltb_irrefl.
Qed.
Lemma LteSelf_sound : Sound LteSelf.
Proof.
  apply (sound_kinds [BITVECTOR_ULE; BITVECTOR_SLE]); [each; done | no_kind LteSelf |].
  each; (eapply sound_on_two; [apply pred_kind; intros; reflexivity |]); two_at; unfold LteSelf, same_children; cbn [applies apply];
    steps; rewrite ?orb_true_r; steps; answer; intros <-%node_eqb_eq; answer; rewrite (same_value c0 n a b H0 H1); cbn;
    unfold Sem.ule, Sem.sle; by rewrite Z.leb_refl.
Qed.
Lemma ShiftZero_sound : Sound ShiftZero.
Proof.
  apply (sound_kinds [BITVECTOR_SHL; BITVECTOR_LSHR; BITVECTOR_ASHR]); [each; done | no_kind ShiftZero |].
  each; (eapply sound_on_two; [apply binary_kind; intros; reflexivity |]); two_at; unfold ShiftZero; cbn [applies apply];
    steps; rewrite ?orb_true_r; steps; rewrite ?(getSize_bv e _ _ _ Hv); steps; answer; intros E; exists c0; (split; [done |]);
    pose proof (eq_zero c0 n a H0 E); subst a; rewrite H0; do 2 f_equal; unfold Sem.shl, Sem.lshr, Sem.ashr, Sem.wrap.
  - destruct (_ <=? _); [done |]. by rewrite Z.mul_0_l, Z.mod_0_l by (apply Z.pow_nonzero; lia).
  - destruct (_ <=? _); [done |]. destruct (Z.eq_dec (2 ^ b) 0) as [->|]; [by rewrite Z.div_0_r | by rewrite Z.div_0_l].
  - rewrite (proj2 (signed_0 n 0 ltac:(lia) Ha) eq_refl). destruct (_ <=? _); [done |].
    rewrite Z.div_0_l by (apply Z.pow_nonzero; ranges). by rewrite Z.mod_0_l by (apply Z.pow_nonzero; lia).
Qed.

(** ** Double negations *)
Lemma eval_not_inv ch v : eval e (MkNode NOT ch) = Some v -> exists c b, ch = [c] /\ eval e c = Some (VBool b) /\ v = VBool (negb b).
Proof.
  intros H. destruct (eval_one_inv e NOT ch v eq_refl H) as (c & w & -> & Hc & Hk). cbn in Hk. destruct w; [| done].
  injection Hk as <-. eauto.
Qed.
Lemma neg_neg n a : 0 <= n -> rng n a -> Sem.neg n (Sem.neg n a) = a.
Proof. intros Hn Ha. change (Sem.neg n a) with (Sem.wrap n (- a)). rewrite neg_wrap, Z.opp_involutive by done. by apply wrap_small. Qed.

Lemma sound_not_of K f rule : (forall vs, eval_kind e K vs = bv_pred f vs) -> operator K ->
  applies rule = (fun node => if negb (isKind NOT node) then Ok false else kind0 (isKind K) node) ->
  (forall c0 c1 n a b, eval e c0 = Some (bv n a) -> eval e c1 = Some (bv n b) ->
     exists r, apply rule (MkNode NOT [MkNode K [c0; c1]]) = Ok r /\ eval e r = Some (VBool (negb (f n a b)))) -> Sound rule.
Proof.
  intros Hf (K1 & K2 & K3) Ha Hr. apply (sound_kinds [NOT]); [each; done | |].
  { intros n Hn. inversion_clear Hn as [|? ? E _]. by rewrite Ha, E. }
  each. intros ch v Hv. destruct (eval_not_inv ch v Hv) as (c & b & -> & Hc & ->). unfold BVRulesCorrect.sound_at. rewrite Ha.
  unfold kind0. steps. answer. intros Hk%isKind_kind. destruct c as [| | |k ch]; cbn in Hk; try congruence. subst k.
  destruct (eval_pred_inv e K f ch _ Hf Hc) as (n & x & y & c0 & c1 & [= ->] & -> & H0 & H1 & _). by apply Hr.
Qed.
Lemma NotUlt_sound : Sound NotUlt.
Proof.
  eapply (sound_not_of BITVECTOR_ULT); [intros; reflexivity | done | done |]. intros c0 c1 n a b H0 H1.
  unfold NotUlt. cbn [apply]. steps. answer. rewrite (e_ule e _ _ n b a) by done. unfold Sem.ule, Sem.ult. by rewrite <- Z.leb_antisym.
Qed.
Lemma NotUle_sound : Sound NotUle.
Proof.
  eapply (sound_not_of BITVECTOR_ULE); [intros; reflexivity | done | done |]. intros c0 c1 n a b H0 H1.
  unfold NotUle. cbn [apply]. steps. answer. rewrite (e_ult e _ _ n b a) by done. unfold Sem.ule, Sem.ult. by rewrite <- Z.ltb_antisym.
Qed.

Lemma sound_twice K f rule : (forall vs, eval_kind e K vs = bv_unary f vs) -> operator K ->
  applies rule = (fun node => if negb (isKind K node) then Ok false else kind0 (isKind K) node) ->
  apply rule = (fun node => n0 ← child node 0; child n0 0) ->
  (forall n a, 1 <= n -> rng n a -> f n (f n a) = a) -> Sound rule.
Proof.
  intros Hf Hop Ha Hr Hff. apply (sound_kinds [K]); [each; done | |].
  { intros n Hn. inversion_clear Hn as [|? ? E _]. by rewrite Ha, E. }
  each. destruct Hop as (K1 & K2 & K3). intros ch v Hv. destruct (eval_unary_inv e K f ch v Hf Hv) as (n & a & c & -> & -> & Hc & Hn & Hra).
  unfold BVRulesCorrect.sound_at. rewrite Ha, Hr. unfold kind0. steps. answer. intros Hk%isKind_kind.
  destruct c as [| | |k ch]; cbn in Hk; try congruence. subst k.
  destruct (eval_unary_inv e K f ch _ Hf Hc) as (m & x & d & [= -> ->] & -> & Hd & Hm & Hx). steps. exists d. split; [done |].
  rewrite Hff by (done || lia). done.
Qed.
Lemma NotIdemp_sound : Sound NotIdemp.
Proof.
  eapply (sound_twice BITVECTOR_NOT); [intros; reflexivity | done | done | done |]. intros. unfold Sem.bnot. lia.
Qed.
Lemma NegIdemp_sound : Sound NegIdemp.
Proof.
  eapply (sound_twice BITVECTOR_NEG); [intros; reflexivity | done | done | done |]. intros. apply neg_neg; [lia | done].
Qed.

(** ** Shifts by a constant *)
Lemma shift_amount_ok n z : n < 2 ^ 32 -> 0 <= z < n -> shift_amount z = Ok z.
Proof.
  intros. unfold shift_amount. rewrite multiplyByPow2_ok, Z.mul_1_l by lia. rewrite (proj2 (Z.ltb_lt z (2 ^ 32))) by lia.
  cbn [check]. rewrite M_bind_Ok, toUnsignedInt_ok by lia. done.
Qed.
Lemma constChild1 k c n b : constChild (MkNode k [c; ConstBV (MkBitVector n b)]) 1 = Ok (MkBitVector n b).
Proof. done. Qed.
Lemma const_bv c n b : eval e c = Some (bv n b) -> isKind CONST_BITVECTOR c = true -> c = ConstBV (MkBitVector n b).
Proof.
  intros Hc Hk. destruct (const_kind e c Hk ltac:(congruence)) as [v ->]. by apply (const_value e (ConstBV v)).
Qed.
Lemma extract_to_0 a h : 0 <= h -> Sem.extract a h 0 = a mod 2 ^ (h + 1).
Proof. intros. unfold Sem.extract. by rewrite Z.pow_0_r, Z.div_1_r, Z.sub_0_r. Qed.
Lemma extract_top n a l : 0 <= l < n -> rng n a -> Sem.extract a (n - 1) l = a / 2 ^ l.
Proof.
  intros Hl Ha. unfold Sem.extract, rng in *. apply Z.mod_small. pose proof (pow2_gt0 l ltac:(lia)).
  split; [apply Z.div_pos; lia |]. apply Z.div_lt_upper_bound; [lia |]. rewrite <- Z.pow_add_r by lia.
  replace (l + (n - 1 - l + 1)) with n by lia. lia.
Qed.

Lemma ShlByConst_sound : Sound ShlByConst.
Proof.
  binary_at BITVECTOR_SHL Sem.shl ShlByConst. unfold shiftsByConst. steps. answer. intros Hk.
  rewrite (const_bv c1 n b H1 Hk), constChild1. steps. cbn [d_value]. unfold Sem.shl. destruct (Z.eqb_spec b 0) as [->|Hb0].
  - exists c0. split; [done |]. rewrite H0, (proj2 (Z.leb_gt n 0)), Z.pow_0_r, Z.mul_1_r by lia. by rewrite wrap_small.
  - steps. destruct (Z.leb_spec n b) as [Hle|Hlt]; [answer; apply e_mk_small; [done | apply zero_rng; lia] |].
    rewrite (shift_amount_ok n) by ranges. steps. answer. rewrite u32_small by ranges.
    rewrite (e_concat2 e _ _ (n - 1 - b - 0 + 1) (Sem.extract a (n - 1 - b) 0) b 0);
      [| eapply e_extract; [done | ranges | ranges] | apply e_mk_small; [ranges | apply zero_rng; ranges] | ranges].
    do 3 f_equal; [ranges |]. rewrite extract_to_0 by ranges. unfold Sem.concat, Sem.wrap. rewrite Z.add_0_r.
    replace (n - 1 - b + 1) with (n - b) by lia. rewrite <- Z.mul_mod_distr_r by (apply Z.pow_nonzero; ranges).
    rewrite <- Z.pow_add_r by ranges. f_equal. f_equal. lia.
Qed.
Lemma LshrByConst_sound : Sound LshrByConst.
Proof.
  binary_at BITVECTOR_LSHR Sem.lshr LshrByConst. unfold shiftsByConst. steps. answer. intros Hk.
  rewrite (const_bv c1 n b H1 Hk), constChild1. steps. cbn [d_value]. unfold Sem.lshr. destruct (Z.eqb_spec b 0) as [->|Hb0].
  - exists c0. split; [done |]. by rewrite H0, (proj2 (Z.leb_gt n 0)), Z.pow_0_r, Z.div_1_r by lia.
  - steps. destruct (Z.leb_spec n b) as [Hle|Hlt]; [answer; apply e_mk_small; [done | apply zero_rng; lia] |].
    rewrite (shift_amount_ok n) by ranges. steps. answer. rewrite u32_small by ranges.
    rewrite (e_concat2 e _ _ b 0 (n - 1 - b + 1) (Sem.extract a (n - 1) b));
      [| apply e_mk_small; [ranges | apply zero_rng; ranges] | eapply e_extract; [done | ranges | ranges] | ranges].
    rewrite extract_top by (done || ranges). do 3 f_equal; ranges.
Qed.

Lemma AshrByConst_at t v : eval e t = Some v -> narrow v -> sound_at AshrByConst t v.
Proof.
  intros Ht Hnarrow. revert Ht. apply (at_two BITVECTOR_ASHR _ (fun n a b => bv n (Sem.ashr n a b)));
    [apply binary_kind; intros; reflexivity | done | intros n' E; unfold AshrByConst; cbn [applies]; unfold shiftsByConst; by rewrite E |].
  intros c0 c1 n a b -> H0 H1 Hn Ha Hb Hv. specialize (Hnarrow _ _ eq_refl). unfold BVRulesCorrect.sound_at, AshrByConst. cbn [applies apply]. unfold shiftsByConst. steps. answer. intros Hk.
  rewrite (const_bv c1 n b H1 Hk), constChild1. steps. cbn [d_value]. destruct (Z.eqb_spec b 0) as [->|Hb0].
  - exists c0. split; [done |]. rewrite H0, ashr_value, Z.pow_0_r, Z.div_1_r, Z.sub_diag, Z.mul_0_r, Z.add_0_r by (done || lia).
    by destruct (Z.testbit a (n - 1)).
  - steps. destruct (Z.leb_spec n b) as [Hle|Hlt].
    + destruct (sign_repeat_ok e c0 n a n H0 ltac:(lia)) as (r & -> & Hr). exists r. split; [done |]. rewrite Hr. unfold Sem.ashr.
      rewrite (proj2 (Z.leb_le n b) Hle), signed_sign_bit by (lia || done). destruct (Z.testbit a (n - 1)); cbn [Z.b2z]; do 2 f_equal; lia.
    + rewrite (shift_amount_ok n) by ranges. steps. rewrite (proj2 (Z.eqb_neq b 0) Hb0).
      destruct (sign_repeat_ok e c0 n a b H0 ltac:(ranges)) as (r & -> & Hr). steps. answer. rewrite u32_small by ranges.
      rewrite (e_concat2 e _ _ b _ (n - 1 - b + 1) (Sem.extract a (n - 1) b) Hr);
        [| eapply e_extract; [done | ranges | ranges] | ranges].
      rewrite extract_top by (done || ranges). rewrite ashr_value by ranges. do 2 f_equal; [lia |].
      unfold Sem.concat. replace (n - 1 - b + 1) with (n - b) by lia. destruct (Z.testbit a (n - 1)); cbn [Z.b2z]; lia.
Qed.

(** ** Division by a power of two *)
Lemma isPow2Const_ok c n b : eval e c = Some (bv n b) ->
  exists p, isPow2Const c = Ok p /\ (p <> 0 -> 1 <= p <= n /\ c = ConstBV (MkBitVector n b) /\ b = 2 ^ (p - 1)) /\
    (p = 0 -> forall w, c = ConstBV w -> forall j, 0 <= j -> b <> 2 ^ j).
Proof.
  intros Hc. pose proof (eval_bv_range e n b c Hc) as [Hn Hb]. unfold isPow2Const. destruct (isKind CONST_BITVECTOR c) eqn:Hk; cbn [negb].
  2:{ exists 0. split; [done |]. split; [done |]. intros _ w ->. discriminate. }
  pose proof (const_bv c n b Hc Hk) as Hcb. rewrite Hcb. cbn [getConstBV]. rewrite M_bind_Ok. unfold BV.isPow2. cbn [d_value].
  assert (Z.log2 b < 2 ^ 32 - 1).
  { destruct (Z.eq_dec b 0) as [->|]; [done |]. assert (Z.log2 b < n); [| lia]. apply Z.log2_lt_pow2; ranges. }
  eexists. split; [done |]. split.
  - intros Hp. assert (0 <= Integer.isPow2 b) as Hnn.
    { unfold Integer.isPow2. destruct (_ <=? _); [done |]. destruct (_ =? _); [| done]. apply Z.mod_pos_bound. lia. }
    assert (b = 2 ^ (Integer.isPow2 b - 1)) as Eb by (apply isPow2_iff; lia).
    split; [| done]. split; [lia |].
    assert (Integer.isPow2 b - 1 < n); [| lia]. apply (Z.pow_lt_mono_r_iff 2); [lia | lia |]. rewrite <- Eb. ranges.
  - intros Hp w _ j Hj E. apply (isPow2_iff b j) in E; lia.
Qed.
Lemma mod_pow2_le a p n : 0 <= p <= n -> rng n a -> 0 <= a mod 2 ^ p < 2 ^ n.
Proof. intros Hp Ha. pose proof (mod_pow2_bound a p ltac:(lia)). pose proof (pow2_le p n ltac:(lia)). lia. Qed.

Lemma UdivPow2_sound : Sound UdivPow2.
Proof.
  binary_at BITVECTOR_UDIV_TOTAL Sem.udiv UdivPow2. steps. destruct (isPow2Const_ok c1 n b H1) as (p & -> & Hp & _). steps.
  answer. intros Hp0%negb_true_iff%Z.eqb_neq. destruct (Hp Hp0) as (Hpn & _ & ->). steps. rewrite (u32_small (p - 1)) by lia.
  unfold Sem.udiv. rewrite (proj2 (Z.eqb_neq (2 ^ (p - 1)) 0)) by (apply Z.pow_nonzero; lia).
  destruct (Z.eqb_spec (p - 1) 0) as [E|Hp1].
  - exists c0. split; [done |]. by rewrite E, Z.pow_0_r, Z.div_1_r.
  - rewrite ?(getSize_bv e _ _ _ Hv). steps. answer. rewrite u32_small by lia.
    rewrite (e_concat2 e _ _ (p - 1) 0 (n - 1 - (p - 1) + 1) (Sem.extract a (n - 1) (p - 1)));
      [| apply e_mk_small; [lia | apply zero_rng; lia] | eapply e_extract; [done | lia | lia] | lia].
    rewrite extract_top by (done || lia). do 3 f_equal; lia.
Qed.
Lemma UremPow2_sound : Sound UremPow2.
Proof.
  binary_at BITVECTOR_UREM_TOTAL Sem.urem UremPow2. steps. destruct (isPow2Const_ok c1 n b H1) as (p & -> & Hp & _). steps.
  answer. intros Hp0%negb_true_iff%Z.eqb_neq. destruct (Hp Hp0) as (Hpn & _ & ->). steps. rewrite (u32_small (p - 1)) by lia.
  rewrite ?(getSize_bv e _ _ _ Hv). steps.
  unfold Sem.urem. rewrite (proj2 (Z.eqb_neq (2 ^ (p - 1)) 0)) by (apply Z.pow_nonzero; lia).
  destruct (Z.eqb_spec (p - 1) 0) as [E|Hp1]; answer.
  - rewrite E, Z.pow_0_r, Z.mod_1_r. apply e_mk_small; [done | apply zero_rng; lia].
  - rewrite !u32_small by lia.
    rewrite (e_concat2 e _ _ (n - (p - 1)) 0 (p - 1 - 1 - 0 + 1) (Sem.extract a (p - 1 - 1) 0));
      [| apply e_mk_small; [lia | apply zero_rng; lia] | eapply e_extract; [done | lia | lia] | lia].
    rewrite extract_to_0 by lia. replace (p - 1 - 1 + 1) with (p - 1) by lia. do 3 f_equal; lia.
Qed.
Lemma UdivOne_sound : Sound UdivOne.
Proof.
  binary_at BITVECTOR_UDIV_TOTAL Sem.udiv UdivOne. unfold divisor_is_one. steps. rewrite ?(getSize_bv e _ _ _ Hv). steps.
  answer. intros E. exists c0. split; [done |]. rewrite H0, (eq_one c1 n b H1 E). unfold Sem.udiv. by rewrite Z.div_1_r.
Qed.
Lemma UremOne_sound : Sound UremOne.
Proof.
  binary_at BITVECTOR_UREM_TOTAL Sem.urem UremOne. unfold divisor_is_one. steps. rewrite ?(getSize_bv e _ _ _ Hv). steps.
  answer. intros E. rewrite ?(getSize_bv e _ _ _ Hv), ?M_bind_Ok. answer. rewrite (eq_one c1 n b H1 E). unfold Sem.urem. rewrite Z.mod_1_r.
  apply e_mk_small; [done | apply zero_rng; lia].
Qed.
Lemma UremSelf_sound : Sound UremSelf.
Proof.
  binary_at BITVECTOR_UREM_TOTAL Sem.urem UremSelf. unfold same_children. steps.
  answer. intros <-%node_eqb_eq. rewrite ?(getSize_bv e _ _ _ Hv), ?M_bind_Ok. answer.
  rewrite (same_value c0 n a b H0 H1). unfold Sem.urem. destruct (Z.eqb_spec b 0) as [->|]; [| rewrite Z.mod_same by done];
    apply e_mk_small; (done || apply zero_rng; lia).
Qed.
(** [a udiv a] is 1 only where [a] is not 0. *)
Lemma UdivSelf_at c n a : eval e c = Some (bv n a) -> a <> 0 ->
  sound_at UdivSelf (MkNode BITVECTOR_UDIV_TOTAL [c; c]) (bv n (Sem.udiv n a a)).
Proof.
  intros Hc Ha. pose proof (eval_bv_range e n a c Hc) as [Hn Hr].
  assert (eval e (MkNode BITVECTOR_UDIV_TOTAL [c; c]) = Some (bv n (Sem.udiv n a a))) as Hv by (by apply e_binary).
  unfold BVRulesCorrect.sound_at, UdivSelf, same_children. cbn [applies apply]. steps. answer. intros _.
  rewrite ?(getSize_bv e _ _ _ Hv), ?M_bind_Ok. answer. unfold Sem.udiv. rewrite (proj2 (Z.eqb_neq a 0) Ha), Z.div_same by done.
  apply e_mk_small; [done |]. pose proof (pow2_half n ltac:(lia)). pose proof (pow2_gt0 (n - 1) ltac:(lia)). ranges.
Qed.

(** ** Operators on lists of children *)
Section build.
Context (k : Kind) (f : Z -> Z -> Z -> Z) (u : Z -> Z) {AC : ACKind k f u} (node_lt : Node -> Node -> bool).

Lemma mkNodeV_ok ch n z : 1 <= n < 2 ^ 32 -> opv f u e ch n z -> ch <> [] -> exists r, mkNodeV k ch = Ok r /\ eval e r = Some (bv n z).
Proof.
  intros Hn Ho Hne. destruct ch as [|c [|d ch]]; [done | |]; answer.
  - apply (opv_one k f u). split; [done | lia].
  - apply (eval_nary_iff k f u). split; [cbn; lia |]. eauto.
Qed.
Lemma insert_node_perm n l : insert_node node_lt n l ≡ₚ n :: l.
Proof. induction l as [|m l IH]; cbn; [done |]. destruct (node_lt m n); [| done]. rewrite IH. constructor. Qed.
Lemma sort_nodes_perm l : sort_nodes node_lt l ≡ₚ l.
Proof. induction l as [|n l IH]; cbn; [done |]. by rewrite insert_node_perm, IH. Qed.
Lemma mkSortedNode_ok ch n z : (k = BITVECTOR_AND \/ k = BITVECTOR_OR \/ k = BITVECTOR_XOR) -> 1 <= n < 2 ^ 32 ->
  opv f u e ch n z -> ch <> [] -> exists r, mkSortedNode node_lt k ch = Ok r /\ eval e r = Some (bv n z).
Proof.
  intros Hk Hn Ho Hne. unfold mkSortedNode.
  replace (bool_decide _ || bool_decide _ || bool_decide _) with true by (symmetry; rewrite !orb_true_iff, !bool_decide_eq_true; tauto).
  cbn [check]. rewrite M_bind_Ok. destruct ch as [|c [|d ch]]; [done | |]; answer; [apply (opv_one k f u); split; [done | lia] |].
  apply (eval_nary_iff k f u). rewrite sort_nodes_perm. split; [cbn; lia |]. exists n, z. split; [done |]. split; [| done].
  eapply (opv_perm k f u); [lia | symmetry; apply sort_nodes_perm | done].
Qed.
End build.

(** ** Exclusive or *)
Lemma NotXor_sound node_lt : Sound (NotXor node_lt).
Proof.
  apply (sound_kinds [BITVECTOR_NOT]); [each; done | no_kind NotXor |]. each. intros ch v Hv.
  destruct (eval_unary_inv e BITVECTOR_NOT Sem.bnot ch v ltac:(done) Hv) as (n & a & c & -> & -> & Hc & Hn & Hra).
  unfold BVRulesCorrect.sound_at, NotXor, kind0. cbn [applies apply]. steps. answer. intros Hk%isKind_kind.
  destruct c as [| | |k ch]; try discriminate Hk. cbn in Hk. subst k.
  apply (eval_nary_iff BITVECTOR_XOR (fun _ => Z.lxor) (fun _ => 0)) in Hc as (Hl & m & z & Hm & Ho & [= -> ->]).
  destruct ch as [|c ch]; [cbn in Hl; lia |]. steps. cbn [children tail].
  apply (opv_cons_inv BITVECTOR_XOR _ _) in Ho as (x & y & Hx & Hy & ->); [| lia].
  pose proof (eval_bv_range e m x c Hx) as [_ Rx]. pose proof (opv_rng BITVECTOR_XOR _ _ e ch m y ltac:(lia) Hy) as Ry.
  apply (mkSortedNode_ok BITVECTOR_XOR (fun _ => Z.lxor) (fun _ => 0)); [tauto | done | | done].
  replace (Sem.bnot m (Z.lxor x y)) with (Z.lxor (Sem.bnot m x) y).
  - apply (opv_cons BITVECTOR_XOR (fun _ => Z.lxor) (fun _ => 0)); [lia | by apply e_bnot | done].
  - rewrite !bnot_lxor_ones by (done || lia || by apply rng_lxor). by rewrite Z.lxor_assoc, (Z.lxor_comm _ y), <- Z.lxor_assoc.
Qed.

Abbreviation xorv := (opv (fun _ => Z.lxor) (fun _ => 0) e).
Abbreviation xor_iff := (eval_nary_iff BITVECTOR_XOR (fun _ => Z.lxor) (fun _ => 0) e).

(** Dropping the children that are 0 keeps the value. *)
Lemma xor_drop_zeros n ch z : 1 <= n -> xorv ch n z ->
  xorv (List.filter (fun c => negb (node_eqb c (mkConst n 0))) ch) n z.
Proof.
  intros Hn. revert z. induction ch as [|c ch IH]; intros z H; cbn [List.filter]; [done |].
  apply (opv_cons_inv BITVECTOR_XOR _ _) in H as (x & y & Hx & Hy & ->); [| done]. specialize (IH y Hy).
  destruct (node_eqb c (mkConst n 0)) eqn:E; cbn [negb].
  - by rewrite (eq_zero c n x Hx E), Z.lxor_0_l.
  - by apply (opv_cons BITVECTOR_XOR (fun _ => Z.lxor) (fun _ => 0)).
Qed.
Lemma XorZero_at ch v : eval e (MkNode BITVECTOR_XOR ch) = Some v ->
  (forall n a, v = bv n a -> Exists (fun c => node_eqb c (mkConst n 0) = false) ch) -> sound_at XorZero (MkNode BITVECTOR_XOR ch) v.
Proof.
  intros Hv Hex. unfold BVRulesCorrect.sound_at, XorZero. cbn [applies apply]. steps.
  pose proof Hv as (Hl & n & z & Hn & Ho & ->)%xor_iff. rewrite (getSize_bv e _ _ _ Hv), M_bind_Ok. answer. intros _.
  rewrite M_bind_Ok. cbn [children]. apply (mkNodeV_ok BITVECTOR_XOR (fun _ => Z.lxor) (fun _ => 0)); [done | apply xor_drop_zeros; [lia | done] |].
  specialize (Hex n z eq_refl). clear -Hex. induction Hex as [c ch Hc|c ch Hc IH]; cbn; [by rewrite Hc |]. by destruct (node_eqb c _).
Qed.

(** Dropping the children that are all ones negates the value as often. *)
Lemma xor_drop_ones n ones ch kept z acc (b : bool) : 1 <= n < 2 ^ 32 -> eval e ones = Some (bv n (2 ^ n - 1)) ->
  xorv kept n acc -> xorv ch n z ->
  let '(kept', b') := foldl (fun '(kept, found) c => if node_eqb c ones then (kept, negb found) else (kept ++ [c], found)) (kept, b) ch in
  exists z', xorv kept' n z' /\ Z.lxor z' (if b' then 2 ^ n - 1 else 0) = Z.lxor (Z.lxor acc (if b then 2 ^ n - 1 else 0)) z.
Proof.
  intros Hn Ho. revert kept acc b z. induction ch as [|c ch IH]; intros kept acc b z Hk H; cbn [foldl].
  - apply opv_nil_inv in H. cbn in H. subst z. exists acc. split; [done |]. by rewrite Z.lxor_0_r.
  - apply (opv_cons_inv BITVECTOR_XOR _ _) in H as (x & y & Hx & Hy & ->); [| lia]. destruct (node_eqb c ones) eqn:E.
    + apply node_eqb_eq in E as ->. rewrite Ho in Hx. injection Hx as <-. specialize (IH kept acc (negb b) y Hk Hy).
      destruct (foldl _ (kept, negb b) ch) as [kept' b']. destruct IH as (z' & Hz' & Hzz). exists z'. split; [done |]. rewrite Hzz.
      symmetry. rewrite !Z.lxor_assoc. f_equal. rewrite <- Z.lxor_assoc. f_equal.
      destruct b; cbn [negb]; [apply Z.lxor_nilpotent | apply Z.lxor_0_l].
    + specialize (IH (kept ++ [c]) (Z.lxor acc x) b y).
      destruct (foldl _ (kept ++ [c], b) ch) as [kept' b']. destruct IH as (z' & Hz' & Hzz); [| done |].
      * by apply (opv_snoc BITVECTOR_XOR (fun _ => Z.lxor) (fun _ => 0)); [lia | |].
      * exists z'. split; [done |]. rewrite Hzz, !Z.lxor_assoc. f_equal. rewrite <- !Z.lxor_assoc. f_equal. apply Z.lxor_comm.
Qed.
Lemma xor_kept_nonempty ones ch kept (b : bool) : kept <> [] \/ Exists (fun c => node_eqb c ones = false) ch ->
  (foldl (fun '(kept, found) c => if node_eqb c ones then (kept, negb found) else (kept ++ [c], found)) (kept, b) ch).1 <> [].
Proof.
  revert kept b. induction ch as [|c ch IH]; intros kept b H; cbn [foldl].
  - destruct H as [H|H]; [done | by inversion H].
  - destruct (node_eqb c ones) eqn:E; apply IH; destruct H as [H|H]; try (by left); [| left; by destruct kept ..].
    right. inversion H; subst; [congruence | done].
Qed.
Lemma XorOne_at ch v : eval e (MkNode BITVECTOR_XOR ch) = Some v ->
  (forall n a ones, v = bv n a -> mkOnes n = Ok ones -> Exists (fun c => node_eqb c ones = false) ch) -> sound_at XorOne (MkNode BITVECTOR_XOR ch) v.
Proof.
  intros Hv Hex. unfold BVRulesCorrect.sound_at, XorOne. cbn [applies apply]. steps.
  pose proof Hv as (Hl & n & z & Hn & Ho & ->)%xor_iff. rewrite (getSize_bv e _ _ _ Hv), !M_bind_Ok.
  destruct (mkOnes_ok e n Hn) as (ones & E & Hones). specialize (Hex n z ones eq_refl E). rewrite E, !M_bind_Ok. answer. intros _. cbn [children].
  pose proof (xor_drop_ones n ones ch [] z 0 false Hn Hones ltac:(by exists []) Ho) as Hd.
  pose proof (xor_kept_nonempty ones ch [] false ltac:(by right)) as Hne.
  destruct (foldl _ ([], false) ch) as [kept b]. destruct Hd as (z' & Hz' & Hzz). cbn in Hne.
  destruct (mkNodeV_ok BITVECTOR_XOR (fun _ => Z.lxor) (fun _ => 0) kept n z' Hn Hz' Hne) as (r & -> & Hr). rewrite M_bind_Ok.
  rewrite !Z.lxor_0_l in Hzz. destruct b; answer.
  - rewrite (e_bnot e r n z' Hr), bnot_lxor_ones, Hzz; [done | lia | by apply eval_bv_range in Hr as [_ ?]].
  - rewrite Z.lxor_0_r in Hzz. by rewrite Hr, Hzz.
Qed.

(** ** Extensions *)
Lemma signed_wrap m z : 1 <= m -> - 2 ^ (m - 1) <= z < 2 ^ (m - 1) -> Sem.signed m (Sem.wrap m z) = z.
Proof.
  intros Hm Hz. pose proof (pow2_half m Hm). unfold Sem.signed, Sem.wrap. destruct (Z.lt_ge_cases z 0).
  - replace (z mod 2 ^ m) with (z + 2 ^ m) by (symmetry; apply mod_unique_bound; [lia |]; exists (-1); lia).
    rewrite (proj2 (Z.ltb_ge _ _)) by lia. lia.
  - rewrite Z.mod_small by lia. by rewrite (proj2 (Z.ltb_lt _ _)) by lia.
Qed.
Lemma sext_sext n a j k : 1 <= n -> 0 <= j -> 0 <= k -> rng n a -> Sem.sext (n + j) (Sem.sext n a j) k = Sem.sext n a (j + k).
Proof.
  intros Hn Hj Hk Ha. unfold Sem.sext. pose proof (signed_range n a Hn Ha). pose proof (pow2_le (n - 1) (n + j - 1) ltac:(lia)).
  rewrite signed_wrap by lia. f_equal. lia.
Qed.
Lemma sext_zext n a j k : 1 <= n -> 1 <= j -> 0 <= k -> rng n a -> Sem.sext (n + j) a k = a.
Proof.
  intros Hn Hj Hk Ha. unfold rng in *. pose proof (pow2_le n (n + j - 1) ltac:(lia)). pose proof (pow2_le n (n + j + k) ltac:(lia)).
  unfold Sem.sext, Sem.signed. rewrite (proj2 (Z.ltb_lt _ _)) by lia. apply wrap_small. ranges.
Qed.
Lemma e_sext c n a i : eval e c = Some (bv n a) -> 0 <= i -> n + i < 2 ^ 32 ->
  eval e (MkNode (BITVECTOR_SIGN_EXTEND i) [c]) = Some (bv (n + i) (Sem.sext n a i)).
Proof.
  intros Hc Hi Hn. pose proof (eval_bv_range e n a c Hc). eapply ev1; [done | done |]. cbn. rewrite decide_True by done. apply fit_Some. split; [lia | done].
Qed.
Lemma e_zext c n a i : eval e c = Some (bv n a) -> 0 <= i -> n + i < 2 ^ 32 ->
  eval e (MkNode (BITVECTOR_ZERO_EXTEND i) [c]) = Some (bv (n + i) a).
Proof.
  intros Hc Hi Hn. pose proof (eval_bv_range e n a c Hc). eapply ev1; [done | done |]. cbn. rewrite decide_True by done. apply fit_Some. split; [lia | done].
Qed.
Lemma sext_inv i ch v : eval e (MkNode (BITVECTOR_SIGN_EXTEND i) ch) = Some v -> exists c n a, ch = [c] /\ eval e c = Some (bv n a) /\
  1 <= n /\ rng n a /\ 0 <= i /\ n + i < 2 ^ 32 /\ v = bv (n + i) (Sem.sext n a i).
Proof.
  intros H. destruct (eval_one_inv e (BITVECTOR_SIGN_EXTEND i) ch v eq_refl H) as (c & w & -> & Hc & Hk). cbn in Hk. destruct w as [|[n a]]; [done |].
  case_decide; [| done]. apply fit_Some in Hk as [? ->]. pose proof (eval_bv_range e n a c Hc). exists c, n, a. cbn in *. intuition lia.
Qed.
Lemma zext_inv i ch v : eval e (MkNode (BITVECTOR_ZERO_EXTEND i) ch) = Some v -> exists c n a, ch = [c] /\ eval e c = Some (bv n a) /\
  1 <= n /\ rng n a /\ 0 <= i /\ n + i < 2 ^ 32 /\ v = bv (n + i) a.
Proof.
  intros H. destruct (eval_one_inv e (BITVECTOR_ZERO_EXTEND i) ch v eq_refl H) as (c & w & -> & Hc & Hk). cbn in Hk. destruct w as [|[n a]]; [done |].
  case_decide; [| done]. apply fit_Some in Hk as [? ->]. pose proof (eval_bv_range e n a c Hc). exists c, n, a. cbn in *. intuition lia.
Qed.
Lemma MergeSignExtend_sound : Sound MergeSignExtend.
Proof.
  apply Sound_iff. intros m v Hv. unfold BVRulesCorrect.sound_at, MergeSignExtend. cbn [applies apply].
  destruct m as [| | |k ch]; try (by exists false). destruct k; try (by exists false). cbn [getKind].
  apply sext_inv in Hv as (c & n & a & -> & Hc & Hn & Ha & Hi & Hni & ->). steps. answer. intros Hk.
  destruct c as [| | |k ch]; try discriminate Hk. destruct k; try discriminate Hk; cbn [getKind].
  - apply zext_inv in Hc as (d & n' & a' & -> & Hd & Hn' & Ha' & Hj & Hnj & [= -> ->]). steps.
    destruct (Z.eqb_spec zeroExtendAmount 0) as [->|Hz]; answer.
    + rewrite (e_sext d n' a') by (done || lia). by rewrite Z.add_0_r.
    + rewrite u32_small by lia. rewrite (e_zext d n' a') by (done || lia). rewrite sext_zext by (done || lia). do 2 f_equal. lia.
  - apply sext_inv in Hc as (d & n' & a' & -> & Hd & Hn' & Ha' & Hj & Hnj & [= -> ->]). steps. answer.
    rewrite u32_small by lia. rewrite (e_sext d n' a') by (done || lia). rewrite sext_sext by (done || lia). do 2 f_equal; [lia |]. f_equal. lia.
Qed.

(** ** Products and sums *)
Lemma e_mult2 a b n x y : eval e a = Some (bv n x) -> eval e b = Some (bv n y) -> eval e (MkNode BITVECTOR_MULT [a; b]) = Some (bv n (Sem.mul n x y)).
Proof. by apply (e_nary2 e BITVECTOR_MULT). Qed.
Abbreviation mulv := (opv Sem.mul (fun _ => 1) e).
Abbreviation mul_iff := (eval_nary_iff BITVECTOR_MULT Sem.mul (fun _ => 1) e).
Abbreviation addv := (opv Sem.add (fun _ => 0) e).
Abbreviation add_iff := (eval_nary_iff BITVECTOR_PLUS Sem.add (fun _ => 0) e).

Lemma mul_two_inv c0 c1 n z : eval e (MkNode BITVECTOR_MULT [c0; c1]) = Some (bv n z) ->
  exists a b, eval e c0 = Some (bv n a) /\ eval e c1 = Some (bv n b) /\ 1 <= n < 2 ^ 32 /\ z = Sem.mul n a b.
Proof.
  intros (_ & m & y & Hm & Ho & [= <- <-])%mul_iff. apply (opv_cons_inv BITVECTOR_MULT _ _) in Ho as (a & w & Ha & Ho & ->); [| lia].
  apply (opv_cons_inv BITVECTOR_MULT _ _) in Ho as (b & w' & Hb & Ho & ->); [| lia]. apply opv_nil_inv in Ho as ->.
  exists a, b. split; [done |]. split; [done |]. split; [done |]. f_equal.
  apply (ac_unit_r BITVECTOR_MULT Sem.mul (fun _ => 1)); [lia |]. by apply eval_bv_range in Hb as [_ ?].
Qed.

(** The schoolbook product of halves. *)
Lemma mult_halves h a b : 1 <= h ->
  let n := h + h in
  let a0 := a mod 2 ^ h in let a1 := a / 2 ^ h in let b0 := b mod 2 ^ h in let b1 := b / 2 ^ h in
  (a0 * b0 + (b1 * a0) mod 2 ^ h * 2 ^ h + (a1 * b0) mod 2 ^ h * 2 ^ h) mod 2 ^ n = (a * b) mod 2 ^ n.
Proof.
  intros Hh. cbv zeta. pose proof (pow2_gt0 h ltac:(lia)) as Hp. set (P := 2 ^ h) in *.
  replace (2 ^ (h + h)) with (P * P) by (rewrite Z.pow_add_r by lia; done).
  assert (forall x, (x mod P * P) mod (P * P) = (x * P) mod (P * P)) as Hm by (intros; rewrite !Z.mul_mod_distr_r by lia; by rewrite Z.mod_mod by lia).
  rewrite <- (Zplus_mod_idemp_r ((a / P * (b mod P)) mod P * P)), Hm, Zplus_mod_idemp_r.
  replace (a mod P * (b mod P) + (b / P * (a mod P)) mod P * P + a / P * (b mod P) * P)
    with (a mod P * (b mod P) + a / P * (b mod P) * P + (b / P * (a mod P)) mod P * P) by lia.
  rewrite <- (Zplus_mod_idemp_r ((b / P * (a mod P)) mod P * P)), Hm, Zplus_mod_idemp_r.
  pose proof (Z.div_mod a P ltac:(lia)) as Ea. pose proof (Z.div_mod b P ltac:(lia)) as Eb.
  set (a1 := a / P) in *. set (a0 := a mod P) in *. set (b1 := b / P) in *. set (b0 := b mod P) in *. rewrite Ea, Eb.
  replace ((P * a1 + a0) * (P * b1 + b0)) with (a0 * b0 + a1 * b0 * P + b1 * a0 * P + a1 * b1 * (P * P)) by lia.
  by rewrite Z.mod_add by lia.
Qed.
Lemma MultSlice_sound : Sound MultSlice.
Proof.
  apply (sound_kinds [BITVECTOR_MULT]); [each; done | no_kind MultSlice |]. each. intros ch v Hv.
  unfold BVRulesCorrect.sound_at, MultSlice. cbn [applies apply]. steps. unfold getNumChildren. cbn [children].
  destruct ch as [|c0 [|c1 [|]]]; try (by exists false). cbn [length Nat.eqb negb orb]. steps.
  pose proof Hv as (_ & n & z & Hn & _ & ->)%mul_iff. destruct (mul_two_inv c0 c1 n z Hv) as (a & b & H0 & H1 & _ & ->).
  pose proof (eval_bv_range e n a c0 H0) as [_ Ha]. pose proof (eval_bv_range e n b c1 H1) as [_ Hb]. steps. answer.
  intros Hev%Z.eqb_eq. pose proof (Z.div_mod n 2 ltac:(lia)) as En. rewrite Hev in En. remember (n / 2) as h eqn:Eh. clear Eh Hev Hv.
  assert (n = h + h) as -> by lia. assert (1 <= h) as Hh by lia. answer. rewrite !u32_small by lia.
  pose proof (e_mk_small e h 0 ltac:(lia) ltac:(apply zero_rng; lia)) as Hz.
  assert (forall c x, eval e c = Some (bv (h + h) x) -> eval e (mkExtract c (h - 1) 0) = Some (bv h (x mod 2 ^ h))) as Hlow.
  { intros c x Hc. rewrite (e_extract e c (h - 1) 0 (h + h) x Hc) by lia. rewrite extract_to_0 by lia. do 2 f_equal; [lia |]. do 2 f_equal. lia. }
  assert (forall c x, eval e c = Some (bv (h + h) x) -> rng (h + h) x -> eval e (mkExtract c (h + h - 1) h) = Some (bv h (x / 2 ^ h))) as Htop.
  { intros c x Hc Hx. rewrite (e_extract e c (h + h - 1) h (h + h) x Hc) by lia. rewrite extract_top by (done || lia). do 2 f_equal. lia. }
  pose proof (e_concat2 e _ _ _ _ _ _ Hz (Hlow c0 a H0) ltac:(lia)) as T0. pose proof (e_concat2 e _ _ _ _ _ _ Hz (Hlow c1 b H1) ltac:(lia)) as T0'.
  pose proof (e_mult2 _ _ _ _ _ T0 T0') as T1.
  pose proof (e_concat2 e _ _ _ _ _ _ (e_mult2 _ _ _ _ _ (Htop c1 b H1 Hb) (Hlow c0 a H0)) Hz ltac:(lia)) as T2.
  pose proof (e_concat2 e _ _ _ _ _ _ (e_mult2 _ _ _ _ _ (Htop c0 a H0 Ha) (Hlow c1 b H1)) Hz ltac:(lia)) as T3.
  apply add_iff. split; [cbn; lia |]. exists (h + h), (Sem.mul (h + h) a b). split; [lia |]. split; [| done].
  pose proof (opv_cons BITVECTOR_PLUS Sem.add (fun _ => 0) e _ _ (h + h) _ _ ltac:(lia) T1
    (opv_cons BITVECTOR_PLUS Sem.add (fun _ => 0) e _ _ (h + h) _ _ ltac:(lia) T2
      (opv_cons BITVECTOR_PLUS Sem.add (fun _ => 0) e _ _ (h + h) _ _ ltac:(lia) T3 (opv_nil Sem.add (fun _ => 0) e (h + h))))) as HS.
  replace (Sem.mul (h + h) a b) with (Sem.add (h + h) (Sem.mul (h + h) (Sem.concat 0 h (a mod 2 ^ h)) (Sem.concat 0 h (b mod 2 ^ h)))
    (Sem.add (h + h) (Sem.concat (Sem.mul h (b / 2 ^ h) (a mod 2 ^ h)) h 0)
      (Sem.add (h + h) (Sem.concat (Sem.mul h (a / 2 ^ h) (b mod 2 ^ h)) h 0) 0))); [exact HS |].
  unfold Sem.add, Sem.mul, Sem.concat, Sem.wrap. rewrite !Z.mul_0_l, !Z.add_0_l, !Z.add_0_r.
  rewrite !Zplus_mod_idemp_r, Zplus_mod_idemp_l, Z.add_assoc, Zplus_mod_idemp_r. by apply mult_halves.
Qed.

Lemma UltPlusOne_sound : Sound UltPlusOne.
Proof.
  pred_at BITVECTOR_ULT (fun _ : Z => Sem.ult) UltPlusOne. steps. destruct (isKind BITVECTOR_PLUS c1) eqn:Hk; cbn [negb]; [| by exists false].
  apply isKind_kind in Hk. destruct c1 as [| | |k ch]; try discriminate Hk. cbn in Hk. subst k. clear Hv.
  pose proof H1 as (Hl & m & z & Hm & Ho & [= <- <-])%add_iff. destruct ch as [|p [|q ch]]; cbn in Hl; try lia. steps.
  destruct (negb (isConstBV p) && negb (isConstBV q)) eqn:E1; [by exists false |].
  destruct (isConstBV p && isConstBV q) eqn:E2; [by exists false |].
  unfold getNumChildren. cbn [children]. destruct ch as [|]; [| by exists false]. cbn [length Nat.eqb negb].
  apply (opv_cons_inv BITVECTOR_PLUS _ _) in Ho as (x & w & Hx & Ho & Eb); [| lia].
  apply (opv_cons_inv BITVECTOR_PLUS _ _) in Ho as (y & w' & Hy & Ho & Ew); [| lia]. apply opv_nil_inv in Ho as ->.
  pose proof (eval_bv_range e n x p Hx) as [_ Rx]. pose proof (eval_bv_range e n y q Hy) as [_ Ry].
  assert (w = y) as -> by (rewrite Ew; unfold Sem.add; rewrite Z.add_0_r; by apply wrap_small). clear Ew.
  set (one := if isConstBV p then p else q). set (other := if negb (isConstBV p) then p else q).
  assert (exists o t, eval e one = Some (bv n o) /\ eval e other = Some (bv n t) /\ rng n t /\ b = Sem.add n t o) as (o & t & Hone & Hot & Rt & Eb').
  { subst one other. destruct (isConstBV p); cbn [negb] in *; [exists x, y | exists y, x]; (do 3 (split; [done |])); rewrite Eb; [| done].
    unfold Sem.add. f_equal. lia. }
  clearbody one other. steps. answer. intros E. pose proof (eq_one one n o Hone E). subst o.
  destruct (mkOnes_ok e n Hn) as (ones & -> & Hones). steps. answer.
  rewrite (e_and e _ _ (negb (t =? 2 ^ n - 1)) (negb (Sem.ult t a))); [| apply e_not; by eapply e_equal | apply e_not; by eapply e_ult].
  do 2 f_equal. rewrite Eb'. unfold Sem.ult, Sem.add, Sem.wrap.
  destruct (Z.eqb_spec t (2 ^ n - 1)) as [->|Ht]; cbn [negb andb].
  - replace (2 ^ n - 1 + 1) with (2 ^ n) by lia. rewrite Z.mod_same by ranges. symmetry. apply Z.ltb_ge. ranges.
  - rewrite Z.mod_small by ranges. destruct (Z.ltb_spec t a), (Z.ltb_spec a (t + 1)); cbn; lia.
Qed.

(** [-x] is [~x + 1]: a sum with [m] negations is the sum of the complements and [m]. *)
Lemma neg_bnot n x : 0 <= n -> rng n x -> Sem.neg n x = Sem.wrap n (Sem.bnot n x + 1).
Proof.
  intros Hn Hx. unfold Sem.neg, Sem.bnot, Sem.wrap. replace (2 ^ n - 1 - x + 1) with (- x + 1 * 2 ^ n) by lia. by rewrite Z.mod_add by ranges.
Qed.
Lemma negs_replaced n ch z : 1 <= n < 2 ^ 32 -> addv ch n z ->
  exists ch' z', mapM (fun c => if isNeg c then c0 ← child c 0; Ok (MkNode BITVECTOR_NOT [c0]) else Ok c) ch = Ok ch' /\
    length ch' = length ch /\ addv ch' n z' /\ z = Sem.wrap n (z' + Z.of_nat (length (List.filter isNeg ch))).
Proof.
  intros Hn. revert z. induction ch as [|c ch IH]; intros z H.
  - exists [], z. repeat split; [done |]. apply opv_nil_inv in H as ->. cbn. unfold Sem.wrap. by rewrite Z.mod_0_l by (apply Z.pow_nonzero; lia).
  - apply (opv_cons_inv BITVECTOR_PLUS _ _) in H as (x & y & Hx & Hy & ->); [| lia]. destruct (IH y Hy) as (ch' & z' & E & Hlen & Hch' & ->).
    change (mapM ?g (c :: ch)) with (d ← g c; k ← mapM g ch; mret (d :: k)). cbn [List.filter].
    destruct (isNeg c) eqn:Hneg.
    + apply isKind_kind in Hneg. destruct c as [| | |k cc]; try discriminate Hneg. cbn in Hneg. subst k.
      destruct (eval_unary_inv e BITVECTOR_NEG Sem.neg cc _ ltac:(done) Hx) as (m & w & d & [= <- ->] & -> & Hd & _ & Rw).
      exists (MkNode BITVECTOR_NOT [d] :: ch'), (Sem.add n (Sem.bnot n w) z'). rewrite child0, !M_bind_Ok, E, M_bind_Ok.
      split; [done |]. split; [cbn; congruence |]. split; [apply (opv_cons BITVECTOR_PLUS Sem.add (fun _ => 0)); [lia | by apply e_bnot | done] |].
      rewrite neg_bnot by (done || lia). unfold Sem.add, Sem.wrap. cbn [length]. rewrite Nat2Z.inj_succ.
      rewrite Zplus_mod_idemp_l, Zplus_mod_idemp_r, Zplus_mod_idemp_l. f_equal. lia.
    + exists (c :: ch'), (Sem.add n x z'). rewrite M_bind_Ok, E, M_bind_Ok. split; [done |]. split; [cbn; congruence |].
      split; [by apply (opv_cons BITVECTOR_PLUS Sem.add (fun _ => 0)); [lia | |] |]. unfold Sem.add, Sem.wrap. rewrite Zplus_mod_idemp_l, Zplus_mod_idemp_r. f_equal. lia.
Qed.
Lemma BBPlusNeg_at ch v : eval e (MkNode BITVECTOR_PLUS ch) = Some v -> Z.of_nat (length ch) < 2 ^ 32 -> sound_at BBPlusNeg (MkNode BITVECTOR_PLUS ch) v.
Proof.
  intros Hv Hlen. unfold BVRulesCorrect.sound_at, BBPlusNeg. cbn [applies apply]. steps. answer. cbn [children]. intros Hcnt%Nat.ltb_lt.
  pose proof Hv as (Hl & n & z & Hn & Ho & ->)%add_iff. destruct (negs_replaced n ch z Hn Ho) as (ch' & z' & E & Hlen' & Hch' & ->).
  rewrite E, M_bind_Ok. pose proof (filter_length_le isNeg ch). set (m := length (List.filter isNeg ch)) in *.
  rewrite u32_small by lia. rewrite (proj2 (Z.eqb_neq (Z.of_nat m) 0)) by lia. cbn [negb check]. rewrite M_bind_Ok, (getSize_bv e _ _ _ Hv), M_bind_Ok.
  apply (mkNodeV_ok BITVECTOR_PLUS Sem.add (fun _ => 0)); [done | | by destruct ch'].
  replace (Sem.wrap n (z' + Z.of_nat m)) with (Sem.add n z' (Z.of_nat m mod 2 ^ n)) by (unfold Sem.add, Sem.wrap; by rewrite Zplus_mod_idemp_r).
  apply (opv_snoc BITVECTOR_PLUS Sem.add (fun _ => 0)); [lia | done | by apply e_mk].
Qed.

(** ** Multiplication by a power of two, once [MultSimplify] has left one constant,
    the last child, that is neither 0 nor 1 *)
Definition no_const (l : list Node) : Prop := Forall (fun c => isKind CONST_BITVECTOR c = false) l.
Lemma not_pow2_const c : isKind CONST_BITVECTOR c = false -> isPow2Const c = Ok 0.
Proof. intros H. unfold isPow2Const. by rewrite H. Qed.
Lemma pow2_applies l c : no_const l ->
  foldr (fun c rest => p ← isPow2Const c; if negb (p =? 0) then Ok true else rest) (Ok false) (l ++ [c]) =
  (p ← isPow2Const c; Ok (negb (p =? 0))).
Proof.
  intros H. induction H as [|d l Hd _ IH]; cbn [app foldr].
  - destruct (isPow2Const c) as [p|]; [| done]. rewrite !M_bind_Ok. by destruct (negb _).
  - by rewrite (not_pow2_const d Hd), M_bind_Ok.
Qed.
Lemma pow2_keeps l kept x : no_const l ->
  foldl (fun acc c => '(kept, exponent) ← acc; exp ← isPow2Const c;
        if negb (exp =? 0) then Ok (kept, u32 (exponent + u32 (exp - 1))) else Ok (kept ++ [c], exponent)) (Ok (kept, x)) l = Ok (kept ++ l, x).
Proof.
  intros H. revert kept. induction H as [|d l Hd _ IH]; intros kept; cbn [foldl]; [by rewrite app_nil_r |].
  rewrite M_bind_Ok, (not_pow2_const d Hd), M_bind_Ok. cbn [Z.eqb negb]. rewrite IH. by rewrite <- app_assoc.
Qed.
Lemma MultPow2_at l c v : eval e (MkNode BITVECTOR_MULT (l ++ [c])) = Some v -> no_const l -> l <> [] ->
  (forall n b, c = ConstBV (MkBitVector n b) -> b <> 1) -> sound_at MultPow2 (MkNode BITVECTOR_MULT (l ++ [c])) v.
Proof.
  intros Hv Hl Hne Hc1. unfold BVRulesCorrect.sound_at, MultPow2. cbn [applies apply]. steps. cbn [children].
  pose proof Hv as (_ & n & z & Hn & Ho & ->)%mul_iff. apply (opv_app_inv BITVECTOR_MULT _ _) in Ho as (x & y & Hx & Hy & ->); [| lia].
  assert (eval e c = Some (bv n y)) as Hc by (apply (opv_one BITVECTOR_MULT Sem.mul (fun _ => 1)); split; [done | lia]).
  destruct (isPow2Const_ok c n y Hc) as (p & E & Hp & _). rewrite pow2_applies, E, M_bind_Ok by done. answer. intros Hp0%negb_true_iff%Z.eqb_neq.
  destruct (Hp Hp0) as (Hpn & -> & ->). rewrite foldl_app, (pow2_keeps l [] 0 Hl). cbn [foldl app]. rewrite M_bind_Ok, E, M_bind_Ok.
  rewrite (proj2 (Z.eqb_neq p 0) Hp0). cbn [negb]. rewrite M_bind_Ok, (u32_small (p - 1)), Z.add_0_l, u32_small by lia.
  assert (1 <= p - 1) as Hp1. { assert (p - 1 <> 0); [| lia]. intros E0. apply (Hc1 n (2 ^ (p - 1)) eq_refl). by rewrite E0. }
  destruct (mkNodeV_ok BITVECTOR_MULT Sem.mul (fun _ => 1) l n x Hn Hx Hne) as (r & -> & Hr).
  rewrite M_bind_Ok, (getSize_bv e _ _ _ Hv), M_bind_Ok. answer. rewrite u32_small by lia.
  rewrite (e_concat2 e _ _ (n - (p - 1) - 1 - 0 + 1) (Sem.extract x (n - (p - 1) - 1) 0) (p - 1) 0);
    [| eapply e_extract; [done | lia | lia] | apply e_mk_small; [lia | apply zero_rng; lia] | lia].
  rewrite extract_to_0 by lia. do 2 f_equal; [lia |]. unfold Sem.concat, Sem.mul, Sem.wrap. rewrite Z.add_0_r.
  rewrite <- Z.mul_mod_distr_r by (apply Z.pow_nonzero; lia). rewrite <- Z.pow_add_r by lia. f_equal. f_equal. lia.
Qed.
(** Without a constant the rule does not apply. *)
Lemma MultPow2_no_const ch : no_const ch -> ch <> [] -> applies MultPow2 (MkNode BITVECTOR_MULT ch) = Ok false.
Proof.
  intros Hc _. unfold MultPow2. cbn [applies]. steps. cbn [children]. induction Hc as [|d l Hd _ IH]; cbn [foldr]; [done |].
  by rewrite (not_pow2_const d Hd), M_bind_Ok.
Qed.

(** ** Slices above the product of numbers with leading zeros *)
Lemma leading_zeros_ok c n a : isConst c = true -> eval e c = Some (bv n a) ->
  exists z, leading_zeros c = Ok z /\ 0 <= z <= n /\ a < 2 ^ (n - z).
Proof.
  intros Hk Hc. pose proof (eval_bv_range e n a c Hc) as [Hn Ha]. unfold leading_zeros. rewrite (const_value e c n a Hk Hc) in *.
  cbn [getConstBV]. steps. cbn [d_value]. eexists. split; [reflexivity |]. cbn [d_size]. rewrite isZero_ok. destruct (Z.eqb_spec a 0) as [->|Ha0].
  - rewrite u32_small by lia. split; [lia |]. rewrite Z.sub_diag. done.
  - pose proof (length_ok a Ha0) as [HL1 HL2]. set (L := Integer.length a) in *. rewrite Z.abs_eq in * by ranges.
    assert (0 <= L) by (destruct (Z.lt_ge_cases L 0); [rewrite Z.pow_neg_r in HL2 by lia; ranges | done]).
    assert (L - 1 < n) by (apply (Z.pow_lt_mono_r_iff 2); ranges).
    rewrite u32_small by lia. split; [lia |]. by replace (n - (n - L)) with L by lia.
Qed.
Lemma leading_concat c l n a m x z : catv e (c :: l) n a -> eval e c = Some (bv m x) -> 0 <= z <= m -> x < 2 ^ (m - z) -> a < 2 ^ (n - z) /\ m <= n.
Proof.
  intros Hc Hx Hz Hlt. apply (catv_app e [c]) in Hc as (n1 & z1 & n2 & z2 & H1%catv_one & H2 & -> & ->). rewrite Hx in H1. injection H1 as -> ->.
  apply catv_rng in H2 as [Hn2 Hz2]. unfold Sem.concat. replace (n1 + n2 - z) with ((n1 - z) + n2) by lia. rewrite Z.pow_add_r by lia.
  unfold rng in *. split; [nia | lia].
Qed.
Lemma extract_above a h l : 0 <= a < 2 ^ l -> 0 <= l <= h -> Sem.extract a h l = 0.
Proof. intros Ha Hl. unfold Sem.extract. rewrite Z.div_small by lia. apply Z.mod_0_l. apply Z.pow_nonzero; lia. Qed.
Lemma ExtractMultLeadingBit_at c n a h l : eval e c = Some (bv n a) -> 0 <= l <= h -> h < n -> n < 2 ^ 31 ->
  sound_at ExtractMultLeadingBit (mkExtract c h l) (bv (h - l + 1) (Sem.extract a h l)).
Proof.
  intros Hc Hl Hh Hn. pose proof (e_extract e c h l n a Hc Hl Hh) as Hv.
  unfold BVRulesCorrect.sound_at, ExtractMultLeadingBit, mkExtract in *. cbn [applies apply isExtract getKind negb]. unfold getExtractLow. cbn [getKind]. steps.
  destruct (isKind BITVECTOR_MULT c) eqn:Hk; cbn [negb orb]; [| by exists false]. apply isKind_kind in Hk.
  destruct c as [| | |k ch]; try discriminate Hk. cbn in Hk. subst k. unfold getNumChildren. cbn [children].
  destruct ch as [|c0 [|c1 [|]]]; cbn [length Nat.eqb negb]; try (by exists false). steps.
  destruct (n <=? 64); [by exists false |]. destruct (mul_two_inv c0 c1 n a Hc) as (x & y & H0 & H1 & Hn' & ->).
  destruct (isKind BITVECTOR_CONCAT c0) eqn:K0; cbn [negb orb]; [| by exists false]. apply isKind_kind in K0.
  destruct (isKind BITVECTOR_CONCAT c1) eqn:K1; cbn [negb orb]; [| by exists false]. apply isKind_kind in K1.
  destruct c0 as [| | |k0 l0]; try discriminate K0. destruct c1 as [| | |k1 l1]; try discriminate K1. cbn in K0, K1. subst k0 k1.
  pose proof H0 as (L0 & ? & ? & C0 & _ & [= <- <-])%eval_concat_iff. pose proof H1 as (L1 & ? & ? & C1 & _ & [= <- <-])%eval_concat_iff.
  destruct l0 as [|d0 l0]; [cbn in L0; lia |]. destruct l1 as [|d1 l1]; [cbn in L1; lia |]. steps.
  destruct (isConst d0) eqn:D0; cbn [negb orb]; [| by exists false]. destruct (isConst d1) eqn:D1; cbn [negb orb]; [| by exists false].
  pose proof C0 as (m0 & x0 & ? & ? & E0%catv_one & _)%(catv_app e [d0]). pose proof C1 as (m1 & y0 & ? & ? & E1%catv_one & _)%(catv_app e [d1]).
  destruct (leading_zeros_ok d0 m0 x0 D0 E0) as (z0 & -> & Hz0 & Hlt0). destruct (leading_zeros_ok d1 m1 y0 D1 E1) as (z1 & -> & Hz1 & Hlt1). steps.
  destruct (leading_concat d0 l0 n x m0 x0 z0 C0 E0 Hz0 Hlt0) as [Hx Hm0]. destruct (leading_concat d1 l1 n y m1 y0 z1 C1 E1 Hz1 Hlt1) as [Hy Hm1].
  rewrite !(u32_small (z0 + z1)), !(u32_small (2 * n)), u32_small by lia.
  destruct (Z.ltb_spec l (2 * n - (z0 + z1))) as [Hlow|Hlow]; [by exists false |].
  exists true. split; [done |]. intros _. answer. pose proof (eval_bv_range e n x _ H0) as [_ Rx]. pose proof (eval_bv_range e n y _ H1) as [_ Ry].
  rewrite extract_above; [apply e_mk_small; [lia | apply zero_rng; lia] | | lia]. unfold Sem.mul, Sem.wrap.
  pose proof (mod_pow2_bound (x * y) n ltac:(lia)). split; [lia |]. apply Z.le_lt_trans with (x * y); [apply Z.mod_le; ranges |].
  apply Z.lt_le_trans with (2 ^ (n - z0) * 2 ^ (n - z1)); [unfold rng in *; nia |]. rewrite <- Z.pow_add_r by lia. apply pow2_le. lia.
Qed.
End sound.
