(* ===== verification/BVNormalize.v ===== *)
(** * Normalization rules of the theory of bit-vectors

    Models [src/theory/bv/theory_bv_rewrite_rules_normalization.h], but for [SolveEq].
    [std::map] is an association list kept in the order of its keys ([node_lt]);
    the order in which a [hash_map] is traversed is a parameter ([hash_order]).  The
    loops over a processing stack take the number of nodes of the term as fuel. *)

From S2P Require Import Prelude Integer BitVector Node BVRules BVSimplify.
Local Open Scope Z_scope.

(** [struct Count]: positive and negated occurrences. *)
Record Count : Set := MkCount { pos : Z; neg : Z }.
(** [std::map<Node, BitVector>], in the order of the keys. *)
Abbreviation coef_map := (list (Node * BitVector)).

Section normalization.
Context {G : Gmp} (node_lt : Node -> Node -> bool) (hash_order : list (Node * Count) -> list (Node * Count)).

(** ** Slices *)
Definition isBitwise (n : Node) : bool := isKind BITVECTOR_AND n || isKind BITVECTOR_OR n || isKind BITVECTOR_XOR n.
Definition isArith (n : Node) : bool := isKind BITVECTOR_PLUS n || isKind BITVECTOR_MULT n.

Definition ExtractBitwise : RewriteRule := MkRule
  (fun node => if negb (isExtract node) then Ok false else kind0 isBitwise node)
  (fun node =>
    high ← getExtractHigh node; low ← getExtractLow node;
    n0 ← child node 0;
    mkSortedNode node_lt (getKind n0) (map (fun c => mkExtract c high low) (children n0))).

Definition ExtractNot : RewriteRule := MkRule
  (fun node => if negb (isExtract node) then Ok false else kind0 (isKind BITVECTOR_NOT) node)
  (fun node =>
    low ← getExtractLow node; high ← getExtractHigh node;
    n0 ← child node 0; n00 ← child n0 0;
    Ok (MkNode BITVECTOR_NOT [mkExtract n00 high low])).

Definition isSignExtend (n : Node) : bool := match getKind n with BITVECTOR_SIGN_EXTEND _ => true | _ => false end.
Definition ExtractSignExtend : RewriteRule := MkRule
  (fun node => if negb (isExtract node) then Ok false else kind0 isSignExtend node)
  (fun node =>
    n0 ← child node 0; extendee ← child n0 0;
    extendee_size ← getSize extendee;
    high ← getExtractHigh node; low ← getExtractLow node;
    if high <? extendee_size then Ok (mkExtract extendee high low)
    else if (low <? extendee_size) && (extendee_size <=? high) then
      let low_extract := mkExtract extendee (u32 (extendee_size - 1)) low in
      let new_ammount := u32 (high - extendee_size + 1) in
      Ok (mkSignExtend low_extract new_ammount)
    else
      _ ← check AssertionFailed (extendee_size <=? low);
      let top := u32 (extendee_size - 1) in
      let most_significant_bit := mkExtract extendee top top in
      mkNodeV BITVECTOR_CONCAT (replicate (Z.to_nat (u32 (high - low + 1))) most_significant_bit)).

Definition ExtractArith : RewriteRule := MkRule
  (fun node =>
    if negb (isExtract node) then Ok false else
    low ← getExtractLow node;
    if negb (low =? 0) then Ok false else kind0 isArith node)
  (fun node =>
    low ← getExtractLow node;
    _ ← check AssertionFailed (low =? 0);
    high ← getExtractHigh node;
    n0 ← child node 0;
    mkNodeV (getKind n0) (map (fun c => mkExtract c high low) (children n0))).

Definition ExtractArith2 : RewriteRule := MkRule
  (fun node => if negb (isExtract node) then Ok false else kind0 isArith node)
  (fun node =>
    low ← getExtractLow node; high ← getExtractHigh node;
    n0 ← child node 0;
    op_children ← mkNodeV (getKind n0) (map (fun c => mkExtract c high 0) (children n0));
    Ok (mkExtract op_children high low)).

(** ** Flattening *)
Definition isAssocCommut (k : Kind) : bool :=
  match k with BITVECTOR_PLUS | BITVECTOR_MULT | BITVECTOR_OR | BITVECTOR_XOR | BITVECTOR_AND => true | _ => false end.
(** [processingStack], its top first: the last child is processed first. *)
Fixpoint flatten_ac (k : Kind) (fuel : nat) (stack children_ : list Node) : M (list Node) :=
  match stack with
  | [] => Ok children_
  | current :: stack =>
      match fuel with
      | O => Throw OutOfFuel
      | S fuel' =>
          if isKind k current then flatten_ac k fuel' (rev (children current) ++ stack) children_
          else flatten_ac k fuel' stack (children_ ++ [current])
      end
  end.
Definition FlattenAssocCommut : RewriteRule := MkRule
  (fun node =>
    if negb (isAssocCommut (getKind node)) then Ok false
    else Ok (existsb (isKind (getKind node)) (children node)))
  (fun node =>
    let kind := getKind node in
    ch ← flatten_ac kind (num_nodes node) [node] [];
    if isKind BITVECTOR_PLUS node || isKind BITVECTOR_MULT node then mkNodeV kind ch
    else mkSortedNode node_lt kind ch).

Fixpoint flatten_nodup (k : Kind) (fuel : nat) (stack processed children_ : list Node) : M (list Node) :=
  match stack with
  | [] => Ok children_
  | current :: stack =>
      match fuel with
      | O => Throw OutOfFuel
      | S fuel' =>
          if existsb (node_eqb current) processed then flatten_nodup k fuel' stack processed children_
          else if isKind k current then flatten_nodup k fuel' (rev (children current) ++ stack) (current :: processed) children_
          else flatten_nodup k fuel' stack (current :: processed) (children_ ++ [current])
      end
  end.
Definition FlattenAssocCommutNoDuplicates : RewriteRule := MkRule
  (fun node =>
    if negb (isKind BITVECTOR_OR node || isKind BITVECTOR_AND node) then Ok false
    else Ok (existsb (isKind (getKind node)) (children node)))
  (fun node =>
    let kind := getKind node in
    ch ← flatten_nodup kind (num_nodes node) [node] [] [];
    mkSortedNode node_lt kind ch).

(** ** Sums: terms and their coefficients *)

(** [map[term]] of a [std::map] in the order of the keys. *)
Fixpoint coef_insert (m : coef_map) (term : Node) (coef : BitVector) : coef_map :=
  match m with
  | [] => [(term, coef)]
  | (t, c) :: m' => if node_lt t term then (t, c) :: coef_insert m' term coef else (term, coef) :: m
  end.
Fixpoint coef_find (m : coef_map) (term : Node) : option BitVector :=
  match m with [] => None | (t, c) :: m' => if node_eqb t term then Some c else coef_find m' term end.
Fixpoint coef_set (m : coef_map) (term : Node) (coef : BitVector) : coef_map :=
  match m with
  | [] => []
  | (t, c) :: m' => if node_eqb t term then (t, coef) :: m' else (t, c) :: coef_set m' term coef
  end.
Definition addToCoefMap (m : coef_map) (term : Node) (coef : BitVector) : M coef_map :=
  match coef_find m term with
  | Some c => c' ← BV.add c coef; Ok (coef_set m term c')
  | None => Ok (coef_insert m term coef)
  end.

(** The coefficient and the term of a product: [c * term] with the constant last. *)
Definition split_mult (current : Node) (size : Z) : M (Node * BitVector) :=
  let ch := children current in
  if (length ch =? 2)%nat then
    c0 ← child current 0; c1 ← child current 1;
    _ ← check AssertionFailed (negb (isConst c0));
    if isConst c1 then coeff ← getConstBV c1; Ok (c0, coeff) else Ok (current, BV.mk size 1)
  else
    last ← child current (length ch - 1);
    if isConst last then
      _ ← check AssertionFailed (forallb (fun c => negb (isConst c)) (removelast ch));
      coeff ← getConstBV last;
      Ok (MkNode BITVECTOR_MULT (removelast ch), coeff)
    else Ok (current, BV.mk size 1).

Definition updateCoefMap (current : Node) (size : Z) (st : coef_map * BitVector) : M (coef_map * BitVector) :=
  let '(factorToCoefficient, constSum) := st in
  match getKind current with
  | BITVECTOR_MULT =>
      '(term, coeff) ← split_mult current size;
      if isKind BITVECTOR_SUB term then
        a ← child term 0; b ← child term 1;
        m ← addToCoefMap factorToCoefficient a coeff;
        ncoeff ← BV.neg coeff;
        m ← addToCoefMap m b ncoeff;
        Ok (m, constSum)
      else if isKind BITVECTOR_NEG term then
        t ← child term 0;
        ncoeff ← BV.neg (BV.resize size coeff);
        m ← addToCoefMap factorToCoefficient t ncoeff;
        Ok (m, constSum)
      else m ← addToCoefMap factorToCoefficient term coeff; Ok (m, constSum)
  | BITVECTOR_SUB =>
      _ ← check AssertionFailed (getNumChildren current =? 2)%nat;
      a ← child current 0;
      m ← addToCoefMap factorToCoefficient a (BV.mk size 1);
      b ← child current 1;
      ncoeff ← BV.neg (BV.mk size 1);
      m ← addToCoefMap m b ncoeff;
      Ok (m, constSum)
  | BITVECTOR_NEG =>
      t ← child current 0;
      ncoeff ← BV.neg (BV.mk size 1);
      m ← addToCoefMap factorToCoefficient t ncoeff;
      Ok (m, constSum)
  | CONST_BITVECTOR =>
      constValue ← getConstBV current;
      s ← BV.add constSum constValue;
      Ok (factorToCoefficient, s)
  | _ =>
      m ← addToCoefMap factorToCoefficient current (BV.mk size 1);
      Ok (m, constSum)
  end.

Definition addToChildren (term : Node) (size : Z) (coeff : BitVector) (children_ : list Node) : M (list Node) :=
  if BV.eqb coeff (BV.mk size 0) then Ok children_ else
  if BV.eqb coeff (BV.mk size 1) then Ok (children_ ++ [term]) else
  minus_one ← BV.neg (BV.mk size 1);
  if BV.eqb coeff minus_one then Ok (children_ ++ [MkNode BITVECTOR_NEG [term]]) else
  if isKind BITVECTOR_MULT term then Ok (children_ ++ [MkNode BITVECTOR_MULT (children term ++ [ConstBV coeff])])
  else Ok (children_ ++ [MkNode BITVECTOR_MULT [term; ConstBV coeff]]).

Definition collect (size : Z) (ch : list Node) : M (coef_map * BitVector) :=
  foldl (fun acc c => st ← acc; updateCoefMap c size st) (Ok ([], BV.mk size 0)) ch.
Definition build_children (size : Z) (m : coef_map) : M (list Node) :=
  foldl (fun acc '(t, c) => ch ← acc; addToChildren t size c ch) (Ok []) m.

Definition PlusCombineLikeTerms : RewriteRule := MkRule
  (fun node => Ok (isKind BITVECTOR_PLUS node))
  (fun node =>
    size ← getSize node;
    '(factorToCoefficient, constSum) ← collect size (children node);
    ch ← build_children size factorToCoefficient;
    let ch := if BV.neqb constSum (BV.mk size 0) then ch ++ [ConstBV constSum] else ch in
    match ch with
    | [] => Ok (mkConst size 0)
    | _ => mkNodeV BITVECTOR_PLUS ch
    end).

(** ** Products *)
(** Adjacent children out of order, or a constant before the last. *)
Fixpoint mult_unsorted (ch : list Node) : bool :=
  match ch with
  | a :: rest =>
      match rest with
      | b :: _ => isConst a || negb (node_lt a b) || mult_unsorted rest
      | [] => false
      end
  | [] => false
  end.
Definition MultSimplify : RewriteRule := MkRule
  (fun node =>
    if negb (isKind BITVECTOR_MULT node) then Ok false else
    if mult_unsorted (children node) then Ok true else
    last ← child node (getNumChildren node - 1);
    if isConst last then
      bv ← getConstBV last;
      size ← getSize node;
      Ok (BV.eqb bv (BV.mk size 0) || BV.eqb bv (BV.mk size 1))
    else Ok false)
  (fun node =>
    size ← getSize node;
    (** the loop; [None] when the constant became 0 *)
    r ← foldl (fun acc current =>
        st ← acc;
        match st with
        | None => Ok None
        | Some (constant, ch) =>
            if isKind CONST_BITVECTOR current then
              value ← getConstBV current;
              constant ← BV.mult constant value;
              if BV.eqb constant (BV.mk size 0) then Ok None else Ok (Some (constant, ch))
            else Ok (Some (constant, ch ++ [current]))
        end) (Ok (Some (BV.mk size 1, []))) (children node);
    match r with
    | None => Ok (mkConst size 0)
    | Some (constant, ch) =>
        let ch := sort_nodes node_lt ch in
        let ch := if BV.neqb constant (BV.mk size 1) then ch ++ [ConstBV constant] else ch in
        match ch with
        | [] => Ok (mkConst size 1)
        | _ => mkNodeV BITVECTOR_MULT ch
        end
    end).

Definition MultDistribConst : RewriteRule := MkRule
  (fun node =>
    if negb (isKind BITVECTOR_MULT node) || negb (getNumChildren node =? 2)%nat then Ok false else
    n0 ← child node 0; n1 ← child node 1;
    _ ← check AssertionFailed (negb (isConst n0));
    if negb (isConst n1) then Ok false else
    Ok (isKind BITVECTOR_PLUS n0 || isKind BITVECTOR_SUB n0 || isKind BITVECTOR_NEG n0))
  (fun node =>
    constant ← child node 1; factor ← child node 0;
    _ ← check AssertionFailed (isKind CONST_BITVECTOR constant);
    if isKind BITVECTOR_NEG factor then
      const_bv ← getConstBV constant;
      f0 ← child factor 0;
      nc ← BV.neg const_bv;
      Ok (MkNode BITVECTOR_MULT [f0; ConstBV nc])
    else mkNodeV (getKind factor) (map (fun c => MkNode BITVECTOR_MULT [c; constant]) (children factor))).

Definition isSum (n : Node) : bool := isKind BITVECTOR_PLUS n || isKind BITVECTOR_SUB n.
Definition MultDistrib : RewriteRule := MkRule
  (fun node =>
    if negb (isKind BITVECTOR_MULT node) || negb (getNumChildren node =? 2)%nat then Ok false else
    n0 ← child node 0; n1 ← child node 1;
    if isSum n0 then Ok (negb (isSum n1)) else Ok (isSum n1))
  (fun node =>
    n0 ← child node 0; n1 ← child node 1;
    let is_rhs_factor := isSum n0 in
    let factor := if negb is_rhs_factor then n0 else n1 in
    let sum := if is_rhs_factor then n0 else n1 in
    _ ← check AssertionFailed (negb (isSum factor) && isSum sum);
    mkNodeV (getKind sum) (map (fun c => MkNode BITVECTOR_MULT [c; factor]) (children sum))).

Definition ConcatToMult : RewriteRule := MkRule
  (fun node =>
    if negb (isKind BITVECTOR_CONCAT node) then Ok false else
    if negb (getNumChildren node =? 2)%nat then Ok false else
    extract ← child node 0;
    if negb (isExtract extract) then Ok false else
    c ← child node 1;
    if negb (isConst c) then Ok false else
    ammount ← getSize c;
    size ← getSize node;
    e0 ← child extract 0;
    esize ← getSize e0;
    if negb (size =? esize) then Ok false else
    if negb (node_eqb c (mkConst ammount 0)) then Ok false else
    low ← getExtractLow extract;
    if negb (low =? 0) then Ok false else
    high ← getExtractHigh extract;
    Ok (u32 (high + ammount + 1) =? size))
  (fun node =>
    size ← getSize node;
    n0 ← child node 0; factor ← child n0 0;
    fsize ← getSize factor;
    _ ← check AssertionFailed (fsize =? size);
    n1 ← child node 1;
    csize ← getSize n1;
    let ammount := BV.mk size csize in
    coef ← BV.leftShift (BV.mk size 1) ammount;
    Ok (MkNode BITVECTOR_MULT [factor; ConstBV coef])).

(** ** Negation *)
Definition NegMult : RewriteRule := MkRule
  (fun node =>
    if negb (isKind BITVECTOR_NEG node) then Ok false else
    n0 ← child node 0;
    if negb (isKind BITVECTOR_MULT n0) then Ok false else
    last ← child node (getNumChildren node - 1);
    Ok (isConst last))
  (fun node =>
    mult ← child node 0;
    last ← child mult (getNumChildren mult - 1);
    _ ← check AssertionFailed (isConst last);
    bv ← getConstBV last;
    nbv ← BV.neg bv;
    Ok (MkNode BITVECTOR_MULT (removelast (children mult) ++ [ConstBV nbv]))).

Definition NegSub : RewriteRule := MkRule
  (fun node => if negb (isKind BITVECTOR_NEG node) then Ok false else kind0 (isKind BITVECTOR_SUB) node)
  (fun node => n0 ← child node 0; a ← child n0 1; b ← child n0 0; Ok (MkNode BITVECTOR_SUB [a; b])).

Definition NegPlus : RewriteRule := MkRule
  (fun node => if negb (isKind BITVECTOR_NEG node) then Ok false else kind0 (isKind BITVECTOR_PLUS) node)
  (fun node =>
    n0 ← child node 0;
    mkNodeV BITVECTOR_PLUS (map (fun c => MkNode BITVECTOR_NEG [c]) (children n0))).

(** ** Bitwise operators: occurrences of terms and of their negations *)
Fixpoint count_insert (m : list (Node * Count)) (node : Node) (negated : bool) : list (Node * Count) :=
  match m with
  | [] => [(node, if negated then MkCount 0 1 else MkCount 1 0)]
  | (t, c) :: m' =>
      if node_eqb t node then
        (t, if negated then MkCount (pos c) (u32 (neg c + 1)) else MkCount (u32 (pos c + 1)) (neg c)) :: m'
      else (t, c) :: count_insert m' node negated
  end.
(** [insert(subterms, current[0], true)] or [insert(subterms, current, false)] *)
Definition count_child (m : list (Node * Count)) (current : Node) : M (list (Node * Count)) :=
  if isKind BITVECTOR_NOT current then c0 ← child current 0; Ok (count_insert m c0 true)
  else Ok (count_insert m current false).
(** The first loop of the three rules. *)
Definition collect_counts (op : BitVector -> BitVector -> M BitVector) (start : BitVector) (ch : list Node) : M (list (Node * Count) * BitVector) :=
  foldl (fun acc current =>
    '(m, constant) ← acc;
    if isKind CONST_BITVECTOR current then
      bv ← getConstBV current; constant ← op constant bv; Ok (m, constant)
    else m ← count_child m current; Ok (m, constant)) (Ok ([], start)) ch.

(** The second loop of [AndSimplify] and [OrSimplify]; [None] for a term that occurs
    both ways. *)
Fixpoint idempotent_children (m : list (Node * Count)) : option (list Node) :=
  match m with
  | [] => Some []
  | (t, c) :: m' =>
      if (0 <? pos c) && (0 <? neg c) then None
      else
        rest ← idempotent_children m';
        Some ((if 0 <? neg c then MkNode BITVECTOR_NOT [t] else t) :: rest)
  end.

Definition AndSimplify : RewriteRule := MkRule
  (fun node => Ok (isKind BITVECTOR_AND node))
  (fun node =>
    size ← getSize node;
    ones ← mkBitVectorOnes size;
    '(subterms, constant) ← collect_counts BV.and ones (children node);
    if BV.eqb constant (BV.mk size 0) then Ok (mkConst size 0) else
    ones ← mkBitVectorOnes size;
    let ch := if BV.neqb constant ones then [ConstBV constant] else [] in
    match idempotent_children (hash_order subterms) with
    | None => Ok (mkConst size 0)
    | Some rest =>
        match ch ++ rest with
        | [] => mkOnes size
        | ch => mkSortedNode node_lt BITVECTOR_AND ch
        end
    end).

Definition OrSimplify : RewriteRule := MkRule
  (fun node => Ok (isKind BITVECTOR_OR node))
  (fun node =>
    size ← getSize node;
    '(subterms, constant) ← collect_counts BV.or (BV.mk size 0) (children node);
    ones ← mkBitVectorOnes size;
    if BV.eqb constant ones then mkOnes size else
    let ch := if BV.neqb constant (BV.mk size 0) then [ConstBV constant] else [] in
    match idempotent_children (hash_order subterms) with
    | None => mkOnes size
    | Some rest =>
        match ch ++ rest with
        | [] => Ok (mkConst size 0)
        | ch => mkSortedNode node_lt BITVECTOR_OR ch
        end
    end).

(** [constant] and [const_set] of [XorSimplify]. *)
Definition collect_xor (ch : list Node) : M (list (Node * Count) * option BitVector) :=
  foldl (fun acc current =>
    '(m, constant) ← acc;
    if isKind CONST_BITVECTOR current then
      bv ← getConstBV current;
      match constant with
      | Some c => c ← BV.xor c bv; Ok (m, Some c)
      | None => Ok (m, Some bv)
      end
    else m ← count_child m current; Ok (m, constant)) (Ok ([], None)) ch.
(** The second loop: what is left of each term, [true_count], [seen_false]. *)
Definition xor_children (m : list (Node * Count)) : list Node * Z * bool :=
  foldl (fun '(ch, true_count, seen_false) '(t, c) =>
    let seen_false := if seen_false : bool then seen_false else (1 <? pos c) || (1 <? neg c) in
    if Z.odd (pos c) && Z.odd (neg c) then (ch, u32 (true_count + 1), seen_false)
    else if Z.odd (pos c) then (ch ++ [t], true_count, seen_false)
    else if Z.odd (neg c) then (ch ++ [MkNode BITVECTOR_NOT [t]], true_count, seen_false)
    else (ch, true_count, seen_false)) ([], 0, false) m.

Definition XorSimplify : RewriteRule := MkRule
  (fun node => Ok (isKind BITVECTOR_XOR node))
  (fun node =>
    size ← getSize node;
    '(subterms, constant) ← collect_xor (children node);
    let '(ch, true_count, seen_false) := xor_children (hash_order subterms) in
    true_bv ← mkBitVectorOnes size;
    let false_bv := BV.mk size 0 in
    let xorConst :=
      (if negb (true_count =? 0) then [if Z.odd true_count then true_bv else false_bv] else []) ++
      (if seen_false : bool then [false_bv] else []) ++
      (match constant with Some c => [c] | None => [] end) in
    ch ← match xorConst with
         | [] => Ok ch
         | c :: cs => result ← foldl (fun acc x => r ← acc; BV.xor r x) (Ok c) cs; Ok (ch ++ [ConstBV result])
         end;
    _ ← check AssertionFailed (negb (length ch =? 0)%nat);
    mkSortedNode node_lt BITVECTOR_XOR ch).

(** ** Bitwise operators with a constant, cut where the constant changes *)
Fixpoint first_const (ch : list Node) : option Node :=
  match ch with [] => None | c :: ch' => if isKind CONST_BITVECTOR c then Some c else first_const ch' end.
Fixpoint drop_first_const (ch : list Node) : list Node :=
  match ch with [] => [] | c :: ch' => if isKind CONST_BITVECTOR c then ch' else c :: drop_first_const ch' end.

Definition bitsets (v : BitVector) : M (list bool) := mapM (fun i => BV.isBitSet v (Z.of_nat i)) (seq 0 (Z.to_nat (d_size v))).

(** The loop of [apply]: [i] from [end - 1] down to 0, with [start] and [end]. *)
Fixpoint slicing_loop (k : Kind) (constant other : Node) (bv : BitVector) (i : nat) (start end_ : Z) (acc : list Node) : M (list Node) :=
  let slice hi lo := MkNode k [mkExtract constant (u32 hi) (u32 lo); mkExtract other (u32 hi) (u32 lo)] in
  match i with
  | O => Ok acc
  | S i' =>
      let z := Z.of_nat i' in
      b1 ← BV.isBitSet bv (z + 1); b0 ← BV.isBitSet bv z;
      let '(start, end_, acc) :=
        if negb (Bool.eqb b1 b0) then (z, z, acc ++ [slice end_ start]) else (start - 1, end_, acc) in
      let acc := if (i' =? 0)%nat then acc ++ [slice end_ 0] else acc in
      slicing_loop k constant other bv i' start end_ acc
  end.

Definition BitwiseSlicing : RewriteRule := MkRule
  (fun node =>
    if negb (isBitwise node) then Ok false else
    size ← getSize node;
    if size =? 1 then Ok false else
    match first_const (children node) with
    | None => Ok false
    | Some c =>
        constant ← getConstBV c;
        if BV.eqb constant (BV.mk size 0) then Ok false else
        bits ← bitsets constant;
        Ok (negb (forallb id bits))
    end)
  (fun node =>
    match first_const (children node) with
    | None => Throw AssertionFailed
    | Some constant =>
        let other_children := drop_first_const (children node) in
        other ← mkNodeV (getKind node) other_children;
        bv_constant ← getConstBV constant;
        let start := i32 (u32 (d_size bv_constant - 1)) in
        concat_children ← slicing_loop (getKind node) constant other bv_constant (Z.to_nat start) start start [];
        mkNodeV BITVECTOR_CONCAT concat_children
    end).

(** ** Equality of a one-bit bitwise term with a constant *)
Definition bit_term_kind (k : Kind) : bool :=
  match k with
  | BITVECTOR_AND | BITVECTOR_OR | BITVECTOR_NOT | BITVECTOR_NAND | BITVECTOR_NOR | BITVECTOR_COMP | BITVECTOR_NEG => true
  | _ => false
  end.
(** The constant and the other side. *)
Definition const_side (node : Node) : M (option (BitVector * Node)) :=
  n0 ← child node 0; n1 ← child node 1;
  if isKind CONST_BITVECTOR n0 then c ← getConstBV n0; Ok (Some (c, n1))
  else if isKind CONST_BITVECTOR n1 then c ← getConstBV n1; Ok (Some (c, n0))
  else Ok None.
Definition mkNodeKind (k : Kind) (node c : Node) : Node := MkNode k (map (fun x => eqNode x c) (children node)).

Definition BitwiseEq : RewriteRule := MkRule
  (fun node =>
    if negb (isKind EQUAL node) then Ok false else
    n0 ← child node 0; size ← getSize n0;
    if negb (size =? 1) then Ok false else
    s ← const_side node;
    match s with None => Ok false | Some (_, term) => Ok (bit_term_kind (getKind term)) end)
  (fun node =>
    s ← const_side node;
    match s with
    | None => Throw UnreachableCode
    | Some (c, term) =>
        let eqOne := BV.eqb c (BV.mk 1 1) in
        match getKind term with
        | BITVECTOR_AND => Ok (if eqOne then mkNodeKind AND term (mkConst 1 1) else mkNodeKind OR term (mkConst 1 0))
        | BITVECTOR_NAND => Ok (if eqOne then mkNodeKind OR term (mkConst 1 0) else mkNodeKind AND term (mkConst 1 1))
        | BITVECTOR_OR => Ok (if eqOne then mkNodeKind OR term (mkConst 1 1) else mkNodeKind AND term (mkConst 1 0))
        | BITVECTOR_NOR => Ok (if eqOne then mkNodeKind AND term (mkConst 1 0) else mkNodeKind OR term (mkConst 1 1))
        | BITVECTOR_NOT => t ← child term 0; Ok (eqNode t (ConstBV (BV.not c)))
        | BITVECTOR_COMP =>
            _ ← check AssertionFailed (getNumChildren term =? 2)%nat;
            a ← child term 0; b ← child term 1;
            Ok (if eqOne then eqNode a b else notNode (eqNode a b))
        | BITVECTOR_NEG => t ← child term 0; Ok (eqNode t (ConstBV c))
        | _ => Throw UnreachableCode
        end
    end).
End normalization.
