(* ===== verification/BVNormalizeCorrect.v ===== *)
(** * The normalization rules preserve meaning

    Slices pushed through operators, flattening, sums as linear combinations and
    products.  A rule that reads [c * t] off a product expects the constant last, as
    [MultSimplify] leaves it ([mult_ready]). *)

From S2P Require Import Prelude Integer BitVector Node BitblastUtils BitblastStrategies BitblastCorrect BVRules BVRulesCorrect BVEvalCorrect BVCoreCorrect NaryOps BVSimplify BVSimplifyCorrect BVNormalize.
Local Open Scope Z_scope.

Section sound.
Context {G : Gmp} {HG : GmpSpec G}.
Variable e : env.
Abbreviation Sound := (BVRulesCorrect.Sound e).
Abbreviation sound_at := (BVRulesCorrect.sound_at e).

Ltac steps :=
  repeat first [rewrite child0 | rewrite child1 | rewrite child2 | rewrite M_bind_Ok | rewrite isKind_refl | progress (cbn [negb])
    | match goal with H : eval _ ?c = Some (bv ?n ?a) |- context [getSize ?c] => rewrite (getSize_bv e c n a H) end].
Ltac ranges := unfold rng in *; intuition lia.
Ltac answer := eexists; split; [reflexivity |].

(** ** Slices of operators *)
Section hom.
Context (k : Kind) (f : Z -> Z -> Z -> Z) (u : Z -> Z) {AC : ACKind k f u} (h l : Z).
Hypothesis Hhl : 0 <= l <= h.
Hypothesis Hf : forall n a b, h < n -> rng n a -> rng n b -> f (h - l + 1) (Sem.extract a h l) (Sem.extract b h l) = Sem.extract (f n a b) h l.
Hypothesis Hu : forall n, h < n -> Sem.extract (u n) h l = u (h - l + 1).

Lemma opv_extract ch n z : h < n -> opv f u e ch n z -> opv f u e (map (fun c => mkExtract c h l) ch) (h - l + 1) (Sem.extract z h l).
Proof.
  intros Hn. revert z. induction ch as [|c ch IH]; intros z H; cbn [map].
  - apply opv_nil_inv in H as ->. rewrite Hu by done. apply opv_nil.
  - apply (opv_cons_inv k f u) in H as (x & y & Hx & Hy & ->); [| lia].
    rewrite <- Hf by (done || (by apply eval_bv_range in Hx as [_ ?]) || (apply (opv_rng k f u) in Hy; done || lia)).
    apply (opv_cons k f u); [lia | by eapply e_extract | by apply IH].
Qed.
End hom.

Lemma testbit_extract a h l i : 0 <= l <= h -> 0 <= i -> Z.testbit (Sem.extract a h l) i = (i <? h - l + 1) && Z.testbit a (i + l).
Proof. intros. unfold Sem.extract. by rewrite testbit_mod_pow2, Z.div_pow2_bits by lia. Qed.
Ltac by_bits := apply Z.bits_inj'; intros ?i ?Hi; rewrite ?Z.land_spec, ?Z.lor_spec, ?Z.lxor_spec, !testbit_extract, ?Z.land_spec, ?Z.lor_spec, ?Z.lxor_spec by done.

Lemma extract_land a b h l : 0 <= l <= h -> Z.land (Sem.extract a h l) (Sem.extract b h l) = Sem.extract (Z.land a b) h l.
Proof. intros. by_bits. by destruct (_ <? _). Qed.
Lemma extract_lor a b h l : 0 <= l <= h -> Z.lor (Sem.extract a h l) (Sem.extract b h l) = Sem.extract (Z.lor a b) h l.
Proof. intros. by_bits. by destruct (_ <? _). Qed.
Lemma extract_lxor a b h l : 0 <= l <= h -> Z.lxor (Sem.extract a h l) (Sem.extract b h l) = Sem.extract (Z.lxor a b) h l.
Proof. intros. by_bits. by destruct (_ <? _). Qed.
Lemma extract_0 h l : Sem.extract 0 h l = 0.
Proof.
  unfold Sem.extract. destruct (Z.eq_dec (2 ^ l) 0) as [->|]; [rewrite Zdiv_0_r | rewrite Z.div_0_l by done]; apply Zmod_0_l.
Qed.
Lemma extract_ones n h l : 0 <= l <= h -> h < n -> Sem.extract (2 ^ n - 1) h l = 2 ^ (h - l + 1) - 1.
Proof.
  intros Hl Hn. replace (2 ^ n - 1) with (Z.ones n) by (rewrite Z.ones_equiv; lia). replace (2 ^ (h - l + 1) - 1) with (Z.ones (h - l + 1)) by (rewrite Z.ones_equiv; lia).
  apply Z.bits_inj'. intros i Hi. rewrite testbit_extract by done. destruct (Z.ltb_spec i (h - l + 1)).
  - by rewrite !Z.ones_spec_low by lia.
  - cbn [andb]. by rewrite Z.ones_spec_high by lia.
Qed.
Lemma extract_bnot n a h l : 0 <= l <= h -> h < n -> rng n a -> Sem.extract (Sem.bnot n a) h l = Sem.bnot (h - l + 1) (Sem.extract a h l).
Proof.
  intros Hl Hn Ha. rewrite !bnot_lxor_ones by (done || lia || by apply rng_extract). rewrite <- extract_lxor by done.
  by rewrite extract_ones by done.
Qed.
Lemma extract_mod_op n z h : 0 <= h < n -> Sem.extract (z mod 2 ^ n) h 0 = z mod 2 ^ (h + 1).
Proof.
  intros Hh. rewrite extract_to_0 by lia. apply Z.bits_inj'. intros i Hi. rewrite !testbit_mod_pow2 by lia.
  destruct (Z.ltb_spec i (h + 1)), (Z.ltb_spec i n); try done; lia.
Qed.

Lemma ExtractBitwise_sound node_lt : Sound (ExtractBitwise node_lt).
Proof.
  apply sound_extract. { intros n E. unfold ExtractBitwise. cbn [applies]. by rewrite E. }
  intros c n a h l Hc Hn Ha Hl Hh. unfold BVRulesCorrect.sound_at, ExtractBitwise, kind0, mkExtract. cbn [applies apply isExtract getKind negb]. steps. answer.
  intros Hk. unfold getExtractHigh, getExtractLow. cbn [getKind]. steps. unfold isBitwise in Hk. rewrite !orb_true_iff in Hk.
  assert (forall k f u, ACKind k f u -> isKind k c = true -> (k = BITVECTOR_AND \/ k = BITVECTOR_OR \/ k = BITVECTOR_XOR) ->
    (forall n a b, h < n -> rng n a -> rng n b -> f (h - l + 1) (Sem.extract a h l) (Sem.extract b h l) = Sem.extract (f n a b) h l) ->
    (forall n, h < n -> Sem.extract (u n) h l = u (h - l + 1)) -> k <> VARIABLE ->
    exists r, mkSortedNode node_lt (getKind c) (map (fun c => MkNode (BITVECTOR_EXTRACT h l) [c]) (children c)) = Ok r /\
      eval e r = Some (bv (h - l + 1) (Sem.extract a h l))) as Hgo.
  { intros k f u AC E K Hf Hu K1. apply isKind_kind in E. destruct c as [| | |k' ch]; cbn in E; try (intuition congruence). subst k'. cbn [getKind children].
    apply (eval_nary_iff k f u) in Hc as (Hlen & m & z & Hm & Ho & [= <- <-]).
    apply (mkSortedNode_ok e k f u); [done | lia | by apply (opv_extract k f u h l Hl Hf Hu ch n) |]. destruct ch; [cbn in Hlen; lia | done]. }
  destruct Hk as [[Hk|Hk]|Hk]; [eapply (Hgo _ _ _ AND_AC Hk) | eapply (Hgo _ _ _ OR_AC Hk) | eapply (Hgo _ _ _ XOR_AC Hk)]; try done; try tauto.
  all: intros; first [by apply extract_land | by apply extract_ones | by apply extract_lor | by apply extract_lxor | apply extract_0].
Qed.
Lemma ExtractNot_sound : Sound ExtractNot.
Proof.
  apply sound_extract. { intros n E. unfold ExtractNot. cbn [applies]. by rewrite E. }
  intros c n a h l Hc Hn Ha Hl Hh. unfold BVRulesCorrect.sound_at, ExtractNot, kind0, mkExtract. cbn [applies apply isExtract getKind negb]. steps. answer.
  intros Hk%isKind_kind. destruct c as [| | |k ch]; try discriminate Hk. cbn in Hk. subst k.
  destruct (eval_unary_inv e BITVECTOR_NOT Sem.bnot ch _ ltac:(done) Hc) as (m & x & d & [= <- ->] & -> & Hd & _ & Hx).
  unfold getExtractHigh, getExtractLow. cbn [getKind]. steps. answer. rewrite extract_bnot by (done || lia). apply e_bnot. by eapply e_extract.
Qed.

Lemma testbit_sext n a k i : 1 <= n -> 0 <= k -> rng n a -> 0 <= i ->
  Z.testbit (Sem.sext n a k) i = (i <? n + k) && Z.testbit a (Z.min i (n - 1)).
Proof.
  intros Hn Hk Ha Hi. unfold Sem.sext, Sem.wrap. rewrite testbit_mod_pow2, testbit_signed by (done || lia).
  destruct (Z.ltb_spec i n); [rewrite Z.min_l by lia | rewrite Z.min_r by lia]; done.
Qed.
Lemma replicate_bit_ok c (b : bool) k : eval e c = Some (bv 1 (Z.b2z b)) -> 1 <= k < 2 ^ 32 ->
  exists r, mkNodeV BITVECTOR_CONCAT (replicate (Z.to_nat k) c) = Ok r /\ eval e r = Some (bv k (Z.b2z b * (2 ^ k - 1))).
Proof.
  intros Hc Hk. destruct (Z.eq_dec k 1) as [->|Hk1].
  - exists c. split; [done |]. rewrite Hc. do 2 f_equal. lia.
  - destruct (Z.to_nat k) as [|[|m]] eqn:E; try lia. answer. change (c :: c :: replicate m c) with (replicate (S (S m)) c).
    rewrite (eval_repeat e c (MkBitVector 1 (Z.b2z b))); rewrite ?concat_replicate_bit, <- ?E; cbn [fst snd]; rewrite ?Z2Nat.id by lia; done || lia.
Qed.
Lemma extract_sext_low n a i h l : 1 <= n -> 0 <= i -> rng n a -> 0 <= l <= h -> h < n ->
  Sem.extract (Sem.sext n a i) h l = Sem.extract a h l.
Proof.
  intros. apply Z.bits_inj'. intros j Hj. rewrite !testbit_extract, testbit_sext by (done || lia).
  destruct (Z.ltb_spec j (h - l + 1)); [| done]. cbn [andb]. rewrite (proj2 (Z.ltb_lt _ _)), Z.min_l by lia. done.
Qed.
Lemma extract_sext_mid n a i h l : 1 <= n -> 0 <= i -> rng n a -> 0 <= l < n -> n <= h < n + i ->
  Sem.extract (Sem.sext n a i) h l = Sem.sext (n - 1 - l + 1) (Sem.extract a (n - 1) l) (h - n + 1).
Proof.
  intros. apply Z.bits_inj'. intros j Hj. pose proof (rng_extract a (n - 1) l ltac:(lia)).
  rewrite testbit_extract by lia. rewrite !testbit_sext by (done || lia). rewrite testbit_extract by lia.
  replace (n - 1 - l + 1 + (h - n + 1)) with (h - l + 1) by lia. destruct (Z.ltb_spec j (h - l + 1)); [| done]. cbn [andb].
  rewrite (proj2 (Z.ltb_lt (j + l) (n + i))), (proj2 (Z.ltb_lt (Z.min j _) _)) by lia. cbn [andb]. f_equal. lia.
Qed.
Lemma extract_sext_high n a i h l : 1 <= n -> 0 <= i -> rng n a -> n <= l <= h -> h < n + i ->
  Sem.extract (Sem.sext n a i) h l = Z.b2z (Z.testbit a (n - 1)) * (2 ^ (h - l + 1) - 1).
Proof.
  intros. apply Z.bits_inj'. intros j Hj. rewrite testbit_extract, testbit_sext by (done || lia). rewrite Z.min_r by lia.
  destruct (Z.testbit a (n - 1)); cbn [Z.b2z]; [rewrite Z.mul_1_l | rewrite Z.mul_0_l, Z.bits_0; by rewrite !andb_false_r].
  replace (2 ^ (h - l + 1) - 1) with (Z.ones (h - l + 1)) by (rewrite Z.ones_equiv; lia). destruct (Z.ltb_spec j (h - l + 1)).
  - rewrite (proj2 (Z.ltb_lt _ _)), Z.ones_spec_low by lia. done.
  - cbn [andb]. by rewrite Z.ones_spec_high by lia.
Qed.
Lemma ExtractSignExtend_sound : Sound ExtractSignExtend.
Proof.
  apply sound_extract. { intros n E. unfold ExtractSignExtend. cbn [applies]. by rewrite E. }
  intros c n a h l Hc Hn Ha Hl Hh. unfold BVRulesCorrect.sound_at, ExtractSignExtend, kind0, mkExtract. cbn [applies apply isExtract getKind negb]. steps. answer.
  intros Hk. destruct c as [| | |k ch]; try discriminate Hk. destruct k; try discriminate Hk.
  apply sext_inv in Hc as (d & m & x & -> & Hd & Hm & Hx & Hi & Hmi & [= -> ->]). steps.
  unfold getExtractHigh, getExtractLow. cbn [getKind]. steps.
  destruct (Z.ltb_spec h m) as [Hhm|Hhm].
  - answer. rewrite extract_sext_low by (done || lia). by eapply e_extract.
  - destruct (Z.ltb_spec l m) as [Hlm|Hlm]; cbn [andb].
    + rewrite (proj2 (Z.leb_le m h)) by lia. answer. rewrite !u32_small by lia. rewrite extract_sext_mid by (done || lia). unfold mkSignExtend.
      etrans; [apply e_sext; [eapply e_extract; [exact Hd | lia | lia] | lia | lia] |]. do 2 f_equal. lia.
    + rewrite (proj2 (Z.leb_le m l)) by lia. cbn [check]. rewrite M_bind_Ok, (u32_small (h - l + 1)) by lia.
      rewrite extract_sext_high by (done || lia). apply replicate_bit_ok; [| lia]. by apply e_sign.
Qed.

(** Sums and products of the low bits. *)
Section arith.
Context (k : Kind) (f : Z -> Z -> Z -> Z) (u : Z -> Z) {AC : ACKind k f u} (op : Z -> Z -> Z).
Hypothesis Hop : forall n a b, f n a b = Sem.wrap n (op a b).
Hypothesis Hmod : forall a b m, 0 < m -> op (a mod m) (b mod m) mod m = op a b mod m.
Hypothesis Hu0 : forall n h, 0 <= h < n -> u n mod 2 ^ (h + 1) = u (h + 1).

Lemma opv_low ch n z h : 0 <= h < n -> opv f u e ch n z -> opv f u e (map (fun c => mkExtract c h 0) ch) (h + 1) (z mod 2 ^ (h + 1)).
Proof.
  intros Hh H. replace (h + 1) with (h - 0 + 1) at 1 by lia. replace (z mod 2 ^ (h + 1)) with (Sem.extract z h 0) by (apply extract_to_0; lia).
  apply (opv_extract k f u h 0 ltac:(lia)) with n; [| | lia | done].
  - intros m a b Hm Ha Hb. rewrite !Hop. unfold Sem.wrap. rewrite extract_mod_op, !extract_to_0 by lia. replace (h - 0 + 1) with (h + 1) by lia.
    apply Hmod. apply pow2_gt0. lia.
  - intros m Hm. rewrite extract_to_0 by lia. rewrite Hu0 by lia. f_equal. lia.
Qed.
Lemma arith_low_ok ch n z h : 0 <= h < n -> n < 2 ^ 32 -> eval e (MkNode k ch) = Some (bv n z) ->
  exists r, mkNodeV k (map (fun c => mkExtract c h 0) ch) = Ok r /\ eval e r = Some (bv (h + 1) (Sem.extract z h 0)).
Proof.
  intros Hh Hn (Hl & m & y & Hm & Ho & [= <- <-])%(eval_nary_iff k f u). rewrite extract_to_0 by lia.
  apply (mkNodeV_ok e k f u); [lia | by apply (opv_low ch n) |]. destruct ch; [cbn in Hl; lia | done].
Qed.
End arith.
Lemma arith_children_low c n a h : isArith c = true -> eval e c = Some (bv n a) -> 0 <= h < n ->
  exists r, mkNodeV (getKind c) (map (fun c => mkExtract c h 0) (children c)) = Ok r /\ eval e r = Some (bv (h + 1) (Sem.extract a h 0)).
Proof.
  intros Hk Hc Hh. pose proof (eval_bv_range e n a c Hc) as [Hn _]. unfold isArith in Hk. apply orb_true_iff in Hk as [Hk%isKind_kind|Hk%isKind_kind];
    destruct c as [| | |k ch]; try discriminate Hk; cbn in Hk; subst k; cbn [getKind children].
  - apply (arith_low_ok BITVECTOR_PLUS Sem.add (fun _ => 0) Z.add) with n; [done | | | done | lia | done].
    + intros. symmetry. by apply Zplus_mod.
    + intros. apply Z.mod_0_l. apply Z.pow_nonzero; lia.
  - apply (arith_low_ok BITVECTOR_MULT Sem.mul (fun _ => 1) Z.mul) with n; [done | | | done | lia | done].
    + intros. symmetry. by apply Zmult_mod.
    + intros m j Hj. apply Z.mod_small. split; [done |]. rewrite Z.pow_add_r by lia. pose proof (pow2_gt0 j ltac:(lia)). lia.
Qed.
Lemma ExtractArith_sound : Sound ExtractArith.
Proof.
  apply sound_extract. { intros n E. unfold ExtractArith. cbn [applies]. by rewrite E. }
  intros c n a h l Hc Hn Ha Hl Hh. unfold BVRulesCorrect.sound_at, ExtractArith, kind0, mkExtract. cbn [applies apply isExtract getKind negb].
  unfold getExtractHigh, getExtractLow. cbn [getKind]. steps. destruct (Z.eqb_spec l 0) as [->|]; cbn [negb]; [| by exists false]. steps. answer. intros Hk.
  cbn [check]. steps. destruct (arith_children_low c n a h Hk Hc ltac:(lia)) as (r & Er & Hr). exists r. split; [done |]. by replace (h - 0 + 1) with (h + 1) by lia.
Qed.
Lemma ExtractArith2_sound : Sound ExtractArith2.
Proof.
  apply sound_extract. { intros n E. unfold ExtractArith2. cbn [applies]. by rewrite E. }
  intros c n a h l Hc Hn Ha Hl Hh. unfold BVRulesCorrect.sound_at, ExtractArith2, kind0, mkExtract. cbn [applies apply isExtract getKind negb].
  unfold getExtractHigh, getExtractLow. cbn [getKind]. steps. answer. intros Hk.
  destruct (arith_children_low c n a h Hk Hc ltac:(lia)) as (r & Er & Hr). unfold mkExtract in Er. rewrite Er. steps. answer.
  etrans; [eapply e_extract; [exact Hr | lia | lia] |]. rewrite extract_extract by lia. do 2 f_equal. f_equal; lia.
Qed.

(** ** Flattening *)
Lemma nodes_app l l' : nodes (l ++ l') = (nodes l + nodes l')%nat.
Proof. apply sum_list_with_app. Qed.
Lemma nodes_perm l l' : l ≡ₚ l' -> nodes l = nodes l'.
Proof. intros H. unfold nodes. by rewrite H. Qed.
Lemma nodes_children k c : isKind k c = true -> k <> VARIABLE -> k <> CONST_BOOLEAN -> k <> CONST_BITVECTOR ->
  c = MkNode k (children c) /\ num_nodes c = S (nodes (children c)).
Proof. intros Hk%isKind_kind K1 K2 K3. destruct c as [| | |k' ch]; cbn in *; try congruence. by subst. Qed.

Section flatten.
Context (k : Kind) (f : Z -> Z -> Z -> Z) (u : Z -> Z) {AC : ACKind k f u}.

Lemma ac_operator : k <> VARIABLE /\ k <> CONST_BOOLEAN /\ k <> CONST_BITVECTOR.
Proof. pose proof (ac_arity (k := k)) as H. repeat split; intros ->; discriminate H. Qed.

(** The loop returns, with the value of what was on the stack and in the result. *)
Lemma flatten_ac_ok fuel stack ch n z : 1 <= n -> (nodes stack <= fuel)%nat -> opv f u e (ch ++ stack) n z ->
  exists r, flatten_ac k fuel stack ch = Ok r /\ opv f u e r n z /\ (length ch + length stack <= length r)%nat.
Proof.
  intros Hn. revert stack ch. induction fuel as [|fuel IH]; intros [|c stack] ch Hf Ho; cbn [flatten_ac].
  1, 3: exists ch; rewrite app_nil_r in Ho; split; [done | split; [done | cbn; lia]].
  { cbn in Hf. pose proof (num_nodes_pos c). lia. }
  destruct ac_operator as (K1 & K2 & K3). change (nodes (c :: stack)) with (num_nodes c + nodes stack)%nat in Hf. pose proof (num_nodes_pos c). destruct (isKind k c) eqn:E.
  - destruct (nodes_children k c E K1 K2 K3) as [Ec Enodes].
    apply (opv_app_inv k f u) in Ho as (x & y & Hx & Hy & ->); [| done].
    apply (opv_cons_inv k f u) in Hy as (a & b & Ha & Hb & ->); [| done].
    rewrite Ec in Ha. apply (eval_nary_iff k f u) in Ha as (Hl & m & a' & Hm & Ha & [= -> ->]).
    destruct (IH (rev (children c) ++ stack) ch) as (r & Hr & Hor & Hlr).
    + rewrite nodes_app, (nodes_perm (rev (children c)) (children c)) by (symmetry; apply Permutation_rev). lia.
    + apply (opv_app k f u); [done | done |]. apply (opv_app k f u); [done | | done].
      eapply (opv_perm k f u); [done | apply Permutation_rev | done].
    + exists r. split; [done |]. split; [done |]. rewrite length_app, length_rev in Hlr. cbn [length]. lia.
  - destruct (IH stack (ch ++ [c])) as (r & Hr & Hor & Hlr); [lia | by rewrite <- app_assoc |].
    exists r. split; [done |]. split; [done |]. rewrite length_app in Hlr. cbn [length] in *. lia.
Qed.
Lemma flatten_root_ok ch n z : (2 <= length ch)%nat -> 1 <= n -> opv f u e ch n z ->
  exists r, flatten_ac k (num_nodes (MkNode k ch)) [MkNode k ch] [] = Ok r /\ opv f u e r n z /\ (length ch <= length r)%nat.
Proof.
  intros Hl Hn Ho. cbn [num_nodes flatten_ac]. rewrite isKind_refl. cbn [children]. rewrite app_nil_r. fold (nodes ch).
  destruct (flatten_ac_ok (nodes ch) (rev ch) [] n z Hn) as (r & -> & Hr & Hlr).
  - rewrite (nodes_perm (rev ch) ch) by (symmetry; apply Permutation_rev). lia.
  - eapply (opv_perm k f u); [done | apply Permutation_rev | done].
  - rewrite length_rev in Hlr. eauto.
Qed.
End flatten.

Lemma FlattenAssocCommut_sound node_lt : Sound (FlattenAssocCommut node_lt).
Proof.
  apply Sound_iff. intros m v Hv. unfold BVRulesCorrect.sound_at, FlattenAssocCommut. cbn [applies apply].
  destruct (isAssocCommut (getKind m)) eqn:Hk; cbn [negb]; [| by exists false]. answer. intros _.
  destruct m as [| | |k ch]; try discriminate Hk. cbn [getKind] in *.
  assert (forall f u, ACKind k f u -> (isKind BITVECTOR_PLUS (MkNode k ch) || isKind BITVECTOR_MULT (MkNode k ch) = false -> k = BITVECTOR_AND \/ k = BITVECTOR_OR \/ k = BITVECTOR_XOR) ->
    exists r, (c ← flatten_ac k (num_nodes (MkNode k ch)) [MkNode k ch] [];
      if isKind BITVECTOR_PLUS (MkNode k ch) || isKind BITVECTOR_MULT (MkNode k ch) then mkNodeV k c else mkSortedNode node_lt k c) = Ok r /\ eval e r = Some v) as Hgo.
  { intros f u AC Hs. apply (eval_nary_iff k f u) in Hv as (Hl & n & z & Hn & Ho & ->).
    destruct (flatten_root_ok k f u ch n z Hl ltac:(lia) Ho) as (r & -> & Hr & Hlr). rewrite M_bind_Ok.
    assert (r <> []) by (intros ->; cbn in Hlr; lia).
    destruct (isKind BITVECTOR_PLUS _ || isKind BITVECTOR_MULT _); [by apply (mkNodeV_ok e k f u) | apply (mkSortedNode_ok e k f u); auto]. }
  destruct k; try discriminate Hk; [eapply (Hgo _ _ AND_AC) | eapply (Hgo _ _ OR_AC) | eapply (Hgo _ _ XOR_AC) | eapply (Hgo _ _ MULT_AC) | eapply (Hgo _ _ PLUS_AC)]; intros; try tauto; discriminate.
Qed.

(** Without duplicates, for the operators that are idempotent: what was processed is
    either in the result or all of its children are processed or on the stack. *)
Section nodup.
Context (k : Kind) (f : Z -> Z -> Z -> Z) (u : Z -> Z) {AC : ACKind k f u}.
Hypothesis idem : forall n a, rng n a -> f n a a = a.

Definition absorbs (n : Z) (x z : Z) : Prop := f n x z = z.
Lemma absorbs_in n l z c x : 1 <= n -> opv f u e l n z -> c ∈ l -> eval e c = Some (bv n x) -> absorbs n x z.
Proof.
  intros Hn Ho Hin Hc. apply list_elem_of_split in Hin as (l1 & l2 & ->).
  eapply (opv_perm k f u) in Ho; [| done | symmetry; apply Permutation_middle].
  apply (opv_cons_inv k f u) in Ho as (x' & y & Hx' & Hy & ->); [| done]. rewrite Hc in Hx'. injection Hx' as <-.
  unfold absorbs. pose proof (eval_bv_range e n x c Hc) as [_ ?]. pose proof (opv_rng k f u e _ n y Hn Hy).
  rewrite ac_assoc, idem by done. done.
Qed.
Lemma absorbs_op n ch x z : 1 <= n -> rng n z -> opv f u e ch n x -> (forall c y, c ∈ ch -> eval e c = Some (bv n y) -> absorbs n y z) -> absorbs n x z.
Proof.
  intros Hn Hz. revert x. induction ch as [|c ch IH]; intros x Ho Hall.
  - apply opv_nil_inv in Ho as ->. by apply ac_unit.
  - apply (opv_cons_inv k f u) in Ho as (a & b & Ha & Hb & ->); [| done]. unfold absorbs.
    pose proof (eval_bv_range e n a c Ha) as [_ ?]. pose proof (opv_rng k f u e ch n b Hn Hb).
    rewrite <- ac_assoc by done. rewrite (IH b Hb); [apply (Hall c); [left | done] |]. intros d y Hd. apply Hall. by right.
Qed.

(** The invariant on the processed terms. *)
Definition settled (processed stack ch : list Node) : Prop := forall p, p ∈ processed ->
  if isKind k p then forall c, c ∈ children p -> c ∈ processed \/ c ∈ stack else p ∈ ch.
Lemma settled_absorbed processed stack ch n z : 1 <= n -> settled processed stack ch -> opv f u e (ch ++ stack) n z ->
  forall p x, p ∈ processed -> eval e p = Some (bv n x) -> absorbs n x z.
Proof.
  intros Hn Hs Ho. pose proof (opv_rng k f u e _ n z Hn Ho) as Hz. destruct (ac_operator k f u) as (K1 & K2 & K3).
  induction p as [y t|b|v|k' l IH] using node_ind'; intros x Hp Hx; specialize (Hs _ Hp).
  1-3: match type of Hs with context [isKind k ?t] => destruct (isKind k t) eqn:E; [apply isKind_kind in E; cbn in E; congruence |] end;
       eapply absorbs_in; [done | exact Ho | apply elem_of_app; by left | done].
  destruct (isKind k (MkNode k' l)) eqn:E.
  - apply isKind_kind in E. cbn in E, Hs. subst k'. apply (eval_nary_iff k f u) in Hx as (_ & m & y & Hm & Hl & [= <- <-]).
    apply (absorbs_op n l x z Hn Hz Hl). intros c y Hc Hy. destruct (Hs c Hc) as [Hcp|Hcs].
    + exact (proj1 (Forall_forall _ _) IH c Hc y Hcp Hy).
    + eapply absorbs_in; [done | exact Ho | apply elem_of_app; by right | done].
  - eapply absorbs_in; [done | exact Ho | apply elem_of_app; by left | done].
Qed.

Lemma existsb_eq c l : existsb (node_eqb c) l = true -> c ∈ l.
Proof. intros (x & Hx & ->%node_eqb_eq)%List.existsb_exists. by apply list_elem_of_In. Qed.

Lemma flatten_nodup_ok fuel stack processed ch n z : 1 <= n -> (nodes stack <= fuel)%nat -> settled processed stack ch ->
  opv f u e (ch ++ stack) n z ->
  exists r done_, flatten_nodup k fuel stack processed ch = Ok r /\ opv f u e r n z /\ settled done_ [] r /\
    (forall c, c ∈ processed \/ c ∈ stack -> c ∈ done_).
Proof.
  intros Hn. revert stack processed ch. induction fuel as [|fuel IH]; intros [|c stack] processed ch Hf Hs Ho; cbn [flatten_nodup].
  1, 3: exists ch, processed; rewrite app_nil_r in Ho; do 3 (split; [done |]); intros ? [?|H]; [done | by apply not_elem_of_nil in H].
  { cbn in Hf. pose proof (num_nodes_pos c). lia. }
  destruct (ac_operator k f u) as (K1 & K2 & K3). change (nodes (c :: stack)) with (num_nodes c + nodes stack)%nat in Hf. pose proof (num_nodes_pos c).
  destruct (existsb (node_eqb c) processed) eqn:Ein; [| destruct (isKind k c) eqn:E].
  - apply existsb_eq in Ein. assert (settled processed stack ch) as Hs'.
    { intros p Hp. specialize (Hs p Hp). destruct (isKind k p); [| done]. intros d Hd. destruct (Hs d Hd) as [?|[->|?]%elem_of_cons]; auto. }
    destruct (IH stack processed ch) as (r & dn & Hr & Hor & Hdn & Hall); [lia | done | |].
    + eapply (opv_perm k f u) in Ho; [| done | symmetry; apply Permutation_middle].
      apply (opv_cons_inv k f u) in Ho as (x & y & Hx & Hy & ->); [| done].
      rewrite (settled_absorbed processed stack ch n y Hn Hs' Hy c x Ein Hx). done.
    + exists r, dn. do 3 (split; [done |]). intros d [Hd|[->|Hd]%elem_of_cons]; auto.
  - destruct (nodes_children k c E K1 K2 K3) as [Ec Enodes]. destruct (IH (rev (children c) ++ stack) (c :: processed) ch) as (r & dn & Hr & Hor & Hdn & Hall).
    + rewrite nodes_app, (nodes_perm (rev (children c)) (children c)) by (symmetry; apply Permutation_rev). lia.
    + intros p [->|Hp]%elem_of_cons.
      * rewrite E. intros d Hd. right. apply elem_of_app. left. by rewrite <- Permutation_rev.
      * specialize (Hs p Hp). destruct (isKind k p); [| done]. intros d Hd.
        destruct (Hs d Hd) as [?|[->|?]%elem_of_cons]; [left; by right | left; left | right; apply elem_of_app; by right].
    + apply (opv_app_inv k f u) in Ho as (x & y & Hx & Hy & ->); [| done].
      apply (opv_cons_inv k f u) in Hy as (a & b & Ha & Hb & ->); [| done].
      rewrite Ec in Ha. apply (eval_nary_iff k f u) in Ha as (Hl & m & a' & Hm & Ha & [= -> ->]).
      apply (opv_app k f u); [done | done |]. apply (opv_app k f u); [done | | done]. eapply (opv_perm k f u); [done | apply Permutation_rev | done].
    + exists r, dn. do 3 (split; [done |]). intros d [Hd|[->|Hd]%elem_of_cons]; apply Hall; [left; by right | left; left | right; apply elem_of_app; by right].
  - destruct (IH stack (c :: processed) (ch ++ [c])) as (r & dn & Hr & Hor & Hdn & Hall); [lia | | by rewrite <- app_assoc |].
    + intros p [->|Hp]%elem_of_cons; [rewrite E; apply elem_of_app; right; left |].
      specialize (Hs p Hp). destruct (isKind k p); [| apply elem_of_app; by left]. intros d Hd.
      destruct (Hs d Hd) as [?|[->|?]%elem_of_cons]; [left; by right | left; left | by right].
    + exists r, dn. do 3 (split; [done |]). intros d [Hd|[->|Hd]%elem_of_cons]; apply Hall; [left; by right | left; left | by right].
Qed.
Lemma settled_nonempty dn r : settled dn [] r -> forall p v, p ∈ dn -> eval e p = Some v -> r <> [].
Proof.
  intros Hs. destruct (ac_operator k f u) as (K1 & K2 & K3). induction p as [y t|b|w|k' l IH] using node_ind'; intros v Hp Hv ->; specialize (Hs _ Hp).
  1-3: match type of Hs with context [isKind k ?t] => destruct (isKind k t) eqn:E; [apply isKind_kind in E; cbn in E; congruence |] end; by apply not_elem_of_nil in Hs.
  destruct (isKind k (MkNode k' l)) eqn:E; [| by apply not_elem_of_nil in Hs]. apply isKind_kind in E. cbn in E, Hs. subst k'.
  apply (eval_nary_iff k f u) in Hv as (Hl & n & z & Hn & Ho & ->). destruct l as [|c l]; [cbn in Hl; lia |].
  apply (opv_cons_inv k f u) in Ho as (x & y & Hx & _ & _); [| lia]. destruct (Hs c ltac:(left)) as [Hc|Hc]; [| by apply not_elem_of_nil in Hc].
  inversion_clear IH as [|? ? IHc _]. by apply (IHc _ Hc Hx).
Qed.
Lemma nodup_root_ok ch n z : 1 <= n < 2 ^ 32 -> eval e (MkNode k ch) = Some (bv n z) ->
  exists r, flatten_nodup k (num_nodes (MkNode k ch)) [MkNode k ch] [] [] = Ok r /\ opv f u e r n z /\ r <> [].
Proof.
  intros Hn Hv. destruct (flatten_nodup_ok (num_nodes (MkNode k ch)) [MkNode k ch] [] [] n z) as (r & dn & -> & Hr & Hdn & Hall).
  - lia.
  - unfold nodes. cbn. lia.
  - intros p Hp. by apply not_elem_of_nil in Hp.
  - by apply (opv_one_intro k f u).
  - exists r. split; [done |]. split; [done |]. eapply settled_nonempty; [exact Hdn | apply Hall; right; left | exact Hv].
Qed.
End nodup.

Lemma FlattenAssocCommutNoDuplicates_sound node_lt : Sound (FlattenAssocCommutNoDuplicates node_lt).
Proof.
  apply Sound_iff. intros m v Hv. unfold BVRulesCorrect.sound_at, FlattenAssocCommutNoDuplicates. cbn [applies apply].
  destruct (isKind BITVECTOR_OR m || isKind BITVECTOR_AND m) eqn:Hk; cbn [negb]; [| by exists false]. answer. intros _.
  apply orb_true_iff in Hk as [Hk%isKind_kind|Hk%isKind_kind]; destruct m as [| | |k ch]; try discriminate Hk; cbn in Hk; subst k; cbn [getKind].
  - pose proof Hv as (_ & n & z & Hn & _ & ->)%(eval_nary_iff BITVECTOR_OR (fun _ => Z.lor) (fun _ => 0)).
    destruct (nodup_root_ok BITVECTOR_OR (fun _ => Z.lor) (fun _ => 0) ltac:(intros; apply Z.lor_diag) ch n z Hn Hv) as (r & -> & Hr & Hne).
    rewrite M_bind_Ok. apply (mkSortedNode_ok e BITVECTOR_OR (fun _ => Z.lor) (fun _ => 0)); [tauto | done ..].
  - pose proof Hv as (_ & n & z & Hn & _ & ->)%(eval_nary_iff BITVECTOR_AND (fun _ => Z.land) (fun n => 2 ^ n - 1)).
    destruct (nodup_root_ok BITVECTOR_AND (fun _ => Z.land) (fun n => 2 ^ n - 1) ltac:(intros; apply Z.land_diag) ch n z Hn Hv) as (r & -> & Hr & Hne).
    rewrite M_bind_Ok. apply (mkSortedNode_ok e BITVECTOR_AND (fun _ => Z.land) (fun n => 2 ^ n - 1)); [tauto | done ..].
Qed.
End sound.
