(* ===== verification/BVLinearCorrect.v ===== *)
(** * Sums and products, as linear combinations modulo [2^n]

    [PlusCombineLikeTerms] and the rules on products compute in the ring of integers
    modulo [2^n]; the lemmas are stated with the congruence [eqm] and
    rewrite with it. *)

From Stdlib Require Import Zdiv Setoid Morphisms.
From S2P Require Import Prelude Integer BitVector Node BitblastUtils BitblastStrategies BitblastCorrect BVRules BVRulesCorrect BVEvalCorrect BVCoreCorrect NaryOps BVSimplify BVSimplifyCorrect BVNormalize BVNormalizeCorrect.
Local Open Scope Z_scope.

(** Equality modulo [2^n]. *)
Definition eqm (n a b : Z) : Prop := a mod 2 ^ n = b mod 2 ^ n.
Declare Scope eqm_scope.
Delimit Scope eqm_scope with eqm.
Notation "a ≡[ n ] b" := (eqm n a b) (at level 70, format "a  ≡[ n ]  b") : eqm_scope.
Local Open Scope eqm_scope.

#[global] Instance eqm_equivalence n : Equivalence (eqm n).
Proof. unfold eqm. split; [intros a; done | intros a b ->; done | intros a b c -> ->; done]. Qed.
#[global] Instance add_proper n : Proper (eqm n ==> eqm n ==> eqm n) Z.add.
Proof. unfold eqm. intros a a' Ha b b' Hb. rewrite Zplus_mod, Ha, Hb. by rewrite <- Zplus_mod. Qed.
#[global] Instance sub_proper n : Proper (eqm n ==> eqm n ==> eqm n) Z.sub.
Proof. unfold eqm. intros a a' Ha b b' Hb. rewrite Zminus_mod, Ha, Hb. by rewrite <- Zminus_mod. Qed.
#[global] Instance mul_proper n : Proper (eqm n ==> eqm n ==> eqm n) Z.mul.
Proof. unfold eqm. intros a a' Ha b b' Hb. rewrite Zmult_mod, Ha, Hb. by rewrite <- Zmult_mod. Qed.
#[global] Instance opp_proper n : Proper (eqm n ==> eqm n) Z.opp.
Proof. intros a a' Ha. pose proof (sub_proper n 0 0 eq_refl a a' Ha) as H. by rewrite !Z.sub_0_l in H. Qed.
Lemma eq_eqm n a b : a = b -> a ≡[n] b.
Proof. by intros ->. Qed.

Lemma wrap_eqm n a : Sem.wrap n a ≡[n] a.
Proof. unfold eqm, Sem.wrap. apply Zmod_mod. Qed.
Lemma eqm_wrap n a b : a ≡[n] b -> Sem.wrap n a = Sem.wrap n b.
Proof. done. Qed.
Lemma eqm_eq n a b : a ≡[n] b -> rng n a -> rng n b -> a = b.
Proof. intros H Ha Hb. rewrite <- (wrap_small n a Ha), <- (wrap_small n b Hb). done. Qed.
Lemma add_eqm n a b : Sem.add n a b ≡[n] a + b. Proof. apply wrap_eqm. Qed.
Lemma mul_eqm n a b : Sem.mul n a b ≡[n] a * b. Proof. apply wrap_eqm. Qed.
Lemma neg_eqm n a : Sem.neg n a ≡[n] - a. Proof. apply wrap_eqm. Qed.
Lemma sub_eqm n a b : Sem.sub n a b ≡[n] a - b. Proof. apply wrap_eqm. Qed.
Create HintDb modular.
#[export] Hint Rewrite add_eqm mul_eqm neg_eqm sub_eqm wrap_eqm : modular.

Section sound.
Context {G : Gmp} {HG : GmpSpec G}.
Variable e : env.
Abbreviation Sound := (BVRulesCorrect.Sound e).
Abbreviation sound_at := (BVRulesCorrect.sound_at e).
Abbreviation addv := (opv Sem.add (fun _ => 0) e).
Abbreviation mulv := (opv Sem.mul (fun _ => 1) e).

Ltac steps :=
  repeat first [rewrite child0 | rewrite child1 | rewrite child2 | rewrite M_bind_Ok | rewrite isKind_refl | progress (cbn [negb])
    | match goal with H : eval _ ?c = Some (bv ?n ?a) |- context [getSize ?c] => rewrite (getSize_bv e c n a H) end].
Ltac ranges := unfold rng in *; intuition lia.
Ltac answer := eexists; split; [reflexivity |].
Ltac each := repeat first [apply List.Forall_nil | apply List.Forall_cons].
(** Congruences between sums and products. *)
Ltac modular := autorewrite with modular; apply eq_eqm; lia.

(** ** Coefficient maps *)
(** The map stands for the sum of [c * x] over its entries. *)
Inductive lin (n : Z) : coef_map -> Z -> Prop :=
  | lin_nil : lin n [] 0
  | lin_cons t c x m s : eval e t = Some (bv n x) -> rng n c -> lin n m s -> lin n ((t, MkBitVector n c) :: m) (c * x + s).

Lemma bv_one n : 1 <= n -> BV.mk n 1 = MkBitVector n 1 /\ rng n 1.
Proof.
  intros Hn. pose proof (pow2_half n Hn). pose proof (pow2_gt0 (n - 1) ltac:(lia)). split; [apply mk_small; lia | ranges].
Qed.
Lemma bv_minus_one n : 1 <= n < 2 ^ 32 -> BV.neg (BV.mk n 1) = Ok (MkBitVector n (2 ^ n - 1)).
Proof.
  intros Hn. destruct (bv_one n ltac:(lia)) as [-> H1]. rewrite neg_ok by (done || lia). do 2 f_equal. unfold Sem.neg, Sem.wrap.
  apply mod_unique_bound; [pose proof (pow2_gt0 n ltac:(lia)); lia |]. exists (-1). lia.
Qed.
Lemma minus_one_eqm n : 2 ^ n - 1 ≡[n] -1.
Proof. unfold eqm. replace (2 ^ n - 1) with (-1 + 1 * 2 ^ n) by lia. apply Z_mod_plus_full. Qed.

Lemma coef_insert_ok node_lt n m s t c x : lin n m s -> eval e t = Some (bv n x) -> rng n c ->
  exists s', lin n (coef_insert node_lt m t (MkBitVector n c)) s' /\ s' = s + c * x.
Proof.
  intros Hm Ht Hc. induction Hm as [|t0 c0 x0 m s Ht0 Hc0 Hm IH]; cbn [coef_insert].
  - eexists. split; [constructor; [done | done | constructor] | lia].
  - destruct (node_lt t0 t).
    + destruct IH as (s' & Hs' & ->). eexists. split; [constructor; [done | done | exact Hs'] | lia].
    + eexists. split; [constructor; [done | done | by constructor] | lia].
Qed.
Lemma coef_found n m s t c0 x : lin n m s -> eval e t = Some (bv n x) -> coef_find m t = Some c0 ->
  exists c, c0 = MkBitVector n c /\ rng n c /\
    forall c', rng n c' -> exists s', lin n (coef_set m t (MkBitVector n c')) s' /\ s' = s + (c' - c) * x.
Proof.
  intros Hm Ht. induction Hm as [|t1 c1 x1 m s Ht1 Hc1 Hm IH]; cbn [coef_find coef_set]; [done |].
  destruct (node_eqb t1 t) eqn:E.
  - intros [= <-]. exists c1. split; [done |]. split; [done |]. apply node_eqb_eq in E as ->. rewrite Ht in Ht1. injection Ht1 as <-.
    intros c' Hc'. eexists. split; [by constructor | lia].
  - intros H. destruct (IH H) as (c & -> & Hc & Hset). exists c. split; [done |]. split; [done |]. intros c' Hc'.
    destruct (Hset c' Hc') as (s' & Hs' & ->). eexists. split; [by constructor | lia].
Qed.
Lemma addToCoefMap_ok node_lt n m s t c x : 1 <= n < 2 ^ 32 -> lin n m s -> eval e t = Some (bv n x) -> rng n c ->
  exists m' s', addToCoefMap node_lt m t (MkBitVector n c) = Ok m' /\ lin n m' s' /\ s' ≡[n] s + c * x.
Proof.
  intros Hn Hm Ht Hc. unfold addToCoefMap. destruct (coef_find m t) as [c0|] eqn:E.
  - destruct (coef_found n m s t c0 x Hm Ht E) as (c1 & -> & Hc1 & Hset). rewrite add_ok by ranges. rewrite M_bind_Ok.
    destruct (Hset (Sem.add n c1 c)) as (s' & Hs' & ->); [apply wrap_bound; lia |]. eexists _, _. split; [done |]. split; [exact Hs' |].
    rewrite add_eqm. apply eq_eqm. lia.
  - destruct (coef_insert_ok node_lt n m s t c x Hm Ht Hc) as (s' & Hs' & ->). by eexists _, _.
Qed.

(** ** A product with its constant last *)
Definition not_const (c : Node) : Prop := isConst c = false.
Definition mult_ready (c : Node) : Prop := isKind BITVECTOR_MULT c = true -> Forall not_const (removelast (children c)).

Lemma mult_last ch c n v : 1 <= n -> mulv (ch ++ [c]) n v -> exists x y, mulv ch n x /\ eval e c = Some (bv n y) /\ v ≡[n] y * x.
Proof.
  intros Hn H. apply (opv_app_inv BITVECTOR_MULT _ _) in H as (x & y & Hx & Hy & ->); [| done]. exists x, y. split; [done |].
  split; [by apply (opv_one BITVECTOR_MULT Sem.mul (fun _ => 1)) |]. rewrite mul_eqm. apply eq_eqm. lia.
Qed.
Lemma split_mult_ok ch n v : eval e (MkNode BITVECTOR_MULT ch) = Some (bv n v) -> mult_ready (MkNode BITVECTOR_MULT ch) ->
  exists term c x, split_mult (MkNode BITVECTOR_MULT ch) n = Ok (term, MkBitVector n c) /\ eval e term = Some (bv n x) /\ rng n c /\ v ≡[n] c * x.
Proof.
  intros Hv Hr. pose proof Hv as (Hl & m & z & Hn & Ho & [= <- <-])%(eval_nary_iff BITVECTOR_MULT Sem.mul (fun _ => 1)).
  specialize (Hr (isKind_refl _ _)). cbn [children] in Hr. destruct (bv_one n ltac:(lia)) as [E1 R1].
  assert (exists term c x, Ok (MkNode BITVECTOR_MULT ch, BV.mk n 1) = Ok (term, MkBitVector n c) /\ eval e term = Some (bv n x) /\ rng n c /\ v ≡[n] c * x) as Hdefault.
  { exists (MkNode BITVECTOR_MULT ch), 1, v. rewrite E1. repeat split; try done; [ranges .. |]. apply eq_eqm. lia. }
  destruct (exists_last (l := ch)) as (ch' & c & Ech); [by intros -> |]. subst ch. rewrite removelast_last in Hr.
  destruct (mult_last ch' c n v ltac:(lia) Ho) as (x & y & Hx & Hy & Hvy). pose proof (eval_bv_range e n y c Hy) as [_ Ry].
  unfold split_mult. cbn [children]. rewrite length_app in *. cbn [length] in *. destruct (Nat.eqb_spec (length ch' + 1) 2) as [E2|E2].
  - destruct ch' as [|d [|]]; cbn in E2; try lia. cbn [app]. steps. inversion_clear Hr as [|? ? Hd _]. unfold not_const in Hd. rewrite Hd. cbn [negb check]. steps.
    destruct (isConst c) eqn:Hc; [| done]. rewrite (const_value e c n y Hc Hy). cbn [getConstBV]. steps. exists d, y, x.
    split; [done |]. split; [apply (opv_one BITVECTOR_MULT Sem.mul (fun _ => 1)); split; [done | lia] | done].
  - assert (child (MkNode BITVECTOR_MULT (ch' ++ [c])) (length ch' + 1 - 1) = Ok c) as ->.
    { unfold child. cbn [children]. by rewrite Nat.add_sub, list_lookup_middle. }
    rewrite M_bind_Ok. destruct (isConst c) eqn:Hc; [| done]. rewrite removelast_last.
    assert (forallb (fun c => negb (isConst c)) ch' = true) as ->.
    { clear -Hr. induction Hr as [|d l Hd _ IH]; [done |]. cbn. unfold not_const in Hd. by rewrite Hd. }
    cbn [check]. rewrite (const_value e c n y Hc Hy). cbn [getConstBV]. steps. exists (MkNode BITVECTOR_MULT ch'), y, x. split; [done |]. split; [| done].
    apply (eval_nary_iff BITVECTOR_MULT Sem.mul (fun _ => 1)). split; [lia | eauto].
Qed.

Lemma sub_inv ch n v : eval e (MkNode BITVECTOR_SUB ch) = Some (bv n v) -> exists c0 c1 a b, ch = [c0; c1] /\
  eval e c0 = Some (bv n a) /\ eval e c1 = Some (bv n b) /\ v = Sem.sub n a b.
Proof.
  intros H. destruct (eval_binary_inv e BITVECTOR_SUB Sem.sub ch _ ltac:(done) H) as (m & a & b & c0 & c1 & [= <- ->] & -> & H0 & H1 & _). eauto 10.
Qed.
Lemma neg_inv ch n v : eval e (MkNode BITVECTOR_NEG ch) = Some (bv n v) -> exists c a, ch = [c] /\ eval e c = Some (bv n a) /\ v = Sem.neg n a.
Proof.
  intros H. destruct (eval_unary_inv e BITVECTOR_NEG Sem.neg ch _ ltac:(done) H) as (m & a & c & [= <- ->] & -> & Hc & _). eauto.
Qed.
Lemma kind_node k c : isKind k c = true -> k <> VARIABLE -> k <> CONST_BOOLEAN -> k <> CONST_BITVECTOR -> exists ch, c = MkNode k ch.
Proof. intros Hk%isKind_kind K1 K2 K3. destruct c as [| | |k' ch]; cbn in Hk; try congruence. subst. eauto. Qed.

(** A term enters the map with its coefficient: a difference as two, a negation with
    the opposite coefficient. *)
Lemma add_product_ok node_lt n m s ks term c x : 1 <= n < 2 ^ 32 -> lin n m s -> eval e term = Some (bv n x) -> rng n c ->
  exists m' s', (if isKind BITVECTOR_SUB term then
        a ← child term 0; b ← child term 1;
        m ← addToCoefMap node_lt m a (MkBitVector n c); ncoeff ← BV.neg (MkBitVector n c);
        m ← addToCoefMap node_lt m b ncoeff; Ok (m, ks)
      else if isKind BITVECTOR_NEG term then
        t ← child term 0; ncoeff ← BV.neg (BV.resize n (MkBitVector n c));
        m ← addToCoefMap node_lt m t ncoeff; Ok (m, ks)
      else m ← addToCoefMap node_lt m term (MkBitVector n c); Ok (m, ks)) = Ok (m', ks : BitVector) /\ lin n m' s' /\ s' ≡[n] s + c * x.
Proof.
  intros Hn Hm Ht Hc. assert (rng n (Sem.neg n c)) as Rn by (apply wrap_bound; lia). destruct (isKind BITVECTOR_SUB term) eqn:Ks; [| destruct (isKind BITVECTOR_NEG term) eqn:Kn].
  - destruct (kind_node _ _ Ks) as [ch ->]; [done .. |]. destruct (sub_inv ch n x Ht) as (c0 & c1 & a & b & -> & H0 & H1 & ->). steps.
    destruct (addToCoefMap_ok node_lt n m s c0 c a Hn Hm H0 Hc) as (m1 & s1 & -> & Hm1 & E1). steps. rewrite neg_ok by ranges. steps.
    destruct (addToCoefMap_ok node_lt n m1 s1 c1 _ b Hn Hm1 H1 Rn) as (m2 & s2 & -> & Hm2 & E2). steps. exists m2, s2. split; [done |]. split; [done |].
    rewrite E2, E1. rewrite neg_eqm, sub_eqm. apply eq_eqm. lia.
  - destruct (kind_node _ _ Kn) as [ch ->]; [done .. |]. destruct (neg_inv ch n x Ht) as (c0 & a & -> & H0 & ->). steps. unfold BV.resize. cbn [d_value].
    rewrite neg_ok by ranges. steps. destruct (addToCoefMap_ok node_lt n m s c0 _ a Hn Hm H0 Rn) as (m1 & s1 & -> & Hm1 & E1). steps.
    exists m1, s1. split; [done |]. split; [done |]. rewrite E1. rewrite !neg_eqm. apply eq_eqm. lia.
  - destruct (addToCoefMap_ok node_lt n m s term c x Hn Hm Ht Hc) as (m1 & s1 & -> & Hm1 & E1). steps. eauto.
Qed.

Lemma updateCoefMap_ok node_lt n m s k current v : 1 <= n < 2 ^ 32 -> lin n m s -> rng n k -> eval e current = Some (bv n v) -> mult_ready current ->
  exists m' s' k', updateCoefMap node_lt current n (m, MkBitVector n k) = Ok (m', MkBitVector n k') /\ lin n m' s' /\ rng n k' /\
    s' + k' ≡[n] s + k + v.
Proof.
  intros Hn Hm Hk Hv Hr. destruct (bv_one n ltac:(lia)) as [E1 R1]. pose proof (pow2_gt0 n ltac:(lia)) as Hp.
  assert (forall m' s' c x, lin n m' s' -> s' ≡[n] s + c * x -> v ≡[n] c * x -> s' + k ≡[n] s + k + v) as Hdone
    by (intros m' s' c x _ -> ->; apply eq_eqm; lia).
  assert (exists m' s', (m ← addToCoefMap node_lt m current (BV.mk n 1); Ok (m, MkBitVector n k)) = Ok (m', MkBitVector n k) /\ lin n m' s' /\ s' + k ≡[n] s + k + v) as Hdefault.
  { rewrite E1. destruct (addToCoefMap_ok node_lt n m s current 1 v Hn Hm Hv R1) as (m1 & s1 & -> & Hm1 & Es). steps. exists m1, s1.
    split; [done |]. split; [done |]. eapply Hdone; [done | exact Es | apply eq_eqm; lia]. }
  unfold updateCoefMap. destruct (getKind current) eqn:Ek; try (destruct Hdefault as (m' & s' & ? & ? & ?); exists m', s', k; done).
  - (* a constant *) destruct current as [| |w|k' ch]; try discriminate Ek; [| cbn in Ek; subst; apply eval_MkNode in Hv as (_ & ? & _ & ?); done].
    rewrite (const_value e (ConstBV w) n v eq_refl Hv). cbn [getConstBV]. steps. pose proof (eval_bv_range e n v _ Hv) as [_ Rv].
    rewrite add_ok by ranges. steps. exists m, s, (Sem.add n k v). split; [done |]. split; [done |]. split; [apply wrap_bound; lia |].
    rewrite add_eqm. apply eq_eqm. lia.
  - (* a product *) destruct current as [| | |k' ch]; try discriminate Ek. cbn in Ek. subst k'.
    destruct (split_mult_ok ch n v Hv Hr) as (term & c & x & -> & Hx & Hc & Hvx). steps.
    destruct (add_product_ok node_lt n m s (MkBitVector n k) term c x Hn Hm Hx Hc) as (m' & s' & -> & Hm' & Es). exists m', s', k.
    split; [done |]. split; [done |]. split; [done |]. by eapply Hdone.
  - (* a difference *) destruct current as [| | |k' ch]; try discriminate Ek. cbn in Ek. subst k'.
    destruct (sub_inv ch n v Hv) as (c0 & c1 & a & b & -> & H0 & H1 & ->). unfold getNumChildren. cbn [children length Nat.eqb check]. steps. rewrite bv_minus_one, E1 by done.
    destruct (addToCoefMap_ok node_lt n m s c0 1 a Hn Hm H0 R1) as (m1 & s1 & -> & Hm1 & Es1). steps.
    destruct (addToCoefMap_ok node_lt n m1 s1 c1 (2 ^ n - 1) b Hn Hm1 H1 ltac:(apply ones_rng; lia)) as (m2 & s2 & -> & Hm2 & Es2). steps.
    exists m2, s2, k. split; [done |]. split; [done |]. split; [done |]. rewrite Es2, Es1, minus_one_eqm, sub_eqm. apply eq_eqm. lia.
  - (* a negation *) destruct current as [| | |k' ch]; try discriminate Ek. cbn in Ek. subst k'.
    destruct (neg_inv ch n v Hv) as (c0 & a & -> & H0 & ->). steps. rewrite bv_minus_one by done. steps.
    destruct (addToCoefMap_ok node_lt n m s c0 (2 ^ n - 1) a Hn Hm H0 ltac:(apply ones_rng; lia)) as (m1 & s1 & -> & Hm1 & Es1). steps.
    exists m1, s1, k. split; [done |]. split; [done |]. split; [done |]. rewrite Es1, minus_one_eqm, neg_eqm. apply eq_eqm. lia.
Qed.

Lemma collect_ok node_lt n ch z m s k : 1 <= n < 2 ^ 32 -> addv ch n z -> Forall mult_ready ch -> lin n m s -> rng n k ->
  exists m' s' k', foldl (fun acc c => st ← acc; updateCoefMap node_lt c n st) (Ok (m, MkBitVector n k)) ch = Ok (m', MkBitVector n k') /\
    lin n m' s' /\ rng n k' /\ s' + k' ≡[n] s + k + z.
Proof.
  intros Hn Ho Hr. revert z m s k Ho. induction Hr as [|c ch Hc _ IH]; intros z m s k Ho Hm Hk; cbn [foldl].
  - apply opv_nil_inv in Ho as ->. exists m, s, k. do 3 (split; [done |]). apply eq_eqm. lia.
  - apply (opv_cons_inv BITVECTOR_PLUS _ _) in Ho as (x & y & Hx & Hy & ->); [| lia]. rewrite M_bind_Ok.
    destruct (updateCoefMap_ok node_lt n m s k c x Hn Hm Hk Hx Hc) as (m1 & s1 & k1 & -> & Hm1 & Hk1 & E1).
    destruct (IH y m1 s1 k1 Hy Hm1 Hk1) as (m2 & s2 & k2 & -> & Hm2 & Hk2 & E2). exists m2, s2, k2. do 3 (split; [done |]).
    rewrite E2, E1, add_eqm. apply eq_eqm. lia.
Qed.

Lemma e_mulc t n x c : eval e t = Some (bv n x) -> rng n c -> eval e (MkNode BITVECTOR_MULT [t; ConstBV (MkBitVector n c)]) = Some (bv n (Sem.mul n c x)).
Proof.
  intros Ht Hc. pose proof (eval_bv_range e n x t Ht) as [Hn _]. replace (Sem.mul n c x) with (Sem.mul n x c) by (unfold Sem.mul; f_equal; lia).
  apply e_mult2; [done | by apply const_eval].
Qed.
Lemma addToChildren_ok t n x c ch s : 1 <= n < 2 ^ 32 -> eval e t = Some (bv n x) -> rng n c -> addv ch n s ->
  exists ch', addToChildren t n (MkBitVector n c) ch = Ok ch' /\ addv ch' n (Sem.add n s (Sem.mul n c x)).
Proof.
  intros Hn Ht Hc Ho. destruct (bv_one n ltac:(lia)) as [E1 R1]. pose proof (zero_rng n ltac:(lia)) as R0. pose proof (ones_rng n ltac:(lia)) as RO.
  pose proof (eval_bv_range e n x t Ht) as [_ Rx]. pose proof (opv_rng BITVECTOR_PLUS Sem.add (fun _ => 0) e ch n s ltac:(lia) Ho) as Rs.
  assert (forall d y, eval e d = Some (bv n y) -> y ≡[n] c * x -> addv (ch ++ [d]) n (Sem.add n s (Sem.mul n c x))) as Hpush.
  { intros d y Hd Ey. replace (Sem.mul n c x) with y; [by apply (opv_snoc BITVECTOR_PLUS Sem.add (fun _ => 0)); [lia | |] |].
    apply (eqm_eq n); [by rewrite mul_eqm | by apply eval_bv_range in Hd as [_ ?] | apply wrap_bound; lia]. }
  unfold addToChildren. rewrite (mk_small n 0) by ranges. rewrite eqb_same. destruct (Z.eqb_spec c 0) as [->|H0].
  { exists ch. split; [done |]. unfold Sem.mul, Sem.add. rewrite Z.mul_0_l. rewrite (wrap_small n 0), Z.add_0_r by done. by rewrite wrap_small. }
  rewrite E1, eqb_same. destruct (Z.eqb_spec c 1) as [->|H1]; [answer; eapply Hpush; [exact Ht | apply eq_eqm; lia] |].
  rewrite <- E1, bv_minus_one by done. steps. rewrite eqb_same. destruct (Z.eqb_spec c (2 ^ n - 1)) as [->|H2].
  { answer. eapply Hpush; [by apply e_neg |]. rewrite neg_eqm, minus_one_eqm. apply eq_eqm. lia. }
  destruct (isKind BITVECTOR_MULT t) eqn:Kt; answer.
  - destruct (kind_node _ _ Kt) as [tc ->]; [done .. |]. cbn [children].
    apply (eval_nary_iff BITVECTOR_MULT Sem.mul (fun _ => 1)) in Ht as (Hl & m & y & Hm & Hy & [= <- <-]).
    eapply (Hpush _ (Sem.mul n x c)); [| rewrite mul_eqm; apply eq_eqm; lia]. apply (eval_nary_iff BITVECTOR_MULT Sem.mul (fun _ => 1)).
    rewrite length_app. split; [cbn; lia |]. exists n, (Sem.mul n x c). split; [done |]. split; [| done].
    apply (opv_snoc BITVECTOR_MULT Sem.mul (fun _ => 1)); [lia | done | by apply const_eval].
  - eapply Hpush; [by apply e_mulc |]. by rewrite mul_eqm.
Qed.
Lemma build_children_ok n m s ch z : 1 <= n < 2 ^ 32 -> lin n m s -> addv ch n z ->
  exists ch', foldl (fun acc '(t, c) => ch ← acc; addToChildren t n c ch) (Ok ch) m = Ok ch' /\ addv ch' n (Sem.wrap n (z + s)).
Proof.
  intros Hn Hm. revert ch z. induction Hm as [|t c x m s Ht Hc _ IH]; intros ch z Ho; cbn [foldl].
  - exists ch. split; [done |]. rewrite Z.add_0_r, wrap_small; [done |]. apply (opv_rng BITVECTOR_PLUS _ _) in Ho; [done | lia].
  - rewrite M_bind_Ok. destruct (addToChildren_ok t n x c ch z Hn Ht Hc Ho) as (ch1 & -> & Ho1).
    destruct (IH ch1 _ Ho1) as (ch2 & -> & Ho2). exists ch2. split; [done |].
    replace (Sem.wrap n (z + (c * x + s))) with (Sem.wrap n (Sem.add n z (Sem.mul n c x) + s)); [done |].
    apply eqm_wrap. rewrite add_eqm, mul_eqm. apply eq_eqm. lia.
Qed.
Lemma neqb_same n a b : BV.neqb (MkBitVector n a) (MkBitVector n b) = negb (a =? b).
Proof. unfold BV.neqb. cbn. by rewrite Z.eqb_refl. Qed.

Lemma collect_all node_lt n ch z : 1 <= n < 2 ^ 32 -> addv ch n z -> Forall mult_ready ch ->
  exists m s k, collect node_lt n ch = Ok (m, MkBitVector n k) /\ lin n m s /\ rng n k /\ s + k ≡[n] z.
Proof.
  intros Hn Ho Hr. unfold collect. pose proof (zero_rng n ltac:(lia)) as R0. rewrite (mk_small n 0) by ranges.
  destruct (collect_ok node_lt n ch z [] 0 0 Hn Ho Hr ltac:(constructor) R0) as (m & s & k & E & Hm & Hk & Es). by exists m, s, k.
Qed.
Lemma build_all n m s : 1 <= n < 2 ^ 32 -> lin n m s -> exists ch, build_children n m = Ok ch /\ addv ch n (Sem.wrap n s).
Proof.
  intros Hn Hm. destruct (build_children_ok n m s [] 0 Hn Hm ltac:(apply opv_nil)) as (ch & E & Ho). by exists ch.
Qed.

Lemma PlusCombineLikeTerms_at node_lt ch v : eval e (MkNode BITVECTOR_PLUS ch) = Some v -> Forall mult_ready ch ->
  sound_at (PlusCombineLikeTerms node_lt) (MkNode BITVECTOR_PLUS ch) v.
Proof.
  intros Hv Hr. unfold BVRulesCorrect.sound_at, PlusCombineLikeTerms. cbn [applies apply]. answer. intros _.
  pose proof Hv as (Hl & n & z & Hn & Ho & ->)%(eval_nary_iff BITVECTOR_PLUS Sem.add (fun _ => 0)).
  rewrite (getSize_bv e _ _ _ Hv), M_bind_Ok. cbn [children]. pose proof (zero_rng n ltac:(lia)) as R0. rewrite (mk_small n 0) by ranges.
  destruct (collect_all node_lt n ch z Hn Ho Hr) as (m & s & k & -> & Hm & Hk & E). rewrite M_bind_Ok.
  destruct (build_all n m s Hn Hm) as (ch1 & -> & Ho1). rewrite M_bind_Ok, neqb_same.
  set (ch2 := if negb (k =? 0) then ch1 ++ [ConstBV (MkBitVector n k)] else ch1). assert (addv ch2 n z) as Ho2.
  { assert (z = Sem.add n (Sem.wrap n s) k) as ->.
    { apply (eqm_eq n); [| by apply (opv_rng BITVECTOR_PLUS _ _) in Ho; [| lia] | apply wrap_bound; lia].
      by rewrite add_eqm, wrap_eqm, E. }
    subst ch2. destruct (Z.eqb_spec k 0) as [->|Hk0]; cbn [negb].
    - unfold Sem.add. rewrite Z.add_0_r, wrap_small; [done | apply wrap_bound; lia].
    - apply (opv_snoc BITVECTOR_PLUS Sem.add (fun _ => 0)); [lia | done | by apply const_eval]. }
  clearbody ch2. destruct ch2 as [|c ch2].
  - apply opv_nil_inv in Ho2 as ->. answer. by apply e_mk_small.
  - by apply (mkNodeV_ok e BITVECTOR_PLUS Sem.add (fun _ => 0)).
Qed.

(** ** Products *)
Abbreviation mul_iff := (eval_nary_iff BITVECTOR_MULT Sem.mul (fun _ => 1) e).
Lemma isConst_kind c n a : eval e c = Some (bv n a) -> isConst c = isKind CONST_BITVECTOR c.
Proof.
  intros Hc. destruct c as [| |v|k ch]; try done. cbn. symmetry. apply bool_decide_eq_false. cbn. intros ->.
  apply eval_MkNode in Hc as (_ & ? & _ & ?). done.
Qed.
(** What [MultSimplify] leaves: no constant, or one that is last and not 1. *)
Definition mult_shaped (n : Node) : Prop := forall ch, n = MkNode BITVECTOR_MULT ch ->
  no_const ch \/ exists l w b, ch = l ++ [ConstBV (MkBitVector w b)] /\ no_const l /\ l <> [] /\ b <> 1.

Definition mult_step (size : Z) (acc : M (option (BitVector * list Node))) (current : Node) : M (option (BitVector * list Node)) :=
  st ← acc;
  match st with
  | None => Ok None
  | Some (constant, ch) =>
      if isKind CONST_BITVECTOR current then
        value ← getConstBV current; constant ← BV.mult constant value;
        if BV.eqb constant (BV.mk size 0) then Ok None else Ok (Some (constant, ch))
      else Ok (Some (constant, ch ++ [current]))
  end.
Lemma mult_step_none size l : foldl (mult_step size) (Ok None) l = Ok None.
Proof. induction l; done. Qed.
Lemma mult_loop_ok n l z k kept a : 1 <= n < 2 ^ 32 -> mulv l n z -> rng n k -> mulv kept n a -> no_const kept ->
  (foldl (mult_step n) (Ok (Some (MkBitVector n k, kept))) l = Ok None /\ k * a * z ≡[n] 0) \/
  exists k' kept' a', foldl (mult_step n) (Ok (Some (MkBitVector n k, kept))) l = Ok (Some (MkBitVector n k', kept')) /\
    rng n k' /\ mulv kept' n a' /\ no_const kept' /\ k' * a' ≡[n] k * a * z.
Proof.
  intros Hn. revert z k kept a. induction l as [|c l IH]; intros z k kept a Ho Hk Hkept Hnc; cbn [foldl].
  - right. exists k, kept, a. apply opv_nil_inv in Ho as ->. do 4 (split; [done |]). apply eq_eqm. lia.
  - apply (opv_cons_inv BITVECTOR_MULT _ _) in Ho as (x & y & Hx & Hy & ->); [| lia]. pose proof (eval_bv_range e n x c Hx) as [_ Rx].
    destruct (isKind CONST_BITVECTOR c) eqn:Kc.
    + assert (mult_step n (Ok (Some (MkBitVector n k, kept))) c =
        if Sem.mul n k x =? 0 then Ok None else Ok (Some (MkBitVector n (Sem.mul n k x), kept))) as ->.
      { unfold mult_step. rewrite M_bind_Ok, Kc, (const_bv e c n x Hx Kc). cbn [getConstBV]. rewrite M_bind_Ok, mult_ok by ranges.
        by rewrite M_bind_Ok, (mk_small n 0), eqb_same by (pose proof (zero_rng n ltac:(lia)); ranges). }
      destruct (Z.eqb_spec (Sem.mul n k x) 0) as [E0|E0].
      * left. split; [apply mult_step_none |]. transitivity (Sem.mul n k x * (a * Sem.mul n 1 y)); [| rewrite E0; apply eq_eqm; lia].
        rewrite !mul_eqm. apply eq_eqm. lia.
      * destruct (IH y (Sem.mul n k x) kept a Hy ltac:(apply wrap_bound; lia) Hkept Hnc) as [[Ef Ez]|(k' & kept' & a' & Ef & Hk' & Hkept' & Hnc' & Ez)].
        -- left. split; [done |]. rewrite <- Ez, !mul_eqm. apply eq_eqm. lia.
        -- right. exists k', kept', a'. do 4 (split; [done |]). rewrite Ez, !mul_eqm. apply eq_eqm. lia.
    + assert (mult_step n (Ok (Some (MkBitVector n k, kept))) c = Ok (Some (MkBitVector n k, kept ++ [c]))) as -> by (unfold mult_step; by rewrite M_bind_Ok, Kc).
      destruct (IH y k (kept ++ [c]) (Sem.mul n a x) Hy Hk) as [[Ef Ez]|(k' & kept' & a' & Ef & Hk' & Hkept' & Hnc' & Ez)].
      * by apply (opv_snoc BITVECTOR_MULT Sem.mul (fun _ => 1)); [lia | |].
      * apply Forall_app. split; [done |]. by constructor.
      * left. split; [done |]. rewrite <- Ez, !mul_eqm. apply eq_eqm. lia.
      * right. exists k', kept', a'. do 4 (split; [done |]). rewrite Ez, !mul_eqm. apply eq_eqm. lia.
Qed.
Definition flat (l : list Node) : Prop := Forall (fun c => isKind BITVECTOR_MULT c = false) l.
Lemma mult_kept_flat n l k kept : flat l -> flat kept ->
  forall k' kept', foldl (mult_step n) (Ok (Some (k, kept))) l = Ok (Some (k', kept')) -> flat kept'.
Proof.
  intros Hl. revert k kept. induction Hl as [|c l Hc _ IH]; intros k kept Hk k' kept'; cbn [foldl]; [by intros [= _ <-] |].
  destruct (mult_step n (Ok (Some (k, kept))) c) as [[[k1 kept1]|]|] eqn:E.
  - intros H. eapply IH; [| exact H]. unfold mult_step in E. rewrite M_bind_Ok in E. destruct (isKind CONST_BITVECTOR c).
    + apply M_bind_inv in E as (v & _ & E). apply M_bind_inv in E as (w & _ & E). destruct (BV.eqb _ _); [done |]. by injection E as _ <-.
    + injection E as _ <-. apply Forall_app. split; [done | by constructor].
  - by rewrite mult_step_none.
  - intros H. exfalso. clear -H. induction l; done.
Qed.
Lemma no_const_perm l l' : l ≡ₚ l' -> no_const l -> no_const l'.
Proof. unfold no_const. by intros ->. Qed.

Lemma MultSimplify_apply node_lt ch v : eval e (MkNode BITVECTOR_MULT ch) = Some v ->
  exists r, apply (MultSimplify node_lt) (MkNode BITVECTOR_MULT ch) = Ok r /\ eval e r = Some v /\ (flat ch -> mult_shaped r).
Proof.
  intros Hv. pose proof Hv as (Hl & n & z & Hn & Ho & ->)%mul_iff. destruct (bv_one n ltac:(lia)) as [E1 R1]. pose proof (zero_rng n ltac:(lia)) as R0.
  pose proof (opv_rng BITVECTOR_MULT Sem.mul (fun _ => 1) e ch n z ltac:(lia) Ho) as Rz.
  unfold MultSimplify. cbn [apply]. rewrite (getSize_bv e _ _ _ Hv), M_bind_Ok. cbn [children]. rewrite E1.
  change (foldl _ (Ok (Some (MkBitVector n 1, []))) ch) with (foldl (mult_step n) (Ok (Some (MkBitVector n 1, []))) ch).
  assert (flat ch -> _) as Hkf by (intros Hflat; exact (mult_kept_flat n ch (MkBitVector n 1) [] Hflat ltac:(constructor))).
  destruct (mult_loop_ok n ch z 1 [] 1 Hn Ho R1 ltac:(apply opv_nil) ltac:(constructor)) as [[-> Ez]|(k & kept & a & Ef & Hk & Hkept & Hnc & Ez)]; rewrite ?M_bind_Ok.
  { answer. assert (z = 0) as -> by (apply (eqm_eq n); [rewrite <- Ez; apply eq_eqm; lia | done | done]). split; [by apply e_mk_small | done]. }
  rewrite Ef in *. rewrite M_bind_Ok. specialize (fun H => Hkf H _ _ eq_refl).
  assert (mulv (sort_nodes node_lt kept) n a) as Hs by (eapply (opv_perm BITVECTOR_MULT Sem.mul (fun _ => 1)); [lia | symmetry; apply sort_nodes_perm | done]).
  assert (no_const (sort_nodes node_lt kept)) as Hnc' by (eapply no_const_perm; [symmetry; apply sort_nodes_perm | done]).
  assert (flat ch -> flat (sort_nodes node_lt kept)) as Hkf' by (unfold flat; by rewrite sort_nodes_perm).
  rewrite neqb_same. set (sorted := sort_nodes node_lt kept) in *. clearbody sorted. clear Ef Hkept Hnc Hkf kept.
  assert (z = Sem.mul n a k) as -> by (apply (eqm_eq n); [rewrite mul_eqm; symmetry; etrans; [| etrans; [exact Ez |]]; apply eq_eqm; lia | done | apply wrap_bound; lia]).
  destruct (Z.eqb_spec k 1) as [->|Hk1]; cbn [negb].
  - assert (Sem.mul n a 1 = a) as ->. { unfold Sem.mul. rewrite Z.mul_1_r, wrap_small; [done |]. apply (opv_rng BITVECTOR_MULT Sem.mul (fun _ => 1) e sorted); [lia | done]. }
    destruct sorted as [|c [|d sorted]]; answer.
    + apply opv_nil_inv in Hs as ->. split; [by apply e_mk_small | done].
    + split; [apply (opv_one BITVECTOR_MULT Sem.mul (fun _ => 1)); split; [done | lia] |]. intros Hf ch' ->. specialize (Hkf' Hf). inversion_clear Hkf' as [|? ? Hc _]. by rewrite isKind_refl in Hc.
    + split; [apply mul_iff; split; [cbn; lia | eauto] |]. intros _ ch' [= <-]. by left.
  - assert (mulv (sorted ++ [ConstBV (MkBitVector n k)]) n (Sem.mul n a k)) as Hs' by (apply (opv_snoc BITVECTOR_MULT Sem.mul (fun _ => 1)); [lia | done | by apply const_eval]).
    destruct sorted as [|c sorted]; cbn [app] in *.
    + answer. split; [| done]. apply (opv_one BITVECTOR_MULT Sem.mul (fun _ => 1)). split; [done | lia].
    + destruct (sorted ++ [ConstBV (MkBitVector n k)]) as [|d l] eqn:El; [by destruct sorted |]. answer.
      split; [apply mul_iff; split; [cbn; lia | eauto] |]. intros _ ch' [= <-]. right. exists (c :: sorted), n, k. cbn [app]. by rewrite El.
Qed.
(** Not unsorted: constants only at the end. *)
Lemma sorted_no_const node_lt ch : mult_unsorted node_lt ch = false -> Forall (fun c => isConst c = false) (removelast ch).
Proof.
  induction ch as [|a [|b ch] IH]; [constructor | constructor |]. cbn [mult_unsorted]. intros [[Ha _]%orb_false_iff H]%orb_false_iff.
  change (removelast (a :: b :: ch)) with (a :: removelast (b :: ch)). constructor; [done | by apply IH].
Qed.
Lemma last_child k l c : child (MkNode k (l ++ [c])) (getNumChildren (MkNode k (l ++ [c])) - 1) = Ok c.
Proof. unfold child, getNumChildren. cbn [children]. rewrite length_app. cbn [length]. by rewrite Nat.add_sub, list_lookup_middle. Qed.
Lemma const_free l n z : mulv l n z -> Forall (fun c => isConst c = false) l -> no_const l.
Proof.
  intros (zs & H & _). induction H as [|c x l zs Hc _ IH]; intros Hl; [constructor |]. inversion_clear Hl as [|? ? Hn Hr].
  constructor; [by rewrite <- (isConst_kind c n x Hc) | by apply IH].
Qed.
(** [MultSimplify] keeps the value, and whether it applies or not the product is in
    its form. *)
Lemma MultSimplify_at node_lt ch v : eval e (MkNode BITVECTOR_MULT ch) = Some v ->
  sound_at (MultSimplify node_lt) (MkNode BITVECTOR_MULT ch) v /\
  (applies (MultSimplify node_lt) (MkNode BITVECTOR_MULT ch) = Ok false -> mult_shaped (MkNode BITVECTOR_MULT ch)).
Proof.
  intros Hv. destruct (MultSimplify_apply node_lt ch v Hv) as (r & Er & Hr & _). unfold BVRulesCorrect.sound_at.
  enough (exists b, applies (MultSimplify node_lt) (MkNode BITVECTOR_MULT ch) = Ok b /\ (b = false -> mult_shaped (MkNode BITVECTOR_MULT ch))) as (b & Eb & Hb).
  { split; [exists b; split; [done |]; intros _; eauto |]. rewrite Eb. intros [= ->]. auto. }
  pose proof Hv as (Hl & n & z & Hn & Ho & ->)%mul_iff. unfold MultSimplify. cbn [applies]. rewrite isKind_refl. cbn [negb].
  destruct (exists_last (l := ch)) as (l & c & ->); [by intros -> |]. cbn [children].
  destruct (mult_unsorted node_lt (l ++ [c])) eqn:Eu; [by exists true |]. apply sorted_no_const in Eu. rewrite removelast_last in Eu.
  rewrite last_child, M_bind_Ok. destruct (mult_last l c n z ltac:(lia) Ho) as (x & y & Hx & Hy & _). pose proof (const_free l n x Hx Eu) as Hnc.
  destruct (isConst c) eqn:Ec.
  - rewrite (const_value e c n y Ec Hy) in *. cbn [getConstBV]. rewrite M_bind_Ok, (getSize_bv e _ _ _ Hv), M_bind_Ok.
    destruct (bv_one n ltac:(lia)) as [E1 _]. rewrite E1, (eqb_same n y 1). answer. intros [_ H1%Z.eqb_neq]%orb_false_iff ch' [= <-].
    right. exists l, n, y. do 2 (split; [done |]). split; [| done]. intros ->. cbn in Hl. lia.
  - exists false. split; [done |]. intros _ ch' [= <-]. left. apply Forall_app. split; [done |]. constructor; [| constructor].
    by rewrite <- (isConst_kind c n y Hy).
Qed.
Lemma MultPow2_shaped ch v : eval e (MkNode BITVECTOR_MULT ch) = Some v -> mult_shaped (MkNode BITVECTOR_MULT ch) ->
  sound_at MultPow2 (MkNode BITVECTOR_MULT ch) v.
Proof.
  intros Hv Hs. destruct (Hs ch eq_refl) as [Hnc|(l & w & b & -> & Hnc & Hl & Hb)].
  - exists false. split; [| done]. apply MultPow2_no_const; [done |]. intros ->. apply mul_iff in Hv as [Hl _]. cbn in Hl. lia.
  - apply MultPow2_at; [done .. |]. by intros ? ? [= -> ->].
Qed.

(** ** Distributivity *)
Lemma sum_times t n y ch z : 1 <= n -> eval e t = Some (bv n y) -> addv ch n z ->
  addv (map (fun c => MkNode BITVECTOR_MULT [c; t]) ch) n (Sem.mul n z y).
Proof.
  intros Hn Ht. revert z. induction ch as [|c ch IH]; intros z Ho; cbn [map].
  - apply opv_nil_inv in Ho as ->. replace (Sem.mul n 0 y) with 0 by (symmetry; apply Zmod_0_l). apply opv_nil.
  - apply (opv_cons_inv BITVECTOR_PLUS _ _) in Ho as (x & w & Hx & Hw & ->); [| done].
    replace (Sem.mul n (Sem.add n x w) y) with (Sem.add n (Sem.mul n x y) (Sem.mul n w y)).
    + apply (opv_cons BITVECTOR_PLUS Sem.add (fun _ => 0)); [done | by apply e_mult2 | by apply IH].
    + apply eqm_wrap. rewrite !mul_eqm, add_eqm. apply eq_eqm. lia.
Qed.
Lemma e_sub a b n x y : eval e a = Some (bv n x) -> eval e b = Some (bv n y) -> eval e (MkNode BITVECTOR_SUB [a; b]) = Some (bv n (Sem.sub n x y)).
Proof. by apply e_binary. Qed.
(** A sum or a difference times [t]. *)
Lemma distribute s t n x y : isSum s = true -> eval e s = Some (bv n x) -> eval e t = Some (bv n y) ->
  exists r, mkNodeV (getKind s) (map (fun c => MkNode BITVECTOR_MULT [c; t]) (children s)) = Ok r /\ eval e r = Some (bv n (Sem.mul n x y)).
Proof.
  intros Hs Hx Hy. pose proof (eval_bv_range e n y t Hy) as [Hn _]. unfold isSum in Hs. destruct (isKind BITVECTOR_PLUS s) eqn:Kp; cbn [orb] in Hs.
  - destruct (kind_node _ _ Kp) as [ch ->]; [done .. |]. cbn [getKind children].
    apply (eval_nary_iff BITVECTOR_PLUS Sem.add (fun _ => 0)) in Hx as (Hl & m & z & Hm & Ho & [= <- <-]).
    apply (mkNodeV_ok e BITVECTOR_PLUS Sem.add (fun _ => 0)); [done | apply sum_times; [lia | done | done] |]. destruct ch; [cbn in Hl; lia | done].
  - destruct (kind_node _ _ Hs) as [ch ->]; [done .. |]. destruct (sub_inv ch n x Hx) as (c0 & c1 & a & b & -> & H0 & H1 & ->). cbn [getKind children map].
    answer. replace (Sem.mul n (Sem.sub n a b) y) with (Sem.sub n (Sem.mul n a y) (Sem.mul n b y)); [by apply e_sub; apply e_mult2 |].
    apply eqm_wrap. rewrite !mul_eqm, sub_eqm. apply eq_eqm. lia.
Qed.
Lemma mul_two ch n v : length ch = 2%nat -> eval e (MkNode BITVECTOR_MULT ch) = Some (bv n v) ->
  exists c0 c1 a b, ch = [c0; c1] /\ eval e c0 = Some (bv n a) /\ eval e c1 = Some (bv n b) /\ v = Sem.mul n a b.
Proof.
  intros Hl Hv. destruct ch as [|c0 [|c1 [|]]]; try discriminate Hl. destruct (mul_two_inv e c0 c1 n v Hv) as (a & b & H0 & H1 & _ & ->). eauto 10.
Qed.
Lemma MultDistrib_sound : Sound MultDistrib.
Proof.
  apply Sound_iff. intros m v Hv. unfold BVRulesCorrect.sound_at, MultDistrib. cbn [applies apply].
  destruct (isKind BITVECTOR_MULT m) eqn:Km; cbn [negb orb]; [| by exists false]. destruct (kind_node _ _ Km) as [ch ->]; [done .. |].
  unfold getNumChildren. cbn [children]. destruct (Nat.eqb_spec (length ch) 2) as [Hl|Hl]; cbn [negb]; [| by exists false].
  pose proof Hv as (_ & n & z & Hn & _ & ->)%mul_iff. destruct (mul_two ch n z Hl Hv) as (c0 & c1 & a & b & -> & H0 & H1 & ->). steps.
  destruct (isSum c0) eqn:S0; answer.
  - intros S1%negb_true_iff. cbn [negb andb]. rewrite S0, S1. cbn [negb andb check]. steps. by apply distribute.
  - intros S1. cbn [negb andb]. rewrite S0, S1. cbn [negb andb check]. steps. destruct (distribute c1 c0 n b a S1 H1 H0) as (r & -> & Hr). answer. rewrite Hr. do 2 f_equal.
    unfold Sem.mul. f_equal. lia.
Qed.
Lemma MultDistribConst_at ch v : eval e (MkNode BITVECTOR_MULT ch) = Some v -> mult_shaped (MkNode BITVECTOR_MULT ch) ->
  sound_at MultDistribConst (MkNode BITVECTOR_MULT ch) v.
Proof.
  intros Hv Hs. unfold BVRulesCorrect.sound_at, MultDistribConst. cbn [applies apply]. rewrite isKind_refl. cbn [negb orb].
  unfold getNumChildren. cbn [children]. destruct (Nat.eqb_spec (length ch) 2) as [Hl|Hl]; cbn [negb]; [| by exists false].
  pose proof Hv as (_ & n & z & Hn & _ & ->)%mul_iff. destruct (mul_two ch n z Hl Hv) as (c0 & c1 & a & b & -> & H0 & H1 & ->). steps.
  assert (isConst c0 = false) as N0.
  { rewrite (isConst_kind c0 n a H0). destruct (Hs _ eq_refl) as [Hnc|(l & w & d & E & Hnc & _)]; [by inversion_clear Hnc |].
    destruct l as [|x [|]]; cbn in E; try discriminate E; [| by destruct l]. injection E as -> _. by inversion_clear Hnc. }
  rewrite N0. cbn [negb check]. steps. destruct (isConst c1) eqn:N1; cbn [negb]; [| by exists false]. answer. intros Hk.
  pose proof (const_value e c1 n b N1 H1) as ->. cbn [isKind getKind check]. steps. cbn [check bool_decide].
  change (isKind CONST_BITVECTOR (ConstBV (MkBitVector n b))) with true. cbn [check]. steps.
  destruct (isKind BITVECTOR_NEG c0) eqn:Kn; [| rewrite orb_false_r in Hk; by apply distribute].
  destruct (kind_node _ _ Kn) as [ch ->]; [done .. |]. destruct (neg_inv ch n a H0) as (c & x & -> & Hc & ->). cbn [getConstBV]. steps.
  pose proof (eval_bv_range e n b _ H1) as [_ Rb]. rewrite neg_ok by ranges. steps. answer. rewrite (e_mulc c n x) by (done || apply wrap_bound; lia).
  do 2 f_equal. apply eqm_wrap. rewrite !neg_eqm. apply eq_eqm. lia.
Qed.

(** ** Negations *)
Lemma sound_neg_of k rule : operator k ->
  applies rule = (fun node => if negb (isKind BITVECTOR_NEG node) then Ok false else kind0 (isKind k) node) ->
  (forall ch n a, eval e (MkNode k ch) = Some (bv n a) ->
    exists r, apply rule (MkNode BITVECTOR_NEG [MkNode k ch]) = Ok r /\ eval e r = Some (bv n (Sem.neg n a))) -> Sound rule.
Proof.
  intros (K1 & K2 & K3) Ha Hr. apply (sound_kinds e [BITVECTOR_NEG]); [each; done | |].
  { intros n Hn. inversion_clear Hn as [|? ? E _]. by rewrite Ha, E. }
  each. intros ch v Hv. destruct (eval_unary_inv e BITVECTOR_NEG Sem.neg ch v ltac:(done) Hv) as (n & a & c & -> & -> & Hc & _).
  unfold BVRulesCorrect.sound_at. rewrite Ha. unfold kind0. steps. answer. intros Hk.
  destruct (kind_node _ _ Hk) as [l ->]; [done .. |]. by apply Hr.
Qed.
Lemma NegSub_sound : Sound NegSub.
Proof.
  apply (sound_neg_of BITVECTOR_SUB); [done | done |]. intros ch n a Hc. destruct (sub_inv ch n a Hc) as (c0 & c1 & x & y & -> & H0 & H1 & ->).
  unfold NegSub. cbn [apply]. steps. answer. erewrite e_sub by done. do 2 f_equal. apply eqm_wrap. rewrite !sub_eqm. apply eq_eqm. lia.
Qed.
Lemma sum_neg n ch z : 1 <= n -> addv ch n z -> addv (map (fun c => MkNode BITVECTOR_NEG [c]) ch) n (Sem.neg n z).
Proof.
  intros Hn. revert z. induction ch as [|c ch IH]; intros z Ho; cbn [map].
  - apply opv_nil_inv in Ho as ->. replace (Sem.neg n 0) with 0 by (symmetry; apply Zmod_0_l). apply opv_nil.
  - apply (opv_cons_inv BITVECTOR_PLUS _ _) in Ho as (x & w & Hx & Hw & ->); [| done].
    replace (Sem.neg n (Sem.add n x w)) with (Sem.add n (Sem.neg n x) (Sem.neg n w)).
    + apply (opv_cons BITVECTOR_PLUS Sem.add (fun _ => 0)); [done | by apply e_neg | by apply IH].
    + apply eqm_wrap. rewrite !neg_eqm, add_eqm. apply eq_eqm. lia.
Qed.
Lemma NegPlus_sound : Sound NegPlus.
Proof.
  apply (sound_neg_of BITVECTOR_PLUS); [done | done |]. intros ch n a Hc. unfold NegPlus. cbn [apply]. steps. cbn [children].
  apply (eval_nary_iff BITVECTOR_PLUS Sem.add (fun _ => 0)) in Hc as (Hl & m & z & Hm & Ho & [= <- <-]).
  apply (mkNodeV_ok e BITVECTOR_PLUS Sem.add (fun _ => 0)); [done | apply sum_neg; [lia | done] |]. destruct ch; [cbn in Hl; lia | done].
Qed.
(** [NegMult] looks for a constant among the children of the negation, which has one
    child, a product: it never applies. *)
Lemma NegMult_never m v : eval e m = Some v -> applies NegMult m = Ok false.
Proof.
  intros Hv. unfold NegMult. cbn [applies]. destruct (isKind BITVECTOR_NEG m) eqn:Kn; cbn [negb]; [| done].
  destruct (kind_node _ _ Kn) as [ch ->]; [done .. |]. destruct (eval_unary_inv e BITVECTOR_NEG Sem.neg ch v ltac:(done) Hv) as (n & a & c & -> & -> & Hc & _).
  steps. destruct (isKind BITVECTOR_MULT c) eqn:Km; cbn [negb]; [| done]. destruct (kind_node _ _ Km) as [l ->]; done.
Qed.
End sound.
