(* ===== verification/BVBitwiseCorrect.v ===== *)
(** * Conjunctions, disjunctions and exclusive ors of bit-vectors

    [AndSimplify], [OrSimplify] and [XorSimplify] count the occurrences of each term
    and of its negation; [BitwiseSlicing] cuts an operator with a constant operand where
    the bits of the constant change. *)

From S2P Require Import Prelude Integer BitVector Node BitblastUtils BitblastStrategies BitblastCorrect BVRules BVRulesCorrect BVEvalCorrect BVCoreCorrect NaryOps BVSimplify BVSimplifyCorrect BVNormalize BVNormalizeCorrect BVLinearCorrect.
Local Open Scope Z_scope.

Section sound.
Context {G : Gmp} {HG : GmpSpec G}.
Variable e : env.
Abbreviation Sound := (BVRulesCorrect.Sound e).
Abbreviation sound_at := (BVRulesCorrect.sound_at e).

Ltac steps :=
  repeat first [rewrite child0 | rewrite child1 | rewrite child2 | rewrite M_bind_Ok | rewrite isKind_refl | progress (cbn [negb])
    | match goal with H : eval _ ?c = Some (bv ?n ?a) |- context [getSize ?c] => rewrite (getSize_bv e c n a H) end].
Ltac ranges := unfold rng in *; intuition lia.
Ltac answer := eexists; split; [reflexivity |].

(** ** The counts *)
(** The terms an entry stands for. *)
Definition entry_nodes (x : Node * Count) : list Node :=
  (if 0 <? pos x.2 then [x.1] else []) ++ (if 0 <? neg x.2 then [MkNode BITVECTOR_NOT [x.1]] else []).
Definition counted (N : Z) (x : Node * Count) : Prop := 0 <= pos x.2 <= N /\ 0 <= neg x.2 <= N /\ 0 < pos x.2 + neg x.2.
Definition terms (m : list (Node * Count)) : list Node := flat_map entry_nodes m.

Lemma count_insert_counted m t b N : 0 <= N -> N + 1 < 2 ^ 32 -> Forall (counted N) m -> Forall (counted (N + 1)) (count_insert m t b).
Proof.
  intros HN HN' H. induction H as [|[t' c] m Hc Hm IH]; cbn [count_insert].
  - constructor; [| constructor]. destruct b; unfold counted; cbn; lia.
  - assert (Forall (counted (N + 1)) m) by (eapply Forall_impl; [exact Hm |]; unfold counted; intros ? ?; lia).
    unfold counted in Hc. cbn in Hc. destruct (node_eqb t' t); constructor; try done; unfold counted.
    + destruct b; cbn; rewrite u32_small; lia.
    + cbn. lia.
Qed.

Section idempotent.
Context (k : Kind) (f : Z -> Z -> Z -> Z) (u z : Z -> Z) {AC : ACKind k f u}.
Hypothesis idem : forall n a, rng n a -> f n a a = a.
Hypothesis annihilator : forall n a, 1 <= n -> rng n a -> f n (z n) a = z n.
Hypothesis complement : forall n a, 1 <= n -> rng n a -> f n a (Sem.bnot n a) = z n.
Abbreviation opk := (opv f u e).

Lemma opk_perm l l' n x : 1 <= n -> l ≡ₚ l' -> opk l n x <-> opk l' n x.
Proof. intros Hn HP. split; intros H; [by eapply (opv_perm k f u) | eapply (opv_perm k f u); [done | by symmetry | done]]. Qed.
(** A term that occurs again does not change the value. *)
Lemma opk_again c l n x y : 1 <= n -> eval e c = Some (bv n x) -> opk (c :: l) n y -> f n x y = y.
Proof.
  intros Hn Hc (x' & y' & Hx' & Hy' & ->)%(opv_cons_inv k f u); [| done]. rewrite Hc in Hx'. injection Hx' as <-.
  pose proof (eval_bv_range e n x c Hc) as [_ Rx]. pose proof (opv_rng k f u e l n y' Hn Hy'). by rewrite ac_assoc, idem.
Qed.
(** The literal of a term. *)
Definition literal (t : Node) (b : bool) : Node := if b then MkNode BITVECTOR_NOT [t] else t.
Lemma entry_insert t c n x b N (R : list Node) y : 1 <= n -> counted N (t, c) -> N + 1 < 2 ^ 32 -> eval e (literal t b) = Some (bv n x) ->
  opk (entry_nodes (t, c) ++ R) n y ->
  opk (entry_nodes (t, if b then MkCount (pos c) (u32 (neg c + 1)) else MkCount (u32 (pos c + 1)) (neg c)) ++ R) n (f n x y).
Proof.
  intros Hn (Hp & Hq & _) HN Ht Ho. cbn [fst snd] in *. unfold entry_nodes in *. cbn [fst snd] in *. destruct b; cbn [pos neg literal] in *.
  - rewrite (proj2 (Z.ltb_lt 0 (u32 (neg c + 1)))) by (rewrite u32_small; lia). destruct (0 <? neg c).
    + erewrite opk_again; [exact Ho | done | exact Ht |]. eapply opk_perm; [done | | exact Ho].
      rewrite <- !app_assoc. cbn [app]. by rewrite Permutation_middle.
    + rewrite app_nil_r in Ho. eapply opk_perm; [done | | by apply (opv_cons k f u); [done | exact Ht | exact Ho]].
      rewrite <- !app_assoc. cbn [app]. by rewrite <- Permutation_middle.
  - rewrite (proj2 (Z.ltb_lt 0 (u32 (pos c + 1)))) by (rewrite u32_small; lia). destruct (0 <? pos c).
    + erewrite opk_again; [exact Ho | done | exact Ht | exact Ho].
    + by apply (opv_cons k f u).
Qed.
Lemma count_insert_value m t b n x y N : 1 <= n -> Forall (counted N) m -> N + 1 < 2 ^ 32 -> eval e (literal t b) = Some (bv n x) ->
  opk (terms m) n y -> opk (terms (count_insert m t b)) n (f n x y).
Proof.
  intros Hn Hm HN Ht. revert y. induction Hm as [|[t' c] m Hc _ IH]; intros y Ho; cbn [count_insert terms flat_map] in *.
  - replace (entry_nodes _ ++ []) with [literal t b] by (by destruct b). by apply (opv_cons k f u).
  - destruct (node_eqb t' t) eqn:E.
    + apply node_eqb_eq in E as ->. cbn [flat_map]. by eapply entry_insert.
    + cbn [flat_map]. apply (opv_app_inv k f u) in Ho as (a & w & Ha & Hw & ->); [| done]. pose proof (opv_rng k f u e _ n a Hn Ha).
      pose proof (opv_rng k f u e _ n w Hn Hw). pose proof (eval_bv_range e n x _ Ht) as [_ ?].
      replace (f n x (f n a w)) with (f n a (f n x w)); [by apply (opv_app k f u); [done | | apply IH] |].
      rewrite !ac_assoc by done. by rewrite (ac_comm n a x).
Qed.
Lemma count_child_ok m c n x y N : 1 <= n -> 0 <= N -> Forall (counted N) m -> N + 1 < 2 ^ 32 -> eval e c = Some (bv n x) ->
  opk (terms m) n y -> exists m', count_child m c = Ok m' /\ Forall (counted (N + 1)) m' /\ opk (terms m') n (f n x y).
Proof.
  intros Hn HN0 Hm HN Hc Ho. unfold count_child. destruct (isKind BITVECTOR_NOT c) eqn:Kc.
  - destruct (kind_node _ _ Kc) as [ch ->]; [done .. |]. destruct (eval_one_inv e BITVECTOR_NOT ch _ eq_refl Hc) as (t & ? & -> & _). steps.
    answer. split; [by apply count_insert_counted | by eapply count_insert_value].
  - answer. split; [by apply count_insert_counted | by eapply count_insert_value].
Qed.

Context (op : BitVector -> BitVector -> M BitVector).
Hypothesis op_ok : forall n a b, 1 <= n < 2 ^ 32 -> rng n a -> rng n b -> op (MkBitVector n a) (MkBitVector n b) = Ok (MkBitVector n (f n a b)).

Definition count_step (acc : M (list (Node * Count) * BitVector)) (current : Node) : M (list (Node * Count) * BitVector) :=
  '(m, constant) ← acc;
  if isKind CONST_BITVECTOR current then bv ← getConstBV current; constant ← op constant bv; Ok (m, constant)
  else m ← count_child m current; Ok (m, constant).
Lemma collect_loop_ok ch n w m a y N : 1 <= n < 2 ^ 32 -> 0 <= N -> N + Z.of_nat (length ch) < 2 ^ 32 -> opk ch n w ->
  Forall (counted N) m -> rng n a -> opk (terms m) n y ->
  exists m' a' y', foldl count_step (Ok (m, MkBitVector n a)) ch = Ok (m', MkBitVector n a') /\
    Forall (counted (N + Z.of_nat (length ch))) m' /\ rng n a' /\ opk (terms m') n y' /\ f n a' y' = f n (f n a y) w.
Proof.
  intros Hn. revert w m a y N. induction ch as [|c ch IH]; intros w m a y N HN0 HN Ho Hm Ha Hy; cbn [foldl length] in *.
  - apply opv_nil_inv in Ho as ->. exists m, a, y. rewrite Z.add_0_r. do 4 (split; [done |]). pose proof (opv_rng k f u e _ n y ltac:(lia) Hy).
    symmetry. apply (ac_unit_r k f u); [lia | apply ac_rng; [lia | done | done]].
  - apply (opv_cons_inv k f u) in Ho as (x & w' & Hx & Hw & ->); [| lia]. pose proof (eval_bv_range e n x c Hx) as [_ Rx].
    pose proof (opv_rng k f u e _ n y ltac:(lia) Hy) as Ry. pose proof (opv_rng k f u e _ n w' ltac:(lia) Hw) as Rw. unfold count_step at 2. rewrite M_bind_Ok.
    destruct (isKind CONST_BITVECTOR c) eqn:Kc.
    + rewrite (const_bv e c n x Hx Kc). cbn [getConstBV]. rewrite M_bind_Ok, op_ok, M_bind_Ok by done.
      destruct (IH w' m (f n a x) y N HN0 ltac:(lia) Hw Hm ltac:(apply ac_rng; [lia | done | done]) Hy) as (m' & a' & y' & -> & Hm' & Ha' & Hy' & E).
      exists m', a', y'. split; [done |]. split; [eapply Forall_impl; [exact Hm' |]; unfold counted; intros ? ?; lia |]. do 2 (split; [done |]).
      rewrite E, !ac_assoc by (lia || done || (apply ac_rng; [lia | done | done])). f_equal. rewrite <- !ac_assoc by (lia || done). f_equal. apply ac_comm.
    + destruct (count_child_ok m c n x y N ltac:(lia) HN0 Hm ltac:(lia) Hx Hy) as (m1 & -> & Hm1 & Hy1). rewrite M_bind_Ok.
      destruct (IH w' m1 a (f n x y) (N + 1) ltac:(lia) ltac:(lia) Hw Hm1 Ha Hy1) as (m' & a' & y' & -> & Hm' & Ha' & Hy' & E).
      exists m', a', y'. split; [done |]. split; [eapply Forall_impl; [exact Hm' |]; unfold counted; intros ? ?; lia |]. do 2 (split; [done |]).
      rewrite E, !ac_assoc by (lia || done || (apply ac_rng; [lia | done | done])). f_equal. rewrite <- !ac_assoc by (lia || done). f_equal. apply ac_comm.
Qed.

(** The second loop: the literals of the entries, unless one occurs both ways. *)
Lemma idempotent_children_ok m n y N : 1 <= n -> Forall (counted N) m -> opk (terms m) n y ->
  match idempotent_children m with Some rest => opk rest n y | None => y = z n end.
Proof.
  intros Hn Hm. revert y. induction Hm as [|[t c] m Hc _ IH]; intros y Ho; cbn [idempotent_children terms flat_map] in *; [done |].
  apply (opv_app_inv k f u) in Ho as (a & w & Ha & Hw & ->); [| done]. specialize (IH w Hw). unfold counted in Hc. cbn [fst snd] in Hc.
  pose proof (opv_rng k f u e _ n w Hn Hw) as Rw. unfold entry_nodes in Ha. cbn [fst snd] in Ha.
  destruct (Z.ltb_spec 0 (pos c)), (Z.ltb_spec 0 (neg c)); cbn [andb app] in *; try lia.
  - apply (opv_cons_inv k f u) in Ha as (x & v & Hx & Hv & ->); [| done]. assert (eval e (MkNode BITVECTOR_NOT [t]) = Some (bv n v)) as Ht by (by apply (opv_one k f u)).
    pose proof (e_bnot e t n x Hx) as Ht'. rewrite Ht in Ht'. injection Ht' as ->. pose proof (eval_bv_range e n x t Hx) as [_ Rx].
    by rewrite complement, annihilator.
  - destruct (idempotent_children m) as [rest|]; cbn; [by apply (opv_app k f u e [t]) |].
    rewrite IH, ac_comm. apply annihilator; [done | by eapply (opv_rng k f u)].
  - destruct (idempotent_children m) as [rest|]; cbn; [by apply (opv_app k f u e [_]) |].
    rewrite IH, ac_comm. apply annihilator; [done | by eapply (opv_rng k f u)].
Qed.

(** What is left: the constant, unless it is the unit, and the literals. *)
Context (node_lt : Node -> Node -> bool) (hash_order : list (Node * Count) -> list (Node * Count)).
Hypothesis hash_order_perm : forall m, hash_order m ≡ₚ m.
Hypothesis sorted_kind : k = BITVECTOR_AND \/ k = BITVECTOR_OR \/ k = BITVECTOR_XOR.

Lemma counts_ok ch n w : 1 <= n < 2 ^ 32 -> Z.of_nat (length ch) < 2 ^ 32 -> opk ch n w ->
  exists m a, collect_counts op (MkBitVector n (u n)) ch = Ok (m, MkBitVector n a) /\ rng n a /\ (a = z n -> w = z n) /\
    match idempotent_children (hash_order m) with
    | None => w = z n
    | Some rest => opk ((if a =? u n then [] else [ConstBV (MkBitVector n a)]) ++ rest) n w
    end.
Proof.
  intros Hn Hlen Ho. pose proof (ac_unit_rng (k := k) (f := f) (u := u) n ltac:(lia)) as Ru. pose proof (opv_rng k f u e ch n w ltac:(lia) Ho) as Rw.
  destruct (collect_loop_ok ch n w [] (u n) (u n) 0 Hn ltac:(lia) ltac:(lia) Ho ltac:(constructor) Ru ltac:(apply opv_nil)) as (m & a & y & E & Hm & Ha & Hy & Ey).
  rewrite !ac_unit in Ey by (lia || done). pose proof (opv_rng k f u e _ n y ltac:(lia) Hy) as Ry.
  exists m, a. split; [exact E |]. split; [done |]. split; [intros ->; rewrite <- Ey; by apply annihilator; [lia |] |].
  assert (opk (terms (hash_order m)) n y) as Hy'. { eapply opk_perm; [lia | | exact Hy]. unfold terms. by rewrite hash_order_perm. }
  assert (Forall (counted (0 + Z.of_nat (length ch))) (hash_order m)) as Hm' by (by rewrite hash_order_perm).
  pose proof (idempotent_children_ok (hash_order m) n y _ ltac:(lia) Hm' Hy') as Hr. destruct (idempotent_children _) as [rest|].
  - rewrite <- Ey. destruct (Z.eqb_spec a (u n)) as [->|]; cbn [app]; [rewrite ac_unit by (lia || done); done |].
    apply (opv_cons k f u); [lia | by apply const_eval | done].
  - subst y. rewrite <- Ey, ac_comm. by apply annihilator; [lia |].
Qed.
End idempotent.

Lemma land_bnot n a : 1 <= n -> rng n a -> Z.land a (Sem.bnot n a) = 0.
Proof.
  intros Hn Ha. rewrite bnot_lxor_ones by (lia || done). apply Z.bits_inj'. intros i Hi. rewrite Z.land_spec, Z.lxor_spec, Z.bits_0.
  replace (2 ^ n - 1) with (Z.ones n) by (rewrite Z.ones_equiv; lia). rewrite Z.testbit_ones_nonneg by lia. destruct (Z.ltb_spec i n); [by destruct (Z.testbit a i) |].
  rewrite xorb_false_r. rewrite (testbit_high a n i) by (done || lia). done.
Qed.
Lemma lor_bnot n a : 1 <= n -> rng n a -> Z.lor a (Sem.bnot n a) = 2 ^ n - 1.
Proof.
  intros Hn Ha. rewrite bnot_lxor_ones by (lia || done). replace (2 ^ n - 1) with (Z.ones n) by (rewrite Z.ones_equiv; lia).
  apply Z.bits_inj'. intros i Hi. rewrite Z.lor_spec, Z.lxor_spec, Z.testbit_ones_nonneg by lia.
  destruct (Z.ltb_spec i n); [by destruct (Z.testbit a i) |]. rewrite (testbit_high a n i) by (done || lia). done.
Qed.

Lemma lor_ones n a : 1 <= n -> rng n a -> Z.lor (2 ^ n - 1) a = 2 ^ n - 1.
Proof. intros Hn Ha. rewrite <- (lor_bnot n a) by done. rewrite Z.lor_comm, Z.lor_assoc. by rewrite Z.lor_diag. Qed.

Section rules.
Context (node_lt : Node -> Node -> bool) (hash_order : list (Node * Count) -> list (Node * Count)).
Hypothesis hash_order_perm : forall m, hash_order m ≡ₚ m.

Lemma AndSimplify_at ch v : eval e (MkNode BITVECTOR_AND ch) = Some v -> Z.of_nat (length ch) < 2 ^ 32 ->
  sound_at (AndSimplify node_lt hash_order) (MkNode BITVECTOR_AND ch) v.
Proof.
  intros Hv Hlen. unfold BVRulesCorrect.sound_at, AndSimplify. cbn [applies apply]. answer. intros _.
  pose proof Hv as (Hl & n & w & Hn & Ho & ->)%(eval_nary_iff BITVECTOR_AND (fun _ => Z.land) (fun n => 2 ^ n - 1)).
  rewrite (getSize_bv e _ _ _ Hv), M_bind_Ok, mkBitVectorOnes_ok, M_bind_Ok by done. cbn [children]. pose proof (zero_rng n ltac:(lia)) as R0.
  destruct (counts_ok BITVECTOR_AND (fun _ => Z.land) (fun n => 2 ^ n - 1) (fun _ => 0) ltac:(intros; apply Z.land_diag) ltac:(intros; apply Z.land_0_l)
    land_bnot BV.and ltac:(intros; by apply and_ok; [lia | ..]) hash_order hash_order_perm ch n w Hn Hlen Ho) as (m & a & -> & Ha & Hz & Hr).
  rewrite M_bind_Ok, (mk_small n 0), eqb_same by ranges. destruct (Z.eqb_spec a 0) as [E0|E0]; [answer; rewrite (Hz E0); by apply e_mk_small |].
  rewrite M_bind_Ok, neqb_same. destruct (idempotent_children _) as [rest|]; [| answer; rewrite Hr; by apply e_mk_small].
  replace (if negb (a =? 2 ^ n - 1) then [ConstBV (MkBitVector n a)] else []) with (if a =? 2 ^ n - 1 then [] else [ConstBV (MkBitVector n a)]) by (by destruct (a =? 2 ^ n - 1)).
  destruct (_ ++ rest) as [|d l] eqn:El; [apply opv_nil_inv in Hr as ->; by apply mkOnes_ok |].
  by apply (mkSortedNode_ok e BITVECTOR_AND (fun _ => Z.land) (fun n => 2 ^ n - 1)); [tauto | | |].
Qed.
Lemma OrSimplify_at ch v : eval e (MkNode BITVECTOR_OR ch) = Some v -> Z.of_nat (length ch) < 2 ^ 32 ->
  sound_at (OrSimplify node_lt hash_order) (MkNode BITVECTOR_OR ch) v.
Proof.
  intros Hv Hlen. unfold BVRulesCorrect.sound_at, OrSimplify. cbn [applies apply]. answer. intros _.
  pose proof Hv as (Hl & n & w & Hn & Ho & ->)%(eval_nary_iff BITVECTOR_OR (fun _ => Z.lor) (fun n => 0)). pose proof (zero_rng n ltac:(lia)) as R0.
  rewrite (getSize_bv e _ _ _ Hv), M_bind_Ok. cbn [children]. rewrite (mk_small n 0) by ranges.
  destruct (counts_ok BITVECTOR_OR (fun _ => Z.lor) (fun _ => 0) (fun n => 2 ^ n - 1) ltac:(intros; apply Z.lor_diag) lor_ones
    lor_bnot BV.or ltac:(intros; by apply or_ok; [lia | ..]) hash_order hash_order_perm ch n w Hn Hlen Ho) as (m & a & -> & Ha & Hz & Hr).
  rewrite M_bind_Ok, mkBitVectorOnes_ok, M_bind_Ok, eqb_same by done. destruct (mkOnes_ok e n Hn) as (ones & Eo & Ho1).
  destruct (Z.eqb_spec a (2 ^ n - 1)) as [E0|E0]; [rewrite (Hz E0), Eo; by answer |].
  rewrite neqb_same. destruct (idempotent_children _) as [rest|]; [| rewrite Hr, Eo; by answer].
  replace (if negb (a =? 0) then [ConstBV (MkBitVector n a)] else []) with (if a =? 0 then [] else [ConstBV (MkBitVector n a)]) by (by destruct (a =? 0)).
  destruct (_ ++ rest) as [|d l] eqn:El; [apply opv_nil_inv in Hr as ->; answer; by apply e_mk_small |].
  by apply (mkSortedNode_ok e BITVECTOR_OR (fun _ => Z.lor) (fun _ => 0)); [tauto | | |].
Qed.
End rules.

(** ** Exclusive or: only the parities of the counts matter *)
Abbreviation xorv := (opv (fun _ => Z.lxor) (fun _ => 0) e).
Abbreviation xor_iff := (eval_nary_iff BITVECTOR_XOR (fun _ => Z.lxor) (fun _ => 0) e).
Definition odd_nodes (x : Node * Count) : list Node :=
  (if Z.odd (pos x.2) then [x.1] else []) ++ (if Z.odd (neg x.2) then [MkNode BITVECTOR_NOT [x.1]] else []).
Definition odd_terms (m : list (Node * Count)) : list Node := flat_map odd_nodes m.

Lemma xorv_perm l l' n x : 1 <= n -> l ≡ₚ l' -> xorv l n x -> xorv l' n x.
Proof. intros. by eapply (opv_perm BITVECTOR_XOR (fun _ => Z.lxor) (fun _ => 0)). Qed.
Lemma xorv_cancel c l n x y : 1 <= n -> eval e c = Some (bv n x) -> xorv (c :: l) n y -> xorv l n (Z.lxor x y).
Proof.
  intros Hn Hc (x' & y' & Hx' & Hy' & ->)%(opv_cons_inv BITVECTOR_XOR _ _); [| done]. rewrite Hc in Hx'. injection Hx' as <-.
  by rewrite <- Z.lxor_assoc, Z.lxor_nilpotent, Z.lxor_0_l.
Qed.
Lemma xorv_cons c l n x y : 1 <= n -> eval e c = Some (bv n x) -> xorv l n y -> xorv (c :: l) n (Z.lxor x y).
Proof. by apply (opv_cons BITVECTOR_XOR (fun _ => Z.lxor) (fun _ => 0)). Qed.
Lemma odd_insert t c n x b N (R : list Node) y : 1 <= n -> counted N (t, c) -> N + 1 < 2 ^ 32 -> eval e (literal t b) = Some (bv n x) ->
  xorv (odd_nodes (t, c) ++ R) n y ->
  xorv (odd_nodes (t, if b then MkCount (pos c) (u32 (neg c + 1)) else MkCount (u32 (pos c + 1)) (neg c)) ++ R) n (Z.lxor x y).
Proof.
  intros Hn (Hp & Hq & _) HN Ht Ho. unfold odd_nodes in *. cbn [fst snd] in *. destruct b; cbn [pos neg literal] in *.
  - rewrite u32_small, Z.odd_add by lia. destruct (Z.odd (neg c)); cbn [xorb Z.odd] in *; rewrite <- !app_assoc in *; cbn [app] in *.
    + eapply xorv_cancel; [done | exact Ht |]. eapply xorv_perm; [done | symmetry; apply Permutation_middle | exact Ho].
    + eapply xorv_perm; [done | apply Permutation_middle |]. by apply xorv_cons.
  - rewrite u32_small, Z.odd_add by lia. destruct (Z.odd (pos c)); cbn [xorb Z.odd app] in *; [by eapply xorv_cancel | by apply xorv_cons].
Qed.
Lemma count_insert_odd m t b n x y N : 1 <= n -> Forall (counted N) m -> N + 1 < 2 ^ 32 -> eval e (literal t b) = Some (bv n x) ->
  xorv (odd_terms m) n y -> xorv (odd_terms (count_insert m t b)) n (Z.lxor x y).
Proof.
  intros Hn Hm HN Ht. revert y. induction Hm as [|[t' c] m Hc _ IH]; intros y Ho; cbn [count_insert odd_terms flat_map] in *.
  - replace (odd_nodes _ ++ []) with [literal t b] by (by destruct b). by apply xorv_cons.
  - destruct (node_eqb t' t) eqn:E.
    + apply node_eqb_eq in E as ->. cbn [flat_map]. by eapply odd_insert.
    + cbn [flat_map]. apply (opv_app_inv BITVECTOR_XOR _ _) in Ho as (a & w & Ha & Hw & ->); [| done].
      rewrite <- Z.lxor_assoc, (Z.lxor_comm x a), Z.lxor_assoc. apply (opv_app BITVECTOR_XOR (fun _ => Z.lxor) (fun _ => 0)); [done | done | by apply IH].
Qed.
Lemma count_insert_length m t b : (length m <= length (count_insert m t b) <= S (length m))%nat /\ count_insert m t b <> [].
Proof. induction m as [|[t' c] m [IH _]]; cbn; [split; [lia | done] |]. destruct (node_eqb t' t); cbn; split; try done; lia. Qed.

Definition xor_of (constant : option BitVector) (n a : Z) : Prop :=
  match constant with Some c => c = MkBitVector n a /\ rng n a | None => a = 0 end.
Definition xor_step (acc : M (list (Node * Count) * option BitVector)) (current : Node) : M (list (Node * Count) * option BitVector) :=
  '(m, constant) ← acc;
  if isKind CONST_BITVECTOR current then
    bv ← getConstBV current;
    match constant with
    | Some c => c ← BV.xor c bv; Ok (m, Some c)
    | None => Ok (m, Some bv)
    end
  else m ← count_child m current; Ok (m, constant).
Lemma count_child_odd m c n x y N : 1 <= n -> 0 <= N -> Forall (counted N) m -> N + 1 < 2 ^ 32 -> eval e c = Some (bv n x) ->
  xorv (odd_terms m) n y -> exists m', count_child m c = Ok m' /\ Forall (counted (N + 1)) m' /\ xorv (odd_terms m') n (Z.lxor x y) /\
    (length m' <= S (length m))%nat /\ m' <> [].
Proof.
  intros Hn HN0 Hm HN Hc Ho. unfold count_child. destruct (isKind BITVECTOR_NOT c) eqn:Kc.
  - destruct (kind_node _ _ Kc) as [ch ->]; [done .. |]. destruct (eval_one_inv e BITVECTOR_NOT ch _ eq_refl Hc) as (t & ? & -> & _). steps.
    answer. split; [by apply count_insert_counted |]. split; [by eapply count_insert_odd |]. pose proof (count_insert_length m t true) as [? ?]. split; [lia | done].
  - answer. split; [by apply count_insert_counted |]. split; [by eapply count_insert_odd |]. pose proof (count_insert_length m c false) as [? ?]. split; [lia | done].
Qed.
Lemma collect_xor_ok ch n w m cst a y N : 1 <= n < 2 ^ 32 -> 0 <= N -> N + Z.of_nat (length ch) < 2 ^ 32 -> xorv ch n w ->
  Forall (counted N) m -> xor_of cst n a -> xorv (odd_terms m) n y -> Z.of_nat (length m) <= N ->
  exists m' cst' a' y' N', foldl xor_step (Ok (m, cst)) ch = Ok (m', cst') /\ N' < 2 ^ 32 /\
    Forall (counted N') m' /\ xor_of cst' n a' /\ xorv (odd_terms m') n y' /\ Z.of_nat (length m') <= N' /\
    Z.lxor a' y' = Z.lxor (Z.lxor a y) w /\ (ch <> [] \/ m <> [] \/ cst <> None -> m' <> [] \/ cst' <> None).
Proof.
  intros Hn. revert w m cst a y N. induction ch as [|c ch IH]; intros w m cst a y N HN0 HN Ho Hm Ha Hy Hlm; cbn [foldl length] in *.
  - apply opv_nil_inv in Ho as ->. exists m, cst, a, y, N. rewrite Z.lxor_0_r. repeat split; try done; [lia |]. intuition done.
  - apply (opv_cons_inv BITVECTOR_XOR _ _) in Ho as (x & w' & Hx & Hw & ->); [| lia]. pose proof (eval_bv_range e n x c Hx) as [_ Rx].
    unfold xor_step at 2. rewrite M_bind_Ok. destruct (isKind CONST_BITVECTOR c) eqn:Kc.
    + rewrite (const_bv e c n x Hx Kc). cbn [getConstBV]. rewrite M_bind_Ok.
      assert (exists cst', (match cst with Some c => c ← BV.xor c (MkBitVector n x); Ok (m, Some c) | None => Ok (m, Some (MkBitVector n x)) end) = Ok (m, Some cst') /\
        xor_of (Some cst') n (Z.lxor a x)) as (cst' & -> & Hc').
      { destruct cst as [c'|]; cbn in Ha.
        - destruct Ha as [-> Ra]. rewrite xor_ok by (lia || done). rewrite M_bind_Ok. answer. split; [done |]. by apply rng_lxor; [lia | |].
        - subst a. answer. by rewrite Z.lxor_0_l. }
      destruct (IH w' m (Some cst') _ y N HN0 ltac:(lia) Hw Hm Hc' Hy Hlm) as (m' & cst2 & a' & y' & N' & -> & HN' & Hm' & Ha' & Hy' & Hl' & E & Hne).
      exists m', cst2, a', y', N'. do 6 (split; [done |]). split; [| intros _; apply Hne; by right; right].
      rewrite E, !Z.lxor_assoc. f_equal. rewrite <- !Z.lxor_assoc. f_equal. apply Z.lxor_comm.
    + destruct (count_child_odd m c n x y N ltac:(lia) HN0 Hm ltac:(lia) Hx Hy) as (m1 & -> & Hm1 & Hy1 & Hl1 & Hne1). rewrite M_bind_Ok.
      destruct (IH w' m1 cst a _ (N + 1) ltac:(lia) ltac:(lia) Hw Hm1 Ha Hy1 ltac:(lia)) as (m' & cst2 & a' & y' & N' & -> & HN' & Hm' & Ha' & Hy' & Hl' & E & Hne).
      exists m', cst2, a', y', N'. do 6 (split; [done |]). split; [| intros _; apply Hne; by right; left].
      rewrite E, !Z.lxor_assoc. f_equal. rewrite <- !Z.lxor_assoc. f_equal. apply Z.lxor_comm.
Qed.

(** The second loop: [true_count] stands for as many vectors of ones. *)
Definition ones_if (n : Z) (b : bool) : Z := if b then 2 ^ n - 1 else 0.
Lemma ones_if_negb n b : 1 <= n -> ones_if n (negb b) = Z.lxor (ones_if n b) (2 ^ n - 1).
Proof. intros Hn. destruct b; cbn; [by rewrite Z.lxor_nilpotent | by rewrite Z.lxor_0_l]. Qed.
Definition xor_push : list Node * Z * bool -> Node * Count -> list Node * Z * bool := fun '(ch, true_count, seen_false) '(t, c) =>
  let seen_false := if seen_false : bool then seen_false else (1 <? pos c) || (1 <? neg c) in
  if Z.odd (pos c) && Z.odd (neg c) then (ch, u32 (true_count + 1), seen_false)
  else if Z.odd (pos c) then (ch ++ [t], true_count, seen_false)
  else if Z.odd (neg c) then (ch ++ [MkNode BITVECTOR_NOT [t]], true_count, seen_false)
  else (ch, true_count, seen_false).
Definition nonempty (st : list Node * Z * bool) : Prop := st.1.1 <> [] \/ st.1.2 <> 0 \/ st.2 = true.
Lemma xor_push_ok N ch tc sf t c n a y : 1 <= n -> counted N (t, c) -> 0 <= tc -> tc + 1 < 2 ^ 32 -> xorv ch n a -> xorv (odd_nodes (t, c)) n y ->
  exists ch' tc' sf' a', xor_push (ch, tc, sf) (t, c) = (ch', tc', sf') /\ xorv ch' n a' /\ 0 <= tc' <= tc + 1 /\ nonempty (ch', tc', sf') /\
    Z.lxor a' (ones_if n (Z.odd tc')) = Z.lxor (Z.lxor a y) (ones_if n (Z.odd tc)).
Proof.
  intros Hn (Hp & Hq & Hc) Htc Htc1 Ha Hy. unfold xor_push, odd_nodes, nonempty in *. cbn [fst snd] in *.
  destruct (Z.odd (pos c)) eqn:Op, (Z.odd (neg c)) eqn:Oq; cbn [andb app] in *.
  - apply (opv_cons_inv BITVECTOR_XOR _ _) in Hy as (x & w & Hx & Hw & ->); [| done].
    assert (eval e (MkNode BITVECTOR_NOT [t]) = Some (bv n w)) as Hnt by (by apply (opv_one BITVECTOR_XOR (fun _ => Z.lxor) (fun _ => 0))).
    rewrite (e_bnot e t n x Hx) in Hnt. injection Hnt as <-. pose proof (eval_bv_range e n x t Hx) as [_ Rx].
    eexists _, _, _, a. split; [reflexivity |]. rewrite u32_small by lia. split; [done |]. split; [lia |]. split; [right; left; cbn; lia |].
    rewrite Z.odd_add. cbn [Z.odd]. rewrite xorb_true_r, ones_if_negb, bnot_lxor_ones by (lia || done).
    rewrite <- (Z.lxor_assoc x x), Z.lxor_nilpotent, Z.lxor_0_l, !Z.lxor_assoc. f_equal. apply Z.lxor_comm.
  - eexists _, _, _, (Z.lxor a y). split; [reflexivity |]. split; [by apply (opv_app BITVECTOR_XOR (fun _ => Z.lxor) (fun _ => 0)) |].
    split; [lia |]. split; [left; cbn; by destruct ch | done].
  - eexists _, _, _, (Z.lxor a y). split; [reflexivity |]. split; [by apply (opv_app BITVECTOR_XOR (fun _ => Z.lxor) (fun _ => 0)) |].
    split; [lia |]. split; [left; cbn; by destruct ch | done].
  - apply opv_nil_inv in Hy as ->. eexists _, _, _, a. split; [reflexivity |]. split; [done |]. split; [lia |]. rewrite Z.lxor_0_r. split; [| done].
    right; right. cbn. destruct sf; [done |]. apply orb_true_iff. rewrite !Z.ltb_lt.
    assert (pos c <> 1) by (by intros E; rewrite E in Op). assert (neg c <> 1) by (by intros E; rewrite E in Oq). lia.
Qed.
Lemma xor_children_ok N m ch tc sf n a y : 1 <= n -> Forall (counted N) m -> 0 <= tc -> tc + Z.of_nat (length m) < 2 ^ 32 -> xorv ch n a -> xorv (odd_terms m) n y ->
  exists ch' tc' sf' a', foldl xor_push (ch, tc, sf) m = (ch', tc', sf') /\ xorv ch' n a' /\ 0 <= tc' /\
    (m <> [] \/ nonempty (ch, tc, sf) -> nonempty (ch', tc', sf')) /\
    Z.lxor a' (ones_if n (Z.odd tc')) = Z.lxor (Z.lxor a y) (ones_if n (Z.odd tc)).
Proof.
  intros Hn Hm. revert ch tc sf a y. induction Hm as [|[t c] m Hc _ IH]; intros ch tc sf a y Htc Hlen Ha Hy; cbn [foldl length odd_terms flat_map] in *.
  - apply opv_nil_inv in Hy as ->. exists ch, tc, sf, a. rewrite Z.lxor_0_r. do 3 (split; [done |]). split; [intuition done | done].
  - apply (opv_app_inv BITVECTOR_XOR _ _) in Hy as (x & w & Hx & Hw & ->); [| done].
    destruct (xor_push_ok N ch tc sf t c n a x Hn Hc Htc ltac:(lia) Ha Hx) as (ch1 & tc1 & sf1 & a1 & -> & Ha1 & Htc1 & Hne1 & E1).
    destruct (IH ch1 tc1 sf1 a1 w ltac:(lia) ltac:(lia) Ha1 Hw) as (ch2 & tc2 & sf2 & a2 & -> & Ha2 & Htc2 & Hne2 & E2).
    exists ch2, tc2, sf2, a2. do 3 (split; [done |]). split; [intros _; auto |].
    rewrite E2, Z.lxor_assoc, (Z.lxor_comm w), <- Z.lxor_assoc, E1, !Z.lxor_assoc. f_equal. f_equal. apply Z.lxor_comm.
Qed.
Lemma xor_consts n c cs a zs : 1 <= n < 2 ^ 32 -> Forall2 (fun c z => c = MkBitVector n z /\ rng n z) (c :: cs) (a :: zs) ->
  foldl (fun acc x => r ← acc; BV.xor r x) (Ok c) cs = Ok (MkBitVector n (foldl Z.lxor a zs)) /\ rng n (foldl Z.lxor a zs).
Proof.
  intros Hn H. inversion_clear H as [|? ? ? ? [-> Ra] Hcs]. revert a Ra. induction Hcs as [|c' z cs zs [-> Rz] _ IH]; intros a Ra; cbn [foldl]; [done |].
  rewrite M_bind_Ok, xor_ok by (lia || done). apply IH. by apply rng_lxor; [lia | |].
Qed.
Lemma foldl_lxor a zs : foldl Z.lxor a zs = Z.lxor a (foldl Z.lxor 0 zs).
Proof.
  revert a. induction zs as [|z zs IH]; intros a; cbn [foldl]; [by rewrite Z.lxor_0_r |]. rewrite IH, (IH (Z.lxor 0 z)), Z.lxor_0_l. apply Z.lxor_assoc.
Qed.

Lemma XorSimplify_at node_lt hash_order ch v : (forall m, hash_order m ≡ₚ m) -> eval e (MkNode BITVECTOR_XOR ch) = Some v -> Z.of_nat (length ch) < 2 ^ 32 ->
  sound_at (XorSimplify node_lt hash_order) (MkNode BITVECTOR_XOR ch) v.
Proof.
  intros Hperm Hv Hlen. unfold BVRulesCorrect.sound_at, XorSimplify. cbn [applies apply]. answer. intros _.
  pose proof Hv as (Hl & n & w & Hn & Ho & ->)%xor_iff. rewrite (getSize_bv e _ _ _ Hv), M_bind_Ok. cbn [children].
  pose proof (zero_rng n ltac:(lia)) as R0. pose proof (ones_rng n ltac:(lia)) as R1.
  destruct (collect_xor_ok ch n w [] None 0 0 0 Hn ltac:(lia) ltac:(lia) Ho ltac:(constructor) eq_refl ltac:(apply opv_nil) ltac:(done))
    as (m & cst & a & y & N & E & HN & Hm & Ha & Hy & Hlm & Ew & Hne). rewrite !Z.lxor_0_l in Ew.
  change (collect_xor ch) with (foldl xor_step (Ok ([], None)) ch). rewrite E, M_bind_Ok. clear E.
  assert (Forall (counted N) (hash_order m)) as Hm' by (by rewrite Hperm). assert (xorv (odd_terms (hash_order m)) n y) as Hy'.
  { eapply xorv_perm; [lia | | exact Hy]. unfold odd_terms. by rewrite Hperm. }
  assert (m <> [] -> hash_order m <> []) as Hnem. { intros Hm0 E0. apply Hm0. pose proof (Hperm m) as HP. rewrite E0 in HP. by apply Permutation_nil in HP. }
  assert (length (hash_order m) = length m) as Elen by (by rewrite Hperm).
  destruct (xor_children_ok N (hash_order m) [] 0 false n 0 y ltac:(lia) Hm' ltac:(lia) ltac:(lia) ltac:(apply opv_nil) Hy') as (ch1 & tc & sf & a1 & E & Ha1 & Htc & Hne1 & E1).
  change (xor_children (hash_order m)) with (foldl xor_push ([], 0, false) (hash_order m)). rewrite E. clear E. cbn [Z.odd ones_if] in E1. rewrite Z.lxor_0_l, Z.lxor_0_r in E1.
  rewrite mkBitVectorOnes_ok, M_bind_Ok, (mk_small n 0) by (done || lia). set (cs := _ ++ _).
  assert (exists zs, Forall2 (fun c z => c = MkBitVector n z /\ rng n z) cs zs /\ foldl Z.lxor 0 zs = Z.lxor (ones_if n (Z.odd tc)) a /\
    (ch1 = [] -> cs <> [])) as (zs & Hzs & Ezs & Hcs).
  { exists ((if negb (tc =? 0) then [ones_if n (Z.odd tc)] else []) ++ (if sf then [0] else []) ++ (match cst with Some _ => [a] | None => [] end)).
    subst cs. split; [| split].
    - apply Forall2_app; [destruct (tc =? 0); cbn; [constructor | constructor; [by destruct (Z.odd tc) | constructor]] |].
      apply Forall2_app; [destruct sf; [constructor; [done | constructor] | constructor] |]. destruct cst as [c|]; [| constructor]. constructor; [done | constructor].
    - destruct (Z.eqb_spec tc 0) as [->|]; destruct sf, cst as [c|]; cbn [negb app foldl Z.odd ones_if]; rewrite ?Z.lxor_0_l, ?Z.lxor_0_r; try done; by rewrite Ha, ?Z.lxor_0_r.
    - intros ->. destruct (Hne ltac:(left; by destruct ch)) as [H|H]; [| destruct cst; [| done]; destruct (negb _), sf; done].
      destruct (Hne1 (or_introl (Hnem H))) as [?|[H1|H1]]; cbn in *; [done | rewrite (proj2 (Z.eqb_neq tc 0) H1); done | rewrite H1]. by destruct (negb _). }
  assert (exists ch2, (match cs with [] => Ok ch1 | c :: cs => result ← foldl (fun acc x => r ← acc; BV.xor r x) (Ok c) cs; Ok (ch1 ++ [ConstBV result]) end) = Ok ch2 /\
    xorv ch2 n w /\ ch2 <> []) as (ch2 & -> & Hch2 & Hne2).
  { assert (w = Z.lxor a1 (foldl Z.lxor 0 zs)) as -> by (by rewrite Ezs, <- Z.lxor_assoc, E1, Z.lxor_comm). destruct Hzs as [|c z cs' zs Hc Hzs].
    - exists ch1. cbn [foldl]. rewrite Z.lxor_0_r. split; [done |]. split; [done |]. intros ->. by apply Hcs.
    - destruct (xor_consts n c cs' z zs Hn ltac:(by constructor)) as [-> Rr]. rewrite M_bind_Ok. answer. split; [| by destruct ch1].
      cbn [foldl]. rewrite Z.lxor_0_l. apply (opv_snoc BITVECTOR_XOR (fun _ => Z.lxor) (fun _ => 0)); [lia | done | by apply const_eval]. }
  rewrite M_bind_Ok. replace (negb (length ch2 =? 0)%nat) with true by (by destruct ch2). cbn [check]. rewrite M_bind_Ok.
  by apply (mkSortedNode_ok e BITVECTOR_XOR (fun _ => Z.lxor) (fun _ => 0)); [right; right | | |].
Qed.

(** ** Slicing *)
Lemma mkNodeV_concat ch n z : catv e ch n z -> ch <> [] -> n < 2 ^ 32 -> exists r, mkNodeV BITVECTOR_CONCAT ch = Ok r /\ eval e r = Some (bv n z).
Proof.
  intros H Hne Hn. pose proof (catv_pos e ch n z H Hne). destruct ch as [|c [|d ch]]; [done | exists c; split; [done | by apply catv_one] |].
  answer. apply eval_concat_iff. split; [cbn; lia |]. exists n, z. split; [done |]. split; [lia | done].
Qed.
Lemma bit_ok n a i : n < 2 ^ 31 -> 0 <= i < n -> BV.isBitSet (MkBitVector n a) i = Ok (Z.testbit a i).
Proof.
  intros Hn Hi. unfold BV.isBitSet. cbn [d_size d_value]. rewrite (proj2 (Z.ltb_lt i n)) by lia. cbn [check]. rewrite M_bind_Ok, isBitSet_ok by lia. done.
Qed.
Lemma bitsets_ok n a : 0 <= n < 2 ^ 31 -> bitsets (MkBitVector n a) = Ok (map (fun i => Z.testbit a (Z.of_nat i)) (seq 0 (Z.to_nat n))).
Proof.
  intros Hn. unfold bitsets. cbn [d_size]. assert (Forall (fun i => Z.of_nat i < n) (seq 0 (Z.to_nat n))) as H.
  { apply Forall_forall. intros i Hi%elem_of_seq. lia. }
  induction H as [|i l Hi _ IH]; cbn [mapM map]; [done |]. rewrite bit_ok by lia. by rewrite M_bind_Ok, IH, M_bind_Ok.
Qed.
Lemma first_const_perm ch c : first_const ch = Some c -> isKind CONST_BITVECTOR c = true /\ ch ≡ₚ c :: drop_first_const ch.
Proof.
  induction ch as [|d ch IH]; cbn; [done |]. destruct (isKind CONST_BITVECTOR d) eqn:Kd; [by intros [= <-] |].
  intros H. destruct (IH H) as [Hc HP]. split; [done |]. rewrite HP at 1. apply Permutation_swap.
Qed.

Section slicing.
Context (k : Kind) (f : Z -> Z -> Z -> Z) (u : Z -> Z) {AC : ACKind k f u}.
Hypothesis slice_op : forall n m a b h l, 0 <= l <= h -> f m (Sem.extract a h l) (Sem.extract b h l) = Sem.extract (f n a b) h l.

Lemma slice_value c o n a b h l : eval e c = Some (bv n a) -> eval e o = Some (bv n b) -> n < 2 ^ 32 -> 0 <= l <= h -> h < n ->
  eval e (MkNode k [mkExtract c (u32 h) (u32 l); mkExtract o (u32 h) (u32 l)]) = Some (bv (h - l + 1) (Sem.extract (f n a b) h l)).
Proof.
  intros Hc Ho Hn Hl Hh. rewrite !u32_small by lia. apply (eval_nary_iff k f u). split; [done |]. exists (h - l + 1), (Sem.extract (f n a b) h l).
  split; [lia |]. split; [| done]. rewrite <- (slice_op n (h - l + 1)) by done.
  apply (opv_cons k f u); [lia | by eapply e_extract |]. apply (opv_one_intro k f u). by eapply e_extract.
Qed.
(** What the slices collected so far cover: the bits above [end_]. *)
Definition sliced (acc : list Node) (n v end_ : Z) : Prop :=
  (end_ = n - 1 /\ acc = []) \/ (end_ < n - 1 /\ catv e acc (n - 1 - end_) (Sem.extract v (n - 1) (end_ + 1))).
Lemma sliced_push acc n v end_ lo c : sliced acc n v end_ -> 0 <= lo <= end_ -> end_ < n ->
  eval e c = Some (bv (end_ - lo + 1) (Sem.extract v end_ lo)) -> catv e (acc ++ [c]) (n - lo) (Sem.extract v (n - 1) lo).
Proof.
  intros [[-> ->]|[He Hc0]] Hlo Hen Hc; cbn [app].
  - apply catv_one. rewrite Hc. do 2 f_equal. lia.
  - rewrite <- (extract_join v (n - 1) end_ lo) by lia. replace (n - lo) with (n - 1 - end_ + (end_ - lo + 1)) by lia.
    apply catv_app_intro; [done | by apply catv_one].
Qed.
Lemma slicing_loop_ok c o n a b i start end_ acc : n < 2 ^ 31 -> eval e c = Some (bv n a) -> eval e o = Some (bv n b) -> (1 <= i)%nat ->
  start = Z.of_nat i -> start <= end_ < n -> sliced acc n (f n a b) end_ ->
  exists r, slicing_loop k c o (MkBitVector n a) i start end_ acc = Ok r /\ catv e r n (Sem.extract (f n a b) (n - 1) 0) /\ r <> [].
Proof.
  intros Hn Hc Ho. revert start end_ acc. induction i as [|i IH]; intros start end_ acc Hi Hs He Hacc; [lia |]. cbn [slicing_loop].
  rewrite !bit_ok, !M_bind_Ok by lia. pose proof (eval_bv_range e n a c Hc) as [Hn1 _].
  assert (exists start' end' acc', (if negb (Bool.eqb (Z.testbit a (Z.of_nat i + 1)) (Z.testbit a (Z.of_nat i)))
    then (Z.of_nat i, Z.of_nat i, acc ++ [MkNode k [mkExtract c (u32 end_) (u32 start); mkExtract o (u32 end_) (u32 start)]])
    else (start - 1, end_, acc)) = (start', end', acc') /\ start' = Z.of_nat i /\ start' <= end' < n /\ sliced acc' n (f n a b) end')
    as (start' & end' & acc' & -> & Hs' & He' & Hacc').
  { destruct (negb _).
    - eexists _, _, _. split; [reflexivity |]. split; [done |]. split; [lia |]. right. split; [lia |].
      replace (n - 1 - Z.of_nat i) with (n - start) by lia. replace (Z.of_nat i + 1) with start by lia.
      eapply sliced_push; [exact Hacc | lia | lia |]. apply slice_value; (done || lia).
    - eexists _, _, _. split; [reflexivity |]. split; [lia |]. split; [lia | done]. }
  destruct i as [|i].
  - cbn [Nat.eqb slicing_loop]. answer. split; [| by destruct acc']. replace n with (n - 0) at 1 by lia. eapply sliced_push; [exact Hacc' | lia | lia |].
    apply slice_value; (done || lia).
  - cbn [Nat.eqb]. apply IH; [lia | done | lia | done].
Qed.

Lemma slicing_at ch v : isBitwise (MkNode k ch) = true -> eval e (MkNode k ch) = Some v -> (forall n z, v = bv n z -> n < 2 ^ 31) ->
  sound_at BitwiseSlicing (MkNode k ch) v.
Proof.
  intros Hk Hv Hw. unfold BVRulesCorrect.sound_at, BitwiseSlicing. cbn [applies apply]. rewrite Hk. cbn [negb].
  pose proof Hv as (Hl & n & z & Hn & Ho & ->)%(eval_nary_iff k f u). specialize (Hw n z eq_refl). rewrite (getSize_bv e _ _ _ Hv), M_bind_Ok. cbn [children getKind].
  destruct (Z.eqb_spec n 1) as [->|Hn1]; [by exists false |]. destruct (first_const ch) as [c|] eqn:Ef; [| by exists false].
  destruct (first_const_perm ch c Ef) as [Kc HP]. eapply (opv_perm k f u) in Ho; [| lia | exact HP].
  apply (opv_cons_inv k f u) in Ho as (a & b & Ha & Hb & ->); [| lia]. pose proof (const_bv e c n a Ha Kc) as ->. cbn [getConstBV]. rewrite M_bind_Ok.
  destruct (BV.eqb _ _); [by exists false |]. rewrite bitsets_ok, M_bind_Ok by lia. answer. intros _.
  destruct (mkNodeV_ok e k f u (drop_first_const ch) n b Hn Hb) as (o & -> & Hob).
  { intros E. pose proof (Permutation_length HP) as E'. rewrite E in E'. cbn in E'. lia. }
  rewrite !M_bind_Ok. cbn [d_size]. rewrite u32_small, i32_small by lia.
  destruct (slicing_loop_ok (ConstBV (MkBitVector n a)) o n a b (Z.to_nat (n - 1)) (n - 1) (n - 1) [] Hw Ha Hob ltac:(lia) ltac:(lia) ltac:(lia) ltac:(by left))
    as (r & -> & Hr & Hne). rewrite M_bind_Ok. rewrite extract_whole in Hr; [by apply mkNodeV_concat; [| | lia] | lia |].
  apply ac_rng; [lia | by apply eval_bv_range in Ha as [_ ?] | by apply eval_bv_range in Hob as [_ ?]].
Qed.
End slicing.

Lemma BitwiseSlicing_at m v : eval e m = Some v -> (forall n z, v = bv n z -> n < 2 ^ 31) -> sound_at BitwiseSlicing m v.
Proof.
  intros Hv Hw. destruct (isBitwise m) eqn:Hk; [| exists false; unfold BitwiseSlicing; cbn [applies]; rewrite Hk; done].
  destruct m as [| | |k ch]; try discriminate Hk. destruct k; try discriminate Hk.
  - apply (slicing_at BITVECTOR_AND (fun _ => Z.land) (fun n => 2 ^ n - 1)); [intros; by apply extract_land | exact Hk | exact Hv | exact Hw].
  - apply (slicing_at BITVECTOR_OR (fun _ => Z.lor) (fun _ => 0)); [intros; by apply extract_lor | exact Hk | exact Hv | exact Hw].
  - apply (slicing_at BITVECTOR_XOR (fun _ => Z.lxor) (fun _ => 0)); [intros; by apply extract_lxor | exact Hk | exact Hv | exact Hw].
Qed.

(** ** What [XorSimplify] leaves: a term that is not a constant, and no nested
    exclusive or *)
Definition plain (c : Node) : Prop := isKind CONST_BITVECTOR c = false /\ isKind BITVECTOR_XOR c = false.
Definition not_xor (c : Node) : Prop := isKind BITVECTOR_XOR c = false.
Definition xor_shaped (r : Node) : Prop := forall ch, r = MkNode BITVECTOR_XOR ch ->
  Exists (fun c => isKind CONST_BITVECTOR c = false) ch /\ Forall not_xor ch.
Definition clean (x : Node * Count) : Prop := 0 < pos x.2 -> plain x.1.

Lemma count_insert_clean m t (b : bool) : Forall clean m -> (b = false -> plain t) -> Forall clean (count_insert m t b).
Proof.
  intros Hm Ht. induction Hm as [|[t' c] m Hc Hm IH]; cbn [count_insert].
  - constructor; [| constructor]. destruct b; intros H; cbn in *; [lia | auto].
  - destruct (node_eqb t' t) eqn:E; constructor; try done. apply node_eqb_eq in E as ->. destruct b; intros H; cbn in *; [by apply Hc | auto].
Qed.
Lemma collect_xor_clean ch m cst m' cst' : Forall not_xor ch -> Forall clean m -> foldl xor_step (Ok (m, cst)) ch = Ok (m', cst') -> Forall clean m'.
Proof.
  intros Hch. revert m cst. induction Hch as [|c ch Hc _ IH]; intros m cst Hm; cbn [foldl]; [by intros [= <- _] |].
  destruct (xor_step (Ok (m, cst)) c) as [[m1 cst1]|x] eqn:E; [| intros H; exfalso; clear -H; by induction ch].
  apply IH. unfold xor_step in E. rewrite M_bind_Ok in E. destruct (isKind CONST_BITVECTOR c) eqn:Kc.
  - apply M_bind_inv in E as (v & _ & E). destruct cst; [apply M_bind_inv in E as (w & _ & E) |]; by injection E as <- _.
  - apply M_bind_inv in E as (m2 & E2 & [= <- _]). unfold count_child in E2. destruct (isKind BITVECTOR_NOT c).
    + apply M_bind_inv in E2 as (t & _ & [= <-]). by apply count_insert_clean.
    + injection E2 as <-. by apply count_insert_clean.
Qed.
Lemma xor_children_plain m ch tc sf ch' tc' sf' : Forall clean m -> Forall plain ch -> (forall x, x ∈ m -> 0 <= pos x.2) ->
  foldl xor_push (ch, tc, sf) m = (ch', tc', sf') -> Forall plain ch'.
Proof.
  intros Hm. revert ch tc sf. induction Hm as [|[t c] m Hc _ IH]; intros ch tc sf Hch Hp; cbn [foldl]; [by intros [= <- _ _] |].
  assert (0 <= pos c) as Hpc by (apply (Hp (t, c)); left). assert (forall x, x ∈ m -> 0 <= pos x.2) as Hp' by (intros; apply Hp; by right). unfold xor_push at 2.
  assert (forall d, plain d -> Forall plain (ch ++ [d])) as Hpush by (intros d Hd; apply Forall_app; split; [done | constructor; [done | constructor]]).
  destruct (Z.odd (pos c)) eqn:Op, (Z.odd (neg c)); cbn [andb]; intros H; (eapply IH; [| exact Hp' | exact H]); try done; apply Hpush; [| by split].
  apply Hc. cbn. assert (pos c <> 0) by (intros E; by rewrite E in Op). lia.
Qed.
Lemma count_insert_pos m t b : (forall x, x ∈ m -> 0 <= pos x.2) -> forall x, x ∈ count_insert m t b -> 0 <= pos x.2.
Proof.
  induction m as [|[t' c] m IH]; cbn [count_insert]; intros Hm x.
  - intros ->%list_elem_of_singleton. by destruct b.
  - assert (forall x, x ∈ m -> 0 <= pos x.2) as Hm' by (intros; apply Hm; by right). assert (0 <= pos c) as Hc by (apply (Hm (t', c)); left).
    destruct (node_eqb t' t); intros [->|Hx]%elem_of_cons; [destruct b; cbn; [done |] | auto | done | by apply IH].
    unfold u32. apply Z.mod_pos_bound. lia.
Qed.
Lemma collect_xor_pos ch m cst m' cst' : (forall x, x ∈ m -> 0 <= pos x.2) -> foldl xor_step (Ok (m, cst)) ch = Ok (m', cst') -> forall x, x ∈ m' -> 0 <= pos x.2.
Proof.
  revert m cst. induction ch as [|c ch IH]; intros m cst Hm; cbn [foldl]; [by intros [= <- _] |].
  destruct (xor_step (Ok (m, cst)) c) as [[m1 cst1]|x] eqn:E; [| intros H; exfalso; clear -H; by induction ch].
  apply IH. unfold xor_step in E. rewrite M_bind_Ok in E. destruct (isKind CONST_BITVECTOR c) eqn:Kc.
  - apply M_bind_inv in E as (v & _ & E). destruct cst; [apply M_bind_inv in E as (w & _ & E) |]; by injection E as <- _.
  - apply M_bind_inv in E as (m2 & E2 & [= <- _]). unfold count_child in E2. destruct (isKind BITVECTOR_NOT c).
    + apply M_bind_inv in E2 as (t & _ & [= <-]). by apply count_insert_pos.
    + injection E2 as <-. by apply count_insert_pos.
Qed.
Lemma XorSimplify_shape node_lt hash_order ch r : (forall m, hash_order m ≡ₚ m) -> Forall not_xor ch ->
  apply (XorSimplify node_lt hash_order) (MkNode BITVECTOR_XOR ch) = Ok r -> xor_shaped r.
Proof.
  intros Hperm Hch H. unfold XorSimplify in H. cbn [apply children] in H. apply M_bind_inv in H as (size & _ & H). apply M_bind_inv in H as ([m cst] & Em & H).
  change (foldl xor_step (Ok ([], None)) ch = Ok (m, cst)) in Em. pose proof (collect_xor_clean ch [] None m cst Hch ltac:(constructor) Em) as Hclean.
  pose proof (collect_xor_pos ch [] None m cst ltac:(intros x Hx; by apply not_elem_of_nil in Hx) Em) as Hpos.
  destruct (xor_children (hash_order m)) as [[ch1 tc] sf] eqn:Ex. assert (Forall plain ch1) as Hplain.
  { eapply (xor_children_plain (hash_order m)); [by rewrite Hperm | by constructor | | exact Ex]. intros x. rewrite Hperm. apply Hpos. }
  apply M_bind_inv in H as (ones & _ & H). apply M_bind_inv in H as (ch2 & E2 & H). apply M_bind_inv in H as (_ & _ & H).
  assert (ch2 = ch1 \/ exists c, ch2 = ch1 ++ [ConstBV c]) as Hch2.
  { destruct (_ ++ _) as [|c cs]; [injection E2 as <-; by left |]. apply M_bind_inv in E2 as (res & _ & [= <-]). eauto. }
  assert (Forall not_xor ch2) as Hx2.
  { destruct Hch2 as [->|[c ->]]; [| apply Forall_app; split; [| by repeat constructor]]; (eapply Forall_impl; [exact Hplain |]; by intros ? [_ ?]). }
  unfold mkSortedNode in H. apply M_bind_inv in H as (_ & _ & H). intros l ->. destruct ch2 as [|c [|d ch2]]; [done | |].
  - injection H as ->. inversion_clear Hx2 as [|? ? Hc _]. unfold not_xor in Hc. by rewrite isKind_refl in Hc.
  - assert (l = sort_nodes node_lt (c :: d :: ch2)) as -> by congruence. split; [| by rewrite sort_nodes_perm].
    apply Exists_exists. exists c. split; [rewrite sort_nodes_perm; left |]. destruct Hch2 as [<-|[x Ex2]].
    + by inversion_clear Hplain as [|? ? [? _] _].
    + destruct ch1 as [|c1 ch1]; [by destruct ch2 |]. injection Ex2 as -> _. by inversion_clear Hplain as [|? ? [? _] _].
Qed.
End sound.
