(* ===== verification/Subterm.v ===== *)
(** * Subterms

    Models [hasSubterm] of [src/expr/node.h]: the search goes through the term breadth
    first and visits each of its subterms once. *)

From S2P Require Import Prelude Integer BitVector Node BVRules.

(** The children of the current term: [None] when the term is among them, otherwise the
    visited set and the children to process. *)
Fixpoint scan_children (t : Node) (cs : list Node) (visited pushed : list Node) : option (list Node * list Node) :=
  match cs with
  | [] => Some (visited, pushed)
  | child :: cs =>
      if node_eqb child t then None
      else if existsb (node_eqb child) visited then scan_children t cs visited pushed
      else scan_children t cs (child :: visited) (pushed ++ [child])
  end.
(** [toProcess] from the index of the loop on. *)
Fixpoint subterm_loop (t : Node) (fuel : nat) (toProcess visited : list Node) : M bool :=
  match toProcess with
  | [] => Ok false
  | current :: toProcess =>
      match fuel with
      | O => Throw OutOfFuel
      | S fuel' =>
          match scan_children t (children current) visited [] with
          | None => Ok true
          | Some (visited, pushed) => subterm_loop t fuel' (toProcess ++ pushed) visited
          end
      end
  end.
Definition hasSubterm (n t : Node) (strict : bool) : M bool :=
  if negb strict && node_eqb n t then Ok true else subterm_loop t (num_nodes n) [n] [].

(** ** The reference: a term strictly below another *)
Inductive below (t : Node) : Node -> Prop :=
  | below_child n : t ∈ children n -> below t n
  | below_deep n c : c ∈ children n -> below t c -> below t n.

Definition nodes_of (l : list Node) : nat := sum_list_with num_nodes l.
Lemma nodes_of_children n : num_nodes n = S (nodes_of (children n)).
Proof. by destruct n. Qed.

Lemma member c l : existsb (node_eqb c) l = true <-> c ∈ l.
Proof.
  rewrite existsb_exists. split.
  - intros (x & Hx & ->%node_eqb_eq). by apply list_elem_of_In.
  - intros H. exists c. split; [by apply list_elem_of_In | by apply node_eqb_eq].
Qed.

Lemma scan_found t cs visited pushed : scan_children t cs visited pushed = None -> t ∈ cs.
Proof.
  revert visited pushed. induction cs as [|c cs IH]; intros visited pushed; cbn; [done |].
  destruct (node_eqb c t) eqn:E; [apply node_eqb_eq in E as ->; intros _; left |]. destruct (existsb _ _); intros H; right; by eapply IH.
Qed.
Lemma scan_done t cs visited pushed visited' pushed' : scan_children t cs visited pushed = Some (visited', pushed') ->
  t ∉ cs /\ (nodes_of pushed' <= nodes_of pushed + nodes_of cs)%nat /\
  (forall c, c ∈ visited' <-> c ∈ visited \/ c ∈ cs) /\ (forall c, c ∈ visited' -> c ∈ visited \/ c ∈ pushed') /\
  (forall c, c ∈ pushed -> c ∈ pushed') /\ (forall c, c ∈ pushed' -> c ∈ pushed \/ c ∈ cs).
Proof.
  revert visited pushed. induction cs as [|c cs IH]; intros visited pushed; cbn [scan_children].
  - intros [= <- <-]. split; [apply not_elem_of_nil |]. split; [lia |]. split; [| auto]. intros c. split; [auto |]. intros [?|H]; [done | by apply not_elem_of_nil in H].
  - destruct (node_eqb c t) eqn:E; [done |]. assert (c <> t) as Hct by (intros ->; by rewrite (proj2 (node_eqb_eq t t)) in E).
    assert (nodes_of (c :: cs) = (num_nodes c + nodes_of cs)%nat) as -> by done. destruct (existsb (node_eqb c) visited) eqn:Ev.
    + apply member in Ev. intros H. destruct (IH _ _ H) as (H1 & H2 & H3 & H4 & H5 & H6). split; [| split; [lia |]].
      { intros [?|?]%elem_of_cons; congruence || done. }
      split; [intros d; rewrite H3, elem_of_cons; split; intuition congruence |]. split; [done |]. split; [done |]. intros d Hd. destruct (H6 d Hd); [by left | right; by right].
    + intros H. destruct (IH _ _ H) as (H1 & H2 & H3 & H4 & H5 & H6). unfold nodes_of in H2. rewrite sum_list_with_app in H2. cbn in H2. split; [| split; [unfold nodes_of; lia |]].
      { intros [?|?]%elem_of_cons; congruence || done. }
      split; [intros d; rewrite H3, !elem_of_cons; tauto |]. split; [| split].
      * intros d Hd. destruct (H4 d Hd) as [[->|?]%elem_of_cons|?]; [right; apply H5, elem_of_app; right; left | by left | by right].
      * intros d Hd. apply H5, elem_of_app. by left.
      * intros d Hd. destruct (H6 d Hd) as [[?| ->%list_elem_of_singleton]%elem_of_app|?]; [by left | right; left | right; by right].
Qed.

(** What is visited but no longer to process has been looked at. *)
Definition searched (t : Node) (done_ toProcess visited : list Node) : Prop :=
  (forall c, c ∈ visited -> c <> t /\ (c ∈ done_ \/ c ∈ toProcess)) /\
  (forall n c, n ∈ done_ -> c ∈ children n -> c ∈ visited).
Lemma searched_below t done_ visited n : searched t done_ [] visited -> n ∈ done_ -> ~ below t n.
Proof.
  intros [Hv Hd] Hn Hb. induction Hb as [n Ht|n c Hc _ IH].
  - by destruct (Hv t (Hd n t Hn Ht)).
  - destruct (Hv c (Hd n c Hn Hc)) as [_ [?|H]]; [auto | by apply not_elem_of_nil in H].
Qed.
Lemma subterm_loop_ok t fuel toProcess visited done_ : (nodes_of toProcess <= fuel)%nat -> searched t done_ toProcess visited ->
  exists b, subterm_loop t fuel toProcess visited = Ok b /\
    (b = true -> exists n, n ∈ toProcess /\ below t n) /\ (b = false -> forall n, n ∈ done_ \/ n ∈ toProcess -> ~ below t n).
Proof.
  revert toProcess visited done_. induction fuel as [|fuel IH]; intros [|n q] visited done_ Hf Hs; cbn [subterm_loop].
  1, 3: exists false; split; [done |]; split; [done |]; intros _ n [Hn|Hn]; [by eapply searched_below | by apply not_elem_of_nil in Hn].
  { change (nodes_of (n :: q)) with (num_nodes n + nodes_of q)%nat in Hf. rewrite nodes_of_children in Hf. lia. }
  change (nodes_of (n :: q)) with (num_nodes n + nodes_of q)%nat in Hf. rewrite nodes_of_children in Hf.
  destruct (scan_children t (children n) visited []) as [[visited' pushed]|] eqn:E.
  - destruct (scan_done _ _ _ _ _ _ E) as (H1 & H2 & H3 & H4 & _ & H6). destruct Hs as [Hv Hd]. destruct (IH (q ++ pushed) visited' (n :: done_)) as (b & -> & Ht & Hfl).
    + unfold nodes_of in *. rewrite sum_list_with_app. cbn in H2. lia.
    + split.
      * intros c Hc. split; [intros ->; apply H3 in Hc as [Hc|Hc]; [by destruct (Hv t Hc) | done] |].
        destruct (H4 c Hc) as [Hc'|Hc']; [| right; apply elem_of_app; by right].
        destruct (Hv c Hc') as [_ [?|[->|?]%elem_of_cons]]; [left; by right | left; left | right; apply elem_of_app; by left].
      * intros m c [->|Hm]%elem_of_cons Hc; apply H3; [by right | left; by eapply Hd].
    + exists b. split; [done |]. split.
      * intros Hb. destruct (Ht Hb) as (m & [Hm|Hm]%elem_of_app & Hbm); [exists m; split; [by right | done] |]. exists n. split; [left |].
        destruct (H6 m Hm) as [Hm'|Hm']; [by apply not_elem_of_nil in Hm' | by eapply below_deep].
      * intros Hb m Hm. destruct Hm as [Hm|[->|Hm]%elem_of_cons]; apply (Hfl Hb); [left; by right | left; left | right; apply elem_of_app; by left].
  - exists true. split; [done |]. split; [| done]. intros _. exists n. split; [left | constructor; by eapply scan_found].
Qed.
Lemma hasSubterm_ok n t strict : exists b, hasSubterm n t strict = Ok b /\ (b = true <-> below t n \/ (strict = false /\ n = t)).
Proof.
  unfold hasSubterm. destruct (subterm_loop_ok t (num_nodes n) [n] [] []) as (b & E & Ht & Hf).
  - change (nodes_of [n]) with (num_nodes n + 0)%nat. lia.
  - split; intros ? H; [by apply not_elem_of_nil in H | intros Hx; by apply not_elem_of_nil in Hx || by apply not_elem_of_nil in H].
  - assert (b = true <-> below t n) as Hb.
    { split; [intros H; destruct (Ht H) as (m & ->%list_elem_of_singleton & ?); done |]. intros H. destruct b; [done |]. destruct (Hf eq_refl n); [| done]. right. left. }
    destruct strict; cbn [negb andb]; [exists b; rewrite Hb; split; [done | intuition done] |]. destruct (node_eqb n t) eqn:En.
    + exists true. split; [done |]. apply node_eqb_eq in En. tauto.
    + exists b. split; [done |]. rewrite Hb. assert (n <> t) by (intros ->; by rewrite (proj2 (node_eqb_eq t t)) in En). tauto.
Qed.
