(* ===== verification/BVSolveEq.v ===== *)
(** * The rule [SolveEq]

    Models [RewriteRule<SolveEq>] of
    [src/theory/bv/theory_bv_rewrite_rules_normalization.h]: the sides of an equation
    are collected as linear combinations, a term that appears on both sides is left
    on one of them, and the constants are moved to one side.  The two assertions at the
    end of [apply] run the whole rewriter on the new sides: [Rewriter::rewrite], which calls
    this rule, is the parameter [rewrite_nested] here, and the theorems hold for every such
    function. *)

From S2P Require Import Prelude Integer BitVector Node BVRules BVSimplify BVNormalize Subterm.
Local Open Scope Z_scope.

Definition isVar (n : Node) : bool := match n with Var _ _ => true | _ => false end.

(** [Rewriter::rewrite], as the assertions of the rule call it. *)
Class NestedRewriter : Type := rewrite_nested : Node -> M Node.

Section solve.
Context {G : Gmp} {NR : NestedRewriter} (node_lt : Node -> Node -> bool).

(** The terms of one side; [None] when it is the complement of the other. *)
Definition collect_side (size : Z) (side other : Node) : M (option (coef_map * BitVector)) :=
  if isKind BITVECTOR_PLUS side then r ← collect node_lt size (children side); Ok (Some r)
  else
    complement ← (if isKind BITVECTOR_NOT side then s0 ← child side 0; Ok (node_eqb s0 other) else Ok false);
    if complement : bool then Ok None
    else r ← updateCoefMap node_lt side size ([], BV.mk size 0); Ok (Some r).

(** [++iLeft], with the assertion on the next key. *)
Definition advance (m : coef_map) : M coef_map :=
  match m with
  | (t, _) :: (((t', _) :: _) as m') => _ ← check AssertionFailed (node_lt t t'); Ok m'
  | _ => Ok []
  end.
(** The loop over the two maps. *)
Fixpoint merge_sides (size : Z) (fuel : nat) (l r : coef_map) (childrenLeft childrenRight : list Node) : M (list Node * list Node) :=
  match fuel with
  | O => match l, r with [], [] => Ok (childrenLeft, childrenRight) | _, _ => Throw OutOfFuel end
  | S fuel' =>
      let left_ tl cl :=
        childrenLeft ← addToChildren tl size cl childrenLeft;
        l ← advance l; merge_sides size fuel' l r childrenLeft childrenRight in
      let right_ tr cr :=
        childrenRight ← addToChildren tr size cr childrenRight;
        r ← advance r; merge_sides size fuel' l r childrenLeft childrenRight in
      match l, r with
      | [], [] => Ok (childrenLeft, childrenRight)
      | (tl, cl) :: _, [] => left_ tl cl
      | [], (tr, cr) :: _ => right_ tr cr
      | (tl, cl) :: _, (tr, cr) :: _ =>
          if node_lt tl tr then left_ tl cl
          else if node_lt tr tl then right_ tr cr
          else
            childrenLeft ← (if BV.ltb cr cl then d ← BV.sub cl cr; addToChildren tl size d childrenLeft else Ok childrenLeft);
            childrenRight ← (if negb (BV.ltb cr cl) && BV.ltb cl cr then d ← BV.sub cr cl; addToChildren tr size d childrenRight else Ok childrenRight);
            l ← advance l; r ← advance r;
            merge_sides size fuel' l r childrenLeft childrenRight
      end
  end.

Definition last_is (ch : list Node) (c : BitVector) : bool :=
  match last ch with Some (ConstBV v) => BV.eqb v c | _ => false end.
Definition side_node (size : Z) (ch : list Node) : M Node :=
  match ch with [] => Ok (mkConst size 0) | _ => mkNodeV BITVECTOR_PLUS ch end.

(** [Assert((newLeft == left && newRight == right) || Rewriter::rewrite(newLeft) != left ||
    Rewriter::rewrite(newRight) != right)], left to right. *)
Definition closing_assertion (newLeft newRight left right : Node) : M unit :=
  if node_eqb newLeft left && node_eqb newRight right then Ok tt else
  l ← rewrite_nested newLeft;
  if negb (node_eqb l left) then Ok tt else
  r ← rewrite_nested newRight;
  check AssertionFailed (negb (node_eqb r right)).
(** The new equation. *)
Definition solved (newLeft newRight left right : Node) (size : Z) : M Node :=
  if node_eqb newLeft newRight then _ ← check AssertionFailed (node_eqb newLeft (mkConst size 0)); Ok mkTrue
  else if node_lt newLeft newRight then
    _ ← closing_assertion newRight newLeft left right; Ok (eqNode newRight newLeft)
  else _ ← closing_assertion newLeft newRight left right; Ok (eqNode newLeft newRight).
(** The new sides when there is nothing left of the left one; [None] is [return utils::mkFalse()]. *)
Definition empty_left (size : Z) (rightConst : BitVector) (childrenRight : list Node) : M (option (Node * Node)) :=
  if BV.neqb rightConst (BV.mk size 0) then
    _ ← check AssertionFailed (last_is childrenRight rightConst);
    if (length childrenRight =? 1)%nat then Ok None
    else
      nc ← BV.neg rightConst;
      newRight ← side_node size (removelast childrenRight);
      Ok (Some (ConstBV nc, newRight))
  else newRight ← side_node size childrenRight; Ok (Some (mkConst size 0, newRight)).
Definition construct_result (size : Z) (leftConst rightConst : BitVector) (childrenLeft childrenRight : list Node) : M (option (Node * Node)) :=
  let zero := BV.mk size 0 in
  (** both constants on the right *)
  '(leftConst, rightConst, childrenLeft, childrenRight) ←
    (if BV.neqb rightConst zero then
       rightConst ← BV.sub rightConst leftConst;
       Ok (zero, rightConst, childrenLeft, if BV.neqb rightConst zero then childrenRight ++ [ConstBV rightConst] else childrenRight)
     else Ok (leftConst, rightConst, if BV.neqb leftConst zero then childrenLeft ++ [ConstBV leftConst] else childrenLeft, childrenRight));
  let move := (length childrenRight =? 0)%nat && BV.neqb leftConst zero in
  _ ← (if move then check AssertionFailed (last_is childrenLeft leftConst) else Ok tt);
  if move && (length childrenLeft =? 1)%nat then Ok None
  else
    '(childrenLeft, childrenRight) ←
      (if move then nc ← BV.neg leftConst; Ok (removelast childrenLeft, childrenRight ++ [ConstBV nc]) else Ok (childrenLeft, childrenRight));
    match childrenLeft with
    | [] => empty_left size rightConst childrenRight
    | _ => newLeft ← mkNodeV BITVECTOR_PLUS childrenLeft; newRight ← side_node size childrenRight; Ok (Some (newLeft, newRight))
    end.

(** The new sides of the equation; [None] where the rule answers false. *)
Definition new_sides (left right : Node) (size : Z) : M (option (Node * Node)) :=
  l ← collect_side size left right;
  match l with
  | None => Ok None
  | Some (leftMap, leftConst) =>
      r ← collect_side size right left;
      match r with
      | None => Ok None
      | Some (rightMap, rightConst) =>
          '(childrenLeft, childrenRight) ← merge_sides size (length leftMap + length rightMap) leftMap rightMap [] [];
          construct_result size leftConst rightConst childrenLeft childrenRight
      end
  end.

Definition SolveEq : RewriteRule := MkRule
  (fun node =>
    if negb (isKind EQUAL node) then Ok false else
    n0 ← child node 0; n1 ← child node 1;
    l ← (if isVar n0 then s ← hasSubterm n1 n0 false; Ok (negb s) else Ok false);
    if l : bool then Ok false else
    r ← (if isVar n1 then s ← hasSubterm n0 n1 false; Ok (negb s) else Ok false);
    Ok (negb r))
  (fun node =>
    left ← child node 0; right ← child node 1;
    size ← getSize left;
    sides ← new_sides left right size;
    match sides with
    | None => Ok mkFalse
    | Some (newLeft, newRight) => solved newLeft newRight left right size
    end).
End solve.
