(* ===== verification/BVSolveEqCorrect.v ===== *)
(** * [SolveEq] keeps the truth of the equation

    The rule is proved on equations between vectors whose products have their constant
    last.  The new sides are equal exactly when the old ones are, so that the result has the
    value of the equation; of the assertions only the last ones, on the new sides, can fail. *)

From Stdlib Require Import Sorted.
From S2P Require Import Prelude Integer BitVector Node BitblastUtils BitblastStrategies BitblastCorrect BVRules BVRulesCorrect BVEvalCorrect BVCoreCorrect NaryOps BVSimplify BVSimplifyCorrect BVNormalize BVNormalizeCorrect BVLinearCorrect Subterm BVSolveEq.
Local Open Scope Z_scope.
Local Open Scope eqm_scope.

Section sound.
Context {G : Gmp} {HG : GmpSpec G} {NR : NestedRewriter}.
Variable e : env.
Abbreviation addv := (opv Sem.add (fun _ => 0) e).
Abbreviation lin := (lin e).
Context (node_lt : Node -> Node -> bool).
Hypothesis node_lt_total : forall a b, a <> b -> node_lt a b = true \/ node_lt b a = true.

Ltac steps :=
  repeat first [rewrite child0 | rewrite child1 | rewrite child2 | rewrite M_bind_Ok | rewrite isKind_refl | progress (cbn [negb])
    | match goal with H : eval _ ?c = Some (bv ?n ?a) |- context [getSize ?c] => rewrite (getSize_bv e c n a H) end].
Ltac answer := eexists; split; [reflexivity |].

(** ** The maps are kept in the order of their keys *)
Definition key_lt (x y : Node * BitVector) : Prop := node_lt x.1 y.1 = true.
Abbreviation ordered := (Sorted key_lt).

Lemma coef_insert_ordered m t c : ordered m -> coef_find m t = None -> ordered (coef_insert node_lt m t c).
Proof.
  intros Hm. induction Hm as [|[t' c'] m Hm IH Hh]; cbn [coef_insert coef_find]; [by repeat constructor |].
  destruct (node_eqb t' t) eqn:E; [done |]. intros Hf. destruct (node_lt t' t) eqn:El.
  - constructor; [by apply IH |]. destruct Hh as [|[t1 c1] m Hh]; cbn [coef_insert]; [by constructor |]. destruct (node_lt t1 t); by constructor.
  - constructor; [by constructor |]. constructor. destruct (node_lt_total t' t) as [?|?]; [| congruence | done]. intros ->. by rewrite (proj2 (node_eqb_eq t t)) in E.
Qed.
Lemma coef_set_ordered m t c : ordered m -> ordered (coef_set m t c).
Proof.
  intros Hm. induction Hm as [|[t' c'] m Hm IH Hh]; cbn [coef_set]; [constructor |]. destruct (node_eqb t' t).
  - constructor; [done |]. by destruct Hh; constructor.
  - constructor; [done |]. destruct Hh as [|[t1 c1] m Hh]; cbn [coef_set]; [constructor |]. destruct (node_eqb t1 t); by constructor.
Qed.
Lemma addToCoefMap_ordered m t c m' : ordered m -> addToCoefMap node_lt m t c = Ok m' -> ordered m'.
Proof.
  intros Hm. unfold addToCoefMap. destruct (coef_find m t) eqn:E.
  - intros (c' & _ & [= <-])%M_bind_inv. by apply coef_set_ordered.
  - intros [= <-]. by apply coef_insert_ordered.
Qed.
Ltac run := repeat match goal with
  | H : _ ≫= _ = Ok _ |- _ => apply M_bind_inv in H as (? & ? & ?)
  | H : (if ?b then _ else _) = Ok _ |- _ => destruct b
  | H : Ok _ = Ok _ |- _ => injection H as ?; subst
  | H : addToCoefMap _ ?m _ _ = Ok ?m', Hm : ordered ?m |- _ => apply (addToCoefMap_ordered _ _ _ _ Hm) in H
  end.
Lemma updateCoefMap_ordered c n m k m' k' : ordered m -> updateCoefMap node_lt c n (m, k) = Ok (m', k') -> ordered m'.
Proof.
  intros Hm. unfold updateCoefMap. destruct (getKind c); intros H; run; try done.
  destruct x as [term coeff]. run; done.
Qed.
Lemma collect_ordered n ch m k : collect node_lt n ch = Ok (m, k) -> ordered m.
Proof.
  unfold collect. generalize (BV.mk n 0). assert (ordered ([] : coef_map)) as H0 by constructor. revert H0. generalize ([] : coef_map).
  induction ch as [|c ch IH]; intros m0 Hm0 k0; cbn [foldl]; [by intros [= <- _] |]. rewrite M_bind_Ok.
  destruct (updateCoefMap node_lt c n (m0, k0)) as [[m1 k1]|x] eqn:E.
  - apply IH. by eapply updateCoefMap_ordered.
  - intros H. exfalso. clear -H. by induction ch.
Qed.
Lemma advance_ok t c m : ordered ((t, c) :: m) -> advance node_lt ((t, c) :: m) = Ok m /\ ordered m.
Proof.
  intros H. inversion_clear H as [|? ? Hm Hh]. split; [| done]. destruct m as [|[t' c'] m]; [done |]. inversion_clear Hh as [|? ? Hlt].
  unfold key_lt in Hlt. cbn in *. by rewrite Hlt.
Qed.

(** ** One side *)
Definition sum_ready (c : Node) : Prop := if isKind BITVECTOR_PLUS c then Forall mult_ready (children c) else mult_ready c.
Lemma collect_side_ok n side other a b : eval e side = Some (bv n a) -> eval e other = Some (bv n b) -> sum_ready side ->
  (collect_side node_lt n side other = Ok None /\ a <> b) \/
  exists m s k, collect_side node_lt n side other = Ok (Some (m, MkBitVector n k)) /\ lin n m s /\ rng n k /\ ordered m /\ a ≡[n] s + k.
Proof.
  intros Ha Hb Hr. pose proof (eval_bv_range e n a side Ha) as [Hn Ra]. unfold collect_side, sum_ready in *. destruct (isKind BITVECTOR_PLUS side) eqn:Kp.
  - right. destruct (kind_node _ _ Kp) as [ch ->]; [done .. |]. cbn [children] in *.
    apply (eval_nary_iff BITVECTOR_PLUS Sem.add (fun _ => 0)) in Ha as (Hl & w & z & _ & Ho & [= <- <-]).
    destruct (collect_all e node_lt n ch a Hn Ho Hr) as (m & s & k & E & Hm & Hk & Es). rewrite E, M_bind_Ok. exists m, s, k.
    do 3 (split; [done |]). split; [by eapply collect_ordered | by symmetry].
  - assert (exists q, (if isKind BITVECTOR_NOT side then s0 ← child side 0; Ok (node_eqb s0 other) else Ok false) = Ok q /\ (q = true -> a <> b)) as (q & -> & Hq).
    { destruct (isKind BITVECTOR_NOT side) eqn:Kn; [| by exists false]. destruct (kind_node _ _ Kn) as [ch ->]; [done .. |].
      destruct (eval_unary_inv e BITVECTOR_NOT Sem.bnot ch _ ltac:(done) Ha) as (w & x & c & [= <- ->] & -> & Hc & _ & Rx). steps. answer. intros ->%node_eqb_eq.
      rewrite Hb in Hc. injection Hc as ->. unfold Sem.bnot. pose proof (pow2_half n ltac:(lia)). lia. }
    rewrite M_bind_Ok. destruct q; [left; auto |]. right. pose proof (zero_rng n ltac:(lia)) as R0. rewrite (mk_small n 0) by (unfold rng in *; lia).
    destruct (updateCoefMap_ok e node_lt n [] 0 0 side a Hn ltac:(constructor) R0 Ha Hr) as (m & s & k & E & Hm & Hk & Es). rewrite E, M_bind_Ok. exists m, s, k.
    do 3 (split; [done |]). split; [eapply updateCoefMap_ordered; [| exact E]; constructor |]. rewrite Es. apply eq_eqm. lia.
Qed.

(** ** The two sides: the difference of the sums is kept *)
Lemma lin_inv n t c m s : lin n ((t, c) :: m) s -> exists x k s', c = MkBitVector n k /\ eval e t = Some (bv n x) /\ rng n k /\ lin n m s' /\ s = k * x + s'.
Proof. inversion 1; subst. eauto 10. Qed.
Lemma push_ok t n x c ch s : 1 <= n < 2 ^ 32 -> eval e t = Some (bv n x) -> rng n c -> addv ch n s ->
  exists ch' s', addToChildren t n (MkBitVector n c) ch = Ok ch' /\ addv ch' n s' /\ s' ≡[n] s + c * x.
Proof.
  intros Hn Ht Hc Ho. destruct (addToChildren_ok e t n x c ch s Hn Ht Hc Ho) as (ch' & E & Ho'). eexists ch', _. split; [done |]. split; [exact Ho' |].
  rewrite add_eqm, mul_eqm. done.
Qed.
Lemma merge_sides_ok n fuel : 1 <= n < 2 ^ 32 -> forall l r sl sr cl cr x y, (length l + length r <= fuel)%nat ->
  lin n l sl -> lin n r sr -> ordered l -> ordered r -> addv cl n x -> addv cr n y ->
  exists cl' cr' x' y', merge_sides node_lt n fuel l r cl cr = Ok (cl', cr') /\ addv cl' n x' /\ addv cr' n y' /\ x' - y' ≡[n] (x + sl) - (y + sr).
Proof.
  intros Hn. induction fuel as [|fuel IH]; intros l r sl sr cl cr x y Hf Hl Hr Ol Or Hx Hy; cbn [merge_sides].
  { destruct l, r; cbn in Hf; try lia. inversion Hl; inversion Hr; subst. exists cl, cr, x, y. do 3 (split; [done |]). apply eq_eqm. lia. }
  assert (forall tl c l', l = (tl, c) :: l' -> exists cl' cr' x' y', (childrenLeft ← addToChildren tl n c cl; l ← advance node_lt l; merge_sides node_lt n fuel l r childrenLeft cr) = Ok (cl', cr') /\
    addv cl' n x' /\ addv cr' n y' /\ x' - y' ≡[n] (x + sl) - (y + sr)) as Hleft.
  { intros tl c l' ->. destruct (lin_inv _ _ _ _ _ Hl) as (a & k & s' & -> & Ht & Rk & Hl' & ->). destruct (push_ok tl n a k cl x Hn Ht Rk Hx) as (cl1 & x1 & -> & Hx1 & E1). steps.
    destruct (advance_ok _ _ _ Ol) as [-> Ol']. steps. destruct (IH l' r s' sr cl1 cr x1 y) as (cl' & cr' & x' & y' & -> & ? & ? & E); [cbn in *; lia | done .. |].
    exists cl', cr', x', y'. do 3 (split; [done |]). rewrite E, E1. apply eq_eqm. lia. }
  assert (forall tr c r', r = (tr, c) :: r' -> exists cl' cr' x' y', (childrenRight ← addToChildren tr n c cr; r ← advance node_lt r; merge_sides node_lt n fuel l r cl childrenRight) = Ok (cl', cr') /\
    addv cl' n x' /\ addv cr' n y' /\ x' - y' ≡[n] (x + sl) - (y + sr)) as Hright.
  { intros tr c r' ->. destruct (lin_inv _ _ _ _ _ Hr) as (a & k & s' & -> & Ht & Rk & Hr' & ->). destruct (push_ok tr n a k cr y Hn Ht Rk Hy) as (cr1 & y1 & -> & Hy1 & E1). steps.
    destruct (advance_ok _ _ _ Or) as [-> Or']. steps. destruct (IH l r' sl s' cl cr1 x y1) as (cl' & cr' & x' & y' & -> & ? & ? & E); [cbn in *; lia | done .. |].
    exists cl', cr', x', y'. do 3 (split; [done |]). rewrite E, E1. apply eq_eqm. lia. }
  destruct l as [|[tl c] l'], r as [|[tr d] r']; [| by eapply Hright | by eapply Hleft |].
  { inversion Hl; inversion Hr; subst. exists cl, cr, x, y. do 3 (split; [done |]). apply eq_eqm. lia. }
  destruct (node_lt tl tr) eqn:Elr; [by eapply Hleft |]. destruct (node_lt tr tl) eqn:Erl; [by eapply Hright |]. clear Hleft Hright.
  assert (tl = tr) as <-. { destruct (decide (tl = tr)) as [|Hne]; [done |]. destruct (node_lt_total tl tr Hne); congruence. }
  destruct (lin_inv _ _ _ _ _ Hl) as (a & k & sl' & -> & Ht & Rk & Hl' & ->). destruct (lin_inv _ _ _ _ _ Hr) as (a' & j & sr' & -> & Ht' & Rj & Hr' & ->).
  rewrite Ht in Ht'. injection Ht' as <-. destruct (advance_ok _ _ _ Ol) as [-> Ol']. destruct (advance_ok _ _ _ Or) as [-> Or']. unfold BV.ltb. cbn [d_value].
  assert (exists cl1 cr1 x1 y1, (if j <? k then d ← BV.sub (MkBitVector n k) (MkBitVector n j); addToChildren tl n d cl else Ok cl) = Ok cl1 /\
    (if negb (j <? k) && (k <? j) then d ← BV.sub (MkBitVector n j) (MkBitVector n k); addToChildren tl n d cr else Ok cr) = Ok cr1 /\
    addv cl1 n x1 /\ addv cr1 n y1 /\ x1 - y1 ≡[n] (x + k * a) - (y + j * a)) as (cl1 & cr1 & x1 & y1 & -> & -> & Hx1 & Hy1 & E1).
  { destruct (Z.ltb_spec j k); cbn [negb andb]; [| destruct (Z.ltb_spec k j)].
    - rewrite sub_ok by (done || lia). steps. destruct (push_ok tl n a (Sem.sub n k j) cl x Hn Ht ltac:(apply wrap_bound; lia) Hx) as (cl1 & x1 & -> & Hx1 & E1).
      exists cl1, cr, x1, y. do 4 (split; [done |]). rewrite E1, sub_eqm. apply eq_eqm. lia.
    - rewrite sub_ok by (done || lia). steps. destruct (push_ok tl n a (Sem.sub n j k) cr y Hn Ht ltac:(apply wrap_bound; lia) Hy) as (cr1 & y1 & -> & Hy1 & E1).
      exists cl, cr1, x, y1. do 4 (split; [done |]). rewrite E1, sub_eqm. apply eq_eqm. lia.
    - assert (j = k) as -> by lia. exists cl, cr, x, y. do 4 (split; [done |]). apply eq_eqm. lia. }
  steps. destruct (IH l' r' sl' sr' cl1 cr1 x1 y1) as (cl' & cr' & x' & y' & -> & ? & ? & E); [cbn in *; lia | done .. |].
  exists cl', cr', x', y'. do 3 (split; [done |]). rewrite E.
  replace (x1 + sl' - (y1 + sr')) with (x1 - y1 + (sl' - sr')) by lia. rewrite E1. apply eq_eqm. lia.
Qed.

(** ** The new equation *)
Lemma eqm_sub_0 n a b : a - b ≡[n] 0 <-> a ≡[n] b.
Proof.
  split; intros H.
  - replace a with (a - b + b) by lia. rewrite H. done.
  - rewrite H. by rewrite Z.sub_diag.
Qed.
Lemma same_truth n x y a b : rng n x -> rng n y -> rng n a -> rng n b -> x - y ≡[n] a - b -> (x =? y) = (a =? b).
Proof.
  intros Rx Ry Ra Rb E. apply eq_true_iff_eq. rewrite !Z.eqb_eq. split; intros H.
  - apply (eqm_eq n); [| done | done]. apply eqm_sub_0. rewrite <- E, H. by rewrite Z.sub_diag.
  - apply (eqm_eq n); [| done | done]. apply eqm_sub_0. rewrite E, H. by rewrite Z.sub_diag.
Qed.

(** New sides of [n] bits that are equal exactly when [b] is true; none only if it is false. *)
Definition decides (n : Z) (m : M (option (Node * Node))) (b : bool) : Prop :=
  (m = Ok None /\ b = false) \/
  exists l r x y, m = Ok (Some (l, r)) /\ eval e l = Some (bv n x) /\ eval e r = Some (bv n y) /\ (x =? y) = b.
Lemma decides_sides n l r x y : eval e l = Some (bv n x) -> eval e r = Some (bv n y) -> decides n (Ok (Some (l, r))) (x =? y).
Proof. intros Hl Hr. right. by exists l, r, x, y. Qed.
Lemma decides_none n b : b = false -> decides n (Ok None) b.
Proof. by left. Qed.
Lemma side_node_ok n ch x : 1 <= n < 2 ^ 32 -> addv ch n x -> exists r, side_node n ch = Ok r /\ eval e r = Some (bv n x).
Proof.
  intros Hn Ho. unfold side_node. destruct ch as [|c ch].
  - apply opv_nil_inv in Ho as ->. answer. apply e_mk_small; [done | apply zero_rng; lia].
  - by apply (mkNodeV_ok e BITVECTOR_PLUS Sem.add (fun _ => 0)).
Qed.
Lemma last_is_snoc ch n c : last_is (ch ++ [ConstBV (MkBitVector n c)]) (MkBitVector n c) = true.
Proof. unfold last_is. rewrite last_snoc, eqb_same. apply Z.eqb_refl. Qed.
Lemma e_false : eval e mkFalse = Some (VBool false). Proof. done. Qed.

Lemma addv_snoc ch n x c : 1 <= n < 2 ^ 32 -> addv ch n x -> rng n c -> addv (ch ++ [ConstBV (MkBitVector n c)]) n (Sem.add n x c).
Proof. intros Hn Ho Hc. apply (opv_snoc BITVECTOR_PLUS Sem.add (fun _ => 0)); [lia | done | by apply const_eval]. Qed.
Lemma addv_rng ch n x : 1 <= n -> addv ch n x -> rng n x.
Proof. apply (opv_rng BITVECTOR_PLUS Sem.add (fun _ => 0)). Qed.
Lemma snoc_length_1 {A} (l : list A) a : (length (l ++ [a]) =? 1)%nat = match l with [] => true | _ => false end.
Proof. rewrite length_app. cbn. by destruct l as [|? [|]]. Qed.

(** The right side is [cr] and the constant [k], when it is not 0; nothing is left of
    the left side. *)
Lemma empty_left_ok n k cr y : 1 <= n < 2 ^ 32 -> addv cr n y -> rng n k ->
  decides n (empty_left n (MkBitVector n k) (if k =? 0 then cr else cr ++ [ConstBV (MkBitVector n k)])) (0 =? Sem.add n y k).
Proof.
  intros Hn Hy Hk. pose proof (zero_rng n ltac:(lia)) as R0. pose proof (addv_rng cr n y ltac:(lia) Hy) as Ry. unfold empty_left.
  rewrite (mk_small n 0) by (unfold rng in *; lia). rewrite neqb_same. destruct (Z.eqb_spec k 0) as [->|Hk0]; cbn [negb].
  - destruct (side_node_ok n cr y Hn Hy) as (r & -> & Hr). steps. unfold Sem.add. rewrite Z.add_0_r, wrap_small by done.
    apply decides_sides; [by apply e_mk_small | done].
  - rewrite last_is_snoc. cbn [check]. steps. rewrite snoc_length_1, removelast_last. destruct cr as [|c cr].
    + apply opv_nil_inv in Hy as ->. unfold Sem.add. rewrite Z.add_0_l, wrap_small by done. apply decides_none, Z.eqb_neq. lia.
    + rewrite neg_ok by (done || lia). steps. destruct (side_node_ok n (c :: cr) y Hn Hy) as (r & -> & Hr). steps.
      rewrite <- (same_truth n (Sem.neg n k) y 0 (Sem.add n y k)); [| apply wrap_bound; lia | done | done | apply wrap_bound; lia |].
      * apply decides_sides; [apply const_eval; [done | apply wrap_bound; lia] | done].
      * rewrite neg_eqm, add_eqm. apply eq_eqm. lia.
Qed.
(** Both sides. *)
Lemma both_sides_ok n k cl cr x y : 1 <= n < 2 ^ 32 -> addv cl n x -> addv cr n y -> rng n k ->
  decides n (match cl with
    | [] => empty_left n (MkBitVector n k) (if k =? 0 then cr else cr ++ [ConstBV (MkBitVector n k)])
    | _ => newLeft ← mkNodeV BITVECTOR_PLUS cl; newRight ← side_node n (if k =? 0 then cr else cr ++ [ConstBV (MkBitVector n k)]); Ok (Some (newLeft, newRight))
    end) (x =? Sem.add n y k).
Proof.
  intros Hn Hx Hy Hk. destruct cl as [|c cl]; [apply opv_nil_inv in Hx as ->; by apply empty_left_ok |].
  destruct (mkNodeV_ok e BITVECTOR_PLUS Sem.add (fun _ => 0) (c :: cl) n x Hn Hx ltac:(done)) as (l & -> & Hl). steps.
  assert (addv (if k =? 0 then cr else cr ++ [ConstBV (MkBitVector n k)]) n (Sem.add n y k)) as Hr.
  { destruct (Z.eqb_spec k 0) as [->|]; [| by apply addv_snoc]. unfold Sem.add. rewrite Z.add_0_r, wrap_small; [done |]. by apply (addv_rng cr); [lia |]. }
  destruct (side_node_ok n _ _ Hn Hr) as (r & -> & Hr'). steps. by apply decides_sides.
Qed.

Lemma construct_result_ok n kl kr cl cr x y a b : 1 <= n < 2 ^ 32 -> addv cl n x -> addv cr n y -> rng n kl -> rng n kr -> rng n a -> rng n b ->
  (x + kl) - (y + kr) ≡[n] a - b -> decides n (construct_result n (MkBitVector n kl) (MkBitVector n kr) cl cr) (a =? b).
Proof.
  intros Hn Hx Hy Hkl Hkr Ha Hb E. pose proof (zero_rng n ltac:(lia)) as R0. pose proof (addv_rng cl n x ltac:(lia) Hx) as Rx. pose proof (addv_rng cr n y ltac:(lia) Hy) as Ry.
  assert (forall z w, rng n (Sem.add n z w)) as Radd by (intros; apply wrap_bound; lia).
  unfold construct_result. rewrite (mk_small n 0) by (unfold rng in *; lia). rewrite !neqb_same. destruct (Z.eqb_spec kr 0) as [->|Hkr0]; cbn [negb].
  - rewrite M_bind_Ok, neqb_same. destruct (Z.eqb_spec kl 0) as [->|Hkl0]; cbn [negb]; rewrite ?andb_false_r, ?andb_true_r; cbn [andb]; rewrite ?M_bind_Ok.
    + rewrite <- (same_truth n x (Sem.add n y 0) a b); try done; [apply (both_sides_ok n 0); done | rewrite add_eqm, <- E; apply eq_eqm; lia].
    + destruct cr as [|c cr]; cbn [length Nat.eqb andb].
      * apply opv_nil_inv in Hy as ->. rewrite last_is_snoc. cbn [check]. steps. rewrite snoc_length_1, removelast_last. destruct cl as [|c cl].
        -- apply opv_nil_inv in Hx as ->. rewrite <- (same_truth n kl 0 a b) by (first [done | rewrite <- E; apply eq_eqm; lia]).
           by apply decides_none, Z.eqb_neq.
        -- rewrite neg_ok by (done || lia). steps. cbn [app].
           rewrite <- (same_truth n x (Sem.neg n kl) a b); try done; [| apply wrap_bound; lia | rewrite neg_eqm, <- E; apply eq_eqm; lia].
           assert (Sem.neg n kl = Sem.add n (Sem.neg n kl) 0) as E0 by (unfold Sem.add; rewrite Z.add_0_r; symmetry; apply wrap_small, wrap_bound; lia).
           assert (addv [ConstBV (MkBitVector n (Sem.neg n kl))] n (Sem.neg n kl)) as Hc
             by (apply (opv_one_intro BITVECTOR_PLUS Sem.add (fun _ => 0)), const_eval; [done | apply wrap_bound; lia]).
           pose proof (both_sides_ok n 0 (c :: cl) _ x _ Hn Hx Hc R0) as H. by rewrite <- E0 in H.
      * steps. rewrite <- (same_truth n (Sem.add n x kl) (Sem.add n y 0) a b); try done; [| rewrite !add_eqm, <- E; done].
        apply (both_sides_ok n 0 (cl ++ [ConstBV (MkBitVector n kl)]) (c :: cr)); try done. by apply addv_snoc.
  - rewrite sub_ok by (done || lia). steps. rewrite !neqb_same. cbn [Z.eqb negb]. rewrite !andb_false_r. steps.
    replace (if negb (Sem.sub n kr kl =? 0) then cr ++ [ConstBV (MkBitVector n (Sem.sub n kr kl))] else cr)
      with (if Sem.sub n kr kl =? 0 then cr else cr ++ [ConstBV (MkBitVector n (Sem.sub n kr kl))]) by (by destruct (Sem.sub n kr kl =? 0)).
    rewrite <- (same_truth n x (Sem.add n y (Sem.sub n kr kl)) a b); try done; [| rewrite add_eqm, sub_eqm, <- E; apply eq_eqm; lia].
    apply both_sides_ok; try done. apply wrap_bound. lia.
Qed.

Lemma new_sides_ok l r n a b : eval e l = Some (bv n a) -> eval e r = Some (bv n b) -> sum_ready l -> sum_ready r ->
  decides n (new_sides node_lt l r n) (a =? b).
Proof.
  intros Hl Hr Sl Sr. pose proof (eval_bv_range e n a l Hl) as [Hn Ra]. pose proof (eval_bv_range e n b r Hr) as [_ Rb]. unfold new_sides.
  destruct (collect_side_ok n l r a b Hl Hr Sl) as [[-> Hne]|(ml & sl & kl & -> & Hml & Hkl & Ol & El)]; steps.
  { by apply decides_none, Z.eqb_neq. }
  destruct (collect_side_ok n r l b a Hr Hl Sr) as [[-> Hne]|(mr & sr & kr & -> & Hmr & Hkr & Or & Er)]; steps.
  { apply decides_none, Z.eqb_neq. congruence. }
  destruct (merge_sides_ok n (length ml + length mr) Hn ml mr sl sr [] [] 0 0) as (cl & cr & x & y & -> & Hx & Hy & E); try done; [apply opv_nil .. |]. steps.
  apply (construct_result_ok n kl kr cl cr x y); try done. rewrite El, Er. replace (x + kl - (y + kr)) with (x - y + (kl - kr)) by lia. rewrite E. apply eq_eqm. lia.
Qed.

(** ** The last assertions *)
(** The assertion on the equation [p = q] the rule is about to answer on [left = right] throws [x]:
    it is another equation, and rewriting [p] throws, or gives back [left] and rewriting [q] throws or gives
    back [right]. *)
Definition comes_back (left right p q : Node) (x : exn) : Prop :=
  (p, q) <> (left, right) /\
  (rewrite_nested p = Throw x \/
   (rewrite_nested p = Ok left /\ (rewrite_nested q = Throw x \/ (rewrite_nested q = Ok right /\ x = AssertionFailed)))).
(** One of the last two assertions throws [x], on the new sides [l] and [r]: they are equal and not 0, or the new equation
    comes back. *)
Definition last_assertion_throws (left right : Node) (n : Z) (l r : Node) (x : exn) : Prop :=
  (l = r /\ l <> mkConst n 0 /\ x = AssertionFailed) \/
  (l <> r /\ if node_lt l r then comes_back left right r l x else comes_back left right l r x).

Lemma closing_assertion_spec left right p q : closing_assertion p q left right = Ok tt \/ exists x, closing_assertion p q left right = Throw x /\ comes_back left right p q x.
Proof.
  unfold closing_assertion, comes_back. destruct (node_eqb p left && node_eqb q right) eqn:E; [by left |].
  assert ((p, q) <> (left, right)) as Hne.
  { intros [= -> ->]. by rewrite !(proj2 (node_eqb_eq _ _) eq_refl) in E. }
  destruct (rewrite_nested p) as [l'|x] eqn:Ep; [rewrite M_bind_Ok | right; exists x; auto].
  destruct (node_eqb l' left) eqn:El; cbn [negb]; [apply node_eqb_eq in El as -> | by left].
  destruct (rewrite_nested q) as [r'|x] eqn:Eq; [rewrite M_bind_Ok | right; exists x; auto 6].
  destruct (node_eqb r' right) eqn:Er; cbn [negb check]; [apply node_eqb_eq in Er as ->; right; exists AssertionFailed; auto 7 | by left].
Qed.
Lemma solved_ok n left right l r x y : eval e l = Some (bv n x) -> eval e r = Some (bv n y) ->
  (exists m, solved node_lt l r left right n = Ok m /\ eval e m = Some (VBool (x =? y))) \/
  exists err, solved node_lt l r left right n = Throw err /\ last_assertion_throws left right n l r err.
Proof.
  intros Hl Hr. unfold solved, last_assertion_throws. destruct (node_eqb l r) eqn:E.
  - apply node_eqb_eq in E as ->. rewrite Hl in Hr. injection Hr as ->. rewrite Z.eqb_refl. destruct (node_eqb r (mkConst n 0)) eqn:E0; cbn [check].
    + left. rewrite M_bind_Ok. by answer.
    + right. exists AssertionFailed. split; [done |]. left. split; [done |]. split; [| done]. intros ->. by rewrite (proj2 (node_eqb_eq _ _) eq_refl) in E0.
  - assert (l <> r) as Hne by (intros ->; by rewrite (proj2 (node_eqb_eq _ _) eq_refl) in E).
    destruct (node_lt l r).
    + destruct (closing_assertion_spec left right r l) as [-> | (err & -> & Hc)]; [left | right; exists err; auto].
      rewrite M_bind_Ok. answer. rewrite Z.eqb_sym. by apply (e_equal e _ _ n).
    + destruct (closing_assertion_spec left right l r) as [-> | (err & -> & Hc)]; [left | right; exists err; auto].
      rewrite M_bind_Ok. answer. by apply (e_equal e _ _ n).
Qed.

(** The last assertions of the rule on [left = right] throw [x], with new sides that are equal exactly when the old ones are. *)
Definition SolveEq_throws (left right : Node) (n : Z) (truth : bool) (x : exn) : Prop :=
  exists l r a b, new_sides node_lt left right n = Ok (Some (l, r)) /\ eval e l = Some (bv n a) /\ eval e r = Some (bv n b) /\ (a =? b) = truth /\
    last_assertion_throws left right n l r x.
Lemma SolveEq_apply l r n a b : eval e l = Some (bv n a) -> eval e r = Some (bv n b) -> sum_ready l -> sum_ready r ->
  (exists m, apply (SolveEq node_lt) (MkNode EQUAL [l; r]) = Ok m /\ eval e m = Some (VBool (a =? b))) \/
  exists x, apply (SolveEq node_lt) (MkNode EQUAL [l; r]) = Throw x /\ SolveEq_throws l r n (a =? b) x.
Proof.
  intros Hl Hr Sl Sr. unfold SolveEq. cbn [apply]. steps.
  destruct (new_sides_ok l r n a b Hl Hr Sl Sr) as [[-> ->]|(l' & r' & x & y & E & Hl' & Hr' & <-)]; [steps; left; by answer |].
  unfold SolveEq_throws. rewrite E. steps. destruct (solved_ok n l r l' r' x y Hl' Hr') as [H|(err & H & Hx)]; [by left | right].
  exists err. split; [done |]. by exists l', r', x, y.
Qed.
End sound.
