(* ===== verification/BVRewriter.v ===== *)
(** * The rewriter of the theory of bit-vectors

    Models [src/theory/bv/theory_bv_rewriter.cpp]: for each kind of term the rules that
    are tried and in which order, before ([preRewrite]) and after ([postRewrite]) the
    children were rewritten, with the status that tells the generic rewriter whether to go
    on.  The conversions between vectors and integers ([RewriteBVToNat],
    [RewriteIntToBV]) are left out with their kinds. *)

From S2P Require Import Prelude Integer BitVector Node BVRules BVSimplify BVNormalize BVSolveEq.
Local Open Scope Z_scope.

(** [src/theory/rewriter.h] *)
Inductive RewriteStatus : Set := REWRITE_DONE | REWRITE_AGAIN | REWRITE_AGAIN_FULL.
Record RewriteResponse : Set := MkResponse { status : RewriteStatus; node : Node }.

Section rewriter.
Context {G : Gmp} {NR : NestedRewriter}.
(** The order of nodes, the order of a hash map, and the options the rules read. *)
Context (node_lt : Node -> Node -> bool) (hash_order : list (Node * Count) -> list (Node * Count)).
Context (bitvectorDivByZeroConst bvExtractArithRewrite : bool).

(** The strategies that end with one status. *)
Definition respond (s : RewriteStatus) (rules : list RewriteRule) (node : Node) : M RewriteResponse :=
  resultNode ← LinearRewriteStrategy rules node; Ok (MkResponse s resultNode).
(** A rule tried on its own before the others. *)
Definition try_first (R : RewriteRule) (node : Node) (otherwise : M RewriteResponse) : M RewriteResponse :=
  a ← applies R node;
  if a : bool then resultNode ← run false R node; Ok (MkResponse REWRITE_AGAIN_FULL resultNode) else otherwise.

Definition RewriteUlt (node : Node) (prerewrite : bool) : M RewriteResponse := respond REWRITE_DONE [EvalUlt; UltZero] node.
Definition RewriteUltBv (node : Node) (prerewrite : bool) : M RewriteResponse := respond REWRITE_DONE [EvalUltBv] node.
Definition RewriteSlt (node : Node) (prerewrite : bool) : M RewriteResponse := respond REWRITE_DONE [EvalSlt] node.
Definition RewriteSltBv (node : Node) (prerewrite : bool) : M RewriteResponse := respond REWRITE_DONE [EvalSltBv] node.
Definition RewriteUle (node : Node) (prerewrite : bool) : M RewriteResponse :=
  resultNode ← LinearRewriteStrategy [EvalUle; UleMax; ZeroUle; UleZero; UleSelf; UleEliminate] node;
  Ok (MkResponse (if node_eqb resultNode node then REWRITE_DONE else REWRITE_AGAIN) resultNode).
Definition RewriteSle (node : Node) (prerewrite : bool) : M RewriteResponse :=
  resultNode ← LinearRewriteStrategy [EvalSle; SleEliminate] node;
  Ok (MkResponse (if node_eqb resultNode node then REWRITE_DONE else REWRITE_AGAIN) resultNode).
Definition RewriteUgt (node : Node) (prerewrite : bool) : M RewriteResponse := respond REWRITE_AGAIN [UgtEliminate] node.
Definition RewriteSgt (node : Node) (prerewrite : bool) : M RewriteResponse := respond REWRITE_AGAIN [SgtEliminate] node.
Definition RewriteUge (node : Node) (prerewrite : bool) : M RewriteResponse := respond REWRITE_AGAIN [UgeEliminate] node.
Definition RewriteSge (node : Node) (prerewrite : bool) : M RewriteResponse := respond REWRITE_AGAIN_FULL [SgeEliminate] node.
Definition RewriteITEBv (node : Node) (prerewrite : bool) : M RewriteResponse := respond REWRITE_DONE [EvalITEBv] node.
Definition RewriteNot (node : Node) (prerewrite : bool) : M RewriteResponse := respond REWRITE_DONE [EvalNot; NotIdemp] node.

Definition RewriteExtract (node : Node) (prerewrite : bool) : M RewriteResponse :=
  let rest := respond REWRITE_DONE [ExtractConstant; ExtractExtract; ExtractWhole; ExtractMultLeadingBit] node in
  try_first ExtractConcat node
    (try_first ExtractSignExtend node
       (try_first ExtractNot node (if bvExtractArithRewrite then try_first ExtractArith node rest else rest))).

Definition RewriteConcat (node : Node) (prerewrite : bool) : M RewriteResponse :=
  respond REWRITE_DONE [ConcatFlatten; ConcatExtractMerge; ConcatConstantMerge; ApplyRuleToChildren BITVECTOR_CONCAT ExtractWhole] node.

(** The end of the three bitwise handlers: the slices, after the children. *)
Definition bitwise_response (node resultNode : Node) : RewriteResponse :=
  if bool_decide (getKind resultNode = getKind node) then MkResponse REWRITE_DONE resultNode else MkResponse REWRITE_AGAIN_FULL resultNode.
Definition RewriteAnd (node : Node) (prerewrite : bool) : M RewriteResponse :=
  resultNode ← LinearRewriteStrategy [FlattenAssocCommutNoDuplicates node_lt; AndSimplify node_lt hash_order] node;
  if prerewrite then Ok (MkResponse REWRITE_DONE resultNode)
  else resultNode ← LinearRewriteStrategy [BitwiseSlicing] resultNode; Ok (bitwise_response node resultNode).
Definition RewriteOr (node : Node) (prerewrite : bool) : M RewriteResponse :=
  resultNode ← LinearRewriteStrategy [FlattenAssocCommutNoDuplicates node_lt; OrSimplify node_lt hash_order] node;
  if prerewrite then Ok (MkResponse REWRITE_DONE resultNode)
  else resultNode ← LinearRewriteStrategy [BitwiseSlicing] resultNode; Ok (bitwise_response node resultNode).
Definition RewriteXor (node : Node) (prerewrite : bool) : M RewriteResponse :=
  resultNode ← LinearRewriteStrategy [FlattenAssocCommut node_lt; XorSimplify node_lt hash_order; XorZero; BitwiseSlicing] node;
  if prerewrite then Ok (MkResponse REWRITE_DONE resultNode)
  else resultNode ← LinearRewriteStrategy [XorOne; BitwiseSlicing] resultNode; Ok (bitwise_response node resultNode).

Definition RewriteXnor (node : Node) (prerewrite : bool) : M RewriteResponse := respond REWRITE_AGAIN_FULL [XnorEliminate] node.
Definition RewriteNand (node : Node) (prerewrite : bool) : M RewriteResponse := respond REWRITE_AGAIN_FULL [NandEliminate] node.
Definition RewriteNor (node : Node) (prerewrite : bool) : M RewriteResponse := respond REWRITE_AGAIN_FULL [NorEliminate] node.
Definition RewriteComp (node : Node) (prerewrite : bool) : M RewriteResponse := respond REWRITE_DONE [EvalComp] node.

Definition RewriteMult (node : Node) (prerewrite : bool) : M RewriteResponse :=
  resultNode ← LinearRewriteStrategy [FlattenAssocCommut node_lt; MultSimplify node_lt; MultPow2] node;
  resultNode ← (if prerewrite then Ok resultNode else LinearRewriteStrategy [MultDistribConst; MultDistrib] resultNode);
  Ok (MkResponse (if node_eqb resultNode node then REWRITE_DONE else REWRITE_AGAIN_FULL) resultNode).
Definition RewritePlus (node : Node) (prerewrite : bool) : M RewriteResponse :=
  if prerewrite then respond REWRITE_DONE [FlattenAssocCommut node_lt] node
  else
    resultNode ← LinearRewriteStrategy [FlattenAssocCommut node_lt; PlusCombineLikeTerms node_lt] node;
    Ok (MkResponse (if node_eqb node resultNode then REWRITE_DONE else REWRITE_AGAIN_FULL) resultNode).
Definition RewriteSub (node : Node) (prerewrite : bool) : M RewriteResponse := respond REWRITE_AGAIN_FULL [SubEliminate] node.
Definition RewriteNeg (node : Node) (prerewrite : bool) : M RewriteResponse :=
  resultNode ← LinearRewriteStrategy [EvalNeg; NegIdemp; NegSub] node;
  let finish := Ok (MkResponse REWRITE_DONE resultNode) in
  try_first NegPlus node (if prerewrite then finish else try_first NegMult node finish).

Definition RewriteUdivTotal (node : Node) (prerewrite : bool) : M RewriteResponse :=
  try_first UdivPow2 node (respond REWRITE_DONE [EvalUdiv; UdivOne; UdivSelf] node).
Definition RewriteUremTotal (node : Node) (prerewrite : bool) : M RewriteResponse :=
  try_first UremPow2 node (respond REWRITE_DONE [EvalUrem; UremOne; UremSelf] node).
(** [node[1].isConst() && node[1].getConst<BitVector>().getValue() != 0] *)
Definition nonzero_divisor (node : Node) : M bool :=
  n1 ← child node 1;
  if isConst n1 then v ← getConstBV n1; Ok (negb (d_value v =? 0)) else Ok false.
Definition RewriteUdiv (node : Node) (prerewrite : bool) : M RewriteResponse :=
  nz ← nonzero_divisor node;
  if nz : bool then RewriteUdivTotal node prerewrite else Ok (MkResponse REWRITE_DONE node).
Definition RewriteUrem (node : Node) (prerewrite : bool) : M RewriteResponse :=
  nz ← nonzero_divisor node;
  if nz : bool then RewriteUremTotal node prerewrite else Ok (MkResponse REWRITE_DONE node).
Definition RewriteSmod (node : Node) (prerewrite : bool) : M RewriteResponse := respond REWRITE_AGAIN_FULL [SmodEliminate] node.
Definition RewriteSdiv (node : Node) (prerewrite : bool) : M RewriteResponse :=
  respond REWRITE_AGAIN_FULL [SdivEliminate bitvectorDivByZeroConst] node.
Definition RewriteSrem (node : Node) (prerewrite : bool) : M RewriteResponse :=
  respond REWRITE_AGAIN_FULL [SremEliminate bitvectorDivByZeroConst] node.

Definition RewriteShl (node : Node) (prerewrite : bool) : M RewriteResponse :=
  try_first ShlByConst node (respond REWRITE_DONE [EvalShl; ShiftZero] node).
Definition RewriteLshr (node : Node) (prerewrite : bool) : M RewriteResponse :=
  try_first LshrByConst node (respond REWRITE_DONE [EvalLshr; ShiftZero] node).
Definition RewriteAshr (node : Node) (prerewrite : bool) : M RewriteResponse :=
  try_first AshrByConst node (respond REWRITE_DONE [EvalAshr; ShiftZero] node).

Definition RewriteRepeat (node : Node) (prerewrite : bool) : M RewriteResponse := respond REWRITE_AGAIN_FULL [RepeatEliminate] node.
Definition RewriteZeroExtend (node : Node) (prerewrite : bool) : M RewriteResponse := respond REWRITE_AGAIN [ZeroExtendEliminate] node.
Definition RewriteSignExtend (node : Node) (prerewrite : bool) : M RewriteResponse :=
  resultNode ← LinearRewriteStrategy [MergeSignExtend; EvalSignExtend] node;
  Ok (MkResponse (if node_eqb resultNode node then REWRITE_DONE else REWRITE_AGAIN) resultNode).
Definition RewriteRotateRight (node : Node) (prerewrite : bool) : M RewriteResponse := respond REWRITE_AGAIN_FULL [RotateRightEliminate] node.
Definition RewriteRotateLeft (node : Node) (prerewrite : bool) : M RewriteResponse := respond REWRITE_AGAIN_FULL [RotateLeftEliminate] node.
Definition RewriteRedor (node : Node) (prerewrite : bool) : M RewriteResponse := respond REWRITE_AGAIN_FULL [RedorEliminate] node.
Definition RewriteRedand (node : Node) (prerewrite : bool) : M RewriteResponse := respond REWRITE_AGAIN_FULL [RedandEliminate] node.

Definition RewriteEqual (node : Node) (prerewrite : bool) : M RewriteResponse :=
  resultNode ← LinearRewriteStrategy [FailEq; SimplifyEq; ReflexivityEq node_lt] node;
  if prerewrite then Ok (MkResponse REWRITE_DONE resultNode)
  else
    a ← applies (SolveEq node_lt) resultNode;
    if a : bool then
      resultNode ← run false (SolveEq node_lt) resultNode;
      Ok (MkResponse (if node_eqb resultNode node then REWRITE_DONE else REWRITE_AGAIN_FULL) resultNode)
    else Ok (MkResponse REWRITE_DONE resultNode).
Definition IdentityRewrite (node : Node) (prerewrite : bool) : M RewriteResponse := Ok (MkResponse REWRITE_DONE node).

(** [d_rewriteTable], as [initializeRewrites] leaves it. *)
Definition d_rewriteTable (k : Kind) : Node -> bool -> M RewriteResponse :=
  match k with
  | EQUAL => RewriteEqual
  | BITVECTOR_ULT => RewriteUlt
  | BITVECTOR_SLT => RewriteSlt
  | BITVECTOR_ULE => RewriteUle
  | BITVECTOR_SLE => RewriteSle
  | BITVECTOR_UGT => RewriteUgt
  | BITVECTOR_SGT => RewriteSgt
  | BITVECTOR_UGE => RewriteUge
  | BITVECTOR_SGE => RewriteSge
  | BITVECTOR_NOT => RewriteNot
  | BITVECTOR_CONCAT => RewriteConcat
  | BITVECTOR_AND => RewriteAnd
  | BITVECTOR_OR => RewriteOr
  | BITVECTOR_XOR => RewriteXor
  | BITVECTOR_XNOR => RewriteXnor
  | BITVECTOR_NAND => RewriteNand
  | BITVECTOR_NOR => RewriteNor
  | BITVECTOR_COMP => RewriteComp
  | BITVECTOR_MULT => RewriteMult
  | BITVECTOR_PLUS => RewritePlus
  | BITVECTOR_SUB => RewriteSub
  | BITVECTOR_NEG => RewriteNeg
  | BITVECTOR_UDIV => RewriteUdiv
  | BITVECTOR_UREM => RewriteUrem
  | BITVECTOR_UDIV_TOTAL => RewriteUdivTotal
  | BITVECTOR_UREM_TOTAL => RewriteUremTotal
  | BITVECTOR_SMOD => RewriteSmod
  | BITVECTOR_SDIV => RewriteSdiv
  | BITVECTOR_SREM => RewriteSrem
  | BITVECTOR_SHL => RewriteShl
  | BITVECTOR_LSHR => RewriteLshr
  | BITVECTOR_ASHR => RewriteAshr
  | BITVECTOR_EXTRACT _ _ => RewriteExtract
  | BITVECTOR_REPEAT _ => RewriteRepeat
  | BITVECTOR_ZERO_EXTEND _ => RewriteZeroExtend
  | BITVECTOR_SIGN_EXTEND _ => RewriteSignExtend
  | BITVECTOR_ROTATE_RIGHT _ => RewriteRotateRight
  | BITVECTOR_ROTATE_LEFT _ => RewriteRotateLeft
  | BITVECTOR_REDOR => RewriteRedor
  | BITVECTOR_REDAND => RewriteRedand
  | BITVECTOR_ULTBV => RewriteUltBv
  | BITVECTOR_SLTBV => RewriteSltBv
  | BITVECTOR_ITE => RewriteITEBv
  | _ => IdentityRewrite
  end.

Definition preRewrite (node : Node) : M RewriteResponse := d_rewriteTable (getKind node) node true.
Definition postRewrite (node : Node) : M RewriteResponse := d_rewriteTable (getKind node) node false.

Definition eliminateBVSDiv (node : Node) : M Node :=
  LinearRewriteStrategy [SremEliminate bitvectorDivByZeroConst; SdivEliminate bitvectorDivByZeroConst; SmodEliminate] node.
End rewriter.
