(* ===== verification/BVRewriterCorrect.v ===== *)
(** * The rewriter of bit-vectors keeps the value of terms

    Each handler of [theory_bv_rewriter.cpp] answers on a term that has a value, with a
    term of the same value, whatever the order of nodes and of hash maps and whatever
    the options. *)

From S2P Require Import Prelude Integer BitVector Node BitblastUtils BitblastStrategies BitblastCorrect BVRules BVRulesCorrect BVEvalCorrect BVCoreCorrect NaryOps BVSimplify BVSimplifyCorrect BVNormalize BVNormalizeCorrect BVLinearCorrect BVBitwiseCorrect Subterm BVSolveEq BVSolveEqCorrect BVRewriter.
Local Open Scope Z_scope.

(** ** Flattening: the operands of nested operators *)
Inductive operand (k : Kind) : Node -> Node -> Prop :=
  | operand_here n : operand k n n
  | operand_deep ch c t : c ∈ ch -> operand k c t -> operand k (MkNode k ch) t.

Lemma flatten_ac_operands k fuel stack ch r : k <> VARIABLE /\ k <> CONST_BOOLEAN /\ k <> CONST_BITVECTOR ->
  flatten_ac k fuel stack ch = Ok r ->
  (length r <= length ch + nodes stack)%nat /\
  forall t, t ∈ r -> t ∈ ch \/ (isKind k t = false /\ exists s, s ∈ stack /\ operand k s t).
Proof.
  intros (K1 & K2 & K3). revert stack ch. induction fuel as [|fuel IH]; intros [|c stack] ch; cbn [flatten_ac]; try done.
  1, 2: intros [= <-]; split; [cbn; lia | by left].
  change (nodes (c :: stack)) with (num_nodes c + nodes stack)%nat. destruct (isKind k c) eqn:E; intros H.
  - destruct (nodes_children k c E K1 K2 K3) as [Ec En]. destruct (IH _ _ H) as [Hl Hop].
    rewrite nodes_app, (nodes_perm (rev (children c)) (children c)) in Hl by (symmetry; apply Permutation_rev). split; [lia |].
    intros t Ht. destruct (Hop t Ht) as [?|(Hk & s & [Hs|Hs]%elem_of_app & Ho)]; [by left | right; split; [done |] ..].
    + exists c. split; [left |]. rewrite Ec. rewrite <- Permutation_rev in Hs. by eapply operand_deep.
    + exists s. split; [by right | done].
  - destruct (IH _ _ H) as [Hl Hop]. rewrite length_app in Hl. cbn in Hl. pose proof (num_nodes_pos c). split; [lia |].
    intros t Ht. destruct (Hop t Ht) as [[?| ->%list_elem_of_singleton]%elem_of_app|(Hk & s & Hs & Ho)]; [by left | right .. ]; (split; [done |]).
    + exists c. split; [left | constructor].
    + exists s. split; [by right | done].
Qed.
Lemma children_length n : (length (children n) <= nodes (children n))%nat.
Proof. induction (children n) as [|c l IH]; [done |]. change (nodes (c :: l)) with (num_nodes c + nodes l)%nat. cbn. pose proof (num_nodes_pos c). lia. Qed.
Lemma flatten_nodup_operands k fuel stack processed ch r : k <> VARIABLE /\ k <> CONST_BOOLEAN /\ k <> CONST_BITVECTOR ->
  flatten_nodup k fuel stack processed ch = Ok r -> (length r <= length ch + nodes stack)%nat /\ forall t, t ∈ r -> t ∈ ch \/ isKind k t = false.
Proof.
  intros (K1 & K2 & K3). revert stack processed ch. induction fuel as [|fuel IH]; intros [|c stack] processed ch; cbn [flatten_nodup]; try done.
  1, 2: intros [= <-]; split; [cbn; lia | by left].
  change (nodes (c :: stack)) with (num_nodes c + nodes stack)%nat. pose proof (num_nodes_pos c).
  destruct (existsb _ _); [intros [H' Hop]%IH; split; [lia | done] |]. destruct (isKind k c) eqn:E; intros [H' Hop]%IH.
  - destruct (nodes_children k c E K1 K2 K3) as [_ En]. rewrite nodes_app, (nodes_perm (rev (children c)) (children c)) in H' by (symmetry; apply Permutation_rev).
    split; [lia | done].
  - rewrite length_app in H'. cbn in H'. split; [lia |]. intros t Ht. destruct (Hop t Ht) as [[?| ->%list_elem_of_singleton]%elem_of_app|?]; auto.
Qed.
(** A flat operator built from the operands of [n]. *)
Definition flat_of (k : Kind) (n m : Node) : Prop := forall l, m = MkNode k l ->
  Forall (fun c => isKind k c = false) l /\ (length l <= num_nodes n)%nat /\ Forall (operand k n) l.
Lemma flat_children k ch : existsb (isKind k) ch = false -> flat_of k (MkNode k ch) (MkNode k ch).
Proof.
  intros H l [= <-]. split; [| split].
  - clear -H. induction ch as [|c ch IH]; [constructor |]. cbn in H. apply orb_false_iff in H as [Hc H]. constructor; auto.
  - pose proof (children_length (MkNode k ch)). cbn in *. unfold nodes in *. lia.
  - apply Forall_forall. intros c Hc. eapply operand_deep; [exact Hc | constructor].
Qed.
Lemma mkNodeV_flat k n l m : Forall (fun c => isKind k c = false) l -> (length l <= num_nodes n)%nat -> Forall (operand k n) l ->
  mkNodeV k l = Ok m -> flat_of k n m.
Proof.
  intros Hf Hl Ho. destruct l as [|c [|d l]]; [done | |]; intros [= <-] l' E.
  - subst c. inversion_clear Hf as [|? ? Hc _]. by rewrite isKind_refl in Hc.
  - injection E as <-. done.
Qed.
Lemma mkSortedNode_flat node_lt k n l m : Forall (fun c => isKind k c = false) l -> (length l <= num_nodes n)%nat -> Forall (operand k n) l ->
  mkSortedNode node_lt k l = Ok m -> flat_of k n m.
Proof.
  intros Hf Hl Ho H. unfold mkSortedNode in H. apply M_bind_inv in H as (_ & _ & H). destruct l as [|c [|d l]]; [done | |]; intros l' ->.
  - injection H as ->. inversion_clear Hf as [|? ? Hc _]. by rewrite isKind_refl in Hc.
  - assert (l' = sort_nodes node_lt (c :: d :: l)) as -> by congruence. pose proof (sort_nodes_perm node_lt (c :: d :: l)) as HP.
    split; [rewrite HP; exact Hf |]. split; [rewrite (Permutation_length HP); exact Hl | rewrite HP; exact Ho].
Qed.
Lemma FlattenAssocCommut_flat {G : Gmp} node_lt k ch m : k <> VARIABLE /\ k <> CONST_BOOLEAN /\ k <> CONST_BITVECTOR ->
  apply (FlattenAssocCommut node_lt) (MkNode k ch) = Ok m -> flat_of k (MkNode k ch) m.
Proof.
  intros Hk. unfold FlattenAssocCommut. cbn [apply getKind]. intros (l & El & H)%M_bind_inv. destruct (flatten_ac_operands k _ _ _ _ Hk El) as [Hlen Hop].
  assert (Forall (fun c => isKind k c = false) l /\ Forall (operand k (MkNode k ch)) l) as [Hf Ho].
  { split; apply Forall_forall; intros t Ht; destruct (Hop t Ht) as [Hn|(Ht1 & s & ->%list_elem_of_singleton & Ht2)]; done || by apply not_elem_of_nil in Hn. }
  change (nodes [MkNode k ch]) with (num_nodes (MkNode k ch) + 0)%nat in Hlen. cbn [length] in Hlen.
  destruct (_ || _); [eapply mkNodeV_flat | eapply mkSortedNode_flat]; try exact H; try done; lia.
Qed.

Create HintDb rules.
#[export] Hint Resolve UgtEliminate_sound UgeEliminate_sound SgtEliminate_sound SgeEliminate_sound SleEliminate_sound UleEliminate_sound SltEliminate_sound CompEliminate_sound
  SubEliminate_sound NandEliminate_sound NorEliminate_sound XnorEliminate_sound RotateLeftEliminate_sound RotateRightEliminate_sound
  ZeroExtendEliminate_sound RedorEliminate_sound RedandEliminate_sound SdivEliminate_sound SremEliminate_sound SmodEliminate_sound : rules.
#[export] Hint Resolve EvalNeg_sound EvalShl_sound EvalLshr_sound EvalAshr_sound EvalNot_sound EvalUlt_sound EvalUltBv_sound EvalSlt_sound EvalSltBv_sound EvalUle_sound
  EvalSle_sound EvalComp_sound EvalMult_sound EvalPlus_sound EvalConcat_sound EvalExtract_sound EvalSignExtend_sound EvalITEBv_sound EvalUdiv_sound EvalUrem_sound : rules.
#[export] Hint Resolve ConcatFlatten_sound ConcatExtractMerge_sound ConcatConstantMerge_sound ExtractWhole_sound ExtractConstant_sound ExtractExtract_sound
  FailEq_sound SimplifyEq_sound ReflexivityEq_sound : rules.
#[export] Hint Resolve UltZero_sound ZeroUlt_sound UltOne_sound SltZero_sound UleZero_sound ZeroUle_sound UleMax_sound UltSelf_sound UleSelf_sound LtSelf_sound LteSelf_sound
  ShiftZero_sound NotUlt_sound NotUle_sound NotIdemp_sound NegIdemp_sound ShlByConst_sound LshrByConst_sound UdivPow2_sound UremPow2_sound UdivOne_sound
  UremOne_sound UremSelf_sound NotXor_sound MergeSignExtend_sound MultSlice_sound UltPlusOne_sound : rules.
#[export] Hint Resolve ExtractBitwise_sound ExtractNot_sound ExtractSignExtend_sound ExtractArith_sound ExtractArith2_sound FlattenAssocCommut_sound
  FlattenAssocCommutNoDuplicates_sound MultDistrib_sound NegSub_sound NegPlus_sound : rules.

Section sound.
Context {G : Gmp} {HG : GmpSpec G} {NR : NestedRewriter}.
Variable e : env.
Abbreviation Sound := (BVRulesCorrect.Sound e).
Abbreviation sound_at := (BVRulesCorrect.sound_at e).
Context (node_lt : Node -> Node -> bool) (hash_order : list (Node * Count) -> list (Node * Count)).
Context (byZeroConst extractArith : bool).
Hypothesis node_lt_total : forall a b, a <> b -> node_lt a b = true \/ node_lt b a = true.
Hypothesis hash_order_perm : forall m, hash_order m ≡ₚ m.
(** With the option on, a division by zero is all ones and its remainder the dividend. *)
Hypothesis byZero : byZeroConst = true -> env_total e.

Ltac answer := eexists; split; [reflexivity |].
Ltac each := repeat first [apply List.Forall_nil | apply List.Forall_cons].

(** ** Running rules *)
(** A rule of a strategy leaves the term, or replaces it by one of the same value. *)
Lemma linear_step R rules n v : sound_at R n v -> eval e n = Some v -> exists n', LinearRewriteStrategy (R :: rules) n = LinearRewriteStrategy rules n' /\
  eval e n' = Some v /\ ((applies R n = Ok false /\ n' = n) \/ (applies R n = Ok true /\ apply R n = Ok n')).
Proof.
  intros (b & Hb & Hr) Hv. unfold LinearRewriteStrategy. cbn [foldl]. rewrite M_bind_Ok, Hb, M_bind_Ok. destruct b; [| exists n; auto].
  destruct (Hr eq_refl) as (r & Er & Hev). exists r. unfold run. rewrite Hb, M_bind_Ok. cbn [check]. rewrite M_bind_Ok, Er. auto.
Qed.
Lemma linear_skip R rules n : applies R n = Ok false -> LinearRewriteStrategy (R :: rules) n = LinearRewriteStrategy rules n.
Proof. intros H. unfold LinearRewriteStrategy. cbn [foldl]. by rewrite M_bind_Ok, H, M_bind_Ok. Qed.
Lemma linear_nil n : LinearRewriteStrategy [] n = Ok n. Proof. done. Qed.
Lemma sound_here R n v : Sound R -> eval e n = Some v -> sound_at R n v.
Proof. intros H. by apply Sound_iff. Qed.

Definition rewrites (m : M RewriteResponse) (v : value) : Prop := exists r, m = Ok r /\ eval e (node r) = Some v.
Lemma rewrites_done s n v : eval e n = Some v -> rewrites (Ok (MkResponse s n)) v.
Proof. intros H. by answer. Qed.
Lemma respond_sound s rules n v : Forall Sound rules -> eval e n = Some v -> rewrites (respond s rules n) v.
Proof. intros HS Hv. unfold respond. destruct (linear_sound e rules n v HS Hv) as (r & -> & Hr). rewrite M_bind_Ok. by answer. Qed.
Lemma respond_at s R n v : sound_at R n v -> eval e n = Some v -> rewrites (respond s [R] n) v.
Proof. intros HR Hv. unfold respond. destruct (linear_step R [] n v HR Hv) as (r & -> & Hr & _). rewrite linear_nil, M_bind_Ok. by answer. Qed.
Lemma linear_respond (f : Node -> RewriteStatus) rules n v : Forall Sound rules -> eval e n = Some v ->
  rewrites (resultNode ← LinearRewriteStrategy rules n; Ok (MkResponse (f resultNode) resultNode)) v.
Proof. intros HS Hv. destruct (linear_sound e rules n v HS Hv) as (r & -> & Hr). rewrite M_bind_Ok. by answer. Qed.
Lemma try_first_sound R n v other : sound_at R n v -> rewrites other v -> rewrites (try_first R n other) v.
Proof.
  intros (b & Hb & Hr) Ho. unfold try_first. rewrite Hb, M_bind_Ok. destruct b; [| done]. destruct (Hr eq_refl) as (r & Er & Hev).
  unfold run. rewrite Hb, M_bind_Ok. cbn [check]. rewrite M_bind_Ok, Er, M_bind_Ok. by answer.
Qed.

(** ** The terms the rewriter is proved on *)
(** Vectors of at most [MAX_CHILDREN] bits, and no division of 0 by itself
    ([UdivSelf] would make it 1). *)
Definition covered (t : Node) : Prop :=
  (forall w a, eval e t = Some (bv w a) -> w <= MAX_CHILDREN) /\
  (forall c w, t = MkNode BITVECTOR_UDIV_TOTAL [c; c] -> eval e c <> Some (bv w 0)).
Definition in_domain (n : Node) : Prop := forall t, t = n \/ below t n -> covered t.
Lemma domain_here n : in_domain n -> covered n.
Proof. intros H. apply H. by left. Qed.
Lemma domain_child n c : in_domain n -> c ∈ children n -> in_domain c.
Proof. intros H Hc t [->|Ht]; apply H; right; [by constructor | by eapply below_deep]. Qed.
Lemma domain_build k ch : covered (MkNode k ch) -> Forall in_domain ch -> in_domain (MkNode k ch).
Proof.
  intros Hn Hch t [->|Ht]; [done |]. inversion_clear Ht as [? Hc|? c Hc Hb]; cbn [children] in Hc; (eapply Forall_forall in Hch; [| exact Hc]); apply Hch; auto.
Qed.
Lemma domain_leaf n : children n = [] -> covered n -> in_domain n.
Proof. intros Hn Hc t [->|Ht]; [done |]. inversion_clear Ht as [? H|? ? H]; rewrite Hn in H; by apply not_elem_of_nil in H. Qed.
Lemma child_in n i c : child n i = Ok c -> c ∈ children n.
Proof. unfold child. destruct (children n !! i) eqn:E; [| done]. intros [= <-]. by eapply list_elem_of_lookup_2. Qed.
Lemma narrow_value n v w a : eval e n = Some v -> v = bv w a -> covered n -> w < 2 ^ 31.
Proof. intros Hv -> [H _]. apply H in Hv. unfold MAX_CHILDREN in Hv. lia. Qed.
Lemma covered_narrow n v : eval e n = Some v -> covered n -> narrow v.
Proof. intros Hv [H _] w a ->. by eapply H. Qed.
Lemma covered_same n m : covered n -> eval e m = eval e n -> isKind BITVECTOR_UDIV_TOTAL m = false -> covered m.
Proof. intros [Hn _] Hm Hk. split; [rewrite Hm; exact Hn |]. intros c w ->. by rewrite isKind_refl in Hk. Qed.

(** *** Slices *)
Lemma ExtractMultLeadingBit_domain n v : eval e n = Some v -> in_domain n -> sound_at ExtractMultLeadingBit n v.
Proof.
  intros Hv Hd. destruct (isExtract n) eqn:E; [| exists false; unfold ExtractMultLeadingBit; cbn [applies]; by rewrite E].
  destruct (isExtract_inv n E) as (h & l & ch & ->). apply eval_extract_inv in Hv as (c & w & a & -> & Hc & Hw & Hra & Hl & Hh & ->).
  apply (ExtractMultLeadingBit_at e c w a h l Hc); [done | done |].
  eapply (narrow_value c); [exact Hc | done |]. apply domain_here, (domain_child _ _ Hd). left.
Qed.
Lemma ExtractConcat_domain n v : eval e n = Some v -> in_domain n -> sound_at ExtractConcat n v.
Proof.
  intros Hv Hd. destruct (isExtract n) eqn:E; [| exists false; unfold ExtractConcat; cbn [applies]; by rewrite E].
  destruct (isExtract_inv n E) as (h & l & ch & ->). apply eval_extract_inv in Hv as (c & w & a & -> & Hc & Hw & Hra & Hl & Hh & ->).
  apply (ExtractConcat_at e c w a h l Hc); [done | done |].
  eapply (narrow_value c); [exact Hc | done |]. apply domain_here, (domain_child _ _ Hd). left.
Qed.
Lemma extract_rest_domain s n v : eval e n = Some v -> in_domain n ->
  rewrites (respond s [ExtractConstant; ExtractExtract; ExtractWhole; ExtractMultLeadingBit] n) v.
Proof.
  intros Hv Hd. unfold respond.
  destruct (linear_step ExtractConstant [ExtractExtract; ExtractWhole; ExtractMultLeadingBit] n v (sound_here _ _ _ (ExtractConstant_sound e) Hv) Hv) as (n1 & -> & Hv1 & H1).
  assert (in_domain n1) as Hd1.
  { destruct H1 as [[_ ->]|[_ H1]]; [done |]. unfold ExtractConstant in H1. cbn [apply] in H1. repeat apply M_bind_inv in H1 as (? & _ & H1). injection H1 as <-.
    apply domain_leaf; [done |]. eapply covered_same; [by apply (domain_here n) | congruence | done]. }
  destruct (linear_step ExtractExtract [ExtractWhole; ExtractMultLeadingBit] n1 v (sound_here _ _ _ (ExtractExtract_sound e) Hv1) Hv1) as (n2 & -> & Hv2 & H2).
  assert (in_domain n2) as Hd2.
  { destruct H2 as [[_ ->]|[_ H2]]; [done |]. unfold ExtractExtract in H2. cbn [apply] in H2. apply M_bind_inv in H2 as (c & Hc%child_in & H2).
    do 3 (apply M_bind_inv in H2 as (? & _ & H2)). apply M_bind_inv in H2 as (c0 & Hc0%child_in & [= <-]).
    apply domain_build; [eapply covered_same; [by apply (domain_here n1) | etrans; [exact Hv2 | by symmetry] | done] |].
    each. eapply domain_child; [| exact Hc0]. by eapply domain_child. }
  destruct (linear_step ExtractWhole [ExtractMultLeadingBit] n2 v (sound_here _ _ _ (ExtractWhole_sound e) Hv2) Hv2) as (n3 & -> & Hv3 & H3).
  assert (in_domain n3) as Hd3.
  { destruct H3 as [[_ ->]|[_ H3]]; [done |]. unfold ExtractWhole in H3. cbn [apply] in H3. apply child_in in H3. by eapply domain_child. }
  destruct (linear_step ExtractMultLeadingBit [] n3 v (ExtractMultLeadingBit_domain n3 v Hv3 Hd3) Hv3) as (n4 & -> & Hv4 & _).
  rewrite linear_nil, M_bind_Ok. by answer.
Qed.
Lemma RewriteExtract_sound n pre v : eval e n = Some v -> in_domain n -> rewrites (RewriteExtract extractArith n pre) v.
Proof.
  intros Hv Hd. unfold RewriteExtract. pose proof (extract_rest_domain REWRITE_DONE n v Hv Hd) as Hrest.
  apply try_first_sound; [by apply ExtractConcat_domain |]. apply try_first_sound; [by apply sound_here; [apply ExtractSignExtend_sound |] |].
  apply try_first_sound; [by apply sound_here; [apply ExtractNot_sound |] |]. destruct extractArith; [| done].
  apply try_first_sound; [by apply sound_here; [apply ExtractArith_sound |] | done].
Qed.

(** *** Divisions *)
Lemma UdivSelf_domain n v : eval e n = Some v -> covered n -> sound_at UdivSelf n v.
Proof.
  intros Hv [_ Hc]. destruct (isKind BITVECTOR_UDIV_TOTAL n) eqn:K; [| exists false; unfold UdivSelf; cbn [applies]; by rewrite K].
  destruct (kind_node _ _ K) as [ch ->]; [done .. |]. destruct (eval_binary_inv e BITVECTOR_UDIV_TOTAL Sem.udiv ch v ltac:(done) Hv) as (w & a & b & c0 & c1 & -> & -> & H0 & H1 & _).
  destruct (node_eqb c0 c1) eqn:E.
  - apply node_eqb_eq in E as <-. rewrite H0 in H1. injection H1 as <-. apply (UdivSelf_at e c0 w a H0). intros ->. by apply (Hc c0 w).
  - exists false. split; [| done]. unfold UdivSelf, same_children. cbn [applies]. rewrite K, child0, M_bind_Ok, child1, M_bind_Ok. by rewrite E.
Qed.
(** A division that is total, or by a constant that is not 0. *)
Lemma div_total rule KT KP fT fP n v : (KT = BITVECTOR_UDIV_TOTAL /\ KP = BITVECTOR_UDIV /\ fT = Sem.udiv /\ fP = udiv_e e /\ rule = EvalUdiv) \/
    (KT = BITVECTOR_UREM_TOTAL /\ KP = BITVECTOR_UREM /\ fT = Sem.urem /\ fP = urem_e e /\ rule = EvalUrem) ->
  eval e n = Some v -> (forall c0 c1 w, n = MkNode KP [c0; c1] -> eval e c1 <> Some (bv w 0)) -> sound_at rule n v.
Proof.
  intros HK Hv Hnz. destruct HK as [(-> & -> & -> & -> & ->)|(-> & -> & -> & -> & ->)].
  - eapply (eval_div_sound e EvalUdiv BITVECTOR_UDIV_TOTAL BITVECTOR_UDIV); try done; [apply EvalUdiv_const |].
    intros c0 c1 w a b -> H0 H1. unfold udiv_e, Sem.udiv. destruct (Z.eqb_spec b 0) as [->|]; [| done]. by destruct (Hnz c0 c1 w eq_refl).
  - eapply (eval_div_sound e EvalUrem BITVECTOR_UREM_TOTAL BITVECTOR_UREM); try done; [apply EvalUrem_const |].
    intros c0 c1 w a b -> H0 H1. unfold urem_e, Sem.urem. destruct (Z.eqb_spec b 0) as [->|]; [| done]. by destruct (Hnz c0 c1 w eq_refl).
Qed.
Lemma RewriteUdivTotal_sound n pre v : eval e n = Some v -> in_domain n ->
  (forall c0 c1 w, n = MkNode BITVECTOR_UDIV [c0; c1] -> eval e c1 <> Some (bv w 0)) -> rewrites (RewriteUdivTotal n pre) v.
Proof.
  intros Hv Hd Hnz. unfold RewriteUdivTotal. apply try_first_sound; [by apply sound_here; [apply UdivPow2_sound |] |]. unfold respond.
  destruct (linear_step EvalUdiv [UdivOne; UdivSelf] n v) as (n1 & -> & Hv1 & H1); [eapply div_total; [by left | done | done] | done |].
  assert (in_domain n1) as Hd1.
  { destruct H1 as [[_ ->]|[_ H1]]; [done |]. unfold EvalUdiv in H1. cbn [apply] in H1. do 3 (apply M_bind_inv in H1 as (? & _ & H1)). injection H1 as <-.
    apply domain_leaf; [done |]. eapply covered_same; [by apply (domain_here n) | congruence | done]. }
  destruct (linear_step UdivOne [UdivSelf] n1 v (sound_here _ _ _ (UdivOne_sound e) Hv1) Hv1) as (n2 & -> & Hv2 & H2).
  assert (in_domain n2) as Hd2.
  { destruct H2 as [[_ ->]|[_ H2]]; [done |]. unfold UdivOne in H2. cbn [apply] in H2. apply child_in in H2. by eapply domain_child. }
  destruct (linear_step UdivSelf [] n2 v (UdivSelf_domain n2 v Hv2 (domain_here _ Hd2)) Hv2) as (n3 & -> & Hv3 & _).
  rewrite linear_nil, M_bind_Ok. by answer.
Qed.
Lemma RewriteUremTotal_sound n pre v : eval e n = Some v ->
  (forall c0 c1 w, n = MkNode BITVECTOR_UREM [c0; c1] -> eval e c1 <> Some (bv w 0)) -> rewrites (RewriteUremTotal n pre) v.
Proof.
  intros Hv Hnz. unfold RewriteUremTotal. apply try_first_sound; [by apply sound_here; [apply UremPow2_sound |] |]. unfold respond.
  destruct (linear_step EvalUrem [UremOne; UremSelf] n v) as (n1 & -> & Hv1 & _); [eapply div_total; [by right | done | done] | done |].
  destruct (linear_sound e [UremOne; UremSelf] n1 v) as (r & -> & Hr); [each; [apply UremOne_sound | apply UremSelf_sound] | done |].
  rewrite M_bind_Ok. by answer.
Qed.
Lemma nonzero_divisor_ok k f n v : (forall vs, eval_kind e k vs = bv_binary f vs) -> getKind n = k -> operator k -> eval e n = Some v ->
  exists b, nonzero_divisor n = Ok b /\ (b = true -> forall c0 c1 w, n = MkNode k [c0; c1] -> eval e c1 <> Some (bv w 0)).
Proof.
  intros Hf Hk (K1 & K2 & K3) Hv. destruct n as [| | |k' ch]; cbn in Hk; try congruence. subst k'.
  destruct (eval_binary_inv e k f ch v Hf Hv) as (w & a & b & c0 & c1 & -> & -> & H0 & H1 & _). unfold nonzero_divisor. rewrite child1, M_bind_Ok.
  destruct (isConst c1) eqn:C1; [| by exists false]. pose proof (const_value e c1 w b C1 H1) as ->. cbn [getConstBV]. rewrite M_bind_Ok. cbn [d_value]. answer.
  intros Hb%negb_true_iff%Z.eqb_neq ? ? w' [= _ <-]. rewrite H1. intros [= _ ->]. done.
Qed.
Lemma RewriteUdiv_sound n pre v : eval e n = Some v -> getKind n = BITVECTOR_UDIV -> in_domain n -> rewrites (RewriteUdiv n pre) v.
Proof.
  intros Hv Hk Hd. unfold RewriteUdiv. destruct (nonzero_divisor_ok BITVECTOR_UDIV (udiv_e e) n v ltac:(done) Hk ltac:(done) Hv) as (b & -> & Hb).
  rewrite M_bind_Ok. destruct b; [apply RewriteUdivTotal_sound; [done | done | by apply Hb] | by apply rewrites_done].
Qed.
Lemma RewriteUrem_sound n pre v : eval e n = Some v -> getKind n = BITVECTOR_UREM -> rewrites (RewriteUrem n pre) v.
Proof.
  intros Hv Hk. unfold RewriteUrem. destruct (nonzero_divisor_ok BITVECTOR_UREM (urem_e e) n v ltac:(done) Hk ltac:(done) Hv) as (b & -> & Hb).
  rewrite M_bind_Ok. destruct b; [apply RewriteUremTotal_sound; [done | by apply Hb] | by apply rewrites_done].
Qed.

(** *** Conjunctions and disjunctions *)
Lemma bitwise_rewrites n r v : eval e r = Some v -> rewrites (Ok (bitwise_response n r)) v.
Proof. intros Hr. unfold bitwise_response. destruct (bool_decide _); by answer. Qed.
Lemma slicing_step n v : eval e n = Some v -> (forall w a, v = bv w a -> w < 2 ^ 31) ->
  exists r, LinearRewriteStrategy [BitwiseSlicing] n = Ok r /\ eval e r = Some v.
Proof.
  intros Hv Hw. destruct (linear_step BitwiseSlicing [] n v (BitwiseSlicing_at e n v Hv Hw) Hv) as (r & -> & Hr & _). by exists r.
Qed.
Lemma nodup_and_simplify k (R : RewriteRule) ch v : (k = BITVECTOR_AND \/ k = BITVECTOR_OR) -> applies R = (fun node => Ok (isKind k node)) ->
  (forall l, eval e (MkNode k l) = Some v -> Z.of_nat (length l) < 2 ^ 32 -> sound_at R (MkNode k l) v) ->
  eval e (MkNode k ch) = Some v -> Z.of_nat (num_nodes (MkNode k ch)) < 2 ^ 32 ->
  exists r, LinearRewriteStrategy [FlattenAssocCommutNoDuplicates node_lt; R] (MkNode k ch) = Ok r /\ eval e r = Some v.
Proof.
  intros Hk HR Hat Hv Hlen. assert (k <> VARIABLE /\ k <> CONST_BOOLEAN /\ k <> CONST_BITVECTOR) as Hop by (by destruct Hk as [->| ->]).
  destruct (linear_step (FlattenAssocCommutNoDuplicates node_lt) [R] _ v (sound_here _ _ _ (FlattenAssocCommutNoDuplicates_sound e node_lt) Hv) Hv) as (n1 & -> & Hv1 & H1).
  assert (forall l, n1 = MkNode k l -> (length l <= num_nodes (MkNode k ch))%nat) as Hl1.
  { destruct H1 as [[_ ->]|[_ H1]]; [intros l [= <-]; pose proof (children_length (MkNode k ch)); cbn in *; unfold nodes in *; lia |].
    unfold FlattenAssocCommutNoDuplicates in H1. cbn [apply getKind] in H1. apply M_bind_inv in H1 as (l & El & H1).
    destruct (flatten_nodup_operands k _ _ _ _ _ Hop El) as [Hl Hf]. change (nodes [MkNode k ch]) with (num_nodes (MkNode k ch) + 0)%nat in Hl. cbn [length] in Hl.
    unfold mkSortedNode in H1. apply M_bind_inv in H1 as (_ & _ & H1). destruct l as [|c [|d l]]; [done | |]; intros l' ->.
    - injection H1 as ->. destruct (Hf (MkNode k l')) as [Hn|Hn]; [left | by apply not_elem_of_nil in Hn | by rewrite isKind_refl in Hn].
    - assert (l' = sort_nodes node_lt (c :: d :: l)) as -> by congruence. rewrite sort_nodes_perm. lia. }
  assert (sound_at R n1 v) as HR1.
  { destruct (isKind k n1) eqn:K1; [| exists false; rewrite HR, K1; done]. destruct Hop as (? & ? & ?). destruct (kind_node _ _ K1) as [l ->]; [done .. |].
    apply Hat; [done |]. specialize (Hl1 l eq_refl). lia. }
  destruct (linear_step R [] n1 v HR1 Hv1) as (r & -> & Hr & _). by exists r.
Qed.
Lemma finish_bitwise n (pre : bool) m v : eval e n = Some v -> (forall w a, v = bv w a -> w < 2 ^ 31) ->
  rewrites (if pre then Ok (MkResponse REWRITE_DONE n) else resultNode ← LinearRewriteStrategy [BitwiseSlicing] n; Ok (bitwise_response m resultNode)) v.
Proof.
  intros Hv Hw. destruct pre; [by apply rewrites_done |]. destruct (slicing_step n v Hv Hw) as (r & -> & Hr). rewrite M_bind_Ok. by apply bitwise_rewrites.
Qed.
Lemma RewriteAnd_sound ch pre v : eval e (MkNode BITVECTOR_AND ch) = Some v -> in_domain (MkNode BITVECTOR_AND ch) ->
  Z.of_nat (num_nodes (MkNode BITVECTOR_AND ch)) < 2 ^ 32 -> rewrites (RewriteAnd node_lt hash_order (MkNode BITVECTOR_AND ch) pre) v.
Proof.
  intros Hv Hd Hlen. unfold RewriteAnd.
  destruct (nodup_and_simplify BITVECTOR_AND (AndSimplify node_lt hash_order) ch v) as (r & -> & Hr); [by left | done | | done | done |].
  { intros l Hl Hn. by apply AndSimplify_at. }
  rewrite M_bind_Ok. apply finish_bitwise; [done |]. intros w a ->. by eapply (narrow_value _ _ w a Hv), domain_here.
Qed.
Lemma RewriteOr_sound ch pre v : eval e (MkNode BITVECTOR_OR ch) = Some v -> in_domain (MkNode BITVECTOR_OR ch) ->
  Z.of_nat (num_nodes (MkNode BITVECTOR_OR ch)) < 2 ^ 32 -> rewrites (RewriteOr node_lt hash_order (MkNode BITVECTOR_OR ch) pre) v.
Proof.
  intros Hv Hd Hlen. unfold RewriteOr.
  destruct (nodup_and_simplify BITVECTOR_OR (OrSimplify node_lt hash_order) ch v) as (r & -> & Hr); [by right | done | | done | done |].
  { intros l Hl Hn. by apply OrSimplify_at. }
  rewrite M_bind_Ok. apply finish_bitwise; [done |]. intros w a ->. by eapply (narrow_value _ _ w a Hv), domain_here.
Qed.

(** *** Flattening as the first step *)
Lemma flatten_step k rules ch v : isAssocCommut k = true -> eval e (MkNode k ch) = Some v ->
  exists m, LinearRewriteStrategy (FlattenAssocCommut node_lt :: rules) (MkNode k ch) = LinearRewriteStrategy rules m /\
    eval e m = Some v /\ flat_of k (MkNode k ch) m.
Proof.
  intros Hk Hv. destruct (linear_step (FlattenAssocCommut node_lt) rules _ v (sound_here _ _ _ (FlattenAssocCommut_sound e node_lt) Hv) Hv) as (m & E & Hm & H).
  exists m. split; [done |]. split; [done |]. destruct H as [[H ->]|[_ H]].
  - unfold FlattenAssocCommut in H. cbn [applies getKind children] in H. rewrite Hk in H. cbn [negb] in H. apply flat_children. congruence.
  - apply FlattenAssocCommut_flat in H; [done |]. by destruct k.
Qed.

(** *** Exclusive or *)
Lemma xor_zero_step rules n v : eval e n = Some v -> xor_shaped n ->
  exists m, LinearRewriteStrategy (XorZero :: rules) n = LinearRewriteStrategy rules m /\ eval e m = Some v /\ xor_shaped m.
Proof.
  intros Hv Hs. assert (sound_at XorZero n v) as HX.
  { destruct (isKind BITVECTOR_XOR n) eqn:K; [| exists false; unfold XorZero; cbn [applies]; by rewrite K]. destruct (kind_node _ _ K) as [ch ->]; [done .. |].
    apply XorZero_at; [done |]. intros w a ->. destruct (Hs ch eq_refl) as [Hex _]. eapply Exists_impl; [exact Hex |]. intros c Hc. by destruct c. }
  destruct (linear_step XorZero rules n v HX Hv) as (m & E & Hm & H). exists m. split; [done |]. split; [done |]. destruct H as [[_ ->]|[Ha H]]; [done |].
  destruct (isKind BITVECTOR_XOR n) eqn:K; [| unfold XorZero in Ha; cbn [applies] in Ha; by rewrite K in Ha]. destruct (kind_node _ _ K) as [ch ->]; [done .. |].
  destruct (Hs ch eq_refl) as [Hex Hnx]. unfold XorZero in H. cbn [apply children] in H. apply M_bind_inv in H as (size & _ & H).
  set (p := fun c => negb (node_eqb c (mkConst size 0))) in H. assert (Forall not_xor (List.filter p ch)) as Hnx'.
  { apply Forall_forall. intros c [Hc _]%list_elem_of_In%List.filter_In. eapply Forall_forall in Hnx; [exact Hnx | by apply list_elem_of_In]. }
  intros l ->. destruct (List.filter p ch) as [|c [|d l']] eqn:Ef; [done | |].
  - injection H as ->. inversion_clear Hnx' as [|? ? Hc _]. unfold not_xor in Hc. by rewrite isKind_refl in Hc.
  - injection H as <-. split; [| done]. apply Exists_exists in Hex as (x & Hx & Kx). apply Exists_exists. exists x. split; [| done]. rewrite <- Ef.
    apply list_elem_of_In, List.filter_In. split; [by apply list_elem_of_In | by destruct x].
Qed.
(** A slice is an operator on two extractions. *)
Definition slice_shape (k : Kind) (c : Node) : Prop := exists a b h l, c = MkNode k [mkExtract a h l; mkExtract b h l].
Lemma slicing_loop_shape k c o bv i start end_ acc r : Forall (slice_shape k) acc -> slicing_loop k c o bv i start end_ acc = Ok r -> Forall (slice_shape k) r.
Proof.
  assert (forall acc h l, Forall (slice_shape k) acc -> Forall (slice_shape k) (acc ++ [MkNode k [mkExtract c h l; mkExtract o h l]])) as Hpush.
  { intros l0 h l Hl. apply Forall_app. split; [done |]. constructor; [by exists c, o, h, l | constructor]. }
  revert start end_ acc. induction i as [|i IH]; intros start end_ acc Hacc; cbn [slicing_loop]; [by intros [= <-] |].
  intros (b1 & _ & (b0 & _ & H)%M_bind_inv)%M_bind_inv. destruct (negb _); eapply IH; try exact H; destruct (i =? 0)%nat; auto.
Qed.
Lemma BitwiseSlicing_shape n m : apply BitwiseSlicing n = Ok m -> xor_shaped m.
Proof.
  unfold BitwiseSlicing. cbn [apply]. destruct (first_const (children n)) as [c|]; [| done].
  intros (o & _ & (b & _ & (cs & Hcs%slicing_loop_shape & H)%M_bind_inv)%M_bind_inv)%M_bind_inv; [| constructor]. intros l ->.
  destruct cs as [|d [|d' cs]]; [done | | by injection H]. injection H as ->. inversion_clear Hcs as [|? ? (x & y & h & j & E) _]. injection E as _ ->.
  split; [by left | by repeat constructor].
Qed.
Lemma RewriteXor_sound ch pre v : eval e (MkNode BITVECTOR_XOR ch) = Some v -> in_domain (MkNode BITVECTOR_XOR ch) ->
  Z.of_nat (num_nodes (MkNode BITVECTOR_XOR ch)) < 2 ^ 32 -> rewrites (RewriteXor node_lt hash_order (MkNode BITVECTOR_XOR ch) pre) v.
Proof.
  intros Hv Hd Hlen. assert (forall w a, v = bv w a -> w < 2 ^ 31) as Hw by (intros w a ->; by eapply (narrow_value _ _ w a Hv), domain_here). unfold RewriteXor.
  destruct (flatten_step BITVECTOR_XOR [XorSimplify node_lt hash_order; XorZero; BitwiseSlicing] ch v eq_refl Hv) as (n1 & -> & Hv1 & Hf).
  assert (exists n2, LinearRewriteStrategy [XorSimplify node_lt hash_order; XorZero; BitwiseSlicing] n1 = LinearRewriteStrategy [XorZero; BitwiseSlicing] n2 /\
    eval e n2 = Some v /\ xor_shaped n2) as (n2 & -> & Hv2 & Hs2).
  { destruct (isKind BITVECTOR_XOR n1) eqn:K.
    - destruct (kind_node _ _ K) as [l ->]; [done .. |]. destruct (Hf l eq_refl) as (Hflat & Hl & _).
      destruct (linear_step (XorSimplify node_lt hash_order) [XorZero; BitwiseSlicing] (MkNode BITVECTOR_XOR l) v) as (n2 & E & Hv2 & H); [| done |].
      + apply XorSimplify_at; [done | done | lia].
      + exists n2. split; [done |]. split; [done |]. destruct H as [[H _]|[_ H]]; [done |]. by eapply XorSimplify_shape.
    - exists n1. split; [| split; [done |]; intros l ->; by rewrite isKind_refl in K].
      apply linear_skip. unfold XorSimplify. cbn [applies]. by rewrite K. }
  destruct (xor_zero_step [BitwiseSlicing] n2 v Hv2 Hs2) as (n3 & -> & Hv3 & Hs3).
  destruct (linear_step BitwiseSlicing [] n3 v (BitwiseSlicing_at e n3 v Hv3 Hw) Hv3) as (n4 & -> & Hv4 & H4). rewrite linear_nil, M_bind_Ok.
  destruct pre; [by apply rewrites_done |]. assert (sound_at XorOne n4 v) as HX.
  { destruct (isKind BITVECTOR_XOR n4) eqn:K; [| exists false; unfold XorOne; cbn [applies]; by rewrite K]. destruct (kind_node _ _ K) as [l ->]; [done .. |].
    apply XorOne_at; [done |]. intros w a ones -> Eo. assert (xor_shaped (MkNode BITVECTOR_XOR l)) as Hs4.
    { destruct H4 as [[_ ->]|[_ H4]]; [done | by eapply BitwiseSlicing_shape]. }
    destruct (Hs4 l eq_refl) as [Hex _]. unfold mkOnes in Eo. apply M_bind_inv in Eo as (o & _ & [= <-]). eapply Exists_impl; [exact Hex |]. intros c Hc. by destruct c. }
  destruct (linear_step XorOne [BitwiseSlicing] n4 v HX Hv4) as (n5 & -> & Hv5 & _). destruct (slicing_step n5 v Hv5 Hw) as (r & -> & Hr).
  rewrite M_bind_Ok. by apply bitwise_rewrites.
Qed.

(** *** Products and sums *)
Lemma MultPow2_kind n m : apply MultPow2 n = Ok m -> isKind BITVECTOR_MULT m = false.
Proof. unfold MultPow2. cbn [apply]. intros ([kept x] & _ & (a & _ & (size & _ & [= <-])%M_bind_inv)%M_bind_inv)%M_bind_inv. done. Qed.
Lemma RewriteMult_sound ch pre v : eval e (MkNode BITVECTOR_MULT ch) = Some v -> rewrites (RewriteMult node_lt (MkNode BITVECTOR_MULT ch) pre) v.
Proof.
  intros Hv. unfold RewriteMult. destruct (flatten_step BITVECTOR_MULT [MultSimplify node_lt; MultPow2] ch v eq_refl Hv) as (n1 & -> & Hv1 & Hf).
  assert (exists n2, LinearRewriteStrategy [MultSimplify node_lt; MultPow2] n1 = LinearRewriteStrategy [MultPow2] n2 /\ eval e n2 = Some v /\ mult_shaped n2) as (n2 & -> & Hv2 & Hs2).
  { destruct (isKind BITVECTOR_MULT n1) eqn:K.
    - destruct (kind_node _ _ K) as [l ->]; [done .. |]. destruct (Hf l eq_refl) as (Hflat & _). destruct (MultSimplify_at e node_lt l v Hv1) as [Hat Hno].
      destruct (linear_step (MultSimplify node_lt) [MultPow2] _ v Hat Hv1) as (n2 & E & Hv2 & H). exists n2. split; [done |]. split; [done |].
      destruct H as [[H ->]|[_ H]]; [auto |]. destruct (MultSimplify_apply e node_lt l v Hv1) as (r & Er & _ & Hr). rewrite Er in H. injection H as <-. auto.
    - exists n1. split; [| split; [done |]; intros l ->; by rewrite isKind_refl in K]. apply linear_skip. unfold MultSimplify. cbn [applies]. by rewrite K. }
  assert (exists n3, LinearRewriteStrategy [MultPow2] n2 = Ok n3 /\ eval e n3 = Some v /\ mult_shaped n3) as (n3 & -> & Hv3 & Hs3).
  { destruct (isKind BITVECTOR_MULT n2) eqn:K.
    - destruct (kind_node _ _ K) as [l ->]; [done .. |]. destruct (linear_step MultPow2 [] _ v (MultPow2_shaped e l v Hv2 Hs2) Hv2) as (n3 & E & Hv3 & H).
      exists n3. split; [done |]. split; [done |]. destruct H as [[_ ->]|[_ H%MultPow2_kind]]; [done |]. intros l' ->. by rewrite isKind_refl in H.
    - exists n2. split; [| done]. apply (linear_skip MultPow2 []). unfold MultPow2. cbn [applies]. by rewrite K. }
  rewrite M_bind_Ok. assert (exists n4, (if pre then Ok n3 else LinearRewriteStrategy [MultDistribConst; MultDistrib] n3) = Ok n4 /\ eval e n4 = Some v) as (n4 & -> & Hv4).
  { destruct pre; [by exists n3 |]. assert (sound_at MultDistribConst n3 v) as HD.
    { destruct (isKind BITVECTOR_MULT n3) eqn:K; [| exists false; unfold MultDistribConst; cbn [applies]; by rewrite K].
      destruct (kind_node _ _ K) as [l ->]; [done .. |]. by apply MultDistribConst_at. }
    destruct (linear_step MultDistribConst [MultDistrib] n3 v HD Hv3) as (n4 & -> & Hv4 & _). apply linear_sound; [each; apply MultDistrib_sound | done]. }
  rewrite M_bind_Ok. by answer.
Qed.
(** The products among the operands of a sum have their constant last. *)
Definition summands_ready (n : Node) : Prop := forall t, operand BITVECTOR_PLUS n t -> mult_ready t.
Lemma RewritePlus_sound ch pre v : eval e (MkNode BITVECTOR_PLUS ch) = Some v -> (pre = false -> summands_ready (MkNode BITVECTOR_PLUS ch)) ->
  rewrites (RewritePlus node_lt (MkNode BITVECTOR_PLUS ch) pre) v.
Proof.
  intros Hv Hr. unfold RewritePlus. destruct pre; [apply respond_sound; [each; apply FlattenAssocCommut_sound | done] |]. specialize (Hr eq_refl).
  destruct (flatten_step BITVECTOR_PLUS [PlusCombineLikeTerms node_lt] ch v eq_refl Hv) as (n1 & -> & Hv1 & Hf).
  assert (sound_at (PlusCombineLikeTerms node_lt) n1 v) as HP.
  { destruct (isKind BITVECTOR_PLUS n1) eqn:K; [| exists false; unfold PlusCombineLikeTerms; cbn [applies]; by rewrite K].
    destruct (kind_node _ _ K) as [l ->]; [done .. |]. destruct (Hf l eq_refl) as (_ & _ & Ho). apply PlusCombineLikeTerms_at; [done |].
    eapply Forall_impl; [exact Ho |]. exact Hr. }
  destruct (linear_step (PlusCombineLikeTerms node_lt) [] n1 v HP Hv1) as (n2 & -> & Hv2 & _). rewrite linear_nil, M_bind_Ok. by answer.
Qed.
Lemma RewriteNeg_sound n pre v : eval e n = Some v -> rewrites (RewriteNeg n pre) v.
Proof.
  intros Hv. unfold RewriteNeg. destruct (linear_sound e [EvalNeg; NegIdemp; NegSub] n v) as (r & -> & Hr); [each; [apply EvalNeg_sound | apply NegIdemp_sound | apply NegSub_sound] | done |].
  rewrite M_bind_Ok. apply try_first_sound; [by apply sound_here; [apply NegPlus_sound |] |]. destruct pre; [by apply rewrites_done |].
  apply try_first_sound; [exists false; split; [by eapply NegMult_never | done] | by apply rewrites_done].
Qed.

(** *** Equations *)
(** After the children: an equation between vectors. *)
Definition equation_ready (n : Node) : Prop := forall l r, n = MkNode EQUAL [l; r] ->
  sum_ready l /\ sum_ready r /\ exists w a b, eval e l = Some (bv w a) /\ eval e r = Some (bv w b).
(** An equation on which [SolveEq] throws [x] out of its last assertions: the given one, or its mirror image
    ([ReflexivityEq] may turn it around first). *)
Definition solve_throws (n : Node) (x : exn) : Prop := exists l r w a b,
  (n = MkNode EQUAL [l; r] \/ n = MkNode EQUAL [r; l]) /\ eval e l = Some (bv w a) /\ eval e r = Some (bv w b) /\ SolveEq_throws e node_lt l r w (a =? b) x.
Lemma eq_rules_ready n v : eval e n = Some v -> equation_ready n ->
  exists m, LinearRewriteStrategy [FailEq; SimplifyEq; ReflexivityEq node_lt] n = Ok m /\ eval e m = Some v /\ equation_ready m /\
    (forall l r, m = MkNode EQUAL [l; r] -> n = MkNode EQUAL [l; r] \/ n = MkNode EQUAL [r; l]).
Proof.
  intros Hv Hr. destruct (linear_step FailEq [SimplifyEq; ReflexivityEq node_lt] n v (sound_here _ _ _ (FailEq_sound e) Hv) Hv) as (n1 & -> & Hv1 & H1).
  assert (equation_ready n1 /\ (forall l r, n1 = MkNode EQUAL [l; r] -> n = n1)) as [Hr1 S1] by (destruct H1 as [[_ ->]|[_ [= <-]]]; done).
  destruct (linear_step SimplifyEq [ReflexivityEq node_lt] n1 v (sound_here _ _ _ (SimplifyEq_sound e) Hv1) Hv1) as (n2 & -> & Hv2 & H2).
  assert (equation_ready n2 /\ (forall l r, n2 = MkNode EQUAL [l; r] -> n = n2)) as [Hr2 S2] by (destruct H2 as [[_ ->]|[_ [= <-]]]; done).
  destruct (linear_step (ReflexivityEq node_lt) [] n2 v (sound_here _ _ _ (ReflexivityEq_sound e node_lt) Hv2) Hv2) as (n3 & -> & Hv3 & H3).
  exists n3. split; [done |]. split; [done |].
  destruct H3 as [[_ ->]|[Ha H3]]; [split; [done |]; intros l r E; left; rewrite <- E; by eapply S2 |].
  unfold ReflexivityEq in Ha, H3. cbn [applies apply] in Ha, H3. destruct (isKind EQUAL n2) eqn:K; [| done].
  destruct (kind_node _ _ K) as [ch ->]; [done .. |]. apply M_bind_inv in H3 as (a & Ea & H3). apply M_bind_inv in H3 as (b & Eb & [= <-]).
  assert (ch = [a; b]) as ->.
  { destruct ch as [|a' [|b' [|c ch]]]; try discriminate Ea; try discriminate Eb; [injection Ea as ->; injection Eb as ->; done |].
    apply eval_MkNode in Hv2 as (Harity & _). done. }
  split.
  - intros l r [= <- <-]. destruct (Hr2 a b eq_refl) as (H & H' & w & x & y & ? & ?). eauto 10.
  - intros l r [= <- <-]. right. by eapply S2.
Qed.
Lemma SolveEq_applies n v : eval e n = Some v -> exists b, applies (SolveEq node_lt) n = Ok b /\ (b = true -> exists l r, n = MkNode EQUAL [l; r]).
Proof.
  intros Hv. unfold SolveEq. cbn [applies]. destruct (isKind EQUAL n) eqn:K; cbn [negb]; [| by exists false]. destruct (kind_node _ _ K) as [ch ->]; [done .. |].
  assert (exists l r, ch = [l; r]) as (l & r & ->).
  { apply eval_MkNode in Hv as (Ha & _). destruct ch as [|l [|r [|c ch]]]; try discriminate Ha. eauto. }
  rewrite child0, M_bind_Ok, child1, M_bind_Ok.
  assert (forall x y, exists b, (if isVar x then s ← hasSubterm y x false; Ok (negb s) else Ok false) = Ok b) as Hs.
  { intros x y. destruct (isVar x); [| eauto]. destruct (hasSubterm_ok y x false) as (b & -> & _). rewrite M_bind_Ok. eauto. }
  destruct (Hs l r) as [[] ->]; rewrite M_bind_Ok; [by exists false |]. destruct (Hs r l) as [b ->]. rewrite M_bind_Ok. eexists. split; [done |]. eauto.
Qed.
Lemma RewriteEqual_pre n v : eval e n = Some v -> rewrites (RewriteEqual node_lt n true) v.
Proof.
  intros Hv. unfold RewriteEqual. apply (linear_respond (fun _ => REWRITE_DONE)); [each; [apply FailEq_sound | apply SimplifyEq_sound | apply ReflexivityEq_sound] | done].
Qed.
Lemma RewriteEqual_post n v : eval e n = Some v -> equation_ready n ->
  rewrites (RewriteEqual node_lt n false) v \/ exists x, RewriteEqual node_lt n false = Throw x /\ solve_throws n x.
Proof.
  intros Hv Hr. unfold RewriteEqual. destruct (eq_rules_ready n v Hv Hr) as (m & -> & Hm & Hrm & Hs). rewrite M_bind_Ok.
  destruct (SolveEq_applies m v Hm) as (b & Eb & Hb). rewrite Eb, M_bind_Ok. destruct b; [| left; by apply rewrites_done].
  destruct (Hb eq_refl) as (l & r & ->). destruct (Hrm l r eq_refl) as (Sl & Sr & w & a & c & Hl & Hr').
  rewrite (e_equal e l r w a c Hl Hr') in Hm. injection Hm as <-. unfold run. rewrite Eb, M_bind_Ok. cbn [check]. rewrite M_bind_Ok.
  destruct (SolveEq_apply e node_lt node_lt_total l r w a c Hl Hr' Sl Sr) as [(r' & -> & Hev)|(x & -> & Hx)].
  - left. rewrite M_bind_Ok. by answer.
  - right. exists x. split; [done |]. exists l, r, w, a, c. split; [by apply Hs | done].
Qed.

(** ** The table *)
(** What the handlers of sums and equations rely on after the children were rewritten. *)
Definition post_ready (n : Node) : Prop :=
  match getKind n with BITVECTOR_PLUS => summands_ready n | EQUAL => equation_ready n | _ => True end.
Abbreviation table := (d_rewriteTable node_lt hash_order byZeroConst extractArith).
Ltac unfold_handler := unfold RewriteUlt, RewriteUltBv, RewriteSlt, RewriteSltBv, RewriteUle, RewriteSle, RewriteUgt, RewriteSgt, RewriteUge, RewriteSge, RewriteITEBv, RewriteNot,
  RewriteXnor, RewriteNand, RewriteNor, RewriteComp, RewriteSub, RewriteSmod, RewriteSdiv, RewriteSrem, RewriteRepeat, RewriteZeroExtend, RewriteSignExtend,
  RewriteRotateRight, RewriteRotateLeft, RewriteRedor, RewriteRedand.
Ltac simple_kind := first [apply respond_sound | apply (linear_respond (fun r => if node_eqb r _ then _ else _))]; [each; eauto with rules | assumption].

Lemma table_sound n pre v : eval e n = Some v -> in_domain n -> Z.of_nat (num_nodes n) < 2 ^ 32 -> (pre = false -> post_ready n) -> getKind n <> EQUAL ->
  rewrites (table (getKind n) n pre) v.
Proof.
  intros Hv Hd Hlen Hpost Hne. destruct n as [x t|b|w|k ch]; try by apply rewrites_done.
  cbn [getKind] in *. unfold post_ready in Hpost. cbn [getKind] in Hpost.
  destruct k; cbn [d_rewriteTable]; try (by apply rewrites_done); try (by destruct Hne).
  all: try match goal with
    | |- rewrites (RewriteRepeat _ _) _ => apply respond_at; [apply RepeatEliminate_at; [done | by eapply covered_narrow, domain_here] | done]
    end.
  all: try (unfold_handler; simple_kind).
  all: try match goal with
    | |- rewrites (RewriteShl _ _) _ => apply try_first_sound; [apply sound_here; eauto with rules | simple_kind]
    | |- rewrites (RewriteLshr _ _) _ => apply try_first_sound; [apply sound_here; eauto with rules | simple_kind]
    | |- rewrites (RewriteAshr _ _) _ => apply try_first_sound; [apply AshrByConst_at; [done | by eapply covered_narrow, domain_here] | simple_kind]
    end.
  - by apply ApplyRuleToChildren_sound; eauto with rules.
  - by apply RewriteAnd_sound.
  - by apply RewriteOr_sound.
  - by apply RewriteXor_sound.
  - by apply RewriteMult_sound.
  - by apply RewritePlus_sound.
  - by apply RewriteNeg_sound.
  - by apply RewriteUdiv_sound.
  - by apply RewriteUrem_sound.
  - by apply RewriteUdivTotal_sound.
  - by apply RewriteUremTotal_sound.
  - by apply RewriteExtract_sound.
Qed.
End sound.
