(* ===== verification/BVRewriteTheorems.v ===== *)
(** * Theorems on the bit-vector rewriter

    The value of a term is kept by [preRewrite] and [postRewrite] and by the rules
    they are made of; the loops over worklists end; and the two places where the rules
    do not do what they are meant to. *)

From S2P Require Import Prelude Integer BitVector Node BVRules BVRulesCorrect BVEvalCorrect BVCoreCorrect BVSimplify BVSimplifyCorrect BVNormalize BVNormalizeCorrect BVLinearCorrect BVBitwiseCorrect Subterm BVSolveEq BVSolveEqCorrect BVRewriter BVRewriterCorrect.
Local Open Scope Z_scope.

(** ** Sample terms *)
(** Division by zero as SMT-LIB has it. *)
Definition env_ones : env := {| e_bool _ := false; e_bv _ _ := 5; e_udiv0 n _ := 2 ^ n - 1; e_urem0 _ a := a |}.
Lemma env_ones_total : env_total env_ones.
Proof.
  intros n a. cbn. split; [| done]. unfold Sem.wrap. destruct (Z.le_gt_cases 0 n) as [Hn|Hn].
  - apply Z.mod_small. pose proof (pow2_gt0 n Hn). lia.
  - rewrite Z.pow_neg_r by done. done.
Qed.
(** An order in which any two terms compare. *)
Definition any_lt (a b : Node) : bool := negb (node_eqb a b).
Lemma any_lt_total a b : a <> b -> any_lt a b = true \/ any_lt b a = true.
Proof. intros H. left. unfold any_lt. apply negb_true_iff. destruct (node_eqb a b) eqn:E; [by apply node_eqb_eq in E | done]. Qed.
Definition x8 : Node := Var 1 (BITVECTOR_TYPE 8).
Definition c8 (z : Z) : Node := ConstBV (MkBitVector 8 z).

Section decide_domain.
(** A check of [in_domain] by evaluation. *)
Definition covered_b (e : env) (t : Node) : bool :=
  (match eval e t with Some (VBV v) => d_size v <=? MAX_CHILDREN | _ => true end) &&
  (match t with
   | MkNode BITVECTOR_UDIV_TOTAL [c; _] => match eval e c with Some (VBV v) => negb (d_value v =? 0) | _ => true end
   | _ => true
   end).
Fixpoint in_domain_b (e : env) (n : Node) : bool :=
  covered_b e n && match n with MkNode _ ch => forallb (in_domain_b e) ch | _ => true end.
Lemma covered_b_ok e t : covered_b e t = true -> covered e t.
Proof.
  unfold covered_b. intros [H1 H2]%andb_true_iff. split.
  - intros w a E. rewrite E in H1. by apply Z.leb_le in H1.
  - intros c w -> E. rewrite E in H2. done.
Qed.
Lemma in_domain_b_ok e n : in_domain_b e n = true -> in_domain e n.
Proof.
  induction n as [x t|b|v|k ch IH] using node_ind'; cbn [in_domain_b]; intros [H1%covered_b_ok H2]%andb_true_iff; [by apply domain_leaf .. |].
  apply domain_build; [done |]. clear H1. induction IH as [|c ch Hc _ IH]; [constructor |]. cbn in H2. apply andb_true_iff in H2 as [? ?]. constructor; auto.
Qed.
End decide_domain.

(** ** The handlers *)
Lemma small_nodes n : Z.of_nat (num_nodes n) <= MAX_CHILDREN -> Z.of_nat (num_nodes n) < 2 ^ 32.
Proof. unfold MAX_CHILDREN. lia. Qed.
(** C7. [TheoryBVRewriter::preRewrite] on a term that has a value answers with a term of the same value, whatever the order of nodes and of hash maps and
    the options, on these terms: at most [MAX_CHILDREN] (2^26 - 1) nodes, counted as a tree; vectors of at most [MAX_CHILDREN] bits; no subterm divides 0 by
    itself ([in_domain]); and, with [bitvectorDivByZeroConst] on, in models where division by zero is total. *)
Theorem preRewrite_sound {G : Gmp} {HG : GmpSpec G} {NR : NestedRewriter} e node_lt hash_order byZeroConst extractArith n v :
  (forall a b, a <> b -> node_lt a b = true \/ node_lt b a = true) -> (forall m, hash_order m ≡ₚ m) -> (byZeroConst = true -> env_total e) ->
  eval e n = Some v -> in_domain e n -> Z.of_nat (num_nodes n) <= MAX_CHILDREN ->
  exists r, preRewrite node_lt hash_order byZeroConst extractArith n = Ok r /\ eval e (node r) = Some v.
Proof.
  intros Hlt Hperm Hz Hv Hd Hlen%small_nodes. unfold preRewrite. destruct (decide (getKind n = EQUAL)) as [E|E].
  - rewrite E. by apply RewriteEqual_pre.
  - by apply table_sound.
Qed.
Lemma preRewrite_sound_witness :
  let n := MkNode BITVECTOR_PLUS [x8; MkNode BITVECTOR_PLUS [c8 3; x8]] in
  exists r, preRewrite (G := gmp_ref) (NR := Ok) any_lt id true false n = Ok r /\ eval env_ones (node r) = Some (bv 8 13).
Proof.
  apply (preRewrite_sound env_ones any_lt id true false); [apply any_lt_total | done | intros _; apply env_ones_total | reflexivity | apply in_domain_b_ok; vm_compute; reflexivity | vm_compute; discriminate].
Defined.

(** C8. [TheoryBVRewriter::postRewrite] on a term that has a value answers with a term of the same value, whatever the order of nodes and of hash
    maps, the options and the answers of the nested rewrites, on these terms: at most [MAX_CHILDREN] (2^26 - 1) nodes, counted as a tree; vectors of at most
    [MAX_CHILDREN] bits; no subterm divides 0 by itself ([in_domain]); with [bitvectorDivByZeroConst] on, in models where division by zero is total;
    and a sum or an equation is as rewritten children leave it ([post_ready]: constants last in the products among its operands, and an equation is between
    vectors).  The only other outcome is an exception on an equation, and exactly from the two assertions at the end of [SolveEq]: the new sides are
    equal and not 0, or the new equation is another one that the nested rewriter takes back to the given one or throws on ([solve_throws]). *)
Theorem postRewrite_sound {G : Gmp} {HG : GmpSpec G} {NR : NestedRewriter} e node_lt hash_order byZeroConst extractArith n v :
  (forall a b, a <> b -> node_lt a b = true \/ node_lt b a = true) -> (forall m, hash_order m ≡ₚ m) -> (byZeroConst = true -> env_total e) ->
  eval e n = Some v -> in_domain e n -> Z.of_nat (num_nodes n) <= MAX_CHILDREN -> post_ready e n ->
  (exists r, postRewrite node_lt hash_order byZeroConst extractArith n = Ok r /\ eval e (node r) = Some v) \/
  (exists x, postRewrite node_lt hash_order byZeroConst extractArith n = Throw x /\ solve_throws e node_lt n x).
Proof.
  intros Hlt Hperm Hz Hv Hd Hlen%small_nodes Hpost. unfold postRewrite. destruct (decide (getKind n = EQUAL)) as [E|E].
  - rewrite E. unfold post_ready in Hpost. rewrite E in Hpost. by apply RewriteEqual_post.
  - left. by apply table_sound.
Qed.
Lemma postRewrite_sound_witness :
  let n := MkNode BITVECTOR_AND [x8; MkNode BITVECTOR_NOT [x8]; c8 240] in
  let q := MkNode EQUAL [MkNode BITVECTOR_PLUS [x8; c8 3]; MkNode BITVECTOR_MULT [x8; c8 2]] in
  (exists r, postRewrite (G := gmp_ref) (NR := Ok) any_lt id true false n = Ok r /\ eval env_ones (node r) = Some (bv 8 0)) /\
  (exists r, postRewrite (G := gmp_ref) (NR := Ok) any_lt id true false q = Ok r /\ eval env_ones (node r) = Some (VBool false)).
Proof.
  intros n q. pose proof (fun t v => postRewrite_sound (HG := gmp_ref_spec) (NR := Ok) env_ones any_lt id true false t v any_lt_total (fun _ => reflexivity _) (fun _ => env_ones_total)) as H. split.
  - destruct (H n (bv 8 0)) as [H'|(x & Hx & _)]; [reflexivity | apply in_domain_b_ok; vm_compute; reflexivity | vm_compute; discriminate | done | exact H' | vm_compute in Hx; discriminate].
  - destruct (H q (VBool false)) as [H'|(x & Hx & _)]; [reflexivity | apply in_domain_b_ok; vm_compute; reflexivity | vm_compute; discriminate | | exact H' | vm_compute in Hx; discriminate].
    intros l r [= <- <-]. split; [| split].
    + unfold sum_ready. cbn. repeat constructor; intros Hk; discriminate Hk.
    + intros _. repeat constructor.
    + by exists 8, 8, 10.
Defined.

(** ** Groups of rules *)
(** The rules that eliminate an operator, [theory_bv_rewrite_rules_operator_elimination.h] ([SltEliminate] to [RedandEliminate]): on a term that
    has a value each one decides whether it applies, and where it does it answers with a term of the same value. *)
Theorem elimination_rules_sound {G : Gmp} {HG : GmpSpec G} e byZeroConst : (byZeroConst = true -> env_total e) -> Forall (Sound e)
  [UgtEliminate; UgeEliminate; SgtEliminate; SgeEliminate; SltEliminate; SleEliminate; UleEliminate; CompEliminate; SubEliminate;
   RotateLeftEliminate; RotateRightEliminate; NandEliminate; NorEliminate; XnorEliminate; SdivEliminate byZeroConst; SremEliminate byZeroConst;
   SmodEliminate; ZeroExtendEliminate; RedorEliminate; RedandEliminate].
Proof. intros Hz. repeat first [apply List.Forall_nil | apply List.Forall_cons]; eauto with rules. Qed.
Lemma elimination_rules_sound_witness :
  exists r, apply (SdivEliminate (G := gmp_ref) true) (MkNode BITVECTOR_SDIV [x8; c8 254]) = Ok r /\ eval env_ones r = Some (bv 8 254).
Proof.
  pose proof (elimination_rules_sound (G := gmp_ref) env_ones true (fun _ => env_ones_total)) as H. do 14 (apply Forall_cons in H as [_ H]). apply Forall_cons in H as [[_ H] _].
  apply H; reflexivity.
Defined.

(** The rules that evaluate an operator on constants, [theory_bv_rewrite_rules_constant_evaluation.h], agree with the operators of [BitVector]: each one
    is sound, the divisions where division by zero is total. *)
Theorem evaluation_rules_sound {G : Gmp} {HG : GmpSpec G} e : env_total e -> Forall (Sound e)
  [EvalNot; EvalMult; EvalPlus; EvalNeg; EvalUdiv; EvalUrem; EvalShl; EvalLshr; EvalAshr; EvalUlt; EvalUltBv; EvalSlt; EvalSltBv; EvalITEBv; EvalUle; EvalSle;
   EvalExtract; EvalConcat; EvalSignExtend; EvalComp].
Proof. intros Hz. repeat first [apply List.Forall_nil | apply List.Forall_cons]; eauto with rules. Qed.
Lemma evaluation_rules_sound_witness :
  exists r, apply (EvalUdiv (G := gmp_ref)) (MkNode BITVECTOR_UDIV [c8 7; c8 0]) = Ok r /\ eval env_ones r = Some (bv 8 255).
Proof.
  pose proof (evaluation_rules_sound (G := gmp_ref) env_ones env_ones_total) as H. do 4 (apply Forall_cons in H as [_ H]). apply Forall_cons in H as [[_ H] _].
  apply H; reflexivity.
Defined.

(** The rules on slices and concatenations ([..._core.h]), comparisons, shifts, divisions and negations ([..._simplification.h]) and the distributive and flattening
    rules ([..._normalization.h]) that need nothing of the rules run before them are sound on every term. *)
Theorem simplification_rules_sound {G : Gmp} {HG : GmpSpec G} e node_lt : Forall (Sound e)
  [ConcatFlatten; ConcatExtractMerge; ConcatConstantMerge; ExtractWhole; ExtractConstant; ExtractExtract; FailEq; SimplifyEq; ReflexivityEq node_lt;
   UltZero; ZeroUlt; UltOne; SltZero; UleZero; ZeroUle; UleMax; UltSelf; UleSelf; LtSelf; LteSelf; NotUlt; NotUle; UltPlusOne;
   ShlByConst; LshrByConst; ShiftZero; UdivPow2; UremPow2; UdivOne; UremOne; UremSelf; NotXor node_lt; NotIdemp; NegIdemp; MergeSignExtend; MultSlice;
   ExtractBitwise node_lt; ExtractNot; ExtractSignExtend; ExtractArith; ExtractArith2; FlattenAssocCommut node_lt; FlattenAssocCommutNoDuplicates node_lt;
   MultDistrib; NegSub; NegPlus].
Proof. repeat first [apply List.Forall_nil | apply List.Forall_cons]; eauto with rules. Qed.
Lemma simplification_rules_sound_witness :
  exists r, apply (ConcatFlatten) (MkNode BITVECTOR_CONCAT [x8; MkNode BITVECTOR_CONCAT [c8 1; x8]]) = Ok r /\ eval env_ones r = Some (bv 24 327941).
Proof.
  pose proof (simplification_rules_sound (G := gmp_ref) env_ones any_lt) as H. apply Forall_cons in H as [[_ H] _].
  apply H; reflexivity.
Defined.

(** C31. [SolveEq] on an equation between vectors, with their constants last in the products on both sides ([sum_ready]): it answers true exactly when the two
    sides are equal, in the sense that its answer has the value of the equation in the model; or one of its last two assertions throws.  Then the new
    sides it computed are equal exactly when the old ones are, and either they are the same term and not 0, or the new equation is another one and
    [Rewriter::rewrite] (any function here) throws on a new side or takes both back to the old sides. *)
Theorem SolveEq_sound {G : Gmp} {HG : GmpSpec G} {NR : NestedRewriter} e node_lt l r n a b : (forall x y, x <> y -> node_lt x y = true \/ node_lt y x = true) ->
  eval e l = Some (bv n a) -> eval e r = Some (bv n b) -> sum_ready l -> sum_ready r ->
  (exists m, apply (SolveEq node_lt) (MkNode EQUAL [l; r]) = Ok m /\ eval e m = Some (VBool (a =? b))) \/
  (exists x, apply (SolveEq node_lt) (MkNode EQUAL [l; r]) = Throw x /\ SolveEq_throws e node_lt l r n (a =? b) x).
Proof. intros Hlt Hl Hr Sl Sr. exact (SolveEq_apply e node_lt Hlt l r n a b Hl Hr Sl Sr). Qed.
Lemma SolveEq_sound_witness :
  exists m, apply (SolveEq (G := gmp_ref) (NR := Ok) any_lt) (MkNode EQUAL [MkNode BITVECTOR_PLUS [x8; c8 3]; MkNode BITVECTOR_MULT [x8; c8 2]]) = Ok m /\ eval env_ones m = Some (VBool (8 =? 10)).
Proof.
  destruct (SolveEq_sound (HG := gmp_ref_spec) (NR := Ok) env_ones any_lt (MkNode BITVECTOR_PLUS [x8; c8 3]) (MkNode BITVECTOR_MULT [x8; c8 2]) 8 8 10) as [H|(x & Hx & _)];
    [apply any_lt_total | reflexivity | reflexivity | | | exact H | vm_compute in Hx; discriminate].
  - repeat constructor; intros H; discriminate H.
  - intros _. repeat constructor.
Defined.

(** ** The loops *)
Lemma flatten_ac_returns k fuel stack ch : (nodes_of stack <= fuel)%nat -> exists r, flatten_ac k fuel stack ch = Ok r.
Proof.
  revert stack ch. induction fuel as [|fuel IH]; intros [|c stack] ch Hf; cbn [flatten_ac]; eauto;
    change (nodes_of (c :: stack)) with (num_nodes c + nodes_of stack)%nat in Hf; rewrite nodes_of_children in Hf; [lia |].
  destruct (isKind k c); apply IH; [| lia]. unfold nodes_of in *. rewrite sum_list_with_app. fold (nodes (rev (children c))) in *.
  rewrite (nodes_perm (rev (children c)) (children c)) by (symmetry; apply Permutation_rev). unfold nodes. lia.
Qed.
Lemma flatten_nodup_returns k fuel stack processed ch : (nodes_of stack <= fuel)%nat -> exists r, flatten_nodup k fuel stack processed ch = Ok r.
Proof.
  revert stack processed ch. induction fuel as [|fuel IH]; intros [|c stack] processed ch Hf; cbn [flatten_nodup]; eauto;
    change (nodes_of (c :: stack)) with (num_nodes c + nodes_of stack)%nat in Hf; rewrite nodes_of_children in Hf; [lia |].
  destruct (existsb _ _); [apply IH; lia |]. destruct (isKind k c); apply IH; [| lia]. unfold nodes_of in *. rewrite sum_list_with_app. fold (nodes (rev (children c))) in *.
  rewrite (nodes_perm (rev (children c)) (children c)) by (symmetry; apply Permutation_rev). unfold nodes. lia.
Qed.
Lemma flatten_loop_returns fuel stack result : (nodes_of stack <= fuel)%nat -> exists r, flatten_loop fuel stack result = Ok r.
Proof.
  revert stack result. induction fuel as [|fuel IH]; intros [|c stack] result Hf; cbn [flatten_loop]; eauto;
    change (nodes_of (c :: stack)) with (num_nodes c + nodes_of stack)%nat in Hf; rewrite nodes_of_children in Hf; [lia |].
  destruct (isKind _ c); apply IH; [| lia]. unfold nodes_of in *. rewrite sum_list_with_app. lia.
Qed.
(** The loops over a stack of terms end: flattening an associative operator, with and without the processed set, and flattening a concatenation run
    at most once per node of the term. *)
Theorem flattening_terminates k n :
  (exists r, flatten_ac k (num_nodes n) [n] [] = Ok r) /\ (exists r, flatten_nodup k (num_nodes n) [n] [] [] = Ok r) /\ (exists r, flatten_loop (num_nodes n) [n] [] = Ok r).
Proof.
  assert (nodes_of [n] <= num_nodes n)%nat as H by (change (nodes_of [n]) with (num_nodes n + 0)%nat; lia).
  split; [by apply flatten_ac_returns |]. split; [by apply flatten_nodup_returns | by apply flatten_loop_returns].
Qed.
(** C32. [Node::hasSubterm] returns, and answers true exactly when the term is strictly below the node, or is the node itself and [strict] is off. *)
Theorem hasSubterm_correct n t strict : exists b, hasSubterm n t strict = Ok b /\ (b = true <-> below t n \/ (strict = false /\ n = t)).
Proof. apply hasSubterm_ok. Qed.

(** ** Where the rules fall short *)
(** C33. [UdivSelf] rewrites the total division of a term by itself to 1; where the term is 0 and has more than one bit, the division is all ones: [postRewrite]
    answers 1 on it and the value changes. *)
Theorem udiv_self_changes_value {G : Gmp} {HG : GmpSpec G} {NR : NestedRewriter} e node_lt hash_order byZeroConst extractArith x n : 2 <= n < 2 ^ 32 -> eval e (Var x (BITVECTOR_TYPE n)) = Some (bv n 0) ->
  let t := MkNode BITVECTOR_UDIV_TOTAL [Var x (BITVECTOR_TYPE n); Var x (BITVECTOR_TYPE n)] in
  postRewrite node_lt hash_order byZeroConst extractArith t = Ok (MkResponse REWRITE_DONE (mkConst n 1)) /\
  eval e (mkConst n 1) = Some (bv n 1) /\ eval e t = Some (bv n (2 ^ n - 1)) /\ bv n 1 <> bv n (2 ^ n - 1).
Proof.
  intros Hn Hx t. assert (eval e t = Some (bv n (2 ^ n - 1))) as Ht by (subst t; by apply (e_binary e BITVECTOR_UDIV_TOTAL Sem.udiv _ _ n 0 0)).
  assert (2 < 2 ^ n) as Hp. { pose proof (Z.pow_le_mono_r 2 2 n ltac:(lia) ltac:(lia)). lia. }
  assert (getSize t = Ok n) as Hsize by (by eapply getSize_bv). split; [| split; [| split]].
  - unfold postRewrite. change (d_rewriteTable _ _ _ _ (getKind t)) with RewriteUdivTotal. unfold RewriteUdivTotal, try_first.
    change (applies UdivPow2 t) with (Ok false). rewrite M_bind_Ok. unfold respond. rewrite linear_skip by done. rewrite linear_skip.
    + unfold LinearRewriteStrategy. cbn [foldl]. rewrite M_bind_Ok. unfold run. assert (applies UdivSelf t = Ok true) as ->.
      { unfold UdivSelf, same_children. cbn [applies]. change (isKind BITVECTOR_UDIV_TOTAL t) with true. cbv iota. subst t.
        rewrite child0, M_bind_Ok, child1, M_bind_Ok. by rewrite (proj2 (node_eqb_eq _ _) eq_refl). }
      rewrite M_bind_Ok. cbn [check]. rewrite !M_bind_Ok. unfold UdivSelf. cbn [apply]. by rewrite Hsize, !M_bind_Ok.
    + unfold UdivOne, divisor_is_one. cbn [applies]. change (isKind BITVECTOR_UDIV_TOTAL t) with true. cbv iota. change (child t 1) with (Ok (Var x (BITVECTOR_TYPE n))). rewrite M_bind_Ok. by rewrite Hsize, M_bind_Ok.
  - apply e_mk_small; [lia | unfold rng; lia].
  - done.
  - intros [= E]. lia.
Qed.
Lemma udiv_self_changes_value_witness :
  let t := MkNode BITVECTOR_UDIV_TOTAL [x8; x8] in
  postRewrite (G := gmp_ref) (NR := Ok) any_lt id true false t = Ok (MkResponse REWRITE_DONE (mkConst 8 1)) /\
  eval env0 (mkConst (G := gmp_ref) 8 1) = Some (bv 8 1) /\ eval env0 t = Some (bv 8 255) /\ bv 8 1 <> bv 8 255.
Proof. apply (udiv_self_changes_value (G := gmp_ref) (NR := Ok) env0 any_lt id true false 1 8); [lia | reflexivity]. Defined.
(** [NegMult], meant to move a negation into the constant of a product, never applies: it looks for the constant among the children of the negation. *)
Theorem negMult_never_applies {G : Gmp} {HG : GmpSpec G} e n v : eval e n = Some v -> applies NegMult n = Ok false.
Proof. apply NegMult_never. Qed.
Lemma negMult_never_applies_witness : applies (NegMult (G := gmp_ref)) (MkNode BITVECTOR_NEG [MkNode BITVECTOR_MULT [x8; c8 3]]) = Ok false.
Proof. apply (negMult_never_applies (G := gmp_ref) env_ones _ (bv 8 241)). reflexivity. Defined.
