(* ===== verification/BoolRewriter.v ===== *)
(** * The rewriter of the Boolean theory

    Models [src/theory/booleans/theory_bool_rewriter.cpp] and, for its use of the
    cardinality of a type, [Cardinality]. *)

From S2P Require Import Prelude Integer BitVector Node Cardinality BVRules BVSimplify BVRewriter.
Local Open Scope Z_scope.

(** [NodeManager::mkNode], with the assertions of [NodeBuilder] on the number of children. *)
Definition mkNode (k : Kind) (ch : list Node) : M Node :=
  _ ← check AssertionFailed (arity_ok k (length ch) && (Z.of_nat (length ch) <=? MAX_CHILDREN));
  Ok (MkNode k ch).

(** ** [flattenNode] *)
(** The loop over the children of one node; [None] when the trivial node is met. *)
Fixpoint flatten_children (k : Kind) (trivialNode : Node) (cs visited toProcess childList : list Node)
    : option (list Node * list Node * list Node) :=
  match cs with
  | [] => Some (visited, toProcess, childList)
  | child :: cs =>
      if existsb (node_eqb child) visited then flatten_children k trivialNode cs visited toProcess childList
      else if node_eqb child trivialNode then None
      else if isKind k child then flatten_children k trivialNode cs (child :: visited) (toProcess ++ [child]) childList
      else flatten_children k trivialNode cs (child :: visited) toProcess (childList ++ [child])
  end.
(** The loop over [toProcess] (here the part from index [i] on). *)
Fixpoint flatten_process (fuel : nat) (k : Kind) (trivialNode : Node) (toProcess visited childList : list Node)
    : M (option (list Node)) :=
  match toProcess with
  | [] => Ok (Some childList)
  | current :: rest =>
      match fuel with
      | O => Throw OutOfFuel
      | S fuel' =>
          match flatten_children k trivialNode (children current) visited rest childList with
          | None => Ok None
          | Some (visited, toProcess, childList) => flatten_process fuel' k trivialNode toProcess visited childList
          end
      end
  end.
(** [while (cur != en)]: nodes of at most [MAX_CHILDREN] children. *)
Fixpoint mk_chunks (fuel : nat) (k : Kind) (childList : list Node) : M (list Node) :=
  match childList, fuel with
  | [], _ => Ok []
  | _, O => Throw OutOfFuel
  | _, S fuel' =>
      n ← mkNode k (take (Z.to_nat MAX_CHILDREN) childList);
      ns ← mk_chunks fuel' k (drop (Z.to_nat MAX_CHILDREN) childList);
      Ok (n :: ns)
  end.
Definition build_flat (k : Kind) (childList : list Node) : M RewriteResponse :=
  if Z.of_nat (length childList) <? MAX_CHILDREN then
    retNode ← mkNode k childList; Ok (MkResponse REWRITE_DONE retNode)
  else
    _ ← check AssertionFailed (Z.of_nat (length childList) <? MAX_CHILDREN * MAX_CHILDREN);
    nb ← mk_chunks (length childList) k childList;
    retNode ← mkNode k nb; Ok (MkResponse REWRITE_DONE retNode).

Definition flattenNode (n trivialNode skipNode : Node) : M RewriteResponse :=
  let k := getKind n in
  r ← flatten_process (num_nodes n) k trivialNode [n] [skipNode] [];
  match r with
  | None => Ok (MkResponse REWRITE_DONE trivialNode)
  | Some [] => Ok (MkResponse REWRITE_DONE skipNode)
  | Some [c] => Ok (MkResponse REWRITE_AGAIN c)
  | Some childList => build_flat k childList
  end.

(** ** Helpers *)
Definition equalityParity (a b : Node) : M Z :=
  if node_eqb a b then Ok 1 else
  na ← (if isKind NOT a then a0 ← child a 0; Ok (node_eqb a0 b) else Ok false);
  if na : bool then Ok 2 else
  nb ← (if isKind NOT b then b0 ← child b 0; Ok (node_eqb b0 a) else Ok false);
  if nb : bool then Ok 3 else Ok 0.

(** [while(n.getKind() == kind::NOT)] *)
Fixpoint strip_nots (n : Node) (even : bool) : M (Node * bool) :=
  match n with
  | MkNode NOT ch => match ch with c :: _ => strip_nots c (negb even) | [] => Throw AssertionFailed end
  | _ => Ok (n, even)
  end.
Definition makeNegation (n : Node) : M Node :=
  '(n, even) ← strip_nots n false;
  if even : bool then Ok n
  else match n with
       | ConstBool b => Ok (ConstBool (negb b))
       | ConstBV _ => Throw AssertionFailed
       | _ => Ok (notNode n)
       end.

(** The loops of the cases [OR] and [AND]: [None] when the trivial node is met, else [done]. *)
Fixpoint scan_flat (k : Kind) (trivialNode skipNode : Node) (cs : list Node) (done : bool) : option bool :=
  match cs with
  | [] => Some done
  | c :: cs =>
      if node_eqb c trivialNode then None
      else scan_flat k trivialNode skipNode cs (done && negb (node_eqb c skipNode) && negb (isKind k c))
  end.

Section rewriter.
Context {G : Gmp}.
Abbreviation tt := (ConstBool true).
Abbreviation ff := (ConstBool false).
Abbreviation DONE n := (Ok (MkResponse REWRITE_DONE n)).
Abbreviation AGAIN n := (Ok (MkResponse REWRITE_AGAIN n)).

Definition rewrite_flat (k : Kind) (trivialNode skipNode n : Node) : M RewriteResponse :=
  match scan_flat k trivialNode skipNode (children n) true with
  | None => DONE trivialNode
  | Some false => flattenNode n trivialNode skipNode
  | Some true => DONE n
  end.

Definition rewrite_not (n : Node) : M RewriteResponse :=
  n0 ← child n 0;
  if node_eqb n0 tt then DONE ff
  else if node_eqb n0 ff then DONE tt
  else if isKind NOT n0 then n00 ← child n0 0; AGAIN n00
  else DONE n.

Definition rewrite_implies (n : Node) : M RewriteResponse :=
  n0 ← child n 0; n1 ← child n 1;
  if node_eqb n0 ff || node_eqb n1 tt then DONE tt
  else if node_eqb n0 tt && node_eqb n1 ff then DONE ff
  else if node_eqb n0 tt then AGAIN n1
  else if node_eqb n1 ff then r ← makeNegation n0; AGAIN r
  else DONE n.

(** [n : (iff (= j k) (= y z))]: a constant side of the first equality and the other side. *)
Definition const_and_term (n0 : Node) : M (option (Node * Node)) :=
  n00 ← child n0 0; n01 ← child n0 1;
  Ok (if isConst n00 then Some (n00, n01) else if isConst n01 then Some (n01, n00) else None).
(** [matchesForm], and then [constantsEqual]. *)
Definition matches_form (c t n1 : Node) : M (option bool) :=
  n10 ← child n1 0; n11 ← child n1 1;
  Ok (if node_eqb n10 t && isConst n11 then Some (node_eqb n11 c)
      else if node_eqb n11 t && isConst n10 then Some (node_eqb n10 c) else None).
Definition rewrite_iff_equalities (n n0 n1 : Node) : M RewriteResponse :=
  ct ← const_and_term n0;
  match ct with
  | None => DONE n
  | Some (c, t) =>
      m ← matches_form c t n1;
      match m with
      | None => DONE n
      | Some true => DONE tt
      | Some false =>
          ty ← getType false t;
          kappa ← getCardinality ty;
          two ← Cardinality_of 2;
          le ← knownLessThanOrEqual kappa two;
          if le : bool then DONE ff
          else m0 ← makeNegation n0; m1 ← makeNegation n1; AGAIN (andNode m0 m1)
      end
  end.
Definition rewrite_equal (n : Node) : M RewriteResponse :=
  n0 ← child n 0; n1 ← child n 1;
  if node_eqb n0 tt then AGAIN n1
  else if node_eqb n1 tt then AGAIN n0
  else if node_eqb n0 ff then r ← makeNegation n1; AGAIN r
  else if node_eqb n1 ff then r ← makeNegation n0; AGAIN r
  else if node_eqb n0 n1 then DONE tt
  else
    not0 ← (if isKind NOT n0 then c ← child n0 0; Ok (node_eqb c n1) else Ok false);
    if not0 : bool then DONE ff else
    not1 ← (if isKind NOT n1 then c ← child n1 0; Ok (node_eqb c n0) else Ok false);
    if not1 : bool then DONE ff
    else if isKind EQUAL n0 && isKind EQUAL n1 then rewrite_iff_equalities n n0 n1
    else DONE n.

Definition rewrite_xor (n : Node) : M RewriteResponse :=
  n0 ← child n 0; n1 ← child n 1;
  if node_eqb n0 tt then r ← makeNegation n1; AGAIN r
  else if node_eqb n1 tt then r ← makeNegation n0; AGAIN r
  else if node_eqb n0 ff then AGAIN n1
  else if node_eqb n1 ff then AGAIN n0
  else if node_eqb n0 n1 then DONE ff
  else
    not0 ← (if isKind NOT n0 then c ← child n0 0; Ok (node_eqb c n1) else Ok false);
    if not0 : bool then DONE tt else
    not1 ← (if isKind NOT n1 then c ← child n1 0; Ok (node_eqb c n0) else Ok false);
    if not1 : bool then DONE tt else DONE n.

(** The end of the case [ITE], where no simple case applies. *)
Definition rewrite_ite_parity (n n0 n1 n2 : Node) : M RewriteResponse :=
  p12 ← equalityParity n1 n2;
  if negb (p12 =? 0) then AGAIN (if p12 =? 1 then n1 else eqNode n0 n1) else
  p01 ← (if isConst n1 then Ok 0 else equalityParity n0 n1);
  if negb (p01 =? 0) then AGAIN (iteNode n0 (if p01 =? 1 then tt else ff) n2) else
  p02 ← (if isConst n2 then Ok 0 else equalityParity n0 n2);
  if negb (p02 =? 0) then AGAIN (iteNode n0 n1 (if p02 =? 1 then ff else tt)) else
  p010 ← (if isKind ITE n1 then c ← child n1 0; equalityParity n0 c else Ok 0);
  if negb (p010 =? 0) then x ← child n1 (if p010 =? 1 then 1 else 2); AGAIN (iteNode n0 x n2) else
  p020 ← (if isKind ITE n2 then c ← child n2 0; equalityParity n0 c else Ok 0);
  if negb (p020 =? 0) then x ← child n2 (if p020 =? 1 then 2 else 1); AGAIN (iteNode n0 n1 x)
  else DONE n.
Definition rewrite_ite (n : Node) : M RewriteResponse :=
  n0 ← child n 0; n1 ← child n 1; n2 ← child n 2;
  if isConst n0 then
    if node_eqb n0 tt then AGAIN n1
    else _ ← check AssertionFailed (node_eqb n0 ff); AGAIN n2
  else if isConst n1 && node_eqb n1 tt && node_eqb n2 ff then AGAIN n0
  else if isConst n1 && node_eqb n1 ff && node_eqb n2 tt then r ← makeNegation n0; AGAIN r
  else rewrite_ite_parity n n0 n1 n2.

(** [TheoryBoolRewriter::preRewrite] and [postRewrite]. *)
Definition bool_preRewrite (n : Node) : M RewriteResponse :=
  match getKind n with
  | NOT => rewrite_not n
  | OR => rewrite_flat OR tt ff n
  | AND => rewrite_flat AND ff tt n
  | IMPLIES => rewrite_implies n
  | EQUAL => rewrite_equal n
  | XOR => rewrite_xor n
  | ITE => rewrite_ite n
  | _ => DONE n
  end.
Definition bool_postRewrite (n : Node) : M RewriteResponse := bool_preRewrite n.
End rewriter.
