(* ===== verification/RewriterLoop.v ===== *)
(** * The rewriter

    Models [src/theory/rewriter.{h,cpp}], the attributes of
    [src/theory/rewriter_attributes.h] that cache its results and [Theory::theoryOf] in the
    type-based mode ([src/theory/theory.cpp]), in a build with assertions.  The rewriters of
    the theories are the class [TheoryRewriters] (the tables that
    [rewriter_tables_template.h] generates).  The [for(;;)] loops take fuel; the resource
    manager, which may interrupt the loop, is not modelled. *)

From S2P Require Import Prelude Integer BitVector Node BVRewriter BoolRewriter.
Local Open Scope nat_scope.

(** The theories of the kinds of this development. *)
Inductive TheoryId : Set := THEORY_BUILTIN | THEORY_BOOL | THEORY_UF | THEORY_BV.
#[global] Instance TheoryId_eq_dec : EqDecision TheoryId.
Proof. solve_decision. Defined.

#[global] Instance RewriteStatus_eq_dec : EqDecision RewriteStatus.
Proof. solve_decision. Defined.

(** The [theory] sections of the [kinds] files. *)
Definition kindToTheoryId (k : Kind) : TheoryId :=
  match k with
  | VARIABLE | EQUAL => THEORY_BUILTIN
  | CONST_BOOLEAN | NOT | AND | OR | IMPLIES | XOR | ITE => THEORY_BOOL
  | _ => THEORY_BV
  end.
(** [Theory::theoryOf(TypeNode)] *)
Definition theoryOf_type (t : TypeNode) : M TheoryId :=
  match t with
  | NullType => Throw AssertionFailed
  | BOOLEAN_TYPE => Ok THEORY_BOOL
  | BITVECTOR_TYPE _ => Ok THEORY_BV
  end.
(** [Theory::theoryOf(THEORY_OF_TYPE_BASED, node)] *)
Definition theoryOf (node : Node) : M TheoryId :=
  match node with
  | Var _ t => theoryOf_type t
  | ConstBool _ | ConstBV _ => t ← getType false node; theoryOf_type t
  | MkNode k _ =>
      if bool_decide (k = EQUAL) then c ← child node 0; t ← getType false c; theoryOf_type t
      else Ok (kindToTheoryId k)
  end.

Class TheoryRewriters : Type := {
  callPreRewrite : TheoryId -> Node -> M RewriteResponse;
  callPostRewrite : TheoryId -> Node -> M RewriteResponse
}.

(** ** The state: the attributes of nodes, and the nodes under a nested rewrite *)
(** An attribute: [None] is the null node.  A later value hides an earlier one. *)
Definition Attribute : Type := list (TheoryId * Node * option Node).
Record RewriterState : Type := MkRewriter { pre_rewrite : Attribute; post_rewrite : Attribute; s_rewriteStack : list Node }.

Fixpoint getAttribute (a : Attribute) (t : TheoryId) (node : Node) : option (option Node) :=
  match a with
  | [] => None
  | (t', n, v) :: a => if bool_decide (t' = t) && node_eqb n node then Some v else getAttribute a t node
  end.
(** The cached node; [None] is the null node that stands for no entry. *)
Definition getCache (a : Attribute) (t : TheoryId) (node : Node) : option Node :=
  match getAttribute a t node with
  | None => None
  | Some None => Some node
  | Some (Some cache) => Some cache
  end.
Definition setCache (a : Attribute) (t : TheoryId) (node cache : Node) : Attribute :=
  (t, node, if node_eqb node cache then None else Some cache) :: a.
Definition getPreRewriteCache (t : TheoryId) (node : Node) : SM RewriterState (option Node) := gets (fun s => getCache (pre_rewrite s) t node).
Definition getPostRewriteCache (t : TheoryId) (node : Node) : SM RewriterState (option Node) := gets (fun s => getCache (post_rewrite s) t node).
Definition setPreRewriteCache (t : TheoryId) (node cache : Node) : SM RewriterState unit :=
  modify (fun s => MkRewriter (setCache (pre_rewrite s) t node cache) (post_rewrite s) (s_rewriteStack s)).
Definition setPostRewriteCache (t : TheoryId) (node cache : Node) : SM RewriterState unit :=
  modify (fun s => MkRewriter (pre_rewrite s) (setCache (post_rewrite s) t node cache) (s_rewriteStack s)).
Definition stack_insert (n : Node) : SM RewriterState unit :=
  modify (fun s => MkRewriter (pre_rewrite s) (post_rewrite s) (n :: s_rewriteStack s)).
Definition stack_erase (n : Node) : SM RewriterState unit :=
  modify (fun s => MkRewriter (pre_rewrite s) (post_rewrite s) (filter (fun x => x <> n) (s_rewriteStack s))).
Definition clearCaches : SM RewriterState unit := modify (fun _ => MkRewriter [] [] []).

(** ** [RewriteStackElement] *)
Record RewriteStackElement : Type := MkElement {
  re_node : Node; original : Node; theoryId : TheoryId; originalTheoryId : TheoryId; nextChild : nat;
  builder_kind : option Kind; builder : list Node }.
Definition newElement (node : Node) (t : TheoryId) : RewriteStackElement := MkElement node node t t 0 None [].
Definition set_node (n : Node) (t : TheoryId) (x : RewriteStackElement) : RewriteStackElement :=
  MkElement n (original x) t (originalTheoryId x) (nextChild x) (builder_kind x) (builder x).
Definition set_original (x : RewriteStackElement) : RewriteStackElement :=
  MkElement (re_node x) (re_node x) (theoryId x) (originalTheoryId x) (nextChild x) (builder_kind x) (builder x).
(** [nextChild++], and [builder << kind] before the first child *)
Definition next_child (x : RewriteStackElement) : RewriteStackElement :=
  MkElement (re_node x) (original x) (theoryId x) (originalTheoryId x) (S (nextChild x))
    (if (nextChild x =? 0) && (0 <? getNumChildren (re_node x)) then Some (getKind (re_node x)) else builder_kind x) (builder x).
(** [builder << node] *)
Definition append (n : Node) (x : RewriteStackElement) : RewriteStackElement :=
  MkElement (re_node x) (original x) (theoryId x) (originalTheoryId x) (nextChild x) (builder_kind x) (builder x ++ [n]).
(** [Node rewritten = builder] *)
Definition build (x : RewriteStackElement) : M Node :=
  match builder_kind x with None => Throw AssertionFailed | Some k => mkNode k (builder x) end.

Section rewriter.
Context {TR : TheoryRewriters}.
Abbreviation RM := (SM RewriterState).
Abbreviation Assert c := (lift (S := RewriterState) (check AssertionFailed c)).

(** The loop of the pre-rewrite: the node and its theory. *)
Fixpoint pre_loop (fuel : nat) (t : TheoryId) (node_ : Node) : M (Node * TheoryId) :=
  match fuel with
  | O => Throw OutOfFuel
  | S fuel' =>
      response ← callPreRewrite t node_;
      newTheory ← theoryOf (node response);
      if bool_decide (newTheory = t) && bool_decide (status response = REWRITE_DONE) then Ok (node response, newTheory)
      else pre_loop fuel' newTheory (node response)
  end.
(** "Before rewriting children we need to do a pre-rewrite of the node" *)
Definition pre_phase (fuel : nat) (top : RewriteStackElement) : RM RewriteStackElement :=
  if negb (nextChild top =? 0) then mret top else
  cached ← getPreRewriteCache (theoryId top) (re_node top);
  match cached with
  | None =>
      '(n, t) ← lift (pre_loop fuel (theoryId top) (re_node top));
      _ ← setPreRewriteCache (originalTheoryId top) (original top) n;
      mret (set_node n t top)
  | Some n => t ← lift (theoryOf n); mret (set_node n t top)
  end.

(** The loop of the post-rewrite; [rewriteTo] is the nested full rewrite. *)
Fixpoint post_loop (rewriteTo : TheoryId -> Node -> RM Node) (fuel : nat) (t : TheoryId) (node_ : Node) : RM Node :=
  match fuel with
  | O => lift (Throw OutOfFuel)
  | S fuel' =>
      response ← lift (callPostRewrite t node_);
      newTheoryId ← lift (theoryOf (node response));
      if negb (bool_decide (newTheoryId = t)) || bool_decide (status response = REWRITE_AGAIN_FULL) then
        _ ← Assert (negb (node_eqb (node response) node_));
        stack ← gets s_rewriteStack;
        _ ← Assert (negb (existsb (node_eqb (node response)) stack));
        _ ← stack_insert (node response);
        rewritten ← rewriteTo newTheoryId (node response);
        _ ← stack_erase (node response);
        mret rewritten
      else if bool_decide (status response = REWRITE_DONE) then
        r2 ← lift (callPostRewrite newTheoryId (node response));
        _ ← Assert (node_eqb (node r2) (node response));
        mret (node response)
      else
        _ ← Assert (negb (node_eqb (node response) node_));
        again ← lift (callPostRewrite t (node response));
        _ ← Assert (negb (node_eqb (node again) node_));
        post_loop rewriteTo fuel' t (node response)
  end.

(** [node.getKind() == kind::EQUAL && (!node[0].getType().isBoolean())] *)
Definition isEqualityNode (n : Node) : M bool :=
  if bool_decide (getKind n = EQUAL) then c ← child n 0; t ← getType false c; Ok (negb (isBoolean t)) else Ok false.

(** The end of an iteration: return, or append the result to the parent; [loop] continues. *)
Definition finish (loop : list RewriteStackElement -> RM Node) (isEquality : bool) (rest : list RewriteStackElement) (n : Node) : RM Node :=
  match rest with
  | [] => _ ← Assert (negb isEquality || bool_decide (getKind n = EQUAL) || isConst n); mret n
  | parent :: rest => loop (append n parent :: rest)
  end.
(** An iteration after the pre-rewrite. *)
Definition iteration (loop : list RewriteStackElement -> RM Node) (rewriteTo : TheoryId -> Node -> RM Node) (fuel : nat)
    (isEquality : bool) (top : RewriteStackElement) (rest : list RewriteStackElement) : RM Node :=
  let top := set_original top in
  cached ← getPostRewriteCache (theoryId top) (re_node top);
  match cached with
  | None =>
      let i := nextChild top in
      let top := next_child top in
      match children (re_node top) !! i with
      | Some childNode =>
          t ← lift (theoryOf childNode);
          loop (newElement childNode t :: top :: rest)
      | None =>
          '(n, t) ← lift (if 0 <? getNumChildren (re_node top) then n ← build top; t ← theoryOf n; Ok (n, t) else Ok (re_node top, theoryId top));
          n ← post_loop rewriteTo fuel t n;
          _ ← setPostRewriteCache (originalTheoryId top) (original top) n;
          finish loop isEquality rest n
      end
  | Some n => _ ← lift (theoryOf n); finish loop isEquality rest n
  end.

(** [Rewriter::rewriteTo], given the loop. *)
Definition rewriteTo_with (loop : bool -> list RewriteStackElement -> RM Node) (t : TheoryId) (n : Node) : RM Node :=
  isEquality ← lift (isEqualityNode n);
  cached ← getPostRewriteCache t n;
  match cached with
  | Some r => mret r
  | None => loop isEquality [newElement n t]
  end.
Fixpoint rewrite_loop (fuel : nat) (isEquality : bool) (rewriteStack : list RewriteStackElement) : RM Node :=
  match fuel, rewriteStack with
  | O, _ => lift (Throw OutOfFuel)
  | _, [] => lift (Throw OutOfBounds)
  | S fuel', top :: rest =>
      top ← pre_phase fuel' top;
      iteration (rewrite_loop fuel' isEquality) (rewriteTo_with (rewrite_loop fuel')) fuel' isEquality top rest
  end.
Definition rewriteTo (fuel : nat) (t : TheoryId) (n : Node) : RM Node := rewriteTo_with (rewrite_loop fuel) t n.
(** [Rewriter::rewrite] *)
Definition Rewriter_rewrite (fuel : nat) (n : Node) : RM Node := t ← lift (theoryOf n); rewriteTo fuel t n.
End rewriter.
