(* ===== verification/RewriterLoopCorrect.v ===== *)
(** * Termination and soundness of the rewriter

    [RewritersSpec] is the contract between the rewriter and the rewriters of the theories:
    on a domain of terms the theories answer, keep values, and their answers do not grow in a
    rank, which decreases when they ask for more rewriting or hand the term to another theory.
    Under the contract [Rewriter::rewrite] returns, with a term that refines the one given, whatever
    was cached before; the fuel it needs is bounded by the rank of the term ([rewrite_fuel]).  A
    theory may promise more of its answers: a preorder [keep] between a term and its rewritten forms. *)

From S2P Require Import Prelude Integer BitVector Node BVRules BVRewriter BoolRewriter RewriterLoop.
Local Open Scope nat_scope.

(** Every value of [n] is the value of [m]. *)
Definition refines (n m : Node) : Prop := forall e v, eval e n = Some v -> eval e m = Some v.
Lemma refines_node k ch ch' : Forall2 refines ch ch' -> refines (MkNode k ch) (MkNode k ch').
Proof.
  intros Hch e v (Ha & vs & Hvs & Hk)%eval_MkNode. apply eval_MkNode. split; [by rewrite <- (Forall2_length _ _ _ Hch) |].
  exists vs. split; [| done]. clear Ha Hk. revert vs Hvs. induction Hch as [|c c' ch ch' Hc _ IH]; intros vs Hvs; inversion Hvs; subst; constructor; auto.
Qed.

Definition term_equality (n : Node) : Prop := isEqualityNode n = Ok true.

Section contract.
Context (dom : Node -> Prop) (rank : Node -> nat) (keep : Node -> Node -> Prop) {HK : PreOrder keep}.

(** [m] is a rewritten form of [n]. *)
Record rewritten (n m : Node) : Prop := {
  rw_dom : dom m;
  rw_refines : refines n m;
  rw_keep : keep n m;
  rw_rank : rank m <= rank n;
  rw_equal : term_equality n -> term_equality m \/ isConst m = true;
  rw_const : isConst n = true -> isConst m = true }.

Definition responds (t : TheoryId) (n : Node) (r : RewriteResponse) : Prop :=
  rewritten n (node r) /\ (status r <> REWRITE_DONE \/ theoryOf (node r) <> Ok t -> rank (node r) < rank n).

Class RewritersSpec (TR : TheoryRewriters) : Prop := {
  spec_theory n : dom n -> exists t, theoryOf n = Ok t;
  spec_equality n : dom n -> exists b, isEqualityNode n = Ok b;
  spec_child n c : dom n -> c ∈ children n -> dom c /\ rank c < rank n;
  spec_arity n : dom n -> length (children n) <= rank n;
  spec_build n ch : dom n -> children n <> [] -> Forall2 rewritten (children n) ch ->
    mkNode (getKind n) ch = Ok (MkNode (getKind n) ch) /\ rewritten n (MkNode (getKind n) ch);
  spec_pre t n : dom n -> theoryOf n = Ok t -> exists r, callPreRewrite t n = Ok r /\ responds t n r;
  spec_post t n : dom n -> theoryOf n = Ok t -> exists r, callPostRewrite t n = Ok r /\ responds t n r /\
    (status r = REWRITE_DONE -> theoryOf (node r) = Ok t -> exists r2, callPostRewrite t (node r) = Ok r2 /\ node r2 = node r)
}.

Lemma rewritten_refl n : dom n -> rewritten n n.
Proof. intros H. split; auto; [by intros e v | reflexivity]. Qed.
Lemma rewritten_trans n m k : rewritten n m -> rewritten m k -> rewritten n k.
Proof.
  intros [D1 R1 P1 K1 E1 C1] [D2 R2 P2 K2 E2 C2]. split; [done | | by etrans | lia | |].
  - intros e v H. by apply R2, R1.
  - intros He. destruct (E1 He) as [Hm | Hm]; auto.
  - auto.
Qed.

(** ** The caches *)
Definition cache_ok (a : Attribute) : Prop := forall t n r, getCache a t n = Some r -> dom n -> rewritten n r.
Definition caches_ok (s : RewriterState) : Prop := cache_ok (pre_rewrite s) /\ cache_ok (post_rewrite s).

Lemma getCache_set a t n c t' n' :
  getCache (setCache a t n c) t' n' = if bool_decide (t = t') && node_eqb n n' then Some c else getCache a t' n'.
Proof.
  unfold getCache, setCache. cbn [getAttribute]. case_bool_decide; cbn [andb]; [| done].
  destruct (node_eqb n n') eqn:E; [| done]. apply node_eqb_eq in E as ->. destruct (node_eqb n' c) eqn:E; [| done]. by apply node_eqb_eq in E as ->.
Qed.
Lemma cache_ok_set a t n c : cache_ok a -> (dom n -> rewritten n c) -> cache_ok (setCache a t n c).
Proof.
  intros Ha Hc t' n' r. rewrite getCache_set. destruct (bool_decide (t = t') && node_eqb n n') eqn:E; [| apply Ha].
  apply andb_true_iff in E as [_ ->%node_eqb_eq]. intros [= <-]. done.
Qed.
Lemma cache_ok_nil : cache_ok [].
Proof. by intros t n r. Qed.

(** ** Stepping through the monad *)
Lemma sm_bind {S A B} (m : SM S A) (f : A -> SM S B) s a s' : m s = Ok (a, s') -> (m ≫= f) s = f a s'.
Proof. intros H. unfold mbind, SM_bind. by rewrite H. Qed.
Lemma sm_lift {S A B} (m : M A) (f : A -> SM S B) s a : m = Ok a -> (lift m ≫= f) s = f a s.
Proof. by intros ->. Qed.

Context {TR : TheoryRewriters} {HT : RewritersSpec TR}.

Lemma pre_loop_ok w : forall n t, rank n < w -> dom n -> theoryOf n = Ok t ->
  exists n' t', rewritten n n' /\ theoryOf n' = Ok t' /\ forall fuel, rank n < fuel -> pre_loop fuel t n = Ok (n', t').
Proof.
  induction w as [|w IH]; intros n t Hw Hd Ht; [lia |].
  destruct (spec_pre t n Hd Ht) as (r & Hr & Hrw & Hlt). destruct (spec_theory (node r) (rw_dom _ _ Hrw)) as [t1 Ht1].
  destruct (bool_decide (t1 = t) && bool_decide (status r = REWRITE_DONE)) eqn:E.
  - exists (node r), t1. split; [done |]. split; [done |]. intros [|fuel] Hf; [lia |].
    cbn [pre_loop]. rewrite Hr, M_bind_Ok, Ht1, M_bind_Ok, E. done.
  - assert (Hlt' : rank (node r) < rank n).
    { apply Hlt. apply andb_false_iff in E as [E | E]; apply bool_decide_eq_false in E; [right | by left]. congruence. }
    destruct (IH (node r) t1) as (n' & t' & Hn & Ht' & HF); [lia | apply Hrw | done |].
    exists n', t'. split; [by eapply rewritten_trans |]. split; [done |]. intros [|fuel] Hf; [lia |].
    cbn [pre_loop]. rewrite Hr, M_bind_Ok, Ht1, M_bind_Ok, E. apply HF. lia.
Qed.

Lemma filter_keeps (m : Node) (l : list Node) : m ∉ l -> filter (fun x => x <> m) l = l.
Proof.
  induction l as [|x l IH]; [done |]. intros [Hx Hl]%not_elem_of_cons. rewrite filter_cons_True by congruence. by rewrite IH.
Qed.

(** The nodes under a nested rewrite rank at least as high as the node at work. *)
Definition stack_above (s : RewriterState) (n : Node) : Prop := Forall (fun x => rank n <= rank x) (s_rewriteStack s).

(** What a full rewrite of the nodes below rank [w] does, with fuel [B]. *)
Definition full_rewrites (RT : nat -> TheoryId -> Node -> SM RewriterState Node) (w B : nat) : Prop :=
  forall m s t, dom m -> rank m < w -> caches_ok s -> stack_above s m -> theoryOf m = Ok t ->
  exists r s', caches_ok s' /\ s_rewriteStack s' = s_rewriteStack s /\ rewritten m r /\
    forall F, B <= F -> RT F t m s = Ok (r, s').

Lemma not_equal_rank a b : rank a < rank b -> node_eqb a b = false.
Proof. intros H. apply not_true_iff_false. intros ->%node_eqb_eq. lia. Qed.

Lemma nested_ok RT w B n m s t : full_rewrites RT w B -> rank n <= w -> dom m -> rank m < rank n -> caches_ok s -> stack_above s n -> theoryOf m = Ok t ->
  exists r s', caches_ok s' /\ s_rewriteStack s' = s_rewriteStack s /\ rewritten m r /\ forall F, B <= F ->
    (_ ← lift (check AssertionFailed (negb (node_eqb m n)));
     stack ← gets s_rewriteStack;
     _ ← lift (check AssertionFailed (negb (existsb (node_eqb m) stack)));
     _ ← stack_insert m; r' ← RT F t m; _ ← stack_erase m; mret r') s = Ok (r, s').
Proof.
  intros HRT Hw Hd Hlt Hc Hs Ht.
  assert (Hnew : m ∉ s_rewriteStack s). { intros Hin. unfold stack_above in Hs. rewrite Forall_forall in Hs. apply Hs in Hin. lia. }
  set (s1 := MkRewriter (pre_rewrite s) (post_rewrite s) (m :: s_rewriteStack s)).
  destruct (HRT m s1 t) as (r & s2 & Hc2 & Hs2 & Hr & HF); [done | lia | done | | done |].
  { constructor; [done |]. eapply Forall_impl; [exact Hs |]. cbn. lia. }
  exists r, (MkRewriter (pre_rewrite s2) (post_rewrite s2) (s_rewriteStack s)). split; [done |]. split; [done |]. split; [done |].
  intros F HB. rewrite (sm_lift _ _ _ ()) by (by rewrite not_equal_rank).
  rewrite (sm_bind _ _ _ (s_rewriteStack s) s) by done. rewrite (sm_lift _ _ _ ()).
  2:{ replace (existsb (node_eqb m) (s_rewriteStack s)) with false; [done |]. symmetry. apply not_true_iff_false.
      intros (x & Hx & ->%node_eqb_eq)%existsb_exists. by apply Hnew, list_elem_of_In. }
  rewrite (sm_bind _ _ _ () s1) by done. rewrite (sm_bind _ _ _ r s2) by auto. unfold stack_erase, modify, mbind, SM_bind, mret, SM_ret.
  f_equal. f_equal. f_equal. rewrite Hs2. cbn [s1 s_rewriteStack].
  rewrite filter_cons_False by (intros Hx; by apply Hx). by apply filter_keeps.
Qed.

Lemma post_loop_ok RT w B : full_rewrites RT w B -> forall k n s t, rank n < k -> rank n <= w -> dom n -> caches_ok s -> stack_above s n -> theoryOf n = Ok t ->
  exists r s', caches_ok s' /\ s_rewriteStack s' = s_rewriteStack s /\ rewritten n r /\
    forall F fuel, B <= F -> rank n < fuel -> post_loop (RT F) fuel t n s = Ok (r, s').
Proof.
  intros HRT. induction k as [|k IH]; intros n s t Hk Hw Hd Hc Hs Ht; [lia |].
  destruct (spec_post t n Hd Ht) as (r & Hr & (Hrw & Hlt) & Hidem). destruct (spec_theory (node r) (rw_dom _ _ Hrw)) as [t1 Ht1].
  destruct (negb (bool_decide (t1 = t)) || bool_decide (status r = REWRITE_AGAIN_FULL)) eqn:E1.
  - assert (Hlt' : rank (node r) < rank n).
    { apply Hlt. apply orb_true_iff in E1 as [E | E]; [right | left; apply bool_decide_eq_true in E; by rewrite E].
      apply negb_true_iff, bool_decide_eq_false in E. congruence. }
    destruct (nested_ok RT w B n (node r) s t1) as (r' & s' & H1 & H2 & H3 & HF); [done | done | apply Hrw | done | done | done | done |].
    exists r', s'. split; [done |]. split; [done |]. split; [by eapply rewritten_trans |]. intros F [|fuel] HB Hf; [lia |].
    cbn [post_loop]. rewrite (sm_lift _ _ _ r) by done. rewrite (sm_lift _ _ _ t1) by done. rewrite E1. by apply HF.
  - apply orb_false_iff in E1 as [E1 E2]. apply negb_false_iff, bool_decide_eq_true in E1. subst t1.
    destruct (bool_decide (status r = REWRITE_DONE)) eqn:E3.
    + apply bool_decide_eq_true in E3. destruct (Hidem E3 Ht1) as (r2 & Hr2 & Hn2).
      exists (node r), s. split; [done |]. split; [done |]. split; [done |]. intros F [|fuel] _ Hf; [lia |].
      cbn [post_loop]. rewrite (sm_lift _ _ _ r) by done. rewrite (sm_lift _ _ _ t) by done.
      rewrite bool_decide_eq_true_2, E2 by done. cbn [negb orb]. rewrite bool_decide_eq_true_2 by done.
      rewrite (sm_lift _ _ _ r2) by done. rewrite (sm_lift _ _ _ ()); [done |]. rewrite Hn2.
      by rewrite (proj2 (node_eqb_eq _ _) eq_refl).
    + assert (Hlt' : rank (node r) < rank n) by (apply Hlt; left; by apply bool_decide_eq_false in E3).
      destruct (spec_post t (node r) (rw_dom _ _ Hrw) Ht1) as (r2 & Hr2 & (Hrw2 & _) & _). pose proof (rw_rank _ _ Hrw2).
      destruct (IH (node r) s t) as (r' & s' & H1 & H2 & H3 & HF); [lia | lia | apply Hrw | done | | done |].
      { eapply Forall_impl; [exact Hs |]. cbn. lia. }
      exists r', s'. split; [done |]. split; [done |]. split; [by eapply rewritten_trans |]. intros F [|fuel] HB Hf; [lia |].
      cbn [post_loop]. rewrite (sm_lift _ _ _ r) by done. rewrite (sm_lift _ _ _ t) by done.
      rewrite bool_decide_eq_true_2, E2 by done. cbn [negb orb]. rewrite E3.
      rewrite (sm_lift _ _ _ ()) by (by rewrite not_equal_rank). rewrite (sm_lift _ _ _ r2) by done.
      rewrite (sm_lift _ _ _ ()) by (by rewrite not_equal_rank by lia). apply HF; [done | lia].
Qed.

(** ** The loop over the stack

    [processes]: from the stack with [start] on top, the loop comes to append a rewritten form of [n]
    to the parent (or to return it), after at most [J] iterations and with fuel [B] left. *)
Definition processes (start : nat -> bool -> list RewriteStackElement -> SM RewriterState Node) (n : Node) (s : RewriterState) (J B : nat) : Prop :=
  exists j r s', j <= J /\ caches_ok s' /\ s_rewriteStack s' = s_rewriteStack s /\ rewritten n r /\
    forall F isEq rest, B <= F -> start (j + F) isEq rest s = finish (rewrite_loop F isEq) isEq rest r s'.

Definition RT (F : nat) : TheoryId -> Node -> SM RewriterState Node := rewriteTo_with (rewrite_loop F).
Definition all_process (w B : nat) : Prop := forall n s t, dom n -> rank n < w -> caches_ok s -> stack_above s n -> theoryOf n = Ok t ->
  processes (fun F isEq rest => rewrite_loop F isEq (newElement n t :: rest)) n s B B.

Lemma finish_bottom loop isEq n r s : isEqualityNode n = Ok isEq -> rewritten n r -> finish loop isEq [] r s = Ok (r, s).
Proof.
  intros Hq Hr. unfold finish. rewrite (sm_lift _ _ _ ()); [done |]. destruct isEq; [| done]. cbn [negb orb].
  destruct (rw_equal _ _ Hr Hq) as [He | ->]; [| by rewrite orb_true_r].
  unfold term_equality, isEqualityNode in He. destruct (bool_decide (getKind r = EQUAL)); done.
Qed.

Lemma all_full w B : all_process w B -> full_rewrites RT w (B + B).
Proof.
  intros HP m s t Hd Hw Hc Hs Ht. destruct (spec_equality m Hd) as [b Hb]. unfold RT, rewriteTo_with.
  destruct (getCache (post_rewrite s) t m) as [r|] eqn:Hg.
  - exists r, s. split; [done |]. split; [done |]. split; [by eapply Hc |]. intros F _.
    rewrite (sm_lift _ _ _ b) by done. rewrite (sm_bind _ _ _ (Some r) s); [done |]. unfold getPostRewriteCache, gets. by rewrite Hg.
  - destruct (HP m s t Hd Hw Hc Hs Ht) as (j & r & s' & Hj & H1 & H2 & H3 & HF).
    exists r, s'. split; [done |]. split; [done |]. split; [done |]. intros F HB.
    rewrite (sm_lift _ _ _ b) by done. rewrite (sm_bind _ _ _ None s); [| unfold getPostRewriteCache, gets; by rewrite Hg].
    replace F with (j + (F - j)) by lia. rewrite HF by lia. by apply (finish_bottom _ _ m).
Qed.

(** The children not yet rewritten, and then the node. *)
Lemma iteration_ok w B n t : all_process w B -> dom n -> rank n <= w -> theoryOf n = Ok t -> forall todo done_ out top s,
  re_node top = n -> theoryId top = t -> nextChild top = length done_ -> children n = done_ ++ todo ->
  Forall2 rewritten done_ out -> builder top = out -> (done_ <> [] -> builder_kind top = Some (getKind n)) -> caches_ok s -> stack_above s n ->
  processes (fun F isEq rest => iteration (rewrite_loop F isEq) (RT F) F isEq top rest) n s (length todo * S B) (B + B + S w).
Proof.
  intros HP Hd Hw Ht. induction todo as [|c todo IH]; intros done_ out top s Hn Hti Hnc Hch Hout Hb Hk Hc Hs.
  all: assert (Hcache : forall F isEq rest r, getCache (post_rewrite s) t n = r ->
      iteration (rewrite_loop F isEq) (RT F) F isEq top rest s =
      match r with
      | None => match children n !! nextChild top with
          | Some childNode => (t ← lift (theoryOf childNode); rewrite_loop F isEq (newElement childNode t :: next_child (set_original top) :: rest)) s
          | None => ('(n, t) ← lift (if 0 <? getNumChildren n then n ← build (next_child (set_original top)); t ← theoryOf n; Ok (n, t) else Ok (n, t));
              n' ← post_loop (RT F) F t n; _ ← setPostRewriteCache (originalTheoryId top) (re_node top) n'; finish (rewrite_loop F isEq) isEq rest n') s
          end
      | Some r => (_ ← lift (theoryOf r); finish (rewrite_loop F isEq) isEq rest r) s
      end) by (intros F isEq rest r <-; unfold iteration; subst t n; rewrite (sm_bind _ _ _ (getCache (post_rewrite s) (theoryId top) (re_node top)) s) by done;
        cbn [next_child set_original re_node theoryId original originalTheoryId nextChild];
        destruct (getCache _ _ _); [done |]; destruct (children (re_node top) !! nextChild top); done).
  all: destruct (getCache (post_rewrite s) t n) as [r|] eqn:Hg;
    [ (exists 0, r, s; split; [lia |]; split; [done |]; split; [done |]; assert (rewritten n r) as Hr by (by eapply Hc); split; [done |]; intros F isEq rest _;
       rewrite (Hcache _ _ _ _ eq_refl); destruct (spec_theory r (rw_dom _ _ Hr)) as [tr Htr]; by rewrite (sm_lift _ _ _ tr)) |].
  - (* all children are rewritten *)
    rewrite app_nil_r in Hch. assert (Hlk : children n !! nextChild top = None) by (rewrite Hch, Hnc; apply lookup_ge_None; lia).
    assert (Hbuilt : exists n' t', rewritten n n' /\ theoryOf n' = Ok t' /\
      (if 0 <? getNumChildren n then n ← build (next_child (set_original top)); t ← theoryOf n; Ok (n, t) else Ok (n, t)) = Ok (n', t')).
    { unfold getNumChildren. rewrite Hch. destruct done_ as [|d0 done']; [exists n, t; split; [by apply rewritten_refl |]; done |].
      rewrite <- Hch in Hout. destruct (spec_build n out Hd) as [Hmk Hrw]; [by rewrite Hch | done |].
      destruct (spec_theory _ (rw_dom _ _ Hrw)) as [t' Ht']. exists (MkNode (getKind n) out), t'. split; [done |]. split; [done |]. cbn [Nat.ltb Nat.leb length].
      unfold build, next_child, set_original. cbn [builder_kind builder nextChild]. rewrite Hnc. cbn [length Nat.eqb andb]. rewrite Hk by done.
      rewrite Hb, Hmk, M_bind_Ok, Ht'. done. }
    destruct Hbuilt as (n' & t' & Hn' & Ht' & Hbuild). pose proof (rw_rank _ _ Hn').
    destruct (post_loop_ok RT w (B + B) (all_full w B HP) (S (rank n')) n' s t') as (r & s' & H1 & H2 & H3 & HF); [lia | lia | apply Hn' | done | | done |].
    { eapply Forall_impl; [exact Hs |]. cbn. lia. }
    exists 0, r, (MkRewriter (pre_rewrite s') (setCache (post_rewrite s') (originalTheoryId top) n r) (s_rewriteStack s')).
    assert (Hr : rewritten n r) by by eapply rewritten_trans.
    split; [lia |]. split; [split; [apply H1 | by apply cache_ok_set; [apply H1 |]] |]. split; [done |]. split; [done |]. intros F isEq rest HB. cbn [Nat.add].
    rewrite (Hcache _ _ _ _ eq_refl), Hlk. rewrite (sm_lift _ _ _ (n', t')) by done. rewrite (sm_bind _ _ _ r s') by (apply HF; lia).
    rewrite Hn. done.
  - (* the next child *)
    assert (Hlk : children n !! nextChild top = Some c) by (rewrite Hch, Hnc; by apply list_lookup_middle).
    destruct (spec_child n c Hd) as [Hdc Hrc]; [by eapply list_elem_of_lookup_2 |]. destruct (spec_theory c Hdc) as [tc Htc].
    destruct (HP c s tc) as (j1 & r1 & s1 & J1 & C1 & S1 & R1 & F1); [done | lia | done | | done |].
    { eapply Forall_impl; [exact Hs |]. cbn. lia. }
    set (top1 := append r1 (next_child (set_original top))).
    destruct (IH (done_ ++ [c]) (out ++ [r1]) top1 s1) as (j2 & r & s2 & J2 & C2 & S2 & R2 & F2).
    + done.
    + done.
    + cbn. rewrite length_app, Hnc. cbn. lia.
    + by rewrite Hch, <- app_assoc.
    + apply Forall2_app; [done | by apply Forall2_cons].
    + cbn. by rewrite Hb.
    + intros _. cbn. unfold getNumChildren. rewrite Hn, Hch, length_app. cbn [length].
      destruct done_ as [|d0 done']; rewrite Hnc; cbn [length Nat.eqb andb]; [by rewrite <- Hn | by apply Hk].
    + done.
    + unfold stack_above. by rewrite S1.
    + exists (j1 + S j2), r, s2. split; [cbn [length]; lia |]. split; [done |]. split; [by rewrite S2 |]. split; [done |]. intros F isEq rest HB.
      rewrite (Hcache _ _ _ _ eq_refl), Hlk. rewrite (sm_lift _ _ _ tc) by done.
      replace (j1 + S j2 + F) with (j1 + S (j2 + F)) by lia. rewrite F1 by lia. cbn [finish]. fold top1. cbn [rewrite_loop].
      rewrite (sm_bind _ _ _ top1 s1); [apply F2; lia |]. unfold pre_phase, top1. done.
Qed.

(** Enough fuel for the terms below rank [w]. *)
Fixpoint rewrite_fuel (w : nat) : nat :=
  match w with 0 => 0 | S w' => let B := rewrite_fuel w' in S (w' * S B) + (B + B) + S w' end.

Lemma process_all w : all_process w (rewrite_fuel w).
Proof.
  induction w as [|w IH]; intros n s t Hd Hw Hc Hs Ht; [lia |].
  (* the pre-rewrite *)
  assert (Hpre : exists n' t' s1, rewritten n n' /\ theoryOf n' = Ok t' /\ caches_ok s1 /\ s_rewriteStack s1 = s_rewriteStack s /\
    forall F, rank n < F -> pre_phase F (newElement n t) s = Ok (set_node n' t' (newElement n t), s1)).
  { unfold pre_phase. cbn [newElement nextChild Nat.eqb negb theoryId re_node originalTheoryId original].
    destruct (getCache (pre_rewrite s) t n) as [r|] eqn:Hg.
    - assert (Hr : rewritten n r) by (by eapply (proj1 Hc)). destruct (spec_theory r (rw_dom _ _ Hr)) as [t' Ht'].
      exists r, t', s. split; [done |]. split; [done |]. split; [done |]. split; [done |]. intros F _.
      rewrite (sm_bind _ _ _ (Some r) s) by (unfold getPreRewriteCache, gets; by rewrite Hg). by rewrite (sm_lift _ _ _ t').
    - destruct (pre_loop_ok (S (rank n)) n t) as (n' & t' & Hn' & Ht' & HF); [lia | done | done |].
      exists n', t', (MkRewriter (setCache (pre_rewrite s) t n n') (post_rewrite s) (s_rewriteStack s)).
      split; [done |]. split; [done |]. split; [split; [by apply cache_ok_set; [apply Hc |] | apply Hc] |]. split; [done |]. intros F HF'.
      rewrite (sm_bind _ _ _ None s) by (unfold getPreRewriteCache, gets; by rewrite Hg).
      rewrite (sm_lift _ _ _ (n', t')) by (by apply HF). done. }
  destruct Hpre as (n' & t' & s1 & Hn' & Ht' & Hc1 & Hs1 & HF1). pose proof (rw_rank _ _ Hn').
  destruct (iteration_ok w (rewrite_fuel w) n' t' IH) with (todo := children n') (done_ := @nil Node) (out := @nil Node) (top := set_node n' t' (newElement n t)) (s := s1)
    as (j & r & s2 & J2 & C2 & S2 & R2 & F2); try done; [apply Hn' | lia | |].
  { unfold stack_above. rewrite Hs1. eapply Forall_impl; [exact Hs |]. cbn. lia. }
  pose proof (spec_arity n' (rw_dom _ _ Hn')) as Ha. assert (length (children n') * S (rewrite_fuel w) <= w * S (rewrite_fuel w)) by (apply Nat.mul_le_mono_r; lia).
  exists (S j), r, s2. cbn [rewrite_fuel]. split; [lia |]. split; [done |]. split; [by rewrite S2 |]. split; [by eapply rewritten_trans |]. intros F isEq rest HB.
  cbn [Nat.add rewrite_loop]. erewrite sm_bind by (apply HF1; lia). apply F2. lia.
Qed.

(** [Rewriter::rewrite] outside of any other rewrite. *)
Definition ready (s : RewriterState) : Prop := caches_ok s /\ s_rewriteStack s = [].
Lemma ready_init : ready (MkRewriter [] [] []).
Proof. split; [split; apply cache_ok_nil | done]. Qed.
Lemma rewrite_ok n s : dom n -> ready s ->
  exists r s', ready s' /\ rewritten n r /\ forall F, 2 * rewrite_fuel (S (rank n)) <= F -> Rewriter_rewrite F n s = Ok (r, s').
Proof.
  intros Hd [Hc Hs]. destruct (spec_theory n Hd) as [t Ht].
  destruct (all_full _ _ (process_all (S (rank n))) n s t) as (r & s' & C & S' & R & HF); [done | lia | done | | done |].
  { unfold stack_above. by rewrite Hs. }
  exists r, s'. split; [split; [done | congruence] |]. split; [done |]. intros F HB. unfold Rewriter_rewrite.
  rewrite (sm_lift _ _ _ t) by done. apply HF. lia.
Qed.

(** A sequence of calls; the caches persist. *)
Fixpoint rewrite_all (fuel : nat) (ns : list Node) : SM RewriterState (list Node) :=
  match ns with
  | [] => mret []
  | n :: ns => r ← Rewriter_rewrite fuel n; rs ← rewrite_all fuel ns; mret (r :: rs)
  end.
Lemma rewrite_all_ok ns : forall s, Forall dom ns -> ready s ->
  exists rs s', ready s' /\ Forall2 rewritten ns rs /\ forall F, Forall (fun n => 2 * rewrite_fuel (S (rank n)) <= F) ns -> rewrite_all F ns s = Ok (rs, s').
Proof.
  induction ns as [|n ns IH]; intros s Hd Hs.
  - exists [], s. split; [done |]. split; [constructor | done].
  - apply Forall_cons in Hd as [Hd Hds]. destruct (rewrite_ok n s Hd Hs) as (r & s1 & Hs1 & Hr & H1).
    destruct (IH s1 Hds Hs1) as (rs & s2 & Hs2 & Hrs & H2). exists (r :: rs), s2. split; [done |].
    split; [by apply Forall2_cons |]. intros F [HF HFs]%Forall_cons. cbn [rewrite_all]. rewrite (sm_bind _ _ _ r s1) by by apply H1.
    rewrite (sm_bind _ _ _ rs s2) by by apply H2. done.
Qed.
End contract.
