(* ===== verification/BoolFormulas.v ===== *)
(** * Rewriting Boolean formulas

    The Boolean rewriter fulfils the contract [RewritersSpec] on formulas over Boolean variables
    and theory atoms in normal form, with the rank [brank]; so [Rewriter::rewrite] with the
    tables of the program terminates on these formulas and keeps their values. *)

From S2P Require Import Prelude Integer BitVector Node Cardinality BVRules BVRulesCorrect BVNormalize BVSimplify BVCoreCorrect BVSimplifyCorrect Subterm BVSolveEq BVRewriter BoolRewriter BoolRewriterCorrect RewriterLoop RewriterLoopCorrect.
Local Open Scope nat_scope.

Definition connective_kind_b (k : Kind) : bool :=
  match k with NOT | AND | OR | IMPLIES | XOR | EQUAL | ITE => true | _ => false end.
(** Formulas over Boolean variables and the nodes that [leaf] allows, which have no connective on top. *)
Fixpoint bformula (leaf : Node -> bool) (n : Node) : bool :=
  match n with
  | Var _ BOOLEAN_TYPE | ConstBool _ => true
  | MkNode k ch => if connective_kind_b k then arity_ok k (length ch) && forallb (bformula leaf) ch else leaf n
  | _ => false
  end.
(** A theory atom: a node without a connective on top. *)
Definition theory_atom (n : Node) : bool := match n with MkNode k _ => negb (connective_kind_b k) | _ => false end.
(** Formulas over Boolean variables only. *)
Definition no_leaf (n : Node) : bool := false.
Definition kind_cost (k : Kind) : nat :=
  match k with NOT => 1 | AND | OR => 2 | EQUAL | IMPLIES | XOR => 6 | _ => 8 end.
Fixpoint brank (n : Node) : nat :=
  match n with
  | Var _ _ => 2
  | ConstBool _ | ConstBV _ => 1
  | MkNode k ch => kind_cost k + sum_list_with brank ch
  end.
Definition sized (leaf : Node -> bool) (n : Node) : Prop := bformula leaf n = true /\ (Z.of_nat (brank n) < MAX_CHILDREN)%Z.
Definition bdom : Node -> Prop := sized no_leaf.

Lemma brank_pos n : 1 <= brank n.
Proof. destruct n as [| | |k ch]; cbn; try lia. destruct k; cbn; lia. Qed.
Lemma brank_nodes n : num_nodes n <= brank n.
Proof.
  induction n as [| | |k ch IH] using node_ind'; cbn; try lia.
  assert (1 <= kind_cost k) by (destruct k; cbn; lia).
  assert (sum_list_with num_nodes ch <= sum_list_with brank ch) by (induction IH; cbn; lia). lia.
Qed.
Lemma brank_in c ch : c ∈ ch -> brank c <= sum_list_with brank ch.
Proof. induction 1; cbn; lia. Qed.
Lemma bformula_node leaf k ch : connective_kind_b k = true ->
  bformula leaf (MkNode k ch) = true <-> arity_ok k (length ch) = true /\ Forall (fun c => bformula leaf c = true) ch.
Proof. intros Hk. cbn. rewrite Hk, andb_true_iff, Forall_forall, forallb_forall. setoid_rewrite list_elem_of_In. tauto. Qed.
Lemma bformula_atom leaf n : theory_atom n = true -> bformula leaf n = leaf n.
Proof. destruct n as [| | |k ch]; try done. cbn. by destruct (connective_kind_b k). Qed.
Lemma bformula_impl leaf leaf' n : (forall a, theory_atom a = true -> leaf a = true -> leaf' a = true) -> bformula leaf n = true -> bformula leaf' n = true.
Proof.
  intros Hl. induction n as [x t|b|v|k ch IH] using node_ind'; try done. cbn. destruct (connective_kind_b k) eqn:Hk.
  - intros [-> Hch]%andb_true_iff. rewrite andb_true_l. apply forallb_forall. intros c Hc. rewrite forallb_forall in Hch.
    rewrite Forall_forall in IH. by apply IH; [apply list_elem_of_In | apply Hch].
  - apply Hl. cbn. by rewrite Hk.
Qed.

(** The theory atoms of a formula. *)
Fixpoint formula_atoms (n : Node) : list Node :=
  match n with MkNode k ch => if connective_kind_b k then concat (map formula_atoms ch) else [n] | _ => [] end.
Lemma atoms_child k ch c a : connective_kind_b k = true -> c ∈ ch -> a ∈ formula_atoms c -> a ∈ formula_atoms (MkNode k ch).
Proof.
  intros Hk Hc Ha. cbn. rewrite Hk. apply list_elem_of_In, in_concat. exists (formula_atoms c). split; [apply in_map; by apply list_elem_of_In | by apply list_elem_of_In].
Qed.
Lemma atoms_inv k ch a : connective_kind_b k = true -> a ∈ formula_atoms (MkNode k ch) -> exists c, c ∈ ch /\ a ∈ formula_atoms c.
Proof.
  intros Hk. cbn. rewrite Hk. intros (l & (c & <- & Hc)%in_map_iff & Ha)%list_elem_of_In%in_concat. exists c. by rewrite !list_elem_of_In.
Qed.
Lemma atoms_theory_atom n a : a ∈ formula_atoms n -> theory_atom a = true.
Proof.
  induction n as [x t|b|v|k ch IH] using node_ind'; try (by intros H; apply not_elem_of_nil in H). destruct (connective_kind_b k) eqn:Hk.
  - intros (c & Hc & Ha)%atoms_inv; [| done]. rewrite Forall_forall in IH. eauto.
  - cbn. rewrite Hk. intros ->%list_elem_of_singleton. cbn. by rewrite Hk.
Qed.
(** A formula is one over its own atoms. *)
Definition own_atoms (n : Node) (a : Node) : bool := bool_decide (a ∈ formula_atoms n).
Lemma bformula_own leaf n : bformula leaf n = true -> bformula (fun a => leaf a && own_atoms n a) n = true.
Proof.
  assert (forall m, (forall a, a ∈ formula_atoms m -> a ∈ formula_atoms n) -> bformula leaf m = true -> bformula (fun a => leaf a && own_atoms n a) m = true) as H; [| by apply H].
  induction m as [x t|b|v|k ch IH] using node_ind'; try done. intros Hsub. destruct (connective_kind_b k) eqn:Hk.
  - intros [Ha Hch]%bformula_node; [| done]. apply bformula_node; [done |]. split; [done |]. rewrite Forall_forall in *.
    intros c Hc. apply IH; [done | | by apply Hch]. intros a Hac. apply Hsub. by eapply atoms_child.
  - cbn. rewrite Hk. intros ->. apply bool_decide_eq_true, Hsub. cbn. rewrite Hk. by apply list_elem_of_singleton.
Qed.
Lemma bformula_atoms leaf n a : bformula leaf n = true -> a ∈ formula_atoms n -> leaf a = true.
Proof.
  induction n as [x t|b|v|k ch IH] using node_ind'; try (by intros _ H; apply not_elem_of_nil in H). destruct (connective_kind_b k) eqn:Hk.
  - intros [_ Hch]%bformula_node (c & Hc & Ha)%atoms_inv; try done. rewrite Forall_forall in *. eauto.
  - cbn. rewrite Hk. intros Hl ->%list_elem_of_singleton. done.
Qed.

(** ** Formulas over leaves that have Boolean values *)
Section values.
Context (leaf : Node -> bool).
Hypothesis leaf_value : forall e a, theory_atom a = true -> leaf a = true -> exists b, eval e a = Some (VBool b).
Abbreviation bformula := (bformula leaf).

(** Formulas have a value. *)
Lemma bformula_value e n : bformula n = true -> exists b, eval e n = Some (VBool b).
Proof.
  induction n as [x t|b|v|k ch IH] using node_ind'; intros H; [destruct t; try done; by eexists | by eexists | done |].
  destruct (connective_kind_b k) eqn:Hk; [| apply leaf_value; [cbn; by rewrite Hk | by rewrite bformula_atom in H by (cbn; by rewrite Hk)]].
  apply bformula_node in H as (Ha & Hch); [| done].
  assert (Hvs : exists bs, Forall2 (fun c w => eval e c = Some w) ch (map VBool bs) /\ length bs = length ch).
  { clear Ha. induction IH as [|c ch Hc _ IHl]; [by exists [] |]. apply Forall_cons in Hch as [H1 H2].
    destruct (Hc H1) as [b Hb]. destruct (IHl H2) as (bs & Hbs & Hl). exists (b :: bs). split; [by constructor | cbn; lia]. }
  destruct Hvs as (bs & Hvs & Hl).
  assert (Hm : mapM as_bool (map VBool bs) = Some bs) by by apply as_bools_Some.
  assert (exists b, eval_kind e k (map VBool bs) = Some (VBool b)) as [b Hb].
  { rewrite <- Hl in Ha. destruct k; try done; cbn [eval_kind]; rewrite ?Hm; cbn; eauto;
      destruct bs as [|b1 [|b2 [|b3 [|]]]]; try done; cbn; eauto. destruct b1; eauto. }
  exists b. apply eval_MkNode. split; [done |]. by exists (map VBool bs).
Qed.

Lemma bformula_type n : bformula n = true -> getType false n = Ok BOOLEAN_TYPE.
Proof. intros H. destruct (bformula_value sample_env n H) as [b Hb]. by apply (eval_getType false) in Hb. Qed.
Lemma bformula_theory n : bformula n = true -> theory_atom n = false -> theoryOf n = Ok THEORY_BOOL.
Proof.
  destruct n as [x t|b|v|k ch]; try done; [by destruct t |]. intros Hn Hk%negb_false_iff. apply bformula_node in Hn as (Ha & Hch); [| done]. cbn [theoryOf].
  case_bool_decide; [subst k | by destruct k]. destruct ch as [|c ch]; [done |]. apply Forall_cons in Hch as [Hc _].
  cbn. by rewrite (bformula_type c Hc).
Qed.
Lemma bformula_equality n : bformula n = true -> isEqualityNode n = Ok false.
Proof.
  unfold isEqualityNode. case_bool_decide as Hk; [| done]. destruct n as [| | |k ch]; try done. cbn in Hk. subst k.
  intros (Ha & Hch)%bformula_node; [| done]. destruct ch as [|c ch]; [done |]. apply Forall_cons in Hch as [Hc _]. cbn. by rewrite (bformula_type c Hc).
Qed.
End values.

(** ** The answers of the Boolean rewriter *)
Section answers.
Context {G : Gmp} (leaf : Node -> bool).
Abbreviation bformula := (bformula leaf).
Abbreviation bdom := (sized leaf).

(** The answer of [preRewrite] on [n]: a formula that is no larger, smaller when it asks for more, and when it is done the node
    given or one with a connective on top or a constant, and stable. *)
Definition good_answer (n : Node) (r : RewriteResponse) : Prop :=
  bformula (node r) = true /\ brank (node r) <= brank n /\ (status r <> REWRITE_DONE -> brank (node r) < brank n) /\
  (status r = REWRITE_DONE -> node r = n \/ (theory_atom (node r) = false /\ bool_preRewrite (node r) = Ok (MkResponse REWRITE_DONE (node r)))) /\
  (isConst n = true -> node r = n).

Lemma good_done n : bformula n = true -> good_answer n (MkResponse REWRITE_DONE n).
Proof. intros H. split; [done |]. split; [cbn; lia |]. split; [done |]. split; [by left | done]. Qed.
Lemma good_const n b : isConst n = false -> good_answer n (MkResponse REWRITE_DONE (ConstBool b)).
Proof. intros H. split; [done |]. split; [apply brank_pos |]. split; [done |]. split; [by right |]. congruence. Qed.
Lemma good_again n m : isConst n = false -> bformula m = true -> brank m < brank n -> good_answer n (MkResponse REWRITE_AGAIN m).
Proof. intros H Hm Hr. split; [done |]. split; [cbn; lia |]. split; [done |]. split; [done |]. congruence. Qed.

Lemma strip_nots_good n : forall ev m ev', bformula n = true -> strip_nots n ev = Ok (m, ev') -> bformula m = true /\ brank m <= brank n.
Proof.
  induction n as [x t|b|v|k ch IH] using node_ind'; intros ev m ev' Hn H; try (injection H as <- <-; split; [done | lia]).
  destruct (decide (k = NOT)) as [-> | Hk].
  - cbn [strip_nots] in H. destruct ch as [|c ch]; [done |]. apply bformula_node in Hn as (_ & Hch); [| done]. apply Forall_cons in Hch as [Hc _].
    apply Forall_cons in IH as [IHc _]. destruct (IHc _ _ _ Hc H) as [H1 H2]. split; [done |]. cbn. lia.
  - assert (strip_nots (MkNode k ch) ev = Ok (MkNode k ch, ev)) as E by by destruct k. rewrite E in H. injection H as <- <-. split; [done | lia].
Qed.
Lemma notNode_good n : bformula n = true -> bformula (notNode n) = true /\ brank (notNode n) = S (brank n).
Proof. intros H. split; [cbn; by rewrite H | cbn; lia]. Qed.
Lemma makeNegation_good n r : bformula n = true -> makeNegation n = Ok r -> bformula r = true /\ brank r <= S (brank n).
Proof.
  unfold makeNegation. intros Hn H. apply M_bind_inv in H as ([m ev] & Hs & H). destruct (strip_nots_good n _ _ _ Hn Hs) as [Hm Hr].
  destruct (notNode_good m Hm) as [Hnm Hrn].
  destruct ev; [injection H as <-; split; [done | lia] |].
  destruct m as [x t|b|v|k ch]; try done; injection H as <-; (split; [done |]); rewrite ?Hrn; cbn in *; lia.
Qed.
Lemma negation_again n m : isConst n = false -> bformula m = true -> S (brank m) < brank n -> forall r,
  (x ← makeNegation m; Ok (MkResponse REWRITE_AGAIN x)) = Ok r -> good_answer n r.
Proof.
  intros Hn Hm Hr r H. apply M_bind_inv in H as (x & Hx & [= <-]). destruct (makeNegation_good m x Hm Hx). apply good_again; [done | done | lia].
Qed.

(** Formulas of one, two and three children. *)
Lemma bformula_one k n : bformula n = true -> getKind n = k -> connective_kind_b k = true -> arity k = (1, Some 1) -> exists a, n = MkNode k [a] /\ bformula a = true.
Proof.
  intros H Hk Hc Ha. destruct n as [| | |k' ch]; cbn in Hk; subst; try discriminate Ha. apply bformula_node in H as (Hl & Hch); [| done].
  unfold arity_ok in Hl. rewrite Ha in Hl. destruct ch as [|a [|]]; try done. apply Forall_cons in Hch as [Hx _]. by exists a.
Qed.
Lemma bformula_two k n : bformula n = true -> getKind n = k -> connective_kind_b k = true -> arity k = (2, Some 2) -> exists a b, n = MkNode k [a; b] /\ bformula a = true /\ bformula b = true.
Proof.
  intros H Hk Hc Ha. destruct n as [| | |k' ch]; cbn in Hk; subst; try discriminate Ha. apply bformula_node in H as (Hl & Hch); [| done].
  unfold arity_ok in Hl. rewrite Ha in Hl. destruct ch as [|a [|b [|]]]; try done. apply Forall_cons in Hch as [Hx Hch]. apply Forall_cons in Hch as [Hy _]. by exists a, b.
Qed.
Lemma bformula_three k n : bformula n = true -> getKind n = k -> connective_kind_b k = true -> arity k = (3, Some 3) ->
  exists a b c, n = MkNode k [a; b; c] /\ bformula a = true /\ bformula b = true /\ bformula c = true.
Proof.
  intros H Hk Hc Ha. destruct n as [| | |k' ch]; cbn in Hk; subst; try discriminate Ha. apply bformula_node in H as (Hl & Hch); [| done].
  unfold arity_ok in Hl. rewrite Ha in Hl. destruct ch as [|a [|b [|c [|]]]]; try done.
  apply Forall_cons in Hch as [Hx Hch]. apply Forall_cons in Hch as [Hy Hch]. apply Forall_cons in Hch as [Hz _]. by exists a, b, c.
Qed.

(** Follow the branches of a handler to its answer. *)
Ltac branches H :=
  repeat match type of H with
  | (if ?c then _ else _) = Ok _ => destruct c eqn:?
  | Ok _ = Ok _ => injection H as <-
  end.
Ltac answer := first
  [ by apply good_done | by apply good_const
  | apply good_again; [done | first [done | cbn; by rewrite ?andb_true_r, ?andb_true_iff] | cbn [brank kind_cost sum_list_with]; lia]
  | eapply negation_again; [done | | | eassumption]; [done | cbn [brank kind_cost sum_list_with]; lia] ].

Lemma not_good n r : bformula n = true -> getKind n = NOT -> rewrite_not n = Ok r -> good_answer n r.
Proof.
  intros Hn Hk H. destruct (bformula_one NOT n Hn Hk eq_refl eq_refl) as (a & -> & Ha). unfold rewrite_not in H. cbn [child children lookup list_lookup] in H.
  rewrite M_bind_Ok in H. branches H; try answer.
  match goal with E : isKind NOT a = true |- _ => apply not_not_kind in E; destruct (bformula_one NOT a Ha E eq_refl eq_refl) as (c & -> & Hc) end.
  injection H as <-. answer.
Qed.
Lemma implies_good n r : bformula n = true -> getKind n = IMPLIES -> rewrite_implies n = Ok r -> good_answer n r.
Proof.
  intros Hn Hk H. destruct (bformula_two IMPLIES n Hn Hk eq_refl eq_refl) as (a & b & -> & Ha & Hb). unfold rewrite_implies in H. cbn [child children lookup list_lookup] in H.
  rewrite !M_bind_Ok in H. pose proof (brank_pos a). pose proof (brank_pos b). branches H; answer.
Qed.
Lemma xor_good n r : bformula n = true -> getKind n = XOR -> rewrite_xor n = Ok r -> good_answer n r.
Proof.
  intros Hn Hk H. destruct (bformula_two XOR n Hn Hk eq_refl eq_refl) as (a & b & -> & Ha & Hb). unfold rewrite_xor in H. cbn [child children lookup list_lookup] in H.
  rewrite !M_bind_Ok in H. pose proof (brank_pos a). pose proof (brank_pos b). branches H; try answer.
  apply M_bind_inv in H as (q & _ & H). branches H; try answer. apply M_bind_inv in H as (q' & _ & H). branches H; answer.
Qed.
Lemma equal_good n r : bformula n = true -> getKind n = EQUAL -> rewrite_equal n = Ok r -> good_answer n r.
Proof.
  intros Hn Hk H. destruct (bformula_two EQUAL n Hn Hk eq_refl eq_refl) as (a & b & -> & Ha & Hb). unfold rewrite_equal in H. cbn [child children lookup list_lookup] in H.
  rewrite !M_bind_Ok in H. pose proof (brank_pos a). pose proof (brank_pos b). branches H; try answer.
  apply M_bind_inv in H as (q & _ & H). branches H; try answer. apply M_bind_inv in H as (q' & _ & H). branches H; try answer.
  unfold rewrite_iff_equalities in H. apply M_bind_inv in H as (ct & _ & H). destruct ct as [[c t]|]; [| branches H; answer].
  apply M_bind_inv in H as (m & _ & H). destruct m as [[]|]; [branches H; answer | | branches H; answer].
  apply M_bind_inv in H as (ty & _ & H). apply M_bind_inv in H as (kappa & _ & H). apply M_bind_inv in H as (two & _ & H). apply M_bind_inv in H as (le & _ & H).
  branches H; [answer |]. apply M_bind_inv in H as (m0 & Hm0 & H). apply M_bind_inv in H as (m1 & Hm1 & H). injection H as <-.
  destruct (makeNegation_good a m0 Ha Hm0). destruct (makeNegation_good b m1 Hb Hm1).
  apply good_again; [done | | cbn; lia]. apply bformula_node; [done |]. split; [done |]. by repeat constructor.
Qed.

Lemma bformula_ite a b c : bformula a = true -> bformula b = true -> bformula c = true -> bformula (iteNode a b c) = true.
Proof. intros. apply bformula_node; [done |]. split; [done |]. by repeat constructor. Qed.
Lemma brank_nonconst n : bformula n = true -> isConst n = false -> 2 <= brank n.
Proof.
  destruct n as [| | |k ch]; cbn [isConst brank]; try done; try (cbn; lia). intros H _. destruct k; cbn [kind_cost]; try lia.
  apply bformula_node in H as [Ha _]; [| done]. destruct ch as [|c ch]; [done |]. cbn. pose proof (brank_pos c). lia.
Qed.

Lemma ite_parity_good n0 n1 n2 r : bformula n0 = true -> bformula n1 = true -> bformula n2 = true ->
  rewrite_ite_parity (iteNode n0 n1 n2) n0 n1 n2 = Ok r -> good_answer (iteNode n0 n1 n2) r.
Proof.
  intros H0 H1 H2 H. pose proof (brank_pos n0). pose proof (brank_pos n1). pose proof (brank_pos n2). unfold rewrite_ite_parity in H.
  assert (Hn : bformula (iteNode n0 n1 n2) = true) by by apply bformula_ite.
  apply M_bind_inv in H as (p & _ & H). destruct (negb (p =? 0)%Z).
  { injection H as <-. apply good_again; [done | | case_match; cbn; lia]. case_match; [done |].
    apply bformula_node; [done |]. split; [done |]. by repeat constructor. }
  apply M_bind_inv in H as (p01 & Hp01 & H). destruct (negb (p01 =? 0)%Z) eqn:E1.
  { injection H as <-. assert (isConst n1 = false) by (destruct (isConst n1); [by injection Hp01 as <- | done]).
    pose proof (brank_nonconst n1 H1 ltac:(done)). apply good_again; [done | apply bformula_ite; [done | by destruct (p01 =? 1)%Z | done] | destruct (p01 =? 1)%Z; cbn; lia]. }
  apply M_bind_inv in H as (p02 & Hp02 & H). destruct (negb (p02 =? 0)%Z) eqn:E2.
  { injection H as <-. assert (isConst n2 = false) by (destruct (isConst n2); [by injection Hp02 as <- | done]).
    pose proof (brank_nonconst n2 H2 ltac:(done)). apply good_again; [done | apply bformula_ite; [done | done | by destruct (p02 =? 1)%Z] | destruct (p02 =? 1)%Z; cbn; lia]. }
  assert (Hnest : forall m i x, bformula m = true -> isKind ITE m = true -> i = 1 \/ i = 2 -> child m i = Ok x -> bformula x = true /\ brank x < brank m).
  { intros m i x Hm Hk%bool_decide_eq_true Hi Hx. destruct (bformula_three ITE m Hm Hk eq_refl eq_refl) as (a & b & c & -> & Ha & Hb & Hc).
    destruct Hi as [-> | ->]; injection Hx as <-; (split; [done | cbn; lia]). }
  apply M_bind_inv in H as (p3 & Hp3 & H). destruct (negb (p3 =? 0)%Z) eqn:E3.
  { apply M_bind_inv in H as (x & Hx & H). injection H as <-. destruct (isKind ITE n1) eqn:K; [| by injection Hp3 as <-].
    assert (bformula x = true /\ brank x < brank n1) as [Hbx Hrx] by (eapply Hnest; [done | done | | exact Hx]; destruct (p3 =? 1)%Z; auto).
    apply good_again; [done | by apply bformula_ite | cbn; lia]. }
  apply M_bind_inv in H as (p4 & Hp4 & H). destruct (negb (p4 =? 0)%Z) eqn:E4; [| injection H as <-; by apply good_done].
  apply M_bind_inv in H as (x & Hx & H). injection H as <-. destruct (isKind ITE n2) eqn:K; [| by injection Hp4 as <-].
  assert (bformula x = true /\ brank x < brank n2) as [Hbx Hrx] by (eapply Hnest; [done | done | | exact Hx]; destruct (p4 =? 1)%Z; auto).
  apply good_again; [done | by apply bformula_ite | cbn; lia].
Qed.
Lemma ite_good n r : bformula n = true -> getKind n = ITE -> rewrite_ite n = Ok r -> good_answer n r.
Proof.
  intros Hn Hk H. destruct (bformula_three ITE n Hn Hk eq_refl eq_refl) as (a & b & c & -> & Ha & Hb & Hc). unfold rewrite_ite in H. cbn [child children lookup list_lookup] in H.
  rewrite !M_bind_Ok in H. pose proof (brank_pos a). pose proof (brank_pos b). pose proof (brank_pos c).
  branches H; try answer.
  - apply M_bind_inv in H as (? & _ & H). branches H. answer.
  - by apply ite_parity_good.
Qed.

(** Flattening *)
Lemma scan_flat_stable k triv skip cs : (forall x, x ∈ cs -> isKind k x = false /\ x <> triv /\ x <> skip) -> scan_flat k triv skip cs true = Some true.
Proof.
  induction cs as [|c cs IH]; intros H; [done |]. cbn [scan_flat]. destruct (H c) as (Hk & Ht & Hs); [left |].
  destruct (node_eqb c triv) eqn:E1; [by apply node_eqb_eq in E1 |]. destruct (node_eqb c skip) eqn:E2; [by apply node_eqb_eq in E2 |].
  rewrite Hk. cbn. apply IH. intros x Hx. apply H. by right.
Qed.
Lemma below_bformula k n x : connective_kind_b k = true -> bformula n = true -> flat_below k n x -> bformula x = true.
Proof.
  intros Hcon Hn. induction 1 as [|m c _ IH Hm Hc]; [done |]. destruct m as [| | |k' ch]; try (by apply not_elem_of_nil in Hc).
  match goal with Hm : isKind _ _ = true |- _ => apply bool_decide_eq_true in Hm; cbn in Hm; subst k' end.
  apply bformula_node in IH as (_ & IH); [| done]. rewrite Forall_forall in IH. by apply IH.
Qed.
Lemma brank_sum_length cl : length cl <= sum_list_with brank cl.
Proof. induction cl as [|c cl IH]; cbn; [lia |]. pose proof (brank_pos c). lia. Qed.

Lemma flattenNode_good k p n r : connective k p -> bdom n -> isKind k n = true ->
  flattenNode n (ConstBool (negb p)) (ConstBool p) = Ok r -> good_answer n r.
Proof.
  intros Hk [Hn Hsz] Hkn H. pose proof (fun m => connective_kind k p m Hk) as Hop.
  assert (Hg : getKind n = k) by by apply bool_decide_eq_true in Hkn. unfold flattenNode in H. rewrite Hg in H.
  assert (Hc : isConst n = false) by by rewrite (Hop n Hkn).
  pose proof (flat_init k (ConstBool (negb p)) (ConstBool p) n Hkn) as HI.
  destruct (flatten_process_ok k (ConstBool (negb p)) (ConstBool p) n Hop (num_nodes n) [n] [ConstBool p] []) as (q & Hq & Hres); [cbn; lia | done |].
  rewrite Hq, M_bind_Ok in H. destruct q as [cl|]; [| injection H as <-; by apply good_const]. destruct Hres as [v' HI'].
  assert (Hcost : forall ch, 2 + sum_list_with brank ch <= brank (MkNode k ch)) by (intros; destruct Hk as [[-> _] | [-> _]]; cbn; lia).
  pose proof (flatten_process_size k (ConstBool (negb p)) (ConstBool p) n Hop brank 2 _ Hcost _ _ _ _ HI Hq) as Hlen.
  cbn [sum_list_with] in Hlen. pose proof (brank_sum_length cl) as Hlc.
  assert (Hbf : Forall (fun c => bformula c = true) cl).
  { rewrite Forall_forall. intros c Hcl. apply (below_bformula k n); [by destruct Hk as [[-> _] | [-> _]] | done |]. apply HI'. auto. }
  destruct cl as [|c1 [|c2 cl]].
  - injection H as <-. by apply good_const.
  - injection H as <-. apply Forall_cons in Hbf as [Hb _]. apply good_again; [done | done | cbn in Hlen; lia].
  - unfold build_flat in H. rewrite (proj2 (Z.ltb_lt _ _)) in H by lia. unfold mkNode in H.
    assert (Ha : arity_ok k (length (c1 :: c2 :: cl)) = true) by by destruct Hk as [[-> _] | [-> _]].
    rewrite Ha, (proj2 (Z.leb_le _ _)) in H by lia. cbn [andb check] in H. rewrite !M_bind_Ok in H. injection H as <-.
    remember (c1 :: c2 :: cl) as cl' eqn:Ecl. split; [| split; [| split; [| split]]]; cbn [node status]; try done; try congruence.
    + apply bformula_node; [by destruct Hk as [[-> _] | [-> _]] |]. done.
    + destruct Hk as [[-> _] | [-> _]]; cbn; lia.
    + intros _. right. split; [by destruct Hk as [[-> _] | [-> _]] |]. assert (Hst := scan_flat_stable k (ConstBool (negb p)) (ConstBool p) cl' (fi_list _ _ _ _ _ _ _ HI')).
      unfold bool_preRewrite. destruct Hk as [[-> ->] | [-> ->]]; cbn [getKind]; unfold rewrite_flat; cbn [children]; cbn [negb] in Hst; by rewrite Hst.
Qed.
Lemma flat_good k p n r : connective k p -> bdom n -> isKind k n = true ->
  rewrite_flat k (ConstBool (negb p)) (ConstBool p) n = Ok r -> good_answer n r.
Proof.
  intros Hk Hd Hkn H. unfold rewrite_flat in H. destruct (scan_flat _ _ _ _ _) as [[]|].
  - injection H as <-. apply good_done, Hd.
  - by eapply flattenNode_good.
  - injection H as <-. apply good_const. by rewrite (connective_kind k p n Hk Hkn).
Qed.

Lemma preRewrite_good n r : bdom n -> bool_preRewrite n = Ok r -> good_answer n r.
Proof.
  intros Hd H. pose proof (proj1 Hd) as Hn. unfold bool_preRewrite in H.
  destruct (getKind n) eqn:K; try (injection H as <-; by apply good_done).
  - by apply equal_good.
  - by apply not_good.
  - apply (flat_good AND true); [by left | done | by apply bool_decide_eq_true | done].
  - apply (flat_good OR false); [by right | done | by apply bool_decide_eq_true | done].
  - by apply implies_good.
  - by apply xor_good.
  - by apply ite_good.
Qed.
End answers.

(** ** Terms in normal form *)
Section stable.
Context {TR : TheoryRewriters}.

(** The answer of a theory that leaves the node as it is. *)
Definition leaves_it (m : M RewriteResponse) (n : Node) : bool :=
  match m with Ok r => bool_decide (status r = REWRITE_DONE) && node_eqb (node r) n | Throw _ => false end.
(** A term that its theories leave as it is, before and after its children, and so below. *)
Fixpoint stable (n : Node) : bool :=
  match theoryOf n with Ok t => leaves_it (callPreRewrite t n) n && leaves_it (callPostRewrite t n) n | Throw _ => false end &&
  isOk (isEqualityNode n) &&
  match n with
  | MkNode k ch => arity_ok k (length ch) && (Z.of_nat (length ch) <=? MAX_CHILDREN)%Z && forallb stable ch
  | _ => true
  end.
Lemma leaves_it_inv m n : leaves_it m n = true -> m = Ok (MkResponse REWRITE_DONE n).
Proof. destruct m as [[st n']|]; [| done]. intros [Hs%bool_decide_eq_true Hn%node_eqb_eq]%andb_true_iff. cbn in *. by subst. Qed.
Lemma stable_inv n : stable n = true -> exists t, theoryOf n = Ok t /\ callPreRewrite t n = Ok (MkResponse REWRITE_DONE n) /\
  callPostRewrite t n = Ok (MkResponse REWRITE_DONE n) /\ exists b, isEqualityNode n = Ok b.
Proof.
  intros H. assert (match theoryOf n with Ok t => leaves_it (callPreRewrite t n) n && leaves_it (callPostRewrite t n) n | Throw _ => false end = true /\ isOk (isEqualityNode n) = true) as [H1 H2].
  { destruct n; cbn [stable] in H; apply andb_true_iff in H as [[? ?]%andb_true_iff _]; done. }
  destruct (theoryOf n) as [t|]; [| done]. apply andb_true_iff in H1 as [Hpre%leaves_it_inv Hpost%leaves_it_inv]. exists t. do 3 (split; [done |]).
  destruct (isEqualityNode n) as [b|]; [by exists b | done].
Qed.
Lemma stable_node k ch : stable (MkNode k ch) = true -> arity_ok k (length ch) = true /\ (Z.of_nat (length ch) <= MAX_CHILDREN)%Z /\ Forall (fun c => stable c = true) ch.
Proof.
  cbn [stable]. intros [_ [[Ha Hl%Z.leb_le]%andb_true_iff Hch]%andb_true_iff]%andb_true_iff. do 2 (split; [done |]).
  rewrite Forall_forall. rewrite forallb_forall in Hch. intros c Hc. by apply Hch, list_elem_of_In.
Qed.

(** The terms that are rewritten here, and what a rewritten form keeps: a term in normal form is itself, a formula is one over atoms it had. *)
Definition ndom (leaf : Node -> bool) (n : Node) : Prop := stable n = true \/ sized leaf n.
Record keeps (leaf : Node -> bool) (n m : Node) : Prop := {
  keeps_stable : stable n = true -> m = n;
  keeps_atoms a : a ∈ formula_atoms m -> a ∈ formula_atoms n;
  keeps_formula : bformula leaf n = true -> bformula leaf m = true }.
#[export] Instance keeps_preorder leaf : PreOrder (keeps leaf).
Proof.
  split; [by intros n |]. intros n m k [S1 A1 F1] [S2 A2 F2]. split; [| by auto | by auto].
  intros Hn. pose proof (S1 Hn) as ->. by apply S2.
Qed.
End stable.

(** ** The contract *)
Section contract.
Context {G : Gmp} {HG : GmpSpec G} {NR : NestedRewriter}.
Context (node_lt : Node -> Node -> bool) (hash_order : list (Node * Count) -> list (Node * Count)) (divByZeroConst extractArith : bool).
(** The rewriters of the builtin theory and of UF, which own no node of the kinds of this development. *)
Context (other : TheoryId -> Node -> M RewriteResponse).

(** The tables generated from [rewriter_tables_template.h]. *)
#[export] Instance rewriter_tables : TheoryRewriters := {|
  callPreRewrite t n := match t with
    | THEORY_BOOL => bool_preRewrite n
    | THEORY_BV => preRewrite node_lt hash_order divByZeroConst extractArith n
    | _ => other t n end;
  callPostRewrite t n := match t with
    | THEORY_BOOL => bool_postRewrite n
    | THEORY_BV => postRewrite node_lt hash_order divByZeroConst extractArith n
    | _ => other t n end |}.

(** The atoms of the formulas are in normal form and have Boolean values. *)
Context (leaf : Node -> bool).
Hypothesis leaf_value : forall e a, theory_atom a = true -> leaf a = true -> exists b, eval e a = Some (VBool b).
Hypothesis leaf_stable : forall a, theory_atom a = true -> leaf a = true -> stable a = true.
Abbreviation bdom := (sized leaf).
Abbreviation ndom := (ndom leaf).
Abbreviation keeps := (keeps leaf).
Abbreviation rewritten := (rewritten ndom brank keeps).

Lemma preRewrite_runs n : bdom n -> exists r, bool_preRewrite n = Ok r /\ good_answer leaf n r /\ refines n (node r).
Proof.
  intros Hd. destruct (bformula_value leaf leaf_value sample_env n (proj1 Hd)) as [b Hb].
  assert (Hsz : (Z.of_nat (num_nodes n) < MAX_CHILDREN)%Z) by (pose proof (brank_nodes n); destruct Hd; lia).
  destruct (bool_preRewrite_ok sample_env n _ Hb Hsz) as (r & Hr & _). exists r. split; [done |]. split; [by apply preRewrite_good |].
  intros e v Hv. destruct (bool_preRewrite_ok e n v Hv Hsz) as (r' & Hr' & He). congruence.
Qed.
(** The atoms of an answer are among those of the formula, because the answer is good over these atoms as well. *)
Lemma answer_atoms n r : bdom n -> bool_preRewrite n = Ok r -> forall a, a ∈ formula_atoms (node r) -> a ∈ formula_atoms n.
Proof.
  intros [Hn Hsz] Hr a Ha. destruct (preRewrite_good (fun a => leaf a && own_atoms n a) n r) as [Hb _]; [| done |].
  - split; [by apply bformula_own | done].
  - apply (bformula_atoms _ _ _ Hb) in Ha. apply andb_true_iff in Ha as [_ Ha%bool_decide_eq_true]. done.
Qed.
(** A formula in the domain is in normal form or has a connective on top. *)
Lemma ndom_cases n : ndom n -> stable n = true \/ (stable n = false /\ bdom n /\ theory_atom n = false).
Proof.
  intros H. destruct (stable n) eqn:Hs; [by left | right]. destruct H as [H | Hd]; [congruence |]. do 2 (split; [done |]).
  destruct (theory_atom n) eqn:Ha; [| done]. destruct Hd as [Hd _]. rewrite bformula_atom in Hd by done. by rewrite (leaf_stable n Ha Hd) in Hs.
Qed.
Lemma stable_rewritten n : stable n = true -> rewritten n n.
Proof. intros H. apply rewritten_refl; [apply _ | by left]. Qed.
Lemma stable_responds t n : stable n = true -> theoryOf n = Ok t -> responds ndom brank keeps t n (MkResponse REWRITE_DONE n).
Proof. intros H Ht. split; [by apply stable_rewritten |]. cbn. by intros [? | ?]. Qed.

Lemma answer_rewritten n r : bdom n -> stable n = false -> bool_preRewrite n = Ok r -> good_answer leaf n r -> refines n (node r) -> rewritten n (node r).
Proof.
  intros [Hn Hsz] Hst Hr0 (Hb & Hr & _ & _ & Hc) Href. split; [right; split; [done | lia] | done | | done | |].
  - split; [congruence | by apply answer_atoms | done].
  - intros He. unfold term_equality in He. rewrite (bformula_equality leaf leaf_value n Hn) in He. discriminate He.
  - intros Hk. by rewrite (Hc Hk).
Qed.
Lemma answer_responds n r : bdom n -> stable n = false -> theory_atom n = false -> bool_preRewrite n = Ok r -> good_answer leaf n r -> refines n (node r) ->
  responds ndom brank keeps THEORY_BOOL n r.
Proof.
  intros Hd Hst Ha Hr Hg Href. split; [by apply answer_rewritten |]. destruct Hg as (Hb & _ & Hlt & Hdone & _). intros [Hs | Hs]; [by apply Hlt |].
  destruct (decide (status r = REWRITE_DONE)) as [E | E]; [| by apply Hlt]. destruct (Hdone E) as [En | [En _]].
  - rewrite En in Hs. by rewrite (bformula_theory leaf leaf_value n (proj1 Hd) Ha) in Hs.
  - by rewrite (bformula_theory leaf leaf_value _ Hb En) in Hs.
Qed.

Lemma stable_build k ch0 ch : stable (MkNode k ch0) = true -> Forall2 rewritten ch0 ch ->
  mkNode k ch = Ok (MkNode k ch) /\ rewritten (MkNode k ch0) (MkNode k ch).
Proof.
  intros Hs Hch. pose proof (stable_node k ch0 Hs) as (Ha & Hl & Hst).
  assert (ch = ch0) as ->.
  { clear -Hch Hst. induction Hch as [|c c' l l' Hc _ IH]; [done |]. apply Forall_cons in Hst as [H1 H2].
    rewrite (IH H2). f_equal. apply (rw_keep _ _ _ _ _ Hc), H1. }
  split; [| by apply stable_rewritten]. unfold mkNode. by rewrite Ha, (proj2 (Z.leb_le _ _) Hl).
Qed.
Lemma formula_build k ch0 ch : stable (MkNode k ch0) = false -> bdom (MkNode k ch0) -> connective_kind_b k = true -> Forall2 rewritten ch0 ch ->
  mkNode k ch = Ok (MkNode k ch) /\ rewritten (MkNode k ch0) (MkNode k ch).
Proof.
  intros Hst [Hn Hsz] Hk Hch. pose proof (Forall2_length _ _ _ Hch) as Hl. pose proof Hn as (Ha & Hf)%bformula_node; [| done].
  assert (Hsum : sum_list_with brank ch <= sum_list_with brank ch0).
  { clear -Hch. induction Hch as [|c c' l l' Hc _ IH]; cbn; [lia |]. pose proof (rw_rank _ _ _ _ _ Hc). lia. }
  assert (Hrank : brank (MkNode k ch) <= brank (MkNode k ch0)) by (cbn; lia).
  assert (Hbf : bformula leaf (MkNode k ch) = true).
  { apply bformula_node; [done |]. split; [by rewrite <- Hl |]. clear -Hch Hf. induction Hch as [|c c' l l' Hc _ IH]; [constructor |].
    apply Forall_cons in Hf as [H1 H2]. constructor; [by apply (rw_keep _ _ _ _ _ Hc) | by apply IH]. }
  split.
  - unfold mkNode. rewrite <- Hl, Ha, (proj2 (Z.leb_le _ _)); [done |]. pose proof (brank_sum_length ch0). cbn [brank] in Hsz. lia.
  - split; [right; split; [done | lia] | | | done | |].
    + apply refines_node. eapply Forall2_impl; [exact Hch |]. intros c c' Hc. apply Hc.
    + split; [congruence | | done]. intros a (c' & Hc' & Hac)%atoms_inv; [| done]. apply list_elem_of_lookup in Hc' as [i Hi].
      destruct (Forall2_lookup_r _ _ _ _ _ Hch Hi) as (c & Hi' & Hc). eapply (atoms_child k ch0 c); [done | by eapply list_elem_of_lookup_2 |].
      by apply (rw_keep _ _ _ _ _ Hc).
    + intros He. unfold term_equality in He. by rewrite (bformula_equality leaf leaf_value _ Hn) in He.
    + done.
Qed.

#[export] Instance boolean_contract : RewritersSpec ndom brank keeps rewriter_tables.
Proof.
  split.
  - intros n [Hs | (_ & Hd & Ha)]%ndom_cases; [destruct (stable_inv n Hs) as (t & Ht & _); by exists t |].
    exists THEORY_BOOL. by apply (bformula_theory leaf leaf_value); [apply Hd |].
  - intros n [Hs | [Hn _]]; [by destruct (stable_inv n Hs) as (t & _ & _ & _ & Hb) |]. exists false. by apply (bformula_equality leaf leaf_value).
  - intros n c Hd Hc. destruct n as [| | |k ch]; try (by apply not_elem_of_nil in Hc). cbn [children] in Hc. pose proof (brank_in c ch Hc).
    assert (1 <= kind_cost k) by (destruct k; cbn; lia). split; [| cbn; lia]. destruct (ndom_cases _ Hd) as [Hs | (_ & [Hn Hsz] & Ha)].
    + left. destruct (stable_node k ch Hs) as (_ & _ & Hch). rewrite Forall_forall in Hch. by apply Hch.
    + right. apply negb_false_iff in Ha. apply bformula_node in Hn as (_ & Hch); [| done]. rewrite Forall_forall in Hch. cbn in Hsz. split; [by apply Hch | lia].
  - intros n _. destruct n as [| | |k ch]; cbn; try lia. pose proof (brank_sum_length ch). lia.
  - intros n ch Hd Hne Hch. destruct n as [| | |k ch0]; try done. cbn [children getKind] in *.
    destruct (ndom_cases _ Hd) as [Hs | (Hs & Hb & Ha%negb_false_iff)]; [by apply stable_build | by apply formula_build].
  - intros t n Hd Ht. destruct (ndom_cases _ Hd) as [Hs | (Hs & Hb & Ha)].
    + destruct (stable_inv n Hs) as (t' & Ht' & Hpre & _). rewrite Ht in Ht'. injection Ht' as <-. exists (MkResponse REWRITE_DONE n). split; [done |]. by apply stable_responds.
    + rewrite (bformula_theory leaf leaf_value n (proj1 Hb) Ha) in Ht. injection Ht as <-.
      destruct (preRewrite_runs n Hb) as (r & Hr & Hg & Href). exists r. split; [done |]. by apply answer_responds.
  - intros t n Hd Ht. destruct (ndom_cases _ Hd) as [Hs | (Hs & Hb & Ha)].
    + destruct (stable_inv n Hs) as (t' & Ht' & _ & Hpost & _). rewrite Ht in Ht'. injection Ht' as <-. exists (MkResponse REWRITE_DONE n).
      split; [done |]. split; [by apply stable_responds |]. intros _ _. exists (MkResponse REWRITE_DONE n). done.
    + rewrite (bformula_theory leaf leaf_value n (proj1 Hb) Ha) in Ht. injection Ht as <-.
      destruct (preRewrite_runs n Hb) as (r & Hr & Hg & Href). exists r. split; [done |]. split; [by apply answer_responds |].
      intros Hs' _. destruct Hg as (_ & _ & _ & Hst & _). cbn [callPostRewrite rewriter_tables]. unfold bool_postRewrite.
      destruct (Hst Hs') as [E | [_ Hst']]; [exists r; by rewrite E | eexists; split; [exact Hst' | done]].
Qed.
End contract.

(** A theory atom in normal form with a Boolean value. *)
Definition normal_atom {TR : TheoryRewriters} (a : Node) : bool :=
  stable a && match eval env0 a with Some (VBool _) => true | _ => false end.
Lemma normal_atom_value {TR : TheoryRewriters} e a : theory_atom a = true -> normal_atom a = true -> exists b, eval e a = Some (VBool b).
Proof.
  intros _ [_ H]%andb_true_iff. destruct (eval env0 a) as [[b|]|] eqn:E; try done. by eapply eval_defined_bool.
Qed.
Lemma normal_atom_stable {TR : TheoryRewriters} a : theory_atom a = true -> normal_atom a = true -> stable a = true.
Proof. by intros _ [H _]%andb_true_iff. Qed.

(** C10. Rewriting formulas terminates and is sound.  The formulas are built with the Boolean connectives and the equality of formulas, over Boolean variables,
    constants and theory atoms other than equations that are in normal form ([normal_atom]: each subterm is one its theory's rewriter leaves as it is);
    each has [brank], its size as a tree with the weights [kind_cost] of the connectives, below [MAX_CHILDREN] (2^26 - 1).  For a sequence of such formulas
    the rewriter with the tables of the program, called on one after the other with its caches kept, returns on each, with the fuel [rewrite_fuel] computes
    from [brank] or more, and fails no assertion; each result is a formula, over theory atoms of the given one, that has the value of the formula given in every model
    and is not larger in [brank]. *)
Theorem rewrite_formulas {G : Gmp} {HG : GmpSpec G} {NR : NestedRewriter} (node_lt : Node -> Node -> bool) (hash_order : list (Node * Count) -> list (Node * Count))
    (divByZeroConst extractArith : bool) (other : TheoryId -> Node -> M RewriteResponse) (ns : list Node) :
  let TR := rewriter_tables node_lt hash_order divByZeroConst extractArith other in
  Forall (fun n => bformula normal_atom n = true /\ (Z.of_nat (brank n) < MAX_CHILDREN)%Z) ns ->
  exists rs s', Forall2 (fun n r => bformula normal_atom r = true /\ (forall a, a ∈ formula_atoms r -> a ∈ formula_atoms n) /\ (forall e, eval e r = eval e n) /\ brank r <= brank n) ns rs /\
    forall F, Forall (fun n => 2 * rewrite_fuel (S (brank n)) <= F) ns -> rewrite_all F ns (MkRewriter [] [] []) = Ok (rs, s').
Proof.
  intros TR Hns. pose proof (boolean_contract node_lt hash_order divByZeroConst extractArith other normal_atom normal_atom_value normal_atom_stable) as HC.
  destruct (rewrite_all_ok (ndom normal_atom) brank (keeps normal_atom) ns (MkRewriter [] [] [])) as (rs & s' & _ & Hrs & HF); [| apply ready_init |].
  { eapply Forall_impl; [exact Hns |]. intros n Hn. by right. }
  exists rs, s'. split; [| done]. clear HF. induction Hrs as [|n r ns rs Hr _ IH]; [constructor |]. apply Forall_cons in Hns as [[Hn _] Hns].
  constructor; [| by apply IH]. destruct Hr as [_ Href [_ Ha Hf] Hrk _ _]. split; [by apply Hf |]. split; [done |]. split; [| done].
  intros e. destruct (bformula_value normal_atom normal_atom_value e n Hn) as [b Hv]. by rewrite Hv, (Href e _ Hv).
Qed.

(** Three formulas; the first two share a subformula, the last is over an atom of the theory of bit-vectors. *)
Definition sample_atom : Node := MkNode BITVECTOR_ULT [Var 3 (BITVECTOR_TYPE 8); Var 4 (BITVECTOR_TYPE 8)].
Definition sample_formulas : list Node :=
  [MkNode NOT [MkNode NOT [sample_formula]]; MkNode ITE [MkNode EQUAL [p1; ConstBool true]; sample_formula; p2];
   MkNode IMPLIES [MkNode NOT [sample_atom]; ConstBool false]].
#[local] Instance formula_tables : TheoryRewriters := rewriter_tables (G := gmp_ref) (NR := Ok) (fun _ _ => true) (fun l => l) false false (fun _ n => Ok (MkResponse REWRITE_DONE n)).
Lemma sum_covers {A} (f : A -> nat) l : Forall (fun x => f x <= sum_list_with f l) l.
Proof. induction l as [|x l IH]; constructor; cbn; [lia |]. eapply Forall_impl; [exact IH |]. cbn. lia. Qed.
Lemma rewrite_formulas_witness : exists F rs s', length rs = 3 /\ rewrite_all F sample_formulas (MkRewriter [] [] []) = Ok (rs, s').
Proof.
  destruct (rewrite_formulas (HG := gmp_ref_spec) (NR := Ok) (fun _ _ => true) (fun l => l) false false (fun _ n => Ok (MkResponse REWRITE_DONE n)) sample_formulas)
    as (rs & s' & Hrs & HF); [by repeat constructor |].
  exists (sum_list_with (fun n => 2 * rewrite_fuel (S (brank n))) sample_formulas), rs, s'. split; [by apply Forall2_length in Hrs | apply HF].
  apply (sum_covers (fun n => 2 * rewrite_fuel (S (brank n)))).
Defined.

(** What they become. *)
Lemma sample_formulas_rewritten :
  fst <$> rewrite_all 40 sample_formulas (MkRewriter [] [] []) =
  Ok [MkNode AND [p1; MkNode OR [p2; p1]]; MkNode ITE [p1; MkNode AND [p1; MkNode OR [p2; p1]]; p2]; sample_atom].
Proof. vm_compute. reflexivity. Qed.
