(* ===== verification/EagerBitblaster.v ===== *)
(** * The eager bit-blaster

    Models [src/theory/bv/eager_bitblaster.cpp], the cache of
    [src/theory/bv/bitblaster_template.h] and [src/theory/bv/bv_eager_solver.cpp].
    The bit-blaster and its CNF stream call each other (the stream's registrar is
    [bbAtom]), so the state is the pair of both and the recursion carries a fuel;
    [EagerCorrect] shows how much is enough.

    [Rewriter::rewrite] is the one of [RewriterLoop], with the caches it keeps between
    calls as part of the state.  The bit-blasting mode is the eager one, as [bbAtom] asserts;
    proof logging is off ([d_bvp] is null), and resource accounting is left out. *)

From S2P Require Import Prelude Integer BitVector Node BitblastUtils BitblastStrategies CnfStream RewriterLoop.
Local Open Scope nat_scope.

Module EagerBitblaster.

(** The members, and the caches of the rewriter, which are attributes of the nodes. *)
Record state : Type := MkState {
  d_termCache : list (Node * list Node);
  d_bbAtoms : list Node;
  d_variables : list Node;
  s_rewriter : RewriterState
}.
Definition init : state := MkState [] [] [] (MkRewriter [] [] []).

Abbreviation St := (CnfStream * state)%type.

Definition bb_gets {A} (f : state -> A) : SM St A := fun st => Ok (f st.2, st).
Definition bb_modify (f : state -> state) : SM St unit := fun '(s, c) => Ok (tt, (s, f c)).

(** [std::set::insert] *)
Definition set_insert (n : Node) (l : list Node) : list Node :=
  if decide (n ∈ l) then l else l ++ [n].

Definition hasBBTerm (node : Node) : SM St bool :=
  bb_gets (fun c => match assoc node (d_termCache c) with Some _ => true | None => false end).
Definition getBBTerm (node : Node) : SM St (list Node) :=
  b ← bb_gets (fun c => assoc node (d_termCache c));
  match b with Some bits => mret bits | None => lift (Throw AssertionFailed) end.
(** [d_termCache.insert(...)] does not overwrite. *)
Definition cache_insert (node : Node) (bits : list Node) (c : state) : state :=
  match assoc node (d_termCache c) with
  | Some _ => c
  | None => MkState (d_termCache c ++ [(node, bits)]) (d_bbAtoms c) (d_variables c) (s_rewriter c)
  end.
Definition storeBBTerm (node : Node) (bits : list Node) : SM St unit :=
  bb_modify (cache_insert node bits).

Definition hasBBAtom (atom : Node) : SM St bool :=
  bb_gets (fun c => bool_decide (atom ∈ d_bbAtoms c)).
Definition storeBBAtom (atom atom_bb : Node) : SM St unit :=
  bb_modify (fun c => MkState (d_termCache c) (set_insert atom (d_bbAtoms c)) (d_variables c) (s_rewriter c)).
Definition getBBAtom (node : Node) : SM St Node := mret node.

Definition mkBitOf (node : Node) (index : nat) : Node := MkNode (BITVECTOR_BITOF (Z.of_nat index)) [node].

Definition makeVariable (var : Node) : SM St (list Node) :=
  n ← lift (getSizeN var);
  bits ← lift (for_from n 0 (fun i bits => Ok (bits ++ [mkBitOf var i])) []);
  _ ← bb_modify (fun c => MkState (d_termCache c) (d_bbAtoms c) (set_insert var (d_variables c)) (s_rewriter c));
  mret bits.

Section eager.
Context {G : Gmp} {TR : TheoryRewriters}.
(** [options::proof()], and the stream's [fullLitToNodeMap], which is the same; the fuel of the rewriter. *)
Context (optProof : bool) (RF : nat).

(** [Rewriter::rewrite] *)
Definition rewrite (n : Node) : SM St Node := fun '(s, c) =>
  match Rewriter_rewrite RF n (s_rewriter c) with
  | Ok (r, w) => Ok (r, (s, MkState (d_termCache c) (d_bbAtoms c) (d_variables c) w))
  | Throw x => Throw x
  end.

(** The two virtual methods, on top of the bit-blaster [bb] they call back. *)
Definition bbTerm (bb : TBitblaster St Node) (node : Node) : SM St (list Node) :=
  t ← lift (getType false node);
  _ ← lift (check AssertionFailed (isBitVector t));
  has ← hasBBTerm node;
  if has : bool then getBBTerm node
  else
    bits ← d_termBBStrategies bb (getKind node) node;
    n ← lift (getSizeN node);
    _ ← lift (check AssertionFailed (length bits =? n));
    _ ← storeBBTerm node bits;
    mret bits.

Definition bbAtom (bb : TBitblaster St Node) (node : Node) : SM St unit :=
  node ← (match node with MkNode NOT _ => lift (child node 0) | _ => mret node end);
  match getKind node with
  | BITVECTOR_BITOF _ => mret tt
  | _ =>
      has ← hasBBAtom node;
      if has : bool then mret tt
      else
        normalized ← rewrite node;
        atom_bb ← (match normalized with
                   | ConstBool _ => mret normalized
                   | _ => d_atomBBStrategies bb (getKind normalized) normalized
                   end);
        atom_bb ← (if negb optProof then rewrite atom_bb else mret atom_bb);
        let atom_definition := MkNode EQUAL [node; atom_bb] in
        _ ← storeBBAtom node atom_bb;
        convertAndAssertTop (BitblastStrategies.bbAtom bb) optProof atom_definition false false
  end.

(** The bit-blaster whose callbacks nest at most [fuel] deep. *)
Fixpoint bitblaster (fuel : nat) : TBitblaster St Node :=
  match fuel with
  | 0 => {|
      BitblastStrategies.bbTerm _ := lift (Throw OutOfFuel);
      BitblastStrategies.bbAtom _ := lift (Throw OutOfFuel);
      BitblastStrategies.getBBAtom := getBBAtom;
      BitblastStrategies.storeBBTerm := storeBBTerm;
      BitblastStrategies.makeVariable := makeVariable
    |}
  | S fuel' => {|
      BitblastStrategies.bbTerm := bbTerm (bitblaster fuel');
      BitblastStrategies.bbAtom := bbAtom (bitblaster fuel');
      BitblastStrategies.getBBAtom := getBBAtom;
      BitblastStrategies.storeBBTerm := storeBBTerm;
      BitblastStrategies.makeVariable := makeVariable
    |}
  end.

(** The registrar is [BitblastingRegistrar::preRegister], that is [bbAtom]. *)
Definition bbFormula (fuel : nat) (node : Node) : SM St unit :=
  convertAndAssertTop (BitblastStrategies.bbAtom (bitblaster fuel)) optProof node false false.

End eager.

(** ** Reading the model off the SAT solver *)
Section model.
Context {G : Gmp}.
(** [d_satSolver->value], [None] for [SAT_VALUE_UNKNOWN], and [isSharedTerm]. *)
Context (sat_value : SatLiteral -> option bool) (isSharedTerm : Node -> bool).

(** The loop of [getModelFromSatSolver], from the highest bit down; [None] is the
    early return of the null node. *)
Fixpoint bits_value (fullModel : bool) (bits : list Node) : SM St (option Z) :=
  match bits with
  | [] => mret (Some 0%Z)
  | b :: bits' =>
      v ← bits_value fullModel bits';
      match v with
      | None => mret None
      | Some value =>
          has ← hasLiteral b;
          if has : bool then
            bit ← getLiteral b;
            match sat_value bit with
            | None => lift (Throw AssertionFailed)
            | Some bit_value => mret (Some (value * 2 + (if bit_value then 1 else 0))%Z)
            end
          else mret (if fullModel then Some (value * 2 + 0)%Z else None)
      end
  end.

Definition getModelFromSatSolver (a : Node) (fullModel : bool) : SM St (option Node) :=
  has ← hasBBTerm a;
  if negb has then
    if fullModel then n ← lift (getSize a); mret (Some (ConstBV (BV.mk n 0))) else mret None
  else
    bits ← getBBTerm a;
    v ← bits_value fullModel bits;
    mret (match v with Some v => Some (ConstBV (BV.mk (Z.of_nat (length bits)) v)) | None => None end).

(** [d_bv->isLeaf(var)] *)
Definition isLeaf (var : Node) : M bool :=
  if getNumChildren var =? 0 then Ok true else t ← theoryOf var; Ok (negb (bool_decide (t = THEORY_BV))).
(** [d_bv->isLeaf(var) || isSharedTerm(var) || (var.isVar() && var.getType().isBoolean())] *)
Definition collects (var : Node) : M bool :=
  l ← isLeaf var;
  if l || isSharedTerm var then Ok true else
  match var with Var _ _ => t ← getType false var; Ok (isBoolean t) | _ => Ok false end.
(** The equalities given to the model. *)
Fixpoint collect (vars : list Node) : SM St (list (Node * Node)) :=
  match vars with
  | [] => mret []
  | var :: vars' =>
      c ← lift (collects var);
      eqs ← (if c : bool then
               has ← hasBBTerm var;
               _ ← lift (check AssertionFailed (has || isSharedTerm var));
               const_value ← getModelFromSatSolver var true;
               mret (match const_value with Some c => [(var, c)] | None => [] end)
             else mret []);
      rest ← collect vars';
      mret (eqs ++ rest)
  end.
Definition collectModelInfo : SM St (list (Node * Node)) :=
  vars ← bb_gets d_variables; collect vars.

End model.
End EagerBitblaster.

(** ** [EagerBitblastSolver] (without AIGs) *)
Module EagerBitblastSolver.
Section solver.
Context {G : Gmp} {TR : TheoryRewriters} (optProof : bool) (RF fuel : nat).
(** The SAT solver's answer for a set of clauses. *)
Context (sat_solve : list SatClause -> bool).

(** [d_bitblaster] is null until [initialize]. *)
Record state : Type := MkState {
  d_assertionSet : list Node;
  d_bitblaster : option (CnfStream * EagerBitblaster.state)
}.
Definition create : state := MkState [] None.

Definition initialize (s : state) : M state :=
  match d_bitblaster s with
  | Some _ => Throw AssertionFailed
  | None => Ok (MkState (d_assertionSet s) (Some (CnfStream_init, EagerBitblaster.init)))
  end.

Definition assertFormula (formula : Node) (s : state) : M state :=
  match d_bitblaster s with
  | None => Throw AssertionFailed
  | Some bb =>
      '(_, bb') ← EagerBitblaster.bbFormula optProof RF fuel formula bb;
      Ok (MkState (EagerBitblaster.set_insert formula (d_assertionSet s)) (Some bb'))
  end.

Definition checkSat (s : state) : M bool :=
  match d_bitblaster s with
  | None => Throw AssertionFailed
  | Some bb =>
      match d_assertionSet s with
      | [] => Ok true
      | _ => Ok (sat_solve (clauses (d_satSolver bb.1)))
      end
  end.

(** The loop over the formulas, which are eager atoms over the asserted ones. *)
Fixpoint all_asserted (formulas : list Node) (s : state) : M bool :=
  match formulas with
  | [] => Ok true
  | f :: formulas' =>
      _ ← check AssertionFailed (bool_decide (getKind f = BITVECTOR_EAGER_ATOM));
      formula ← child f 0;
      if bool_decide (formula ∈ d_assertionSet s) then all_asserted formulas' s else Ok false
  end.
Definition hasAssertions (formulas : list Node) (s : state) : M bool :=
  match d_bitblaster s with
  | None => Throw AssertionFailed
  | Some _ =>
      if negb (length formulas =? length (d_assertionSet s)) then Ok false else all_asserted formulas s
  end.

(** [EagerBitblastSolver::collectModelInfo]: [AlwaysAssert(!d_useAig && d_bitblaster)] *)
Definition collectModelInfo (sat_value : SatLiteral -> option bool) (isSharedTerm : Node -> bool) (s : state) : M (list (Node * Node)) :=
  match d_bitblaster s with
  | None => Throw AssertionFailed
  | Some bb => '(eqs, _) ← EagerBitblaster.collectModelInfo sat_value isSharedTerm bb; Ok eqs
  end.

(** [initialize], then [assertFormula] on each formula in order. *)
Fixpoint assertAll (fs : list Node) (s : state) : M state :=
  match fs with
  | [] => Ok s
  | f :: fs' => s' ← assertFormula f s; assertAll fs' s'
  end.
End solver.
End EagerBitblastSolver.
