(* ===== verification/PlainCircuits.v ===== *)
(** * The circuits of terms, without the caches

    The bits that the eager bit-blaster makes for a term do not depend on what it has cached: they are those of
    [plain], a bit-blaster that keeps no state and makes the bits of a subterm anew each time.  [circuit] is the bit
    formula of an atom.  The relation [psim] says that a computation with state, when it returns, returns
    what the stateless one does; the strategies of [BitblastStrategies] preserve it. *)

From S2P Require Import Prelude Integer BitVector Node BitblastUtils BitblastStrategies BitblastCorrect EagerBitblaster.
Local Open Scope nat_scope.

(** The number of nodes, as a tree. *)
Fixpoint node_size (n : Node) : nat :=
  match n with MkNode _ ch => S (sum_list_with node_size ch) | _ => 1 end.

Lemma node_size_pos n : 1 <= node_size n.
Proof. destruct n; cbn; lia. Qed.
Lemma node_size_in c ch : In c ch -> node_size c <= sum_list_with node_size ch.
Proof.
  induction ch as [|d ch IH]; [done |]. cbn. intros [->|H]; [lia |]. specialize (IH H). lia.
Qed.
Lemma node_size_child k ch c : In c ch -> node_size c < node_size (MkNode k ch).
Proof. intros Hc%node_size_in. cbn. lia. Qed.

Section plain.
Context {G : Gmp}.

(** The bits of a variable. *)
Definition bits_of (var : Node) : M (list Node) :=
  n ← getSizeN var; for_from n 0 (fun i bits => Ok (bits ++ [EagerBitblaster.mkBitOf var i])) [].

(** The guards of shifters stay as they are: an atom is a bit of its own. *)
Fixpoint plain (fuel : nat) : TBitblaster unit Node := {|
  bbTerm n := match fuel with 0 => lift (Throw OutOfFuel) | S f => d_termBBStrategies (plain f) (getKind n) n end;
  bbAtom _ := mret tt;
  getBBAtom := mret;
  storeBBTerm _ _ := mret tt;
  makeVariable var := lift (bits_of var)
|}.

(** The bits of a term and the bit formula of an atom. *)
Definition circ (n : Node) (bits : list Node) : Prop :=
  forall f, node_size n <= f -> bbTerm (plain f) n tt = Ok (bits, tt).
Definition circuit (a : Node) : M Node :=
  '(t, _) ← d_atomBBStrategies (plain (node_size a)) (getKind a) a tt; Ok t.

(** ** Computations that return what a stateless one does *)
Section sim.
Context {S : Type} (I : S -> Prop).
Definition psim {A} (m : SM S A) (p : SM unit A) : Prop :=
  forall s a s', I s -> m s = Ok (a, s') -> I s' /\ p tt = Ok (a, tt).

Lemma psim_ret {A} (a : A) : psim (mret a) (mret a).
Proof. by intros s b s' Hi [= <- <-]. Qed.
Lemma psim_lift {A} (m : M A) : psim (lift m) (lift m).
Proof. intros s a s' Hi H. unfold lift in *. destruct m; [| done]. by injection H as <- <-. Qed.
Lemma psim_bind {A B} (m : SM S A) (p : SM unit A) (f : A -> SM S B) (g : A -> SM unit B) :
  psim m p -> (forall a, p tt = Ok (a, tt) -> psim (f a) (g a)) -> psim (m ≫= f) (p ≫= g).
Proof.
  intros Hm Hf s b s' Hi H. unfold mbind, SM_bind in *. destruct (m s) as [[a s1]|] eqn:E; [| done].
  destruct (Hm _ _ _ Hi E) as [Hi1 Hp]. rewrite Hp. by eapply (Hf a Hp).
Qed.
Lemma psim_for {A} (f : nat -> A -> SM S A) (g : nat -> A -> SM unit A) n : forall i a,
  (forall k b, psim (f k b) (g k b)) -> psim (sfor n i f a) (sfor n i g a).
Proof.
  induction n as [|n IH]; intros i a Hf; [apply psim_ret |]. cbn [sfor]. apply psim_bind; [apply Hf |]. intros b _. by apply IH.
Qed.

Context (bb : TBitblaster S Node) (p : TBitblaster unit Node) (node : Node).
Hypothesis children_sim : forall c, In c (children node) -> psim (bbTerm bb c) (bbTerm p c).
Hypothesis guard_sim : shift_kind (getKind node) = true -> forall g, b_ult_a_size_node node = Ok g -> psim (_ ← bbAtom bb g; getBBAtom bb g) (_ ← bbAtom p g; getBBAtom p g).

Lemma lift_inv {A} (m : M A) (a : A) : lift m tt = Ok (a, tt) -> m = Ok a.
Proof. unfold lift. by destruct m; [intros [= ->] |]. Qed.
Lemma child_listed i c : child node i = Ok c -> In c (children node).
Proof. unfold child. destruct (children node !! i) eqn:E; [| done]. intros [= <-]. apply list_elem_of_In. by eapply list_elem_of_lookup_2. Qed.
Lemma psim_bbChild i : psim (bbChild bb node i) (bbChild p node i).
Proof. apply psim_bind; [apply psim_lift |]. intros c Hc%lift_inv%child_listed. by apply children_sim. Qed.
Lemma psim_shift_guard : shift_kind (getKind node) = true -> psim (shift_guard bb node) (shift_guard p node).
Proof. intros Hk. apply psim_bind; [apply psim_lift |]. intros g Hg%lift_inv. by apply guard_sim. Qed.

Ltac simulate := repeat first
  [ apply psim_lift | apply psim_ret | apply psim_bbChild
  | match goal with H : shift_kind _ = true -> psim _ _ |- _ => apply H; done end
  | apply psim_for; intros ? ? | apply psim_bind; [| intros ? ?]
  | match goal with H : lift (child node _) tt = Ok (?c, tt) |- psim (bbTerm bb ?c) _ => apply children_sim; by apply lift_inv, child_listed in H end ].

Lemma atom_psim : psim (d_atomBBStrategies bb (getKind node) node) (d_atomBBStrategies p (getKind node) node).
Proof.
  destruct (getKind node); cbn [d_atomBBStrategies]; try apply psim_lift;
    unfold DefaultEqBB, DefaultUltBB, DefaultUleBB, DefaultSltBB, DefaultSleBB; simulate.
Qed.

Lemma const_psim v : psim (d_termBBStrategies bb (getKind (ConstBV v)) (ConstBV v)) (d_termBBStrategies p (getKind (ConstBV v)) (ConstBV v)).
Proof. cbn [getKind d_termBBStrategies]. unfold DefaultConstBB. simulate. Qed.

(** The strategies of terms, those that also store the other half of a division apart. *)
Definition stores (k : Kind) : bool :=
  match k with BITVECTOR_UDIV_TOTAL | BITVECTOR_UREM_TOTAL => true | _ => false end.
Lemma term_psim : term_kind (getKind node) = true -> stores (getKind node) = false ->
  psim (d_termBBStrategies bb (getKind node) node) (d_termBBStrategies p (getKind node) node).
Proof.
  intros Hk Hs. pose proof psim_shift_guard as Hg. destruct (getKind node) eqn:K; try discriminate Hk; try discriminate Hs; cbn [d_termBBStrategies];
    unfold DefaultConcatBB, DefaultAndBB, DefaultOrBB, DefaultXorBB, nary_bitwise, DefaultNotBB, DefaultXnorBB, DefaultCompBB,
      DefaultMultBB, DefaultPlusBB, DefaultSubBB, DefaultNegBB, DefaultShlBB, DefaultLshrBB, DefaultAshrBB, DefaultUltbvBB,
      DefaultSltbvBB, DefaultIteBB, DefaultExtractBB, DefaultSignExtendBB; rewrite ?K; simulate.
Qed.

Hypothesis plain_store : forall n bits, storeBBTerm p n bits = mret tt.
Lemma store_tail {A} n bits (q : A) s a s' : (_ ← storeBBTerm bb n bits; mret q) s = Ok (a, s') -> a = q.
Proof. unfold mbind, SM_bind. destruct (storeBBTerm bb n bits s) as [[[] s1]|]; [| done]. by intros [= <-]. Qed.

(** A computation followed by one whose value the stateless one has too. *)
Lemma psim_then {A B} (m : SM S A) (m' : SM unit A) (f : A -> SM S B) (g : A -> SM unit B) s b s' :
  psim m m' -> I s -> (m ≫= f) s = Ok (b, s') ->
  (forall a s1, I s1 -> m' tt = Ok (a, tt) -> f a s1 = Ok (b, s') -> g a tt = Ok (b, tt)) -> (m' ≫= g) tt = Ok (b, tt).
Proof.
  intros Hm Hi H Hf. unfold mbind, SM_bind in *. destruct (m s) as [[a s1]|] eqn:E; [| done].
  destruct (Hm _ _ _ Hi E) as [Hi1 Hp]. rewrite Hp. by eapply Hf.
Qed.
Lemma divide_sim s bits s' : stores (getKind node) = true -> I s ->
  d_termBBStrategies bb (getKind node) node s = Ok (bits, s') -> d_termBBStrategies p (getKind node) node tt = Ok (bits, tt).
Proof.
  intros Hk Hi H. destruct (getKind node) eqn:K; try discriminate Hk; cbn [d_termBBStrategies] in *;
    unfold DefaultUdivBB, DefaultUremBB in *;
    do 3 (eapply psim_then; [simulate | exact Hi | exact H |]; clear s Hi H; intros ? s Hi _ H; cbv beta);
    (eapply psim_then; [simulate | exact Hi | exact H |]; clear s Hi H; intros [q r] s Hi _ H; cbv beta iota);
    do 2 (eapply psim_then; [simulate | exact Hi | exact H |]; clear s Hi H; intros ? s Hi _ H; cbv beta);
    rewrite plain_store; by rewrite (store_tail _ _ _ _ _ _ H).
Qed.

(** Every strategy: when it returns bits, they are those of the stateless bit-blaster. *)
Lemma term_sim s bits s' : term_kind (getKind node) = true -> I s ->
  d_termBBStrategies bb (getKind node) node s = Ok (bits, s') -> d_termBBStrategies p (getKind node) node tt = Ok (bits, tt).
Proof.
  intros Hk Hi H. destruct (stores (getKind node)) eqn:Hs; [by eapply divide_sim | by eapply term_psim].
Qed.
End sim.

(** The two halves of a division. *)
Lemma assertKind_run {S : Type} k ch (s : S) : assertKind (MkNode k ch) k s = Ok (tt, s).
Proof. unfold assertKind, sassert. by rewrite bool_decide_true. Qed.
Lemma circ_division k k' c0 c1 a b q r :
  stores k = true -> stores k' = true -> getSize (MkNode k' [c0; c1]) = getSize (MkNode k [c0; c1]) ->
  circ c0 a -> circ c1 b -> udivrem (MkNode k [c0; c1]) a b = Ok (q, r) ->
  circ (MkNode k' [c0; c1]) (if bool_decide (k' = BITVECTOR_UDIV_TOTAL) then q else r).
Proof.
  intros Hk Hk' Hsz Ha Hb Hqr f Hf. destruct f as [|f]; [cbn in Hf; lia |]. cbn in Hf. cbn [plain bbTerm getKind].
  specialize (Ha f ltac:(lia)). specialize (Hb f ltac:(lia)).
  assert (udivrem (MkNode k' [c0; c1]) a b = Ok (q, r)) as Hqr' by (unfold udivrem, getSizeN in *; by rewrite Hsz).
  assert (storeBBTerm (plain f) = fun _ _ => mret tt) as Hst by by destruct f.
  destruct k'; try discriminate Hk'; cbn [d_termBBStrategies];
    unfold DefaultUdivBB, DefaultUremBB, bbChild, mbind, SM_bind; cbn [lift child children lookup list_lookup];
    rewrite assertKind_run, Ha, Hb; unfold lift; by rewrite Hqr', Hst.
Qed.

(** The bits of a variable. *)
Lemma circ_var x t bits : bits_of (Var x t) = Ok bits -> circ (Var x t) bits.
Proof.
  intros H f Hf. destruct f as [|f]; [cbn in Hf; lia |]. cbn [plain bbTerm getKind d_termBBStrategies]. unfold DefaultVarBB.
  destruct f; cbn [plain makeVariable]; unfold lift; by rewrite H.
Qed.
End plain.
