(* ===== verification/EagerCorrect.v ===== *)
(** * Correctness of the eager bit-blaster

    The clauses the eager bit-blaster gives the SAT solver are satisfiable exactly
    if the asserted formulas have a bit-vector model.  One invariant serves both
    directions: it is stated for an assignment [al] of the SAT variables, values
    [mu] of the leaves and a bit-vector model [e], and says that under [Good]
    (either [mu] is read off [e], or [al] satisfies the clauses and agrees with
    [mu]) every cached bit and every bit-blasted atom has the value [e] gives it.

    The rewriter is that of [RewriterLoop]; what is used of it is the class
    [BitRewriters], which the tables of the program fulfil ([EagerSat]).  The atoms
    are in normal form, so the rewriter leaves them, and their circuits ([PlainCircuits])
    are small enough for the rewriter to return on them.  Termination of the bit-blaster
    is by the size of terms: twice the size of a formula's atoms is enough fuel. *)

From S2P Require Import Prelude Integer BitVector Node BitblastUtils BitblastStrategies BitblastCorrect.
From S2P Require Import CnfStream CnfCorrect BVRules RewriterLoop RewriterLoopCorrect BoolFormulas EagerBitblaster PlainCircuits.
Local Open Scope nat_scope.

(** ** What can be bit-blasted *)
Fixpoint blast_term (n : Node) : bool :=
  match n with
  | Var _ (BITVECTOR_TYPE _) | ConstBV _ => true
  | MkNode k ch => term_kind k && forallb blast_term ch
  | _ => false
  end.
Definition blast_atom (n : Node) : bool :=
  match n with MkNode k ch => atom_kind k && forallb blast_term ch | _ => false end.
Definition boolVar (n : Node) : bool :=
  match n with Var _ BOOLEAN_TYPE => true | _ => false end.
(** A bit of a variable. *)
Definition isBitOf (n : Node) : bool :=
  match n with
  | MkNode (BITVECTOR_BITOF i) [Var _ (BITVECTOR_TYPE m)] => (0 <=? i)%Z && (i <? m)%Z
  | _ => false
  end.
Definition bitOf_in (vars : list Node) (n : Node) : Prop :=
  isBitOf n = true /\ forall v, children n = [v] -> v ∈ vars.

Section fragment.
Context {G : Gmp} {TR : TheoryRewriters} (optProof : bool).

(** The atoms that guard the shifters below a term. *)
Fixpoint guards (n : Node) : list Node :=
  match n with
  | MkNode k ch =>
      (if shift_kind k then match b_ult_a_size_node n with Ok g => [g] | Throw _ => [] end else []) ++
      concat (map guards ch)
  | _ => []
  end.

(** Below the number of children a node can have. *)
Definition small (n : Node) : bool := (Z.of_nat (brank n) <? MAX_CHILDREN)%Z.
(** The circuit is small enough to be rewritten, which is skipped with proofs. *)
Definition circuit_fits (a : Node) : bool :=
  optProof || match circuit a with Ok t => small t | Throw _ => false end.
(** An atom in normal form with such a circuit. *)
Definition ready_atom (a : Node) : bool := stable a && small a && circuit_fits a.

(** The terms and atoms of the fragment. *)
Definition gterm (n : Node) : bool := blast_term n && forallb ready_atom (guards n).
Definition gatom (a : Node) : bool := blast_atom a && forallb ready_atom (a :: guards a).
Definition atomlike (n : Node) : bool := gatom n || isConstBool n.

(** The bits of terms: Boolean formulas over bits of the variables [vars], and over atoms
    (the guards of shifters) of size below [R]. *)
Definition bit_leaf (vars : list Node) (R : nat) (a : Node) : Prop :=
  isConstBool a = true \/ boolVar a = true \/ bitOf_in vars a \/ (gatom a = true /\ node_size a < R).
Definition bitform (vars : list Node) (R : nat) (t : Node) : Prop :=
  bform t = true /\ forall a, In a (leaves t) -> bit_leaf vars R a.

(** The formulas that are asserted: Boolean structure over these leaves. *)
Definition formula_leaf (a : Node) : bool := isConstBool a || boolVar a || gatom a.

Lemma bit_leaf_mono vars vars' R R' a : (forall v, v ∈ vars -> v ∈ vars') -> R <= R' -> bit_leaf vars R a -> bit_leaf vars' R' a.
Proof.
  intros Hv HR [H|[H|[[H1 H2]|[H1 H2]]]]; [by left | by right; left | |].
  - right. right. left. split; [done |]. intros v Hc. by apply Hv, H2.
  - do 3 right. split; [done | lia].
Qed.

Lemma atomlike_cases a : atomlike a = true <-> gatom a = true \/ isConstBool a = true.
Proof. apply orb_true_iff. Qed.
Lemma gatom_kind a : gatom a = true -> exists k ch, a = MkNode k ch /\ atom_kind k = true /\ Forall (fun c => gterm c = true) ch /\ ready_atom a = true.
Proof.
  destruct a as [| | |k ch]; try done. intros [Hb Hr]%andb_true_iff. cbn [blast_atom] in Hb. apply andb_true_iff in Hb as [Hk Hch].
  cbn [forallb] in Hr. apply andb_true_iff in Hr as [Hr Hg]. exists k, ch. do 2 (split; [done |]). split; [| done].
  rewrite Forall_forall. intros c Hc%list_elem_of_In. rewrite forallb_forall in *. apply andb_true_iff. split; [by apply Hch |].
  rewrite forallb_forall. intros g Hg'. apply Hg. cbn [guards]. apply in_or_app. right. apply in_concat. exists (guards c). split; [by apply in_map | done].
Qed.
Lemma gterm_kind k ch : gterm (MkNode k ch) = true -> term_kind k = true /\ Forall (fun c => gterm c = true) ch.
Proof.
  intros [Hb Hg]%andb_true_iff. cbn [blast_term] in Hb. apply andb_true_iff in Hb as [Hk Hch]. split; [done |].
  rewrite Forall_forall. intros c Hc%list_elem_of_In. rewrite forallb_forall in *. apply andb_true_iff. split; [by apply Hch |].
  rewrite forallb_forall. intros g Hg'. apply Hg. cbn [guards]. apply in_or_app. right. apply in_concat. exists (guards c). split; [by apply in_map | done].
Qed.
(** The guard of a shift is in the fragment. *)
Lemma gterm_guard k c0 c1 g : shift_kind k = true -> gterm (MkNode k [c0; c1]) = true ->
  b_ult_a_size_node (MkNode k [c0; c1]) = Ok g -> gatom g = true /\ node_size g <= node_size (MkNode k [c0; c1]).
Proof.
  intros Hk Hg Hb. pose proof Hg as [_ Hch]%gterm_kind. apply Forall_cons in Hch as [_ Hch]. apply Forall_cons in Hch as [[Hc1 Hc1g]%andb_true_iff _].
  apply andb_true_iff in Hg as [_ Hg]. cbn [guards] in Hg. rewrite Hk, Hb in Hg. cbn [app forallb] in Hg. apply andb_true_iff in Hg as [Hg _].
  unfold b_ult_a_size_node in Hb. apply M_bind_inv in Hb as (m & _ & Hb). cbn in Hb. injection Hb as <-. split.
  - apply andb_true_iff. split; [cbn; by rewrite Hc1 |]. cbn [forallb]. rewrite Hg. cbn [guards shift_kind app map concat]. by rewrite !app_nil_r.
  - pose proof (node_size_pos c0). cbn. lia.
Qed.
End fragment.

(** ** What the bit-blaster uses of the rewriter *)
(** The contract of [RewriterLoopCorrect] on formulas over atoms in normal form; constants and bits are in normal form. *)
Class BitRewriters (TR : TheoryRewriters) : Prop := {
  bit_contract : RewritersSpec (ndom normal_atom) brank (keeps normal_atom) TR;
  stable_const b : stable (ConstBool b) = true;
  stable_bit x m i : (1 <= m < 2 ^ 32)%Z -> (0 <= i < m)%Z -> stable (MkNode (BITVECTOR_BITOF i) [Var x (BITVECTOR_TYPE m)]) = true
}.
#[export] Existing Instance bit_contract.

(** Fuel for the rewriter on everything [small]. *)
Definition eager_fuel : nat := 2 * rewrite_fuel (Z.to_nat MAX_CHILDREN).
Lemma rewrite_fuel_mono n m : n <= m -> rewrite_fuel n <= rewrite_fuel m.
Proof. induction 1 as [|m _ IH]; [done |]. cbn [rewrite_fuel]. nia. Qed.
Lemma eager_fuel_small n : small n = true -> 2 * rewrite_fuel (S (brank n)) <= eager_fuel.
Proof.
  intros Hn%Z.ltb_lt. unfold eager_fuel. apply Nat.mul_le_mono_l, rewrite_fuel_mono. apply Nat2Z.inj_le. rewrite Z2Nat.id by done. lia.
Qed.

(** ** The Boolean structure and evaluation *)
Lemma Forall2_bools e ch bs :
  Forall2 (fun c w => eval e c = Some w) ch (map VBool bs) ->
  Forall2 (fun c x => eval e c = Some (VBool x)) ch bs.
Proof. by rewrite Forall2_fmap_r. Qed.

(** A structured node evaluates by its Boolean structure. *)
Lemma structured_eval e k ch b :
  structured (MkNode k ch) = true -> eval e (MkNode k ch) = Some (VBool b) ->
  exists bs, Forall2 (fun c x => eval e c = Some (VBool x)) ch bs /\
    forall mu, map (peval mu) ch = bs -> peval mu (MkNode k ch) = b.
Proof.
  intros Hs (_ & vs & Hvs & Hk)%eval_MkNode. destruct k; try discriminate Hs; cbn in Hk.
  - cbn in Hs. destruct (child0_boolean ch) as [[]|] eqn:E; try done.
    destruct vs as [|v [|w [|]]]; try done. destruct (same_type v w) eqn:Et; [| done].
    apply same_type_spec in Et. injection Hk as <-.
    apply Forall2_two in Hvs as (c0 & c1 & -> & H0 & H1).
    unfold child0_boolean in E. cbn in E. rewrite (eval_getType false e c0 _ H0) in E. cbn in E.
    destruct v as [x|]; [| done]. destruct w as [y|]; [| done].
    exists [x; y]. split; [by repeat constructor |]. intros mu Hm. cbn [peval]. rewrite Hm.
    unfold child0_boolean. cbn. rewrite (eval_getType false e c0 _ H0). cbn.
    destruct x, y; cbn; symmetry; (by rewrite bool_decide_true) || (by rewrite bool_decide_false).
  - destruct vs as [|[x|] [|]]; try done. injection Hk as <-. apply (Forall2_bools e ch [x]) in Hvs.
    exists [x]. split; [done |]. intros mu Hm. cbn. by rewrite Hm.
  - apply bind_Some in Hk as (bs & ->%as_bools_Some & [= <-]). exists bs.
    split; [by apply Forall2_bools |]. intros mu Hm. cbn. by rewrite Hm.
  - apply bind_Some in Hk as (bs & ->%as_bools_Some & [= <-]). exists bs.
    split; [by apply Forall2_bools |]. intros mu Hm. cbn. by rewrite Hm.
  - destruct vs as [|[x|] [|[y|] [|]]]; try done. injection Hk as <-. apply (Forall2_bools e ch [x; y]) in Hvs.
    exists [x; y]. split; [done |]. intros mu Hm. cbn. by rewrite Hm.
  - destruct vs as [|[x|] [|[y|] [|]]]; try done. injection Hk as <-. apply (Forall2_bools e ch [x; y]) in Hvs.
    exists [x; y]. split; [done |]. intros mu Hm. cbn. by rewrite Hm.
  - destruct vs as [|[c|] [|v [|w [|]]]]; try done. destruct (same_type v w) eqn:Et; [| done].
    apply same_type_spec in Et. destruct v as [x|], w as [y|]; try done; destruct c; try done;
      injection Hk as <-;
      (exists [true; x; y] + exists [false; x; y]);
      (split; [by apply (Forall2_bools e ch [_; x; y]) | intros mu Hm; cbn; by rewrite Hm]).
Qed.

Lemma Forall2_map_peval (mu : Node -> bool) e ch bs :
  Forall2 (fun c x => eval e c = Some (VBool x)) ch bs ->
  Forall (fun c => forall b, eval e c = Some (VBool b) -> peval mu c = b) ch ->
  map (peval mu) ch = bs.
Proof.
  induction 1 as [|c x ch bs Hc _ IH]; [done |]. intros [Hp Hps]%Forall_cons. cbn. by rewrite (Hp x Hc), IH.
Qed.

Lemma in_leaves_child a c ch : In c ch -> In a (leaves c) -> In a (concat (map leaves ch)).
Proof. intros Hc Ha. apply in_concat. exists (leaves c). split; [by apply in_map | done]. Qed.

Lemma leaf_structured a t : In a (leaves t) -> structured a = false.
Proof.
  induction t as [x t|d|v|k ch IH] using node_ind'; intros Ha.
  1-3: by destruct Ha as [<-|[]].
  destruct (structured (MkNode k ch)) eqn:Hs.
  - rewrite leaves_structured in Ha by done. apply in_concat in Ha as (l & Hl & Ha).
    apply in_map_iff in Hl as (c & <- & Hc). rewrite Forall_forall in IH.
    apply (IH c); [by apply list_elem_of_In | done].
  - rewrite leaves_leaf in Ha by done. by destruct Ha as [<-|[]].
Qed.

(** Leaves of a formula that has a value have values. *)
Lemma leaves_eval e t b a :
  eval e t = Some (VBool b) -> In a (leaves t) -> exists c, eval e a = Some (VBool c).
Proof.
  revert b. induction t as [x t|d|v|k ch IH] using node_ind'; intros b Hev Ha.
  1-3: destruct Ha as [<-|[]]; eauto.
  destruct (structured (MkNode k ch)) eqn:Hs.
  - rewrite leaves_structured in Ha by done. apply in_concat in Ha as (l & Hl & Ha).
    apply in_map_iff in Hl as (c & <- & Hc). destruct (structured_eval e k ch b Hs Hev) as (bs & Hbs & _).
    apply list_elem_of_In in Hc. apply list_elem_of_lookup in Hc as [i Hi].
    destruct (Forall2_lookup_l _ _ _ _ _ Hbs Hi) as (x & _ & Hx).
    eapply (Forall_lookup_1 _ _ _ _ IH Hi); eauto.
  - rewrite leaves_leaf in Ha by done. destruct Ha as [<-|[]]. eauto.
Qed.

(** If the leaves have the values [e] gives them, so has the formula. *)
Lemma peval_eval mu e t b :
  (forall a c, In a (leaves t) -> isConstBool a = false -> eval e a = Some (VBool c) -> mu a = c) ->
  eval e t = Some (VBool b) -> peval mu t = b.
Proof.
  revert b. induction t as [x t|d|v|k ch IH] using node_ind'; intros b Hmu Hev.
  - apply Hmu; [by left | done | done].
  - by injection Hev as <-.
  - apply Hmu; [by left | done | done].
  - destruct (structured (MkNode k ch)) eqn:Hs.
    + destruct (structured_eval e k ch b Hs Hev) as (bs & Hbs & Hp). apply Hp.
      apply (Forall2_map_peval mu e ch bs Hbs). apply Forall_forall. intros c Hc x Hx.
      rewrite Forall_forall in IH. apply (IH c Hc); [| done]. intros a y Ha. apply Hmu.
      rewrite leaves_structured by done. eapply in_leaves_child; [| done]. by apply list_elem_of_In.
    + rewrite peval_leaf by done. apply Hmu; [rewrite leaves_leaf by done; by left | done | done].
Qed.

(** ** Formulas for the rewriter and for the CNF stream *)
Section formulas.
Context {TR : TheoryRewriters}.

Lemma structured_connective k ch : structured (MkNode k ch) = true -> connective_kind_b k = true.
Proof. by destruct k. Qed.
Lemma connective_structured k ch : connective_kind_b k = true -> bformula normal_atom (MkNode k ch) = true -> structured (MkNode k ch) = true.
Proof.
  intros Hk [Ha Hch]%bformula_node; [| done]. destruct k; try done. destruct ch as [|c ch]; [done |]. apply Forall_cons in Hch as [Hc _].
  cbn. unfold child0_boolean. cbn. by rewrite (bformula_type normal_atom normal_atom_value c Hc).
Qed.
(** The leaves the stream sees are the theory atoms, variables and constants. *)
Lemma bformula_leaves n : bformula normal_atom n = true ->
  bform n = true /\ (forall a, In a (leaves n) -> isConstBool a = true \/ boolVar a = true \/ a ∈ formula_atoms n) /\
  (forall a, a ∈ formula_atoms n -> In a (leaves n)).
Proof.
  induction n as [x t|b|v|k ch IH] using node_ind'; intros Hn; try done.
  - destruct t; try done. split; [done |]. split; [intros a [<-|[]]; by right; left | intros a Ha; by apply elem_of_nil in Ha].
  - split; [done |]. split; [intros a [<-|[]]; by left | intros a Ha; by apply elem_of_nil in Ha].
  - destruct (connective_kind_b k) eqn:Hk.
    + pose proof (connective_structured k ch Hk Hn) as Hs. apply bformula_node in Hn as [Ha Hch]; [| done].
      rewrite leaves_structured by done. rewrite Forall_forall in IH, Hch. split; [| split].
      * change (bform (MkNode k ch)) with
          (if structured (MkNode k ch) then arity_ok k (length ch) && forallb bform ch
           else match k with EQUAL => isOk (child0_boolean ch) | _ => true end).
        rewrite Hs, Ha. apply forallb_forall. intros c Hc%list_elem_of_In. by apply IH, Hch.
      * intros a (l & (c & <- & Hc)%in_map_iff & Hal)%in_concat. apply list_elem_of_In in Hc.
        destruct (IH c Hc (Hch c Hc)) as (_ & H1 & _). destruct (H1 a Hal) as [?|[?|?]]; [by left | by right; left |].
        right. right. by eapply atoms_child.
      * intros a (c & Hc & Hac)%atoms_inv; [| done]. eapply in_leaves_child; [by apply list_elem_of_In | by apply IH; [| apply Hch |]].
    + assert (structured (MkNode k ch) = false) as Hs by (destruct (structured (MkNode k ch)) eqn:E; [apply structured_connective in E; congruence | done]).
      rewrite leaves_leaf by done. cbn [formula_atoms]. rewrite Hk. split; [| split].
      * cbn [bform]. rewrite Hs. by destruct k.
      * intros a [<-|[]]. right. right. by apply list_elem_of_singleton.
      * intros a ->%list_elem_of_singleton. by left.
Qed.
End formulas.

Section eager_ok.
Context {G : Gmp} {HG : GmpSpec G} {TR : TheoryRewriters} {HR : BitRewriters TR}.
Context (optProof : bool) (RF : nat).
Hypothesis HRF : eager_fuel <= RF.
Context (al : Z -> bool) (mu : Node -> bool) (e : env).
Abbreviation St := EagerBitblaster.St.
Abbreviation bitform := (bitform optProof).
Abbreviation bit_leaf := (bit_leaf optProof).
Abbreviation gatom := (gatom optProof).
Abbreviation gterm := (gterm optProof).
Abbreviation atomlike := (atomlike optProof).
Abbreviation vars st := (EagerBitblaster.d_variables (snd st)).

(** [mu] gives the bits of variables and the Boolean variables their values. *)
Hypothesis mu_bits : forall x n i, (0 <= i < n)%Z ->
  mu (MkNode (BITVECTOR_BITOF i) [Var x (BITVECTOR_TYPE n)]) = Z.testbit (e_bv e x n) i.
Hypothesis mu_bool : forall x, mu (Var x BOOLEAN_TYPE) = e_bool e x.

(** If [Induced], [mu] is the valuation of the leaves that [e] induces. *)
Context (Induced : Prop).
Hypothesis Induced_mu : Induced -> forall a b, structured a = false -> isConstBool a = false ->
  eval e a = Some (VBool b) -> mu a = b.
Definition Good (s : CnfStream) : Prop := Induced \/ (sat al s /\ Agree al mu s).

Lemma grow_Good s s' : grow s s' -> Good s' -> Good s.
Proof. intros Hg [H|[H1 H2]]; [by left | right; split; [by eapply grow_sat | by eapply grow_Agree]]. Qed.

(** ** Bits *)
Definition D (R : nat) (st : St) (t : Node) (b : bool) : Prop :=
  eval e t = Some (VBool b) /\ bitform (vars st) R t /\ bformula normal_atom t = true /\ (Good st.1 -> peval mu t = b).

Lemma D_node R st k ch bs b :
  structured (MkNode k ch) = true -> arity_ok k (length ch) = true ->
  Forall2 (D R st) ch bs -> eval e (MkNode k ch) = Some (VBool b) -> D R st (MkNode k ch) b.
Proof.
  intros Hs Ha Hch Hev. destruct (structured_eval e k ch b Hs Hev) as (bs' & Hbs & Hp).
  split; [done |]. split; [split | split].
  - change (bform (MkNode k ch)) with
      (if structured (MkNode k ch) then arity_ok k (length ch) && forallb bform ch
       else match k with EQUAL => isOk (child0_boolean ch) | _ => true end).
    rewrite Hs, Ha. apply forallb_forall. intros c Hc. apply list_elem_of_In, list_elem_of_lookup in Hc as [i Hi].
    destruct (Forall2_lookup_l _ _ _ _ _ Hch Hi) as (x & _ & _ & [Hb _] & _). done.
  - intros a. rewrite leaves_structured by done. intros (l & Hl & Ha')%in_concat.
    apply in_map_iff in Hl as (c & <- & Hc). apply list_elem_of_In, list_elem_of_lookup in Hc as [i Hi].
    destruct (Forall2_lookup_l _ _ _ _ _ Hch Hi) as (x & _ & _ & [_ Hb] & _). by apply Hb.
  - apply bformula_node; [by eapply structured_connective |]. split; [done |]. apply Forall_forall. intros c Hc.
    apply list_elem_of_lookup in Hc as [i Hi]. by destruct (Forall2_lookup_l _ _ _ _ _ Hch Hi) as (x & _ & _ & _ & Hb & _).
  - intros HG0. apply Hp. apply (Forall2_map_peval mu e ch bs' Hbs).
    apply Forall_forall. intros c Hc x Hx. apply list_elem_of_lookup in Hc as [i Hi].
    destruct (Forall2_lookup_l _ _ _ _ _ Hch Hi) as (y & _ & Hy & _ & _ & Hpy). rewrite Hx in Hy.
    injection Hy as ->. by apply Hpy.
Qed.

(** The stream has grown, and the set of variables. *)
Definition sub (st st' : St) : Prop := grow st.1 st'.1 /\ forall v, v ∈ vars st -> v ∈ vars st'.
#[local] Instance sub_preorder : PreOrder sub.
Proof. split; [by intros st |]. intros x y z [g1 v1] [g2 v2]. split; [by etrans | auto]. Qed.

Lemma D_mono R R' st st' t b : R <= R' -> sub st st' -> D R st t b -> D R' st' t b.
Proof.
  intros HRR [Hg Hv] (H1 & [Hb Hl] & H2 & H3). split; [done |]. split; [split; [done |] | split; [done |]].
  - intros a Ha. by eapply bit_leaf_mono; [exact Hv | exact HRR | apply Hl].
  - intros HG0. apply H3. by eapply grow_Good.
Qed.

Lemma eval_bool_type t b : eval e t = Some (VBool b) -> getType false t = Ok BOOLEAN_TYPE.
Proof. apply (eval_getType false). Qed.

Ltac forall2_tac := repeat (apply List.Forall2_cons; [assumption |]); (assumption || apply List.Forall2_nil).

#[local] Instance D_den R st : BitDen NodeBits (D R st).
Proof.
  split.
  - split; [done |]. split; [| done]. split; [done |]. intros a [<-|[]]. by left.
  - split; [done |]. split; [| done]. split; [done |]. intros a [<-|[]]. by left.
  - intros a x Ha. apply (D_node R st NOT [a] [x]); [done | done | forall2_tac |].
    cbn. rewrite (proj1 Ha). done.
  - intros a b x y Ha Hb. apply (D_node R st AND [a; b] [x; y]); [done | done | forall2_tac |].
    cbn. rewrite (proj1 Ha), (proj1 Hb). cbn. by rewrite andb_true_r.
  - intros a b x y Ha Hb. apply (D_node R st OR [a; b] [x; y]); [done | done | forall2_tac |].
    cbn. rewrite (proj1 Ha), (proj1 Hb). cbn. by rewrite orb_false_r.
  - intros a b x y Ha Hb. apply (D_node R st XOR [a; b] [x; y]); [done | done | forall2_tac |].
    cbn. rewrite (proj1 Ha), (proj1 Hb). done.
  - intros a b x y Ha Hb. apply (D_node R st EQUAL [a; b] [x; y]); [| done | forall2_tac |].
    + cbn. unfold child0_boolean. cbn. by rewrite (eval_bool_type a x (proj1 Ha)).
    + cbn. rewrite (proj1 Ha), (proj1 Hb). cbn.
      destruct x, y; (by rewrite bool_decide_true) || (by rewrite bool_decide_false).
  - intros c a b z x y Hc Ha Hb. apply (D_node R st ITE [c; a; b] [z; x; y]); [done | done | forall2_tac |].
    cbn. rewrite (proj1 Hc), (proj1 Ha), (proj1 Hb). by destruct z.
  - intros l bs Hl H. destruct H as [|a x l bs Ha H]; [done |]. destruct H as [|c y l bs Hc H].
    + exists a. cbn. by rewrite andb_true_r.
    + eexists. split; [done |]. apply (D_node R st AND (a :: c :: l) (x :: y :: bs)); [done | done | forall2_tac |].
      apply eval_MkNode. split; [done |]. exists (map VBool (x :: y :: bs)). split.
      * apply Forall2_fmap_r. apply List.Forall2_cons; [apply Ha |]. apply List.Forall2_cons; [apply Hc |].
        eapply Forall2_impl; [exact H |]. by intros t b [Ht _].
      * cbn [eval_kind]. apply bind_Some. exists (x :: y :: bs). by rewrite as_bools_Some.
  - intros a b x y Hab Ha Hb. apply node_eqb_eq in Hab as ->. destruct Ha as [Ha _], Hb as [Hb _]. congruence.
Qed.

(** ** The client of the stream *)
Definition isBitOfKind (n : Node) : bool := match getKind n with BITVECTOR_BITOF _ => true | _ => false end.
Definition reg (c : EagerBitblaster.state) (n : Node) : Prop :=
  bitOf_in (EagerBitblaster.d_variables c) n \/ n ∈ EagerBitblaster.d_bbAtoms c.

(** An atom's literal has the atom's value. *)
Definition OK (s : CnfStream) (a : Node) : Prop :=
  Good s -> forall b, eval e a = Some (VBool b) -> peval mu a = b.

Abbreviation bvd R := (bvd (D R)).

(** The bits of a variable are its [BITOF] terms. *)
Definition var_bits (n : Node) (bits : list Node) : Prop :=
  match n with
  | Var _ (BITVECTOR_TYPE m) => forall i t, bits !! i = Some t -> t = EagerBitblaster.mkBitOf n i
  | _ => True
  end.

Record CI (st : St) : Prop := {
  ci_cache n bits : assoc n (EagerBitblaster.d_termCache st.2) = Some bits ->
    var_bits n bits /\ circ n bits /\ forall x, eval e n = Some (VBV x) -> bvd (S (node_size n)) st bits x;
  ci_rewriter : ready (ndom normal_atom) brank (keeps normal_atom) (EagerBitblaster.s_rewriter st.2);
  ci_vars v : v ∈ vars st -> exists x m, v = Var x (BITVECTOR_TYPE m) /\ (1 <= m < 2 ^ 32)%Z /\
    assoc v (EagerBitblaster.d_termCache st.2) <> None;
  ci_atoms a : a ∈ EagerBitblaster.d_bbAtoms st.2 -> isBitOfKind a = false
}.

Definition cext (st st' : St) : Prop :=
  sub st st' /\
  (forall a, a ∈ EagerBitblaster.d_bbAtoms st.2 -> a ∈ EagerBitblaster.d_bbAtoms st'.2) /\
  (forall a, a ∈ EagerBitblaster.d_bbAtoms st'.2 -> a ∉ EagerBitblaster.d_bbAtoms st.2 -> OK st'.1 a).

Lemma OK_grow s s' a : grow s s' -> OK s a -> OK s' a.
Proof. intros Hg H HG0. apply H. by eapply grow_Good. Qed.

#[local] Instance cext_preorder : PreOrder cext.
Proof.
  split.
  - intros st. split; [reflexivity |]. split; [done |]. intros a Ha Hn. by destruct Hn.
  - intros x y z (g1 & b1 & n1) (g2 & b2 & n2). split; [by etrans |]. split; [auto |].
    intros a Ha Hn. destruct (decide (a ∈ EagerBitblaster.d_bbAtoms y.2)) as [Hy|Hy]; [| by apply n2].
    eapply OK_grow; [exact (proj1 g2) |]. by apply n1.
Qed.

Lemma cext_grow s s' c : grow s s' -> cext (s, c) (s', c).
Proof. intros Hg. split; [by split |]. split; [done |]. cbn. intros a Ha Hn. by destruct Hn. Qed.

Lemma reg_mono st st' a : cext st st' -> reg st.2 a -> reg st'.2 a.
Proof.
  intros ([_ Hv] & H & _) [[Hb Hc]|?]; [left | right; auto]. split; [done |]. intros v Hch. by apply Hv, Hc.
Qed.

Lemma bvd_mono' R R' st st' bits x : R <= R' -> sub st st' -> bvd R st bits x -> bvd R' st' bits x.
Proof.
  intros HRR Hg [H1 [H2 H3]]. split; [done |]. split; [done |]. intros i t Hi.
  eapply D_mono; [exact HRR | exact Hg | by apply H3].
Qed.

Lemma CI_grow s s' c : grow s s' -> CI (s, c) -> CI (s', c).
Proof.
  intros Hg [H1 H2 H3 H4]. split; [| done ..]. intros n bits Hn. destruct (H1 n bits Hn) as (Hv & Hc & Hb). do 2 (split; [done |]).
  intros x Hx. eapply bvd_mono'; [reflexivity | | by apply Hb]. by split.
Qed.

(** Below size [R], translated atoms are bit-blasted, and rightly so. *)
Definition Below (R : nat) (st : St) : Prop :=
  (forall n, theoryLeaf n = true -> node_size n < R -> lookupLiteral st.1 n <> None -> reg st.2 n) /\
  (forall a, a ∈ EagerBitblaster.d_bbAtoms st.2 -> node_size a < R -> OK st.1 a).

Abbreviation Inv := (Inv al mu CI).
Abbreviation ext := (ext al mu Induced reg cext).
#[local] Instance ext_preorder' : PreOrder ext := ext_preorder al mu Induced reg cext reg_mono.

Lemma ext_sub st st' : ext st st' -> sub st st'.
Proof. intros [_ _ _ (H & _)]. exact H. Qed.

Lemma Below_ext R st st' : ext st st' -> Below R st -> Below R st'.
Proof.
  intros [g d nw c] [H1 H2]. split.
  - intros n Hn Hr Hl. destruct (lookupLiteral st.1 n) eqn:E; [| by apply nw].
    eapply reg_mono; [exact c |]. apply H1; [done | done | congruence].
  - destruct c as (_ & c1 & c2). intros a Ha Hr. destruct (decide (a ∈ EagerBitblaster.d_bbAtoms st.2)) as [Hy|Hy]; [| by apply c2].
    eapply OK_grow; [exact g |]. auto.
Qed.

Lemma Below_le R R' st : R' <= R -> Below R st -> Below R' st.
Proof. intros HRR [H1 H2]. split; intros; [apply H1 | apply H2]; try done; lia. Qed.

(** ** From the stream's invariant to the one of the strategies and back *)
Definition InvR (R : nat) (st : St) : Prop := Inv st /\ Below R st.

Lemma wp_InvR {A} R (m : SM St A) Q st : Below R st -> wp Inv ext m Q st -> wp (InvR R) ext m Q st.
Proof.
  intros Hb (st' & a & E & Hi & He & HQ). exists st', a. split; [done |]. split; [| done].
  split; [done | by eapply Below_ext].
Qed.

Lemma wp_Inv {A} R (m : SM St A) Q st : wp (InvR R) ext m Q st -> wp Inv ext m Q st.
Proof. intros (st' & a & E & [Hi _] & He & HQ). by exists st', a. Qed.

(** What a run is known to have established. *)
Lemma wp_run {A} R (m : SM St A) Q st a st' : wp (InvR R) ext m Q st -> m st = Ok (a, st') -> InvR R st' /\ Q st' a.
Proof. intros (st1 & a1 & E & Hi & _ & HQ) E'. rewrite E in E'. by injection E' as <- <-. Qed.

Lemma D_ext R st st' t b : ext st st' -> D R st t b -> D R st' t b.
Proof. intros He. apply D_mono; [done | by apply ext_sub]. Qed.

(** Changing only the caches or the variables of the bit-blaster. *)
Lemma ext_client s c c' :
  EagerBitblaster.d_bbAtoms c' = EagerBitblaster.d_bbAtoms c ->
  (forall v, v ∈ EagerBitblaster.d_variables c -> v ∈ EagerBitblaster.d_variables c') -> ext (s, c) (s, c').
Proof.
  intros Eq Hv. split; cbn; [reflexivity | done | congruence |]. split; [by split |]. cbn. rewrite Eq.
  split; [done |]. intros a Ha Hn. by destruct Hn.
Qed.

(** Storing bits, where the rest of the client may change its set of variables by [n]. *)
Lemma store_client n bits x s c vs :
  CI (s, c) -> eval e n = Some (VBV x) -> var_bits n bits -> circ n bits ->
  (forall v, v ∈ EagerBitblaster.d_variables c -> v ∈ vs) ->
  (forall v, v ∈ vs -> v ∈ EagerBitblaster.d_variables c \/ (v = n /\ exists y m, n = Var y (BITVECTOR_TYPE m) /\ (1 <= m < 2 ^ 32)%Z)) ->
  let c' := EagerBitblaster.MkState (EagerBitblaster.d_termCache c) (EagerBitblaster.d_bbAtoms c) vs (EagerBitblaster.s_rewriter c) in
  bvd (S (node_size n)) (s, c') bits x ->
  CI (s, EagerBitblaster.cache_insert n bits c') /\ ext (s, c) (s, EagerBitblaster.cache_insert n bits c').
Proof.
  intros [H1 H2 H3 H4] Hev Hvb Hcirc Hsub Hvs c' Hb. unfold EagerBitblaster.cache_insert.
  change (EagerBitblaster.d_termCache c') with (EagerBitblaster.d_termCache c).
  assert (forall vs', sub (s, c) (s, EagerBitblaster.MkState vs' (EagerBitblaster.d_bbAtoms c) vs (EagerBitblaster.s_rewriter c))) as Hs by by split.
  destruct (assoc n (EagerBitblaster.d_termCache c)) eqn:E; (split; [split; cbn [snd EagerBitblaster.d_termCache EagerBitblaster.d_variables EagerBitblaster.s_rewriter EagerBitblaster.d_bbAtoms] |]); try done;
    try by apply ext_client.
  - intros m bs Hm. destruct (H1 m bs Hm) as (? & ? & Hd). do 2 (split; [done |]). intros y Hy.
    eapply bvd_mono'; [reflexivity | apply Hs | by apply Hd].
  - intros v Hv. destruct (Hvs v Hv) as [Hin|[-> (y & m & -> & Hm)]]; [by apply H3 |]. exists y, m. cbn in *. by rewrite E.
  - intros m bs. rewrite assoc_app. destruct (assoc m (EagerBitblaster.d_termCache c)) eqn:Em.
    + intros [= <-]. destruct (H1 m _ Em) as (? & ? & Hd). do 2 (split; [done |]). intros y Hy.
      eapply bvd_mono'; [reflexivity | apply Hs | by apply Hd].
    + cbn. case_decide; [subst m | done]. intros [= <-]. do 2 (split; [done |]). intros y Hy.
      rewrite Hev in Hy. by injection Hy as <-.
  - intros v Hv. destruct (Hvs v Hv) as [Hin|[-> (y & m & -> & Hm)]].
    + destruct (H3 v Hin) as (y & m & -> & Hm & Ha). exists y, m. do 2 (split; [done |]). rewrite assoc_app. destruct (assoc (Var y (BITVECTOR_TYPE m)) (EagerBitblaster.d_termCache c)) eqn:E2; [done | by destruct Ha].
    + exists y, m. do 2 (split; [done |]). rewrite assoc_app. destruct (assoc _ _); [done |]. cbn. by rewrite decide_True.
Qed.

Lemma store_wp n bits x st :
  Inv st -> eval e n = Some (VBV x) -> var_bits n bits -> circ n bits -> bvd (S (node_size n)) st bits x ->
  wp Inv ext (EagerBitblaster.storeBBTerm n bits) (fun _ _ => True) st.
Proof.
  destruct st as [s c]. intros (Hwf & Hsd & HCI) Hev Hvb Hcirc Hb.
  destruct (store_client n bits x s c (EagerBitblaster.d_variables c)) as [HC He]; [done | done | done | done | done | intros v Hv; by left | by destruct c |].
  eexists (s, _), tt. split; [done |]. destruct c. split; [by split | by split].
Qed.

(** The rewriter, on what is in its domain. *)
Lemma rewrite_wp n st : ndom normal_atom n -> small n = true -> Inv st ->
  wp Inv ext (EagerBitblaster.rewrite RF n) (fun _ r => rewritten (ndom normal_atom) brank (keeps normal_atom) n r) st.
Proof.
  destruct st as [s c]. intros Hd Hn (Hwf & Hsd & [H1 H2 H3 H4]).
  destruct (rewrite_ok (ndom normal_atom) brank (keeps normal_atom) n (EagerBitblaster.s_rewriter c) Hd H2) as (r & w & Hw & Hr & HF).
  eexists (s, _), r. split; [unfold EagerBitblaster.rewrite; rewrite HF; [done |]; pose proof (eager_fuel_small n Hn); lia |].
  split; [split; [done | split; [done |]] | split; [by apply ext_client | done]]. split; try done.
Qed.

Lemma bform_leaf a v : eval e a = Some v -> structured a = false -> bform a = true.
Proof.
  destruct a as [| | |k ch]; try done. intros Hev Hs. cbn [bform]. rewrite Hs. destruct k; try done.
  apply eval_MkNode in Hev as (_ & vs & Hvs & Hk). cbn in Hk. destruct vs as [|v0 [|v1 [|]]]; try done.
  apply Forall2_two in Hvs as (c0 & c1 & -> & H0 & H1). unfold child0_boolean. cbn.
  by rewrite (eval_getType false e c0 _ H0).
Qed.

(** A term of the fragment has a bit-vector value. *)
Lemma blast_term_bv n v : blast_term n = true -> eval e n = Some v -> exists x, v = VBV x.
Proof.
  revert v. induction n as [y t|b|w|k ch IH] using node_ind'; cbn [blast_term]; intros v Hb Hev.
  - destruct t; try done. cbn in Hev. apply fit_Some in Hev as [_ ->]. by eexists.
  - done.
  - cbn in Hev. case_decide; [| done]. injection Hev as <-. by eexists.
  - apply andb_true_iff in Hb as [Hk Hch]. apply eval_MkNode in Hev as (_ & vs & Hvs & Hev).
    destruct k; try discriminate Hk; cbn [eval_kind] in Hev;
      try (apply bv_nary_Some in Hev as (? & ? & ? & _ & ->); by eexists);
      try (apply bv_binary_Some in Hev as (? & ? & ? & _ & ->); by eexists);
      try (apply bv_unary_Some in Hev as (? & ? & _ & ->); by eexists);
      try (apply bv_bvpred_Some in Hev as (? & ? & ? & _ & ->); by eexists).
    + apply bind_Some in Hev as (bs & _ & Hev). destruct (concat_vals bs). apply fit_Some in Hev as [_ ->]. by eexists.
    + destruct vs as [|[|c] [|x [|y [|]]]]; try done. destruct ((_ =? _)%Z && _) eqn:E; [| done].
      injection Hev as <-. inversion Hvs as [|c0 ? ? ? H0 Hvs']; subst.
      apply Forall2_two in Hvs' as (c1 & c2 & -> & H1 & H2).
      apply Forall_cons in IH as [_ [IH1 [IH2 _]%Forall_cons]%Forall_cons]. cbn in Hch.
      apply andb_true_iff in Hch as [_ [Hc1 [Hc2 _]%andb_true_iff]%andb_true_iff]. case_match; eauto.
    + destruct vs as [|[|c] [|]]; try done. case_decide; [| done]. injection Hev as <-. by eexists.
    + destruct vs as [|[|c] [|]]; try done. case_decide; [| done]. apply fit_Some in Hev as [_ ->]. by eexists.
Qed.

Lemma wp_bb_gets {A B} (g : EagerBitblaster.state -> A) (k : A -> SM St B) Q st :
  wp Inv ext (k (g st.2)) Q st -> wp Inv ext (EagerBitblaster.bb_gets g ≫= k) Q st.
Proof. done. Qed.

(** ** One level of the recursion *)
Section step.
Variable f : nat.
Abbreviation bb := (EagerBitblaster.bitblaster optProof RF f).

Definition term_goal (b : TBitblaster St Node) (F : nat) : Prop := forall n x st,
  gterm n = true -> eval e n = Some (VBV x) -> 2 * node_size n + 1 < F -> Inv st -> Below (S (node_size n)) st ->
  wp Inv ext (bbTerm b n) (fun st' bits => bvd (S (node_size n)) st' bits x /\ circ n bits) st.

Definition Pre (F : nat) (a : Node) (st : St) : Prop :=
  (bitOf_in (vars st) a /\ 1 <= F) \/
  (atomlike a = true /\ structured a = false /\ (exists b, eval e a = Some (VBool b)) /\ 1 <= F /\
   (reg st.2 a \/ 2 * node_size a < F) /\ Below (node_size a) st).
Definition atom_goal (b : TBitblaster St Node) (F : nat) : Prop := forall a st,
  Pre F a st -> Inv st -> wp Inv ext (bbAtom b a) (fun st' _ => reg st'.2 a) st.

Hypothesis IHterm : term_goal bb f.
Hypothesis IHatom : atom_goal bb f.

Lemma bb_getBBAtom a : getBBAtom bb a = mret a.
Proof. by destruct f. Qed.
Lemma bb_storeBBTerm : storeBBTerm bb = EagerBitblaster.storeBBTerm.
Proof. by destruct f. Qed.

Lemma term_ok_child R c :
  gterm c = true -> 2 * node_size c + 1 < f -> node_size c < R ->
  term_ok bb e (InvR R) ext (D R) circ c.
Proof.
  intros Hb Hfu HRR x st Hev [Hi Hbl]. apply wp_InvR; [done |].
  eapply wp_mono; [apply IHterm; [done | exact Hev | done | done |] |].
  - eapply Below_le; [| exact Hbl]. lia.
  - intros st' bits _ _ [H Hc]. split; [| done]. eapply bvd_mono'; [| reflexivity | exact H]. lia.
Qed.

(** The atoms of the fragment are in normal form. *)
Lemma gatom_ready a : gatom a = true -> stable a = true /\ small a = true /\ circuit_fits optProof a = true /\ isBitOfKind a = false.
Proof.
  intros (k & ch & -> & Hk & _ & Hr)%gatom_kind. unfold ready_atom in Hr. apply andb_true_iff in Hr as [[Hs Hn]%andb_true_iff Hc].
  do 3 (split; [done |]). by destruct k.
Qed.
Lemma normal_leaf a b : theory_atom a = true -> stable a = true -> eval e a = Some (VBool b) -> bformula normal_atom a = true.
Proof.
  intros Ht Hs Hev. rewrite bformula_atom by done. unfold normal_atom. rewrite Hs.
  destruct (eval_defined_bool e env0 a b Hev) as [c Hc]. by rewrite Hc.
Qed.

(** A bit-blasted atom of size below [R] is a bit of its own. *)
Lemma guard_atom_ok R a :
  gatom a = true -> theory_atom a = true -> structured a = false -> 2 * node_size a < f -> node_size a < R ->
  atom_ok bb e (InvR R) ext (D R) a.
Proof.
  intros Hb Hta Hs Hfu HRR b st Hev [Hi Hbl]. apply wp_InvR; [done |].
  assert (theoryLeaf a = true) as Ht by (unfold theoryLeaf; rewrite Hs; by destruct a).
  destruct (gatom_ready a Hb) as (Hst & _ & _ & Hnb).
  eapply wp_bind; [apply _ | apply IHatom; [| done] |].
  { right. split; [by apply atomlike_cases; left |]. split; [done |]. split; [by eexists |].
    split; [lia |]. split; [by right |]. eapply Below_le; [| exact Hbl]. lia. }
  intros st1 [] Hi1 He1 Hr. apply (Below_ext _ _ _ He1) in Hbl. rewrite bb_getBBAtom.
  apply wp_ret; [apply _ | done |]. split; [done |]. split; [split | split].
  - by eapply bform_leaf.
  - rewrite leaves_leaf by done. intros a' [<-|[]]. do 3 right. done.
  - by eapply normal_leaf.
  - intros HG0. apply (proj2 Hbl a); [| lia | done | done].
    destruct Hr as [[Hr _]|Hr]; [| done]. destruct a as [| | |k ch]; try done. by destruct k.
Qed.

Lemma bitOf_loop var n bits :
  for_from n 0 (fun i bits => Ok (bits ++ [EagerBitblaster.mkBitOf var i])) [] = Ok bits ->
  forall i t, bits !! i = Some t -> t = EagerBitblaster.mkBitOf var i.
Proof.
  intros E. destruct (for_from_inv (fun k l => length l = k /\ forall i t, l !! i = Some t -> t = EagerBitblaster.mkBitOf var i)
    (fun i bits => Ok (bits ++ [EagerBitblaster.mkBitOf var i])) n 0 []) as (l & E' & _ & Hl); [done | |].
  - intros k l _ [Hlen Hl]. eexists. split; [done |]. rewrite length_app, Hlen. split; [cbn; lia |].
    intros i t [H|[Hle Hs]]%lookup_app_Some; [by apply Hl |].
    apply list_lookup_singleton_Some in Hs as [Hs <-]. f_equal. lia.
  - rewrite E in E'. by injection E' as <-.
Qed.

(** The bits of a variable that is in the set. *)
Lemma var_bits_ok x n v st :
  eval e (Var x (BITVECTOR_TYPE n)) = Some (VBV v) -> Var x (BITVECTOR_TYPE n) ∈ vars st ->
  exists bits, for_from (Z.to_nat n) 0 (fun i bits => Ok (bits ++ [EagerBitblaster.mkBitOf (Var x (BITVECTOR_TYPE n)) i])) [] = Ok bits /\
    length bits = Z.to_nat n /\ bvd (S (node_size (Var x (BITVECTOR_TYPE n)))) st bits v.
Proof.
  intros Hev Hin. pose proof Hev as Hv. cbn in Hv. apply fit_Some in Hv as [Hn [= ->]].
  set (R := S (node_size (Var x (BITVECTOR_TYPE n)))).
  destruct (push_loop (den:=D R st) (Z.to_nat n)
    (fun i bits => Ok (bits ++ [EagerBitblaster.mkBitOf (Var x (BITVECTOR_TYPE n)) i])) (e_bv e x n))
    as (bits & Eb & Hl & Hd).
  { intros i l Hil _. eexists. split; [done |]. assert (0 <= Z.of_nat i < n)%Z as Hr by lia.
    assert (eval e (EagerBitblaster.mkBitOf (Var x (BITVECTOR_TYPE n)) i) = Some (VBool (Z.testbit (e_bv e x n) (Z.of_nat i)))) as Hbit.
    { unfold EagerBitblaster.mkBitOf. apply eval_MkNode. split; [done |].
      exists [bv n (e_bv e x n mod 2 ^ n)]. split; [by constructor |].
      unfold bv. cbn. rewrite decide_True by done. rewrite testbit_mod_pow2 by lia.
      by rewrite (proj2 (Z.ltb_lt _ _)) by lia. }
    split; [done | split; [| split]].
    - split; [done |]. intros a [<-|[]]. right. right. left. split; [| by intros w [= <-]]. cbn.
      by rewrite (proj2 (Z.leb_le _ _)), (proj2 (Z.ltb_lt _ _)) by lia.
    - eapply normal_leaf; [done | by apply stable_bit | exact Hbit].
    - intros _. cbn. by apply mu_bits. }
  rewrite Z2Nat.id in Hd by lia. exists bits. split; [done |]. split; [done |]. split; [unfold zlen; cbn; lia | exact Hd].
Qed.

Lemma set_insert_in n l x : x ∈ EagerBitblaster.set_insert n l <-> x = n \/ x ∈ l.
Proof. unfold EagerBitblaster.set_insert. case_decide; [naive_solver |]. rewrite elem_of_app, list_elem_of_singleton. naive_solver. Qed.

(** A variable that has no bits yet: they are made and stored. *)
Lemma var_step x n v st :
  eval e (Var x (BITVECTOR_TYPE n)) = Some (VBV v) -> Inv st ->
  wp Inv ext
    (bits ← EagerBitblaster.makeVariable (Var x (BITVECTOR_TYPE n));
     m ← lift (getSizeN (Var x (BITVECTOR_TYPE n)));
     _ ← lift (check AssertionFailed (length bits =? m));
     _ ← EagerBitblaster.storeBBTerm (Var x (BITVECTOR_TYPE n)) bits;
     mret bits)
    (fun st' bits => bvd (S (node_size (Var x (BITVECTOR_TYPE n)))) st' bits v /\ circ (Var x (BITVECTOR_TYPE n)) bits) st.
Proof.
  destruct st as [s c]. intros Hev (Hwf & Hsd & HC). pose proof Hev as Hv. cbn in Hv. apply fit_Some in Hv as [Hn _].
  set (var := Var x (BITVECTOR_TYPE n)) in *. set (vs := EagerBitblaster.set_insert var (EagerBitblaster.d_variables c)).
  set (c' := EagerBitblaster.MkState (EagerBitblaster.d_termCache c) (EagerBitblaster.d_bbAtoms c) vs (EagerBitblaster.s_rewriter c)).
  assert (getSizeN var = Ok (Z.to_nat n)) as Hsz by (destruct v; pose proof Hev as Hv; cbn in Hv; apply fit_Some in Hv as [_ [= -> _]]; by eapply getSizeN_ok).
  destruct (var_bits_ok x n v (s, c') Hev) as (bits & Eb & Hl & Hb); [apply set_insert_in; by left |].
  assert (circ var bits) as Hcirc by (apply circ_var; unfold bits_of; fold var; by rewrite Hsz).
  destruct (store_client var bits v s c vs) as [HC' He]; [done | done | exact (bitOf_loop _ _ _ Eb) | done | | | done |].
  { intros w Hw. apply set_insert_in. by right. }
  { intros w [->|Hw]%set_insert_in; [right; split; [done | by exists x, n] | by left]. }
  exists (s, EagerBitblaster.cache_insert var bits c'), bits. split; [| split; [done | split; [done |]]].
  - unfold EagerBitblaster.makeVariable, mbind, SM_bind, lift. rewrite Hsz. fold var in Eb. rewrite Eb. cbn [EagerBitblaster.bb_modify].
    unfold mret at 1, SM_ret at 1. cbn [fst]. rewrite Hl, Nat.eqb_refl. done.
  - split; [| done]. eapply bvd_mono'; [reflexivity | | exact Hb]. split; [reflexivity |]. cbn [snd]. unfold EagerBitblaster.cache_insert. by destruct (assoc _ _).
Qed.

(** The children of a term of the fragment, under the strategies and without the caches. *)
Lemma children_values k ch v : eval e (MkNode k ch) = Some v -> Forall (fun c => gterm c = true) ch -> Forall (fun c => exists x, eval e c = Some (VBV x)) ch.
Proof.
  intros (_ & vs & Hvs & _)%eval_MkNode Hch. apply Forall_forall. intros c Hc. rewrite Forall_forall in Hch.
  pose proof (Hch c Hc) as [Hg _]%andb_true_iff. apply list_elem_of_lookup in Hc as [i Hi'].
  destruct (Forall2_lookup_l _ _ _ _ _ Hvs Hi') as (w & _ & Hw). destruct (blast_term_bv c w Hg Hw) as [x ->]. by exists x.
Qed.
Lemma child_psim R c f' : term_ok bb e (InvR R) ext (D R) circ c -> (exists x, eval e c = Some (VBV x)) -> node_size c <= f' ->
  psim (InvR R) (bbTerm bb c) (bbTerm (plain f') c).
Proof.
  intros Hok [x Hx] Hf st bits st' Hi E. destruct (wp_run R _ _ _ _ _ (Hok x st Hx Hi) E) as (Hi' & _ & Hc). split; [done | by apply Hc].
Qed.
Lemma guard_psim R g f' b : atom_ok bb e (InvR R) ext (D R) g -> eval e g = Some (VBool b) ->
  psim (InvR R) (_ ← bbAtom bb g; getBBAtom bb g) (_ ← bbAtom (plain f') g; getBBAtom (plain f') g).
Proof.
  intros Hok Hev st t st' Hi E. destruct (wp_run R _ _ _ _ _ (Hok b st Hev Hi) E) as [Hi' _]. split; [done |].
  rewrite bb_getBBAtom in E. unfold mbind, SM_bind in E. destruct (bbAtom bb g st) as [[[] st1]|]; [| done]. injection E as <- <-. by destruct f'.
Qed.

(** The value of the guard of a shift. *)
Lemma guard_value k c0 c1 g v : shift_kind k = true -> eval e (MkNode k [c0; c1]) = Some v ->
  b_ult_a_size_node (MkNode k [c0; c1]) = Ok g -> exists b, eval e g = Some (VBool b).
Proof.
  intros Hk Hev Hg. assert (exists F, forall vs, eval_kind e k vs = bv_binary F vs) as [F HF] by (destruct k; try done; by eexists).
  destruct (eval_binary_inv e k F _ v HF Hev) as (n & a & b & d0 & d1 & -> & [= <- <-] & H0 & H1 & Hn & Ha & Hb).
  unfold b_ult_a_size_node in Hg. rewrite (eval_getSize e _ _ Hev) in Hg. cbn in Hg. injection Hg as <-.
  assert (n < 2 ^ n)%Z by (apply Z.pow_gt_lin_r; lia). exists (Sem.ult b n). apply eval_MkNode. split; [done |].
  exists [bv n b; bv n n]. split; [| by apply bv_pred_Some; eauto 10].
  repeat constructor; [done |]. rewrite mk_small by lia. cbn. rewrite decide_True; [done |]. unfold wf. cbn. lia.
Qed.

Section node.
Context (k : Kind) (ch : list Node) (x : BitVector).
Abbreviation n := (MkNode k ch).
Abbreviation R := (S (node_size n)).
Hypothesis Hgt : gterm n = true.
Hypothesis Hev : eval e n = Some (VBV x).
Hypothesis Hfu : 2 * node_size n < f.

Lemma node_children : Forall (term_ok bb e (InvR R) ext (D R) circ) ch.
Proof.
  destruct (gterm_kind _ _ _ Hgt) as [_ Hch]. rewrite Forall_forall in *. intros c Hc.
  pose proof (node_size_child k ch c (proj1 (list_elem_of_In _ _) Hc)). apply term_ok_child; [by apply Hch | lia | lia].
Qed.
Lemma node_guard g : shift_kind k = true -> b_ult_a_size_node n = Ok g -> atom_ok bb e (InvR R) ext (D R) g.
Proof.
  intros Hsh Hg. assert (exists c0 c1, ch = [c0; c1]) as (c0 & c1 & E).
  { pose proof Hev as (Ha & _)%eval_MkNode. destruct k; try done; destruct ch as [|c0 [|c1 [|]]]; try done; by exists c0, c1. }
  rewrite E in *. destruct (gterm_guard optProof k c0 c1 g Hsh Hgt Hg) as [Hga Hsz].
  assert (theory_atom g = true /\ structured g = false) as [Ht Hs].
  { unfold b_ult_a_size_node in Hg. apply M_bind_inv in Hg as (m & _ & Hg). apply M_bind_inv in Hg as (b & _ & [= <-]). done. }
  apply guard_atom_ok; [done | done | done | lia | lia].
Qed.
(** The bits are those of the circuit. *)
Lemma node_circ st bits st' : InvR R st -> d_termBBStrategies bb k n st = Ok (bits, st') -> circ n bits.
Proof.
  intros Hi E f' Hf'. destruct f' as [|f']; [cbn in Hf'; lia |]. cbn [plain bbTerm]. destruct (gterm_kind _ _ _ Hgt) as [Hk Hch].
  pose proof (children_values k ch _ Hev Hch) as Hvs. pose proof node_children as Hok. rewrite Forall_forall in Hok, Hvs.
  apply (term_sim (InvR R) bb (plain f') n) with (s := st) (s' := st'); try done.
  - intros c Hc. cbn [children] in Hc. pose proof (node_size_child k ch c Hc). apply list_elem_of_In in Hc.
    apply child_psim; [by apply Hok | by apply Hvs | lia].
  - cbn [getKind]. intros Hsh g Hg. assert (exists c0 c1, ch = [c0; c1]) as (c0 & c1 & Ech).
    { pose proof Hev as (Ha & _)%eval_MkNode. destruct k; try done; destruct ch as [|c0 [|c1 [|]]]; try done; by exists c0, c1. }
    pose proof Hev as Hev'. rewrite Ech in Hev'. pose proof Hg as Hg'. rewrite Ech in Hg'. destruct (guard_value k c0 c1 g _ Hsh Hev' Hg') as [b Hb].
    eapply guard_psim; [by apply node_guard | exact Hb].
  - by destruct f'.
Qed.
End node.

Lemma division_size k k' c0 c1 : stores k = true -> stores k' = true -> getSize (MkNode k' [c0; c1]) = getSize (MkNode k [c0; c1]).
Proof. destruct k; try done; by destruct k'. Qed.

Lemma strategy_step n x st : isVar n = false ->
  gterm n = true -> eval e n = Some (VBV x) -> 2 * node_size n < f -> Inv st -> Below (S (node_size n)) st ->
  wp Inv ext (d_termBBStrategies bb (getKind n) n)
    (fun st' bits => bvd (S (node_size n)) st' bits x /\ circ n bits) st.
Proof.
  intros Hnv Hb Hev Hfu Hi Hbl.
  assert (wp Inv ext (d_termBBStrategies bb (getKind n) n) (fun st' bits => bvd (S (node_size n)) st' bits x) st /\
    forall bits st', d_termBBStrategies bb (getKind n) n st = Ok (bits, st') -> circ n bits) as [(st' & bits & E & Hi' & He' & Hd) Hc].
  2:{ exists st', bits. split; [done |]. do 2 (split; [done |]). split; [done | by eapply Hc]. }
  destruct n as [y t|b|v|k ch]; try done.
  - assert (x = v) as -> by (cbn in Hev; case_decide; [by injection Hev | done]). split.
    + apply (wp_Inv (S (node_size (ConstBV v)))).
      apply (DefaultConstBB_ok e (InvR (S (node_size (ConstBV v)))) ext (D (S (node_size (ConstBV v))))); done.
    + intros bits st' E f' Hf'. destruct f' as [|f']; [cbn in Hf'; lia |].
      by apply (const_psim (fun _ => True) bb (plain f') v st bits st').
  - split; [| intros bits st' E; by eapply (node_circ k ch x)]. destruct (gterm_kind _ _ _ Hb) as [Hk Hch].
    apply (wp_Inv (S (node_size (MkNode k ch)))). cbn [getKind].
    apply (term_strategy_ok bb e (InvR (S (node_size (MkNode k ch)))) ext (D (S (node_size (MkNode k ch)))) ) with (Circ := circ); try done.
    + intros s1 s2 t b. apply D_ext.
    + by eapply node_children.
    + intros c0 c1 a b q r -> -> Ha Hb' Hqr y s1 Hy [Hi1 Hb1] Hbits. apply wp_InvR; [done |]. rewrite bb_storeBBTerm.
      eapply store_wp; [done | exact Hy | done | | exact Hbits].
      by apply (circ_division BITVECTOR_UDIV_TOTAL BITVECTOR_UREM_TOTAL c0 c1 a b q r).
    + intros c0 c1 a b q r -> -> Ha Hb' Hqr y s1 Hy [Hi1 Hb1] Hbits. apply wp_InvR; [done |]. rewrite bb_storeBBTerm.
      eapply store_wp; [done | exact Hy | done | | exact Hbits].
      by apply (circ_division BITVECTOR_UREM_TOTAL BITVECTOR_UDIV_TOTAL c0 c1 a b q r).
    + intros Hsh c0 c1 m -> Hsz. eapply node_guard; [done | exact Hev | done | done |]. unfold b_ult_a_size_node. by rewrite Hsz.
Qed.

Lemma term_step : term_goal (EagerBitblaster.bitblaster optProof RF (S f)) (S f).
Proof.
  intros n x st Hb Hev Hfu Hi Hbl. cbn [EagerBitblaster.bitblaster bbTerm]. unfold EagerBitblaster.bbTerm.
  eapply wp_lift; [by eapply (eval_getType false) |]. eapply wp_lift; [done |].
  unfold EagerBitblaster.hasBBTerm. apply wp_bb_gets.
  destruct (assoc n (EagerBitblaster.d_termCache st.2)) as [bits|] eqn:E.
  - exists st, bits. split; [unfold EagerBitblaster.getBBTerm, EagerBitblaster.bb_gets, mbind, SM_bind; cbn; by rewrite E |].
    split; [done |]. split; [reflexivity |]. destruct Hi as (_ & _ & HC). destruct (ci_cache _ HC _ _ E) as (_ & Hc & Hd). by split; [apply Hd |].
  - destruct (isVar n) eqn:Hv.
    { destruct n as [y t| | |]; try done. destruct t as [| |m]; try done. cbn [getKind d_termBBStrategies]. unfold DefaultVarBB.
      replace (makeVariable bb) with EagerBitblaster.makeVariable by (by destruct f). by apply var_step. }
    eapply wp_bind; [apply _ | apply strategy_step; [done | done | exact Hev | lia | done | done] |].
    intros st1 bits Hi1 He1 [Hbits Hc]. destruct x as [m z]. pose proof (eval_bv_range e _ _ _ Hev) as [Hm _].
    eapply wp_lift; [by eapply getSizeN_ok |].
    eapply wp_lift; [| eapply wp_bind; [apply _ | eapply store_wp; [done | exact Hev | by destruct n | done | done] |]].
    { unfold check. rewrite (proj2 (Nat.eqb_eq _ _)); [done |]. destruct Hbits as [Hl _]. unfold zlen in Hl. cbn in Hl. lia. }
    intros st2 [] Hi2 He2 _. apply wp_ret; [apply _ | done |]. split; [| done]. eapply bvd_mono'; [reflexivity | by apply ext_sub | done].
Qed.

(** The contract of the stream's registrar. *)
Lemma Pre_ext F a st st' : ext st st' -> Pre F a st -> Pre F a st'.
Proof.
  intros He [[[H1 H2] H3]|(H1 & H2 & H3 & H4 & H5 & H6)].
  - left. split; [| done]. split; [done |]. intros v Hv. apply (ext_sub _ _ He). by apply H2.
  - right. do 4 (split; [done |]). split; [| by eapply Below_ext]. destruct H5 as [H5|]; [left | by right]. eapply reg_mono; [apply He | done].
Qed.

Lemma Pre_insert F a s s' c :
  grow s s' ->
  (forall n, theoryLeaf n = true -> n <> a -> lookupLiteral s' n <> None -> lookupLiteral s n <> None) ->
  Pre F a (s, c) -> Pre F a (s', c).
Proof.
  intros Hg Hn [H|(H1 & H2 & H3 & H4 & H5 & [B1 B2])]; [by left | right]. do 5 (split; [done |]). split.
  - intros n Ht Hr Hl. apply B1; [done | done |]. apply Hn; [done | | done]. intros ->. lia.
  - intros b Hb Hr. eapply OK_grow; [exact Hg | by apply B2].
Qed.

Lemma stream_ok n neg st :
  bform n = true -> Inv st -> node_pre (Pre f) n st -> (Induced -> peval mu n = negb neg) ->
  wp Inv ext (convertAndAssertTop (bbAtom bb) optProof n false neg) (fun st' _ => asserted al mu n neg st') st.
Proof.
  intros Hb Hi Hp HC.
  apply (convertAndAssertTop_good (bbAtom bb) optProof al mu Induced reg CI (Pre f) cext cext_grow reg_mono CI_grow
           (Pre_ext f) (Pre_insert f)); [| done | done | done | done].
  intros a st1 _ _ HPa Hi1. by apply IHatom.
Qed.

(** Recording the atom before its definition is asserted. *)
Lemma store_atom_state a t s c :
  isBitOfKind a = false -> Inv (s, c) -> Below (node_size a) (s, c) ->
  exists c', EagerBitblaster.storeBBAtom a t (s, c) = Ok (tt, (s, c')) /\ Inv (s, c') /\ Below (node_size a) (s, c') /\
    EagerBitblaster.d_variables c' = EagerBitblaster.d_variables c /\
    (forall x, x ∈ EagerBitblaster.d_bbAtoms c' <-> x = a \/ x ∈ EagerBitblaster.d_bbAtoms c).
Proof.
  intros Hk (Hwf & Hsd & [H1 H2 H3 H4]) [B1 B2]. eexists. split; [done |].
  pose proof (set_insert_in a (EagerBitblaster.d_bbAtoms c)) as Hin.
  split; [| split; [split | split]]; cbn in *; try done.
  - split; [done |]. split; [done |]. split; cbn; try done. intros x [->|Hx]%Hin; [done | by apply H4].
  - intros n Hn Hr Hl. destruct (B1 n Hn Hr Hl) as [?|?]; [by left | right]. cbn. apply Hin. by right.
  - intros x. rewrite Hin. intros [->|Hx] Hr; [lia | by apply B2].
Qed.

(** The leaves of a bit formula of size [R] have the values [e] gives them. *)
Lemma bitform_value R t b st :
  bitform (vars st) R t -> eval e t = Some (VBool b) -> lits_known t st -> Below R st -> Good st.1 -> peval mu t = b.
Proof.
  intros [Hbf Hl] Hev Hk [B1 B2] HG0. apply (peval_eval mu e t b); [| done].
  intros a c Ha Hc Hea. specialize (Hk a Ha).
  destruct (Hl a Ha) as [H|[H|[[H _]|[H Hr]]]].
  - congruence.
  - destruct a as [x [| |]| | |]; try done. cbn in Hea. injection Hea as <-. apply mu_bool.
  - destruct a as [| | |k [|[x [| |m]| | |] [|]]]; try done; destruct k; try done. cbn in H.
    apply andb_true_iff in H as [H1%Z.leb_le H2%Z.ltb_lt].
    apply eval_MkNode in Hea as (_ & vs & Hvs & Hea). inversion Hvs as [|? w ? ? Hw Hvs']; subst.
    inversion Hvs'; subst. cbn in Hw. apply fit_Some in Hw as [Hm ->]. unfold bv in Hea. cbn in Hea.
    rewrite decide_True in Hea by done. injection Hea as <-. rewrite mu_bits, testbit_mod_pow2 by lia.
    by rewrite (proj2 (Z.ltb_lt _ _)) by lia.
  - assert (structured a = false) as Hs by (eapply leaf_structured; exact Ha).
    assert (theoryLeaf a = true) as Ht by (unfold theoryLeaf; rewrite Hs; by destruct a).
    assert (a ∈ EagerBitblaster.d_bbAtoms st.2) as Hin.
    { destruct (B1 a Ht Hr Hk) as [[Hbo _]|]; [| done]. destruct (gatom_ready a H) as (_ & _ & _ & Hnb).
      destruct a as [| | |k ch]; try done. by destruct k. }
    pose proof (B2 a Hin Hr HG0 c Hea) as Hp. rewrite peval_leaf in Hp by done. by destruct a.
Qed.

(** The circuit of an atom. *)
Lemma atom_circuit_ok a b st :
  gatom a = true -> eval e a = Some (VBool b) -> 2 * node_size a <= f -> Inv st -> Below (node_size a) st ->
  wp Inv ext (d_atomBBStrategies bb (getKind a) a) (fun st' t => D (node_size a) st' t b /\ circuit a = Ok t) st.
Proof.
  intros Ha Hev Hfu Hi Hbl. set (R := node_size a) in *.
  pose proof Ha as (k & ch & -> & Hk & Hch & _)%gatom_kind. pose proof (children_values k ch _ Hev Hch) as Hvs.
  assert (Forall (term_ok bb e (InvR R) ext (D R) circ) ch) as Hok.
  { rewrite Forall_forall in *. intros c Hc. pose proof (node_size_child k ch c (proj1 (list_elem_of_In _ _) Hc)).
    apply term_ok_child; [by apply Hch | lia | done]. }
  assert (wp Inv ext (d_atomBBStrategies bb k (MkNode k ch)) (fun st' t => D R st' t b) st) as (st' & t & E & Hi' & He' & Hd).
  { apply (wp_Inv R). apply (atom_strategy_ok bb e (InvR R) ext (D R)) with (Circ := circ); try done. intros s1 s2 t y. apply D_ext. }
  exists st', t. split; [done |]. do 2 (split; [done |]). split; [done |].
  unfold circuit. change (getKind (MkNode k ch)) with k.
  assert (psim (InvR R) (d_atomBBStrategies bb k (MkNode k ch)) (d_atomBBStrategies (plain R) k (MkNode k ch))) as Hsim.
  { apply (atom_psim (InvR R) bb (plain R) (MkNode k ch)); [| by destruct k]. intros c Hc. cbn [children] in Hc. pose proof (node_size_child k ch c Hc).
    apply list_elem_of_In in Hc. rewrite Forall_forall in Hok, Hvs. apply child_psim; [by apply Hok | by apply Hvs | unfold R; lia]. }
  destruct (Hsim st t st' (conj Hi Hbl) E) as [_ Hp]. unfold R in Hp. by rewrite Hp.
Qed.

Lemma eval_iff a t b : eval e a = Some (VBool b) -> eval e t = Some (VBool b) ->
  eval e (MkNode EQUAL [a; t]) = Some (VBool true) /\ structured (MkNode EQUAL [a; t]) = true.
Proof.
  intros Ha Ht. split.
  - cbn. rewrite Ha, Ht. cbn. by rewrite bool_decide_true.
  - cbn. unfold child0_boolean. cbn. by rewrite (eval_bool_type a b Ha).
Qed.

(** The definition [a = t] of the atom [a], once [a] is recorded. *)
Lemma definition_pre a t b s c :
  atomlike a = true -> structured a = false -> eval e a = Some (VBool b) -> eval e t = Some (VBool b) ->
  bitform (EagerBitblaster.d_variables c) (node_size a) t -> (isConstBool a = true -> t = a) -> 2 * node_size a <= f ->
  a ∈ EagerBitblaster.d_bbAtoms c -> Below (node_size a) (s, c) ->
  forall x, x = a \/ In x (leaves t) -> theoryLeaf x = true -> Pre f x (s, c).
Proof.
  intros Ha Hs Hea Het [Hbt Hlt] Hconst Hfu Hin Hbl x Hx Hth. pose proof (node_size_pos a) as Hrp.
  destruct Hx as [->|Hx].
  { right. do 2 (split; [done |]). split; [by eexists |]. split; [lia |]. split; [left; by right | done]. }
  destruct (leaves_eval e t b x Het Hx) as [y Hy]. pose proof (leaf_structured x t Hx) as Hsx.
  destruct (Hlt x Hx) as [H|[H|[H|[H Hr]]]].
  - right. split; [apply atomlike_cases; by right |]. destruct x as [|d| |]; try done.
    split; [done |]. split; [by eexists |]. split; [lia |]. cbn [node_size]. destruct (isConstBool a) eqn:Hca.
    + rewrite (Hconst eq_refl) in Hx. destruct a; try done. destruct Hx as [[= ->]|[]]. split; [left; by right | done].
    + assert (2 <= node_size a) as H2.
      { apply atomlike_cases in Ha as [Ha|Ha]; [| congruence]. apply gatom_kind in Ha as (k & ch & -> & Hka & _).
        apply eval_MkNode in Hea as (Har & _). destruct ch as [|c1 ch]; [by destruct k |]. cbn. pose proof (node_size_pos c1). lia. }
      split; [right; lia |]. eapply Below_le; [| exact Hbl]. lia.
  - unfold theoryLeaf in Hth. by destruct x as [? []| | |].
  - left. split; [done | lia].
  - right. split; [apply atomlike_cases; by left |]. split; [done |]. split; [by eexists |]. split; [lia |].
    split; [right; lia |]. eapply Below_le; [| exact Hbl]. lia.
Qed.

Lemma define_atom_ok a t b s c0 c :
  atomlike a = true -> structured a = false -> eval e a = Some (VBool b) -> eval e t = Some (VBool b) ->
  bitform (EagerBitblaster.d_variables c) (node_size a) t -> (isConstBool a = true -> t = a) -> 2 * node_size a <= f ->
  (forall x, x ∈ EagerBitblaster.d_bbAtoms c <-> x = a \/ x ∈ EagerBitblaster.d_bbAtoms c0) ->
  EagerBitblaster.d_variables c = EagerBitblaster.d_variables c0 -> Inv (s, c) -> Below (node_size a) (s, c) ->
  exists st', convertAndAssertTop (bbAtom bb) optProof (MkNode EQUAL [a; t]) false false (s, c) = Ok (tt, st') /\
    Inv st' /\ ext (s, c0) st' /\ reg st'.2 a.
Proof.
  intros Ha Hs Hea Het Hbf Hconst Hfu Hin Hvars Hi Hbl. pose proof Hbf as [Hbt Hlt].
  destruct (eval_iff a t b Hea Het) as [Hev Hst].
  assert (leaves (MkNode EQUAL [a; t]) = a :: leaves t) as Hlv.
  { rewrite leaves_structured by done. cbn. rewrite app_nil_r, leaves_leaf by done. done. }
  assert (Hac : a ∈ EagerBitblaster.d_bbAtoms c) by (apply Hin; by left).
  destruct (stream_ok (MkNode EQUAL [a; t]) false (s, c)) as (st' & [] & E & Hi' & He' & Has & Hk).
  - cbn [bform]. rewrite Hst. cbn. rewrite Hbt, andb_true_r. by eapply bform_leaf.
  - done.
  - intros x. rewrite Hlv. intros Hx. eapply definition_pre; eauto. destruct Hx as [<-|?]; [by left | by right].
  - intros HInd. apply (peval_eval mu e (MkNode EQUAL [a; t]) true); [| done]. intros x y Hx Hcx Hxe.
    apply (Induced_mu HInd); [by eapply leaf_structured | done | done].
  - exists st'. split; [done |]. split; [done |]. pose proof (Below_ext _ _ _ He' Hbl) as Hbl'.
    assert (lits_known t st') as Hkt. { intros x Hx. apply Hk. rewrite Hlv. by right. }
    assert (bitform (vars st') (node_size a) t) as Hbf'.
    { split; [done |]. intros x Hx. eapply bit_leaf_mono; [apply (ext_sub _ _ He') | reflexivity | by apply Hlt]. }
    assert (OK st'.1 a) as Hoka.
    { intros HG0 y Hy. rewrite Hea in Hy. injection Hy as <-. destruct HG0 as [HInd|[Hsat Hag]].
      - apply (peval_eval mu e a b); [| done]. intros x z Hx Hcx Hxe. apply (Induced_mu HInd); [by eapply leaf_structured | done | done].
      - pose proof (bitform_value (node_size a) t b st' Hbf' Het Hkt Hbl' (or_intror (conj Hsat Hag))) as Hpt.
        destruct Hi' as (_ & Hsd & _). specialize (Has Hsat (Hsd Hsat Hag)).
        cbn [peval] in Has. unfold child0_boolean in Has. cbn in Has. rewrite (eval_bool_type a b Hea) in Has.
        cbn in Has. rewrite Hpt in Has. by destruct (peval mu a), b. }
    destruct He' as [g d nw (g' & c1 & c2)]. split; [split |].
    + exact g.
    + exact d.
    + intros x Hx Hl Hn. by apply nw.
    + split; [split; [exact g | cbn; rewrite <- Hvars; apply g'] |]. cbn [snd] in *. split; [intros x Hx; apply c1, Hin; by right |].
      intros x Hx Hn. destruct (decide (x = a)) as [->|Hne]; [done |]. apply c2; [done |]. rewrite Hin. naive_solver.
    + right. by apply c1.
Qed.

(** An atom has no Boolean structure. *)
Lemma atomlike_structured a v : atomlike a = true -> eval e a = Some v -> structured a = false.
Proof.
  intros [Ha|Ha]%atomlike_cases Hev; [| by destruct a]. apply gatom_kind in Ha as (k & ch & -> & Hk & Hch & _).
  destruct k; try done. pose proof (children_values _ _ _ Hev Hch) as Hvs. pose proof Hev as (Ha & _)%eval_MkNode.
  destruct ch as [|c ch]; [done |]. apply Forall_cons in Hvs as [[x Hx] _].
  cbn. unfold child0_boolean. cbn. by rewrite (eval_getType false e c _ Hx).
Qed.
Lemma atomlike_ready a : atomlike a = true -> stable a = true /\ small a = true /\ isBitOfKind a = false.
Proof.
  intros [Ha|Ha]%atomlike_cases; [by destruct (gatom_ready a Ha) as (? & ? & _ & ?) |].
  destruct a; try done. split; [apply stable_const | done].
Qed.

(** The first rewrite leaves the atom as it is, the second turns its circuit into a bit formula with the same value. *)
Lemma normalize_ok a st : atomlike a = true -> Inv st -> wp Inv ext (EagerBitblaster.rewrite RF a) (fun _ r => r = a) st.
Proof.
  intros Ha Hi. destruct (atomlike_ready a Ha) as (Hs & Hn & _). eapply wp_mono; [apply rewrite_wp; [by left | done | done] |].
  intros st' r _ _ Hr. by apply (rw_keep _ _ _ _ _ Hr).
Qed.
Lemma rewrite_bits_ok R t b st : D R st t b -> (optProof = false -> small t = true) -> Inv st ->
  wp Inv ext (if negb optProof then EagerBitblaster.rewrite RF t else mret t)
    (fun st' r => eval e r = Some (VBool b) /\ bitform (vars st') R r /\ (isConstBool t = true -> r = t)) st.
Proof.
  intros (Hev & Hbf & Hf & _) Hsm Hi. destruct optProof eqn:Ho; cbn [negb]; [by apply wp_ret; [apply _ | | done] |].
  specialize (Hsm eq_refl). eapply wp_mono; [apply rewrite_wp; [right; split; [done | by apply Z.ltb_lt] | done | done] |].
  intros st' r _ He' Hr. split; [by apply (rw_refines _ _ _ _ _ Hr) |]. destruct (rw_keep _ _ _ _ _ Hr) as [Hst Hat Hform].
  destruct (bformula_leaves r (Hform Hf)) as (Hb1 & Hl1 & _). destruct (bformula_leaves t Hf) as (_ & _ & Hl2). split.
  - split; [done |]. intros a Ha. destruct (Hl1 a Ha) as [?|[?|Hin]]; [by left | by right; left |].
    eapply bit_leaf_mono; [apply (ext_sub _ _ He') | reflexivity |]. by apply Hbf, Hl2, Hat.
  - intros Hc. apply Hst. destruct t; try done. apply stable_const.
Qed.

(** The bit formula [bbAtom] defines the atom with. *)
Lemma circuit_step a b st :
  atomlike a = true -> eval e a = Some (VBool b) -> 2 * node_size a <= f -> Inv st -> Below (node_size a) st ->
  wp Inv ext (match a with ConstBool _ => mret a | _ => d_atomBBStrategies bb (getKind a) a end)
    (fun st' t => D (node_size a) st' t b /\ (optProof = false -> small t = true) /\ (isConstBool a = true -> t = a)) st.
Proof.
  intros Ha Hev Hfu Hi Hbl. apply atomlike_cases in Ha as [Ha|Ha].
  - destruct (gatom_ready a Ha) as (_ & _ & Hfit & _). eapply wp_mono.
    { assert (forall Q, wp Inv ext (d_atomBBStrategies bb (getKind a) a) Q st ->
        wp Inv ext (match a with ConstBool _ => mret a | _ => d_atomBBStrategies bb (getKind a) a end) Q st) as Hm.
      { intros Q. apply gatom_kind in Ha as (k & ch & -> & _). done. }
      apply Hm. by apply (atom_circuit_ok a b). }
    intros st' t _ _ [Hd Hc]. split; [done |]. unfold circuit_fits in Hfit. rewrite Hc in Hfit. split.
    + intros Ho. by rewrite Ho in Hfit.
    + intros Hca. by apply gatom_kind in Ha as (k & ch & -> & _).
  - destruct a as [|d| |]; try done. injection Hev as ->. apply wp_ret; [apply _ | done |]. split; [| done].
    split; [done |]. split; [split; [done |]; intros x [<-|[]]; by left | done].
Qed.

Lemma bbAtom_body_ok a b st :
  atomlike a = true -> structured a = false -> eval e a = Some (VBool b) -> 2 * node_size a < S f -> Inv st ->
  Below (node_size a) st ->
  wp Inv ext
    (normalized ← EagerBitblaster.rewrite RF a;
     atom_bb ← (match normalized with
                | ConstBool _ => mret normalized
                | _ => d_atomBBStrategies bb (getKind normalized) normalized
                end);
     atom_bb ← (if negb optProof then EagerBitblaster.rewrite RF atom_bb else mret atom_bb);
     let atom_definition := MkNode EQUAL [a; atom_bb] in
     _ ← EagerBitblaster.storeBBAtom a atom_bb;
     convertAndAssertTop (bbAtom bb) optProof atom_definition false false)
    (fun st' _ => reg st'.2 a) st.
Proof.
  intros Ha Hs Hev Hfu Hi Hbl. destruct (atomlike_ready a Ha) as (_ & _ & Hk).
  eapply wp_bind; [apply _ | by apply normalize_ok |]. intros st1 r Hi1 He1 ->. apply (Below_ext _ _ _ He1) in Hbl.
  eapply wp_bind; [apply _ | apply (circuit_step a b); [done | done | lia | done | done] |].
  intros st2 t Hi2 He2 (Hd & Hsm & Hct). apply (Below_ext _ _ _ He2) in Hbl.
  eapply wp_bind; [apply _ | by apply (rewrite_bits_ok (node_size a) t b) |]. intros [s c0] t' Hi3 He3 (Het & Hbt & Hct').
  apply (Below_ext _ _ _ He3) in Hbl. cbv zeta.
  destruct (store_atom_state a t' s c0 Hk Hi3 Hbl) as (c & Est & Hi4 & Hbl4 & Hv & Hin).
  destruct (define_atom_ok a t' b s c0 c) as (st' & E & Hi5 & He5 & Hr); try done; [by rewrite Hv | | lia |].
  { intros Hca. rewrite <- (Hct Hca) in Hca |- *. by apply Hct'. }
  exists st', tt. split; [| done]. unfold mbind, SM_bind. rewrite Est. exact E.
Qed.

Lemma atom_step : atom_goal (EagerBitblaster.bitblaster optProof RF (S f)) (S f).
Proof.
  intros a st HP Hi. cbn [EagerBitblaster.bitblaster bbAtom]. unfold EagerBitblaster.bbAtom.
  destruct HP as [[[Hbo Hbv] _]|(Ha & Hs & [b Hev] & HF & Hfu & Hbl)].
  { destruct a as [| | |k ch]; try done. destruct k; try done. apply wp_ret; [apply _ | done | by left]. }
  destruct (atomlike_ready a Ha) as (_ & _ & Hnb).
  assert (forall (k : Node -> SM St unit), wp Inv ext (k a) (fun st' _ => reg st'.2 a) st ->
    wp Inv ext ((match a with MkNode NOT _ => lift (child a 0) | _ => mret a end) ≫= k) (fun st' _ => reg st'.2 a) st) as Hnot.
  { intros k Hk. destruct a as [| | |ka ch]; try exact Hk. by destruct ka. }
  apply Hnot. clear Hnot.
  assert (forall (P : SM St unit), wp Inv ext P (fun st' _ => reg st'.2 a) st ->
    wp Inv ext (match getKind a with BITVECTOR_BITOF _ => mret tt | _ => P end) (fun st' _ => reg st'.2 a) st) as Hbit.
  { intros P HP. unfold isBitOfKind in Hnb. by destruct (getKind a). }
  apply Hbit. clear Hbit. unfold EagerBitblaster.hasBBAtom. apply wp_bb_gets.
  destruct (bool_decide_reflect (a ∈ EagerBitblaster.d_bbAtoms st.2)) as [Hin|Hnin].
  { apply wp_ret; [apply _ | done | by right]. }
  cbv zeta. destruct Hfu as [[[Hbk _]|Hin]|Hfu]; [| done |].
  { unfold isBitOfKind in Hnb. destruct a as [| | |k ch]; try done. by destruct k. }
  by eapply bbAtom_body_ok.
Qed.

End step.

(** Every level of the recursion meets its contract. *)
Lemma bitblaster_ok F :
  term_goal (EagerBitblaster.bitblaster optProof RF F) F /\ atom_goal (EagerBitblaster.bitblaster optProof RF F) F.
Proof.
  induction F as [|F [IHt IHa]].
  - split; [intros n x st _ _ ?; lia |]. intros a st [[_ ?]|(_ & _ & _ & ? & _)]; lia.
  - split; [by apply term_step | by apply atom_step].
Qed.

(** ** Asserting formulas *)
Lemma eval_bform t b : eval e t = Some (VBool b) -> bform t = true.
Proof.
  revert b. induction t as [x t|d|v|k ch IH] using node_ind'; intros b Hev; try done.
  destruct (structured (MkNode k ch)) eqn:Hs; [| by eapply bform_leaf].
  change (bform (MkNode k ch)) with
    (if structured (MkNode k ch) then arity_ok k (length ch) && forallb bform ch
     else match k with EQUAL => isOk (child0_boolean ch) | _ => true end). rewrite Hs.
  destruct (structured_eval e k ch b Hs Hev) as (bs & Hbs & _). apply eval_MkNode in Hev as [-> _].
  apply forallb_forall. intros c Hc%list_elem_of_In. apply list_elem_of_lookup in Hc as [i Hi].
  destruct (Forall2_lookup_l _ _ _ _ _ Hbs Hi) as (x & _ & Hx). by eapply (Forall_lookup_1 _ _ _ _ IH Hi).
Qed.

Definition assertable (F : nat) (n : Node) : Prop :=
  forall a, In a (leaves n) -> formula_leaf optProof a = true /\ 2 * node_size a < F.

Lemma assertable_bitform vs F n b : assertable F n -> eval e n = Some (VBool b) -> bitform vs F n.
Proof.
  intros Ha Hev. split; [by eapply eval_bform |]. intros a Hin. destruct (Ha a Hin) as [Hl Hr].
  unfold formula_leaf in Hl. apply orb_true_iff in Hl as [[Hl|Hl]%orb_true_iff|Hl]; [by left | by right; left |].
  do 3 right. split; [done | lia].
Qed.

Lemma bbFormula_ok F n b st :
  assertable F n -> eval e n = Some (VBool b) -> (Induced -> b = true) -> Inv st -> (forall R, Below R st) ->
  wp Inv ext (EagerBitblaster.bbFormula optProof RF F n) (fun st' _ => asserted al mu n false st') st.
Proof.
  intros Ha Hev Hb Hi Hbl. apply (stream_ok F (proj2 (bitblaster_ok F))); [by eapply eval_bform | done | |].
  - intros a Hin Hth. destruct (Ha a Hin) as [Hl Hr]. destruct (leaves_eval e n b a Hev Hin) as [y Hy].
    right. unfold formula_leaf in Hl. split.
    + apply atomlike_cases. apply orb_true_iff in Hl as [[Hl|Hl]%orb_true_iff|Hl]; [by right | by destruct a as [? []| | |] | by left].
    + split; [by eapply leaf_structured |]. split; [by eexists |]. split; [lia |]. by split; [right |].
  - intros HInd. transitivity b; [| by apply Hb]. apply (peval_eval mu e n b); [| done]. intros x y Hx Hcx Hxe.
    apply (Induced_mu HInd); [by eapply leaf_structured | done | done].
Qed.

Abbreviation solver_state bb set := (EagerBitblastSolver.MkState set (Some bb)).

Lemma assertAll_ok F fs : forall set st,
  Forall (assertable F) fs -> Forall (fun n => exists b, eval e n = Some (VBool b) /\ (Induced -> b = true)) fs ->
  Inv st -> (forall R, Below R st) ->
  exists st', EagerBitblastSolver.assertAll optProof RF F fs (solver_state st set)
      = Ok (solver_state st' (foldl (fun l n => EagerBitblaster.set_insert n l) set fs)) /\
    Inv st' /\ ext st st' /\ forall n, In n fs -> asserted al mu n false st'.
Proof.
  induction fs as [|n fs IH]; intros set st Ha He Hi Hbl.
  - exists st. split; [done |]. split; [done |]. split; [reflexivity | done].
  - apply Forall_cons in Ha as [Ha Has], He as [(b & Hev & Hb) Hes].
    destruct (bbFormula_ok F n b st Ha Hev Hb Hi Hbl) as (st1 & [] & E1 & Hi1 & He1 & H1).
    destruct (IH (EagerBitblaster.set_insert n set) st1 Has Hes Hi1) as (st2 & E2 & Hi2 & He2 & H2).
    { intros R. by eapply Below_ext. }
    exists st2. split.
    + cbn [EagerBitblastSolver.assertAll]. unfold EagerBitblastSolver.assertFormula.
      cbn [EagerBitblastSolver.d_bitblaster EagerBitblastSolver.d_assertionSet]. rewrite E1. exact E2.
    + split; [done |]. split; [by etrans |]. intros m [<-|Hm]; [| by apply H2].
      by eapply asserted_ext.
Qed.

Lemma init_ok : Inv (CnfStream_init, EagerBitblaster.init) /\ forall R, Below R (CnfStream_init, EagerBitblaster.init).
Proof.
  split; [split; [| split] | split].
  - split; try done; cbn; [by left | by right; left].
  - intros _ _ n l Hl. done.
  - split; cbn; try done; [intros v Hv; by apply elem_of_nil in Hv | intros v Hv; by apply elem_of_nil in Hv].
  - intros n _ _ Hn. done.
  - intros a Ha. by apply elem_of_nil in Ha.
Qed.
End eager_ok.
