(* ===== verification/EagerSat.v ===== *)
(** * The eager solver decides satisfiability

    The theorems of [EagerBitblastSolver] as a whole, with the rewriter of the program,
    from the invariant of [EagerCorrect]: asserting formulas of the fragment terminates without an
    exception; the clauses are satisfiable exactly if the formulas are; what
    [collectModelInfo] reads off a satisfying assignment determines a model of the formulas;
    and [checkSat] answers accordingly, for a SAT solver that decides satisfiability. *)

From S2P Require Import Prelude Integer BitVector Node BitblastUtils BitblastStrategies BitblastCorrect.
From S2P Require Import BVRules BVNormalize BVSolveEq BVRewriter BoolRewriter RewriterLoop RewriterLoopCorrect BoolFormulas.
From S2P Require Import CnfStream CnfCorrect EagerBitblaster PlainCircuits EagerCorrect.
Local Open Scope nat_scope.

(** ** Numbers from bits *)
Fixpoint num_of (f : nat -> bool) (n : nat) : Z :=
  match n with 0 => 0%Z | S m => (2 * num_of (fun i => f (S i)) m + Z.b2z (f 0%nat))%Z end.

Lemma num_of_bits f n i : i < n -> Z.testbit (num_of f n) (Z.of_nat i) = f i.
Proof.
  revert f i. induction n as [|n IH]; intros f i Hi; [lia |]. cbn [num_of]. destruct i as [|i].
  - apply Z.testbit_0_r.
  - rewrite Nat2Z.inj_succ, Z.testbit_succ_r by lia. apply (IH (fun i => f (S i))). lia.
Qed.

Lemma num_of_range f n : (0 <= num_of f n < 2 ^ Z.of_nat n)%Z.
Proof.
  revert f. induction n as [|n IH]; intros f; [cbn; lia |]. cbn [num_of].
  specialize (IH (fun i => f (S i))). rewrite Nat2Z.inj_succ, Z.pow_succ_r by lia. destruct (f 0); cbn; lia.
Qed.

(** ** The model an assignment stands for *)
Definition leaf_value (al : Z -> bool) (s : CnfStream) (a : Node) : bool :=
  match lookupLiteral s a with Some l => lval al l | None => false end.

Definition model_of (al : Z -> bool) (s : CnfStream) : env := {|
  e_bool x := leaf_value al s (Var x BOOLEAN_TYPE);
  e_bv x n := num_of (fun i => leaf_value al s (EagerBitblaster.mkBitOf (Var x (BITVECTOR_TYPE n)) i)) (Z.to_nat n);
  e_udiv0 _ _ := 0%Z;
  e_urem0 _ _ := 0%Z
|}.

Lemma model_of_bits al s x n i : (0 <= i < n)%Z ->
  leaf_value al s (MkNode (BITVECTOR_BITOF i) [Var x (BITVECTOR_TYPE n)]) = Z.testbit (e_bv (model_of al s) x n) i.
Proof.
  intros Hi. cbn. rewrite <- (Z2Nat.id i) at 2 by lia. rewrite num_of_bits by lia.
  unfold EagerBitblaster.mkBitOf. by rewrite Z2Nat.id by lia.
Qed.

Lemma leaf_value_Agree al s : Agree al (leaf_value al s) s.
Proof. intros n l _ _ Hl. unfold leaf_value. by rewrite Hl. Qed.

(** ** The assignment a model stands for *)
Definition induced (e : env) (a : Node) : bool :=
  match a with
  | MkNode (BITVECTOR_BITOF i) [Var x (BITVECTOR_TYPE n)] => Z.testbit (e_bv e x n) i
  | _ => match eval e a with Some (VBool b) => b | _ => false end
  end.

Lemma induced_spec e a b : eval e a = Some (VBool b) -> induced e a = b.
Proof.
  intros Hev. unfold induced. destruct a as [| | |k ch]; try by rewrite Hev.
  destruct k; try by rewrite Hev. destruct ch as [|[x [| |n]| | |] [|]]; try by rewrite Hev.
  apply eval_MkNode in Hev as (_ & vs & Hvs & Hk). inversion Hvs as [|? w ? ? Hw Hvs']; subst.
  inversion Hvs'; subst. cbn in Hw. apply fit_Some in Hw as [Hm ->]. unfold bv in Hk. cbn in Hk.
  case_decide as Hd; [| done]. injection Hk as <-. rewrite testbit_mod_pow2 by lia.
  by rewrite (proj2 (Z.ltb_lt _ _)) by lia.
Qed.

Section main.
Context {G : Gmp} {HG : GmpSpec G} {TR : TheoryRewriters} {HR : BitRewriters TR}.
Context (optProof : bool) (RF F : nat).
Hypothesis HRF : eager_fuel <= RF.

(** A formula of the fragment, with [F] above twice the size of its atoms. *)
Definition eager_ok (n : Node) : Prop :=
  (exists b, eval env0 n = Some (VBool b)) /\ assertable optProof F n.
Definition holds (e : env) (n : Node) : Prop := eval e n = Some (VBool true).

Definition eager_okb (n : Node) : bool :=
  match eval env0 n with Some (VBool _) => true | _ => false end &&
  forallb (fun a => formula_leaf optProof a && (2 * node_size a <? F)) (leaves n).

Lemma eager_okb_Forall fs : forallb eager_okb fs = true -> Forall eager_ok fs.
Proof.
  intros H. apply Forall_forall. intros n Hn%list_elem_of_In. rewrite forallb_forall in H.
  apply H, andb_true_iff in Hn as [He Hl]. split.
  - destruct (eval env0 n) as [[b|]|]; try done. by exists b.
  - intros a Ha. rewrite forallb_forall in Hl. apply Hl, andb_true_iff in Ha as [Ha Hr%Nat.ltb_lt]. done.
Qed.

Lemma eager_ok_eval e n : eager_ok n -> exists b, eval e n = Some (VBool b).
Proof. intros [[b Hb] _]. by eapply eval_defined_bool. Qed.

Definition start : EagerBitblastSolver.state :=
  EagerBitblastSolver.MkState [] (Some (CnfStream_init, EagerBitblaster.init)).
Abbreviation run fs := (EagerBitblastSolver.assertAll optProof RF F fs start).

Lemma eager_assertable fs : Forall eager_ok fs -> Forall (assertable optProof F) fs.
Proof. intros H. eapply Forall_impl; [exact H |]. by intros n [_ ?]. Qed.

(** What is known of the state at the end, whatever the model. *)
Lemma run_exists fs : Forall eager_ok fs ->
  exists st, run fs = Ok (EagerBitblastSolver.MkState (foldl (fun l n => EagerBitblaster.set_insert n l) [] fs) (Some st)) /\
    CI optProof (fun _ => false) (induced env0) env0 False st /\
    forall n, theoryLeaf n = true -> lookupLiteral st.1 n <> None -> reg st.2 n.
Proof.
  intros Hfs. destruct (init_ok optProof (fun _ => false) (induced env0) env0 False) as [Hi Hb].
  edestruct (assertAll_ok optProof RF HRF (fun _ => false) (induced env0) env0) with (Induced := False) (F := F) (fs := fs)
    as (st & E & (_ & _ & HC) & He & _); [done | | done | by apply eager_assertable | | exact Hi | exact Hb |].
  - intros x. by apply induced_spec.
  - eapply Forall_impl; [exact Hfs |]. intros n Hn. destruct (eager_ok_eval env0 n Hn) as [b Hev]. by exists b.
  - exists st. split; [done |]. split; [done |]. intros n Hn Hl.
    destruct (Below_ext _ _ _ _ (S (node_size n)) _ _ He (Hb _)) as [H _]. apply H; [done | lia | done].
Qed.

Section final.
Context (fs : list Node) (set : list Node) (st : CnfStream * EagerBitblaster.state).
Hypothesis Hfs : Forall eager_ok fs.
Hypothesis Hrun : run fs = Ok (EagerBitblastSolver.MkState set (Some st)).

(** The clauses hold in the assignment a model of the formulas stands for. *)
Lemma run_sat e : Forall (holds e) fs -> sat (assignment_of (induced e) st.1) st.1.
Proof.
  intros He. set (al := assignment_of (induced e) st.1).
  destruct (init_ok optProof al (induced e) e True) as [Hi Hb].
  edestruct (assertAll_ok optProof RF HRF al (induced e) e) with (Induced := True) (F := F) (fs := fs)
    as (st' & E & (Hwf & _) & Hext & _); [done | | | by apply eager_assertable | | exact Hi | exact Hb |].
  - intros x. by apply induced_spec.
  - intros _ a b _ _. apply induced_spec.
  - eapply Forall_impl; [exact He |]. intros n Hn. by exists true.
  - unfold start in Hrun. rewrite E in Hrun. injection Hrun as _ <-. destruct Hext as [_ Hd _ _].
    apply Hd; [done | by apply assignment_Faithful |]. intros c [<-|[<-|[]]]; done.
Qed.

(** A model whose bits and Boolean variables have the values of their literals satisfies the formulas. *)
Section model.
Context (al : Z -> bool) (mu : Node -> bool) (e : env).
Hypothesis Hsat : sat al st.1.
Hypothesis mu_bits : forall x n i, (0 <= i < n)%Z ->
  mu (MkNode (BITVECTOR_BITOF i) [Var x (BITVECTOR_TYPE n)]) = Z.testbit (e_bv e x n) i.
Hypothesis mu_bool : forall x, mu (Var x BOOLEAN_TYPE) = e_bool e x.
Hypothesis Hagree : Agree al mu st.1.

Lemma run_inv : CnfCorrect.Inv al mu (CI optProof al mu e False) st /\
  (forall R, Below al mu e False R st) /\ forall n, In n fs -> asserted al mu n false st.
Proof.
  destruct (init_ok optProof al mu e False) as [Hi Hb].
  edestruct (assertAll_ok optProof RF HRF al mu e mu_bits mu_bool) with (Induced := False) (F := F) (fs := fs)
    as (st' & E & Hinv & Hext & Has); [done | by apply eager_assertable | | exact Hi | exact Hb |].
  - eapply Forall_impl; [exact Hfs |]. intros n Hn. destruct (eager_ok_eval e n Hn) as [b Hev]. by exists b.
  - unfold start in Hrun. rewrite E in Hrun. injection Hrun as _ <-. split; [done |]. split; [| done].
    intros R. eapply Below_ext; [exact Hext | apply Hb].
Qed.

Lemma run_model : Forall (holds e) fs.
Proof.
  destruct run_inv as ((Hwf & Hsd & _) & Hb & Has). apply Forall_forall. intros n Hn.
  rewrite Forall_forall in Hfs. destruct (eager_ok_eval e n (Hfs n Hn)) as [b Hev].
  destruct (Has n) as [Hp Hk]; [by apply list_elem_of_In |].
  assert (peval mu n = b) as Hv.
  { eapply (bitform_value optProof RF HRF al mu e mu_bits mu_bool False F n b st); [| done | done | done | by right].
    by eapply (assertable_bitform optProof RF HRF); [apply Hfs |]. }
  rewrite <- Hv, Hp in Hev; [done | done |]. by apply Hsd.
Qed.
End model.

Section read.
Context (al : Z -> bool).
Hypothesis Hsat : sat al st.1.
Abbreviation e := (model_of al st.1).
Abbreviation mu := (leaf_value al st.1).
Abbreviation sat_value := (fun l => Some (lval al l)).

Lemma run_CI : CI optProof al mu e False st.
Proof. apply (run_inv al mu e); first [done | apply model_of_bits | apply leaf_value_Agree]. Qed.

Lemma bits_value_ok bits : EagerBitblaster.bits_value sat_value true bits st =
  Ok (Some (num_of (fun i => match bits !! i with Some t => mu t | None => false end) (length bits)), st).
Proof.
  induction bits as [|b bits IH]; [done |]. cbn [EagerBitblaster.bits_value length num_of].
  assert (mu b = match lookupLiteral st.1 b with Some l => lval al l | None => false end) as Hb by done.
  unfold mbind, SM_bind. rewrite IH. unfold hasLiteral, getLiteral, cnf_gets, mbind, SM_bind.
  change ((b :: bits) !! 0) with (Some b). cbv beta iota. rewrite Hb.
  destruct (lookupLiteral st.1 b) as [l|] eqn:El; unfold mret, SM_ret; cbv beta iota; rewrite ?El; cbv beta iota;
    do 4 f_equal; apply Z.mul_comm.
Qed.

(** [getModelFromSatSolver] reads this model. *)
Lemma getModel_var x n : (1 <= n < 2 ^ 32)%Z ->
  assoc (Var x (BITVECTOR_TYPE n)) (EagerBitblaster.d_termCache st.2) <> None ->
  EagerBitblaster.getModelFromSatSolver sat_value (Var x (BITVECTOR_TYPE n)) true st =
  Ok (Some (ConstBV (MkBitVector n (e_bv e x n))), st).
Proof.
  intros Hn Hc. destruct (assoc _ _) as [bits|] eqn:E; [| done].
  destruct (ci_cache _ _ _ _ _ _ run_CI _ _ E) as (Hv & _ & Hb). destruct (Hb (MkBitVector n (e_bv e x n mod 2 ^ n))) as [Hlen _].
  { cbn. by apply fit_Some. }
  cbn in Hlen. unfold zlen in Hlen.
  unfold EagerBitblaster.getModelFromSatSolver, EagerBitblaster.hasBBTerm, EagerBitblaster.getBBTerm,
    EagerBitblaster.bb_gets, mbind, SM_bind. rewrite E. cbn [negb]. cbv beta iota.
  rewrite E. unfold mret at 1, SM_ret at 1. rewrite bits_value_ok. cbv beta iota. unfold mret, SM_ret. do 4 f_equal.
  pose proof (num_of_range (fun i => match bits !! i with Some t => mu t | None => false end) (length bits)) as Hr.
  unfold BV.mk. rewrite modByPow2_ok, Z.mod_small by lia. f_equal; [lia |].
  pose proof (num_of_range (fun i => mu (EagerBitblaster.mkBitOf (Var x (BITVECTOR_TYPE n)) i)) (Z.to_nat n)) as Hr'.
  cbn [e_bv model_of]. apply (bits_eq_below n); [rewrite <- Hlen; lia | rewrite Z2Nat.id in Hr' by lia; lia |].
  intros i Hi. rewrite <- (Z2Nat.id i) by lia. rewrite !num_of_bits by lia.
  destruct (lookup_lt_is_Some_2 bits (Z.to_nat i)) as [t Ht]; [lia |]. rewrite Ht. by rewrite (Hv _ _ Ht).
Qed.

(** The equalities that [collectModelInfo] gives the model. *)
Definition value_of (v : Node) : Node :=
  match v with Var x (BITVECTOR_TYPE n) => ConstBV (MkBitVector n (e_bv e x n)) | _ => v end.
Lemma collect_equations shared vs : (forall v, v ∈ vs -> v ∈ EagerBitblaster.d_variables st.2) ->
  EagerBitblaster.collect sat_value shared vs st = Ok (map (fun v => (v, value_of v)) vs, st).
Proof.
  induction vs as [|v vs IH]; intros Hvs; [done |]. destruct (ci_vars _ _ _ _ _ _ run_CI v) as (x & n & -> & Hn & Hc); [apply Hvs; left |].
  cbn [EagerBitblaster.collect map]. unfold mbind at 1, SM_bind at 1. cbn [EagerBitblaster.collects EagerBitblaster.isLeaf].
  change (lift (EagerBitblaster.collects shared (Var x (BITVECTOR_TYPE n))) st) with (Ok (true, st)). cbv iota.
  unfold EagerBitblaster.hasBBTerm, EagerBitblaster.bb_gets, mbind, SM_bind.
  destruct (assoc (Var x (BITVECTOR_TYPE n)) (EagerBitblaster.d_termCache st.2)) as [bits|] eqn:E; [| done]. cbn [orb check lift].
  rewrite (getModel_var x n Hn) by congruence. unfold mret, SM_ret. rewrite IH; [done |]. intros v Hv. apply Hvs. by right.
Qed.

(** A model that has the values of the equalities, and of the literals of the Boolean variables. *)
Definition agrees (e' : env) (eqs : list (Node * Node)) : Prop :=
  Forall (fun '(v, c) => eval e' v = eval e' c) eqs /\ forall x, e_bool e' x = mu (Var x BOOLEAN_TYPE).
Abbreviation eqs := (map (fun v => (v, value_of v)) (EagerBitblaster.d_variables st.2)).

Lemma value_range x n : (1 <= n < 2 ^ 32)%Z -> (0 <= e_bv e x n < 2 ^ n)%Z.
Proof.
  intros Hn. pose proof (num_of_range (fun i => mu (EagerBitblaster.mkBitOf (Var x (BITVECTOR_TYPE n)) i)) (Z.to_nat n)) as Hr.
  rewrite Z2Nat.id in Hr by lia. exact Hr.
Qed.
Lemma value_eval e' x n : (1 <= n < 2 ^ 32)%Z -> eval e' (value_of (Var x (BITVECTOR_TYPE n))) = Some (bv n (e_bv e x n)).
Proof. intros Hn. pose proof (value_range x n Hn). cbn. rewrite decide_True; [done |]. unfold wf. cbn in *. lia. Qed.

Lemma model_agrees : agrees e eqs.
Proof.
  split; [| done]. apply Forall_forall. intros [v c] (v' & [= -> ->] & Hv)%list_elem_of_fmap.
  destruct (ci_vars _ _ _ _ _ _ run_CI v' Hv) as (x & n & -> & Hn & _). rewrite value_eval by done. cbn [eval].
  apply fit_Some. split; [done |]. f_equal. rewrite Z.mod_small; [done | by apply value_range].
Qed.
Lemma agrees_bits e' x n i : agrees e' eqs -> Var x (BITVECTOR_TYPE n) ∈ EagerBitblaster.d_variables st.2 -> (0 <= i < n)%Z ->
  mu (MkNode (BITVECTOR_BITOF i) [Var x (BITVECTOR_TYPE n)]) = Z.testbit (e_bv e' x n) i.
Proof.
  intros [Ha _] Hin Hi. destruct (ci_vars _ _ _ _ _ _ run_CI _ Hin) as (? & ? & [= <- <-] & Hn & _).
  rewrite Forall_forall in Ha. specialize (Ha (Var x (BITVECTOR_TYPE n), value_of (Var x (BITVECTOR_TYPE n)))).
  cbv beta iota in Ha. rewrite (value_eval e' x n Hn) in Ha. specialize (Ha ltac:(apply list_elem_of_fmap; by eexists)).
  cbn [eval] in Ha. apply fit_Some in Ha as [_ [= E]]. rewrite (model_of_bits al st.1) by done. cbn [e_bv model_of]. rewrite E, testbit_mod_pow2 by lia.
  by rewrite (proj2 (Z.ltb_lt _ _)) by lia.
Qed.

(** The values of leaves in such a model, those of the literals where there are some. *)
Definition leaves_of (e' : env) (a : Node) : bool :=
  match a with
  | MkNode (BITVECTOR_BITOF i) [Var x (BITVECTOR_TYPE n)] => if (0 <=? i)%Z && (i <? n)%Z then Z.testbit (e_bv e' x n) i else mu a
  | _ => mu a
  end.
Lemma leaves_of_cases e' a : leaves_of e' a = mu a \/ (exists x n i, a = MkNode (BITVECTOR_BITOF i) [Var x (BITVECTOR_TYPE n)] /\
  (0 <= i < n)%Z /\ leaves_of e' a = Z.testbit (e_bv e' x n) i).
Proof.
  unfold leaves_of. destruct a as [| | |k ch]; try by left. destruct k; try by left. rename bitIndex into i. destruct ch as [|[x [| |n]| | |] [|]]; try by left.
  destruct ((0 <=? i)%Z && (i <? n)%Z) eqn:E; [| by left]. right. exists x, n, i. apply andb_true_iff in E as [?%Z.leb_le ?%Z.ltb_lt]. split; [done | split; [lia | done]].
Qed.

(** Every such model satisfies the formulas. *)
Lemma read_model e' : agrees e' eqs -> Forall (holds e') fs.
Proof.
  intros Ha. destruct (run_exists fs Hfs) as (st' & E & HC & Hreg). pose proof Hrun as Hr. rewrite E in Hr. injection Hr as _ ->.
  apply (run_model al (leaves_of e')); [done | | intros x; symmetry; apply Ha |].
  - intros x n i Hi. cbn. by rewrite (proj2 (Z.leb_le _ _)), (proj2 (Z.ltb_lt _ _)) by lia.
  - intros a l Hs Hc Hl. destruct (leaves_of_cases e' a) as [->|(x & n & i & -> & Hi & ->)].
    + unfold leaf_value. by rewrite Hl.
    + rewrite <- (agrees_bits e' x n i Ha); [unfold leaf_value; by rewrite Hl | | done].
      destruct (Hreg (MkNode (BITVECTOR_BITOF i) [Var x (BITVECTOR_TYPE n)])) as [[_ Hv]|Hv]; [done | congruence | by apply Hv |].
      by apply (ci_atoms _ _ _ _ _ _ HC) in Hv.
Qed.
End read.
End final.
End main.

(** ** The SAT solver *)
Definition satisfiable (cs : list SatClause) : Prop := exists al, forall c, In c cs -> sat_clause al c = true.
(** What the eager solver expects of the SAT solver's answer. *)
Definition solver_correct (sat_solve : list SatClause -> bool) : Prop :=
  forall cs, sat_solve cs = true <-> satisfiable cs.

(** A solver that is correct: try all assignments of the variables that occur. *)
Definition upd (al : Z -> bool) (v : Z) (b : bool) : Z -> bool := fun w => if (w =? v)%Z then b else al w.
Fixpoint search (vs : list Z) (al : Z -> bool) (cs : list SatClause) : bool :=
  match vs with
  | [] => forallb (sat_clause al) cs
  | v :: vs' => search vs' (upd al v true) cs || search vs' (upd al v false) cs
  end.
Definition brute_force (cs : list SatClause) : bool :=
  search (map getSatVariable (concat cs)) (fun _ => false) cs.

Lemma search_sound vs al cs : search vs al cs = true -> satisfiable cs.
Proof.
  revert al. induction vs as [|v vs IH]; intros al; cbn.
  - intros H. exists al. by apply forallb_forall.
  - rewrite orb_true_iff. intros [H|H]; by apply IH in H.
Qed.

Lemma sat_clause_agree al al' c :
  (forall l, In l c -> al (getSatVariable l) = al' (getSatVariable l)) -> sat_clause al c = sat_clause al' c.
Proof.
  unfold sat_clause. induction c as [|l c IH]; [done |]. intros H. cbn. rewrite IH by (intros; apply H; by right).
  f_equal. unfold lval. by rewrite (H l) by (by left).
Qed.

Lemma search_complete vs al al' cs :
  (forall v, ~ In v vs -> In v (map getSatVariable (concat cs)) -> al v = al' v) ->
  (forall c, In c cs -> sat_clause al' c = true) -> search vs al cs = true.
Proof.
  revert al. induction vs as [|v vs IH]; intros al Hag Hs; cbn.
  - apply forallb_forall. intros c Hc. rewrite <- (Hs c Hc). apply sat_clause_agree. intros l Hl.
    apply Hag; [by intros [] |]. apply in_map, in_concat. eauto.
  - assert (search vs (upd al v (al' v)) cs = true) as H.
    { apply IH; [| done]. intros w Hw Hin. unfold upd. destruct (Z.eqb_spec w v); [by subst |].
      apply Hag; [| done]. intros [->|?]; done. }
    destruct (al' v); rewrite H; [done | apply orb_true_r].
Qed.

Lemma brute_force_correct : solver_correct brute_force.
Proof.
  intros cs. split; [apply search_sound |]. intros [al' Hs]. apply (search_complete _ _ al'); naive_solver.
Qed.

(** ** The rewriter of the program *)
Section tables.
Context {G : Gmp} {HG : GmpSpec G} {NR : NestedRewriter}.
Context (node_lt : Node -> Node -> bool) (hash_order : list (Node * Count) -> list (Node * Count)) (divByZeroConst extractArith : bool).
Context (other : TheoryId -> Node -> M RewriteResponse).
Abbreviation tables := (rewriter_tables node_lt hash_order divByZeroConst extractArith other).

Lemma leaves_it_done n : leaves_it (Ok (MkResponse REWRITE_DONE n)) n = true.
Proof. unfold leaves_it. cbn [status node]. rewrite bool_decide_true by done. by apply node_eqb_eq. Qed.
Lemma tables_rewriters : BitRewriters tables.
Proof.
  split.
  - apply boolean_contract; [apply normal_atom_value | apply normal_atom_stable].
  - intros []; reflexivity.
  - intros x m i _ _. set (v := Var x (BITVECTOR_TYPE m)). set (n := MkNode (BITVECTOR_BITOF i) [v]).
    assert (stable (TR := tables) v = true) as Hv.
    { change (leaves_it (Ok (MkResponse REWRITE_DONE v)) v && leaves_it (Ok (MkResponse REWRITE_DONE v)) v && true && true = true).
      by rewrite leaves_it_done. }
    change (leaves_it (Ok (MkResponse REWRITE_DONE n)) n && leaves_it (Ok (MkResponse REWRITE_DONE n)) n && true &&
      (true && (stable (TR := tables) v && true)) = true). by rewrite leaves_it_done, Hv.
Qed.
End tables.

(** ** The theorems *)
(** A session: [initialize], and the formulas. *)
Definition session {G : Gmp} {TR : TheoryRewriters} (optProof : bool) (RF F : nat) (fs : list Node) : M EagerBitblastSolver.state :=
  s ← EagerBitblastSolver.initialize EagerBitblastSolver.create;
  EagerBitblastSolver.assertAll optProof RF F fs s.

Lemma set_insert_nonempty n l : EagerBitblaster.set_insert n l <> [].
Proof.
  unfold EagerBitblaster.set_insert. case_decide as H; [| by destruct l]. intros ->. by apply elem_of_nil in H.
Qed.

Lemma assertionSet_nil fs l : foldl (fun l n => EagerBitblaster.set_insert n l) l fs = [] -> l = [] /\ fs = [].
Proof.
  revert l. induction fs as [|n fs IH]; intros l; cbn; [done |]. intros H. apply IH in H as [H _].
  by apply set_insert_nonempty in H.
Qed.

Section theorems.
Context {G : Gmp} {HG : GmpSpec G} {NR : NestedRewriter}.
Context (node_lt : Node -> Node -> bool) (hash_order : list (Node * Count) -> list (Node * Count)) (divByZeroConst extractArith : bool).
Context (other : TheoryId -> Node -> M RewriteResponse) (optProof : bool) (RF F : nat).
(** The tables of the rewriter, whatever the order of nodes, the order of hash tables and the options. *)
Abbreviation tables := (rewriter_tables node_lt hash_order divByZeroConst extractArith other).
Abbreviation eager_ok := (eager_ok (TR := tables) optProof F).
Abbreviation session := (session (TR := tables) optProof RF F).

(** C2. The eager bit-blaster is sound, complete and terminates, with the rewriter of the program.  The formulas
    ([eager_ok]) are well-formed formulas with the Boolean connectives, over constants, Boolean variables and bit-vector atoms; an atom is
    [=], [bvult], [bvule], [bvslt] or [bvsle] over terms of the kinds that have a strategy ([term_kind]), it is in normal
    form ([stable]: the rewriters of the theories leave it and its subterms as they are), and so are the guards [b < size] of the
    shifts in it; these atoms and, unless proofs are on, their circuits ([circuit]) have [brank], a weighted size as a tree, below [MAX_CHILDREN].
    With the fuel [eager_fuel] or more for the rewriter, and more than twice the size of each atom for the bit-blaster, asserting the
    formulas returns without an exception, and the clauses given to the SAT solver are satisfiable exactly if the formulas have
    a common model. *)
Theorem eager_equisatisfiable fs : eager_fuel <= RF -> Forall eager_ok fs ->
  exists set st, session fs = Ok (EagerBitblastSolver.MkState set (Some st)) /\
    (satisfiable (clauses (d_satSolver st.1)) <-> exists e, Forall (holds e) fs).
Proof.
  intros HRF Hfs. pose proof (tables_rewriters node_lt hash_order divByZeroConst extractArith other) as HT.
  destruct (run_exists optProof RF F HRF fs Hfs) as (st & E & _). eexists _, st. split; [exact E |]. split.
  - intros [al Hs]. exists (model_of al st.1).
    exact (run_model optProof RF F HRF fs _ st Hfs E al _ _ Hs (model_of_bits al st.1) (fun _ => eq_refl) (leaf_value_Agree al st.1)).
  - intros [e He]. eexists. exact (run_sat optProof RF F HRF fs _ st Hfs E e He).
Qed.

(** C3. The model read off a satisfying assignment.  For formulas as in [eager_equisatisfiable], the session returns, and for every assignment that satisfies the clauses
    [collectModelInfo], with the values of the literals in this assignment, returns one equality with a
    constant for each variable that was bit-blasted; some model has the values of these equalities and of the literals of the Boolean variables, and every such model satisfies
    all the asserted formulas, whatever it gives the other variables. *)
Theorem eager_model_correct fs : eager_fuel <= RF -> Forall eager_ok fs ->
  exists set st, session fs = Ok (EagerBitblastSolver.MkState set (Some st)) /\
    forall al isSharedTerm, sat al st.1 ->
    exists eqs, EagerBitblastSolver.collectModelInfo (fun l => Some (lval al l)) isSharedTerm (EagerBitblastSolver.MkState set (Some st)) = Ok eqs /\
      map fst eqs = EagerBitblaster.d_variables st.2 /\ (exists e, agrees st al e eqs) /\
      forall e, agrees st al e eqs -> Forall (holds e) fs.
Proof.
  intros HRF Hfs. pose proof (tables_rewriters node_lt hash_order divByZeroConst extractArith other) as HT.
  destruct (run_exists optProof RF F HRF fs Hfs) as (st & E & _). eexists _, st. split; [exact E |].
  intros al shared Hs. eexists. split; [| split; [| split]].
  - cbn [EagerBitblastSolver.collectModelInfo EagerBitblastSolver.d_bitblaster]. unfold EagerBitblaster.collectModelInfo, EagerBitblaster.bb_gets.
    unfold mbind at 2, SM_bind. by rewrite (collect_equations optProof RF F HRF fs _ st Hfs E al Hs).
  - rewrite map_map. apply map_id.
  - exists (model_of al st.1). by apply (model_agrees optProof RF F HRF fs _ st Hfs E).
  - by apply (read_model optProof RF F HRF fs _ st Hfs E).
Qed.

(** C1. [checkSat] decides satisfiability.  For formulas as in [eager_equisatisfiable] and a SAT solver whose answers are right ([solver_correct]), the session and [checkSat] return,
    and the answer is true exactly if the asserted formulas have a common model. *)
Theorem eager_checkSat_correct sat_solve fs :
  solver_correct sat_solve -> eager_fuel <= RF -> Forall eager_ok fs ->
  exists r, (s ← session fs; EagerBitblastSolver.checkSat sat_solve s) = Ok r /\
    (r = true <-> exists e, Forall (holds e) fs).
Proof.
  intros Hsol HRF Hfs. pose proof (tables_rewriters node_lt hash_order divByZeroConst extractArith other) as HT.
  destruct (run_exists optProof RF F HRF fs Hfs) as (st & E & _). unfold EagerSat.session. cbn [mbind M_bind].
  unfold start in E. cbn. rewrite E. unfold EagerBitblastSolver.checkSat. cbn.
  destruct (foldl _ _ fs) as [|n set] eqn:Es.
  - apply assertionSet_nil in Es as [_ ->]. exists true. split; [done |]. split; [intros _; by exists env0 | done].
  - eexists. split; [done |]. rewrite (Hsol _). split.
    + intros [al Hs]. exists (model_of al st.1).
      exact (run_model optProof RF F HRF fs _ st Hfs E al _ _ Hs (model_of_bits al st.1) (fun _ => eq_refl) (leaf_value_Agree al st.1)).
    + intros [e He]. eexists. exact (run_sat optProof RF F HRF fs _ st Hfs E e He).
Qed.
End theorems.

(** ** Examples *)
Section examples.
#[local] Existing Instance gmp_ref.
#[local] Existing Instance gmp_ref_spec.

(** Nodes are ordered by their ids; variables are older than other nodes. *)
Definition id_lt (a b : Node) : bool :=
  match a, b with Var x _, Var y _ => (x <? y)%positive | Var _ _, _ => true | _, _ => false end.
Definition leave (t : TheoryId) (n : Node) : M RewriteResponse := Ok (MkResponse REWRITE_DONE n).
#[local] Instance ex_tables : TheoryRewriters := rewriter_tables (NR := Ok) id_lt (fun l => l) false false leave.

(** [x + y = 1] and [not ((x << y) < z)], on two bits. *)
Definition ex_x : Node := Var 1 (BITVECTOR_TYPE 2).
Definition ex_y : Node := Var 2 (BITVECTOR_TYPE 2).
Definition ex_z : Node := Var 3 (BITVECTOR_TYPE 2).
Definition ex_fs : list Node :=
  [MkNode EQUAL [MkNode BITVECTOR_PLUS [ex_x; ex_y]; ConstBV (MkBitVector 2 1)];
   MkNode NOT [MkNode BITVECTOR_ULT [MkNode BITVECTOR_SHL [ex_x; ex_y]; ex_z]]].

Lemma ex_fs_ok : Forall (eager_ok false 20) ex_fs.
Proof. apply eager_okb_Forall. vm_compute. reflexivity. Qed.

Lemma eager_equisatisfiable_witness :
  Forall (eager_ok false 20) ex_fs /\
  exists set st, session false eager_fuel 20 ex_fs = Ok (EagerBitblastSolver.MkState set (Some st)) /\
    (satisfiable (clauses (d_satSolver st.1)) <-> exists e, Forall (holds e) ex_fs).
Proof.
  split; [exact ex_fs_ok |].
  exact (eager_equisatisfiable (HG := gmp_ref_spec) (NR := Ok) id_lt (fun l => l) false false leave false eager_fuel 20 ex_fs (le_n _) ex_fs_ok).
Defined.

Lemma eager_checkSat_correct_witness :
  solver_correct brute_force /\ Forall (eager_ok false 20) ex_fs /\
  exists r, (s ← session false eager_fuel 20 ex_fs; EagerBitblastSolver.checkSat brute_force s) = Ok r /\
    (r = true <-> exists e, Forall (holds e) ex_fs).
Proof.
  split; [exact brute_force_correct |]. split; [exact ex_fs_ok |].
  exact (eager_checkSat_correct (HG := gmp_ref_spec) (NR := Ok) id_lt (fun l => l) false false leave false eager_fuel 20 brute_force ex_fs
           brute_force_correct (le_n _) ex_fs_ok).
Defined.

Lemma eager_model_correct_witness :
  Forall (eager_ok false 20) ex_fs /\
  exists set st, session false eager_fuel 20 ex_fs = Ok (EagerBitblastSolver.MkState set (Some st)) /\
    forall al isSharedTerm, sat al st.1 ->
    exists eqs, EagerBitblastSolver.collectModelInfo (fun l => Some (lval al l)) isSharedTerm (EagerBitblastSolver.MkState set (Some st)) = Ok eqs /\
      map fst eqs = EagerBitblaster.d_variables st.2 /\ (exists e, agrees st al e eqs) /\
      forall e, agrees st al e eqs -> Forall (holds e) ex_fs.
Proof.
  split; [exact ex_fs_ok |].
  exact (eager_model_correct (HG := gmp_ref_spec) (NR := Ok) id_lt (fun l => l) false false leave false eager_fuel 20 ex_fs (le_n _) ex_fs_ok).
Defined.

(** The solver at work, with little fuel: a satisfiable formula, the model read off an assignment of its clauses ([x = 2]), and an unsatisfiable set. *)
Definition ex_eq : list Node := [MkNode EQUAL [ConstBV (MkBitVector 2 2); ex_x]].
Definition ex_al (v : Z) : bool := negb ((v =? 1)%Z || (v =? 3)%Z).
Definition ex_model (s : EagerBitblastSolver.state) : M (bool * list (Node * Node)) :=
  match EagerBitblastSolver.d_bitblaster s with
  | None => Throw AssertionFailed
  | Some bb =>
      eqs ← EagerBitblastSolver.collectModelInfo (fun l => Some (lval ex_al l)) (fun _ => false) s;
      Ok (forallb (sat_clause ex_al) (clauses (d_satSolver bb.1)), eqs)
  end.
Lemma ex_model_read : (s ← session false 60 20 ex_eq; ex_model s) = Ok (true, [(ex_x, ConstBV (MkBitVector 2 2))]).
Proof. vm_compute. reflexivity. Qed.
Lemma ex_unsat : (s ← session false 60 20 (MkNode NOT ex_eq :: ex_eq); EagerBitblastSolver.checkSat brute_force s) = Ok false.
Proof. vm_compute. reflexivity. Qed.
Lemma ex_hasAssertions : (s ← session false 60 20 ex_eq; EagerBitblastSolver.hasAssertions [MkNode BITVECTOR_EAGER_ATOM ex_eq] s) = Ok true.
Proof. vm_compute. reflexivity. Qed.
End examples.
