(* ===== verification/CircuitPropagator.v ===== *)
(** * Non-clausal propagation in Boolean circuits

    Models [src/theory/booleans/circuit_propagator.{h,cpp}]: the assignment of truth values to
    the nodes of the asserted formulas, with forward rules (from the children to a node) and
    backward rules.  The context-dependent members [d_conflict], [d_seen] and [d_state] are saved
    by [initialize] and restored by [finish], which clears the other members, as the context
    and its notification objects do.  [Theory::theoryOf] is the type-based one. *)

From S2P Require Import Prelude Integer BitVector Node Subterm RewriterLoop.
Local Open Scope nat_scope.

Inductive AssignmentStatus : Set := UNASSIGNED | ASSIGNED_TO_TRUE | ASSIGNED_TO_FALSE.
#[global] Instance AssignmentStatus_eq_dec : EqDecision AssignmentStatus.
Proof. solve_decision. Defined.
Definition neg (value : AssignmentStatus) : M AssignmentStatus :=
  match value with UNASSIGNED => Throw AssertionFailed | ASSIGNED_TO_TRUE => Ok ASSIGNED_TO_FALSE | ASSIGNED_TO_FALSE => Ok ASSIGNED_TO_TRUE end.

(** Maps from nodes, as association lists: the first entry of a node counts. *)
Fixpoint node_find {A} (m : list (Node * A)) (n : Node) : option A :=
  match m with [] => None | (x, a) :: m => if node_eqb x n then Some a else node_find m n end.

Record CircuitPropagator : Type := MkCircuit {
  d_propagationQueue : list Node;
  d_conflict : bool;
  d_learnedLiterals : list Node;
  d_backEdges : list (Node * list Node);
  d_seen : list Node;
  d_state : list (Node * AssignmentStatus);
  d_saved : list (bool * list Node * list (Node * AssignmentStatus))   (* the scopes of [d_context] *)
}.
Definition new_CircuitPropagator : CircuitPropagator := MkCircuit [] false [] [] [] [] [].
Abbreviation CM := (SM CircuitPropagator).

Definition set_conflict (b : bool) : CM unit := modify (fun s => MkCircuit (d_propagationQueue s) b (d_learnedLiterals s) (d_backEdges s) (d_seen s) (d_state s) (d_saved s)).
Definition set_state (n : Node) (v : AssignmentStatus) : CM unit :=
  modify (fun s => MkCircuit (d_propagationQueue s) (d_conflict s) (d_learnedLiterals s) (d_backEdges s) (d_seen s) ((n, v) :: d_state s) (d_saved s)).
Definition enqueue (n : Node) : CM unit :=
  modify (fun s => MkCircuit (d_propagationQueue s ++ [n]) (d_conflict s) (d_learnedLiterals s) (d_backEdges s) (d_seen s) (d_state s) (d_saved s)).
Definition learn (n : Node) : CM unit :=
  modify (fun s => MkCircuit (d_propagationQueue s) (d_conflict s) (d_learnedLiterals s ++ [n]) (d_backEdges s) (d_seen s) (d_state s) (d_saved s)).
Definition see (n : Node) : CM unit :=
  modify (fun s => MkCircuit (d_propagationQueue s) (d_conflict s) (d_learnedLiterals s) (d_backEdges s) (n :: d_seen s) (d_state s) (d_saved s)).
(** [d_backEdges[n]], and [d_backEdges[n].push_back(p)] for each [p] of the list *)
Definition back_edges (n : Node) (ps : list Node) : CM unit :=
  modify (fun s => MkCircuit (d_propagationQueue s) (d_conflict s) (d_learnedLiterals s)
    ((n, default [] (node_find (d_backEdges s) n) ++ ps) :: d_backEdges s) (d_seen s) (d_state s) (d_saved s)).

(** ** Assignments *)
Definition isAssigned (s : CircuitPropagator) (n : Node) : bool :=
  match node_find (d_state s) n with Some v => negb (bool_decide (v = UNASSIGNED)) | None => false end.
Definition isAssignedTo (s : CircuitPropagator) (value : bool) (n : Node) : bool :=
  match node_find (d_state s) n with
  | Some ASSIGNED_TO_TRUE => value
  | Some ASSIGNED_TO_FALSE => negb value
  | _ => false
  end.
Definition getAssignment (n : Node) : CM bool := fun s =>
  match node_find (d_state s) n with
  | Some ASSIGNED_TO_TRUE => Ok (true, s)
  | Some ASSIGNED_TO_FALSE => Ok (false, s)
  | _ => Throw AssertionFailed
  end.

(** The part of [assignAndEnqueue] after the test for constants. *)
Definition assign_node (n : Node) (value : bool) : CM unit :=
  state ← gets (fun s => default UNASSIGNED (node_find (d_state s) n));
  if negb (bool_decide (state = UNASSIGNED)) then
    (if Bool.eqb value (bool_decide (state = ASSIGNED_TO_TRUE)) then mret tt else set_conflict true)
  else
    _ ← set_state n (if value then ASSIGNED_TO_TRUE else ASSIGNED_TO_FALSE);
    enqueue n.
Definition assignAndEnqueue (n : Node) (value : bool) : CM unit :=
  match n with
  | ConstBool b => if Bool.eqb value b then assign_node n value else set_conflict true
  | _ => assign_node n value
  end.
Fixpoint assign_all (ns : list Node) (value : bool) : CM unit :=
  match ns with [] => mret tt | n :: ns => _ ← assignAndEnqueue n value; assign_all ns value end.

(** ** Back edges *)
(** The loop over the children of [current]: the nodes to add to [toVisit]. *)
Fixpoint visit_children (current : Node) (cs : list Node) : CM (list Node) :=
  match cs with
  | [] => mret []
  | childNode :: cs =>
      _ ← back_edges childNode [current];
      seen ← gets d_seen;
      if existsb (node_eqb childNode) seen then visit_children current cs
      else _ ← see childNode; rest ← visit_children current cs; mret (childNode :: rest)
  end.
Fixpoint visit_loop (fuel : nat) (toVisit : list Node) : CM unit :=
  match toVisit with
  | [] => mret tt
  | current :: toVisit =>
      match fuel with
      | O => lift (Throw OutOfFuel)
      | S fuel' =>
          seen ← gets d_seen;
          _ ← lift (check AssertionFailed (existsb (node_eqb current) seen));
          t ← lift (theoryOf current);
          new ← (if bool_decide (t = THEORY_BOOL) then visit_children current (children current) else mret []);
          visit_loop fuel' (toVisit ++ new)
      end
  end.
Definition computeBackEdges (node : Node) : CM unit :=
  seen ← gets d_seen;
  toVisit ← (if existsb (node_eqb node) seen then mret [] else _ ← see node; mret [node]);
  _ ← back_edges node [];
  visit_loop (BVRules.num_nodes node) toVisit.

Fixpoint assertTrue (assertion : Node) : CM unit :=
  match assertion with
  | MkNode AND ch =>
      (fix go (cs : list Node) : CM unit := match cs with [] => mret tt | c :: cs => _ ← assertTrue c; go cs end) ch
  | _ => _ ← computeBackEdges assertion; assignAndEnqueue assertion true
  end.

(** ** Propagation *)
(** [find_if_unique(parent.begin(), parent.end(), pred)] *)
Definition find_if_unique {A} (pred : A -> bool) (l : list A) : option A :=
  match List.filter pred l with [x] => Some x | _ => None end.

Abbreviation kid n i := (lift (child n i)).
Abbreviation assigned n := (gets (fun s => isAssigned s n)).
Abbreviation assignedTo n v := (gets (fun s => isAssignedTo s v n)).

(** [AND] with [p = true], [OR] with [p = false]: the value [p] is that of all children together. *)
Definition backward_nary (p : bool) (parent : Node) (parentAssignment : bool) : CM unit :=
  if Bool.eqb parentAssignment p then assign_all (children parent) p
  else
    s ← gets id;
    match find_if_unique (fun c => negb (isAssignedTo s p c)) (children parent) with
    | Some holdout => assignAndEnqueue holdout (negb p)
    | None => mret tt
    end.
Definition backward_ite (parent : Node) (v : bool) : CM unit :=
  n0 ← kid parent 0; n1 ← kid parent 1; n2 ← kid parent 2;
  c1 ← assignedTo n0 true;
  if c1 : bool then assignAndEnqueue n1 v else
  c0 ← assignedTo n0 false;
  if c0 : bool then assignAndEnqueue n2 v else
  a1 ← assigned n1; a2 ← assigned n2;
  if a1 && a2 : bool then
    x ← getAssignment n1; y ← getAssignment n2;
    if Bool.eqb x v && negb (Bool.eqb y v) then assignAndEnqueue n0 true
    else if negb (Bool.eqb x v) && Bool.eqb y v then assignAndEnqueue n0 false
    else mret tt
  else mret tt.
(** [EQUAL], where [same] is the assignment, and [XOR], where it is the negated assignment. *)
Definition backward_eq (parent : Node) (same : bool) : CM unit :=
  n0 ← kid parent 0; n1 ← kid parent 1;
  a0 ← assigned n0;
  if a0 : bool then x ← getAssignment n0; assignAndEnqueue n1 (if same then x else negb x)
  else
    a1 ← assigned n1;
    if a1 : bool then y ← getAssignment n1; assignAndEnqueue n0 (if same then y else negb y) else mret tt.
Definition backward_implies (parent : Node) (parentAssignment : bool) : CM unit :=
  n0 ← kid parent 0; n1 ← kid parent 1;
  if parentAssignment then
    t0 ← assignedTo n0 true;
    _ ← (if t0 : bool then assignAndEnqueue n1 true else mret tt);
    f1 ← assignedTo n1 false;
    if f1 : bool then assignAndEnqueue n0 false else mret tt
  else _ ← assignAndEnqueue n0 true; assignAndEnqueue n1 false.
Definition assertBoolean (n : Node) : CM unit :=
  t ← lift (getType false n); lift (check AssertionFailed (isBoolean t)).
Definition propagateBackward (parent : Node) (parentAssignment : bool) : CM unit :=
  match getKind parent with
  | AND => backward_nary true parent parentAssignment
  | OR => backward_nary false parent parentAssignment
  | NOT => n0 ← kid parent 0; assignAndEnqueue n0 (negb parentAssignment)
  | ITE => backward_ite parent parentAssignment
  | EQUAL => n0 ← kid parent 0; _ ← assertBoolean n0; backward_eq parent parentAssignment
  | IMPLIES => backward_implies parent parentAssignment
  | XOR => backward_eq parent (negb parentAssignment)
  | _ => lift (Throw UnimplementedCode)
  end.

Definition forward_nary (p : bool) (parent : Node) (childAssignment : bool) : CM unit :=
  if Bool.eqb childAssignment p then
    s ← gets id;
    match List.filter (fun c => negb (isAssignedTo s p c)) (children parent) with
    | [] => assignAndEnqueue parent p
    | holdout :: others =>
        if isAssignedTo s (negb p) parent then
          match others with [] => assignAndEnqueue holdout (negb p) | _ => mret tt end
        else mret tt
    end
  else assignAndEnqueue parent (negb p).
Definition forward_ite (parent child_ : Node) (v : bool) : CM unit :=
  n0 ← kid parent 0; n1 ← kid parent 1; n2 ← kid parent 2;
  _ ← (if node_eqb child_ n0 then
         if v then a ← assigned n1; if a : bool then x ← getAssignment n1; assignAndEnqueue parent x else mret tt
         else a ← assigned n2; if a : bool then y ← getAssignment n2; assignAndEnqueue parent y else mret tt
       else mret tt);
  _ ← (if node_eqb child_ n1 then c ← assignedTo n0 true; if c : bool then assignAndEnqueue parent v else mret tt else mret tt);
  if node_eqb child_ n2 then
    _ ← lift (check AssertionFailed (node_eqb child_ n2));
    c ← assignedTo n0 false; if c : bool then assignAndEnqueue parent v else mret tt
  else mret tt.
Definition forward_equal (parent child_ : Node) (v : bool) : CM unit :=
  n0 ← kid parent 0; n1 ← kid parent 1;
  _ ← assertBoolean n0;
  a0 ← assigned n0; a1 ← assigned n1;
  if a0 && a1 : bool then x ← getAssignment n0; y ← getAssignment n1; assignAndEnqueue parent (Bool.eqb x y)
  else
    ap ← assigned parent;
    if ap : bool then
      if node_eqb child_ n0 then q ← getAssignment parent; assignAndEnqueue n1 (if q : bool then v else negb v)
      else _ ← lift (check AssertionFailed (node_eqb child_ n1)); q ← getAssignment parent; assignAndEnqueue n0 (if q : bool then v else negb v)
    else mret tt : CM unit.
Definition forward_implies (parent child_ : Node) (v : bool) : CM unit :=
  n0 ← kid parent 0; n1 ← kid parent 1;
  a0 ← assigned n0; a1 ← assigned n1;
  if a0 && a1 : bool then x ← getAssignment n0; y ← getAssignment n1; assignAndEnqueue parent (negb x || y)
  else
    p1 ← assignedTo parent true;
    _ ← (if node_eqb child_ n0 && v && p1 then assignAndEnqueue n1 true else mret tt);
    p2 ← assignedTo parent true;
    if node_eqb child_ n1 && negb v && p2 then assignAndEnqueue n0 false else mret tt.
Definition forward_xor (parent child_ : Node) (v : bool) : CM unit :=
  n0 ← kid parent 0; n1 ← kid parent 1;
  ap ← assigned parent;
  _ ← (if ap : bool then
         if node_eqb child_ n0 then q ← getAssignment parent; assignAndEnqueue n1 (negb (Bool.eqb v q))
         else _ ← lift (check AssertionFailed (node_eqb child_ n1)); q ← getAssignment parent; assignAndEnqueue n0 (negb (Bool.eqb v q))
       else mret tt : CM unit);
  a0 ← assigned n0; a1 ← assigned n1;
  if a0 && a1 : bool then x ← getAssignment n0; y ← getAssignment n1; assignAndEnqueue parent (negb (Bool.eqb x y)) else mret tt.
(** The forward rules at one parent. *)
Definition forward_parent (child_ : Node) (v : bool) (parent : Node) : CM unit :=
  sub ← lift (hasSubterm parent child_ false);
  _ ← lift (check AssertionFailed sub);
  match getKind parent with
  | AND => forward_nary true parent v
  | OR => forward_nary false parent v
  | NOT => assignAndEnqueue parent (negb v)
  | ITE => forward_ite parent child_ v
  | EQUAL => forward_equal parent child_ v
  | IMPLIES => forward_implies parent child_ v
  | XOR => forward_xor parent child_ v
  | _ => lift (Throw UnimplementedCode)
  end.
Fixpoint forward_loop (child_ : Node) (v : bool) (parents : list Node) : CM unit :=
  match parents with
  | [] => mret tt
  | parent :: parents =>
      c ← gets d_conflict;
      if c : bool then mret tt else _ ← forward_parent child_ v parent; forward_loop child_ v parents
  end.
Definition propagateForward (child_ : Node) (childAssignment : bool) : CM unit :=
  e ← gets (fun s => node_find (d_backEdges s) child_);
  match e with
  | None => lift (Throw OutOfBounds)   (* [find(child)->second] of no entry *)
  | Some parents => forward_loop child_ childAssignment parents
  end.

Section propagate.
Context (d_forwardPropagation d_backwardPropagation : bool).

Definition isVarNode (n : Node) : bool := match n with Var _ _ => true | _ => false end.
(** The body of the loop of [propagate]. *)
Definition propagate_node (current : Node) : CM unit :=
  assignment ← getAssignment current;
  t ← lift (theoryOf current);
  let atom := negb (bool_decide (t = THEORY_BOOL)) || isVarNode current in
  _ ← (if atom then learn (if assignment then current else notNode current) else mret tt);
  _ ← (if d_backwardPropagation && negb atom && negb (isConst current) then propagateBackward current assignment else mret tt);
  if d_forwardPropagation then propagateForward current assignment else mret tt.
Fixpoint propagate_loop (fuel i : nat) : CM bool :=
  conflict ← gets d_conflict;
  queue ← gets d_propagationQueue;
  match queue !! i with
  | Some current =>
      if conflict : bool then mret conflict else
      match fuel with
      | O => lift (Throw OutOfFuel)
      | S fuel' => _ ← propagate_node current; propagate_loop fuel' (S i)
      end
  | None => mret conflict
  end.
(** The queue never holds a node twice, so the nodes seen bound the number of iterations. *)
Definition propagate : CM bool := seen ← gets d_seen; propagate_loop (length seen) 0.
End propagate.

(** ** Scopes *)
Definition initialize : CM unit :=
  modify (fun s => MkCircuit (d_propagationQueue s) (d_conflict s) (d_learnedLiterals s) (d_backEdges s) (d_seen s) (d_state s)
    ((d_conflict s, d_seen s, d_state s) :: d_saved s)).
Definition finish : CM unit := fun s =>
  match d_saved s with
  | [] => Throw AssertionFailed
  | (conflict, seen, state) :: saved => Ok (tt, MkCircuit [] conflict [] [] seen state saved)
  end.

(** ** The use of the propagator in [SmtEnginePrivate::nonClausalSimplify]
    The assertions are those of the pipeline, without the one that holds the substitutions. *)
Fixpoint assert_all (assertions : list Node) : CM unit :=
  match assertions with [] => mret tt | a :: assertions => _ ← assertTrue a; assert_all assertions end.
Definition propagate_assertions (assertions : list Node) : CM bool :=
  _ ← initialize; _ ← assert_all assertions; propagate true true.
