(* ===== verification/CircuitCorrect.v ===== *)
(** * Correctness of the circuit propagator

    Every value the propagator assigns is the value of the node in every model of the
    assertions; a conflict means that there is no model; the queue is processed to the
    end, no assertion of the code fails, and what is learned about atoms is complete. *)

From S2P Require Import Prelude Integer BitVector Node Cardinality BVRules BVRulesCorrect BVSimplify BVCoreCorrect BVSimplifyCorrect Subterm BVRewriter BoolRewriter BoolRewriterCorrect RewriterLoop CircuitPropagator.
Local Open Scope nat_scope.

(** Boolean terms and their values. *)
Definition bterm (n : Node) : Prop := forall e, exists b, eval e n = Some (VBool b).
Definition val (e : env) (n : Node) : bool := match eval e n with Some (VBool b) => b | _ => false end.
Lemma bterm_intro e n b : eval e n = Some (VBool b) -> bterm n.
Proof. intros H e'. by eapply eval_defined_bool. Qed.
Lemma bterm_val e n : bterm n -> eval e n = Some (VBool (val e n)).
Proof. intros H. destruct (H e) as [b Hb]. unfold val. by rewrite Hb. Qed.
Lemma val_eq e n b : eval e n = Some (VBool b) -> val e n = b.
Proof. intros H. unfold val. by rewrite H. Qed.
Lemma val_not e n : bterm n -> val e (notNode n) = negb (val e n).
Proof. intros H. by apply val_eq, b_not, bterm_val. Qed.
Lemma bterm_type n : bterm n -> getType false n = Ok BOOLEAN_TYPE.
Proof. intros H. destruct (H sample_env) as [b Hb]. by rewrite (eval_getType false _ _ _ Hb). Qed.

(** ** Maps *)
Lemma node_find_cons {A} (m : list (Node * A)) x a n : node_find ((x, a) :: m) n = if node_eqb x n then Some a else node_find m n.
Proof. done. Qed.
Lemma node_eqb_refl n : node_eqb n n = true.
Proof. by apply node_eqb_eq. Qed.
Lemma node_eqb_neq a b : a <> b -> node_eqb a b = false.
Proof. intros H. apply not_true_iff_false. by intros ->%node_eqb_eq. Qed.

(** ** Gates: the shape and the value of the nodes of the Boolean theory *)
Section gates.
Context (n : Node) (Hb : bterm n) (Ht : theoryOf n = Ok THEORY_BOOL).

Lemma gate_not : getKind n = NOT -> exists c, children n = [c] /\ bterm c /\ forall e, val e n = negb (val e c).
Proof.
  intros Hk. destruct (Hb sample_env) as [b H]. destruct (not_inv sample_env n _ Hk H) as (c & b' & -> & Hc%bterm_intro & _).
  exists c. split; [done |]. split; [done |]. intros e. by apply val_not.
Qed.
Lemma gate_equal : getKind n = EQUAL -> exists c d, children n = [c; d] /\ bterm c /\ bterm d /\ forall e, val e n = Bool.eqb (val e c) (val e d).
Proof.
  intros Hk. destruct (Hb sample_env) as [b H]. destruct (equal_inv sample_env n _ Hk H) as (c & d & v & w & -> & Hc & Hd & Hvw & _).
  assert (exists b, v = VBool b) as [bv ->].
  { unfold theoryOf in Ht. cbn in Ht. rewrite (eval_getType false _ _ _ Hc) in Ht. destruct v; [eauto | done]. }
  assert (exists b, w = VBool b) as [bw ->] by (destruct w; [eauto | done]).
  apply bterm_intro in Hc, Hd. exists c, d. split; [done |]. split; [done |]. split; [done |]. intros e. apply val_eq.
  rewrite (b_equal e c d _ _ (bterm_val e c Hc) (bterm_val e d Hd)) by done. by destruct (val e c), (val e d).
Qed.
Lemma gate_two k : k = IMPLIES \/ k = XOR -> getKind n = k -> exists c d, children n = [c; d] /\ bterm c /\ bterm d /\
  forall e, val e n = match k with IMPLIES => implb (val e c) (val e d) | _ => xorb (val e c) (val e d) end.
Proof.
  intros Hk Hn. destruct (Hb sample_env) as [b H]. destruct (two_bools_inv sample_env k n _ Hk Hn H) as (c & d & x & y & -> & Hc%bterm_intro & Hd%bterm_intro & _).
  exists c, d. split; [done |]. split; [done |]. split; [done |]. intros e.
  destruct (two_bools_inv e k (MkNode k [c; d]) (VBool (val e (MkNode k [c; d]))) Hk Hn) as (c' & d' & x' & y' & E & Hc' & Hd' & Ev); [by apply bterm_val |].
  injection E as <- <-. injection Ev as ->. by rewrite (val_eq _ _ _ Hc'), (val_eq _ _ _ Hd').
Qed.
Lemma gate_ite : getKind n = ITE -> exists c t f, children n = [c; t; f] /\ bterm c /\ bterm t /\ bterm f /\ forall e, val e n = if val e c then val e t else val e f.
Proof.
  intros Hk. destruct (Hb sample_env) as [b H]. destruct (ite_inv sample_env n _ Hk H) as (c & t & f & q & v & w & -> & Hc & Hv & Hw & Hvw & Hq).
  assert (exists x, v = VBool x) as [x ->] by (destruct q; [eauto | destruct v, w; try done; eauto]).
  assert (exists y, w = VBool y) as [y ->] by (destruct w; [eauto | done]).
  apply bterm_intro in Hc, Hv, Hw. exists c, t, f. split; [done |]. split; [done |]. split; [done |]. split; [done |]. intros e. apply val_eq.
  rewrite (b_ite e c t f _ _ _ (bterm_val e c Hc) (bterm_val e t Hv) (bterm_val e f Hw)) by done. by destruct (val e c).
Qed.
Lemma gate_nary k p : connective k p -> getKind n = k -> Forall bterm (children n) /\
  forall e, val e n = p <-> forall c, c ∈ children n -> val e c = p.
Proof.
  intros Hk Hn. assert (En : n = MkNode k (children n)) by (apply (connective_kind k p); [done | by apply bool_decide_eq_true]).
  assert (Hch : forall e, Forall (fun c => exists b, eval e c = Some (VBool b)) (children n)).
  { intros e. apply (connective_boolean e k p); [done |]. rewrite <- En. apply Hb. }
  assert (Hbc : Forall bterm (children n)) by (rewrite Forall_forall; intros c Hc e; by apply (proj1 (Forall_forall _ _) (Hch e))).
  split; [done |]. intros e.
  assert (Hl : 2 <= length (children n)).
  { destruct (Hb e) as [b H]. rewrite En in H. apply eval_MkNode in H as (H & _). destruct Hk as [[-> _] | [-> _]];
      unfold arity_ok in H; cbn [arity] in H; rewrite andb_true_r in H; by apply Nat.leb_le. }
  pose proof (proj2 (connective_value e k p _ Hk Hl (Hch e))) as Hv. rewrite <- En, Forall_forall in Hv.
  assert (Heq : forall m, bterm m -> eval e m = Some (VBool p) <-> val e m = p).
  { intros m Hm. rewrite (bterm_val e m Hm). split; congruence. }
  rewrite Heq in Hv by done. rewrite Hv. rewrite Forall_forall in Hbc. split; intros H c Hc; apply Heq; auto.
Qed.

(** The kinds of gates, and their children. *)
Ltac gate_kind := repeat (first [by left | right]).
Lemma gate_kinds : isVarNode n = false -> isConst n = false -> In (getKind n) [AND; OR; NOT; ITE; EQUAL; IMPLIES; XOR].
Proof.
  intros Hv Hc. destruct n as [| | |k ch]; try done. unfold theoryOf in Ht. case_bool_decide as Ek; [subst k; gate_kind |].
  injection Ht as Ht. destruct (Hb sample_env) as [b (_ & vs & _ & E)%eval_MkNode].
  destruct k; cbn in Ht; try done; gate_kind.
Qed.
Lemma gate_children c : c ∈ children n -> bterm c.
Proof.
  intros Hc. assert (Hk : In (getKind n) [AND; OR; NOT; ITE; EQUAL; IMPLIES; XOR]).
  { apply gate_kinds; destruct n; try done; by apply not_elem_of_nil in Hc. }
  repeat destruct Hk as [Hk|Hk]; symmetry in Hk || done.
  1,2: destruct (gate_nary (getKind n) (bool_decide (getKind n = AND))) as [H _]; [rewrite Hk; by constructor | done |];
       by apply (proj1 (Forall_forall _ _) H).
  - destruct (gate_not Hk) as (x & E & Hx & _). rewrite E in Hc. by apply list_elem_of_singleton in Hc as ->.
  - destruct (gate_ite Hk) as (x & y & z & E & Hx & Hy & Hz & _). rewrite E, !elem_of_cons, elem_of_nil in Hc. naive_solver.
  - destruct (gate_equal Hk) as (x & y & E & Hx & Hy & _). rewrite E, !elem_of_cons, elem_of_nil in Hc. naive_solver.
  - destruct (gate_two IMPLIES (or_introl eq_refl) Hk) as (x & y & E & Hx & Hy & _). rewrite E, !elem_of_cons, elem_of_nil in Hc. naive_solver.
  - destruct (gate_two XOR (or_intror eq_refl) Hk) as (x & y & E & Hx & Hy & _). rewrite E, !elem_of_cons, elem_of_nil in Hc. naive_solver.
Qed.
End gates.

(** Boolean terms have a theory. *)
Lemma bterm_theory n : bterm n -> exists t, theoryOf n = Ok t.
Proof.
  intros Hb. destruct (Hb sample_env) as [b H]. destruct n as [x t|b'|v|k ch]; unfold theoryOf.
  - pose proof (bterm_type _ Hb) as E. cbn in E. destruct t; try done; eauto.
  - by eexists.
  - cbn in H. by case_decide.
  - case_bool_decide as Ek; [| eauto]. subst k. destruct (equal_inv _ (MkNode EQUAL ch) _ eq_refl H) as (c & d & v & w & [= ->] & Hc & _).
    cbn. rewrite (eval_getType false _ _ _ Hc). destruct v; cbn; eauto.
Qed.

(** ** The invariant *)
(** Atoms: what the propagator learns about. *)
Definition is_atom (n : Node) : bool := match theoryOf n with Ok t => negb (bool_decide (t = THEORY_BOOL)) || isVarNode n | Throw _ => false end.
Definition literal (n : Node) (b : bool) : Node := if b then n else notNode n.

(** The formulas asserted lie in a set closed under subformulas. *)
Section subformulas.
Context (P : Node -> Prop).
(** The graph: the nodes seen are Boolean terms with an entry of back edges, a back edge leads
    to a gate that is seen, and, but for the nodes to visit, the children of a gate are seen. *)
Record graph_ok (toVisit seen : list Node) (edges : list (Node * list Node)) : Prop := {
  graph_seen n : n ∈ seen -> bterm n /\ is_Some (node_find edges n);
  graph_edge n ps p : node_find edges n = Some ps -> p ∈ ps -> p ∈ seen /\ theoryOf p = Ok THEORY_BOOL /\ n ∈ children p;
  graph_closed p c : p ∈ seen -> p ∉ toVisit -> theoryOf p = Ok THEORY_BOOL -> c ∈ children p -> c ∈ seen;
  graph_sub n : n ∈ seen -> P n
}.
Context (HP : forall n c, P n -> c ∈ children n -> P c).

Section invariant.
(** The assertions. *)
Context (Γ : list Node).
Definition models (e : env) : Prop := forall a, a ∈ Γ -> val e a = true.
Definition known (n : Node) (b : bool) : Prop := forall e, models e -> val e n = b.
Definition status_of (b : bool) : AssignmentStatus := if b then ASSIGNED_TO_TRUE else ASSIGNED_TO_FALSE.

(** The values: an assigned node is in the queue and has its value in all models. *)
Record values_ok (s : CircuitPropagator) : Prop := {
  values_assigned n v : node_find (d_state s) n = Some v -> n ∈ d_propagationQueue s /\ exists b, v = status_of b /\ known n b;
  values_queue n : n ∈ d_propagationQueue s -> n ∈ d_seen s /\ is_Some (node_find (d_state s) n);
  values_once : NoDup (d_propagationQueue s);
  values_conflict : d_conflict s = true -> forall e, ~ models e;
  values_learned l : l ∈ d_learnedLiterals s -> bterm l /\ known l true
}.

Lemma known_clash n a b : known n a -> known n b -> a <> b -> forall e, ~ models e.
Proof. intros Ha Hb Hab e He. apply Hab. by rewrite <- (Ha e He), (Hb e He). Qed.

(** ** Steps of the propagation: the graph does not change *)
Section steps.
Context (S0 : CircuitPropagator) (HG : graph_ok [] (d_seen S0) (d_backEdges S0)).
Definition inv (s : CircuitPropagator) : Prop :=
  values_ok s /\ d_seen s = d_seen S0 /\ d_backEdges s = d_backEdges S0 /\ d_saved s = d_saved S0.
(** Assigned nodes keep their value, the queue only grows, a conflict remains; a rule learns nothing. *)
Definition progress (s s' : CircuitPropagator) : Prop :=
  (d_propagationQueue s `prefix_of` d_propagationQueue s' /\ (d_conflict s = true -> d_conflict s' = true)) /\
  forall n v, node_find (d_state s) n = Some v -> node_find (d_state s') n = Some v.
#[global] Instance progress_preorder : PreOrder progress.
Proof.
  split; [intros s; repeat split; done |]. intros s1 s2 s3 [(P1 & C1) V1] [(P2 & C2) V2]. split; [split; [by etrans | auto] |]. intros n v H. by apply V2, V1.
Qed.
Definition ext (s s' : CircuitPropagator) : Prop := progress s s' /\ d_learnedLiterals s' = d_learnedLiterals s.
#[global] Instance ext_preorder : PreOrder ext.
Proof. split; [by intros s |]. intros s1 s2 s3 [P1 L1] [P2 L2]. split; [by etrans | congruence]. Qed.
Abbreviation WP m s := (wp inv ext m (fun _ _ => True) s).

Lemma wp_skip s : inv s -> WP (mret tt) s.
Proof. intros Hi. by exists s, tt. Qed.
Lemma wp_seq {B} (m : CM unit) (k : CM B) R s : WP m s -> (forall s', inv s' -> ext s s' -> wp inv ext k R s') -> wp inv ext (m ≫= fun _ => k) R s.
Proof. intros Hm Hk. eapply wp_bind; [apply _ | exact Hm |]. intros s' _ Hi He _. by apply Hk. Qed.
Lemma wp_conflict s : inv s -> (forall e, ~ models e) -> WP (set_conflict true) s.
Proof.
  intros [[V1 V2 V3 V4 V5] [H1 [H2 H3]]] Hno. eexists _, tt. split; [reflexivity |].
  split; [| by split]. split; [split | done]; cbn; done.
Qed.
Lemma wp_assign_node s n b : inv s -> n ∈ d_seen S0 -> known n b -> WP (assign_node n b) s.
Proof.
  intros Hi Hn Hk. pose proof Hi as [[V1 V2 V3 V4 V5] (H1 & H2 & H3)].
  assert (E : assign_node n b s = match node_find (d_state s) n with
    | Some v => if negb (bool_decide (v = UNASSIGNED)) then (if Bool.eqb b (bool_decide (v = ASSIGNED_TO_TRUE)) then Ok (tt, s) else set_conflict true s)
                else (_ ← set_state n (status_of b); enqueue n) s
    | None => (_ ← set_state n (status_of b); enqueue n) s end).
  { unfold assign_node, gets, mbind, SM_bind. destruct (node_find (d_state s) n) as [v|]; [| done]. by destruct v, b. }
  unfold wp. rewrite E. clear E. destruct (node_find (d_state s) n) as [v|] eqn:Ev.
  - destruct (V1 _ _ Ev) as (_ & b' & -> & Hb'). replace (negb _) with true by by destruct b'.
    replace (bool_decide (status_of b' = ASSIGNED_TO_TRUE)) with b' by by destruct b'. destruct (Bool.eqb b b') eqn:Eb; [by exists s, tt |].
    apply wp_conflict; [done |]. apply (known_clash n b b'); [done | done |]. by apply eqb_false_iff.
  - assert (Hq : n ∉ d_propagationQueue s) by (intros [_ [v Hv]]%V2; congruence).
    eexists _, tt. split; [reflexivity |]. split.
    + split; [| done]. split; cbn; [| | | done | done].
      * intros m v. destruct (node_eqb n m) eqn:En; [apply node_eqb_eq in En as <-; intros [= <-]; split; [apply elem_of_app; right; by constructor | by exists b] |].
        intros [Hm Hv]%V1. split; [apply elem_of_app; by left | done].
      * intros m [Hm|Hm]%elem_of_app; [| apply list_elem_of_singleton in Hm as ->; rewrite node_eqb_refl, H1; by eauto].
        destruct (V2 _ Hm) as [Hs Hv]. split; [done |]. by destruct (node_eqb n m).
      * apply NoDup_app. split; [done |]. split; [intros m Hm ->%list_elem_of_singleton; done | apply NoDup_singleton].
    + split; [| done]. split; [| done]. split; [split; [by exists [n] | done] |]. cbn. intros m v Hm. by rewrite node_eqb_neq by congruence.
Qed.
Lemma wp_assign s n b : inv s -> n ∈ d_seen S0 -> known n b -> WP (assignAndEnqueue n b) s.
Proof.
  intros Hi Hn Hk. destruct n as [| b'| |]; [by apply wp_assign_node | | by apply wp_assign_node ..]. unfold assignAndEnqueue. destruct (Bool.eqb b b') eqn:Eb; [by apply wp_assign_node |].
  apply wp_conflict; [done |]. intros e He. apply eqb_false_iff in Eb. apply Eb. by rewrite <- (Hk e He).
Qed.
Lemma wp_assign_all ns b s : inv s -> ns ⊆ d_seen S0 -> (forall n, n ∈ ns -> known n b) -> WP (assign_all ns b) s.
Proof.
  revert s. induction ns as [|n ns IH]; intros s Hi Hn Hk; cbn [assign_all]; [by apply wp_skip |].
  apply wp_seq; [apply wp_assign; [done | apply Hn; by left | apply Hk; by left] |].
  intros s' Hi' _. apply IH; [done | intros x Hx; apply Hn; by right | intros x Hx; apply Hk; by right].
Qed.

(** *** Reading the state *)
Lemma assignedTo_known s n b : inv s -> isAssignedTo s b n = true -> known n b.
Proof.
  intros [[V1 _ _ _ _] _] H. unfold isAssignedTo in H. destruct (node_find (d_state s) n) as [v|] eqn:Ev; [| done].
  destruct (V1 _ _ Ev) as (_ & b' & -> & Hk). by destruct b, b'.
Qed.
Lemma wp_read {A B} (g : CircuitPropagator -> A) (f : A -> CM B) R s : wp inv ext (f (g s)) R s -> wp inv ext (gets g ≫= f) R s.
Proof. done. Qed.
Lemma wp_getAssignment {B} n (f : bool -> CM B) R s : inv s -> isAssigned s n = true ->
  (forall b, known n b -> wp inv ext (f b) R s) -> wp inv ext (getAssignment n ≫= f) R s.
Proof.
  intros [[V1 _ _ _ _] _] H Hf. unfold isAssigned in H. unfold wp, getAssignment, mbind, SM_bind.
  destruct (node_find (d_state s) n) as [v|] eqn:Ev; [| done]. destruct (V1 _ _ Ev) as (_ & b & -> & Hk). destruct b; by apply Hf.
Qed.
Lemma wp_child {B} n i c (f : Node -> CM B) R s : children n !! i = Some c -> wp inv ext (f c) R s -> wp inv ext (kid n i ≫= f) R s.
Proof. intros E H. unfold child. rewrite E. exact H. Qed.
Lemma wp_boolean {B} n (k : CM B) R s : bterm n -> wp inv ext k R s -> wp inv ext (assertBoolean n ≫= fun _ => k) R s.
Proof. intros Hn H. unfold assertBoolean. rewrite (bterm_type n Hn). exact H. Qed.

(** A value is known from the value of a gate and the known values: by cases on the values. *)
Ltac know Hv :=
  let e := fresh "e" in let He := fresh "He" in
  intros e He; pose proof (Hv e);
  repeat match goal with H : known _ _ |- _ => specialize (H e He) end; subst;
  repeat match goal with
  | |- context [val e ?x] => destruct (val e x)
  | H : context [val e ?x] |- _ => destruct (val e x)
  | x : bool |- _ => destruct x
  end; (done || congruence).
(** What a condition that holds says. *)
Ltac condition :=
  repeat match goal with
  | F : _ && _ = true |- _ => apply andb_prop in F as [? F]
  | F : negb _ = true |- _ => apply negb_true_iff in F
  | F : node_eqb _ _ = true |- _ => apply node_eqb_eq in F; subst
  end.
(** One step of a rule of a gate with the children [E] and the value [Hv]. *)
Ltac rule_step E Hv :=
  match goal with
  | |- wp _ _ (lift (check _ (node_eqb ?x ?x)) ≫= _) _ _ => rewrite (node_eqb_refl x); eapply wp_lift; [reflexivity |]
  | |- wp _ _ (lift (check _ true) ≫= _) _ _ => eapply wp_lift; [reflexivity |]
  | |- wp _ _ (lift (child _ _) ≫= _) _ _ => eapply wp_child; [rewrite E; reflexivity | cbv beta]
  | |- wp _ _ (assertBoolean _ ≫= _) _ _ => apply wp_boolean; [done |]
  | |- wp _ _ (getAssignment _ ≫= _) _ _ => let x := fresh "x" in let Hx := fresh "Hx" in apply wp_getAssignment; [done | done |]; intros x Hx
  | Hi : inv ?s |- wp _ _ (gets (fun s => isAssignedTo s ?b ?n) ≫= _) _ ?s =>
      apply wp_read; let F := fresh "F" in let K := fresh "K" in destruct (isAssignedTo s b n) eqn:F; cbv beta iota; [pose proof (assignedTo_known s n b Hi F) as K |]
  | |- wp _ _ (gets (fun s => isAssigned s ?n) ≫= _) _ ?s =>
      apply wp_read; let F := fresh "F" in destruct (isAssigned s n) eqn:F; cbv beta iota
  | |- wp _ _ (assignAndEnqueue _ _) _ _ => apply wp_assign; [done | done | know Hv]
  | |- wp _ _ (mret tt) _ _ => by apply wp_skip
  | |- wp _ _ (_ ≫= fun _ => _) _ _ => apply wp_seq; [| let s' := fresh "s'" in intros s' ? _]
  | |- wp _ _ (if node_eqb ?x ?x then _ else _) _ _ => rewrite (node_eqb_refl x)
  | |- wp _ _ (if ?c then _ else _) _ _ => let F := fresh "F" in destruct c eqn:F; [condition |]
  end.

Section gate.
Context (n : Node) (Hn : n ∈ d_seen S0) (Ht : theoryOf n = Ok THEORY_BOOL).
#[local] Lemma gate_bterm : bterm n.
Proof. by apply (graph_seen _ _ _ HG n). Qed.
#[local] Lemma gate_kid c : c ∈ children n -> c ∈ d_seen S0.
Proof. intros Hc. apply (graph_closed _ _ _ HG n); [done | apply not_elem_of_nil | done | done]. Qed.
#[local] Lemma gate_kids1 x : children n = [x] -> x ∈ d_seen S0.
Proof. intros E. apply gate_kid. rewrite E. by left. Qed.
#[local] Lemma gate_kids2 x y : children n = [x; y] -> x ∈ d_seen S0 /\ y ∈ d_seen S0.
Proof. intros E. split; apply gate_kid; rewrite E; repeat constructor. Qed.
#[local] Lemma gate_kids3 x y z : children n = [x; y; z] -> x ∈ d_seen S0 /\ y ∈ d_seen S0 /\ z ∈ d_seen S0.
Proof. intros E. repeat split; apply gate_kid; rewrite E; repeat constructor. Qed.

(** *** Backward rules *)
Lemma backward_ite_ok v s : inv s -> known n v -> getKind n = ITE -> WP (backward_ite n v) s.
Proof.
  intros Hi Hk K. destruct (gate_ite n gate_bterm Ht K) as (c & t & f & E & _ & _ & _ & Hv). destruct (gate_kids3 _ _ _ E) as (? & ? & ?).
  unfold backward_ite. do 3 rule_step E Hv. rule_step E Hv; [rule_step E Hv |]. rule_step E Hv; [rule_step E Hv |].
  do 2 rule_step E Hv. all: cbn [andb]; repeat rule_step E Hv.
Qed.
Lemma backward_equal_ok v s : inv s -> known n v -> getKind n = EQUAL -> WP (n0 ← kid n 0; _ ← assertBoolean n0; backward_eq n v) s.
Proof.
  intros Hi Hk K. destruct (gate_equal n gate_bterm Ht K) as (c & d & E & ? & ? & Hv). destruct (gate_kids2 _ _ E) as (? & ?).
  unfold backward_eq. do 4 rule_step E Hv. all: repeat rule_step E Hv.
Qed.
Lemma backward_xor_ok v s : inv s -> known n v -> getKind n = XOR -> WP (backward_eq n (negb v)) s.
Proof.
  intros Hi Hk K. destruct (gate_two n gate_bterm Ht XOR (or_intror eq_refl) K) as (c & d & E & _ & _ & Hv). destruct (gate_kids2 _ _ E) as (? & ?).
  unfold backward_eq. repeat rule_step E Hv.
Qed.
Lemma backward_implies_ok v s : inv s -> known n v -> getKind n = IMPLIES -> WP (backward_implies n v) s.
Proof.
  intros Hi Hk K. destruct (gate_two n gate_bterm Ht IMPLIES (or_introl eq_refl) K) as (c & d & E & _ & _ & Hv). destruct (gate_kids2 _ _ E) as (? & ?).
  unfold backward_implies. do 2 rule_step E Hv. destruct v; repeat rule_step E Hv.
Qed.
Lemma backward_not_ok v s : inv s -> known n v -> getKind n = NOT -> WP (n0 ← kid n 0; assignAndEnqueue n0 (negb v)) s.
Proof.
  intros Hi Hk K. destruct (gate_not n gate_bterm Ht K) as (c & E & _ & Hv). pose proof (gate_kids1 _ E). repeat rule_step E Hv.
Qed.

(** All children but the holdout have the value [p]. *)
#[local] Lemma holdout_known k p s x : inv s -> connective k p -> getKind n = k -> known n (negb p) ->
  List.filter (fun c => negb (isAssignedTo s p c)) (children n) = [x] -> x ∈ children n /\ known x (negb p).
Proof.
  intros Hi Hkp K Hk E. destruct (gate_nary n gate_bterm k p Hkp K) as [_ Hv].
  assert (Hf : forall c, c ∈ children n -> c = x \/ isAssignedTo s p c = true).
  { intros c Hc. destruct (isAssignedTo s p c) eqn:F; [by right | left]. apply list_elem_of_singleton. rewrite <- E.
    apply list_elem_of_In, filter_In. split; [by apply list_elem_of_In | by rewrite F]. }
  split; [apply list_elem_of_In; apply (filter_In (fun c => negb (isAssignedTo s p c)) x (children n)); rewrite E; by left |].
  intros e He. specialize (Hk e He). destruct (Bool.bool_dec (val e x) p) as [Hx|Hx]; [| by destruct (val e x), p].
  enough (val e n = p) by (destruct p; congruence). apply Hv. intros c Hc. destruct (Hf c Hc) as [->|F]; [done |].
  by apply (assignedTo_known s c p Hi F).
Qed.
Lemma backward_nary_ok k p v s : connective k p -> inv s -> known n v -> getKind n = k -> WP (backward_nary p n v) s.
Proof.
  intros Hkp Hi Hk K. unfold backward_nary. destruct (Bool.eqb v p) eqn:Evp.
  - apply eqb_prop in Evp as ->. apply wp_assign_all; [done | intros c Hc; by apply gate_kid |].
    intros c Hc e He. destruct (gate_nary n gate_bterm k p Hkp K) as [_ Hv]. by apply (Hv e); [apply Hk |].
  - assert (v = negb p) as -> by by destruct v, p. apply wp_read. unfold find_if_unique.
    destruct (List.filter _ _) as [|x [|]] eqn:Ef; try by apply wp_skip.
    destruct (holdout_known k p s x Hi Hkp K Hk Ef) as [Hx ?]. apply wp_assign; [done | by apply gate_kid | done].
Qed.
Lemma propagateBackward_ok v s : inv s -> known n v -> isVarNode n = false -> isConst n = false -> WP (propagateBackward n v) s.
Proof.
  intros Hi Hk Hnv Hnc. pose proof (gate_kinds n gate_bterm Ht Hnv Hnc) as HK. unfold propagateBackward.
  repeat destruct HK as [K|HK]; try done; symmetry in K; rewrite K.
  - apply (backward_nary_ok AND); [by left | done ..].
  - apply (backward_nary_ok OR); [by right | done ..].
  - by apply backward_not_ok.
  - by apply backward_ite_ok.
  - by apply backward_equal_ok.
  - by apply backward_implies_ok.
  - by apply backward_xor_ok.
Qed.

(** *** Forward rules *)
Lemma forward_nary_ok k p v s ch : ch ∈ children n -> connective k p -> inv s -> known ch v -> getKind n = k -> WP (forward_nary p n v) s.
Proof.
  intros Hch Hkp Hi Hk K. destruct (gate_nary n gate_bterm k p Hkp K) as [_ Hv]. unfold forward_nary. destruct (Bool.eqb v p) eqn:Evp.
  - apply wp_read. unfold id. destruct (List.filter _ _) as [|x others] eqn:Ef.
    + apply wp_assign; [done | done |]. intros e He. apply Hv. intros c Hc. apply (assignedTo_known s c p Hi); [| done].
      destruct (isAssignedTo s p c) eqn:F; [done | exfalso]. apply (in_nil (a := c)). rewrite <- Ef. apply filter_In. split; [by apply list_elem_of_In | by rewrite F].
    + destruct (isAssignedTo _ (negb p) n) eqn:F; [| by apply wp_skip]. destruct others as [|]; [| by apply wp_skip].
      destruct (holdout_known k p s x Hi Hkp K (assignedTo_known s n _ Hi F) Ef) as [Hx ?]. apply wp_assign; [done | by apply gate_kid | done].
  - apply wp_assign; [done | done |]. intros e He. specialize (Hk e He). destruct (Bool.bool_dec (val e n) p) as [E|E]; [| by destruct (val e n), p].
    rewrite (proj1 (Hv e) E ch Hch) in Hk. subst v. by rewrite eqb_reflx in Evp.
Qed.
Lemma forward_not_ok v s ch : ch ∈ children n -> inv s -> known ch v -> getKind n = NOT -> WP (assignAndEnqueue n (negb v)) s.
Proof.
  intros Hch Hi Hk K. destruct (gate_not n gate_bterm Ht K) as (c & E & _ & Hv). rewrite E in Hch. apply list_elem_of_singleton in Hch as ->.
  rule_step E Hv.
Qed.
Lemma forward_ite_ok v s ch : ch ∈ children n -> inv s -> known ch v -> getKind n = ITE -> WP (forward_ite n ch v) s.
Proof.
  intros Hch Hi Hk K. destruct (gate_ite n gate_bterm Ht K) as (c & t & f & E & _ & _ & _ & Hv). destruct (gate_kids3 _ _ _ E) as (? & ? & ?).
  unfold forward_ite. clear Hch. repeat rule_step E Hv.
Qed.
#[local] Lemma child_two ch c d : ch ∈ children n -> children n = [c; d] -> ch = c \/ ch = d.
Proof. intros Hch E. rewrite E in Hch. by apply elem_of_cons in Hch as [-> | ->%list_elem_of_singleton]; [left | right]. Qed.
Lemma forward_equal_ok v s ch : ch ∈ children n -> inv s -> known ch v -> getKind n = EQUAL -> WP (forward_equal n ch v) s.
Proof.
  intros Hch Hi Hk K. destruct (gate_equal n gate_bterm Ht K) as (c & d & E & ? & ? & Hv). destruct (gate_kids2 _ _ E) as (? & ?).
  unfold forward_equal. do 5 rule_step E Hv; cbn [andb]; destruct (child_two _ _ _ Hch E); subst ch; rewrite ?node_eqb_refl; repeat rule_step E Hv.
Qed.
Lemma forward_implies_ok v s ch : ch ∈ children n -> inv s -> known ch v -> getKind n = IMPLIES -> WP (forward_implies n ch v) s.
Proof.
  intros Hch Hi Hk K. destruct (gate_two n gate_bterm Ht IMPLIES (or_introl eq_refl) K) as (c & d & E & ? & ? & Hv). destruct (gate_kids2 _ _ E) as (? & ?).
  unfold forward_implies. clear Hch. do 4 rule_step E Hv; cbn [andb]; repeat rule_step E Hv.
Qed.
Lemma forward_xor_ok v s ch : ch ∈ children n -> inv s -> known ch v -> getKind n = XOR -> WP (forward_xor n ch v) s.
Proof.
  intros Hch Hi Hk K. destruct (gate_two n gate_bterm Ht XOR (or_intror eq_refl) K) as (c & d & E & ? & ? & Hv). destruct (gate_kids2 _ _ E) as (? & ?).
  unfold forward_xor. destruct (child_two _ _ _ Hch E); subst ch; rewrite ?node_eqb_refl; repeat rule_step E Hv.
Qed.
Lemma forward_parent_ok v s ch : ch ∈ children n -> inv s -> known ch v -> WP (forward_parent ch v n) s.
Proof.
  intros Hch Hi Hk. unfold forward_parent. destruct (hasSubterm_ok n ch false) as (b & -> & Hb).
  assert (b = true) as -> by (apply Hb; left; by apply below_child).
  eapply wp_lift; [reflexivity |]. eapply wp_lift; [reflexivity |].
  assert (HK : In (getKind n) [AND; OR; NOT; ITE; EQUAL; IMPLIES; XOR]).
  { apply gate_kinds; [apply gate_bterm | done | |]; destruct n; try done; by apply not_elem_of_nil in Hch. }
  repeat destruct HK as [K|HK]; try done; symmetry in K; rewrite K.
  - apply (forward_nary_ok AND true v s ch); [done | by left | done ..].
  - apply (forward_nary_ok OR false v s ch); [done | by right | done ..].
  - by apply (forward_not_ok v s ch).
  - by apply forward_ite_ok.
  - by apply forward_equal_ok.
  - by apply forward_implies_ok.
  - by apply forward_xor_ok.
Qed.
End gate.

Lemma forward_loop_ok v ch ps s : inv s -> known ch v ->
  (forall p, p ∈ ps -> p ∈ d_seen S0 /\ theoryOf p = Ok THEORY_BOOL /\ ch ∈ children p) -> WP (forward_loop ch v ps) s.
Proof.
  revert s. induction ps as [|p ps IH]; intros s Hi Hk Hps; cbn [forward_loop]; [by apply wp_skip |].
  apply wp_read. destruct (d_conflict s); [by apply wp_skip |]. destruct (Hps p) as (? & ? & ?); [by left |].
  apply wp_seq; [by apply forward_parent_ok |]. intros s' Hi' _. apply IH; [done | done |]. intros q Hq. apply Hps. by right.
Qed.
Lemma propagateForward_ok v ch s : inv s -> ch ∈ d_seen S0 -> known ch v -> WP (propagateForward ch v) s.
Proof.
  intros Hi Hs Hk. unfold propagateForward. apply wp_read. destruct Hi as [Hi (H1 & H2 & H3)]. rewrite H2.
  destruct (graph_seen _ _ _ HG ch Hs) as [_ [ps Eps]]. rewrite Eps. apply forward_loop_ok; [done | done |].
  intros p Hp. by apply (graph_edge _ _ _ HG ch ps).
Qed.

(** ** The loop *)
Section loop.
Context (fw bw : bool).
(** The literals learned are those of the atoms processed so far. *)
Definition learned_at (s : CircuitPropagator) (n : Node) : list Node := if is_atom n then [literal n (isAssignedTo s true n)] else [].
Definition learned_upto (i : nat) (s : CircuitPropagator) : Prop := d_learnedLiterals s = flat_map (learned_at s) (take i (d_propagationQueue s)).

Lemma learn_ok s n b : inv s -> bterm n -> known n b ->
  wp inv progress (learn (literal n b)) (fun s' _ => d_learnedLiterals s' = d_learnedLiterals s ++ [literal n b]) s.
Proof.
  intros [[V1 V2 V3 V4 V5] Hf] Hn Hk. eexists _, tt. split; [reflexivity |]. split; [| done].
  split; [| done]. split; cbn; [done .. |]. intros l [Hl|Hl]%elem_of_app; [by apply V5 |]. apply list_elem_of_singleton in Hl as ->.
  destruct b; [done |]. split; [| intros e He; cbn [literal]; by rewrite val_not, (Hk e He)].
  intros e. exists (negb (val e n)). by apply b_not, bterm_val.
Qed.
Lemma wp_look {A B} (g : CircuitPropagator -> A) (f : A -> CM B) R s : wp inv progress (f (g s)) R s -> wp inv progress (gets g ≫= f) R s.
Proof. done. Qed.
(** A rule, as a step of the loop. *)
Lemma wp_rule {A} (m : CM A) s : WP m s -> wp inv progress m (fun s' _ => d_learnedLiterals s' = d_learnedLiterals s) s.
Proof. intros (s' & a & E & Hi & [Hp Hl] & _). by exists s', a. Qed.
Lemma queue_assigned s n : inv s -> n ∈ d_propagationQueue s -> n ∈ d_seen S0 /\ exists b, node_find (d_state s) n = Some (status_of b) /\ known n b.
Proof.
  intros [[V1 V2 V3 V4 V5] (H1 & _)] Hn. destruct (V2 n Hn) as [Hs [v Hv]]. rewrite H1 in Hs. split; [done |].
  destruct (V1 _ _ Hv) as (_ & b & -> & Hb). by exists b.
Qed.
Lemma status_assignedTo s n b b' : node_find (d_state s) n = Some (status_of b) -> isAssignedTo s b' n = true <-> b' = b.
Proof. intros H. unfold isAssignedTo. rewrite H. destruct b, b'; cbn; split; congruence. Qed.
Lemma queue_bound s : inv s -> length (d_propagationQueue s) <= length (d_seen S0).
Proof.
  intros Hi. apply submseteq_length, NoDup_submseteq; [apply (values_once s), Hi |]. intros n Hn. by apply (queue_assigned s n Hi).
Qed.

Lemma propagate_node_ok s n : inv s -> n ∈ d_propagationQueue s ->
  wp inv progress (propagate_node fw bw n) (fun s' _ => d_learnedLiterals s' = d_learnedLiterals s ++ learned_at s n) s.
Proof.
  intros Hi Hn. destruct (queue_assigned s n Hi Hn) as (Hs & b & Hv & Hk). destruct (graph_seen _ _ _ HG n Hs) as [Hb _].
  destruct (bterm_theory n Hb) as [t Ht].
  apply (wp_bind inv progress (getAssignment n) _ (fun s' x => s' = s /\ x = b)).
  { exists s, b. split; [unfold getAssignment; rewrite Hv; by destruct b | done]. }
  intros _ _ _ _ [-> ->]. eapply wp_lift; [exact Ht |]. cbn zeta. set (atom := negb _ || _).
  assert (Ea : learned_at s n = if atom then [literal n b] else []).
  { unfold learned_at, is_atom. rewrite Ht. fold atom. unfold isAssignedTo. rewrite Hv. by destruct b. }
  rewrite Ea. apply (wp_bind inv progress _ _ (fun s' _ => d_learnedLiterals s' = d_learnedLiterals s ++ if atom then [literal n b] else [])).
  { destruct atom; [by apply (learn_ok s n b) | exists s, tt; by rewrite app_nil_r]. }
  intros s1 _ Hi1 He1 Hl1. eapply wp_bind; [apply _ | |].
  { apply wp_rule. destruct (bw && negb atom && negb (isConst n)) eqn:Ec; [| by apply wp_skip].
    apply andb_prop in Ec as [[_ E1%negb_true_iff]%andb_prop E2%negb_true_iff]. subst atom. apply orb_false_iff in E1 as [E1 E3].
    apply negb_false_iff, bool_decide_eq_true in E1. subst t. by apply propagateBackward_ok. }
  intros s2 [] Hi2 He2 Hl2. eapply wp_mono; [apply wp_rule; destruct fw; [by apply propagateForward_ok | by apply wp_skip] |].
  intros s3 [] _ He3 Hl3. congruence.
Qed.

Lemma learned_step s s' i n : inv s -> progress s s' -> d_propagationQueue s !! i = Some n -> learned_upto i s ->
  d_learnedLiterals s' = d_learnedLiterals s ++ learned_at s n -> learned_upto (S i) s'.
Proof.
  intros Hi [([q Hq] & _) Hv] Hn Hu Hnew. pose proof (lookup_lt_Some _ _ _ Hn). unfold learned_upto.
  rewrite Hnew, Hu, Hq, take_app_le by lia. rewrite (take_S_r _ _ _ Hn), flat_map_app. cbn [flat_map]. rewrite app_nil_r.
  assert (Hat : forall m, m ∈ d_propagationQueue s -> learned_at s' m = learned_at s m).
  { intros m Hm. destruct (queue_assigned s m Hi Hm) as (_ & b' & E & _). unfold learned_at, isAssignedTo. by rewrite E, (Hv _ _ E). }
  f_equal; [| symmetry; apply Hat; by eapply list_elem_of_lookup_2].
  assert (Hin : forall m, m ∈ take i (d_propagationQueue s) -> m ∈ d_propagationQueue s) by (intros m Hm; by apply (subseteq_take i)).
  revert Hin. generalize (take i (d_propagationQueue s)) as l. induction l as [|m l IHl]; intros Hin; [done |]. cbn. rewrite Hat by (apply Hin; by left).
  f_equal. apply IHl. intros x Hx. apply Hin. by right.
Qed.
Lemma propagate_loop_ok fuel : forall i s, inv s -> learned_upto i s -> length (d_seen S0) <= fuel + i ->
  wp inv progress (propagate_loop fw bw fuel i) (fun s' c => c = d_conflict s' /\ (c = false -> learned_upto (length (d_propagationQueue s')) s')) s.
Proof.
  induction fuel as [|fuel IH]; intros i s Hi Hu Hf; cbn [propagate_loop]; apply wp_look, wp_look;
    (destruct (d_propagationQueue s !! i) as [n|] eqn:Hn;
      [| exists s, (d_conflict s); split; [done |]; split; [done |]; split; [done |]; split; [done |]; intros _; unfold learned_upto in *;
         apply lookup_ge_None in Hn; by rewrite firstn_all, Hu, firstn_all2]);
    (destruct (d_conflict s) eqn:Ec; [exists s, true; split; [done |]; split; [done |]; split; [done |]; split; [by rewrite Ec | done] |]).
  - pose proof (queue_bound s Hi). apply lookup_lt_Some in Hn. lia.
  - eapply wp_bind; [apply _ | apply propagate_node_ok; [done | by eapply list_elem_of_lookup_2] |].
    intros s' [] Hi' He Hnew. apply IH; [done | by apply (learned_step s s' i n) | lia].
Qed.
End loop.
End steps.

(** ** The construction of the graph *)
Lemma graph_weaken l l' seen edges : l ⊆ l' -> graph_ok l seen edges -> graph_ok l' seen edges.
Proof. intros Hl [G1 G2 G3 G4]. split; [done | done | | done]. intros p c Hp Hpl. apply G3; [done |]. intros H. by apply Hpl, Hl. Qed.
Lemma graph_add_edges l seen edges n ps : graph_ok l seen edges ->
  (forall p, p ∈ ps -> p ∈ seen /\ theoryOf p = Ok THEORY_BOOL /\ n ∈ children p) ->
  graph_ok l seen ((n, default [] (node_find edges n) ++ ps) :: edges).
Proof.
  intros [G1 G2 G3 G4] Hps. split; [| | done | done].
  - intros m Hm. destruct (G1 m Hm) as [Hb He]. split; [done |]. cbn. by destruct (node_eqb n m).
  - intros m qs q. cbn. destruct (node_eqb n m) eqn:E; [| apply G2]. apply node_eqb_eq in E as <-. intros [= <-] [Hq|Hq]%elem_of_app; [| by apply Hps].
    destruct (node_find edges n) as [old|] eqn:Eo; [by apply (G2 n old) | by apply not_elem_of_nil in Hq].
Qed.
Lemma graph_see l seen edges n : graph_ok l seen edges -> bterm n -> P n -> is_Some (node_find edges n) -> graph_ok (n :: l) (n :: seen) edges.
Proof.
  intros [G1 G2 G3 G4] Hn HPn He. split.
  - intros m [->|Hm]%elem_of_cons; [done | by apply G1].
  - intros m qs q Hm Hq. destruct (G2 m qs q Hm Hq) as (? & ? & ?). split; [by right | done].
  - intros p c [->|Hp]%elem_of_cons Hl; [destruct Hl; by left |]. intros Ht Hc. right. apply (G3 p); [done | intros H; apply Hl; by right | done | done].
  - intros m [->|Hm]%elem_of_cons; [done | by apply G4].
Qed.

(** What does not change, and the nodes seen, which only grow. *)
Definition same_values (s s' : CircuitPropagator) : Prop :=
  d_propagationQueue s' = d_propagationQueue s /\ d_conflict s' = d_conflict s /\ d_learnedLiterals s' = d_learnedLiterals s /\
  d_state s' = d_state s /\ d_saved s' = d_saved s /\ d_seen s ⊆ d_seen s'.
#[global] Instance same_values_preorder : PreOrder same_values.
Proof.
  split; [intros s; repeat split; done |]. intros s1 s2 s3 (A1 & A2 & A3 & A4 & A5 & A6) (B1 & B2 & B3 & B4 & B5 & B6).
  repeat split; [congruence .. | by etrans].
Qed.
Lemma values_same s s' : values_ok s -> same_values s s' -> values_ok s'.
Proof.
  intros [V1 V2 V3 V4 V5] (A1 & A2 & A3 & A4 & A5 & A6). split; rewrite ?A1, ?A2, ?A3, ?A4; try done.
  intros n Hn. destruct (V2 n Hn). split; [by apply A6 | done].
Qed.
Abbreviation graph l s := (graph_ok l (d_seen s) (d_backEdges s)).

Lemma visit_children_ok current cs : forall l s, graph l s -> current ∈ d_seen s -> theoryOf current = Ok THEORY_BOOL -> cs ⊆ children current ->
  exists new s', visit_children current cs s = Ok (new, s') /\ graph (new ++ l) s' /\ same_values s s' /\
    new ⊆ d_seen s' /\ cs ⊆ d_seen s' /\ nodes_of new <= nodes_of cs.
Proof.
  induction cs as [|c cs IH]; intros l s G Hs Ht Hcs; [exists [], s; split; [done |]; split; [exact G |]; split; [reflexivity |]; split; [apply list_subseteq_nil |]; by split; [apply list_subseteq_nil |] |].
  assert (Hc : c ∈ children current) by (apply Hcs; by left).
  assert (Hcs' : cs ⊆ children current) by (intros x Hx; apply Hcs; by right).
  cbn [visit_children]. set (s1 := MkCircuit (d_propagationQueue s) (d_conflict s) (d_learnedLiterals s)
    ((c, default [] (node_find (d_backEdges s) c) ++ [current]) :: d_backEdges s) (d_seen s) (d_state s) (d_saved s)).
  change (exists new s', (if existsb (node_eqb c) (d_seen s1) then visit_children current cs
    else _ ← see c; rest ← visit_children current cs; mret (c :: rest)) s1 = Ok (new, s') /\ graph (new ++ l) s' /\ same_values s s' /\
    new ⊆ d_seen s' /\ c :: cs ⊆ d_seen s' /\ nodes_of new <= nodes_of (c :: cs)).
  assert (G1 : graph l s1) by (apply graph_add_edges; [done | intros p ->%list_elem_of_singleton; done]).
  destruct (existsb (node_eqb c) (d_seen s1)) eqn:Ec.
  - apply member in Ec. destruct (IH l s1 G1 Hs Ht Hcs') as (new & s' & E & G' & Hsame & Hnew & Hseen & Hsz).
    exists new, s'. split; [done |]. split; [done |]. split; [exact Hsame |]. split; [done |]. split.
    + intros x [->|Hx]%elem_of_cons; [by apply Hsame | by apply Hseen].
    + change (nodes_of (c :: cs)) with (num_nodes c + nodes_of cs). lia.
  - set (s2 := MkCircuit (d_propagationQueue s1) (d_conflict s1) (d_learnedLiterals s1) (d_backEdges s1) (c :: d_seen s1) (d_state s1) (d_saved s1)).
    assert (G2 : graph (c :: l) s2).
    { apply graph_see; [done | by apply (gate_children current); [apply (graph_seen _ _ _ G) | |] | by apply (HP current); [apply (graph_sub _ _ _ G) |] | cbn; by rewrite node_eqb_refl]. }
    destruct (IH (c :: l) s2 G2) as (new & s' & E & G' & Hsame & Hnew & Hseen & Hsz); [by right | done | done |].
    assert (Hin : c ∈ d_seen s') by (apply Hsame; by left).
    exists (c :: new), s'. split.
    { change (match visit_children current cs s2 with Ok (rest, s') => Ok (c :: rest, s') | Throw x => Throw x end = Ok (c :: new, s')). by rewrite E. }
    split; [eapply graph_weaken; [| exact G']; intros x; rewrite !elem_of_app, !elem_of_cons; tauto |].
    split; [transitivity s2; [| exact Hsame]; repeat split; intros x Hx; by right |].
    split; [intros x [->|Hx]%elem_of_cons; [done | by apply Hnew] |].
    split; [intros x [->|Hx]%elem_of_cons; [done | by apply Hseen] |].
    change (num_nodes c + nodes_of new <= num_nodes c + nodes_of cs). lia.
Qed.

Lemma nodes_of_app l1 l2 : nodes_of (l1 ++ l2) = nodes_of l1 + nodes_of l2.
Proof. apply sum_list_with_app. Qed.
Lemma visit_loop_ok fuel : forall toVisit s, graph toVisit s -> toVisit ⊆ d_seen s -> nodes_of toVisit <= fuel ->
  exists s', visit_loop fuel toVisit s = Ok (tt, s') /\ graph [] s' /\ same_values s s'.
Proof.
  induction fuel as [|fuel IH]; intros [|current toVisit] s G Hin Hf; try (by exists s);
    (change (nodes_of (current :: toVisit)) with (num_nodes current + nodes_of toVisit) in Hf; rewrite nodes_of_children in Hf); [lia |].
  assert (Hs : current ∈ d_seen s) by (apply Hin; by left). destruct (bterm_theory current) as [t Ht]; [by apply (graph_seen _ _ _ G) |].
  assert (E : visit_loop (S fuel) (current :: toVisit) s =
    match (if bool_decide (t = THEORY_BOOL) then visit_children current (children current) else mret []) s with
    | Ok (new, s1) => visit_loop fuel (toVisit ++ new) s1 | Throw x => Throw x end).
  { cbn [visit_loop]. unfold gets, mbind, SM_bind. rewrite (proj2 (member current (d_seen s)) Hs). cbn [check lift]. by rewrite Ht. }
  rewrite E. clear E.
  assert (exists new s1, (if bool_decide (t = THEORY_BOOL) then visit_children current (children current) else mret []) s = Ok (new, s1) /\
    graph (toVisit ++ new) s1 /\ same_values s s1 /\ new ⊆ d_seen s1 /\ nodes_of new <= nodes_of (children current)) as (new & s1 & E & G1 & Hsame & Hnew & Hsz).
  { case_bool_decide as Hbool.
    - subst t. destruct (visit_children_ok current (children current) (current :: toVisit) s G Hs Ht) as (new & s1 & E & G1 & Hsame & Hnew & Hch & Hsz); [done |].
      exists new, s1. split; [done |]. split; [| done]. destruct G1 as [G1 G2 G3 G4]. split; [done | done | | done].
      intros p c Hp Hl Htp Hc. destruct (decide (p = current)) as [->|Hpc]; [by apply Hch |]. apply (G3 p); [done | | done | done].
      rewrite elem_of_app, elem_of_cons. rewrite elem_of_app in Hl. tauto.
    - exists [], s. split; [done |]. split; [| split; [reflexivity |]; split; [apply list_subseteq_nil | cbn; lia]]. rewrite app_nil_r.
      destruct G as [G1 G2 G3 G4]. split; [done | done | | done].
      intros p c Hp Hl Htp Hc. destruct (decide (p = current)) as [->|Hpc]; [congruence |]. apply (G3 p); [done | | done | done]. rewrite elem_of_cons. tauto. }
  rewrite E. destruct (IH (toVisit ++ new) s1 G1) as (s' & E' & G' & Hs').
  - intros x [Hx|Hx]%elem_of_app; [apply Hsame, Hin; by right | by apply Hnew].
  - rewrite nodes_of_app. lia.
  - exists s'. split; [done |]. split; [done | by etrans].
Qed.

Lemma computeBackEdges_ok n s : bterm n -> P n -> graph [] s -> exists s', computeBackEdges n s = Ok (tt, s') /\ graph [] s' /\ same_values s s' /\ n ∈ d_seen s'.
Proof.
  intros Hb HPn G.
  set (s1 := fun (seen : list Node) => MkCircuit (d_propagationQueue s) (d_conflict s) (d_learnedLiterals s)
    ((n, default [] (node_find (d_backEdges s) n) ++ []) :: d_backEdges s) seen (d_state s) (d_saved s)).
  assert (E : computeBackEdges n s = if existsb (node_eqb n) (d_seen s) then visit_loop (BVRules.num_nodes n) [] (s1 (d_seen s))
    else visit_loop (BVRules.num_nodes n) [n] (s1 (n :: d_seen s))).
  { unfold computeBackEdges, gets, mbind, SM_bind. by destruct (existsb (node_eqb n) (d_seen s)). }
  rewrite E. clear E. assert (G1 : graph [] (s1 (d_seen s))) by (apply graph_add_edges; [done | intros p Hp; by apply not_elem_of_nil in Hp]).
  destruct (existsb (node_eqb n) (d_seen s)) eqn:Es.
  - apply member in Es. destruct (visit_loop_ok (num_nodes n) [] (s1 (d_seen s)) G1) as (s' & E & G' & Hs'); [apply list_subseteq_nil | cbn; lia |].
    exists s'. split; [done |]. split; [done |]. split; [exact Hs' | by apply Hs'].
  - destruct (visit_loop_ok (num_nodes n) [n] (s1 (n :: d_seen s))) as (s' & E & G' & Hs').
    + apply graph_see; [done | done | done |]. cbn. by rewrite node_eqb_refl.
    + intros x ->%list_elem_of_singleton. by left.
    + cbn. lia.
    + exists s'. split; [done |]. split; [done |]. split; [| apply Hs'; by left]. transitivity (s1 (n :: d_seen s)); [| exact Hs'].
      repeat split. intros x Hx. by right.
Qed.

(** ** Assertions *)
(** The formulas that [assertTrue] asserts for an assertion. *)
Inductive conjunct (x : Node) : Node -> Prop :=
  | conjunct_leaf : getKind x <> AND -> conjunct x x
  | conjunct_and a c : getKind a = AND -> c ∈ children a -> conjunct x c -> conjunct x a.
Definition settled (s : CircuitPropagator) (x : Node) : Prop := d_conflict s = true \/ isAssignedTo s true x = true.
Definition ready (s : CircuitPropagator) : Prop := graph [] s /\ values_ok s.

Lemma assigned_mono s s' b n : progress s s' -> values_ok s -> isAssignedTo s b n = true -> isAssignedTo s' b n = true.
Proof.
  intros [_ Hv] [V1 _ _ _ _] H. unfold isAssignedTo in *. destruct (node_find (d_state s) n) as [v|] eqn:E; [| done]. by rewrite (Hv _ _ E).
Qed.
Lemma settled_mono s s' x : progress s s' -> values_ok s -> settled s x -> settled s' x.
Proof. intros He Hv [H|H]; [left; by apply He | right; by eapply assigned_mono]. Qed.
Lemma same_ext s s' : same_values s s' -> ext s s'.
Proof. intros (A1 & A2 & A3 & A4 & A5 & A6). split; [split; [by rewrite A1, A2 | by rewrite A4] | done]. Qed.

(** What [assignAndEnqueue] has done: the node has the value, or there is a conflict. *)
Lemma assign_effect s n s' : values_ok s -> assignAndEnqueue n true s = Ok (tt, s') -> settled s' n.
Proof.
  intros [V1 _ _ _ _] E.
  assert (Hn : assign_node n true s = Ok (tt, s') -> settled s' n).
  { clear E. unfold assign_node, gets, mbind, SM_bind. destruct (node_find (d_state s) n) as [v|] eqn:Ev; cbn [default].
    - destruct (V1 _ _ Ev) as (_ & b & -> & _). destruct b; cbn; intros [= <-]; [right; unfold isAssignedTo; by rewrite Ev | by left].
    - cbn. intros [= <-]. right. unfold isAssignedTo. cbn. by rewrite node_eqb_refl. }
  destruct n as [| [] | |]; try by apply Hn. injection E as <-. by left.
Qed.

Definition asserts (a : Node) : Prop := forall s, bterm a -> P a -> known a true -> ready s ->
  exists s', assertTrue a s = Ok (tt, s') /\ ready s' /\ ext s s' /\ d_saved s' = d_saved s /\ forall x, conjunct x a -> settled s' x.
Lemma assert_all_ok l : Forall asserts l -> forall s, Forall (fun a => (bterm a /\ P a) /\ known a true) l -> ready s ->
  exists s', assert_all l s = Ok (tt, s') /\ ready s' /\ ext s s' /\ d_saved s' = d_saved s /\ forall a x, a ∈ l -> conjunct x a -> settled s' x.
Proof.
  induction 1 as [|a l Ha _ IH]; intros s Hl Hr.
  - exists s. split; [done |]. split; [done |]. split; [reflexivity |]. split; [done |]. intros a x Hx. by apply not_elem_of_nil in Hx.
  - apply Forall_cons in Hl as [[[Hb HPa] Hk] Hl]. destruct (Ha s Hb HPa Hk Hr) as (s1 & E1 & Hr1 & He1 & Hs1 & Hx1).
    destruct (IH s1 Hl Hr1) as (s2 & E2 & Hr2 & He2 & Hs2 & Hx2). exists s2.
    split; [cbn [assert_all]; unfold mbind, SM_bind; by rewrite E1 |]. split; [done |]. split; [by etrans |]. split; [congruence |].
    intros a' x [->|Hin]%elem_of_cons Hx; [| by eapply Hx2]. eapply settled_mono; [apply He2 | apply Hr1 | by apply Hx1].
Qed.
Lemma assert_leaf a : getKind a <> AND -> assertTrue a = (_ ← computeBackEdges a; assignAndEnqueue a true).
Proof. intros H. destruct a as [| | |k ch]; try done. by destruct k. Qed.
Lemma assert_leaf_ok a s : getKind a <> AND -> bterm a -> P a -> known a true -> ready s ->
  exists s', (_ ← computeBackEdges a; assignAndEnqueue a true) s = Ok (tt, s') /\ ready s' /\ ext s s' /\ d_saved s' = d_saved s /\ forall x, conjunct x a -> settled s' x.
Proof.
  intros Ha Hb HPa Hk [G V]. destruct (computeBackEdges_ok a s Hb HPa G) as (s1 & E1 & G1 & Hs1 & Hin). pose proof (values_same s s1 V Hs1) as V1.
  destruct (wp_assign s1 s1 a true) as (s2 & [] & E2 & [V2 (H1 & H2 & H3)] & He2 & _); [by split | done | done |].
  exists s2. split; [unfold mbind, SM_bind; by rewrite E1 |]. split; [split; [by rewrite H1, H2 | done] |].
  split; [etrans; [by apply same_ext | done] |]. split; [rewrite H3; apply Hs1 |].
  intros x Hx. inversion Hx; subst; [| done]. by apply (assign_effect s1 a s2).
Qed.
Lemma assertTrue_ok a : asserts a.
Proof.
  induction a as [x t|b|v|k ch IH] using node_ind'; intros s Hb HPa Hk Hr.
  1-3: rewrite assert_leaf by done; by apply assert_leaf_ok.
  destruct (decide (k = AND)) as [->|Hne]; [| rewrite assert_leaf by done; by apply assert_leaf_ok].
  destruct (gate_nary (MkNode AND ch) Hb AND true) as [Hch Hv]; [by left | done |]. cbn [children] in Hch, Hv.
  destruct (assert_all_ok ch IH s) as (s' & E & Hr' & He & Hs & Hx).
  - rewrite Forall_forall in *. intros c Hc. split; [split; [by apply Hch | by apply (HP (MkNode AND ch))] |]. intros e He. apply (Hv e); [by apply Hk | done].
  - done.
  - exists s'. split; [exact E |]. split; [done |]. split; [done |]. split; [done |].
    intros x Hc. inversion Hc as [|a c Ha Hc1 Hc2]; subst; [done |]. by apply (Hx c).
Qed.

(** ** A round of the propagator *)
Lemma new_ready saved : ready (MkCircuit [] false [] [] [] [] saved).
Proof.
  split; split; cbn; try done; try (intros n Hn; by apply not_elem_of_nil in Hn).
  constructor.
Qed.
Lemma round_ok : Forall (fun a => bterm a /\ P a) Γ -> exists c s', propagate_assertions Γ new_CircuitPropagator = Ok (c, s') /\ values_ok s' /\ graph [] s' /\
  c = d_conflict s' /\ d_saved s' = [(false, [], [])] /\
  (c = false -> learned_upto (length (d_propagationQueue s')) s' /\ forall a x, a ∈ Γ -> conjunct x a -> isAssignedTo s' true x = true).
Proof.
  intros Hb. set (s0 := MkCircuit [] false [] [] [] [] [(false, [], [])]).
  destruct (assert_all_ok Γ) with (s := s0) as (s1 & E1 & [G1 V1] & [_ Hl1] & Hs1 & Hx1).
  - rewrite Forall_forall. intros a _. apply assertTrue_ok.
  - rewrite Forall_forall in *. intros a Ha. split; [by apply Hb |]. intros e He. by apply He.
  - apply new_ready.
  - destruct (propagate_loop_ok s1 G1 true true (length (d_seen s1)) 0 s1) as (s2 & c & E2 & [V2 (H1 & H2 & H3)] & He & Hc & Hl).
    + by split.
    + unfold learned_upto. by rewrite Hl1.
    + lia.
    + exists c, s2. split.
      { unfold propagate_assertions, mbind, SM_bind. change (initialize new_CircuitPropagator) with (Ok (tt, s0) : M (unit * CircuitPropagator)).
        cbn beta iota. by rewrite E1. }
      split; [done |]. split; [by rewrite H1, H2 |]. split; [done |]. split; [by rewrite H3, Hs1 |].
      intros ->. split; [by apply Hl |]. intros a x Ha Hx. destruct (settled_mono s1 s2 x He V1 (Hx1 a x Ha Hx)) as [Hf|Hf]; [congruence | done].
Qed.
(** The literals learned without a conflict: different atoms of the assertions with their values. *)
Lemma learned_literals s : values_ok s -> graph [] s -> learned_upto (length (d_propagationQueue s)) s ->
  exists l, d_learnedLiterals s = map (fun '(n, b) => literal n b) l /\ NoDup (map fst l) /\ forall n b, (n, b) ∈ l -> is_atom n = true /\ bterm n /\ P n /\ known n b.
Proof.
  intros V G Hl. unfold learned_upto in Hl. rewrite firstn_all in Hl.
  set (f := fun n => if is_atom n then [(n, isAssignedTo s true n)] else []). exists (flat_map f (d_propagationQueue s)).
  assert (Hin : forall n b, (n, b) ∈ flat_map f (d_propagationQueue s) -> n ∈ d_propagationQueue s /\ is_atom n = true /\ b = isAssignedTo s true n).
  { intros n b. rewrite list_elem_of_In, in_flat_map. intros (m & Hm & Hf). subst f. cbn in Hf. destruct (is_atom m) eqn:Ea; [| done].
    destruct Hf as [[= -> <-]|[]]. by rewrite list_elem_of_In. }
  split; [| split].
  - rewrite Hl. clear. unfold learned_at. induction (d_propagationQueue s) as [|n q IH]; [done |]. cbn. unfold f at 1. destruct (is_atom n); cbn; [f_equal |]; exact IH.
  - pose proof (values_once s V) as Hnd. clear -Hnd. induction (d_propagationQueue s) as [|n q IH]; [constructor |]. apply NoDup_cons in Hnd as [Hn Hq]. cbn.
    unfold f at 1. destruct (is_atom n); cbn; [| by apply IH]. apply NoDup_cons. split; [| by apply IH]. intros Hm. apply Hn. clear -Hm.
    apply list_elem_of_fmap in Hm as ([m b] & -> & Hm). apply list_elem_of_In, in_flat_map in Hm as (k & Hk & Hf). subst f. cbn in Hf.
    destruct (is_atom k); [| done]. destruct Hf as [[= -> _]|[]]. by apply list_elem_of_In.
  - intros n b (Hq & Ha & ->)%Hin. destruct (values_queue s V n Hq) as [Hs [v Hv]]. destruct (values_assigned s V n v Hv) as (_ & b & -> & Hk).
    split; [done |]. split; [by apply (graph_seen _ _ _ G) |]. split; [by apply (graph_sub _ _ _ G) |]. unfold isAssignedTo. rewrite Hv. by destruct b.
Qed.
End invariant.
End subformulas.

(** C11. A round of the circuit propagator on Boolean formulas (any assertions, any size) ends without a failing assertion, out-of-bounds access or unhandled kind: its loops terminate. When it reports a conflict the assertions have no model; in every model each assigned node has its assigned value and each learned literal is true; without a conflict every asserted conjunct is assigned true and the literal of every assigned atom has been learned; and [finish] leaves the propagator as it was before [initialize]. *)
Theorem circuit_propagation (Γ : list Node) : Forall bterm Γ ->
  exists conflict s, propagate_assertions Γ new_CircuitPropagator = Ok (conflict, s) /\
    (conflict = true -> forall e, ~ (forall a, a ∈ Γ -> eval e a = Some (VBool true))) /\
    (forall e, (forall a, a ∈ Γ -> eval e a = Some (VBool true)) ->
      (forall n b, isAssignedTo s b n = true -> eval e n = Some (VBool b)) /\
      (forall l, l ∈ d_learnedLiterals s -> eval e l = Some (VBool true))) /\
    (conflict = false ->
      (forall a x, a ∈ Γ -> conjunct x a -> isAssignedTo s true x = true) /\
      (forall n b, is_atom n = true -> isAssignedTo s b n = true -> literal n b ∈ d_learnedLiterals s)) /\
    finish s = Ok (tt, new_CircuitPropagator).
Proof.
  intros Hb. destruct (round_ok (fun _ => True) (fun _ _ _ _ => I) Γ) as (c & s & E & V & G & -> & Hs & Hdone); [eapply Forall_impl; [exact Hb | done] |]. exists (d_conflict s), s.
  assert (Hm : forall e, (forall a, a ∈ Γ -> eval e a = Some (VBool true)) -> models Γ e) by (intros e He a Ha; by apply val_eq, He).
  assert (Ha : forall n b, isAssignedTo s b n = true -> n ∈ d_propagationQueue s /\ bterm n /\ known Γ n b).
  { intros n b H. assert (Hq : n ∈ d_propagationQueue s).
    { unfold isAssignedTo in H. destruct (node_find (d_state s) n) eqn:Ev; [| done]. by apply (values_assigned Γ s V) in Ev as [? _]. }
    split; [done |]. split; [by apply (graph_seen _ _ _ _ G), (values_queue Γ s V) |]. by apply (assignedTo_known Γ s s n b); [split |]. }
  split; [done |]. split; [intros Hc e He; by apply (values_conflict Γ s V Hc e), Hm |]. split; [| split].
  - intros e He. split; [intros n b (_ & Hn & Hk)%Ha | intros l [Hn Hk]%(values_learned Γ s V)]; rewrite (bterm_val e _ Hn); by rewrite (Hk e (Hm e He)).
  - intros Hc. destruct (Hdone Hc) as [Hl Hx]. split; [done |]. intros n b Hat Hn. destruct (Ha n b Hn) as [[j Hj]%list_elem_of_lookup_1 _].
    rewrite Hl. apply list_elem_of_In, in_flat_map. exists n. rewrite firstn_all. split; [by apply list_elem_of_In; eapply list_elem_of_lookup_2 |].
    unfold learned_at. rewrite Hat. left. f_equal. destruct b; [done |]. unfold isAssignedTo in *. destruct (node_find (d_state s) n) as [[]|]; done.
  - unfold finish. by rewrite Hs.
Qed.

(** [(a or b) and (c = not a)] and [c]: the round learns [c], [not a] and [b]. *)
Definition sample_assertions : list Node :=
  let a := Var 1 BOOLEAN_TYPE in let b := Var 2 BOOLEAN_TYPE in let c := Var 3 BOOLEAN_TYPE in
  [MkNode AND [MkNode OR [a; b]; MkNode EQUAL [c; MkNode NOT [a]]]; c].
Lemma sample_bterm : Forall bterm sample_assertions.
Proof. repeat constructor; eapply (bterm_intro sample_env); reflexivity. Qed.
Lemma circuit_propagation_witness : exists conflict s, propagate_assertions sample_assertions new_CircuitPropagator = Ok (conflict, s) /\
  conflict = false /\ d_learnedLiterals s = [Var 3 BOOLEAN_TYPE; MkNode NOT [Var 1 BOOLEAN_TYPE]; Var 2 BOOLEAN_TYPE] /\ finish s = Ok (tt, new_CircuitPropagator).
Proof.
  destruct (circuit_propagation sample_assertions sample_bterm) as (c & s & E & _ & _ & _ & Hf). exists c, s.
  split; [exact E |]. vm_compute in E. injection E as <- <-. split; [done |]. split; [done | exact Hf].
Defined.
