(* ===== verification/Substitutions.v ===== *)
(** * Substitution maps

    Models [src/theory/substitutions.{h,cpp}]: the map from terms to terms with its cache, the
    iterative substitution that follows the map to a fixed point and compresses the paths
    it follows, and the operations on maps.  [d_substitutions] is a context-dependent hash map
    that is walked in the order of insertion; a pop restores it and invalidates the cache.
    Terms of this development have no quantifiers, and their operators are constants. *)

From S2P Require Import Prelude Integer BitVector Node CircuitPropagator.
Local Open Scope nat_scope.

(** [d_substitutions[x] = t]: in place for a known key, at the end otherwise. *)
Fixpoint node_update (m : list (Node * Node)) (x t : Node) : list (Node * Node) :=
  match m with
  | [] => [(x, t)]
  | (y, u) :: m => if node_eqb y x then (y, t) :: m else (y, u) :: node_update m x t
  end.

(** What [internalSubstitute] changes: the map and the cache it was given. *)
Record SubstState : Type := MkSubstState { substs : list (Node * Node); cache : list (Node * Node) }.
Abbreviation SbM := (SM SubstState).
Definition cache_find (n : Node) : SbM (option Node) := gets (fun s => node_find (cache s) n).
Definition subst_find (n : Node) : SbM (option Node) := gets (fun s => node_find (substs s) n).
Definition set_cache (n r : Node) : SbM unit := modify (fun s => MkSubstState (substs s) ((n, r) :: cache s)).
Definition set_subst (n r : Node) : SbM unit := modify (fun s => MkSubstState (node_update (substs s) n r) (cache s)).
(** [cache[n]] where an entry is expected. *)
Definition cached (n : Node) : SbM Node :=
  r ← cache_find n; match r with Some r => mret r | None => lift (Throw OutOfBounds) end.
Fixpoint cached_children (cs : list Node) : SbM (list Node) :=
  match cs with
  | [] => mret []
  | c :: cs =>
      r ← cache_find c;
      match r with None => lift (Throw AssertionFailed) | Some r => rs ← cached_children cs; mret (r :: rs) end
  end.

(** The substitution at a key of the map, [n] with the right-hand side [rhs]. *)
Definition follow (internal : Node -> SbM Node) (n rhs : Node) : SbM Node :=
  _ ← lift (check AssertionFailed (negb (node_eqb rhs n)));
  _ ← internal rhs;
  r ← cached rhs;
  _ ← set_subst n r;
  _ ← set_cache n r;
  mret r.
(** The term with its children substituted. *)
Definition rebuild (internal : Node -> SbM Node) (current : Node) : SbM Node :=
  cs ← cached_children (children current);
  let result := match current with MkNode k _ => MkNode k cs | n => n end in
  if negb (node_eqb result current) then
    f ← cache_find result;
    match f with
    | Some r => mret r
    | None =>
        f2 ← subst_find result;
        match f2 with Some rhs => follow internal result rhs | None => mret result end
    end
  else mret result.
(** The loop, with the back of [toVisit] first; a term comes with [children_added]. *)
Fixpoint subst_loop (fuel : nat) (toVisit : list (Node * bool)) : SbM unit :=
  match toVisit with
  | [] => mret tt
  | (current, children_added) :: rest =>
      match fuel with
      | O => lift (Throw OutOfFuel)
      | S fuel' =>
          let internal (n : Node) : SbM Node :=
            m ← gets substs; match m with [] => mret n | _ => _ ← subst_loop fuel' [(n, false)]; cached n end in
          f ← cache_find current;
          match f with
          | Some _ => subst_loop fuel' rest
          | None =>
              f2 ← subst_find current;
              match f2 with
              | Some rhs => _ ← follow internal current rhs; subst_loop fuel' rest
              | None =>
                  if children_added : bool then
                    result ← rebuild internal current;
                    _ ← set_cache current result;
                    subst_loop fuel' rest
                  else if 0 <? length (children current) then
                    s ← gets id;
                    let new := List.filter (fun c => match node_find (cache s) c with Some _ => false | None => true end) (children current) in
                    subst_loop fuel' (rev (map (fun c => (c, false)) new) ++ (current, true) :: rest)
                  else
                    _ ← set_cache current current;
                    subst_loop fuel' rest
              end
          end
      end
  end.
Definition internalSubstitute (fuel : nat) (t : Node) : SbM Node :=
  m ← gets substs; match m with [] => mret t | _ => _ ← subst_loop fuel [(t, false)]; cached t end.

(** ** Maps *)
Record SubstitutionMap : Type := MkSubstMap {
  d_substitutions : list (Node * Node);
  d_substitutionCache : list (Node * Node);
  d_cacheInvalidated : bool;
  d_saved_substitutions : list (list (Node * Node))   (* the scopes of the context *)
}.
Definition new_SubstitutionMap : SubstitutionMap := MkSubstMap [] [] false [].
Abbreviation SMap := (SM SubstitutionMap).

Definition hasSubstitution (m : SubstitutionMap) (x : Node) : bool := match node_find (d_substitutions m) x with Some _ => true | None => false end.
Definition getSubstitution (m : SubstitutionMap) (x : Node) : M Node := match node_find (d_substitutions m) x with Some t => Ok t | None => Throw IllegalArgument end.
Definition empty (m : SubstitutionMap) : bool := match d_substitutions m with [] => true | _ => false end.

(** A substitution on a map with its own cache, or with the temporary one of [simplifyRHS]. *)
Definition apply (fuel : nat) (t : Node) : SMap Node := fun m =>
  let c := if d_cacheInvalidated m then [] else d_substitutionCache m in
  match internalSubstitute fuel t (MkSubstState (d_substitutions m) c) with
  | Ok (r, s) => Ok (r, MkSubstMap (substs s) (cache s) false (d_saved_substitutions m))
  | Throw e => Throw e
  end.
Definition addSubstitution (x t : Node) (invalidateCache : bool) : SMap unit := fun m =>
  match node_find (d_substitutions m) x with
  | Some _ => Throw AssertionFailed
  | None =>
      if node_eqb x t then Throw AssertionFailed
      else
        let ss := node_update (d_substitutions m) x t in
        if invalidateCache then Ok (tt, MkSubstMap ss (d_substitutionCache m) true (d_saved_substitutions m))
        else Ok (tt, MkSubstMap ss ((x, t) :: d_substitutionCache m) (d_cacheInvalidated m) (d_saved_substitutions m))
  end.
(** [addSubstitutions]: the entries of the other map, in its order. *)
Fixpoint add_entries (entries : list (Node * Node)) (invalidateCache : bool) (m : SubstitutionMap) : M SubstitutionMap :=
  match entries with
  | [] => Ok m
  | (x, t) :: entries =>
      match node_find (d_substitutions m) x with
      | Some _ => Throw AssertionFailed
      | None =>
          add_entries entries invalidateCache
            (MkSubstMap (node_update (d_substitutions m) x t)
               (if invalidateCache then d_substitutionCache m else (x, t) :: d_substitutionCache m)
               (d_cacheInvalidated m) (d_saved_substitutions m))
      end
  end.
Definition addSubstitutions (subMap : SubstitutionMap) (invalidateCache : bool) : SMap unit := fun m =>
  m ← add_entries (d_substitutions subMap) invalidateCache m;
  Ok (tt, MkSubstMap (d_substitutions m) (d_substitutionCache m) (if invalidateCache then true else d_cacheInvalidated m) (d_saved_substitutions m)).

(** [simplifyRHS(subMap)]: the keys in order; the other map changes as its [apply] does. *)
Fixpoint simplify_with (fuel : nat) (keys : list Node) (subMap : SubstitutionMap) (ss : list (Node * Node)) : M (list (Node * Node) * SubstitutionMap) :=
  match keys with
  | [] => Ok (ss, subMap)
  | x :: keys =>
      match node_find ss x with
      | None => Throw OutOfBounds
      | Some t => '(r, subMap) ← apply fuel t subMap; simplify_with fuel keys subMap (node_update ss x r)
      end
  end.
Definition simplifyRHS_map (fuel : nat) (subMap : SubstitutionMap) : SMap SubstitutionMap := fun m =>
  '(ss, subMap) ← simplify_with fuel (map fst (d_substitutions m)) subMap (d_substitutions m);
  Ok (subMap, MkSubstMap ss (d_substitutionCache m) (d_cacheInvalidated m) (d_saved_substitutions m)).
(** [simplifyRHS(x, t)]: with the temporary cache [x -> t]. *)
Fixpoint simplify_keys (fuel : nat) (keys : list Node) : SbM unit :=
  match keys with
  | [] => mret tt
  | k :: keys =>
      t ← subst_find k;
      match t with
      | None => lift (Throw OutOfBounds)
      | Some t => r ← internalSubstitute fuel t; _ ← set_subst k r; simplify_keys fuel keys
      end
  end.
Definition simplifyRHS (fuel : nat) (x t : Node) : SMap unit := fun m =>
  '(_, s) ← simplify_keys fuel (map fst (d_substitutions m)) (MkSubstState (d_substitutions m) [(x, t)]);
  Ok (tt, MkSubstMap (substs s) (d_substitutionCache m) (d_cacheInvalidated m) (d_saved_substitutions m)).

(** ** Scopes of the context *)
Definition push_scope (m : SubstitutionMap) : SubstitutionMap :=
  MkSubstMap (d_substitutions m) (d_substitutionCache m) (d_cacheInvalidated m) (d_substitutions m :: d_saved_substitutions m).
Definition pop_scope (m : SubstitutionMap) : M SubstitutionMap :=
  match d_saved_substitutions m with
  | [] => Throw AssertionFailed
  | ss :: saved => Ok (MkSubstMap ss (d_substitutionCache m) true saved)
  end.
