(* ===== verification/SubstitutionsCorrect.v ===== *)
(** * Correctness of substitution maps

    The substitution returns whenever the map is acyclic, keeps the value of the term in every
    environment that satisfies the equations of the map, leaves none of the terms the map
    replaces, and is idempotent, over any sequence of operations on the map. *)

From S2P Require Import Prelude Integer BitVector Node BVRules BVRulesCorrect Subterm CircuitPropagator CircuitCorrect Substitutions.
Local Open Scope nat_scope.

(** ** Occurrences *)
Definition occurs (y n : Node) : Prop := y = n \/ below y n.
Lemma occurs_child y c n : c ∈ children n -> occurs y c -> occurs y n.
Proof. intros Hc [->|H]; right; [by apply below_child | by apply (below_deep _ n c)]. Qed.
Lemma occurs_inv y n : occurs y n -> y = n \/ exists c, c ∈ children n /\ occurs y c.
Proof. intros [->|H]; [by left | right]. destruct H as [n H | n c Hc H]; [exists y | exists c]; (split; [done |]); [by left | by right]. Qed.
Lemma occurs_leaf y n : children n = [] -> occurs y n -> y = n.
Proof. intros E [H | (c & Hc & _)]%occurs_inv; [done |]. rewrite E in Hc. by apply not_elem_of_nil in Hc. Qed.

(** ** Maps *)
Lemma in_rev_list {A} (x : A) l : x ∈ rev l <-> x ∈ l.
Proof. by rewrite !list_elem_of_In, <- in_rev. Qed.
Lemma node_find_update m x t y : node_find (node_update m x t) y = if node_eqb x y then Some t else node_find m y.
Proof.
  induction m as [|[z u] m IH]; cbn; [done |]. destruct (node_eqb z x) eqn:Ezx; cbn.
  - apply node_eqb_eq in Ezx as ->. by destruct (node_eqb x y).
  - destruct (node_eqb z y) eqn:Ezy; [| exact IH]. apply node_eqb_eq in Ezy as <-.
    destruct (node_eqb x z) eqn:E; [apply node_eqb_eq in E as ->; by rewrite node_eqb_refl in Ezx | done].
Qed.
Lemma node_find_keys {A} (m : list (Node * A)) k : is_Some (node_find m k) <-> k ∈ map fst m.
Proof.
  induction m as [|[y u] m IH]; cbn; [split; [by intros [] | by intros ?%not_elem_of_nil] |]. rewrite elem_of_cons.
  destruct (node_eqb y k) eqn:E; [apply node_eqb_eq in E as ->; split; eauto |]. rewrite IH.
  split; [by right | intros [->|?]; [by rewrite node_eqb_refl in E | done]].
Qed.
Lemma update_keys m x t y : y ∈ map fst (node_update m x t) -> y = x \/ y ∈ map fst m.
Proof.
  induction m as [|[z u] m IH]; cbn; [by intros ->%list_elem_of_singleton; left |]. destruct (node_eqb z x); cbn; rewrite !elem_of_cons; [by right |].
  intros [->|Hy]; [by right; left |]. destruct (IH Hy) as [->|?]; [by left | by right; right].
Qed.
Lemma update_once m x t : NoDup (map fst m) -> NoDup (map fst (node_update m x t)).
Proof.
  induction m as [|[z u] m IH]; cbn; intros Hm; [apply NoDup_singleton |]. destruct (node_eqb z x) eqn:Ez; [done |]. cbn.
  apply NoDup_cons in Hm as [Hz Hm]. apply NoDup_cons. split; [| by apply IH]. intros [->|Hy]%update_keys; [by rewrite node_eqb_refl in Ez | done].
Qed.
Lemma Forall2_in_r {A B} (P : A -> B -> Prop) l k y : Forall2 P l k -> y ∈ k -> exists x, x ∈ l /\ P x y.
Proof.
  induction 1 as [|a b l k Hab _ IH]; intros Hy; [by apply not_elem_of_nil in Hy |]. apply elem_of_cons in Hy as [->|Hy].
  - exists a. split; [by left | done].
  - destruct (IH Hy) as (x & Hx & Hxy). exists x. split; [by right | done].
Qed.
Lemma eval_children e k cs rs : Forall2 (fun c r => eval e c = eval e r) cs rs -> eval e (MkNode k cs) = eval e (MkNode k rs).
Proof.
  intros H. cbn. rewrite (Forall2_length _ _ _ H). destruct (arity_ok k (length rs)); [| done]. f_equal.
  induction H as [|c r cs rs Hc _ IH]; [done |]. cbn. by rewrite Hc, IH.
Qed.

(** A relation between terms and their substituted forms that the substitution keeps. *)
Class TermRelation (Q : Node -> Node -> Prop) : Prop := {
  rel_refl n : Q n n;
  rel_trans a b c : Q a b -> Q b c -> Q a c;
  rel_node k cs rs : Forall2 Q cs rs -> Q (MkNode k cs) (MkNode k rs)
}.
#[export] Instance any_relation : TermRelation (fun _ _ => True).
Proof. by split. Qed.

Section substitution.
Context (Q : Node -> Node -> Prop) {HQ : TermRelation Q}.
(** The terms that may be keys; a rank of the variables among them that the map decreases; the
    environments in which the map holds; the keys of the map; and whether the cache is exact. *)
Context (keys : Node -> Prop) (rank : Node -> nat) (E : env -> Prop) (dom : Node -> Prop) (full : Prop).

Definition low (R : nat) (n : Node) : Prop := forall y, isVarNode y = true -> occurs y n -> keys y -> rank y < R.
Definition entry_ok (x t : Node) : Prop := (keys x /\ ((isConst t = true /\ ~ keys t) \/ (isVarNode x = true /\ low (rank x) t))) /\ Q x t.
Definition same (n r : Node) : Prop := forall e, E e -> eval e n = eval e r.
Definition normal (n : Node) : Prop := forall y, occurs y n -> ~ dom y.
Record cache_entry (n r : Node) : Prop := {
  entry_same : same n r;
  entry_rel : Q n r;
  entry_low R : low R n -> low R r;
  entry_const : isConst n = true -> ~ keys n -> r = n;
  entry_normal : full -> normal r /\ (normal n -> r = n)
}.
Record state_ok (s : SubstState) : Prop := {
  state_dom x : is_Some (node_find (substs s) x) <-> dom x;
  state_entry x t : node_find (substs s) x = Some t -> entry_ok x t /\ same x t;
  state_cache n r : node_find (cache s) n = Some r -> cache_entry n r;
  state_once : NoDup (map fst (substs s))
}.
(** What is cached remains cached. *)
Definition grows (s s' : SubstState) : Prop := forall n, is_Some (node_find (cache s) n) -> is_Some (node_find (cache s') n).
#[local] Instance grows_preorder : PreOrder grows.
Proof. split; [by intros s n |]. intros s1 s2 s3 H1 H2 n H. by apply H2, H1. Qed.

Lemma low_child R n c : c ∈ children n -> low R n -> low R c.
Proof. intros Hc H y Hy Ho. apply H; [done | by eapply occurs_child]. Qed.
Lemma low_exists n : exists R, low R n.
Proof.
  induction n as [x t|b|v|k ch IH] using node_ind'.
  - exists (S (rank (Var x t))). intros y _ ->%occurs_leaf _; [lia | done].
  - exists 0. intros y Hy ->%occurs_leaf _; done.
  - exists 0. intros y Hy ->%occurs_leaf _; done.
  - assert (exists R, forall c, c ∈ ch -> low R c) as [R HR].
    { induction IH as [|c ch [Rc Hc] _ [R HR]]; [exists 0; intros c Hc; by apply not_elem_of_nil in Hc |].
      exists (Rc `max` R). intros d [->|Hd]%elem_of_cons y Hy Ho Hk; [specialize (Hc y Hy Ho Hk) | specialize (HR d Hd y Hy Ho Hk)]; lia. }
    exists R. intros y Hy [->|(c & Hc & Ho)]%occurs_inv; [done |]. by apply (HR c).
Qed.
Lemma const_leaf t : isConst t = true -> children t = [] /\ isVarNode t = false.
Proof. by destruct t. Qed.
Lemma low_const R t : isConst t = true -> low R t.
Proof. intros [Hc Hv]%const_leaf y Hy ->%occurs_leaf; [congruence | done]. Qed.
Lemma equal_refl n : same n n.
Proof. by intros e _. Qed.
Lemma equal_trans a b c : same a b -> same b c -> same a c.
Proof. intros H1 H2 e He. by rewrite (H1 e He), (H2 e He). Qed.

(** A leaf that is not a key stands for itself. *)
Lemma leaf_entry n : children n = [] -> ~ dom n -> cache_entry n n.
Proof.
  intros Hc Hd. split; [apply equal_refl | apply rel_refl | done | done |]. intros _. split; [| done]. by intros y ->%occurs_leaf.
Qed.
(** The entry of a key with its right-hand side substituted. *)
Lemma entry_step n t r : entry_ok n t -> cache_entry t r -> entry_ok n r.
Proof.
  intros [[Hk He] Hq] [_ C0 C2 C3 _]. split; [split; [done |] | by eapply rel_trans]. destruct He as [[Hc Hnk] | [Hvar Hl]]; [left; by rewrite (C3 Hc Hnk) | right; split; [done | by apply C2]].
Qed.
Lemma set_cache_ok s n r : state_ok s -> cache_entry n r -> state_ok (MkSubstState (substs s) ((n, r) :: cache s)).
Proof.
  intros [S1 S2 S3 S4] H. split; [done | done | | done]. intros m q. cbn. destruct (node_eqb n m) eqn:En; [| apply S3].
  apply node_eqb_eq in En as <-. by intros [= <-].
Qed.
Lemma set_cache_grows s n r : grows s (MkSubstState (substs s) ((n, r) :: cache s)).
Proof. intros m Hm. cbn. by destruct (node_eqb n m). Qed.
Lemma set_subst_ok s n r : state_ok s -> dom n -> entry_ok n r -> same n r -> state_ok (MkSubstState (node_update (substs s) n r) (cache s)).
Proof.
  intros [S1 S2 S3 S4] Hd He Hs. split; [| | done | by apply update_once]; cbn.
  - intros x. rewrite node_find_update. destruct (node_eqb n x) eqn:En; [| apply S1]. apply node_eqb_eq in En as <-. by split; eauto.
  - intros x t. rewrite node_find_update. destruct (node_eqb n x) eqn:En; [| apply S2]. apply node_eqb_eq in En as <-. by intros [= <-].
Qed.

(** ** Steps of the loop *)
Lemma step_cached f n b rest s r : node_find (cache s) n = Some r -> subst_loop (S f) ((n, b) :: rest) s = subst_loop f rest s.
Proof. intros H. cbn [subst_loop]. unfold cache_find, gets, mbind, SM_bind. by rewrite H. Qed.
Lemma step_key f n b rest s rhs r s' : node_find (cache s) n = None -> node_find (substs s) n = Some rhs ->
  follow (internalSubstitute f) n rhs s = Ok (r, s') -> subst_loop (S f) ((n, b) :: rest) s = subst_loop f rest s'.
Proof.
  intros H1 H2 H3. cbn [subst_loop]. unfold cache_find, subst_find, gets. unfold mbind at 1, SM_bind at 1. rewrite H1. unfold mbind at 1, SM_bind at 1. rewrite H2.
  unfold mbind at 1, SM_bind at 1. change (fun _ => _) with (internalSubstitute f) at 1. by rewrite H3.
Qed.
Lemma step_leaf f n rest s : node_find (cache s) n = None -> node_find (substs s) n = None -> children n = [] ->
  subst_loop (S f) ((n, false) :: rest) s = subst_loop f rest (MkSubstState (substs s) ((n, n) :: cache s)).
Proof. intros H1 H2 H3. cbn [subst_loop]. unfold cache_find, subst_find, gets, mbind, SM_bind. by rewrite H1, H2, H3. Qed.
Definition uncached (s : SubstState) (c : Node) : bool := match node_find (cache s) c with Some _ => false | None => true end.
Lemma step_children f n rest s : node_find (cache s) n = None -> node_find (substs s) n = None -> children n <> [] ->
  subst_loop (S f) ((n, false) :: rest) s = subst_loop f (rev (map (fun c => (c, false)) (List.filter (uncached s) (children n))) ++ (n, true) :: rest) s.
Proof.
  intros H1 H2 H3. cbn [subst_loop]. unfold cache_find, subst_find, gets, mbind, SM_bind. rewrite H1, H2.
  destruct (children n) as [|c cs] eqn:Ec; [done |]. done.
Qed.
Lemma step_rebuild f n rest s r s' : node_find (cache s) n = None -> node_find (substs s) n = None ->
  rebuild (internalSubstitute f) n s = Ok (r, s') ->
  subst_loop (S f) ((n, true) :: rest) s = subst_loop f rest (MkSubstState (substs s') ((n, r) :: cache s')).
Proof.
  intros H1 H2 H3. cbn [subst_loop]. unfold cache_find, subst_find, gets. unfold mbind at 1, SM_bind at 1. rewrite H1. unfold mbind at 1, SM_bind at 1. rewrite H2.
  unfold mbind at 1, SM_bind at 1. change (fun _ => _) with (internalSubstitute f) at 1. by rewrite H3.
Qed.

(** ** Visits *)
(** With enough fuel the loop works off the entries [l] of the stack, and goes on in the state [s']. *)
Definition works (l : list (Node * bool)) (s s' : SubstState) : Prop :=
  exists k N, forall fuel rest, N <= fuel -> subst_loop (k + fuel) (l ++ rest) s = subst_loop fuel rest s'.
Lemma works_nil s : works [] s s.
Proof. by exists 0, 0. Qed.
Lemma works_app l1 l2 s1 s2 s3 : works l1 s1 s2 -> works l2 s2 s3 -> works (l1 ++ l2) s1 s3.
Proof.
  intros (k1 & N1 & H1) (k2 & N2 & H2). exists (k1 + k2), (N1 `max` N2). intros fuel rest Hf.
  rewrite <- app_assoc, <- Nat.add_assoc, H1 by lia. apply H2. lia.
Qed.
Lemma works_step l1 x l2 s1 s2 s3 N : (forall fuel rest, N <= fuel -> subst_loop (S fuel) (x :: rest) s1 = subst_loop fuel (l1 ++ rest) s2) -> works l1 s2 s3 ->
  l2 = [x] -> works l2 s1 s3.
Proof.
  intros H1 (k & N' & H2) ->. exists (S k), (N `max` N'). intros fuel rest Hf. cbn [app Nat.add]. rewrite H1 by lia. apply H2. lia.
Qed.
(** The end of a visit of the term [n]. *)
Definition visits (n : Node) (s s' : SubstState) : Prop :=
  works [(n, false)] s s' /\ state_ok s' /\ grows s s' /\ is_Some (node_find (cache s') n).

(** The nested substitution. *)
Lemma internal_visits n s s' r : visits n s s' -> substs s <> [] -> node_find (cache s') n = Some r ->
  exists N, forall fuel, N <= fuel -> internalSubstitute fuel n s = Ok (r, s').
Proof.
  intros [(k & N & H) _] Hs Hr. exists (k + N). intros fuel Hf. specialize (H (fuel - k) [] ltac:(lia)).
  replace (k + (fuel - k)) with fuel in H by lia. rewrite app_nil_r in H. unfold internalSubstitute, gets, mbind, SM_bind.
  destruct (substs s); [done |]. rewrite H. replace (subst_loop (fuel - k) [] s') with (Ok (tt, s') : M (unit * SubstState)) by by destruct (fuel - k).
  unfold cached, cache_find, gets, mbind, SM_bind. by rewrite Hr.
Qed.
Lemma const_visits t s : state_ok s -> isConst t = true -> ~ keys t -> exists s', visits t s s'.
Proof.
  intros Hs Hc Hk. destruct (const_leaf t Hc) as [Hl _]. destruct (node_find (cache s) t) as [r|] eqn:Ec.
  - exists s. split; [| split; [done | split; [done | by eauto]]]. apply (works_step [] (t, false) _ s s s 0); [| apply works_nil | done].
    intros fuel rest _. by apply (step_cached fuel t false rest s r).
  - assert (Ed : node_find (substs s) t = None).
    { destruct (node_find (substs s) t) as [u|] eqn:Eu; [| done]. by destruct (state_entry s Hs _ _ Eu) as [[[? _] _] _]. }
    exists (MkSubstState (substs s) ((t, t) :: cache s)). split; [| split; [| split; [apply set_cache_grows | cbn; rewrite node_eqb_refl; by eauto]]].
    + eapply (works_step [] (t, false) _ s _ _ 0); [| apply works_nil | done]. intros fuel rest _. by apply step_leaf.
    + apply set_cache_ok; [done |]. apply leaf_entry; [done |]. rewrite <- (state_dom s Hs), Ed. by intros [].
Qed.

(** Following a key whose right-hand side can be visited. *)
Lemma follow_ok n rhs s s1 : state_ok s -> node_find (substs s) n = Some rhs -> visits rhs s s1 ->
  exists N r s', (forall fuel, N <= fuel -> follow (internalSubstitute fuel) n rhs s = Ok (r, s')) /\
    state_ok s' /\ grows s s' /\ node_find (cache s') n = Some r /\ cache_entry n r.
Proof.
  intros Hs Hn Hv. pose proof Hv as (_ & Hs1 & Hg & [r Hr]). destruct (state_entry s Hs _ _ Hn) as [[[Hk He] Hq] Hsame].
  pose proof (state_cache s1 Hs1 _ _ Hr) as [C1 C0 C2 C3 C4].
  assert (Hdom : dom n) by (apply (state_dom s Hs); by eauto).
  assert (Hnr : entry_ok n r) by (eapply entry_step; [by split | by split]).
  assert (Hce : cache_entry n r).
  { split; [by eapply equal_trans | by eapply rel_trans | | |].
    - intros R HR. destruct He as [[Hc Hnk] | [Hvar Hl]]; [rewrite (C3 Hc Hnk); by apply low_const |].
      intros y Hy Ho Hky. pose proof (C2 _ Hl y Hy Ho Hky). pose proof (HR n Hvar (or_introl eq_refl) Hk). lia.
    - done.
    - intros Hf. split; [by apply C4 |]. intros Hnorm. by destruct (Hnorm n (or_introl eq_refl)). }
  destruct (internal_visits rhs s s1 r Hv) as [N HN]; [by intros Ee; rewrite Ee in Hn | done |].
  exists N, r, (MkSubstState (node_update (substs s1) n r) ((n, r) :: cache s1)). split; [| split; [| split; [| split; [cbn; by rewrite node_eqb_refl | done]]]].
  - intros fuel Hf. unfold follow. rewrite node_eqb_neq.
    + unfold mbind, SM_bind. cbn [negb check lift]. rewrite HN by done. unfold cached, cache_find, gets, mbind, SM_bind. by rewrite Hr.
    + intros ->. destruct He as [[_ ?] | [Hvar Hl]]; [done |]. pose proof (Hl n Hvar (or_introl eq_refl) Hk). lia.
  - apply (set_cache_ok (MkSubstState (node_update (substs s1) n r) (cache s1))); [| done]. apply set_subst_ok; [done | done | done |]. by eapply equal_trans.
  - etrans; [exact Hg |]. intros m Hm. cbn. by destruct (node_eqb n m).
Qed.

Lemma cached_children_ok cs s : (forall c, c ∈ cs -> is_Some (node_find (cache s) c)) ->
  exists rs, cached_children cs s = Ok (rs, s) /\ Forall2 (fun c r => node_find (cache s) c = Some r) cs rs.
Proof.
  induction cs as [|c cs IH]; intros H; [by exists [] |]. destruct (H c) as [r Hr]; [by left |].
  destruct IH as (rs & Ers & Hrs); [intros d Hd; apply H; by right |]. exists (r :: rs). split; [| by constructor].
  cbn [cached_children]. unfold cache_find, gets, mbind, SM_bind. by rewrite Hr, Ers.
Qed.
(** The term with its children substituted: its value, and what occurs in it. *)
Section built.
Context (k : Kind) (cs rs : list Node) (Hrs : Forall2 cache_entry cs rs).
Lemma built_same : same (MkNode k cs) (MkNode k rs).
Proof. intros e He. apply eval_children. eapply Forall2_impl; [exact Hrs |]. intros c r Hc. by apply Hc. Qed.
Lemma built_rel : Q (MkNode k cs) (MkNode k rs).
Proof. apply rel_node. eapply Forall2_impl; [exact Hrs |]. intros c r Hc. by apply Hc. Qed.
Lemma built_low R : low R (MkNode k cs) -> low R (MkNode k rs).
Proof.
  intros HR y Hy [->|(r & Hr & Ho)]%occurs_inv; [done |]. destruct (Forall2_in_r _ _ _ _ Hrs Hr) as (c & Hc & Hcr).
  by apply (entry_low _ _ Hcr R); [apply (low_child R (MkNode k cs)) | |].
Qed.
Lemma built_normal : full -> ~ dom (MkNode k rs) -> normal (MkNode k rs).
Proof.
  intros Hf Hd y [->|(r & Hr & Ho)]%occurs_inv; [done |]. destruct (Forall2_in_r _ _ _ _ Hrs Hr) as (c & Hc & Hcr).
  by apply (proj1 (entry_normal _ _ Hcr Hf)).
Qed.
Lemma built_id : full -> normal (MkNode k cs) -> rs = cs.
Proof.
  intros Hf Hn. assert (Hc : forall c, c ∈ cs -> normal c) by (intros c Hc y Ho; apply Hn; by apply (occurs_child y c)).
  clear Hn. revert Hc. induction Hrs as [|c r cs' rs' Hcr Ht IH]; intros Hc; [done |]. f_equal.
  - apply (entry_normal _ _ Hcr Hf), Hc. by left.
  - apply IH; [done |]. intros d Hd. apply Hc. by right.
Qed.
(** An entry for the rebuilt term is one for the term. *)
Lemma built_entry r : rs <> cs -> cache_entry (MkNode k rs) r -> cache_entry (MkNode k cs) r.
Proof.
  intros Hne [C1 C0 C2 C3 C4]. split; [eapply equal_trans; [apply built_same | done] | eapply rel_trans; [apply built_rel | done] | | done |].
  - intros R HR. by apply C2, built_low.
  - intros Hf. split; [by apply C4 |]. intros Hn. destruct Hne. by apply built_id.
Qed.
Lemma built_self : ~ dom (MkNode k rs) -> cache_entry (MkNode k cs) (MkNode k rs).
Proof.
  intros Hd. split; [apply built_same | apply built_rel | apply built_low | done |]. intros Hf. split; [by apply built_normal |]. intros Hn. by rewrite (built_id Hf Hn).
Qed.
End built.

Lemma rebuild_ok k ch s : state_ok s -> ~ dom (MkNode k ch) -> (forall c, c ∈ ch -> is_Some (node_find (cache s) c)) ->
  exists N r s', (forall fuel, N <= fuel -> rebuild (internalSubstitute fuel) (MkNode k ch) s = Ok (r, s')) /\ state_ok s' /\ grows s s' /\ cache_entry (MkNode k ch) r.
Proof.
  intros Hs Hd Hch. destruct (cached_children_ok ch s Hch) as (rs & Ers & Hrs).
  assert (Hent : Forall2 cache_entry ch rs) by (eapply Forall2_impl; [exact Hrs |]; intros c r; by apply state_cache).
  assert (Eb : forall internal, rebuild internal (MkNode k ch) s = (if negb (node_eqb (MkNode k rs) (MkNode k ch)) then
      match node_find (cache s) (MkNode k rs) with Some r => Ok (r, s) | None =>
        match node_find (substs s) (MkNode k rs) with Some rhs => follow internal (MkNode k rs) rhs s | None => Ok (MkNode k rs, s) end end
    else Ok (MkNode k rs, s))).
  { intros internal. unfold rebuild. cbn [children]. unfold mbind at 1, SM_bind at 1. rewrite Ers. destruct (negb _); [| done].
    unfold cache_find, subst_find, gets, mbind, SM_bind. destruct (node_find (cache s) (MkNode k rs)); [done |]. by destruct (node_find (substs s) (MkNode k rs)). }
  destruct (node_eqb (MkNode k rs) (MkNode k ch)) eqn:En; cbn [negb] in Eb.
  { apply node_eqb_eq in En. exists 0, (MkNode k rs), s. split; [intros fuel _; by rewrite Eb |]. split; [done |]. split; [done |].
    apply built_self; [done | by rewrite En]. }
  assert (Hne : rs <> ch) by (intros ->; by rewrite node_eqb_refl in En).
  destruct (node_find (cache s) (MkNode k rs)) as [r|] eqn:Ec.
  { exists 0, r, s. split; [intros fuel _; by rewrite Eb |]. split; [done |]. split; [done |]. apply (built_entry k ch rs); [done | done |]. by apply (state_cache s Hs). }
  destruct (node_find (substs s) (MkNode k rs)) as [rhs|] eqn:Er.
  - destruct (state_entry s Hs _ _ Er) as [[[Hk [[Hc Hnk] | [Hvar _]]] _] _]; [| done].
    destruct (const_visits rhs s Hs Hc Hnk) as [s1 Hv]. destruct (follow_ok (MkNode k rs) rhs s s1 Hs Er Hv) as (N & r & s' & Hf & Hs' & Hg & _ & Hr).
    exists N, r, s'. split; [intros fuel Hfuel; rewrite Eb; by apply Hf |]. split; [done |]. split; [done |]. by apply (built_entry k ch rs).
  - exists 0, (MkNode k rs), s. split; [intros fuel _; by rewrite Eb |]. split; [done |]. split; [done |]. apply built_self; [done |].
    rewrite <- (state_dom s Hs), Er. by intros [].
Qed.

(** A list of terms on the stack. *)
Lemma visit_list ns : Forall (fun n => forall s, state_ok s -> exists s', visits n s s') ns -> forall s, state_ok s ->
  exists s', works (map (fun c => (c, false)) ns) s s' /\ state_ok s' /\ grows s s' /\ forall n, n ∈ ns -> is_Some (node_find (cache s') n).
Proof.
  induction 1 as [|n ns Hn _ IH]; intros s Hs.
  - exists s. split; [apply works_nil |]. split; [done |]. split; [done |]. intros n Hn. by apply not_elem_of_nil in Hn.
  - destruct (Hn s Hs) as (s1 & W1 & S1 & G1 & C1). destruct (IH s1 S1) as (s2 & W2 & S2 & G2 & C2). exists s2.
    split; [exact (works_app [(n, false)] _ s s1 s2 W1 W2) |]. split; [done |]. split; [by etrans |].
    intros m [->|Hm]%elem_of_cons; [by apply G2 | by apply C2].
Qed.

Lemma visit_cached n s r : state_ok s -> node_find (cache s) n = Some r -> visits n s s.
Proof.
  intros Hs Hc. split; [| split; [done | split; [done | by eauto]]]. apply (works_step [] (n, false) _ s s s 0); [| apply works_nil | done].
  intros fuel rest _. by apply (step_cached fuel n false rest s r).
Qed.
Lemma visit_leaf n s : state_ok s -> children n = [] -> node_find (cache s) n = None -> node_find (substs s) n = None -> exists s', visits n s s'.
Proof.
  intros Hs Hl Ec Ed. exists (MkSubstState (substs s) ((n, n) :: cache s)). split; [| split; [| split; [apply set_cache_grows | cbn; rewrite node_eqb_refl; by eauto]]].
  - eapply (works_step [] (n, false) _ s _ _ 0); [| apply works_nil | done]. intros fuel rest _. by apply step_leaf.
  - apply set_cache_ok; [done |]. apply leaf_entry; [done |]. rewrite <- (state_dom s Hs), Ed. by intros [].
Qed.
Lemma visit_key n rhs s s1 : state_ok s -> node_find (cache s) n = None -> node_find (substs s) n = Some rhs -> visits rhs s s1 -> exists s', visits n s s'.
Proof.
  intros Hs Ec Er Hv. destruct (follow_ok n rhs s s1 Hs Er Hv) as (N & r & s' & Hf & Hs' & Hg & Hr & _). exists s'.
  split; [| split; [done | split; [done | by eauto]]]. apply (works_step [] (n, false) _ s s' s' N); [| apply works_nil | done].
  intros fuel rest Hfuel. apply (step_key fuel n false rest s rhs r s'); [done | done | by apply Hf].
Qed.
(** The second visit of a term, after its children. *)
Lemma works_rebuild k ch s : state_ok s -> ~ dom (MkNode k ch) -> (forall c, c ∈ ch -> is_Some (node_find (cache s) c)) ->
  exists s', works [(MkNode k ch, true)] s s' /\ state_ok s' /\ grows s s' /\ is_Some (node_find (cache s') (MkNode k ch)).
Proof.
  intros Hs Hd Hch. destruct (node_find (cache s) (MkNode k ch)) as [r|] eqn:Ec.
  - exists s. split; [| split; [done | split; [done | by eauto]]]. apply (works_step [] (MkNode k ch, true) _ s s s 0); [| apply works_nil | done].
    intros fuel rest _. by apply (step_cached fuel _ true rest s r).
  - assert (Ed : node_find (substs s) (MkNode k ch) = None).
    { destruct (node_find (substs s) (MkNode k ch)) as [u|] eqn:Eu; [| done]. destruct Hd. apply (state_dom s Hs). by eauto. }
    destruct (rebuild_ok k ch s Hs Hd Hch) as (N & r & s' & Hr & Hs' & Hg & He). eexists. split; [| split; [by apply set_cache_ok | split]].
    + eapply (works_step [] (MkNode k ch, true) _ s _ _ N); [| apply works_nil | done]. intros fuel rest Hf. apply step_rebuild; [done | done | by apply Hr].
    + etrans; [exact Hg | apply set_cache_grows].
    + cbn [cache]. rewrite node_find_cons, node_eqb_refl. by eauto.
Qed.
Lemma visit_node k ch s : state_ok s -> ch <> [] -> node_find (cache s) (MkNode k ch) = None -> node_find (substs s) (MkNode k ch) = None ->
  Forall (fun n => forall s, state_ok s -> exists s', visits n s s') ch -> exists s', visits (MkNode k ch) s s'.
Proof.
  intros Hs Hne Ec Ed Hch. set (ns := rev (List.filter (uncached s) ch)).
  destruct (visit_list ns) with (s := s) as (s1 & W1 & S1 & G1 & C1); [| done |].
  { subst ns. rewrite Forall_forall in *. intros c Hc. apply Hch. apply (proj1 (in_rev_list _ _)), list_elem_of_In, filter_In in Hc as [Hc _]. by apply list_elem_of_In. }
  assert (Hd : ~ dom (MkNode k ch)) by (rewrite <- (state_dom s Hs), Ed; by intros []).
  destruct (works_rebuild k ch s1 S1 Hd) as (s2 & W2 & S2 & G2 & C2).
  { intros c Hc. destruct (node_find (cache s) c) as [r|] eqn:Er; [apply G1; by eauto |]. apply C1. subst ns. apply in_rev_list, list_elem_of_In, filter_In.
    split; [by apply list_elem_of_In | unfold uncached; by rewrite Er]. }
  exists s2. split; [| split; [done | split; [by etrans | done]]].
  apply (works_step (map (fun c => (c, false)) ns ++ [(MkNode k ch, true)]) (MkNode k ch, false) _ s s s2 0); [| by eapply works_app | done].
  intros fuel rest _. rewrite step_children by done. subst ns. by rewrite <- app_assoc, map_rev.
Qed.
Lemma visit_ok R : forall n, low R n -> forall s, state_ok s -> exists s', visits n s s'.
Proof.
  induction R as [R IHR] using lt_wf_ind.
  assert (Hkey : forall n s rhs, low R n -> state_ok s -> node_find (cache s) n = None -> node_find (substs s) n = Some rhs -> exists s', visits n s s').
  { intros n s rhs Hl Hs Ec Er. destruct (state_entry s Hs _ _ Er) as [[[Hk He] _] _].
    assert (exists s1, visits rhs s s1) as [s1 Hv]; [| by eapply visit_key].
    destruct He as [[Hc Hnk] | [Hvar Hlow]]; [by apply const_visits |]. apply (IHR (rank n)); [| done | done]. by apply Hl; [| left |]. }
  induction n as [x t|b|v|k ch IH] using node_ind'; intros Hl s Hs;
    (match goal with |- exists _, visits ?n _ _ => destruct (node_find (cache s) n) as [r|] eqn:Ec; [exists s; by eapply visit_cached |];
       destruct (node_find (substs s) n) as [rhs|] eqn:Er; [by eapply Hkey |] end); [by apply visit_leaf .. |].
  destruct ch as [|c ch]; [by apply visit_leaf |]. apply visit_node; [done | done | done | done |].
  rewrite Forall_forall in *. intros d Hd. apply IH; [done |]. by apply (low_child R (MkNode k (c :: ch))).
Qed.

(** ** The substitution *)
Theorem internalSubstitute_ok t s : state_ok s -> exists N r s', (forall fuel, N <= fuel -> internalSubstitute fuel t s = Ok (r, s')) /\ state_ok s' /\ cache_entry t r.
Proof.
  intros Hs. destruct (substs s) as [|p ss] eqn:Ess.
  - exists 0, t, s. split; [intros fuel _; unfold internalSubstitute, gets, mbind, SM_bind; by rewrite Ess |]. split; [done |].
    split; [apply equal_refl | apply rel_refl | done | done |]. intros _. split; [| done]. intros y _ Hy. apply (state_dom s Hs) in Hy. rewrite Ess in Hy. by destruct Hy.
  - destruct (low_exists t) as [R HR]. destruct (visit_ok R t HR s Hs) as [s' Hv]. pose proof Hv as (_ & Hs' & _ & [r Hr]).
    destruct (internal_visits t s s' r Hv) as [N HN]; [by rewrite Ess | done |]. exists N, r, s'. split; [done |]. split; [done |]. by apply (state_cache s' Hs').
Qed.
End substitution.

(** ** Maps *)
(** The abstract state of a map: the equations it was given, its keys, whether its cache is
    exact, and the saved equations and keys of the scopes. *)
Definition sat (eqs : list (Node * Node)) (e : env) : Prop := forall x t, (x, t) ∈ eqs -> eval e x = eval e t.
Record Abstract : Type := MkAbstract { a_eqs : list (Node * Node); a_dom : list Node; a_exact : bool; a_saved : list (list (Node * Node) * list Node) }.

Section maps.
Context (Q : Node -> Node -> Prop) {HQ : TermRelation Q}.
Context (keys : Node -> Prop) (rank : Node -> nat).
Abbreviation sok eqs dom exact := (state_ok Q keys rank (sat eqs) (fun x => x ∈ (dom : list Node)) (exact = true)).
Definition valid_cache (m : SubstitutionMap) : list (Node * Node) := if d_cacheInvalidated m then [] else d_substitutionCache m.
Record map_ok (a : Abstract) (m : SubstitutionMap) : Prop := {
  map_state : sok (a_eqs a) (a_dom a) (a_exact a) (MkSubstState (d_substitutions m) (valid_cache m));
  map_saved : Forall2 (fun p ss => sok (fst p) (snd p) true (MkSubstState ss [])) (a_saved a) (d_saved_substitutions m)
}.
(** An answer [r] for the term [t]. *)
Definition answer (a : Abstract) (t r : Node) : Prop :=
  (forall e, sat (a_eqs a) e -> eval e t = eval e r) /\ Q t r /\
  (a_exact a = true -> (forall x, occurs x r -> x ∉ a_dom a) /\ ((forall x, occurs x t -> x ∉ a_dom a) -> r = t)).

Lemma sat_app l1 l2 e : sat (l1 ++ l2) e <-> sat l1 e /\ sat l2 e.
Proof.
  split; [intros H; split; intros x t Hx; apply H, elem_of_app; [by left | by right] |].
  intros [H1 H2] x t [Hx|Hx]%elem_of_app; [by apply H1 | by apply H2].
Qed.
Lemma sat_cons x t l e : sat ((x, t) :: l) e -> eval e x = eval e t /\ sat l e.
Proof. intros H. split; [apply H; by left | intros y u Hy; apply H; by right]. Qed.
(** Fewer environments; an inexact cache. *)
Lemma cache_entry_weaken (E E' : env -> Prop) dom dom' full full' n r : (forall e, E' e -> E e) -> (full' -> full /\ forall x, dom' x <-> dom x) ->
  cache_entry Q keys rank E dom full n r -> cache_entry Q keys rank E' dom' full' n r.
Proof.
  intros HE Hf [C1 C0 C2 C3 C4]. split; [intros e He; by apply C1, HE | done | done | done |]. intros [Hfull Hd]%Hf. destruct (C4 Hfull) as [H1 H2].
  split; [intros y Hy; rewrite Hd; by apply H1 |]. intros Hn. apply H2. intros y Hy. rewrite <- Hd. by apply Hn.
Qed.
Lemma sok_no_cache eqs dom exact exact' ss c : sok eqs dom exact (MkSubstState ss c) -> sok eqs dom exact' (MkSubstState ss []).
Proof. by intros [S1 S2 _ S4]; split. Qed.
Lemma sok_more eqs eqs' dom exact s : (forall e, sat eqs' e -> sat eqs e) -> sok eqs dom exact s -> sok eqs' dom exact s.
Proof.
  intros HE [S1 S2 S3 S4]. split; [done | intros x t [H1 H2]%S2; split; [done | intros e He; by apply H2, HE] | | done].
  intros n r H%S3. by eapply cache_entry_weaken; [| | exact H].
Qed.
(** A key with its term added to the map. *)
Lemma entry_fresh eqs x t : entry_ok Q keys rank x t -> cache_entry Q keys rank (sat ((x, t) :: eqs)) (fun y => y ∈ ([] : list Node)) False x t.
Proof.
  intros [[Hk He] Hq]. split; [intros e [H _]%sat_cons; exact H | done | | by intros _ [] | done].
  intros R HR. destruct He as [[Hc _]|[Hv Hl]]; [by apply low_const |]. intros y Hy Ho Hky. pose proof (Hl y Hy Ho Hky). pose proof (HR x Hv (or_introl eq_refl) Hk). lia.
Qed.
Lemma sok_add eqs dom exact ss c x t : sok eqs dom exact (MkSubstState ss c) -> entry_ok Q keys rank x t ->
  sok ((x, t) :: eqs) (x :: dom) false (MkSubstState (node_update ss x t) c) /\
  sok ((x, t) :: eqs) (x :: dom) false (MkSubstState (node_update ss x t) ((x, t) :: c)).
Proof.
  intros [S1 S2 S3 S4] He. cbn in *. assert (Hadd : sok ((x, t) :: eqs) (x :: dom) false (MkSubstState (node_update ss x t) c)).
  { split; cbn; [| | | by apply update_once].
    - intros y. rewrite node_find_update, elem_of_cons. destruct (node_eqb x y) eqn:Exy; [apply node_eqb_eq in Exy as ->; split; eauto |].
      rewrite S1. split; [by right | intros [->|?]; [by rewrite node_eqb_refl in Exy | done]].
    - intros y u. rewrite node_find_update. destruct (node_eqb x y) eqn:Exy.
      + apply node_eqb_eq in Exy as <-. intros [= <-]. split; [exact He | intros e [H _]%sat_cons; exact H].
      + intros [H1 H2]%S2. split; [done |]. intros e [_ He']%sat_cons. by apply H2.
    - intros n r H%S3. eapply cache_entry_weaken; [| | exact H]; [intros e [_ He']%sat_cons; exact He' | done]. }
  split; [done |]. apply (set_cache_ok _ _ _ _ _ _ (MkSubstState (node_update ss x t) c)); [done |].
  eapply cache_entry_weaken; [| | by apply entry_fresh]; done.
Qed.

(** *** The operations *)
Lemma apply_ok a m t : map_ok a m -> exists N r m', (forall fuel, N <= fuel -> apply fuel t m = Ok (r, m')) /\ map_ok a m' /\ answer a t r /\
  forall x, entry_ok Q keys rank x t -> entry_ok Q keys rank x r.
Proof.
  intros [Hs Hsv]. destruct (internalSubstitute_ok _ _ _ _ _ _ t _ Hs) as (N & r & s' & Hr & Hs' & Hc).
  exists N, r, (MkSubstMap (substs s') (cache s') false (d_saved_substitutions m)). split; [| split; [split; [by destruct s' | done] | split]].
  - intros fuel Hf. unfold apply. fold (valid_cache m). by rewrite Hr.
  - destruct Hc as [C1 C0 _ _ C4]. by split.
  - intros x Hx. by eapply entry_step.
Qed.
Definition a_add (x t : Node) (invalidate : bool) (a : Abstract) : Abstract := MkAbstract ((x, t) :: a_eqs a) (x :: a_dom a) invalidate (a_saved a).
Lemma addSubstitution_ok a m x t inv : map_ok a m -> x ∉ a_dom a -> entry_ok Q keys rank x t ->
  exists m', addSubstitution x t inv m = Ok (tt, m') /\ map_ok (a_add x t inv a) m'.
Proof.
  intros [Hs Hsv] Hx He. destruct (sok_add _ _ _ _ _ x t Hs He) as [H1 H2]. unfold addSubstitution.
  destruct (node_find (d_substitutions m) x) as [u|] eqn:Eu; [destruct Hx; apply (state_dom _ _ _ _ _ _ _ Hs); by eauto |].
  rewrite node_eqb_neq.
  - destruct inv; (eexists; split; [reflexivity |]); (split; [| done]); cbn; unfold valid_cache in *; cbn; [by eapply sok_no_cache |].
    destruct (d_cacheInvalidated m); [by eapply sok_no_cache | done].
  - intros ->. destruct He as [[Hk [[_ ?] | [Hv Hl]]] _]; [done |]. specialize (Hl t Hv (or_introl eq_refl) Hk). lia.
Qed.
Definition a_push (a : Abstract) : Abstract := MkAbstract (a_eqs a) (a_dom a) (a_exact a) ((a_eqs a, a_dom a) :: a_saved a).
Lemma push_scope_ok a m : map_ok a m -> map_ok (a_push a) (push_scope m).
Proof. intros [Hs Hsv]. split; [done |]. constructor; [by eapply sok_no_cache | done]. Qed.
Definition a_pop (a : Abstract) : Abstract :=
  match a_saved a with [] => a | (eqs, dom) :: saved => MkAbstract eqs dom true saved end.
Lemma pop_scope_ok a m : map_ok a m -> a_saved a <> [] -> exists m', pop_scope m = Ok m' /\ map_ok (a_pop a) m'.
Proof.
  intros [Hs Hsv] Hne. unfold a_pop, pop_scope. destruct Hsv as [|[eqs dom] ss sv' svm Hp Hrest]; [done |].
  eexists. split; [reflexivity |]. by split.
Qed.

(** The maps of two states. *)
Lemma sok_combine eqs dom ex1 ex2 ss1 c1 ss2 c2 : sok eqs dom ex1 (MkSubstState ss1 c1) -> sok eqs dom ex2 (MkSubstState ss2 c2) -> sok eqs dom ex2 (MkSubstState ss1 c2).
Proof. by intros [S1 S2 S3 S4] [T1 T2 T3 T4]; split. Qed.
Lemma simplify_keys_ok eqs dom exact ks : forall s, sok eqs dom exact s -> ks ⊆ dom ->
  exists N s', (forall fuel, N <= fuel -> simplify_keys fuel ks s = Ok (tt, s')) /\ sok eqs dom exact s'.
Proof.
  induction ks as [|k ks IH]; intros s Hs Hks; [by exists 0, s |].
  assert (Hk : k ∈ dom) by (apply Hks; by left). destruct (proj2 (state_dom _ _ _ _ _ _ _ Hs k) Hk) as [t Ht].
  destruct (state_entry _ _ _ _ _ _ _ Hs _ _ Ht) as [He Hsame].
  destruct (internalSubstitute_ok _ _ _ _ _ _ t _ Hs) as (N1 & r & s1 & Hr & Hs1 & Hc).
  destruct (IH (MkSubstState (node_update (substs s1) k r) (cache s1))) as (N2 & s2 & H2 & Hs2).
  - apply set_subst_ok; [done | done | by eapply entry_step |]. eapply equal_trans; [done | apply Hc].
  - intros x Hx. apply Hks. by right.
  - exists (N1 `max` N2), s2. split; [| done]. intros fuel Hf. cbn [simplify_keys]. unfold subst_find, gets, mbind, SM_bind. rewrite Ht, Hr by lia. apply H2. lia.
Qed.
Definition a_simplify (x t : Node) (a : Abstract) : Abstract := MkAbstract ((x, t) :: a_eqs a) (a_dom a) (a_exact a) (a_saved a).
Lemma simplifyRHS_ok a m x t : map_ok a m -> entry_ok Q keys rank x t ->
  exists N m', (forall fuel, N <= fuel -> simplifyRHS fuel x t m = Ok (tt, m')) /\ map_ok (a_simplify x t a) m'.
Proof.
  intros [Hs Hsv] He. assert (Hmore : sok ((x, t) :: a_eqs a) (a_dom a) (a_exact a) (MkSubstState (d_substitutions m) (valid_cache m))).
  { eapply sok_more; [| exact Hs]. by intros e [_ H]%sat_cons. }
  assert (Htmp : sok ((x, t) :: a_eqs a) (a_dom a) false (MkSubstState (d_substitutions m) [(x, t)])).
  { destruct (sok_add _ _ _ _ _ x t (sok_no_cache _ _ _ true _ _ Hs) He) as [_ H]. destruct Hmore as [S1 S2 S3 S4]. split; [done | done | | done].
    intros n r Hn. eapply cache_entry_weaken; [| | by apply (state_cache _ _ _ _ _ _ _ H)]; done. }
  destruct (simplify_keys_ok _ _ _ (map fst (d_substitutions m)) _ Htmp) as (N & s' & H' & Hs').
  { intros k Hk. by apply (state_dom _ _ _ _ _ _ _ Hs), node_find_keys. }
  exists N. eexists. split; [intros fuel Hf; unfold simplifyRHS; by rewrite H', M_bind_Ok |]. split; [| done]. destruct s' as [ss' c']. eapply sok_combine; [exact Hs' | exact Hmore].
Qed.

(** The entries of a map added to another one. *)
Lemma add_entries_ok inv entries : forall eqs dom exact m, sok eqs dom exact (MkSubstState (d_substitutions m) (valid_cache m)) ->
  Forall (fun p => entry_ok Q keys rank (fst p) (snd p)) entries -> NoDup (map fst entries) -> (forall x, x ∈ map fst entries -> x ∉ dom) ->
  exists ss c exact', add_entries entries inv m = Ok (MkSubstMap ss c (d_cacheInvalidated m) (d_saved_substitutions m)) /\
    sok (rev entries ++ eqs) (rev (map fst entries) ++ dom) exact' (MkSubstState ss (if d_cacheInvalidated m then [] else c)).
Proof.
  induction entries as [|[x t] entries IH]; intros eqs dom exact m Hs He Hnd Hdis; [exists (d_substitutions m), (d_substitutionCache m), exact; by destruct m |].
  apply Forall_cons in He as [Hx He]. apply NoDup_cons in Hnd as [Hnx Hnd]. cbn [map fst] in Hdis.
  assert (Ef : node_find (d_substitutions m) x = None).
  { destruct (node_find (d_substitutions m) x) as [u|] eqn:Eu; [| done]. destruct (Hdis x); [by left |]. apply (state_dom _ _ _ _ _ _ _ Hs). by eauto. }
  destruct (sok_add _ _ _ _ _ x t Hs Hx) as [H1 H2].
  set (m1 := MkSubstMap (node_update (d_substitutions m) x t) (if inv then d_substitutionCache m else (x, t) :: d_substitutionCache m) (d_cacheInvalidated m) (d_saved_substitutions m)).
  destruct (IH ((x, t) :: eqs) (x :: dom) false m1) as (ss & c & exact' & E & H); [| done | done | |].
  - unfold valid_cache in *. cbn. destruct (d_cacheInvalidated m); [by eapply sok_no_cache |]. by destruct inv.
  - intros y Hy [->|Hd]%elem_of_cons; [done |]. by apply (Hdis y); [right |].
  - exists ss, c, exact'. split; [cbn [add_entries]; by rewrite Ef |]. cbn [rev map fst]. by rewrite <- !app_assoc.
Qed.
Definition a_merge (sub : Abstract) (invalidate : bool) (a : Abstract) : Abstract :=
  MkAbstract (a_eqs sub ++ a_eqs a) (a_dom sub ++ a_dom a) invalidate (a_saved a).
Lemma sok_false eqs dom exact ss c : sok eqs dom exact (MkSubstState ss c) -> sok eqs dom false (MkSubstState ss c).
Proof. intros [S1 S2 S3 S4]. split; [done | done | | done]. intros n r H%S3. by eapply cache_entry_weaken; [| | exact H]. Qed.
Lemma sok_dom eqs dom dom' exact s : (forall x, x ∈ dom' <-> x ∈ dom) -> sok eqs dom exact s -> sok eqs dom' exact s.
Proof.
  intros Hd [S1 S2 S3 S4]. split; [intros x; by rewrite S1, Hd | done | | done]. intros n r H%S3. eapply cache_entry_weaken; [done | | exact H]. done.
Qed.
Lemma addSubstitutions_ok a m asub sub inv : map_ok a m -> map_ok asub sub -> (forall x, x ∈ a_dom asub -> x ∉ a_dom a) ->
  exists m', addSubstitutions sub inv m = Ok (tt, m') /\ map_ok (a_merge asub inv a) m'.
Proof.
  intros [Hs Hsv] [Hss _] Hdis. pose proof (state_once _ _ _ _ _ _ _ Hss) as Hnd.
  assert (Hin : forall x t, (x, t) ∈ d_substitutions sub -> node_find (d_substitutions sub) x = Some t).
  { cbn in Hnd. clear -Hnd. induction (d_substitutions sub) as [|[y u] l IH]; intros x t Hx; [by apply not_elem_of_nil in Hx |].
    apply NoDup_cons in Hnd as [Hy Hnd]. cbn. apply elem_of_cons in Hx as [[= -> ->]|Hx]; [by rewrite node_eqb_refl |].
    rewrite node_eqb_neq; [by apply IH |]. intros ->. apply Hy. apply list_elem_of_fmap. by exists (x, t). }
  assert (Hdom : forall x, x ∈ map fst (d_substitutions sub) <-> x ∈ a_dom asub) by (intros x; rewrite <- node_find_keys; apply (state_dom _ _ _ _ _ _ _ Hss)).
  destruct (add_entries_ok inv (d_substitutions sub) _ _ _ m Hs) as (ss & c & exact' & E & H).
  - rewrite Forall_forall. intros [x t] Hx. by apply (state_entry _ _ _ _ _ _ _ Hss), Hin.
  - exact Hnd.
  - intros x Hx. by apply Hdis, Hdom.
  - eexists. split; [unfold addSubstitutions; by rewrite E, M_bind_Ok |]. split; [| done]. cbn.
    assert (H' : sok (a_eqs asub ++ a_eqs a) (a_dom asub ++ a_dom a) exact' (MkSubstState ss (if d_cacheInvalidated m then [] else c))).
    { eapply sok_dom; [| eapply sok_more; [| exact H]].
      - intros x. rewrite !elem_of_app, in_rev_list, Hdom. done.
      - intros e [H1 H2]%sat_app. apply sat_app. split; [| done]. intros x t Hx. apply (proj1 (in_rev_list _ _)) in Hx.
        destruct (state_entry _ _ _ _ _ _ _ Hss x t (Hin x t Hx)) as [_ Hsame]. by apply Hsame. }
    unfold valid_cache. cbn. destruct inv; [by eapply sok_no_cache | by apply (sok_false _ _ exact')].
Qed.

(** [simplifyRHS] with another map, which changes as its [apply] does. *)
Lemma simplify_with_ok asub ks : forall eqs dom exact ss c sub, sok (a_eqs asub ++ eqs) dom exact (MkSubstState ss c) -> map_ok asub sub -> ks ⊆ dom ->
  exists N ss' sub', (forall fuel, N <= fuel -> simplify_with fuel ks sub ss = Ok (ss', sub')) /\ sok (a_eqs asub ++ eqs) dom exact (MkSubstState ss' c) /\ map_ok asub sub'.
Proof.
  induction ks as [|k ks IH]; intros eqs dom exact ss c sub Hs Hsub Hks; [by exists 0, ss, sub |].
  assert (Hk : k ∈ dom) by (apply Hks; by left). destruct (proj2 (state_dom _ _ _ _ _ _ _ Hs k) Hk) as [t Ht].
  destruct (state_entry _ _ _ _ _ _ _ Hs _ _ Ht) as [He Hsame]. destruct Hsub as [Hsub Hsv].
  destruct (internalSubstitute_ok _ _ _ _ _ _ t _ Hsub) as (N1 & r & s1 & Hr & Hs1 & Hc).
  set (sub1 := MkSubstMap (substs s1) (cache s1) false (d_saved_substitutions sub)).
  destruct (IH eqs dom exact (node_update ss k r) c sub1) as (N2 & ss2 & sub2 & H2 & Hs2 & Hm2).
  - apply (set_subst_ok _ _ _ _ _ _ (MkSubstState ss c)); [done | done | by eapply entry_step |]. eapply equal_trans; [done |].
    intros e [H _]%sat_app. by apply (entry_same _ _ _ _ _ _ _ _ Hc).
  - split; [by destruct s1 | done].
  - intros x Hx. apply Hks. by right.
  - exists (N1 `max` N2), ss2, sub2. split; [| done]. intros fuel Hf. cbn [simplify_with]. cbn in Ht. rewrite Ht. unfold apply. fold (valid_cache sub).
    rewrite Hr by lia. rewrite M_bind_Ok. apply H2. lia.
Qed.
Definition a_simplify_map (sub a : Abstract) : Abstract := MkAbstract (a_eqs sub ++ a_eqs a) (a_dom a) (a_exact a) (a_saved a).
Lemma simplifyRHS_map_ok a m asub sub : map_ok a m -> map_ok asub sub ->
  exists N m' sub', (forall fuel, N <= fuel -> simplifyRHS_map fuel sub m = Ok (sub', m')) /\ map_ok (a_simplify_map asub a) m' /\ map_ok asub sub'.
Proof.
  intros [Hs Hsv] Hsub. destruct (simplify_with_ok asub (map fst (d_substitutions m)) (a_eqs a) (a_dom a) (a_exact a) (d_substitutions m) (valid_cache m) sub) as (N & ss' & sub' & H' & Hs' & Hsub').
  - eapply sok_more; [| exact Hs]. by intros e [_ H]%sat_app.
  - done.
  - intros k Hk. by apply (state_dom _ _ _ _ _ _ _ Hs), node_find_keys.
  - exists N. eexists _, sub'. split; [intros fuel Hf; unfold simplifyRHS_map; by rewrite H', M_bind_Ok |]. by split; [split |].
Qed.

(** ** Sessions *)
Inductive subst_op : Type :=
  | Apply (t : Node) | Add (x t : Node) (invalidateCache : bool) | Simplify (x t : Node) | Push | Pop.
(** A run of operations; the answers of [apply] in order. *)
Fixpoint run (fuel : nat) (ops : list subst_op) (m : SubstitutionMap) : M (list Node * SubstitutionMap) :=
  match ops with
  | [] => Ok ([], m)
  | Apply t :: ops => '(r, m) ← apply fuel t m; '(rs, m) ← run fuel ops m; Ok (r :: rs, m)
  | Add x t inv :: ops => '(_, m) ← addSubstitution x t inv m; run fuel ops m
  | Simplify x t :: ops => '(_, m) ← simplifyRHS fuel x t m; run fuel ops m
  | Push :: ops => run fuel ops (push_scope m)
  | Pop :: ops => m ← pop_scope m; run fuel ops m
  end.
Definition a_step (op : subst_op) (a : Abstract) : Abstract :=
  match op with Apply _ => a | Add x t inv => a_add x t inv a | Simplify x t => a_simplify x t a | Push => a_push a | Pop => a_pop a end.
(** What the caller must respect: a key is added once, the map stays acyclic, pops match pushes. *)
Definition allowed (op : subst_op) (a : Abstract) : Prop :=
  match op with
  | Apply _ | Push => True
  | Add x t _ => x ∉ a_dom a /\ entry_ok Q keys rank x t
  | Simplify x t => entry_ok Q keys rank x t
  | Pop => a_saved a <> []
  end.
Fixpoint all_allowed (ops : list subst_op) (a : Abstract) : Prop :=
  match ops with [] => True | op :: ops => allowed op a /\ all_allowed ops (a_step op a) end.
Fixpoint all_right (ops : list subst_op) (a : Abstract) (rs : list Node) : Prop :=
  match ops, rs with
  | [], [] => True
  | Apply t :: ops, r :: rs => answer a t r /\ all_right ops a rs
  | Apply _ :: _, [] | [], _ :: _ => False
  | op :: ops, rs => all_right ops (a_step op a) rs
  end.
Lemma run_ok ops : forall a m, map_ok a m -> all_allowed ops a ->
  exists N rs m', (forall fuel, N <= fuel -> run fuel ops m = Ok (rs, m')) /\ all_right ops a rs.
Proof.
  induction ops as [|op ops IH]; intros a m Hm Hall; [by exists 0, [], m |]. destruct Hall as [Ha Hall]. destruct op as [t|x t inv|x t| |]; cbn [allowed a_step] in *.
  - destruct (apply_ok a m t Hm) as (N1 & r & m1 & H1 & Hm1 & Hr & _). destruct (IH a m1 Hm1 Hall) as (N2 & rs & m2 & H2 & Hrs).
    exists (N1 `max` N2), (r :: rs), m2. split; [| done]. intros fuel Hf. cbn [run]. by rewrite H1, M_bind_Ok, H2, M_bind_Ok by lia.
  - destruct (addSubstitution_ok a m x t inv Hm) as (m1 & H1 & Hm1); [by apply Ha .. |]. destruct (IH _ m1 Hm1 Hall) as (N & rs & m2 & H2 & Hrs).
    exists N, rs, m2. split; [| done]. intros fuel Hf. cbn [run]. rewrite H1, M_bind_Ok. by apply H2.
  - destruct (simplifyRHS_ok a m x t Hm Ha) as (N1 & m1 & H1 & Hm1). destruct (IH _ m1 Hm1 Hall) as (N & rs & m2 & H2 & Hrs).
    exists (N1 `max` N), rs, m2. split; [| done]. intros fuel Hf. cbn [run]. rewrite H1, M_bind_Ok by lia. apply H2. lia.
  - apply (IH _ _ (push_scope_ok a m Hm) Hall).
  - destruct (pop_scope_ok a m Hm Ha) as (m1 & H1 & Hm1). destruct (IH _ m1 Hm1 Hall) as (N & rs & m2 & H2 & Hrs).
    exists N, rs, m2. split; [| done]. intros fuel Hf. cbn [run]. rewrite H1, M_bind_Ok. by apply H2.
Qed.
End maps.

Definition a_empty : Abstract := MkAbstract [] [] true [].
Lemma new_map_ok Q keys rank : map_ok Q keys rank a_empty new_SubstitutionMap.
Proof.
  split; [| constructor]. split; cbn; [| done | done | constructor]. intros x. split; [by intros [] | by intros ?%not_elem_of_nil].
Qed.

(** C13. Substitution maps, over any sequence of [apply], [addSubstitution] (with or without invalidating the cache), [simplifyRHS], pushes and pops in which keys are new and the map stays acyclic (a variable is replaced by a term over variables of smaller rank, or a term by a constant): every operation returns without failing an assertion, and every answer of [apply] has the value of its term in all environments that satisfy the equations of the map; unless the cache was kept across an addition, no key of the map occurs in the answer, and a term without keys is its own answer, so [apply] is idempotent. *)
Theorem substitution_session (keys : Node -> Prop) (rank : Node -> nat) (ops : list subst_op) : all_allowed (fun _ _ => True) keys rank ops a_empty ->
  exists N answers m, (forall fuel, N <= fuel -> run fuel ops new_SubstitutionMap = Ok (answers, m)) /\ all_right (fun _ _ => True) ops a_empty answers.
Proof. intros H. by apply (run_ok _ keys rank), H; apply new_map_ok. Qed.

Definition sx := Var 1 BOOLEAN_TYPE.
Definition sy := Var 2 BOOLEAN_TYPE.
Definition sz := Var 3 BOOLEAN_TYPE.
(** [x -> not y]; a scope with [y -> z], in which [x and y] becomes [not z and z], and outside of it [not y and y]. *)
Definition sample_session : list subst_op :=
  [Add sx (MkNode NOT [sy]) true; Push; Add sy sz true; Apply (MkNode AND [sx; sy]); Apply (MkNode OR [sz; sx]); Pop; Apply (MkNode AND [sx; sy])].
Lemma substitution_session_witness : exists N answers m, (forall fuel, N <= fuel -> run fuel sample_session new_SubstitutionMap = Ok (answers, m)) /\
  answers = [MkNode AND [MkNode NOT [sz]; sz]; MkNode OR [sz; MkNode NOT [sz]]; MkNode AND [MkNode NOT [sy]; sy]].
Proof.
  destruct (substitution_session (fun n => n = sx \/ n = sy) (fun n => if node_eqb n sx then 1 else 0) sample_session) as (N & rs & m & H & _).
  - assert (forall y, isVarNode y = true -> occurs y (MkNode NOT [sy]) -> y = sx \/ y = sy -> (if node_eqb y sx then 1 else 0) < 1) as H1.
    { intros y _ Ho [-> | ->]; [| vm_compute; constructor]. destruct (occurs_inv _ _ Ho) as [H|(c & ->%list_elem_of_singleton & H%occurs_leaf)]; done. }
    assert (forall y, isVarNode y = true -> occurs y sz -> y = sx \/ y = sy -> (if node_eqb y sx then 1 else 0) < 0) as H2.
    { intros y _ ->%occurs_leaf [|]; done. }
    split; [split; [by intros ?%not_elem_of_nil | split; [split; [by left | by right] | done]] |]. split; [done |].
    split; [split; [by intros ?%list_elem_of_singleton | split; [split; [by right | by right] | done]] |]. by repeat split.
  - exists N, rs, m. split; [done |]. specialize (H (N + 20) ltac:(lia)). rewrite Nat.add_comm in H. vm_compute in H. by injection H as <-.
Defined.
