(* ===== verification/NonClausal.v ===== *)
(** * Non-clausal simplification

    Models [SmtEnginePrivate::nonClausalSimplify] of [src/smt/smt_engine.cpp] as built without
    debug assertions, with [TheoryEngine::solve], [TheoryBool::ppAssert] and
    [TheoryModel::addSubstitution]: the circuit propagator runs on the assertions, the literals
    it learns become substitutions, constant propagations or new conjuncts, and the assertions
    are simplified with them.  The other theories' [ppAssert] is a parameter. *)

From S2P Require Import Prelude Integer BitVector Node BoolRewriter RewriterLoop CircuitPropagator Substitutions.
Local Open Scope nat_scope.

Inductive PPAssertStatus : Set := PP_ASSERT_STATUS_SOLVED | PP_ASSERT_STATUS_UNSOLVED | PP_ASSERT_STATUS_CONFLICT.
(** [TheoryBool::ppAssert] *)
Definition TheoryBool_ppAssert (literal : Node) : SMap PPAssertStatus :=
  match literal with
  | ConstBool false => mret PP_ASSERT_STATUS_CONFLICT
  | MkNode NOT _ =>
      atom ← lift (child literal 0);
      if isVarNode atom then _ ← addSubstitution atom (ConstBool false) true; mret PP_ASSERT_STATUS_SOLVED
      else mret PP_ASSERT_STATUS_UNSOLVED
  | Var _ _ => _ ← addSubstitution literal (ConstBool true) true; mret PP_ASSERT_STATUS_SOLVED
  | _ => mret PP_ASSERT_STATUS_UNSOLVED
  end.
(** [TheoryModel::addSubstitution] *)
Definition TheoryModel_addSubstitution (x t : Node) (invalidateCache : bool) : SMap unit :=
  m ← gets id; if hasSubstitution m x then mret tt else addSubstitution x t invalidateCache.

(** The members of [SmtEnginePrivate] that the function uses, its two local maps, the caches of
    the rewriter and the substitutions of the theory engine's model.
    [d_nonClausalLearnedLiterals] is the vector given to the propagator. *)
Record SmtEnginePrivate : Type := MkSmt {
  d_assertions : list Node;
  d_realAssertionsEnd : nat;
  d_substitutionsIndex : nat;
  d_topLevelSubstitutions : SubstitutionMap;
  d_propagator : CircuitPropagator;
  d_propagatorNeedsFinish : bool;
  s_rewriter : RewriterState;
  theory_model : SubstitutionMap;
  newSubstitutions : SubstitutionMap;
  constantPropagations : SubstitutionMap
}.
Abbreviation NM := (SM SmtEnginePrivate).

(** A computation on one member. *)
Definition on_member {T A} (get : SmtEnginePrivate -> T) (put : T -> SmtEnginePrivate -> SmtEnginePrivate) (m : SM T A) : NM A := fun s =>
  match m (get s) with Ok (a, x) => Ok (a, put x s) | Throw e => Throw e end.
Definition put_assertions (v : list Node) (s : SmtEnginePrivate) := MkSmt v (d_realAssertionsEnd s) (d_substitutionsIndex s) (d_topLevelSubstitutions s) (d_propagator s) (d_propagatorNeedsFinish s) (s_rewriter s) (theory_model s) (newSubstitutions s) (constantPropagations s).
Definition put_top (v : SubstitutionMap) (s : SmtEnginePrivate) := MkSmt (d_assertions s) (d_realAssertionsEnd s) (d_substitutionsIndex s) v (d_propagator s) (d_propagatorNeedsFinish s) (s_rewriter s) (theory_model s) (newSubstitutions s) (constantPropagations s).
Definition put_propagator (v : CircuitPropagator) (s : SmtEnginePrivate) := MkSmt (d_assertions s) (d_realAssertionsEnd s) (d_substitutionsIndex s) (d_topLevelSubstitutions s) v (d_propagatorNeedsFinish s) (s_rewriter s) (theory_model s) (newSubstitutions s) (constantPropagations s).
Definition put_finish (v : bool) (s : SmtEnginePrivate) := MkSmt (d_assertions s) (d_realAssertionsEnd s) (d_substitutionsIndex s) (d_topLevelSubstitutions s) (d_propagator s) v (s_rewriter s) (theory_model s) (newSubstitutions s) (constantPropagations s).
Definition put_rewriter (v : RewriterState) (s : SmtEnginePrivate) := MkSmt (d_assertions s) (d_realAssertionsEnd s) (d_substitutionsIndex s) (d_topLevelSubstitutions s) (d_propagator s) (d_propagatorNeedsFinish s) v (theory_model s) (newSubstitutions s) (constantPropagations s).
Definition put_model (v : SubstitutionMap) (s : SmtEnginePrivate) := MkSmt (d_assertions s) (d_realAssertionsEnd s) (d_substitutionsIndex s) (d_topLevelSubstitutions s) (d_propagator s) (d_propagatorNeedsFinish s) (s_rewriter s) v (newSubstitutions s) (constantPropagations s).
Definition put_new (v : SubstitutionMap) (s : SmtEnginePrivate) := MkSmt (d_assertions s) (d_realAssertionsEnd s) (d_substitutionsIndex s) (d_topLevelSubstitutions s) (d_propagator s) (d_propagatorNeedsFinish s) (s_rewriter s) (theory_model s) v (constantPropagations s).
Definition put_const (v : SubstitutionMap) (s : SmtEnginePrivate) := MkSmt (d_assertions s) (d_realAssertionsEnd s) (d_substitutionsIndex s) (d_topLevelSubstitutions s) (d_propagator s) (d_propagatorNeedsFinish s) (s_rewriter s) (theory_model s) (newSubstitutions s) v.
Abbreviation on_top := (on_member d_topLevelSubstitutions put_top).
Abbreviation on_propagator := (on_member d_propagator put_propagator).
Abbreviation on_rewriter := (on_member s_rewriter put_rewriter).
Abbreviation on_model := (on_member theory_model put_model).
Abbreviation on_new := (on_member newSubstitutions put_new).
Abbreviation on_const := (on_member constantPropagations put_const).
Definition learned (s : SmtEnginePrivate) : list Node := d_learnedLiterals (d_propagator s).
Definition put_learned (v : list Node) (s : SmtEnginePrivate) : SmtEnginePrivate :=
  let p := d_propagator s in
  put_propagator (MkCircuit (d_propagationQueue p) (d_conflict p) v (d_backEdges p) (d_seen p) (d_state p) (d_saved p)) s.

(** [AssertionPipeline::replace] *)
Definition replace (i : nat) (n : Node) : NM unit :=
  v ← gets d_assertions; v ← lift (vset v i n); modify (put_assertions v).
(** [addFormula(n, false, false)] *)
Definition addFormula (n : Node) : NM unit :=
  match n with ConstBool true => mret tt | _ => v ← gets d_assertions; modify (put_assertions (v ++ [n])) end.

Section nonclausal.
Context {TR : TheoryRewriters}.
Context (isTheoryEnabled : TheoryId -> bool) (other_ppAssert : TheoryId -> Node -> SMap PPAssertStatus) (unsatCores : bool).
(** The fuel of the rewriter, of the substitutions and of the constant propagation. *)
Context (F : nat).

Definition rewrite (n : Node) : NM Node := on_rewriter (Rewriter_rewrite F n).
(** [TheoryEngine::solve] *)
Definition solve (literal : Node) : SMap PPAssertStatus :=
  atom ← (if bool_decide (getKind literal = NOT) then lift (child literal 0) else mret literal);
  t ← lift (theoryOf atom);
  _ ← lift (check LogicException (isTheoryEnabled t));
  if bool_decide (t = THEORY_BOOL) then TheoryBool_ppAssert literal else other_ppAssert t literal.

(** The loop of the constant propagation. *)
Fixpoint constant_loop (fuel : nat) (n : Node) : NM Node :=
  new ← on_const (apply F n);
  if node_eqb new n then mret n
  else match fuel with O => lift (Throw OutOfFuel) | S fuel' => n' ← rewrite new; constant_loop fuel' n' end.
(** The simplification of a literal or an assertion. *)
Definition simplify (n : Node) : NM Node :=
  new ← on_new (apply F n);
  n' ← (if negb (node_eqb n new) then rewrite new else mret n);
  constant_loop F n'.

(** The literals from the index [i] on, [k] of them; [None] is a conflict, otherwise the result is [j]. *)
Fixpoint literals_loop (k i j : nat) : NM (option nat) :=
  match k with
  | O => mret (Some j)
  | S k' =>
      lits ← gets learned;
      literal ← lift (vget lits i);
      learnedLiteral ← simplify literal;
      if isConst learnedLiteral then
        match learnedLiteral with
        | ConstBool true => literals_loop k' (S i) j
        | ConstBool false => mret None
        | _ => lift (Throw IllegalArgument)
        end
      else
        solveStatus ← on_new (solve learnedLiteral);
        match solveStatus with
        | PP_ASSERT_STATUS_SOLVED => literals_loop k' (S i) j
        | PP_ASSERT_STATUS_CONFLICT => mret None
        | PP_ASSERT_STATUS_UNSOLVED =>
            constant ← (if bool_decide (getKind learnedLiteral = EQUAL) then
                          l ← lift (child learnedLiteral 0); r ← lift (child learnedLiteral 1);
                          mret (if isConst l then Some (r, l) else if isConst r then Some (l, r) else None)
                        else mret None : NM (option (Node * Node)));
            match constant with
            | Some (t, c) => _ ← on_const (addSubstitution t c true); literals_loop k' (S i) j
            | None =>
                lits ← gets learned; kept ← lift (vget lits i); lits ← lift (vset lits j kept);
                _ ← modify (put_learned lits); literals_loop k' (S i) (S j)
            end
        end
  end.
(** The assertions from the index [i] on; the simplified ones are collected in [s]. *)
Fixpoint assertions_loop (k i : nat) (s : list Node) : NM (list Node) :=
  match k with
  | O => mret s
  | S k' =>
      v ← gets d_assertions; a ← lift (vget v i);
      a' ← simplify a;
      _ ← replace i a';
      assertions_loop k' (S i) (a' :: s)
  end.
(** The substitutions in the order of the map, with their right-hand sides substituted. *)
Fixpoint solved_entries (keys : list Node) : NM (list (Node * Node)) :=
  match keys with
  | [] => mret []
  | x :: keys =>
      m ← gets newSubstitutions; t ← lift (match node_find (d_substitutions m) x with Some t => Ok t | None => Throw OutOfBounds end);
      v ← on_new (apply F t);
      rest ← solved_entries keys;
      mret ((x, v) :: rest)
  end.
Fixpoint model_substitutions (l : list (Node * Node)) : NM unit :=
  match l with [] => mret tt | (x, v) :: l => _ ← on_model (TheoryModel_addSubstitution x v true); model_substitutions l end.
(** The learned literals and the constant propagations to add to the last assertion. *)
Fixpoint learned_conjuncts (lits : list Node) (s : list Node) : NM (list Node * list Node) :=
  match lits with
  | [] => mret ([], s)
  | l :: lits =>
      l' ← simplify l;
      if existsb (node_eqb l') s then learned_conjuncts lits s
      else '(rest, s') ← learned_conjuncts lits (l' :: s); mret (l' :: rest, s')
  end.
Fixpoint constant_conjuncts (entries : list (Node * Node)) (s : list Node) : NM (list Node) :=
  match entries with
  | [] => mret []
  | (t, c) :: entries =>
      let cProp := eqNode t c in
      cPropNew ← on_new (apply F cProp);
      cProp' ← (if negb (node_eqb cProp cPropNew) then rewrite cPropNew else mret cProp);
      if existsb (node_eqb cProp') s then constant_conjuncts entries s
      else rest ← constant_conjuncts entries (cProp' :: s); mret (cProp' :: rest)
  end.
(** [if (builder.getNumChildren() > 1) d_assertions.replace(i, Rewriter::rewrite(Node(builder)))] *)
Definition replace_conjunction (i : nat) (conjuncts : list Node) : NM unit :=
  if 1 <? length conjuncts then
    n ← lift (mkNode AND conjuncts); n' ← rewrite n; replace i n'
  else mret tt.

(** The assertions without the one that holds the substitutions. *)
Definition to_assert (s : SmtEnginePrivate) : list Node :=
  if 0 <? d_substitutionsIndex s then take (d_substitutionsIndex s) (d_assertions s) ++ drop (S (d_substitutionsIndex s)) (d_assertions s)
  else d_assertions s.
(** [d_assertions.clear(); addFormula(false); d_propagatorNeedsFinish = true; return false;] *)
Definition conclude_false : NM bool :=
  _ ← modify (put_assertions []); _ ← addFormula (ConstBool false); _ ← modify (put_finish true); mret false.

Definition nonClausalSimplify : NM bool :=
  if unsatCores then mret true else
  needsFinish ← gets d_propagatorNeedsFinish;
  _ ← (if needsFinish : bool then _ ← on_propagator CircuitPropagator.finish; modify (put_finish false) else mret tt);
  toAssert ← gets to_assert;
  conflict ← on_propagator (propagate_assertions toAssert);
  if conflict : bool then conclude_false else
  _ ← modify (put_new new_SubstitutionMap); _ ← modify (put_const new_SubstitutionMap);
  lits ← gets learned;
  r ← literals_loop (length lits) 0 0;
  match r with
  | None => conclude_false
  | Some j =>
      lits ← gets learned; _ ← modify (put_learned (take j lits));
      n ← gets (fun s => length (d_assertions s));
      s ← assertions_loop n 0 [];
      m ← gets newSubstitutions;
      entries ← solved_entries (map fst (d_substitutions m));
      index ← gets d_substitutionsIndex;
      _ ← (if 0 <? index then
             v ← gets d_assertions; a ← lift (vget v index);
             replace_conjunction index (a :: map (fun '(x, t) => MkNode EQUAL [x; t]) entries)
           else model_substitutions entries);
      end_ ← gets d_realAssertionsEnd;
      last ← lift (match end_ with O => Throw OutOfBounds | S last => Ok last end);   (* [d_realAssertionsEnd - 1] *)
      v ← gets d_assertions; a ← lift (vget v last);
      lits ← gets learned;
      '(ls, s) ← learned_conjuncts lits s;
      _ ← modify (put_learned []);
      c ← gets constantPropagations;
      cs ← constant_conjuncts (d_substitutions c) s;
      m ← gets newSubstitutions;
      _ ← on_top (addSubstitutions m true);
      _ ← replace_conjunction last (a :: ls ++ cs);
      _ ← modify (put_finish true);
      mret true
  end.
End nonclausal.
