(* ===== verification/NonClausalCorrect.v ===== *)
(** * Correctness of non-clausal simplification

    On propositional problems, with the rewriters of the program (and in the lemmas with any that
    fulfil the contract on Boolean formulas): the round returns, answers false only on assertions without a model, and otherwise leaves
    assertions and substitutions that have together exactly the models of the assertions. *)

From S2P Require Import Prelude Integer BitVector Node Cardinality BVRules BVRulesCorrect BVSimplify Subterm BVNormalize BVSolveEq BVRewriter BoolRewriter BoolRewriterCorrect RewriterLoop RewriterLoopCorrect BoolFormulas CircuitPropagator CircuitCorrect Substitutions SubstitutionsCorrect NonClausal.
Local Open Scope nat_scope.

(** ** Formulas under substitutions *)
Abbreviation bformula := (BoolFormulas.bformula no_leaf).
Lemma no_leaf_value e a : theory_atom a = true -> no_leaf a = true -> exists b, eval e a = Some (VBool b).
Proof. done. Qed.
Abbreviation bformula_value := (BoolFormulas.bformula_value no_leaf no_leaf_value).
Lemma formula_node k ch : bformula (MkNode k ch) = true <-> connective_kind_b k = true /\ arity_ok k (length ch) = true /\ Forall (fun c => bformula c = true) ch.
Proof.
  destruct (connective_kind_b k) eqn:Hk; [rewrite bformula_node by done; tauto |]. cbn. rewrite Hk. split; [done | by intros [? _]].
Qed.
Lemma formula_theory n : bformula n = true -> theoryOf n = Ok THEORY_BOOL.
Proof.
  intros Hn. apply (bformula_theory no_leaf no_leaf_value); [done |]. destruct n as [| | |k ch]; try done. apply formula_node in Hn as [Hk _]. cbn. by rewrite Hk.
Qed.
Definition formula_rel (n r : Node) : Prop := bformula n = true -> bformula r = true /\ brank r <= brank n.
#[export] Instance formula_relation : TermRelation formula_rel.
Proof.
  split; [by intros n Hn | intros a b c H1 H2 Ha; destruct (H1 Ha) as [Hb ?]; destruct (H2 Hb); split; [done | lia] |].
  intros k cs rs Hrs Hb. apply formula_node in Hb as (Hk & Ha & Hcs). pose proof (Forall2_length _ _ _ Hrs) as Hl.
  assert (Forall (fun r => bformula r = true) rs /\ sum_list_with brank rs <= sum_list_with brank cs) as [H1 H2].
  { clear -Hrs Hcs. induction Hrs as [|c r cs rs Hcr _ IH]; [done |]. apply Forall_cons in Hcs as [Hc Hcs]. destruct (Hcr Hc) as [? ?]. destruct (IH Hcs). split; [by constructor | cbn; lia]. }
  split; [apply formula_node; by rewrite <- Hl | cbn; lia].
Qed.
Lemma rel_bdom n r : formula_rel n r -> bdom n -> bdom r.
Proof. intros H [Hn Hr]. destruct (H Hn). split; [done | lia]. Qed.
Lemma bformula_child n c : bformula n = true -> c ∈ children n -> bformula c = true.
Proof.
  intros Hn Hc. destruct n as [| | |k ch]; try (by apply not_elem_of_nil in Hc). apply formula_node in Hn as (_ & _ & H). by apply (proj1 (Forall_forall _ _) H).
Qed.
Lemma bformula_var n : bformula n = true -> isVarNode n = true -> exists x, n = Var x BOOLEAN_TYPE.
Proof. destruct n as [x [] | | |]; try done. by exists x. Qed.

(** Environments that differ on some variables only. *)
Definition agree_off (dom : list Node) (e e' : env) : Prop := forall x, Var x BOOLEAN_TYPE ∉ dom -> eval e (Var x BOOLEAN_TYPE) = eval e' (Var x BOOLEAN_TYPE).
Lemma agree_eval dom e e' n : agree_off dom e e' -> bformula n = true -> (forall x, occurs x n -> x ∉ dom) -> eval e n = eval e' n.
Proof.
  intros He. induction n as [x t|b|v|k ch IH] using node_ind'; intros Hb Hn; [destruct t; try done; by apply He, Hn; left | done | done |].
  apply formula_node in Hb as (Hk & Ha & Hch). cbn. rewrite Ha.
  assert (Hm : mapM (eval e) ch = mapM (eval e') ch).
  { assert (Hn' : forall c, c ∈ ch -> forall x, occurs x c -> x ∉ dom) by (intros c Hc x Ho; apply Hn; by apply (occurs_child x c)).
    clear Ha Hn. induction IH as [|c ch Hc _ IHl]; [done |]. apply Forall_cons in Hch as [H1 H2]. cbn.
    rewrite Hc; [| done | intros x Ho; apply (Hn' c); [by left | done]]. rewrite IHl; [done | done |]. intros d Hd. apply Hn'. by right. }
  rewrite Hm. destruct (mapM (eval e') ch) as [vs|]; [| done]. cbn. by destruct k.
Qed.
(** The environment changed to satisfy equations between Boolean variables and constants. *)
Fixpoint assign (eqs : list (Node * Node)) (x : positive) (b : bool) : bool :=
  match eqs with
  | [] => b
  | (Var y BOOLEAN_TYPE, ConstBool c) :: eqs => if Pos.eqb y x then c else assign eqs x b
  | _ :: eqs => assign eqs x b
  end.
Definition update_env (eqs : list (Node * Node)) (e : env) : env :=
  {| e_bool := fun x => assign eqs x (e_bool e x); e_bv := e_bv e; e_udiv0 := e_udiv0 e; e_urem0 := e_urem0 e |}.
(** Equations that give values to Boolean variables. *)
Definition valuation (eqs : list (Node * Node)) : Prop := NoDup (map fst eqs) /\ forall n t, (n, t) ∈ eqs -> (exists x, n = Var x BOOLEAN_TYPE) /\ exists b, t = ConstBool b.
Lemma update_sat eqs e : valuation eqs -> sat eqs (update_env eqs e).
Proof.
  intros [Hnd Hall] n t Hn. destruct (Hall n t Hn) as [[x ->] [b ->]]. cbn. f_equal. f_equal. clear Hall. revert Hnd Hn.
  induction eqs as [|[m u] eqs IH]; intros Hnd Hn; [by apply not_elem_of_nil in Hn |]. apply NoDup_cons in Hnd as [Hm Hnd].
  apply elem_of_cons in Hn as [[= <- <-]|Hn]; [cbn; by rewrite Pos.eqb_refl |].
  assert (Hne : m <> Var x BOOLEAN_TYPE) by (intros ->; apply Hm, list_elem_of_fmap; by exists (Var x BOOLEAN_TYPE, ConstBool b)).
  cbn. destruct m as [y []| | |]; try by apply IH. destruct u; try by apply IH. destruct (Pos.eqb_spec y x) as [->|]; [done | by apply IH].
Qed.
Lemma update_agree eqs e : agree_off (map fst eqs) e (update_env eqs e).
Proof.
  intros x Hx. cbn. f_equal. f_equal. induction eqs as [|[m u] eqs IH]; [done |]. cbn in Hx. rewrite elem_of_cons in Hx.
  assert (IH' := IH (fun H => Hx (or_intror H))). cbn. destruct m as [y []| | |]; try done. destruct u; try done. destruct (Pos.eqb_spec y x) as [->|]; [| done]. destruct Hx. by left.
Qed.

Section round.
Context {TR : TheoryRewriters} {HT : RewritersSpec (ndom no_leaf) brank (keeps no_leaf) TR}.
Context (isTheoryEnabled : TheoryId -> bool) (Hbool : isTheoryEnabled THEORY_BOOL = true).
Context (other_ppAssert : TheoryId -> Node -> SMap PPAssertStatus) (rank : Node -> nat).
Definition is_key (n : Node) : Prop := isVarNode n = true.
Abbreviation mok := (map_ok formula_rel is_key rank).
Abbreviation rready := (RewriterLoopCorrect.ready (ndom no_leaf) brank (keeps no_leaf)).

(** What the simplification changes: the caches of the rewriter and the two maps. *)
Record phase (a : Abstract) (s : SmtEnginePrivate) : Prop := {
  phase_map : mok a (newSubstitutions s);
  phase_exact : a_exact a = true;
  phase_const : d_substitutions (constantPropagations s) = [];
  phase_rewriter : rready (s_rewriter s)
}.
Definition frame (s s' : SmtEnginePrivate) : Prop :=
  d_realAssertionsEnd s' = d_realAssertionsEnd s /\ d_substitutionsIndex s' = d_substitutionsIndex s /\
  d_topLevelSubstitutions s' = d_topLevelSubstitutions s /\ d_propagator s' = d_propagator s /\
  d_propagatorNeedsFinish s' = d_propagatorNeedsFinish s /\ theory_model s' = theory_model s.
#[local] Instance frame_preorder : PreOrder frame.
Proof. split; [done |]. intros s1 s2 s3 (A1 & A2 & A3 & A4 & A5 & A6) (B1 & B2 & B3 & B4 & B5 & B6). repeat split; congruence. Qed.

Lemma rewrite_step n s : bdom n -> rready (s_rewriter s) ->
  exists N r w, (forall F, N <= F -> rewrite F n s = Ok (r, put_rewriter w s)) /\ rready w /\ bdom r /\ (forall e, eval e r = eval e n) /\ brank r <= brank n.
Proof.
  intros Hn Hs. destruct (rewrite_ok (ndom no_leaf) brank (keeps no_leaf) n (s_rewriter s) (or_intror Hn) Hs) as (r & w & Hw & Hr & HF). exists (2 * rewrite_fuel (S (brank n))), r, w.
  split; [intros F HKF; unfold rewrite, on_member; by rewrite HF |]. split; [done |]. destruct Hr as [_ Href [_ _ Hf] Hrk _ _].
  split; [destruct Hn as [Hn Hsz]; split; [by apply Hf | lia] |]. split; [| done].
  intros e. destruct (bformula_value e n (proj1 Hn)) as [b Hb]. by rewrite Hb, (Href e _ Hb).
Qed.
(** An empty map answers with the term it is given. *)
Definition emptied (m : SubstitutionMap) : SubstitutionMap := MkSubstMap [] (if d_cacheInvalidated m then [] else d_substitutionCache m) false (d_saved_substitutions m).
Lemma apply_empty F n m : d_substitutions m = [] -> apply F n m = Ok (n, emptied m).
Proof. intros H. unfold apply, internalSubstitute, gets, mbind, SM_bind. by rewrite H. Qed.
Lemma constant_step F fuel n s : d_substitutions (constantPropagations s) = [] ->
  constant_loop F fuel n s = Ok (n, put_const (emptied (constantPropagations s)) s).
Proof.
  intros Hc. assert (E : on_member constantPropagations put_const (apply F n) s = Ok (n, put_const (emptied (constantPropagations s)) s)) by (unfold on_member; by rewrite apply_empty).
  destruct fuel; cbn [constant_loop]; rewrite (sm_bind _ _ _ _ _ E); by rewrite node_eqb_refl.
Qed.
(** The simplification of a formula. *)
Lemma simplify_ok n a s : phase a s -> bdom n ->
  exists N r s', (forall F, N <= F -> simplify F n s = Ok (r, s')) /\ phase a s' /\ frame s s' /\ d_assertions s' = d_assertions s /\ bdom r /\
    (forall e, sat (a_eqs a) e -> eval e r = eval e n) /\ (forall e e', agree_off (a_dom a) e e' -> eval e r = eval e' r) /\
    ((forall x, occurs x n -> x ∉ a_dom a) -> r = n) /\ brank r <= brank n.
Proof.
  intros [Hm Hx Hc Hr] Hn. destruct (apply_ok _ _ _ a _ n Hm) as (N1 & t & m' & H1 & Hm' & (Ht & Hrel & Hnorm) & _). destruct (Hnorm Hx) as [Hfree Hid].
  pose proof (rel_bdom _ _ Hrel Hn) as Htd.
  assert (Hoff : forall e e', agree_off (a_dom a) e e' -> eval e t = eval e' t) by (intros e e' He; by apply (agree_eval (a_dom a)); [| apply Htd |]).
  set (s1 := put_new m' s).
  assert (exists N2 r w, (forall F, N2 <= F -> (if negb (node_eqb n t) then rewrite F t else mret n) s1 = Ok (r, put_rewriter w s1)) /\ rready w /\ bdom r /\
    (forall e, eval e r = eval e t) /\ (t = n -> r = n) /\ brank r <= brank t) as (N2 & r & w & H2 & Hw & Hrd & Hre & Hrn & Hrb).
  { destruct (node_eqb n t) eqn:En; cbn [negb].
    - apply node_eqb_eq in En as <-. exists 0, n, (s_rewriter s1). split; [by destruct s |]. split; [exact Hr |]. split; [exact Hn |]. split; [done |]. by split.
    - destruct (rewrite_step t s1 Htd Hr) as (N2 & r & w & H2 & Hw & Hrd & Hre & Hrb). exists N2, r, w. split; [done |]. split; [done |]. split; [done |]. split; [done |]. split; [| done].
      intros ->. by rewrite node_eqb_refl in En. }
  exists (N1 `max` N2), r, (put_const (emptied (constantPropagations s)) (put_rewriter w s1)).
  split; [| split; [by split | split; [done | split; [done | split; [done | split; [| split; [| split]]]]]]].
  - intros F HF. unfold simplify. rewrite (sm_bind _ _ _ t s1) by (unfold on_member; by rewrite H1 by lia). rewrite (sm_bind _ _ _ r (put_rewriter w s1)) by (apply H2; lia).
    by rewrite constant_step.
  - intros e He. rewrite Hre. symmetry. by apply Ht.
  - intros e e' He. rewrite !Hre. by apply Hoff.
  - intros Hfree'. by apply Hrn, Hid.
  - destruct (Hrel (proj1 Hn)) as [_ ?]. lia.
Qed.

(** ** The learned literals *)
Lemma max_children_large : (100 < MAX_CHILDREN)%Z.
Proof. done. Qed.
Lemma dom_keys a m x : mok a m -> x ∈ a_dom a -> is_key x.
Proof.
  intros [Hs _] Hx. destruct (proj2 (state_dom _ _ _ _ _ _ _ Hs x) Hx) as [t Ht]. by destruct (state_entry _ _ _ _ _ _ _ Hs _ _ Ht) as [[[? _] _] _].
Qed.
Lemma literal_bdom x b : bdom (literal (Var x BOOLEAN_TYPE) b).
Proof. split; [by destruct b |]. pose proof max_children_large. destruct b; cbn [literal notNode brank sum_list_with kind_cost]; lia. Qed.
Lemma literal_entry x b : entry_ok formula_rel is_key rank (Var x BOOLEAN_TYPE) (ConstBool b).
Proof. split; [split; [done | by left] |]. intros _. split; [done | cbn; lia]. Qed.
Lemma literal_free a m x b y : mok a m -> Var x BOOLEAN_TYPE ∉ a_dom a -> occurs y (literal (Var x BOOLEAN_TYPE) b) -> y ∉ a_dom a.
Proof.
  intros Hm Hx Ho Hy. destruct b; cbn [literal] in Ho; [by apply occurs_leaf in Ho as -> |].
  apply occurs_inv in Ho as [->|(c & ->%list_elem_of_singleton & Ho)]; [by apply (dom_keys a m) in Hy | by apply occurs_leaf in Ho as ->].
Qed.
Lemma solve_ok a m x b : mok a m -> Var x BOOLEAN_TYPE ∉ a_dom a ->
  exists m', solve isTheoryEnabled other_ppAssert (literal (Var x BOOLEAN_TYPE) b) m = Ok (PP_ASSERT_STATUS_SOLVED, m') /\ mok (a_add (Var x BOOLEAN_TYPE) (ConstBool b) true a) m'.
Proof.
  intros Hm Hx. destruct (addSubstitution_ok _ _ _ a m (Var x BOOLEAN_TYPE) (ConstBool b) true Hm Hx (literal_entry x b)) as (m' & E & Hm'). exists m'. split; [| done].
  unfold solve. rewrite (sm_bind _ _ _ (Var x BOOLEAN_TYPE) m) by by destruct b.
  rewrite (sm_lift _ _ _ THEORY_BOOL) by done. rewrite (sm_lift _ _ _ tt) by by rewrite Hbool.
  change (bool_decide (THEORY_BOOL = THEORY_BOOL)) with true. cbv iota.
  destruct b; unfold TheoryBool_ppAssert, literal, notNode; [by rewrite (sm_bind _ _ _ tt m') |].
  rewrite (sm_lift _ _ _ (Var x BOOLEAN_TYPE)) by done. cbn [isVarNode]. by rewrite (sm_bind _ _ _ tt m').
Qed.
Definition equations (l : list (Node * bool)) : list (Node * Node) := map (fun '(n, b) => (n, ConstBool b)) l.
Definition a_learn (l : list (Node * bool)) (a : Abstract) : Abstract := foldl (fun a '(n, b) => a_add n (ConstBool b) true a) a l.
Lemma literals_ok l : forall i a s, phase a s -> drop i (learned s) = map (fun '(n, b) => literal n b) l -> NoDup (map fst l) ->
  (forall n b, (n, b) ∈ l -> (exists x, n = Var x BOOLEAN_TYPE) /\ n ∉ a_dom a) ->
  exists N s', (forall F, N <= F -> literals_loop isTheoryEnabled other_ppAssert F (length l) i 0 s = Ok (Some 0, s')) /\ phase (a_learn l a) s' /\ frame s s' /\ d_assertions s' = d_assertions s.
Proof.
  induction l as [|[n b] l IH]; intros i a s Hp Hl Hnd Hall; [by exists 0, s |].
  destruct (Hall n b) as [[x ->] Hx]; [by left |]. apply NoDup_cons in Hnd as [Hnx Hnd].
  destruct (simplify_ok (literal (Var x BOOLEAN_TYPE) b) a s Hp (literal_bdom x b)) as (N1 & r & s1 & H1 & Hp1 & Hf1 & Ha1 & _ & _ & _ & Hr & _).
  rewrite Hr in H1 by (intros y; by apply (literal_free a (newSubstitutions s)), Hx; apply Hp). clear Hr.
  destruct (solve_ok a (newSubstitutions s1) x b (phase_map _ _ Hp1) Hx) as (m' & H2 & Hm').
  assert (Hl1 : learned s1 = learned s) by (unfold learned; destruct Hf1 as (_ & _ & _ & -> & _); done).
  destruct (IH (S i) (a_add (Var x BOOLEAN_TYPE) (ConstBool b) true a) (put_new m' s1)) as (N2 & s2 & H3 & Hp2 & Hf2 & Ha2).
  - destruct Hp1 as [_ _ Hc Hw]. by split.
  - change (learned (put_new m' s1)) with (learned s1). rewrite Hl1. replace (S i) with (i + 1) by lia. rewrite <- drop_drop, Hl. done.
  - done.
  - intros n' b' Hin. destruct (Hall n' b') as [? ?]; [by right |]. split; [done |]. cbn. intros [->|?]%elem_of_cons; [| done].
    apply Hnx, list_elem_of_fmap. by exists (Var x BOOLEAN_TYPE, b').
  - exists (N1 `max` N2), s2. split; [| split; [done | split; [etrans; [exact Hf1 | exact Hf2] | by rewrite Ha2]]].
    intros F HF. cbn [length literals_loop]. rewrite (sm_bind _ _ _ (learned s) s) by done.
    assert (Hv : learned s !! i = Some (literal (Var x BOOLEAN_TYPE) b)) by (rewrite <- (Nat.add_0_r i), <- lookup_drop, Hl; done).
    rewrite (sm_lift _ _ _ _ (vget_Ok _ _ _ Hv)). rewrite (sm_bind _ _ _ (literal (Var x BOOLEAN_TYPE) b) s1) by (apply H1; lia).
    replace (isConst (literal (Var x BOOLEAN_TYPE) b)) with false by by destruct b.
    rewrite (sm_bind _ _ _ PP_ASSERT_STATUS_SOLVED (put_new m' s1)) by (unfold on_member; by rewrite H2). apply H3. lia.
Qed.
Lemma a_learn_eqs l : forall a, a_eqs (a_learn l a) = rev (equations l) ++ a_eqs a /\ a_dom (a_learn l a) = rev (map fst l) ++ a_dom a.
Proof.
  induction l as [|[n b] l IH]; intros a; [done |]. cbn [a_learn foldl]. destruct (IH (a_add n (ConstBool b) true a)) as [H1 H2].
  unfold a_learn in *. rewrite H1, H2. cbn. by rewrite <- !app_assoc.
Qed.

(** ** The assertions *)
(** A simplified assertion: a formula of the same value under the equations, independent of the keys. *)
Definition simplified (a : Abstract) (n r : Node) : Prop :=
  bdom r /\ (forall e, sat (a_eqs a) e -> eval e r = eval e n) /\ (forall e e', agree_off (a_dom a) e e' -> eval e r = eval e' r) /\ brank r <= brank n.
Lemma assertions_ok a k : forall i acc s, phase a s -> Forall bdom (d_assertions s) -> i + k = length (d_assertions s) ->
  exists N acc' s' new, (forall F, N <= F -> assertions_loop F k i acc s = Ok (acc', s')) /\ phase a s' /\ frame s s' /\
    d_assertions s' = take i (d_assertions s) ++ new /\ Forall2 (simplified a) (drop i (d_assertions s)) new.
Proof.
  induction k as [|k IH]; intros i acc s Hp Hb Hlen.
  - exists 0, acc, s, []. split; [done |]. split; [done |]. split; [done |]. rewrite app_nil_r, take_ge, drop_ge by lia. by split.
  - destruct (lookup_lt_is_Some_2 (d_assertions s) i) as [n Hn]; [lia |]. assert (Hbn : bdom n) by by apply (proj1 (Forall_lookup _ _) Hb i n Hn).
    destruct (simplify_ok n a s Hp Hbn) as (N1 & r & s1 & H1 & Hp1 & Hf1 & Ha1 & Hr1 & Hr2 & Hr3 & _ & Hr4).
    set (v := <[i:=r]> (d_assertions s)). set (s2 := put_assertions v s1).
    assert (Hl : i < length (d_assertions s)) by lia.
    destruct (IH (S i) (r :: acc) s2) as (N2 & acc' & s' & new & H2 & Hp' & Hf' & Ha' & Hnew).
    + destruct Hp1 as [P1 P2 P3 P4]. by split.
    + cbn. by apply Forall_insert.
    + cbn. subst v. rewrite length_insert. lia.
    + exists (N1 `max` N2), acc', s', (r :: new). split; [| split; [done | split; [etrans; [exact Hf1 | exact Hf'] | split]]].
      * intros F HF. cbn [assertions_loop]. rewrite (sm_bind _ _ _ (d_assertions s) s) by done. rewrite (sm_lift _ _ _ _ (vget_Ok _ _ _ Hn)).
        rewrite (sm_bind _ _ _ r s1) by (apply H1; lia). rewrite (sm_bind _ _ _ tt s2); [apply H2; lia |].
        unfold replace. rewrite (sm_bind _ _ _ (d_assertions s) s1) by (unfold gets; by rewrite Ha1). by rewrite (sm_lift _ _ _ _ (vset_Ok _ _ _ Hl)).
      * rewrite Ha'. cbn. subst v. rewrite (take_S_r _ _ r) by by apply list_lookup_insert_eq. rewrite take_insert_ge by lia. by rewrite <- app_assoc.
      * rewrite (drop_S _ _ _ Hn). constructor; [by split |]. revert Hnew. cbn. subst v. by rewrite drop_insert_lt by lia.
Qed.

(** ** The substitutions *)
(** The entries with their right-hand sides substituted, one for each key. *)
Definition solved (a : Abstract) (p : Node * Node) : Prop := entry_ok formula_rel is_key rank (fst p) (snd p) /\ (forall e, sat (a_eqs a) e -> eval e (fst p) = eval e (snd p)) /\
  (bformula (fst p) = true -> forall e e', agree_off (a_dom a) e e' -> eval e (snd p) = eval e' (snd p)).
Lemma solved_entries_ok a ks : forall s, phase a s -> ks ⊆ a_dom a ->
  exists N entries s', (forall F, N <= F -> solved_entries F ks s = Ok (entries, s')) /\ phase a s' /\ frame s s' /\ d_assertions s' = d_assertions s /\
    map fst entries = ks /\ Forall (solved a) entries.
Proof.
  induction ks as [|x ks IH]; intros s Hp Hks; [by exists 0, [], s |].
  assert (Hx : x ∈ a_dom a) by (apply Hks; by left). destruct Hp as [Hm Hex Hc Hw]. pose proof Hm as [Hs _].
  destruct (proj2 (state_dom _ _ _ _ _ _ _ Hs x) Hx) as [t Ht]. destruct (state_entry _ _ _ _ _ _ _ Hs _ _ Ht) as [He Hsame].
  destruct (apply_ok _ _ _ a _ t Hm) as (N1 & r & m' & H1 & Hm' & (Hr & _ & Hnorm) & Her). destruct (Hnorm Hex) as [Hfree _].
  destruct (IH (put_new m' s)) as (N2 & entries & s' & H2 & Hp' & Hf' & Ha' & Hk' & Hall); [by split | intros y Hy; apply Hks; by right |].
  exists (N1 `max` N2), ((x, r) :: entries), s'. split; [| split; [done | split; [exact Hf' | split; [exact Ha' | split; [cbn; by rewrite Hk' |]]]]].
  - intros F HF. cbn [solved_entries]. rewrite (sm_bind _ _ _ (newSubstitutions s) s) by done. cbn in Ht. rewrite (sm_lift _ _ _ t) by by rewrite Ht.
    rewrite (sm_bind _ _ _ r (put_new m' s)) by (unfold on_member; by rewrite H1 by lia). by rewrite (sm_bind _ _ _ entries s') by (apply H2; lia).
  - constructor; [| done]. split; [by apply Her |]. split; [intros e He'; cbn; rewrite <- (Hr e He'); by apply Hsame |].
    cbn. intros Hb e e' Hoff. destruct (Her x He) as [_ Hrel]. by apply (agree_eval (a_dom a)); [| apply Hrel |].
Qed.
(** The entries given to the model of the theories. *)
Definition a_model (entries : list (Node * Node)) (a : Abstract) : Abstract := foldl (fun a '(x, t) => a_add x t true a) a entries.
Lemma model_ok entries : forall am s, mok am (theory_model s) -> NoDup (map fst entries) -> (forall x t, (x, t) ∈ entries -> x ∉ a_dom am /\ entry_ok formula_rel is_key rank x t) ->
  exists m', model_substitutions entries s = Ok (tt, put_model m' s) /\ mok (a_model entries am) m'.
Proof.
  induction entries as [|[x t] entries IH]; intros am s Hm Hnd Hall; [exists (theory_model s); by destruct s |].
  apply NoDup_cons in Hnd as [Hx Hnd]. destruct (Hall x t) as [Hd He]; [by left |].
  destruct (addSubstitution_ok _ _ _ am _ x t true Hm Hd He) as (m1 & H1 & Hm1).
  destruct (IH (a_add x t true am) (put_model m1 s)) as (m' & H2 & Hm').
  - done.
  - done.
  - intros y u Hy. destruct (Hall y u) as [? ?]; [by right |]. split; [| done]. cbn. intros [->|?]%elem_of_cons; [| done]. apply Hx, list_elem_of_fmap. by exists (x, u).
  - exists m'. split; [| done]. cbn [model_substitutions]. rewrite (sm_bind _ _ _ tt (put_model m1 s)); [exact H2 |].
    unfold on_member, TheoryModel_addSubstitution, gets, mbind, SM_bind, id, hasSubstitution.
    destruct (node_find (d_substitutions (theory_model s)) x) as [u|] eqn:Eu; [| by rewrite H1].
    destruct Hd. destruct Hm as [Hs _]. apply (state_dom _ _ _ _ _ _ _ Hs). by eauto.
Qed.

(** ** The assertion that holds the substitutions *)
Lemma eval_and e cs : arity_ok AND (length cs) = true -> Forall (fun c => exists b, eval e c = Some (VBool b)) cs ->
  eval e (MkNode AND cs) = Some (VBool true) <-> Forall (fun c => eval e c = Some (VBool true)) cs.
Proof.
  intros Ha Hcs. assert (exists bs, Forall2 (fun c b => eval e c = Some (VBool b)) cs bs) as [bs Hbs].
  { clear Ha. induction Hcs as [|c cs [b Hb] _ [bs IH]]; [by exists [] |]. exists (b :: bs). by constructor. }
  assert (eval e (MkNode AND cs) = Some (VBool (forallb id bs))) as ->.
  { apply eval_MkNode. split; [done |]. exists (map VBool bs). split; [by apply Forall2_fmap_r |]. cbn [eval_kind]. apply bind_Some. exists bs. by rewrite as_bools_Some. }
  clear Ha Hcs. induction Hbs as [|c b cs bs Hc _ IH]; [by split |]. cbn. rewrite Forall_cons, Hc, <- IH. destruct b; cbn; [by split; [| intros [_ ?]] |]. split; [done | by intros [? _]].
Qed.
Lemma eval_equation e x t a b : eval e x = Some (VBool a) -> eval e t = Some (VBool b) ->
  exists c, eval e (MkNode EQUAL [x; t]) = Some (VBool c) /\ (c = true <-> eval e x = eval e t).
Proof.
  intros Hx Ht. exists (bool_decide (VBool a = VBool b)). split; [cbn; by rewrite Hx, Ht |]. rewrite Hx, Ht, bool_decide_eq_true. split; congruence.
Qed.
(** The entries as equations between formulas, with room for them in one node. *)
Definition entry_formula (p : Node * Node) : Prop := bformula (fst p) = true /\ bformula (snd p) = true /\ brank (fst p) <= 2 /\ brank (snd p) <= 2.
(** What becomes of the assertions [v] at the index of the substitutions: nothing outside of incremental mode, and otherwise the entries are added there. *)
Definition kept (idx : nat) (entries : list (Node * Node)) (v v' : list Node) : Prop :=
  if 0 <? idx then exists a c, v !! idx = Some a /\ v' = <[idx:=c]> v /\ bdom c /\
    forall e, eval e c = Some (VBool true) <-> eval e a = Some (VBool true) /\ forall x t, (x, t) ∈ entries -> eval e x = eval e t
  else v' = v.
Lemma index_ok idx entries a s : d_assertions s !! idx = Some a -> bdom a -> Forall entry_formula entries ->
  (Z.of_nat (2 + brank a + 10 * length entries) < MAX_CHILDREN)%Z -> rready (s_rewriter s) ->
  exists N c w, (forall F, N <= F -> (v ← gets d_assertions; a ← lift (vget v idx);
      replace_conjunction F idx (a :: map (fun '(x, t) => MkNode EQUAL [x; t]) entries)) s = Ok (tt, put_assertions (<[idx:=c]> (d_assertions s)) (put_rewriter w s))) /\
    rready w /\ bdom c /\ forall e, eval e c = Some (VBool true) <-> eval e a = Some (VBool true) /\ forall x t, (x, t) ∈ entries -> eval e x = eval e t.
Proof.
  intros Ha Hb Hen Hsz Hw. set (eqns := map (fun '(x, t) => MkNode EQUAL [x; t]) entries).
  assert (Hlen : length eqns = length entries) by apply length_map.
  assert (Heqn : Forall (fun q => bformula q = true) eqns /\ sum_list_with brank eqns <= 10 * length entries).
  { clear -Hen. subst eqns. induction Hen as [|[x t] l (H1 & H2 & H3 & H4) _ [IH1 IH2]]; [done |]. cbn [map sum_list_with length fst snd] in *. split.
    - constructor; [| done]. apply bformula_node; [done |]. split; [done |]. by repeat constructor.
    - cbn. lia. }
  destruct Heqn as [Hq Hrk]. destruct entries as [|p entries].
  { exists 0, a, (s_rewriter s). split; [| split; [done | split; [done |]]].
    - intros F _. rewrite (sm_bind _ _ _ (d_assertions s) s) by done. rewrite (sm_lift _ _ _ _ (vget_Ok _ _ _ Ha)).
      cbn. rewrite list_insert_id by done. by destruct s.
    - intros e. split; [intros H; split; [done |]; intros x t Hx; by apply not_elem_of_nil in Hx | by intros [? _]]. }
  assert (Hd : bdom (MkNode AND (a :: eqns))).
  { split; [apply bformula_node; [done |]; split; [subst eqns; done |]; constructor; [apply Hb | done] |].
    cbn [brank kind_cost sum_list_with]. lia. }
  destruct (rewrite_step (MkNode AND (a :: eqns)) s Hd Hw) as (N & c & w & HF & Hw' & Hc & Hev & _).
  exists N, c, w. split; [| split; [done | split; [done |]]].
  - intros F HN. rewrite (sm_bind _ _ _ (d_assertions s) s) by done. rewrite (sm_lift _ _ _ _ (vget_Ok _ _ _ Ha)).
    unfold replace_conjunction. replace (1 <? length (a :: eqns)) with true by (cbn [length]; rewrite Hlen; done).
    rewrite (sm_lift _ _ _ (MkNode AND (a :: eqns))).
    2:{ unfold mkNode. rewrite (proj2 (Z.leb_le _ _)); [done |]. cbn [length]. rewrite Hlen. pose proof (brank_pos a). cbn [length] in Hsz |- *. lia. }
    rewrite (sm_bind _ _ _ c (put_rewriter w s)) by by apply HF. unfold replace. rewrite (sm_bind _ _ _ (d_assertions s) (put_rewriter w s)) by done.
    by rewrite (sm_lift _ _ _ (<[idx:=c]> (d_assertions s))) by (apply vset_Ok; by eapply lookup_lt_Some).
  - intros e. rewrite Hev, eval_and; [| done | constructor; [apply bformula_value, Hb | eapply Forall_impl; [exact Hq |]; intros q; apply bformula_value]].
    rewrite Forall_cons. apply and_iff_compat_l. clear -Hen. subst eqns. generalize dependent (p :: entries). intros l Hen. rewrite Forall_forall. pose proof (proj1 (Forall_forall _ _) Hen) as Hen'. clear Hen. rename Hen' into Hen. split.
    + intros H x t Hx. destruct (Hen _ Hx) as (H1 & H2 & _). destruct (bformula_value e x H1) as [b1 E1]. destruct (bformula_value e t H2) as [b2 E2].
      destruct (eval_equation e x t b1 b2 E1 E2) as (c & Hc & Hiff). apply Hiff. assert (Some (VBool c) = Some (VBool true)) by (rewrite <- Hc; apply H, list_elem_of_fmap; by exists (x, t)). congruence.
    + intros H q ([x t] & -> & Hx)%list_elem_of_fmap. destruct (Hen _ Hx) as (H1 & H2 & _). destruct (bformula_value e x H1) as [b1 E1]. destruct (bformula_value e t H2) as [b2 E2].
      destruct (eval_equation e x t b1 b2 E1 E2) as (c & Hc & Hiff). rewrite Hc, (proj2 Hiff (H x t Hx)). done.
Qed.

(** ** The round *)
Definition holds_all (A : list Node) (e : env) : Prop := forall a, a ∈ A -> eval e a = Some (VBool true).
(** The propagator is new, or [finish] makes it so. *)
Definition idle (s : SmtEnginePrivate) : Prop :=
  if d_propagatorNeedsFinish s then CircuitPropagator.finish (d_propagator s) = Ok (tt, new_CircuitPropagator) else d_propagator s = new_CircuitPropagator.
(** Incremental mode: the assertion that holds the substitutions has room for one more equation for each variable of the others. *)
Definition index_room (s : SmtEnginePrivate) : Prop :=
  0 < d_substitutionsIndex s -> exists a, d_assertions s !! d_substitutionsIndex s = Some a /\
    (Z.of_nat (2 + brank a + 10 * sum_list_with brank (to_assert s)) < MAX_CHILDREN)%Z.
Lemma to_assert_in s a : a ∈ to_assert s -> a ∈ d_assertions s.
Proof.
  unfold to_assert. destruct (0 <? d_substitutionsIndex s); [| done]. rewrite elem_of_app. intros [H|H]; [| by apply (subseteq_drop _ _ a H)].
  rewrite <- (take_drop (d_substitutionsIndex s) (d_assertions s)). apply elem_of_app. by left.
Qed.
Lemma to_assert_bdom s : Forall bdom (d_assertions s) -> Forall bdom (to_assert s).
Proof. intros H. rewrite Forall_forall in *. intros a Ha%to_assert_in. by apply H. Qed.
(** Distinct variables of some formulas are no more than these are large. *)
Fixpoint leaf_list (n : Node) : list Node := match n with MkNode _ ch => concat (map leaf_list ch) | _ => [n] end.
Lemma leaf_list_occurs x n : occurs (Var x BOOLEAN_TYPE) n -> Var x BOOLEAN_TYPE ∈ leaf_list n.
Proof.
  induction n as [y t|b|v|k ch IH] using node_ind'; intros [E|(c & Hc & Ho)]%occurs_inv; try discriminate E; try (by apply not_elem_of_nil in Hc).
  - rewrite E. by left.
  - cbn. rewrite Forall_forall in IH. apply list_elem_of_In, in_concat. exists (leaf_list c). split; [by apply in_map, list_elem_of_In | by apply list_elem_of_In, IH].
Qed.
Lemma leaf_list_length n : length (leaf_list n) <= brank n.
Proof.
  induction n as [y t|b|v|k ch IH] using node_ind'; cbn; try lia.
  assert (length (concat (map leaf_list ch)) <= sum_list_with brank ch) by (induction IH; cbn; [lia |]; rewrite length_app; lia). lia.
Qed.
Lemma distinct_variables l A : NoDup l -> (forall n, n ∈ l -> (exists x, n = Var x BOOLEAN_TYPE) /\ exists a, a ∈ A /\ occurs n a) -> length l <= sum_list_with brank A.
Proof.
  intros Hnd Hl. assert (length (concat (map leaf_list A)) <= sum_list_with brank A).
  { clear. induction A as [|a A IH]; cbn; [lia |]. rewrite length_app. pose proof (leaf_list_length a). lia. }
  enough (length l <= length (concat (map leaf_list A))) by lia. apply submseteq_length, NoDup_submseteq; [done |].
  intros n Hn. destruct (Hl n Hn) as [[x ->] (a & Ha & Ho)]. apply list_elem_of_In, in_concat. exists (leaf_list a).
  split; [by apply in_map, list_elem_of_In | by apply list_elem_of_In, leaf_list_occurs].
Qed.
Record smt_ok (atop amodel : Abstract) (s : SmtEnginePrivate) : Prop := {
  smt_formulas : Forall bdom (d_assertions s);
  smt_end : 1 <= d_realAssertionsEnd s <= length (d_assertions s);
  smt_index : index_room s;
  smt_idle : idle s;
  smt_rewriter : rready (s_rewriter s);
  smt_top : mok atop (d_topLevelSubstitutions s);
  smt_model : mok amodel (theory_model s);
  smt_free a x : a ∈ to_assert s -> occurs x a -> x ∉ a_dom atop /\ x ∉ a_dom amodel
}.
Definition subformula_of (A : list Node) (n : Node) : Prop := bformula n = true /\ exists a, a ∈ A /\ occurs n a.
Lemma subformula_child A n c : subformula_of A n -> c ∈ children n -> subformula_of A c.
Proof.
  intros [Hn (a & Ha & Ho)] Hc. split; [by apply (bformula_child n) |]. exists a. split; [done |].
  assert (Htrans : forall y m, occurs y m -> forall z, occurs z y -> occurs z m).
  { intros y m Hy z Hz. destruct Hy as [->|Hy]; [done |]. right. revert Hz. induction Hy as [m Hm|m d Hd _ IHd]; intros Hz; [| by apply (below_deep _ m d); [| apply IHd]].
    destruct Hz as [->|Hz]; [by apply below_child | by apply (below_deep _ m y)]. }
  apply (Htrans n a Ho). right. by apply below_child.
Qed.
Lemma atom_variable A n : subformula_of A n -> is_atom n = true -> exists x, n = Var x BOOLEAN_TYPE.
Proof.
  intros [Hn _] Ha. unfold is_atom in Ha. rewrite (formula_theory n Hn) in Ha. by apply bformula_var.
Qed.
(** The first step: the propagator is made ready and runs. *)
Lemma propagation_ok s : Forall bdom (to_assert s) -> idle s ->
  exists c p s1, (forall B (k : bool -> NM B), (needsFinish ← gets d_propagatorNeedsFinish;
      _ ← (if needsFinish : bool then _ ← on_member d_propagator put_propagator CircuitPropagator.finish; modify (put_finish false) else mret tt);
      toAssert ← gets to_assert; conflict ← on_member d_propagator put_propagator (propagate_assertions toAssert); k conflict) s = k c (put_propagator p s1)) /\
    s1 = put_finish false (put_propagator new_CircuitPropagator s) /\
    values_ok (to_assert s) p /\ graph_ok (subformula_of (to_assert s)) [] (d_seen p) (d_backEdges p) /\ c = d_conflict p /\ d_saved p = [(false, [], [])] /\
    (c = false -> learned_upto (length (d_propagationQueue p)) p).
Proof.
  intros Hb Hidle. destruct (round_ok (subformula_of (to_assert s)) (subformula_child (to_assert s)) (to_assert s)) as (c & p & E & V & G & Hc & Hs & Hl).
  { rewrite Forall_forall in *. intros a Ha. destruct (Hb a Ha) as [Hf _]. split; [intros e; by apply bformula_value |]. split; [done |]. exists a. split; [done | by left]. }
  exists c, p, (put_finish false (put_propagator new_CircuitPropagator s)). split; [| by split; [| split; [| split; [| split; [| split; [| intros H; apply (Hl H)]]]]]].
  intros B k. rewrite (sm_bind _ _ _ (d_propagatorNeedsFinish s) s) by done.
  rewrite (sm_bind _ _ _ tt (put_finish false (put_propagator new_CircuitPropagator s))).
  - rewrite (sm_bind _ _ _ (to_assert s) (put_finish false (put_propagator new_CircuitPropagator s))).
    + by rewrite (sm_bind _ _ _ c (put_propagator p (put_finish false (put_propagator new_CircuitPropagator s)))) by (unfold on_member; cbn; by rewrite E).
    + done.
  - unfold idle in Hidle. destruct (d_propagatorNeedsFinish s) eqn:Ef.
    + rewrite (sm_bind _ _ _ tt (put_propagator new_CircuitPropagator s)) by (unfold on_member; by rewrite Hidle). done.
    + destruct s. cbn in *. by subst.
Qed.

(** What a round leaves that found no conflict: the values [l] of variables of the assertions. *)
Record outcome (s s' : SmtEnginePrivate) (l : list (Node * bool)) (atop amodel : Abstract) : Prop := {
  out_values : valuation (equations l);
  out_vars n b : (n, b) ∈ l -> exists a, a ∈ to_assert s /\ occurs n a;
  out_implied e : holds_all (d_assertions s) e -> sat (equations l) e;
  out_end : d_realAssertionsEnd s' = d_realAssertionsEnd s /\ d_substitutionsIndex s' = d_substitutionsIndex s;
  out_rewriter : rready (s_rewriter s');
  out_top : mok (a_merge (a_learn l a_empty) true atop) (d_topLevelSubstitutions s');
  out_assertions : exists entries new, Permutation (map fst entries) (map fst l) /\ Forall (solved (a_learn l a_empty)) entries /\
    Forall2 (simplified (a_learn l a_empty)) (d_assertions s) new /\ kept (d_substitutionsIndex s) entries new (d_assertions s') /\
    if 0 <? d_substitutionsIndex s then theory_model s' = theory_model s else mok (a_model entries amodel) (theory_model s')
}.
Lemma new_phase s : rready (s_rewriter s) -> phase a_empty (put_const new_SubstitutionMap (put_new new_SubstitutionMap s)).
Proof. intros H. split; [apply new_map_ok | done | done | done]. Qed.
Lemma learn_dom l x : x ∈ a_dom (a_learn l a_empty) <-> x ∈ map fst l.
Proof. destruct (a_learn_eqs l a_empty) as [_ ->]. by rewrite app_nil_r, in_rev_list. Qed.
Lemma learn_sat l e : sat (a_eqs (a_learn l a_empty)) e <-> sat (equations l) e.
Proof.
  destruct (a_learn_eqs l a_empty) as [-> _]. rewrite app_nil_r. unfold sat. by setoid_rewrite in_rev_list.
Qed.
Lemma keys_learned l m : mok (a_learn l a_empty) m -> NoDup (map fst l) -> Permutation (map fst (d_substitutions m)) (map fst l).
Proof.
  intros [Hs _] Hnd. apply NoDup_Permutation; [apply (state_once _ _ _ _ _ _ _ Hs) | done |]. intros x. rewrite <- learn_dom, <- node_find_keys. apply (state_dom _ _ _ _ _ _ _ Hs).
Qed.
Lemma equations_fst l : map fst (equations l) = map fst l.
Proof. unfold equations. rewrite map_map. apply map_ext. by intros []. Qed.
Lemma valued_entries l entries : valuation (equations l) -> Permutation (map fst entries) (map fst l) -> Forall (solved (a_learn l a_empty)) entries ->
  Forall entry_formula entries /\ forall e, (forall x t, (x, t) ∈ entries -> eval e x = eval e t) <-> sat (equations l) e.
Proof.
  intros Hval Hperm Hsol. pose proof Hval as [Hnd Hall].
  assert (Hkey : forall x t, (x, t) ∈ entries -> exists y, x = Var y BOOLEAN_TYPE).
  { intros x t Hx. assert (Hin : x ∈ map fst l) by (rewrite <- Hperm; apply list_elem_of_fmap; by exists (x, t)).
    apply list_elem_of_fmap in Hin as ([n b] & -> & Hn). apply (Hall n (ConstBool b)). apply list_elem_of_fmap. by exists (n, b). }
  rewrite Forall_forall in Hsol. split.
  - rewrite Forall_forall. intros [x t] Hx. destruct (Hkey x t Hx) as [y ->]. destruct (Hsol _ Hx) as [[_ Hrel] _]. cbn in Hrel.
    destruct (Hrel eq_refl) as [Ht Hr]. split; [done |]. split; [done |]. cbn [fst snd brank] in *. lia.
  - intros e. split; intros H.
    + intros n t Hn. pose proof Hn as Hn'. apply list_elem_of_fmap in Hn' as ([m b] & [= -> ->] & Hm).
      assert (Hin : m ∈ map fst entries) by (rewrite Hperm; apply list_elem_of_fmap; by exists (m, b)).
      apply list_elem_of_fmap in Hin as ([m' u] & -> & Hu). cbn [fst] in *. destruct (Hsol _ Hu) as (_ & Hv & Hoff). cbn [fst snd] in *.
      destruct (Hkey _ _ Hu) as [y ->]. pose proof (update_sat (equations l) e Hval) as Hup.
      rewrite (H _ _ Hu), (Hoff eq_refl e (update_env (equations l) e)); [| intros z Hz; apply update_agree; rewrite equations_fst; by rewrite <- learn_dom].
      rewrite <- Hv; [exact (Hup _ _ Hn) | by apply learn_sat].
    + intros x t Hx. destruct (Hsol _ Hx) as (_ & Hv & _). by apply Hv, learn_sat.
Qed.
(** The entries go to the model of the theories or, in incremental mode, to the assertion at the index. *)
Lemma index_step entries amodel a s : phase a s -> mok amodel (theory_model s) -> NoDup (map fst entries) ->
  (forall x t, (x, t) ∈ entries -> x ∉ a_dom amodel /\ entry_ok formula_rel is_key rank x t) -> Forall entry_formula entries -> Forall bdom (d_assertions s) ->
  (0 < d_substitutionsIndex s -> exists n, d_assertions s !! d_substitutionsIndex s = Some n /\ (Z.of_nat (2 + brank n + 10 * length entries) < MAX_CHILDREN)%Z) ->
  exists N s', (forall F B (k : NM B), N <= F -> (index ← gets d_substitutionsIndex;
      _ ← (if 0 <? index then v ← gets d_assertions; a ← lift (vget v index); replace_conjunction F index (a :: map (fun '(x, t) => MkNode EQUAL [x; t]) entries)
           else model_substitutions entries); k) s = k s') /\
    phase a s' /\ (d_realAssertionsEnd s' = d_realAssertionsEnd s /\ d_substitutionsIndex s' = d_substitutionsIndex s /\
      d_topLevelSubstitutions s' = d_topLevelSubstitutions s /\ d_propagator s' = d_propagator s) /\
    kept (d_substitutionsIndex s) entries (d_assertions s) (d_assertions s') /\
    if 0 <? d_substitutionsIndex s then theory_model s' = theory_model s else mok (a_model entries amodel) (theory_model s').
Proof.
  intros Hp Hm Hnd Hall Hen Hb Hroom. unfold kept. destruct (0 <? d_substitutionsIndex s) eqn:Ei.
  - destruct (Hroom (proj1 (Nat.ltb_lt _ _) Ei)) as (n & Hn & Hsz).
    destruct (index_ok (d_substitutionsIndex s) entries n s Hn) as (N & c & w & HF & Hw & Hc & Hev); [by apply (proj1 (Forall_lookup _ _) Hb _ _ Hn) | done | done | apply Hp |].
    exists N, (put_assertions (<[d_substitutionsIndex s:=c]> (d_assertions s)) (put_rewriter w s)). split; [| split; [destruct Hp; by split | split; [done | split; [by exists n, c | done]]]].
    intros F B k HN. rewrite (sm_bind _ _ _ (d_substitutionsIndex s) s) by done. rewrite Ei. by rewrite (sm_bind _ _ _ tt _ (HF F HN)).
  - destruct (model_ok entries amodel s Hm Hnd Hall) as (mm & H3 & Hmm). exists 0, (put_model mm s).
    split; [| split; [destruct Hp; by split | split; [done | by split]]].
    intros F B k _. rewrite (sm_bind _ _ _ (d_substitutionsIndex s) s) by done. rewrite Ei. by rewrite (sm_bind _ _ _ tt (put_model mm s)) by exact H3.
Qed.
(** The end of the round, when the literals have been solved. *)
Definition after_literals (F : nat) : NM bool :=
  lits ← gets learned; _ ← modify (put_learned (take 0 lits));
  n ← gets (fun s => length (d_assertions s));
  s ← assertions_loop F n 0 [];
  m ← gets newSubstitutions;
  entries ← solved_entries F (map fst (d_substitutions m));
  index ← gets d_substitutionsIndex;
  _ ← (if 0 <? index then
         v ← gets d_assertions; a ← lift (vget v index);
         replace_conjunction F index (a :: map (fun '(x, t) => MkNode EQUAL [x; t]) entries)
       else model_substitutions entries);
  end_ ← gets d_realAssertionsEnd;
  last ← lift (match end_ with O => Throw OutOfBounds | S last => Ok last end);
  v ← gets d_assertions; a ← lift (vget v last);
  lits ← gets learned;
  '(ls, s) ← learned_conjuncts F lits s;
  _ ← modify (put_learned []);
  c ← gets constantPropagations;
  cs ← constant_conjuncts F (d_substitutions c) s;
  m ← gets newSubstitutions;
  _ ← on_member d_topLevelSubstitutions put_top (addSubstitutions m true);
  _ ← replace_conjunction F last (a :: ls ++ cs);
  _ ← modify (put_finish true);
  mret true.
Lemma after_literals_ok l s atop amodel : phase (a_learn l a_empty) s -> valuation (equations l) ->
  Forall bdom (d_assertions s) -> 1 <= d_realAssertionsEnd s <= length (d_assertions s) ->
  (0 < d_substitutionsIndex s -> exists n, d_assertions s !! d_substitutionsIndex s = Some n /\ (Z.of_nat (2 + brank n + 10 * length l) < MAX_CHILDREN)%Z) ->
  mok atop (d_topLevelSubstitutions s) -> mok amodel (theory_model s) -> (forall x, x ∈ map fst l -> x ∉ a_dom atop /\ x ∉ a_dom amodel) ->
  d_saved (d_propagator s) = [(false, [], [])] ->
  exists N s', (forall F, N <= F -> after_literals F s = Ok (true, s')) /\ d_propagatorNeedsFinish s' = true /\ d_saved (d_propagator s') = [(false, [], [])] /\
    (d_realAssertionsEnd s' = d_realAssertionsEnd s /\ d_substitutionsIndex s' = d_substitutionsIndex s) /\ rready (s_rewriter s') /\
    mok (a_merge (a_learn l a_empty) true atop) (d_topLevelSubstitutions s') /\
    exists entries new, Permutation (map fst entries) (map fst l) /\ Forall (solved (a_learn l a_empty)) entries /\
      Forall2 (simplified (a_learn l a_empty)) (d_assertions s) new /\ kept (d_substitutionsIndex s) entries new (d_assertions s') /\
      if 0 <? d_substitutionsIndex s then theory_model s' = theory_model s else mok (a_model entries amodel) (theory_model s').
Proof.
  intros Hp Hval Hb Hend Hidx Htop Hmodel Hfree Hsv. set (a := a_learn l a_empty) in *. set (s1 := put_learned [] s).
  assert (Hnd : NoDup (map fst l)) by (rewrite <- equations_fst; apply Hval).
  destruct (assertions_ok a (length (d_assertions s)) 0 [] s1) as (N1 & acc & s2 & new & H1 & Hp2 & Hf2 & Ha2 & Hnew); [destruct Hp; by split | done | done |].
  pose proof (keys_learned l (newSubstitutions s2) (phase_map _ _ Hp2) Hnd) as Hperm.
  destruct (solved_entries_ok a (map fst (d_substitutions (newSubstitutions s2))) s2 Hp2) as (N2 & entries & s3 & H2 & Hp3 & Hf3 & Ha3 & Hk3 & Hall).
  { intros x Hx. apply learn_dom. by rewrite <- Hperm. }
  destruct Hf2 as (E1 & E2 & E3 & E4 & E5 & E6). destruct Hf3 as (D1 & D2 & D3 & D4 & D5 & D6).
  assert (Hperm3 : Permutation (map fst entries) (map fst l)) by by rewrite Hk3.
  destruct (valued_entries l entries Hval Hperm3 Hall) as [Hen _]. cbn [drop take app] in Ha2, Hnew.
  destruct (index_step entries amodel a s3) as (N3 & s4 & H3 & Hp4 & (C1 & C2 & C3 & C4) & Hkept & Hmod).
  { done. } { by rewrite D6, E6. } { by rewrite Hperm3. }
  { intros x t Hx. assert (Hxl : x ∈ map fst l) by (rewrite <- Hperm3; apply list_elem_of_fmap; by exists (x, t)).
    split; [by apply Hfree | by apply (proj1 (Forall_forall _ _) Hall (x, t) Hx)]. }
  { done. }
  { rewrite Ha3, Ha2. clear -Hnew. cbn in Hnew. induction Hnew as [|n r A A' [Hr _] _ IH]; by constructor. }
  { rewrite D2, E2, Ha3, Ha2. cbn [d_substitutionsIndex s1 put_learned put_propagator]. intros Hi. destruct (Hidx Hi) as (n & Hn & Hsz).
    destruct (Forall2_lookup_l _ _ _ _ _ Hnew Hn) as (n' & Hn' & _ & _ & _ & Hrk). exists n'. split; [done |].
    apply Permutation_length in Hperm3. rewrite !length_map in Hperm3. lia. }
  destruct (d_realAssertionsEnd s) as [|last] eqn:Eend; [lia |].
  assert (Hlen : length (d_assertions s4) = length (d_assertions s)).
  { transitivity (length (d_assertions s3)); [| rewrite Ha3, Ha2; symmetry; by apply (Forall2_length _ _ _ Hnew)].
    unfold kept in Hkept. destruct (0 <? d_substitutionsIndex s3); [| by rewrite Hkept]. destruct Hkept as (? & ? & _ & -> & _). apply length_insert. }
  destruct (lookup_lt_is_Some_2 (d_assertions s4) last) as [al Hal]; [lia |].
  assert (El4 : learned s4 = []) by (unfold learned; rewrite C4, D4, E4; done).
  assert (Ec4 : d_substitutions (constantPropagations s4) = []) by apply Hp4.
  set (s5 := put_learned [] s4).
  destruct (addSubstitutions_ok formula_rel is_key rank atop (d_topLevelSubstitutions s5) a (newSubstitutions s5) true) as (mt & H4 & Hmt).
  { change (d_topLevelSubstitutions s5) with (d_topLevelSubstitutions s4). by rewrite C3, D3, E3. }
  { apply Hp4. }
  { intros x Hx%learn_dom. by apply Hfree. }
  exists (N1 `max` N2 `max` N3), (put_finish true (put_top mt s5)). split.
  - intros F HF. unfold after_literals. rewrite (sm_bind _ _ _ (learned s) s) by done. rewrite (sm_bind _ _ _ tt s1) by done.
    rewrite (sm_bind _ _ _ (length (d_assertions s)) s1) by done. rewrite (sm_bind _ _ _ acc s2) by (apply H1; lia).
    rewrite (sm_bind _ _ _ (newSubstitutions s2) s2) by done. rewrite (sm_bind _ _ _ entries s3) by (apply H2; lia).
    rewrite H3 by lia. rewrite (sm_bind _ _ _ (S last) s4) by (unfold gets; rewrite C1, D1, E1; cbn; by rewrite Eend).
    rewrite (sm_lift _ _ _ last) by done. rewrite (sm_bind _ _ _ (d_assertions s4) s4) by done. rewrite (sm_lift _ _ _ _ (vget_Ok _ _ _ Hal)).
    rewrite (sm_bind _ _ _ [] s4) by (unfold gets; by rewrite El4). rewrite (sm_bind _ _ _ ([], acc) s4) by done. cbv beta iota.
    rewrite (sm_bind _ _ _ tt s5) by done. rewrite (sm_bind _ _ _ (constantPropagations s5) s5) by done.
    change (constantPropagations s5) with (constantPropagations s4). rewrite Ec4. rewrite (sm_bind _ _ _ [] s5) by done.
    rewrite (sm_bind _ _ _ (newSubstitutions s5) s5) by done. rewrite (sm_bind _ _ _ tt (put_top mt s5)) by (unfold on_member; by rewrite H4). done.
  - cbn [d_propagatorNeedsFinish put_finish put_top d_propagator s5 put_learned put_propagator d_saved d_realAssertionsEnd d_substitutionsIndex d_topLevelSubstitutions d_assertions s_rewriter theory_model].
    split; [done |]. split; [by rewrite C4, D4, E4 |]. split; [rewrite C1, C2, D1, D2, E1, E2; by cbn; rewrite Eend |].
    split; [apply Hp4 |]. split; [done |]. exists entries, new. split; [done |]. split; [done |]. split; [done |].
    rewrite D2, E2 in Hkept, Hmod. rewrite Ha3, Ha2 in Hkept. split; [done |]. rewrite D6, E6 in Hmod. done.
Qed.

Lemma finish_saved p : d_saved p = [(false, [], [])] -> CircuitPropagator.finish p = Ok (tt, new_CircuitPropagator).
Proof. intros H. unfold CircuitPropagator.finish. by rewrite H. Qed.
Lemma holds_models A e : Forall bdom A -> holds_all A e <-> models A e.
Proof.
  intros Hb. rewrite Forall_forall in Hb. split; intros H a Ha; [by apply val_eq, H |].
  rewrite (bterm_val e a); [by rewrite H |]. intros e'. by apply bformula_value, Hb.
Qed.
Lemma round_correct atop amodel s : smt_ok atop amodel s ->
  exists N b s', (forall F, N <= F -> nonClausalSimplify isTheoryEnabled other_ppAssert false F s = Ok (b, s')) /\
    (d_propagatorNeedsFinish s' = true /\ CircuitPropagator.finish (d_propagator s') = Ok (tt, new_CircuitPropagator)) /\
    (b = false -> d_assertions s' = [ConstBool false] /\ forall e, ~ holds_all (d_assertions s) e) /\
    (b = true -> exists l, outcome s s' l atop amodel).
Proof.
  intros [Hb0 Hend Hidx Hidle Hw Htop Hmodel Hfree]. pose proof (to_assert_bdom s Hb0) as Hb. set (A := to_assert s) in *.
  assert (HA : forall e, holds_all (d_assertions s) e -> holds_all A e) by (intros e He a Ha; by apply He, to_assert_in).
  destruct (propagation_ok s Hb Hidle) as (c & p & s1 & Hprop & Hs1 & V & G & Hc & Hsv & Hl). fold A in V, G. destruct c.
  - eexists 0, false, _. split; [intros F _; unfold nonClausalSimplify; rewrite Hprop; reflexivity |]. subst s1. cbn.
    split; [split; [done | by apply finish_saved] |]. split; [| done]. intros _. split; [done |]. intros e He%HA. apply (holds_models A e Hb) in He. by apply (values_conflict A p V (eq_sym Hc) e).
  - destruct (learned_literals _ A p V G (Hl eq_refl)) as (l & El & Hnd & Hin).
    assert (Hvar : forall n b, (n, b) ∈ l -> exists x, n = Var x BOOLEAN_TYPE) by (intros n b (Ha & _ & HP & _)%Hin; by apply (atom_variable A)).
    assert (Hval : valuation (equations l)).
    { split; [by rewrite equations_fst |]. intros n t Hn. apply list_elem_of_fmap in Hn as ([m b] & [= -> ->] & Hm). split; [by apply (Hvar m b) | by exists b]. }
    assert (Himp : forall e, holds_all A e -> sat (equations l) e).
    { intros e He n t Hn. apply list_elem_of_fmap in Hn as ([m b] & [= -> ->] & Hm). destruct (Hin m b Hm) as (_ & Hbt & _ & Hk).
      rewrite (bterm_val e m Hbt), (Hk e); [done | by apply holds_models]. }
    assert (Hcount : length l <= sum_list_with brank A).
    { rewrite <- (length_map fst l). apply distinct_variables; [done |]. intros n Hn. apply list_elem_of_fmap in Hn as ([m b] & -> & Hm).
      split; [by apply (Hvar m b) |]. destruct (Hin m b Hm) as (_ & _ & (_ & a & Ha & Ho) & _). by exists a. }
    set (s2 := put_const new_SubstitutionMap (put_new new_SubstitutionMap (put_propagator p s1))).
    assert (Elen : length (d_learnedLiterals p) = length l) by by rewrite El, length_map.
    destruct (literals_ok l 0 a_empty s2) as (N1 & s3 & H1 & Hp3 & Hf3 & Ha3).
    { apply new_phase. by subst s1. }
    { exact El. }
    { done. }
    { intros n b Hn. split; [by apply (Hvar n b) | apply not_elem_of_nil]. }
    destruct Hf3 as (E1 & E2 & E3 & E4 & E5 & E6). subst s1. cbn in Ha3, E1, E2, E3, E4, E5, E6.
    destruct (after_literals_ok l s3 atop amodel) as (N2 & s4 & H2 & Hfin & Hsv4 & Hend4 & Hw4 & Htop4 & Hass).
    { done. } { done. } { by rewrite Ha3. } { by rewrite E1, Ha3. }
    { rewrite E2, Ha3. intros Hi. destruct (Hidx Hi) as (a & Ha & Hsz). exists a. split; [done |]. fold A in Hsz. lia. }
    { by rewrite E3. } { by rewrite E6. }
    { intros x Hx. apply list_elem_of_fmap in Hx as ([m b] & -> & Hm). destruct (Hin m b Hm) as (_ & _ & (_ & a & Ha & Ho) & _). by apply (Hfree a). }
    { by rewrite E4. }
    rewrite Ha3, E2, E6 in Hass. rewrite E1, E2 in Hend4.
    exists (N1 `max` N2), true, s4. split; [| split; [split; [done | by apply finish_saved] | split; [done |]]].
    + intros F HF. unfold nonClausalSimplify. rewrite Hprop. rewrite (sm_bind _ _ _ tt (put_new new_SubstitutionMap (put_propagator p (put_finish false (put_propagator new_CircuitPropagator s))))) by done.
      rewrite (sm_bind _ _ _ tt s2) by done. rewrite (sm_bind _ _ _ (d_learnedLiterals p) s2) by done. rewrite Elen. rewrite (sm_bind _ _ _ (Some 0) s3) by (apply H1; lia).
      apply H2. lia.
    + intros _. exists l. split; try done; [| by intros e He%HA; apply Himp].
      intros n b Hn. destruct (Hin n b Hn) as (_ & _ & (_ & a & Ha & Ho) & _). by exists a.
Qed.
End round.

(** ** The assertions before and after a round *)
Lemma holds_all_lookup v e : holds_all v e <-> forall i n, v !! i = Some n -> eval e n = Some (VBool true).
Proof.
  unfold holds_all. split; [intros H i n Hi; apply H; by eapply list_elem_of_lookup_2 |]. intros H n [i Hi]%list_elem_of_lookup. by eapply H.
Qed.
(** Replacing the assertion at the index adds the entries as conjuncts. *)
Lemma kept_holds idx entries v v' e : kept idx entries v v' ->
  holds_all v' e <-> holds_all v e /\ (0 < idx -> forall x t, (x, t) ∈ entries -> eval e x = eval e t).
Proof.
  unfold kept. destruct (0 <? idx) eqn:Ei.
  - apply Nat.ltb_lt in Ei. intros (a & c & Ha & -> & _ & Hc). pose proof (lookup_lt_Some _ _ _ Ha) as Hlt. rewrite !holds_all_lookup. split.
    + intros H. destruct (proj1 (Hc e) (H idx c (list_lookup_insert_eq v idx c Hlt))) as [Hea Hen]. split; [| done].
      intros i n Hi. destruct (decide (i = idx)) as [->|Hne]; [congruence |]. apply (H i). by rewrite list_lookup_insert_ne.
    + intros [H Hen] i n Hi. destruct (decide (i = idx)) as [->|Hne].
      * rewrite list_lookup_insert_eq in Hi by done. injection Hi as <-. apply Hc. split; [by apply (H idx) | by apply Hen].
      * rewrite list_lookup_insert_ne in Hi by done. by apply (H i).
  - apply Nat.ltb_ge in Ei. intros ->. split; [intros H; split; [done | lia] | by intros [? _]].
Qed.
Lemma outcome_models {TR : TheoryRewriters} rank s s' l atop amodel : Forall bdom (d_assertions s) -> outcome rank s s' l atop amodel ->
  (forall e, holds_all (d_assertions s) e <-> holds_all (d_assertions s') e /\ sat (equations l) e) /\
  (forall e, holds_all (d_assertions s') e -> holds_all (d_assertions s) (update_env (equations l) e)) /\
  (0 < d_substitutionsIndex s -> forall e, holds_all (d_assertions s') e -> sat (equations l) e) /\
  length (d_assertions s') = length (d_assertions s) /\ Forall bdom (d_assertions s').
Proof.
  intros Hb [Hval _ Himp _ _ _ (entries & new & Hperm & Hsol & Hass & Hkept & _)]. destruct (valued_entries rank l entries Hval Hperm Hsol) as [_ Hent].
  assert (Hk : forall e, holds_all (d_assertions s') e <-> holds_all new e /\ (0 < d_substitutionsIndex s -> sat (equations l) e)).
  { intros e. rewrite (kept_holds _ _ _ _ e Hkept), (Hent e). done. }
  assert (Hsame : forall e, sat (equations l) e -> holds_all (d_assertions s) e <-> holds_all new e).
  { intros e He. apply (proj2 (learn_sat l e)) in He. clear -Hass He. induction Hass as [|a a' A A' (_ & Ha & _) _ IH]; [reflexivity |]. unfold holds_all in *.
    split; intros H x [->|Hx]%elem_of_cons.
    - rewrite (Ha e He). apply H. by left.
    - apply (proj1 IH); [| done]. intros y Hy. apply H. by right.
    - rewrite <- (Ha e He). apply H. by left.
    - apply (proj2 IH); [| done]. intros y Hy. apply H. by right. }
  assert (Hoff : forall e, holds_all new e -> holds_all new (update_env (equations l) e)).
  { intros e He. assert (Hag : agree_off (a_dom (a_learn l a_empty)) e (update_env (equations l) e)).
    { intros x Hx. apply update_agree. rewrite equations_fst. by rewrite <- learn_dom. }
    clear -Hass He Hag. induction Hass as [|a a' A A' (_ & _ & Ha & _) _ IH]; [intros x Hx; by apply not_elem_of_nil in Hx |]. intros x [->|Hx]%elem_of_cons.
    - rewrite <- (Ha _ _ Hag). apply He. by left.
    - apply IH; [| done]. intros y Hy. apply He. by right. }
  assert (Hnew : length new = length (d_assertions s) /\ Forall bdom new).
  { split; [symmetry; by apply (Forall2_length _ _ _ Hass) |]. clear -Hass. induction Hass as [|a a' A A' [Ha _] _ IH]; by constructor. }
  split; [| split; [| split]].
  - intros e. rewrite (Hk e). split; [intros H; pose proof (Himp e H); split; [split; [by apply Hsame | done] | done] | intros [[H1 _] H2]; by apply Hsame].
  - intros e [He _]%Hk. apply Hsame; [by apply update_sat | by apply Hoff].
  - intros Hi e [_ He]%Hk. by apply He.
  - unfold kept in Hkept. destruct (0 <? d_substitutionsIndex s); [| by rewrite Hkept]. destruct Hkept as (a & c & _ & -> & Hc & _).
    rewrite length_insert. split; [apply Hnew | apply Forall_insert; [apply Hnew | done]].
Qed.

(** C12. Non-clausal simplification of propositional problems is an equivalence, with the rewriter of the program; in and outside of incremental mode, with unsat cores off.
    The assertions are formulas over Boolean variables, each with [brank] (a weighted size as a tree) below [MAX_CHILDREN]; no variable that the top-level substitutions or the model's replace occurs in
    an assertion other than the one that holds the substitutions in incremental mode ([d_substitutionsIndex] > 0), and that one has room for an equation for each variable of the others ([index_room]);
    there is a real assertion, the two maps are acyclic as in [SubstitutionsCorrect], and the propagator is new or can be reset by [finish] ([smt_ok]).  Then the round returns.  When it answers false, the assertions have no model and the pipeline holds the assertion false.  When it answers true, the new
    assertions together with the values found for variables have exactly the models of the old assertions; a model of the new assertions becomes one of the old assertions when those variables are given
    their values; in incremental mode the new assertions alone imply these values; the new assertions are as many, and again such formulas; and the top-level substitutions are extended by exactly these
    values.  The propagator is left in a state that the next round resets. *)
Theorem nonClausalSimplify_equivalent {G : Gmp} {HG : GmpSpec G} {NR : NestedRewriter} (node_lt : Node -> Node -> bool) (hash_order : list (Node * Count) -> list (Node * Count))
    (divByZeroConst extractArith : bool) (other : TheoryId -> Node -> M RewriteResponse) (isTheoryEnabled : TheoryId -> bool)
    (other_ppAssert : TheoryId -> Node -> SMap PPAssertStatus) (rank : Node -> nat) (atop amodel : Abstract) (s : SmtEnginePrivate) :
  let TR := rewriter_tables node_lt hash_order divByZeroConst extractArith other in
  isTheoryEnabled THEORY_BOOL = true -> smt_ok rank atop amodel s ->
  exists N result s', (forall F, N <= F -> nonClausalSimplify isTheoryEnabled other_ppAssert false F s = Ok (result, s')) /\ idle s' /\
    (result = false -> d_assertions s' = [ConstBool false] /\ forall e, ~ holds_all (d_assertions s) e) /\
    (result = true -> exists values, valuation values /\
      (forall e, holds_all (d_assertions s) e <-> holds_all (d_assertions s') e /\ sat values e) /\
      (forall e, holds_all (d_assertions s') e -> holds_all (d_assertions s) (update_env values e)) /\
      (0 < d_substitutionsIndex s -> forall e, holds_all (d_assertions s') e -> sat values e) /\
      length (d_assertions s') = length (d_assertions s) /\ Forall bdom (d_assertions s') /\
      exists atop', map_ok formula_rel is_key rank atop' (d_topLevelSubstitutions s') /\ forall e, sat (a_eqs atop') e <-> sat (a_eqs atop) e /\ sat values e).
Proof.
  intros TR Hbool Hok. pose proof (boolean_contract node_lt hash_order divByZeroConst extractArith other no_leaf no_leaf_value (fun a _ H => ltac:(done))) as HC.
  destruct (round_correct isTheoryEnabled Hbool other_ppAssert rank atop amodel s Hok) as (N & b & s' & HF & [Hf1 Hf2] & Hfalse & Htrue).
  exists N, b, s'. split; [done |]. split; [unfold idle; by rewrite Hf1 |]. split; [done |]. intros Hb. destruct (Htrue Hb) as [l Hout]. exists (equations l).
  destruct (outcome_models rank s s' l atop amodel (smt_formulas _ _ _ _ Hok) Hout) as (Hm1 & Hm2 & Hm3 & Hlen & Hbd). split; [apply Hout |].
  do 5 (split; [done |]). eexists. split; [apply Hout |]. intros e. cbn [a_merge a_eqs]. rewrite sat_app, learn_sat. tauto.
Qed.

(** The rewriters of the program on the reference arithmetic. *)
Definition sample_tables : TheoryRewriters := rewriter_tables (G := gmp_ref) (NR := Ok) (fun _ _ => true) (fun l => l) false false (fun _ n => Ok (MkResponse REWRITE_DONE n)).
Definition unsolved (t : TheoryId) (n : Node) : SMap PPAssertStatus := mret PP_ASSERT_STATUS_UNSOLVED.
(** [c = not a], [c], [b -> (a or d)] *)
Definition sample_assertions : list Node :=
  let a := Var 1 BOOLEAN_TYPE in let b := Var 2 BOOLEAN_TYPE in let c := Var 3 BOOLEAN_TYPE in let d := Var 4 BOOLEAN_TYPE in
  [MkNode EQUAL [c; MkNode NOT [a]]; c; MkNode IMPLIES [b; MkNode OR [a; d]]].
Definition start_smt (A : list Node) (index : nat) : SmtEnginePrivate :=
  MkSmt A 3 index new_SubstitutionMap new_CircuitPropagator false (MkRewriter [] [] []) new_SubstitutionMap new_SubstitutionMap new_SubstitutionMap.
Definition sample_smt : SmtEnginePrivate := start_smt sample_assertions 0.
(** The same in incremental mode, with the assertion true for the substitutions after them. *)
Definition sample_incremental : SmtEnginePrivate := start_smt (sample_assertions ++ [ConstBool true]) 3.
Lemma sample_smt_ok : smt_ok (TR := sample_tables) (fun _ => 0) a_empty a_empty sample_smt.
Proof.
  split; [| cbn; lia | intros Hi; cbn in Hi; lia | done | apply ready_init | apply new_map_ok | apply new_map_ok |].
  - repeat constructor.
  - intros a x _ _. split; apply not_elem_of_nil.
Qed.
Lemma sample_incremental_ok : smt_ok (TR := sample_tables) (fun _ => 0) a_empty a_empty sample_incremental.
Proof.
  split; [| cbn; lia | intros _; exists (ConstBool true); split; [done | reflexivity] | done | apply ready_init | apply new_map_ok | apply new_map_ok |].
  - repeat constructor.
  - intros a x _ _. split; apply not_elem_of_nil.
Qed.
Lemma nonClausalSimplify_equivalent_witness :
  (exists N result s', (forall F, N <= F -> nonClausalSimplify (TR := sample_tables) (fun _ => true) unsolved false F sample_smt = Ok (result, s')) /\ idle s') /\
  (exists N result s', (forall F, N <= F -> nonClausalSimplify (TR := sample_tables) (fun _ => true) unsolved false F sample_incremental = Ok (result, s')) /\ idle s').
Proof.
  split.
  - destruct (nonClausalSimplify_equivalent (HG := gmp_ref_spec) (NR := Ok) (fun _ _ => true) (fun l => l) false false (fun _ n => Ok (MkResponse REWRITE_DONE n)) (fun _ => true) unsolved (fun _ => 0) a_empty a_empty sample_smt)
      as (N & b & s' & HF & Hi & _); [done | exact sample_smt_ok |]. exists N, b, s'. split; [exact HF | exact Hi].
  - destruct (nonClausalSimplify_equivalent (HG := gmp_ref_spec) (NR := Ok) (fun _ _ => true) (fun l => l) false false (fun _ n => Ok (MkResponse REWRITE_DONE n)) (fun _ => true) unsolved (fun _ => 0) a_empty a_empty sample_incremental)
      as (N & b & s' & HF & Hi & _); [done | exact sample_incremental_ok |]. exists N, b, s'. split; [exact HF | exact Hi].
Defined.
(** What becomes of them: [c] is true, [a] is false, and [b -> d] remains. *)
Lemma sample_smt_result : exists s', nonClausalSimplify (TR := sample_tables) (fun _ => true) unsolved false 100 sample_smt = Ok (true, s') /\
  d_assertions s' = [ConstBool true; ConstBool true; MkNode IMPLIES [Var 2 BOOLEAN_TYPE; Var 4 BOOLEAN_TYPE]] /\
  d_substitutions (d_topLevelSubstitutions s') = [(Var 3 BOOLEAN_TYPE, ConstBool true); (Var 1 BOOLEAN_TYPE, ConstBool false)].
Proof. eexists. split; [vm_compute; reflexivity |]. by split. Qed.
(** In incremental mode the values [c] and [not a] are asserted at the index. *)
Lemma sample_incremental_result : exists s', nonClausalSimplify (TR := sample_tables) (fun _ => true) unsolved false 100 sample_incremental = Ok (true, s') /\
  d_assertions s' = [ConstBool true; ConstBool true; MkNode IMPLIES [Var 2 BOOLEAN_TYPE; Var 4 BOOLEAN_TYPE]; MkNode AND [Var 3 BOOLEAN_TYPE; MkNode NOT [Var 1 BOOLEAN_TYPE]]].
Proof. eexists. split; [vm_compute; reflexivity |]. done. Qed.
