(* ===== verification/CDInsertHashMap.v ===== *)
(** * [CDInsertHashMap<Key, Data>] and [CDHashSet<V>]: backtrackable maps without assignment

    Models [src/context/cdinsert_hashmap.h] and [src/context/cdhashset.h].  An [InsertHashMap] is a
    hash map with a deque of its keys; the context-dependent map inserts at the back and a pop
    takes keys from the back, while [insertAtContextLevelZero] inserts at the front, so that its
    keys survive.  Only two numbers are saved: the size and the number of insertions at the front.

    The object is seen through the protocol of [ContextObj]: the first change after a push
    saves a copy, and the pop restores it.  The order of the hash map's own iterators is
    unspecified; the iteration over keys is that of the deque. *)

From S2P Require Import Prelude CDList.
Local Open Scope Z_scope.

Section insert_map.
Context {Key Data : Type} `{Countable Key}.

(** ** [InsertHashMap] *)
Record InsertHashMap : Type := MkInsertHashMap { d_keys : list Key; d_hashMap : gmap Key Data }.
Definition ihm_size (m : InsertHashMap) : Z := Z.of_nat (length (d_keys m)).
Definition ihm_empty (m : InsertHashMap) : bool := match d_keys m with [] => true | _ => false end.
Definition ihm_contains (m : InsertHashMap) (k : Key) : bool := bool_decide (is_Some (d_hashMap m !! k)).
(** [operator[]] *)
Definition ihm_at (m : InsertHashMap) (k : Key) : M Data := match d_hashMap m !! k with Some d => Ok d | None => Throw AssertionFailed end.
Definition push_front (k : Key) (d : Data) (m : InsertHashMap) : M InsertHashMap :=
  _ ← check AssertionFailed (negb (ihm_contains m k));
  Ok (MkInsertHashMap (k :: d_keys m) (<[k:=d]> (d_hashMap m))).
Definition push_back (k : Key) (d : Data) (m : InsertHashMap) : M InsertHashMap :=
  _ ← check AssertionFailed (negb (ihm_contains m k));
  Ok (MkInsertHashMap (d_keys m ++ [k]) (<[k:=d]> (d_hashMap m))).
Definition pop_front (m : InsertHashMap) : M InsertHashMap :=
  match d_keys m with
  | [] => Throw AssertionFailed
  | front :: keys => Ok (MkInsertHashMap keys (delete front (d_hashMap m)))
  end.
Definition pop_back (m : InsertHashMap) : M InsertHashMap :=
  match last (d_keys m) with
  | None => Throw AssertionFailed
  | Some back => Ok (MkInsertHashMap (removelast (d_keys m)) (delete back (d_hashMap m)))
  end.
Fixpoint pop_loop (fuel : nat) (s : Z) (m : InsertHashMap) : M InsertHashMap :=
  if s <? ihm_size m then
    match fuel with O => Throw OutOfFuel | S fuel' => m ← pop_back m; pop_loop fuel' s m end
  else Ok m.
Definition pop_to_size (s : Z) (m : InsertHashMap) : M InsertHashMap := pop_loop (length (d_keys m)) s m.

(** ** [CDInsertHashMap] *)
Record CDInsertHashMap : Type := MkCDInsertHashMap { d_insertMap : option InsertHashMap; d_size : Z; d_pushFronts : Z }.
Definition new_CDInsertHashMap : CDInsertHashMap := MkCDInsertHashMap (Some (MkInsertHashMap [] ∅)) 0 0.
Definition the_map (this : CDInsertHashMap) : M InsertHashMap := match d_insertMap this with Some m => Ok m | None => Throw OutOfBounds end.
(** The copy that [save] makes. *)
Definition copy (this : CDInsertHashMap) : CDInsertHashMap := MkCDInsertHashMap None (d_size this) (d_pushFronts this).
Definition restore (data this : CDInsertHashMap) : M CDInsertHashMap :=
  _ ← check AssertionFailed (d_pushFronts data <=? d_pushFronts this);
  let restoreSize := CDList.size_t (d_size data + CDList.size_t (d_pushFronts this - d_pushFronts data)) in
  m ← the_map this;
  m ← pop_to_size restoreSize m;
  _ ← check AssertionFailed (ihm_size m =? restoreSize);
  Ok (MkCDInsertHashMap (Some m) restoreSize (d_pushFronts this)).
Definition empty (this : CDInsertHashMap) : bool := d_size this =? 0.
Definition size (this : CDInsertHashMap) : Z := d_size this.
Definition contains (this : CDInsertHashMap) (k : Key) : M bool := m ← the_map this; Ok (ihm_contains m k).
Definition at_key (this : CDInsertHashMap) (k : Key) : M Data := m ← the_map this; ihm_at m k.
(** The keys from [key_begin()] to [key_end()]. *)
Definition key_list (this : CDInsertHashMap) : M (list Key) := m ← the_map this; Ok (d_keys m).
(** After [makeCurrent()]. *)
Definition insert_current (k : Key) (d : Data) (this : CDInsertHashMap) : M CDInsertHashMap :=
  let size := CDList.size_t (d_size this + 1) in
  m ← the_map this;
  m ← push_back k d m;
  _ ← check AssertionFailed (ihm_size m =? size);
  Ok (MkCDInsertHashMap (Some m) size (d_pushFronts this)).
Definition insert_zero_current (k : Key) (d : Data) (this : CDInsertHashMap) : M CDInsertHashMap :=
  m ← the_map this;
  m ← push_front k d m;
  Ok (MkCDInsertHashMap (Some m) (CDList.size_t (d_size this + 1)) (CDList.size_t (d_pushFronts this + 1))).

(** ** In a context *)
(** The object and, for every scope above the one it was made in, the copy saved there, the innermost first. *)
Record Versions : Type := MkVersions { v_this : CDInsertHashMap; v_saved : list (option CDInsertHashMap) }.
Abbreviation VM := (SM Versions).
Definition new_object : Versions := MkVersions new_CDInsertHashMap [].
Definition makeCurrent : VM unit := modify (fun v =>
  match v_saved v with None :: l => MkVersions (v_this v) (Some (copy (v_this v)) :: l) | _ => v end).
Definition change (f : CDInsertHashMap -> M CDInsertHashMap) : VM unit := fun v => match f (v_this v) with Ok d => Ok (tt, MkVersions d (v_saved v)) | Throw e => Throw e end.
Definition ask {X} (f : CDInsertHashMap -> M X) : VM X := fun v => match f (v_this v) with Ok x => Ok (x, v) | Throw e => Throw e end.
Definition push : VM unit := modify (fun v => MkVersions (v_this v) (None :: v_saved v)).
Definition pop : VM unit := fun v =>
  match v_saved v with
  | [] => Throw AssertionFailed
  | None :: l => Ok (tt, MkVersions (v_this v) l)
  | Some data :: l => match restore data (v_this v) with Ok d => Ok (tt, MkVersions d l) | Throw e => Throw e end
  end.
Definition insert (k : Key) (d : Data) : VM unit := _ ← makeCurrent; change (insert_current k d).
Definition insert_safe (k : Key) (d : Data) : VM bool := c ← ask (fun this => contains this k); if c : bool then mret false else _ ← insert k d; mret true.
Definition insertAtContextLevelZero (k : Key) (d : Data) : VM unit := _ ← makeCurrent; change (insert_zero_current k d).
End insert_map.
Arguments InsertHashMap Key Data {_ _}.
Arguments CDInsertHashMap Key Data {_ _}.
Arguments Versions Key Data {_ _}.

(** ** [CDHashSet] *)
Section hash_set.
Context {V : Type} `{Countable V}.
Abbreviation CDHashSet := (Versions V bool).
Definition set_insert (v : V) : SM CDHashSet bool := insert_safe v true.
Definition set_contains (v : V) : SM CDHashSet bool := ask (fun this => contains this v).
Definition set_size : SM CDHashSet Z := ask (fun this => Ok (size this)).
Definition set_insertAtContextLevelZero (v : V) : SM CDHashSet unit := insertAtContextLevelZero v true.
End hash_set.
