(* ===== verification/CDInsertHashMapCorrect.v ===== *)
(** * [CDInsertHashMap] implements backtrackable maps

    A session on a map, errors included, is one on a list of entries of level zero and a stack of lists
    of entries, one for each scope. *)

From S2P Require Import Prelude CDList CDInsertHashMap.
Local Open Scope Z_scope.

Section insert_map_correct.
Context {Key Data : Type} `{Countable Key}.
Abbreviation entries := (list (Key * Data)).

(** ** The hash map and its keys *)
Record MapRep (m : InsertHashMap Key Data) (l : entries) : Prop := {
  mr_keys : d_keys m = l.*1;
  mr_map : d_hashMap m = list_to_map l;
  mr_nodup : NoDup l.*1
}.
Lemma rep_contains m l k : MapRep m l -> ihm_contains m k = bool_decide (k ∈ l.*1).
Proof.
  intros [_ Hm _]. unfold ihm_contains. rewrite Hm. apply bool_decide_ext. split.
  - intros [d Hd]. apply elem_of_list_to_map_2 in Hd. apply list_elem_of_fmap. by exists (k, d).
  - intros Hk. destruct (list_to_map (M := gmap Key Data) l !! k) eqn:E; [by eexists |]. by apply not_elem_of_list_to_map_2 in E.
Qed.
Lemma keys_push_front k d m l : MapRep m l -> push_front k d m = if decide (k ∈ l.*1) then Throw AssertionFailed else Ok (MkInsertHashMap (k :: d_keys m) (<[k:=d]> (d_hashMap m))).
Proof. intros HR. unfold push_front. rewrite (rep_contains m l k HR). by case_decide; [rewrite bool_decide_eq_true_2 | rewrite bool_decide_eq_false_2]. Qed.
Lemma keys_push_back k d m l : MapRep m l -> push_back k d m = if decide (k ∈ l.*1) then Throw AssertionFailed else Ok (MkInsertHashMap (d_keys m ++ [k]) (<[k:=d]> (d_hashMap m))).
Proof. intros HR. unfold push_back. rewrite (rep_contains m l k HR). by case_decide; [rewrite bool_decide_eq_true_2 | rewrite bool_decide_eq_false_2]. Qed.
Lemma rep_front k d m l : MapRep m l -> k ∉ l.*1 -> MapRep (MkInsertHashMap (k :: d_keys m) (<[k:=d]> (d_hashMap m))) ((k, d) :: l).
Proof. intros [H1 H2 H3] Hk. split; cbn; [by rewrite H1 | by rewrite H2 | by constructor]. Qed.
Lemma rep_back k d m l : MapRep m l -> k ∉ l.*1 -> MapRep (MkInsertHashMap (d_keys m ++ [k]) (<[k:=d]> (d_hashMap m))) (l ++ [(k, d)]).
Proof.
  intros [H1 H2 H3] Hk. split; cbn; [by rewrite H1, fmap_app | by rewrite H2, list_to_map_snoc |]. rewrite fmap_app. apply NoDup_app. split; [done |]. split; [| apply NoDup_singleton]. intros x Hx ->%list_elem_of_singleton. done.
Qed.
Lemma pop_back_ok m l x : MapRep m (l ++ [x]) -> exists m', pop_back m = Ok m' /\ MapRep m' l.
Proof.
  destruct x as [k d]. intros [H1 H2 H3]. rewrite fmap_app in H1, H3. cbn in H1, H3. apply NoDup_app in H3 as (H3 & Hk & _). assert (Hn : k ∉ l.*1) by (intros Hin; apply (Hk k Hin); by left).
  unfold pop_back. rewrite H1, last_snoc. eexists. split; [reflexivity |]. split; cbn; [by rewrite removelast_last | | done]. rewrite H2, list_to_map_snoc by done. apply delete_insert_id. by apply not_elem_of_list_to_map_1.
Qed.
Lemma pop_loop_ok l' : forall fuel m l, MapRep m (l ++ l') -> (length l' <= fuel)%nat -> exists m', pop_loop fuel (Z.of_nat (length l)) m = Ok m' /\ MapRep m' l.
Proof.
  induction l' as [|x l' IH] using rev_ind; intros fuel m l HR Hf.
  - rewrite app_nil_r in HR. exists m. split; [| done]. assert (ihm_size m = Z.of_nat (length l)) as E by (unfold ihm_size; by rewrite (mr_keys _ _ HR), length_fmap). destruct fuel; cbn [pop_loop]; by rewrite E, Z.ltb_irrefl.
  - rewrite length_app in Hf. cbn in Hf. destruct fuel as [|fuel]; [lia |]. cbn [pop_loop]. assert (ihm_size m = Z.of_nat (length (l ++ l' ++ [x]))) as -> by (unfold ihm_size; by rewrite (mr_keys _ _ HR), length_fmap). rewrite (proj2 (Z.ltb_lt _ _)) by (rewrite !length_app; cbn; lia).
    rewrite app_assoc in HR. destruct (pop_back_ok m _ _ HR) as (m1 & -> & HR1). cbn [mbind M_bind]. by apply IH; [| lia].
Qed.

(** ** The object *)
(** The entries of level zero, the last first, and the others. *)
Record Rep (this : CDInsertHashMap Key Data) (zero trail : entries) : Prop := {
  rp_map : exists m, d_insertMap this = Some m /\ MapRep m (zero ++ trail);
  rp_size : d_size this = Z.of_nat (length (zero ++ trail));
  rp_fronts : d_pushFronts this = Z.of_nat (length zero);
  rp_bound : Z.of_nat (length (zero ++ trail)) < 2 ^ 64
}.
Definition Saved (c : CDInsertHashMap Key Data) (zero trail : entries) : Prop := d_size c = Z.of_nat (length (zero ++ trail)) /\ d_pushFronts c = Z.of_nat (length zero).
Lemma restore_entries c this z t z' t' : Saved c z t -> Rep this (z' ++ z) (t ++ t') -> exists d, restore c this = Ok d /\ Rep d (z' ++ z) t.
Proof.
  intros [S1 S2] [(m & Em & HR) R2 R3 R4]. unfold restore, the_map. rewrite S1, S2, R3, Em. rewrite !length_app in *. rewrite (proj2 (Z.leb_le _ _)) by lia. cbn [check mbind M_bind].
  rewrite (CDList.size_t_small (_ - _)) by lia. rewrite CDList.size_t_small by lia. replace (Z.of_nat (length z + length t) + _) with (Z.of_nat (length ((z' ++ z) ++ t))) by (rewrite !length_app; lia).
  assert (Hlen : (length t' <= length (d_keys m))%nat) by (rewrite (mr_keys _ _ HR), length_fmap, !length_app; lia). rewrite app_assoc in HR. unfold pop_to_size. destruct (pop_loop_ok t' _ m _ HR Hlen) as (m' & -> & HR'). cbn [mbind M_bind].
  assert (ihm_size m' = Z.of_nat (length ((z' ++ z) ++ t))) as -> by (unfold ihm_size; by rewrite (mr_keys _ _ HR'), length_fmap). rewrite Z.eqb_refl. cbn [check mbind M_bind]. eexists. split; [reflexivity |]. split; cbn [d_insertMap d_size d_pushFronts]; [by exists m' | done | rewrite !length_app; lia | rewrite !length_app; lia].
Qed.
Lemma contains_ok this z t k : Rep this z t -> contains this k = Ok (bool_decide (k ∈ (z ++ t).*1)).
Proof. intros [(m & Em & HR) _ _ _]. unfold contains, the_map. rewrite Em. cbn. by rewrite (rep_contains m _ k HR). Qed.
Lemma at_key_ok this z t k : Rep this z t -> at_key this k = match list_to_map (M := gmap Key Data) (z ++ t) !! k with Some d => Ok d | None => Throw AssertionFailed end.
Proof. intros [(m & Em & [_ Hm _]) _ _ _]. unfold at_key, the_map. rewrite Em. cbn. unfold ihm_at. by rewrite Hm. Qed.
Lemma key_list_ok this z t : Rep this z t -> key_list this = Ok (z ++ t).*1.
Proof. intros [(m & Em & [Hk _ _]) _ _ _]. unfold key_list, the_map. rewrite Em. cbn. by rewrite Hk. Qed.
Lemma insert_current_ok this z t k d : Rep this z t -> Z.of_nat (length (z ++ t)) + 1 < 2 ^ 64 ->
  if decide (k ∈ (z ++ t).*1) then insert_current k d this = Throw AssertionFailed else exists d', insert_current k d this = Ok d' /\ Rep d' z (t ++ [(k, d)]).
Proof.
  intros [(m & Em & HR) R2 R3 R4] Hb. unfold insert_current, the_map. rewrite Em. cbn [mbind M_bind]. rewrite (keys_push_back k d m _ HR). case_decide as Hk; [done |]. cbn [mbind M_bind]. pose proof (rep_back k d m _ HR Hk) as HR'. rewrite <- app_assoc in HR'.
  set (m' := MkInsertHashMap _ _) in *. assert (ihm_size m' = Z.of_nat (length (z ++ t ++ [(k, d)]))) as E by (unfold ihm_size; by rewrite (mr_keys _ _ HR'), length_fmap). rewrite R2, CDList.size_t_small, E by lia. rewrite !length_app in *. cbn [length] in *. rewrite (proj2 (Z.eqb_eq _ _)) by lia.
  cbn [check mbind M_bind]. eexists. split; [reflexivity |]. split; cbn [d_insertMap d_size d_pushFronts]; [by exists m' | rewrite !length_app; cbn; lia | done | rewrite !length_app; cbn; lia].
Qed.
Lemma insert_zero_ok this z t k d : Rep this z t -> Z.of_nat (length (z ++ t)) + 1 < 2 ^ 64 ->
  if decide (k ∈ (z ++ t).*1) then insert_zero_current k d this = Throw AssertionFailed else exists d', insert_zero_current k d this = Ok d' /\ Rep d' ((k, d) :: z) t.
Proof.
  intros [(m & Em & HR) R2 R3 R4] Hb. unfold insert_zero_current, the_map. rewrite Em. cbn [mbind M_bind]. rewrite (keys_push_front k d m _ HR). case_decide as Hk; [done |]. cbn [mbind M_bind]. pose proof (rep_front k d m _ HR Hk) as HR'.
  rewrite !length_app in *. rewrite R2, R3, !CDList.size_t_small by lia. eexists. split; [reflexivity |]. split; cbn [d_insertMap d_size d_pushFronts]; [by eexists | rewrite !length_app; cbn; rewrite ?length_app; lia | cbn; lia | cbn; rewrite length_app; lia].
Qed.

(** ** Sessions *)
Inductive Command : Type :=
  | Insert (k : Key) (d : Data)
  | InsertSafe (k : Key) (d : Data)
  | InsertAtContextLevelZero (k : Key) (d : Data)
  | Contains (k : Key)
  | At (k : Key)
  | Size
  | Keys
  | Push
  | Pop.
Inductive Answer : Type := Done | Answered (b : bool) | Found (d : Data) | Sized (n : Z) | Listed (l : list Key).
Definition exec (c : Command) : SM (Versions Key Data) Answer :=
  match c with
  | Insert k d => _ ← insert k d; mret Done
  | InsertSafe k d => b ← insert_safe k d; mret (Answered b)
  | InsertAtContextLevelZero k d => _ ← insertAtContextLevelZero k d; mret Done
  | Contains k => b ← ask (fun this => contains this k); mret (Answered b)
  | At k => d ← ask (fun this => at_key this k); mret (Found d)
  | Size => n ← ask (fun this => Ok (size this)); mret (Sized n)
  | Keys => l ← ask key_list; mret (Listed l)
  | Push => _ ← push; mret Done
  | Pop => _ ← pop; mret Done
  end.
(** The entries of level zero, those of the current scope and of the scopes around it. *)
Record Spec : Type := MkSpec { sp_zero : entries; sp_trail : entries; sp_saved : list entries }.
Definition sp_all (st : Spec) : entries := sp_zero st ++ sp_trail st.
Definition spec_insert (k : Key) (d : Data) : SM Spec unit := fun st =>
  if decide (k ∈ (sp_all st).*1) then Throw AssertionFailed else Ok (tt, MkSpec (sp_zero st) (sp_trail st ++ [(k, d)]) (sp_saved st)).
Definition spec_exec (c : Command) : SM Spec Answer :=
  match c with
  | Insert k d => _ ← spec_insert k d; mret Done
  | InsertSafe k d => fun st => if decide (k ∈ (sp_all st).*1) then Ok (Answered false, st) else (_ ← spec_insert k d; mret (Answered true)) st
  | InsertAtContextLevelZero k d => fun st => if decide (k ∈ (sp_all st).*1) then Throw AssertionFailed else Ok (Done, MkSpec ((k, d) :: sp_zero st) (sp_trail st) (sp_saved st))
  | Contains k => fun st => Ok (Answered (bool_decide (k ∈ (sp_all st).*1)), st)
  | At k => fun st => match list_to_map (M := gmap Key Data) (sp_all st) !! k with Some d => Ok (Found d, st) | None => Throw AssertionFailed end
  | Size => fun st => Ok (Sized (Z.of_nat (length (sp_all st))), st)
  | Keys => fun st => Ok (Listed (sp_all st).*1, st)
  | Push => fun st => Ok (Done, MkSpec (sp_zero st) (sp_trail st) (sp_trail st :: sp_saved st))
  | Pop => fun st => match sp_saved st with [] => Throw AssertionFailed | t :: ts => Ok (Done, MkSpec (sp_zero st) t ts) end
  end.
Fixpoint run_all {S} (step : Command -> SM S Answer) (cmds : list Command) : SM S (list Answer) :=
  match cmds with [] => mret [] | c :: cmds => a ← step c; l ← run_all step cmds; mret (a :: l) end.
(** The answers, or the exception. *)
Definition outcome {S} (step : Command -> SM S Answer) (cmds : list Command) (s : S) : M (list Answer) := match run_all step cmds s with Ok (l, _) => Ok l | Throw e => Throw e end.

(** ** The simulation *)
(** The copies that were saved, with the entries that they remember. *)
Fixpoint SavedOk (zero trail : entries) (cs : list (option (CDInsertHashMap Key Data))) (ts : list entries) : Prop :=
  match cs, ts with
  | [], [] => True
  | None :: cs, t :: ts => t = trail /\ SavedOk zero trail cs ts
  | Some c :: cs, t :: ts => (exists t', trail = t ++ t') /\ (exists z z', zero = z' ++ z /\ Saved c z t) /\ SavedOk zero t cs ts
  | _, _ => False
  end.
Definition Sim (v : Versions Key Data) (st : Spec) : Prop := Rep (v_this v) (sp_zero st) (sp_trail st) /\ SavedOk (sp_zero st) (sp_trail st) (v_saved v) (sp_saved st).
Definition current (cs : list (option (CDInsertHashMap Key Data))) : Prop := match cs with None :: _ => False | _ => True end.
Lemma saved_zero x z : forall cs t ts, SavedOk z t cs ts -> SavedOk (x :: z) t cs ts.
Proof.
  induction cs as [|[c|] cs IH]; intros t [|t0 ts] HS; cbn in *; try done; [| destruct HS; by split; [| apply IH]]. destruct HS as (Ht & (z0 & z' & -> & Hs) & HS). split; [done |]. split; [by exists z0, (x :: z') | by apply IH].
Qed.
Lemma saved_more z t t' cs ts : SavedOk z t cs ts -> current cs -> SavedOk z (t ++ t') cs ts.
Proof. destruct cs as [|[c|] cs], ts as [|t0 ts]; cbn; try done. intros ((u & ->) & Hs & HS) _. split; [by exists (u ++ t'); rewrite app_assoc | done]. Qed.
Lemma makeCurrent_sim v st : Sim v st -> exists v', makeCurrent v = Ok (tt, v') /\ Sim v' st /\ current (v_saved v').
Proof.
  intros [HR HS]. unfold makeCurrent, modify. eexists. split; [reflexivity |]. destruct (v_saved v) as [|[c|] cs] eqn:Ec; [split; [split |]; by rewrite ?Ec | split; [split |]; by rewrite ?Ec |]. cbn [v_saved]. split; [| done]. split; [done |]. destruct (sp_saved st) as [|t ts]; [done |]. destruct HS as [-> HS]. cbn. split; [exists []; by rewrite app_nil_r |].
  split; [| done]. exists (sp_zero st), []. split; [done |]. split; apply HR.
Qed.
Definition agree (st : Spec) (r : M (Answer * Versions Key Data)) (r' : M (Answer * Spec)) : Prop :=
  match r, r' with
  | Ok (a, v), Ok (a', st') => a = a' /\ Sim v st' /\ (length (sp_all st') <= S (length (sp_all st)))%nat
  | Throw e, Throw e' => e = e'
  | _, _ => False
  end.
Definition room (st : Spec) (n : nat) : Prop := Z.of_nat (length (sp_all st)) + Z.of_nat n < 2 ^ 64.
Lemma run_change f v (g : unit -> SM (Versions Key Data) Answer) : (mbind g (change f)) v = match f (v_this v) with Ok d => g tt (MkVersions d (v_saved v)) | Throw e => Throw e end.
Proof. unfold mbind, SM_bind, change. by destruct (f (v_this v)). Qed.
Lemma run_ask {X} (f : _ -> M X) v (g : X -> SM (Versions Key Data) Answer) x : f (v_this v) = Ok x -> (mbind g (ask f)) v = g x v.
Proof. intros E. apply run_bind. unfold ask. by rewrite E. Qed.
Lemma insert_agree v st k d a : Sim v st -> room st 1 -> agree st ((_ ← insert k d; mret a) v) ((_ ← spec_insert k d; mret a) st).
Proof.
  intros HS Hroom. destruct (makeCurrent_sim v st HS) as (v1 & E1 & [HR1 HS1] & Hcur). unfold insert. assert (((_ ← (_ ← makeCurrent; change (insert_current k d)); mret a) v) = (_ ← change (insert_current k d); mret a) v1) as -> by (unfold mbind, SM_bind; by rewrite E1). rewrite run_change.
  pose proof (insert_current_ok (v_this v1) _ _ k d HR1 Hroom) as Hi. unfold mbind, SM_bind, spec_insert, sp_all. case_decide as Hk; [by rewrite Hi |]. destruct Hi as (d' & -> & HR'). split; [done |]. split; [split; [done | by apply saved_more] |]. unfold sp_all. cbn. rewrite !length_app. cbn. lia.
Qed.
Lemma insert_safe_sim v st k d : Sim v st -> insert_safe k d v = if decide (k ∈ (sp_all st).*1) then Ok (false, v) else (_ ← insert k d; mret true) v.
Proof.
  intros [HR _]. unfold insert_safe. rewrite (run_bind (a := bool_decide (k ∈ (sp_all st).*1)) (s1 := v)) by (unfold ask; by rewrite (contains_ok _ _ _ k HR)). by case_decide; [rewrite bool_decide_eq_true_2 | rewrite bool_decide_eq_false_2].
Qed.
Lemma step_agree v st c : Sim v st -> room st 1 -> agree st (exec c v) (spec_exec c st).
Proof.
  intros HSim Hroom. pose proof HSim as [HR HS]. destruct c as [k d|k d|k d|k|k| | | |]; cbn [exec spec_exec].
  - by apply insert_agree.
  - pose proof (insert_safe_sim v st k d HSim) as Es. unfold mbind, SM_bind at 1. rewrite Es. pose proof (insert_agree v st k d (Answered true) HSim Hroom) as Ha. unfold mbind, SM_bind in Ha. case_decide as Hk; [split; [done |]; split; [done | lia] |]. unfold mbind, SM_bind. by destruct (insert k d v) as [[? ?]|?].
  - destruct (makeCurrent_sim v st HSim) as (v1 & E1 & [HR1 HS1] & Hcur). unfold insertAtContextLevelZero. assert (((_ ← (_ ← makeCurrent; change (insert_zero_current k d)); mret Done) v) = (_ ← change (insert_zero_current k d); mret Done) v1) as -> by (unfold mbind, SM_bind; by rewrite E1). rewrite run_change.
    pose proof (insert_zero_ok (v_this v1) _ _ k d HR1 Hroom) as Hi. unfold sp_all. case_decide as Hk; [by rewrite Hi |]. destruct Hi as (d' & -> & HR'). split; [done |]. split; [split; [done | by apply saved_zero] |]. unfold sp_all. cbn. rewrite !length_app. lia.
  - rewrite (run_ask _ _ _ _ (contains_ok _ _ _ k HR)). split; [done |]. split; [done | lia].
  - pose proof (at_key_ok _ _ _ k HR) as Ea. unfold sp_all. destruct (list_to_map _ !! k) as [d|]; [rewrite (run_ask _ _ _ _ Ea); split; [done |]; split; [done | unfold sp_all; lia] |]. unfold mbind, SM_bind, ask. by rewrite Ea.
  - rewrite (run_ask _ _ _ (size (v_this v)) eq_refl). split; [unfold size; by rewrite (rp_size _ _ _ HR) |]. split; [done | lia].
  - rewrite (run_ask _ _ _ _ (key_list_ok _ _ _ HR)). split; [done |]. split; [done | lia].
  - split; [done |]. split; [split; [done | by split] |]. unfold sp_all. cbn. lia.
  - unfold mbind, SM_bind, pop. unfold sp_all. destruct (v_saved v) as [|[c|] cs] eqn:Ec, (sp_saved st) as [|t ts] eqn:Et; rewrite ?Ec, ?Et in HS; try done.
    + destruct HS as ((t' & Ht) & (z & z' & Hz & Hs) & HS). rewrite Ht, Hz in HR. destruct (restore_entries c _ z t z' t' Hs HR) as (d & -> & HR'). rewrite <- Hz in HR'. split; [done |]. split; [by split |]. unfold sp_all. cbn. rewrite Ht, !length_app. lia.
    + destruct HS as [-> HS]. split; [done |]. split; [by split |]. unfold sp_all. cbn. lia.
Qed.
Lemma run_agree cmds : forall v st, Sim v st -> room st (length cmds) -> outcome exec cmds v = outcome spec_exec cmds st.
Proof.
  induction cmds as [|c cmds IH]; intros v st HS Hroom; [done |]. unfold outcome. cbn [run_all]. pose proof (step_agree v st c HS ltac:(unfold room in *; cbn in Hroom; lia)) as Ha. unfold agree in Ha. unfold mbind, SM_bind. destruct (exec c v) as [[a v']|e], (spec_exec c st) as [[a' st']|e']; try done; [| by rewrite Ha].
  destruct Ha as (-> & HS' & Hlen). specialize (IH v' st' HS' ltac:(unfold room in *; cbn in Hroom; lia)). unfold outcome in IH. destruct (run_all exec cmds v') as [[l ?]|e], (run_all spec_exec cmds st') as [[l' ?]|e']; try done; by injection IH as ->.
Qed.
Lemma new_sim : Sim new_object (MkSpec [] [] []).
Proof. split; [| done]. split; cbn; [| done | done | done]. eexists. split; [reflexivity |]. split; cbn; [done | done | constructor]. Qed.
(** C16. [CDInsertHashMap] implements a map with scopes: any session of insertions, safe insertions, insertions at level
    zero, lookups, sizes, iterations over the keys, pushes and pops gives the answers, and fails the assertions, of a
    session on a list of entries of level zero, which a pop keeps, and a stack of lists of entries, of which a pop drops the
    first: [insert] refuses a key that is there, [insert_safe] answers false and leaves it, [operator[]] refuses one that is not. *)
Theorem insert_map_session cmds : Z.of_nat (length cmds) < 2 ^ 64 -> outcome exec cmds new_object = outcome spec_exec cmds (MkSpec [] [] []).
Proof. intros Hl. apply run_agree; [apply new_sim |]. unfold room. cbn. lia. Qed.
End insert_map_correct.
Arguments Command Key Data : clear implicits.

(** ** Example *)
Definition map_session : list (Command nat bool) :=
  [Insert 1%nat true; Push; Insert 2%nat false; InsertAtContextLevelZero 3%nat true; InsertSafe 1%nat false; Push; InsertSafe 4%nat true; Keys; Pop; Pop; Keys; Size; At 3%nat; Contains 2%nat; Insert 3%nat true].
Lemma insert_map_session_witness : outcome exec map_session new_object = outcome spec_exec map_session (MkSpec [] [] []).
Proof. apply (insert_map_session map_session). vm_compute. reflexivity. Defined.
Example map_answers : outcome exec (removelast map_session) new_object =
  Ok [Done; Done; Done; Done; Answered false; Done; Answered true; Listed [3; 1; 2; 4]%nat; Done; Done; Listed [3; 1]%nat; Sized 2; Found true; Answered false] /\ outcome exec map_session new_object = Throw AssertionFailed.
Proof. split; vm_compute; reflexivity. Qed.
