(* ===== verification/EqualityEngine.v ===== *)
(** * The equality engine: congruence closure with backtracking

    Models the core of [src/theory/uf/equality_engine.{h,cpp}] and
    [equality_engine_types.h]: an engine to which no triggers are added
    ([constantsAreTriggers] is false), with no master engine, no kind that is interpreted, and
    with [EqualityEngineNotifyNone] as its observer.  Then every trigger list is empty, every
    trigger set is null, [d_evaluationQueue] and [d_disequalityReasonsMap] stay empty, and
    what the code does with them is nothing; what is left is modelled line by line.

    Ids are natural numbers, null ids [None].  The vectors that hold what never changes of a
    node are one vector of records.  The context-dependent counters are a record of their own,
    saved by [push]; a pop of the context restores them and then notifies the engine, which
    backtracks. *)

From S2P Require Import Prelude.
Local Open Scope nat_scope.

(** ** Terms *)
(** What [getOperator()] returns, and the kind of its applications. *)
Record Op : Set := MkOp { op_kind : positive; op_name : positive }.
(** A [Node]: a variable (or any other term that the engine does not take apart), a constant, an operator, an
    application, or an equality. *)
Inductive Term : Set :=
  | Var (x : positive)
  | Constant (c : positive)
  | BoolConstant (b : bool)
  | Operator (op : Op)
  | Apply (op : Op) (args : list Term)
  | Equal (a b : Term).

Section term_ind.
Variable P : Term -> Prop.
Hypothesis HVar : forall x, P (Var x).
Hypothesis HConst : forall c, P (Constant c).
Hypothesis HBool : forall b, P (BoolConstant b).
Hypothesis HOp : forall op, P (Operator op).
Hypothesis HApply : forall op args, Forall P args -> P (Apply op args).
Hypothesis HEqual : forall a b, P a -> P b -> P (Equal a b).
Fixpoint term_ind' (t : Term) : P t :=
  match t with
  | Var x => HVar x
  | Constant c => HConst c
  | BoolConstant b => HBool b
  | Operator op => HOp op
  | Apply op args => HApply op args
      ((fix go (l : list Term) : Forall P l :=
          match l with [] => List.Forall_nil P | x :: l' => List.Forall_cons P x l' (term_ind' x) (go l') end) args)
  | Equal a b => HEqual a b (term_ind' a) (term_ind' b)
  end.
End term_ind.

#[global] Instance Op_eq_dec : EqDecision Op.
Proof. solve_decision. Defined.
Abbreviation code := (gen_tree (positive + positive + bool + positive * positive)).
Fixpoint encode_term (t : Term) : code :=
  match t with
  | Var x => GenLeaf (inl (inl (inl x)))
  | Constant c => GenLeaf (inl (inl (inr c)))
  | BoolConstant b => GenLeaf (inl (inr b))
  | Operator op => GenLeaf (inr (op_kind op, op_name op))
  | Apply op args => GenNode 0 (GenLeaf (inr (op_kind op, op_name op)) :: map encode_term args)
  | Equal a b => GenNode 1 [encode_term a; encode_term b]
  end.
Fixpoint decode_term (c : code) : Term :=
  match c with
  | GenLeaf (inl (inl (inl x))) => Var x
  | GenLeaf (inl (inl (inr c))) => Constant c
  | GenLeaf (inl (inr b)) => BoolConstant b
  | GenLeaf (inr (k, n)) => Operator (MkOp k n)
  | GenNode 0 (GenLeaf (inr (k, n)) :: l) => Apply (MkOp k n) (map decode_term l)
  | GenNode _ (a :: b :: _) => Equal (decode_term a) (decode_term b)
  | _ => BoolConstant true
  end.
Lemma decode_encode_term t : decode_term (encode_term t) = t.
Proof.
  induction t as [x|c|b|[k n]|[k n] args IH|a b IHa IHb] using term_ind'; try done.
  - cbn. f_equal. induction IH as [|x l Hx _ IHl]; cbn; [done |]. by rewrite Hx, IHl.
  - cbn. by rewrite IHa, IHb.
Qed.
#[global] Instance Term_eq_dec : EqDecision Term.
Proof. refine (fun a b => cast_if (decide (encode_term a = encode_term b))); [| congruence]. by rewrite <- (decode_encode_term a), e, decode_encode_term. Defined.
#[global] Instance Term_countable : Countable Term := inj_countable' encode_term decode_term decode_encode_term.

Definition isConst (t : Term) : bool := match t with Constant _ | BoolConstant _ => true | _ => false end.
Definition d_true : Term := BoolConstant true.
Definition d_false : Term := BoolConstant false.

(** ** Data *)
Inductive FunctionApplicationType : Set := APP_EQUALITY | APP_UNINTERPRETED | APP_INTERPRETED.
#[global] Instance FunctionApplicationType_eq_dec : EqDecision FunctionApplicationType.
Proof. solve_decision. Defined.
Record FunctionApplication : Set := MkApplication { fa_type : FunctionApplicationType; fa_a : nat; fa_b : nat }.
#[global] Instance FunctionApplication_eq_dec : EqDecision FunctionApplication.
Proof. solve_decision. Defined.
Definition encode_application (f : FunctionApplication) : nat * (nat * nat) := (match fa_type f with APP_EQUALITY => 0 | APP_UNINTERPRETED => 1 | APP_INTERPRETED => 2 end, (fa_a f, fa_b f)).
Definition decode_application (c : nat * (nat * nat)) : FunctionApplication :=
  MkApplication (match c.1 with 0 => APP_EQUALITY | 1 => APP_UNINTERPRETED | _ => APP_INTERPRETED end) c.2.1 c.2.2.
#[global] Instance FunctionApplication_countable : Countable FunctionApplication.
Proof. apply (inj_countable' encode_application decode_application). by intros [[] a b]. Defined.
Definition isEquality (f : FunctionApplication) : bool := match fa_type f with APP_EQUALITY => true | _ => false end.
Record FunctionApplicationPair : Set := MkPair { original : FunctionApplication; normalized : FunctionApplication }.

(** [unsigned type] and [TNode reason]; a theory may ask for types of its own. *)
Inductive MergeReasonType : Set :=
  | MERGED_THROUGH_CONGRUENCE | MERGED_THROUGH_EQUALITY | MERGED_THROUGH_REFLEXIVITY | MERGED_THROUGH_CONSTANTS | MERGED_THROUGH_TRANS | THEORY_REASON (n : nat).
Record MergeCandidate : Set := MkCandidate { t1Id : nat; t2Id : nat; mc_type : MergeReasonType; mc_reason : option Term }.
Record EqualityEdge : Set := MkEdge { d_nodeId : nat; d_next : option nat; d_mergeType : MergeReasonType; d_reason : option Term }.
Record EqualityNode : Set := MkEqualityNode { d_size : nat; d_findId : nat; d_nextId : nat; d_useList : option nat }.
Record NodeInfo : Set := MkNodeInfo { nd_node : Term; nd_application : option FunctionApplicationPair; nd_isConstant : bool; nd_isEquality : bool; nd_isInternal : bool }.
(** The members of type [context::CDO]. *)
Record Counters : Set := MkCounters { d_done : bool; d_nodesCount : nat; d_applicationLookupsCount : nat; d_assertedEqualitiesCount : nat }.
Record EqualityEngine : Set := MkEE {
  d_congruenceKinds : list positive;
  d_nodeIds : gmap Term nat;
  d_nodes : list NodeInfo;
  d_equalityNodes : list EqualityNode;
  d_equalityGraph : list (option nat);
  d_useListNodes : list (nat * option nat);
  d_applicationLookup : gmap FunctionApplication nat;
  d_applicationLookups : list FunctionApplication;
  d_assertedEqualities : list (option (nat * nat));
  d_equalityEdges : list EqualityEdge;
  d_propagationQueue : list MergeCandidate;
  d_counters : Counters;
  d_saved : list Counters
}.
Abbreviation EM := (SM EqualityEngine).
Definition put_kinds (x : list positive) (s : EqualityEngine) : EqualityEngine := MkEE x (d_nodeIds s) (d_nodes s) (d_equalityNodes s) (d_equalityGraph s) (d_useListNodes s) (d_applicationLookup s) (d_applicationLookups s) (d_assertedEqualities s) (d_equalityEdges s) (d_propagationQueue s) (d_counters s) (d_saved s).
Definition put_nodeIds (x : gmap Term nat) (s : EqualityEngine) : EqualityEngine := MkEE (d_congruenceKinds s) x (d_nodes s) (d_equalityNodes s) (d_equalityGraph s) (d_useListNodes s) (d_applicationLookup s) (d_applicationLookups s) (d_assertedEqualities s) (d_equalityEdges s) (d_propagationQueue s) (d_counters s) (d_saved s).
Definition put_nodes (x : list NodeInfo) (s : EqualityEngine) : EqualityEngine := MkEE (d_congruenceKinds s) (d_nodeIds s) x (d_equalityNodes s) (d_equalityGraph s) (d_useListNodes s) (d_applicationLookup s) (d_applicationLookups s) (d_assertedEqualities s) (d_equalityEdges s) (d_propagationQueue s) (d_counters s) (d_saved s).
Definition put_equalityNodes (x : list EqualityNode) (s : EqualityEngine) : EqualityEngine := MkEE (d_congruenceKinds s) (d_nodeIds s) (d_nodes s) x (d_equalityGraph s) (d_useListNodes s) (d_applicationLookup s) (d_applicationLookups s) (d_assertedEqualities s) (d_equalityEdges s) (d_propagationQueue s) (d_counters s) (d_saved s).
Definition put_graph (x : list (option nat)) (s : EqualityEngine) : EqualityEngine := MkEE (d_congruenceKinds s) (d_nodeIds s) (d_nodes s) (d_equalityNodes s) x (d_useListNodes s) (d_applicationLookup s) (d_applicationLookups s) (d_assertedEqualities s) (d_equalityEdges s) (d_propagationQueue s) (d_counters s) (d_saved s).
Definition put_useLists (x : list (nat * option nat)) (s : EqualityEngine) : EqualityEngine := MkEE (d_congruenceKinds s) (d_nodeIds s) (d_nodes s) (d_equalityNodes s) (d_equalityGraph s) x (d_applicationLookup s) (d_applicationLookups s) (d_assertedEqualities s) (d_equalityEdges s) (d_propagationQueue s) (d_counters s) (d_saved s).
Definition put_lookup (x : gmap FunctionApplication nat) (s : EqualityEngine) : EqualityEngine := MkEE (d_congruenceKinds s) (d_nodeIds s) (d_nodes s) (d_equalityNodes s) (d_equalityGraph s) (d_useListNodes s) x (d_applicationLookups s) (d_assertedEqualities s) (d_equalityEdges s) (d_propagationQueue s) (d_counters s) (d_saved s).
Definition put_lookups (x : list FunctionApplication) (s : EqualityEngine) : EqualityEngine := MkEE (d_congruenceKinds s) (d_nodeIds s) (d_nodes s) (d_equalityNodes s) (d_equalityGraph s) (d_useListNodes s) (d_applicationLookup s) x (d_assertedEqualities s) (d_equalityEdges s) (d_propagationQueue s) (d_counters s) (d_saved s).
Definition put_asserted (x : list (option (nat * nat))) (s : EqualityEngine) : EqualityEngine := MkEE (d_congruenceKinds s) (d_nodeIds s) (d_nodes s) (d_equalityNodes s) (d_equalityGraph s) (d_useListNodes s) (d_applicationLookup s) (d_applicationLookups s) x (d_equalityEdges s) (d_propagationQueue s) (d_counters s) (d_saved s).
Definition put_edges (x : list EqualityEdge) (s : EqualityEngine) : EqualityEngine := MkEE (d_congruenceKinds s) (d_nodeIds s) (d_nodes s) (d_equalityNodes s) (d_equalityGraph s) (d_useListNodes s) (d_applicationLookup s) (d_applicationLookups s) (d_assertedEqualities s) x (d_propagationQueue s) (d_counters s) (d_saved s).
Definition put_queue (x : list MergeCandidate) (s : EqualityEngine) : EqualityEngine := MkEE (d_congruenceKinds s) (d_nodeIds s) (d_nodes s) (d_equalityNodes s) (d_equalityGraph s) (d_useListNodes s) (d_applicationLookup s) (d_applicationLookups s) (d_assertedEqualities s) (d_equalityEdges s) x (d_counters s) (d_saved s).
Definition put_counters (x : Counters) (s : EqualityEngine) : EqualityEngine := MkEE (d_congruenceKinds s) (d_nodeIds s) (d_nodes s) (d_equalityNodes s) (d_equalityGraph s) (d_useListNodes s) (d_applicationLookup s) (d_applicationLookups s) (d_assertedEqualities s) (d_equalityEdges s) (d_propagationQueue s) x (d_saved s).
Definition put_saved (x : list Counters) (s : EqualityEngine) : EqualityEngine := MkEE (d_congruenceKinds s) (d_nodeIds s) (d_nodes s) (d_equalityNodes s) (d_equalityGraph s) (d_useListNodes s) (d_applicationLookup s) (d_applicationLookups s) (d_assertedEqualities s) (d_equalityEdges s) (d_propagationQueue s) (d_counters s) x.

(** ** Access *)
Definition hasTerm (t : Term) : EM bool := gets (fun s => bool_decide (is_Some (d_nodeIds s !! t))).
Definition getNodeId (t : Term) : EM nat := fun s => match d_nodeIds s !! t with Some i => Ok (i, s) | None => Throw AssertionFailed end.
Definition getEqualityNode (i : nat) : EM EqualityNode := fun s => match d_equalityNodes s !! i with Some n => Ok (n, s) | None => Throw AssertionFailed end.
Definition getFind (i : nat) : EM nat := n ← getEqualityNode i; mret (d_findId n).
Definition node_info (i : nat) : EM NodeInfo := fun s => match d_nodes s !! i with Some n => Ok (n, s) | None => Throw OutOfBounds end.
Definition write_node (i : nat) (n : EqualityNode) : EM unit := modify (fun s => put_equalityNodes (<[i:=n]> (d_equalityNodes s)) s).
Definition setFind (i : nat) (find : nat) : EM unit := n ← getEqualityNode i; write_node i (MkEqualityNode (d_size n) find (d_nextId n) (d_useList n)).
Definition is_done : EM bool := gets (fun s => d_done (d_counters s)).
Definition d_trueId : nat := 0.
Definition d_falseId : nat := 1.
Definition enqueue (candidate : MergeCandidate) : EM unit := modify (fun s => put_queue (d_propagationQueue s ++ [candidate]) s).

(** ** New nodes *)
Definition set_lookupsCount (n : nat) (c : Counters) : Counters := MkCounters (d_done c) (d_nodesCount c) n (d_assertedEqualitiesCount c).
Definition set_nodesCount (n : nat) (c : Counters) : Counters := MkCounters (d_done c) n (d_applicationLookupsCount c) (d_assertedEqualitiesCount c).
Definition set_assertedCount (n : nat) (c : Counters) : Counters := MkCounters (d_done c) (d_nodesCount c) (d_applicationLookupsCount c) n.
Definition set_done (b : bool) (c : Counters) : Counters := MkCounters b (d_nodesCount c) (d_applicationLookupsCount c) (d_assertedEqualitiesCount c).
Definition on_counters (f : Counters -> Counters) : EM unit := modify (fun s => put_counters (f (d_counters s)) s).

Definition storeApplicationLookup (funNormalized : FunctionApplication) (funId : nat) : EM unit :=
  m ← gets d_applicationLookup;
  _ ← lift (check AssertionFailed (bool_decide (m !! funNormalized = None)));
  _ ← modify (put_lookup (<[funNormalized:=funId]> m));
  _ ← modify (fun s => put_lookups (d_applicationLookups s ++ [funNormalized]) s);
  _ ← on_counters (fun c => set_lookupsCount (S (d_applicationLookupsCount c)) c);
  n ← gets (fun s => d_applicationLookupsCount (d_counters s)); len ← gets (fun s => length (d_applicationLookups s));
  _ ← lift (check AssertionFailed (n =? len));
  if isEquality funNormalized then
    if fa_a funNormalized =? fa_b funNormalized then enqueue (MkCandidate funId d_trueId MERGED_THROUGH_REFLEXIVITY None)
    else
      a ← node_info (fa_a funNormalized); b ← node_info (fa_b funNormalized);
      if nd_isConstant a && nd_isConstant b then enqueue (MkCandidate funId d_falseId MERGED_THROUGH_CONSTANTS None) else mret tt
  else mret tt.
Definition newNode (node : Term) : EM nat :=
  newId ← gets (fun s => length (d_nodes s));
  _ ← modify (fun s => put_nodeIds (<[node:=newId]> (d_nodeIds s)) s);
  _ ← modify (fun s => put_nodes (d_nodes s ++ [MkNodeInfo node None false false true]) s);
  _ ← modify (fun s => put_graph (d_equalityGraph s ++ [None]) s);
  _ ← modify (fun s => put_equalityNodes (d_equalityNodes s ++ [MkEqualityNode 1 newId newId None]) s);
  _ ← on_counters (fun c => set_nodesCount (S (d_nodesCount c)) c);
  mret newId.
Definition update_info (i : nat) (f : NodeInfo -> NodeInfo) : EM unit := n ← node_info i; modify (fun s => put_nodes (<[i:=f n]> (d_nodes s)) s).
Definition set_application (p : FunctionApplicationPair) (n : NodeInfo) : NodeInfo := MkNodeInfo (nd_node n) (Some p) (nd_isConstant n) (nd_isEquality n) (nd_isInternal n).
(** [d_isInternal[i] = ...; d_isConstant[i] = ...; d_isEquality[i] = ...] *)
Definition set_flags (constant equality internal : bool) (n : NodeInfo) : NodeInfo := MkNodeInfo (nd_node n) (nd_application n) constant equality internal.
(** [EqualityNode::usedIn] *)
Definition usedIn (i : nat) (funId : nat) : EM unit :=
  n ← getEqualityNode i;
  newUseId ← gets (fun s => length (d_useListNodes s));
  _ ← modify (fun s => put_useLists (d_useListNodes s ++ [(funId, d_useList n)]) s);
  write_node i (MkEqualityNode (d_size n) (d_findId n) (d_nextId n) (Some newUseId)).
Definition newApplicationNode (orig : Term) (t1 t2 : nat) (type : FunctionApplicationType) : EM nat :=
  funId ← newNode orig;
  t1ClassId ← getFind t1; t2ClassId ← getFind t2;
  let funNormalized := MkApplication type t1ClassId t2ClassId in
  _ ← update_info funId (set_application (MkPair (MkApplication type t1 t2) funNormalized));
  m ← gets d_applicationLookup;
  _ ← match m !! funNormalized with
      | None => storeApplicationLookup funNormalized funId
      | Some f => enqueue (MkCandidate funId f MERGED_THROUGH_CONGRUENCE None)
      end;
  _ ← usedIn t1 funId;
  _ ← usedIn t2 funId;
  mret funId.

(** ** Merging *)
(** The first loop of [merge]: the representatives of class 2; from [currentId] around the class. *)
Fixpoint find_loop (fuel : nat) (class1Id class2Id currentId : nat) : EM unit :=
  match fuel with
  | O => lift (Throw OutOfFuel)
  | S fuel' =>
      _ ← setFind currentId class1Id;
      n ← getEqualityNode currentId;
      if d_nextId n =? class2Id then mret tt else find_loop fuel' class1Id class2Id (d_nextId n)
  end.
(** "Check if there is an application with find arguments" *)
Definition update_lookup (funId : nat) : EM unit :=
  info ← node_info funId;
  match nd_application info with
  | None => lift (Throw OutOfBounds)
  | Some p =>
      let fun_ := normalized p in
      aNormalized ← getFind (fa_a fun_); bNormalized ← getFind (fa_b fun_);
      let funNormalized := MkApplication (fa_type fun_) aNormalized bNormalized in
      m ← gets d_applicationLookup;
      match m !! funNormalized with
      | Some f =>
          x ← getFind funId; y ← getFind f;
          if negb (x =? y) then enqueue (MkCandidate funId f MERGED_THROUGH_CONGRUENCE None) else mret tt
      | None => storeApplicationLookup funNormalized funId
      end
  end.
(** The applications of one use list. *)
Fixpoint use_loop (fuel : nat) (currentUseId : option nat) : EM unit :=
  match currentUseId with
  | None => mret tt
  | Some u =>
      match fuel with
      | O => lift (Throw OutOfFuel)
      | S fuel' =>
          mem ← gets d_useListNodes;
          match mem !! u with
          | None => lift (Throw OutOfBounds)
          | Some (funId, next) => _ ← update_lookup funId; use_loop fuel' next
          end
      end
  end.
Fixpoint lookup_loop (fuel : nat) (class2Id currentId : nat) : EM unit :=
  match fuel with
  | O => lift (Throw OutOfFuel)
  | S fuel' =>
      n ← getEqualityNode currentId;
      len ← gets (fun s => length (d_useListNodes s));
      _ ← use_loop len (d_useList n);
      if d_nextId n =? class2Id then mret tt else lookup_loop fuel' class2Id (d_nextId n)
  end.
(** [EqualityNode::merge<addSize>] *)
Definition merge_lists (addSize : bool) (class1Id class2Id : nat) : EM unit :=
  n1 ← getEqualityNode class1Id; n2 ← getEqualityNode class2Id;
  _ ← write_node class1Id (MkEqualityNode (if addSize then d_size n1 + d_size n2 else d_size n1 - d_size n2) (d_findId n1) (d_nextId n2) (d_useList n1));
  write_node class2Id (MkEqualityNode (d_size n2) (d_findId n2) (d_nextId n1) (d_useList n2)).
Definition merge (class1Id class2Id : nat) : EM unit :=
  i1 ← node_info class1Id; i2 ← node_info class2Id;
  id1 ← getNodeId (nd_node i1); _ ← getEqualityNode id1;
  id2 ← getNodeId (nd_node i2); _ ← getEqualityNode id2;
  _ ← lift (check AssertionFailed (nd_isConstant i1 || negb (nd_isConstant i2)));
  _ ← lift (check AssertionFailed (negb (nd_isConstant i1) || negb (nd_isConstant i2)));
  fuel ← gets (fun s => length (d_equalityNodes s));
  _ ← find_loop fuel class1Id class2Id class2Id;
  _ ← (if negb (nd_isEquality i2) then lookup_loop fuel class2Id class2Id else mret tt);
  merge_lists true class1Id class2Id.
Definition addGraphEdge (t1 t2 : nat) (type : MergeReasonType) (reason : option Term) : EM unit := fun s =>
  match d_equalityGraph s !! t1, d_equalityGraph s !! t2 with
  | Some g1, Some g2 =>
      let edge := length (d_equalityEdges s) in
      Ok (tt, put_graph (<[t2:=Some (Nat.lor edge 1)]> (<[t1:=Some edge]> (d_equalityGraph s)))
        (put_edges (d_equalityEdges s ++ [MkEdge t2 g1 type reason; MkEdge t1 g2 type reason]) s))
  | _, _ => Throw OutOfBounds
  end.
(** [d_assertedEqualities.push_back(Equality(lhs, rhs)); d_assertedEqualitiesCount = d_assertedEqualitiesCount + 1;] *)
Definition push_asserted (e : option (nat * nat)) : EM unit :=
  _ ← modify (fun s => put_asserted (d_assertedEqualities s ++ [e]) s);
  on_counters (fun c => set_assertedCount (S (d_assertedEqualitiesCount c)) c).
(** "Figure out the merge preference": whether class 1 is merged into class 2. *)
Definition merge_into_second (i1 i2 : NodeInfo) (n1 n2 : EqualityNode) : bool :=
  if negb (Bool.eqb (nd_isInternal i2) (nd_isInternal i1)) then nd_isInternal i1
  else if negb (Bool.eqb (nd_isConstant i2) (nd_isConstant i1)) then nd_isConstant i2
  else d_size n1 <? d_size n2.
(** One candidate from the front of the queue. *)
Definition propagate_one (current : MergeCandidate) : EM unit :=
  t1classId ← getFind (t1Id current); t2classId ← getFind (t2Id current);
  if t1classId =? t2classId then mret tt
  else
    node1 ← getEqualityNode t1classId; node2 ← getEqualityNode t2classId;
    _ ← lift (check AssertionFailed (d_findId node1 =? t1classId));
    _ ← lift (check AssertionFailed (d_findId node2 =? t2classId));
    _ ← addGraphEdge (t1Id current) (t2Id current) (mc_type current) (mc_reason current);
    i1 ← node_info t1classId; i2 ← node_info t2classId;
    if nd_isConstant i1 && nd_isConstant i2 then
      _ ← on_counters (set_done true);
      push_asserted None
    else if merge_into_second i1 i2 node1 node2 then
      _ ← push_asserted (Some (t2classId, t1classId));
      merge t2classId t1classId
    else
      _ ← push_asserted (Some (t1classId, t2classId));
      merge t1classId t2classId.
Fixpoint propagate_loop (fuel : nat) : EM unit :=
  queue ← gets d_propagationQueue;
  match queue with
  | [] => mret tt
  | current :: rest =>
      match fuel with
      | O => lift (Throw OutOfFuel)
      | S fuel' =>
          done ← is_done;
          if done : bool then _ ← modify (put_queue []); propagate_loop fuel'
          else _ ← modify (put_queue rest); _ ← propagate_one current; propagate_loop fuel'
      end
  end.
(** A merge leaves one class less and enqueues at most one candidate for each element of a use list. *)
Definition propagate : EM unit := fun s =>
  propagate_loop (S (length (d_propagationQueue s) + length (d_nodes s) * S (length (d_nodes s) * length (d_useListNodes s)))) s.

(** ** Terms *)
(** The last case of [addTermInternal]: a term that is not taken apart, or an operator. *)
Definition add_leaf (t : Term) (isOperator : bool) : EM unit :=
  result ← newNode t;
  update_info result (set_flags (negb isOperator && isConst t) false isOperator).
(** [addTermInternal(tOp, true)] *)
Definition add_operator (op : Op) : EM unit :=
  h ← hasTerm (Operator op);
  done ← is_done;
  if h || done then mret tt
  else _ ← add_leaf (Operator op) true; propagate.
Definition congruent (op : Op) (args : list Term) : EM bool :=
  kinds ← gets d_congruenceKinds;
  mret (match args with [] => false | _ => bool_decide (op_kind op ∈ kinds) end).
(** The partial applications of [t] to its arguments, each of which is added first. *)
Definition curryfy (add : Term -> EM unit) (t : Term) : list Term -> nat -> EM nat :=
  fix go (l : list Term) (result : nat) : EM nat :=
    match l with
    | [] => mret result
    | x :: l =>
        _ ← add x;
        tiId ← getNodeId x;
        result ← newApplicationNode t result tiId APP_UNINTERPRETED;
        go l result
    end.
Fixpoint addTermInternal (t : Term) : EM unit :=
  h ← hasTerm t;
  if h : bool then mret tt
  else
    done ← is_done;
    if done : bool then mret tt
    else
      _ ← match t with
          | Equal a b =>
              _ ← addTermInternal a; _ ← addTermInternal b;
              t0id ← getNodeId a; t1id ← getNodeId b;
              result ← newApplicationNode t t0id t1id APP_EQUALITY;
              update_info result (set_flags false true false)
          | Apply op args =>
              c ← congruent op args;
              if c : bool then
                _ ← add_operator op;
                result ← getNodeId (Operator op);
                result ← curryfy addTermInternal t args result;
                update_info result (set_flags (isConst t) false false)
              else add_leaf t false
          | _ => add_leaf t false
          end;
      _ ← propagate;
      h ← hasTerm t;
      lift (check AssertionFailed h).
(** [addTerm], and [addFunctionKind] of a kind that is not interpreted *)
Definition addTerm (t : Term) : EM unit := addTermInternal t.
Definition addFunctionKind (fun_ : positive) : EM unit := modify (fun s => put_kinds (fun_ :: d_congruenceKinds s) s).
Definition new_EqualityEngine (kinds : list positive) : M EqualityEngine :=
  '(_, s) ← (_ ← addTermInternal d_true; addTermInternal d_false) (MkEE kinds ∅ [] [] [] [] ∅ [] [] [] [] (MkCounters false 0 0 0) []);
  Ok s.

(** ** Queries *)
Definition areEqual (t1 t2 : Term) : EM bool :=
  i1 ← getNodeId t1; i2 ← getNodeId t2;
  f1 ← getFind i1; f2 ← getFind i2;
  mret (f1 =? f2).
Definition getRepresentative (t : Term) : EM Term :=
  i ← getNodeId t; r ← getFind i;
  info ← node_info r;
  _ ← lift (check AssertionFailed (negb (nd_isInternal info)));
  mret (nd_node info).
(** The equality of two classes is known to be false. *)
Definition known_false (a b : nat) : EM bool :=
  m ← gets d_applicationLookup;
  match m !! MkApplication APP_EQUALITY a b with
  | None => mret false
  | Some e => x ← getFind e; y ← getFind d_falseId; mret (x =? y)
  end.
(** [areDisequal(t1, t2, false)] *)
Definition areDisequal (t1 t2 : Term) : EM bool :=
  i1 ← getNodeId t1; i2 ← getNodeId t2;
  t1ClassId ← getFind i1; t2ClassId ← getFind i2;
  c1 ← node_info t1ClassId; c2 ← node_info t2ClassId;
  if nd_isConstant c1 && nd_isConstant c2 && negb (t1ClassId =? t2ClassId) then mret true
  else
    b ← known_false t1ClassId t2ClassId;
    if b : bool then mret true else known_false t2ClassId t1ClassId.

(** ** Assertions *)
Definition assertEqualityInternal (t1 t2 : Term) (reason : option Term) (pid : MergeReasonType) : EM unit :=
  done ← is_done;
  if done : bool then mret tt
  else
    _ ← addTermInternal t1; _ ← addTermInternal t2;
    i1 ← getNodeId t1; i2 ← getNodeId t2;
    enqueue (MkCandidate i1 i2 pid reason).
Definition assertPredicate (t : Term) (polarity : bool) (reason : option Term) (pid : MergeReasonType) : EM unit :=
  _ ← lift (check AssertionFailed (match t with Equal _ _ => false | _ => true end));
  _ ← assertEqualityInternal t (if polarity then d_true else d_false) reason pid;
  propagate.
Definition mergePredicates (p q : Term) (reason : option Term) : EM unit :=
  _ ← assertEqualityInternal p q reason MERGED_THROUGH_EQUALITY;
  propagate.
(** [hasTerm(eq[0]) && hasTerm(eq[1]) && q(eq[0], eq[1])] *)
Definition both_known (a b : Term) (q : EM bool) : EM bool :=
  ha ← hasTerm a; hb ← hasTerm b; if ha && hb then q else mret false.
(** The end of [assertEquality]: without trigger sets nobody is notified, and the terms are only looked up. *)
Definition after_disequality (a b : Term) : EM unit :=
  done ← is_done;
  if done : bool then mret tt
  else
    ia ← getNodeId a; ib ← getNodeId b;
    aClassId ← getFind ia; bClassId ← getFind ib;
    ca ← node_info aClassId; cb ← node_info bClassId;
    if nd_isConstant ca && nd_isConstant cb then mret tt
    else _ ← getNodeId (Equal a b); mret tt.
Definition assertEquality (a b : Term) (polarity : bool) (reason : option Term) (pid : MergeReasonType) : EM unit :=
  if polarity then
    known ← both_known a b (areEqual a b);
    if known : bool then mret tt
    else _ ← assertEqualityInternal a b reason pid; propagate
  else
    known ← both_known a b (areDisequal a b);
    if known : bool then mret tt
    else _ ← assertEqualityInternal (Equal a b) d_false reason pid; _ ← propagate; after_disequality a b.

(** ** Backtracking *)
Definition undoMerge (class1Id class2Id : nat) : EM unit :=
  _ ← merge_lists false class1Id class2Id;
  fuel ← gets (fun s => length (d_equalityNodes s));
  find_loop fuel class2Id class2Id class2Id.
(** From the last to the first. *)
Fixpoint undo_merges (l : list (option (nat * nat))) : EM unit :=
  match l with
  | [] => mret tt
  | None :: l => undo_merges l
  | Some (lhs, rhs) :: l => _ ← undoMerge lhs rhs; undo_merges l
  end.
(** The pairs of edges from the last to the first, [edges] in reverse. *)
Fixpoint undo_edges (edges : list EqualityEdge) : EM unit :=
  match edges with
  | edge2 :: edge1 :: edges =>
      _ ← modify (fun s => put_graph (<[d_nodeId edge2:=d_next edge1]> (d_equalityGraph s)) s);
      _ ← modify (fun s => put_graph (<[d_nodeId edge1:=d_next edge2]> (d_equalityGraph s)) s);
      undo_edges edges
  | _ => mret tt
  end.
(** [EqualityNode::removeTopFromUseList] *)
Definition removeTopFromUseList (i : nat) : EM unit :=
  n ← getEqualityNode i;
  mem ← gets d_useListNodes;
  match last mem with
  | None => lift (Throw AssertionFailed)
  | Some (_, next) =>
      _ ← lift (check AssertionFailed (bool_decide (d_useList n = Some (length mem - 1))));
      _ ← write_node i (MkEqualityNode (d_size n) (d_findId n) (d_nextId n) next);
      modify (put_useLists (take (length mem - 1) mem))
  end.
Fixpoint undo_nodes (l : list NodeInfo) : EM unit :=
  match l with
  | [] => mret tt
  | info :: l =>
      _ ← modify (fun s => put_nodeIds (delete (nd_node info) (d_nodeIds s)) s);
      _ ← match nd_application info with
          | None => mret tt
          | Some p => _ ← removeTopFromUseList (fa_b (original p)); removeTopFromUseList (fa_a (original p))
          end;
      undo_nodes l
  end.
Definition backtrack_merges : EM unit :=
  n ← gets (fun s => d_assertedEqualitiesCount (d_counters s));
  asserted ← gets d_assertedEqualities;
  if n <? length asserted then
    _ ← modify (put_queue []);
    _ ← undo_merges (rev (drop n asserted));
    _ ← modify (put_asserted (take n asserted));
    edges ← gets d_equalityEdges;
    _ ← undo_edges (rev (drop (2 * n) edges));
    modify (put_edges (take (2 * n) edges))
  else mret tt.
Definition backtrack_lookups : EM unit :=
  n ← gets (fun s => d_applicationLookupsCount (d_counters s));
  lookups ← gets d_applicationLookups;
  if n <? length lookups then
    _ ← modify (fun s => put_lookup (foldr delete (d_applicationLookup s) (drop n lookups)) s);
    modify (put_lookups (take n lookups))
  else mret tt.
Definition backtrack_nodes : EM unit :=
  n ← gets (fun s => d_nodesCount (d_counters s));
  nodes ← gets d_nodes;
  if n <? length nodes then
    _ ← undo_nodes (rev (drop n nodes));
    _ ← modify (fun s => put_nodes (take n (d_nodes s)) s);
    _ ← modify (fun s => put_graph (take n (d_equalityGraph s)) s);
    modify (fun s => put_equalityNodes (take n (d_equalityNodes s)) s)
  else mret tt.
Definition backtrack : EM unit := _ ← backtrack_merges; _ ← backtrack_lookups; backtrack_nodes.

(** ** Scopes *)
Definition push : EM unit := modify (fun s => put_saved (d_counters s :: d_saved s) s).
(** The context restores the counters, and calls [contextNotifyPop]. *)
Definition pop : EM unit := fun s =>
  match d_saved s with
  | [] => Throw AssertionFailed
  | c :: saved => backtrack (put_counters c (put_saved saved s))
  end.
