(* ===== verification/EqualityClasses.v ===== *)
(** * The classes of the equality engine

    The nodes of a class form a ring through [d_nextId], with the representative carrying the
    size.  What the loops over a class compute, that [merge] joins two classes and that
    [undoMerge] takes them apart again, on the vector of equality nodes. *)

From S2P Require Import Prelude EqualityEngine.
Local Open Scope nat_scope.

(** ** Runs *)
Lemma run_node {B} i n (f : EqualityNode -> EM B) s : d_equalityNodes s !! i = Some n -> (mbind f (getEqualityNode i)) s = f n s.
Proof. intros E. apply run_bind. unfold getEqualityNode. by rewrite E. Qed.

Lemma run_id {X} t i (f : nat -> EM X) s : d_nodeIds s !! t = Some i -> (mbind f (getNodeId t)) s = f i s.
Proof. intros E. apply run_bind. unfold getNodeId. by rewrite E. Qed.

(** ** Vectors of equality nodes *)
Abbreviation vec := (list EqualityNode).
Definition fnd (E : vec) (i : nat) : nat := match E !! i with Some n => d_findId n | None => i end.
Lemma fnd_Some (E : vec) i n : E !! i = Some n -> fnd E i = d_findId n.
Proof. unfold fnd. by intros ->. Qed.
Lemma run_find {B} i (f : nat -> EM B) s : i < length (d_equalityNodes s) -> (mbind f (getFind i)) s = f (fnd (d_equalityNodes s) i) s.
Proof.
  intros [n Hn]%lookup_lt_is_Some_2. apply run_bind. unfold getFind. rewrite (run_node _ n) by done. by rewrite (fnd_Some _ _ _ Hn).
Qed.

(** Consecutive elements are linked. *)
Fixpoint chain (E : vec) (l : list nat) : Prop :=
  match l with
  | x :: (y :: _) as t => (exists n, E !! x = Some n /\ d_nextId n = y) /\ chain E t
  | _ => True
  end.
Lemma chain_app E l1 x l2 : chain E (l1 ++ x :: l2) <-> chain E (l1 ++ [x]) /\ chain E (x :: l2).
Proof.
  induction l1 as [|y l1 IH]; cbn [app]; [cbn; tauto |]. destruct l1 as [|z l1]; cbn [app] in *; [cbn; tauto |].
  change (chain E (y :: z :: l1 ++ x :: l2)) with ((exists n, E !! y = Some n /\ d_nextId n = z) /\ chain E (z :: l1 ++ x :: l2)).
  change (chain E (y :: z :: l1 ++ [x])) with ((exists n, E !! y = Some n /\ d_nextId n = z) /\ chain E (z :: l1 ++ [x])).
  rewrite IH. tauto.
Qed.
(** A chain depends on the links of all but its last element. *)
Lemma chain_ext E E' l : (forall x, x ∈ removelast l -> d_nextId <$> E !! x = d_nextId <$> E' !! x) -> chain E l -> chain E' l.
Proof.
  induction l as [|x l IH]; [done |]. destruct l as [|y l]; [done |]. intros Hx [(n & Hn & Hy) Hl]. split.
  - specialize (Hx x ltac:(by left)). rewrite Hn in Hx. destruct (E' !! x) as [n'|]; [| done]. exists n'. split; [done |]. cbn in Hx. congruence.
  - apply IH; [| done]. intros z Hz. apply Hx. by right.
Qed.

Lemma chain_head E E' a b l : l <> [] -> chain E (a :: l) -> d_nextId <$> E' !! b = d_nextId <$> E !! a ->
  (forall x, x ∈ removelast l -> d_nextId <$> E !! x = d_nextId <$> E' !! x) -> chain E' (b :: l).
Proof.
  intros Hl Hc Hb Hx. destruct l as [|y l]; [done |]. destruct Hc as [(n & Hn & Hy) Hc]. split; [| by eapply chain_ext].
  rewrite Hn in Hb. destruct (E' !! b) as [n'|]; [| done]. exists n'. split; [done |]. cbn in Hb. congruence.
Qed.

Definition set_find (f : nat) (n : EqualityNode) : EqualityNode := MkEqualityNode (d_size n) f (d_nextId n) (d_useList n).
Definition set_finds (f : nat) (L : list nat) (E : vec) : vec := imap (fun i n => if decide (i ∈ L) then set_find f n else n) E.
Lemma lookup_set_finds f L E i : set_finds f L E !! i = (if decide (i ∈ L) then set_find f else id) <$> E !! i.
Proof. unfold set_finds. rewrite list_lookup_imap. destruct (E !! i); cbn; [| done]. by case_decide. Qed.
Lemma length_set_finds f L E : length (set_finds f L E) = length E.
Proof. apply length_imap. Qed.
Lemma fnd_set_finds f L E i : i < length E -> fnd (set_finds f L E) i = if decide (i ∈ L) then f else fnd E i.
Proof.
  intros [n Hn]%lookup_lt_is_Some_2. rewrite (fnd_Some E i n Hn). erewrite fnd_Some; [| rewrite lookup_set_finds, Hn; reflexivity]. by case_decide.
Qed.
Lemma set_finds_next f L E i : d_nextId <$> set_finds f L E !! i = d_nextId <$> E !! i.
Proof. rewrite lookup_set_finds. destruct (E !! i); cbn; [| done]. by case_decide. Qed.
Lemma set_finds_trans f L1 L2 E : set_finds f L2 (set_finds f L1 E) = set_finds f (L1 ++ L2) E.
Proof.
  apply list_eq. intros i. rewrite !lookup_set_finds. destruct (E !! i) as [n|]; cbn; [| done]. f_equal.
  destruct (decide (i ∈ L1)), (decide (i ∈ L2)), (decide (i ∈ L1 ++ L2)) as [Hin|Hin]; try done; exfalso; set_solver.
Qed.
Lemma setFind_run c f s n : d_equalityNodes s !! c = Some n -> setFind c f s = Ok (tt, put_equalityNodes (set_finds f [c] (d_equalityNodes s)) s).
Proof.
  intros Hn. unfold setFind. rewrite (run_node _ n) by done. unfold write_node, modify. do 3 f_equal. apply list_eq. intros i. rewrite lookup_set_finds.
  destruct (decide (i = c)) as [-> |]; [rewrite list_lookup_insert_eq by (by eapply lookup_lt_Some); rewrite Hn; by rewrite decide_True by (by left) |].
  rewrite list_lookup_insert_ne by done. rewrite decide_False by (by intros ?%list_elem_of_singleton). by destruct (_ !! i).
Qed.
(** The loop around a class. *)
Lemma find_loop_ok f r fuel : forall s c l, chain (d_equalityNodes s) (c :: l ++ [r]) -> r ∉ l -> length l < fuel ->
  find_loop fuel f r c s = Ok (tt, put_equalityNodes (set_finds f (c :: l) (d_equalityNodes s)) s).
Proof.
  induction fuel as [|fuel IH]; intros s c l Hc Hr Hf; [lia |]. cbn [find_loop].
  assert (exists n, d_equalityNodes s !! c = Some n /\ d_nextId n = hd r l) as (n & Hn & Hx) by (destruct l; destruct Hc as [? _]; done).
  rewrite (run_bind (setFind_run _ _ _ _ Hn)). rewrite (run_node _ (set_find f n)); [| cbn; by rewrite lookup_set_finds, Hn, decide_True by (by left)].
  cbn [d_nextId set_find]. rewrite Hx. destruct l as [|y l]; cbn [hd].
  - by rewrite Nat.eqb_refl.
  - apply not_elem_of_cons in Hr as [Hry Hr]. rewrite (proj2 (Nat.eqb_neq y r)) by done. rewrite (IH _ y l).
    + cbn [d_equalityNodes put_equalityNodes]. by rewrite set_finds_trans.
    + destruct Hc as [_ Hc]. cbn [d_equalityNodes put_equalityNodes]. eapply chain_ext; [| exact Hc]. intros x _. symmetry. apply set_finds_next.
    + done.
    + cbn in Hf. lia.
Qed.

(** ** Classes *)
Record Class (E : vec) (r : nat) (l : list nat) : Prop := {
  class_chain : chain E (r :: l ++ [r]);
  class_nodup : NoDup (r :: l);
  class_in i : i ∈ r :: l <-> i < length E /\ fnd E i = r;
  class_size : d_size <$> E !! r = Some (S (length l))
}.
Record Classes (E : vec) : Prop := {
  classes_find i : i < length E -> fnd E i < length E /\ fnd E (fnd E i) = fnd E i;
  classes_class r : r < length E -> fnd E r = r -> exists l, Class E r l
}.
Lemma class_bound E r l : Class E r l -> length (r :: l) <= length E.
Proof.
  intros HC. assert (r :: l ⊆+ seq 0 (length E)) as Hs; [| apply submseteq_length in Hs; by rewrite length_seq in Hs].
  apply NoDup_submseteq; [apply HC |]. intros i Hi%(class_in _ _ _ HC). apply elem_of_seq. lia.
Qed.
(** Class 2 is given the representative of class 1, in the loop of [merge]. *)
Lemma find_class_ok s f r l : Class (d_equalityNodes s) r l ->
  find_loop (length (d_equalityNodes s)) f r r s = Ok (tt, put_equalityNodes (set_finds f (r :: l) (d_equalityNodes s)) s).
Proof.
  intros HC. pose proof (class_nodup _ _ _ HC) as [Hr _]%NoDup_cons. apply find_loop_ok; [apply HC | done |]. apply class_bound in HC. cbn in HC. lia.
Qed.

(** [EqualityNode::merge] *)
Definition join_lists (addSize : bool) (r1 r2 : nat) (E : vec) : vec :=
  match E !! r1, E !! r2 with
  | Some n1, Some n2 =>
      <[r2:=MkEqualityNode (d_size n2) (d_findId n2) (d_nextId n1) (d_useList n2)]>
        (<[r1:=MkEqualityNode (if addSize then d_size n1 + d_size n2 else d_size n1 - d_size n2) (d_findId n1) (d_nextId n2) (d_useList n1)]> E)
  | _, _ => E
  end.
Lemma merge_lists_run add r1 r2 s : r1 < length (d_equalityNodes s) -> r2 < length (d_equalityNodes s) ->
  merge_lists add r1 r2 s = Ok (tt, put_equalityNodes (join_lists add r1 r2 (d_equalityNodes s)) s).
Proof.
  intros [n1 H1]%lookup_lt_is_Some_2 [n2 H2]%lookup_lt_is_Some_2. unfold merge_lists, join_lists. rewrite (run_node _ n1), (run_node _ n2), H1, H2 by done. done.
Qed.
Lemma length_join_lists add r1 r2 E : length (join_lists add r1 r2 E) = length E.
Proof. unfold join_lists. destruct (E !! r1), (E !! r2); by rewrite ?length_insert. Qed.
Lemma lookup_join_lists add r1 r2 E n1 n2 i : E !! r1 = Some n1 -> E !! r2 = Some n2 -> r1 <> r2 ->
  join_lists add r1 r2 E !! i =
    if decide (i = r1) then Some (MkEqualityNode (if add then d_size n1 + d_size n2 else d_size n1 - d_size n2) (d_findId n1) (d_nextId n2) (d_useList n1))
    else if decide (i = r2) then Some (MkEqualityNode (d_size n2) (d_findId n2) (d_nextId n1) (d_useList n2))
    else E !! i.
Proof.
  intros H1 H2 Hne. unfold join_lists. rewrite H1, H2. pose proof (lookup_lt_Some _ _ _ H1). pose proof (lookup_lt_Some _ _ _ H2). repeat case_decide; subst.
  - rewrite list_lookup_insert_ne by done. by rewrite list_lookup_insert_eq.
  - by rewrite list_lookup_insert_eq by (rewrite length_insert; done).
  - by rewrite !list_lookup_insert_ne by done.
Qed.
Lemma fnd_join_lists add r1 r2 E i : r1 < length E -> r2 < length E -> r1 <> r2 -> fnd (join_lists add r1 r2 E) i = fnd E i.
Proof.
  intros [n1 H1]%lookup_lt_is_Some_2 [n2 H2]%lookup_lt_is_Some_2 Hne. unfold fnd. rewrite (lookup_join_lists _ _ _ _ n1 n2) by done. repeat case_decide; subst; by rewrite ?H1, ?H2.
Qed.
Lemma join_uses add r1 r2 E i : r1 < length E -> r2 < length E -> r1 <> r2 -> d_useList <$> join_lists add r1 r2 E !! i = d_useList <$> E !! i.
Proof.
  intros [n1 H1]%lookup_lt_is_Some_2 [n2 H2]%lookup_lt_is_Some_2 Hne. rewrite (lookup_join_lists _ _ _ _ n1 n2) by done. repeat case_decide; subst; by rewrite ?H1, ?H2.
Qed.

(** ** Joining two classes *)
Definition joined (r1 r2 : nat) (l2 : list nat) (E : vec) : vec := join_lists true r1 r2 (set_finds r1 (r2 :: l2) E).
Section join.
Context (E : vec) (r1 r2 : nat) (l1 l2 : list nat).
Hypothesis HC1 : Class E r1 l1.
Hypothesis HC2 : Class E r2 l2.
Hypothesis Hne : r1 <> r2.
Lemma class_rep r l : Class E r l -> r < length E /\ fnd E r = r.
Proof. intros HC. apply (class_in _ _ _ HC). by left. Qed.
Lemma join_disjoint i : i ∈ r1 :: l1 -> i ∈ r2 :: l2 -> False.
Proof. intros [_ H1]%(class_in _ _ _ HC1) [_ H2]%(class_in _ _ _ HC2). congruence. Qed.
Lemma joined_length : length (joined r1 r2 l2 E) = length E.
Proof. unfold joined. by rewrite length_join_lists, length_set_finds. Qed.
Lemma joined_fnd i : i < length E -> fnd (joined r1 r2 l2 E) i = if decide (fnd E i = r2) then r1 else fnd E i.
Proof.
  intros Hi. destruct (class_rep _ _ HC1) as [Hr1 _], (class_rep _ _ HC2) as [Hr2 _]. unfold joined. rewrite fnd_join_lists, fnd_set_finds; rewrite ?length_set_finds; try done.
  pose proof (class_in _ _ _ HC2 i) as Hin. repeat case_decide; try done; exfalso; tauto.
Qed.
(** The vector entry by entry. *)
Lemma joined_lookup i n1 n2 : E !! r1 = Some n1 -> E !! r2 = Some n2 -> joined r1 r2 l2 E !! i =
  if decide (i = r1) then Some (MkEqualityNode (d_size n1 + d_size n2) (d_findId n1) (d_nextId n2) (d_useList n1))
  else if decide (i = r2) then Some (MkEqualityNode (d_size n2) r1 (d_nextId n1) (d_useList n2))
  else set_finds r1 (r2 :: l2) E !! i.
Proof.
  intros H1 H2. unfold joined. assert (r1 ∉ r2 :: l2) as H12 by (intros Hin; apply (join_disjoint r1); [by left | done]).
  rewrite (lookup_join_lists true r1 r2 (set_finds r1 (r2 :: l2) E) n1 (set_find r1 n2)); [done | | | done].
  - by rewrite lookup_set_finds, H1, decide_False.
  - by rewrite lookup_set_finds, H2, decide_True by (by left).
Qed.
Lemma joined_next i : i <> r1 -> i <> r2 -> d_nextId <$> joined r1 r2 l2 E !! i = d_nextId <$> E !! i.
Proof.
  intros Hi1 Hi2. destruct (class_rep _ _ HC1) as [[n1 H1]%lookup_lt_is_Some_2 _], (class_rep _ _ HC2) as [[n2 H2]%lookup_lt_is_Some_2 _].
  rewrite (joined_lookup i n1 n2), !decide_False by done. apply set_finds_next.
Qed.
Lemma joined_class1 : Class (joined r1 r2 l2 E) r1 (l2 ++ r2 :: l1).
Proof.
  destruct (class_rep _ _ HC1) as [Hr1 Hf1], (class_rep _ _ HC2) as [Hr2 Hf2]. pose proof Hr1 as [n1 H1]%lookup_lt_is_Some_2. pose proof Hr2 as [n2 H2]%lookup_lt_is_Some_2.
  pose proof (class_nodup _ _ _ HC1) as Hnd1. pose proof (class_nodup _ _ _ HC2) as Hnd2. apply NoDup_cons in Hnd1 as Hd1, Hnd2 as Hd2. destruct Hd1 as [Hd1 _], Hd2 as [Hd2 _].
  assert (forall i, i ∈ l1 ++ l2 -> i <> r1 /\ i <> r2) as Hother.
  { intros i Hi. apply elem_of_app in Hi as [Hi | Hi]; split; intros ->; try done; [apply (join_disjoint r2) | apply (join_disjoint r1)]; first [by left | by right]. }
  split.
  - rewrite <- app_assoc. cbn [app]. change (r1 :: l2 ++ r2 :: l1 ++ [r1]) with ((r1 :: l2) ++ r2 :: (l1 ++ [r1])). apply chain_app. split.
    + cbn [app]. apply (chain_head E _ r2); [by destruct l2 | apply HC2 | |].
      * rewrite (joined_lookup r1 n1 n2), decide_True, H2 by done. done.
      * intros x Hx. rewrite removelast_last in Hx. symmetry. apply joined_next; apply Hother; apply elem_of_app; by right.
    + apply (chain_head E _ r1); [by destruct l1 | apply HC1 | |].
      * rewrite (joined_lookup r2 n1 n2), decide_False, decide_True, H1 by done. done.
      * intros x Hx. rewrite removelast_last in Hx. symmetry. apply joined_next; apply Hother; apply elem_of_app; by left.
  - assert (r1 :: l2 ++ r2 :: l1 ≡ₚ (r1 :: l1) ++ (r2 :: l2)) as -> by (cbn; solve_Permutation).
    apply NoDup_app. split; [done |]. split; [intros x Hx1 Hx2; by apply (join_disjoint x) | done].
  - intros i. rewrite joined_length. assert (i ∈ r1 :: l2 ++ r2 :: l1 <-> i ∈ r1 :: l1 \/ i ∈ r2 :: l2) as ->.
    { rewrite !elem_of_cons, elem_of_app, elem_of_cons. tauto. }
    rewrite (class_in _ _ _ HC1), (class_in _ _ _ HC2). split.
    + intros [[Hi E1] | [Hi E2]]; (split; [done |]); rewrite joined_fnd by done; case_decide; congruence.
    + intros [Hi Ef]. rewrite joined_fnd in Ef by done. case_decide; [by right | by left].
  - rewrite (joined_lookup r1 n1 n2), decide_True by done. pose proof (class_size _ _ _ HC1) as S1. pose proof (class_size _ _ _ HC2) as S2. rewrite H1 in S1. rewrite H2 in S2.
    cbn in *. injection S1 as ->. injection S2 as ->. f_equal. rewrite length_app. cbn. lia.
Qed.
Lemma joined_other r l : r <> r1 -> r <> r2 -> Class E r l -> Class (joined r1 r2 l2 E) r l.
Proof.
  intros Hr1 Hr2 HC. destruct (class_rep _ _ HC1) as [[n1 H1]%lookup_lt_is_Some_2 Hf1], (class_rep _ _ HC2) as [[n2 H2]%lookup_lt_is_Some_2 Hf2].
  assert (forall i, i ∈ r :: l -> i <> r1 /\ i <> r2) as Hother by (intros i [_ Hi]%(class_in _ _ _ HC); split; intros ->; congruence).
  split.
  - eapply chain_ext; [| apply HC]. intros x Hx. change (r :: l ++ [r]) with ((r :: l) ++ [r]) in Hx. rewrite removelast_last in Hx. symmetry. by apply joined_next; apply Hother.
  - apply HC.
  - intros i. rewrite joined_length, (class_in _ _ _ HC). split; intros [Hi Ef]; (split; [done |]); rewrite joined_fnd in * by done; case_decide; congruence.
  - rewrite (joined_lookup r n1 n2), !decide_False by done. rewrite <- (class_size _ _ _ HC), lookup_set_finds. destruct (E !! r); cbn; [| done]. by case_decide.
Qed.
Lemma joined_classes : Classes E -> Classes (joined r1 r2 l2 E).
Proof.
  intros [Hfind Hclass]. destruct (class_rep _ _ HC1) as [Hr1 Hf1]. split; rewrite joined_length.
  - intros i Hi. destruct (Hfind i Hi) as [Hlt Hid]. rewrite joined_fnd by done. case_decide as Ef; rewrite joined_fnd by done; (split; [done |]).
    + rewrite Hf1. by case_decide.
    + rewrite Hid. by case_decide.
  - intros r Hr Hrr. rewrite joined_fnd in Hrr by done. case_decide as Ef; [subst r; exists (l2 ++ r2 :: l1); apply joined_class1 |].
    destruct (decide (r = r1)) as [-> |]; [exists (l2 ++ r2 :: l1); apply joined_class1 |]. destruct (Hclass r Hr Hrr) as [l HC]. exists l. apply joined_other; congruence.
Qed.

(** [undoMerge] takes the classes apart. *)
Lemma joined_undo : set_finds r2 (r2 :: l2) (join_lists false r1 r2 (joined r1 r2 l2 E)) = E.
Proof.
  destruct (class_rep _ _ HC1) as [[n1 H1]%lookup_lt_is_Some_2 Hf1], (class_rep _ _ HC2) as [[n2 H2]%lookup_lt_is_Some_2 Hf2].
  rewrite (fnd_Some _ _ _ H1) in Hf1. rewrite (fnd_Some _ _ _ H2) in Hf2.
  apply list_eq. intros i. rewrite lookup_set_finds.
  erewrite lookup_join_lists; [| rewrite (joined_lookup r1 n1 n2), decide_True by done; reflexivity | rewrite (joined_lookup r2 n1 n2), decide_False, decide_True by done; reflexivity | done].
  cbn [d_size d_findId d_nextId d_useList]. destruct (decide (i = r1)) as [-> |].
  - rewrite decide_False; [| intros Hin; apply (join_disjoint r1); [by left | done]]. rewrite H1. cbn. f_equal. destruct n1. cbn. f_equal. lia.
  - destruct (decide (i = r2)) as [-> |]; [rewrite decide_True, H2 by (by left); destruct n2; cbn in *; by subst |].
    rewrite (joined_lookup i n1 n2) by done. rewrite (decide_False (P := i = r1)), (decide_False (P := i = r2)) by done. rewrite lookup_set_finds. destruct (E !! i) as [nd|] eqn:Hi; [| by destruct (decide _)]. cbn. f_equal. case_decide as Hin; [| done].
    apply (class_in _ _ _ HC2) in Hin as [_ Ef]. rewrite (fnd_Some _ _ _ Hi) in Ef. destruct nd. cbn in *. by subst.
Qed.
Lemma undoMerge_ok s : d_equalityNodes s = joined r1 r2 l2 E -> undoMerge r1 r2 s = Ok (tt, put_equalityNodes E s).
Proof.
  intros Es. destruct (class_rep _ _ HC1) as [Hr1 Hf1], (class_rep _ _ HC2) as [Hr2 Hf2]. pose proof Hr1 as [n1 H1]%lookup_lt_is_Some_2. pose proof Hr2 as [n2 H2]%lookup_lt_is_Some_2.
  unfold undoMerge. erewrite run_bind; [| apply merge_lists_run; rewrite Es, joined_length; done]. rewrite run_gets.
  set (s1 := put_equalityNodes _ s). assert (d_equalityNodes s1 = join_lists false r1 r2 (joined r1 r2 l2 E)) as E1 by (cbn; by rewrite Es).
  rewrite (find_loop_ok r2 r2 _ s1 r2 l2).
  - rewrite E1, joined_undo. done.
  - rewrite E1. eapply chain_ext; [| apply HC2]. intros x Hx. change (r2 :: l2 ++ [r2]) with ((r2 :: l2) ++ [r2]) in Hx. rewrite removelast_last in Hx.
    rewrite <- (set_finds_next r2 (r2 :: l2) (join_lists false r1 r2 (joined r1 r2 l2 E))). by rewrite joined_undo.
  - by apply NoDup_cons, (class_nodup _ _ _ HC2).
  - pose proof (class_bound _ _ _ HC2) as Hb. rewrite E1, length_join_lists, joined_length. cbn in Hb. lia.
Qed.
End join.
