(* ===== verification/EqualityBacktrack.v ===== *)
(** * Backtracking of the equality engine

    [backtrack] undoes the merges, then the edges of the graph, the lookups and the nodes,
    each group from the last to the first; [Ext b s] says that undoing what [s] has more than
    [b] leads back to [b], and [backtrack_ok] that [backtrack] does so. *)

From S2P Require Import Prelude EqualityEngine EqualityClasses.
Local Open Scope nat_scope.

(** ** Merges *)
(** [Undoes M E E']: undoing the merges [M], the last first, leads from [E] to [E']. *)
Inductive Undoes : list (option (nat * nat)) -> vec -> vec -> Prop :=
  | undoes_nil E : Undoes [] E E
  | undoes_null M E E' : Undoes M E E' -> Undoes (M ++ [None]) E E'
  | undoes_merge M r1 r2 l1 l2 E E' : Class E r1 l1 -> Class E r2 l2 -> r1 <> r2 -> Undoes M E E' -> Undoes (M ++ [Some (r1, r2)]) (joined r1 r2 l2 E) E'.
Lemma undo_merges_ok M E E' : Undoes M E E' -> forall s, d_equalityNodes s = E -> undo_merges (rev M) s = Ok (tt, put_equalityNodes E' s).
Proof.
  induction 1 as [E | M E E' _ IH | M r1 r2 l1 l2 E E' HC1 HC2 Hne _ IH]; intros s Es; rewrite ?rev_app_distr; cbn [rev app undo_merges].
  - subst E. by destruct s.
  - by apply IH.
  - rewrite (run_bind (undoMerge_ok E r1 r2 l1 l2 HC1 HC2 Hne s Es)). by rewrite IH.
Qed.
Lemma undoes_length M E E' : Undoes M E E' -> length E = length E'.
Proof. induction 1; rewrite ?joined_length; done. Qed.

(** A change of use lists commutes with merges. *)
Definition set_use (u : option nat) (n : EqualityNode) : EqualityNode := MkEqualityNode (d_size n) (d_findId n) (d_nextId n) u.
Definition set_uses (i : nat) (u : option nat) (E : vec) : vec := alter (set_use u) i E.
Lemma lookup_set_uses i u E j : set_uses i u E !! j = (if decide (j = i) then set_use u else id) <$> E !! j.
Proof. unfold set_uses. case_decide as Hij; [subst; by rewrite list_lookup_alter_eq |]. rewrite list_lookup_alter_ne by done. by destruct (E !! j). Qed.
Lemma length_set_uses i u E : length (set_uses i u E) = length E.
Proof. apply length_alter. Qed.
Lemma fnd_set_uses i u E j : fnd (set_uses i u E) j = fnd E j.
Proof. unfold fnd. rewrite lookup_set_uses. destruct (E !! j); cbn; [| done]. by case_decide. Qed.
Lemma class_set_uses i u E r l : Class E r l -> Class (set_uses i u E) r l.
Proof.
  intros [H1 H2 H3 H4]. split.
  - eapply chain_ext; [| exact H1]. intros x _. rewrite lookup_set_uses. destruct (E !! x); cbn; [| done]. by case_decide.
  - done.
  - intros j. by rewrite length_set_uses, fnd_set_uses.
  - rewrite <- H4, lookup_set_uses. destruct (E !! r); cbn; [| done]. by case_decide.
Qed.
Lemma classes_set_uses i u E : Classes E -> Classes (set_uses i u E).
Proof.
  intros [H1 H2]. split; rewrite length_set_uses.
  - intros j Hj. rewrite !fnd_set_uses. by apply H1.
  - intros r Hr. rewrite fnd_set_uses. intros Hf. destruct (H2 r Hr Hf) as [l HC]. exists l. by apply class_set_uses.
Qed.
Lemma joined_set_uses i u E r1 r2 l1 l2 : Class E r1 l1 -> Class E r2 l2 -> r1 <> r2 -> joined r1 r2 l2 (set_uses i u E) = set_uses i u (joined r1 r2 l2 E).
Proof.
  intros HC1 HC2 Hne. destruct (class_rep _ _ _ HC1) as [[n1 H1]%lookup_lt_is_Some_2 _], (class_rep _ _ _ HC2) as [[n2 H2]%lookup_lt_is_Some_2 _].
  apply list_eq. intros j. rewrite lookup_set_uses.
  rewrite (joined_lookup E r1 r2 l1 l2 HC1 HC2 Hne j n1 n2) by done.
  erewrite (joined_lookup (set_uses i u E) r1 r2 l1 l2 (class_set_uses _ _ _ _ _ HC1) (class_set_uses _ _ _ _ _ HC2) Hne j); [| rewrite lookup_set_uses, H1; reflexivity | rewrite lookup_set_uses, H2; reflexivity].
  destruct (decide (j = r1)) as [-> |]; [cbn; by destruct (decide (r1 = i)), (decide (r2 = i)) |].
  destruct (decide (j = r2)) as [-> |]; [cbn; by destruct (decide (r1 = i)), (decide (r2 = i)) |].
  rewrite !lookup_set_finds, lookup_set_uses. destruct (E !! j); cbn; [| done]. f_equal. by repeat case_decide.
Qed.
Lemma undoes_set_uses i u M E E' : Undoes M E E' -> Undoes M (set_uses i u E) (set_uses i u E').
Proof.
  induction 1 as [E | M E E' _ IH | M r1 r2 l1 l2 E E' HC1 HC2 Hne _ IH]; [constructor | by constructor |].
  rewrite <- (joined_set_uses i u E r1 r2 l1 l2) by done. by econstructor; [apply class_set_uses | apply class_set_uses | |].
Qed.

(** So does a new node. *)
Definition single (i : nat) : EqualityNode := MkEqualityNode 1 i i None.
Lemma fnd_app E i : i < length E -> fnd (E ++ [single (length E)]) i = fnd E i.
Proof. intros Hi. unfold fnd. by rewrite lookup_app_l. Qed.
Lemma fnd_last E : fnd (E ++ [single (length E)]) (length E) = length E.
Proof. unfold fnd. by rewrite list_lookup_middle by done. Qed.
Lemma class_app E r l : Class E r l -> Class (E ++ [single (length E)]) r l.
Proof.
  intros HC. pose proof HC as [H1 H2 H3 H4]. split.
  - eapply chain_ext; [| exact H1]. intros x Hx. change (r :: l ++ [r]) with ((r :: l) ++ [r]) in Hx. rewrite removelast_last in Hx. apply H3 in Hx as [Hx _]. by rewrite lookup_app_l.
  - done.
  - intros i. rewrite H3, length_app. cbn. split.
    + intros [Hi Ef]. split; [lia | by rewrite fnd_app].
    + intros [Hi Ef]. destruct (decide (i = length E)) as [-> |]; [| rewrite fnd_app in Ef by lia; split; [lia | done]].
      rewrite fnd_last in Ef. subst r. destruct (class_rep _ _ _ HC). lia.
  - destruct (class_rep _ _ _ HC) as [Hr _]. by rewrite lookup_app_l.
Qed.
Lemma class_single E : Classes E -> Class (E ++ [single (length E)]) (length E) [].
Proof.
  intros [Hfind _]. split.
  - cbn. split; [| done]. exists (single (length E)). by rewrite list_lookup_middle.
  - apply NoDup_singleton.
  - intros i. rewrite list_elem_of_singleton, length_app. cbn. split.
    + intros ->. split; [lia | apply fnd_last].
    + intros [Hi Ef]. destruct (decide (i = length E)); [done |]. rewrite fnd_app in Ef by lia. destruct (Hfind i); lia.
  - by rewrite list_lookup_middle.
Qed.
Lemma classes_app E : Classes E -> Classes (E ++ [single (length E)]).
Proof.
  intros HC. pose proof HC as [H1 H2]. split; rewrite length_app; cbn.
  - intros i Hi. destruct (decide (i = length E)) as [-> |]; [rewrite !fnd_last; split; [lia | done] |]. rewrite fnd_app by lia. destruct (H1 i) as [Hlt Hid]; [lia |]. rewrite fnd_app by lia. split; [lia | done].
  - intros r Hr Hf. destruct (decide (r = length E)) as [-> |]; [exists []; by apply class_single |]. rewrite fnd_app in Hf by lia. destruct (H2 r) as [l HCl]; [lia | done |]. exists l. by apply class_app.
Qed.
Lemma joined_app E r1 r2 l1 l2 x : Class E r1 l1 -> Class E r2 l2 -> r1 <> r2 -> joined r1 r2 l2 (E ++ [x]) = joined r1 r2 l2 E ++ [x].
Proof.
  intros HC1 HC2 Hne. destruct (class_rep _ _ _ HC1) as [Hr1 _], (class_rep _ _ _ HC2) as [Hr2 _]. unfold joined.
  assert (set_finds r1 (r2 :: l2) (E ++ [x]) = set_finds r1 (r2 :: l2) E ++ [x]) as ->.
  { unfold set_finds. rewrite imap_app. f_equal. cbn. rewrite Nat.add_0_r, decide_False; [done |]. intros [Hi _]%(class_in _ _ _ HC2). lia. }
  unfold join_lists. rewrite !lookup_app_l by (rewrite length_set_finds; done). destruct (set_finds r1 (r2 :: l2) E !! r1), (set_finds r1 (r2 :: l2) E !! r2); try done. by rewrite !insert_app_l by (rewrite ?length_insert, length_set_finds; done).
Qed.
Lemma undoes_app M E E' : Undoes M E E' -> Undoes M (E ++ [single (length E)]) (E' ++ [single (length E')]).
Proof.
  induction 1 as [E | M E E' _ IH | M r1 r2 l1 l2 E E' HC1 HC2 Hne HU IH]; [constructor | by constructor |].
  rewrite joined_length, <- (joined_app E r1 r2 l1 l2) by done. by econstructor; [apply class_app | apply class_app | |].
Qed.

(** ** Use lists *)
Abbreviation memory := (list (nat * option nat)).
(** [usedIn] *)
Definition used (i f : nat) (Em : vec * memory) : vec * memory :=
  (set_uses i (Some (length Em.2)) Em.1, Em.2 ++ [(f, match Em.1 !! i with Some n => d_useList n | None => None end)]).
Lemma usedIn_run i f s : i < length (d_equalityNodes s) ->
  usedIn i f s = Ok (tt, put_equalityNodes (used i f (d_equalityNodes s, d_useListNodes s)).1 (put_useLists (used i f (d_equalityNodes s, d_useListNodes s)).2 s)).
Proof.
  intros [n Hn]%lookup_lt_is_Some_2. unfold usedIn. rewrite (run_node _ n) by done. rewrite run_gets, run_modify. unfold write_node, modify, used. cbn [fst snd d_equalityNodes put_useLists]. rewrite Hn.
  do 3 f_equal. unfold set_uses. apply list_eq. intros j. destruct (decide (j = i)) as [-> |].
  - rewrite list_lookup_insert_eq by (by eapply lookup_lt_Some). rewrite list_lookup_alter_eq, Hn. done.
  - by rewrite list_lookup_insert_ne, list_lookup_alter_ne by done.
Qed.
Lemma set_uses_twice i u u' E : set_uses i u (set_uses i u' E) = set_uses i u E.
Proof. apply list_eq. intros j. rewrite !lookup_set_uses. destruct (E !! j); cbn; [| done]. by repeat case_decide. Qed.
Lemma set_uses_same i E : set_uses i (match E !! i with Some n => d_useList n | None => None end) E = E.
Proof. apply list_eq. intros j. rewrite lookup_set_uses. case_decide as Hji; [subst |]; destruct (E !! _) as [[]|]; done. Qed.
Lemma removeTop_run i f E mem s : i < length E -> (d_equalityNodes s, d_useListNodes s) = used i f (E, mem) ->
  removeTopFromUseList i s = Ok (tt, put_useLists mem (put_equalityNodes E s)).
Proof.
  intros [n Hn]%lookup_lt_is_Some_2 [= Es Em]. cbn [fst snd] in *. unfold removeTopFromUseList.
  assert (d_equalityNodes s !! i = Some (set_use (Some (length mem)) n)) as Hi by (rewrite Es, lookup_set_uses, decide_True, Hn by done; done).
  rewrite (run_node _ _ _ _ Hi), run_gets, Em, last_snoc, length_app. cbn [length]. replace (length mem + 1 - 1) with (length mem) by lia.
  rewrite run_check by (by apply bool_decide_eq_true). unfold write_node. rewrite run_modify. unfold modify. rewrite take_app_length, Hn. cbn [d_size d_findId d_nextId set_use].
  assert (<[i:=MkEqualityNode (d_size n) (d_findId n) (d_nextId n) (d_useList n)]> (d_equalityNodes s) = E) as ->; [| done]. rewrite Es.
  apply list_eq. intros j. destruct (decide (j = i)) as [-> |].
  - rewrite list_lookup_insert_eq by (rewrite length_set_uses; by eapply lookup_lt_Some). rewrite Hn. f_equal. by destruct n.
  - rewrite list_lookup_insert_ne by done. rewrite lookup_set_uses, decide_False by done. by destruct (E !! j).
Qed.

(** [UndoesN l E mem E' mem']: undoing the nodes with the applications [l], the last first. *)
Inductive UndoesN : list (option FunctionApplicationPair) -> vec * memory -> vec * memory -> Prop :=
  | undoesn_nil Em : UndoesN [] Em Em
  | undoesn_leaf l Em Em' : UndoesN l Em Em' -> UndoesN (l ++ [None]) Em Em'
  | undoesn_app l p f Em Em' : fa_a (original p) < length Em.1 -> fa_b (original p) < length Em.1 -> UndoesN l Em Em' ->
      UndoesN (l ++ [Some p]) (used (fa_b (original p)) f (used (fa_a (original p)) f Em)) Em'.
Lemma undoesn_length l Em Em' : UndoesN l Em Em' -> length Em.1 = length Em'.1.
Proof. induction 1; cbn; rewrite ?length_set_uses; done. Qed.
Lemma used_app i f E mem x : i < length E -> used i f (E ++ [x], mem) = ((used i f (E, mem)).1 ++ [x], (used i f (E, mem)).2).
Proof.
  intros Hi. unfold used, set_uses. cbn [fst snd]. f_equal; [| by rewrite lookup_app_l].
  apply list_eq. intros j. destruct (decide (j < length E)) as [Hj | Hj].
  - rewrite (lookup_app_l (alter _ _ _)) by (rewrite length_alter; done). destruct (decide (j = i)) as [-> |]; [by rewrite !list_lookup_alter_eq, lookup_app_l by done |]. by rewrite !list_lookup_alter_ne, lookup_app_l by done.
  - rewrite list_lookup_alter_ne by lia. rewrite !lookup_app_r by (rewrite ?length_alter; lia). by rewrite length_alter.
Qed.
Lemma undoesn_snoc l Em Em' x : UndoesN l Em Em' -> UndoesN l (Em.1 ++ [x], Em.2) (Em'.1 ++ [x], Em'.2).
Proof.
  induction 1 as [Em | l Em Em' _ IH | l p f Em Em' Ha Hb HU IH]; [constructor | by constructor |]. destruct Em as [E mem]. cbn [fst snd] in *.
  pose proof (used_app (fa_a (original p)) f E mem x Ha) as E1. destruct (used (fa_a (original p)) f (E, mem)) as [Ea ma] eqn:Ua. cbn [fst snd] in E1.
  assert (length Ea = length E) as La by (unfold used in Ua; injection Ua as <- _; apply length_set_uses).
  pose proof (used_app (fa_b (original p)) f Ea ma x ltac:(lia)) as E2. rewrite <- E1 in E2. rewrite <- E2. apply undoesn_app; cbn [fst]; rewrite ?length_app; [lia | lia | exact IH].
Qed.
Definition forget (l : list NodeInfo) (m : gmap Term nat) : gmap Term nat := foldl (fun m info => delete (nd_node info) m) m l.
Lemma lookup_forget l : forall m t, forget l m !! t = if decide (t ∈ map nd_node l) then None else m !! t.
Proof.
  induction l as [|info l IH]; intros m t; cbn [forget foldl map]; [by rewrite decide_False by apply not_elem_of_nil |]. fold (forget l (delete (nd_node info) m)). rewrite IH.
  destruct (decide (t = nd_node info)) as [-> |].
  - rewrite lookup_delete_eq. rewrite (decide_True (P := nd_node info ∈ nd_node info :: _)) by (by left). by case_decide.
  - rewrite lookup_delete_ne by done. apply decide_ext. rewrite elem_of_cons. tauto.
Qed.
Lemma undo_nodes_ok l Em Em' : UndoesN l Em Em' -> forall infos s, map nd_application infos = l -> (d_equalityNodes s, d_useListNodes s) = Em ->
  undo_nodes (rev infos) s = Ok (tt, put_nodeIds (forget (rev infos) (d_nodeIds s)) (put_useLists Em'.2 (put_equalityNodes Em'.1 s))).
Proof.
  induction 1 as [Em | l Em Em' _ IH | l p f Em Em' Ha Hb _ IH]; intros infos s Hl Es.
  - apply map_eq_nil in Hl as ->. subst Em. by destruct s.
  - destruct infos as [|info infos _] using rev_ind; [by destruct l |]. rewrite map_app in Hl. cbn [map] in Hl. apply app_inj_tail in Hl as [Hl Hi].
    rewrite rev_app_distr. cbn [rev app undo_nodes]. rewrite run_modify, Hi. rewrite (run_bind (a := tt) eq_refl).
    rewrite (IH infos _ Hl) by done. done.
  - destruct infos as [|info infos _] using rev_ind; [by destruct l |]. rewrite map_app in Hl. cbn [map] in Hl. apply app_inj_tail in Hl as [Hl Hi].
    rewrite rev_app_distr. cbn [rev app undo_nodes]. rewrite run_modify, Hi. destruct Em as [E mem]. cbn [fst] in Ha, Hb.
    destruct (used (fa_a (original p)) f (E, mem)) as [Ea ma] eqn:Ua. assert (length Ea = length E) as La by (unfold used in Ua; injection Ua as <- _; apply length_set_uses).
    erewrite run_bind.
    2: { erewrite run_bind by (apply (removeTop_run _ f Ea ma); [lia | exact Es]). apply (removeTop_run _ f E mem); [lia | exact (eq_sym Ua)]. }
    rewrite (IH infos _ Hl) by done. done.
Qed.

(** ** Edges *)
Inductive UndoesG : nat -> list EqualityEdge -> list (option nat) -> list (option nat) -> Prop :=
  | undoesg_nil k G : UndoesG k [] G G
  | undoesg_edge k l t1 t2 g1 g2 type reason G G' : t1 <> t2 -> G !! t1 = Some g1 -> G !! t2 = Some g2 -> UndoesG k l G G' ->
      UndoesG k (l ++ [MkEdge t2 g1 type reason; MkEdge t1 g2 type reason]) (<[t2:=Some (Nat.lor (k + length l) 1)]> (<[t1:=Some (k + length l)]> G)) G'.
Lemma undoesg_length k l G G' : UndoesG k l G G' -> length G = length G'.
Proof. induction 1; rewrite ?length_insert; done. Qed.
Lemma undo_edges_ok k l G G' : UndoesG k l G G' -> forall s, d_equalityGraph s = G -> undo_edges (rev l) s = Ok (tt, put_graph G' s).
Proof.
  induction 1 as [k G | k l t1 t2 g1 g2 type reason G G' Hne H1 H2 _ IH]; intros s Es; [subst G; by destruct s |].
  rewrite rev_app_distr. cbn [rev app undo_edges]. rewrite !run_modify. cbn [d_nodeId d_next d_equalityGraph put_graph].
  rewrite (IH _); [done |]. cbn [d_equalityGraph put_graph]. rewrite Es. apply list_eq. intros i.
  pose proof (lookup_lt_Some _ _ _ H1). pose proof (lookup_lt_Some _ _ _ H2).
  destruct (decide (i = t2)) as [-> |]; [rewrite list_lookup_insert_eq by (rewrite !length_insert; done); done |]. rewrite list_lookup_insert_ne by done.
  destruct (decide (i = t1)) as [-> |]; [rewrite list_lookup_insert_eq by (rewrite !length_insert; done); done |]. by rewrite !list_lookup_insert_ne by done.
Qed.
Lemma undoesg_app k l G G' : UndoesG k l G G' -> UndoesG k l (G ++ [None]) (G' ++ [None]).
Proof.
  induction 1 as [k G | k l t1 t2 g1 g2 type reason G G' Hne H1 H2 _ IH]; [constructor |].
  pose proof (lookup_lt_Some _ _ _ H1). pose proof (lookup_lt_Some _ _ _ H2).
  rewrite <- insert_app_l by (rewrite length_insert; done). rewrite <- insert_app_l by done. apply undoesg_edge; rewrite ?lookup_app_l by done; done.
Qed.

(** ** What a state has more than another *)
Abbreviation nodes_of s := (length (d_nodes s)).
Abbreviation merges_of s := (length (d_assertedEqualities s)).
Abbreviation lookups_of s := (length (d_applicationLookups s)).
Record Ext (b s : EqualityEngine) : Prop := {
  ext_kinds : d_congruenceKinds s = d_congruenceKinds b;
  ext_nodes : take (nodes_of b) (d_nodes s) = d_nodes b;
  ext_ids t : is_Some (d_nodeIds b !! t) -> d_nodeIds s !! t = d_nodeIds b !! t;
  ext_ids_new t i : d_nodeIds s !! t = Some i -> is_Some (d_nodeIds b !! t) \/ t ∈ map nd_node (drop (nodes_of b) (d_nodes s));
  ext_ids_fresh t : t ∈ map nd_node (drop (nodes_of b) (d_nodes s)) -> d_nodeIds b !! t = None;
  ext_merges : take (merges_of b) (d_assertedEqualities s) = d_assertedEqualities b;
  ext_vec : exists E E', Undoes (drop (merges_of b) (d_assertedEqualities s)) (d_equalityNodes s) E /\
    UndoesN (map nd_application (drop (nodes_of b) (d_nodes s))) (E, d_useListNodes s) (E', d_useListNodes b) /\ take (nodes_of b) E' = d_equalityNodes b;
  ext_edges : take (2 * merges_of b) (d_equalityEdges s) = d_equalityEdges b;
  ext_graph : exists G, UndoesG (2 * merges_of b) (drop (2 * merges_of b) (d_equalityEdges s)) (d_equalityGraph s) G /\ take (nodes_of b) G = d_equalityGraph b;
  ext_lookups : take (lookups_of b) (d_applicationLookups s) = d_applicationLookups b;
  ext_lookup k : d_applicationLookup s !! k = if decide (k ∈ drop (lookups_of b) (d_applicationLookups s)) then d_applicationLookup s !! k else d_applicationLookup b !! k;
  ext_lookup_fresh k : k ∈ drop (lookups_of b) (d_applicationLookups s) -> d_applicationLookup b !! k = None
}.
(** The counters of a state. *)
Definition Counted (s : EqualityEngine) : Prop := d_counters s = MkCounters (d_done (d_counters s)) (nodes_of s) (lookups_of s) (merges_of s).
Record Shape (s : EqualityEngine) : Prop := {
  shape_vec : length (d_equalityNodes s) = nodes_of s;
  shape_graph : length (d_equalityGraph s) = nodes_of s;
  shape_edges : length (d_equalityEdges s) = 2 * merges_of s
}.
Lemma engine_eq s s' : d_congruenceKinds s = d_congruenceKinds s' -> d_nodeIds s = d_nodeIds s' -> d_nodes s = d_nodes s' -> d_equalityNodes s = d_equalityNodes s' -> d_equalityGraph s = d_equalityGraph s' -> d_useListNodes s = d_useListNodes s' -> d_applicationLookup s = d_applicationLookup s' -> d_applicationLookups s = d_applicationLookups s' -> d_assertedEqualities s = d_assertedEqualities s' -> d_equalityEdges s = d_equalityEdges s' -> d_propagationQueue s = d_propagationQueue s' -> d_counters s = d_counters s' -> d_saved s = d_saved s' -> s = s'.
Proof. destruct s, s'. cbn. intros; subst; reflexivity. Qed.
Lemma drop_nil_le {A} n (l : list A) : length l <= n -> drop n l = [].
Proof. apply drop_ge. Qed.

Section backtrack.
Context (b s : EqualityEngine).
Hypothesis HX : Ext b s.
Hypothesis Hb : Shape b.
Hypothesis Hs : Shape s.
Hypothesis Hcb : Counted b.
Hypothesis Hqs : d_propagationQueue s = [].
Hypothesis Hqb : d_propagationQueue b = [].
Lemma ext_nodes_le : nodes_of b <= nodes_of s.
Proof. rewrite <- (ext_nodes _ _ HX), length_take. lia. Qed.
Lemma ext_merges_le : merges_of b <= merges_of s.
Proof. rewrite <- (ext_merges _ _ HX), length_take. lia. Qed.

Lemma backtrack_merges_ok E G c sv : Undoes (drop (merges_of b) (d_assertedEqualities s)) (d_equalityNodes s) E ->
  UndoesG (2 * merges_of b) (drop (2 * merges_of b) (d_equalityEdges s)) (d_equalityGraph s) G -> d_assertedEqualitiesCount c = merges_of b ->
  backtrack_merges (put_counters c (put_saved sv s)) =
    Ok (tt, put_edges (d_equalityEdges b) (put_graph G (put_asserted (d_assertedEqualities b) (put_equalityNodes E (put_queue [] (put_counters c (put_saved sv s))))))).
Proof.
  intros HU HG Hc. unfold backtrack_merges. rewrite !run_gets. cbn [d_counters put_counters d_assertedEqualities put_saved]. rewrite Hc. destruct (Nat.ltb_spec (merges_of b) (merges_of s)) as [Hlt | Hge].
  - rewrite run_modify. erewrite run_bind by (eapply undo_merges_ok; [exact HU | done]). rewrite run_modify, run_gets.
    cbn [d_equalityEdges put_asserted put_equalityNodes put_queue put_counters put_saved]. erewrite run_bind by (eapply undo_edges_ok; [exact HG | done]).
    unfold modify. rewrite (ext_merges _ _ HX), (ext_edges _ _ HX). done.
  - pose proof (shape_edges _ Hs) as He. rewrite drop_nil_le in HU by lia. rewrite drop_nil_le in HG by lia.
    inversion HU as [? | ? ? ? ? E1 | ? ? ? ? ? ? ? ? ? ? ? E1]; try (by apply (f_equal length) in E1; rewrite length_app in E1; cbn in E1; lia).
    inversion HG as [? ? | ? ? ? ? ? ? ? ? ? ? ? ? ? ? E1 E2]; try (apply (f_equal length) in E2; rewrite length_app in E2; cbn in E2; lia).
    pose proof (ext_merges _ _ HX) as Hm. rewrite take_ge in Hm by lia. pose proof (ext_edges _ _ HX) as Hed. rewrite take_ge in Hed by lia. subst. rewrite <- Hm, <- Hed. destruct s. cbn in *. by subst.
Qed.
Lemma lookup_foldr_delete (l : list FunctionApplication) (m : gmap FunctionApplication nat) k : foldr delete m l !! k = if decide (k ∈ l) then None else m !! k.
Proof.
  induction l as [|x l IH]; cbn; [by rewrite decide_False by apply not_elem_of_nil |]. destruct (decide (k = x)) as [-> |].
  - rewrite lookup_delete_eq. by rewrite decide_True by (by left).
  - rewrite lookup_delete_ne, IH by done. apply decide_ext. rewrite elem_of_cons. tauto.
Qed.
Lemma backtrack_lookups_ok s1 : d_applicationLookups s1 = d_applicationLookups s -> d_applicationLookup s1 = d_applicationLookup s -> d_applicationLookupsCount (d_counters s1) = lookups_of b ->
  backtrack_lookups s1 = Ok (tt, put_lookups (d_applicationLookups b) (put_lookup (d_applicationLookup b) s1)).
Proof.
  intros E1 E2 E3. unfold backtrack_lookups. rewrite !run_gets, E1, E3. destruct (Nat.ltb_spec (lookups_of b) (lookups_of s)) as [Hlt | Hge].
  - rewrite run_modify. unfold modify. rewrite (ext_lookups _ _ HX), E2. assert (foldr delete (d_applicationLookup s) (drop (lookups_of b) (d_applicationLookups s)) = d_applicationLookup b) as ->; [| done].
    apply map_eq. intros k. rewrite lookup_foldr_delete, (ext_lookup _ _ HX k). case_decide as Hk; [| done]. symmetry. by apply (ext_lookup_fresh _ _ HX).
  - assert (d_applicationLookup s = d_applicationLookup b) as El. { apply map_eq. intros k. rewrite (ext_lookup _ _ HX k), drop_ge by done. by rewrite decide_False by apply not_elem_of_nil. }
    pose proof (ext_lookups _ _ HX) as Hl. rewrite take_ge in Hl by done. rewrite <- El, <- Hl, <- E1, <- E2. by destruct s1.
Qed.
Lemma backtrack_nodes_ok s1 E E' G : d_nodes s1 = d_nodes s -> d_nodeIds s1 = d_nodeIds s -> d_equalityNodes s1 = E -> d_useListNodes s1 = d_useListNodes s -> d_equalityGraph s1 = G ->
  d_nodesCount (d_counters s1) = nodes_of b -> length E = nodes_of s -> length G = nodes_of s ->
  UndoesN (map nd_application (drop (nodes_of b) (d_nodes s))) (E, d_useListNodes s) (E', d_useListNodes b) -> take (nodes_of b) E' = d_equalityNodes b -> take (nodes_of b) G = d_equalityGraph b ->
  backtrack_nodes s1 = Ok (tt, put_equalityNodes (d_equalityNodes b) (put_graph (d_equalityGraph b) (put_nodes (d_nodes b) (put_nodeIds (d_nodeIds b) (put_useLists (d_useListNodes b) s1))))).
Proof.
  intros E1 E2 E3 E4 E5 E6 HlE HlG HN HtE HtG. unfold backtrack_nodes. rewrite !run_gets, E1, E6.
  assert (Hids : forall l : list Term, (forall t, t ∈ l <-> t ∈ map nd_node (drop (nodes_of b) (d_nodes s))) -> forall t, (if decide (t ∈ l) then None else d_nodeIds s !! t) = d_nodeIds b !! t).
  { intros l Hl t. case_decide as Ht; [symmetry; by apply (ext_ids_fresh _ _ HX), Hl |]. destruct (d_nodeIds b !! t) as [i|] eqn:Eb; [by rewrite (ext_ids _ _ HX) by (by eexists) |].
    destruct (d_nodeIds s !! t) as [i|] eqn:Et; [| done]. destruct (ext_ids_new _ _ HX t i Et) as [[j Hj] | Hj]; [congruence |]. by apply Hl in Hj. }
  destruct (Nat.ltb_spec (nodes_of b) (nodes_of s)) as [Hlt | Hge].
  - erewrite run_bind by (eapply undo_nodes_ok; [exact HN | done | by rewrite E3, E4]). rewrite !run_modify. unfold modify. cbn [d_nodes d_equalityGraph d_equalityNodes put_nodeIds put_useLists put_equalityNodes put_nodes put_graph fst snd].
    rewrite E1, E2, E5, HtE, HtG, (ext_nodes _ _ HX).
    assert (forget (rev (drop (nodes_of b) (d_nodes s))) (d_nodeIds s) = d_nodeIds b) as ->; [| done].
    apply map_eq. intros t. rewrite lookup_forget. apply Hids. intros u. rewrite map_rev, rev_alt. apply elem_of_reverse.
  - pose proof (ext_nodes _ _ HX) as Hn. rewrite take_ge in Hn by done. rewrite drop_ge in HN by done. cbn [map] in HN.
    inversion HN as [? | ? ? ? ? EE | ? ? ? ? ? ? ? ? EE]; try (by apply (f_equal length) in EE; rewrite length_app in EE; cbn in EE; lia). subst E'.
    rewrite take_ge in HtE by lia. rewrite take_ge in HtG by lia. assert (d_nodeIds s = d_nodeIds b) as Hi. { apply map_eq. intros t. rewrite <- (Hids []); [by rewrite decide_False by apply not_elem_of_nil |]. intros u. by rewrite drop_ge by done. }
    rewrite <- HtE, <- HtG, <- Hn, <- Hi, <- E3, <- E5, <- E1, <- E2, <- E4. by destruct s1.
Qed.
Lemma backtrack_ok sv : backtrack (put_counters (d_counters b) (put_saved sv s)) = Ok (tt, put_saved sv b).
Proof.
  destruct (ext_vec _ _ HX) as (E & E' & HU & HN & HtE), (ext_graph _ _ HX) as (G & HG & HtG). unfold Counted in Hcb.
  unfold backtrack. rewrite (run_bind (backtrack_merges_ok E G (d_counters b) sv HU HG ltac:(by rewrite Hcb))). erewrite run_bind by (apply backtrack_lookups_ok; [done | done | cbn; by rewrite Hcb]).
  rewrite (backtrack_nodes_ok _ E E' G); [| reflexivity | reflexivity | reflexivity | reflexivity | reflexivity | | | | exact HN | exact HtE | exact HtG].
  - do 2 f_equal. apply engine_eq; try reflexivity; [exact (ext_kinds _ _ HX) | symmetry; exact Hqb].
  - cbn. by rewrite Hcb.
  - rewrite <- (undoes_length _ _ _ HU). apply Hs.
  - rewrite <- (undoesg_length _ _ _ _ HG). apply Hs.
Qed.
End backtrack.

(** ** What the operations add *)
Lemma ext_refl b : Shape b -> Ext b b.
Proof.
  intros [H1 H2 H3]. split; rewrite ?take_ge, ?drop_ge by lia; try done.
  - intros t i Ht. left. rewrite Ht. by eexists.
  - intros t Ht. by apply not_elem_of_nil in Ht.
  - exists (d_equalityNodes b), (d_equalityNodes b). split; [constructor |]. split; [constructor |]. by rewrite take_ge by lia.
  - exists (d_equalityGraph b). split; [constructor |]. by rewrite take_ge by lia.
  - intros k Hk. by apply not_elem_of_nil in Hk.
Qed.
Lemma ext_queue b s q : Ext b s -> Ext b (put_queue q s).
Proof. intros [? ? ? ? ? ? ? ? ? ? ? ?]. constructor; assumption. Qed.
Lemma ext_counters b s c : Ext b s -> Ext b (put_counters c s).
Proof. intros [? ? ? ? ? ? ? ? ? ? ? ?]. constructor; assumption. Qed.
Lemma ext_saved b s c : Ext b s -> Ext b (put_saved c s).
Proof. intros [? ? ? ? ? ? ? ? ? ? ? ?]. constructor; assumption. Qed.
Lemma ext_le_nodes b s : Ext b s -> nodes_of b <= nodes_of s.
Proof. intros HX. rewrite <- (ext_nodes _ _ HX), length_take. lia. Qed.
Lemma ext_le_merges b s : Ext b s -> merges_of b <= merges_of s.
Proof. intros HX. rewrite <- (ext_merges _ _ HX), length_take. lia. Qed.
Lemma ext_le_lookups b s : Ext b s -> lookups_of b <= lookups_of s.
Proof. intros HX. rewrite <- (ext_lookups _ _ HX), length_take. lia. Qed.

(** A lookup. *)
Definition add_lookup (k : FunctionApplication) (f : nat) (s : EqualityEngine) : EqualityEngine := put_lookups (d_applicationLookups s ++ [k]) (put_lookup (<[k:=f]> (d_applicationLookup s)) s).
Lemma ext_add_lookup b s k f : Ext b s -> d_applicationLookup s !! k = None -> Ext b (add_lookup k f s).
Proof.
  intros HX Hk. pose proof (ext_le_lookups b s HX) as Hle. destruct HX as [? ? ? ? ? ? ? ? ? Hl Hm Hf]. constructor; try assumption; cbn [d_applicationLookup d_applicationLookups add_lookup put_lookups put_lookup].
  - by rewrite take_app_le.
  - intros k'. rewrite drop_app_le by done. destruct (decide (k' = k)) as [-> |].
    + rewrite decide_True; [done |]. apply elem_of_app. right. by left.
    + rewrite lookup_insert_ne by done. rewrite (Hm k') at 1. destruct (decide (k' ∈ drop (lookups_of b) (d_applicationLookups s))) as [Hin | Hin].
      * by rewrite decide_True by (apply elem_of_app; by left).
      * rewrite decide_False; [done |]. intros [? | ?%list_elem_of_singleton]%elem_of_app; done.
  - intros k'. rewrite drop_app_le by done. intros [Hin | ->%list_elem_of_singleton]%elem_of_app; [by apply Hf |].
    destruct (decide (k ∈ drop (lookups_of b) (d_applicationLookups s))); [by apply Hf |]. specialize (Hm k). rewrite decide_False in Hm by done. congruence.
Qed.

(** A node without or with an application. *)
Definition add_node (info : NodeInfo) (s : EqualityEngine) : EqualityEngine :=
  put_nodeIds (<[nd_node info:=nodes_of s]> (d_nodeIds s)) (put_nodes (d_nodes s ++ [info])
    (put_graph (d_equalityGraph s ++ [None]) (put_equalityNodes (d_equalityNodes s ++ [single (nodes_of s)]) s))).
Definition add_uses (a b f : nat) (s : EqualityEngine) : EqualityEngine :=
  let Em := used b f (used a f (d_equalityNodes s, d_useListNodes s)) in put_equalityNodes Em.1 (put_useLists Em.2 s).
Definition add_app (info : NodeInfo) (p : FunctionApplicationPair) (s : EqualityEngine) : EqualityEngine :=
  add_uses (fa_a (original p)) (fa_b (original p)) (nodes_of s) (add_node info s).
Lemma ext_node_common b s info : Ext b s -> d_nodeIds b !! nd_node info = None ->
  take (nodes_of b) (d_nodes s ++ [info]) = d_nodes b /\
  (forall t, is_Some (d_nodeIds b !! t) -> <[nd_node info:=nodes_of s]> (d_nodeIds s) !! t = d_nodeIds b !! t) /\
  (forall t i, <[nd_node info:=nodes_of s]> (d_nodeIds s) !! t = Some i -> is_Some (d_nodeIds b !! t) \/ t ∈ map nd_node (drop (nodes_of b) (d_nodes s ++ [info]))) /\
  (forall t, t ∈ map nd_node (drop (nodes_of b) (d_nodes s ++ [info])) -> d_nodeIds b !! t = None).
Proof.
  intros HX Hfresh. pose proof (ext_le_nodes b s HX) as Hle. pose proof HX as [_ Hn Hi Hin Hif _ _ _ _ _ _ _]. rewrite take_app_le, drop_app_le, map_app by done. cbn [map]. split; [done |]. split; [| split].
  - intros t Ht. rewrite lookup_insert_ne; [by apply Hi |]. intros <-. rewrite Hfresh in Ht. by destruct Ht.
  - intros t i. destruct (decide (t = nd_node info)) as [-> |]; [intros _; right; apply elem_of_app; right; by left |]. rewrite lookup_insert_ne by done. intros Ht.
    destruct (Hin t i Ht) as [? | ?]; [by left |]. right. apply elem_of_app. by left.
  - intros t [Ht | ->%list_elem_of_singleton]%elem_of_app; [by apply Hif | done].
Qed.
Lemma undoes_nodes_length b s E E' : Shape s -> Undoes (drop (merges_of b) (d_assertedEqualities s)) (d_equalityNodes s) E ->
  UndoesN (map nd_application (drop (nodes_of b) (d_nodes s))) (E, d_useListNodes s) (E', d_useListNodes b) -> length E = nodes_of s /\ length E' = nodes_of s.
Proof. intros [Hs _ _] HU HN. apply undoes_length in HU. apply undoesn_length in HN. cbn in HN. lia. Qed.
Lemma ext_add_node b s info : Ext b s -> Shape s -> d_nodeIds b !! nd_node info = None -> nd_application info = None -> Ext b (add_node info s).
Proof.
  intros HX Hs Hfresh Happ. destruct (ext_node_common b s info HX Hfresh) as (N1 & N2 & N3 & N4). pose proof (ext_le_nodes b s HX) as Hle.
  destruct HX as [? ? ? ? ? ? (E & E' & HU & HN & HtE) ? (G & HG & HtG) ? ? ?]. destruct (undoes_nodes_length b s E E' Hs HU HN) as [L1 L2]. constructor; try assumption.
  - exists (E ++ [single (length E)]), (E' ++ [single (length E)]). cbn [d_equalityNodes d_nodes d_assertedEqualities add_node put_nodeIds put_nodes put_graph put_equalityNodes d_useListNodes].
    split; [rewrite <- (shape_vec _ Hs); by apply undoes_app |]. split; [| by rewrite take_app_le by lia].
    rewrite drop_app_le, map_app by done. cbn [map]. rewrite Happ. apply undoesn_leaf. exact (undoesn_snoc _ _ _ _ HN).
  - exists (G ++ [None]). split; [by apply undoesg_app |]. rewrite take_app_le; [done |]. apply undoesg_length in HG. rewrite (shape_graph _ Hs) in HG. lia.
Qed.
Lemma used_length i f E mem : length (used i f (E, mem)).1 = length E.
Proof. apply length_set_uses. Qed.
Lemma undoes_used i f M E E' mem : Undoes M E E' -> i < length E -> exists mem', used i f (E, mem) = (set_uses i (Some (length mem)) E, mem') /\ used i f (E', mem) = (set_uses i (Some (length mem)) E', mem').
Proof.
  intros HU Hi. eexists. split; [reflexivity |]. unfold used. cbn [fst snd]. do 4 f_equal.
  assert (forall j, d_useList <$> E !! j = d_useList <$> E' !! j) as Hh.
  { clear Hi. induction HU as [E | M E E' _ IH | M r1 r2 l1 l2 E E' HC1 HC2 Hne HU IH]; intros j; [done | done |]. rewrite <- IH.
    destruct (class_rep _ _ _ HC1) as [[n1 H1]%lookup_lt_is_Some_2 _], (class_rep _ _ _ HC2) as [[n2 H2]%lookup_lt_is_Some_2 _].
    rewrite (joined_lookup E r1 r2 l1 l2 HC1 HC2 Hne j n1 n2) by done. repeat case_decide; subst; rewrite ?H1, ?H2; [done | done |]. rewrite lookup_set_finds. destruct (E !! j); cbn; [| done]. by case_decide. }
  specialize (Hh i). destruct (E !! i), (E' !! i); cbn in Hh; congruence.
Qed.
Lemma ext_add_app b s info p : Ext b s -> Shape s -> d_nodeIds b !! nd_node info = None -> nd_application info = Some p ->
  fa_a (original p) < nodes_of s -> fa_b (original p) < nodes_of s -> Ext b (add_app info p s).
Proof.
  intros HX Hs Hfresh Happ Ha Hb. destruct (ext_node_common b s info HX Hfresh) as (N1 & N2 & N3 & N4). pose proof (ext_le_nodes b s HX) as Hle.
  destruct HX as [? ? ? ? ? ? (E & E' & HU & HN & HtE) ? (G & HG & HtG) ? ? ?]. destruct (undoes_nodes_length b s E E' Hs HU HN) as [L1 L2]. constructor; try assumption.
  - pose proof (undoes_app _ _ _ HU) as HU1. rewrite (shape_vec _ Hs) in HU1. set (f := nodes_of s) in *.
    unfold add_app, add_uses, add_node. cbn [d_equalityNodes d_nodes d_assertedEqualities put_nodeIds put_nodes put_graph put_equalityNodes put_useLists d_useListNodes]. fold f.
    destruct (undoes_used (fa_a (original p)) f _ _ _ (d_useListNodes s) HU1) as (m1 & U1 & U1'); [rewrite length_app, (shape_vec _ Hs); cbn; lia |].
    pose proof (undoes_set_uses (fa_a (original p)) (Some (length (d_useListNodes s))) _ _ _ HU1) as HU2. rewrite U1.
    destruct (undoes_used (fa_b (original p)) f _ _ _ m1 HU2) as (m2 & U2 & U2'); [rewrite length_set_uses, length_app, (shape_vec _ Hs); cbn; lia |]. rewrite U2. cbn [fst snd].
    eexists _, (E' ++ [single (length E)]). split; [apply undoes_set_uses; exact HU2 |]. split; [| by rewrite take_app_le by lia].
    rewrite drop_app_le, map_app by done. cbn [map]. rewrite Happ, <- U2', <- U1'. apply undoesn_app; cbn [fst]; rewrite ?length_app; cbn; [lia | lia |]. exact (undoesn_snoc _ _ _ _ HN).
  - exists (G ++ [None]). split; [by apply undoesg_app |]. rewrite take_app_le; [done |]. apply undoesg_length in HG. rewrite (shape_graph _ Hs) in HG. lia.
Qed.
(** The flags of a new node. *)
Lemma map_insert_same {A B} (f : A -> B) (l : list A) i x y : l !! i = Some x -> f y = f x -> map f (<[i:=y]> l) = map f l.
Proof. intros Hi E. change (map f ?m) with (f <$> m). rewrite list_fmap_insert, E. apply list_insert_id. by rewrite list_lookup_fmap, Hi. Qed.
Lemma map_drop_insert {A B} (f : A -> B) (l : list A) n i x y : l !! i = Some x -> f y = f x -> map f (drop n (<[i:=y]> l)) = map f (drop n l).
Proof. intros Hi E. rewrite <- !skipn_map. f_equal. by apply (map_insert_same f l i x y). Qed.
Lemma ext_flags b s i info info' : Ext b s -> d_nodes s !! i = Some info -> nodes_of b <= i -> nd_node info' = nd_node info -> nd_application info' = nd_application info ->
  Ext b (put_nodes (<[i:=info']> (d_nodes s)) s).
Proof.
  intros [? Hn Hi1 Hi2 Hi3 ? Hv ? ? ? ? ?] Hi Hle Ht Ha. constructor; try assumption; cbn [d_nodes put_nodes d_nodeIds d_assertedEqualities d_equalityNodes d_useListNodes].
  - by rewrite take_insert_ge.
  - intros t j. rewrite (map_drop_insert nd_node _ _ i info info') by done. apply Hi2.
  - intros t. rewrite (map_drop_insert nd_node _ _ i info info') by done. apply Hi3.
  - by rewrite (map_drop_insert nd_application _ _ i info info') by done.
Qed.

(** A merge, with its edge. *)
Definition add_edge (t1 t2 : nat) (g1 g2 : option nat) (type : MergeReasonType) (reason : option Term) (s : EqualityEngine) : EqualityEngine :=
  put_graph (<[t2:=Some (Nat.lor (length (d_equalityEdges s)) 1)]> (<[t1:=Some (length (d_equalityEdges s))]> (d_equalityGraph s)))
    (put_edges (d_equalityEdges s ++ [MkEdge t2 g1 type reason; MkEdge t1 g2 type reason]) s).
Definition add_merge (m : option (nat * nat)) (E : vec) (s : EqualityEngine) : EqualityEngine := put_asserted (d_assertedEqualities s ++ [m]) (put_equalityNodes E s).
Lemma addGraphEdge_run t1 t2 type reason s g1 g2 : d_equalityGraph s !! t1 = Some g1 -> d_equalityGraph s !! t2 = Some g2 -> addGraphEdge t1 t2 type reason s = Ok (tt, add_edge t1 t2 g1 g2 type reason s).
Proof. intros H1 H2. unfold addGraphEdge. by rewrite H1, H2. Qed.
Lemma ext_add_merge b s m E t1 t2 g1 g2 type reason : Ext b s -> Shape s -> t1 <> t2 -> d_equalityGraph s !! t1 = Some g1 -> d_equalityGraph s !! t2 = Some g2 ->
  (forall M E0, Undoes M (d_equalityNodes s) E0 -> Undoes (M ++ [m]) E E0) -> Ext b (add_merge m E (add_edge t1 t2 g1 g2 type reason s)).
Proof.
  intros HX Hs Hne H1 H2 HM. pose proof (ext_le_merges b s HX) as Hle. pose proof (shape_edges _ Hs) as He.
  destruct HX as [? ? ? ? ? Hm (E0 & E' & HU & HN & HtE) Hed (G & HG & HtG) ? ? ?]. constructor; try assumption.
  - cbn [d_assertedEqualities add_merge add_edge put_asserted put_equalityNodes put_graph put_edges]. by rewrite take_app_le.
  - exists E0, E'. split; [| done]. cbn [d_assertedEqualities d_equalityNodes add_merge add_edge put_asserted put_equalityNodes put_graph put_edges]. rewrite drop_app_le by done. by apply HM.
  - cbn [d_equalityEdges add_merge add_edge put_asserted put_equalityNodes put_graph put_edges]. by rewrite take_app_le by lia.
  - exists G. split; [| done]. cbn [d_equalityEdges d_equalityGraph add_merge add_edge put_asserted put_equalityNodes put_graph put_edges]. rewrite drop_app_le by lia.
    assert (length (d_equalityEdges s) = 2 * merges_of b + length (drop (2 * merges_of b) (d_equalityEdges s))) as Hlen by (rewrite length_drop; lia).
    rewrite Hlen at 1 2. by apply undoesg_edge.
Qed.
