(* ===== verification/EqualityForest.v ===== *)
(** * Forests of edges

    The equality graph is a forest: an edge is added only between two components.  Edge [2k]
    leads from the first to the second end of the [k]-th pair, edge [2k+1] back.  A walk that
    never turns back is then unique, and it uses only the edges that were there when its ends
    were first connected. *)

From S2P Require Import Prelude.
Local Open Scope nat_scope.

Abbreviation pairs_t := (list (nat * nat)).
(** Edge [e] leads from [u] to [v]. *)
Definition edge_ends (P : pairs_t) (e : nat) : option (nat * nat) := '(x, y) ← P !! (e / 2); Some (if Nat.even e then (x, y) else (y, x)).
Definition conn (P : pairs_t) (i j : nat) : Prop := forall R : nat -> nat -> Prop, Equivalence R -> (forall p, p ∈ P -> R p.1 p.2) -> R i j.
#[global] Instance conn_equiv P : Equivalence (conn P).
Proof.
  split.
  - intros i R HR _. reflexivity.
  - intros i j H R HR HP. symmetry. by apply H.
  - intros i j k H1 H2 R HR HP. transitivity j; [by apply H1 | by apply H2].
Qed.
Lemma conn_in P p : p ∈ P -> conn P p.1 p.2.
Proof. intros Hp R HR HP. by apply HP. Qed.
Lemma conn_mono P P' i j : conn P i j -> (forall p, p ∈ P -> p ∈ P') -> conn P' i j.
Proof. intros H Hs R HR HP. apply H; [done |]. intros p Hp. by apply HP, Hs. Qed.
Lemma conn_app P P' i j : conn P i j -> conn (P ++ P') i j.
Proof. intros H. eapply conn_mono; [done |]. intros p Hp. apply elem_of_app. by left. Qed.
Lemma conn_take P k k' i j : k <= k' -> conn (take k P) i j -> conn (take k' P) i j.
Proof. intros Hk H. eapply conn_mono; [done |]. intros p Hp. assert (take k P = take k (take k' P)) as E by (by rewrite take_take, Nat.min_l). rewrite E in Hp. by eapply elem_of_take in Hp as (? & ? & _); eapply list_elem_of_lookup_2. Qed.
Lemma conn_all P k i j : conn (take k P) i j -> conn P i j.
Proof. intros H. rewrite <- (take_drop k P). by apply conn_app. Qed.

Inductive Walk (P : pairs_t) : nat -> list nat -> nat -> Prop :=
  | walk_nil u : Walk P u [] u
  | walk_cons u v w e es : edge_ends P e = Some (u, v) -> Walk P v es w -> Walk P u (e :: es) w.
(** Consecutive edges are not the two directions of one pair. *)
Fixpoint forward (es : list nat) : Prop := match es with e :: (e' :: _) as t => e / 2 <> e' / 2 /\ forward t | _ => True end.
Definition Forest (P : pairs_t) : Prop := forall k x y, P !! k = Some (x, y) -> ~ conn (take k P) x y.

Lemma edge_ends_lt P e uv : edge_ends P e = Some uv -> e / 2 < length P.
Proof. unfold edge_ends. destruct (P !! (e / 2)) as [[x y]|] eqn:E; [| done]. intros _. by eapply lookup_lt_Some. Qed.
Lemma edge_ends_app P P' e : e / 2 < length P -> edge_ends (P ++ P') e = edge_ends P e.
Proof. intros Hl. unfold edge_ends. by rewrite lookup_app_l. Qed.
Lemma edge_conn P e u v : edge_ends P e = Some (u, v) -> conn P u v.
Proof.
  unfold edge_ends. destruct (P !! (e / 2)) as [[x y]|] eqn:E; [| done]. cbn. intros H. apply list_elem_of_lookup_2, conn_in in E. cbn in E. destruct (Nat.even e); injection H as <- <-; [done | by symmetry].
Qed.
Lemma edge_ends_in P e u v : edge_ends P e = Some (u, v) -> (u, v) ∈ P \/ (v, u) ∈ P.
Proof.
  unfold edge_ends. destruct (P !! (e / 2)) as [[x y]|] eqn:E; [| done]. cbn. intros H. apply list_elem_of_lookup_2 in E. destruct (Nat.even e); injection H as <- <-; [by left | by right].
Qed.
(** A node without edges is connected to nothing else. *)
Lemma conn_isolated P n j : (forall p, p ∈ P -> p.1 <> n /\ p.2 <> n) -> conn P n j -> j = n.
Proof.
  intros HP H. assert ((fun x y => x = y \/ x <> n /\ y <> n) n j) as [<- | [? _]]; [| done | done]. apply (H (fun x y => x = y \/ x <> n /\ y <> n)).
  - split; [intros x; by left | intros x y [-> | [? ?]]; [by left | by right] |]. intros x y z [-> | [? ?]]; [done |]. intros [<- | [? ?]]; right; done.
  - intros p Hp. right. by apply HP.
Qed.
Lemma walk_conn P u es v : Walk P u es v -> conn P u v.
Proof. induction 1 as [|u v w e es He _ IH]; [reflexivity |]. transitivity v; [by eapply edge_conn | done]. Qed.
Lemma walk_app P u es1 v es2 w : Walk P u es1 v -> Walk P v es2 w -> Walk P u (es1 ++ es2) w.
Proof. induction 1; [done |]. intros H2. cbn. by econstructor; [| auto]. Qed.
Lemma walk_app_inv P u es1 es2 w : Walk P u (es1 ++ es2) w -> exists v, Walk P u es1 v /\ Walk P v es2 w.
Proof.
  revert u. induction es1 as [|e es1 IH]; intros u H; [exists u; by split; [constructor |] |]. cbn in H. inversion H as [|? v ? ? ? He Hw]; subst. destruct (IH v Hw) as (z & H1 & H2). exists z. split; [by econstructor | done].
Qed.
Lemma walk_mono P P' u es v : Walk P u es v -> Walk (P ++ P') u es v.
Proof. induction 1 as [|u v w e es He _ IH]; econstructor; [| done]. rewrite edge_ends_app; [done | by eapply edge_ends_lt]. Qed.
Lemma walk_restrict P P' u es v : Walk (P ++ P') u es v -> Forall (fun e => e / 2 < length P) es -> Walk P u es v.
Proof. induction 1 as [|u v w e es He _ IH]; intros Hf; [constructor |]. apply Forall_cons in Hf as [H1 H2]. econstructor; [| by apply IH]. by rewrite edge_ends_app in He. Qed.
Lemma walk_target P u es v v' : Walk P u es v -> Walk P u es v' -> v = v'.
Proof. intros H. revert v'. induction H as [|u v w e es He _ IH]; intros v' H'; inversion H' as [|? z ? ? ? He' Hw']; subst; [done |]. apply IH. congruence. Qed.
Lemma forward_app es1 e es2 : forward (es1 ++ e :: es2) -> forward es1 /\ forward (e :: es2) /\ forward es2.
Proof.
  induction es1 as [|a es1 IH]; intros H.
  - split; [done |]. split; [done |]. destruct es2; [done | by destruct H].
  - destruct es1 as [|b es1]; [destruct H as [_ H]; destruct (IH H) as (_ & ? & ?); by split |]. destruct H as [Hab H]. destruct (IH H) as (H1 & H2 & H3). by split.
Qed.
Lemma half_even k : 2 * k / 2 = k.
Proof. rewrite Nat.mul_comm. by apply Nat.div_mul. Qed.
Lemma half_odd k : (2 * k + 1) / 2 = k.
Proof. rewrite Nat.mul_comm, Nat.div_add_l by done. cbn. lia. Qed.
(** The two directions of one pair. *)
Lemma edge_same_pair P e e' u v u' v' : edge_ends P e = Some (u, v) -> edge_ends P e' = Some (u', v') -> e / 2 = e' / 2 -> e = e' /\ u' = u /\ v' = v \/ u' = v /\ v' = u.
Proof.
  unfold edge_ends. intros H1 H2 E. rewrite <- E in H2. destruct (P !! (e / 2)) as [[x y]|]; [| done]. cbn [mbind option_bind] in *. destruct (Nat.even e) eqn:E1, (Nat.even e') eqn:E2; injection H1 as <- <-; injection H2 as <- <-; try (right; done); left; (split; [| done]).
  - apply Nat.even_spec in E1 as [k ->], E2 as [k' ->]. rewrite !half_even in E. lia.
  - assert (Nat.odd e = true) as O1 by (unfold Nat.odd; by rewrite E1). assert (Nat.odd e' = true) as O2 by (unfold Nat.odd; by rewrite E2). apply Nat.odd_spec in O1 as [k ->], O2 as [k' ->]. rewrite !half_odd in E. lia.
Qed.

(** ** Unique walks *)
Definition Unique (P : pairs_t) : Prop := forall u v es es', Walk P u es v -> Walk P u es' v -> forward es -> forward es' -> es = es'.
Section snoc.
Context (P : pairs_t) (x y : nat).
Hypothesis HU : Unique P.
Hypothesis Hxy : ~ conn P x y.
Abbreviation P' := (P ++ [(x, y)]).
Lemma new_edge e u v : edge_ends P' e = Some (u, v) -> ~ e / 2 < length P -> e / 2 = length P /\ ~ conn P u v.
Proof.
  intros He Hn. pose proof (edge_ends_lt _ _ _ He) as Hlt. rewrite length_app in Hlt. cbn [length] in Hlt. assert (e / 2 = length P) as E by lia. split; [done |]. unfold edge_ends in He. rewrite E, list_lookup_middle in He by done. cbn in He.
  destruct (Nat.even e); injection He as <- <-; [done |]. intros H. by apply Hxy; symmetry.
Qed.
(** The new edge is taken once at most. *)
Lemma new_edge_once u es v : Walk P' u es v -> forward es -> Walk P u es v \/
  exists es1 e es2 a b, es = es1 ++ e :: es2 /\ e / 2 = length P /\ edge_ends P' e = Some (a, b) /\ Walk P u es1 a /\ Walk P b es2 v /\ forward es1 /\ forward es2 /\ ~ conn P a b.
Proof.
  induction 1 as [u | u z v e es He Hw IH]; intros Hf; [left; constructor |]. assert (Hfes : forward es) by (by destruct es; [| destruct Hf]). destruct (decide (e / 2 < length P)) as [Hlt | Hge].
  - rewrite edge_ends_app in He by done. destruct (IH Hfes) as [IHw | (es1 & e' & es2 & a & b & -> & E & He' & H1 & H2 & F1 & F2 & Hab)]; [left; by econstructor |].
    right. exists (e :: es1), e', es2, a, b. split; [done |]. split; [done |]. split; [done |]. split; [by econstructor |]. split; [done |]. split; [| done]. change (forward ((e :: es1) ++ e' :: es2)) in Hf. apply forward_app in Hf as (? & _). done.
  - destruct (new_edge e u z He Hge) as [E Hc]. right. exists [], e, es, u, z. destruct (IH Hfes) as [IHw | (es1 & e' & es2 & a & b & -> & E' & He' & H1 & H2 & F1 & F2 & Hab)]; [split_and!; try done; constructor |]. exfalso.
    destruct (edge_same_pair P' e e' u z a b He He') as [(-> & -> & ->) | [-> ->]]; [congruence | by apply Hc; symmetry; eapply walk_conn |].
    rewrite (HU z z es1 [] H1 (walk_nil _ _) F1 I) in Hf. destruct Hf as [Hf _]. congruence.
Qed.
Lemma unique_snoc : Unique P'.
Proof.
  intros u v es es' Hw Hw' Hf Hf'. destruct (new_edge_once u es v Hw Hf) as [H | (es1 & e & es2 & a & b & -> & E & He & H1 & H2 & F1 & F2 & Hab)], (new_edge_once u es' v Hw' Hf') as [H' | (es1' & e' & es2' & a' & b' & -> & E' & He' & H1' & H2' & F1' & F2' & Hab')].
  - by apply (HU u v).
  - exfalso. apply Hab'. transitivity u; [symmetry; by eapply walk_conn |]. transitivity v; [by eapply walk_conn | symmetry; by eapply walk_conn].
  - exfalso. apply Hab. transitivity u; [symmetry; by eapply walk_conn |]. transitivity v; [by eapply walk_conn | symmetry; by eapply walk_conn].
  - destruct (edge_same_pair P' e e' a b a' b' He He') as [(-> & -> & ->) | [-> ->]]; [congruence | |].
    + by rewrite (HU u a es1 es1' H1 H1' F1 F1'), (HU b v es2 es2' H2 H2' F2 F2').
    + exfalso. apply Hab. transitivity u; [symmetry; by eapply walk_conn | by eapply walk_conn].
Qed.
End snoc.
Lemma forest_snoc P x y : Forest (P ++ [(x, y)]) <-> Forest P /\ ~ conn P x y.
Proof.
  split.
  - intros H. split.
    + intros k a b Hk. pose proof (lookup_lt_Some _ _ _ Hk). specialize (H k a b). rewrite take_app_le in H by lia. apply H. by apply lookup_app_l_Some.
    + specialize (H (length P) x y (list_lookup_middle _ _ _ _ eq_refl)). by rewrite take_app_length in H.
  - intros [H Hxy] k a b [[Hlt Hk] | [-> [= <- <-]]]%lookup_snoc_Some; [rewrite take_app_le by lia; by apply H | by rewrite take_app_length].
Qed.
Lemma forest_unique P : Forest P -> Unique P.
Proof.
  induction P as [|[x y] P IH] using rev_ind.
  - intros _ u v es es' H H' _ _. destruct es as [|e es]; [| inversion H as [|? ? ? ? ? He]; done]. destruct es' as [|e' es']; [done | inversion H' as [|? ? ? ? ? He]; done].
  - intros [HF Hxy]%forest_snoc. apply unique_snoc; [by apply IH | done].
Qed.
Lemma forest_take P k : Forest P -> Forest (take k P).
Proof. intros H j x y Hj. apply lookup_take_Some in Hj as [Hj Hlt]. rewrite take_take, Nat.min_l by lia. by apply H. Qed.

(** ** Walks exist *)
Lemma conn_snoc P x y u v : conn (P ++ [(x, y)]) u v -> conn P u v \/ (conn P u x /\ conn P y v) \/ (conn P u y /\ conn P x v).
Proof.
  intros H. apply H.
  - split.
    + intros a. left. reflexivity.
    + intros a b [H1 | [[H1 H2] | [H1 H2]]]; [left | right; right | right; left]; [| split | split]; by symmetry.
    + intros a b c [H1 | [[H1 H2] | [H1 H2]]] [H3 | [[H3 H4] | [H3 H4]]].
      * left. by transitivity b.
      * right. left. split; [by transitivity b | done].
      * right. right. split; [by transitivity b | done].
      * right. left. split; [done | by transitivity b].
      * right. left. by split.
      * left. by transitivity x.
      * right. right. split; [done | by transitivity b].
      * left. by transitivity y.
      * right. right. by split.
  - intros p [Hp | ->%list_elem_of_singleton]%elem_of_app; [left; by apply conn_in |]. right. left. split; reflexivity.
Qed.
Lemma forward_middle es1 e es2 : forward es1 -> forward es2 -> Forall (fun e' => e' / 2 <> e / 2) (es1 ++ es2) -> forward (es1 ++ e :: es2).
Proof.
  intros H1 H2 Hf. induction es1 as [|a es1 IH].
  - destruct es2 as [|b es2]; [done |]. apply Forall_cons in Hf as [Hb _]. split; [by apply not_eq_sym | done].
  - apply Forall_cons in Hf as [Ha Hf]. destruct es1 as [|b es1]; [split; [done | by apply IH] |]. destruct H1 as [Hab H1]. split; [done |]. by apply IH.
Qed.
Lemma walk_edges P u es v : Walk P u es v -> Forall (fun e => e / 2 < length P) es.
Proof. induction 1 as [|u v w e es He _ IH]; constructor; [by eapply edge_ends_lt | done]. Qed.
Lemma walk_exists P : forall u v, conn P u v -> exists es, Walk P u es v /\ forward es.
Proof.
  induction P as [|[x y] P IH] using rev_ind; intros u v H.
  - exists []. split; [| done]. assert (u = v) as -> by (apply (H eq); [apply _ | intros p Hp; by apply not_elem_of_nil in Hp]). constructor.
  - assert (Hnew : forall e a b, edge_ends (P ++ [(x, y)]) e = Some (a, b) -> e / 2 = length P -> conn P u a -> conn P b v -> exists es, Walk (P ++ [(x, y)]) u es v /\ forward es).
    { intros e a b He E Ha Hb. destruct (IH u a Ha) as (es1 & W1 & F1), (IH b v Hb) as (es2 & W2 & F2). exists (es1 ++ e :: es2). split.
      - eapply walk_app; [by apply walk_mono |]. econstructor; [done | by apply walk_mono].
      - apply forward_middle; [done | done |]. rewrite E. apply Forall_app. split; (eapply Forall_impl; [by eapply walk_edges |]); cbn; lia. }
    apply conn_snoc in H as [H | [[H1 H2] | [H1 H2]]].
    + destruct (IH u v H) as (es & Hw & Hf). exists es. split; [by apply walk_mono | done].
    + apply (Hnew (2 * length P) x y); [| apply half_even | done | done]. unfold edge_ends. rewrite half_even, list_lookup_middle by done. cbn [mbind option_bind]. by rewrite Nat.even_even.
    + apply (Hnew (2 * length P + 1) y x); [| apply half_odd | done | done]. unfold edge_ends. rewrite half_odd, list_lookup_middle by done. cbn [mbind option_bind]. by rewrite Nat.even_odd.
Qed.
(** The walk between two nodes uses the edges that connect them. *)
Lemma walk_within P k u es v : Forest P -> Walk P u es v -> forward es -> conn (take k P) u v -> Forall (fun e => e / 2 < k) es.
Proof.
  intros HF Hw Hf Hc. destruct (walk_exists _ u v Hc) as (es' & Hw' & Hf'). assert (es = es') as ->.
  { apply (forest_unique P HF u v); [done | | done | done]. rewrite <- (take_drop k P). by apply walk_mono. }
  eapply Forall_impl; [by eapply walk_edges |]. cbn. intros e. rewrite length_take. lia.
Qed.
