(* ===== verification/EqualityClosure.v ===== *)
(** * Congruence closure

    What a round of [propagate] computes, on node ids: [J] is any equivalence that the
    applications respect and that holds of what was asserted, [B] says which nodes are Boolean.
    Merges stay within [J] (soundness), every application finds its class in the lookup table
    (completeness), and the queue is emptied. *)

From S2P Require Import Prelude EqualityEngine EqualityClasses EqualityBacktrack EqualityForest.
Local Open Scope nat_scope.

(** ** Use lists *)
Inductive UseList (mem : memory) : option nat -> list nat -> Prop :=
  | uses_nil : UseList mem None []
  | uses_cons u f next l : mem !! u = Some (f, next) -> (forall v, next = Some v -> v < u) -> UseList mem next l -> UseList mem (Some u) (f :: l).
Lemma uses_length mem u l : UseList mem u l -> length l <= match u with Some v => S v | None => 0 end.
Proof. induction 1 as [|u f next l Hu Hlt _ IH]; cbn; [done |]. destruct next as [v|]; [specialize (Hlt v eq_refl) |]; lia. Qed.
Lemma uses_bound mem u l : UseList mem u l -> length l <= length mem.
Proof. intros HU. pose proof (uses_length _ _ _ HU) as Hl. destruct HU as [|u f next l Hu]; [cbn; lia |]. apply lookup_lt_Some in Hu. cbn in *. lia. Qed.
Lemma uses_app mem x u l : UseList mem u l -> UseList (mem ++ [x]) u l.
Proof. induction 1 as [|u f next l Hu Hlt _ IH]; econstructor; try done. by rewrite lookup_app_l by (by eapply lookup_lt_Some). Qed.

(** ** What is known of a state *)
Definition isC (s : EqualityEngine) (i : nat) : bool := match d_nodes s !! i with Some info => nd_isConstant info | None => false end.
(** Node [f] is the application [p]. *)
Definition app_of (s : EqualityEngine) (f : nat) (p : FunctionApplicationPair) : Prop := exists info, d_nodes s !! f = Some info /\ nd_application info = Some p.
Abbreviation oty p := (fa_type (original p)).
Abbreviation oa p := (fa_a (original p)).
Abbreviation ob p := (fa_b (original p)).
(** Equal, or to be merged. *)
Definition eqv (E : vec) (Q : list MergeCandidate) (i j : nat) : Prop :=
  forall R : nat -> nat -> Prop, Equivalence R -> (forall x y, x < length E -> y < length E -> fnd E x = fnd E y -> R x y) -> (forall c, c ∈ Q -> R (t1Id c) (t2Id c)) -> R i j.
Lemma eqv_refl E Q i : eqv E Q i i.
Proof. intros R HR _ _. reflexivity. Qed.
Lemma eqv_sym E Q i j : eqv E Q i j -> eqv E Q j i.
Proof. intros H R HR H1 H2. symmetry. by apply H. Qed.
Lemma eqv_trans E Q i j k : eqv E Q i j -> eqv E Q j k -> eqv E Q i k.
Proof. intros Hij Hjk R HR H1 H2. transitivity j; [by apply Hij | by apply Hjk]. Qed.
Lemma eqv_find E Q i j : i < length E -> j < length E -> fnd E i = fnd E j -> eqv E Q i j.
Proof. intros Hi Hj Hf R HR H1 H2. by apply H1. Qed.
Lemma eqv_queue E Q c : c ∈ Q -> eqv E Q (t1Id c) (t2Id c).
Proof. intros Hc R HR H1 H2. by apply H2. Qed.
Lemma eqv_mono E Q Q' i j : eqv E Q i j -> (forall c, c ∈ Q -> c ∈ Q') -> eqv E Q' i j.
Proof. intros H HQ R HR H1 H2. apply H; [done | done |]. intros c Hc. by apply H2, HQ. Qed.
Lemma eqv_nil E i j : i < length E -> j < length E -> eqv E [] i j -> fnd E i = fnd E j.
Proof.
  intros Hi Hj H. assert ((fun x y => fnd E x = fnd E y) i j) as Hf; [| exact Hf]. apply H.
  - split; [by intros x | by intros x y | intros x y z H1 H2; by rewrite H1].
  - done.
  - intros c Hc. by apply not_elem_of_nil in Hc.
Qed.

(** ** The equality graph *)
(** The ends of the pairs of edges. *)
Fixpoint pairs_of (l : list EqualityEdge) : pairs_t := match l with e1 :: e2 :: l => (d_nodeId e2, d_nodeId e1) :: pairs_of l | _ => [] end.
Lemma pairs_app m : forall l e1 e2, length l = 2 * m -> pairs_of (l ++ [e1; e2]) = pairs_of l ++ [(d_nodeId e2, d_nodeId e1)].
Proof. induction m as [|m IH]; intros l e1 e2 Hl; [by destruct l |]. destruct l as [|a [|b l]]; cbn in Hl; [lia | lia |]. cbn. f_equal. apply IH. lia. Qed.
Lemma pairs_length m : forall l, length l = 2 * m -> length (pairs_of l) = m.
Proof. induction m as [|m IH]; intros l Hl; [by destruct l |]. destruct l as [|a [|b l]]; cbn in Hl; [lia | lia |]. cbn. f_equal. apply IH. lia. Qed.
Lemma pairs_lookup k : forall l x y, pairs_of l !! k = Some (x, y) <-> exists e1 e2, l !! (2 * k) = Some e1 /\ l !! (2 * k + 1) = Some e2 /\ x = d_nodeId e2 /\ y = d_nodeId e1.
Proof.
  induction k as [|k IH]; intros l x y.
  - destruct l as [|a [|b l]]; cbn; [by split; [| intros (? & ? & ? & _)] | by split; [| intros (? & ? & _ & ? & _)] |]. split; [intros [= <- <-]; by exists a, b | intros (e1 & e2 & [= <-] & [= <-] & -> & ->); done].
  - replace (2 * S k) with (S (S (2 * k))) by lia. replace (S (S (2 * k)) + 1) with (S (S (2 * k + 1))) by lia. destruct l as [|a [|b l]]; [by split; [| intros (? & ? & ? & _)] | by split; [| intros (? & ? & ? & _)] |]. apply IH.
Qed.
(** The edges of a node, the last first. *)
Inductive EdgeList (edges : list EqualityEdge) : option nat -> list nat -> Prop :=
  | edges_nil : EdgeList edges None []
  | edges_cons e ed l : edges !! e = Some ed -> (forall e', e' ∈ l -> e' < e) -> EdgeList edges (d_next ed) l -> EdgeList edges (Some e) (e :: l).
Lemma edge_list_app edges l' g l : EdgeList edges g l -> EdgeList (edges ++ l') g l.
Proof. induction 1; econstructor; try done. by apply lookup_app_l_Some. Qed.

(** Why a merge is right: [R] is what was known before, [A] what was asserted. *)
Definition Justified (A : nat -> nat -> option Term -> Prop) (s : EqualityEngine) (R : nat -> nat -> Prop) (x y : nat) (ty : MergeReasonType) (r : option Term) : Prop :=
  match ty with
  | MERGED_THROUGH_CONGRUENCE => exists p q, app_of s x p /\ app_of s y q /\ oty p = oty q /\ R (oa p) (oa q) /\ R (ob p) (ob q)
  | MERGED_THROUGH_REFLEXIVITY => y = d_trueId /\ exists p, app_of s x p /\ oty p = APP_EQUALITY /\ R (oa p) (ob p)
  | MERGED_THROUGH_CONSTANTS => y = d_falseId /\ exists p c d, app_of s x p /\ oty p = APP_EQUALITY /\ isC s c = true /\ isC s d = true /\ c <> d /\ R (oa p) c /\ R (ob p) d
  | _ => A x y r
  end.
Lemma justified_grow (A A' : nat -> nat -> option Term -> Prop) s s' (R R' : nat -> nat -> Prop) x y ty r : (forall i j q, A i j q -> A' i j q) -> (forall f p, app_of s f p -> app_of s' f p) -> (forall c, isC s c = true -> isC s' c = true) -> (forall i j, R i j -> R' i j) -> Justified A s R x y ty r -> Justified A' s' R' x y ty r.
Proof.
  intros HA Ha Hc HR. destruct ty; cbn; try apply HA.
  - intros (p & q & Hp & Hq & Ht & H1 & H2). exists p, q. split_and!; auto.
  - intros (E & p & Hp & Ht & H). split; [done |]. exists p. split_and!; auto.
  - intros (E & p & c & d & Hp & Ht & H1 & H2 & Hne & H3 & H4). split; [done |]. exists p, c, d. split_and!; auto.
Qed.

Section closure.
Context (J : nat -> nat -> Prop) (B : nat -> bool) (A : nat -> nat -> option Term -> Prop).

Record Static (s : EqualityEngine) : Prop := {
  st_shape : Shape s;
  st_app f p : app_of s f p -> oa p < f /\ ob p < f /\ fa_type (normalized p) = oty p;
  st_uses i n : d_equalityNodes s !! i = Some n -> exists l, UseList (d_useListNodes s) (d_useList n) l /\ forall f, f ∈ l <-> exists p, app_of s f p /\ (oa p = i \/ ob p = i);
  st_bool f p : app_of s f p -> B (oa p) = false /\ B (ob p) = false;
  st_equality i info : d_nodes s !! i = Some info -> nd_isEquality info = true -> B i = true;
  st_internal i info : d_nodes s !! i = Some info -> nd_isConstant info = true -> nd_isInternal info = false;
  st_ids i info : d_nodes s !! i = Some info -> exists k, d_nodeIds s !! nd_node info = Some k /\ k < nodes_of s;
  st_true : isC s d_trueId = true;
  st_false : isC s d_falseId = true
}.
(** The equivalence respects the applications. *)
Record Respects (s : EqualityEngine) : Prop := {
  res_equiv : Equivalence J;
  res_bool i j : J i j -> B i = B j;
  res_congr f g p q : app_of s f p -> app_of s g q -> oty p = oty q -> J (oa p) (oa q) -> J (ob p) (ob q) -> J f g;
  res_true f p : app_of s f p -> oty p = APP_EQUALITY -> J (oa p) (ob p) -> J f d_trueId;
  res_false f p c d : app_of s f p -> oty p = APP_EQUALITY -> isC s c = true -> isC s d = true -> c <> d -> J (oa p) c -> J (ob p) d -> J f d_falseId
}.
Record Sound (s : EqualityEngine) : Prop := {
  so_find i j : i < nodes_of s -> j < nodes_of s -> fnd (d_equalityNodes s) i = fnd (d_equalityNodes s) j -> J i j;
  so_queue c : c ∈ d_propagationQueue s -> t1Id c < nodes_of s /\ t2Id c < nodes_of s /\ J (t1Id c) (t2Id c);
  so_lookup k g : d_applicationLookup s !! k = Some g -> exists q, app_of s g q /\ oty q = fa_type k /\ J (oa q) (fa_a k) /\ J (ob q) (fa_b k) /\ fa_a k < nodes_of s /\ fa_b k < nodes_of s
}.
Abbreviation Justified := (Justified A).
Lemma justified_mono s s' (R R' : nat -> nat -> Prop) x y ty r : (forall f p, app_of s f p -> app_of s' f p) -> (forall c, isC s c = true -> isC s' c = true) -> (forall i j, R i j -> R' i j) -> Justified s R x y ty r -> Justified s' R' x y ty r.
Proof. by apply justified_grow. Qed.
Abbreviation P s := (pairs_of (d_equalityEdges s)).
Record Edges (s : EqualityEngine) : Prop := {
  eg_forest : Forest (P s);
  eg_just k e1 e2 : d_equalityEdges s !! (2 * k) = Some e1 -> d_equalityEdges s !! (2 * k + 1) = Some e2 -> d_mergeType e2 = d_mergeType e1 /\ d_reason e2 = d_reason e1 /\
    Justified s (conn (take k (P s))) (d_nodeId e2) (d_nodeId e1) (d_mergeType e1) (d_reason e1);
  eg_lists v g : d_equalityGraph s !! v = Some g -> exists l, EdgeList (d_equalityEdges s) g l /\ forall e, e ∈ l <-> exists w, edge_ends (P s) e = Some (v, w);
  eg_bounds p : p ∈ P s -> p.1 < nodes_of s /\ p.2 < nodes_of s
}.
Definition same_class (s : EqualityEngine) (i j : nat) : Prop := i < nodes_of s /\ j < nodes_of s /\ fnd (d_equalityNodes s) i = fnd (d_equalityNodes s) j.
Record Expl (s : EqualityEngine) : Prop := {
  xp_edges : Edges s;
  xp_conn i j : i < nodes_of s -> j < nodes_of s -> conn (P s) i j <-> fnd (d_equalityNodes s) i = fnd (d_equalityNodes s) j;
  xp_queue c : c ∈ d_propagationQueue s -> Justified s (same_class s) (t1Id c) (t2Id c) (mc_type c) (mc_reason c);
  xp_lookup k g : d_applicationLookup s !! k = Some g -> exists q, app_of s g q /\ oty q = fa_type k /\ same_class s (oa q) (fa_a k) /\ same_class s (ob q) (fa_b k)
}.
Lemma lor_one m : Nat.lor (2 * m) 1 = 2 * m + 1.
Proof. apply Nat.bits_inj. intros [|k]; rewrite Nat.lor_spec; [by rewrite Nat.testbit_even_0, Nat.testbit_odd_0 |]. rewrite Nat.testbit_even_succ, Nat.testbit_odd_succ by lia. assert (Nat.testbit 1 (S k) = false) as -> by (cbn; apply Nat.bits_0). apply orb_false_r. Qed.
Lemma edge_new P x y e u v : edge_ends (P ++ [(x, y)]) e = Some (u, v) <-> edge_ends P e = Some (u, v) \/ e = 2 * length P /\ u = x /\ v = y \/ e = 2 * length P + 1 /\ u = y /\ v = x.
Proof.
  split.
  - intros H. destruct (decide (e / 2 < length P)) as [Hlt | Hge]; [left; by rewrite edge_ends_app in H |]. right. pose proof (edge_ends_lt _ _ _ H) as Hlt. rewrite length_app in Hlt. cbn [length] in Hlt. assert (e / 2 = length P) as E by lia.
    unfold edge_ends in H. rewrite E, list_lookup_middle in H by done. cbn [mbind option_bind] in H. destruct (Nat.even e) eqn:Ev.
    + apply Nat.even_spec in Ev as [k ->]. rewrite half_even in E. subst k. left. by injection H as <- <-.
    + assert (Nat.odd e = true) as Od by (unfold Nat.odd; by rewrite Ev). apply Nat.odd_spec in Od as [k ->]. rewrite half_odd in E. subst k. right. by injection H as <- <-.
  - intros [H | [(-> & -> & ->) | (-> & -> & ->)]].
    + rewrite edge_ends_app; [done | by eapply edge_ends_lt].
    + unfold edge_ends. rewrite half_even, list_lookup_middle by done. cbn [mbind option_bind]. by rewrite Nat.even_even.
    + unfold edge_ends. rewrite half_odd, list_lookup_middle by done. cbn [mbind option_bind]. by rewrite Nat.even_odd.
Qed.
(** The state with one edge more. *)
Section edge.
Context (s s1 : EqualityEngine) (m x y : nat) (g1 g2 : option nat) (ty : MergeReasonType) (r : option Term).
Hypothesis HE : Edges s.
Hypothesis Hm : length (d_equalityEdges s) = 2 * m.
Hypothesis Hx : d_equalityGraph s !! x = Some g1.
Hypothesis Hy : d_equalityGraph s !! y = Some g2.
Hypothesis Hnodes : d_nodes s1 = d_nodes s.
Hypothesis Hedges : d_equalityEdges s1 = d_equalityEdges s ++ [MkEdge y g1 ty r; MkEdge x g2 ty r].
Hypothesis Hgraph : d_equalityGraph s1 = <[y:=Some (Nat.lor (2 * m) 1)]> (<[x:=Some (2 * m)]> (d_equalityGraph s)).
Hypothesis Hlt : x < nodes_of s /\ y < nodes_of s.
Hypothesis Hnew : ~ conn (P s) x y.
Hypothesis Hjust : Justified s (conn (P s)) x y ty r.
Lemma edge_pairs : P s1 = P s ++ [(x, y)].
Proof. rewrite Hedges. by apply (pairs_app m). Qed.
Lemma edge_count : length (P s) = m.
Proof. by apply pairs_length. Qed.
Lemma edge_just k e1 e2 : d_equalityEdges s1 !! (2 * k) = Some e1 -> d_equalityEdges s1 !! (2 * k + 1) = Some e2 ->
  d_mergeType e2 = d_mergeType e1 /\ d_reason e2 = d_reason e1 /\ Justified s1 (conn (take k (P s1))) (d_nodeId e2) (d_nodeId e1) (d_mergeType e1) (d_reason e1).
Proof.
  rewrite edge_pairs, Hedges. intros H1 H2. assert (Hap : forall f p, app_of s f p -> app_of s1 f p) by (intros f p; unfold app_of; by rewrite Hnodes). assert (Hco : forall c, isC s c = true -> isC s1 c = true) by (intros c; unfold isC; by rewrite Hnodes).
  destruct (decide (k < m)) as [Hk | Hk].
  - rewrite lookup_app_l in H1 by lia. rewrite lookup_app_l in H2 by lia. destruct (eg_just _ HE k e1 e2 H1 H2) as (T1 & T2 & HJs). split; [done |]. split; [done |]. rewrite take_app_le by (rewrite edge_count; lia). by eapply justified_mono; [exact Hap | exact Hco | | exact HJs].
  - pose proof (lookup_lt_Some _ _ _ H2) as Hl2. rewrite length_app, Hm in Hl2. cbn in Hl2. assert (k = m) as -> by lia. rewrite lookup_app_r, Hm, Nat.sub_diag in H1 by lia. rewrite lookup_app_r, Hm in H2 by lia. replace (2 * m + 1 - 2 * m) with 1 in H2 by lia.
    injection H1 as <-. injection H2 as <-. split; [done |]. split; [done |]. rewrite <- edge_count, take_app_length. by eapply justified_mono; [exact Hap | exact Hco | | exact Hjust].
Qed.
Lemma edge_lists v g : d_equalityGraph s1 !! v = Some g -> exists l, EdgeList (d_equalityEdges s1) g l /\ forall e, e ∈ l <-> exists w, edge_ends (P s1) e = Some (v, w).
Proof.
  assert (Hxy : x <> y) by (intros ->; apply Hnew; reflexivity). pose proof (lookup_lt_Some _ _ _ Hx) as Lx. pose proof (lookup_lt_Some _ _ _ Hy) as Ly. rewrite edge_pairs, Hgraph, Hedges, lor_one.
  assert (Hb : forall u (l : list nat), (forall e, e ∈ l <-> exists w, edge_ends (P s) e = Some (u, w)) -> forall e, e ∈ l -> e < 2 * m).
  { intros u l Hl e [w Hw]%Hl. apply edge_ends_lt in Hw. rewrite edge_count in Hw. pose proof (Nat.div_mod_eq e 2). pose proof (Nat.mod_upper_bound e 2 ltac:(lia)). lia. }
  intros Hg. destruct (decide (v = y)) as [-> | Hvy].
  - rewrite list_lookup_insert_eq in Hg by (by rewrite length_insert). injection Hg as <-. destruct (eg_lists _ HE y g2 Hy) as (l & HL & Hl). exists ((2 * m + 1) :: l). split.
    + econstructor; [rewrite lookup_app_r, Hm by lia; by replace (2 * m + 1 - 2 * m) with 1 by lia | intros e He; specialize (Hb y l Hl e He); lia | by apply edge_list_app].
    + intros e. rewrite elem_of_cons, Hl. split.
      * intros [-> | [w Hw]]; [exists x; apply edge_new; right; right; by rewrite edge_count | exists w; apply edge_new; by left].
      * intros [w [Hw | [(-> & E & _) | (-> & _)]]%edge_new]; [right; by exists w | by destruct Hxy | left; by rewrite edge_count].
  - rewrite list_lookup_insert_ne in Hg by done. destruct (decide (v = x)) as [-> | Hvx].
    + rewrite list_lookup_insert_eq in Hg by done. injection Hg as <-. destruct (eg_lists _ HE x g1 Hx) as (l & HL & Hl). exists ((2 * m) :: l). split.
      * econstructor; [rewrite lookup_app_r, Hm, Nat.sub_diag by lia; done | intros e He; specialize (Hb x l Hl e He); lia | by apply edge_list_app].
      * intros e. rewrite elem_of_cons, Hl. split.
        -- intros [-> | [w Hw]]; [exists y; apply edge_new; right; left; by rewrite edge_count | exists w; apply edge_new; by left].
        -- intros [w [Hw | [(-> & _) | (-> & E & _)]]%edge_new]; [right; by exists w | left; by rewrite edge_count | done].
    + rewrite list_lookup_insert_ne in Hg by done. destruct (eg_lists _ HE v g Hg) as (l & HL & Hl). exists l. split; [by apply edge_list_app |]. intros e. rewrite Hl. split.
      * intros [w Hw]. exists w. apply edge_new. by left.
      * intros [w [Hw | [(_ & E & _) | (_ & E & _)]]%edge_new]; [by exists w | done | done].
Qed.
Lemma edges_add : Edges s1.
Proof.
  split; [| apply edge_just | apply edge_lists |].
  - rewrite edge_pairs. apply forest_snoc. split; [apply HE | done].
  - rewrite edge_pairs, Hnodes. intros p [Hp | ->%list_elem_of_singleton]%elem_of_app; [by apply (eg_bounds _ HE) | done].
Qed.
End edge.
Abbreviation fnds s := (fnd (d_equalityNodes s)).
Abbreviation eqvs s := (eqv (d_equalityNodes s) (d_propagationQueue s)).
Definition key (s : EqualityEngine) (p : FunctionApplicationPair) : FunctionApplication := MkApplication (oty p) (fnds s (oa p)) (fnds s (ob p)).
(** In the course of a merge: the applications of [todo] are still to be looked up. *)
Record Mid (todo : nat -> Prop) (s : EqualityEngine) : Prop := {
  mid_static : Static s;
  mid_counted : Counted s;
  mid_respects : Respects s;
  mid_sound : Sound s;
  mid_expl : Expl s;
  mid_find i : i < nodes_of s -> fnds s i < nodes_of s /\ fnds s (fnds s i) = fnds s i;
  mid_const i : isC s i = true -> fnds s i = i;
  mid_norm f p : app_of s f p -> fa_a (normalized p) < nodes_of s /\ fa_b (normalized p) < nodes_of s /\
    fnds s (fa_a (normalized p)) = fnds s (oa p) /\ fnds s (fa_b (normalized p)) = fnds s (ob p);
  mid_congr f p : app_of s f p -> ~ todo f -> exists g, d_applicationLookup s !! key s p = Some g /\ eqvs s f g;
  mid_eq k g : d_applicationLookup s !! k = Some g -> fa_type k = APP_EQUALITY ->
    (fa_a k = fa_b k -> eqvs s g d_trueId) /\ (fa_a k <> fa_b k -> isC s (fa_a k) = true -> isC s (fa_b k) = true -> eqvs s g d_falseId)
}.
Lemma app_lt s f p : app_of s f p -> f < nodes_of s.
Proof. intros (info & Hi & _). by eapply lookup_lt_Some. Qed.
Lemma app_fun s f p q : app_of s f p -> app_of s f q -> p = q.
Proof. intros (i & Hi & Hp) (i' & Hi' & Hq). congruence. Qed.
Lemma isC_lt s i : isC s i = true -> i < nodes_of s.
Proof. unfold isC. destruct (d_nodes s !! i) eqn:E; [| done]. intros _. by eapply lookup_lt_Some. Qed.
Lemma st_app_lt s f p : Static s -> app_of s f p -> oa p < nodes_of s /\ ob p < nodes_of s.
Proof. intros HS Hp. destruct (st_app s HS f p Hp) as (? & ? & _). apply app_lt in Hp. lia. Qed.

(** ** Lookups *)
Record Same (k : nat) (s s' : EqualityEngine) : Prop := {
  same_kinds : d_congruenceKinds s' = d_congruenceKinds s;
  same_ids : d_nodeIds s' = d_nodeIds s;
  same_nodes : d_nodes s' = d_nodes s;
  same_vec : d_equalityNodes s' = d_equalityNodes s;
  same_graph : d_equalityGraph s' = d_equalityGraph s;
  same_uses : d_useListNodes s' = d_useListNodes s;
  same_merges : d_assertedEqualities s' = d_assertedEqualities s;
  same_edges : d_equalityEdges s' = d_equalityEdges s;
  same_saved : d_saved s' = d_saved s;
  same_queue : exists q, d_propagationQueue s' = d_propagationQueue s ++ q /\ length q <= k;
  same_done : d_done (d_counters s') = d_done (d_counters s);
  same_ext b E : Ext b (put_equalityNodes E s) -> Ext b (put_equalityNodes E s')
}.
Lemma same_refl k s : Same k s s.
Proof. split; try done. exists []. by rewrite app_nil_r; split; [| cbn; lia]. Qed.
Lemma same_step_trans k k' s1 s2 s3 : Same k s1 s2 -> Same k' s2 s3 -> Same (k + k') s1 s3.
Proof.
  intros [? ? ? ? ? ? ? ? ? (q & Hq & Lq) ? Hx] [? ? ? ? ? ? ? ? ? (q' & Hq' & Lq') ? Hx']. split; try congruence; [| auto].
  exists (q ++ q'). rewrite Hq', Hq, app_assoc, length_app. split; [done | lia].
Qed.
Lemma same_le k k' s s' : Same k s s' -> k <= k' -> Same k' s s'.
Proof. intros [? ? ? ? ? ? ? ? ? (q & Hq & Lq) ? Hx] Hk. split; try done. exists q. split; [done | lia]. Qed.
(** What [storeApplicationLookup] enqueues. *)
Definition eq_candidates (s : EqualityEngine) (k : FunctionApplication) (f : nat) : list MergeCandidate :=
  if isEquality k then
    if fa_a k =? fa_b k then [MkCandidate f d_trueId MERGED_THROUGH_REFLEXIVITY None]
    else if isC s (fa_a k) && isC s (fa_b k) then [MkCandidate f d_falseId MERGED_THROUGH_CONSTANTS None] else []
  else [].
Definition stored (k : FunctionApplication) (f : nat) (s : EqualityEngine) : EqualityEngine :=
  put_queue (d_propagationQueue s ++ eq_candidates s k f) (put_counters (set_lookupsCount (S (d_applicationLookupsCount (d_counters s))) (d_counters s)) (add_lookup k f s)).
Lemma put_queue_same s : put_queue (d_propagationQueue s) s = s.
Proof. by destruct s. Qed.
Lemma run_info {X} i info (f : NodeInfo -> EM X) s : d_nodes s !! i = Some info -> (mbind f (node_info i)) s = f info s.
Proof. intros E. apply run_bind. unfold node_info. by rewrite E. Qed.
Lemma store_run s k f : d_applicationLookup s !! k = None -> Counted s -> fa_a k < nodes_of s -> fa_b k < nodes_of s -> storeApplicationLookup k f s = Ok (tt, stored k f s).
Proof.
  intros Hk Hc [ia Ha]%lookup_lt_is_Some_2 [ib Hb]%lookup_lt_is_Some_2. unfold storeApplicationLookup. rewrite run_gets, run_check by (by apply bool_decide_eq_true). rewrite !run_modify. unfold on_counters. rewrite run_modify, !run_gets.
  rewrite run_check by (apply Nat.eqb_eq; cbn; rewrite Hc, length_app; cbn; lia). unfold stored, eq_candidates, isC. destruct (isEquality k) eqn:Ek.
  - destruct (fa_a k =? fa_b k); [done |]. rewrite (run_info _ ia), (run_info _ ib), Ha, Hb by done. destruct (nd_isConstant ia && nd_isConstant ib); [done |]. rewrite app_nil_r. done.
  - rewrite app_nil_r. done.
Qed.
Lemma stored_same k f s : d_applicationLookup s !! k = None -> Same 1 s (stored k f s).
Proof.
  intros Hk. split; try done.
  - exists (eq_candidates s k f). split; [done |]. unfold eq_candidates. destruct (isEquality k); [| cbn; lia]. destruct (fa_a k =? fa_b k); [cbn; lia |]. destruct (isC s (fa_a k) && isC s (fa_b k)); cbn; lia.
  - intros b E HX. by apply (ext_queue _ (put_counters _ (add_lookup k f (put_equalityNodes E s)))), ext_counters, ext_add_lookup.
Qed.
(** The justifications in a state with more candidates and lookups. *)
Lemma expl_enqueue s c : Expl s -> Justified s (same_class s) (t1Id c) (t2Id c) (mc_type c) (mc_reason c) -> Expl (put_queue (d_propagationQueue s ++ [c]) s).
Proof.
  intros [[H1 H2 H3 H4] H5 H6 H7] Hc. split; [by split | exact H5 | | exact H7]. intros d [Hd | ->%list_elem_of_singleton]%elem_of_app; [by apply H6 | exact Hc].
Qed.
Lemma expl_stored s f p : Expl s -> (forall i, i < nodes_of s -> fnds s i < nodes_of s /\ fnds s (fnds s i) = fnds s i) -> app_of s f p -> oa p < nodes_of s -> ob p < nodes_of s -> Expl (stored (key s p) f s).
Proof.
  intros [[H1 H2 H3 H4] H5 H6 H7] Hfi Hf Ha Hb. destruct (Hfi _ Ha) as [Fa Fa'], (Hfi _ Hb) as [Fb Fb']. assert (Sa : same_class s (oa p) (fnds s (oa p))) by (by split_and!). assert (Sb : same_class s (ob p) (fnds s (ob p))) by (by split_and!).
  split; [by split | exact H5 | |].
  - intros c [Hc | Hc]%elem_of_app; [by apply H6 |]. unfold eq_candidates in Hc. destruct (isEquality (key s p)) eqn:Ek; [| by apply not_elem_of_nil in Hc]. assert (oty p = APP_EQUALITY) as Ety by (unfold isEquality, key in Ek; cbn in Ek; by destruct (oty p)).
    destruct (Nat.eqb_spec (fa_a (key s p)) (fa_b (key s p))) as [Eab | Eab].
    + apply list_elem_of_singleton in Hc as ->. split; [done |]. exists p. split; [exact Hf |]. split; [done |]. by split_and!.
    + destruct (isC s (fa_a (key s p)) && isC s (fa_b (key s p))) eqn:Ec; [| by apply not_elem_of_nil in Hc]. apply andb_true_iff in Ec as [Ca Cb]. apply list_elem_of_singleton in Hc as ->. split; [done |]. exists p, (fnds s (oa p)), (fnds s (ob p)). by split_and!.
  - intros k g. cbn [d_applicationLookup stored put_queue put_counters add_lookup put_lookups put_lookup]. destruct (decide (k = key s p)) as [-> |]; [rewrite lookup_insert_eq; intros [= <-]; exists p; by split_and! | rewrite lookup_insert_ne by done; apply H7].
Qed.
(** Node [f] is entered under a key of its class. *)
Lemma stored_mid todo s f p : Mid todo s -> app_of s f p -> d_applicationLookup s !! key s p = None -> Mid (fun g => todo g /\ g <> f) (stored (key s p) f s).
Proof.
  intros HM Hf Hk. pose proof HM as [HS HC HJ HSo HXp Hfi Hco Hno Hcg Heq]. set (k := key s p) in *. destruct (st_app_lt s f p HS Hf) as [Ha Hb]. destruct (Hfi _ Ha) as [Ha1 Ha2], (Hfi _ Hb) as [Hb1 Hb2].
  pose proof (res_equiv _ HJ) as HEq. assert (HJa : J (oa p) (fa_a k)) by (apply (so_find _ HSo); [exact Ha | exact Ha1 | exact (eq_sym Ha2)]). assert (HJb : J (ob p) (fa_b k)) by (apply (so_find _ HSo); [exact Hb | exact Hb1 | exact (eq_sym Hb2)]).
  assert (Hmono : forall i j, eqvs s i j -> eqvs (stored k f s) i j) by (intros i j Hij; eapply eqv_mono; [exact Hij |]; intros c Hc; apply elem_of_app; by left).
  assert (Hcand : forall c, c ∈ eq_candidates s k f -> c ∈ d_propagationQueue (stored k f s)) by (intros c Hc; apply elem_of_app; by right).
  split; try assumption.
  - destruct HS as [[? ? ?] ? ? ? ? ? ? ? ?]. split; try assumption. split; assumption.
  - unfold Counted in *. cbn. rewrite HC, length_app. cbn. by rewrite Nat.add_1_r.
  - destruct HJ. split; assumption.
  - destruct HSo as [So1 So2 So3]. split; [exact So1 | |].
    + intros c [Hc | Hc]%elem_of_app; [by apply So2 |]. pose proof (app_lt _ _ _ Hf) as Hlt. unfold eq_candidates in Hc. destruct (isEquality k) eqn:Ek; [| by apply not_elem_of_nil in Hc].
      assert (oty p = APP_EQUALITY) as Ety by (unfold isEquality, k, key in Ek; cbn in Ek; by destruct (oty p)).
      destruct (Nat.eqb_spec (fa_a k) (fa_b k)) as [Eab | Eab].
      * apply list_elem_of_singleton in Hc as ->. cbn [t1Id t2Id]. split; [done |]. split; [apply isC_lt, HS |]. apply (res_true _ HJ f p Hf Ety). rewrite HJa, HJb, Eab. reflexivity.
      * destruct (isC s (fa_a k) && isC s (fa_b k)) eqn:Ec; [| by apply not_elem_of_nil in Hc]. apply andb_true_iff in Ec as [Ca Cb]. apply list_elem_of_singleton in Hc as ->. cbn [t1Id t2Id].
        split; [done |]. split; [apply isC_lt, HS |]. by apply (res_false _ HJ f p (fa_a k) (fa_b k)).
    + intros k' g. cbn [d_applicationLookup stored put_queue put_counters add_lookup put_lookups put_lookup]. destruct (decide (k' = k)) as [-> |].
      * rewrite lookup_insert_eq. intros [= <-]. by exists p.
      * rewrite lookup_insert_ne by done. apply So3.
  - by apply expl_stored.
  - intros g q Hg Ht. destruct (decide (g = f)) as [-> | Hgf].
    + rewrite (app_fun _ _ _ _ Hg Hf). exists f. split; [apply lookup_insert_eq | apply eqv_refl].
    + destruct (Hcg g q Hg) as (h & Hh & He); [tauto |]. exists h. split; [| by apply Hmono]. cbn [d_applicationLookup stored put_queue put_counters add_lookup put_lookups put_lookup].
      rewrite lookup_insert_ne; [done |]. intros E. assert (k = key s q) as Ekq by exact E. congruence.
  - intros k' g. cbn [d_applicationLookup stored put_queue put_counters add_lookup put_lookups put_lookup]. destruct (decide (k' = k)) as [-> |].
    + rewrite lookup_insert_eq. intros [= <-] Ety. unfold eq_candidates, isEquality in Hcand. rewrite Ety in Hcand. split.
      * intros Eab. rewrite Eab, Nat.eqb_refl in Hcand. apply (eqv_queue _ _ (MkCandidate f d_trueId MERGED_THROUGH_REFLEXIVITY None)), Hcand. by left.
      * intros Eab Ca Cb. change (isC s (fa_a k) = true) in Ca. change (isC s (fa_b k) = true) in Cb. rewrite (proj2 (Nat.eqb_neq _ _)), Ca, Cb in Hcand by done.
        apply (eqv_queue _ _ (MkCandidate f d_falseId MERGED_THROUGH_CONSTANTS None)), Hcand. by left.
    + rewrite lookup_insert_ne by done. intros Hg Ety. destruct (Heq k' g Hg Ety) as [H1 H2]. split; [intros; by apply Hmono, H1 | intros; by apply Hmono, H2].
Qed.

Lemma mid_weaken todo todo' s : Mid todo s -> (forall g, todo g -> todo' g) -> Mid todo' s.
Proof. intros [? ? ? ? ? ? ? ? Hcg ?] Ht. split; try assumption. intros f p Hf Hn. apply (Hcg f p Hf). intros ?. by apply Hn, Ht. Qed.
Lemma enqueue_mid todo s c : Mid todo s -> t1Id c < nodes_of s -> t2Id c < nodes_of s -> J (t1Id c) (t2Id c) -> Justified s (same_class s) (t1Id c) (t2Id c) (mc_type c) (mc_reason c) -> Mid todo (put_queue (d_propagationQueue s ++ [c]) s).
Proof.
  intros [HS HC HJ HSo HXp Hfi Hco Hno Hcg Heq] H1 H2 Hc Hjc.
  assert (Hmono : forall i j, eqvs s i j -> eqvs (put_queue (d_propagationQueue s ++ [c]) s) i j) by (intros i j Hij; eapply eqv_mono; [exact Hij |]; intros d Hd; apply elem_of_app; by left).
  split; try assumption.
  - destruct HS as [[? ? ?] ? ? ? ? ? ? ? ?]. split; try assumption. split; assumption.
  - destruct HJ. split; assumption.
  - destruct HSo as [So1 So2 So3]. split; [exact So1 | | exact So3]. intros d [Hd | ->%list_elem_of_singleton]%elem_of_app; [by apply So2 | done].
  - by apply expl_enqueue.
  - intros f p Hf Hn. destruct (Hcg f p Hf Hn) as (g & Hg & He). exists g. split; [done | by apply Hmono].
  - intros k g Hg Ety. destruct (Heq k g Hg Ety) as [E1 E2]. split; [intros; by apply Hmono, E1 | intros; by apply Hmono, E2].
Qed.
Lemma mid_done_one todo s f p g : Mid todo s -> app_of s f p -> d_applicationLookup s !! key s p = Some g -> eqvs s f g -> Mid (fun h => todo h /\ h <> f) s.
Proof.
  intros [HS HC HJ HSo HXp Hfi Hco Hno Hcg Heq] Hf Hg He. split; try assumption. intros h q Hh Hn. destruct (decide (h = f)) as [-> |].
  - rewrite (app_fun _ _ _ _ Hh Hf). by exists g.
  - apply (Hcg h q Hh). tauto.
Qed.
(** Two applications under the same key are congruent. *)
Lemma key_congruent todo s f p g : Mid todo s -> app_of s f p -> d_applicationLookup s !! key s p = Some g -> g < nodes_of s /\ J f g.
Proof.
  intros [HS HC HJ HSo HXp Hfi Hco Hno Hcg Heq] Hf Hg. destruct (so_lookup _ HSo _ _ Hg) as (q & Hq & Ety & HJa & HJb & _ & _). split; [by eapply app_lt |].
  destruct (st_app_lt s f p HS Hf) as [Ha Hb]. destruct (Hfi _ Ha) as [Ha1 Ha2], (Hfi _ Hb) as [Hb1 Hb2]. pose proof (res_equiv _ HJ) as HEq. cbn [fa_type fa_a fa_b key] in *.
  apply (res_congr _ HJ f g p q Hf Hq); [done | |].
  - rewrite HJa. by apply (so_find _ HSo).
  - rewrite HJb. by apply (so_find _ HSo).
Qed.
Lemma key_justified todo s f p g r : Mid todo s -> app_of s f p -> d_applicationLookup s !! key s p = Some g -> Justified s (same_class s) f g MERGED_THROUGH_CONGRUENCE r.
Proof.
  intros HM Hf Hg. destruct (xp_lookup _ (mid_expl _ _ HM) _ _ Hg) as (q & Hq & Ety & (Qa & La & Ea) & (Qb & Lb & Eb)). destruct (st_app_lt s f p (mid_static _ _ HM) Hf) as [Ha Hb]. cbn [fa_type fa_a fa_b key] in *.
  exists p, q. split; [done |]. split; [done |]. split; [done |]. split; (split; [done |]); (split; [done |]); [rewrite Ea | rewrite Eb]; symmetry; by apply (mid_find _ _ HM).
Qed.
Lemma update_lookup_ok todo s f p : Mid todo s -> app_of s f p -> exists s', update_lookup f s = Ok (tt, s') /\ Mid (fun g => todo g /\ g <> f) s' /\ Same 1 s s'.
Proof.
  intros HM Hf. pose proof HM as [HS HC HJ HSo HXp Hfi Hco Hno Hcg Heq]. pose proof Hf as (info & Hi & Hp). unfold update_lookup. rewrite (run_info _ info), Hp by done.
  destruct (Hno f p Hf) as (Na & Nb & Fa & Fb). destruct (st_app s HS f p Hf) as (_ & _ & Ety). destruct (st_app_lt s f p HS Hf) as [Ha Hb].
  rewrite !run_find by (by rewrite (shape_vec _ (st_shape _ HS))). rewrite run_gets, Ety, Fa, Fb. change (MkApplication _ _ _) with (key s p).
  destruct (d_applicationLookup s !! key s p) as [g|] eqn:Ek.
  - destruct (key_congruent _ _ _ _ _ HM Hf Ek) as [Hg HJfg]. rewrite !run_find by (rewrite (shape_vec _ (st_shape _ HS)); first [done | by eapply app_lt]).
    destruct (Nat.eqb_spec (fnds s f) (fnds s g)) as [Ef | Ef]; cbn [negb].
    + exists s. split; [done |]. split; [| apply same_refl]. eapply mid_done_one; [done | done | exact Ek |]. apply eqv_find; rewrite ?(shape_vec _ (st_shape _ HS)); [by eapply app_lt | done | done].
    + eexists. split; [reflexivity |]. split.
      * apply (mid_done_one todo _ f p g); [apply enqueue_mid; [done | by eapply app_lt | done | done | by eapply key_justified] | done | done |].
        apply (eqv_queue _ _ (MkCandidate f g MERGED_THROUGH_CONGRUENCE None)). apply elem_of_app. right. by left.
      * split; try done; [eexists; split; [reflexivity | cbn; lia] | intros b E; apply (ext_queue _ (put_equalityNodes E s))].
  - eexists. split; [apply store_run; [done | done | by apply Hfi | by apply Hfi] |]. split; [by apply stored_mid | by apply stored_same].
Qed.
Lemma same_app k s s' f p : Same k s s' -> app_of s f p <-> app_of s' f p.
Proof. intros HS. unfold app_of. by rewrite (same_nodes _ _ _ HS). Qed.
Lemma use_loop_ok l : forall fuel u s todo, UseList (d_useListNodes s) u l -> length l <= fuel -> (forall f, f ∈ l -> exists p, app_of s f p) -> Mid todo s ->
  exists s', use_loop fuel u s = Ok (tt, s') /\ Mid (fun g => todo g /\ g ∉ l) s' /\ Same (length l) s s'.
Proof.
  induction l as [|f l IH]; intros fuel u s todo HU Hfuel Happ HM; inversion HU as [|v f' next l' Hv Hlt HU']; subst.
  - exists s. split; [by destruct fuel |]. split; [| apply same_refl]. eapply mid_weaken; [done |]. intros g Hg. split; [done | apply not_elem_of_nil].
  - destruct fuel as [|fuel]; cbn in Hfuel; [lia |]. cbn [use_loop]. rewrite run_gets, Hv. destruct (Happ f) as [p Hp]; [by left |].
    destruct (update_lookup_ok todo s f p HM Hp) as (s1 & E1 & HM1 & HS1). rewrite (run_bind E1).
    destruct (IH fuel next s1 (fun g => todo g /\ g <> f) ltac:(by rewrite (same_uses _ _ _ HS1)) ltac:(lia)) as (s2 & E2 & HM2 & HS2).
    + intros g Hg. destruct (Happ g) as [q Hq]; [by right |]. exists q. by apply (same_app _ _ _ _ _ HS1).
    + done.
    + exists s2. split; [done |]. split; [| exact (same_step_trans 1 _ _ _ _ HS1 HS2)]. eapply mid_weaken; [exact HM2 |]. cbn. intros g [[? ?] ?]. split; [done |]. by apply not_elem_of_cons.
Qed.
(** The applications that have an argument among [L]. *)
Definition users (s : EqualityEngine) (L : list nat) (g : nat) : Prop := exists p, app_of s g p /\ (oa p ∈ L \/ ob p ∈ L).
Lemma lookup_loop_ok r fuel : forall s c l todo, chain (d_equalityNodes s) (c :: l ++ [r]) -> r ∉ l -> length l < fuel -> Mid todo s ->
  exists s', lookup_loop fuel r c s = Ok (tt, s') /\ Mid (fun g => todo g /\ ~ users s (c :: l) g) s' /\ Same (length (c :: l) * length (d_useListNodes s)) s s'.
Proof.
  induction fuel as [|fuel IH]; intros s c l todo Hc Hr Hf HM; [lia |]. cbn [lookup_loop].
  assert (exists n, d_equalityNodes s !! c = Some n /\ d_nextId n = hd r l) as (n & Hn & Hx) by (destruct l; destruct Hc as [? _]; done).
  destruct (st_uses _ (mid_static _ _ HM) c n Hn) as (us & HU & Hus). pose proof (uses_bound _ _ _ HU) as Hub.
  rewrite (run_node _ n), run_gets by done. destruct (use_loop_ok us _ _ s todo HU Hub) as (s1 & E1 & HM1 & HS1); [| done |].
  { intros f (p & Hp & _)%Hus. by exists p. }
  rewrite (run_bind E1), Hx. assert (HM1' : Mid (fun g => todo g /\ ~ users s [c] g) s1).
  { eapply mid_weaken; [exact HM1 |]. intros g [Hg Hgu]. split; [done |]. intros (p & Hp & Hin). apply Hgu, Hus. exists p. split; [done |]. by rewrite !list_elem_of_singleton in Hin. }
  assert (HS1' : Same (length (d_useListNodes s)) s s1) by (eapply same_le; [exact HS1 | done]).
  destruct l as [|y l]; cbn [hd].
  - rewrite Nat.eqb_refl. exists s1. split; [done |]. split; [exact HM1' |]. cbn. by rewrite Nat.add_0_r.
  - apply not_elem_of_cons in Hr as [Hry Hr]. rewrite (proj2 (Nat.eqb_neq y r)) by done.
    destruct (IH s1 y l _ ltac:(rewrite (same_vec _ _ _ HS1); apply Hc) Hr ltac:(cbn in Hf; lia) HM1') as (s2 & E2 & HM2 & HS2).
    exists s2. split; [done |]. split; [| rewrite (same_uses _ _ _ HS1) in HS2; exact (same_step_trans _ _ _ _ _ HS1' HS2)].
    eapply mid_weaken; [exact HM2 |]. cbn. intros g [[Hg Hgc] Hgl]. split; [done |]. intros (p & Hp & Hin).
    assert ((oa p = c \/ ob p = c) \/ (oa p ∈ y :: l \/ ob p ∈ y :: l)) as [? | ?] by (rewrite !(elem_of_cons (y :: l)) in Hin; tauto).
    + apply Hgc. exists p. by rewrite !list_elem_of_singleton.
    + apply Hgl. exists p. split; [by apply (same_app _ _ _ _ _ HS1) | done].
Qed.
End closure.
