(* ===== verification/EqualityPropagate.v ===== *)
(** * The propagation of merges

    [merge] joins two classes and looks the applications up again that have an argument in
    the second; [propagate] empties the queue, after at most as many steps as there are candidates,
    and candidates that merges add.  Its result is a closed state, or two distinct constants
    were to be merged. *)

From S2P Require Import Prelude EqualityEngine EqualityClasses EqualityBacktrack EqualityForest EqualityClosure.
Local Open Scope nat_scope.

Section propagate.
Context (J : nat -> nat -> Prop) (B : nat -> bool) (A : nat -> nat -> option Term -> Prop).
Abbreviation fnds s := (fnd (d_equalityNodes s)).
Abbreviation eqvs s := (eqv (d_equalityNodes s) (d_propagationQueue s)).
Abbreviation Mid := (Mid J B A).
Abbreviation Expl := (Expl A).
Abbreviation P s := (pairs_of (d_equalityEdges s)).
Abbreviation Static := (Static B).
Abbreviation Respects := (Respects J B).

(** ** States with the same nodes *)
Lemma app_of_nodes s s' f p : d_nodes s' = d_nodes s -> app_of s' f p <-> app_of s f p.
Proof. intros E. unfold app_of. by rewrite E. Qed.
Lemma isC_nodes s s' i : d_nodes s' = d_nodes s -> isC s' i = isC s i.
Proof. intros E. unfold isC. by rewrite E. Qed.
Lemma static_nodes s s' : Static s -> d_nodes s' = d_nodes s -> d_nodeIds s' = d_nodeIds s -> d_useListNodes s' = d_useListNodes s -> (forall i, d_useList <$> d_equalityNodes s' !! i = d_useList <$> d_equalityNodes s !! i) -> Shape s' -> Static s'.
Proof.
  intros [H1 H2 H3 H4 H5 H6 H9 H7 H8] En Ei Em Ev Hs. split; try done.
  - intros f p Hp%(app_of_nodes s); [| done]. by eapply H2.
  - intros i n Hn. specialize (Ev i). rewrite Hn in Ev. destruct (d_equalityNodes s !! i) as [m|] eqn:Hm; [| done]. destruct (H3 i m Hm) as (l & HU & Hl). exists l. rewrite Em. injection Ev as ->. split; [done |].
    intros f. rewrite Hl. split; intros (p & Hp & Hi); exists p; (split; [by eapply app_of_nodes | done]).
  - intros f p Hp%(app_of_nodes s); [| done]. by eapply H4.
  - rewrite En. apply H5.
  - rewrite En. apply H6.
  - rewrite En, Ei. apply H9.
  - by rewrite (isC_nodes s).
  - by rewrite (isC_nodes s).
Qed.
Lemma respects_nodes s s' : Respects s -> d_nodes s' = d_nodes s -> Respects s'.
Proof.
  intros [H1 H2 H3 H4 H5] En. split; [done | done | | |].
  - intros f g p q Hp%(app_of_nodes s) Hq%(app_of_nodes s); [| done | done]. by apply H3.
  - intros f p Hp%(app_of_nodes s); [| done]. by apply H4.
  - intros f p c d Hp%(app_of_nodes s); [| done]. rewrite !(isC_nodes s s') by done. by apply H5.
Qed.
Lemma eqv_vec E E' Q i j : length E' = length E -> (forall k, fnd E' k = fnd E k) -> eqv E Q i j -> eqv E' Q i j.
Proof. intros Hl Hf H R HR H1 H2. apply H; [done | | done]. intros x y Hx Hy Hxy. apply H1; [by rewrite Hl | by rewrite Hl | by rewrite !Hf]. Qed.
Lemma edges_same s s' : Edges A s -> d_nodes s' = d_nodes s -> d_equalityEdges s' = d_equalityEdges s -> d_equalityGraph s' = d_equalityGraph s -> Edges A s'.
Proof.
  intros [H1 H2 H3 H4] En Ee Eg. split.
  - by rewrite Ee.
  - intros k e1 e2. rewrite Ee. intros He1 He2. destruct (H2 k e1 e2 He1 He2) as (T1 & T2 & HJs). split; [done |]. split; [done |].
    eapply justified_mono; [| | | exact HJs]; [intros f p; by apply app_of_nodes | intros c; by rewrite (isC_nodes s s') | done].
  - intros v g. rewrite Ee, Eg. apply H3.
  - intros p. rewrite Ee, En. apply H4.
Qed.
Lemma expl_same s s' : Expl s -> d_nodes s' = d_nodes s -> d_equalityEdges s' = d_equalityEdges s -> d_equalityGraph s' = d_equalityGraph s -> d_applicationLookup s' = d_applicationLookup s ->
  (forall i, fnds s' i = fnds s i) -> (forall c, c ∈ d_propagationQueue s' -> c ∈ d_propagationQueue s) -> Expl s'.
Proof.
  intros [H1 H2 H3 H4] En Ee Eg El Hf Hq. assert (Hsame : forall i j, same_class s i j -> same_class s' i j) by (intros i j; unfold same_class; by rewrite En, !Hf). split.
  - by apply (edges_same s).
  - intros i j. rewrite Ee, En, !Hf. apply H2.
  - intros c Hc. eapply justified_mono; [| | exact Hsame | apply H3, Hq, Hc]; [intros f p; by apply app_of_nodes | intros d; by rewrite (isC_nodes s s')].
  - intros k g. rewrite El. intros Hk. destruct (H4 k g Hk) as (q & Hq' & Ht & Ha & Hb). exists q. split; [by apply (app_of_nodes s) |]. split; [done |]. split; by apply Hsame.
Qed.
(** The links of a class do not matter. *)
Lemma mid_revec todo s E' : Mid todo s -> length E' = length (d_equalityNodes s) -> (forall i, fnd E' i = fnds s i) -> (forall i, d_useList <$> E' !! i = d_useList <$> d_equalityNodes s !! i) ->
  Mid todo (put_equalityNodes E' s).
Proof.
  intros [HS HC HJ HSo HXp Hfi Hco Hno Hcg Heq] Hl Hf Hu.
  assert (Hmono : forall i j, eqvs s i j -> eqvs (put_equalityNodes E' s) i j) by (intros i j; by apply eqv_vec).
  split; try assumption.
  - apply (static_nodes s); try done. destruct (st_shape _ _ HS) as [S1 S2 S3]. split; [exact (eq_trans Hl S1) | done | done].
  - by apply (respects_nodes s).
  - destruct HSo as [So1 So2 So3]. split; [| exact So2 | exact So3]. intros i j Hi Hj. cbn [d_equalityNodes put_equalityNodes]. rewrite !Hf. by apply So1.
  - by apply (expl_same s).
  - intros i Hi. cbn [d_equalityNodes put_equalityNodes]. rewrite !Hf. by apply Hfi.
  - intros i Hi. cbn [d_equalityNodes put_equalityNodes]. rewrite Hf. by apply Hco.
  - intros f p Hp. cbn [d_equalityNodes put_equalityNodes]. rewrite !Hf. by apply (Hno f).
  - intros f p Hp Ht. destruct (Hcg f p Hp Ht) as (g & Hg & He). exists g. split; [| by apply Hmono]. unfold key. cbn [d_equalityNodes put_equalityNodes d_applicationLookup]. by rewrite !Hf.
  - intros k g Hg Ety. destruct (Heq k g Hg Ety) as [E1 E2]. split; [intros; by apply Hmono, E1 | intros; by apply Hmono, E2].
Qed.

(** ** What explanations need *)
(** Nodes that were connected before the last edge are in one class. *)
Record Explainable (s : EqualityEngine) : Prop := {
  xb_static : Static s;
  xb_edges : Edges A s;
  xb_const i : isC s i = true -> fnds s i = i;
  xb_find i : i < nodes_of s -> fnds s i < nodes_of s;
  xb_early k i j : k < length (P s) -> i < nodes_of s -> j < nodes_of s -> conn (take k (P s)) i j -> fnds s i = fnds s j
}.
(** Two distinct constants are connected. *)
Definition Broken (s : EqualityEngine) : Prop := Explainable s /\ exists c d, isC s c = true /\ isC s d = true /\ c <> d /\ conn (P s) c d.
Lemma mid_explainable todo s : Mid todo s -> Explainable s.
Proof.
  intros [HS HC HJ HSo HXp Hfi Hco Hno Hcg Heq]. split; [done | apply HXp | done | intros i Hi; by apply Hfi |]. intros k i j _ Hi Hj Hij. exact (proj1 (xp_conn _ _ HXp i j Hi Hj) (conn_all _ _ _ _ Hij)).
Qed.
Lemma explainable_same s s' : Explainable s -> d_nodes s' = d_nodes s -> d_nodeIds s' = d_nodeIds s -> d_equalityNodes s' = d_equalityNodes s -> d_useListNodes s' = d_useListNodes s -> d_equalityEdges s' = d_equalityEdges s -> d_equalityGraph s' = d_equalityGraph s -> Shape s' -> Explainable s'.
Proof.
  intros [H1 H2 H3 H4 H5] En Ei Ev Eu Ee Eg Hsh. split.
  - apply (static_nodes s); try done. intros i. by rewrite Ev.
  - by apply (edges_same s).
  - intros i. rewrite (isC_nodes s s'), Ev by done. apply H3.
  - rewrite En, Ev. apply H4.
  - rewrite En, Ev, Ee. apply H5.
Qed.
Lemma broken_same s s' : Broken s -> d_nodes s' = d_nodes s -> d_nodeIds s' = d_nodeIds s -> d_equalityNodes s' = d_equalityNodes s -> d_useListNodes s' = d_useListNodes s -> d_equalityEdges s' = d_equalityEdges s -> d_equalityGraph s' = d_equalityGraph s -> Shape s' -> Broken s'.
Proof.
  intros [HX (c & d & Hc & Hd & Hne & Hcd)] En Ei Ev Eu Ee Eg Hsh. split; [by apply (explainable_same s) |]. exists c, d. by rewrite !(isC_nodes s s'), Ee.
Qed.

(** ** The representatives *)
Definition reps (E : vec) : nat := length (filter (fun i => fnd E i = i) (seq 0 (length E))).
Lemma filter_length_lt {X} (P P' : X -> Prop) `{forall x, Decision (P x)} `{forall x, Decision (P' x)} (l : list X) x : (forall y, y ∈ l -> P' y -> P y) -> x ∈ l -> P x -> ~ P' x -> length (filter P' l) < length (filter P l).
Proof.
  intros HP Hx H1 H2. assert (Hle : forall k, (forall y, y ∈ k -> P' y -> P y) -> length (filter P' k) <= length (filter P k)).
  { induction k as [|y k IH]; intros Hk; [done |]. specialize (IH ltac:(intros z Hz; apply Hk; by right)). rewrite !filter_cons. specialize (Hk y ltac:(by left)). repeat case_decide; cbn; try lia. tauto. }
  apply list_elem_of_split in Hx as (l1 & l2 & ->). rewrite !filter_app, !filter_cons, (decide_True (P := P x)), (decide_False (P := P' x)), !length_app by done. cbn.
  pose proof (Hle l1 ltac:(intros y Hy; apply HP; apply elem_of_app; by left)). pose proof (Hle l2 ltac:(intros y Hy; apply HP; apply elem_of_app; right; by right)). lia.
Qed.
Lemma reps_bound E : reps E <= length E.
Proof. unfold reps. etransitivity; [apply length_filter |]. by rewrite length_seq. Qed.
Lemma reps_joined E r1 r2 l1 l2 : Class E r1 l1 -> Class E r2 l2 -> r1 <> r2 -> reps (joined r1 r2 l2 E) < reps E.
Proof.
  intros HC1 HC2 Hne. destruct (class_rep _ _ _ HC1) as [Hr1 Hf1], (class_rep _ _ _ HC2) as [Hr2 Hf2]. unfold reps. rewrite joined_length. apply (filter_length_lt _ _ _ r2).
  - intros i Hi%elem_of_seq. rewrite (joined_fnd E r1 r2 l1 l2) by (done || lia). case_decide; [intros <-; congruence | done].
  - apply elem_of_seq. lia.
  - done.
  - rewrite (joined_fnd E r1 r2 l1 l2), decide_True by done. done.
Qed.
(** ** What propagation does *)
Record Frame (s s' : EqualityEngine) : Prop := {
  fr_kinds : d_congruenceKinds s' = d_congruenceKinds s;
  fr_ids : d_nodeIds s' = d_nodeIds s;
  fr_nodes : d_nodes s' = d_nodes s;
  fr_uses : d_useListNodes s' = d_useListNodes s;
  fr_saved : d_saved s' = d_saved s;
  fr_shape : Shape s';
  fr_counted : Counted s';
  fr_classes : Classes (d_equalityNodes s');
  fr_ext b : Ext b s -> Ext b s'
}.
Lemma frame_trans s1 s2 s3 : Frame s1 s2 -> Frame s2 s3 -> Frame s1 s3.
Proof. intros [? ? ? ? ? ? ? ? ?] [? ? ? ? ? ? ? ? ?]. split; try congruence; auto. Qed.
Definition Inv (s : EqualityEngine) : Prop := Mid (fun _ => False) s /\ Classes (d_equalityNodes s) /\ d_done (d_counters s) = false.
Definition Conflict (s : EqualityEngine) : Prop := exists a b, isC s a = true /\ isC s b = true /\ a <> b /\ J a b.
(** The steps that are left. *)
Definition measure (s : EqualityEngine) : nat := length (d_propagationQueue s) + reps (d_equalityNodes s) * S (nodes_of s * length (d_useListNodes s)).
Definition pushed (e : option (nat * nat)) (s : EqualityEngine) : EqualityEngine :=
  put_counters (set_assertedCount (S (d_assertedEqualitiesCount (d_counters s))) (d_counters s)) (put_asserted (d_assertedEqualities s ++ [e]) s).
Lemma push_asserted_run e s : push_asserted e s = Ok (tt, pushed e s).
Proof. done. Qed.
Lemma counted_pushed e s : Counted s -> Counted (pushed e s).
Proof. unfold Counted. intros HC. cbn. rewrite HC, length_app. cbn. by rewrite Nat.add_1_r. Qed.
Lemma shape_pushed e t1 t2 g1 g2 ty re s : Shape s -> Shape (pushed e (add_edge t1 t2 g1 g2 ty re s)).
Proof. intros [S1 S2 S3]. split; cbn; [done | by rewrite !length_insert | rewrite !length_app; cbn; lia]. Qed.

(** ** One merge *)
Section merge.
Context (s : EqualityEngine) (c : MergeCandidate) (Q : list MergeCandidate) (r1 r2 : nat) (l1 l2 : list nat).
Abbreviation E := (d_equalityNodes s).
Hypothesis HM : Mid (fun _ => False) s.
Hypothesis HQ : d_propagationQueue s = c :: Q.
Hypothesis HC1 : Class E r1 l1.
Hypothesis HC2 : Class E r2 l2.
Hypothesis Hne : r1 <> r2.
Hypothesis Hc : fnd E (t1Id c) = r1 /\ fnd E (t2Id c) = r2 \/ fnd E (t1Id c) = r2 /\ fnd E (t2Id c) = r1.
Context (g1 g2 : option nat).
Hypothesis Hg1 : d_equalityGraph s !! t1Id c = Some g1.
Hypothesis Hg2 : d_equalityGraph s !! t2Id c = Some g2.
Lemma vec_nodes : length E = nodes_of s.
Proof. apply HM. Qed.
Lemma found_fnd i : i < nodes_of s -> fnd (set_finds r1 (r2 :: l2) E) i = if decide (fnd E i = r2) then r1 else fnd E i.
Proof.
  intros Hi. rewrite <- vec_nodes in Hi. rewrite fnd_set_finds by done. pose proof (class_in _ _ _ HC2 i) as Hin. repeat case_decide; try done; exfalso; tauto.
Qed.
Lemma merge_J : J r1 r2.
Proof.
  pose proof (mid_sound _ _ _ _ _ HM) as [So1 So2 So3]. destruct (So2 c) as (H1 & H2 & HJc); [rewrite HQ; by left |].
  pose proof (res_equiv _ _ _ (mid_respects _ _ _ _ _ HM)) as HEq. destruct (mid_find _ _ _ _ _ HM _ H1) as [F1 F1'], (mid_find _ _ _ _ _ HM _ H2) as [F2 F2'].
  pose proof (So1 _ _ H1 F1 (eq_sym F1')) as J1. pose proof (So1 _ _ H2 F2 (eq_sym F2')) as J2.
  destruct Hc as [[E1 E2] | [E1 E2]]; rewrite <- E1, <- E2, <- J1, <- J2; [done | by symmetry].
Qed.
Lemma merge_eqv i j : eqvs s i j -> eqv (set_finds r1 (r2 :: l2) E) Q i j.
Proof.
  intros H R HR H1 H2. pose proof (so_queue _ _ (mid_sound _ _ _ _ _ HM) c) as (B1 & B2 & _); [rewrite HQ; by left |]. rewrite length_set_finds, vec_nodes in H1. apply H.
  - done.
  - intros x y Hx Hy Hxy. rewrite vec_nodes in Hx. rewrite vec_nodes in Hy. apply H1; [done | done |]. by rewrite !found_fnd, Hxy by done.
  - intros d Hd. rewrite HQ in Hd. apply elem_of_cons in Hd as [-> | Hd]; [| by apply H2]. apply H1; [done | done |]. rewrite !found_fnd by done. destruct Hc as [[-> ->] | [-> ->]]; by rewrite (decide_True r1 r2), (decide_False r1 r1).
Qed.
(** The graph has one edge more, for the reason of the candidate. *)
Definition Edged (s1 : EqualityEngine) : Prop := d_equalityEdges s1 = d_equalityEdges s ++ [MkEdge (t2Id c) g1 (mc_type c) (mc_reason c); MkEdge (t1Id c) g2 (mc_type c) (mc_reason c)] /\
  d_equalityGraph s1 = <[t2Id c:=Some (Nat.lor (length (d_equalityEdges s)) 1)]> (<[t1Id c:=Some (length (d_equalityEdges s))]> (d_equalityGraph s)).
Lemma merge_edges s1 : d_nodes s1 = d_nodes s -> Edged s1 -> Edges A s1 /\ P s1 = P s ++ [(t1Id c, t2Id c)].
Proof.
  intros En [Ee Eg]. pose proof HM as [HS HCn HJ HSo HXp Hfi Hco Hno Hcg Heq]. destruct (so_queue _ _ HSo c) as (B1 & B2 & _); [rewrite HQ; by left |]. pose proof (shape_edges _ (st_shape _ _ HS)) as Hm.
  assert (Hconn : forall i j, same_class s i j -> conn (P s) i j) by (intros i j (Hi & Hj & Hij); by apply (xp_conn _ _ HXp)). rewrite Hm in Eg. split; [| by apply (edge_pairs s s1 (merges_of s) (t1Id c) (t2Id c) g1 g2 (mc_type c) (mc_reason c))].
  apply (edges_add A s s1 (merges_of s) (t1Id c) (t2Id c) g1 g2 (mc_type c) (mc_reason c)); try assumption; [apply HXp | done | |].
  - intros Hcc. apply (proj1 (xp_conn _ _ HXp _ _ B1 B2)) in Hcc. destruct Hc as [[? ?] | [? ?]]; congruence.
  - eapply justified_mono; [done | done | exact Hconn |]. apply (xp_queue _ _ HXp). rewrite HQ. by left.
Qed.
Lemma merge_connects s1 : d_nodes s1 = d_nodes s -> P s1 = P s ++ [(t1Id c, t2Id c)] -> (forall i, i < nodes_of s -> conn (P s1) i (fnd E i)) /\ conn (P s1) r1 r2.
Proof.
  intros En EP. pose proof HM as [HS HCn HJ HSo HXp Hfi Hco Hno Hcg Heq]. destruct (so_queue _ _ HSo c) as (B1 & B2 & _); [rewrite HQ; by left |].
  assert (Hrep : forall i, i < nodes_of s -> conn (P s1) i (fnd E i)) by (intros i Hi; rewrite EP; destruct (Hfi i Hi); apply conn_app, (xp_conn _ _ HXp); done).
  assert (H12 : conn (P s1) r1 r2).
  { assert (conn (P s1) (t1Id c) (t2Id c)) as Hcc by (rewrite EP; apply (conn_in _ (t1Id c, t2Id c)), elem_of_app; right; by left). pose proof (Hrep _ B1) as R1. pose proof (Hrep _ B2) as R2.
    destruct Hc as [[E1 E2] | [E1 E2]]; rewrite E1 in R1; rewrite E2 in R2; [rewrite <- R1, <- R2 | rewrite <- R1, <- R2; symmetry]; done. }
  by split.
Qed.
Lemma expl_merge s1 : d_nodes s1 = d_nodes s -> d_equalityNodes s1 = set_finds r1 (r2 :: l2) E -> d_applicationLookup s1 = d_applicationLookup s -> d_propagationQueue s1 = Q -> Edged s1 -> Expl s1.
Proof.
  intros En Ev El Eq Hed. destruct (merge_edges s1 En Hed) as [HEd EP]. pose proof HM as [HS HCn HJ HSo HXp Hfi Hco Hno Hcg Heq]. destruct (so_queue _ _ HSo c) as (B1 & B2 & _); [rewrite HQ; by left |].
  assert (Hff : forall i, i < nodes_of s -> fnds s1 i = if decide (fnd E i = r2) then r1 else fnd E i) by (intros i; rewrite Ev; apply found_fnd).
  assert (Hsame : forall i j, same_class s i j -> same_class s1 i j) by (intros i j (Hi & Hj & Hij); unfold same_class; rewrite En, !Hff by done; by rewrite Hij).
  destruct (merge_connects s1 En EP) as [Hrep H12].
  split; [done | | |].
  - rewrite En. intros i j Hi Hj. split.
    + intros Hij. apply (Hij (fun x y => fnds s1 x = fnds s1 y)); [split; [by intros x | by intros x y | intros x y z H1 H2; by rewrite H1] |]. rewrite EP. intros p [Hp | ->%list_elem_of_singleton]%elem_of_app.
      * destruct (eg_bounds _ _ (xp_edges _ _ HXp) p Hp) as [L1 L2]. apply (Hsame p.1 p.2). split; [done |]. split; [done |]. by apply (proj1 (xp_conn _ _ HXp _ _ L1 L2)), conn_in.
      * cbn [fst snd]. rewrite !Hff by done. destruct Hc as [[-> ->] | [-> ->]]; by rewrite (decide_True r1 r2), (decide_False r1 r1).
    + rewrite !Hff by done. intros Hij. rewrite (Hrep i Hi), (Hrep j Hj). case_decide as Ei; case_decide as Ej; [by rewrite Ei, Ej | by rewrite Ei, <- Hij; symmetry | by rewrite Hij, Ej | by rewrite Hij].
  - rewrite Eq. intros d Hd. eapply justified_mono; [| | exact Hsame | apply (xp_queue _ _ HXp); rewrite HQ; by right]; [intros f p; by apply app_of_nodes | intros k; by rewrite (isC_nodes s s1)].
  - intros k g. rewrite El. intros Hk. destruct (xp_lookup _ _ HXp k g Hk) as (q & Hq' & Ht & Ha & Hb). exists q. split; [by apply (app_of_nodes s) |]. split; [done |]. split; by apply Hsame.
Qed.
(** Without the merge two constants are connected. *)
Lemma merge_broken s1 : d_nodes s1 = d_nodes s -> d_nodeIds s1 = d_nodeIds s -> d_equalityNodes s1 = E -> d_useListNodes s1 = d_useListNodes s -> Shape s1 -> Edged s1 -> isC s r1 = true -> isC s r2 = true -> Broken s1.
Proof.
  intros En Ei Ev Em Hsh Hed C1 C2. destruct (merge_edges s1 En Hed) as [HEd EP]. pose proof HM as [HS HCn HJ HSo HXp Hfi Hco Hno Hcg Heq]. destruct (so_queue _ _ HSo c) as (B1 & B2 & _); [rewrite HQ; by left |]. split; [split |].
  - apply (static_nodes s); try done. intros i. by rewrite Ev.
  - done.
  - intros i. rewrite (isC_nodes s s1), Ev by done. apply Hco.
  - rewrite En, Ev. intros i Hi. by apply Hfi.
  - rewrite En, Ev, EP. intros k i j Hk Hi Hj Hij. rewrite length_app in Hk. cbn in Hk. rewrite take_app_le in Hij by lia. exact (proj1 (xp_conn _ _ HXp i j Hi Hj) (conn_all _ _ _ _ Hij)).
  - exists r1, r2. rewrite !(isC_nodes s s1) by done. split; [done |]. split; [done |]. split; [done |]. apply (merge_connects s1 En EP).
Qed.
Hypothesis Hr2 : isC s r2 = false.
Lemma mid_merge s1 : d_nodes s1 = d_nodes s -> d_nodeIds s1 = d_nodeIds s -> d_equalityNodes s1 = set_finds r1 (r2 :: l2) E -> d_useListNodes s1 = d_useListNodes s -> d_applicationLookup s1 = d_applicationLookup s ->
  d_propagationQueue s1 = Q -> Shape s1 -> Counted s1 -> Edged s1 -> Mid (users s (r2 :: l2)) s1.
Proof.
  intros En Ei Ev Em El Eq Hsh Hcn Hed. pose proof HM as [HS HCn HJ HSo HXp Hfi Hco Hno Hcg Heq]. pose proof merge_J as J12. pose proof (res_equiv _ _ _ HJ) as HEq.
  assert (Hrep : forall i, i < nodes_of s -> J i (fnd E i)) by (intros i Hi; apply (so_find _ _ HSo); [done | by apply Hfi | symmetry; by apply Hfi]).
  assert (Hff : forall i, i < nodes_of s1 -> fnds s1 i = if decide (fnd E i = r2) then r1 else fnd E i) by (intros i; rewrite Ev, En; apply found_fnd).
  assert (Hmono : forall i j, eqvs s i j -> eqvs s1 i j) by (intros i j; rewrite Ev, Eq; apply merge_eqv).
  destruct (class_rep _ _ _ HC1) as [Hr1 Hf1]. rewrite vec_nodes in Hr1. rewrite <- En in Hr1, Hfi, Hrep.
  split; try done.
  - apply (static_nodes s); try done. intros i. rewrite Ev, lookup_set_finds. destruct (E !! i); cbn; [| done]. by case_decide.
  - by apply (respects_nodes s).
  - destruct HSo as [So1 So2 So3]. rewrite <- En in So1, So2, So3. split.
    + intros i j Hi Hj. rewrite !Hff by done. intros Hij. rewrite (Hrep i Hi), (Hrep j Hj). case_decide as Ec; case_decide as Ej; [by rewrite Ec, Ej | by rewrite Ec, <- Hij; symmetry | by rewrite Hij, Ej | by rewrite Hij].
    + intros d Hd. apply So2. rewrite HQ, <- Eq. by right.
    + intros k g. rewrite El. intros Hk. destruct (So3 k g Hk) as (q & Hq & Hrest). exists q. split; [by apply (app_of_nodes s) | done].
  - by apply expl_merge.
  - intros i Hi. rewrite Hff by done. destruct (Hfi i Hi) as [Hlt Hid]. case_decide as Ef; rewrite Hff by done; (split; [done |]); [rewrite Hf1 | rewrite Hid]; by rewrite decide_False.
  - intros i Hi. rewrite (isC_nodes s) in Hi by done. pose proof (Hco i Hi) as Ec. rewrite Hff, Ec by (rewrite En; by apply isC_lt). rewrite decide_False; [done |]. intros ->. congruence.
  - intros f p Hp%(app_of_nodes s); [| done]. destruct (Hno f p Hp) as (N1 & N2 & N3 & N4). rewrite <- En in N1, N2. destruct (st_app_lt _ _ _ _ HS Hp) as [Ha Hb]. rewrite <- En in Ha, Hb. by rewrite !Hff, N3, N4.
  - intros f p Hp%(app_of_nodes s) Hn; [| done]. destruct (Hcg f p Hp ltac:(tauto)) as (g & Hg & He). exists g. split; [| by apply Hmono]. rewrite El, <- Hg. f_equal. unfold key.
    destruct (st_app_lt _ _ _ _ HS Hp) as [Ha Hb]. rewrite !Hff by (by rewrite En).
    rewrite !decide_False; [done | |]; intros Ef; apply Hn; exists p; (split; [done |]); rewrite !(class_in _ _ _ HC2), vec_nodes; tauto.
  - intros k g. rewrite El. intros Hk Ety. destruct (Heq k g Hk Ety) as [E1 E2]. rewrite !(isC_nodes s s1) by done. split; [intros; by apply Hmono, E1 | intros ? ? ?; by apply Hmono, E2].
Qed.
(** Boolean nodes are no arguments. *)
Lemma equality_users info g : d_nodes s !! r2 = Some info -> nd_isEquality info = true -> ~ users s (r2 :: l2) g.
Proof.
  intros Hi He (p & Hp & Hin). pose proof HM as [HS HCn HJ HSo HXp Hfi Hco Hno Hcg Heq]. pose proof (st_equality _ _ HS _ _ Hi He) as HB. destruct (st_bool _ _ HS _ _ Hp) as [Ba Bb].
  assert (Hx : forall x, x ∈ r2 :: l2 -> B x = true); [| destruct Hin as [Ha | Hb]; [apply Hx in Ha | apply Hx in Hb]; congruence].
  intros x [Hx Ef]%(class_in _ _ _ HC2). rewrite <- HB. apply (res_bool _ _ _ HJ), (so_find _ _ HSo); [by rewrite <- vec_nodes | by eapply lookup_lt_Some |]. rewrite Ef. symmetry. by apply (class_rep _ _ _ HC2).
Qed.
(** The terms of the nodes are known. *)
Lemma run_known {X} info i (Hi : d_nodes s !! i = Some info) s0 (f : EM X) : d_nodes s0 = d_nodes s -> d_nodeIds s0 = d_nodeIds s -> d_equalityNodes s0 = E -> (k ← getNodeId (nd_node info); _ ← getEqualityNode k; f) s0 = f s0.
Proof.
  intros En Ei Ev. destruct (st_ids _ _ (mid_static _ _ _ _ _ HM) i info Hi) as (k & Hk & Hlt). rewrite <- vec_nodes in Hlt. apply lookup_lt_is_Some_2 in Hlt as [m Hm]. rewrite (run_id _ k) by (by rewrite Ei). by rewrite (run_node _ m) by (by rewrite Ev).
Qed.
(** [merge], after the equality was pushed. *)
Lemma merge_ok s0 : d_nodes s0 = d_nodes s -> d_nodeIds s0 = d_nodeIds s -> d_equalityNodes s0 = E -> d_useListNodes s0 = d_useListNodes s -> d_applicationLookup s0 = d_applicationLookup s -> d_propagationQueue s0 = Q -> Shape s0 -> Counted s0 -> Edged s0 ->
  exists s2, merge r1 r2 s0 = Ok (tt, put_equalityNodes (joined r1 r2 l2 E) s2) /\ Mid (fun _ => False) (put_equalityNodes (joined r1 r2 l2 E) s2) /\
    Same (nodes_of s * length (d_useListNodes s)) (put_equalityNodes (set_finds r1 (r2 :: l2) E) s0) s2.
Proof.
  intros En Ei Ev Em El Eq Hsh Hcn Hed. destruct (class_rep _ _ _ HC1) as [Hr1 _], (class_rep _ _ _ HC2) as [Hr2' _]. pose proof Hr1 as Hn1. pose proof Hr2' as Hn2. rewrite vec_nodes in Hn1. rewrite vec_nodes in Hn2.
  apply lookup_lt_is_Some_2 in Hn1 as [i1 Hi1], Hn2 as [i2 Hi2]. pose proof Hr2 as Hc2. unfold isC in Hc2. rewrite Hi2 in Hc2. unfold merge. rewrite (run_info _ i1), (run_info _ i2) by (by rewrite En). rewrite (run_known i1 _ Hi1 s0 _ En Ei Ev), (run_known i2 _ Hi2 s0 _ En Ei Ev). rewrite Hc2. rewrite !run_check by (cbn; by rewrite orb_true_r). rewrite run_gets.
  erewrite run_bind by (apply find_class_ok; rewrite Ev; exact HC2). rewrite Ev. set (s1 := put_equalityNodes _ s0).
  assert (HM1 : Mid (users s (r2 :: l2)) s1) by (apply mid_merge; try assumption; [reflexivity |]; destruct Hsh as [S1 S2 S3]; split; [| done | done]; cbn; rewrite length_set_finds, vec_nodes; congruence).
  assert (exists s2, (if negb (nd_isEquality i2) then lookup_loop (length E) r2 r2 else mret tt) s1 = Ok (tt, s2) /\ Mid (fun _ => False) s2 /\ Same (nodes_of s * length (d_useListNodes s)) s1 s2) as (s2 & E2 & HM2 & HS2).
  { destruct (nd_isEquality i2) eqn:Ei2; cbn [negb].
    - exists s1. split; [done |]. split; [| apply same_refl]. eapply mid_weaken; [exact HM1 |]. intros g. by apply (equality_users i2).
    - pose proof (class_bound _ _ _ HC2) as Hbd. destruct (lookup_loop_ok J B A r2 (length E) s1 r2 l2 (users s (r2 :: l2))) as (s2 & E2 & HM2 & HS2).
      + eapply chain_ext; [| apply HC2]. intros x _. symmetry. apply set_finds_next.
      + by apply NoDup_cons, (class_nodup _ _ _ HC2).
      + cbn in Hbd. lia.
      + done.
      + exists s2. split; [done |]. split.
        * eapply mid_weaken; [exact HM2 |]. intros g [(p & Hp & Hin) Hn]. apply Hn. exists p. split; [by apply (app_of_nodes s) | done].
        * eapply same_le; [exact HS2 |]. rewrite <- vec_nodes. cbn [d_useListNodes s1 put_equalityNodes]. rewrite Em. by apply Nat.mul_le_mono_r. }
  rewrite (run_bind E2). exists s2. pose proof (same_vec _ _ _ HS2) as Ev2. cbn [d_equalityNodes s1 put_equalityNodes] in Ev2.
  assert (join_lists true r1 r2 (d_equalityNodes s2) = joined r1 r2 l2 E) as Ej by (rewrite Ev2; reflexivity).
  rewrite merge_lists_run by (by rewrite Ev2, length_set_finds). rewrite Ej. split; [done |]. split; [| done]. rewrite <- Ej. apply mid_revec; [done | apply length_join_lists | |].
  - intros i. apply fnd_join_lists; rewrite ?Ev2, ?length_set_finds; done.
  - intros i. apply join_uses; rewrite ?Ev2, ?length_set_finds; done.
Qed.
Lemma push_merge_ok : Classes E -> d_done (d_counters s) = false ->
  exists s', merge r1 r2 (pushed (Some (r1, r2)) (add_edge (t1Id c) (t2Id c) g1 g2 (mc_type c) (mc_reason c) (put_queue Q s))) = Ok (tt, s') /\ Frame s s' /\ Inv s' /\ (forall i j, eqvs s i j -> eqvs s' i j) /\ measure s' < measure s.
Proof.
  intros HCl Hd. set (s0 := pushed _ _). assert (Hsh : Shape s0) by (apply shape_pushed; destruct (st_shape _ _ (mid_static _ _ _ _ _ HM)); by split).
  assert (Hcn : Counted s0) by (apply counted_pushed; exact (mid_counted _ _ _ _ _ HM)). destruct (merge_ok s0) as (s2 & E2 & HM2 & HS2); try done. eexists. split; [exact E2 |].
  pose proof HS2 as [Sk Si Sn Sv Sg Su Sm Se Ss (q & Sq & Lq) Sd Sx]. split; [| split; [| split]].
  - split; try done; [apply HM2 | apply HM2 | by apply (joined_classes E r1 r2 l1 l2) |]. intros b HX. apply Sx.
    apply (ext_counters b (put_queue Q (add_merge (Some (r1, r2)) (joined r1 r2 l2 E) (add_edge (t1Id c) (t2Id c) g1 g2 (mc_type c) (mc_reason c) s)))), ext_queue, ext_add_merge; try done; [apply HM | |].
    + intros Et. rewrite Et in Hc. destruct Hc as [[? ?] | [? ?]]; congruence.
    + intros M E0 HU. by apply (undoes_merge M r1 r2 l1 l2).
  - split; [done |]. split; [by apply (joined_classes E r1 r2 l1 l2) |]. change (d_done (d_counters s2) = false). by rewrite Sd.
  - intros i j Hij. apply merge_eqv in Hij. change (eqv (joined r1 r2 l2 E) (d_propagationQueue s2) i j). rewrite Sq. eapply eqv_mono; [| intros d Hd'; apply elem_of_app; left; exact Hd'].
    eapply eqv_vec; [| | exact Hij]; [by rewrite joined_length, length_set_finds |]. intros k. apply fnd_join_lists; rewrite ?length_set_finds; [by apply (class_rep _ _ _ HC1) | by apply (class_rep _ _ _ HC2) | done].
  - pose proof (reps_joined E r1 r2 l1 l2 HC1 HC2 Hne) as Hlt. unfold measure. cbn [d_propagationQueue d_equalityNodes d_nodes d_useListNodes put_equalityNodes]. rewrite Sq, Sn, Su, HQ, length_app. cbn [d_propagationQueue d_nodes d_useListNodes s0 pushed put_equalityNodes put_counters put_asserted add_edge put_graph put_edges put_queue length].
    set (K := nodes_of s * length (d_useListNodes s)) in *. assert (S (reps (joined r1 r2 l2 E)) * S K <= reps E * S K) by (by apply Nat.mul_le_mono_r). lia.
Qed.
End merge.

(** ** Propagation *)
Definition Failed (s : EqualityEngine) : Prop := d_done (d_counters s) = true /\ Conflict s /\ Broken s /\ forall k g, d_applicationLookup s !! k = Some g -> g < nodes_of s.
Lemma mid_dequeue s c Q : Mid (fun _ => False) s -> d_propagationQueue s = c :: Q -> fnds s (t1Id c) = fnds s (t2Id c) ->
  Mid (fun _ => False) (put_queue Q s) /\ (forall i j, eqvs s i j -> eqvs (put_queue Q s) i j).
Proof.
  intros HM HQ Hc. pose proof HM as [HS HC HJ HSo HXp Hfi Hco Hno Hcg Heq]. destruct (so_queue _ _ HSo c) as (B1 & B2 & _); [rewrite HQ; by left |].
  assert (Hmono : forall i j, eqvs s i j -> eqvs (put_queue Q s) i j).
  { intros i j Hij R HR H1 H2. apply Hij; [done | done |]. intros d. rewrite HQ. intros [-> | Hd]%elem_of_cons; [| by apply H2]. apply H1; [| | done]; change (d_equalityNodes (put_queue Q s)) with (d_equalityNodes s); by rewrite (shape_vec _ (st_shape _ _ HS)). }
  split; [| done]. split; try assumption.
  - destruct HS as [[? ? ?] ? ? ? ? ? ? ? ?]. split; try assumption. split; assumption.
  - destruct HJ. split; assumption.
  - destruct HSo as [So1 So2 So3]. split; [exact So1 | | exact So3]. intros d Hd. apply So2. rewrite HQ. by right.
  - apply (expl_same s); try done. intros d Hd. rewrite HQ. by right.
  - intros f p Hf Hn. destruct (Hcg f p Hf Hn) as (g & Hg & He). exists g. split; [done | by apply Hmono].
  - intros k g Hg Ety. destruct (Heq k g Hg Ety) as [E1 E2]. split; [intros; by apply Hmono, E1 | intros; by apply Hmono, E2].
Qed.
(** The direction of a merge keeps a constant as the representative. *)
Lemma merge_direction s r1 r2 i1 i2 n1 n2 : Static s -> d_nodes s !! r1 = Some i1 -> d_nodes s !! r2 = Some i2 -> nd_isConstant i1 && nd_isConstant i2 = false ->
  if merge_into_second i1 i2 n1 n2 then isC s r1 = false else isC s r2 = false.
Proof.
  intros HS I1 I2 Ec. pose proof (st_internal _ _ HS _ _ I1) as Hint1. pose proof (st_internal _ _ HS _ _ I2) as Hint2. unfold isC. rewrite I1, I2. unfold merge_into_second. clear - Ec Hint1 Hint2.
  destruct (nd_isInternal i1), (nd_isInternal i2), (nd_isConstant i1), (nd_isConstant i2); cbn -[Nat.ltb] in *; try done; try (by specialize (Hint1 eq_refl)); try (by specialize (Hint2 eq_refl)); by destruct (d_size n1 <? d_size n2).
Qed.
Lemma propagate_one_ok s c Q : Inv s -> d_propagationQueue s = c :: Q -> exists s', propagate_one c (put_queue Q s) = Ok (tt, s') /\ Frame s s' /\
  (Inv s' /\ (forall i j, eqvs s i j -> eqvs s' i j) /\ measure s' < measure s \/ Failed s' /\ d_propagationQueue s' = Q).
Proof.
  intros (HM & HCl & Hd) HQ. pose proof HM as [HS HC HJ HSo HXp Hfi Hco Hno Hcg Heq]. destruct (so_queue _ _ HSo c) as (B1 & B2 & HJc); [rewrite HQ; by left |]. pose proof (st_shape _ _ HS) as Hsh. pose proof Hsh as [S1 S2 S3].
  unfold propagate_one. rewrite !run_find by (cbn; by rewrite S1). cbn [d_equalityNodes put_queue]. destruct (Nat.eqb_spec (fnds s (t1Id c)) (fnds s (t2Id c))) as [Ef | Ef].
  - destruct (mid_dequeue s c Q HM HQ Ef) as [HM' Hmono]. eexists. split; [reflexivity |]. split; [split; try done; intros b; apply ext_queue |]. left. split; [by split |]. split; [done |].
    unfold measure. rewrite HQ. cbn [d_propagationQueue put_queue d_equalityNodes d_nodes d_useListNodes length]. lia.
  - set (r1 := fnds s (t1Id c)) in *. set (r2 := fnds s (t2Id c)) in *. destruct (Hfi _ B1) as [R1 R1'], (Hfi _ B2) as [R2 R2']. fold r1 in R1, R1'. fold r2 in R2, R2'.
    destruct (classes_class _ HCl r1 ltac:(by rewrite S1) R1') as [l1 HC1], (classes_class _ HCl r2 ltac:(by rewrite S1) R2') as [l2 HC2].
    destruct (lookup_lt_is_Some_2 (d_equalityNodes s) r1) as [n1 N1]; [by rewrite S1 |]. destruct (lookup_lt_is_Some_2 (d_equalityNodes s) r2) as [n2 N2]; [by rewrite S1 |].
    rewrite (run_node _ n1), (run_node _ n2) by done. rewrite (fnd_Some _ _ _ N1) in R1'. rewrite (fnd_Some _ _ _ N2) in R2'. rewrite run_check by (by apply Nat.eqb_eq). rewrite run_check by (by apply Nat.eqb_eq).
    destruct (lookup_lt_is_Some_2 (d_equalityGraph s) (t1Id c)) as [g1 G1]; [by rewrite S2 |]. destruct (lookup_lt_is_Some_2 (d_equalityGraph s) (t2Id c)) as [g2 G2]; [by rewrite S2 |].
    erewrite run_bind by (apply addGraphEdge_run; [exact G1 | exact G2]). destruct (lookup_lt_is_Some_2 (d_nodes s) r1 R1) as [i1 I1], (lookup_lt_is_Some_2 (d_nodes s) r2 R2) as [i2 I2].
    rewrite (run_info _ i1), (run_info _ i2) by done. destruct (nd_isConstant i1 && nd_isConstant i2) eqn:Ec.
    + apply andb_true_iff in Ec as [Ec1 Ec2]. eexists. split; [reflexivity |]. assert (Shape (put_queue Q s)) as Hsq by done. split.
      * split; try done; [destruct (shape_pushed None (t1Id c) (t2Id c) g1 g2 (mc_type c) (mc_reason c) _ Hsq); split; assumption | |].
        -- unfold Counted in *. cbn. rewrite HC, length_app. cbn. by rewrite Nat.add_1_r.
        -- intros b HX. apply (ext_counters b (put_queue Q (add_merge None (d_equalityNodes s) (add_edge (t1Id c) (t2Id c) g1 g2 (mc_type c) (mc_reason c) s)))), ext_queue, ext_add_merge; try done.
           ++ intros Et. apply Ef. unfold r1, r2. by rewrite Et.
           ++ intros M E0 HU. by constructor.
      * right. split; [| done]. split; [done |]. split; [| split; [apply (merge_broken s c Q r1 r2 HM HQ Ef (or_introl (conj eq_refl eq_refl)) g1 g2 G1 G2); try done; [destruct (shape_pushed None (t1Id c) (t2Id c) g1 g2 (mc_type c) (mc_reason c) _ Hsq); split; assumption | unfold isC; by rewrite I1 | unfold isC; by rewrite I2] | intros k g Hk; destruct (so_lookup _ _ HSo k g Hk) as (q & Hg & _); by eapply app_lt]]. exists r1, r2. change (isC s r1 = true /\ isC s r2 = true /\ r1 <> r2 /\ J r1 r2). unfold isC. rewrite I1, I2. split; [done |]. split; [done |]. split; [done |].
        apply (merge_J s c Q r1 r2); try done. by left.
    + pose proof (merge_direction s r1 r2 i1 i2 n1 n2 HS I1 I2 Ec) as Hdir. destruct (merge_into_second i1 i2 n1 n2); rewrite (run_bind (push_asserted_run _ _)).
      * destruct (push_merge_ok s c Q r2 r1 l2 l1 HM HQ HC2 HC1 (not_eq_sym Ef) ltac:(by right) g1 g2 G1 G2 Hdir HCl Hd) as (s' & E' & HF & HI & Hmono & Hmeas). exists s'. split; [done |]. split; [done |]. by left.
      * destruct (push_merge_ok s c Q r1 r2 l1 l2 HM HQ HC1 HC2 Ef ltac:(by left) g1 g2 G1 G2 Hdir HCl Hd) as (s' & E' & HF & HI & Hmono & Hmeas). exists s'. split; [done |]. split; [done |]. by left.
Qed.
Lemma merge_queue_ok fuel : forall s, Inv s -> measure s <= fuel -> exists s', propagate_loop fuel s = Ok (tt, s') /\ Frame s s' /\ d_propagationQueue s' = [] /\
  (Inv s' /\ (forall i j, eqvs s i j -> eqvs s' i j) \/ Failed s').
Proof.
  induction fuel as [|fuel IH]; intros s HI Hm; pose proof HI as (HM & HCl & Hd); (destruct (d_propagationQueue s) as [|c Q] eqn:HQ; [exists s; split; [cbn [propagate_loop]; by rewrite run_gets, HQ | split; [split; try done; apply HM | split; [done | left; by rewrite HQ]]] |]).
  - unfold measure in Hm. rewrite HQ in Hm. cbn in Hm. lia.
  - cbn [propagate_loop]. rewrite run_gets, HQ. unfold is_done. rewrite run_gets, Hd, run_modify. destruct (propagate_one_ok s c Q HI HQ) as (s1 & E1 & HF1 & [(HI1 & Hmono & Hlt) | [HFa HQ1]]); rewrite (run_bind E1).
    + destruct (IH s1 HI1 ltac:(lia)) as (s2 & E2 & HF2 & HQ2 & Hor). exists s2. split; [done |]. split; [by eapply frame_trans |]. split; [done |]. rewrite HQ in Hmono. destruct Hor as [[HI2 Hmono2] | HFa]; [left; split; [done |]; intros; by apply Hmono2, Hmono | by right].
    + destruct Q as [|c' Q].
      * exists s1. split; [destruct fuel; cbn [propagate_loop]; by rewrite run_gets, HQ1 |]. split; [done |]. split; [done | by right].
      * destruct fuel as [|fuel]; [unfold measure in Hm; rewrite HQ in Hm; cbn in Hm; lia |]. cbn [propagate_loop]. unfold is_done. destruct HFa as (Hd1 & HCf). rewrite run_gets, HQ1, run_gets, Hd1, run_modify. exists (put_queue [] s1). split; [destruct fuel; reflexivity |].
        destruct HF1 as [? ? ? ? ? [? ? ?] ? ? Hx]. split; [| split; [done |]; right; split; [done |]; destruct HCf as (HCf & HBr & Hlk); split; [done |]; split; [by apply (broken_same s1) | done]]. split; try done. intros b HX. by apply ext_queue, Hx.
Qed.
Lemma propagate_ok s : Inv s -> exists s', propagate s = Ok (tt, s') /\ Frame s s' /\ d_propagationQueue s' = [] /\ (Inv s' /\ (forall i j, eqvs s i j -> eqvs s' i j) \/ Failed s').
Proof.
  intros HI. unfold propagate. apply merge_queue_ok; [done |]. unfold measure. destruct HI as (HM & _ & _). pose proof (reps_bound (d_equalityNodes s)) as Hb. rewrite (shape_vec _ (st_shape _ _ (mid_static _ _ _ _ _ HM))) in Hb.
  pose proof (Nat.mul_le_mono_r _ _ (S (nodes_of s * length (d_useListNodes s))) Hb). lia.
Qed.
End propagate.
