(* ===== verification/EqualityNodes.v ===== *)
(** * New nodes of the equality engine

    What [newNode] and [newApplicationNode] add to a state: a class of one node, and for an
    application its entries in two use lists and its place in the lookup table, or a candidate
    to be merged with the application found there.  The relations [J] and [B] grow with the nodes. *)

From S2P Require Import Prelude EqualityEngine EqualityClasses EqualityBacktrack EqualityForest EqualityClosure EqualityPropagate.
Local Open Scope nat_scope.

Abbreviation fnds s := (fnd (d_equalityNodes s)).
Abbreviation eqvs s := (eqv (d_equalityNodes s) (d_propagationQueue s)).

(** ** Use lists *)
Definition UsesOk (P : nat -> nat -> Prop) (Em : vec * memory) : Prop := forall i n, Em.1 !! i = Some n -> exists l, UseList Em.2 (d_useList n) l /\ forall f, f ∈ l <-> P f i.
Lemma uses_lt mem u l v : UseList mem u l -> u = Some v -> v < length mem.
Proof. intros HU ->. inversion HU as [|? ? ? ? Hv]; subst. by eapply lookup_lt_Some. Qed.
Lemma used_ok P i f Em : UsesOk P Em -> i < length Em.1 -> UsesOk (fun g j => P g j \/ g = f /\ j = i) (used i f Em).
Proof.
  destruct Em as [E mem]. intros HU Hi j n. cbn [used fst snd] in *. rewrite lookup_set_uses. destruct (E !! j) as [m|] eqn:Hm; [| done]. cbn [fmap option_fmap option_map]. intros [= <-]. destruct (HU j m Hm) as (l & Hl & Hin).
  case_decide as Hji.
  - subst j. exists (f :: l). cbn [d_useList set_use]. rewrite Hm. split.
    + econstructor; [by apply list_lookup_middle | | by apply uses_app]. intros v Hv. by eapply uses_lt.
    + intros g. rewrite elem_of_cons, Hin. intuition congruence.
  - exists l. split; [by apply uses_app |]. intros g. rewrite Hin. intuition congruence.
Qed.
Lemma uses_single P E mem : UsesOk P (E, mem) -> (forall f, ~ P f (length E)) -> UsesOk P (E ++ [single (length E)], mem).
Proof.
  intros HU HP j n. cbn [fst snd]. destruct (decide (j < length E)) as [Hj | Hj].
  - rewrite lookup_app_l by done. apply HU.
  - intros Hn. pose proof (lookup_lt_Some _ _ _ Hn) as Hlt. rewrite length_app in Hlt. cbn in Hlt. assert (j = length E) as -> by lia. rewrite list_lookup_middle in Hn by done. injection Hn as <-.
    exists []. split; [constructor |]. intros f. split; [intros Hf; by apply not_elem_of_nil in Hf | intros Hf; by apply HP in Hf].
Qed.

(** ** A node more *)
Lemma app_of_snoc s s' info f p : d_nodes s' = d_nodes s ++ [info] -> app_of s' f p <-> app_of s f p \/ f = nodes_of s /\ nd_application info = Some p.
Proof.
  intros En. unfold app_of. rewrite En. split.
  - intros (i & Hi & Hp). apply lookup_snoc_Some in Hi as [[? Hi] | [-> <-]]; [left; by exists i | by right].
  - intros [(i & Hi & Hp) | [-> Hp]]; [exists i; split; [by apply lookup_app_l_Some | done] | exists info; split; [by apply list_lookup_middle | done]].
Qed.
Lemma isC_snoc s s' info i : d_nodes s' = d_nodes s ++ [info] -> i < nodes_of s -> isC s' i = isC s i.
Proof. intros En Hi. unfold isC. by rewrite En, lookup_app_l. Qed.
Lemma eqv_snoc E E' Q i j : length E <= length E' -> (forall k, k < length E -> fnd E' k = fnd E k) -> eqv E Q i j -> eqv E' Q i j.
Proof. intros Hl Hf H R HR H1 H2. apply H; [done | | done]. intros x y Hx Hy Hxy. apply H1; [lia | lia | by rewrite !Hf]. Qed.

(** ** More that is asserted *)
Section grow.
Context (A A' : nat -> nat -> option Term -> Prop).
Hypothesis HA : forall i j r, A i j r -> A' i j r.
Lemma edges_grow s : Edges A s -> Edges A' s.
Proof. intros [H1 H2 H3 H4]. split; try done. intros k e1 e2 He1 He2. destruct (H2 k e1 e2 He1 He2) as (T1 & T2 & HJs). split; [done |]. split; [done |]. by eapply justified_grow. Qed.
Lemma expl_grow s : Expl A s -> Expl A' s.
Proof. intros [H1 H2 H3 H4]. split; [by apply edges_grow | done | | done]. intros c Hc. eapply justified_grow; [done | done | done | done |]. by apply H3. Qed.
Lemma broken_grow B s : Broken B A s -> Broken B A' s.
Proof. intros [[H1 H2 H3 H4 H5] H]. split; [| done]. split; try done. by apply edges_grow. Qed.
End grow.

Section add.
Context (J J' : nat -> nat -> Prop) (B B' : nat -> bool) (A A' : nat -> nat -> option Term -> Prop) (s : EqualityEngine) (info : NodeInfo).
Abbreviation n := (nodes_of s).
Abbreviation P s := (pairs_of (d_equalityEdges s)).
Hypothesis HA : forall i j r, A i j r -> A' i j r.
Hypothesis HJ : forall i j, i < n -> j < n -> J i j -> J' i j.
Hypothesis HB : forall i, i < n -> B' i = B i.
Hypothesis HR : forall s', d_nodes s' = d_nodes s ++ [info] -> Respects J' B' s'.
Hypothesis Hinternal : nd_isConstant info = true -> nd_isInternal info = false.
Hypothesis Hequality : nd_isEquality info = true -> B' n = true.
Lemma static_add s' : Static B s -> d_nodes s' = d_nodes s ++ [info] -> d_nodeIds s' = <[nd_node info:=n]> (d_nodeIds s) -> Shape s' -> UsesOk (fun f i => exists p, app_of s' f p /\ (oa p = i \/ ob p = i)) (d_equalityNodes s', d_useListNodes s') ->
  (forall p, nd_application info = Some p -> oa p < n /\ ob p < n /\ fa_type (normalized p) = oty p /\ B' (oa p) = false /\ B' (ob p) = false) -> Static B' s'.
Proof.
  intros HS En Ei Hsh HU Happ. pose proof HS as [H1 H2 H3 H4 H5 H6 H9 H7 H8]. split; try done.
  - intros f p [Hp | [-> Hp]]%(app_of_snoc s s' info); [by eapply H2 | | done]. destruct (Happ p Hp) as (? & ? & ? & _). done.
  - intros f p [Hp | [-> Hp]]%(app_of_snoc s s' info); [| | done].
    + destruct (st_app_lt _ _ _ _ HS Hp). rewrite !HB by done. by eapply H4.
    + destruct (Happ p Hp) as (_ & _ & _ & ? & ?). done.
  - intros i info'. rewrite En. intros Hi. apply lookup_snoc_Some in Hi as [[Hlt Hi] | [-> <-]]; [rewrite HB by done; by apply H5 | done].
  - intros i info'. rewrite En. intros Hi. apply lookup_snoc_Some in Hi as [[Hlt Hi] | [-> <-]]; [by eapply H6 | done].
  - intros i info'. rewrite En, Ei, length_app. cbn. intros Hi. destruct (decide (nd_node info' = nd_node info)) as [-> | Hne]; [exists n; rewrite lookup_insert_eq; split; [done | lia] |]. rewrite lookup_insert_ne by done.
    apply lookup_snoc_Some in Hi as [[Hlt Hi] | [-> <-]]; [| done]. destruct (H9 i info' Hi) as (k & Hk & Hlk). exists k. split; [done | lia].
  - rewrite (isC_snoc s s' info) by (done || by apply isC_lt). done.
  - rewrite (isC_snoc s s' info) by (done || by apply isC_lt). done.
Qed.
Lemma expl_add s' : Expl A s -> (forall i, i < n -> fnds s i < n) -> d_nodes s' = d_nodes s ++ [info] -> (forall i, i < n -> fnds s' i = fnds s i) -> fnds s' n = n -> d_propagationQueue s' = d_propagationQueue s -> d_applicationLookup s' = d_applicationLookup s ->
  d_equalityEdges s' = d_equalityEdges s -> d_equalityGraph s' = d_equalityGraph s ++ [None] -> length (d_equalityGraph s) = n -> Expl A' s'.
Proof.
  intros [[H1 H2 H3 H4] H5 H6 H7] Hfi En Hf Hfn Eq El Ee Eg Hlg. assert (Hlen : nodes_of s' = S n) by (rewrite En, length_app; cbn; lia).
  assert (Hap : forall f p, app_of s f p -> app_of s' f p) by (intros f p Hp; apply (app_of_snoc s s' info); [done | by left]). assert (Hco : forall c, isC s c = true -> isC s' c = true) by (intros c Hc; by rewrite (isC_snoc s s' info) by (done || by apply isC_lt)).
  assert (Hsame : forall i j, same_class s i j -> same_class s' i j) by (intros i j (Hi & Hj & Hij); split; [lia |]; split; [lia |]; by rewrite !Hf).
  assert (Hiso : forall p, p ∈ P s -> p.1 <> n /\ p.2 <> n) by (intros p Hp; destruct (H4 p Hp); lia).
  split; [split | | |].
  - by rewrite Ee.
  - intros k e1 e2. rewrite Ee. intros He1 He2. destruct (H2 k e1 e2 He1 He2) as (T1 & T2 & HJs). split; [done |]. split; [done |]. by eapply justified_grow.
  - intros v g. rewrite Ee, Eg. intros [[Hv Hg] | [-> <-]]%lookup_snoc_Some; [by apply H3 |]. exists []. split; [constructor |]. intros e. split; [intros He; by apply not_elem_of_nil in He |]. rewrite Hlg. intros (w & [Hw | Hw]%edge_ends_in); by apply Hiso in Hw as [? ?].
  - intros p. rewrite Ee. intros [? ?]%H4. lia.
  - rewrite Hlen, Ee. intros i j Hi Hj. destruct (decide (i = n)) as [-> | Hin], (decide (j = n)) as [-> | Hjn].
    + by split; [| intros _; reflexivity].
    + rewrite Hfn, Hf by lia. split; [intros Hc; by apply conn_isolated in Hc | intros E; specialize (Hfi j ltac:(lia)); lia].
    + rewrite Hfn, Hf by lia. split; [intros Hc; symmetry in Hc; by apply conn_isolated in Hc | intros E; specialize (Hfi i ltac:(lia)); lia].
    + rewrite !Hf by lia. apply H5; lia.
  - rewrite Eq. intros c Hc. eapply justified_grow; [exact HA | exact Hap | exact Hco | exact Hsame | by apply H6].
  - intros k g. rewrite El. intros Hk. destruct (H7 k g Hk) as (q & Hq & Ht & Ha & Hb). exists q. split; [by apply Hap |]. split; [done |]. split; by apply Hsame.
Qed.
Lemma mid_add todo s' : Mid J B A todo s -> d_nodes s' = d_nodes s ++ [info] -> Static B' s' -> Counted s' -> (forall i, i < n -> fnds s' i = fnds s i) -> fnds s' n = n ->
  d_propagationQueue s' = d_propagationQueue s -> d_applicationLookup s' = d_applicationLookup s -> d_equalityEdges s' = d_equalityEdges s -> d_equalityGraph s' = d_equalityGraph s ++ [None] ->
  (forall p, nd_application info = Some p -> oa p < n /\ ob p < n /\ normalized p = MkApplication (oty p) (fnds s (oa p)) (fnds s (ob p))) ->
  Mid J' B' A' (fun g => todo g \/ g = n /\ is_Some (nd_application info)) s' /\ (forall i j, eqvs s i j -> eqvs s' i j).
Proof.
  intros [HS HC HRs HSo HXp Hfi Hco Hno Hcg Heq] En HS' HC' Hf Hfn Eq El Ee Eg Happ. pose proof (HR s' En) as HR'. pose proof (res_equiv _ _ _ HR') as HEq.
  assert (Hlen : nodes_of s' = S n) by (rewrite En, length_app; cbn; lia). pose proof (shape_vec _ (st_shape _ _ HS)) as HvE. pose proof (shape_vec _ (st_shape _ _ HS')) as HvE'.
  assert (Hmono : forall i j, eqvs s i j -> eqvs s' i j) by (intros i j; rewrite Eq; apply eqv_snoc; [lia | by rewrite HvE]).
  split; [| done]. split; try done.
  - destruct HSo as [So1 So2 So3]. split; rewrite ?Hlen.
    + intros i j Hi Hj. destruct (decide (i = n)) as [-> | Hin], (decide (j = n)) as [-> | Hjn]; [reflexivity | | |]; rewrite ?Hfn.
      * rewrite Hf by lia. destruct (Hfi j); lia.
      * rewrite Hf by lia. destruct (Hfi i); lia.
      * rewrite !Hf by lia. intros Hij. apply HJ; [lia | lia |]. apply So1; [lia | lia | done].
    + intros c. rewrite Eq. intros Hc. destruct (So2 c Hc) as (? & ? & ?). split; [lia |]. split; [lia |]. by apply HJ.
    + intros k g. rewrite El. intros Hk. destruct (So3 k g Hk) as (q & Hq & Ety & Ja & Jb & La & Lb). destruct (st_app_lt _ _ _ _ HS Hq). exists q. split; [apply (app_of_snoc s s' info); [done | by left] |]. split; [done |].
      split; [by apply HJ |]. split; [by apply HJ |]. lia.
  - apply expl_add; try done; [intros i Hi; by apply Hfi | apply HS].
  - intros i Hi. rewrite Hlen in *. destruct (decide (i = n)) as [-> | Hin]; [rewrite !Hfn; lia |]. destruct (Hfi i ltac:(lia)) as [Hlt Hid]. rewrite !Hf by (rewrite ?Hf; lia). split; [lia | done].
  - intros i Hi. pose proof (isC_lt _ _ Hi) as Hlt. rewrite Hlen in Hlt. destruct (decide (i = n)) as [-> | Hin]; [done |]. rewrite (isC_snoc s s' info) in Hi by (done || lia). rewrite Hf by lia. by apply Hco.
  - intros f p [Hp | [-> Hp]]%(app_of_snoc s s' info); [| | done]; rewrite Hlen.
    + destruct (Hno f p Hp) as (N1 & N2 & N3 & N4). destruct (st_app_lt _ _ _ _ HS Hp). rewrite !Hf by done. split; [lia |]. split; [lia |]. done.
    + destruct (Happ p Hp) as (Ha & Hb & ->). cbn [fa_a fa_b]. destruct (Hfi _ Ha) as [? Ia], (Hfi _ Hb) as [? Ib]. rewrite !Hf by done. rewrite Ia, Ib. split; [lia |]. split; [lia |]. done.
  - intros f p [Hp | [-> Hp]]%(app_of_snoc s s' info) Ht; [| | done].
    + destruct (Hcg f p Hp ltac:(tauto)) as (g & Hg & He). exists g. split; [| by apply Hmono]. destruct (st_app_lt _ _ _ _ HS Hp). unfold key. by rewrite !Hf, El.
    + exfalso. apply Ht. right. split; [done |]. by exists p.
  - intros k g. rewrite El. intros Hk Ety. destruct (so_lookup _ _ HSo k g Hk) as (_ & _ & _ & _ & _ & La & Lb). destruct (Heq k g Hk Ety) as [E1 E2]. rewrite !(isC_snoc s s' info) by done. split; [intros; by apply Hmono, E1 | intros ? ? ?; by apply Hmono, E2].
Qed.
End add.

(** ** The operations *)
Definition noded (info : NodeInfo) (s : EqualityEngine) : EqualityEngine := put_counters (set_nodesCount (S (d_nodesCount (d_counters s))) (d_counters s)) (add_node info s).
Lemma newNode_run t s : newNode t s = Ok (nodes_of s, noded (MkNodeInfo t None false false true) s).
Proof. done. Qed.
Lemma update_noded info s f : nd_node (f info) = nd_node info -> update_info (nodes_of s) f (noded info s) = Ok (tt, noded (f info) s).
Proof.
  intros Hf. unfold update_info. rewrite (run_info _ info) by (by apply list_lookup_middle). unfold modify. do 2 f_equal. apply engine_eq; try reflexivity.
  - cbn. by rewrite Hf.
  - cbn. by rewrite insert_app_r_alt, Nat.sub_diag by done.
Qed.
Lemma noded_fnd info s i : Shape s -> fnds (noded info s) i = fnds s i.
Proof.
  intros Hs. cbn. rewrite <- (shape_vec _ Hs). destruct (decide (i < length (d_equalityNodes s))) as [Hi | Hi]; [by apply fnd_app |]. destruct (decide (i = length (d_equalityNodes s))) as [-> |].
  - rewrite fnd_last. unfold fnd. by rewrite lookup_ge_None_2.
  - unfold fnd. rewrite !lookup_ge_None_2; [done | lia | rewrite length_app; cbn; lia].
Qed.
Lemma noded_shape info s : Shape s -> Shape (noded info s).
Proof. intros [S1 S2 S3]. split; cbn; rewrite ?length_app; cbn; [lia | lia | done]. Qed.
Lemma noded_counted info s : Counted s -> Counted (noded info s).
Proof. unfold Counted. intros HC. cbn. rewrite HC, length_app. cbn. by rewrite Nat.add_1_r. Qed.
Lemma add_uses_fnd a b f s i : fnds (add_uses a b f s) i = fnds s i.
Proof. unfold add_uses, used. cbn. by rewrite !fnd_set_uses. Qed.
Lemma add_uses_shape a b f s : Shape s -> Shape (add_uses a b f s).
Proof. intros [S1 S2 S3]. split; cbn; rewrite ?length_set_uses; done. Qed.
Lemma add_uses_run {X} a b f s (k : EM X) : a < length (d_equalityNodes s) -> b < length (d_equalityNodes s) -> (_ ← usedIn a f; _ ← usedIn b f; k) s = k (add_uses a b f s).
Proof.
  intros Ha Hb. rewrite (run_bind (usedIn_run a f s Ha)). erewrite run_bind; [reflexivity |]. rewrite usedIn_run; [reflexivity |]. cbn. by rewrite length_set_uses.
Qed.
Definition app_info (t : Term) (ty : FunctionApplicationType) (a b : nat) (s : EqualityEngine) : NodeInfo :=
  MkNodeInfo t (Some (MkPair (MkApplication ty a b) (MkApplication ty (fnds s a) (fnds s b)))) false false true.
(** The state after the node and its uses. *)
Definition apped (t : Term) (ty : FunctionApplicationType) (a b : nat) (s : EqualityEngine) : EqualityEngine := add_uses a b (nodes_of s) (noded (app_info t ty a b s) s).
(** And its place in the lookup table. *)
Definition placed (k : FunctionApplication) (f : nat) (s : EqualityEngine) : EqualityEngine :=
  match d_applicationLookup s !! k with
  | Some g => put_queue (d_propagationQueue s ++ [MkCandidate f g MERGED_THROUGH_CONGRUENCE None]) s
  | None => stored k f s
  end.
Lemma newApplicationNode_run t a b ty s : Shape s -> Counted s -> a < nodes_of s -> b < nodes_of s -> fnds s a < nodes_of s -> fnds s b < nodes_of s ->
  newApplicationNode t a b ty s = Ok (nodes_of s, placed (MkApplication ty (fnds s a) (fnds s b)) (nodes_of s) (apped t ty a b s)).
Proof.
  intros Hs Hc Ha Hb Hfa Hfb. unfold newApplicationNode. rewrite (run_bind (newNode_run t s)). set (s1 := noded _ s). pose proof (shape_vec _ (noded_shape (MkNodeInfo t None false false true) s Hs)) as Hl. fold s1 in Hl.
  assert (Hn1 : nodes_of s1 = S (nodes_of s)) by (cbn; rewrite length_app; cbn; lia). rewrite !run_find by (rewrite Hl, Hn1; lia). subst s1. rewrite !noded_fnd by done.
  rewrite (run_bind (update_noded (MkNodeInfo t None false false true) s (set_application (MkPair (MkApplication ty a b) (MkApplication ty (fnds s a) (fnds s b)))) eq_refl)).
  change (set_application _ _) with (app_info t ty a b s). set (s2 := noded _ s). set (k := MkApplication ty _ _). rewrite run_gets.
  assert (Hs2 : Shape s2) by (by apply noded_shape). assert (Hn2 : nodes_of s2 = S (nodes_of s)) by (cbn; rewrite length_app; cbn; lia). unfold placed. change (d_applicationLookup (apped t ty a b s)) with (d_applicationLookup s2).
  destruct (d_applicationLookup s2 !! k) as [g|] eqn:Ek.
  - erewrite run_bind by reflexivity. rewrite add_uses_run; [reflexivity | |]; change (length (d_equalityNodes s2)) with (length (d_equalityNodes s2)); cbn [d_equalityNodes put_queue]; rewrite (shape_vec _ Hs2); lia.
  - erewrite run_bind by (apply store_run; [done | by apply noded_counted | cbn [k fa_a]; lia | cbn [k fa_b]; lia]).
    rewrite add_uses_run; [reflexivity | |]; change (d_equalityNodes (stored k (nodes_of s) s2)) with (d_equalityNodes s2); rewrite (shape_vec _ Hs2); lia.
Qed.

(** ** Their results *)
Section new.
Context (J J' : nat -> nat -> Prop) (B B' : nat -> bool) (A A' : nat -> nat -> option Term -> Prop) (s : EqualityEngine).
Abbreviation n := (nodes_of s).
Hypothesis HA : forall i j r, A i j r -> A' i j r.
Hypothesis HI : Inv J B A s.
Hypothesis HJ : forall i j, i < n -> j < n -> J i j -> J' i j.
Hypothesis HB : forall i, i < n -> B' i = B i.
Lemma inv_uses : UsesOk (fun f i => exists p, app_of s f p /\ (oa p = i \/ ob p = i)) (d_equalityNodes s, d_useListNodes s).
Proof. destruct HI as [HM _]. exact (st_uses _ _ (mid_static _ _ _ _ _ HM)). Qed.
Lemma inv_shape : Shape s.
Proof. destruct HI as [HM _]. apply HM. Qed.
Lemma noded_uses : UsesOk (fun f i => exists p, app_of s f p /\ (oa p = i \/ ob p = i)) (d_equalityNodes s ++ [single n], d_useListNodes s).
Proof.
  rewrite <- (shape_vec _ inv_shape). apply uses_single; [apply inv_uses |]. rewrite (shape_vec _ inv_shape). intros f (p & Hp & Hi). destruct HI as (HM & _). destruct (st_app_lt _ _ _ _ (mid_static _ _ _ _ _ HM) Hp). lia.
Qed.
Lemma noded_classes info : Classes (d_equalityNodes (noded info s)).
Proof. cbn. rewrite <- (shape_vec _ inv_shape). apply classes_app, HI. Qed.
Lemma fnd_new info : fnds (noded info s) n = n.
Proof. cbn. rewrite <- (shape_vec _ inv_shape). apply fnd_last. Qed.
Lemma leaf_ok info : (forall s', d_nodes s' = d_nodes s ++ [info] -> Respects J' B' s') -> (nd_isConstant info = true -> nd_isInternal info = false) -> (nd_isEquality info = true -> B' n = true) -> nd_application info = None ->
  Inv J' B' A' (noded info s) /\ (forall i j, eqvs s i j -> eqvs (noded info s) i j) /\ (forall b, Ext b s -> d_nodeIds b !! nd_node info = None -> Ext b (noded info s)).
Proof.
  intros HR Hint Heq Happ. pose proof HI as (HM & HCl & Hd). pose proof (noded_shape info s inv_shape) as Hsh.
  assert (HS' : Static B' (noded info s)).
  { apply (static_add B B' s info); try done; [apply HM | | by rewrite Happ]. intros i m Hm. destruct (noded_uses i m Hm) as (l & Hl & Hin). exists l. split; [exact Hl |]. intros f. rewrite Hin.
    split; intros (p & Hp & Hx); exists p; (split; [| done]); [apply (app_of_snoc s _ info); [done | by left] |]. apply (app_of_snoc s _ info) in Hp; [| done]. destruct Hp as [? | [_ ?]]; [done | congruence]. }
  destruct (mid_add J J' B B' A A' s info HA HJ HR (fun _ => False) (noded info s)) as [HM' Hmono]; try done.
  - apply noded_counted, HM.
  - intros i _. apply noded_fnd, inv_shape.
  - apply fnd_new.
  - by rewrite Happ.
  - split; [| split; [done |]].
    + split; [| split; [apply noded_classes | done]]. eapply mid_weaken; [exact HM' |]. rewrite Happ. intros g [? | [_ [? ?]]]; done.
    + intros b HX Hfr. apply ext_counters, ext_add_node; try done. apply inv_shape.
Qed.
Lemma app_ok t ty a b : (forall s', d_nodes s' = d_nodes s ++ [app_info t ty a b s] -> Respects J' B' s') -> a < n -> b < n -> B' a = false -> B' b = false ->
  exists s', newApplicationNode t a b ty s = Ok (n, s') /\ Inv J' B' A' s' /\ (forall i j, eqvs s i j -> eqvs s' i j) /\ (forall b0, Ext b0 s -> d_nodeIds b0 !! t = None -> Ext b0 s') /\
    d_nodes s' = d_nodes s ++ [app_info t ty a b s] /\ d_nodeIds s' = <[t:=n]> (d_nodeIds s) /\ d_congruenceKinds s' = d_congruenceKinds s /\ d_saved s' = d_saved s.
Proof.
  intros HR Ha Hb Ba Bb. pose proof HI as (HM & HCl & Hd). set (info := app_info t ty a b s) in *. set (p := MkPair (MkApplication ty a b) (MkApplication ty (fnds s a) (fnds s b))).
  destruct (mid_find _ _ _ _ _ HM a Ha) as [Fa _], (mid_find _ _ _ _ _ HM b Hb) as [Fb _]. rewrite newApplicationNode_run by (done || apply HM). set (k := MkApplication ty _ _). set (s1 := apped t ty a b s).
  assert (Hlen : nodes_of s1 = S n) by (cbn; rewrite length_app; cbn; lia).
  assert (Hsh : Shape s1) by (apply add_uses_shape, noded_shape, HM). assert (Happ : app_of s1 n p) by (apply (app_of_snoc s _ info); [done | by right]).
  assert (Hf1 : forall i, fnds s1 i = fnds s i) by (intros i; unfold s1, apped; rewrite add_uses_fnd; apply noded_fnd, HM).
  assert (HS' : Static B' s1).
  { apply (static_add B B' s info); try done; [apply HM | | by intros ? [= <-]].
    assert (UsesOk (fun g j => ((exists p, app_of s g p /\ (oa p = j \/ ob p = j)) \/ g = n /\ j = a) \/ g = n /\ j = b) (d_equalityNodes s1, d_useListNodes s1)) as HU.
    { unfold s1, apped, add_uses. cbn [d_equalityNodes d_useListNodes put_equalityNodes put_useLists]. rewrite <- surjective_pairing. apply used_ok; [apply used_ok; [apply noded_uses |] |]; cbn; rewrite ?length_set_uses, length_app, (shape_vec _ inv_shape); cbn; lia. }
    intros i m Hm. destruct (HU i m Hm) as (l & Hl & Hin). exists l. split; [exact Hl |]. intros f. rewrite Hin. split.
    - intros [[(q & Hq & Hx) | [-> ->]] | [-> ->]]; [exists q; split; [apply (app_of_snoc s _ info); [done | by left] | done] | exists p; split; [done | by left] | exists p; split; [done | by right]].
    - intros (q & [Hq | [-> [= <-]]]%(app_of_snoc s _ info) & Hx); [left; left; by exists q | | done]. cbn in Hx. destruct Hx as [-> | ->]; [left | ]; by right. }
  destruct (mid_add J J' B B' A A' s info HA HJ HR (fun _ => False) s1) as [HM' Hmono]; try done.
  - apply (noded_counted info), HM.
  - by rewrite Hf1, <- (noded_fnd info), fnd_new by apply HM.
  - intros q [= <-]. done.
  - assert (Hk : key s1 p = k) by (unfold key, k; cbn [original p fa_type fa_a fa_b]; by rewrite !Hf1).
    assert (Hd1 : d_done (d_counters s1) = false) by done. assert (HCl1 : Classes (d_equalityNodes s1)) by (cbn; apply classes_set_uses, classes_set_uses, (noded_classes info)).
    assert (Hx1 : forall b0, Ext b0 s -> d_nodeIds b0 !! t = None -> Ext b0 s1) by (intros b0 HX Hfr; apply (ext_counters b0 (add_app info p s)), ext_add_app; try done; apply inv_shape).
    exists (placed k n s1). split; [done |]. unfold placed. destruct (d_applicationLookup s1 !! k) as [g|] eqn:Ek.
    + rewrite <- Hk in Ek. destruct (key_congruent _ _ _ _ _ _ _ _ HM' Happ Ek) as [Hg HJg]. split; [split; [| done] |].
      * eapply mid_weaken; [apply (mid_done_one J' B' A' (fun g => False \/ g = n /\ is_Some (nd_application info)) _ n p g); [apply enqueue_mid; [exact HM' | rewrite Hlen; apply Nat.lt_succ_diag_r | done | done | by eapply key_justified] | done | done |] |].
        -- apply (eqv_queue _ _ (MkCandidate n g MERGED_THROUGH_CONGRUENCE None)). apply elem_of_app. right. by left.
        -- cbn. intros h [[? | [? _]] ?]; done.
      * split; [| split; [intros b0 HX Hfr; by apply ext_queue, Hx1 | done]]. intros i j Hij. apply Hmono in Hij. eapply eqv_mono; [exact Hij |]. intros c Hc. apply elem_of_app. by left.
    + rewrite <- Hk in Ek |- *. split; [split; [| done] |].
      * eapply mid_weaken; [apply (stored_mid J' B' A' _ s1 n p HM' Happ Ek) |]. cbn. intros h [[? | [? _]] ?]; done.
      * split; [| split; [intros b0 HX Hfr; apply ext_queue, ext_counters, ext_add_lookup; [by apply Hx1 | done] | done]]. intros i j Hij. apply Hmono in Hij. eapply eqv_mono; [exact Hij |]. intros c Hc. apply elem_of_app. by left.
Qed.
End new.

(** The flags of a node that is not a constant. *)
Section flags.
Context (J : nat -> nat -> Prop) (B : nat -> bool) (A : nat -> nat -> option Term -> Prop) (s : EqualityEngine) (i : nat) (info info' : NodeInfo).
Hypothesis Hi : d_nodes s !! i = Some info.
Hypothesis Happ : nd_application info' = nd_application info.
Hypothesis Hnode : nd_node info' = nd_node info.
Hypothesis Hconst : nd_isConstant info' = false /\ nd_isConstant info = false.
Hypothesis Hequality : nd_isEquality info' = true -> B i = true.
Abbreviation s' := (put_nodes (<[i:=info']> (d_nodes s)) s).
Lemma flags_app f p : app_of s' f p <-> app_of s f p.
Proof.
  unfold app_of. cbn. destruct (decide (f = i)) as [-> |]; [| by rewrite list_lookup_insert_ne]. rewrite list_lookup_insert_eq by (by eapply lookup_lt_Some). split.
  - intros (? & [= <-] & Hp). exists info. split; [done | congruence].
  - intros (x & Hx & Hp). exists info'. split; [done | congruence].
Qed.
Lemma flags_const j : isC s' j = isC s j.
Proof.
  unfold isC. cbn. destruct (decide (j = i)) as [-> |]; [| by rewrite list_lookup_insert_ne]. rewrite list_lookup_insert_eq by (by eapply lookup_lt_Some). rewrite Hi. destruct Hconst. congruence.
Qed.
Lemma flags_expl : Expl A s -> Expl A s'.
Proof.
  intros [[H1 H2 H3 H4] H5 H6 H7]. assert (Hn : nodes_of s' = nodes_of s) by (cbn; by rewrite length_insert).
  assert (Hju : forall R x y ty r, Justified A s R x y ty r -> Justified A s' R x y ty r) by (intros R x y ty r; apply justified_mono; [intros f p; apply flags_app | intros c; by rewrite flags_const | done]).
  assert (Hsame : forall i j, same_class s i j -> same_class s' i j) by (intros x y; unfold same_class; by rewrite Hn).
  split; [split | | |]; rewrite ?Hn; try done.
  - intros k e1 e2 He1 He2. destruct (H2 k e1 e2 He1 He2) as (T1 & T2 & HJs). split; [done |]. split; [done |]. by apply Hju.
  - intros c Hc. apply H6, Hju in Hc. by eapply justified_mono; [| | exact Hsame | exact Hc].
  - intros k g Hk. destruct (H7 k g Hk) as (q & Hq & Ht & Ha & Hb). exists q. split; [by apply flags_app |]. split; [done |]. split; by apply Hsame.
Qed.
Lemma flags_ok : Inv J B A s -> Inv J B A s'.
Proof.
  intros ([HS HC HR HSo HXp Hfi Hco Hno Hcg Heq] & HCl & Hd). assert (Hn : nodes_of s' = nodes_of s) by (cbn; by rewrite length_insert). split; [| by split]. split; rewrite ?Hn; try done.
  - destruct HS as [[S1 S2 S3] H2 H3 H4 H5 H6 H9 H7 H8]. split; try (by rewrite flags_const).
    + split; rewrite ?Hn; done.
    + intros f p Hp%flags_app. by eapply H2.
    + intros j n Hn'. destruct (H3 j n Hn') as (l & Hl & Hin). exists l. split; [done |]. intros f. rewrite Hin. split; intros (p & Hp & Hx); exists p; (split; [by apply flags_app | done]).
    + intros f p Hp%flags_app. by eapply H4.
    + intros j x. cbn. destruct (decide (j = i)) as [-> |]; [| rewrite list_lookup_insert_ne by done; apply H5]. rewrite list_lookup_insert_eq by (by eapply lookup_lt_Some). by intros [= <-].
    + intros j x. cbn. destruct (decide (j = i)) as [-> |]; [| rewrite list_lookup_insert_ne by done; apply H6]. rewrite list_lookup_insert_eq by (by eapply lookup_lt_Some). intros [= <-]. destruct Hconst. congruence.
    + intros j x. cbn. rewrite length_insert. destruct (decide (j = i)) as [-> |]; [| rewrite list_lookup_insert_ne by done; apply H9]. rewrite list_lookup_insert_eq by (by eapply lookup_lt_Some). intros [= <-]. rewrite Hnode. by apply (H9 i).
  - unfold Counted in *. cbn. by rewrite length_insert.
  - destruct HR as [R1 R2 R3 R4 R5]. split; [done | done | | |].
    + intros f g p q Hp%flags_app Hq%flags_app. by apply R3.
    + intros f p Hp%flags_app. by apply R4.
    + intros f p c d Hp%flags_app. rewrite !flags_const. by apply R5.
  - destruct HSo as [So1 So2 So3]. split; rewrite ?Hn; [done | done |]. intros k g Hk. destruct (So3 k g Hk) as (q & Hq & Hrest). exists q. split; [by apply flags_app | done].
  - by apply flags_expl.
  - intros j. rewrite flags_const. apply Hco.
  - intros f p Hp%flags_app. by apply (Hno f).
  - intros f p Hp%flags_app Ht. by apply Hcg.
  - intros k g Hk Ety. rewrite !flags_const. by apply (Heq k g).
Qed.
End flags.
