(* ===== verification/EqualityTerms.v ===== *)
(** * Terms and their equalities

    What the equality engine decides: the least congruence that contains the asserted
    equalities, over terms of a signature in which an operator has one arity.  Then what a node
    stands for: a term, or an operator applied to some of its arguments. *)

From S2P Require Import Prelude EqualityEngine EqualityClasses EqualityBacktrack EqualityClosure EqualityPropagate EqualityNodes.
Local Open Scope nat_scope.

(** ** Signatures *)
(** The kinds that are congruence kinds; of an operator its arity and whether it is a predicate; the Boolean variables. *)
Record Signature : Set := MkSignature { sg_kinds : list positive; sg_arity : Op -> nat; sg_predicate : Op -> bool; sg_boolean : positive -> bool }.

Section terms.
Context (Sg : Signature).
Definition isBool (t : Term) : bool :=
  match t with
  | Var x => sg_boolean Sg x
  | BoolConstant _ | Equal _ _ => true
  | Apply op _ => sg_predicate Sg op
  | Constant _ | Operator _ => false
  end.
(** Applications that are taken apart. *)
Definition curried (op : Op) (args : list Term) : bool := match args with [] => false | _ => bool_decide (op_kind op ∈ sg_kinds Sg) end.
(** Operators have their arity, and no Boolean term is an argument. *)
Fixpoint wf (t : Term) : bool :=
  match t with
  | Apply op args => negb (curried op args) || ((length args =? sg_arity Sg op) && forallb (fun x => wf x && negb (isBool x)) args)
  | Equal a b => wf a && wf b && negb (isBool a) && negb (isBool b)
  | Operator _ => false
  | _ => true
  end.
Fixpoint tsize (t : Term) : nat :=
  match t with
  | Apply _ args => S (S (sum_list_with tsize args))
  | Equal a b => S (tsize a + tsize b)
  | _ => 1
  end.

(** ** Congruences *)
Record Congruence (R : Term -> Term -> Prop) : Prop := {
  cg_equiv : Equivalence R;
  cg_apply op l l' : curried op l = true -> Forall2 R l l' -> R (Apply op l) (Apply op l');
  cg_equal a a' b b' : R a a' -> R b b' -> R (Equal a b) (Equal a' b');
  cg_true a b : R a b -> R (Equal a b) d_true;
  cg_false a b c d : isConst c = true -> isConst d = true -> c <> d -> R a c -> R b d -> R (Equal a b) d_false
}.
(** Equalities, with the reasons they were asserted for. *)
Definition Fact : Set := Term * Term * option Term.
Definition Facts : Set := list Fact.
Abbreviation lhs f := (fst (fst f)).
Abbreviation rhs f := (snd (fst f)).
(** The least congruence with the facts. *)
Definition entails (F : Facts) (a b : Term) : Prop := forall R, Congruence R -> (forall f : Fact, f ∈ F -> R (lhs f) (rhs f)) -> R a b.
(** Distinct constants are equal. *)
Definition inconsistent (F : Facts) : Prop := exists c d, isConst c = true /\ isConst d = true /\ c <> d /\ entails F c d.
Definition wf_fact (f : Fact) : bool := wf (lhs f) && wf (rhs f) && Bool.eqb (isBool (lhs f)) (isBool (rhs f)).
Lemma entails_congruence F : Congruence (entails F).
Proof.
  split.
  - split.
    + intros a R HR _. apply (cg_equiv _ HR).
    + intros a b H R HR HF. apply (cg_equiv _ HR). by apply H.
    + intros a b c H1 H2 R HR HF. pose proof (cg_equiv _ HR). transitivity b; [by apply H1 | by apply H2].
  - intros op l l' Hc Hl R HR HF. apply (cg_apply _ HR); [done |]. eapply Forall2_impl; [exact Hl |]. intros x y H. by apply H.
  - intros a a' b b' Ha Hb R HR HF. apply (cg_equal _ HR); [by apply Ha | by apply Hb].
  - intros a b H R HR HF. apply (cg_true _ HR). by apply H.
  - intros a b c d Hc Hd Hne Ha Hb R HR HF. apply (cg_false _ HR a b c d); [done | done | done | by apply Ha | by apply Hb].
Qed.
Lemma entails_fact F a b r : (a, b, r) ∈ F -> entails F a b.
Proof. intros H R HR HF. by apply (HF (a, b, r)). Qed.
Lemma entails_weaken F F' a b : entails F a b -> (forall p, p ∈ F -> p ∈ F') -> entails F' a b.
Proof. intros H Hs R HR HF. apply H; [done |]. intros p Hp. by apply HF, Hs. Qed.
Lemma entails_bool F a b : forallb wf_fact F = true -> entails F a b -> isBool a = isBool b.
Proof.
  intros HF H. apply H.
  - split; try done. split; [by intros x | by intros x y | intros x y z H1 H2; by rewrite H1].
  - intros p Hp. rewrite forallb_forall in HF. apply list_elem_of_In, HF in Hp. unfold wf_fact in Hp. apply andb_true_iff in Hp as [_ Hp]. by apply Bool.eqb_prop.
Qed.

(** ** What nodes stand for *)
Inductive Part : Set := Full (t : Term) | Partial (op : Op) (l : list Term).
Definition peq (F : Facts) (p q : Part) : Prop :=
  match p, q with
  | Full a, Full b => entails F a b
  | Partial op l, Partial op' l' => op = op' /\ Forall2 (entails F) l l'
  | _, _ => False
  end.
Lemma peq_equiv F : Equivalence (peq F).
Proof.
  pose proof (cg_equiv _ (entails_congruence F)) as HE. split.
  - intros [t | op l]; cbn; [reflexivity |]. split; [done | reflexivity].
  - intros [t | op l] [t' | op' l']; cbn; try done. intros [-> ?]. split; [done | by symmetry].
  - intros [t1 | op1 l1] [t2 | op2 l2] [t3 | op3 l3]; cbn; try done; [intros ? ?; by transitivity t2 | intros [-> ?] [-> ?]; split; [done | by transitivity l2]].
Qed.
Definition J (F : Facts) (D : list Part) (i j : nat) : Prop := i = j \/ exists p q, D !! i = Some p /\ D !! j = Some q /\ peq F p q.
(** Two nodes whose equality is a fact. *)
Definition asserted (F : Facts) (D : list Part) (i j : nat) (r : option Term) : Prop := exists a b, D !! i = Some (Full a) /\ D !! j = Some (Full b) /\ (a, b, r) ∈ F.
Definition B (D : list Part) (i : nat) : bool := match D !! i with Some (Full t) => isBool t | _ => false end.
Lemma J_equiv F D : Equivalence (J F D).
Proof.
  pose proof (peq_equiv F) as HE. split.
  - intros i. by left.
  - intros i j [-> | (p & q & Hp & Hq & H)]; [by left | right; exists q, p; split; [done | split; [done | by symmetry]]].
  - intros i j k [-> | (p & q & Hp & Hq & H)]; [done |]. intros [-> | (p' & q' & Hp' & Hq' & H')]; [right; by exists p, q |]. right. exists p, q'. split; [done |]. split; [done |]. transitivity q; [done |]. congruence.
Qed.
Lemma J_part F D i j p : J F D i j -> D !! i = Some p -> exists q, D !! j = Some q /\ peq F p q.
Proof. intros [-> | (p' & q & Hp & Hq & H)] Hi; [exists p; split; [done | apply peq_equiv] | exists q; split; [done | congruence]]. Qed.
Lemma J_snoc F D p i j : J F D i j -> J F (D ++ [p]) i j.
Proof. intros [-> | (q & r & Hq & Hr & H)]; [by left |]. right. exists q, r. split; [by apply lookup_app_l_Some |]. split; [by apply lookup_app_l_Some | done]. Qed.
Lemma asserted_snoc F D p i j r : asserted F D i j r -> asserted F (D ++ [p]) i j r.
Proof. intros (a & b & Ha & Hb & Hf). exists a, b. split; [by apply lookup_app_l_Some |]. split; [by apply lookup_app_l_Some | done]. Qed.
Lemma B_snoc D p i : i < length D -> B (D ++ [p]) i = B D i.
Proof. intros Hi. unfold B. by rewrite lookup_app_l. Qed.

(** An operator applied to one argument more. *)
Definition apply_part (op : Op) (l : list Term) (x : Term) : Part := if S (length l) =? sg_arity Sg op then Full (Apply op (l ++ [x])) else Partial op (l ++ [x]).
Definition leaf (t : Term) : bool := match t with Var _ | Constant _ | BoolConstant _ => true | Apply op args => negb (curried op args) | _ => false end.
Inductive app_part (D : list Part) : option FunctionApplicationPair -> Part -> Prop :=
  | part_leaf t : leaf t = true -> app_part D None (Full t)
  | part_operator op : app_part D None (Partial op [])
  | part_apply a op l x : oty a = APP_UNINTERPRETED -> op_kind op ∈ sg_kinds Sg -> D !! oa a = Some (Partial op l) -> D !! ob a = Some (Full x) -> isBool x = false -> app_part D (Some a) (apply_part op l x)
  | part_equal a x y : oty a = APP_EQUALITY -> D !! oa a = Some (Full x) -> D !! ob a = Some (Full y) -> isBool x = false -> isBool y = false -> app_part D (Some a) (Full (Equal x y)).
Definition const_part (p : Part) : bool := match p with Full t => isConst t | Partial _ _ => false end.
Record NodesOk (D : list Part) (ns : list NodeInfo) : Prop := {
  no_length : length D = length ns;
  no_node i info p : ns !! i = Some info -> D !! i = Some p -> app_part D (nd_application info) p /\ nd_isConstant info = const_part p;
  no_term i info t : ns !! i = Some info -> D !! i = Some (Full t) -> nd_node info = t;
  no_inj i j t : D !! i = Some (Full t) -> D !! j = Some (Full t) -> i = j;
  no_wf i t : D !! i = Some (Full t) -> wf t = true;
  no_true : D !! d_trueId = Some (Full d_true);
  no_false : D !! d_falseId = Some (Full d_false)
}.
Lemma const_node D s i : NodesOk D (d_nodes s) -> isC s i = true -> exists t, D !! i = Some (Full t) /\ isConst t = true.
Proof.
  intros HN Hi. pose proof (isC_lt _ _ Hi) as Hlt. unfold isC in Hi. destruct (d_nodes s !! i) as [info|] eqn:Ei; [| done]. rewrite <- (no_length _ _ HN) in Hlt. apply lookup_lt_is_Some_2 in Hlt as [p Hp].
  destruct (no_node _ _ HN i info p Ei Hp) as [_ Hc]. rewrite Hc in Hi. destruct p as [t|]; [| done]. by exists t.
Qed.
Lemma app_node D s f p : NodesOk D (d_nodes s) -> app_of s f p -> exists q, D !! f = Some q /\ app_part D (Some p) q.
Proof.
  intros HN Hp. pose proof (app_lt _ _ _ Hp) as Hlt. rewrite <- (no_length _ _ HN) in Hlt. apply lookup_lt_is_Some_2 in Hlt as [q Hq]. destruct Hp as (info & Hi & Hp). exists q. split; [done |]. rewrite <- Hp. by eapply (no_node _ _ HN).
Qed.
Lemma curried_snoc op l x : op_kind op ∈ sg_kinds Sg -> curried op (l ++ [x]) = true.
Proof. intros Hk. unfold curried. destruct l; cbn; by apply bool_decide_eq_true. Qed.
(** Applications respect the equalities. *)
Lemma nodes_respect F D s : forallb wf_fact F = true -> NodesOk D (d_nodes s) -> Respects (J F D) (B D) s.
Proof.
  intros HF HN. pose proof (entails_congruence F) as HC. pose proof (cg_equiv _ HC) as HE. split.
  - apply J_equiv.
  - intros i j [-> | (p & q & Hp & Hq & H)]; [done |]. unfold B. rewrite Hp, Hq. destruct p, q; try done. by apply (entails_bool F).
  - intros f g p q Hp Hq Ety Ja Jb. destruct (app_node _ _ _ _ HN Hp) as (x & Hx & Ax), (app_node _ _ _ _ HN Hq) as (y & Hy & Ay). right. exists x, y. split; [done |]. split; [done |].
    inversion Ax as [| | a op l u Et Hk Da Db Bu | a u v Et Da Db Bu Bv]; subst; inversion Ay as [| | a' op' l' u' Et' Hk' Da' Db' Bu' | a' u' v' Et' Da' Db' Bu' Bv']; subst; try congruence;
      destruct (J_part _ _ _ _ _ Ja Da) as (x1 & Hx1 & P1), (J_part _ _ _ _ _ Jb Db) as (x2 & Hx2 & P2); rewrite Hx1 in Da'; rewrite Hx2 in Db'; injection Da' as ->; injection Db' as ->; cbn in P1, P2.
    + destruct P1 as [<- P1]. pose proof (Forall2_length _ _ _ P1) as Hl. unfold apply_part. rewrite <- Hl. assert (Forall2 (entails F) (l ++ [u]) (l' ++ [u'])) as P3 by (apply Forall2_app; [done | by repeat constructor]).
      destruct (S (length l) =? sg_arity Sg op); [apply (cg_apply _ HC); [by apply curried_snoc | done] | done].
    + by apply (cg_equal _ HC).
  - intros f p Hp Ety Jab. destruct (app_node _ _ _ _ HN Hp) as (x & Hx & Ax). inversion Ax as [| | | a u v Et Da Db Bu Bv]; subst; [congruence |]. right. exists (Full (Equal u v)), (Full d_true).
    split; [done |]. split; [apply HN |]. destruct (J_part _ _ _ _ _ Jab Da) as (y & Hy & P). rewrite Hy in Db. injection Db as ->. by apply (cg_true _ HC).
  - intros f p c d Hp Ety Cc Cd Hne Jac Jbd. destruct (app_node _ _ _ _ HN Hp) as (x & Hx & Ax). inversion Ax as [| | | a u v Et Da Db Bu Bv]; subst; [congruence |]. right. exists (Full (Equal u v)), (Full d_false).
    split; [done |]. split; [apply HN |]. destruct (const_node _ _ _ HN Cc) as (tc & Hc & Kc), (const_node _ _ _ HN Cd) as (td & Hd & Kd).
    destruct (J_part _ _ _ _ _ Jac Da) as (y & Hy & P), (J_part _ _ _ _ _ Jbd Db) as (z & Hz & P'). rewrite Hc in Hy. injection Hy as <-. rewrite Hd in Hz. injection Hz as <-.
    apply (cg_false _ HC u v tc td); try done. intros ->. apply Hne. by eapply (no_inj _ _ HN).
Qed.
Lemma conflict_inconsistent F D s : NodesOk D (d_nodes s) -> Conflict (J F D) s -> inconsistent F.
Proof.
  intros HN (a & b & Ca & Cb & Hne & HJ). destruct (const_node _ _ _ HN Ca) as (ta & Ha & Ka), (const_node _ _ _ HN Cb) as (tb & Hb & Kb). exists ta, tb. split; [done |]. split; [done |]. split.
  - intros ->. apply Hne. by eapply (no_inj _ _ HN).
  - destruct (J_part _ _ _ _ _ HJ Ha) as (y & Hy & P). rewrite Hb in Hy. injection Hy as <-. done.
Qed.
End terms.
