(* ===== verification/EqualityAdd.v ===== *)
(** * Adding terms to the equality engine

    [addTermInternal] adds the subterms of a term that the engine has not, curries
    applications, and leaves a closed state in which the term has a node.  While a term is
    taken apart its id is that of its last partial application: it is open, and
    none of the terms added meanwhile has it as a subterm. *)

From S2P Require Import Prelude EqualityEngine EqualityClasses EqualityBacktrack EqualityClosure EqualityPropagate EqualityNodes EqualityTerms.
Local Open Scope nat_scope.

Definition part_of (t : Term) : Part := match t with Operator op => Partial op [] | _ => Full t end.
(** The ids of the terms that are not among the open ones. *)
Record IdsOk (O : list Term) (D : list Part) (m : gmap Term nat) : Prop := {
  io_full i t : D !! i = Some (Full t) -> m !! t = Some i;
  io_operator i op : D !! i = Some (Partial op []) -> m !! Operator op = Some i;
  io_part t i : m !! t = Some i -> t ∉ O -> D !! i = Some (part_of t);
  io_open t i : t ∈ O -> D !! i <> Some (Full t)
}.
Lemma ids_open O D m t : IdsOk O D m -> m !! t = None -> IdsOk (t :: O) D m.
Proof.
  intros [H1 H2 H3 H4] Ht. split; [done | done | |].
  - intros u i Hu Ho. apply not_elem_of_cons in Ho as [_ Ho]. by apply H3.
  - intros u i [-> | Hu]%elem_of_cons; [| by apply H4]. intros Hi. apply H1 in Hi. congruence.
Qed.
Lemma ids_full O D m t : IdsOk (t :: O) D m -> t ∉ O -> part_of t = Full t -> IdsOk O (D ++ [Full t]) (<[t:=length D]> m).
Proof.
  intros [H1 H2 H3 H4] Ht Hp. split.
  - intros i u [[Hi Hu] | [-> [= <-]]]%lookup_snoc_Some; [| apply lookup_insert_eq]. rewrite lookup_insert_ne; [by apply H1 |]. intros <-. by apply (H4 t i); [left |].
  - intros i op [[Hi Hu] | [-> [=]]]%lookup_snoc_Some. rewrite lookup_insert_ne; [by apply H2 |]. by intros ->.
  - intros u i. destruct (decide (u = t)) as [-> | Hne]; [rewrite lookup_insert_eq; intros [= <-] _; rewrite Hp; by apply list_lookup_middle |]. rewrite lookup_insert_ne by done. intros Hu Ho. apply lookup_app_l_Some, H3; [done |]. by apply not_elem_of_cons.
  - intros u i Hu [[Hi Hd] | [-> [= <-]]]%lookup_snoc_Some; [by apply (H4 u i); [right |] | done].
Qed.
Lemma ids_operator O D m op : IdsOk O D m -> m !! Operator op = None -> IdsOk O (D ++ [Partial op []]) (<[Operator op:=length D]> m).
Proof.
  intros [H1 H2 H3 H4] Ht. split.
  - intros i u [[Hi Hu] | [-> [=]]]%lookup_snoc_Some. apply H1 in Hu. rewrite lookup_insert_ne; [done |]. intros <-. congruence.
  - intros i op' [[Hi Hu] | [-> [= <-]]]%lookup_snoc_Some; [| apply lookup_insert_eq]. apply H2 in Hu. rewrite lookup_insert_ne; [done |]. intros E. congruence.
  - intros u i. destruct (decide (u = Operator op)) as [-> | Hne]; [rewrite lookup_insert_eq; intros [= <-] _; by apply list_lookup_middle |]. rewrite lookup_insert_ne by done. intros Hu Ho. by apply lookup_app_l_Some, H3.
  - intros u i Hu [[Hi Hd] | [-> [=]]]%lookup_snoc_Some. by apply (H4 u i).
Qed.
Lemma ids_partial O D m t op l : IdsOk O D m -> t ∈ O -> part_of t = Full t -> l <> [] -> IdsOk O (D ++ [Partial op l]) (<[t:=length D]> m).
Proof.
  intros [H1 H2 H3 H4] Ht Hp Hl. split.
  - intros i u [[Hi Hu] | [-> [=]]]%lookup_snoc_Some. rewrite lookup_insert_ne; [by apply H1 |]. intros <-. by apply (H4 t i).
  - intros i op' [[Hi Hu] | [-> [= -> ->]]]%lookup_snoc_Some; [| done]. rewrite lookup_insert_ne; [by apply H2 |]. by intros ->.
  - intros u i Hu Ho. rewrite lookup_insert_ne in Hu by (by intros ->). by apply lookup_app_l_Some, H3.
  - intros u i Hu [[Hi Hd] | [-> [=]]]%lookup_snoc_Some. by apply (H4 u i).
Qed.

Section add.
Context (Sg : Signature) (F : Facts).
Hypothesis HF : forallb (wf_fact Sg) F = true.
Hypothesis Hcons : ~ inconsistent Sg F.

Lemma app_part_snoc D p a q : app_part Sg D a q -> app_part Sg (D ++ [p]) a q.
Proof. intros H. destruct H; econstructor; try done; by apply lookup_app_l_Some. Qed.
Lemma nodes_add D ns p info : NodesOk Sg D ns -> app_part Sg D (nd_application info) p -> nd_isConstant info = const_part p -> (forall t, p = Full t -> nd_node info = t /\ wf Sg t = true /\ forall i, D !! i <> Some (Full t)) -> NodesOk Sg (D ++ [p]) (ns ++ [info]).
Proof.
  intros [H1 H2 H7 H3 H4 H5 H6] Ha Hc Ht. split.
  - rewrite !length_app. cbn. lia.
  - intros i info' q Hi Hq. apply lookup_snoc_Some in Hq as [[Hlt Hq] | [-> <-]].
    + rewrite lookup_app_l in Hi by lia. destruct (H2 i info' q Hi Hq) as [? ?]. split; [by apply app_part_snoc | done].
    + rewrite H1 in Hi. rewrite list_lookup_middle in Hi by done. injection Hi as <-. split; [by apply app_part_snoc | done].
  - intros i info' t Hi [[Hlt Hq] | [-> Hq]]%lookup_snoc_Some.
    + rewrite lookup_app_l in Hi by lia. by eapply H7.
    + rewrite H1 in Hi. rewrite list_lookup_middle in Hi by done. injection Hi as <-. by apply Ht.
  - intros i j t [[_ Hi] | [-> Hi]]%lookup_snoc_Some [[_ Hj] | [-> Hj]]%lookup_snoc_Some; [by eapply H3 | | | done]; exfalso; [by apply (Ht t Hj) in Hi | by apply (Ht t Hi) in Hj].
  - intros i t [[_ Hi] | [-> Hi]]%lookup_snoc_Some; [by eapply H4 | by apply Ht].
  - by apply lookup_app_l_Some.
  - by apply lookup_app_l_Some.
Qed.
Lemma nodes_flags D ns i info info' : NodesOk Sg D ns -> ns !! i = Some info -> nd_application info' = nd_application info -> nd_isConstant info' = nd_isConstant info -> nd_node info' = nd_node info -> NodesOk Sg D (<[i:=info']> ns).
Proof.
  intros [H1 H2 H7 H3 H4 H5 H6] Hi Ha Hc Hn. split; try done; [by rewrite length_insert | |]; intros j x p; (destruct (decide (j = i)) as [-> |]).
  - rewrite list_lookup_insert_eq by (by eapply lookup_lt_Some). intros [= <-]. rewrite Ha, Hc. by apply H2.
  - rewrite list_lookup_insert_ne by done. apply H2.
  - rewrite list_lookup_insert_eq by (by eapply lookup_lt_Some). intros [= <-]. rewrite Hn. by apply H7.
  - rewrite list_lookup_insert_ne by done. apply H7.
Qed.

(** ** States *)
Record Core (O : list Term) (D : list Part) (s : EqualityEngine) : Prop := {
  co_inv : Inv (J Sg F D) (B Sg D) (asserted F D) s;
  co_nodes : NodesOk Sg D (d_nodes s);
  co_ids : IdsOk O D (d_nodeIds s);
  co_kinds : d_congruenceKinds s = sg_kinds Sg
}.
(** What a state has more than an earlier one. *)
Record Steps (O : list Term) (D : list Part) (s : EqualityEngine) (D' : list Part) (s' : EqualityEngine) : Prop := {
  sp_parts : D `prefix_of` D';
  sp_eqv i j : eqvs s i j -> eqvs s' i j;
  sp_saved : d_saved s' = d_saved s;
  sp_ext b : Ext b s -> (forall o, o ∈ O -> d_nodeIds b !! o = None) -> Ext b s'
}.
Lemma steps_refl O D s : Steps O D s D s.
Proof. split; done. Qed.
Lemma steps_trans O D1 s1 D2 s2 D3 s3 : Steps O D1 s1 D2 s2 -> Steps O D2 s2 D3 s3 -> Steps O D1 s1 D3 s3.
Proof. intros [? ? ? ?] [? ? ? ?]. split; [by etransitivity | auto | congruence | auto]. Qed.
Lemma steps_weaken O O' D s D' s' : Steps O D s D' s' -> (forall o, o ∈ O -> o ∈ O') -> Steps O' D s D' s'.
Proof. intros [? ? ? Hx] Ho. split; try done. intros b HX Hb. apply Hx; [done |]. intros o Hin. by apply Hb, Ho. Qed.
Lemma steps_closed O D s D' s' t : Steps (t :: O) D s D' s' -> d_nodeIds s !! t = None -> Steps O D s D' s'.
Proof.
  intros [? ? ? Hx] Ht. split; try done. intros b HX Hb. apply Hx; [done |]. intros o [-> | Ho]%elem_of_cons; [| by apply Hb].
  destruct (d_nodeIds b !! t) eqn:E; [| done]. pose proof (ext_ids _ _ HX t ltac:(by eexists)). congruence.
Qed.
Lemma core_propagate O D s : Core O D s -> exists s', propagate s = Ok (tt, s') /\ Core O D s' /\ Steps [] D s D s' /\ d_propagationQueue s' = [].
Proof.
  intros [HI HN Hi Hk]. destruct (propagate_ok _ _ _ s HI) as (s' & E' & [Fk Fi Fn Fu Fs Fsh Fc Fcl Fx] & Hq & Hor). exists s'. split; [done |]. rewrite <- Fn in HN. destruct Hor as [[HI' Hmono] | (_ & HC & _)].
  - split; [by split; [| | rewrite Fi | rewrite Fk] |]. split; [| done]. split; try done. intros b HX _. by apply Fx.
  - destruct Hcons. by eapply conflict_inconsistent.
Qed.
Lemma leaf_step O O' D s info p : Core O D s -> nd_application info = None -> app_part Sg D None p -> nd_isConstant info = const_part p -> nd_isEquality info = false -> (nd_isConstant info = true -> nd_isInternal info = false) ->
  (forall t, p = Full t -> nd_node info = t /\ wf Sg t = true /\ forall i, D !! i <> Some (Full t)) -> IdsOk O' (D ++ [p]) (<[nd_node info:=length D]> (d_nodeIds s)) ->
  Core O' (D ++ [p]) (noded info s) /\ Steps [nd_node info] D s (D ++ [p]) (noded info s).
Proof.
  intros [HI HN Hi Hk] Ha Hp Hc He Hint Ht Hids. assert (Hl := no_length _ _ _ HN). assert (HN' : NodesOk Sg (D ++ [p]) (d_nodes s ++ [info])) by (apply nodes_add; [done | by rewrite Ha | done | done]).
  destruct (leaf_ok (J Sg F D) (J Sg F (D ++ [p])) (B Sg D) (B Sg (D ++ [p])) (asserted F D) (asserted F (D ++ [p])) s (asserted_snoc F D p) HI) with (info := info) as (HI' & Hmono & Hx); try done.
  - intros i j _ _. apply J_snoc.
  - intros i Hlt. apply B_snoc. by rewrite Hl.
  - intros s' En. apply nodes_respect; [done |]. by rewrite En.
  - congruence.
  - split; [split; [done | done | | done]; rewrite Hl in Hids; exact Hids |]. split; [by apply prefix_app_r | done | done |]. intros b HX Hb. apply Hx; [done |]. apply Hb. by left.
Qed.
Lemma step_app O O' D s t ty a b p : Core O D s -> a < length D -> b < length D -> app_part Sg D (nd_application (app_info t ty a b s)) p -> const_part p = false -> B Sg D a = false -> B Sg D b = false ->
  (forall u, p = Full u -> t = u /\ wf Sg u = true /\ forall i, D !! i <> Some (Full u)) -> IdsOk O' (D ++ [p]) (<[t:=length D]> (d_nodeIds s)) ->
  exists s', newApplicationNode t a b ty s = Ok (length D, s') /\ Core O' (D ++ [p]) s' /\ Steps [t] D s (D ++ [p]) s' /\ d_nodes s' !! length D = Some (app_info t ty a b s).
Proof.
  intros [HI HN Hi Hk] La Lb Hp Hc Ba Bb Ht Hids. assert (Hl := no_length _ _ _ HN). assert (HN' : NodesOk Sg (D ++ [p]) (d_nodes s ++ [app_info t ty a b s])) by (apply nodes_add; done).
  destruct (app_ok (J Sg F D) (J Sg F (D ++ [p])) (B Sg D) (B Sg (D ++ [p])) (asserted F D) (asserted F (D ++ [p])) s (asserted_snoc F D p) HI) with (t := t) (ty := ty) (a := a) (b := b) as (s' & E' & HI' & Hmono & Hx & En & Ei & Ek & Es).
  - intros i j _ _. apply J_snoc.
  - intros i Hlt. apply B_snoc. by rewrite Hl.
  - intros s' En. apply nodes_respect; [done |]. by rewrite En.
  - by rewrite <- Hl.
  - by rewrite <- Hl.
  - by rewrite B_snoc.
  - by rewrite B_snoc.
  - rewrite Hl in *. exists s'. split; [done |]. split; [split; [done | by rewrite En | by rewrite Ei | congruence] |]. split; [| rewrite En; by apply list_lookup_middle].
    split; [by apply prefix_app_r | done | done |]. intros b0 HX Hb. apply Hx; [done |]. apply Hb. by left.
Qed.

(** ** Adding *)
Lemma run_hasTerm {X} t (f : bool -> EM X) s : (mbind f (hasTerm t)) s = f (bool_decide (is_Some (d_nodeIds s !! t))) s.
Proof. done. Qed.
Lemma wf_part t : wf Sg t = true -> part_of t = Full t.
Proof. by destruct t. Qed.
Lemma core_id O D s i t : Core O D s -> D !! i = Some (Full t) -> d_nodeIds s !! t = Some i.
Proof. intros HC. apply (co_ids _ _ _ HC). Qed.
Lemma core_done O D s : Core O D s -> d_done (d_counters s) = false.
Proof. intros HC. apply (co_inv _ _ _ HC). Qed.
(** The flags of a new application. *)
Lemma step_flags O D s i info c e b : Core O D s -> d_nodes s !! i = Some info -> nd_isConstant info = false -> c = false -> (e = true -> B Sg D i = true) ->
  exists s', update_info i (set_flags c e b) s = Ok (tt, s') /\ Core O D s' /\ (forall b0, Ext b0 s -> nodes_of b0 <= i -> Ext b0 s') /\ d_propagationQueue s' = d_propagationQueue s /\
    d_equalityNodes s' = d_equalityNodes s /\ d_saved s' = d_saved s /\ nodes_of s' = nodes_of s.
Proof.
  intros [HI HN Hi Hk] Hn Hc -> He. unfold update_info. rewrite (run_info _ info) by done. eexists. split; [reflexivity |]. split; [split |].
  - apply (flags_ok _ _ _ s i info (set_flags false e b info)); done.
  - cbn. by apply (nodes_flags D (d_nodes s) i info).
  - done.
  - done.
  - split; [intros b0 HX Hle; by apply (ext_flags b0 s i info) |]. split; [done |]. split; [done |]. split; [done |]. cbn. by rewrite length_insert.
Qed.
Lemma add_leaf_run t isOperator s : add_leaf t isOperator s = Ok (tt, noded (MkNodeInfo t None (negb isOperator && isConst t) false isOperator) s).
Proof. unfold add_leaf. by rewrite (run_bind (newNode_run t s)), update_noded. Qed.
Lemma add_leaf_ok O D s t : Core (t :: O) D s -> t ∉ O -> wf Sg t = true -> leaf Sg t = true -> exists s', add_leaf t false s = Ok (tt, s') /\ Core O (D ++ [Full t]) s' /\ Steps [t] D s (D ++ [Full t]) s'.
Proof.
  intros HC Ht Hw Hl. rewrite add_leaf_run. eexists. split; [reflexivity |]. apply (leaf_step (t :: O)); try done.
  - by constructor.
  - intros u [= <-]. split; [done |]. split; [done |]. intros i. apply (co_ids _ _ _ HC). by left.
  - apply ids_full; [apply HC | done | by apply wf_part].
Qed.
Lemma add_operator_ok O D s op : Core O D s -> Operator op ∉ O -> exists s' D' i, add_operator op s = Ok (tt, s') /\ Core O D' s' /\ Steps O D s D' s' /\ D' !! i = Some (Partial op []).
Proof.
  intros HC Ho. unfold add_operator. rewrite run_hasTerm. unfold is_done. rewrite run_gets, (core_done _ _ _ HC), orb_false_r. destruct (d_nodeIds s !! Operator op) as [i|] eqn:Ei.
  - exists s, D, i. split; [done |]. split; [done |]. split; [apply steps_refl |]. by apply (io_part _ _ _ (co_ids _ _ _ HC) (Operator op)).
  - rewrite bool_decide_eq_false_2 by (by intros [? ?]). rewrite (run_bind (add_leaf_run (Operator op) true s)). cbn [negb andb].
    destruct (leaf_step O O D s (MkNodeInfo (Operator op) None false false true) (Partial op [])) as [HC1 HS1]; try done; [constructor | by apply ids_operator; [apply HC |] |].
    destruct (core_propagate _ _ _ HC1) as (s2 & E2 & HC2 & HS2 & _). exists s2, (D ++ [Partial op []]), (length D). split; [done |]. split; [done |]. split; [| by apply list_lookup_middle].
    eapply steps_trans; [| eapply steps_weaken; [exact HS2 |]; intros o Hin; by apply not_elem_of_nil in Hin]. apply (steps_closed _ _ _ _ _ (Operator op)); [| done]. eapply steps_weaken; [exact HS1 |]. intros o ->%list_elem_of_singleton. by left.
Qed.
Definition Added (t : Term) : Prop := forall O D s, wf Sg t = true -> Core O D s -> (forall o, o ∈ O -> tsize t < tsize o) ->
  exists s' D' i, addTermInternal t s = Ok (tt, s') /\ Core O D' s' /\ Steps O D s D' s' /\ D' !! i = Some (Full t) /\ (d_propagationQueue s = [] -> d_propagationQueue s' = []).
Lemma core_part_lt O D s i p : Core O D s -> D !! i = Some p -> i < length D.
Proof. intros _. apply lookup_lt_Some. Qed.
Lemma steps_part O D s D' s' i p : Steps O D s D' s' -> D !! i = Some p -> D' !! i = Some p.
Proof. intros HS Hi. eapply prefix_lookup_Some; [done | apply HS]. Qed.
Lemma steps_length O D s D' s' : Steps O D s D' s' -> length D <= length D'.
Proof. intros HS. apply prefix_length, HS. Qed.
Lemma arg_size op args x : x ∈ args -> tsize x < tsize (Apply op args).
Proof. intros Hx. cbn. assert (tsize x <= sum_list_with tsize args); [| lia]. induction Hx as [l | y l ? Hy]; cbn; lia. Qed.
Section curry.
Context (op : Op) (args : list Term).
Abbreviation t := (Apply op args).
Hypothesis Hwf : wf Sg t = true.
Hypothesis Hcur : curried Sg op args = true.
Lemma curried_kind : op_kind op ∈ sg_kinds Sg.
Proof. unfold curried in Hcur. destruct args; [done |]. by apply bool_decide_eq_true in Hcur. Qed.
Lemma curried_arity : length args = sg_arity Sg op.
Proof. cbn in Hwf. rewrite Hcur in Hwf. cbn in Hwf. apply andb_true_iff in Hwf as [? _]. by apply Nat.eqb_eq. Qed.
Lemma curried_arg x : x ∈ args -> wf Sg x = true /\ isBool Sg x = false.
Proof.
  intros Hx%list_elem_of_In. cbn in Hwf. rewrite Hcur in Hwf. cbn in Hwf. apply andb_true_iff in Hwf as [_ H]. rewrite forallb_forall in H. apply H, andb_true_iff in Hx as [? ?]. split; [done |]. by apply negb_true_iff.
Qed.
(** One argument more. *)
Lemma curry_step O D s pre x l r : pre ++ x :: l = args -> D !! r = Some (Partial op pre) -> Core (t :: O) D s -> t ∉ O -> forall i, D !! i = Some (Full x) ->
  let O' := match l with [] => O | _ => t :: O end in let p := match l with [] => Full t | _ => Partial op (pre ++ [x]) end in
  exists s', newApplicationNode t r i APP_UNINTERPRETED s = Ok (length D, s') /\ Core O' (D ++ [p]) s' /\ Steps [t] D s (D ++ [p]) s' /\ d_nodes s' !! length D = Some (app_info t APP_UNINTERPRETED r i s).
Proof.
  intros Eargs Hr HC Ht i Hi O' p. destruct (curried_arg x) as [Wx Bx]; [rewrite <- Eargs; apply elem_of_app; right; by left |]. assert (Ep : p = apply_part Sg op pre x).
  { unfold p, apply_part. rewrite <- curried_arity, <- Eargs, length_app. destruct l; cbn [length]; [by rewrite Nat.add_1_r, Nat.eqb_refl |]. rewrite (proj2 (Nat.eqb_neq _ _)) by lia. done. }
  apply (step_app (t :: O)); try done.
  - by eapply lookup_lt_Some.
  - by eapply lookup_lt_Some.
  - rewrite Ep. by constructor; [| apply curried_kind | | |].
  - unfold p. by destruct l.
  - unfold B. by rewrite Hr.
  - unfold B. by rewrite Hi.
  - intros u Eu. unfold p in Eu. destruct l; [| done]. injection Eu as <-. split; [done |]. split; [done |]. intros j. apply (co_ids _ _ _ HC). by left.
  - unfold O', p. destruct l; [apply ids_full; [apply HC | done | done] | apply ids_partial; [apply HC | by left | done | by destruct pre]].
Qed.
Lemma curry_ok : forall l pre r O D s, pre ++ l = args -> l <> [] -> D !! r = Some (Partial op pre) -> Core (t :: O) D s -> (forall o, o ∈ O -> tsize t < tsize o) -> Forall Added l ->
  exists s' D' res info, curryfy addTermInternal t l r s = Ok (res, s') /\ Core O D' s' /\ Steps (t :: O) D s D' s' /\ D' !! res = Some (Full t) /\ length D <= res /\ d_nodes s' !! res = Some info /\ nd_isConstant info = false.
Proof.
  induction l as [|x l IH]; intros pre r O D s Eargs Hne Hr HC Hsz HA; [done |]. apply Forall_cons in HA as [Ax HA]. assert (Hx : x ∈ args) by (rewrite <- Eargs; apply elem_of_app; right; by left).
  destruct (curried_arg x Hx) as [Wx Bx]. assert (Ht : t ∉ O) by (intros Hin; specialize (Hsz _ Hin); lia). pose proof (arg_size op args x Hx) as Hsx.
  destruct (Ax (t :: O) D s Wx HC) as (s1 & D1 & i & E1 & HC1 & HS1 & Hi & _). { intros o [-> | Ho]%elem_of_cons; [done |]. specialize (Hsz o Ho). lia. }
  cbn [curryfy]. rewrite (run_bind E1), (run_id _ i) by (by eapply core_id). destruct (curry_step O D1 s1 pre x l r Eargs) with (i := i) as (s2 & E2 & HC2 & HS2 & Hn2); [by eapply steps_part | done | done | done |]. rewrite (run_bind E2).
  assert (HS12 : Steps (t :: O) D s (D1 ++ [match l with [] => Full t | _ => Partial op (pre ++ [x]) end]) s2) by (eapply steps_trans; [exact HS1 |]; eapply steps_weaken; [exact HS2 |]; intros o ->%list_elem_of_singleton; by left).
  pose proof (steps_length _ _ _ _ _ HS1) as Hl1. destruct l as [|y l].
  - exists s2, (D1 ++ [Full t]), (length D1), (app_info t APP_UNINTERPRETED r i s1). split; [done |]. split; [done |]. split; [done |]. split; [by apply list_lookup_middle |]. done.
  - destruct (IH (pre ++ [x]) (length D1) O (D1 ++ [Partial op (pre ++ [x])]) s2) as (s3 & D3 & res & info & E3 & HC3 & HS3 & Hres & Hle & Hn3 & Hc3); [by rewrite <- app_assoc | done | by apply list_lookup_middle | done | done | done |].
    exists s3, D3, res, info. split; [done |]. split; [done |]. split; [by eapply steps_trans |]. split; [done |]. split; [rewrite length_app in Hle; lia | done].
Qed.
End curry.
(** What [addTermInternal] does with a new term. *)
Definition add_new (t : Term) : EM unit :=
  match t with
  | Equal a b =>
      _ ← addTermInternal a; _ ← addTermInternal b;
      t0id ← getNodeId a; t1id ← getNodeId b;
      result ← newApplicationNode t t0id t1id APP_EQUALITY;
      update_info result (set_flags false true false)
  | Apply op args =>
      c ← congruent op args;
      if c : bool then
        _ ← add_operator op;
        result ← getNodeId (Operator op);
        result ← curryfy addTermInternal t args result;
        update_info result (set_flags (isConst t) false false)
      else add_leaf t false
  | _ => add_leaf t false
  end.
Lemma addTermInternal_eq t : addTermInternal t =
  (h ← hasTerm t; if h : bool then mret tt else done ← is_done; if done : bool then mret tt else _ ← add_new t; _ ← propagate; h ← hasTerm t; lift (check AssertionFailed h)).
Proof. by destruct t. Qed.
Definition New (t : Term) : Prop := forall O D s, wf Sg t = true -> Core (t :: O) D s -> (forall o, o ∈ O -> tsize t < tsize o) ->
  exists s' D' i, add_new t s = Ok (tt, s') /\ Core O D' s' /\ Steps (t :: O) D s D' s' /\ D' !! i = Some (Full t).
Lemma new_added t : New t -> Added t.
Proof.
  intros HN O D s Hw HC Hsz. rewrite addTermInternal_eq, run_hasTerm. destruct (d_nodeIds s !! t) as [i|] eqn:Ei.
  - exists s, D, i. split; [done |]. split; [done |]. split; [apply steps_refl |]. split; [| done]. rewrite <- (wf_part t) by done. apply (io_part _ _ _ (co_ids _ _ _ HC)); [done |]. intros Hin. specialize (Hsz _ Hin). lia.
  - rewrite bool_decide_eq_false_2 by (by intros [? ?]). unfold is_done. rewrite run_gets, (core_done _ _ _ HC).
    destruct (HN O D s Hw) as (s1 & D1 & i & E1 & HC1 & HS1 & Hi); [by destruct HC as [? ? ? ?]; split; try done; apply ids_open | done |]. rewrite (run_bind E1).
    destruct (core_propagate _ _ _ HC1) as (s2 & E2 & HC2 & HS2 & Hq). rewrite (run_bind E2), run_hasTerm. exists s2, D1, i. rewrite (core_id _ _ _ i t HC2 Hi), bool_decide_eq_true_2 by (by eexists). split; [done |]. split; [done |].
    split; [| done]. apply (steps_closed _ _ _ _ _ t); [| done]. eapply steps_trans; [exact HS1 |]. eapply steps_weaken; [exact HS2 |]. intros o Ho. by apply not_elem_of_nil in Ho.
Qed.
Lemma new_leaf t : leaf Sg t = true -> add_new t = add_leaf t false -> New t.
Proof.
  intros Hl E O D s Hw HC Hsz. assert (Ht : t ∉ O) by (intros Hin; specialize (Hsz _ Hin); lia). destruct (add_leaf_ok O D s t HC Ht Hw Hl) as (s1 & E1 & HC1 & HS1). exists s1, (D ++ [Full t]), (length D). rewrite E. split; [done |]. split; [done |].
  split; [| by apply list_lookup_middle]. eapply steps_weaken; [exact HS1 |]. intros o ->%list_elem_of_singleton. by left.
Qed.
Lemma steps_flags O D s D1 s1 i info c e b : Shape s -> Steps O D s D1 s1 -> Core O D s -> forall O1, Core O1 D1 s1 -> length D <= i -> d_nodes s1 !! i = Some info -> nd_isConstant info = false -> c = false -> (e = true -> B Sg D1 i = true) ->
  exists s2, update_info i (set_flags c e b) s1 = Ok (tt, s2) /\ Core O1 D1 s2 /\ Steps O D s D1 s2.
Proof.
  intros Hsh HS HC O1 HC1 Hle Hn Hc Ec He. destruct (step_flags O1 D1 s1 i info c e b HC1 Hn Hc Ec He) as (s2 & E2 & HC2 & Hx & Hq & Hv & Hsv & _). exists s2. split; [done |]. split; [done |]. destruct HS as [S1 S2 S3 S4]. split; [done | | congruence |].
  - intros x y Hxy. rewrite Hv, Hq. by apply S2.
  - intros b0 HX Hb. apply Hx; [by apply S4 |]. rewrite (no_length _ _ _ (co_nodes _ _ _ HC)) in Hle. pose proof (ext_le_nodes _ _ HX). lia.
Qed.
Lemma new_equal a b : Added a -> Added b -> New (Equal a b).
Proof.
  intros Aa Ab O D s Hw HC Hsz. cbn in Hw. apply andb_true_iff in Hw as [[[Wa Wb]%andb_true_iff Ba]%andb_true_iff Bb]. apply negb_true_iff in Ba, Bb.
  assert (Ht : (Equal a b) ∉ O) by (intros Hin; specialize (Hsz _ Hin); lia). assert (Hs : forall x, x = a \/ x = b -> forall o, o ∈ (Equal a b) :: O -> tsize x < tsize o).
  { intros x Hx o Ho. assert (tsize x < tsize (Equal a b)) by (destruct Hx as [-> | ->]; cbn; destruct a, b; cbn; lia). apply elem_of_cons in Ho as [-> | Ho]; [done |]. specialize (Hsz o Ho). lia. }
  cbn [add_new]. destruct (Aa ((Equal a b) :: O) D s Wa HC) as (s1 & D1 & i & E1 & HC1 & HS1 & Hi & _); [apply Hs; by left |]. rewrite (run_bind E1).
  destruct (Ab ((Equal a b) :: O) D1 s1 Wb HC1) as (s2 & D2 & j & E2 & HC2 & HS2 & Hj & _); [apply Hs; by right |]. rewrite (run_bind E2). pose proof (steps_part _ _ _ _ _ _ _ HS2 Hi) as Hi2.
  rewrite (run_id _ i), (run_id _ j) by (by eapply core_id). destruct (step_app ((Equal a b) :: O) O D2 s2 (Equal a b) APP_EQUALITY i j (Full (Equal a b))) as (s3 & E3 & HC3 & HS3 & Hn3); try done.
  - by eapply lookup_lt_Some.
  - by eapply lookup_lt_Some.
  - by econstructor.
  - unfold B. by rewrite Hi2.
  - unfold B. by rewrite Hj.
  - intros u [= <-]. split; [done |]. split; [cbn; by rewrite Wa, Wb, Ba, Bb |]. intros k. apply (co_ids _ _ _ HC2). by left.
  - apply ids_full; [apply HC2 | done | done].
  - rewrite (run_bind E3). assert (HS : Steps ((Equal a b) :: O) D s (D2 ++ [Full (Equal a b)]) s3).
    { eapply steps_trans; [exact HS1 |]. eapply steps_trans; [exact HS2 |]. eapply steps_weaken; [exact HS3 |]. intros o ->%list_elem_of_singleton. by left. }
    destruct (steps_flags (Equal a b :: O) D s (D2 ++ [Full (Equal a b)]) s3 (length D2) (app_info (Equal a b) APP_EQUALITY i j s2) false true false (inv_shape _ _ _ _ (co_inv _ _ _ HC)) HS HC O HC3) as (s4 & E4 & HC4 & HS4); try done.
    + etransitivity; eapply steps_length; [exact HS1 | exact HS2].
    + intros _. unfold B. by rewrite list_lookup_middle.
    + exists s4, (D2 ++ [Full (Equal a b)]), (length D2). split; [done |]. split; [done |]. split; [done |]. by apply list_lookup_middle.
Qed.
Lemma new_apply op args : Forall Added args -> New (Apply op args).
Proof.
  intros HA O D s Hw HC Hsz. assert (Ec : congruent op args s = Ok (curried Sg op args, s)) by (unfold congruent, curried; rewrite run_gets, (co_kinds _ _ _ HC); by destruct args).
  destruct (curried Sg op args) eqn:Hcur.
  - cbn [add_new]. rewrite (run_bind Ec). destruct (add_operator_ok ((Apply op args) :: O) D s op HC) as (s1 & D1 & i & E1 & HC1 & HS1 & Hi).
    { intros [? | Ho]%elem_of_cons; [done |]. specialize (Hsz _ Ho). cbn in Hsz. lia. }
    rewrite (run_bind E1), (run_id _ i) by (by apply (io_operator _ _ _ (co_ids _ _ _ HC1))).
    destruct (curry_ok op args Hw Hcur args [] i O D1 s1) as (s2 & D2 & res & info & E2 & HC2 & HS2 & Hres & Hle & Hn2 & Hc2); try done; [by destruct args |]. rewrite (run_bind E2).
    pose proof (steps_length _ _ _ _ _ HS1) as Hl1. destruct (steps_flags ((Apply op args) :: O) D s D2 s2 res info (isConst (Apply op args)) false false (inv_shape _ _ _ _ (co_inv _ _ _ HC))) with (O1 := O) as (s3 & E3 & HC3 & HS3); try done; [by eapply steps_trans | lia |].
    exists s3, D2, res. done.
  - assert (Ht : Apply op args ∉ O) by (intros Hin; specialize (Hsz _ Hin); lia). cbn [add_new]. rewrite (run_bind Ec). destruct (add_leaf_ok O D s (Apply op args) HC Ht Hw) as (s1 & E1 & HC1 & HS1); [cbn; by rewrite Hcur |].
    exists s1, (D ++ [Full (Apply op args)]), (length D). split; [done |]. split; [done |]. split; [| by apply list_lookup_middle]. eapply steps_weaken; [exact HS1 |]. intros o ->%list_elem_of_singleton. by left.
Qed.
Lemma add_term_ok t : Added t.
Proof.
  induction t as [x|c|b|op|op args IH|a b IHa IHb] using term_ind'; apply new_added.
  - by apply new_leaf.
  - by apply new_leaf.
  - by apply new_leaf.
  - by intros O D s Hw.
  - by apply new_apply.
  - by apply new_equal.
Qed.
End add.
