(* ===== verification/EqualityModel.v ===== *)
(** * A closed state is a model

    When the queue is empty the classes and the lookup table give every term a value, also a
    term that the engine does not have.  The terms with equal values are a congruence, so what
    the asserted equalities entail holds in the state, and distinct constants have
    distinct values. *)

From S2P Require Import Prelude EqualityEngine EqualityClasses EqualityBacktrack EqualityClosure EqualityPropagate EqualityNodes EqualityTerms EqualityAdd.
Local Open Scope nat_scope.

(** ** Values *)
Abbreviation Val := (gen_tree (nat + Term)).
(** A class; a term that is not taken apart; an application; an equality. *)
Definition VClass (r : nat) : Val := GenLeaf (inl r).
Definition VLeaf (t : Term) : Val := GenLeaf (inr t).
Definition VApply (op : Op) (l : list Val) : Val := GenNode 0 (VLeaf (Operator op) :: l).
Definition VEqual (a b : Val) : Val := GenNode 1 [a; b].

Section model.
Context (Sg : Signature) (s : EqualityEngine).
Definition leaf_val (t : Term) : Val := match d_nodeIds s !! t with Some i => VClass (fnds s i) | None => VLeaf t end.
(** The partial applications, from the class of the operator. *)
Definition walk_step (r : nat) (v : Val) : option nat :=
  match v with
  | GenLeaf (inl x) => g ← d_applicationLookup s !! MkApplication APP_UNINTERPRETED r x; Some (fnds s g)
  | _ => None
  end.
Fixpoint walk (r : nat) (l : list Val) : option nat := match l with [] => Some r | v :: l => r' ← walk_step r v; walk r' l end.
Definition apply_val (op : Op) (l : list Val) : Val :=
  match o ← d_nodeIds s !! Operator op; walk (fnds s o) l with Some r => VClass r | None => VApply op l end.
Definition const_val (v : Val) : bool := match v with GenLeaf (inl r) => isC s r | GenLeaf (inr t) => isConst t | _ => false end.
Definition equal_found (a b : Val) : option nat :=
  match a, b with GenLeaf (inl x), GenLeaf (inl y) => d_applicationLookup s !! MkApplication APP_EQUALITY x y | _, _ => None end.
Definition equal_val (a b : Val) : Val :=
  match equal_found a b with
  | Some g => VClass (fnds s g)
  | None => if decide (a = b) then leaf_val d_true else if const_val a && const_val b then leaf_val d_false else VEqual a b
  end.
Fixpoint nf (t : Term) : Val :=
  match t with
  | Apply op args => if curried Sg op args then apply_val op (map nf args) else leaf_val t
  | Equal a b => equal_val (nf a) (nf b)
  | _ => leaf_val t
  end.
Lemma walk_snoc l v : forall r, walk r (l ++ [v]) = r' ← walk r l; walk_step r' v.
Proof. induction l as [|w l IH]; intros r; cbn; [by destruct (walk_step r v) |]. destruct (walk_step r w); cbn; [apply IH | done]. Qed.

Context (F : Facts) (D : list Part).
Hypothesis HC : Core Sg F [] D s.
Hypothesis Hq : d_propagationQueue s = [].
Lemma closed_congr f p : app_of s f p -> exists g, d_applicationLookup s !! key s p = Some g /\ fnds s g = fnds s f.
Proof.
  destruct (co_inv _ _ _ _ _ HC) as (HM & _). intros Hp. destruct (mid_congr _ _ _ _ _ HM f p Hp) as (g & Hg & He); [tauto |]. exists g. split; [done |]. rewrite Hq in He. symmetry. pose proof (shape_vec _ (st_shape _ _ (mid_static _ _ _ _ _ HM))) as Hl.
  apply eqv_nil; [rewrite Hl; by eapply app_lt | | done]. rewrite Hl. by eapply (key_congruent _ _ _ _ _ _ _ _ HM Hp Hg).
Qed.
Lemma closed_eq k g : d_applicationLookup s !! k = Some g -> fa_type k = APP_EQUALITY ->
  (fa_a k = fa_b k -> fnds s g = d_trueId) /\ (fa_a k <> fa_b k -> isC s (fa_a k) = true -> isC s (fa_b k) = true -> fnds s g = d_falseId).
Proof.
  destruct (co_inv _ _ _ _ _ HC) as (HM & _). pose proof (mid_static _ _ _ _ _ HM) as HS. pose proof (shape_vec _ (st_shape _ _ HS)) as Hl. intros Hk Hty. destruct (mid_eq _ _ _ _ _ HM k g Hk Hty) as [H1 H2]. rewrite Hq in H1, H2.
  destruct (so_lookup _ _ (mid_sound _ _ _ _ _ HM) k g Hk) as (q & Hg%app_lt & _). pose proof (st_true _ _ HS) as Ht. pose proof (st_false _ _ HS) as Hf. split.
  - intros E. rewrite <- (mid_const _ _ _ _ _ HM _ Ht). apply eqv_nil; [by rewrite Hl | rewrite Hl; by apply isC_lt | by apply H1].
  - intros E Ca Cb. rewrite <- (mid_const _ _ _ _ _ HM _ Hf). apply eqv_nil; [by rewrite Hl | rewrite Hl; by apply isC_lt | by apply H2].
Qed.
Lemma node_of i p : D !! i = Some p -> exists info, d_nodes s !! i = Some info /\ app_part Sg D (nd_application info) p /\ nd_isConstant info = const_part p.
Proof.
  pose proof (co_nodes _ _ _ _ _ HC) as HN. intros Hp. pose proof (lookup_lt_Some _ _ _ Hp) as Hlt. rewrite (no_length _ _ _ HN) in Hlt. apply lookup_lt_is_Some_2 in Hlt as [info Hi]. exists info. split; [done |]. by apply (no_node _ _ _ HN i).
Qed.
(** An application is found from the values of its arguments. *)
Lemma apply_step i op l x q : D !! i = Some q -> q = Partial op (l ++ [x]) \/ q = Full (Apply op (l ++ [x])) -> curried Sg op (l ++ [x]) = true -> exists a b, D !! a = Some (Partial op l) /\ D !! b = Some (Full x) /\ walk_step (fnds s a) (VClass (fnds s b)) = Some (fnds s i).
Proof.
  intros Hi Hqq Hcur. destruct (node_of i q Hi) as (info & Hn & Ha & _). assert (exists p, nd_application info = Some p /\ oty p = APP_UNINTERPRETED /\ D !! oa p = Some (Partial op l) /\ D !! ob p = Some (Full x)) as (p & Hp & Ety & Hoa & Hob).
  { inversion Ha as [t Hl E1 E2 | op' E1 E2 | a op' l' x' Et Hk Da Db Bx E1 E2 | a u v Et Da Db Bu Bv E1 E2]; subst q.
    - exfalso. destruct Hqq as [[=] | [= ->]]. cbn in Hl. rewrite Hcur in Hl. done.
    - exfalso. destruct Hqq as [[= -> E] | [=]]. by destruct l.
    - exists a. unfold apply_part in Hqq. assert (op' = op /\ l' ++ [x'] = l ++ [x]) as [-> [-> [= ->]]%app_inj_2] by (destruct (S (length l') =? sg_arity Sg op'); destruct Hqq as [E | E]; try discriminate E; split; congruence); done.
    - exfalso. destruct Hqq as [[=] | [=]]. }
  exists (oa p), (ob p). split; [done |]. split; [done |]. destruct (closed_congr i p) as (g & Hg & Hf); [by exists info |]. unfold key in Hg. rewrite Ety in Hg. cbn. rewrite Hg. cbn. by rewrite Hf.
Qed.
Lemma walk_partial op o l : d_nodeIds s !! Operator op = Some o -> (forall x i, x ∈ l -> D !! i = Some (Full x) -> nf x = VClass (fnds s i)) -> op_kind op ∈ sg_kinds Sg -> forall i, D !! i = Some (Partial op l) -> walk (fnds s o) (map nf l) = Some (fnds s i).
Proof.
  intros Ho. induction l as [|x l IH] using rev_ind; intros Hx Hk i Hi.
  - apply (io_operator _ _ _ (co_ids _ _ _ _ _ HC)) in Hi. cbn. congruence.
  - destruct (apply_step i op l x _ Hi) as (a & b & Ha & Hb & Hs); [by left | by apply curried_snoc |]. rewrite map_app. cbn [map]. rewrite walk_snoc, (IH ltac:(intros y j Hy; apply Hx; apply elem_of_app; by left) Hk a Ha). cbn [mbind option_bind].
    rewrite (Hx x b); [done | apply elem_of_app; right; by left | done].
Qed.
Lemma operator_known l : forall op i, D !! i = Some (Partial op l) -> op_kind op ∈ sg_kinds Sg -> exists o, d_nodeIds s !! Operator op = Some o.
Proof.
  induction l as [|x l IH] using rev_ind; intros op i Hi Hk; [exists i; by apply (io_operator _ _ _ (co_ids _ _ _ _ _ HC)) |]. destruct (apply_step i op l x _ Hi) as (a & b & Ha & _); [by left | by apply curried_snoc |]. by eapply IH.
Qed.
(** The value of a term that the engine has is its class. *)
Lemma nf_known t : forall i, D !! i = Some (Full t) -> nf t = VClass (fnds s i).
Proof.
  assert (Hleaf : forall u i, D !! i = Some (Full u) -> leaf_val u = VClass (fnds s i)) by (intros u i Hi; unfold leaf_val; by rewrite (io_full _ _ _ (co_ids _ _ _ _ _ HC) i u Hi)).
  induction t as [x|c|b|op|op args IH|a b IHa IHb] using term_ind'; intros i Hi; cbn [nf]; try (by apply Hleaf).
  - destruct (curried Sg op args) eqn:Hcur; [| by apply Hleaf]. destruct args as [|x l _] using rev_ind; [done |]. assert (Hk : op_kind op ∈ sg_kinds Sg) by (unfold curried in Hcur; destruct (l ++ [x]); [done | by apply bool_decide_eq_true in Hcur]).
    destruct (apply_step i op l x _ Hi) as (a & b & Ha & Hb & Hs); [by right | done |]. destruct (operator_known l op a Ha Hk) as [o Ho]. unfold apply_val. rewrite Ho. cbn [mbind option_bind]. rewrite Forall_forall in IH.
    rewrite map_app. cbn [map]. rewrite walk_snoc, (walk_partial op o l Ho) with (i := a); [| intros y j Hy; apply IH; apply elem_of_app; by left | done | done]. cbn [mbind option_bind]. rewrite (IH x ltac:(apply elem_of_app; right; by left) b Hb), Hs. done.
  - destruct (node_of i _ Hi) as (info & Hn & Ha & _). assert (exists p, nd_application info = Some p /\ oty p = APP_EQUALITY /\ D !! oa p = Some (Full a) /\ D !! ob p = Some (Full b)) as (p & Hp & Ety & Hoa & Hob).
    { inversion Ha as [t Hl E1 E2 | op' E1 E2 | a' op' l' x' Et Hk Da Db Bx E1 E2 | a' u v Et Da Db Bu Bv E1 E2]; subst; [done | | by exists a']. unfold apply_part in E2. by destruct (S (length l') =? sg_arity Sg op'). }
    rewrite (IHa _ Hoa), (IHb _ Hob). destruct (closed_congr i p) as (g & Hg & Hf); [by exists info |]. unfold key in Hg. rewrite Ety in Hg. unfold equal_val. cbn [equal_found VClass]. rewrite Hg. by rewrite Hf.
Qed.
Lemma nf_true : leaf_val d_true = VClass d_trueId.
Proof.
  pose proof (no_true _ _ _ (co_nodes _ _ _ _ _ HC)) as Ht. destruct (co_inv _ _ _ _ _ HC) as (HM & _). change (nf d_true = VClass d_trueId). rewrite (nf_known _ _ Ht), (mid_const _ _ _ _ _ HM); [done |]. apply (st_true _ _ (mid_static _ _ _ _ _ HM)).
Qed.
Lemma nf_false : leaf_val d_false = VClass d_falseId.
Proof.
  pose proof (no_false _ _ _ (co_nodes _ _ _ _ _ HC)) as Ht. destruct (co_inv _ _ _ _ _ HC) as (HM & _). change (nf d_false = VClass d_falseId). rewrite (nf_known _ _ Ht), (mid_const _ _ _ _ _ HM); [done |]. apply (st_false _ _ (mid_static _ _ _ _ _ HM)).
Qed.

(** ** Constants *)
Lemma const_is_leaf c : isConst c = true -> nf c = leaf_val c.
Proof. by destruct c. Qed.
Lemma const_known c i : isConst c = true -> d_nodeIds s !! c = Some i -> D !! i = Some (Full c) /\ isC s i = true /\ fnds s i = i.
Proof.
  intros Hc Hi. assert (Hp : D !! i = Some (Full c)) by (rewrite (io_part _ _ _ (co_ids _ _ _ _ _ HC) c i Hi) by apply not_elem_of_nil; by destruct c). split; [done |]. destruct (node_of i _ Hp) as (info & Hn & _ & Hk).
  assert (isC s i = true) as Hci by (unfold isC; by rewrite Hn, Hk). split; [done |]. destruct (co_inv _ _ _ _ _ HC) as (HM & _). by apply (mid_const _ _ _ _ _ HM).
Qed.
Lemma const_nf c : isConst c = true -> const_val (nf c) = true.
Proof. intros Hc. rewrite const_is_leaf by done. unfold leaf_val. destruct (d_nodeIds s !! c) as [i|] eqn:Ei; [| done]. destruct (const_known c i Hc Ei) as (_ & Hi & E). cbn. by rewrite E. Qed.
Lemma const_distinct c d : isConst c = true -> isConst d = true -> nf c = nf d -> c = d.
Proof.
  intros Hc Hd. rewrite !const_is_leaf by done. unfold leaf_val. destruct (d_nodeIds s !! c) as [i|] eqn:Ei, (d_nodeIds s !! d) as [j|] eqn:Ej; intros [= E]; [| done].
  destruct (const_known c i Hc Ei) as (Pi & _ & Fi), (const_known d j Hd Ej) as (Pj & _ & Fj). congruence.
Qed.
(** ** The congruence of the values *)
Lemma nf_congruence : Congruence Sg (fun a b => nf a = nf b).
Proof.
  split.
  - split; [by intros x | by intros x y | intros x y z H1 H2; by rewrite H1].
  - intros op l l' Hcur Hl. cbn [nf]. assert (map nf l = map nf l') as <- by (clear Hcur; induction Hl; cbn; congruence).
    assert (curried Sg op l' = true) as -> by (unfold curried in *; by destruct Hl). by rewrite Hcur.
  - intros a a' b b' Ha Hb. cbn [nf]. by rewrite Ha, Hb.
  - intros a b Hab. cbn [nf d_true]. change (leaf_val (BoolConstant true)) with (leaf_val d_true). unfold equal_val. destruct (equal_found (nf a) (nf b)) as [g|] eqn:Eg; [| by rewrite decide_True]. rewrite <- Hab in Eg.
    unfold equal_found in Eg. destruct (nf a) as [[x|]|]; try done. rewrite nf_true. f_equal. f_equal. by apply (closed_eq _ _ Eg).
  - intros a b c d Hc Hd Hne Ha Hb. cbn [nf d_false]. change (leaf_val (BoolConstant false)) with (leaf_val d_false). rewrite Ha, Hb. pose proof (const_nf c Hc) as Kc. pose proof (const_nf d Hd) as Kd.
    assert (Hcd : nf c <> nf d) by (intros E; by apply Hne, const_distinct). unfold equal_val. destruct (equal_found (nf c) (nf d)) as [g|] eqn:Eg; [| by rewrite decide_False, Kc, Kd].
    unfold equal_found in Eg. destruct (nf c) as [[x|]|]; try done. destruct (nf d) as [[y|]|]; try done. rewrite nf_false. f_equal. f_equal. apply (closed_eq _ _ Eg); [done | cbn; congruence | done | done].
Qed.
(** The facts hold. *)
Hypothesis Hfacts : forall a b r, (a, b, r) ∈ F -> exists i j, D !! i = Some (Full a) /\ D !! j = Some (Full b) /\ fnds s i = fnds s j.
Lemma entails_nf a b : entails Sg F a b -> nf a = nf b.
Proof. intros H. apply (H _ nf_congruence). intros [[x y] r] Hin. destruct (Hfacts x y r Hin) as (i & j & Hi & Hj & E). cbn [fst snd]. by rewrite (nf_known _ _ Hi), (nf_known _ _ Hj), E. Qed.
Lemma model_consistent : ~ inconsistent Sg F.
Proof. intros (c & d & Hc & Hd & Hne & He). by apply Hne, const_distinct, entails_nf. Qed.
Lemma model_complete a b i j : D !! i = Some (Full a) -> D !! j = Some (Full b) -> entails Sg F a b -> fnds s i = fnds s j.
Proof. intros Hi Hj He%entails_nf. rewrite (nf_known _ _ Hi), (nf_known _ _ Hj) in He. by injection He. Qed.
Lemma model_sound a b i j : D !! i = Some (Full a) -> D !! j = Some (Full b) -> fnds s i = fnds s j -> entails Sg F a b.
Proof.
  intros Hi Hj E. destruct (co_inv _ _ _ _ _ HC) as (HM & _). pose proof (no_length _ _ _ (co_nodes _ _ _ _ _ HC)) as Hl. pose proof (so_find _ _ (mid_sound _ _ _ _ _ HM) i j) as HJ.
  destruct (J_part Sg F D i j (Full a)) as (q & Hq' & P); [apply HJ; [rewrite <- Hl; by eapply lookup_lt_Some | rewrite <- Hl; by eapply lookup_lt_Some | done] | done |]. rewrite Hj in Hq'. by injection Hq' as <-.
Qed.
End model.
