(* ===== verification/EqualityEngineCorrect.v ===== *)
(** * Sessions of the equality engine

    Any sequence of additions, assertions, pushes and pops: the engine detects an
    inconsistency exactly when the facts in scope are inconsistent, and otherwise decides
    equality and disequality of any two terms; a pop restores the state of its push. *)

From S2P Require Import Prelude EqualityEngine EqualityClasses EqualityBacktrack EqualityClosure EqualityPropagate EqualityNodes EqualityTerms EqualityAdd EqualityModel.
Local Open Scope nat_scope.

(** ** Sessions *)
Inductive Command : Set :=
  | AddTerm (t : Term)
  | AssertEquality (a b : Term) (polarity : bool) (reason : option Term) (pid : MergeReasonType)
  | AssertPredicate (t : Term) (polarity : bool) (reason : option Term) (pid : MergeReasonType)
  | MergePredicates (p q : Term) (reason : option Term)
  | Push
  | Pop.
Definition exec (c : Command) : EM unit :=
  match c with
  | AddTerm t => addTerm t
  | AssertEquality a b polarity reason pid => assertEquality a b polarity reason pid
  | AssertPredicate t polarity reason pid => assertPredicate t polarity reason pid
  | MergePredicates p q reason => mergePredicates p q reason
  | Push => push
  | Pop => pop
  end.
Fixpoint exec_all (cmds : list Command) : EM unit := match cmds with [] => mret tt | c :: cmds => _ ← exec c; exec_all cmds end.
(** The depth of scopes after the commands; [None] when one pops too much. *)
Fixpoint levels (n : nat) (cmds : list Command) : option nat :=
  match cmds with
  | [] => Some n
  | Push :: cmds => levels (S n) cmds
  | Pop :: cmds => match n with O => None | S n => levels n cmds end
  | _ :: cmds => levels n cmds
  end.

Section sessions.
Context (Sg : Signature).
(** The fact that a command asserts. *)
Definition fact (c : Command) : option Fact :=
  match c with
  | AssertEquality a b true reason _ => Some (a, b, reason)
  | AssertEquality a b false reason _ => Some (Equal a b, d_false, reason)
  | AssertPredicate t polarity reason _ => Some (t, BoolConstant polarity, reason)
  | MergePredicates p q reason => Some (p, q, reason)
  | _ => None
  end.
(** The types of reason that are not the engine's own. *)
Definition asserted_type (pid : MergeReasonType) : bool := match pid with MERGED_THROUGH_CONGRUENCE | MERGED_THROUGH_REFLEXIVITY | MERGED_THROUGH_CONSTANTS => false | _ => true end.
Definition wf_pid (c : Command) : bool := match c with AssertEquality _ _ _ _ pid | AssertPredicate _ _ _ pid => asserted_type pid | _ => true end.
Definition wf_command (c : Command) : bool :=
  wf_pid c && match c with AddTerm t => wf Sg t | AssertPredicate (Equal _ _) _ _ _ => false | _ => match fact c with Some f => wf_fact Sg f | None => true end end.
(** The equality of the terms, in one order or the other, is false. *)
Definition disequal (F : Facts) (a b : Term) : Prop := entails Sg F (Equal a b) d_false \/ entails Sg F (Equal b a) d_false.
(** The facts of the scopes, the innermost first; a disequality that holds need not be one. *)
Inductive Scoped : list Facts -> Command -> list Facts -> Prop :=
  | sc_add Fs t : Scoped Fs (AddTerm t) Fs
  | sc_fact F Fs c f : fact c = Some f -> Scoped (F :: Fs) c ((f :: F) :: Fs)
  | sc_disequal F Fs a b reason pid : disequal F a b -> Scoped (F :: Fs) (AssertEquality a b false reason pid) (F :: Fs)
  | sc_push F Fs : Scoped (F :: Fs) Push (F :: F :: Fs)
  | sc_pop F Fs : Scoped (F :: Fs) Pop Fs.
Inductive Scopes : list Facts -> list Command -> list Facts -> Prop :=
  | scs_nil Fs : Scopes Fs [] Fs
  | scs_cons Fs1 Fs2 Fs3 c cmds : Scoped Fs1 c Fs2 -> Scopes Fs2 cmds Fs3 -> Scopes Fs1 (c :: cmds) Fs3.

(** ** States *)
(** The engine can be asked. *)
Record Safe (s : EqualityEngine) : Prop := {
  sf_shape : Shape s;
  sf_counted : Counted s;
  sf_classes : Classes (d_equalityNodes s);
  sf_queue : d_propagationQueue s = [];
  sf_ids t i : d_nodeIds s !! t = Some i -> i < nodes_of s;
  sf_false : d_falseId < nodes_of s;
  sf_lookup k g : d_applicationLookup s !! k = Some g -> g < nodes_of s
}.
Definition Holds (F : Facts) (D : list Part) (s : EqualityEngine) : Prop := forall a b r, (a, b, r) ∈ F -> exists i j, D !! i = Some (Full a) /\ D !! j = Some (Full b) /\ fnds s i = fnds s j.
Definition Good (F : Facts) (s : EqualityEngine) : Prop := exists D, Core Sg F [] D s /\ Holds F D s.
(** Distinct constants are connected in the graph. *)
Definition Bad (F : Facts) (s : EqualityEngine) : Prop := inconsistent Sg F /\ exists D, NodesOk Sg D (d_nodes s) /\ IdsOk [] D (d_nodeIds s) /\ Broken (B Sg D) (asserted F D) s.
Record State (F : Facts) (s : EqualityEngine) : Prop := {
  sta_facts : forallb (wf_fact Sg) F = true;
  sta_safe : Safe s;
  sta_good : d_done (d_counters s) = false /\ Good F s \/ d_done (d_counters s) = true /\ Bad F s
}.
Lemma core_safe F D s : Core Sg F [] D s -> d_propagationQueue s = [] -> Safe s.
Proof.
  intros HC Hq. pose proof HC as [(HM & HCl & Hd) HN Hi Hk]. split; try done; [apply HM | apply HM | | |].
  - intros t i Hti. rewrite <- (no_length _ _ _ HN). eapply lookup_lt_Some. apply (io_part _ _ _ Hi t i Hti), not_elem_of_nil.
  - apply isC_lt, HM.
  - intros k g Hk'. destruct (so_lookup _ _ (mid_sound _ _ _ _ _ HM) k g Hk') as (q & Hg & _). by eapply app_lt.
Qed.
Lemma state_dec F s : State F s -> (d_done (d_counters s) = true <-> inconsistent Sg F).
Proof.
  intros [_ HS [[Hd (D & HC & HH)] | [Hd [Hi _]]]]; [| done]. rewrite Hd. split; [done |]. intros Hin. destruct (model_consistent Sg s F D HC (sf_queue _ HS) HH Hin).
Qed.
Lemma good_term F D s t i : Core Sg F [] D s -> wf Sg t = true -> d_nodeIds s !! t = Some i -> D !! i = Some (Full t).
Proof. intros HC Hw Hi. rewrite <- (wf_part Sg t Hw). apply (io_part _ _ _ (co_ids _ _ _ _ _ HC)); [done | apply not_elem_of_nil]. Qed.

(** ** Queries *)
Lemma safe_find s i : Safe s -> i < nodes_of s -> fnds s i < nodes_of s.
Proof. intros HS. rewrite <- (shape_vec _ (sf_shape _ HS)). intros Hi. by apply (classes_find _ (sf_classes _ HS)). Qed.
Lemma areEqual_run s t1 t2 i j : Safe s -> d_nodeIds s !! t1 = Some i -> d_nodeIds s !! t2 = Some j -> areEqual t1 t2 s = Ok (fnds s i =? fnds s j, s).
Proof.
  intros HS H1 H2. unfold areEqual. rewrite (run_id _ i), (run_id _ j) by done. rewrite !run_find by (rewrite (shape_vec _ (sf_shape _ HS)); by eapply (sf_ids _ HS)). done.
Qed.
Definition found_false (s : EqualityEngine) (a b : nat) : bool :=
  match d_applicationLookup s !! MkApplication APP_EQUALITY a b with Some e => fnds s e =? fnds s d_falseId | None => false end.
Lemma known_false_run s a b : Safe s -> known_false a b s = Ok (found_false s a b, s).
Proof.
  intros HS. unfold known_false, found_false. rewrite run_gets. destruct (_ !! _) as [e|] eqn:Ee; [| done]. rewrite !run_find; [done | |]; rewrite (shape_vec _ (sf_shape _ HS)); first [exact (sf_false _ HS) | exact (sf_lookup _ HS _ _ Ee)].
Qed.
Definition found_disequal (s : EqualityEngine) (a b : nat) : bool := isC s a && isC s b && negb (a =? b) || found_false s a b || found_false s b a.
Lemma areDisequal_run s t1 t2 i j : Safe s -> d_nodeIds s !! t1 = Some i -> d_nodeIds s !! t2 = Some j -> areDisequal t1 t2 s = Ok (found_disequal s (fnds s i) (fnds s j), s).
Proof.
  intros HS H1 H2. pose proof (sf_ids _ HS _ _ H1) as Hi. pose proof (sf_ids _ HS _ _ H2) as Hj. unfold areDisequal. rewrite (run_id _ i), (run_id _ j) by done. rewrite !run_find by (by rewrite (shape_vec _ (sf_shape _ HS))).
  destruct (lookup_lt_is_Some_2 _ _ (safe_find s i HS Hi)) as [c1 C1], (lookup_lt_is_Some_2 _ _ (safe_find s j HS Hj)) as [c2 C2]. rewrite (run_info _ c1), (run_info _ c2) by done. unfold found_disequal, isC. rewrite C1, C2.
  destruct (nd_isConstant c1 && nd_isConstant c2 && negb (fnds s i =? fnds s j)); [done |]. cbn [orb]. rewrite (run_bind (known_false_run s _ _ HS)). destruct (found_false s (fnds s i) (fnds s j)); [done |]. apply known_false_run, HS.
Qed.
Section answers.
Context (F : Facts) (D : list Part) (s : EqualityEngine).
Hypothesis HC : Core Sg F [] D s.
Hypothesis Hq : d_propagationQueue s = [].
Hypothesis HH : Holds F D s.
Lemma part_lt i p : D !! i = Some p -> i < nodes_of s.
Proof. intros Hi. rewrite <- (no_length _ _ _ (co_nodes _ _ _ _ _ HC)). by eapply lookup_lt_Some. Qed.
Lemma rep_J i : i < nodes_of s -> J Sg F D (fnds s i) i /\ fnds s (fnds s i) = fnds s i.
Proof.
  intros Hi. destruct (co_inv _ _ _ _ _ HC) as (HM & _). destruct (mid_find _ _ _ _ _ HM i Hi) as [Hlt Hid]. split; [| done]. by apply (so_find _ _ (mid_sound _ _ _ _ _ HM)).
Qed.
Lemma found_false_sound a b i j : D !! i = Some (Full a) -> D !! j = Some (Full b) -> found_false s (fnds s i) (fnds s j) = true -> entails Sg F (Equal a b) d_false.
Proof.
  intros Hi Hj Hf. unfold found_false in Hf. destruct (d_applicationLookup s !! _) as [e|] eqn:Ee; [| done]. apply Nat.eqb_eq in Hf. destruct (co_inv _ _ _ _ _ HC) as (HM & _). pose proof (co_nodes _ _ _ _ _ HC) as HN. pose proof (J_equiv Sg F D) as HE.
  destruct (so_lookup _ _ (mid_sound _ _ _ _ _ HM) _ _ Ee) as (q & Hq' & Ety & Ja & Jb & _). cbn [fa_type fa_a fa_b] in *. rewrite (proj1 (rep_J i (part_lt _ _ Hi))) in Ja. rewrite (proj1 (rep_J j (part_lt _ _ Hj))) in Jb.
  destruct (app_node Sg D s e q HN Hq') as (r & Hr & Ar). inversion Ar as [| | p op l x Et | p u v Et Da Db Bu Bv]; subst; [congruence |].
  destruct (J_part _ _ _ _ _ _ Ja Da) as (x & Hx & Px), (J_part _ _ _ _ _ _ Jb Db) as (y & Hy & Py). rewrite Hi in Hx. rewrite Hj in Hy. injection Hx as <-. injection Hy as <-. cbn in Px, Py.
  pose proof (model_sound Sg s F D HC _ _ _ _ Hr (no_false _ _ _ HN) Hf) as Hev. pose proof (entails_congruence Sg F) as HCg. pose proof (cg_equiv _ _ HCg). transitivity (Equal u v); [symmetry; by apply (cg_equal _ _ HCg) | done].
Qed.
Lemma found_complete a b i j : D !! i = Some (Full a) -> D !! j = Some (Full b) -> entails Sg F (Equal a b) d_false ->
  isC s (fnds s i) && isC s (fnds s j) && negb (fnds s i =? fnds s j) || found_false s (fnds s i) (fnds s j) = true.
Proof.
  intros Hi Hj He. apply (entails_nf Sg s F D HC Hq HH) in He. cbn [nf d_false] in He. change (leaf_val s (BoolConstant false)) with (leaf_val s d_false) in He. rewrite (nf_false Sg s F D HC Hq) in He. rewrite (nf_known Sg s F D HC Hq a i Hi), (nf_known Sg s F D HC Hq b j Hj) in He.
  destruct (co_inv _ _ _ _ _ HC) as (HM & _). pose proof (mid_const _ _ _ _ _ HM _ (st_false _ _ (mid_static _ _ _ _ _ HM))) as Hff. unfold equal_val in He. cbn [equal_found VClass const_val] in He. unfold found_false.
  destruct (d_applicationLookup s !! _) as [g|]; [injection He as He; rewrite Hff, He; apply orb_true_r |]. case_decide as Eij; [by rewrite (nf_true Sg s F D HC Hq) in He |].
  destruct (isC s (fnds s i) && isC s (fnds s j)); [| done]. rewrite (proj2 (Nat.eqb_neq _ _)); [done |]. intros E. apply Eij. by rewrite E.
Qed.
Lemma disequal_ok a b i j : D !! i = Some (Full a) -> D !! j = Some (Full b) -> found_disequal s (fnds s i) (fnds s j) = true <-> disequal F a b.
Proof.
  intros Hi Hj. unfold found_disequal. split.
  - intros [[[[Ca Cb]%andb_true_iff Hne%negb_true_iff%Nat.eqb_neq]%andb_true_iff | Hf]%orb_true_iff | Hf]%orb_true_iff; [left | left; by apply (found_false_sound a b i j) | right; by apply (found_false_sound b a j i)].
    pose proof (co_nodes _ _ _ _ _ HC) as HN. destruct (const_node Sg D s _ HN Ca) as (tc & Hc & Kc), (const_node Sg D s _ HN Cb) as (td & Hd & Kd).
    apply (cg_false _ _ (entails_congruence Sg F) a b tc td); [done | done | | |].
    + intros ->. apply Hne. by eapply (no_inj _ _ _ HN).
    + apply (model_sound Sg s F D HC _ _ _ _ Hi Hc). symmetry. apply rep_J. by eapply part_lt.
    + apply (model_sound Sg s F D HC _ _ _ _ Hj Hd). symmetry. apply rep_J. by eapply part_lt.
  - intros [He | He].
    + rewrite (found_complete a b i j Hi Hj He). done.
    + pose proof (found_complete b a j i Hj Hi He) as Hf. apply orb_true_iff in Hf as [Hf | Hf]; [| rewrite Hf; apply orb_true_r]. rewrite (andb_comm (isC s (fnds s i))), (Nat.eqb_sym (fnds s i)), Hf. done.
Qed.
Lemma equal_ok a b i j : D !! i = Some (Full a) -> D !! j = Some (Full b) -> (fnds s i =? fnds s j) = true <-> entails Sg F a b.
Proof. intros Hi Hj. rewrite Nat.eqb_eq. split; [by apply (model_sound Sg s F D HC) | by apply (model_complete Sg s F D HC Hq HH)]. Qed.
End answers.

(** ** Operations *)
Record Did (s : EqualityEngine) (F' : Facts) (s' : EqualityEngine) : Prop := {
  did_state : State F' s';
  did_saved : d_saved s' = d_saved s;
  did_ext b : Ext b s -> Ext b s'
}.
Lemma facts_sub F F' : forallb (wf_fact Sg) F' = true -> (forall p, p ∈ F -> p ∈ F') -> forallb (wf_fact Sg) F = true.
Proof. rewrite !forallb_forall. intros H Hs p Hp%list_elem_of_In. by apply H, list_elem_of_In, Hs. Qed.
Lemma peq_more F F' p q : (forall x, x ∈ F -> x ∈ F') -> peq Sg F p q -> peq Sg F' p q.
Proof.
  intros Hs. destruct p, q; cbn; try done; [intros H; by eapply entails_weaken |]. intros [-> H]. split; [done |]. eapply Forall2_impl; [exact H |]. intros x y Hxy. by eapply entails_weaken.
Qed.
Lemma J_more F F' D i j : (forall x, x ∈ F -> x ∈ F') -> J Sg F D i j -> J Sg F' D i j.
Proof. intros Hs [-> | (p & q & Hp & Hq & H)]; [by left |]. right. exists p, q. split; [done |]. split; [done |]. by eapply peq_more. Qed.
Lemma inconsistent_more F F' : (forall x, x ∈ F -> x ∈ F') -> inconsistent Sg F -> inconsistent Sg F'.
Proof. intros Hs (c & d & Hc & Hd & Hne & He). exists c, d. split; [done |]. split; [done |]. split; [done |]. by eapply entails_weaken. Qed.
Lemma asserted_more F F' D i j r : (forall x, x ∈ F -> x ∈ F') -> asserted F D i j r -> asserted F' D i j r.
Proof. intros Hs (a & b & Ha & Hb & Hf). exists a, b. split; [done |]. split; [done | by apply Hs]. Qed.
Lemma bad_more F F' s : (forall x, x ∈ F -> x ∈ F') -> Bad F s -> Bad F' s.
Proof.
  intros Hs (Hi & D & HN & HI & HB). split; [by eapply inconsistent_more |]. exists D. split; [done |]. split; [done |]. eapply broken_grow; [| exact HB]. intros i j r. by apply asserted_more.
Qed.
Lemma core_more F F' O D s : forallb (wf_fact Sg) F' = true -> (forall x, x ∈ F -> x ∈ F') -> Core Sg F O D s -> Core Sg F' O D s.
Proof.
  intros HF Hs [([HS HCn HR HSo HXp Hfi Hco Hno Hcg Heq] & HCl & Hd) HN Hi Hk]. split; try done. split; [| done]. split; try done; [by apply nodes_respect | | by eapply expl_grow; [intros i j r; by apply asserted_more |]]. destruct HSo as [S1 S2 S3]. split.
  - intros i j H1 H2 H3. eapply J_more; [done |]. by apply S1.
  - intros c Hc. destruct (S2 c Hc) as (? & ? & ?). split; [done |]. split; [done |]. by eapply J_more.
  - intros k g Hkg. destruct (S3 k g Hkg) as (q & Hq & Ht & Ha & Hb & Hr). exists q. split; [done |]. split; [done |]. split; [by eapply J_more |]. split; [by eapply J_more | done].
Qed.
Lemma bad_cons f F s : Bad F s -> Bad (f :: F) s.
Proof. apply bad_more. intros x Hx. by right. Qed.
Lemma facts_cons f F : wf_fact Sg f = true -> forallb (wf_fact Sg) F = true -> forallb (wf_fact Sg) (f :: F) = true.
Proof. intros Hf HF. cbn. by rewrite Hf. Qed.
Lemma propagate_empty s : d_propagationQueue s = [] -> propagate s = Ok (tt, s).
Proof. intros Hq. unfold propagate. cbn [propagate_loop]. by rewrite run_gets, Hq. Qed.
Lemma closed_fnd F D s i j : Core Sg F [] D s -> d_propagationQueue s = [] -> i < length D -> j < length D -> eqvs s i j -> fnds s i = fnds s j.
Proof.
  intros HC Hq Hi Hj. rewrite Hq. rewrite (no_length _ _ _ (co_nodes _ _ _ _ _ HC)) in Hi, Hj. destruct (co_inv _ _ _ _ _ HC) as (HM & _). pose proof (shape_vec _ (st_shape _ _ (mid_static _ _ _ _ _ HM))) as Hl. apply eqv_nil; by rewrite Hl.
Qed.
Lemma fnd_eqv F D s i j : Core Sg F [] D s -> i < length D -> j < length D -> fnds s i = fnds s j -> eqvs s i j.
Proof.
  intros HC Hi Hj. rewrite (no_length _ _ _ (co_nodes _ _ _ _ _ HC)) in Hi, Hj. destruct (co_inv _ _ _ _ _ HC) as (HM & _). pose proof (shape_vec _ (st_shape _ _ (mid_static _ _ _ _ _ HM))) as Hl. apply eqv_find; by rewrite Hl.
Qed.
(** The facts keep holding. *)
Lemma holds_steps F F' O D s D' s' : Core Sg F [] D s -> Core Sg F' [] D' s' -> d_propagationQueue s' = [] -> Steps O D s D' s' -> Holds F D s -> Holds F D' s'.
Proof.
  intros HC HC' Hq HS HH a b r Hab. destruct (HH a b r Hab) as (i & j & Hi & Hj & E). exists i, j. pose proof (steps_part _ _ _ _ _ _ _ HS Hi) as Hi'. pose proof (steps_part _ _ _ _ _ _ _ HS Hj) as Hj'. split; [done |]. split; [done |].
  apply (closed_fnd F' D'); [done | done | by eapply lookup_lt_Some | by eapply lookup_lt_Some |]. apply HS. eapply fnd_eqv; [done | by eapply lookup_lt_Some | by eapply lookup_lt_Some | done].
Qed.
Lemma add_state F s t : State F s -> wf Sg t = true -> exists s', addTerm t s = Ok (tt, s') /\ Did s F s' /\ (d_done (d_counters s) = false -> d_done (d_counters s') = false /\ is_Some (d_nodeIds s' !! t)) /\
  (d_done (d_counters s) = false -> forall u, wf Sg u = true -> is_Some (d_nodeIds s !! u) -> is_Some (d_nodeIds s' !! u)).
Proof.
  intros HSt Hw. pose proof HSt as [HF HS [[Hd (D & HC & HH)] | [Hd Hi]]]; unfold addTerm.
  - destruct (add_term_ok Sg F HF (model_consistent Sg s F D HC (sf_queue _ HS) HH) t [] D s Hw HC) as (s' & D' & i & E & HC' & HSp & Hti & Hq); [intros o Ho; by apply not_elem_of_nil in Ho |]. specialize (Hq (sf_queue _ HS)). exists s'. split; [done |]. split; [| split].
    + split; [split; [done | by eapply core_safe | left; split; [by eapply core_done |]; exists D'; split; [done | by apply (holds_steps F F [] D s)]] | apply HSp |]. intros b HX. apply HSp; [done |]. intros o Ho. by apply not_elem_of_nil in Ho.
    + intros _. split; [by eapply core_done |]. exists i. by eapply core_id.
    + intros _ u Hu [j Hj]. exists j. eapply core_id; [done |]. eapply steps_part; [done |]. by eapply good_term.
  - exists s. split; [| split; [by split | by rewrite Hd]]. rewrite addTermInternal_eq, run_hasTerm. destruct (bool_decide _); [done |]. unfold is_done. by rewrite run_gets, Hd.
Qed.
Lemma assert_state F s t1 t2 reason pid : State F s -> wf_fact Sg (t1, t2, reason) = true -> asserted_type pid = true -> exists s', (_ ← assertEqualityInternal t1 t2 reason pid; propagate) s = Ok (tt, s') /\ Did s ((t1, t2, reason) :: F) s'.
Proof.
  intros HSt Hw Hpid. pose proof HSt as [HF HS HG]. pose proof (facts_cons _ _ Hw HF) as HF'. unfold assertEqualityInternal. destruct HG as [[Hd (D & HC & HH)] | [Hd Hi]].
  - unfold wf_fact in Hw. cbn [fst snd] in Hw. apply andb_true_iff in Hw as [[W1 W2]%andb_true_iff _]. pose proof (model_consistent Sg s F D HC (sf_queue _ HS) HH) as Hcons.
    assert (Hno : forall t : Term, forall o, o ∈ @nil Term -> tsize t < tsize o) by (intros t o Ho; by apply not_elem_of_nil in Ho).
    destruct (add_term_ok Sg F HF Hcons t1 [] D s W1 HC (Hno t1)) as (s1 & D1 & i & E1 & HC1 & HS1 & Hi & Hq1). specialize (Hq1 (sf_queue _ HS)).
    destruct (add_term_ok Sg F HF Hcons t2 [] D1 s1 W2 HC1 (Hno t2)) as (s2 & D2 & j & E2 & HC2 & HS2 & Hj & Hq2). specialize (Hq2 Hq1). pose proof (steps_part _ _ _ _ _ _ _ HS2 Hi) as Hi2.
    assert (HS12 := steps_trans _ _ _ _ _ _ _ HS1 HS2). assert (HH2 : Holds F D2 s2) by (by apply (holds_steps F F [] D s)). set (c := MkCandidate i j pid reason).
    assert (HC3 : Core Sg ((t1, t2, reason) :: F) [] D2 (put_queue (d_propagationQueue s2 ++ [c]) s2)).
    { apply (core_more F ((t1, t2, reason) :: F)) in HC2 as [(HM & HCl & Hd2) HN Hids Hk]; [| done | intros x Hx; by right]. split; try done. split; [| done]. assert (Hl := no_length _ _ _ HN). apply enqueue_mid; [done | rewrite <- Hl; by eapply lookup_lt_Some | rewrite <- Hl; by eapply lookup_lt_Some | |]; [right | assert (asserted ((t1, t2, reason) :: F) D2 i j reason) by (exists t1, t2; split; [done |]; split; [done | by left]); by destruct pid]. exists (Full t1), (Full t2). split; [done |]. split; [done |]. apply (entails_fact _ _ _ _ reason). by left. }
    assert (Er : forall X (k : unit -> EM X), (mbind k (done ← is_done; if done : bool then mret tt else _ ← addTermInternal t1; _ ← addTermInternal t2; i1 ← getNodeId t1; i2 ← getNodeId t2; enqueue (MkCandidate i1 i2 pid reason))) s = k tt (put_queue (d_propagationQueue s2 ++ [c]) s2)).
    { intros X k. apply run_bind. unfold is_done. rewrite run_gets, Hd, (run_bind E1), (run_bind E2), (run_id _ i), (run_id _ j) by (by eapply core_id). done. }
    rewrite Er. clear Er. destruct (propagate_ok _ _ _ _ (co_inv _ _ _ _ _ HC3)) as (s3 & E3 & [Fk Fi Fn Fu Fs Fsh Fc Fcl Fx] & Hq & Hor). exists s3. split; [done |].
    assert (Hx3 : forall b, Ext b s -> Ext b s3) by (intros b HX; apply Fx, ext_queue; apply HS12; [done |]; intros o Ho; by apply not_elem_of_nil in Ho). assert (Hsv : d_saved s3 = d_saved s) by (rewrite Fs; apply HS12).
    destruct Hor as [[HI3 Hmono] | (Hd3 & HCf & HBr & Hlk)].
    + assert (HC3' : Core Sg ((t1, t2, reason) :: F) [] D2 s3) by (destruct HC3 as [_ HN3 Hi3 Hk3]; split; [done | by rewrite Fn | by rewrite Fi | by rewrite Fk]). split; [| done | done]. split; [done | by eapply core_safe |]. left. split; [apply HI3 |]. exists D2. split; [done |].
      assert (Hst : Steps [] D2 s2 D2 s3). { split; [done | | done | intros b HX _; by apply Fx, ext_queue]. intros x y Hxy. apply Hmono. eapply eqv_mono; [exact Hxy |]. intros d Hdd. apply elem_of_app. by left. }
      intros a b r [[= -> -> ->] | Hab]%elem_of_cons; [| by apply (holds_steps F ((t1, t2, reason) :: F) [] D2 s2 D2 s3 HC2 HC3' Hq Hst HH2 a b r)]. exists i, j. split; [done |]. split; [done |]. eapply closed_fnd; [done | done | by eapply lookup_lt_Some | by eapply lookup_lt_Some |]. apply Hmono.
      apply (eqv_queue _ _ c). apply elem_of_app. right. by left.
    + split; [| done | done]. pose proof (core_safe F D2 s2 HC2 Hq2) as HS2'. split; [done | |].
      * split; try done; [intros t k; rewrite Fi, Fn; apply HS2' | rewrite Fn; apply HS2'].
      * assert (HN3 : NodesOk Sg D2 (d_nodes s3)) by (rewrite Fn; apply HC3). right. split; [done |]. split; [by eapply (conflict_inconsistent Sg ((t1, t2, reason) :: F) D2 s3) |]. exists D2. split; [done |]. split; [rewrite Fi; apply HC3 | done].
  - exists s. unfold is_done. split; [| split; [split; [done | done | right; split; [done | by apply bad_cons]] | done | done]]. rewrite (run_bind (a := tt) (s1 := s)); [by apply propagate_empty, HS |]. rewrite run_gets, Hd. done.
Qed.
Lemma both_known_run s a b q : Safe s -> exists r, (r = true -> (exists i, d_nodeIds s !! a = Some i) /\ exists j, d_nodeIds s !! b = Some j) /\ both_known a b q s = if r : bool then q s else Ok (false, s).
Proof.
  intros HS. unfold both_known. rewrite !run_hasTerm. destruct (d_nodeIds s !! a) as [i|], (d_nodeIds s !! b) as [j|].
  - exists true. split; [intros _; split; by eexists |]. by rewrite !bool_decide_eq_true_2 by (by eexists).
  - exists false. split; [done |]. rewrite (bool_decide_eq_false_2 (is_Some None)) by (by intros [? ?]). by rewrite andb_false_r.
  - exists false. split; [done |]. by rewrite (bool_decide_eq_false_2 (is_Some None)) by (by intros [? ?]).
  - exists false. split; [done |]. by rewrite (bool_decide_eq_false_2 (is_Some None)) by (by intros [? ?]).
Qed.
Lemma bind_split (m k : EM unit) s s' : (_ ← m; k) s = Ok (tt, s') -> exists s1, m s = Ok (tt, s1) /\ k s1 = Ok (tt, s').
Proof. unfold mbind, SM_bind. destruct (m s) as [[[] s1]|e]; [| done]. intros E. by exists s1. Qed.
(** The sides of an equality that the engine has. *)
Lemma equality_known F D s a b i : Core Sg F [] D s -> D !! i = Some (Full (Equal a b)) -> (exists j, d_nodeIds s !! a = Some j) /\ exists k, d_nodeIds s !! b = Some k.
Proof.
  intros HC Hi. destruct (node_of Sg s F D HC i _ Hi) as (info & Hn & Ha & _). inversion Ha as [t Hl E1 E2 | op' E1 E2 | a' op' l' x' Et Hk Da Db Bx E1 E2 | a' u v Et Da Db Bu Bv E1 E2]; subst.
  - done.
  - unfold apply_part in E2. by destruct (S (length l') =? sg_arity Sg op').
  - split; [exists (oa a') | exists (ob a')]; by eapply core_id.
Qed.
Lemma after_disequality_run F s a b reason : State ((Equal a b, d_false, reason) :: F) s -> after_disequality a b s = Ok (tt, s).
Proof.
  intros [_ HS HG]. unfold after_disequality, is_done. rewrite run_gets. destruct HG as [[Hd (D & HC & HH)] | [Hd _]]; rewrite Hd; [| done]. destruct (HH (Equal a b) d_false reason ltac:(by left)) as (i & _ & Hi & _). destruct (equality_known _ D s a b i HC Hi) as [[ia Ha] [ib Hb]].
  rewrite (run_id _ ia), (run_id _ ib) by done. pose proof (sf_ids _ HS _ _ Ha) as La. pose proof (sf_ids _ HS _ _ Hb) as Lb. rewrite !run_find by (by rewrite (shape_vec _ (sf_shape _ HS))).
  destruct (lookup_lt_is_Some_2 _ _ (safe_find s ia HS La)) as [ca Ca], (lookup_lt_is_Some_2 _ _ (safe_find s ib HS Lb)) as [cb Cb]. rewrite (run_info _ ca), (run_info _ cb) by done. destruct (nd_isConstant ca && nd_isConstant cb); [done |]. by rewrite (run_id _ i) by (by eapply core_id).
Qed.
Lemma did_nothing F F' s : State F s -> forallb (wf_fact Sg) F' = true -> (d_done (d_counters s) = false -> Good F s -> Good F' s) -> (Bad F s -> Bad F' s) -> Did s F' s.
Proof. intros [HF HS HG] HF' Hgood Hinc. split; [| done | done]. split; [done | done |]. destruct HG as [[? ?] | [? ?]]; [left | right]; split; auto. Qed.
Lemma good_fact F s a b r i j : Good F s -> Safe s -> wf_fact Sg (a, b, r) = true -> forallb (wf_fact Sg) F = true -> d_nodeIds s !! a = Some i -> d_nodeIds s !! b = Some j -> fnds s i = fnds s j -> Good ((a, b, r) :: F) s.
Proof.
  intros (D & HC & HH) HS Hw HF Hi Hj E. exists D. split; [apply (core_more F); [by apply facts_cons | intros x Hx; by right | done] |]. unfold wf_fact in Hw. cbn [fst snd] in Hw. apply andb_true_iff in Hw as [[W1 W2]%andb_true_iff _].
  intros x y q [[= -> -> ->] | Hxy]%elem_of_cons; [| by eapply HH]. exists i, j. split; [by eapply good_term |]. split; [by eapply good_term | done].
Qed.
(** Every command but those of scopes. *)
Lemma engine_command_ok F Fs s c : State F s -> wf_command c = true -> c <> Push -> c <> Pop -> exists s' F', exec c s = Ok (tt, s') /\ Did s F' s' /\ Scoped (F :: Fs) c (F' :: Fs).
Proof.
  intros HSt Hw Hpush Hpop. unfold wf_command in Hw. apply andb_true_iff in Hw as [Hpid Hw]. pose proof HSt as [HF HS HG]. destruct c as [t|a b [] reason pid|t polarity reason pid|p q reason| |]; try done; cbn [exec].
  - destruct (add_state F s t HSt Hw) as (s' & E & HD & _). exists s', F. split; [done |]. split; [done | constructor].
  - cbn in Hw, Hpid. unfold assertEquality. destruct (both_known_run s a b (areEqual a b) HS) as (r & Hr & Er). destruct r.
    + destruct (Hr eq_refl) as [[i Hi] [j Hj]]. rewrite (areEqual_run s a b i j HS Hi Hj) in Er. rewrite (run_bind Er). destruct (Nat.eqb_spec (fnds s i) (fnds s j)) as [E | E].
      * exists s, ((a, b, reason) :: F). split; [done |]. split; [| by constructor]. apply (did_nothing F); [done | by apply facts_cons | intros _ HGd; by eapply good_fact | apply bad_cons].
      * destruct (assert_state F s a b reason pid HSt Hw Hpid) as (s' & E' & HD). exists s', ((a, b, reason) :: F). split; [done |]. split; [done | by constructor].
    + rewrite (run_bind Er). destruct (assert_state F s a b reason pid HSt Hw Hpid) as (s' & E' & HD). exists s', ((a, b, reason) :: F). split; [done |]. split; [done | by constructor].
  - cbn in Hw, Hpid. unfold assertEquality. assert (Hadd : exists s' F', (_ ← assertEqualityInternal (Equal a b) d_false reason pid; _ ← propagate; after_disequality a b) s = Ok (tt, s') /\ Did s F' s' /\ Scoped (F :: Fs) (AssertEquality a b false reason pid) (F' :: Fs)).
    { destruct (assert_state F s (Equal a b) d_false reason pid HSt Hw Hpid) as (s' & E' & HD). exists s', ((Equal a b, d_false, reason) :: F). split; [| split; [done | by constructor]]. destruct (bind_split _ _ _ _ E') as (s1 & E1 & E2). rewrite (run_bind E1), (run_bind E2). eapply after_disequality_run, HD. }
    destruct (both_known_run s a b (areDisequal a b) HS) as (r & Hr & Er). destruct r; [| rewrite (run_bind Er); exact Hadd]. destruct (Hr eq_refl) as [[i Hi] [j Hj]]. rewrite (areDisequal_run s a b i j HS Hi Hj) in Er. rewrite (run_bind Er).
    destruct (found_disequal s (fnds s i) (fnds s j)) eqn:Ed; [| exact Hadd]. destruct HG as [[Hd (D & HC & HH)] | [Hd Hin]].
    + exists s, F. split; [done |]. split; [by split |]. constructor. unfold wf_fact in Hw. cbn in Hw. rewrite !andb_true_iff in Hw. destruct Hw as [[[[[Wa Wb] _] _] _] _]. apply (disequal_ok F D s HC (sf_queue _ HS) HH a b i j); [by eapply good_term | by eapply good_term | done].
    + exists s, ((Equal a b, d_false, reason) :: F). split; [done |]. split; [| by constructor]. split; [| done | done]. split; [by apply facts_cons | done |]. right. split; [done | by apply bad_cons].
  - unfold assertPredicate. rewrite run_check by (by destruct t). assert (Hwf : wf_fact Sg (t, BoolConstant polarity, reason) = true) by (by destruct t). destruct (assert_state F s t (BoolConstant polarity) reason pid HSt Hwf Hpid) as (s' & E' & HD).
    exists s', ((t, BoolConstant polarity, reason) :: F). split; [by destruct polarity |]. split; [done | by constructor].
  - unfold mergePredicates. cbn in Hw. destruct (assert_state F s p q reason MERGED_THROUGH_EQUALITY HSt Hw eq_refl) as (s' & E' & HD). exists s', ((p, q, reason) :: F). split; [done |]. split; [done | by constructor].
Qed.

(** ** Scopes *)
Lemma good_saved F s sv : Good F s -> Good F (put_saved sv s).
Proof.
  intros (D & [(HM & HCl & Hd) HN Hi Hk] & HH). exists D. split; [| done]. split; try done. split; [| done]. destruct HM as [[[? ? ?] ? ? ? ? ? ? ? ?] HCn [? ? ? ? ?] [? ? ?] HXp Hfi Hco Hno Hcg Heq].
  split; try assumption; [split; try assumption; split; assumption | split; assumption | split; assumption | by apply (expl_same _ s)].
Qed.
Lemma state_saved F s sv : State F s -> State F (put_saved sv s).
Proof.
  intros [HF [[? ? ?] ? ? ? ? ? ?] HG]. split; [done | split; try assumption; split; assumption |]. destruct HG as [[Hd HG] | HG]; [left; split; [done | by apply good_saved] |]. right. destruct HG as (Hd & Hi & D & HN & HI & HB). split; [done |]. split; [done |]. exists D. split; [done |]. split; [done |]. by apply (broken_same _ _ s).
Qed.
(** The states that pops lead to, with their facts. *)
Fixpoint Levels (bs : list EqualityEngine) (Fs : list Facts) (s : EqualityEngine) : Prop :=
  match bs, Fs with
  | [], [] => d_saved s = []
  | b :: bs, F :: Fs => Ext b s /\ State F b /\ d_saved s = d_counters b :: d_saved b /\ Levels bs Fs b
  | _, _ => False
  end.
Definition Session (bs : list EqualityEngine) (Fs : list Facts) (s : EqualityEngine) : Prop := match Fs with F :: Fs => State F s /\ Levels bs Fs s | [] => False end.
Lemma levels_did bs Fs s F' s' : Levels bs Fs s -> Did s F' s' -> Levels bs Fs s'.
Proof.
  intros HL [_ Hsv Hx]. destruct bs as [|b bs], Fs as [|F Fs]; try done; cbn in *; [congruence |]. destruct HL as (HX & HS & Hs & HL). split; [by apply Hx |]. split; [done |]. split; [congruence | done].
Qed.
Lemma engine_pop_ok b bs Fs s : Session (b :: bs) Fs s -> exists F G Gs, Fs = F :: G :: Gs /\ pop s = Ok (tt, b) /\ Session bs (G :: Gs) b.
Proof.
  destruct Fs as [|F [|G Gs]]; try done; [by intros [] |]. intros [[_ HSs _] (HX & [HF HSb HG] & Hsv & HL)]. exists F, G, Gs. split; [done |]. split; [| by split]. unfold pop. rewrite Hsv.
  rewrite (backtrack_ok b s) by (done || apply HSs || apply HSb). by destruct b.
Qed.
Lemma engine_push_ok bs F Fs s : Session bs (F :: Fs) s -> exists s', push s = Ok (tt, s') /\ Session (s :: bs) (F :: F :: Fs) s'.
Proof.
  intros [HS HL]. eexists. split; [reflexivity |]. split; [by apply state_saved |]. split; [apply ext_saved, ext_refl, (sf_shape _ (sta_safe _ _ HS)) |]. done.
Qed.
Lemma session_run : forall cmds n m ts bs Fs s, levels n cmds = Some m -> forallb wf_command cmds = true -> Session (ts ++ bs) Fs s -> length ts = n ->
  exists s' ts' Fs', exec_all cmds s = Ok (tt, s') /\ length ts' = m /\ Session (ts' ++ bs) Fs' s' /\ Scopes Fs cmds Fs'.
Proof.
  induction cmds as [|c cmds IH]; intros n m ts bs Fs s Hl Hw HSe Hn.
  - injection Hl as <-. exists s, ts, Fs. split; [done |]. split; [done |]. split; [done | constructor].
  - cbn [forallb] in Hw. apply andb_true_iff in Hw as [Hc Hw]. cbn [exec_all]. destruct Fs as [|F Fs]; [done |].
    assert (exists s1 ts1 Fs1 n1, exec c s = Ok (tt, s1) /\ Scoped (F :: Fs) c Fs1 /\ Session (ts1 ++ bs) Fs1 s1 /\ length ts1 = n1 /\ levels n1 cmds = Some m) as (s1 & ts1 & Fs1 & n1 & E1 & Hs1 & HSe1 & Hn1 & Hl1).
    { assert (c = Push \/ c = Pop \/ c <> Push /\ c <> Pop) as [-> | [-> | [Hpush Hpop]]] by (destruct c; first [by left | by right; left | by right; right]); cbn [levels] in Hl.
      - destruct (engine_push_ok _ _ _ _ HSe) as (s1 & E1 & HSe1). exists s1, (s :: ts), (F :: F :: Fs), (S n). split; [done |]. split; [constructor |]. split; [done |]. split; [cbn; by rewrite Hn | done].
      - destruct n as [|n]; [done |]. destruct ts as [|b ts]; [done |]. destruct (engine_pop_ok b (ts ++ bs) (F :: Fs) s HSe) as (F0 & G & Gs & [= -> ->] & E1 & HSe1). exists b, ts, (G :: Gs), n. split; [done |]. split; [constructor |]. split; [done |]. split; [cbn in Hn; lia | done].
      - destruct HSe as [HSt HLv]. destruct (engine_command_ok F Fs s c HSt Hc Hpush Hpop) as (s1 & F1 & E1 & HD & Hsc). exists s1, ts, (F1 :: Fs), n. split; [done |]. split; [done |]. split; [split; [apply HD | by eapply levels_did] |]. split; [done |]. by destruct c. }
    rewrite (run_bind E1). destruct (IH n1 m ts1 bs Fs1 s1 Hl1 Hw HSe1 Hn1) as (s2 & ts2 & Fs2 & E2 & Hn2 & HSe2 & Hsc2). exists s2, ts2, Fs2. split; [done |]. split; [done |]. split; [done |]. by econstructor.
Qed.
End sessions.

(** ** The initial state *)
Definition empty_engine (kinds : list positive) : EqualityEngine := MkEE kinds ∅ [] [] [] [] ∅ [] [] [] [] (MkCounters false 0 0 0) [].
Definition initial (kinds : list positive) : EqualityEngine := noded (MkNodeInfo d_false None true false false) (noded (MkNodeInfo d_true None true false false) (empty_engine kinds)).
Lemma new_run kinds : new_EqualityEngine kinds = Ok (initial kinds).
Proof. reflexivity. Qed.
Section initial.
Context (Sg : Signature).
Abbreviation s := (initial (sg_kinds Sg)).
Lemma initial_no_app f p : ~ app_of s f p.
Proof. intros (info & Hi & Hp). destruct f as [|[|f]]; cbn in Hi; try done; injection Hi as <-; done. Qed.
Lemma initial_fnd i : fnds s i = i.
Proof. by destruct i as [|[|i]]. Qed.
Lemma initial_nodes : NodesOk Sg [Full d_true; Full d_false] (d_nodes s).
Proof.
  split; try done.
  - intros i info p Hi Hp. destruct i as [|[|i]]; cbn in *; try done; injection Hi as <-; injection Hp as <-; (split; [by constructor | done]).
  - intros i info t Hi Ht. destruct i as [|[|i]]; cbn in *; try done; injection Hi as <-; by injection Ht as <-.
  - intros i j t Hi Hj. destruct i as [|[|i]], j as [|[|j]]; cbn in *; unfold d_true, d_false in *; try done; congruence.
  - intros i t Hi. destruct i as [|[|i]]; cbn in *; try done; by injection Hi as <-.
Qed.
Lemma initial_ids : IdsOk [] [Full d_true; Full d_false] (d_nodeIds s).
Proof.
  split.
  - intros i t Hi. destruct i as [|[|i]]; cbn in *; try done; by injection Hi as <-.
  - intros i op Hi. by destruct i as [|[|i]].
  - intros t i Hi _. cbn in Hi. apply lookup_insert_Some in Hi as [[<- <-] | [_ Hi]]; [done |]. apply lookup_insert_Some in Hi as [[<- <-] | [_ Hi]]; [done |]. by rewrite lookup_empty in Hi.
  - intros t i Ht. by apply not_elem_of_nil in Ht.
Qed.
Lemma initial_mid : Mid (J Sg [] [Full d_true; Full d_false]) (B Sg [Full d_true; Full d_false]) (asserted [] [Full d_true; Full d_false]) (fun _ => False) s.
Proof.
  split; try done.
  - split; try done; [by intros f p ?%initial_no_app | | by intros f p ?%initial_no_app | | |].
    + intros i n Hn. exists []. split; [destruct i as [|[|i]]; cbn in Hn; try done; injection Hn as <-; constructor |]. intros f. split; [intros Hf; by apply not_elem_of_nil in Hf | intros (p & ?%initial_no_app & _); done].
    + intros i info Hi. destruct i as [|[|i]]; cbn in Hi; try done; by injection Hi as <-.
    + intros i info Hi. destruct i as [|[|i]]; cbn in Hi; try done; by injection Hi as <-.
    + intros i info Hi. destruct i as [|[|i]]; cbn in Hi; try done; injection Hi as <-; [exists 0 | exists 1]; (split; [reflexivity | cbn; lia]).
  - apply nodes_respect; [done | apply initial_nodes].
  - split; [| intros c Hc; by apply not_elem_of_nil in Hc | done]. intros i j Hi Hj. rewrite !initial_fnd. by left.
  - split; [split | | |]; try done.
    + intros v g Hg. exists []. split; [destruct v as [|[|v]]; cbn in Hg; try done; injection Hg as <-; constructor |]. intros e. split; [intros He; by apply not_elem_of_nil in He | by intros [w Hw]].
    + intros p Hp. by apply not_elem_of_nil in Hp.
    + intros i j _ _. rewrite !initial_fnd. split; [| intros ->; reflexivity]. intros Hij. apply (Hij eq); [apply _ |]. intros p Hp. by apply not_elem_of_nil in Hp.
    + intros c Hc. by apply not_elem_of_nil in Hc.
  - intros i Hi. rewrite !initial_fnd. done.
  - intros i _. apply initial_fnd.
  - by intros f p ?%initial_no_app.
  - by intros f p ?%initial_no_app.
Qed.
Lemma initial_classes : Classes (d_equalityNodes s).
Proof. change (d_equalityNodes s) with (([] ++ [single (length (A := EqualityNode) [])]) ++ [single (length ([] ++ [single (length (A := EqualityNode) [])]))]). apply classes_app, classes_app. split; cbn; lia. Qed.
Lemma initial_session : Session Sg [] [[]] s.
Proof.
  assert (HC : Core Sg [] [] [Full d_true; Full d_false] s) by (split; [split; [apply initial_mid | split; [apply initial_classes | done]] | apply initial_nodes | apply initial_ids | done]).
  split; [| done]. split; [done | by eapply core_safe |]. left. split; [done |]. exists [Full d_true; Full d_false]. split; [done |]. intros a b r Hab. by apply not_elem_of_nil in Hab.
Qed.
End initial.

(** ** Theorems *)
(** Add two terms, and ask for both answers. *)
Definition ask (t1 t2 : Term) : EM (bool * bool) :=
  _ ← addTerm t1; _ ← addTerm t2;
  e ← areEqual t1 t2; d ← areDisequal t1 t2;
  mret (e, d).
Lemma ask_ok Sg F s t1 t2 : State Sg F s -> wf Sg t1 = true -> wf Sg t2 = true -> ~ inconsistent Sg F ->
  exists e d s', ask t1 t2 s = Ok ((e, d), s') /\ (e = true <-> entails Sg F t1 t2) /\ (d = true <-> disequal Sg F t1 t2).
Proof.
  intros HSt W1 W2 Hcons. assert (Hd : d_done (d_counters s) = false) by (destruct (d_done (d_counters s)) eqn:E; [| done]; destruct Hcons; by apply (state_dec Sg F s HSt)).
  destruct (add_state Sg F s t1 HSt W1) as (s1 & E1 & [HS1 _ _] & H1 & _). destruct (H1 Hd) as [Hd1 K1]. destruct (add_state Sg F s1 t2 HS1 W2) as (s2 & E2 & [HS2 _ _] & H2 & Hk). destruct (H2 Hd1) as [Hd2 [j Hj]]. destruct (Hk Hd1 t1 W1 K1) as [i Hi].
  unfold ask. rewrite (run_bind E1), (run_bind E2). pose proof HS2 as [_ HSf [[_ (D & HC & HH)] | [Hd2' _]]]; [| congruence]. rewrite (run_bind (areEqual_run s2 t1 t2 i j HSf Hi Hj)), (run_bind (areDisequal_run s2 t1 t2 i j HSf Hi Hj)).
  eexists _, _, s2. split; [reflexivity |]. split; [apply (equal_ok Sg F D s2 HC (sf_queue _ HSf) HH) | apply (disequal_ok Sg F D s2 HC (sf_queue _ HSf) HH)]; by eapply good_term.
Qed.
(** C5. For a sequence of additions, assertions, pushes and pops of well-formed terms, asserted for reasons that are not of the
    engine's own types, that never pops more than was pushed:
    the engine raises no exception and terminates; it has found a conflict exactly when the facts in scope make two
    distinct constants equal; and when they do not, for any two terms [areEqual] answers true exactly when the
    equality is in the congruence closure of the facts in scope, and [areDisequal] exactly when the closure makes the equality of the
    terms, in one order or the other, false. *)
Theorem engine_decides Sg cmds m t1 t2 : levels 0 cmds = Some m -> forallb (wf_command Sg) cmds = true -> wf Sg t1 = true -> wf Sg t2 = true ->
  exists s0 s F Fs, new_EqualityEngine (sg_kinds Sg) = Ok s0 /\ exec_all cmds s0 = Ok (tt, s) /\ Scopes Sg [[]] cmds (F :: Fs) /\ (d_done (d_counters s) = true <-> inconsistent Sg F) /\
    (~ inconsistent Sg F -> exists e d s', ask t1 t2 s = Ok ((e, d), s') /\ (e = true <-> entails Sg F t1 t2) /\ (d = true <-> disequal Sg F t1 t2)).
Proof.
  intros Hl Hw W1 W2. destruct (session_run Sg cmds 0 m [] [] [[]] _ Hl Hw (initial_session Sg) eq_refl) as (s & ts & [|F Fs] & E & _ & HSe & Hsc); [done |]. destruct HSe as [HSt _].
  exists (initial (sg_kinds Sg)), s, F, Fs. split; [apply new_run |]. split; [done |]. split; [done |]. split; [by apply (state_dec Sg F s) |]. by apply ask_ok.
Qed.
(** C14. After any such sequence of commands, a push, a balanced sequence of commands and a pop lead back to
    the very state before the push: classes, graph, use lists, lookup table and ids are all restored by [backtrack]. *)
Theorem engine_pop_restores Sg pre cmds m : levels 0 pre = Some m -> levels 0 cmds = Some 0 -> forallb (wf_command Sg) (pre ++ cmds) = true ->
  exists s0 s, new_EqualityEngine (sg_kinds Sg) = Ok s0 /\ exec_all pre s0 = Ok (tt, s) /\ (_ ← exec_all (Push :: cmds); exec Pop) s = Ok (tt, s).
Proof.
  intros Hl Hb Hw. rewrite forallb_app in Hw. apply andb_true_iff in Hw as [Hw1 Hw2]. destruct (session_run Sg pre 0 m [] [] [[]] _ Hl Hw1 (initial_session Sg) eq_refl) as (s & ts & [|F Fs] & E & _ & HSe & _); [done |].
  rewrite app_nil_r in HSe. exists (initial (sg_kinds Sg)), s. split; [apply new_run |]. split; [done |]. destruct (engine_push_ok Sg ts F Fs s HSe) as (s1 & E1 & HSe1). cbn [exec_all exec].
  destruct (session_run Sg cmds 0 0 [] (s :: ts) (F :: F :: Fs) s1 Hb Hw2 HSe1 eq_refl) as (s2 & ts2 & Fs2 & E2 & Hn & HSe2 & _). destruct ts2; [| done]. destruct (engine_pop_ok Sg s ts Fs2 s2 HSe2) as (? & ? & ? & _ & E3 & _).
  erewrite run_bind; [exact E3 |]. by rewrite (run_bind E1).
Qed.

(** ** Examples *)
Definition f_op : Op := MkOp 1 1.
Definition p_op : Op := MkOp 1 2.
Definition uf_signature : Signature := MkSignature [1%positive] (fun op => if decide (op = f_op) then 2 else 1) (fun op => bool_decide (op = p_op)) (fun _ => false).
Definition ft (a b : Term) : Term := Apply f_op [a; b].
Definition uf_session : list Command :=
  [AssertEquality (ft (Var 1) (Var 2)) (Var 1) true None MERGED_THROUGH_EQUALITY; Push; AssertEquality (Var 2) (Var 3) true None MERGED_THROUGH_EQUALITY;
   AssertPredicate (Apply p_op [Var 2]) false None MERGED_THROUGH_EQUALITY; AssertEquality (Var 1) (Var 4) false None MERGED_THROUGH_EQUALITY].
Lemma engine_decides_witness : exists s0 s F Fs, new_EqualityEngine [1%positive] = Ok s0 /\ exec_all uf_session s0 = Ok (tt, s) /\ Scopes uf_signature [[]] uf_session (F :: Fs) /\ (d_done (d_counters s) = true <-> inconsistent uf_signature F) /\
    (~ inconsistent uf_signature F -> exists e d s', ask (ft (ft (Var 1) (Var 3)) (Var 2)) (Var 1) s = Ok ((e, d), s') /\ (e = true <-> entails uf_signature F (ft (ft (Var 1) (Var 3)) (Var 2)) (Var 1)) /\
      (d = true <-> disequal uf_signature F (ft (ft (Var 1) (Var 3)) (Var 2)) (Var 1))).
Proof. apply (engine_decides uf_signature uf_session 1); vm_compute; reflexivity. Defined.
Lemma engine_pop_restores_witness : exists s0 s, new_EqualityEngine [1%positive] = Ok s0 /\ exec_all uf_session s0 = Ok (tt, s) /\ (_ ← exec_all (Push :: uf_session ++ [Pop]); exec Pop) s = Ok (tt, s).
Proof. apply (engine_pop_restores uf_signature uf_session (uf_session ++ [Pop]) 1); vm_compute; reflexivity. Defined.
(** What the engine answers here. *)
Definition answer (kinds : list positive) (cmds : list Command) (t1 t2 : Term) : M (bool * bool) := s0 ← new_EqualityEngine kinds; '(a, _) ← (_ ← exec_all cmds; ask t1 t2) s0; Ok a.
Example uf_equal : answer [1%positive] uf_session (ft (ft (Var 1) (Var 3)) (Var 2)) (Var 1) = Ok (true, false).
Proof. vm_compute. reflexivity. Qed.
Example uf_popped : answer [1%positive] (uf_session ++ [Pop]) (ft (ft (Var 1) (Var 3)) (Var 2)) (Var 1) = Ok (false, false).
Proof. vm_compute. reflexivity. Qed.
Example uf_disequal : answer [1%positive] uf_session (Var 4) (ft (Var 1) (Var 3)) = Ok (false, true).
Proof. vm_compute. reflexivity. Qed.

(** ** Operators without a fixed arity *)
Definition plus_op : Op := MkOp 2 1.
Definition times_op : Op := MkOp 3 1.
Definition arith_session : list Command :=
  [AssertEquality (Apply plus_op [Var 1; Var 2]) (Constant 4) true None MERGED_THROUGH_EQUALITY; AssertEquality (Apply times_op [Var 1; Var 2]) (Constant 4) true None MERGED_THROUGH_EQUALITY].
Definition arith_facts : Facts := [(Apply plus_op [Var 1; Var 2], Constant 4, None); (Apply times_op [Var 1; Var 2], Constant 4, None)].
Definition arith_signature : Signature := MkSignature [2%positive; 3%positive] (fun _ => 0) (fun _ => false) (fun _ => false).
(** Integers, with the variables 2, 2 and 3. *)
Fixpoint arith_val (t : Term) : Z :=
  match t with
  | Var x => if decide (x = 3%positive) then 3 else 2
  | Constant c => Zpos c
  | BoolConstant b => if b then 0 else -1
  | Operator _ => 0
  | Apply op args => if decide (op = plus_op) then foldr (fun x y => Z.add (arith_val x) y) 0%Z args else foldr (fun x y => Z.mul (arith_val x) y) 1%Z args
  | Equal a b => if decide (arith_val a = arith_val b) then 0 else -1
  end%Z.
Lemma arith_congruence : Congruence arith_signature (fun a b => arith_val a = arith_val b).
Proof.
  split.
  - split; [by intros x | by intros x y | intros x y z H1 H2; by rewrite H1].
  - intros op l l' _ Hl. cbn. case_decide; induction Hl as [|x y l l' Hxy _ IH]; cbn; congruence.
  - intros a a' b b' Ha Hb. cbn. by rewrite Ha, Hb.
  - intros a b H. cbn. by rewrite decide_True.
  - intros a b c d Hc Hd Hne Ha Hb. cbn. rewrite decide_False; [done |]. rewrite Ha, Hb. destruct c as [|c|[]|?|?|?], d as [|d|[]|?|?|?]; cbn in *; congruence.
Qed.
(** An operator with applications of several lengths breaks congruence closure: a partial application of the longer one and the shorter
    application are one class, so from [x + y = 4] and [x * y = 4] the engine answers that [x + y + z] and [x * y * z] are
    equal, and they are not when [x], [y] and [z] are 2, 2 and 3. *)
Theorem variadic_unsound : let t1 := Apply plus_op [Var 1; Var 2; Var 3] in let t2 := Apply times_op [Var 1; Var 2; Var 3] in
  answer [2%positive; 3%positive] arith_session t1 t2 = Ok (true, false) /\ ~ entails arith_signature arith_facts t1 t2.
Proof.
  split; [vm_compute; reflexivity |]. intros He. specialize (He _ arith_congruence). assert (arith_val (Apply plus_op [Var 1; Var 2; Var 3]) = arith_val (Apply times_op [Var 1; Var 2; Var 3])) as E; [| by vm_compute in E].
  apply He. intros p [-> | [-> | Hp]%elem_of_cons]%elem_of_cons; [by vm_compute | by vm_compute | by apply not_elem_of_nil in Hp].
Qed.
