(* ===== verification/EqualityExplain.v ===== *)
(** * Explanations of the equality engine

    Models [explainEquality], [explainPredicate] and [getExplanation] of
    [src/theory/uf/equality_engine.cpp], without the construction of a proof ([eqp] is NULL): a
    breadth-first search through the equality graph finds the path between two nodes, and each of
    its edges adds its reason, or the explanations of the equalities it was deduced from.

    The methods are const: they read a state, and return what was added to the vector of reasons. *)

From S2P Require Import Prelude EqualityEngine.
Local Open Scope nat_scope.

Record BfsData : Set := MkBfs { nodeId : nat; edgeId : option nat; previousIndex : nat }.
Abbreviation Reasons := (list (option Term)).

Section explain.
Context (s : EqualityEngine).
(** ** Access *)
Definition at_node (i : nat) : M EqualityNode := match d_equalityNodes s !! i with Some n => Ok n | None => Throw AssertionFailed end.
Definition at_info (i : nat) : M NodeInfo := match d_nodes s !! i with Some n => Ok n | None => Throw OutOfBounds end.
Definition at_edge (e : nat) : M EqualityEdge := match d_equalityEdges s !! e with Some x => Ok x | None => Throw OutOfBounds end.
Definition at_application (i : nat) : M FunctionApplication :=
  info ← at_info i; match nd_application info with Some p => Ok (original p) | None => Throw OutOfBounds end.
Definition id_of (t : Term) : M nat := match d_nodeIds s !! t with Some i => Ok i | None => Throw AssertionFailed end.
Definition isConstant (i : nat) : M bool := n ← at_node i; info ← at_info (d_findId n); Ok (nd_isConstant info).
(** [getNumChildren] and [operator[]] *)
Definition children (t : Term) : list Term := match t with Apply _ args => args | Equal a b => [a; b] | _ => [] end.

(** ** The search *)
(** [(currentEdge | 1u) != (current.edgeId | 1u)]; the null edge is no edge. *)
Definition not_backwards (currentEdge : nat) (edgeId : option nat) : bool := match edgeId with Some e => negb (Nat.lor currentEdge 1 =? Nat.lor e 1) | None => true end.
(** The edges of the current node: the edge to [t2Id], or the queue with their ends. *)
Fixpoint scan_edges (fuel : nat) (t2Id currentIndex : nat) (current : BfsData) (currentEdge : option nat) (bfsQueue : list BfsData) : M (option nat * list BfsData) :=
  match currentEdge with
  | None => Ok (None, bfsQueue)
  | Some e =>
      match fuel with
      | O => Throw OutOfFuel
      | S fuel' =>
          edge ← at_edge e;
          if not_backwards e (edgeId current) then
            if d_nodeId edge =? t2Id then Ok (Some e, bfsQueue)
            else scan_edges fuel' t2Id currentIndex current (d_next edge) (bfsQueue ++ [MkBfs (d_nodeId edge) (Some e) currentIndex])
          else scan_edges fuel' t2Id currentIndex current (d_next edge) bfsQueue
      end
  end.
(** The last edge of the path, the place of its first end in the queue, and the queue. *)
Fixpoint bfs_loop (fuel : nat) (t2Id currentIndex : nat) (bfsQueue : list BfsData) : M (nat * nat * list BfsData) :=
  match fuel with
  | O => Throw OutOfFuel
  | S fuel' =>
      match bfsQueue !! currentIndex with
      | None => Throw AssertionFailed
      | Some current =>
          match d_equalityGraph s !! nodeId current with
          | None => Throw OutOfBounds
          | Some currentEdge =>
              '(found, bfsQueue) ← scan_edges (length (d_equalityEdges s)) t2Id currentIndex current currentEdge bfsQueue;
              match found with
              | Some e => Ok (e, currentIndex, bfsQueue)
              | None => bfs_loop fuel' t2Id (S currentIndex) bfsQueue
              end
          end
      end
  end.

(** ** The path *)
Section path.
Context (getExplanation : nat -> nat -> Reasons -> M Reasons).
(** "Explain why a is a constant by explaining each argument" *)
Fixpoint explain_children (l : list Term) (equalities : Reasons) : M Reasons :=
  match l with
  | [] => Ok equalities
  | x :: l =>
      childId ← id_of x;
      c ← isConstant childId;
      _ ← check AssertionFailed c;
      n ← at_node childId;
      equalities ← getExplanation childId (d_findId n) equalities;
      explain_children l equalities
  end.
(** The reasons of one edge. *)
Definition explain_edge (currentNode : nat) (edge : EqualityEdge) (equalities : Reasons) : M Reasons :=
  let edgeNode := d_nodeId edge in
  match d_mergeType edge with
  | MERGED_THROUGH_CONGRUENCE =>
      f1 ← at_application currentNode; f2 ← at_application edgeNode;
      equalities ← getExplanation (fa_a f1) (fa_a f2) equalities;
      getExplanation (fa_b f1) (fa_b f2) equalities
  | MERGED_THROUGH_REFLEXIVITY =>
      let eqId := if currentNode =? d_trueId then edgeNode else currentNode in
      eq ← at_application eqId;
      _ ← check AssertionFailed (isEquality eq);
      getExplanation (fa_a eq) (fa_b eq) equalities
  | MERGED_THROUGH_CONSTANTS =>
      i1 ← at_info currentNode; i2 ← at_info edgeNode;
      let interpreted := if isConst (nd_node i1) then nd_node i2 else nd_node i1 in
      explain_children (children interpreted) equalities
  | _ => Ok (equalities ++ [d_reason edge])
  end.
(** "Reconstruct the path", from its last edge. *)
Fixpoint path_loop (fuel : nat) (bfsQueue : list BfsData) (currentIndex currentEdge : nat) (equalities : Reasons) : M Reasons :=
  match fuel with
  | O => Throw OutOfFuel
  | S fuel' =>
      match bfsQueue !! currentIndex with
      | None => Throw OutOfBounds
      | Some current =>
          edge ← at_edge currentEdge;
          equalities ← explain_edge (nodeId current) edge equalities;
          match edgeId current with
          | None => Ok equalities
          | Some e => path_loop fuel' bfsQueue (previousIndex current) e equalities
          end
      end
  end.
End path.
(** The recursion goes down to edges that are older. *)
Fixpoint explain_loop (fuel : nat) (t1Id t2Id : nat) (equalities : Reasons) : M Reasons :=
  match fuel with
  | O => Throw OutOfFuel
  | S fuel' =>
      n1 ← at_node t1Id; n2 ← at_node t2Id;
      c1 ← isConstant t1Id; c2 ← isConstant t2Id;
      _ ← check AssertionFailed ((d_findId n1 =? d_findId n2) || (d_done (d_counters s) && c1 && c2));
      if t1Id =? t2Id then Ok equalities
      else
        '(currentEdge, currentIndex, bfsQueue) ← bfs_loop (length (d_nodes s)) t2Id 0 [MkBfs t1Id None 0];
        path_loop (explain_loop fuel') (length bfsQueue) bfsQueue currentIndex currentEdge equalities
  end.
Definition getExplanation (t1Id t2Id : nat) (equalities : Reasons) : M Reasons := explain_loop (S (length (d_equalityEdges s))) t1Id t2Id equalities.

(** Nobody was notified of a disequality: [d_disequalityReasonsMap] is empty. *)
Definition explainEquality (t1 t2 : Term) (polarity : bool) (equalities : Reasons) : M Reasons :=
  t1Id ← id_of t1; t2Id ← id_of t2;
  if polarity then getExplanation t1Id t2Id equalities else Throw AssertionFailed.
Definition explainPredicate (p : Term) (polarity : bool) (assertions : Reasons) : M Reasons :=
  i ← id_of p;
  getExplanation i (if polarity then d_trueId else d_falseId) assertions.
End explain.
