(* ===== verification/EqualityExplainCorrect.v ===== *)
(** * Explanations are right

    The search finds the walk between two nodes, each node is in its queue once, and the
    recursion ends.  The reasons that are returned were asserted, and the equalities
    asserted for them entail the equality that was to be explained. *)

From S2P Require Import Prelude EqualityEngine EqualityClasses EqualityBacktrack EqualityForest EqualityClosure EqualityPropagate EqualityNodes EqualityTerms EqualityAdd EqualityModel EqualityEngineCorrect EqualityExplain.
Local Open Scope nat_scope.

(** ** Lists of edges *)
Lemma edge_list_length edges g l : EdgeList edges g l -> length l <= length edges /\ NoDup l.
Proof.
  intros HL. assert (length l <= match g with Some e => S e | None => 0 end /\ NoDup l) as [Hl Hnd].
  - induction HL as [|e ed l He Hlt HL [IH1 IH2]]; [split; [done | constructor] |]. split; [| constructor; [intros Hin; specialize (Hlt _ Hin); lia | done]]. cbn. inversion HL as [E1 E2 | e' ed' l' He' Hlt' HL' E1 E2]; subst; [cbn; lia |]. rewrite <- E1 in IH1. specialize (Hlt e' ltac:(by left)). cbn in *. lia.
  - split; [| done]. destruct HL as [|e ed l He _ _]; [lia |]. apply lookup_lt_Some in He. lia.
Qed.
Lemma lor_half e e' : Nat.lor e 1 = Nat.lor e' 1 <-> e / 2 = e' / 2.
Proof.
  assert (forall x, Nat.lor x 1 = 2 * (x / 2) + 1) as Hx; [| rewrite !Hx; lia]. intros x. apply Nat.bits_inj. intros [|k].
  - rewrite Nat.lor_spec, Nat.testbit_odd_0. apply orb_true_r.
  - rewrite Nat.lor_spec, Nat.testbit_odd_succ by lia. assert (Nat.testbit 1 (S k) = false) as -> by (cbn; apply Nat.bits_0). rewrite orb_false_r. change 2 with (2 ^ 1). by rewrite Nat.div_pow2_bits, Nat.add_1_r.
Qed.
(** Walks that are extended at their end. *)
Lemma forward_snoc es e : forward (es ++ [e]) <-> forward es /\ match last es with Some e' => e' / 2 <> e / 2 | None => True end.
Proof.
  induction es as [|a es IH]; [done |]. destruct es as [|b es]; [cbn; tauto |]. change (last (a :: b :: es)) with (last (b :: es)). change (forward ((a :: b :: es) ++ [e])) with (a / 2 <> b / 2 /\ forward ((b :: es) ++ [e])). rewrite IH. cbn [forward]. tauto.
Qed.
Lemma walk_snoc_edge P u es v e w : Walk P u es v -> edge_ends P e = Some (v, w) -> Walk P u (es ++ [e]) w.
Proof. intros H He. eapply walk_app; [done |]. econstructor; [done | constructor]. Qed.

Section search.
Context (s : EqualityEngine) (A : nat -> nat -> option Term -> Prop).
Abbreviation edges := (d_equalityEdges s).
Abbreviation P := (pairs_of (d_equalityEdges s)).
Abbreviation n := (nodes_of s).
Hypothesis HE : Edges A s.
Hypothesis HSh : Shape s.
Lemma at_edge_ok e u v : edge_ends P e = Some (u, v) -> exists ed, edges !! e = Some ed /\ d_nodeId ed = v.
Proof.
  unfold edge_ends. destruct (P !! (e / 2)) as [[x y]|] eqn:E; [| done]. apply pairs_lookup in E as (e1 & e2 & H1 & H2 & -> & ->). cbn [mbind option_bind]. destruct (Nat.even e) eqn:Ev; intros [= <- <-].
  - apply Nat.even_spec in Ev as [k ->]. rewrite half_even in H1. by exists e1.
  - assert (Nat.odd e = true) as Od by (unfold Nat.odd; by rewrite Ev). apply Nat.odd_spec in Od as [k ->]. rewrite half_odd in H2. by exists e2.
Qed.
Lemma edge_lt e u v : edge_ends P e = Some (u, v) -> u < n /\ v < n.
Proof. intros [H | H]%edge_ends_in; apply (eg_bounds _ _ HE) in H as [? ?]; done. Qed.
Lemma walk_lt u es v : Walk P u es v -> u < n -> v < n.
Proof. induction 1 as [|u v w e es He _ IH]; [done |]. intros _. apply IH. by eapply edge_lt. Qed.

(** ** One node of the queue *)
Definition entry (idx e : nat) : BfsData := MkBfs (match edges !! e with Some ed => d_nodeId ed | None => 0 end) (Some e) idx.
Lemma scan_ok t2 idx cur : forall l g fuel Q, EdgeList edges g l -> length l <= fuel -> exists found Q', scan_edges s fuel t2 idx cur g Q = Ok (found, Q') /\
  match found with
  | Some e => e ∈ l /\ not_backwards e (edgeId cur) = true /\ nodeId (entry idx e) = t2 /\ Q `prefix_of` Q'
  | None => Q' = Q ++ (entry idx <$> filter (fun e => not_backwards e (edgeId cur) = true) l) /\ forall e, e ∈ l -> not_backwards e (edgeId cur) = true -> nodeId (entry idx e) <> t2
  end.
Proof.
  induction l as [|e l IH]; intros g fuel Q HL Hf; inversion HL as [| e' ed l' He Hlt HL']; subst.
  - exists None, Q. split; [by destruct fuel |]. split; [by rewrite app_nil_r |]. intros e He. by apply not_elem_of_nil in He.
  - destruct fuel as [|fuel]; cbn in Hf; [lia |]. cbn [scan_edges]. unfold at_edge. rewrite He. cbn [mbind M_bind]. assert (Hen : nodeId (entry idx e) = d_nodeId ed) by (cbn; by rewrite He). rewrite filter_cons.
    destruct (not_backwards e (edgeId cur)) eqn:Eb.
    + destruct (Nat.eqb_spec (d_nodeId ed) t2) as [Et | Et].
      * exists (Some e), Q. split; [done |]. split; [by left |]. split; [done |]. split; [congruence | done].
      * destruct (IH (d_next ed) fuel (Q ++ [MkBfs (d_nodeId ed) (Some e) idx]) HL' ltac:(lia)) as (found & Q' & E & Hr). exists found, Q'. split; [done |]. destruct found as [e'|].
        -- destruct Hr as (H1 & H2 & H3 & H4). split; [by right |]. split; [done |]. split; [done |]. etransitivity; [| exact H4]. by apply prefix_app_r.
        -- destruct Hr as [-> Hr]. rewrite decide_True by done. split; [rewrite <- app_assoc; cbn; unfold entry at 2; by rewrite He |]. intros e' [-> | He']%elem_of_cons; [congruence | by apply Hr].
    + destruct (IH (d_next ed) fuel Q HL' ltac:(lia)) as (found & Q' & E & Hr). exists found, Q'. split; [done |]. destruct found as [e'|].
      * destruct Hr as (H1 & H2 & H3 & H4). split; [by right | done].
      * destruct Hr as [-> Hr]. rewrite decide_False by done. split; [done |]. intros e' [-> | He']%elem_of_cons; [congruence | by apply Hr].
Qed.

(** ** The queue *)
(** The path from [t1] to an entry, the last edge first. *)
Section target.
Context (t1 t2 : nat).
Hypothesis Ht1 : t1 < n.
Hypothesis Hne : t1 <> t2.
Hypothesis Hconn : conn P t1 t2.
Record Bfs (idx : nat) (Q : list BfsData) (W : list (list nat)) : Prop := {
  bf_length : length W = length Q;
  bf_entry i b w : Q !! i = Some b -> W !! i = Some w -> Walk P t1 (rev w) (nodeId b) /\ forward (rev w) /\ edgeId b = head w /\ nodeId b <> t2;
  bf_prev i b e w : Q !! i = Some b -> W !! i = Some (e :: w) -> W !! previousIndex b = Some w /\ previousIndex b < i /\ previousIndex b < idx;
  bf_nodup : NoDup W;
  bf_start : [] ∈ W;
  bf_closed i w e v : i < idx -> W !! i = Some w -> Walk P t1 (rev (e :: w)) v -> forward (rev (e :: w)) -> e :: w ∈ W
}.
Lemma bfs_start : Bfs 0 [MkBfs t1 None 0] [[]].
Proof.
  split; try done.
  - intros [|i] b w; [| done]. intros [= <-] [= <-]. split; [constructor | done].
  - intros [|i] b e w; done.
  - apply NoDup_singleton.
  - by left.
  - intros i w e v Hi. lia.
Qed.
Lemma bfs_walk idx Q W i b : Bfs idx Q W -> Q !! i = Some b -> exists w, W !! i = Some w.
Proof. intros HB Hb. apply lookup_lt_is_Some_2. rewrite (bf_length _ _ _ HB). by eapply lookup_lt_Some. Qed.
Lemma backwards_forward e w : not_backwards e (head w) = true <-> match head w with Some e' => e' / 2 <> e / 2 | None => True end.
Proof. destruct w as [|e' w]; [done |]. cbn [head not_backwards]. rewrite negb_true_iff, Nat.eqb_neq, lor_half. split; intros H E; by apply H. Qed.
Lemma forward_cons_rev e w : forward (rev (e :: w)) <-> forward (rev w) /\ not_backwards e (head w) = true.
Proof. cbn [rev]. rewrite forward_snoc, backwards_forward. assert (last (rev w) = head w) as ->; [| done]. destruct w; [done |]. cbn [rev head]. by rewrite last_snoc. Qed.
(** The edges of an entry. *)
Lemma bfs_edges idx Q W i b w : Bfs idx Q W -> Q !! i = Some b -> W !! i = Some w -> exists g l, d_equalityGraph s !! nodeId b = Some g /\ EdgeList edges g l /\ (forall e, e ∈ l <-> exists v, edge_ends P e = Some (nodeId b, v)).
Proof.
  intros HB Hb Hw. destruct (bf_entry _ _ _ HB i b w Hb Hw) as (HW & _). pose proof (walk_lt _ _ _ HW Ht1) as Hlt. rewrite <- (shape_graph _ HSh) in Hlt. apply lookup_lt_is_Some_2 in Hlt as [g Hg]. destruct (eg_lists _ _ HE _ _ Hg) as (l & HL & Hl). by exists g, l.
Qed.
Section step.
Context (idx : nat) (Q : list BfsData) (W : list (list nat)) (b : BfsData) (w l : list nat).
Hypothesis HB : Bfs idx Q W.
Hypothesis Hb : Q !! idx = Some b.
Hypothesis Hw : W !! idx = Some w.
Hypothesis Hl : forall e, e ∈ l <-> exists v, edge_ends P e = Some (nodeId b, v).
Hypothesis Hnd : NoDup l.
Abbreviation fl := (filter (fun e => not_backwards e (edgeId b) = true) l).
Hypothesis Hnot : forall e, e ∈ l -> not_backwards e (edgeId b) = true -> nodeId (entry idx e) <> t2.
Lemma step_edge e : e ∈ fl -> exists v, edge_ends P e = Some (nodeId b, v) /\ nodeId (entry idx e) = v /\ forward (rev (e :: w)) /\ Walk P t1 (rev (e :: w)) v /\ v <> t2.
Proof.
  intros [He Hin]%list_elem_of_filter. destruct (bf_entry _ _ _ HB _ _ _ Hb Hw) as (HW & Hf & Hh & _). pose proof (Hnot e Hin He) as Hv. apply Hl in Hin as [v Hin]. destruct (at_edge_ok e _ _ Hin) as (ed & Hed & <-). exists (d_nodeId ed). assert (nodeId (entry idx e) = d_nodeId ed) as En by (cbn; by rewrite Hed). rewrite En in Hv.
  split; [done |]. split; [done |]. split; [apply forward_cons_rev; by rewrite <- Hh |]. split; [| done]. cbn [rev]. by eapply walk_snoc_edge.
Qed.
Lemma step_old i (x : list nat) : W !! i = Some x -> (W ++ ((fun e => e :: w) <$> fl)) !! i = Some x.
Proof. apply lookup_app_l_Some. Qed.
Lemma step_lookup i b' w' : (Q ++ (entry idx <$> fl)) !! i = Some b' -> (W ++ ((fun e => e :: w) <$> fl)) !! i = Some w' -> Q !! i = Some b' /\ W !! i = Some w' \/ length Q <= i /\ exists e, e ∈ fl /\ b' = entry idx e /\ w' = e :: w.
Proof.
  intros [H1 | [Hge H1]]%lookup_app_Some [H2 | [Hge2 H2]]%lookup_app_Some; rewrite ?(bf_length _ _ _ HB) in *.
  - by left.
  - apply lookup_lt_Some in H1. lia.
  - apply lookup_lt_Some in H2. rewrite (bf_length _ _ _ HB) in H2. lia.
  - right. split; [done |]. rewrite list_lookup_fmap in H1. rewrite list_lookup_fmap in H2. destruct (fl !! (i - length Q)) as [e|] eqn:Ee; [| done]. injection H1 as <-. injection H2 as <-. exists e. split; [by eapply list_elem_of_lookup_2 | done].
Qed.
Lemma step_nodup : NoDup (W ++ ((fun e => e :: w) <$> fl)).
Proof.
  apply NoDup_app. split; [apply HB |]. split.
  - intros x Hx Hm. apply list_elem_of_fmap in Hm as (e & -> & _). apply list_elem_of_lookup in Hx as [i Hi]. pose proof (lookup_lt_Some _ _ _ Hi) as Hlt. rewrite (bf_length _ _ _ HB) in Hlt. apply lookup_lt_is_Some_2 in Hlt as [b' Hb'].
    destruct (bf_prev _ _ _ HB i b' e w Hb' Hi) as (Hp & _ & Hlt). pose proof (NoDup_lookup _ _ _ _ (bf_nodup _ _ _ HB) Hp Hw). lia.
  - apply NoDup_fmap_2; [by intros x y [=] | by apply NoDup_filter].
Qed.
Lemma bfs_step : Bfs (S idx) (Q ++ (entry idx <$> fl)) (W ++ ((fun e => e :: w) <$> fl)).
Proof.
  pose proof (lookup_lt_Some _ _ _ Hb) as Hidx. split.
  - rewrite !length_app, !length_fmap. by rewrite (bf_length _ _ _ HB).
  - intros i b' w' H1 H2. destruct (step_lookup i b' w' H1 H2) as [[H3 H4] | (_ & e & He & -> & ->)]; [by apply (bf_entry _ _ _ HB i) |]. destruct (step_edge e He) as (v & _ & Hv & Hf & HW & Hvt). rewrite Hv. by split_and!.
  - intros i b' e' w' H1 H2. destruct (step_lookup i b' _ H1 H2) as [[H3 H4] | (Hge & e & He & -> & [= -> ->])].
    + destruct (bf_prev _ _ _ HB i b' e' w' H3 H4) as (? & ? & ?). split; [by apply step_old |]. lia.
    + split; [by apply step_old |]. cbn. lia.
  - apply step_nodup.
  - apply elem_of_app. left. apply HB.
  - intros i x e v Hi Hx HW Hf. apply elem_of_app. pose proof (lookup_lt_Some _ _ _ Hw) as Hlw. rewrite lookup_app_l in Hx by lia. destruct (decide (i = idx)) as [-> | Hii].
    + right. rewrite Hw in Hx. injection Hx as <-. destruct (bf_entry _ _ _ HB _ _ _ Hb Hw) as (HW' & _ & Hh & _). cbn [rev] in HW. apply walk_app_inv in HW as (z & H1 & H2). rewrite (walk_target _ _ _ _ _ H1 HW') in H2. inversion H2 as [|? v' ? ? ? He _]; subst.
      apply list_elem_of_fmap. exists e. split; [done |]. apply list_elem_of_filter. split; [rewrite Hh; by apply forward_cons_rev in Hf as [_ Hf] | apply Hl; by exists v'].
    + left. apply (bf_closed _ _ _ HB i x e v); [lia | done | done | done].
Qed.
End step.
(** Every node is in the queue once. *)
Lemma bfs_bound idx Q W : Bfs idx Q W -> length Q <= n.
Proof.
  intros HB. assert (NoDup ((nodeId <$> Q))) as Hnd.
  - apply NoDup_alt. intros i j x Hi Hj. rewrite list_lookup_fmap in Hi. rewrite list_lookup_fmap in Hj. destruct (Q !! i) as [b|] eqn:Eb, (Q !! j) as [b'|] eqn:Eb'; try done. injection Hi as Hi. injection Hj as Hj. destruct (bfs_walk _ _ _ _ _ HB Eb) as [w Hw], (bfs_walk _ _ _ _ _ HB Eb') as [w' Hw'].
    destruct (bf_entry _ _ _ HB i b w Eb Hw) as (HW & Hf & _), (bf_entry _ _ _ HB j b' w' Eb' Hw') as (HW' & Hf' & _). rewrite Hi in HW. rewrite Hj in HW'.
    pose proof (forest_unique _ (eg_forest _ _ HE) _ _ _ _ HW HW' Hf Hf') as Er. assert (w = w') as <- by (rewrite <- (rev_involutive w), Er; apply rev_involutive). by eapply NoDup_lookup; [apply HB | |].
  - assert ((nodeId <$> Q) ⊆+ seq 0 n) as Hs; [| apply submseteq_length in Hs; by rewrite length_fmap, length_seq in Hs]. apply NoDup_submseteq; [done |]. intros x Hx. apply list_elem_of_fmap in Hx as (b & -> & Hb). apply list_elem_of_lookup in Hb as [i Hi]. destruct (bfs_walk _ _ _ _ _ HB Hi) as [w Hw].
    destruct (bf_entry _ _ _ HB i b w Hi Hw) as (HW & _). apply elem_of_seq. pose proof (walk_lt _ _ _ HW Ht1). lia.
Qed.
(** There is a path, so the queue is not exhausted. *)
Lemma bfs_more idx Q W : Bfs idx Q W -> idx < length Q.
Proof.
  intros HB. destruct (decide (idx < length Q)) as [| Hge]; [done |]. exfalso. assert (Hall : forall w v, Walk P t1 (rev w) v -> forward (rev w) -> w ∈ W).
  { induction w as [|e w IH]; intros v HW Hf; [apply HB |]. pose proof HW as HW0. cbn [rev] in HW. apply walk_app_inv in HW as (z & H1 & _). pose proof Hf as [Hf1 _]%forward_cons_rev. pose proof (IH z H1 Hf1) as Hin. apply list_elem_of_lookup in Hin as [i Hi]. apply (bf_closed _ _ _ HB i w e v); [| done | done | done].
    apply lookup_lt_Some in Hi. rewrite (bf_length _ _ _ HB) in Hi. lia. }
  destruct (walk_exists P t1 t2 Hconn) as (es & HW & Hf). rewrite <- (rev_involutive es) in HW, Hf. pose proof (Hall _ _ HW Hf) as Hin. apply list_elem_of_lookup in Hin as [i Hi]. pose proof (lookup_lt_Some _ _ _ Hi) as Hlt. rewrite (bf_length _ _ _ HB) in Hlt. apply lookup_lt_is_Some_2 in Hlt as [b Hb].
  destruct (bf_entry _ _ _ HB i b _ Hb Hi) as (HW' & _ & _ & Hnt). apply Hnt. by eapply walk_target.
Qed.
(** ** The path that is found *)
Inductive Trail (Q : list BfsData) : nat -> list nat -> nat -> Prop :=
  | trail_start i p : Q !! i = Some (MkBfs t1 None p) -> Trail Q i [] t1
  | trail_step i e p u v w : Q !! i = Some (MkBfs v (Some e) p) -> p < i -> edge_ends P e = Some (u, v) -> Trail Q p w u -> Trail Q i (e :: w) v.
Lemma bfs_trail idx Q W : Bfs idx Q W -> forall w i b, Q !! i = Some b -> W !! i = Some w -> Trail Q i w (nodeId b).
Proof.
  intros HB. induction w as [|e w IH]; intros i b Hb Hw; destruct (bf_entry _ _ _ HB i b _ Hb Hw) as (HW & _ & Hh & _).
  - cbn in HW. assert (t1 = nodeId b) as E by (by inversion HW). rewrite <- E. destruct b as [v e p]. cbn in *. subst. by econstructor.
  - destruct (bf_prev _ _ _ HB i b e w Hb Hw) as (Hp & Hlt & _). pose proof (lookup_lt_Some _ _ _ Hp) as Hlp. rewrite (bf_length _ _ _ HB) in Hlp. apply lookup_lt_is_Some_2 in Hlp as [b' Hb']. destruct (bf_entry _ _ _ HB _ _ _ Hb' Hp) as (HW' & _).
    cbn [rev] in HW. apply walk_app_inv in HW as (z & H1 & H2). rewrite (walk_target _ _ _ _ _ H1 HW') in H2. inversion H2 as [|? v' ? ? ? He Hn]; subst. inversion Hn; subst. destruct b as [v e' p]. cbn in *. subst. by econstructor; [| | | apply IH].
Qed.
Lemma trail_prefix Q Q' i w v : Trail Q i w v -> Q `prefix_of` Q' -> Trail Q' i w v.
Proof. induction 1; intros HQ; [eapply trail_start | eapply trail_step]; try done; [by eapply prefix_lookup_Some | by eapply prefix_lookup_Some | by auto]. Qed.
Lemma bfs_ok : forall fuel idx Q W, Bfs idx Q W -> n <= fuel + idx -> exists e i Q' w u, bfs_loop s fuel t2 idx Q = Ok (e, i, Q') /\ Trail Q' i w u /\ i < length Q' /\ edge_ends P e = Some (u, t2) /\ Walk P t1 (rev (e :: w)) t2 /\ forward (rev (e :: w)).
Proof.
  induction fuel as [|fuel IH]; intros idx Q W HB Hf; pose proof (bfs_more _ _ _ HB) as Hidx; [pose proof (bfs_bound _ _ _ HB); lia |]. cbn [bfs_loop]. pose proof Hidx as [b Hb]%lookup_lt_is_Some_2. destruct (bfs_walk _ _ _ _ _ HB Hb) as [w Hw]. destruct (bfs_edges _ _ _ _ _ _ HB Hb Hw) as (g & l & Hg & HL & Hl). destruct (edge_list_length _ _ _ HL) as [Hll Hnd].
  rewrite Hb, Hg. destruct (scan_ok t2 idx b l g (length edges) Q HL Hll) as (found & Q' & E & Hr). rewrite E. cbn [mbind M_bind]. destruct found as [e|].
  - destruct Hr as (Hin & Hnb & Het & Hpre). apply Hl in Hin as [v Hin]. destruct (at_edge_ok e _ _ Hin) as (ed & Hed & Ev). cbn in Het. rewrite Hed in Het. rewrite Het in Ev. subst v. destruct (bf_entry _ _ _ HB _ _ _ Hb Hw) as (HW & Hfw & Hh & _).
    exists e, idx, Q', w, (nodeId b). split; [done |]. split; [eapply trail_prefix; [by eapply bfs_trail | done] |]. split; [apply prefix_length in Hpre; lia |]. split; [done |]. split; [cbn [rev]; by eapply walk_snoc_edge |]. apply forward_cons_rev. by rewrite <- Hh.
  - destruct Hr as [-> Hnot]. apply (IH _ _ (W ++ ((fun e => e :: w) <$> filter (fun e => not_backwards e (edgeId b) = true) l))); [by apply bfs_step | lia].
Qed.
End target.
End search.

(** ** What reasons entail *)
Section reasons.
Context (B : nat -> bool) (A : nat -> nat -> option Term -> Prop) (s : EqualityEngine).
(** The reasons of asserted equalities that make [i] and [j] equal, in every equivalence that the applications respect. *)
Definition Because (L : Reasons) (i j : nat) : Prop := exists X : list (nat * nat * option Term), L = map snd X /\ (forall x, x ∈ X -> A x.1.1 x.1.2 x.2) /\
  forall J, Respects J B s -> (forall x, x ∈ X -> J x.1.1 x.1.2) -> J i j.
Lemma because_refl i : Because [] i i.
Proof. exists []. split; [done |]. split; [intros x Hx; by apply not_elem_of_nil in Hx |]. intros J HR _. apply (res_equiv _ _ _ HR). Qed.
Lemma because_sym L i j : Because L i j -> Because L j i.
Proof. intros (X & HL & HA & HJ). exists X. split; [done |]. split; [done |]. intros J HR HX. apply (res_equiv _ _ _ HR). by apply HJ. Qed.
Lemma because_asserted i j r : A i j r -> Because [r] i j.
Proof. intros HA. exists [(i, j, r)]. split; [done |]. split; [intros x ->%list_elem_of_singleton; done |]. intros J HR HX. apply (HX (i, j, r)). by left. Qed.
Lemma because_both L1 L2 i1 j1 i2 j2 i j : Because L1 i1 j1 -> Because L2 i2 j2 -> (forall J, Respects J B s -> J i1 j1 -> J i2 j2 -> J i j) -> Because (L1 ++ L2) i j.
Proof.
  intros (X1 & -> & A1 & H1) (X2 & -> & A2 & H2) H. exists (X1 ++ X2). split; [by rewrite map_app |]. split; [intros x [Hx | Hx]%elem_of_app; [by apply A1 | by apply A2] |]. intros J HR HX. apply H; [done | apply H1 | apply H2]; try done; intros x Hx; apply HX, elem_of_app; [by left | by right].
Qed.
Lemma because_one L i1 j1 i j : Because L i1 j1 -> (forall J, Respects J B s -> J i1 j1 -> J i j) -> Because L i j.
Proof. intros (X & HL & HA & HJ) H. exists X. split; [done |]. split; [done |]. intros J HR HX. apply H; [done | by apply HJ]. Qed.

(** ** The edges *)
Hypothesis HX : Explainable B A s.
(** The terms of equalities, and of false. *)
Hypothesis HT : forall f p, app_of s f p -> oty p = APP_EQUALITY -> exists info u v, d_nodes s !! f = Some info /\ nd_node info = Equal u v /\ d_nodeIds s !! u = Some (oa p) /\ d_nodeIds s !! v = Some (ob p).
Hypothesis HFalse : exists info, d_nodes s !! d_falseId = Some info /\ isConst (nd_node info) = true.
Abbreviation edges := (d_equalityEdges s).
Abbreviation P := (pairs_of (d_equalityEdges s)).
Abbreviation n := (nodes_of s).
Lemma edge_justified e u v : edge_ends P e = Some (u, v) -> exists ed, edges !! e = Some ed /\ d_nodeId ed = v /\
  (Justified A s (conn (take (e / 2) P)) u v (d_mergeType ed) (d_reason ed) \/ Justified A s (conn (take (e / 2) P)) v u (d_mergeType ed) (d_reason ed)).
Proof.
  unfold edge_ends. destruct (P !! (e / 2)) as [[x y]|] eqn:E; [| done]. apply pairs_lookup in E as (e1 & e2 & H1 & H2 & -> & ->). destruct (eg_just _ _ (xb_edges _ _ _ HX) _ _ _ H1 H2) as (T1 & T2 & HJs). cbn [mbind option_bind]. destruct (Nat.even e) eqn:Ev; intros [= <- <-].
  - pose proof Ev as [k ->]%Nat.even_spec. rewrite half_even in *. exists e1. split; [done |]. split; [done | by left].
  - assert (Nat.odd e = true) as Od by (unfold Nat.odd; by rewrite Ev). apply Nat.odd_spec in Od as [k ->]. rewrite half_odd in *. exists e2. split; [done |]. split; [done |]. right. by rewrite T1, T2.
Qed.
Section edge.
Context (K : nat) (rec : nat -> nat -> Reasons -> M Reasons).
Hypothesis HK : K <= length P.
Hypothesis Hrec : forall k i j eqs, k < K -> i < n -> j < n -> conn (take k P) i j -> fnds s i = fnds s j -> exists L, rec i j eqs = Ok (eqs ++ L) /\ Because L i j.
Lemma rec_early k i j eqs : k < K -> i < n -> j < n -> conn (take k P) i j -> exists L, rec i j eqs = Ok (eqs ++ L) /\ Because L i j.
Proof. intros Hk Hi Hj Hc. apply (Hrec k); try done. apply (xb_early _ _ _ HX k); [lia | done | done | done]. Qed.
Lemma app_args f p : app_of s f p -> oa p < n /\ ob p < n.
Proof. apply (st_app_lt _ _ _ _ (xb_static _ _ _ HX)). Qed.
Lemma at_application_ok f p : app_of s f p -> at_application s f = Ok (original p).
Proof. intros (info & Hi & Hp). unfold at_application, at_info. rewrite Hi. cbn. by rewrite Hp. Qed.
Lemma congruence_ok k u v p q eqs : k < K -> app_of s u p -> app_of s v q -> oty p = oty q -> conn (take k P) (oa p) (oa q) -> conn (take k P) (ob p) (ob q) ->
  exists L, (f1 ← at_application s u; f2 ← at_application s v; eqs ← rec (fa_a f1) (fa_a f2) eqs; rec (fa_b f1) (fa_b f2) eqs) = Ok (eqs ++ L) /\ Because L u v.
Proof.
  intros Hk Hp Hq Ht Ha Hb. rewrite (at_application_ok u p Hp), (at_application_ok v q Hq). cbn [mbind M_bind]. destruct (app_args _ _ Hp) as [Lpa Lpb], (app_args _ _ Hq) as [Lqa Lqb]. destruct (rec_early k (oa p) (oa q) eqs) as (L1 & E1 & H1); try done. rewrite E1. cbn [mbind M_bind].
  destruct (rec_early k (ob p) (ob q) (eqs ++ L1)) as (L2 & E2 & H2); try done. rewrite E2. exists (L1 ++ L2). split; [by rewrite app_assoc |]. eapply because_both; [exact H1 | exact H2 |]. intros J HR Ja Jb. by apply (res_congr _ _ _ HR u v p q).
Qed.
Lemma reflexivity_ok k u p eqs : k < K -> app_of s u p -> oty p = APP_EQUALITY -> conn (take k P) (oa p) (ob p) ->
  exists L, (eq ← at_application s u; _ ← check AssertionFailed (isEquality eq); rec (fa_a eq) (fa_b eq) eqs) = Ok (eqs ++ L) /\ Because L u d_trueId.
Proof.
  intros Hk Hp Ht Hc. rewrite (at_application_ok u p Hp). cbn [mbind M_bind]. unfold isEquality. rewrite Ht. cbn [check mbind M_bind]. destruct (app_args _ _ Hp) as [Lpa Lpb]. destruct (rec_early k (oa p) (ob p) eqs) as (L & E & H1); try done. exists L. split; [done |].
  eapply because_one; [exact H1 |]. intros J HR. by apply (res_true _ _ _ HR u p).
Qed.
Lemma child_ok k x i c eqs : k < K -> d_nodeIds s !! x = Some i -> i < n -> isC s c = true -> conn (take k P) i c ->
  exists L, (forall l, explain_children s rec (x :: l) eqs = explain_children s rec l (eqs ++ L)) /\ Because L i c.
Proof.
  intros Hk Hx Hi Hc Hic. pose proof (isC_lt _ _ Hc) as Hcl. pose proof (xb_const _ _ _ HX c Hc) as Hcc. assert (Hf : fnds s i = c) by (rewrite <- Hcc; apply (xb_early _ _ _ HX k); [lia | done | done | done]).
  pose proof Hi as Hin. rewrite <- (shape_vec _ (st_shape _ _ (xb_static _ _ _ HX))) in Hin. apply lookup_lt_is_Some_2 in Hin as [m Hm]. rewrite (fnd_Some _ _ _ Hm) in Hf. destruct (rec_early k i c eqs) as (L & E & H1); try done. exists L. split; [| done]. intros l.
  cbn [explain_children]. unfold id_of, isConstant, at_node, at_info. rewrite Hx. cbn [mbind M_bind]. rewrite Hm. cbn [mbind M_bind]. rewrite Hf. unfold isC in Hc. destruct (d_nodes s !! c) as [info|]; [| done]. cbn [mbind M_bind]. rewrite Hc. cbn [check mbind M_bind]. by rewrite E.
Qed.
Lemma constants_ok k f p c d eqs : k < K -> app_of s f p -> oty p = APP_EQUALITY -> isC s c = true -> isC s d = true -> c <> d -> conn (take k P) (oa p) c -> conn (take k P) (ob p) d ->
  exists info L, d_nodes s !! f = Some info /\ isConst (nd_node info) = false /\ explain_children s rec (children (nd_node info)) eqs = Ok (eqs ++ L) /\ Because L f d_falseId.
Proof.
  intros Hk Hp Ht Hc Hd Hne Ha Hb. destruct (HT f p Hp Ht) as (info & u & v & Hi & Hn & Hu & Hv). destruct (app_args _ _ Hp) as [Lpa Lpb]. destruct (child_ok k u (oa p) c eqs) as (L1 & E1 & H1); try done. destruct (child_ok k v (ob p) d (eqs ++ L1)) as (L2 & E2 & H2); try done.
  exists info, (L1 ++ L2). rewrite Hn. split; [done |]. split; [done |]. split; [cbn [children]; rewrite E1, E2; cbn; by rewrite app_assoc |]. eapply because_both; [exact H1 | exact H2 |]. intros J HR Ja Jb. by apply (res_false _ _ _ HR f p c d).
Qed.
Lemma explain_edge_ok e u v eqs : edge_ends P e = Some (u, v) -> e / 2 < K -> exists ed L, edges !! e = Some ed /\ explain_edge s rec u ed eqs = Ok (eqs ++ L) /\ Because L u v.
Proof.
  intros He Hk. destruct (edge_justified e u v He) as (ed & Hed & Hv & Hj). exists ed. unfold explain_edge. rewrite Hv. pose proof HFalse as (fi & Hfi & Hfc).
  assert (exists L, explain_edge s rec u ed eqs = Ok (eqs ++ L) /\ Because L u v) as (L & E & HL); [| exists L; split; [done |]; split; [| done]; unfold explain_edge in E; by rewrite Hv in E]. unfold explain_edge. rewrite Hv. destruct (d_mergeType ed); cbn in Hj.
  - destruct Hj as [(p & q & Hp & Hq & Ht & Ha & Hb) | (p & q & Hp & Hq & Ht & Ha & Hb)]; [by apply (congruence_ok (e / 2) u v p q) |]. apply (congruence_ok (e / 2) u v q p); try done; by symmetry.
  - assert (A u v (d_reason ed) \/ A v u (d_reason ed)) as [HA | HA] by done; exists [d_reason ed]; (split; [done |]); [| apply because_sym]; by apply because_asserted.
  - destruct Hj as [(-> & p & Hp & Ht & Hc) | (-> & p & Hp & Ht & Hc)].
    + assert ((if u =? d_trueId then d_trueId else u) = u) as -> by (destruct (Nat.eqb_spec u d_trueId); congruence). by apply (reflexivity_ok (e / 2) u p).
    + rewrite Nat.eqb_refl. destruct (reflexivity_ok (e / 2) v p eqs) as (L & E & HL); try done. exists L. split; [done | by apply because_sym].
  - unfold at_info. destruct Hj as [(-> & p & c & d & Hp & Ht & Hc & Hd & Hne & Ha & Hb) | (-> & p & c & d & Hp & Ht & Hc & Hd & Hne & Ha & Hb)]; destruct (constants_ok (e / 2) _ p c d eqs Hk Hp Ht Hc Hd Hne Ha Hb) as (info & L & Hi & Hn & E & HL); rewrite Hi, Hfi; cbn [mbind M_bind]; exists L.
    + rewrite Hn. by split.
    + rewrite Hfc. split; [done | by apply because_sym].
  - assert (A u v (d_reason ed) \/ A v u (d_reason ed)) as [HA | HA] by done; exists [d_reason ed]; (split; [done |]); [| apply because_sym]; by apply because_asserted.
  - assert (A u v (d_reason ed) \/ A v u (d_reason ed)) as [HA | HA] by done; exists [d_reason ed]; (split; [done |]); [| apply because_sym]; by apply because_asserted.
Qed.
Lemma path_ok t1 Q w : forall i u e v eqs fuel, Trail s t1 Q i w u -> edge_ends P e = Some (u, v) -> Forall (fun e => e / 2 < K) (e :: w) -> i < fuel -> exists L, path_loop s rec fuel Q i e eqs = Ok (eqs ++ L) /\ Because L t1 v.
Proof.
  induction w as [|e' w IH]; intros i u e v eqs fuel HTr He HF Hf; (destruct fuel as [|fuel]; [lia |]); cbn [path_loop]; apply Forall_cons in HF as [Hk HF]; destruct (explain_edge_ok e u v eqs He Hk) as (ed & L & Hed & E & HL); unfold at_edge; inversion HTr as [i' p Hq | i' e0 p u' v' w' Hq Hlt He' HTr']; subst.
  - rewrite Hq, Hed. cbn [mbind M_bind nodeId edgeId]. rewrite E. cbn. by exists L.
  - rewrite Hq, Hed. cbn [mbind M_bind nodeId edgeId previousIndex]. rewrite E. cbn [mbind M_bind]. destruct (IH p u' e' u (eqs ++ L) fuel HTr' He' HF ltac:(lia)) as (L' & E' & HL'). exists (L ++ L'). rewrite E', app_assoc. split; [done |].
    eapply because_both; [exact HL | exact HL' |]. intros J HR J1 J2. pose proof (res_equiv _ _ _ HR). by transitivity u.
Qed.
End edge.
(** ** The recursion *)
Definition can_explain (i j : nat) : Prop := fnds s i = fnds s j \/ d_done (d_counters s) = true /\ isC s (fnds s i) = true /\ isC s (fnds s j) = true.
Lemma isConstant_ok i : i < n -> exists m, d_equalityNodes s !! i = Some m /\ d_findId m = fnds s i /\ isConstant s i = Ok (isC s (fnds s i)).
Proof.
  intros Hi. pose proof (xb_find _ _ _ HX i Hi) as Hf. rewrite <- (shape_vec _ (st_shape _ _ (xb_static _ _ _ HX))) in Hi. apply lookup_lt_is_Some_2 in Hi as [m Hm]. exists m. split; [done |]. rewrite (fnd_Some _ _ _ Hm) in *. split; [done |].
  unfold isConstant, at_node, at_info, isC. rewrite Hm. cbn [mbind M_bind]. apply lookup_lt_is_Some_2 in Hf as [info Hinfo]. by rewrite Hinfo.
Qed.
Lemma explain_ok fuel : forall K i j eqs, K < fuel -> K <= length P -> i < n -> j < n -> conn (take K P) i j -> can_explain i j -> exists L, explain_loop s fuel i j eqs = Ok (eqs ++ L) /\ Because L i j.
Proof.
  induction fuel as [|fuel IH]; intros K i j eqs Hf HK Hi Hj Hc Hcan; [lia |]. cbn [explain_loop]. destruct (isConstant_ok i Hi) as (m1 & H1 & F1 & C1), (isConstant_ok j Hj) as (m2 & H2 & F2 & C2). unfold at_node. rewrite H1, H2. cbn [mbind M_bind]. rewrite C1, C2. cbn [mbind M_bind].
  assert ((d_findId m1 =? d_findId m2) || (d_done (d_counters s) && isC s (fnds s i) && isC s (fnds s j)) = true) as -> by (rewrite F1, F2; destruct Hcan as [-> | (-> & -> & ->)]; [by rewrite Nat.eqb_refl | apply orb_true_r]). cbn [check mbind M_bind].
  destruct (Nat.eqb_spec i j) as [-> | Hne]; [exists []; rewrite app_nil_r; split; [done | apply because_refl] |]. pose proof (st_shape _ _ (xb_static _ _ _ HX)) as HSh. pose proof (xb_edges _ _ _ HX) as HE.
  destruct (bfs_ok s A HE HSh i j Hi Hne (conn_all _ _ _ _ Hc) n 0 [MkBfs i None 0] [[]]) as (e & idx & Q & w & u & E & HTr & Hlt & He & HW & Hfw); [by apply bfs_start | lia |]. rewrite E. cbn [mbind M_bind].
  apply (path_ok K (explain_loop s fuel) HK) with (w := w) (u := u); [| done | done | | done].
  - intros k x y l Hk Hx Hy Hxy Hfnd. apply (IH k); [lia | lia | done | done | done | by left].
  - rewrite <- (rev_involutive (e :: w)). apply List.Forall_rev. by eapply walk_within; [apply HE | exact HW | |].
Qed.
Lemma getExplanation_ok i j eqs : i < n -> j < n -> conn P i j -> can_explain i j -> exists L, getExplanation s i j eqs = Ok (eqs ++ L) /\ Because L i j.
Proof.
  intros Hi Hj Hc Hcan. pose proof (shape_edges _ (st_shape _ _ (xb_static _ _ _ HX))) as He. pose proof (pairs_length _ _ He) as Hl. apply (explain_ok _ (length P)); try done; [lia | by rewrite take_ge].
Qed.
End reasons.

(** ** Terms *)
Section terms.
Context (Sg : Signature) (F : Facts) (D : list Part) (s : EqualityEngine).
Hypothesis HF : forallb (wf_fact Sg) F = true.
Hypothesis HN : NodesOk Sg D (d_nodes s).
Hypothesis HI : IdsOk [] D (d_nodeIds s).
Hypothesis HX : Explainable (B Sg D) (asserted F D) s.
Lemma part_known i t : D !! i = Some (Full t) -> d_nodeIds s !! t = Some i /\ i < nodes_of s.
Proof. intros Hi. split; [by apply HI |]. rewrite <- (no_length _ _ _ HN). by eapply lookup_lt_Some. Qed.
Lemma equality_terms f p : app_of s f p -> oty p = APP_EQUALITY -> exists info u v, d_nodes s !! f = Some info /\ nd_node info = Equal u v /\ d_nodeIds s !! u = Some (oa p) /\ d_nodeIds s !! v = Some (ob p).
Proof.
  intros Hp Ht. destruct (app_node Sg D s f p HN Hp) as (q & Hq & Aq). inversion Aq as [| | a op l x Et | a u v Et Da Db Bu Bv]; subst; [congruence |]. destruct Hp as (info & Hi & _). exists info, u, v. split; [done |]. split; [by eapply (no_term _ _ _ HN) |]. split; by apply part_known.
Qed.
Lemma false_term : exists info, d_nodes s !! d_falseId = Some info /\ isConst (nd_node info) = true.
Proof.
  pose proof (no_false _ _ _ HN) as Hf. destruct (part_known _ _ Hf) as [_ Hlt]. apply lookup_lt_is_Some_2 in Hlt as [info Hi]. exists info. split; [done |]. by rewrite (no_term _ _ _ HN _ _ _ Hi Hf).
Qed.
(** The facts that were asserted for some reasons. *)
Lemma because_facts (X : list (nat * nat * option Term)) : (forall x, x ∈ X -> asserted F D x.1.1 x.1.2 x.2) -> exists X' : Facts, (forall f, f ∈ X' -> f ∈ F) /\ map snd X = map snd X' /\ (forall x, x ∈ X -> J Sg X' D x.1.1 x.1.2).
Proof.
  induction X as [|[[i j] r] X IH]; intros HA.
  - exists []. split; [intros f Hf; by apply not_elem_of_nil in Hf |]. split; [done |]. intros x Hx. by apply not_elem_of_nil in Hx.
  - destruct IH as (X' & Hs & Hm & HJ); [intros x Hx; apply HA; by right |]. destruct (HA (i, j, r) ltac:(by left)) as (a & b & Ha & Hb & Hf). cbn in Ha, Hb, Hf. exists ((a, b, r) :: X'). split; [intros f [-> | Hin]%elem_of_cons; [done | by apply Hs] |]. split; [cbn; by rewrite Hm |].
    intros x [-> | Hx]%elem_of_cons; [| eapply J_more; [| by apply HJ]; intros y Hy; by right]. right. exists (Full a), (Full b). split; [done |]. split; [done |]. apply (entails_fact _ _ _ _ r). by left.
Qed.
Definition explained (L : Reasons) (a b : Term) : Prop := exists X : Facts, (forall f, f ∈ X -> f ∈ F) /\ L = map snd X /\ entails Sg X a b.
Lemma because_entails L i j a b : Because (B Sg D) (asserted F D) s L i j -> D !! i = Some (Full a) -> D !! j = Some (Full b) -> explained L a b.
Proof.
  intros (X & -> & HA & HJ) Hi Hj. destruct (because_facts X HA) as (X' & Hs & Hm & HX'). exists X'. split; [done |]. split; [done |]. assert (HR : Respects (J Sg X' D) (B Sg D) s) by (apply nodes_respect; [by eapply facts_sub | done]).
  destruct (J_part _ _ _ _ _ _ (HJ _ HR HX') Hi) as (q & Hq & Pq). rewrite Hj in Hq. by injection Hq as <-.
Qed.
Lemma explain_terms i j a b : D !! i = Some (Full a) -> D !! j = Some (Full b) -> conn (pairs_of (d_equalityEdges s)) i j -> can_explain s i j -> exists L, getExplanation s i j [] = Ok L /\ explained L a b.
Proof.
  intros Hi Hj Hc Hcan. destruct (part_known _ _ Hi) as [_ Li], (part_known _ _ Hj) as [_ Lj]. destruct (getExplanation_ok (B Sg D) (asserted F D) s HX equality_terms false_term i j [] Li Lj Hc Hcan) as (L & E & HL). exists L. split; [done | by eapply because_entails].
Qed.
End terms.

(** ** Sessions *)
(** A const method leaves the state as it is. *)
Definition reading {X} (f : EqualityEngine -> M X) : EM X := fun s => match f s with Ok x => Ok (x, s) | Throw e => Throw e end.
(** Add two terms, and explain their equality, or one of a predicate and a truth value. *)
Definition explain_new (t1 t2 : Term) : EM Reasons := _ ← addTerm t1; _ ← addTerm t2; reading (fun s => explainEquality s t1 t2 true []).
Definition explain_predicate (t : Term) (polarity : bool) : EM Reasons := _ ← addTerm t; reading (fun s => explainPredicate s t polarity []).
Section states.
Context (Sg : Signature) (F : Facts).
(** Nodes of a consistent state. *)
Lemma good_explain D s i j a b : forallb (wf_fact Sg) F = true -> Core Sg F [] D s -> d_propagationQueue s = [] -> Holds F D s -> D !! i = Some (Full a) -> D !! j = Some (Full b) ->
  (entails Sg F a b -> exists L, getExplanation s i j [] = Ok L /\ explained Sg F L a b) /\ (~ entails Sg F a b -> getExplanation s i j [] = Throw AssertionFailed).
Proof.
  intros HF HC Hq HH Hi Hj. pose proof HC as [(HM & _ & Hd) HN HI _]. pose proof (mid_explainable _ _ _ _ _ HM) as HX. destruct (part_known Sg D s HN HI _ _ Hi) as [_ Li], (part_known Sg D s HN HI _ _ Hj) as [_ Lj]. split.
  - intros He. pose proof (model_complete Sg s F D HC Hq HH a b i j Hi Hj He) as Hf. eapply explain_terms; try done; [by apply (xp_conn _ _ (mid_expl _ _ _ _ _ HM)) | by left].
  - intros He. assert (Hf : fnds s i <> fnds s j) by (intros Hf; by apply He, (model_sound Sg s F D HC a b i j)). unfold getExplanation. cbn [explain_loop]. destruct (isConstant_ok _ _ _ HX i Li) as (m1 & H1 & F1 & C1), (isConstant_ok _ _ _ HX j Lj) as (m2 & H2 & F2 & C2).
    unfold at_node. rewrite H1, H2. cbn [mbind M_bind]. rewrite C1, C2. cbn [mbind M_bind]. rewrite F1, F2, Hd, (proj2 (Nat.eqb_neq _ _) Hf). done.
Qed.
Lemma add_explain s t : State Sg F s -> ~ inconsistent Sg F -> wf Sg t = true -> exists s', addTerm t s = Ok (tt, s') /\ State Sg F s' /\ (exists i, d_nodeIds s' !! t = Some i) /\ forall u, wf Sg u = true -> is_Some (d_nodeIds s !! u) -> is_Some (d_nodeIds s' !! u).
Proof.
  intros HSt Hcons W. assert (Hd : d_done (d_counters s) = false) by (destruct (d_done (d_counters s)) eqn:E; [| done]; destruct Hcons; by apply (state_dec Sg F s HSt)). destruct (add_state Sg F s t HSt W) as (s1 & E1 & [HS1 _ _] & H1 & H2). destruct (H1 Hd) as [_ H3]. exists s1. split; [done |]. split; [done |]. split; [done |]. by apply H2.
Qed.
Lemma state_good s : State Sg F s -> ~ inconsistent Sg F -> exists D, Core Sg F [] D s /\ Holds F D s /\ d_propagationQueue s = [].
Proof. intros [_ HS [[Hd (D & HC & HH)] | [_ [Hi _]]]] Hcons; [exists D; split; [done |]; split; [done | apply HS] | done]. Qed.
Lemma explain_new_ok s t1 t2 : State Sg F s -> ~ inconsistent Sg F -> wf Sg t1 = true -> wf Sg t2 = true ->
  (entails Sg F t1 t2 -> exists L s', explain_new t1 t2 s = Ok (L, s') /\ explained Sg F L t1 t2) /\ (~ entails Sg F t1 t2 -> explain_new t1 t2 s = Throw AssertionFailed).
Proof.
  intros HSt Hcons W1 W2. destruct (add_explain s t1 HSt Hcons W1) as (s1 & E1 & HS1 & K1 & _), (add_explain s1 t2 HS1 Hcons W2) as (s2 & E2 & HS2 & [j Hj] & Hk). destruct (Hk t1 W1 K1) as [i Hi]. unfold explain_new. rewrite (run_bind E1), (run_bind E2). unfold reading, explainEquality, id_of. rewrite Hi, Hj. cbn [mbind M_bind].
  destruct (state_good s2 HS2 Hcons) as (D & HC & HH & Hq). destruct (good_explain D s2 i j t1 t2 (sta_facts _ _ _ HS2) HC Hq HH) as [H1 H2]; [by eapply good_term | by eapply good_term |]. split.
  - intros He. destruct (H1 He) as (L & E & HL). exists L, s2. by rewrite E.
  - intros He. by rewrite (H2 He).
Qed.
Lemma explain_predicate_ok s t b : State Sg F s -> ~ inconsistent Sg F -> wf Sg t = true -> entails Sg F t (BoolConstant b) -> exists L s', explain_predicate t b s = Ok (L, s') /\ explained Sg F L t (BoolConstant b).
Proof.
  intros HSt Hcons W He. destruct (add_explain s t HSt Hcons W) as (s1 & E1 & HS1 & [i Hi] & _). unfold explain_predicate. rewrite (run_bind E1). unfold reading, explainPredicate, id_of. rewrite Hi. cbn [mbind M_bind]. destruct (state_good s1 HS1 Hcons) as (D & HC & HH & Hq).
  assert (D !! (if b then d_trueId else d_falseId) = Some (Full (BoolConstant b))) as Hb by (destruct b; apply HC). destruct (good_explain D s1 i (if b then d_trueId else d_falseId) t (BoolConstant b) (sta_facts _ _ _ HS1) HC Hq HH) as [H1 _]; [by eapply good_term | exact Hb |]. destruct (H1 He) as (L & E & HL). exists L, s1. by rewrite E.
Qed.
(** The conflict that was found. *)
Lemma conflict_explained s : State Sg F s -> inconsistent Sg F -> exists c d L, isConst c = true /\ isConst d = true /\ c <> d /\ explainEquality s c d true [] = Ok L /\ explained Sg F L c d.
Proof.
  intros [HF HS HG] Hi. destruct HG as [[Hd (D & HC & HH)] | [Hd (_ & D & HN & HI & HX & x & y & Cx & Cy & Hne & Hxy)]]; [by destruct (model_consistent Sg s F D HC (sf_queue _ HS) HH Hi) |]. destruct (const_node Sg D s x HN Cx) as (c & Hc & Kc), (const_node Sg D s y HN Cy) as (d & Hdd & Kd).
  destruct (part_known Sg D s HN HI _ _ Hc) as [Ic _], (part_known Sg D s HN HI _ _ Hdd) as [Id _]. destruct (explain_terms Sg F D s HF HN HI HX x y c d Hc Hdd Hxy) as (L & E & HL); [right; by rewrite !(xb_const _ _ _ HX) |].
  exists c, d, L. split; [done |]. split; [done |]. split; [intros ->; by apply Hne, (no_inj _ _ _ HN x y d) |]. unfold explainEquality, id_of. rewrite Ic, Id. by split.
Qed.
End states.

(** ** Theorems *)
(** C6. After any sequence of commands that [engine_decides] is about, with [F] the facts in scope.  When they
    are consistent, [explainEquality] of two terms that are equal under [F], and [explainPredicate] of a term that is true or false
    under [F], return without an exception, and what they return are the reasons of facts [X] in scope that alone entail the
    equality; for terms that are not equal, the assertion of [getExplanation] fails.  When the facts are inconsistent,
    the engine explains the equality of two distinct constants, by the reasons of facts in scope
    that are inconsistent alone. *)
Theorem engine_explains Sg cmds m t1 t2 : levels 0 cmds = Some m -> forallb (wf_command Sg) cmds = true -> wf Sg t1 = true -> wf Sg t2 = true ->
  exists s0 s F Fs, new_EqualityEngine (sg_kinds Sg) = Ok s0 /\ exec_all cmds s0 = Ok (tt, s) /\ Scopes Sg [[]] cmds (F :: Fs) /\
    (~ inconsistent Sg F ->
      (entails Sg F t1 t2 -> exists X s', explain_new t1 t2 s = Ok (map snd X, s') /\ (forall f, f ∈ X -> f ∈ F) /\ entails Sg X t1 t2) /\
      (~ entails Sg F t1 t2 -> explain_new t1 t2 s = Throw AssertionFailed) /\
      (forall b, entails Sg F t1 (BoolConstant b) -> exists X s', explain_predicate t1 b s = Ok (map snd X, s') /\ (forall f, f ∈ X -> f ∈ F) /\ entails Sg X t1 (BoolConstant b))) /\
    (inconsistent Sg F -> exists c d X, isConst c = true /\ isConst d = true /\ c <> d /\ explainEquality s c d true [] = Ok (map snd X) /\ (forall f, f ∈ X -> f ∈ F) /\ entails Sg X c d).
Proof.
  intros Hl Hw W1 W2. destruct (session_run Sg cmds 0 m [] [] [[]] _ Hl Hw (initial_session Sg) eq_refl) as (s & ts & [|F Fs] & E & _ & HSe & Hsc); [done |]. destruct HSe as [HSt _].
  exists (initial (sg_kinds Sg)), s, F, Fs. split; [apply new_run |]. split; [done |]. split; [done |]. split.
  - intros Hcons. destruct (explain_new_ok Sg F s t1 t2 HSt Hcons W1 W2) as [H1 H2]. split; [| split; [done |]].
    + intros He. destruct (H1 He) as (L & s' & EL & X & HX & -> & HeX). by exists X, s'.
    + intros b He. destruct (explain_predicate_ok Sg F s t1 b HSt Hcons W1 He) as (L & s' & EL & X & HX & -> & HeX). by exists X, s'.
  - intros Hi. destruct (conflict_explained Sg F s HSt Hi) as (c & d & L & Hc & Hd & Hne & EL & X & HX & -> & HeX). by exists c, d, X.
Qed.

(** ** Examples *)
(** Reasons are variables here. *)
Definition why (r : positive) : option Term := Some (Var r).
Definition explained_session : list Command :=
  [AssertEquality (ft (Var 1) (Var 2)) (Var 1) true (why 101) MERGED_THROUGH_EQUALITY; AssertEquality (Var 7) (Var 8) true (why 102) MERGED_THROUGH_EQUALITY; AssertEquality (Var 2) (Var 3) true (why 103) MERGED_THROUGH_EQUALITY;
   AssertEquality (Var 4) (Constant 1) true (why 104) (THEORY_REASON 1); AssertEquality (Var 5) (Constant 2) true (why 105) MERGED_THROUGH_EQUALITY].
Definition explanation (cmds : list Command) (t1 t2 : Term) : M Reasons := s0 ← new_EqualityEngine [1%positive]; '(L, _) ← (_ ← exec_all cmds; explain_new t1 t2) s0; Ok L.
Lemma engine_explains_witness : let t1 := ft (ft (Var 1) (Var 3)) (Var 2) in let t2 := Var 1 in
  exists s0 s F Fs, new_EqualityEngine [1%positive] = Ok s0 /\ exec_all explained_session s0 = Ok (tt, s) /\ Scopes uf_signature [[]] explained_session (F :: Fs) /\
    (~ inconsistent uf_signature F ->
      (entails uf_signature F t1 t2 -> exists X s', explain_new t1 t2 s = Ok (map snd X, s') /\ (forall f, f ∈ X -> f ∈ F) /\ entails uf_signature X t1 t2) /\
      (~ entails uf_signature F t1 t2 -> explain_new t1 t2 s = Throw AssertionFailed) /\
      (forall b, entails uf_signature F t1 (BoolConstant b) -> exists X s', explain_predicate t1 b s = Ok (map snd X, s') /\ (forall f, f ∈ X -> f ∈ F) /\ entails uf_signature X t1 (BoolConstant b))) /\
    (inconsistent uf_signature F -> exists c d X, isConst c = true /\ isConst d = true /\ c <> d /\ explainEquality s c d true [] = Ok (map snd X) /\ (forall f, f ∈ X -> f ∈ F) /\ entails uf_signature X c d).
Proof. apply (engine_explains uf_signature explained_session 0); vm_compute; reflexivity. Defined.
(** A congruence under a congruence: a reason may be returned twice; the second fact is not one. *)
Example explain_congruence : explanation explained_session (ft (ft (Var 1) (Var 3)) (Var 2)) (Var 1) = Ok [why 101; why 103; why 101; why 103; why 103].
Proof. vm_compute. reflexivity. Qed.
(** An equality of terms with distinct constant values is false. *)
Example explain_constants : explanation explained_session (Equal (Var 4) (Var 5)) (BoolConstant false) = Ok [why 104; why 105].
Proof. vm_compute. reflexivity. Qed.
Example explain_reflexivity : explanation explained_session (Equal (Var 2) (Var 3)) (BoolConstant true) = Ok [why 103].
Proof. vm_compute. reflexivity. Qed.
Example explain_unknown : explanation explained_session (Var 1) (Var 2) = Throw AssertionFailed.
Proof. vm_compute. reflexivity. Qed.
(** A conflict. *)
Example explain_conflict : (s0 ← new_EqualityEngine [1%positive]; '(L, _) ← (_ ← exec_all (explained_session ++ [AssertEquality (Var 4) (Var 5) true (why 106) MERGED_THROUGH_EQUALITY]); reading (fun s => explainEquality s (Constant 1) (Constant 2) true [])) s0; Ok L) = Ok [why 105; why 106; why 104].
Proof. vm_compute. reflexivity. Qed.
